(* ===== verification/_CoqProject ===== *)
-Q . S2P
Prelude.v
KList.v
FailInject.v
Semaphore.v
SThread.v
Netlock.v
UserCache.v
TaskWorld.v
Mlimit.v
OomKill.v
Buddy.v
BuddySpec.v
Pcp.v
PcpSpec.v
Watermark.v
PageAlloc.v
PageAllocSpec.v
PageBlock.v
Isolate.v
IsolateSpec.v
ContigSpec.v
IsolateDemo.v
ZoneData.v
Zonelist.v
ZonelistSpec.v
ZoneInit.v
ZoneInitSpec.v
ZoneMarks.v
ZoneReserve.v
ZoneDemo.v
MemMap.v
MemMapSpec.v
MemInit.v
Movable.v
MemDemo.v
SchedData.v
Fair.v
Sched.v
SchedSpec.v
SchedRun.v
FairSpec.v
FairClass.v
FairTheorems.v
FairFrame.v
Groups.v
GroupSpec.v
GroupRun.v
GroupCfs.v
GroupTheorems.v
LoadAvg.v
LoadSpec.v
CpuTime.v
CpuTimeSpec.v
CpuTimeDemo.v
Balance.v
BalanceSpec.v
Place.v
PlaceSpec.v
BalanceDemo.v
Domains.v
DomainsSpec.v
DomainsDemo.v
Completion.v
SchedWaker.v
SchedDemo.v
GroupDemo.v
CompletionDemo.v
