(* ===== verification/Prelude.v ===== *)
(** * OSAndroidKernel: a verification library

    The repository holds kernel and user-space code for an Android 3.4 kernel on
    32-bit ARM: a fault injector for system calls, a user-space thread library
    with semaphores, network lock system calls, a scheduling class and the
    scheduler it lives in, and memory limits per user enforced by the page
    allocator and the OOM killer.  This library models that code and proves what
    it does.

    ** Parts of the program and their files

    User space and small system calls:
    - [FailInject.v]: [sys_fail.c] and the hook in [entry-common.S].  The state
      is the global delay and flag and one counter per task.
    - [Semaphore.v]: [hw3/sync.c] and [hw3/sync_ad.c], two implementations of
      one semaphore interface.  Waiters form a linked list in an explicit heap.
    - [SThread.v]: [hw3/sthread.c], the thread library the semaphores use
      (suspend and wake), with its list of thread structs in a heap, the pipes
      and the manager.
    - [Netlock.v]: [hw3/netlock.c], the reader-writer lock system calls.

    Memory:
    - [UserCache.v]: [hw5/kernel/user.c], the reference counted table of users,
      to which the homework adds [mem_max] and [cumulative_mem].
    - [TaskWorld.v]: tasks, address spaces and signal structs as the memory
      code sees them; the users in it are those of [UserCache.v].
    - [Mlimit.v]: [hw5/arch/arm/kernel/set_mlimit.c], which sets a limit.
    - [OomKill.v]: [hw5/mm/oom_kill.c]: scoring, choice and killing of a victim.
    - [Buddy.v], [BuddySpec.v]: the buddy allocator of [hw5/mm/page_alloc.c].
    - [Pcp.v], [PcpSpec.v]: the per-cpu lists in front of it and
      [buffered_rmqueue].  [Watermark.v]: the watermark test.
    - [PageAlloc.v], [PageAllocSpec.v]: [__alloc_pages_nodemask] with the limit
      check, the zonelist walk, the slow path and the routines that free.
    - [ZoneData.v]: nodes and zones for their set-up.  [Zonelist.v],
      [ZonelistSpec.v]: the fallback lists of the nodes ([build_all_zonelists]).
      [ZoneInit.v], [ZoneInitSpec.v], [ZoneMarks.v], [ZoneReserve.v]: watermarks,
      blocks in reserve, reserves of low memory, sizes of the per-cpu lists and
      the handlers of the variables that set them.  [ZoneDemo.v]: two nodes.
    - [MemMap.v], [MemMapSpec.v]: the early memory map and the sizes of nodes and
      zones at boot.  [MemInit.v]: what [free_area_init_node] makes of them.
      [Movable.v]: where the movable zones begin.  [MemDemo.v]: a memory map.
    - [PageBlock.v]: the bitmap of the page blocks.  [Isolate.v], [IsolateSpec.v]:
      isolation of page blocks.  [ContigSpec.v]: migration of a range and memory
      taken off line.  [IsolateDemo.v]: two page blocks.

    Scheduling ([hw4/kernel/sched/core.c], [fair.c], [mycfs.c], [sched.h]):
    - [SchedData.v]: tasks, entities, queues, groups and the run queue.
    - [Fair.v]: the fair class, with groups and bandwidth limits.
    - [Sched.v]: the MYCFS class and the core: priorities, nice values, policies,
      wake-up, fork, tick, context switch and the choice of the next task.
    - [SchedSpec.v], [SchedRun.v]: the core against the interface [ClassLaws] of
      the scheduling classes, operation by operation and over whole runs.
    - [FairSpec.v], [FairClass.v], [FairTheorems.v], [FairFrame.v]: the fair class
      discharges that interface; its own theorems; what it leaves alone.
    - [Groups.v], [GroupSpec.v], [GroupRun.v], [GroupCfs.v], [GroupTheorems.v]:
      task groups, their real-time and fair limits and the control files.
    - [LoadAvg.v], [LoadSpec.v]: the load averages.
    - [CpuTime.v], [CpuTimeSpec.v]: the accounting of ticks to tasks, processors
      and groups, and the times reported.  [CpuTimeDemo.v]: a tree of groups.
    - [Balance.v], [BalanceSpec.v]: the choices of the load balancer: idlest group
      and processor, busiest group and queue, the load to move.  [Place.v],
      [PlaceSpec.v]: the processor for a task that wakes up or is forked.
      [BalanceDemo.v]: four processors.
    - [Domains.v], [DomainsSpec.v]: scheduling domains, the rings of their groups and
      the domains that are left when they are attached.  [DomainsDemo.v]: two pairs.
    - [Completion.v]: wait queues and completions, against the interface [Waker];
      [SchedWaker.v] discharges it with the scheduler.
    - [SchedDemo.v], [GroupDemo.v], [CompletionDemo.v]: a concrete machine.

    [KList.v] is the interface to the kernel's linked lists, used by the user
    cache and the page allocator and discharged by one instance.  This file
    holds record update, machine integers, the state and fault monad [M],
    reachability, and the tactics and lemmas shared by all.

    The parts meet as in the code: semaphores call suspend and wake of the thread
    library; [set_mlimit], the limit check of [__alloc_pages_nodemask] and the OOM
    killer work on the same tasks and users; the allocator calls the OOM killer;
    zones of the buddy allocator are the state of the zonelists and of the set-up,
    which keeps and establishes what the allocator relies on, and of isolation,
    which moves the free blocks of the same lists; the core calls the classes
    through their method table; completions wake tasks through the core; limits of
    groups are those the fair class enforces.

    ** How code is modelled

    A C function is a definition of the same name.  State is passed explicitly:
    [M S A] is code over a state [S] that returns or stops with a [fault] (null
    dereference, use of freed storage, a failed [BUG_ON], a panic, waiting); [returns]
    says that it returns and with what, [ends] allows for the faults named.
    Integers are [Z]; where the C type can overflow, [uwrap] or [swrap] writes
    the wrap-around ([int], [long] and pointers have 32 bits).

    Code outside the repository is a type class of operations: [OS] and [PipeOS]
    (system calls of the thread library), [WaitKernel], [UserKernel], [OomEnv],
    [BuddyConfig], [ZoneEnv], [AllocEnv], [NumaEnv] and [ZoneCalls] (topology and
    arithmetic of the zone set-up), [BootEnv] (the memory map at boot), [IsolateEnv]
    (notifiers and page migration), [TimeEnv] (the clock and the configuration of
    accounting), [LbEnv] and [CpuMasks] (features of the balancer, masks of
    processors), [SchedEnv] (the other classes,
    clock and processes), [FairEnv] (the red-black tree, features and timers),
    [GroupEnv] and [LoadConfig].  What is relied on is a class of laws or a named
    hypothesis: [KListLaws], [RbLaws] (the tree through its list in order),
    [OtherLaws] (the stop, real-time and idle classes), [GroupLaws], [NumaLaws],
    [ZoneLaws], [BootLaws], [InitLaws]; instances in the files show that the laws
    can hold.  A critical section of a lock is one atomic step of the interleaving
    semantics where threads interleave (semaphores, user cache, completions).  There
    is one processor (CONFIG_SMP off) but for the load averages, the accounting of
    time, the choices of the balancer and the zonelists.

    ** What the theorems show

    - Memory: freeing and allocating keep the free blocks of a zone aligned,
      disjoint, merged and counted; exactly the block that is freed or handed
      out changes place; allocation and release are inverse; the same for the
      per-cpu lists, for the whole zonelist walk, and for the machine.  The
      watermark test equals its closed form and guarantees a block.
    - Zones: every node gets a fallback list of every populated zone, once, by
      distance; watermarks are the exact shares of the minimum, reserves the exact
      quotients, their total within the memory there is; all of it keeps zones fit
      for the allocator.
    - Boot: the zones of a node are consecutive intervals that hold all its memory,
      with no more pages counted than are there, and are set up unless the early
      allocator refuses memory, which ends at a failed check or a missing map; the movable zones begin where the
      nodes below them hold what is wanted for the kernel.
    - Isolation: a page block is isolated exactly if the notifiers agree and the zone
      or block is movable or they account for its pages that cannot move; its free
      blocks then leave the counts and the lists they were on, and, with no page on a
      per-cpu list, giving the block back restores both; the bitmap implements a
      map from page blocks to bits; migration ends; taking memory off line removes
      exactly the free blocks that begin in the range.
    - Limits: what the limit check charges and when it refuses; which process
      the OOM killer scores highest and kills; that OOM locks are exclusive;
      when it panics.
    - Users: the cache is a map from user and namespace to live structs with
      positive counts, in every interleaving of look-up, allocation and release.
    - Threads: both semaphores refine an abstract one with permits and a FIFO
      queue, while there is memory for waiters; no permit is created and no wake-up is lost;
      the thread list operations, creation, suspend and wake behave as meant.
    - System calls: the injector fails exactly one call, the first with which a task
      reaches the delay; every outcome of
      the network lock; the effect of [set_mlimit].
    - Scheduler core: over any run of ticks, wake-ups, forks, policy changes and
      context switches the run queue stays consistent and every operation
      returns, unless the task that runs is queued and every class withholds its tasks
      (then it runs on); a task waits for one of a lower class, the idle task
      included, only if its class is throttled; [set_user_nice]
      and [sched_setscheduler] change what they should and report truthfully.
    - Fair class: the time line stays sorted, the leftmost entity or a buddy that
      is not unfair runs next, run time is charged by weight, leaving a queue
      undoes entering it, and bandwidth is neither made nor lost.  The theorems on
      the choice, on entering and on leaving are for queues of tasks without groups
      and bandwidth limits.
    - Groups: limits are admitted exactly if the tree stays schedulable, and stay
      so over any run, for quotas below 4096 periods.  Load: folded counts add up, averages are accurate.
    - Time: a tick is booked once, on the counter of the processor that fits what it
      interrupted, on the task and, but for guest time, on every group above it; the times reported of a task do not decrease.
    - Balancing: the processor, group or queue chosen is extreme among those that
      qualify, and a group is chosen exactly if the load is not even (power savings
      aside); the survey of a domain always ends; with the local group below and the
      busiest above the average, the load to move takes no group across it but by one
      task; a task is placed on an online processor on
      which it may run.  The groups of a domain are a ring that partitions its
      processors; the domains left on a processor all contribute.
    - Completions: completions are neither lost nor made, modulo the width of the
      counter, and a waiter does not sleep through one.

    Some theorems state faults of the code: overgranting by [sync_ad.c], a waiter
    without memory that dereferences a null pointer, an injector that fails the call
    of another task, use after free when all threads exit, writers that ignore readers, a charge per
    process instead of per allocation, the null method that entering the MYCFS
    class calls, the division by a page list fraction of 0, a movable zone placed
    beyond its node, page blocks that are lost when isolated without grouping by
    mobility, and load pulled by a group above the average.

    ** Bounds and fuel

    Loops over lists recurse on the list.  The loops of the buddy allocator and of
    the per-cpu lists take fuel (the orders left for merging, the lists and pages
    left for draining, the pages of a block for moving); the ordering of nodes takes
    [nodes_bound] passes, one more than there are nodes; the walks over groups as
    many steps as there are groups, the walks up a hierarchy its depth; the
    descent through the domains as many turns as the width and level of the widest
    allow; the migration of a range five passes per frame and one; the fixed-point weight and
    the wait table 33 doublings, which exhaust a word.  The theorems that these
    operations return show that this is enough.  Loops the source does not bound
    (retries of the slow path and of the cpuset, [__GFP_NOFAIL]) take fuel as an
    argument, and theorems about them say how many passes are made.  Where a result
    needs values that fit a word, the theorem says so: virtual run times within a
    window of 2^62, fewer than 4096 groups, fewer than 1024 active tasks, fewer than
    2^28 pages, page frames below 2^30.

    ** What is not modelled

    Moving tasks between processors ([move_tasks], [load_balance], idle balancing),
    system calls on affinity and hotplug: the run queues of the scheduler are those
    of one processor, so that a task has one place to be.  Of scheduling domains the
    allocation of the objects, root domains and overlapping groups.
    [alloc_contig_range] and [__reclaim_pages], which drive page isolation and
    compaction outside the repository; hash tables at boot, hibernation and reports
    in [page_alloc.c]; messages and statistics; headers but for the fields and
    constants in use; test programs, patches and system call tables. *)

From stdpp Require Export base tactics functions option list numbers gmap.
From Stdlib Require Export ZArith Lia.

Open Scope Z_scope.

(** ** Record update

    [r <| f := v |>] is the assignment [r.f = v] of C, and [r <| f ::= g |>] is
    [r.f = g (r.f)].  A record opts in by one [Settable] instance that lists its
    projections; the setter of a field is computed from that expansion, so a
    projection of an updated record reduces by [simpl]. *)

Class Settable (R : Type) := eta_record : R → R.
Class Setter {R E : Type} (proj : R → E) := modify_field : (E → E) → R → R.

Ltac head_of t :=
  lazymatch t with
  | ?g _ => head_of g
  | _ => t
  end.

Ltac derive_setter :=
  lazymatch goal with
  | |- @Setter ?R ?E ?proj =>
      let i := eval cbv beta delta [eta_record] in (@eta_record R _) in
      let hd := head_of i in
      let e := eval cbv beta delta [hd] in i in
      exact (λ (f : E → E) (r : R),
        ltac:(let t := eval cbv beta in (e r) in
              lazymatch t with
              | context C [proj r] =>
                  let t' := context C [f (proj r)] in exact t'
              end))
  end.

#[export] Hint Extern 1 (Setter _) => derive_setter : typeclass_instances.

Declare Scope kernel_scope.
Delimit Scope kernel_scope with kernel.
Open Scope kernel_scope.

Notation "r <| p := v |>" := (modify_field (proj := p) (λ _, v) r)
  (at level 1, left associativity, p constr at level 9, v constr at level 200)
  : kernel_scope.
Notation "r <| p ::= f |>" := (modify_field (proj := p) f r)
  (at level 1, left associativity, p constr at level 9, f constr at level 200)
  : kernel_scope.

(** ** Machine integers

    Integers are [Z]; an operation whose C type has [w] bits writes its
    wrap-around with [uwrap w] (unsigned) or [swrap w] (two's complement). *)

Definition uwrap (w z : Z) : Z := z mod 2 ^ w.
Definition swrap (w z : Z) : Z := (z + 2 ^ (w - 1)) mod 2 ^ w - 2 ^ (w - 1).

Abbreviation u32 := (uwrap 32).
Abbreviation s32 := (swrap 32).
Abbreviation u64 := (uwrap 64).
Abbreviation s64 := (swrap 64).

Definition in_u (w z : Z) : Prop := 0 ≤ z < 2 ^ w.
Definition in_s (w z : Z) : Prop := - 2 ^ (w - 1) ≤ z < 2 ^ (w - 1).

Definition INT_MAX : Z := 2 ^ 31 - 1.
Definition LONG_MAX : Z := 2 ^ 31 - 1.
Definition ULONG_MAX : Z := 2 ^ 32 - 1.

(** C's truth value of a comparison used as an integer. *)
Definition b2z (b : bool) : Z := if b then 1 else 0.

(** [flags & mask] used as a condition. *)
Definition has_flag (flags mask : Z) : bool := negb (Z.land flags mask =? 0).

Section wrap_lemmas.
Context (w : Z) (Hw : 0 < w).

Lemma pow2_pos : 0 < 2 ^ w.
Proof using Hw. apply Z.pow_pos_nonneg; lia. Qed.

Lemma pow2_half : 2 ^ w = 2 * 2 ^ (w - 1).
Proof using Hw. rewrite <- Z.pow_succ_r by lia. f_equal; lia. Qed.

Lemma uwrap_range z : in_u w (uwrap w z).
Proof using Hw. apply Z.mod_pos_bound, pow2_pos. Qed.

Lemma uwrap_small z : in_u w z → uwrap w z = z.
Proof using. apply Z.mod_small. Qed.

Lemma swrap_range z : in_s w (swrap w z).
Proof using Hw.
  unfold swrap, in_s. pose proof pow2_half.
  pose proof (Z.mod_pos_bound (z + 2 ^ (w - 1)) (2 ^ w) pow2_pos). lia.
Qed.

Lemma swrap_small z : in_s w z → swrap w z = z.
Proof using Hw.
  unfold swrap, in_s. pose proof pow2_half. intros.
  rewrite Z.mod_small; lia.
Qed.

Lemma uwrap_add_l a b : uwrap w (uwrap w a + b) = uwrap w (a + b).
Proof using. apply Zplus_mod_idemp_l. Qed.

Lemma uwrap_sub_l a b : uwrap w (uwrap w a - b) = uwrap w (a - b).
Proof using. apply Zminus_mod_idemp_l. Qed.

Lemma uwrap_sub_r a b : uwrap w (a - uwrap w b) = uwrap w (a - b).
Proof using. apply Zminus_mod_idemp_r. Qed.

Lemma uwrap_idemp a : uwrap w (uwrap w a) = uwrap w a.
Proof using. apply Zmod_mod. Qed.

(** The signed view of a wrapped value depends on its residue only. *)
Lemma swrap_uwrap a : swrap w (uwrap w a) = swrap w a.
Proof using. unfold swrap, uwrap. by rewrite Zplus_mod_idemp_l. Qed.

Lemma swrap_sub_l a b : swrap w (swrap w a - b) = swrap w (a - b).
Proof using.
  unfold swrap. f_equal.
  replace ((a + 2 ^ (w - 1)) mod 2 ^ w - 2 ^ (w - 1) - b + 2 ^ (w - 1))
    with ((a + 2 ^ (w - 1)) mod 2 ^ w - b) by lia.
  rewrite Zminus_mod_idemp_l. f_equal. lia.
Qed.

Lemma swrap_add_l a b : swrap w (swrap w a + b) = swrap w (a + b).
Proof using.
  replace (swrap w a + b) with (swrap w a - - b) by lia.
  rewrite swrap_sub_l. f_equal. lia.
Qed.
End wrap_lemmas.

Create HintDb wrap.
Create Rewrite HintDb wrap.
#[export] Hint Resolve uwrap_range swrap_range : wrap.
#[export] Hint Rewrite uwrap_idemp uwrap_add_l uwrap_sub_l uwrap_sub_r
  swrap_uwrap swrap_sub_l swrap_add_l : wrap.

(** Unfold the range predicates at literal widths, for [lia]. *)
Ltac widths :=
  unfold in_u, in_s, INT_MAX, LONG_MAX, ULONG_MAX in *;
  change (2 ^ 32) with 4294967296 in *; change (2 ^ (32 - 1)) with 2147483648 in *;
  change (2 ^ 31) with 2147483648 in *;
  change (2 ^ 64) with 18446744073709551616 in *;
  change (2 ^ (64 - 1)) with 9223372036854775808 in *.

(** ** Boolean guards

    [bsimp] turns the boolean conditions of the source, once decided, into
    facts that [lia] reads. *)
Ltac bsimp :=
  repeat match goal with
  | H : (_ =? _) = true |- _ => apply Z.eqb_eq in H
  | H : (_ =? _) = false |- _ => apply Z.eqb_neq in H
  | H : (_ <? _) = true |- _ => apply Z.ltb_lt in H
  | H : (_ <? _) = false |- _ => apply Z.ltb_ge in H
  | H : (_ <=? _) = true |- _ => apply Z.leb_le in H
  | H : (_ <=? _) = false |- _ => apply Z.leb_gt in H
  | H : (_ && _) = true |- _ => apply andb_true_iff in H; destruct H
  | H : (_ || _) = false |- _ => apply orb_false_iff in H; destruct H
  | H : negb _ = true |- _ => apply negb_true_iff in H
  | H : negb _ = false |- _ => apply negb_false_iff in H
  end.

(** Case analysis on every condition the goal or a hypothesis branches on. *)
Ltac split_ifs :=
  repeat (case_match; simplify_eq/=); bsimp.

(** ** Stateful code that can fail

    [M S A] is code over a state [S] that returns an [A] or stops: a [fault]
    records why the code does not return to its caller.  The state at the
    fault is kept, because what was already written is observable. *)

Inductive fault : Type :=
  | NullDeref      (** a null pointer is dereferenced *)
  | Undefined      (** use or release of storage that is not allocated *)
  | BugOn          (** a [BUG_ON] or [VM_BUG_ON] fires *)
  | KernelPanic    (** [panic ()] *)
  | Abort          (** [abort ()] of the C library *)
  | Exit           (** [_exit ()] *)
  | Blocked        (** the caller waits for something only another thread does *)
  | OutOfFuel.     (** the bound on the modelled iterations was reached *)

#[export] Instance fault_eq_dec : EqDecision fault.
Proof. solve_decision. Defined.

Inductive res (S A : Type) : Type :=
  | Ok (a : A) (s : S)
  | Err (f : fault) (s : S).
Arguments Ok {S A} a s.
Arguments Err {S A} f s.

Definition M (S A : Type) : Type := S → res S A.

Definition res_state {S A} (r : res S A) : S :=
  match r with Ok _ s => s | Err _ s => s end.

Section monad.
Context {S : Type}.

#[export] Instance M_ret : MRet (M S) := λ A a s, Ok a s.
#[export] Instance M_bind : MBind (M S) := λ A B k m s,
  match m s with
  | Ok a s' => k a s'
  | Err f s' => Err f s'
  end.

Definition fail {A} (f : fault) : M S A := λ s, Err f s.
Definition get : M S S := λ s, Ok s s.
Definition gets {A} (f : S → A) : M S A := λ s, Ok (f s) s.
Definition modify (f : S → S) : M S unit := λ s, Ok tt (f s).

(** Dereference: the object behind a pointer, or the fault. *)
Definition deref {A} (o : option A) : M S A :=
  match o with Some a => mret a | None => fail NullDeref end.

(** A loop over a list whose body may fail. *)
Fixpoint for_each {A} (l : list A) (body : A → M S unit) : M S unit :=
  match l with
  | [] => mret tt
  | x :: l' => _ ← body x; for_each l' body
  end.

Lemma for_each_app {A} (l1 l2 : list A) body s :
  for_each (l1 ++ l2) body s = (_ ← for_each l1 body; for_each l2 body) s.
Proof.
  revert s. induction l1 as [|x l1 IH]; intros s; [done|]. simpl.
  unfold mbind, M_bind in *. destruct (body x s); [|done]. apply IH.
Qed.

(** The loop rule: an invariant of the body is an invariant of the loop. *)
Lemma for_each_inv {A} (P : S → Prop) (l : list A) body :
  (∀ x s, x ∈ l → P s → P (res_state (body x s))) →
  ∀ s, P s → P (res_state (for_each l body s)).
Proof.
  induction l as [|x l IH]; intros Hb s Hs; [done|]. simpl.
  unfold mbind, M_bind. pose proof (Hb x s ltac:(left) Hs) as Hx.
  destruct (body x s); [|done]. apply IH; [|done].
  intros y t Hy. apply Hb. by right.
Qed.
End monad.

(** Total correctness: from [s] the code returns, and [Q] holds of the result and
    the state it returns in. *)
Definition returns {S A} (m : M S A) (s : S) (Q : A → S → Prop) : Prop :=
  ∃ a s', m s = Ok a s' ∧ Q a s'.

Lemma returns_bind {S A B} (m : M S A) (k : A → M S B) s Q :
  returns m s (λ a s', returns (k a) s' Q) → returns (a ← m; k a) s Q.
Proof.
  intros (a & s' & Hm & b & s'' & Hk & HQ). exists b, s''. split; [|done].
  unfold mbind, M_bind. by rewrite Hm.
Qed.

Lemma returns_mono {S A} (m : M S A) s (Q Q' : A → S → Prop) :
  returns m s Q → (∀ a s', Q a s' → Q' a s') → returns m s Q'.
Proof. intros (a & s' & ? & ?) HQ. exists a, s'. auto. Qed.

Lemma returns_ret {S A} (a : A) (s : S) (Q : A → S → Prop) : Q a s → returns (mret a) s Q.
Proof. intros HQ. by exists a, s. Qed.

Lemma returns_eq {S A} (m : M S A) s a s' (Q : A → S → Prop) :
  m s = Ok a s' → Q a s' → returns m s Q.
Proof. intros. by exists a, s'. Qed.

(** Either outcome of a run, with what holds of it. *)
Definition ends {S A} (m : M S A) (s : S) (E : fault → S → Prop) (Q : A → S → Prop) : Prop :=
  match m s with
  | Ok a s' => Q a s'
  | Err e s' => E e s'
  end.

Lemma ends_bind {S A B} (m : M S A) (k : A → M S B) s E Q :
  ends m s E (λ a s', ends (k a) s' E Q) → ends (a ← m; k a) s E Q.
Proof. unfold ends, mbind, M_bind. by destruct (m s). Qed.

Lemma ends_mono {S A} (m : M S A) s (E : fault → S → Prop) (Q Q' : A → S → Prop) :
  ends m s E Q → (∀ a s', Q a s' → Q' a s') → ends m s E Q'.
Proof. unfold ends. destruct (m s); auto. Qed.

Lemma returns_ends {S A} (m : M S A) s (E : fault → S → Prop) (Q : A → S → Prop) : returns m s Q → ends m s E Q.
Proof. intros (a & s' & Hm & HQ). unfold ends. by rewrite Hm. Qed.

Lemma ends_returns {S A} (m : M S A) s (E : fault → S → Prop) (Q : A → S → Prop) :
  ends m s E Q → (∀ e s', ¬ E e s') → returns m s Q.
Proof. unfold ends. intros Hm HE. destruct (m s) as [a s'|e s'] eqn:Hr; [by exists a, s'|by destruct (HE e s')]. Qed.

(** Step through monadic code. *)
Ltac mstep :=
  unfold mbind, M_bind, mret, M_ret, gets, get, modify, fail, deref in *; simpl in *.

(** ** Frames

    [frames v m]: whatever [m] does, and even where it stops with a fault, the view
    [v] of the state is the same after it. *)

Section frames.
Context {S B : Type} (v : S → B).

Definition frames {A} (m : M S A) : Prop := ∀ s, v (res_state (m s)) = v s.

Lemma frames_ret {A} (a : A) : frames (mret a).
Proof. done. Qed.

Lemma frames_fail {A} f : frames (fail f : M S A).
Proof. done. Qed.

Lemma frames_get : frames get.
Proof. done. Qed.

Lemma frames_gets {A} (f : S → A) : frames (gets f).
Proof. done. Qed.

Lemma frames_modify (f : S → S) : (∀ s, v (f s) = v s) → frames (modify f).
Proof. intros Hf s. apply Hf. Qed.

Lemma frames_deref {A} (o : option A) : frames (deref o).
Proof. intros s. by destruct o. Qed.

Lemma frames_bind {A A'} (m : M S A) (k : A → M S A') :
  frames m → (∀ a, frames (k a)) → frames (a ← m; k a).
Proof.
  intros Hm Hk s. specialize (Hm s). unfold mbind, M_bind. destruct (m s) as [a s'|f s']; [|done].
  rewrite (Hk a s'). exact Hm.
Qed.

Lemma frames_each {A} (l : list A) (body : A → M S unit) :
  (∀ x, frames (body x)) → frames (for_each l body).
Proof. intros Hb. induction l as [|x l IH]; simpl; [apply frames_ret|]. by apply frames_bind. Qed.

Lemma frames_run {A} (m : M S A) s a s' : frames m → m s = Ok a s' → v s' = v s.
Proof. intros Hm Hr. specialize (Hm s). by rewrite Hr in Hm. Qed.
End frames.

Create HintDb frame.
#[export] Hint Resolve frames_ret frames_fail frames_get frames_gets frames_deref : frame.

(** Follow the code, with the frames of the calls from the hint database. *)
Ltac frame :=
  repeat first [ progress intros | solve [eauto 2 with frame nocore]
    | lazymatch goal with
      | |- frames _ (mbind _ _) => apply frames_bind
      | |- frames _ (for_each _ _) => apply frames_each
      | |- frames _ (match _ with _ => _ end) => case_match
      end ].

(** [ensures m s Q]: if [m] returns, then with [Q]. *)
Definition ensures {S A} (m : M S A) (s : S) (Q : A → S → Prop) : Prop :=
  ∀ a s', m s = Ok a s' → Q a s'.

Lemma ensures_bind {S A B} (m : M S A) (k : A → M S B) s Q :
  ensures m s (λ a s', ensures (k a) s' Q) → ensures (a ← m; k a) s Q.
Proof.
  intros Hm b s'. unfold mbind, M_bind. destruct (m s) as [a s1|] eqn:Hr; [|done]. exact (Hm a s1 Hr b s').
Qed.

Lemma ensures_mono {S A} (m : M S A) s (Q Q' : A → S → Prop) :
  ensures m s Q → (∀ a s', Q a s' → Q' a s') → ensures m s Q'.
Proof. intros Hm HQ a s' Hr. auto. Qed.

Lemma ensures_ret {S A} (a : A) (s : S) (Q : A → S → Prop) : Q a s → ensures (mret a) s Q.
Proof. intros HQ b s' [= <- <-]. done. Qed.

Lemma ensures_get {S} (s : S) (Q : S → S → Prop) : Q s s → ensures get s Q.
Proof. intros HQ a s' [= <- <-]. done. Qed.

Lemma ensures_modify {S} (f : S → S) s (Q : unit → S → Prop) : Q tt (f s) → ensures (modify f) s Q.
Proof. intros HQ [] s' Hr. unfold modify in Hr. by simplify_eq. Qed.

Lemma ensures_frame {S A B} (v : S → B) (m : M S A) s : frames v m → ensures m s (λ _ s', v s' = v s).
Proof. intros Hm a s' Hr. by eapply frames_run. Qed.

Lemma ensures_returns {S A} (m : M S A) s Q : returns m s Q → ensures m s Q.
Proof. intros (a & s' & Hr & HQ) a' s'' Hr'. rewrite Hr in Hr'. by injection Hr' as <- <-. Qed.

(** ** Reachability

    [reachable init step s]: some run of [step] from an initial state ends in
    [s].  An invariant of a step relation holds in every reachable state. *)

Section reachability.
Context {S : Type} (init : S → Prop) (step : S → S → Prop).

Definition reachable (s : S) : Prop := ∃ s0, init s0 ∧ rtc step s0 s.

Lemma reachable_trans s s' : reachable s → rtc step s s' → reachable s'.
Proof. intros (s0 & Hi & Hr) Hr'. exists s0. split; [done|]. by etrans. Qed.

Lemma reachable_inv (I : S → Prop) :
  (∀ s, init s → I s) → (∀ s s', I s → step s s' → I s') →
  ∀ s, reachable s → I s.
Proof.
  intros Hi Hs s (s0 & H0 & Hr). apply Hi in H0.
  induction Hr; eauto.
Qed.
End reachability.

(** ** Lists *)

(** The sum of a measure over a list. *)
Definition sumZ {A} (f : A → Z) (l : list A) : Z := foldr (λ x acc, f x + acc) 0 l.

Lemma sumZ_app {A} (f : A → Z) l1 l2 : sumZ f (l1 ++ l2) = sumZ f l1 + sumZ f l2.
Proof. induction l1 as [|x l1 IH]; simpl; [done|]. rewrite IH. lia. Qed.

Lemma sumZ_nonneg {A} (f : A → Z) l : (∀ x, x ∈ l → 0 ≤ f x) → 0 ≤ sumZ f l.
Proof.
  induction l as [|x l IH]; intros Hf; simpl; [lia|].
  pose proof (Hf x ltac:(left)).
  assert (0 ≤ sumZ f l) by (apply IH; intros y Hy; apply Hf; by right). lia.
Qed.

Lemma sumZ_le {A} (f g : A → Z) l : (∀ x, x ∈ l → f x ≤ g x) → sumZ f l ≤ sumZ g l.
Proof.
  induction l as [|x l IH]; intros Hle; [done|]. unfold sumZ in *. simpl. pose proof (Hle x ltac:(left)).
  specialize (IH ltac:(intros; apply Hle; by right)). lia.
Qed.

Lemma sumZ_elem {A} (f : A → Z) l x : (∀ y, y ∈ l → 0 ≤ f y) → x ∈ l → f x ≤ sumZ f l.
Proof.
  induction l as [|y l IH]; intros Hf; [by intros ?%not_elem_of_nil|]. unfold sumZ in *. simpl. pose proof (Hf y ltac:(left)).
  assert (∀ y, y ∈ l → 0 ≤ f y) as Hf' by (intros; apply Hf; by right).
  pose proof (sumZ_nonneg f l Hf') as Hn. unfold sumZ in Hn. intros [->|Hx]%elem_of_cons; [lia|]. specialize (IH Hf' Hx). lia.
Qed.

Lemma sumZ_ext {A} (f g : A → Z) l : (∀ x, x ∈ l → f x = g x) → sumZ f l = sumZ g l.
Proof. intros He. apply Z.le_antisymm; apply sumZ_le; intros x Hx; rewrite He by done; lia. Qed.

Lemma sumZ_perm {A} (f : A → Z) l1 l2 : l1 ≡ₚ l2 → sumZ f l1 = sumZ f l2.
Proof. induction 1; simpl; lia. Qed.

(** Remove the first occurrence. *)
Fixpoint remove_one {A} `{EqDecision A} (x : A) (l : list A) : list A :=
  match l with
  | [] => []
  | y :: l' => if decide (x = y) then l' else y :: remove_one x l'
  end.

Lemma remove_one_perm {A} `{EqDecision A} (x : A) l :
  x ∈ l → l ≡ₚ x :: remove_one x l.
Proof.
  induction l as [|y l IH]; [by intros ?%elem_of_nil|]. simpl.
  intros [->|Hx]%elem_of_cons; [by rewrite decide_True|].
  case_decide; subst; [done|]. rewrite (IH Hx) at 1. apply Permutation_swap.
Qed.

Lemma remove_one_in {A} `{EqDecision A} (x y : A) q : NoDup q → x ∈ remove_one y q ↔ x ∈ q ∧ x ≠ y.
Proof.
  induction q as [|z q IH]; intros Hnd; [set_solver|].
  apply NoDup_cons in Hnd as [Hz Hnd]. simpl. case_decide; subst.
  - rewrite elem_of_cons. split; [intros Hx; split; [by right|by intros ->]|].
    intros [[->|?] ?]; done.
  - rewrite !elem_of_cons, IH by done. split; [intros [->|[? ?]]; auto|].
    intros [[->|?] ?]; auto.
Qed.

Lemma remove_one_nodup {A} `{EqDecision A} (y : A) q : NoDup q → NoDup (remove_one y q).
Proof.
  induction q as [|z q IH]; intros Hnd; [done|].
  apply NoDup_cons in Hnd as [Hz Hnd]. simpl. case_decide; [done|].
  apply NoDup_cons. split; [|auto]. rewrite remove_one_in by done. tauto.
Qed.

Lemma remove_one_absent {A} `{EqDecision A} (y : A) q : y ∉ q → remove_one y q = q.
Proof.
  induction q as [|z q IH]; intros Hy; [done|]. simpl.
  rewrite decide_False by set_solver. f_equal. apply IH. set_solver.
Qed.
