(* ===== verification/KList.v ===== *)
(** * The kernel's linked lists, as an interface

    [list_head] and [hlist] of the kernel headers are not part of this
    repository.  The components use them through the class [KList]: nodes are
    numbered, lists are named by their heads, and [elems] observes a list.  The
    laws state what the list routines promise when a node that is added is on
    no list and a node that is deleted is on one. *)

From S2P Require Import Prelude.

Class KList (Hd L : Type) := {
  elems : L → Hd → list Z;
  list_add : Z → Hd → L → L;
  list_add_tail : Z → Hd → L → L;
  list_add_after : Z → Z → L → L;   (** [list_add] behind a node instead of a head *)
  list_add_before : Z → Z → L → L;  (** [list_add_tail] in front of a node *)
  list_del : Z → L → L;
  INIT_LIST_HEAD : Hd → L → L
}.

(** Insertion behind or in front of the first occurrence of an element. *)
Fixpoint insert_after (n p : Z) (q : list Z) : list Z :=
  match q with
  | [] => []
  | x :: q' => if decide (x = p) then x :: n :: q' else x :: insert_after n p q'
  end.

Fixpoint insert_before (n p : Z) (q : list Z) : list Z :=
  match q with
  | [] => []
  | x :: q' => if decide (x = p) then n :: x :: q' else x :: insert_before n p q'
  end.

Lemma insert_after_perm n p q : p ∈ q → insert_after n p q ≡ₚ n :: q.
Proof.
  induction q as [|x q IH]; [by intros ?%elem_of_nil|]. simpl. intros Hp.
  case_decide; [apply Permutation_swap|]. rewrite IH by set_solver. apply Permutation_swap.
Qed.

Lemma insert_before_perm n p q : p ∈ q → insert_before n p q ≡ₚ n :: q.
Proof.
  induction q as [|x q IH]; [by intros ?%elem_of_nil|]. simpl. intros Hp.
  case_decide; [done|]. rewrite IH by set_solver. apply Permutation_swap.
Qed.

Lemma insert_after_absent n p q : p ∉ q → insert_after n p q = q.
Proof.
  induction q as [|x q IH]; [done|]. simpl. intros Hp.
  rewrite decide_False by set_solver. f_equal. apply IH. set_solver.
Qed.

Lemma insert_before_absent n p q : p ∉ q → insert_before n p q = q.
Proof.
  induction q as [|x q IH]; [done|]. simpl. intros Hp.
  rewrite decide_False by set_solver. f_equal. apply IH. set_solver.
Qed.

(** A node on no list. *)
Definition off_list {Hd L} `{KList Hd L} (l : L) (n : Z) : Prop := ∀ h, n ∉ elems l h.
Definition on_list {Hd L} `{KList Hd L} (l : L) (n : Z) : Prop := ∃ h, n ∈ elems l h.

(** Every node is on at most one list, once. *)
Record lists_wf {Hd L} `{KList Hd L} (l : L) : Prop := {
  wf_nodup h : NoDup (elems l h);
  wf_one n h h' : n ∈ elems l h → n ∈ elems l h' → h = h'
}.

Class KListLaws (Hd L : Type) `{EqDecision Hd, KList Hd L} := {
  elems_add l n h h' : off_list l n →
    elems (list_add n h l) h' = if decide (h' = h) then n :: elems l h else elems l h';
  elems_add_tail l n h h' : off_list l n →
    elems (list_add_tail n h l) h' = if decide (h' = h) then elems l h ++ [n] else elems l h';
  elems_add_after l n p h : off_list l n → on_list l p →
    elems (list_add_after n p l) h = insert_after n p (elems l h);
  elems_add_before l n p h : off_list l n → on_list l p →
    elems (list_add_before n p l) h = insert_before n p (elems l h);
  elems_del l n h : lists_wf l → on_list l n → elems (list_del n l) h = remove_one n (elems l h);
  elems_init l h h' : elems (INIT_LIST_HEAD h l) h' = if decide (h' = h) then [] else elems l h'
}.

Section Lists.
Context {Hd L : Type} `{KListLaws Hd L}.
Implicit Types l : L.

Lemma wf_add l n h : lists_wf l → off_list l n → lists_wf (list_add n h l).
Proof.
  intros [Hnd Hone] Hoff. split.
  - intros h'. rewrite elems_add by done. case_decide; subst; [|done].
    apply NoDup_cons. split; [apply Hoff|apply Hnd].
  - intros m h1 h2. rewrite !elems_add by done.
    repeat case_decide; subst; rewrite ?elem_of_cons; try done; eauto;
      intros; destruct_or?; subst; try (by destruct (Hoff _ ltac:(eassumption))); eauto.
Qed.

Lemma wf_add_tail l n h : lists_wf l → off_list l n → lists_wf (list_add_tail n h l).
Proof.
  intros [Hnd Hone] Hoff. split.
  - intros h'. rewrite elems_add_tail by done. case_decide; subst; [|done].
    apply NoDup_app. split_and!; [done| |apply NoDup_singleton].
    intros x Hx ->%list_elem_of_singleton. by apply (Hoff h).
  - intros m h1 h2. rewrite !elems_add_tail by done.
    repeat case_decide; subst; rewrite ?elem_of_app, ?list_elem_of_singleton; try done; eauto;
      intros; destruct_or?; subst; try (by destruct (Hoff _ ltac:(eassumption))); eauto.
Qed.

Lemma wf_del l n : lists_wf l → on_list l n → lists_wf (list_del n l).
Proof.
  intros Hwf Hon. split.
  - intros h. rewrite elems_del by done. apply remove_one_nodup, Hwf.
  - intros m h1 h2. rewrite !elems_del, !remove_one_in by (done || apply Hwf).
    intros [? _] [? _]. eapply Hwf; eauto.
Qed.

Lemma del_off l n : lists_wf l → on_list l n → off_list (list_del n l) n.
Proof.
  intros Hwf Hon h. rewrite elems_del, remove_one_in by (done || apply Hwf). tauto.
Qed.

Lemma elems_del_in l n m h :
  lists_wf l → on_list l n → m ∈ elems (list_del n l) h ↔ m ∈ elems l h ∧ m ≠ n.
Proof. intros Hwf Hon. by rewrite elems_del, remove_one_in by (done || apply Hwf). Qed.

Lemma elems_add_in l n m h h' :
  off_list l n → m ∈ elems (list_add n h l) h' ↔ (m = n ∧ h' = h) ∨ m ∈ elems l h'.
Proof.
  intros Hoff. rewrite elems_add by done. case_decide; subst; [|naive_solver].
  rewrite elem_of_cons. naive_solver.
Qed.

Lemma elems_add_tail_in l n m h h' :
  off_list l n → m ∈ elems (list_add_tail n h l) h' ↔ (m = n ∧ h' = h) ∨ m ∈ elems l h'.
Proof.
  intros Hoff. rewrite elems_add_tail by done. case_decide; subst; [|naive_solver].
  rewrite elem_of_app, list_elem_of_singleton. naive_solver.
Qed.
End Lists.

Create HintDb klist.
#[export] Hint Resolve wf_add wf_add_tail wf_del del_off : klist.

(** ** An implementation: a finite map from heads to lists *)

Section MapLists.
Context {Hd : Type} `{Countable Hd}.

#[export] Instance map_klist : KList Hd (gmap Hd (list Z)) := {
  elems l h := default [] (l !! h);
  list_add n h l := <[h := n :: default [] (l !! h)]> l;
  list_add_tail n h l := <[h := default [] (l !! h) ++ [n]]> l;
  list_add_after n p l := insert_after n p <$> l;
  list_add_before n p l := insert_before n p <$> l;
  list_del n l := remove_one n <$> l;
  INIT_LIST_HEAD h l := <[h := []]> l
}.

#[export] Instance map_klist_laws : KListLaws Hd (gmap Hd (list Z)).
Proof.
  split; simpl.
  - intros l n h h' _. case_decide; subst; [by rewrite lookup_insert_eq|].
    by rewrite lookup_insert_ne.
  - intros l n h h' _. case_decide; subst; [by rewrite lookup_insert_eq|].
    by rewrite lookup_insert_ne.
  - intros l n p h _ _. rewrite lookup_fmap. by destruct (l !! h).
  - intros l n p h _ _. rewrite lookup_fmap. by destruct (l !! h).
  - intros l n h _ _. rewrite lookup_fmap. by destruct (l !! h).
  - intros l h h'. case_decide; subst; [by rewrite lookup_insert_eq|].
    by rewrite lookup_insert_ne.
Defined.
End MapLists.
