(* ===== verification/FailInject.v ===== *)
(** * Fault injection for system calls: [sys_fail.c] and the hook in [entry-common.S]

    [sys_fail (N)] arms a global fault injector; the system-call entry calls
    [should_fail ()] before every dispatch and, when it answers 1, runs
    [fail_syscall ()] instead of the requested call.  The delay [n] and the
    armed flag [sys_fail_ran] are global, the call counter [hw2_count] is a
    field of the calling task. *)

From S2P Require Import Prelude.

Definition EINVAL : Z := 22.

(** The globals of [sys_fail.c] and the [hw2_count] field of every task. *)
Record state : Type := mk_state {
  n : Z;
  sys_fail_ran : Z;
  hw2_count : Z → Z
}.
#[export] Instance state_eta : Settable state :=
  λ s, mk_state (n s) (sys_fail_ran s) (hw2_count s).

Definition boot_state : state := mk_state 0 0 (λ _, 0).

(** [current_thread_info()->task->hw2_count = v] *)
Definition set_count (current v : Z) (s : state) : state :=
  s <| hw2_count ::= <[current := v]> |>.

(** [sys_fail]: the branches in the order of the source. *)
Definition sys_fail (current N : Z) : M state Z :=
  _ ← modify (λ s, s <| n := N |>);
  s ← get;
  if (0 <? n s) && (sys_fail_ran s =? 0) then
    _ ← modify (set_count current 0);
    _ ← modify (λ s, s <| sys_fail_ran := 1 |>);
    mret 0
  else if (n s <=? 0) && (sys_fail_ran s =? 0) then
    mret (- EINVAL)
  else if (n s =? 0) && (sys_fail_ran s =? 1) then
    _ ← modify (λ s, s <| sys_fail_ran := 0 |>);
    mret 0
  else if (0 <? n s) && (sys_fail_ran s =? 1) then
    _ ← modify (set_count current 0);
    mret 0
  else
    mret 0.

(** [should_fail]: [hw2_count++] on an [int], then the comparison with [n]. *)
Definition should_fail (current : Z) : M state Z :=
  s ← get;
  if sys_fail_ran s =? 1 then
    _ ← modify (λ s, set_count current (s32 (hw2_count s current + 1)) s);
    s ← get;
    if hw2_count s current <? n s then mret 0 else mret 1
  else
    mret 0.

Definition fail_syscall : M state Z :=
  _ ← modify (λ s, s <| sys_fail_ran := 0 |>);
  mret (- EINVAL).

(** The untraced path of [vector_swi]: [sys] is the routine the system-call
    table selects, which runs only when the injector does not fail the call. *)
Definition vector_swi (current : Z) (sys : M state Z) : M state Z :=
  r10 ← should_fail current;
  if r10 =? 0 then sys else fail_syscall.

(** Tasks issue the system calls of [calls] in order: an element is the task that calls and
    the value the selected routine would return (a routine that does not touch the
    injector).  The result lists what the calls return. *)
Fixpoint run_syscalls (calls : list (Z * Z)) : M state (list Z) :=
  match calls with
  | [] => mret []
  | (current, v) :: calls' =>
      r ← vector_swi current (mret v);
      rs ← run_syscalls calls';
      mret (r :: rs)
  end.

(** The injector is armed with delay [N] and the tasks have the counts [count]. *)
Definition armed (N : Z) (count : Z → Z) (s : state) : Prop :=
  sys_fail_ran s = 1 ∧ n s = N ∧ ∀ q, hw2_count s q = count q.

Definition flag_ok (s : state) : Prop := sys_fail_ran s = 0 ∨ sys_fail_ran s = 1.

(** [sys_fail] resets the count of its caller only. *)
Lemma sys_fail_arms p N s :
  0 < N → flag_ok s →
  ∃ s', sys_fail p N s = Ok 0 s' ∧ armed N (<[p := 0]> (hw2_count s)) s'.
Proof.
  intros HN [Hf|Hf]; unfold sys_fail, armed; mstep; rewrite Hf; simpl;
    destruct (Z.ltb_spec 0 N); try lia; simpl;
    destruct (Z.leb_spec N 0); try lia; simpl;
    try (destruct (Z.eqb_spec N 0); try lia; simpl);
    eexists; (split; [done|]); simpl; auto.
Qed.

(** Before the delay of the calling task is over a call goes through and only moves the
    count of that task. *)
Lemma vector_swi_before q N count v s :
  in_s 32 (count q + 1) → count q + 1 < N → armed N count s →
  ∃ s', vector_swi q (mret v) s = Ok v s' ∧ armed N (<[q := count q + 1]> count) s'.
Proof.
  intros Hk Hlt (Hr & Hn & Hc). unfold vector_swi, should_fail, armed. mstep.
  rewrite Hr. simpl. rewrite fn_lookup_insert, Hc, Hn.
  rewrite swrap_small by done.
  destruct (Z.ltb_spec (count q + 1) N); [|lia]. simpl.
  eexists. split; [done|]. simpl. split_and!; [done..|]. intros q'.
  destruct (decide (q' = q)) as [-> |Hne]; [by rewrite !fn_lookup_insert|by rewrite !fn_lookup_insert_ne].
Qed.

(** The call that ends the delay fails and disarms the injector. *)
Lemma vector_swi_fails q N count v s :
  in_s 32 (count q + 1) → N ≤ count q + 1 → armed N count s →
  ∃ s', vector_swi q (mret v) s = Ok (- EINVAL) s' ∧ sys_fail_ran s' = 0.
Proof.
  intros Hk Hge (Hr & Hn & Hc). unfold vector_swi, should_fail. mstep.
  rewrite Hr. simpl. rewrite fn_lookup_insert, Hc, Hn.
  rewrite swrap_small by done.
  destruct (Z.ltb_spec (count q + 1) N); [lia|]. simpl. eauto.
Qed.

Lemma run_syscalls_disarmed calls s :
  sys_fail_ran s = 0 → run_syscalls calls s = Ok calls.*2 s.
Proof.
  intros Hr. induction calls as [|[q v] calls IH]; [done|]. simpl.
  unfold vector_swi, should_fail. mstep. rewrite Hr. simpl. by rewrite IH.
Qed.

(** The number of calls of the task [q]. *)
Definition made (q : Z) (calls : list (Z * Z)) : Z := Z.of_nat (length (filter (λ e, e.1 = q) calls)).

(** With call [k] its task reaches the delay, counted from [count]. *)
Definition due (N : Z) (count : Z → Z) (calls : list (Z * Z)) (k : nat) : Prop :=
  ∃ q v, calls !! k = Some (q, v) ∧ N ≤ count q + made q (take (S k) calls).

Definition first_due N count calls (k : nat) : Prop :=
  due N count calls k ∧ ∀ j, (j < k)%nat → ¬ due N count calls j.

(** The first call that is due fails, and every other one returns its value. *)
Definition one_fails N count (calls : list (Z * Z)) (rs : list Z) : Prop :=
  length rs = length calls ∧ ∀ k q v, calls !! k = Some (q, v) →
    (first_due N count calls k → rs !! k = Some (- EINVAL)) ∧ (¬ first_due N count calls k → rs !! k = Some v).

Lemma made_cons q e calls : made q (e :: calls) = (if decide (e.1 = q) then 1 else 0) + made q calls.
Proof. unfold made. rewrite filter_cons. destruct (decide _); simpl; lia. Qed.

Lemma made_all q calls : (∀ e, e ∈ calls → e.1 = q) → made q calls = Z.of_nat (length calls).
Proof.
  induction calls as [|e calls IH]; intros He; [done|]. rewrite made_cons, decide_True by (apply He; left).
  rewrite IH by (intros e' He'; apply He; by right). simpl. lia.
Qed.

Lemma due_zero N count q v calls : due N count ((q, v) :: calls) 0 ↔ N ≤ count q + 1.
Proof.
  unfold due. simpl. split.
  - intros (q' & v' & [= <- <-] & Hd). rewrite take_0, made_cons, decide_True in Hd by done. change (made q []) with 0 in Hd. lia.
  - intros Hd. exists q, v. split; [done|]. rewrite take_0, made_cons, decide_True by done. change (made q []) with 0. lia.
Qed.

Lemma due_succ N count q v calls k :
  due N count ((q, v) :: calls) (S k) ↔ due N (<[q := count q + 1]> count) calls k.
Proof.
  unfold due. change (take (S (S k)) ((q, v) :: calls)) with ((q, v) :: take (S k) calls). simpl lookup.
  assert (Hq : ∀ q', count q' + made q' ((q, v) :: take (S k) calls)
                    = <[q := count q + 1]> count q' + made q' (take (S k) calls)).
  { intros q'. rewrite made_cons. simpl. destruct (decide (q = q')) as [-> |Hne].
    - rewrite fn_lookup_insert. lia.
    - rewrite fn_lookup_insert_ne by done. lia. }
  split; intros (q' & v' & E & Hd); exists q', v'; (split; [done|]); [by rewrite <- Hq|by rewrite Hq].
Qed.

Lemma first_due_succ N count q v calls k :
  count q + 1 < N →
  first_due N count ((q, v) :: calls) (S k) ↔ first_due N (<[q := count q + 1]> count) calls k.
Proof.
  intros Hlt. unfold first_due. rewrite due_succ. split; intros [Hd Hn]; (split; [done|]).
  - intros j Hj. rewrite <- (due_succ N count q v). apply Hn. lia.
  - intros [|j] Hj; [rewrite due_zero; lia|]. rewrite due_succ. apply Hn. lia.
Qed.

(** From the armed state exactly the first call that is due fails. *)
Lemma run_syscalls_armed N : ∀ calls count s,
  in_s 32 N → (∀ q, in_s 32 (count q + 1)) → armed N count s →
  ∃ rs s', run_syscalls calls s = Ok rs s' ∧ one_fails N count calls rs.
Proof.
  induction calls as [|[q v] calls IH]; intros count s HN Hc Ha.
  { exists [], s. split; [done|]. by split. }
  simpl. destruct (decide (count q + 1 < N)) as [Hlt|Hge].
  - destruct (vector_swi_before q N count v s (Hc q) Hlt Ha) as (s1 & E1 & A1).
    destruct (IH (<[q := count q + 1]> count) s1 HN) as (rs & s2 & E2 & Hl & Hrs); [|exact A1|].
    { intros q'. destruct (decide (q' = q)) as [-> |Hne].
      - rewrite fn_lookup_insert. pose proof (Hc q). widths. lia.
      - by rewrite fn_lookup_insert_ne. }
    exists (v :: rs), s2. mstep. rewrite E1, E2. split; [done|]. split; [simpl; lia|].
    intros [|k] q' v' E; simpl in E.
    + simplify_eq. split; [|done]. intros [Hd _]. rewrite due_zero in Hd. lia.
    + rewrite first_due_succ by done. by apply (Hrs k q' v').
  - destruct (vector_swi_fails q N count v s (Hc q) ltac:(lia) Ha) as (s1 & E1 & A1).
    assert (H0 : due N count ((q, v) :: calls) 0) by (rewrite due_zero; lia).
    exists (- EINVAL :: calls.*2), s1. mstep. rewrite E1, run_syscalls_disarmed by done. split; [done|].
    split; [simpl; by rewrite length_fmap|]. intros [|k] q' v' E; simpl in E.
    + split; [done|]. intros Hn. exfalso. apply Hn. split; [done|]. intros j Hj. lia.
    + split; [intros [_ Hn]; exfalso; by apply (Hn 0%nat); [lia|]|]. intros _. simpl. by rewrite list_lookup_fmap, E.
Qed.

(** If only [p] calls, its call number [N] is the first that is due. *)
Lemma only_caller_due p N count calls k :
  (∀ e, e ∈ calls → e.1 = p) → (k < length calls)%nat → due N count calls k ↔ N ≤ count p + Z.of_nat (S k).
Proof.
  intros Hp Hk. destruct (lookup_lt_is_Some_2 calls k Hk) as [[q v] E].
  assert (q = p) as -> by (apply (Hp (q, v)); by eapply list_elem_of_lookup_2).
  assert (Hm : made p (take (S k) calls) = Z.of_nat (S k)).
  { rewrite made_all; [rewrite length_take; lia|]. intros e He. apply Hp. by eapply elem_of_subseteq; [apply subseteq_take|]. }
  unfold due. rewrite E. split; [intros (q & v' & [= <- <-] & Hd)|intros Hd; exists p, v; split; [done|]]; by rewrite Hm in *.
Qed.

Lemma only_caller_fails p N count calls rs :
  0 < N → count p = 0 → (∀ e, e ∈ calls → e.1 = p) → one_fails N count calls rs →
  rs = <[Z.to_nat (N - 1) := - EINVAL]> calls.*2.
Proof.
  intros HN H0 Hp [Hl Hrs]. apply list_eq. intros k. destruct (decide (k < length calls)%nat) as [Hk|Hk].
  2: { rewrite !lookup_ge_None_2; [done|rewrite length_insert, length_fmap; lia|lia]. }
  destruct (lookup_lt_is_Some_2 calls k Hk) as [[q v] E]. destruct (Hrs k q v E) as [Hf Ho].
  assert (Hd : first_due N count calls k ↔ k = Z.to_nat (N - 1)).
  { unfold first_due. rewrite (only_caller_due p) by done. split.
    - intros [Hd Hn]. destruct (decide (k = Z.to_nat (N - 1))) as [|Hne]; [done|]. exfalso.
      apply (Hn (Z.to_nat (N - 1))); [lia|]. rewrite (only_caller_due p) by (done || lia). lia.
    - intros ->. split; [lia|]. intros j Hj. rewrite (only_caller_due p) by (done || lia). lia. }
  destruct (decide (k = Z.to_nat (N - 1))) as [Ek|Ek].
  - rewrite Hf by tauto. rewrite <- Ek. by rewrite list_lookup_insert_eq by (rewrite length_fmap; lia).
  - rewrite Ho by tauto. by rewrite list_lookup_insert_ne, list_lookup_fmap, E by done.
Qed.

(** C40. Arming the injector with a positive delay [N] makes exactly one of the following
    system calls return [-EINVAL], whichever tasks make them: the first one with which its
    task reaches [N], where the calls of the task that armed it count from zero and those
    of another task from the count it has, because the delay and the armed flag are shared
    by all tasks.  Every other call, before or after, returns what its routine returned.
    If no other task makes a system call it is the [N]-th call of the caller. *)
Theorem inject_fails_exactly_nth p N calls s :
  flag_ok s → 0 < N → in_s 32 N → (∀ q, in_s 32 (hw2_count s q + 1)) →
  ∃ rs s', (_ ← sys_fail p N; run_syscalls calls) s = Ok rs s' ∧
    one_fails N (<[p := 0]> (hw2_count s)) calls rs ∧
    ((∀ e, e ∈ calls → e.1 = p) → rs = <[Z.to_nat (N - 1) := - EINVAL]> calls.*2).
Proof.
  intros Hf HN Hw Hc. destruct (sys_fail_arms p N s HN Hf) as (s1 & E1 & A1).
  destruct (run_syscalls_armed N calls (<[p := 0]> (hw2_count s)) s1 Hw) as (rs & s2 & E2 & Ho); [|done|].
  { intros q. destruct (decide (q = p)) as [-> |Hne]; [rewrite fn_lookup_insert; widths; lia|by rewrite fn_lookup_insert_ne]. }
  exists rs, s2. mstep. rewrite E1, E2. split_and!; [done..|]. intros Hp.
  eapply only_caller_fails; [done| |done|exact Ho]. apply fn_lookup_insert.
Qed.

Lemma inject_fails_exactly_nth_witness :
  ∃ rs s', (_ ← sys_fail 7 3; run_syscalls [(7, 10); (7, 11); (7, 12); (7, 13)]) boot_state = Ok rs s' ∧
    rs = [10; 11; -22; 13].
Proof.
  destruct (inject_fails_exactly_nth 7 3 [(7, 10); (7, 11); (7, 12); (7, 13)] boot_state) as (rs & s' & E & _ & Hrs);
    [by left | lia | widths; lia | intros q; simpl; widths; lia |].
  exists rs, s'. split; [exact E|]. apply Hrs. intros e He. rewrite !elem_of_cons in He.
  by destruct He as [-> |[-> |[-> |[-> |[]%not_elem_of_nil]]]].
Defined.

(** Task 7 asks for its third call to fail; task 8 makes two calls of its own without harm,
    but with its third one, made before the third one of task 7, it is task 8 that fails. *)
Example other_task_fails :
  match (_ ← sys_fail 7 3; run_syscalls [(7, 10); (8, 20); (8, 21); (7, 11); (8, 22); (7, 12)]) boot_state with
  | Ok rs _ => rs = [10; 20; 21; 11; -22; 12]
  | Err _ _ => False
  end.
Proof. vm_compute. reflexivity. Qed.

(** The three entry points keep the armed flag boolean, and the argument
    checks answer as documented: a non-positive delay on a disarmed injector is
    rejected with [-EINVAL] and leaves it disarmed, and a zero delay disarms an
    armed one. *)
Theorem injector_flag_invariant s p N :
  flag_ok s →
  flag_ok (res_state (sys_fail p N s)) ∧
  flag_ok (res_state (should_fail p s)) ∧
  flag_ok (res_state (fail_syscall s)) ∧
  (N ≤ 0 → sys_fail_ran s = 0 →
     ∃ s', sys_fail p N s = Ok (- EINVAL) s' ∧ sys_fail_ran s' = 0) ∧
  (sys_fail_ran s = 1 →
     ∃ s', sys_fail p 0 s = Ok 0 s' ∧ sys_fail_ran s' = 0).
Proof.
  intros Hf. unfold sys_fail, should_fail, fail_syscall, flag_ok in *. mstep.
  split_and!.
  - split_ifs; auto.
  - split_ifs; auto.
  - auto.
  - intros HN Hr. rewrite Hr. destruct (Z.ltb_spec 0 N); [lia|].
    destruct (Z.leb_spec N 0); [|lia]. simpl. eauto.
  - intros Hr. rewrite Hr. simpl. eauto.
Qed.

Lemma injector_flag_invariant_witness :
  flag_ok boot_state ∧ ∃ s', sys_fail 1 0 boot_state = Ok (-22) s' ∧ sys_fail_ran s' = 0.
Proof.
  split; [by left|].
  apply (injector_flag_invariant boot_state 1 0); [by left | lia | done].
Defined.
