(* ===== verification/Semaphore.v ===== *)
(** * Counting semaphores over suspend/wake: [hw3/sync.c] and [hw3/sync_ad.c]

    The two files implement the same interface ([sync.h]) on top of the thread
    library.  A semaphore keeps its waiters in a hand-made linked list: [start]
    is the oldest node, [head] the newest.  The list lives in an explicit heap,
    so use of a freed or null node is a fault of the model.  The section
    [Refinement] relates both files to an abstract semaphore with a number of
    permits and a FIFO of waiters. *)

From S2P Require Import Prelude.

(** What [sync.c] uses of [sthread.c]: suspending the caller and waking a
    thread, over a thread-library state [T]. *)
Class SThreadApi (T : Type) := {
  sthread_suspend : Z → M T unit;
  sthread_wake : Z → M T unit
}.

(** [struct Node] and [struct sthread_sem_struct] of [sync.h]. *)
Record Node : Type := mkNode { data : Z; next : option Z }.
#[export] Instance Node_eta : Settable Node := λ r, mkNode (data r) (next r).

Record sthread_sem_struct : Type := mkSem {
  count : Z;
  sthread_count : Z;
  head : option Z;
  start : option Z
}.
#[export] Instance sem_eta : Settable sthread_sem_struct :=
  λ r, mkSem (count r) (sthread_count r) (head r) (start r).

(** The memory a semaphore operation works on: the spin-lock word [flag] shared
    by all semaphores, the semaphore, the heap of list nodes, and the state of
    the thread library. *)
Record mem (T : Type) : Type := mkMem {
  flag : Z;
  sem : sthread_sem_struct;
  heap : gmap Z Node;
  threads : T
}.
Arguments mkMem {T}.
Arguments flag {T}.
Arguments sem {T}.
Arguments heap {T}.
Arguments threads {T}.
#[export] Instance mem_eta T : Settable (mem T) :=
  λ r, mkMem (flag r) (sem r) (heap r) (threads r).

Section Sync.
Context {T : Type} `{SThreadApi T}.

(** [malloc (sizeof (struct Node))]: the address of a block, or a null
    pointer. *)
Variable malloc : gmap Z Node → option Z.

Implicit Types m : mem T.

(** [test_and_set (x)] of [sthread.c]: store 1, return the old value. *)
Definition test_and_set : M (mem T) Z :=
  old ← gets flag;
  _ ← modify (λ m, m <| flag := 1 |>);
  mret old.

(** [while (test_and_set (&flag));]: when the word is set the caller spins
    until another thread clears it. *)
Definition lock : M (mem T) unit :=
  old ← test_and_set;
  if old =? 0 then mret tt else fail Blocked.

Definition unlock : M (mem T) unit := modify (λ m, m <| flag := 0 |>).

(** A freshly allocated node; its contents are indeterminate and written before
    they are read. *)
Definition malloc_node : M (mem T) (option Z) :=
  h ← gets heap;
  match malloc h with
  | Some a => _ ← modify (λ m, m <| heap ::= <[a := mkNode 0 None]> |>); mret (Some a)
  | None => mret None
  end.

(** Load and store through a node pointer. *)
Definition load (p : option Z) : M (mem T) Node :=
  a ← deref p;
  h ← gets heap;
  deref (h !! a).

Definition store (p : option Z) (f : Node → Node) : M (mem T) unit :=
  a ← deref p;
  v ← load (Some a);
  modify (λ m, m <| heap ::= <[a := f v]> |>).

Definition free (p : option Z) : M (mem T) unit :=
  a ← deref p;
  modify (λ m, m <| heap ::= delete a |>).

Definition put_sem (f : sthread_sem_struct → sthread_sem_struct) : M (mem T) unit :=
  modify (λ m, m <| sem ::= f |>).

Definition insertNode (d : Z) : M (mem T) unit :=
  s ← gets sem;
  if sthread_count s =? 0 then
    p ← malloc_node;
    _ ← put_sem (λ s, s <| head := p |>);
    _ ← put_sem (λ s, s <| start := head s |>);
    s ← gets sem;
    _ ← store (head s) (λ v, v <| data := d |>);
    _ ← store (head s) (λ v, v <| next := None |>);
    put_sem (λ s, s <| sthread_count := s32 (sthread_count s + 1) |>)
  else
    temp ← malloc_node;
    s ← gets sem;
    _ ← store (head s) (λ v, v <| next := temp |>);
    _ ← store temp (λ v, v <| data := d |>);
    _ ← store temp (λ v, v <| next := None |>);
    _ ← put_sem (λ s, s <| head := temp |>);
    put_sem (λ s, s <| sthread_count := s32 (sthread_count s + 1) |>).

Definition removeNode : M (mem T) (option Z) :=
  s ← gets sem;
  let temp := start s in
  v ← load (start s);
  _ ← put_sem (λ s, s <| start := next v |>);
  _ ← put_sem (λ s, s <| sthread_count := s32 (sthread_count s - 1) |>);
  mret temp.

Definition is_null (p : option Z) : bool :=
  match p with None => true | Some _ => false end.

Definition sthread_sem_init (c : Z) : M (mem T) Z :=
  _ ← lock;
  _ ← put_sem (λ s, s <| count := c |>);
  _ ← put_sem (λ s, s <| head := None |>);
  _ ← put_sem (λ s, s <| start := None |>);
  _ ← put_sem (λ s, s <| sthread_count := 0 |>);
  s ← gets sem;
  let ret := if (count s =? c) && is_null (head s) then 0 else -1 in
  _ ← unlock;
  mret ret.

Definition sthread_sem_destroy : M (mem T) Z :=
  _ ← lock;
  _ ← put_sem (λ s, s <| count := 0 |>);
  _ ← put_sem (λ s, s <| head := None |>);
  s ← gets sem;
  let ret := if (count s =? 0) && is_null (head s) then 0 else -1 in
  _ ← unlock;
  mret ret.

(** Run an operation of the thread library. *)
Definition call_threads {A} (op : M T A) : M (mem T) A := λ m,
  match op (threads m) with
  | Ok a t => Ok a (m <| threads := t |>)
  | Err f t => Err f (m <| threads := t |>)
  end.

(** [sthread_sem_down] up to its [unlock ()]: the return value, and whether the
    caller still has to suspend itself. *)
Definition down_locked (self : Z) : M (mem T) (Z * bool) :=
  _ ← lock;
  s ← gets sem;
  if 0 <? count s then
    _ ← put_sem (λ s, s <| count := s32 (count s - 1) |>);
    _ ← unlock;
    mret (0, false)
  else
    _ ← insertNode self;
    _ ← unlock;
    mret (-1, true).

Definition sthread_sem_down (self : Z) : M (mem T) Z :=
  '(ret, waits) ← down_locked self;
  _ ← (if waits : bool then call_threads (sthread_suspend self) else mret tt);
  mret ret.

Definition sthread_sem_try_down : M (mem T) Z :=
  _ ← lock;
  s ← gets sem;
  if 0 <? count s then
    _ ← put_sem (λ s, s <| count := s32 (count s - 1) |>);
    _ ← unlock;
    mret 0
  else
    _ ← unlock;
    mret (-1).

(** Take the oldest waiter off the list, free its node and unlock. *)
Definition pop_waiter : M (mem T) (option Z) :=
  longestWaitingThread ← removeNode;
  v ← load longestWaitingThread;
  _ ← free longestWaitingThread;
  _ ← unlock;
  mret (Some (data v)).

(** [sthread_sem_up] up to its [unlock ()]: the thread to wake, if any. *)
Definition up_locked : M (mem T) (option Z) :=
  _ ← lock;
  s ← gets sem;
  if sthread_count s <=? 0 then
    _ ← put_sem (λ s, s <| count := s32 (count s + 1) |>);
    _ ← unlock;
    mret None
  else
    pop_waiter.

Definition sthread_sem_up : M (mem T) Z :=
  w ← up_locked;
  _ ← (match w with Some t => call_threads (sthread_wake t) | None => mret tt end);
  mret 0.

(** The variant of [sync_ad.c].  Its list, lock, initialisation and destruction
    routines have the text of [sync.c]; in [down] and [up] the field [count]
    also counts the waiters, negatively. *)
Definition ad_insertNode (d : Z) : M (mem T) unit := insertNode d.
Definition ad_removeNode : M (mem T) (option Z) := removeNode.
Definition ad_lock : M (mem T) unit := lock.
Definition ad_unlock : M (mem T) unit := unlock.
Definition ad_sthread_sem_init (c : Z) : M (mem T) Z := sthread_sem_init c.
Definition ad_sthread_sem_destroy : M (mem T) Z := sthread_sem_destroy.

Definition ad_down_locked (self : Z) : M (mem T) bool :=
  _ ← ad_lock;
  _ ← put_sem (λ s, s <| count := s32 (count s - 1) |>);
  s ← gets sem;
  if 0 <=? count s then
    _ ← ad_unlock;
    mret false
  else
    _ ← ad_insertNode self;
    _ ← ad_unlock;
    mret true.

Definition ad_sthread_sem_down (self : Z) : M (mem T) Z :=
  w ← ad_down_locked self;
  _ ← (if w : bool then call_threads (sthread_suspend self) else mret tt);
  mret 0.

Definition ad_sthread_sem_try_down : M (mem T) Z :=
  _ ← ad_lock;
  s ← gets sem;
  if 0 <=? count s then
    _ ← put_sem (λ s, s <| count := s32 (count s - 1) |>);
    _ ← ad_unlock;
    mret 0
  else
    _ ← ad_unlock;
    mret (-1).

Definition ad_pop_waiter : M (mem T) (option Z) :=
  longestWaitingThread ← ad_removeNode;
  v ← load longestWaitingThread;
  _ ← free longestWaitingThread;
  _ ← ad_unlock;
  mret (Some (data v)).

Definition ad_up_locked : M (mem T) (option Z) :=
  _ ← ad_lock;
  _ ← put_sem (λ s, s <| count := s32 (count s + 1) |>);
  s ← gets sem;
  if sthread_count s <=? 0 then
    _ ← ad_unlock;
    mret None
  else
    ad_pop_waiter.

Definition ad_sthread_sem_up : M (mem T) Z :=
  w ← ad_up_locked;
  _ ← (match w with Some t => call_threads (sthread_wake t) | None => mret tt end);
  mret 0.

End Sync.

(** ** The linked list of waiters *)

(** The nodes at [addrs], linked from [p] on, hold [ws]. *)
Fixpoint list_at (h : gmap Z Node) (p : option Z) (addrs ws : list Z) : Prop :=
  match addrs, ws with
  | [], [] => p = None
  | a :: addrs', w :: ws' =>
      p = Some a ∧ ∃ nxt, h !! a = Some (mkNode w nxt) ∧ list_at h nxt addrs' ws'
  | _, _ => False
  end.

Lemma list_at_length h p addrs ws :
  list_at h p addrs ws → length addrs = length ws.
Proof.
  revert p ws. induction addrs as [|a addrs IH]; intros p [|w ws]; simpl; try done.
  intros (_ & nxt & _ & Hl). f_equal. eauto.
Qed.

Lemma list_at_alloc h p addrs ws a :
  list_at h p addrs ws → a ∈ addrs → is_Some (h !! a).
Proof.
  revert p ws. induction addrs as [|b addrs IH]; intros p [|w ws]; simpl; try done.
  { by intros _ ?%elem_of_nil. }
  intros (_ & nxt & Hb & Hl) [->|Ha]%elem_of_cons; eauto.
Qed.

Lemma list_at_frame h h' p addrs ws :
  (∀ a, a ∈ addrs → h' !! a = h !! a) →
  list_at h p addrs ws → list_at h' p addrs ws.
Proof.
  revert p ws. induction addrs as [|a addrs IH]; intros p [|w ws] Hf; simpl; try done.
  intros (-> & nxt & Ha & Hl). split; [done|]. exists nxt. split.
  - rewrite Hf by left. done.
  - apply IH; [|done]. intros b Hb. apply Hf. by right.
Qed.

Lemma list_at_insert h p addrs ws a v :
  a ∉ addrs → list_at h p addrs ws → list_at (<[a := v]> h) p addrs ws.
Proof.
  intros Ha. apply list_at_frame. intros b Hb. apply lookup_insert_ne. by intros ->.
Qed.

Lemma list_at_delete h p addrs ws a :
  a ∉ addrs → list_at h p addrs ws → list_at (delete a h) p addrs ws.
Proof.
  intros Ha. apply list_at_frame. intros b Hb. apply lookup_delete_ne. by intros ->.
Qed.

(** Linking a new last node. *)
Lemma list_at_snoc h p addrs ws l w0 nxt0 a d :
  list_at h p addrs ws → NoDup addrs → a ∉ addrs →
  last addrs = Some l → h !! l = Some (mkNode w0 nxt0) →
  list_at (<[a := mkNode d None]> (<[l := mkNode w0 (Some a)]> h)) p
    (addrs ++ [a]) (ws ++ [d]).
Proof.
  revert p ws. induction addrs as [|b addrs IH]; intros p [|w ws]; simpl; try done.
  intros (-> & nxt & Hb & Hl) Hnd Ha Hlast Hll. split; [done|].
  apply NoDup_cons in Hnd as [Hbn Hnd]. apply not_elem_of_cons in Ha as [Hab Ha].
  destruct addrs as [|c addrs].
  - simpl in Hlast. simplify_eq. destruct ws; [|done]. simpl in Hl. subst.
    exists (Some a). rewrite lookup_insert_ne, lookup_insert_eq by done. split; [done|].
    simpl. split; [done|]. exists None. by rewrite lookup_insert_eq.
  - rewrite last_cons_cons in Hlast. exists nxt. split.
    + rewrite !lookup_insert_ne; [done| |done]. intros ->.
      apply Hbn. by apply last_Some_elem_of in Hlast.
    + by apply IH.
Qed.

Section QueueSpec.
Context {T : Type} `{SThreadApi T}.
Implicit Types m : mem T.

(** The semaphore's list holds the waiters [ws], oldest first. *)
Definition queue_repr (ws : list Z) (m : mem T) : Prop :=
  ∃ addrs, NoDup addrs ∧ list_at (heap m) (start (sem m)) addrs ws ∧
    (ws ≠ [] → head (sem m) = last addrs) ∧
    sthread_count (sem m) = Z.of_nat (length ws).

(** What an operation on the list leaves alone. *)
Definition same_rest (m m' : mem T) : Prop :=
  flag m' = flag m ∧ count (sem m') = count (sem m) ∧ threads m' = threads m.

Lemma load_ok m a v : heap m !! a = Some v → load (Some a) m = Ok v m.
Proof. intros Ha. unfold load. mstep. by rewrite Ha. Qed.

Lemma store_ok m a f v :
  heap m !! a = Some v →
  store (Some a) f m = Ok tt (m <| heap ::= <[a := f v]> |>).
Proof. intros Ha. unfold store, load. mstep. by rewrite Ha. Qed.

Context (malloc : gmap Z Node → option Z).
Hypothesis malloc_fresh : ∀ h a, malloc h = Some a → h !! a = None.

Lemma insertNode_empty d a m :
  malloc (heap m) = Some a → queue_repr [] m →
  ∃ m', insertNode malloc d m = Ok tt m' ∧ queue_repr [d] m' ∧ same_rest m m'.
Proof.
  intros Ha (addrs & Hnd & Hl & _ & Hc). destruct addrs; [|done].
  unfold insertNode, malloc_node, put_sem, store, load. mstep. rewrite Hc. simpl.
  rewrite Ha. simpl. repeat (rewrite lookup_insert_eq; simpl).
  eexists. split; [done|]. split; [|done]. exists [a]. simpl.
  split; [apply NoDup_singleton|]. split_and!.
  - done.
  - eexists. rewrite lookup_insert_eq. done.
  - done.
  - by rewrite Hc.
Qed.

Lemma insertNode_snoc d a m w ws :
  malloc (heap m) = Some a → queue_repr (w :: ws) m →
  Z.of_nat (length (w :: ws)) < INT_MAX →
  ∃ m', insertNode malloc d m = Ok tt m' ∧ queue_repr ((w :: ws) ++ [d]) m' ∧
        same_rest m m'.
Proof using malloc_fresh.
  intros Ha (addrs & Hnd & Hl & Hh & Hc) Hlen.
  assert (a ∉ addrs) as Hfr.
  { intros Hin. destruct (list_at_alloc _ _ _ _ _ Hl Hin) as [v Hv].
    apply malloc_fresh in Ha. congruence. }
  specialize (Hh ltac:(done)).
  destruct (last addrs) as [l|] eqn:El;
    [|apply last_None in El; subst; done].
  assert (l ∈ addrs) as Hin by by apply last_Some_elem_of.
  destruct (list_at_alloc _ _ _ _ _ Hl Hin) as [[wl nl] Hv].
  assert (l ≠ a) as Hne by (intros ->; done).
  assert ((sthread_count (sem m) =? 0) = false) as Ez by (rewrite Hc; simpl; lia).
  unfold insertNode, malloc_node, put_sem. mstep. rewrite Ez, Ha. mstep.
  rewrite Hh.
  erewrite store_ok by (simpl; rewrite lookup_insert_ne by done; exact Hv). simpl.
  erewrite store_ok by (simpl; rewrite lookup_insert_ne, lookup_insert_eq by done; done).
  simpl.
  erewrite store_ok by (simpl; rewrite lookup_insert_eq; done). simpl.
  eexists. split; [done|]. split; [|done].
  exists (addrs ++ [a]). simpl. split_and!.
  - apply NoDup_app. split_and!; [done| |apply NoDup_singleton].
    intros x Hx ->%list_elem_of_singleton. done.
  - rewrite insert_insert_eq.
    eapply (list_at_snoc _ _ _ (w :: ws)); [by apply list_at_insert|done..|].
    by rewrite lookup_insert_ne.
  - intros _. by rewrite last_snoc.
  - rewrite Hc, length_app. simpl. rewrite swrap_small; widths; simpl in *; lia.
Qed.

Lemma insertNode_spec d a m ws :
  malloc (heap m) = Some a → queue_repr ws m → Z.of_nat (length ws) < INT_MAX →
  ∃ m', insertNode malloc d m = Ok tt m' ∧ queue_repr (ws ++ [d]) m' ∧ same_rest m m'.
Proof using malloc_fresh.
  destruct ws as [|w ws]; intros.
  - by eapply insertNode_empty.
  - by eapply insertNode_snoc.
Qed.

(** The oldest waiter leaves the list; its node is freed after its last use. *)
Lemma pop_waiter_spec m w ws :
  queue_repr (w :: ws) m → Z.of_nat (length (w :: ws)) ≤ INT_MAX →
  ∃ m', pop_waiter m = Ok (Some w) m' ∧ queue_repr ws m' ∧ flag m' = 0 ∧
        count (sem m') = count (sem m) ∧ threads m' = threads m.
Proof.
  intros (addrs & Hnd & Hl & Hh & Hc) Hlen.
  destruct addrs as [|a addrs]; [done|]. destruct Hl as (Hs & nxt & Ha & Hl).
  unfold pop_waiter, removeNode, put_sem, unlock, free. mstep. rewrite Hs.
  rewrite (load_ok _ _ _ Ha). simpl. erewrite load_ok by (simpl; exact Ha). simpl.
  eexists. split; [done|]. split; [|done].
  apply NoDup_cons in Hnd as [Han Hnd]. exists addrs. simpl. split_and!.
  - done.
  - by apply list_at_delete.
  - intros Hw. rewrite (Hh ltac:(done)).
    destruct addrs; [|by rewrite last_cons_cons].
    apply list_at_length in Hl. destruct ws; done.
  - rewrite Hc. simpl. rewrite swrap_small; widths; simpl in *; lia.
Qed.

End QueueSpec.

(** ** The abstract semaphore *)

Record asem : Type := mkA { permits : Z; waiters : list Z }.

(** A permit is taken, or the caller joins the FIFO (the flag says it waits). *)
Definition a_down (t : Z) (a : asem) : bool * asem :=
  if 0 <? permits a then (false, mkA (permits a - 1) (waiters a))
  else (true, mkA (permits a) (waiters a ++ [t])).

Definition a_try_down (a : asem) : bool * asem :=
  if 0 <? permits a then (true, mkA (permits a - 1) (waiters a)) else (false, a).

(** The permit goes to the oldest waiter, or back to the pool. *)
Definition a_up (a : asem) : option Z * asem :=
  match waiters a with
  | [] => (None, mkA (permits a + 1) [])
  | w :: ws => (Some w, mkA (permits a) ws)
  end.

(** Nobody waits while a permit is free. *)
Definition a_wf (a : asem) : Prop :=
  0 ≤ permits a ∧ (0 < permits a → waiters a = []).

Lemma a_down_wf t a : a_wf a → a_wf (snd (a_down t a)).
Proof.
  unfold a_down, a_wf. intros [? Hw].
  destruct (Z.ltb_spec 0 (permits a)); simpl; split; try lia. intros _. apply Hw. lia.
Qed.

Lemma a_up_wf a : a_wf a → a_wf (snd (a_up a)).
Proof.
  unfold a_up, a_wf. intros [? Hw]. destruct (waiters a) eqn:E; simpl; split; try lia; try done.
  intros Hp. by specialize (Hw Hp).
Qed.

Lemma a_try_down_wf a : a_wf a → a_wf (snd (a_try_down a)).
Proof.
  unfold a_try_down, a_wf. intros [? Hw].
  destruct (Z.ltb_spec 0 (permits a)); simpl; split; try lia; auto.
Qed.

(** The numbers fit the [int] fields, with room for one more waiter. *)
Definition a_fits (a : asem) : Prop :=
  permits a ≤ INT_MAX ∧ Z.of_nat (length (waiters a)) < INT_MAX.

Section Refinement.
Context {T : Type} `{SThreadApi T}.
Context (malloc : gmap Z Node → option Z).
Hypothesis malloc_fresh : ∀ h a, malloc h = Some a → h !! a = None.
Implicit Types m : mem T.

(** [sync.c] stores the permits in [count]. *)
Definition sem_repr (a : asem) (m : mem T) : Prop :=
  flag m = 0 ∧ a_wf a ∧ count (sem m) = permits a ∧ queue_repr (waiters a) m.

(** [sync_ad.c] stores permits minus waiters. *)
Definition ad_repr (a : asem) (m : mem T) : Prop :=
  flag m = 0 ∧ a_wf a ∧
  count (sem m) = permits a - Z.of_nat (length (waiters a)) ∧ queue_repr (waiters a) m.

Lemma queue_repr_congr ws m m' :
  sem m' = sem m → heap m' = heap m → queue_repr ws m → queue_repr ws m'.
Proof. unfold queue_repr. by intros -> ->. Qed.

Lemma queue_repr_count ws m c m' :
  sem m' = (sem m) <| count := c |> → heap m' = heap m →
  queue_repr ws m → queue_repr ws m'.
Proof. unfold queue_repr. by intros -> ->. Qed.

Ltac unlocked Hf :=
  unfold ad_lock, ad_unlock, ad_insertNode, lock, test_and_set, unlock, put_sem in *;
  mstep; rewrite Hf; simpl.

Lemma down_refines t a m :
  sem_repr a m → a_fits a → (permits a ≤ 0 → is_Some (malloc (heap m))) →
  ∃ m', down_locked malloc t m
        = Ok (if fst (a_down t a) then -1 else 0, fst (a_down t a)) m' ∧
        sem_repr (snd (a_down t a)) m' ∧ threads m' = threads m.
Proof using malloc_fresh.
  intros (Hf & Hwf & Hc & Hq) [Hp Hl] Hok. pose proof (a_down_wf t a Hwf) as Hwf'.
  unfold down_locked, a_down in *. unlocked Hf. rewrite Hc.
  destruct (Z.ltb_spec 0 (permits a)); simpl in *.
  - eexists. split; [done|]. split; [|done]. split_and!; try done; simpl.
    rewrite Hc, swrap_small; widths; lia.
  - destruct (Hok ltac:(done)) as [x Hx].
    set (m1 := modify_field _ m).
    destruct (insertNode_spec malloc malloc_fresh t x m1 (waiters a)) as (m2 & E & Hq2 & _ & Hc2 & Ht2);
      [done|by eapply queue_repr_congr|done|].
    rewrite E. eexists. split; [done|]. split; [|done].
    split_and!; try done; simpl. by rewrite Hc2.
Qed.

(** Without a node for a thread that has to wait the null pointer is used, with the lock held. *)
Lemma insertNode_fails t a m :
  malloc (heap m) = None → queue_repr (waiters a) m →
  ∃ m', insertNode malloc t m = Err NullDeref m' ∧ flag m' = flag m.
Proof.
  intros Hx (addrs & Hnd & Hl & Hh & Hc). unfold insertNode, malloc_node, put_sem, store, load. mstep.
  destruct (Z.eqb_spec (sthread_count (sem m)) 0) as [E|Hne]; mstep; rewrite Hx; mstep; [by eexists|].
  destruct (waiters a) as [|w ws] eqn:Ew; [by rewrite Hc in Hne|]. specialize (Hh ltac:(done)).
  destruct (last addrs) as [l|] eqn:El; [|apply last_None in El; by subst].
  destruct (list_at_alloc _ _ _ _ _ Hl (last_Some_elem_of _ _ El)) as [v Hv].
  rewrite Hh. mstep. rewrite Hv. mstep. by eexists.
Qed.

Lemma down_fails t a m :
  sem_repr a m → permits a ≤ 0 → malloc (heap m) = None →
  ∃ m', down_locked malloc t m = Err NullDeref m' ∧ flag m' = 1.
Proof.
  intros (Hf & _ & Hc & Hq) Hp Hx. unfold down_locked. unlocked Hf. rewrite Hc.
  destruct (Z.ltb_spec 0 (permits a)); [lia|]. set (m1 := modify_field _ m).
  destruct (insertNode_fails t a m1) as (m2 & -> & Hf2); [done|by eapply queue_repr_congr|]. by exists m2.
Qed.

Lemma try_down_refines a m :
  sem_repr a m → a_fits a →
  ∃ m', sthread_sem_try_down m = Ok (if fst (a_try_down a) then 0 else -1) m' ∧
        sem_repr (snd (a_try_down a)) m' ∧ threads m' = threads m.
Proof.
  intros (Hf & Hwf & Hc & Hq) [Hp Hl]. pose proof (a_try_down_wf a Hwf) as Hwf'.
  unfold sthread_sem_try_down, a_try_down in *. unlocked Hf. rewrite Hc.
  destruct (Z.ltb_spec 0 (permits a)); simpl in *;
    eexists; (split; [done|]); (split; [|done]); split_and!; try done; simpl.
  rewrite Hc, swrap_small; widths; lia.
Qed.

Lemma up_refines a m :
  sem_repr a m → a_fits a → permits a < INT_MAX →
  ∃ m', up_locked m = Ok (fst (a_up a)) m' ∧
        sem_repr (snd (a_up a)) m' ∧ threads m' = threads m.
Proof.
  intros (Hf & Hwf & Hc & Hq) [_ Hl] Hp. pose proof (a_up_wf a Hwf) as Hwf'.
  pose proof Hq as (addrs & _ & _ & _ & Hn).
  unfold up_locked, a_up in *. unlocked Hf. rewrite Hn.
  destruct (waiters a) as [|w ws] eqn:Ew; simpl in *.
  - eexists. split; [done|]. split; [|done]. split_and!; try done; simpl.
    destruct Hwf. rewrite Hc, swrap_small; widths; lia.
  - destruct (Z.leb_spec (Z.of_nat (S (length ws))) 0); [lia|]. set (m1 := modify_field _ m).
    destruct (pop_waiter_spec m1 w ws) as (m2 & E & Hq2 & Hf2 & Hc2 & Ht2);
      [by eapply queue_repr_congr|simpl; lia|].
    rewrite E. eexists. split; [done|]. split; [|done].
    split_and!; try done. by rewrite Hc2.
Qed.

Lemma ad_down_refines t a m :
  ad_repr a m → a_fits a → (permits a ≤ 0 → is_Some (malloc (heap m))) →
  ∃ m', ad_down_locked malloc t m = Ok (fst (a_down t a)) m' ∧
        ad_repr (snd (a_down t a)) m' ∧ threads m' = threads m.
Proof using malloc_fresh.
  intros (Hf & Hwf & Hc & Hq) [Hp Hl] Hok. pose proof (a_down_wf t a Hwf) as Hwf'.
  assert (s32 (count (sem m) - 1) = permits a - Z.of_nat (length (waiters a)) - 1) as Hs.
  { destruct Hwf. rewrite Hc. apply swrap_small; widths; lia. }
  destruct Hwf as [Hnn Hpw].
  unfold ad_down_locked, a_down in *. unlocked Hf. rewrite Hs.
  destruct (Z.ltb_spec 0 (permits a)) as [Hpos|Hz]; simpl in *.
  - specialize (Hpw Hpos). rewrite Hpw in *. simpl in *.
    match goal with |- context [0 <=? ?z] => destruct (Z.leb_spec 0 z); [|lia] end.
    eexists. split; [done|]. split; [|done]. split_and!; try done; simpl; try lia.
  - destruct (Z.leb_spec 0 (permits a - Z.of_nat (length (waiters a)) - 1)); [lia|].
    destruct (Hok ltac:(done)) as [x Hx]. set (m1 := modify_field _ (modify_field _ m)).
    destruct (insertNode_spec malloc malloc_fresh t x m1 (waiters a)) as (m2 & E & Hq2 & _ & Hc2 & Ht2);
      [done|by eapply queue_repr_count|done|].
    rewrite E. eexists. split; [done|]. split; [|done].
    split_and!; try done; simpl. rewrite Hc2, length_app. simpl. lia.
Qed.

Lemma ad_up_refines a m :
  ad_repr a m → a_fits a → permits a < INT_MAX →
  ∃ m', ad_up_locked m = Ok (fst (a_up a)) m' ∧
        ad_repr (snd (a_up a)) m' ∧ threads m' = threads m.
Proof.
  intros (Hf & Hwf & Hc & Hq) [_ Hl] Hp. pose proof (a_up_wf a Hwf) as Hwf'.
  assert (s32 (count (sem m) + 1) = permits a - Z.of_nat (length (waiters a)) + 1) as Hs.
  { destruct Hwf. rewrite Hc. apply swrap_small; widths; lia. }
  pose proof Hq as (addrs & _ & _ & _ & Hn). destruct Hwf as [Hnn Hpw].
  unfold ad_up_locked, a_up in *. unlocked Hf. rewrite Hn.
  destruct (waiters a) as [|w ws] eqn:Ew; simpl in *.
  - eexists. split; [done|]. split; [|done]. split_and!; try done; simpl. lia.
  - destruct (Z.leb_spec (Z.of_nat (S (length ws))) 0); [lia|]. set (m1 := modify_field _ (modify_field _ m)).
    destruct (pop_waiter_spec m1 w ws) as (m2 & E & Hq2 & Hf2 & Hc2 & Ht2);
      [by eapply queue_repr_count|simpl; lia|].
    change (ad_pop_waiter m1) with (pop_waiter m1).
    rewrite E. eexists. split; [done|]. split; [|done].
    split_and!; try done; simpl. rewrite Hc2. simpl. lia.
Qed.
End Refinement.

Section RefinementClaims.
Context {T : Type} `{SThreadApi T}.
Implicit Types m : mem T.

Lemma init_refines c m :
  flag m = 0 → 0 ≤ c →
  ∃ m', sthread_sem_init c m = Ok 0 m' ∧ sem_repr (mkA c []) m' ∧
        ad_repr (mkA c []) m' ∧ threads m' = threads m.
Proof.
  intros Hf Hc. unfold sthread_sem_init, lock, test_and_set, unlock, put_sem. mstep.
  rewrite Hf. simpl. rewrite Z.eqb_refl. simpl.
  assert (a_wf (mkA c [])) by done.
  set (m' := modify_field _ _).
  assert (queue_repr [] m') by (exists []; split_and!; [apply NoDup_nil_2|done..]).
  exists m'. repeat (split; try done). simpl. lia.
Qed.

(** C7. [sync.c] implements the abstract semaphore: from a state that represents
    [a], initialisation, [down], [try_down] and [up] return the abstract
    answers (the thread to wake, whether to wait, the status code) and end in a
    state that represents the abstract successor with the spin lock released.
    The exception is [down] without a permit when [malloc] has no memory for the
    list node, which [insertNode] does not check: it dereferences the null
    pointer, with the spin lock held. *)
Theorem sync_refines (malloc : gmap Z Node → option Z) (t c : Z) (a : asem) (m : mem T) :
  (∀ h x, malloc h = Some x → h !! x = None) →
  sem_repr a m → a_fits a → permits a < INT_MAX → 0 ≤ c →
  (∃ m', sthread_sem_init c m = Ok 0 m' ∧ sem_repr (mkA c []) m') ∧
  (if decide (permits a ≤ 0 ∧ malloc (heap m) = None)
   then ∃ m', down_locked malloc t m = Err NullDeref m' ∧ flag m' = 1
   else ∃ m', down_locked malloc t m
              = Ok (if fst (a_down t a) then -1 else 0, fst (a_down t a)) m' ∧
              sem_repr (snd (a_down t a)) m') ∧
  (∃ m', sthread_sem_try_down m = Ok (if fst (a_try_down a) then 0 else -1) m' ∧
         sem_repr (snd (a_try_down a)) m') ∧
  (∃ m', up_locked m = Ok (fst (a_up a)) m' ∧ sem_repr (snd (a_up a)) m').
Proof.
  intros Hfr Hr Hfit Hp Hc. split_and!.
  - destruct (init_refines c m) as (m' & ? & ? & _); [by destruct Hr|done|eauto].
  - destruct (decide _) as [[Hz Hx]|Hn]; [by eapply down_fails|].
    destruct (down_refines malloc Hfr t a m Hr Hfit) as (m' & ? & ? & _); [|eauto].
    intros Hz. destruct (malloc (heap m)); [by eexists|]. by destruct Hn.
  - destruct (try_down_refines a m Hr Hfit) as (m' & ? & ? & _); eauto.
  - destruct (up_refines a m Hr Hfit Hp) as (m' & ? & ? & _); eauto.
Qed.

(** [sync_ad.c], which lets [count] go negative by the number of waiters,
    implements the same abstract initialisation, [down] and [up]. *)
Theorem sync_ad_refines (malloc : gmap Z Node → option Z) (t c : Z) (a : asem) (m : mem T) :
  (∀ h x, malloc h = Some x → h !! x = None) → (permits a ≤ 0 → is_Some (malloc (heap m))) →
  ad_repr a m → a_fits a → permits a < INT_MAX → 0 ≤ c →
  (∃ m', ad_sthread_sem_init c m = Ok 0 m' ∧ ad_repr (mkA c []) m') ∧
  (∃ m', ad_down_locked malloc t m = Ok (fst (a_down t a)) m' ∧
         ad_repr (snd (a_down t a)) m') ∧
  (∃ m', ad_up_locked m = Ok (fst (a_up a)) m' ∧ ad_repr (snd (a_up a)) m').
Proof.
  intros Hfr Hok Hr Hfit Hp Hc. split_and!.
  - destruct (init_refines c m) as (m' & ? & _ & ? & _); [by destruct Hr|done|eauto].
  - destruct (ad_down_refines malloc Hfr t a m Hr Hfit Hok) as (m' & ? & ? & _); eauto.
  - destruct (ad_up_refines a m Hr Hfit Hp) as (m' & ? & ? & _); eauto.
Qed.

(** [sthread_sem_try_down] of [sync_ad.c] tests [count >= 0] and so hands out
    a permit that does not exist: with no permit left and nobody waiting it
    reports success and leaves [count] at -1, where the abstract semaphore (and
    [sync.c]) refuses. *)
Theorem sync_ad_try_down_overgrants (a : asem) (m : mem T) :
  ad_repr a m → permits a = 0 → waiters a = [] →
  fst (a_try_down a) = false ∧
  ∃ m', ad_sthread_sem_try_down m = Ok 0 m' ∧ count (sem m') = -1 ∧ flag m' = 0.
Proof.
  intros (Hf & _ & Hc & _) Hp Hw. split; [unfold a_try_down; by rewrite Hp|].
  rewrite Hp, Hw in Hc. change (count (sem m) = 0) in Hc.
  unfold ad_sthread_sem_try_down, ad_lock, ad_unlock, lock, test_and_set, unlock, put_sem. mstep.
  rewrite Hf. simpl. rewrite Hc. simpl. eexists. split; [done|]. simpl. by rewrite Hc.
Qed.
End RefinementClaims.

(** ** Threads using one semaphore *)

(** A thread library for whole-system reasoning: one entry per unread wake-up
    message in a thread's pipe.  Suspending reads a message or blocks. *)
#[export] Instance token_api : SThreadApi (list Z) := {
  sthread_suspend t := λ tok,
    if decide (t ∈ tok) then Ok tt (remove_one t tok) else Err Blocked tok;
  sthread_wake t := λ tok, Ok tt (t :: tok)
}.

Section System.
Variable malloc : gmap Z Node → option Z.

(** The whole system: the memory, the threads inside [sthread_suspend], the
    wake-ups [up] has decided on but not yet sent, and two ghost counters: how
    many [down]s have returned to their callers with a permit, and how many
    [up]s were called. *)
Record sys : Type := mkSys {
  smem : mem (list Z);
  suspended : list Z;
  waking : list Z;
  granted : Z;
  ups : Z
}.

(** A call is cut at the points where it releases the lock; between them any
    other thread may run.  The side conditions keep the [int] counters in
    range. *)
Inductive sys_step : sys → sys → Prop :=
  | step_down t m m' ret waits su wk g u :
      t ∉ su → Z.of_nat (length su) < INT_MAX →
      down_locked malloc t m = Ok (ret, waits) m' →
      sys_step (mkSys m su wk g u)
        (mkSys m' (if waits : bool then t :: su else su) wk (if waits then g else g + 1) u)
  | step_resume t m m' su wk g u :
      t ∈ su →
      call_threads (sthread_suspend t) m = Ok tt m' →
      sys_step (mkSys m su wk g u) (mkSys m' (remove_one t su) wk (g + 1) u)
  | step_try_down t m m' ret su wk g u :
      t ∉ su → Z.of_nat (length su) < INT_MAX →
      sthread_sem_try_down m = Ok ret m' →
      sys_step (mkSys m su wk g u) (mkSys m' su wk (if ret =? 0 then g + 1 else g) u)
  | step_up m m' w su wk g u :
      Z.of_nat (length su) < INT_MAX → count (sem m) < INT_MAX →
      up_locked m = Ok w m' →
      sys_step (mkSys m su wk g u) (mkSys m' su (option_list w ++ wk) g (u + 1))
  | step_wake w m m' su wk g u :
      w ∈ wk →
      call_threads (sthread_wake w) m = Ok tt m' →
      sys_step (mkSys m su wk g u) (mkSys m' su (remove_one w wk) g u).

(** A semaphore just initialised with [c], no thread waiting. *)
Definition sys_init (c : Z) (s : sys) : Prop :=
  c ≤ INT_MAX ∧ sem_repr (mkA c []) (smem s) ∧ threads (smem s) = [] ∧
  suspended s = [] ∧ waking s = [] ∧ granted s = 0 ∧ ups s = 0.

(** Every suspended thread is queued, about to be woken, or has an unread
    wake-up; and permits are conserved. *)
Definition sys_inv (c : Z) (s : sys) : Prop :=
  ∃ a, sem_repr a (smem s) ∧ permits a ≤ INT_MAX ∧
    suspended s ≡ₚ waiters a ++ waking s ++ threads (smem s) ∧
    c + ups s = permits a + granted s
                + Z.of_nat (length (waking s) + length (threads (smem s))).

Hypothesis malloc_fresh : ∀ h a, malloc h = Some a → h !! a = None.

Lemma sys_inv_init c s : sys_init c s → sys_inv c s.
Proof.
  intros (Hc & Hr & Ht & Hs & Hw & Hg & Hu). exists (mkA c []).
  rewrite Ht, Hs, Hw, Hg, Hu. split_and!; [done..|]. simpl. lia.
Qed.

Lemma queue_le (l1 l2 l3 : list Z) su :
  su ≡ₚ l1 ++ l2 ++ l3 → (length l1 ≤ length su)%nat.
Proof. intros ->. rewrite !length_app. lia. Qed.

(** Each kind of step preserves the invariant. *)
Lemma inv_down c t m m' ret waits su wk g u :
  Z.of_nat (length su) < INT_MAX →
  down_locked malloc t m = Ok (ret, waits) m' →
  sys_inv c (mkSys m su wk g u) →
  sys_inv c (mkSys m' (if waits : bool then t :: su else su) wk
               (if waits then g else g + 1) u).
Proof using malloc_fresh.
  intros Hlen E (a & Hr & Hp & Hperm & Hsum). simpl in *.
  pose proof (queue_le _ _ _ _ Hperm).
  destruct (down_refines malloc malloc_fresh t a m Hr) as (m1 & E1 & Hr1 & Ht1).
  { split; [done|lia]. }
  { intros Hz. destruct (malloc (heap m)) eqn:Hx; [by eexists|].
    destruct (down_fails malloc t a m Hr Hz Hx) as (m1 & E1 & _). congruence. }
  rewrite E in E1. injection E1 as -> -> ->.
  exists (snd (a_down t a)). simpl. rewrite Ht1. split; [done|].
  unfold a_down. destruct (Z.ltb_spec 0 (permits a)); simpl.
  - split_and!; [lia|done|lia].
  - split_and!; [lia| |lia]. rewrite Hperm, <- !app_assoc. simpl.
    by rewrite Permutation_middle.
Qed.

Lemma inv_try_down c m m' ret su wk g u :
  Z.of_nat (length su) < INT_MAX →
  sthread_sem_try_down m = Ok ret m' →
  sys_inv c (mkSys m su wk g u) →
  sys_inv c (mkSys m' su wk (if ret =? 0 then g + 1 else g) u).
Proof.
  intros Hlen E (a & Hr & Hp & Hperm & Hsum). simpl in *.
  pose proof (queue_le _ _ _ _ Hperm).
  destruct (try_down_refines a m Hr) as (m1 & E1 & Hr1 & Ht1); [split; [done|lia]|].
  rewrite E in E1. injection E1 as -> ->.
  exists (snd (a_try_down a)). simpl. rewrite Ht1. split; [done|].
  unfold a_try_down. destruct (Z.ltb_spec 0 (permits a)); simpl;
    split_and!; try done; lia.
Qed.

Lemma inv_up c m m' w su wk g u :
  Z.of_nat (length su) < INT_MAX → count (sem m) < INT_MAX →
  up_locked m = Ok w m' →
  sys_inv c (mkSys m su wk g u) →
  sys_inv c (mkSys m' su (option_list w ++ wk) g (u + 1)).
Proof.
  intros Hlen Hc E (a & Hr & Hp & Hperm & Hsum). simpl in *.
  pose proof (queue_le _ _ _ _ Hperm).
  assert (count (sem m) = permits a) as Hca by (by destruct Hr as (_ & _ & ? & _)).
  destruct (up_refines a m Hr) as (m1 & E1 & Hr1 & Ht1); [split; [done|lia]|lia|].
  rewrite E in E1. injection E1 as -> ->.
  exists (snd (a_up a)). simpl. rewrite Ht1. split; [done|].
  unfold a_up in *. destruct (waiters a) as [|w ws]; simpl in *.
  - split_and!; [lia|done|lia].
  - split_and!; [lia| |lia]. rewrite Hperm. simpl. by rewrite Permutation_middle.
Qed.

Lemma inv_resume c t m m' su wk g u :
  t ∈ su → call_threads (sthread_suspend t) m = Ok tt m' →
  sys_inv c (mkSys m su wk g u) →
  sys_inv c (mkSys m' (remove_one t su) wk (g + 1) u).
Proof.
  intros Ht E (a & Hr & Hp & Hperm & Hsum). simpl in *.
  unfold call_threads in E. simpl in E.
  destruct (decide (t ∈ threads m)) as [Hin|]; [|done]. simplify_eq.
  exists a. simpl. split; [done|]. split; [done|].
  pose proof (remove_one_perm t (threads m) Hin) as Hrm. split.
  - apply (Permutation_cons_inv (a := t)).
    rewrite <- (remove_one_perm t su Ht), Hperm, Hrm at 1.
    rewrite !app_assoc. by rewrite Permutation_middle.
  - apply Permutation_length in Hrm. simpl in Hrm. lia.
Qed.

Lemma inv_wake c w m m' su wk g u :
  w ∈ wk → call_threads (sthread_wake w) m = Ok tt m' →
  sys_inv c (mkSys m su wk g u) →
  sys_inv c (mkSys m' su (remove_one w wk) g u).
Proof.
  intros Hw E (a & Hr & Hp & Hperm & Hsum). simpl in *.
  unfold call_threads in E. simpl in E. simplify_eq.
  exists a. simpl. split; [done|]. split; [done|].
  pose proof (remove_one_perm w wk Hw) as Hrm. split.
  - rewrite Hperm. apply Permutation_app_head. rewrite Hrm at 1. apply Permutation_middle.
  - apply Permutation_length in Hrm. simpl in Hrm. lia.
Qed.

Lemma sys_inv_step c s s' : sys_inv c s → sys_step s s' → sys_inv c s'.
Proof using malloc_fresh.
  intros Hi Hs. destruct Hs; eauto using inv_down, inv_resume, inv_try_down, inv_up, inv_wake.
Qed.

Lemma sys_reachable_inv c s : reachable (sys_init c) sys_step s → sys_inv c s.
Proof using malloc_fresh.
  apply reachable_inv; eauto using sys_inv_init, sys_inv_step.
Qed.

(** C8. Whatever the interleaving of [down], [try_down], [up], suspend and wake
    calls, a semaphore initialised with [c] never has more than [c] permits
    outstanding. *)
Theorem semaphore_safety c s :
  reachable (sys_init c) sys_step s → granted s - ups s ≤ c.
Proof using malloc_fresh.
  intros (a & (_ & [Ha _] & _) & _ & _ & Hsum)%sys_reachable_inv. lia.
Qed.

(** C36. No wake-up is lost: in every reachable state each suspended thread is
    still queued in the semaphore, or is the target of a wake-up that is being
    sent, or has an unread wake-up in its pipe; and threads stay queued only
    while no permit is free. *)
Theorem semaphore_no_lost_wakeup c s :
  reachable (sys_init c) sys_step s →
  ∃ ws, queue_repr ws (smem s) ∧
    suspended s ≡ₚ ws ++ waking s ++ threads (smem s) ∧
    (ws ≠ [] → count (sem (smem s)) = 0).
Proof using malloc_fresh.
  intros (a & (_ & [Ha Hw] & Hc & Hq) & _ & Hperm & _)%sys_reachable_inv.
  exists (waiters a). split_and!; [done..|]. intros Hne. rewrite Hc.
  destruct (decide (0 < permits a)) as [Hp|]; [|lia]. by specialize (Hw Hp).
Qed.
End System.

(** ** Concrete runs *)

(** An allocator that never fails. *)
Definition bump_malloc (h : gmap Z Node) : option Z := Some (fresh (dom h)).

Lemma bump_malloc_fresh h x : bump_malloc h = Some x → h !! x = None.
Proof. intros [= <-]. apply not_elem_of_dom, is_fresh. Qed.

Lemma bump_malloc_succeeds h : is_Some (bump_malloc h).
Proof. by eexists. Qed.

Definition demo_mem : mem (list Z) := mkMem 0 (mkSem 1 0 None None) ∅ [].

Lemma demo_queue : queue_repr [] demo_mem.
Proof. exists []. split_and!; [apply NoDup_nil_2|done..]. Qed.

Lemma demo_repr : sem_repr (mkA 1 []) demo_mem.
Proof. split_and!; [done..|apply demo_queue]. Qed.

Lemma sync_refines_witness :
  ∃ m', down_locked bump_malloc 7 demo_mem = Ok (0, false) m' ∧ sem_repr (mkA 0 []) m'.
Proof.
  apply (sync_refines bump_malloc 7 1 (mkA 1 []) demo_mem);
    [exact bump_malloc_fresh | exact demo_repr
    | split; vm_compute; done | vm_compute; done | lia].
Defined.

Lemma sync_ad_refines_witness :
  ∃ m', ad_down_locked bump_malloc 7 demo_mem = Ok false m' ∧ ad_repr (mkA 0 []) m'.
Proof.
  apply (sync_ad_refines bump_malloc 7 1 (mkA 1 []) demo_mem);
    [exact bump_malloc_fresh | intros _; apply bump_malloc_succeeds
    | split_and!; [done..|apply demo_queue]
    | split; vm_compute; done | vm_compute; done | lia].
Defined.

Definition demo_empty : mem (list Z) := mkMem 0 (mkSem 0 0 None None) ∅ [].

Lemma sync_ad_try_down_overgrants_witness :
  ∃ m', ad_sthread_sem_try_down demo_empty = Ok 0 m' ∧ count (sem m') = -1 ∧ flag m' = 0.
Proof.
  apply (sync_ad_try_down_overgrants (mkA 0 []) demo_empty); try done.
  split_and!; try done. exists []. split_and!; [apply NoDup_nil_2|done..].
Defined.

(** Thread 7 takes the only permit, thread 8 has to wait. *)
Definition demo_taken : mem (list Z) := res_state (down_locked bump_malloc 7 demo_mem).
Definition demo_waiting : mem (list Z) := res_state (down_locked bump_malloc 8 demo_taken).
Definition demo_sys : sys := mkSys demo_waiting [8] [] 1 0.

Lemma demo_sys_reachable : reachable (sys_init 1) (sys_step bump_malloc) demo_sys.
Proof.
  exists (mkSys demo_mem [] [] 0 0). split.
  { split_and!; try done. apply demo_repr. }
  eapply rtc_l.
  { apply (step_down bump_malloc 7 demo_mem demo_taken 0 false);
      [apply not_elem_of_nil | done | reflexivity]. }
  simpl. eapply rtc_l; [|apply rtc_refl].
  apply (step_down bump_malloc 8 demo_taken demo_waiting (-1) true);
    [apply not_elem_of_nil | done | vm_compute; reflexivity].
Qed.

Lemma semaphore_safety_witness : granted demo_sys - ups demo_sys ≤ 1.
Proof.
  apply (semaphore_safety bump_malloc bump_malloc_fresh 1 demo_sys).
  exact demo_sys_reachable.
Defined.

Lemma semaphore_no_lost_wakeup_witness :
  ∃ ws, queue_repr ws demo_waiting ∧ [8] ≡ₚ ws ++ [] ++ [] ∧
        (ws ≠ [] → count (sem demo_waiting) = 0).
Proof.
  apply (semaphore_no_lost_wakeup bump_malloc bump_malloc_fresh 1 demo_sys).
  exact demo_sys_reachable.
Defined.
