(* ===== verification/SThread.v ===== *)
(** * The thread library: [hw3/sthread.c]

    Threads are cloned processes that share memory.  Every thread is described
    by a [struct sthread_struct]; the structs form a linked list guarded by
    [list_lock], with the manager thread second to last and the main thread
    last.  Threads are created and reaped by the manager, which serves messages
    from its pipe; a thread suspends itself by reading from its own pipe and is
    woken by a write to it.

    The structs live in an explicit heap, so following a pointer to a freed
    struct is a fault.  The system calls and [malloc] are the parameter [OS].
    [errno] is the field [err] of the calling thread's struct, because the
    library overrides [__errno_location]; every failing call writes it. *)

From S2P Require Import Prelude Semaphore.

Definition DEF_STACK_SIZE : Z := 4194304.
Definition UTIL_STACK_SIZE : Z := 65536.
Definition SIGKILL : Z := 9.
Definition SIGUSR2 : Z := 12.

(** [union manager_msg_u]; the members share the offsets of [type] and
    [caller]. *)
Inductive manager_msg_t : Type :=
  | MSG_CREATE (caller : option Z) (main : Z) (thread : option Z) (arg : Z)
  | MSG_THREAD_EXIT (caller : option Z)
  | MSG_ALL_EXIT (caller : option Z).

(** What is written to a pipe: the string of [sthread_wake] or a message to the
    manager. *)
Inductive pipe_data : Type :=
  | WakeUp
  | Msg (m : manager_msg_t).

Record sthread_struct : Type := mkT {
  pid : Z;
  main : option Z;
  running : Z;
  status : Z;
  err : Z;
  pipe0 : Z;
  pipe1 : Z;
  stacksize : Z;
  stack : option Z;
  tnext : option Z
}.
#[export] Instance sthread_struct_eta : Settable sthread_struct := λ r,
  mkT (pid r) (main r) (running r) (status r) (err r) (pipe0 r) (pipe1 r)
    (stacksize r) (stack r) (tnext r).

Record start_struct : Type := mkSS { ss_arg : Z; ss_thread : option Z }.

(** What a cloned process runs. *)
Inductive clone_fn : Type :=
  | StartThread (ss : Z)
  | ManagerMain.

(** The operating system below the library.  A call returns a value or an
    error number; a [read] that returns [None] blocks. *)
Class OS (O : Type) := {
  sys_mmap : Z → O → (Z + Z) * O;
  sys_munmap : option Z → Z → O → (unit + Z) * O;
  sys_pipe : O → ((Z * Z) + Z) * O;
  sys_close : Z → O → (unit + Z) * O;
  sys_write : Z → pipe_data → O → (unit + Z) * O;
  sys_read : Z → O → option pipe_data * O;
  sys_clone : clone_fn → Z → O → (Z + Z) * O;
  sys_waitpid : Z → O → ((Z * Z) + Z) * O;
  sys_waitpid_nohang : O → ((Z * Z) + Z) * O;
  sys_kill : Z → Z → O → (unit + Z) * O;
  sys_getppid : O → Z;
  sys_malloc : O → (Z + Z) * O;
  sys_sigaction : Z → O → (unit + Z) * O;
  sys_atexit : O → O
}.

(** The two structs with static storage. *)
Definition main_thread : Z := 1.
Definition manager_thread : Z := 2.

Definition MAIN_THREAD_INIT : sthread_struct := mkT 0 None 1 0 0 (-1) (-1) 0 None None.
Definition MANAGER_THREAD_INIT : sthread_struct :=
  mkT 0 None 0 0 0 (-1) (-1) 0 None (Some main_thread).

Record lib (O : Type) : Type := mkLib {
  objs : gmap Z sthread_struct;
  starts : gmap Z start_struct;
  list_hd : option Z;
  list_lock : Z;
  os : O
}.
Arguments mkLib {O}.
Arguments objs {O}.
Arguments starts {O}.
Arguments list_hd {O}.
Arguments list_lock {O}.
Arguments os {O}.
#[export] Instance lib_eta O : Settable (lib O) :=
  λ r, mkLib (objs r) (starts r) (list_hd r) (list_lock r) (os r).

(** The library before [sthread_init]. *)
Definition lib_init {O} (o : O) : lib O :=
  mkLib {[ main_thread := MAIN_THREAD_INIT; manager_thread := MANAGER_THREAD_INIT ]}
    ∅ (Some manager_thread) 0 o.

Section SThread.
Context {O : Type} `{OS O}.

(** [getpid ()] of the thread that runs the code. *)
Variable cur : Z.

(** The thread's own program, and the contents of a block [malloc] returns. *)
Variable run_main : option Z → Z → M (lib O) Z.
Variable junk : sthread_struct.

Definition load_t (p : option Z) : M (lib O) sthread_struct :=
  a ← deref p;
  h ← gets objs;
  match h !! a with Some v => mret v | None => fail Undefined end.

Definition store_t (p : option Z) (f : sthread_struct → sthread_struct) : M (lib O) unit :=
  a ← deref p;
  v ← load_t p;
  modify (λ s, s <| objs ::= <[a := f v]> |>).

Definition free_t (p : option Z) : M (lib O) unit :=
  a ← deref p;
  _ ← load_t p;
  modify (λ s, s <| objs ::= delete a |>).

(** [free] of a block that [mmap] returned: not allocated by [malloc]. *)
Definition free_mapping (p : option Z) : M (lib O) unit := fail Undefined.

(** [test_and_set_bit] and [clear_bit]: exchange the word with 1 or 0. *)
Definition test_and_set_bit : M (lib O) Z :=
  oldval ← gets list_lock;
  _ ← modify (λ s, s <| list_lock := 1 |>);
  mret oldval.

Definition clear_bit : M (lib O) unit := modify (λ s, s <| list_lock := 0 |>).

(** When the lock is taken the caller yields until its holder releases it. *)
Definition threadlist_lock : M (lib O) unit :=
  b ← test_and_set_bit;
  if b =? 0 then mret tt else fail Blocked.

Definition threadlist_unlock : M (lib O) unit := clear_bit.

(** Walks of the list take one unit of fuel per node: an acyclic list has at
    most as many nodes as there are structs. *)
Definition walk_fuel (s : lib O) : nat := S (size (objs s)).

Fixpoint find_from (fuel : nat) (p : option Z) (pid0 : Z) : M (lib O) (option Z) :=
  match fuel with
  | 0%nat => fail OutOfFuel
  | S fuel' =>
      match p with
      | None => mret None
      | Some _ =>
          v ← load_t p;
          if pid v =? pid0 then mret p else find_from fuel' (tnext v) pid0
      end
  end.

Definition threadlist_findbypid (pid0 : Z) : M (lib O) (option Z) :=
  _ ← threadlist_lock;
  s ← get;
  p ← find_from (walk_fuel s) (list_hd s) pid0;
  _ ← threadlist_unlock;
  mret p.

Definition threadlist_add (t : option Z) : M (lib O) Z :=
  _ ← threadlist_lock;
  s ← get;
  _ ← store_t t (λ v, v <| tnext := list_hd s |>);
  _ ← modify (λ s, s <| list_hd := t |>);
  _ ← threadlist_unlock;
  mret 0.

(** The search of [threadlist_del]: the node and the one before it. *)
Fixpoint del_search (fuel : nat) (prev p : option Z) (t : option Z)
    : M (lib O) (option Z * option Z) :=
  match fuel with
  | 0%nat => fail OutOfFuel
  | S fuel' =>
      if decide (p = Some manager_thread) then mret (prev, p)
      else
        v ← load_t p;
        w ← load_t t;
        if pid v =? pid w then mret (prev, p) else del_search fuel' p (tnext v) t
  end.

Definition threadlist_del (t : option Z) : M (lib O) Z :=
  _ ← threadlist_lock;
  s ← get;
  '(prev, p) ← del_search (walk_fuel s) None (list_hd s) t;
  if decide (p = Some manager_thread) then fail Abort
  else
    v ← load_t p;
    _ ← (match prev with
         | Some _ => store_t prev (λ u, u <| tnext := tnext v |>)
         | None => modify (λ s, s <| list_hd := tnext v |>)
         end);
    _ ← threadlist_unlock;
    mret 0.

Definition sthread_self : M (lib O) (option Z) := threadlist_findbypid cur.

(** [__errno_location ()] returns [&self->err]; a failing call stores through
    it. *)
Definition set_errno (e : Z) : M (lib O) unit :=
  self ← sthread_self;
  store_t self (λ v, v <| err := e |>).

(** A call into the C library. *)
Definition libc {A} (op : O → (A + Z) * O) : M (lib O) (option A) :=
  s ← get;
  let '(r, o') := op (os s) in
  _ ← modify (λ s, s <| os := o' |>);
  match r with
  | inl a => mret (Some a)
  | inr e => _ ← set_errno e; mret None
  end.

Definition read (fd : Z) : M (lib O) pipe_data :=
  s ← get;
  let '(r, o') := sys_read fd (os s) in
  _ ← modify (λ s, s <| os := o' |>);
  match r with
  | Some d => mret d
  | None => fail Blocked
  end.

Definition _sthread_self_suspend (self : option Z) : M (lib O) unit :=
  match self with
  | None => fail Abort
  | Some _ =>
      v ← load_t self;
      _ ← read (pipe0 v);
      mret tt
  end.

Definition sthread_suspend : M (lib O) unit :=
  self ← sthread_self;
  _sthread_self_suspend self.

Definition sthread_wake (t : option Z) : M (lib O) unit :=
  v ← load_t t;
  _ ← libc (sys_write (pipe1 v) WakeUp);
  mret tt.

Definition send_manager (msg : manager_msg_t) : M (lib O) unit :=
  v ← load_t (Some manager_thread);
  _ ← libc (sys_write (pipe1 v) (Msg msg));
  mret tt.

Definition start_thread (ss : Z) : M (lib O) unit :=
  h ← gets starts;
  match h !! ss with
  | None => fail Undefined
  | Some v =>
      let self := ss_thread v in
      let main_arg := ss_arg v in
      _ ← modify (λ s, s <| starts ::= delete ss |>);
      _ ← store_t self (λ v, v <| running := 1 |>);
      t ← load_t self;
      retval ← run_main (main t) main_arg;
      _ ← store_t self (λ v, v <| running := 0 |>);
      _ ← store_t self (λ v, v <| status := retval |>);
      _ ← send_manager (MSG_THREAD_EXIT self);
      _ ← _sthread_self_suspend self;
      fail Exit
  end.

Definition thread_dealloc (t : option Z) : M (lib O) unit :=
  _ ← threadlist_del t;
  v ← load_t t;
  _ ← libc (sys_munmap (stack v) (stacksize v));
  _ ← libc (sys_close (pipe0 v));
  _ ← libc (sys_close (pipe1 v));
  free_t t.

Definition WTERMSIG (st : Z) : Z := Z.land st 127.
Definition WIFSIGNALED (st : Z) : bool :=
  negb (WTERMSIG st =? 0) && negb (WTERMSIG st =? 127).

(** [for (p = list_hd; p && (p != &manager_thread); p = p->next)
    kill (p->pid, sig);] *)
Fixpoint kill_until_manager (fuel : nat) (p : option Z) (sig : Z) : M (lib O) unit :=
  match fuel with
  | 0%nat => fail OutOfFuel
  | S fuel' =>
      match p with
      | None => mret tt
      | Some a =>
          if decide (a = manager_thread) then mret tt
          else
            v ← load_t p;
            _ ← libc (sys_kill (pid v) sig);
            w ← load_t p;
            kill_until_manager fuel' (tnext w) sig
      end
  end.

(** One round of the loop of [reap_children]: whether it goes on. *)
Definition reap_one : M (lib O) bool :=
  r ← libc sys_waitpid_nohang;
  match r with
  | None => mret false
  | Some (pid0, st) =>
      if 0 <? pid0 then
        p ← threadlist_findbypid pid0;
        match p with
        | None => fail Abort
        | Some _ =>
            _ ← thread_dealloc p;
            if WIFSIGNALED st then
              s ← get;
              _ ← kill_until_manager (walk_fuel s) (list_hd s) (WTERMSIG st);
              m0 ← load_t (Some main_thread);
              _ ← libc (sys_kill (pid m0) (WTERMSIG st));
              m1 ← load_t (Some manager_thread);
              _ ← libc (sys_kill (pid m1) (WTERMSIG st));
              fail Exit
            else mret true
        end
      else mret false
  end.

Fixpoint reap_children (fuel : nat) : M (lib O) unit :=
  match fuel with
  | 0%nat => fail OutOfFuel
  | S fuel' =>
      more ← reap_one;
      if more : bool then reap_children fuel' else mret tt
  end.

(** The error exits of [do_create], from the last label back. *)
Definition create_out (caller : option Z) : M (lib O) unit :=
  store_t caller (λ v, v <| status := -1 |>).

Definition create_freestack (caller t : option Z) : M (lib O) unit :=
  v ← load_t t;
  _ ← free_mapping (stack v);
  create_out caller.

Definition create_closepipe (caller t : option Z) : M (lib O) unit :=
  v ← load_t t;
  _ ← libc (sys_close (pipe0 v));
  v ← load_t t;
  _ ← libc (sys_close (pipe1 v));
  create_freestack caller t.

Definition create_freess (caller t : option Z) (ss : Z) : M (lib O) unit :=
  _ ← modify (λ s, s <| starts ::= delete ss |>);
  create_closepipe caller t.

Definition create_listdel (caller t : option Z) (ss : Z) : M (lib O) unit :=
  _ ← threadlist_del t;
  create_freess caller t ss.

(** [caller->err = self->err] with [self = &manager_thread]. *)
Definition copy_err (caller : option Z) : M (lib O) unit :=
  m ← load_t (Some manager_thread);
  store_t caller (λ v, v <| err := err m |>).

(** The assignments at the head of [do_create]. *)
Definition create_prepare (caller t : option Z) (main0 : Z) : M (lib O) unit :=
  _ ← store_t caller (λ v, v <| status := 0 |>);
  _ ← store_t caller (λ v, v <| err := 0 |>);
  _ ← store_t t (λ v, v <| main := Some main0 |>);
  _ ← store_t t (λ v, v <| running := 0 |>);
  _ ← store_t t (λ v, v <| status := 0 |>);
  store_t t (λ v, v <| stacksize := DEF_STACK_SIZE |>).

(** The last step: clone the new process under [list_lock]. *)
Definition create_clone (caller t : option Z) (ss base : Z) : M (lib O) unit :=
  child ← libc (sys_clone (StartThread ss) (base + DEF_STACK_SIZE));
  let cpid := default (-1) child in
  _ ← store_t t (λ v, v <| pid := cpid |>);
  _ ← threadlist_unlock;
  if cpid =? -1 then _ ← copy_err caller; create_listdel caller t ss
  else mret tt.

Definition do_create (caller t : option Z) (main0 : Z) (arg : Z) : M (lib O) unit :=
  _ ← create_prepare caller t main0;
  stk ← libc (sys_mmap DEF_STACK_SIZE);
  _ ← store_t t (λ v, v <| stack := stk |>);
  match stk with
  | None => _ ← copy_err caller; create_out caller
  | Some base =>
      fds ← libc sys_pipe;
      match fds with
      | None => _ ← copy_err caller; create_freestack caller t
      | Some (r, w) =>
          _ ← store_t t (λ v, v <| pipe0 := r |> <| pipe1 := w |>);
          ss ← libc sys_malloc;
          match ss with
          | None => _ ← copy_err caller; create_closepipe caller t
          | Some a =>
              ret ← threadlist_add t;
              if ret =? -1 then _ ← copy_err caller; create_freess caller t a
              else
                _ ← modify (λ s, s <| starts ::= <[a := mkSS arg t]> |>);
                _ ← threadlist_lock;
                create_clone caller t a base
          end
      end
  end.

(** The two loops of the [MSG_ALL_EXIT] case. *)
Fixpoint kill_others (fuel : nat) (p t : option Z) : M (lib O) unit :=
  match fuel with
  | 0%nat => fail OutOfFuel
  | S fuel' =>
      match p with
      | None => mret tt
      | Some a =>
          v ← load_t p;
          _ ← (if bool_decide (a ≠ manager_thread) && bool_decide (p ≠ t)
               then _ ← libc (sys_kill (pid v) SIGUSR2); mret tt else mret tt);
          w ← load_t p;
          kill_others fuel' (tnext w) t
      end
  end.

Fixpoint wait_others (fuel : nat) (p t : option Z) : M (lib O) unit :=
  match fuel with
  | 0%nat => fail OutOfFuel
  | S fuel' =>
      match p with
      | None => mret tt
      | Some a =>
          v ← load_t p;
          _ ← (if bool_decide (a ≠ manager_thread) && bool_decide (p ≠ t)
               then _ ← libc (sys_waitpid (pid v)); thread_dealloc p else mret tt);
          w ← load_t p;
          wait_others fuel' (tnext w) t
      end
  end.

Definition manager_serve (msg : manager_msg_t) : M (lib O) unit :=
  match msg with
  | MSG_CREATE caller main0 thread arg =>
      _ ← do_create caller thread main0 arg;
      sthread_wake caller
  | MSG_THREAD_EXIT t =>
      _ ← sthread_wake t;
      v ← load_t t;
      _ ← libc (sys_waitpid (pid v));
      thread_dealloc t
  | MSG_ALL_EXIT t =>
      _ ← sthread_wake t;
      s ← get;
      _ ← kill_others (walk_fuel s) (list_hd s) t;
      s ← get;
      _ ← wait_others (walk_fuel s) (list_hd s) t;
      store_t (Some manager_thread) (λ v, v <| running := 0 |>)
  end.

(** One round of the manager's loop; [fuel] bounds the children reaped in it. *)
Definition manager_round (fuel : nat) : M (lib O) unit :=
  s ← get;
  _ ← (if sys_getppid (os s) =? 1 then
         _ ← kill_until_manager (walk_fuel s) (list_hd s) SIGKILL; fail Exit
       else mret tt);
  _ ← reap_children fuel;
  v ← load_t (Some manager_thread);
  d ← read (pipe0 v);
  match d with
  | Msg msg => manager_serve msg
  | WakeUp => fail Undefined
  end.

Fixpoint manager_main (fuel : nat) : M (lib O) unit :=
  match fuel with
  | 0%nat => fail OutOfFuel
  | S fuel' =>
      v ← load_t (Some manager_thread);
      if running v =? 0 then
        _ ← libc (sys_close (pipe1 v));
        _ ← libc (sys_close (pipe0 v));
        fail Exit
      else
        _ ← manager_round fuel;
        manager_main fuel'
  end.

Definition init_main_thread : M (lib O) Z :=
  _ ← store_t (Some main_thread) (λ v, v <| pid := cur |>);
  fds ← libc sys_pipe;
  match fds with
  | None => mret (-1)
  | Some (r, w) =>
      _ ← store_t (Some main_thread) (λ v, v <| pipe0 := r |> <| pipe1 := w |>);
      mret 0
  end.

Definition init_manager_thread : M (lib O) Z :=
  let mgr := Some manager_thread in
  _ ← store_t mgr (λ v, v <| main := None |>);
  _ ← store_t mgr (λ v, v <| running := 1 |>);
  _ ← store_t mgr (λ v, v <| status := 0 |>);
  _ ← store_t mgr (λ v, v <| stacksize := UTIL_STACK_SIZE |>);
  stk ← libc (sys_mmap UTIL_STACK_SIZE);
  _ ← store_t mgr (λ v, v <| stack := stk |>);
  match stk with
  | None => mret (-1)
  | Some base =>
      fds ← libc sys_pipe;
      match fds with
      | None => _ ← free_mapping stk; mret (-1)
      | Some (r, w) =>
          _ ← store_t mgr (λ v, v <| pipe0 := r |> <| pipe1 := w |>);
          child ← libc (sys_clone ManagerMain (base + UTIL_STACK_SIZE));
          let cpid := default (-1) child in
          _ ← store_t mgr (λ v, v <| pid := cpid |>);
          if cpid =? -1 then
            self ← sthread_self;
            e ← load_t self;
            let errno_save := err e in
            _ ← libc (sys_close r);
            _ ← libc (sys_close w);
            _ ← free_mapping stk;
            _ ← set_errno errno_save;
            mret (-1)
          else mret 0
      end
  end.

Definition handle_cancel (sig : Z) : M (lib O) unit := fail Exit.

Definition cleanup : M (lib O) unit :=
  self ← sthread_self;
  _ ← send_manager (MSG_ALL_EXIT self);
  _sthread_self_suspend self.

Definition sthread_init : M (lib O) Z :=
  r ← init_main_thread;
  if r =? -1 then mret (-1)
  else
    r ← init_manager_thread;
    if r =? -1 then mret (-1)
    else
      _ ← libc (sys_sigaction SIGUSR2);
      _ ← modify (λ s, s <| os ::= sys_atexit |>);
      mret 0.

(** [sthread_create] up to the point where the caller waits for the manager:
    the caller's struct and the new one, or the failure of [malloc]. *)
Definition create_request (main_routine arg : Z) : M (lib O) (option (option Z * Z)) :=
  self ← sthread_self;
  newthr ← libc sys_malloc;
  match newthr with
  | None => mret None
  | Some a =>
      _ ← modify (λ s, s <| objs ::= <[a := junk]> |>);
      _ ← send_manager (MSG_CREATE self main_routine (Some a) arg);
      mret (Some (self, a))
  end.

(** The rest of it, once the manager has answered: the status and the handle. *)
Definition create_finish (self : option Z) (a : Z) : M (lib O) (Z * option Z) :=
  _ ← _sthread_self_suspend self;
  v ← load_t self;
  if negb (status v =? 0) then
    _ ← free_t (Some a);
    w ← load_t self;
    mret (status w, None)
  else mret (status v, Some a).

Definition sthread_create (main_routine arg : Z) : M (lib O) (Z * option Z) :=
  r ← create_request main_routine arg;
  match r with
  | None => mret (-1, None)
  | Some (self, a) => create_finish self a
  end.

End SThread.

Lemma walk_fuel_eq {O} (s : lib O) : walk_fuel s = S (size (objs s)).
Proof. done. Qed.
#[global] Opaque walk_fuel.

(** ** The thread list *)

(** The structs [l] are linked from [p] to [q]. *)
Fixpoint chain (h : gmap Z sthread_struct) (p : option Z) (l : list Z) (q : option Z) : Prop :=
  match l with
  | [] => p = q
  | a :: l' => p = Some a ∧ ∃ v, h !! a = Some v ∧ chain h (tnext v) l' q
  end.

Definition has_pid (h : gmap Z sthread_struct) (x a : Z) : bool :=
  match h !! a with Some v => pid v =? x | None => false end.

(** What deletion by pid does to the list. *)
Fixpoint remove_first (f : Z → bool) (l : list Z) : list Z :=
  match l with
  | [] => []
  | a :: l' => if f a then l' else a :: remove_first f l'
  end.

(** The heap up to the links. *)
Definition same_but_next (h h' : gmap Z sthread_struct) : Prop :=
  ∀ a, (λ v, v <| tnext := None |>) <$> h' !! a = (λ v, v <| tnext := None |>) <$> h !! a.

(** The threads of the list are [l], then the manager, then the main thread. *)
Definition threadlist {O} (l : list Z) (s : lib O) : Prop :=
  list_lock s = 0 ∧
  chain (objs s) (list_hd s) (l ++ [manager_thread; main_thread]) None ∧
  NoDup (l ++ [manager_thread; main_thread]).

Lemma chain_app h p l1 l2 q :
  chain h p (l1 ++ l2) q ↔ ∃ m, chain h p l1 m ∧ chain h m l2 q.
Proof.
  revert p. induction l1 as [|a l1 IH]; intros p; simpl.
  - split; [eauto|]. by intros (m & -> & ?).
  - split.
    + intros (-> & v & Hv & (m & ? & ?)%IH). eauto 8.
    + intros (m & (-> & v & Hv & ?) & ?). split; [done|]. exists v. split; [done|].
      apply IH. eauto.
Qed.

Lemma chain_dom h p l q : chain h p l q → ∀ a, a ∈ l → is_Some (h !! a).
Proof.
  revert p. induction l as [|b l IH]; intros p; [intros _ a []%elem_of_nil|].
  intros (-> & v & Hv & Hc) a [->|Ha]%elem_of_cons; eauto.
Qed.

Lemma chain_frame h h' p l q :
  (∀ a, a ∈ l → tnext <$> h' !! a = tnext <$> h !! a) → chain h p l q → chain h' p l q.
Proof.
  revert p. induction l as [|b l IH]; intros p Hf; [done|].
  intros (-> & v & Hv & Hc). split; [done|].
  pose proof (Hf b ltac:(left)) as Hb. rewrite Hv in Hb.
  destruct (h' !! b) as [v'|]; [|done]. injection Hb as Hb.
  exists v'. split; [done|]. rewrite Hb. apply IH; [|done].
  intros a Ha. apply Hf. by right.
Qed.

(** A store that keeps the link keeps every chain. *)
Lemma chain_store h p l q a v v' :
  h !! a = Some v → tnext v' = tnext v → chain h p l q → chain (<[a := v']> h) p l q.
Proof.
  intros Ha Hn. apply chain_frame. intros b _.
  destruct (decide (a = b)) as [->|]; [|by rewrite lookup_insert_ne].
  rewrite lookup_insert_eq, Ha. simpl. by rewrite Hn.
Qed.

Lemma chain_length h p l q : chain h p l q → NoDup l → (length l ≤ size h)%nat.
Proof.
  intros Hc Hnd. rewrite <- size_dom, <- (size_list_to_set (C := gset Z)) by done.
  apply subseteq_size. intros a Ha%elem_of_list_to_set. apply elem_of_dom.
  by eapply chain_dom.
Qed.

Lemma same_but_next_store h a v v' :
  h !! a = Some v → (v' <| tnext := None |>) = (v <| tnext := None |>) →
  same_but_next h (<[a := v']> h).
Proof.
  intros Ha Hv b. destruct (decide (a = b)) as [->|]; [|by rewrite lookup_insert_ne].
  rewrite lookup_insert_eq, Ha. simpl. by f_equal.
Qed.

Section ThreadListSpec.
Context {O : Type} `{OS O}.
Implicit Types s : lib O.

Lemma load_t_ok s a v : objs s !! a = Some v → load_t (Some a) s = Ok v s.
Proof. intros Ha. unfold load_t. mstep. by rewrite Ha. Qed.

Lemma store_t_ok s a f v :
  objs s !! a = Some v →
  store_t (Some a) f s = Ok tt (s <| objs := <[a := f v]> (objs s) |>).
Proof.
  intros Ha. unfold store_t. mstep. rewrite (load_t_ok s a v Ha). by destruct s.
Qed.

Lemma lock_ok s : list_lock s = 0 → threadlist_lock s = Ok tt (s <| list_lock := 1 |>).
Proof. intros Hl. unfold threadlist_lock, test_and_set_bit. mstep. by rewrite Hl. Qed.

Lemma lock_taken s : list_lock s = 1 → threadlist_lock s = Err Blocked s.
Proof.
  intros Hl. unfold threadlist_lock, test_and_set_bit. mstep. rewrite Hl. simpl.
  destruct s. simpl in *. by subst.
Qed.

Lemma find_from_spec n p l x s :
  chain (objs s) p l None → (length l < n)%nat →
  find_from n p x s = Ok (List.find (has_pid (objs s) x) l) s.
Proof.
  revert p l. induction n as [|n IH]; intros p l Hc Hn; [lia|].
  destruct l as [|a l]; simpl in *; [by subst|].
  destruct Hc as (-> & v & Hv & Hc). mstep. rewrite (load_t_ok s a v Hv).
  unfold has_pid at 1. rewrite Hv.
  destruct (pid v =? x); [done|]. apply IH; [done|lia].
Qed.

Lemma findbypid_spec l x s :
  threadlist l s →
  threadlist_findbypid x s
  = Ok (List.find (has_pid (objs s) x) (l ++ [manager_thread; main_thread])) s.
Proof.
  intros (Hl & Hc & Hnd). unfold threadlist_findbypid, threadlist_unlock, clear_bit. mstep.
  rewrite (lock_ok s Hl). simpl.
  assert (length (l ++ [manager_thread; main_thread]) < walk_fuel (s <| list_lock := 1%Z |>))%nat.
  { rewrite walk_fuel_eq. simpl. apply chain_length in Hc; [lia|done]. }
  rewrite (find_from_spec _ _ (l ++ [manager_thread; main_thread])); [|done|done].
  simpl. f_equal. destruct s. simpl in *. by subst.
Qed.

Lemma add_spec l t v s :
  threadlist l s → objs s !! t = Some v → t ∉ l ++ [manager_thread; main_thread] →
  ∃ s', threadlist_add (Some t) s = Ok 0 s' ∧ threadlist (t :: l) s' ∧
        objs s' = <[t := v <| tnext := list_hd s |>]> (objs s) ∧
        starts s' = starts s ∧ os s' = os s.
Proof.
  intros (Hl & Hc & Hnd) Hv Hni. unfold threadlist_add, threadlist_unlock, clear_bit. mstep.
  rewrite (lock_ok s Hl). simpl. rewrite (store_t_ok _ t _ v) by done. simpl.
  eexists. split; [done|]. split; [unfold threadlist; split_and!; [done| |]|done].
  - simpl. split; [done|]. eexists. split; [apply lookup_insert_eq|]. simpl.
    eapply chain_frame; [|exact Hc]. intros b Hb.
    rewrite lookup_insert_ne; [done|]. by intros ->.
  - by constructor.
Qed.

(** The search stops at the first struct with the pid of [t], or at the
    manager. *)
Lemma del_search_spec n prev p t w l rest s :
  chain (objs s) p (l ++ manager_thread :: rest) None → manager_thread ∉ l →
  objs s !! t = Some w → (length l < n)%nat →
  (existsb (has_pid (objs s) (pid w)) l = false →
    ∃ pr, del_search n prev p (Some t) s = Ok (pr, Some manager_thread) s) ∧
  (existsb (has_pid (objs s) (pid w)) l = true →
    ∃ l1 a l2, l = l1 ++ a :: l2 ∧ existsb (has_pid (objs s) (pid w)) l1 = false ∧
      has_pid (objs s) (pid w) a = true ∧
      del_search n prev p (Some t) s
      = Ok (match last l1 with Some b => Some b | None => prev end, Some a) s).
Proof.
  intros Hc Hm Hw Hn. revert n prev p Hc Hn.
  induction l as [|a l IH]; intros n prev p Hc Hn; destruct n as [|n]; try (simpl in *; lia).
  - split; [|done]. intros _. destruct Hc as (-> & _). exists prev. done.
  - destruct Hc as (-> & v & Hv & Hc). simpl.
    assert (a ≠ manager_thread) by (intros ->; apply Hm; left).
    rewrite decide_False by congruence. unfold mbind, M_bind.
    rewrite (load_t_ok s a v Hv), (load_t_ok s t w Hw).
    unfold has_pid at 1 3. rewrite Hv.
    destruct (pid v =? pid w) eqn:E; simpl.
    + split; [done|]. intros _. exists [], a, l. split_and!; [done..| |done].
      unfold has_pid. by rewrite Hv.
    + assert (manager_thread ∉ l) as Hm' by set_solver.
      destruct (IH Hm' n (Some a) (tnext v) Hc ltac:(simpl in *; lia)) as [IH1 IH2].
      split; [done|]. intros Ht. destruct (IH2 Ht) as (l1 & b & l2 & -> & Hl1 & Hb & Hd).
      exists (a :: l1), b, l2. split_and!; [done| |done|].
      * simpl. unfold has_pid at 1. rewrite Hv, E. exact Hl1.
      * rewrite Hd. destruct l1 as [|c l1]; [done|]. f_equal. f_equal.
        rewrite !last_cons. by destruct (last l1).
Qed.

Lemma remove_first_app f l1 a l2 :
  existsb f l1 = false → f a = true → remove_first f (l1 ++ a :: l2) = l1 ++ l2.
Proof.
  induction l1 as [|b l1 IH]; simpl; intros Hl Ha; [by rewrite Ha|].
  apply orb_false_iff in Hl as [-> Hl]. by rewrite IH.
Qed.

(** Unlinking: the node after [l1] is bypassed. *)
Lemma chain_unlink h p l1 b a l2 q va :
  chain h p ((l1 ++ [b]) ++ a :: l2) q → NoDup ((l1 ++ [b]) ++ a :: l2) → h !! a = Some va →
  ∃ vb, h !! b = Some vb ∧
    chain (<[b := vb <| tnext := tnext va |>]> h) p ((l1 ++ [b]) ++ l2) q.
Proof.
  rewrite <- !app_assoc. simpl. intros (m & H1 & -> & vb & Hb & Hab & va' & Ha & H2)%chain_app.
  intros Hnd Hva. simplify_eq. exists vb. split; [done|].
  apply NoDup_app in Hnd as (_ & Hd & Hnd). apply NoDup_cons in Hnd as [Hb2 Hnd].
  apply chain_app. exists (Some b). split.
  - eapply chain_frame; [|exact H1]. intros c Hc. rewrite lookup_insert_ne; [done|].
    intros <-. apply (Hd b Hc). left.
  - split; [done|]. eexists. split; [apply lookup_insert_eq|]. simpl.
    eapply chain_frame; [|exact H2]. intros c Hc. rewrite lookup_insert_ne; [done|].
    intros <-. apply Hb2. by right.
Qed.

Lemma del_spec l t w s :
  threadlist l s → objs s !! t = Some w →
  let f := has_pid (objs s) (pid w) in
  (existsb f l = true →
    ∃ s', threadlist_del (Some t) s = Ok 0 s' ∧ threadlist (remove_first f l) s' ∧
          same_but_next (objs s) (objs s') ∧ starts s' = starts s ∧ os s' = os s) ∧
  (existsb f l = false →
    ∃ s', threadlist_del (Some t) s = Err Abort s' ∧ list_lock s' = 1).
Proof.
  intros (Hl & Hc & Hnd) Hw f. set (s1 := s <| list_lock := 1 |>).
  assert (manager_thread ∉ l) as Hm.
  { apply NoDup_app in Hnd as (_ & Hd & _). intros Hin. apply (Hd _ Hin). left. }
  assert (length l < walk_fuel s1)%nat as Hfuel.
  { rewrite walk_fuel_eq. apply chain_length in Hc; [|done]. rewrite length_app in Hc.
    simpl in *. lia. }
  destruct (del_search_spec (walk_fuel s1) None (list_hd s) t w l [main_thread] s1)
    as [Hno Hyes]; [done..|].
  unfold threadlist_del, threadlist_unlock, clear_bit. mstep. rewrite (lock_ok s Hl).
  fold s1. change (list_hd s1) with (list_hd s); change (objs s1) with (objs s) in *. split; intros He.
  - destruct (Hyes He) as (l1 & a & l2 & -> & Hl1 & Ha & Hd). rewrite Hd.
    assert (a ≠ manager_thread) by (intros ->; set_solver).
    rewrite decide_False by congruence. rewrite <- app_assoc in Hc, Hnd. simpl in Hc, Hnd.
    rewrite (remove_first_app f) by done.
    destruct (chain_dom _ _ _ _ Hc a) as [va Hva]; [set_solver|].
    rewrite (load_t_ok s1 a va Hva). destruct (last l1) as [b|] eqn:Elast.
    + apply last_Some in Elast as [l1' ->].
      destruct (chain_unlink _ _ _ _ _ _ _ va Hc Hnd Hva) as (vb & Hb & Hc').
      rewrite (store_t_ok s1 b _ vb) by done. simpl. eexists. split; [done|]. split_and!; [|..|done|done].
      * split_and!; [done|by rewrite <- app_assoc|].
        rewrite <- app_assoc. rewrite <- Permutation_middle in Hnd.
        by apply NoDup_cons in Hnd as [_ ?].
      * by eapply same_but_next_store.
    + apply last_None in Elast as ->. destruct Hc as (_ & va' & Hva' & Hc). simplify_eq.
      eexists. split; [done|]. split_and!; [|done..]. split_and!; [done|done|].
      by apply NoDup_cons in Hnd as [_ ?].
  - destruct (Hno He) as [pr ->]. rewrite decide_True by done. eauto.
Qed.

(** The thread list: with the threads [l] in the list, lookup by pid returns
    the first struct with that pid (manager and main thread included) or a null
    pointer, addition puts the struct in front, deletion removes exactly the
    first struct with the same pid and aborts when there is none before the
    manager; the list stays acyclic with manager and main thread at its end and
    [list_lock] is released. *)
Theorem threadlist_operations l x t v s :
  threadlist l s → objs s !! t = Some v →
  threadlist_findbypid x s
    = Ok (List.find (has_pid (objs s) x) (l ++ [manager_thread; main_thread])) s ∧
  (t ∉ l ++ [manager_thread; main_thread] →
    ∃ s', threadlist_add (Some t) s = Ok 0 s' ∧ threadlist (t :: l) s') ∧
  (if existsb (has_pid (objs s) (pid v)) l then
     ∃ s', threadlist_del (Some t) s = Ok 0 s' ∧
       threadlist (remove_first (has_pid (objs s) (pid v)) l) s' ∧
       same_but_next (objs s) (objs s')
   else ∃ s', threadlist_del (Some t) s = Err Abort s').
Proof.
  intros Hl Hv. split_and!.
  - by apply findbypid_spec.
  - intros Hni. destruct (add_spec l t v s) as (s' & ? & ? & _); eauto.
  - destruct (del_spec l t v s Hl Hv) as [Hy Hn].
    destruct (existsb _ l); [destruct Hy as (s' & ? & ? & ? & _)|destruct Hn as (s' & ? & _)]; eauto.
Qed.
End ThreadListSpec.

(** ** Creating a thread *)

Section CreateSpec.
Context {O : Type} `{OS O}.
Implicit Types s : lib O.

Lemma threadlist_store l s a v v' :
  threadlist l s → objs s !! a = Some v → tnext v' = tnext v →
  threadlist l (s <| objs := <[a := v']> (objs s) |>).
Proof.
  intros (Hl & Hc & Hnd) Ha Hn. split_and!; [done| |done]. by eapply chain_store.
Qed.

Lemma threadlist_congr l s s' :
  list_lock s' = list_lock s → list_hd s' = list_hd s → objs s' = objs s →
  threadlist l s → threadlist l s'.
Proof. unfold threadlist. by intros -> -> ->. Qed.

(** The lookup by pid depends on the pids only. *)
Lemma find_store h a v v' x l :
  h !! a = Some v → pid v' = pid v →
  List.find (has_pid (<[a := v']> h) x) l = List.find (has_pid h x) l.
Proof.
  intros Ha Hp. induction l as [|b l IH]; [done|]. simpl. rewrite IH.
  unfold has_pid. destruct (decide (a = b)) as [->|]; [|by rewrite lookup_insert_ne].
  by rewrite lookup_insert_eq, Ha, Hp.
Qed.

Lemma libc_ok {A} cur (op : O → (A + Z) * O) s a o' :
  op (os s) = (inl a, o') → libc cur op s = Ok (Some a) (s <| os := o' |>).
Proof. intros E. unfold libc. mstep. by rewrite E. Qed.

Lemma libc_err {A} cur (op : O → (A + Z) * O) l s e o' p v :
  threadlist l s →
  List.find (has_pid (objs s) cur) (l ++ [manager_thread; main_thread]) = Some p →
  objs s !! p = Some v → op (os s) = (inr e, o') →
  libc cur op s
  = Ok None (s <| os := o' |> <| objs := <[p := v <| err := e |>]> (objs s) |>).
Proof.
  intros Hl Hf Hp E. unfold libc, set_errno, sthread_self. mstep. rewrite E.
  rewrite (findbypid_spec l) by (by eapply threadlist_congr; [..|exact Hl]). simpl.
  rewrite Hf, (store_t_ok _ p _ v) by done. done.
Qed.

(** With [list_lock] held a failing call never returns: storing [errno] looks
    the caller up in the thread list. *)
Lemma libc_err_locked {A} cur (op : O → (A + Z) * O) s e o' :
  list_lock s = 1 → op (os s) = (inr e, o') →
  libc cur op s = Err Blocked (s <| os := o' |>).
Proof.
  intros Hl E. unfold libc, set_errno, sthread_self, threadlist_findbypid. mstep. rewrite E.
  by rewrite lock_taken.
Qed.

Lemma prepare_spec c t main0 vc vt s :
  c ≠ t → objs s !! c = Some vc → objs s !! t = Some vt →
  create_prepare (Some c) (Some t) main0 s
  = Ok tt (s <| objs :=
      <[t := vt <| main := Some main0 |> <| running := 0 |> <| status := 0 |>
               <| stacksize := DEF_STACK_SIZE |>]>
      (<[c := vc <| status := 0 |> <| err := 0 |>]> (objs s)) |>).
Proof.
  intros Hne Hc Ht. unfold create_prepare, mbind, M_bind.
  repeat (erewrite store_t_ok by (simpl; by simplify_map_eq)).
  destruct s. unfold modify_field; simpl. f_equal. by rewrite !insert_insert_eq.
Qed.

Section Outcome.
Variables (cur c t main0 arg : Z) (l : list Z) (vc vt vm : sthread_struct) (s : lib O).
Hypothesis Hlist : threadlist l s.
Hypothesis Hct : c ≠ t.
Hypothesis Hcm : c ≠ manager_thread.
Hypothesis Ht : t ∉ l ++ [manager_thread; main_thread].
Hypothesis Hvc : objs s !! c = Some vc.
Hypothesis Hvt : objs s !! t = Some vt.
Hypothesis Hvm : objs s !! manager_thread = Some vm.
Hypothesis Hcur :
  List.find (has_pid (objs s) cur) (l ++ [manager_thread; main_thread]) = Some manager_thread.

(** The state after the assignments at the head of [do_create]. *)
Definition prepared : lib O := res_state (create_prepare (Some c) (Some t) main0 s).

Lemma prepared_ok : create_prepare (Some c) (Some t) main0 s = Ok tt prepared.
Proof using Hct Hvc Hvt. unfold prepared. by rewrite (prepare_spec c t main0 vc vt). Qed.

Lemma prepared_facts :
  threadlist l prepared ∧ os prepared = os s ∧ starts prepared = starts s ∧
  objs prepared !! manager_thread = Some vm ∧
  (∃ v, objs prepared !! c = Some v ∧ status v = 0) ∧
  (∃ v, objs prepared !! t = Some v ∧ pid v = pid vt ∧ running v = 0) ∧
  List.find (has_pid (objs prepared) cur) (l ++ [manager_thread; main_thread])
    = Some manager_thread.
Proof using Hlist Hct Hcm Ht Hvc Hvt Hvm Hcur.
  assert (t ≠ manager_thread) by (intros ->; apply Ht; set_solver).
  unfold prepared. rewrite (prepare_spec c t main0 vc vt) by done. simpl. split_and!; [|done|done|..].
  - destruct Hlist as (Hl & Hc & Hnd). split_and!; [done| |done].
    eapply chain_store; [by simplify_map_eq|done|]. by eapply chain_store.
  - by simplify_map_eq.
  - eexists. split; [by simplify_map_eq|done].
  - eexists. split; [by simplify_map_eq|done].
  - erewrite find_store; [|by simplify_map_eq|done]. by erewrite find_store.
Qed.

(** Step over the loads and stores whose targets are known. *)
Ltac known :=
  simpl;
  lazymatch goal with
  | |- <[?a := _]> _ !! ?a = _ => apply lookup_insert_eq
  | |- <[_ := _]> _ !! _ = _ => rewrite lookup_insert_ne by congruence; known
  | |- _ => eassumption
  end.
Ltac run_mem :=
  simpl; repeat first
    [ erewrite store_t_ok by known
    | erewrite load_t_ok by known ]; simpl.

(** The stores of the goal's state keep the links of the list [H] is about. *)
Ltac keep_list H :=
  let Hl := fresh in let Hc := fresh in let Hnd := fresh in
  destruct H as (Hl & Hc & Hnd); split_and!; [done| |done];
  repeat (eapply chain_store; [known|done|]); done.

Ltac start_create :=
  destruct prepared_facts as (Hl1 & Ho1 & Hs1 & Hm1 & (v1 & Hc1 & Hst) & (w1 & Ht1 & Hp1 & Hr1) & Hf1);
  assert (t ≠ manager_thread) by (intros ->; apply Ht; set_solver);
  unfold do_create, mbind, M_bind; rewrite prepared_ok.

Lemma create_mmap_fails e o1 :
  sys_mmap DEF_STACK_SIZE (os s) = (inr e, o1) →
  ∃ s' v, do_create cur (Some c) (Some t) main0 arg s = Ok tt s' ∧ threadlist l s' ∧
          objs s' !! c = Some v ∧ status v = -1 ∧ err v = e.
Proof using Hlist Hct Hcm Ht Hvc Hvt Hvm Hcur.
  intros Em. start_create. rewrite <- Ho1 in Em.
  erewrite libc_err by eauto. run_mem. unfold copy_err, create_out, mbind, M_bind. run_mem.
  eexists _, _. split; [done|]. split; [|by simplify_map_eq].
  keep_list Hl1.
Qed.

Lemma create_pipe_fails e b o1 o2 :
  sys_mmap DEF_STACK_SIZE (os s) = (inl b, o1) → sys_pipe o1 = (inr e, o2) →
  ∃ s', do_create cur (Some c) (Some t) main0 arg s = Err Undefined s'.
Proof using Hlist Hct Hcm Ht Hvc Hvt Hvm Hcur.
  intros Em Ep. start_create. rewrite <- Ho1 in Em.
  erewrite libc_ok by eauto. run_mem.
  erewrite (libc_err _ _ l) with (p := manager_thread); [..|done]; cycle 1.
  { keep_list Hl1. }
  { simpl. by erewrite find_store. }
  { known. }
  unfold copy_err, create_freestack, free_mapping, mbind, M_bind. run_mem. eauto.
Qed.

(** The state in front of [clone], when everything before it succeeds. *)
Lemma create_reaches_clone b r w a o1 o2 o3 :
  sys_mmap DEF_STACK_SIZE (os s) = (inl b, o1) → sys_pipe o1 = (inl (r, w), o2) →
  sys_malloc o2 = (inl a, o3) →
  ∃ s2 w2, threadlist (t :: l) s2 ∧ os s2 = o3 ∧ starts s2 = <[a := mkSS arg (Some t)]> (starts s) ∧
    objs s2 !! t = Some w2 ∧ running w2 = 0 ∧ pipe0 w2 = r ∧ pipe1 w2 = w ∧ stack w2 = Some b ∧
    (∃ v, objs s2 !! c = Some v ∧ status v = 0) ∧
    do_create cur (Some c) (Some t) main0 arg s
    = create_clone cur (Some c) (Some t) a b (s2 <| list_lock := 1 |>).
Proof using Hlist Hct Hcm Ht Hvc Hvt Hvm Hcur.
  intros Em Ep Ea. start_create. rewrite <- Ho1 in Em.
  erewrite libc_ok by eauto. run_mem. erewrite libc_ok by eauto. run_mem.
  erewrite libc_ok by eauto. simpl.
  set (s2 := _ <| os := o3 |>).
  destruct (add_spec l t (w1 <| stack := Some b |> <| pipe0 := r |> <| pipe1 := w |>) s2)
    as (s3 & Ea3 & Hl3 & Ho3 & Hs3 & Hos3); [|by subst s2; simplify_map_eq|done|].
  { subst s2. keep_list Hl1. }
  rewrite Ea3. simpl. rewrite lock_ok by apply Hl3.
  eexists (s3 <| starts ::= <[a := mkSS arg (Some t)]> |>), _. split_and!; [| | | | | | | | |done].
  - by eapply threadlist_congr.
  - simpl. by rewrite Hos3.
  - simpl. rewrite Hs3. subst s2. simpl. by rewrite Hs1.
  - simpl. rewrite Ho3. apply lookup_insert_eq.
  - done.
  - done.
  - done.
  - done.
  - exists v1. simpl. rewrite Ho3. subst s2. by simplify_map_eq.
Qed.

(** The outcomes of [do_create], run by the manager for the caller [c] and
    the new struct [t].  When the stack cannot be mapped the caller gets status
    -1 and the error number, and the thread list is unchanged.  When everything
    succeeds, [t] is in front of the list with the child's pid and its pipe,
    the child's start block is in place, and the caller's status is 0.  The
    later failures are not handled: a failing [pipe] ends in [free] of the
    mapped stack, and a failing [clone] deadlocks the manager, because storing
    [errno] takes [list_lock], which it already holds. *)
Theorem do_create_outcomes :
  (∀ e o1, sys_mmap DEF_STACK_SIZE (os s) = (inr e, o1) →
    ∃ s' v, do_create cur (Some c) (Some t) main0 arg s = Ok tt s' ∧ threadlist l s' ∧
            objs s' !! c = Some v ∧ status v = -1 ∧ err v = e) ∧
  (∀ e b o1 o2, sys_mmap DEF_STACK_SIZE (os s) = (inl b, o1) → sys_pipe o1 = (inr e, o2) →
    ∃ s', do_create cur (Some c) (Some t) main0 arg s = Err Undefined s') ∧
  (∀ b r w a o1 o2 o3, sys_mmap DEF_STACK_SIZE (os s) = (inl b, o1) →
    sys_pipe o1 = (inl (r, w), o2) → sys_malloc o2 = (inl a, o3) →
    (∀ e o4, sys_clone (StartThread a) (b + DEF_STACK_SIZE) o3 = (inr e, o4) →
      ∃ s', do_create cur (Some c) (Some t) main0 arg s = Err Blocked s' ∧ list_lock s' = 1) ∧
    (∀ child o4, sys_clone (StartThread a) (b + DEF_STACK_SIZE) o3 = (inl child, o4) →
      child ≠ -1 →
      ∃ s' v u, do_create cur (Some c) (Some t) main0 arg s = Ok tt s' ∧
        threadlist (t :: l) s' ∧ starts s' !! a = Some (mkSS arg (Some t)) ∧
        objs s' !! t = Some v ∧ pid v = child ∧ pipe0 v = r ∧ pipe1 v = w ∧
        objs s' !! c = Some u ∧ status u = 0)).
Proof using Hlist Hct Hcm Ht Hvc Hvt Hvm Hcur.
  split_and!; [apply create_mmap_fails|apply create_pipe_fails|].
  intros b r w a o1 o2 o3 Em Ep Ea.
  destruct (create_reaches_clone b r w a o1 o2 o3 Em Ep Ea)
    as (s2 & w2 & Hl2 & Ho2 & Hs2 & Ht2 & _ & Hr & Hw & _ & (v2 & Hc2 & Hst) & ->).
  unfold create_clone, mbind, M_bind. split.
  - intros e o4 Ec. rewrite <- Ho2 in Ec. erewrite libc_err_locked by eauto. eauto.
  - intros child o4 Ec Hne. rewrite <- Ho2 in Ec. erewrite libc_ok by eauto. run_mem.
    destruct (Z.eqb_spec child (-1)); [done|]. eexists _, _, _.
    split; [done|]. split; [destruct Hl2 as (_ & ? & ?); split_and!; [done| |done]|].
    { by eapply chain_store. }
    split_and!; [simpl; rewrite Hs2; apply lookup_insert_eq|known|done|done|done|known|done].
Qed.
End Outcome.
End CreateSpec.

(** ** Termination of the process *)

Section AllExit.
Context {O : Type} `{OS O}.
Implicit Types s : lib O.
Variable cur : Z.

(** The calls of the exit path succeed. *)
Hypothesis kill_ok : ∀ p sig o, ∃ o', sys_kill p sig o = (inl tt, o').
Hypothesis write_ok : ∀ fd d o, ∃ o', sys_write fd d o = (inl tt, o').
Hypothesis waitpid_ok : ∀ p o, ∃ r o', sys_waitpid p o = (inl r, o').
Hypothesis munmap_ok : ∀ p n o, ∃ o', sys_munmap p n o = (inl tt, o').
Hypothesis close_ok : ∀ fd o, ∃ o', sys_close fd o = (inl tt, o').

Lemma kill_others_ok n p l t s :
  chain (objs s) p l None → (length l < n)%nat →
  ∃ o', kill_others cur n p t s = Ok tt (s <| os := o' |>).
Proof using kill_ok.
  revert p l s. induction n as [|n IH]; intros p l s Hc Hn; [lia|].
  destruct l as [|a l]; simpl in *.
  { subst. exists (os s). by destruct s. }
  destruct Hc as (-> & v & Hv & Hc). unfold mbind, M_bind. rewrite (load_t_ok s a v Hv).
  destruct (kill_ok (pid v) SIGUSR2 (os s)) as [o1 Ho1].
  assert (∃ o2, (if bool_decide (a ≠ manager_thread) && bool_decide (Some a ≠ t)
     then λ s0, match libc cur (sys_kill (pid v) SIGUSR2) s0 with
                | Ok _ s' => (mret tt : M (lib O) unit) s' | Err f s' => Err f s' end
     else mret tt) s = Ok tt (s <| os := o2 |>)) as [o2 ->].
  { destruct (_ && _); [|exists (os s); by destruct s].
    rewrite (libc_ok _ _ _ _ _ Ho1). eauto. }
  rewrite (load_t_ok (s <| os := o2 |>) a v) by done.
  destruct (IH (tnext v) l (s <| os := o2 |>)) as [o3 Ho3]; [done|lia|].
  rewrite Ho3. by exists o3.
Qed.

(** Releasing the first thread of the list frees its struct. *)
Lemma dealloc_head a l s :
  threadlist (a :: l) s →
  ∃ s', thread_dealloc cur (Some a) s = Ok tt s' ∧ objs s' !! a = None.
Proof using munmap_ok close_ok.
  intros Hl. pose proof Hl as (_ & (_ & v & Hv & _) & _).
  destruct (del_spec (a :: l) a v s Hl Hv) as [Hyes _]. simpl in Hyes.
  assert (has_pid (objs s) (pid v) a = true) as E by (unfold has_pid; rewrite Hv; apply Z.eqb_refl).
  rewrite E in Hyes. destruct (Hyes eq_refl) as (s1 & Hd & _ & Hsame & _).
  unfold thread_dealloc, free_t, mbind, M_bind. rewrite Hd.
  specialize (Hsame a). rewrite Hv in Hsame.
  destruct (objs s1 !! a) as [w|] eqn:Ew; [|done].
  rewrite (load_t_ok s1 a w Ew).
  destruct (munmap_ok (stack w) (stacksize w) (os s1)) as [o1 E1].
  rewrite (libc_ok _ _ _ _ _ E1). simpl.
  destruct (close_ok (pipe0 w) o1) as [o2 E2]. 
  erewrite libc_ok by (simpl; eassumption). simpl.
  destruct (close_ok (pipe1 w) o2) as [o3 E3].
  erewrite libc_ok by (simpl; eassumption). simpl.
  rewrite (load_t_ok _ a w) by done. eexists. split; [done|]. simpl. apply lookup_delete_eq.
Qed.

Lemma wait_others_frees a l t s n :
  threadlist (a :: l) s → t ≠ Some a →
  ∃ s', wait_others cur (S n) (list_hd s) t s = Err Undefined s'.
Proof using kill_ok write_ok waitpid_ok munmap_ok close_ok.
  intros Hl Hta. pose proof Hl as (_ & (Hhd & v & Hv & _) & Hnd). rewrite Hhd. simpl.
  assert (a ≠ manager_thread) by (intros ->; apply NoDup_cons in Hnd as [Hnd _]; set_solver).
  rewrite !bool_decide_true by congruence. simpl. unfold mbind, M_bind.
  rewrite (load_t_ok s a v Hv). destruct (waitpid_ok (pid v) (os s)) as (r & o1 & E1).
  rewrite (libc_ok _ _ _ _ _ E1). simpl.
  destruct (dealloc_head a l (s <| os := o1 |>)) as (s2 & -> & Hn).
  { by eapply threadlist_congr; [..|exact Hl]. }
  unfold load_t. mstep. rewrite Hn. eauto.
Qed.

(** [MSG_ALL_EXIT] from the main thread: with no other thread the manager
    stops ([running] becomes 0); with at least one thread left, the manager
    follows the [next] pointer of a struct it has just freed. *)
Theorem all_exit_use_after_free l s :
  threadlist l s →
  if l is [] then
    ∃ s' v, manager_serve cur (MSG_ALL_EXIT (Some main_thread)) s = Ok tt s' ∧
            objs s' !! manager_thread = Some v ∧ running v = 0
  else
    ∃ s', manager_serve cur (MSG_ALL_EXIT (Some main_thread)) s = Err Undefined s'.
Proof using kill_ok write_ok waitpid_ok munmap_ok close_ok.
  intros Hl. pose proof Hl as (_ & Hc & Hnd).
  destruct (chain_dom _ _ _ _ Hc main_thread) as [vm Hvm]; [set_solver|].
  unfold manager_serve, sthread_wake. mstep. rewrite (load_t_ok s _ vm Hvm).
  destruct (write_ok (pipe1 vm) WakeUp (os s)) as [o1 E1]. rewrite (libc_ok _ _ _ _ _ E1).
  destruct (kill_others_ok (walk_fuel (s <| os := o1 |>)) (list_hd s)
    (l ++ [manager_thread; main_thread]) (Some main_thread) (s <| os := o1 |>)) as [o2 E2].
  { done. }
  { rewrite walk_fuel_eq. simpl. apply chain_length in Hc; [lia|done]. }
  
  change (list_hd (s <| os := o1 |>)) with (list_hd s). rewrite E2. simpl. set (s2 := s <| os := o1 |> <| os := o2 |>).
  assert (threadlist l s2) as Hl2 by (by eapply threadlist_congr; [..|exact Hl]).
  rewrite walk_fuel_eq. destruct l as [|a l].
  - destruct Hc as (Hhd & vg & Hvg & Hnx & vm' & Hvm' & Hend). simplify_eq. rewrite Hhd.
    destruct (size (objs s2)) as [|[|k]] eqn:Esz.
    1-2: destruct Hl2 as (_ & Hlen & ?); apply chain_length in Hlen; [rewrite Esz in Hlen; simpl in Hlen; lia|done].
    simpl. unfold mbind, M_bind, mret, M_ret.
    rewrite !(load_t_ok s2 manager_thread vg), Hnx by done. simpl.
    rewrite !(load_t_ok s2 main_thread vm'), Hend by done.
    rewrite (store_t_ok s2 manager_thread _ vg) by done.
    eexists _, _. split; [done|]. split; [apply lookup_insert_eq|done].
  - destruct (wait_others_frees a l (Some main_thread) s2 (size (objs s2))) as [s3 E3].
    + done.
    + intros [= Ha]. subst a. apply NoDup_cons in Hnd as [Hnd _]. set_solver.
    + change (list_hd s) with (list_hd s2). rewrite E3. eauto.
Qed.
End AllExit.

(** ** Suspending and waking *)

(** What the library relies on of pipes: [unread o r] wake-ups are waiting at
    the read end [r]; a pipe with read end [r] and write end [w] stays open
    across reads and writes, a write adds one entry and a read takes one or
    blocks. *)
Class PipeOS (O : Type) `{OS O} := {
  unread : O → Z → nat;
  pipe_open : O → Z → Z → Prop;
  write_adds : ∀ o r w, pipe_open o r w →
    ∃ o', sys_write w WakeUp o = (inl tt, o') ∧ unread o' r = S (unread o r) ∧
      (∀ r', r' ≠ r → unread o' r' = unread o r') ∧
      (∀ r' w', pipe_open o r' w' → pipe_open o' r' w');
  read_takes : ∀ o r w n, pipe_open o r w → unread o r = S n →
    ∃ d o', sys_read r o = (Some d, o') ∧ unread o' r = n ∧
      (∀ r', r' ≠ r → unread o' r' = unread o r') ∧
      (∀ r' w', pipe_open o r' w' → pipe_open o' r' w');
  read_blocks : ∀ o r w, pipe_open o r w → unread o r = 0%nat → sys_read r o = (None, o)
}.

(** The semaphores' view of this library: the caller of [sthread_suspend] is
    the struct [sthread_self ()] found. *)
#[export] Instance pipe_api {O} `{OS O} (cur : Z) : SThreadApi (lib O) := {
  Semaphore.sthread_suspend t := _sthread_self_suspend (Some t);
  Semaphore.sthread_wake t := SThread.sthread_wake cur (Some t)
}.

Section SuspendWake.
Context {O : Type} `{PipeOS O}.
Implicit Types s : lib O.

(** Wake-ups sent to [t] and not yet consumed. *)
Definition wakeups s (t : Z) : nat :=
  match objs s !! t with Some v => unread (os s) (pipe0 v) | None => 0%nat end.

(** Every thread of [ts] has an open pipe of its own. *)
Definition pipes_ok s (ts : list Z) : Prop :=
  ∀ t, t ∈ ts → ∃ v, objs s !! t = Some v ∧ pipe_open (os s) (pipe0 v) (pipe1 v) ∧
    ∀ u w, u ∈ ts → objs s !! u = Some w → pipe0 w = pipe0 v → u = t.

Lemma pipes_ok_os s ts o' :
  pipes_ok s ts → (∀ r w, pipe_open (os s) r w → pipe_open o' r w) →
  pipes_ok (s <| os := o' |>) ts.
Proof. intros Hp Ho t Ht. destruct (Hp t Ht) as (v & ? & ? & ?). eauto 8. Qed.

Lemma wakeups_step s o' ts t v (n : nat) :
  pipes_ok s ts → t ∈ ts → objs s !! t = Some v → unread o' (pipe0 v) = n →
  (∀ r', r' ≠ pipe0 v → unread o' r' = unread (os s) r') →
  wakeups (s <| os := o' |>) t = n ∧
  (∀ u, u ∈ ts → u ≠ t → wakeups (s <| os := o' |>) u = wakeups s u).
Proof.
  intros Hp Ht Hv Hn Hr. unfold wakeups. simpl. rewrite Hv. split; [done|].
  intros u Hu Hut. destruct (objs s !! u) as [w|] eqn:Ew; [|done].
  apply Hr. intros E. destruct (Hp t Ht) as (v' & Hv' & _ & Hinj). simplify_eq.
  by apply Hut, (Hinj u w).
Qed.

(** Wake-ups are counted, never lost and never shared: for threads with
    pipes of their own, [sthread_wake t] adds one wake-up to [t] and to no
    other thread; [sthread_suspend] by [t] blocks and changes nothing when [t]
    has none, and otherwise consumes exactly one of its own.  [sthread_suspend]
    of the code finds the caller's struct by its pid. *)
Theorem suspend_wake_tokens cur ts l t s :
  pipes_ok s ts → t ∈ ts → threadlist l s →
  List.find (has_pid (objs s) cur) (l ++ [manager_thread; main_thread]) = Some t →
  (∃ s', Semaphore.sthread_wake (SThreadApi := pipe_api cur) t s = Ok tt s' ∧
     pipes_ok s' ts ∧ threadlist l s' ∧
     wakeups s' t = S (wakeups s t) ∧
     ∀ u, u ∈ ts → u ≠ t → wakeups s' u = wakeups s u) ∧
  SThread.sthread_suspend cur s = Semaphore.sthread_suspend (SThreadApi := pipe_api cur) t s ∧
  match wakeups s t with
  | 0%nat => SThread.sthread_suspend cur s = Err Blocked s
  | S n =>
      ∃ s', SThread.sthread_suspend cur s = Ok tt s' ∧ pipes_ok s' ts ∧ threadlist l s' ∧
        wakeups s' t = n ∧ ∀ u, u ∈ ts → u ≠ t → wakeups s' u = wakeups s u
  end.
Proof.
  intros Hp Ht Hl Hf. destruct (Hp t Ht) as (v & Hv & Hopen & _).
  assert (wakeups s t = unread (os s) (pipe0 v)) as Hw by (unfold wakeups; by rewrite Hv).
  assert (∀ o', threadlist l (s <| os := o' |>)) as Hl'
    by (intros o'; by eapply threadlist_congr; [..|exact Hl]).
  assert (SThread.sthread_suspend cur s
    = Semaphore.sthread_suspend (SThreadApi := pipe_api cur) t s) as Heq.
  { unfold SThread.sthread_suspend, sthread_self. mstep. by rewrite (findbypid_spec l), Hf. }
  rewrite Heq. split_and!; [|done|].
  - destruct (write_adds _ _ _ Hopen) as (o' & E & Hn & Hr & Ho).
    unfold Semaphore.sthread_wake, pipe_api, SThread.sthread_wake, mbind, M_bind.
    rewrite (load_t_ok s t v Hv). erewrite libc_ok by eassumption.
    eexists. split; [done|]. rewrite Hw.
    split_and!; [by apply pipes_ok_os|done|by eapply wakeups_step..].
  - unfold Semaphore.sthread_suspend, pipe_api, _sthread_self_suspend, read. mstep.
    rewrite (load_t_ok s t v Hv). rewrite Hw.
    destruct (unread (os s) (pipe0 v)) as [|n] eqn:En.
    + erewrite read_blocks by eassumption. f_equal. by destruct s.
    + destruct (read_takes _ _ _ _ Hopen En) as (d & o' & E & Hn & Hr & Ho). rewrite E.
      eexists. split; [done|]. split_and!; [by apply pipes_ok_os|done|by eapply wakeups_step..].
Qed.
End SuspendWake.

(** ** A concrete operating system *)

(** Descriptors, addresses and pids are handed out in increasing order; the
    write end of a pipe is its read end plus one. *)
Record demo_os : Type := mkDemo { dfd : Z; daddr : Z; dpid : Z; dpipes : gmap Z (list pipe_data) }.
#[export] Instance demo_os_eta : Settable demo_os :=
  λ r, mkDemo (dfd r) (daddr r) (dpid r) (dpipes r).

Definition dread (o : demo_os) (r : Z) : list pipe_data := default [] (dpipes o !! r).

#[export] Instance demo_OS : OS demo_os := {
  sys_mmap n o := (inl (daddr o), o <| daddr ::= Z.add n |>);
  sys_munmap _ _ o := (inl tt, o);
  sys_pipe o := (inl (dfd o, dfd o + 1), o <| dfd ::= Z.add 2 |>);
  sys_close _ o := (inl tt, o);
  sys_write w d o := (inl tt, o <| dpipes ::= <[w - 1 := dread o (w - 1) ++ [d]]> |>);
  sys_read r o :=
    match dread o r with
    | [] => (None, o)
    | d :: q => (Some d, o <| dpipes ::= <[r := q]> |>)
    end;
  sys_clone _ _ o := (inl (dpid o), o <| dpid ::= Z.add 1 |>);
  sys_waitpid p o := (inl (p, 0), o);
  sys_waitpid_nohang o := (inl (0, 0), o);
  sys_kill _ _ o := (inl tt, o);
  sys_getppid _ := 42;
  sys_malloc o := (inl (daddr o), o <| daddr ::= Z.add 64 |>);
  sys_sigaction _ o := (inl tt, o);
  sys_atexit o := o
}.

#[export] Instance demo_PipeOS : PipeOS demo_os.
Proof.
  refine {| unread o r := length (dread o r); pipe_open o r w := w = r + 1 |}.
  - intros o r w ->. eexists. split; [done|]. unfold dread. simpl.
    replace (r + 1 - 1) with r by lia. rewrite lookup_insert_eq. simpl.
    split_and!; [rewrite length_app; simpl; lia| |done].
    intros r' Hr. by rewrite lookup_insert_ne.
  - intros o r w n -> Hn. simpl. destruct (dread o r) as [|d q]; [done|]. injection Hn as <-.
    eexists _, _. split; [done|]. unfold dread. simpl. rewrite lookup_insert_eq.
    split_and!; [done| |done]. intros r' Hr. by rewrite lookup_insert_ne.
  - intros o r w -> Hn. simpl. by destruct (dread o r).
Defined.

(** A process with pid 100 that has initialised the library and created one
    thread, which runs as pid 102. *)
Definition demo_start : lib demo_os :=
  res_state (sthread_init 100 (lib_init (mkDemo 3 1000 101 ∅))).

Definition demo_junk : sthread_struct := mkT (-1) None 0 0 0 0 0 0 None None.

Definition demo_requested : lib demo_os :=
  res_state (create_request 100 demo_junk 7 8 demo_start).

Definition demo_created : lib demo_os := res_state (manager_round 101 3 demo_requested).

Definition demo_thread : Z := 66536.

Lemma demo_handshake :
  ∃ s, create_finish (Some main_thread) demo_thread demo_created = Ok (0, Some demo_thread) s.
Proof. vm_compute. eauto. Qed.

Lemma demo_requested_list : threadlist [] demo_requested.
Proof. split; [done|]. split; [vm_compute; eauto 10|]. by repeat constructor; set_solver. Qed.

Lemma demo_created_list : threadlist [demo_thread] demo_created.
Proof.
  split; [done|]. split; [vm_compute; eauto 10|]. repeat constructor; set_solver by done.
Qed.

Lemma threadlist_operations_witness :
  ∃ s', threadlist_del (Some demo_thread) demo_created = Ok 0 s' ∧ threadlist [] s'.
Proof.
  assert (∃ v, objs demo_created !! demo_thread = Some v ∧ pid v = 102) as (v & Hv & Hp)
    by (eexists; split; [vm_compute; reflexivity|reflexivity]).
  pose proof (threadlist_operations [demo_thread] 102 demo_thread v demo_created
    demo_created_list Hv) as (_ & _ & Hdel).
  replace (existsb _ _) with true in Hdel by (rewrite Hp; reflexivity).
  rewrite Hp in Hdel. destruct Hdel as (s' & Hd & Hl & _). exists s'. by split.
Defined.

Lemma do_create_outcomes_witness :
  ∃ s', do_create 101 (Some main_thread) (Some demo_thread) 7 8 demo_requested = Ok tt s' ∧
        threadlist [demo_thread] s'.
Proof.
  pose proof (do_create_outcomes 101 main_thread demo_thread 7 8 []
    (default demo_junk (objs demo_requested !! main_thread))
    (default demo_junk (objs demo_requested !! demo_thread))
    (default demo_junk (objs demo_requested !! manager_thread)) demo_requested
    demo_requested_list ltac:(done) ltac:(done) ltac:(set_solver by done)
    ltac:(reflexivity) ltac:(reflexivity) ltac:(reflexivity) ltac:(reflexivity))
    as (_ & _ & Hok).
  destruct (Hok _ _ _ _ _ _ _ eq_refl eq_refl eq_refl) as [_ Hclone].
  destruct (Hclone _ _ eq_refl ltac:(done)) as (s' & v & u & Hc & Hl & _).
  exists s'. by split.
Defined.

Lemma all_exit_use_after_free_witness :
  ∃ s', manager_serve 101 (MSG_ALL_EXIT (Some main_thread)) demo_created = Err Undefined s'.
Proof.
  apply (all_exit_use_after_free 101 ltac:(by eexists) ltac:(by eexists)
    ltac:(by do 2 eexists) ltac:(by eexists) ltac:(by eexists)
    [demo_thread] demo_created demo_created_list).
Defined.

Lemma suspend_wake_tokens_witness :
  wakeups demo_created main_thread = 1%nat ∧
  ∃ s', SThread.sthread_suspend 100 demo_created = Ok tt s' ∧ wakeups s' main_thread = 0%nat.
Proof.
  split; [reflexivity|].
  assert (pipes_ok demo_created [main_thread; demo_thread]) as Hp.
  { intros t Ht. apply elem_of_cons in Ht as [->|Ht%list_elem_of_singleton]; [|subst].
    all: eexists; split; [vm_compute; reflexivity|]; split; [reflexivity|].
    all: intros u w Huts Hu E; apply elem_of_cons in Huts as [->|Huts%list_elem_of_singleton];
      [|subst]; vm_compute in Hu; injection Hu as <-; done. }
  destruct (suspend_wake_tokens 100 [main_thread; demo_thread] [demo_thread] main_thread
    demo_created Hp ltac:(left) demo_created_list ltac:(reflexivity)) as (_ & _ & Hs).
  replace (wakeups demo_created main_thread) with 1%nat in Hs by reflexivity.
  destruct Hs as (s' & Hs & _ & _ & Hn & _). exists s'. by split.
Defined.
