(* ===== verification/Netlock.v ===== *)
(** * The network lock system calls: [hw3/netlock.c]

    A reader-writer lock kept in three static integers guarded by a spin lock.
    A caller that cannot have the lock allocates a wait-queue head, enters its
    wait entry and calls [schedule]; releasing is meant to wake a waiter.  The
    wait-queue routines, [kmalloc] and [schedule] are the parameter
    [WaitKernel]; the wait entry that [DEFINE_WAIT] declares on the stack is
    modelled by the list it heads, which the macro initialises to empty. *)

From S2P Require Import Prelude.

(** [enum __netlock_t]; the argument of the system call is any word. *)
Definition NET_LOCK_N : Z := 0.
Definition NET_LOCK_R : Z := 1.
Definition NET_LOCK_E : Z := 2.

Class WaitKernel (K : Type) := {
  kmalloc_head : K → option (Z * Z) * K;  (** address and indeterminate [netlock_flag] *)
  kfree_head : Z → K → option K;          (** [None]: the block is not allocated *)
  add_wait_queue : Z → K → K;
  remove_wait_queue : Z → K → K;
  wake_up : Z → K → K;
  wake_up_all : Z → K → K;
  schedule : K → K
}.

(** The static variables of the file, the spin lock, the [netlock_flag] of the
    allocated queue heads, and the kernel below. *)
Record netlock (K : Type) : Type := mkNet {
  read_lock_available : Z;
  write_lock_available : Z;
  reader_count : Z;
  spin_held : bool;
  netlock_flag : gmap Z Z;
  kern : K
}.
Arguments mkNet {K}.
Arguments read_lock_available {K}.
Arguments write_lock_available {K}.
Arguments reader_count {K}.
Arguments spin_held {K}.
Arguments netlock_flag {K}.
Arguments kern {K}.
#[export] Instance netlock_eta K : Settable (netlock K) := λ r,
  mkNet (read_lock_available r) (write_lock_available r) (reader_count r) (spin_held r)
    (netlock_flag r) (kern r).

Definition netlock_init {K} (k : K) : netlock K := mkNet 1 1 0 false ∅ k.

Section Netlock.
Context {K : Type} `{WaitKernel K}.

Definition spin_lock : M (netlock K) unit :=
  held ← gets spin_held;
  if held : bool then fail Blocked else modify (λ s, s <| spin_held := true |>).

Definition spin_unlock : M (netlock K) unit := modify (λ s, s <| spin_held := false |>).

Definition call_kern (f : K → K) : M (netlock K) unit := modify (λ s, s <| kern ::= f |>).

Definition kmalloc : M (netlock K) (option Z) :=
  s ← get;
  let '(r, k) := kmalloc_head (kern s) in
  _ ← modify (λ s, s <| kern := k |>);
  match r with
  | None => mret None
  | Some (a, junk) =>
      _ ← modify (λ s, s <| netlock_flag ::= <[a := junk]> |>);
      mret (Some a)
  end.

Definition kfree (a : Z) : M (netlock K) unit :=
  s ← get;
  match kfree_head a (kern s) with
  | Some k => modify (λ s, s <| kern := k |>)
  | None => fail Undefined
  end.

(** The waiting branch: a queue head with the kind of request. *)
Definition wait_for_lock (kind : Z) : M (netlock K) unit :=
  newThread ← kmalloc;
  a ← deref newThread;
  _ ← modify (λ s, s <| netlock_flag ::= <[a := kind]> |>);
  _ ← call_kern (add_wait_queue a);
  _ ← spin_unlock;
  call_kern schedule.

Definition netlock_acquire (type : Z) : M (netlock K) Z :=
  _ ← spin_lock;
  s ← get;
  if type =? NET_LOCK_R then
    _ ← (if write_lock_available s =? 1 then
           _ ← modify (λ s, s <| reader_count := s32 (reader_count s + 1) |>);
           spin_unlock
         else wait_for_lock 0);
    mret 0
  else if type =? NET_LOCK_E then
    _ ← (if (write_lock_available s =? 1) && (read_lock_available s =? 1) then
           _ ← modify (λ s, s <| write_lock_available := 0 |>);
           spin_unlock
         else wait_for_lock 1);
    mret 0
  else if type =? NET_LOCK_N then
    _ ← spin_unlock;
    mret (-1)
  else mret 0.

(** The loop over the queue: its body runs once per queued entry, and reads the
    flag of the block [pos] it copies the links into. *)
Fixpoint scan_queue (q : list Z) (pos : Z) (exclusiveFound : bool) : M (netlock K) bool :=
  match q with
  | [] => mret exclusiveFound
  | _ :: q' =>
      s ← get;
      flag ← deref (netlock_flag s !! pos);
      let found := exclusiveFound || (flag =? 1) in
      _ ← (if flag =? 0
           then modify (λ s, s <| reader_count := s32 (reader_count s + 1) |>)
           else mret tt);
      scan_queue q' pos found
  end.

(** [netlock_release] with the local wait entry's list holding [q].  The stack
    copy [temp] of the block [head] is named by the block it was copied from. *)
Definition release_with (q : list Z) : M (netlock K) Z :=
  _ ← spin_lock;
  _ ← match q with
      | [] =>
          s ← get;
          _ ← (if reader_count s <=? 1 then
                 modify (λ s, s <| reader_count := 0 |> <| read_lock_available := 1 |>
                                <| write_lock_available := 1 |>)
               else modify (λ s, s <| reader_count := s32 (reader_count s - 1) |>));
          spin_unlock
      | _ :: _ =>
          h ← kmalloc;
          head ← deref h;
          exclusiveFound ← scan_queue q head false;
          _ ← (if exclusiveFound : bool then
                 _ ← modify (λ s, s <| write_lock_available := 0 |>);
                 _ ← call_kern (remove_wait_queue head);
                 _ ← kfree head;
                 _ ← spin_unlock;
                 call_kern (wake_up head)
               else
                 s ← get;
                 if 0 <? reader_count s then
                   _ ← modify (λ s, s <| read_lock_available := 0 |>);
                   _ ← spin_unlock;
                   call_kern (wake_up_all head)
                 else spin_unlock);
          kfree head
      end;
  mret 0.

(** [DEFINE_WAIT (wait_queue)] in [netlock_release] hides the global of that
    name: the list it tests is the empty one of the new local entry. *)
Definition netlock_release : M (netlock K) Z := release_with [].

(** ** What the calls do *)

(** C39. Every call on an idle spin lock: a reader is admitted when the write
    flag is set, a writer when both flags are set, a request for no lock
    returns -1, and a release drops one reader or, for the last reader or a
    writer, sets both flags.  A request of any other type returns 0 with the
    spin lock still held, after which every further call spins forever. *)
Theorem netlock_outcomes (s : netlock K) (type : Z) :
  spin_held s = false →
  (write_lock_available s = 1 →
     netlock_acquire NET_LOCK_R s
     = Ok 0 (s <| reader_count := s32 (reader_count s + 1) |>)) ∧
  (write_lock_available s = 1 → read_lock_available s = 1 →
     netlock_acquire NET_LOCK_E s = Ok 0 (s <| write_lock_available := 0 |>)) ∧
  netlock_acquire NET_LOCK_N s = Ok (-1) s ∧
  (reader_count s ≤ 1 →
     netlock_release s = Ok 0 (s <| reader_count := 0 |> <| read_lock_available := 1 |>
                                 <| write_lock_available := 1 |>)) ∧
  (1 < reader_count s →
     netlock_release s = Ok 0 (s <| reader_count := s32 (reader_count s - 1) |>)) ∧
  (type ≠ NET_LOCK_N → type ≠ NET_LOCK_R → type ≠ NET_LOCK_E →
     netlock_acquire type s = Ok 0 (s <| spin_held := true |>) ∧
     ∀ t, netlock_acquire t (s <| spin_held := true |>) = Err Blocked (s <| spin_held := true |>) ∧
          netlock_release (s <| spin_held := true |>) = Err Blocked (s <| spin_held := true |>)).
Proof.
  intros Hh. destruct s as [r w n h f k]. simpl in *. subst h.
  split_and!; intros; simplify_eq; try done.
  - unfold netlock_release, release_with, spin_lock, spin_unlock. mstep.
    by destruct (Z.leb_spec n 1); [|lia].
  - unfold netlock_release, release_with, spin_lock, spin_unlock. mstep.
    by destruct (Z.leb_spec n 1); [lia|].
  - split; [|done]. unfold netlock_acquire, spin_lock. mstep.
    by do 3 (match goal with |- context [if ?a =? ?b then _ else _] =>
      destruct (Z.eqb_spec a b); [done|] end).
Qed.

(** ** Runs of the system calls *)

(** One completed call: an admission, a wait, or a release. *)
Inductive netlock_step : netlock K → netlock K → Prop :=
  | step_acquire type s s' r :
      reader_count s < INT_MAX → type ∈ [NET_LOCK_N; NET_LOCK_R; NET_LOCK_E] →
      netlock_acquire type s = Ok r s' → netlock_step s s'
  | step_release s s' r :
      netlock_release s = Ok r s' → netlock_step s s'.

Definition netlock_start (s : netlock K) : Prop := ∃ k, s = netlock_init k.

Definition netlock_inv (s : netlock K) : Prop :=
  read_lock_available s = 1 ∧ (write_lock_available s = 0 ∨ write_lock_available s = 1) ∧
  0 ≤ reader_count s ≤ INT_MAX ∧ spin_held s = false.

Lemma wait_for_lock_frame kind s s' :
  wait_for_lock kind s = Ok tt s' →
  read_lock_available s' = read_lock_available s ∧
  write_lock_available s' = write_lock_available s ∧
  reader_count s' = reader_count s ∧ spin_held s' = false.
Proof.
  unfold wait_for_lock, kmalloc, call_kern, spin_unlock. mstep.
  destruct (kmalloc_head _) as [[[a j]|] k]; simpl; [|done]. by intros [= <-].
Qed.

Lemma netlock_inv_wait kind s u s' :
  netlock_inv (s <| spin_held := false |>) → wait_for_lock kind (s <| spin_held := true |>) = Ok u s' →
  netlock_inv s'.
Proof.
  destruct u. intros Hi (H1 & H2 & H3 & H4)%wait_for_lock_frame.
  unfold netlock_inv in *. by rewrite H1, H2, H3, H4.
Qed.

Lemma netlock_inv_step s s' : netlock_inv s → netlock_step s s' → netlock_inv s'.
Proof.
  intros Hinv Hstep. destruct Hstep as [type s s' r Hlt Ht E|s s' r E];
    destruct Hinv as (Hr & Hw & Hn & Hs).
  - unfold netlock_acquire, spin_lock in E. mstep. rewrite Hs in E. simpl in E.
    rewrite Hr, andb_true_r in E. split_ifs; unfold spin_unlock, modify, mret, M_ret in *; simplify_eq/=.
    + unfold netlock_inv. simpl. rewrite swrap_small by (widths; lia). repeat split; try done; lia.
    + eapply netlock_inv_wait; [|eassumption]. by unfold netlock_inv.
    + unfold netlock_inv. simpl. auto.
    + eapply netlock_inv_wait; [|eassumption]. by unfold netlock_inv.
    + done.
    + set_solver.
  - unfold netlock_release, release_with, spin_lock, spin_unlock in E. mstep.
    rewrite Hs in E. simpl in E. unfold netlock_inv.
    destruct (reader_count s <=? 1) eqn:El; bsimp; simplify_eq/=; [widths; auto with lia|].
    rewrite swrap_small by (widths; lia). repeat split; try done; lia.
Qed.

(** In every state the three request types and releases can reach, the flag
    [read_lock_available] is 1.  So a writer is admitted exactly when no writer
    is, however many readers hold the lock: with [n] readers inside, an
    exclusive request is granted at once and the readers stay counted. *)
Theorem writer_ignores_readers s :
  reachable netlock_start netlock_step s →
  read_lock_available s = 1 ∧ 0 ≤ reader_count s ∧ spin_held s = false ∧
  (write_lock_available s = 1 →
    ∃ s', netlock_acquire NET_LOCK_E s = Ok 0 s' ∧ write_lock_available s' = 0 ∧
          reader_count s' = reader_count s).
Proof.
  intros Hr. assert (netlock_inv s) as (Hra & Hw & Hn & Hs).
  { revert s Hr. apply reachable_inv; [|apply netlock_inv_step].
    intros s [k ->]. repeat split; auto; done. }
  split_and!; [done|lia|done|]. intros Hwa. exists (s <| write_lock_available := 0 |>).
  split; [|done]. destruct s. simpl in *. by subst.
Qed.
End Netlock.

(** ** A concrete kernel *)

(** Blocks are numbered; [None] after the last block was freed. *)
#[export] Instance demo_kernel : WaitKernel (Z * list Z) := {
  kmalloc_head k := (Some (fst k, 7), (fst k + 1, fst k :: snd k));
  kfree_head a k := if decide (a ∈ snd k) then Some (fst k, remove_one a (snd k)) else None;
  add_wait_queue _ k := k;
  remove_wait_queue _ k := k;
  wake_up _ k := k;
  wake_up_all _ k := k;
  schedule k := k
}.

Lemma netlock_outcomes_witness :
  netlock_acquire 5 (netlock_init (1, [])) = Ok 0 ((netlock_init (1, [])) <| spin_held := true |>).
Proof. apply (netlock_outcomes (netlock_init (1, [])) 5); done. Defined.

(** Two readers have entered. *)
Definition two_readers : netlock (Z * list Z) :=
  (netlock_init (1, [])) <| reader_count := 2 |>.

Lemma writer_ignores_readers_witness :
  ∃ s', netlock_acquire NET_LOCK_E two_readers = Ok 0 s' ∧ reader_count s' = 2.
Proof.
  destruct (writer_ignores_readers two_readers) as (_ & _ & _ & Hw).
  - exists (netlock_init (1, [])). split; [by eexists|].
    apply rtc_l with ((netlock_init (1, [])) <| reader_count := 1 |>).
    + apply step_acquire with NET_LOCK_R 0; [done|set_solver|done].
    + apply rtc_once, step_acquire with NET_LOCK_R 0; [done|set_solver|done].
  - destruct (Hw eq_refl) as (s' & ? & _ & ?). exists s'. by split.
Defined.
