(* ===== verification/UserCache.v ===== *)
(** * The user cache: [hw5/kernel/user.c]

    One [struct user_struct] per user and namespace, found through a hash table
    of lists and reference counted.  The homework added [mem_max] (the user's
    memory limit, -1 for none) and [cumulative_mem].  The hash lists are the
    interface [KList]; slab, keyrings and namespace counts are the parameter
    [UserKernel].  Each critical section of [uidhash_lock] is one atomic step
    of the interleaving semantics at the end of the file. *)

From S2P Require Import Prelude KList.

Record user_struct : Type := mkUser {
  __count : Z;
  processes : Z;
  files : Z;
  sigpending : Z;
  locked_shm : Z;
  uid_keyring : option Z;
  session_keyring : option Z;
  uid : Z;
  user_ns : Z;
  mem_max : Z;
  cumulative_mem : Z
}.
#[export] Instance user_struct_eta : Settable user_struct := λ r,
  mkUser (__count r) (processes r) (files r) (sigpending r) (locked_shm r) (uid_keyring r)
    (session_keyring r) (uid r) (user_ns r) (mem_max r) (cumulative_mem r).

(** What [kmem_cache_zalloc] returns. *)
Definition zero_user : user_struct := mkUser 0 0 0 0 0 None None 0 0 0 0.

Class UserKernel (X : Type) := {
  current_user_ns : X → Z;
  get_user_ns : Z → X → X;
  put_user_ns : Z → X → X;
  key_put : option Z → X → X;
  kmem_cache_zalloc : X → option Z * X;
  kmem_cache_free : Z → X → X
}.

(** Static objects. *)
Definition init_user_ns : Z := 1.
Definition root_user : Z := 1.
Definition root_user_init : user_struct :=
  mkUser 2 1 0 0 0 None None 0 init_user_ns 0 0.

Record cache (L X : Type) : Type := mkCache {
  users : gmap Z user_struct;
  uidhash_table : L;
  uidhash_lock : bool;
  ext : X
}.
Arguments mkCache {L X}.
Arguments users {L X}.
Arguments uidhash_table {L X}.
Arguments uidhash_lock {L X}.
Arguments ext {L X}.
#[export] Instance cache_eta L X : Settable (cache L X) :=
  λ r, mkCache (users r) (uidhash_table r) (uidhash_lock r) (ext r).

Section UserCache.
Context {L X : Type} `{KList (Z * Z) L, UserKernel X}.

(** Size of the hash table, from the kernel configuration. *)
Variable UIDHASH_BITS : Z.
Definition UIDHASH_SZ : Z := Z.shiftl 1 UIDHASH_BITS.
Definition UIDHASH_MASK : Z := UIDHASH_SZ - 1.

Definition __uidhashfn (id : Z) : Z :=
  Z.land (u32 (Z.shiftr id UIDHASH_BITS + id)) UIDHASH_MASK.

(** The list head [ns->uidhash_table + n]. *)
Definition uidhashentry (ns id : Z) : Z * Z := (ns, __uidhashfn id).

Definition load_user (p : Z) : M (cache L X) user_struct :=
  us ← gets users;
  match us !! p with Some u => mret u | None => fail Undefined end.

Definition store_user (p : Z) (f : user_struct → user_struct) : M (cache L X) unit :=
  u ← load_user p;
  modify (λ c, c <| users ::= <[p := f u]> |>).

Definition call_ext (f : X → X) : M (cache L X) unit := modify (λ c, c <| ext ::= f |>).

Definition spin_lock_irq : M (cache L X) unit :=
  held ← gets uidhash_lock;
  if held : bool then fail Blocked else modify (λ c, c <| uidhash_lock := true |>).

Definition spin_unlock_irq : M (cache L X) unit :=
  modify (λ c, c <| uidhash_lock := false |>).

Definition uid_hash_insert (up : Z) (hashent : Z * Z) : M (cache L X) unit :=
  modify (λ c, c <| uidhash_table ::= list_add up hashent |>).

Definition uid_hash_remove (up : Z) : M (cache L X) unit :=
  _ ← modify (λ c, c <| uidhash_table ::= list_del up |>);
  u ← load_user up;
  call_ext (put_user_ns (user_ns u)).

Fixpoint uid_hash_scan (q : list Z) (id : Z) : M (cache L X) (option Z) :=
  match q with
  | [] => mret None
  | user :: q' =>
      u ← load_user user;
      if uid u =? id then
        _ ← store_user user (λ u, u <| __count := s32 (__count u + 1) |>);
        mret (Some user)
      else uid_hash_scan q' id
  end.

Definition uid_hash_find (id : Z) (hashent : Z * Z) : M (cache L X) (option Z) :=
  c ← get;
  uid_hash_scan (elems (uidhash_table c) hashent) id.

(** Entered with [uidhash_lock] held. *)
Definition free_user (up : Z) : M (cache L X) unit :=
  _ ← uid_hash_remove up;
  _ ← spin_unlock_irq;
  u ← load_user up;
  _ ← call_ext (key_put (uid_keyring u));
  _ ← call_ext (key_put (session_keyring u));
  _ ← call_ext (kmem_cache_free up);
  modify (λ c, c <| users ::= delete up |>).

Definition find_user (id : Z) : M (cache L X) (option Z) :=
  c ← get;
  let ns := current_user_ns (ext c) in
  _ ← spin_lock_irq;
  ret ← uid_hash_find id (uidhashentry ns id);
  _ ← spin_unlock_irq;
  mret ret.

(** [atomic_dec_and_lock]: drop one count; on zero return with the lock held. *)
Definition atomic_dec_and_lock (up : Z) : M (cache L X) bool :=
  u ← load_user up;
  if __count u =? 1 then
    _ ← spin_lock_irq;
    _ ← store_user up (λ u, u <| __count := s32 (__count u - 1) |>);
    mret true
  else
    _ ← store_user up (λ u, u <| __count := s32 (__count u - 1) |>);
    mret false.

Definition free_uid (up : option Z) : M (cache L X) unit :=
  match up with
  | None => mret tt
  | Some p =>
      last ← atomic_dec_and_lock p;
      if last : bool then free_user p else mret tt
  end.

(** [alloc_uid], first critical section: look the user up. *)
Definition alloc_find (ns id : Z) : M (cache L X) (option Z) :=
  _ ← spin_lock_irq;
  up ← uid_hash_find id (uidhashentry ns id);
  _ ← spin_unlock_irq;
  mret up.

(** Second part: make a new struct, look again and enter it unless another
    thread has meanwhile. *)
Definition alloc_insert (ns id : Z) : M (cache L X) (option Z) :=
  c ← get;
  let '(r, x) := kmem_cache_zalloc (ext c) in
  _ ← modify (λ c, c <| ext := x |>);
  match r with
  | None => mret None
  | Some new =>
      _ ← modify (λ c, c <| users ::= <[new := zero_user]> |>);
      _ ← store_user new (λ u, u <| uid := id |> <| __count := 1 |> <| mem_max := -1 |>
                                  <| cumulative_mem := 0 |>);
      _ ← call_ext (get_user_ns ns);
      _ ← store_user new (λ u, u <| user_ns := ns |>);
      _ ← spin_lock_irq;
      up ← uid_hash_find id (uidhashentry ns id);
      ret ← match up with
            | Some _ =>
                _ ← call_ext (put_user_ns ns);
                u ← load_user new;
                _ ← call_ext (key_put (uid_keyring u));
                _ ← call_ext (key_put (session_keyring u));
                _ ← call_ext (kmem_cache_free new);
                _ ← modify (λ c, c <| users ::= delete new |>);
                mret up
            | None =>
                _ ← uid_hash_insert new (uidhashentry ns id);
                mret (Some new)
            end;
      _ ← spin_unlock_irq;
      mret ret
  end.

Definition alloc_uid (ns id : Z) : M (cache L X) (option Z) :=
  up ← alloc_find ns id;
  match up with
  | None => alloc_insert ns id
  | Some _ => mret up
  end.

Definition uid_cache_init : M (cache L X) Z :=
  _ ← for_each (seqZ 0 UIDHASH_SZ) (λ n,
        modify (λ c, c <| uidhash_table ::= INIT_LIST_HEAD (init_user_ns, n) |>));
  _ ← spin_lock_irq;
  _ ← uid_hash_insert root_user (uidhashentry init_user_ns 0);
  _ ← spin_unlock_irq;
  mret 0.

End UserCache.

(** ** References *)

(** How many of the references held are to [p]. *)
Definition refcnt (p : Z) (refs : list Z) : Z :=
  sumZ (λ q, b2z (bool_decide (q = p))) refs.

Lemma refcnt_cons p q refs :
  refcnt p (q :: refs) = b2z (bool_decide (q = p)) + refcnt p refs.
Proof. done. Qed.

Lemma refcnt_nonneg p refs : 0 ≤ refcnt p refs.
Proof. apply sumZ_nonneg. intros q _. destruct (bool_decide _); simpl; lia. Qed.

Lemma refcnt_le p refs : refcnt p refs ≤ Z.of_nat (length refs).
Proof.
  unfold refcnt. induction refs as [|q refs IH]; simpl; [lia|].
  destruct (bool_decide _); simpl; lia.
Qed.

Lemma refcnt_absent p refs : p ∉ refs → refcnt p refs = 0.
Proof.
  induction refs as [|q refs IH]; intros Hp; [done|]. rewrite refcnt_cons, IH by set_solver.
  rewrite bool_decide_false by set_solver. done.
Qed.

Lemma refcnt_remove p q refs :
  p ∈ refs → refcnt q refs = b2z (bool_decide (p = q)) + refcnt q (remove_one p refs).
Proof. intros Hp. unfold refcnt. by rewrite (sumZ_perm _ _ _ (remove_one_perm p refs Hp)). Qed.

Lemma refcnt_positive p refs : 0 < refcnt p refs → p ∈ refs.
Proof.
  intros Hp. destruct (decide (p ∈ refs)); [done|]. rewrite refcnt_absent in Hp by done. lia.
Qed.

Section CacheSpec.
Context {L X : Type} `{KListLaws (Z * Z) L, UserKernel X}.
Variable UIDHASH_BITS : Z.
Implicit Types (c : cache L X) (us : gmap Z user_struct) (tb : L).
Abbreviation entry := (uidhashentry UIDHASH_BITS).

Definition matches (ns id : Z) (u : user_struct) : Prop := user_ns u = ns ∧ uid u = id.

(** Every struct is on the list of its hash bucket and on no other, a user of a
    namespace has one struct, and its count is the number of references held,
    at least one. *)
Record cache_inv us tb (refs : list Z) : Prop := {
  inv_wf : lists_wf tb;
  inv_table p b : p ∈ elems tb b ↔ ∃ u, us !! p = Some u ∧ b = entry (user_ns u) (uid u);
  inv_unique p q u v :
    us !! p = Some u → us !! q = Some v → matches (user_ns u) (uid u) v → p = q;
  inv_count p u : us !! p = Some u → __count u = refcnt p refs ∧ 0 < __count u;
  inv_refs p : p ∈ refs → is_Some (us !! p)
}.

Definition bump (u : user_struct) : user_struct := u <| __count := s32 (__count u + 1) |>.

Lemma load_user_ok c p u : users c !! p = Some u → load_user p c = Ok u c.
Proof. intros Hp. unfold load_user. mstep. by rewrite Hp. Qed.

Lemma store_user_ok c p f u :
  users c !! p = Some u → store_user p f c = Ok tt (c <| users := <[p := f u]> (users c) |>).
Proof. intros Hp. unfold store_user. mstep. rewrite (load_user_ok c p u Hp). by destruct c. Qed.

Lemma scan_spec c q id :
  (∀ p, p ∈ q → is_Some (users c !! p)) →
  (∃ p u, p ∈ q ∧ users c !! p = Some u ∧ uid u = id ∧
     uid_hash_scan q id c = Ok (Some p) (c <| users := <[p := bump u]> (users c) |>)) ∨
  ((∀ p u, p ∈ q → users c !! p = Some u → uid u ≠ id) ∧ uid_hash_scan q id c = Ok None c).
Proof.
  induction q as [|a q IH]; intros Hq.
  { right. split; [by intros p u ?%elem_of_nil|done]. }
  destruct (Hq a ltac:(left)) as [u Hu].
  simpl. unfold mbind, M_bind. rewrite (load_user_ok c a u Hu).
  destruct (Z.eqb_spec (uid u) id).
  - left. exists a, u. split_and!; [left|done|done|]. by erewrite store_user_ok.
  - destruct IH as [(p & v & Hp & Hv & Hid & E)|[Hno E]]; [intros p Hp; apply Hq; by right| |].
    + left. exists p, v. split_and!; [by right|done..].
    + right. split; [|done]. intros p v [->|Hp]%elem_of_cons Hv; [by simplify_eq|eauto].
Qed.

(** Lookup, in a cache that may hold further structs not yet entered in the
    table. *)
Lemma hash_find_spec c us refs ns id :
  cache_inv us (uidhash_table c) refs → us ⊆ users c →
  (∃ p u, us !! p = Some u ∧ matches ns id u ∧
     uid_hash_find id (entry ns id) c = Ok (Some p) (c <| users := <[p := bump u]> (users c) |>)) ∨
  ((∀ p u, us !! p = Some u → ¬ matches ns id u) ∧ uid_hash_find id (entry ns id) c = Ok None c).
Proof.
  intros Hi Hsub. unfold uid_hash_find. mstep.
  destruct (scan_spec c (elems (uidhash_table c) (entry ns id)) id)
    as [(p & u & Hp & Hu & Hid & ->)|[Hno ->]].
  - intros p (u & Hu & _)%(inv_table _ _ _ Hi). exists u. by eapply lookup_weaken.
  - left. apply (inv_table _ _ _ Hi) in Hp as (u' & Hu' & Hent).
    assert (users c !! p = Some u') by (by eapply lookup_weaken). simplify_eq.
    exists p, u. by split_and!.
  - right. split; [|done]. intros p u Hu [<- <-].
    apply (Hno p u); [|by eapply lookup_weaken|done]. apply (inv_table _ _ _ Hi). eauto.
Qed.

(** The invariant under the four changes the critical sections make. *)

Lemma inv_update us tb refs refs' p u u' :
  cache_inv us tb refs → us !! p = Some u →
  user_ns u' = user_ns u → uid u' = uid u →
  (∀ q, q ≠ p → refcnt q refs' = refcnt q refs) →
  __count u' = refcnt p refs' → 0 < __count u' →
  cache_inv (<[p := u']> us) tb refs'.
Proof.
  intros [Hwf Htb Huq Hct Hrf] Hp Hns Hid Hq Hc Hpos. split; [done| | | |].
  - intros q b. rewrite Htb. destruct (decide (q = p)) as [->|].
    + rewrite lookup_insert_eq, Hp. split; intros (v & [= <-] & ->);
        (eexists; split; [done|]; by rewrite ?Hns, ?Hid).
    + by rewrite lookup_insert_ne.
  - intros q r v w Hqv Hrw Hm.
    assert (∀ x y, <[p := u']> us !! x = Some y → ∃ z, us !! x = Some z ∧
      user_ns z = user_ns y ∧ uid z = uid y) as Hback.
    { intros x y. destruct (decide (x = p)) as [->|].
      - rewrite lookup_insert_eq. intros [= <-]. eauto.
      - rewrite lookup_insert_ne by done. eauto. }
    apply Hback in Hqv as (v0 & Hv0 & E1 & E2). apply Hback in Hrw as (w0 & Hw0 & E3 & E4).
    apply (Huq q r v0 w0 Hv0 Hw0). destruct Hm. split; congruence.
  - intros q v. destruct (decide (q = p)) as [->|].
    + rewrite lookup_insert_eq. intros [= <-]. done.
    + rewrite lookup_insert_ne by done. intros Hv. rewrite Hq by done. eauto.
  - intros q Hin. destruct (decide (q = p)) as [->|]; [by rewrite lookup_insert_eq|].
    rewrite lookup_insert_ne by done. apply Hrf, refcnt_positive. rewrite <- Hq by done.
    assert (refcnt q refs' ≠ 0); [|pose proof (refcnt_nonneg q refs'); lia].
    rewrite (refcnt_remove q q refs' Hin), bool_decide_true by done. simpl.
    pose proof (refcnt_nonneg q (remove_one q refs')). lia.
Qed.

Lemma inv_bump us tb refs p u :
  cache_inv us tb refs → us !! p = Some u → Z.of_nat (length refs) < INT_MAX →
  cache_inv (<[p := bump u]> us) tb (p :: refs).
Proof.
  intros Hi Hp Hlen. destruct (inv_count _ _ _ Hi p u Hp) as [Hc Hpos].
  pose proof (refcnt_le p refs).
  assert (__count (bump u) = __count u + 1) as Hb
    by (unfold bump; simpl; apply swrap_small; widths; lia).
  eapply inv_update; [done|done|done|done| | |lia].
  - intros q Hq. rewrite refcnt_cons, bool_decide_false by done. done.
  - rewrite Hb, refcnt_cons, bool_decide_true by done. simpl. lia.
Qed.

Lemma inv_drop us tb refs p u :
  cache_inv us tb refs → us !! p = Some u → p ∈ refs → __count u ≠ 1 →
  Z.of_nat (length refs) ≤ INT_MAX →
  cache_inv (<[p := u <| __count := s32 (__count u - 1) |>]> us) tb (remove_one p refs).
Proof.
  intros Hi Hp Hin Hne Hlen. destruct (inv_count _ _ _ Hi p u Hp) as [Hc Hpos].
  pose proof (refcnt_le p refs).
  assert (s32 (__count u - 1) = __count u - 1) as Hb by (apply swrap_small; widths; lia).
  eapply inv_update; [done|done|done|done| | |simpl; lia].
  - intros q Hq. rewrite (refcnt_remove p q refs Hin), bool_decide_false by done. done.
  - simpl. rewrite Hb, Hc, (refcnt_remove p p refs Hin), bool_decide_true by done. simpl. lia.
Qed.

Lemma inv_insert us tb refs new nu :
  cache_inv us tb refs → us !! new = None → __count nu = 1 →
  (∀ p u, us !! p = Some u → ¬ matches (user_ns nu) (uid nu) u) →
  cache_inv (<[new := nu]> us) (list_add new (entry (user_ns nu) (uid nu)) tb) (new :: refs).
Proof.
  intros Hi Hnew Hone Hno.
  assert (off_list tb new) as Hoff.
  { intros b (u & Hu & _)%(inv_table _ _ _ Hi). congruence. }
  assert (new ∉ refs) as Hnr by (intros [? ?]%(inv_refs _ _ _ Hi); congruence).
  destruct Hi as [Hwf Htb Huq Hct Hrf]. split; [by apply wf_add| | | |].
  - intros q b. rewrite elems_add_in, Htb by done. destruct (decide (q = new)) as [->|].
    + rewrite lookup_insert_eq, Hnew. split; [|intros (v & [= <-] & ->); by left].
      intros [[_ ->]|(u & ? & _)]; [eauto|done].
    + rewrite lookup_insert_ne by done. split; [intros [[-> _]|?]; done|by right].
  - intros p q u v. rewrite !lookup_insert_Some. intros [[<- <-]|[? Hu]] [[<- <-]|[? Hv]] Hm.
    + done.
    + by destruct (Hno q v Hv).
    + destruct (Hno p u Hu). destruct Hm. by split.
    + by eapply Huq.
  - intros p u. rewrite lookup_insert_Some. intros [[<- <-]|[? Hu]].
    + rewrite refcnt_cons, bool_decide_true, refcnt_absent by done. simpl. lia.
    + rewrite refcnt_cons, bool_decide_false by done. apply (Hct p u Hu).
  - intros p Hp. destruct (decide (p = new)) as [->|]; [by rewrite lookup_insert_eq|].
    rewrite lookup_insert_ne by done. apply Hrf. set_solver.
Qed.

Lemma inv_free us tb refs p u :
  cache_inv us tb refs → us !! p = Some u → p ∈ refs → __count u = 1 →
  cache_inv (delete p us) (list_del p tb) (remove_one p refs).
Proof.
  intros Hi Hp Hin Hone.
  assert (on_list tb p) as Hon by (eexists; apply (inv_table _ _ _ Hi); eauto).
  destruct (inv_count _ _ _ Hi p u Hp) as [Hc _].
  rewrite (refcnt_remove p p refs Hin), bool_decide_true in Hc by done. simpl in Hc.
  assert (refcnt p (remove_one p refs) = 0) as Hz by lia.
  destruct Hi as [Hwf Htb Huq Hct Hrf]. split; [by apply wf_del| | | |].
  - intros q b. rewrite elems_del_in, Htb by done. setoid_rewrite lookup_delete_Some.
    naive_solver.
  - intros q r v w. rewrite !lookup_delete_Some. intros [_ ?] [_ ?]. by apply Huq.
  - intros q v. rewrite lookup_delete_Some. intros [Hne Hv].
    destruct (Hct q v Hv) as [E ?]. rewrite (refcnt_remove p q refs Hin), bool_decide_false in E by done.
    done.
  - intros q Hq. destruct (decide (q = p)) as [->|Hne].
    + rewrite (refcnt_remove p p _ Hq), bool_decide_true in Hz by done. simpl in Hz.
      pose proof (refcnt_nonneg p (remove_one p (remove_one p refs))). lia.
    + rewrite lookup_delete_ne by done. apply Hrf. rewrite (remove_one_perm p refs Hin). by right.
Qed.

(** ** The operations *)

(** The struct [alloc_uid] makes. *)
Definition fresh_user (ns id : Z) : user_struct :=
  mkUser 1 0 0 0 0 None None id ns (-1) 0.

Lemma alloc_find_spec c refs ns id :
  cache_inv (users c) (uidhash_table c) refs → uidhash_lock c = false →
  (∃ p u, users c !! p = Some u ∧ matches ns id u ∧
     alloc_find UIDHASH_BITS ns id c = Ok (Some p) (c <| users := <[p := bump u]> (users c) |>)) ∨
  ((∀ p u, users c !! p = Some u → ¬ matches ns id u) ∧
     alloc_find UIDHASH_BITS ns id c = Ok None c).
Proof.
  intros Hi Hl. unfold alloc_find, spin_lock_irq, spin_unlock_irq. mstep. rewrite Hl. simpl.
  destruct (hash_find_spec (c <| uidhash_lock := true |>) (users c) refs ns id)
    as [(p & u & Hp & Hm & ->)|[Hno ->]]; [done|done| |].
  - left. exists p, u. split_and!; [done..|]. destruct c. simpl in *. by subst.
  - right. split; [done|]. destruct c. simpl in *. by subst.
Qed.

Lemma find_user_eq id c :
  find_user UIDHASH_BITS id c = alloc_find UIDHASH_BITS (current_user_ns (ext c)) id c.
Proof. done. Qed.

Lemma alloc_insert_spec c refs ns id new x :
  cache_inv (users c) (uidhash_table c) refs → uidhash_lock c = false →
  kmem_cache_zalloc (ext c) = (Some new, x) → users c !! new = None →
  ∃ c', uidhash_lock c' = false ∧
    ((∃ p u, users c !! p = Some u ∧ matches ns id u ∧
        alloc_insert UIDHASH_BITS ns id c = Ok (Some p) c' ∧
        users c' = <[p := bump u]> (users c) ∧ uidhash_table c' = uidhash_table c) ∨
     ((∀ p u, users c !! p = Some u → ¬ matches ns id u) ∧
        alloc_insert UIDHASH_BITS ns id c = Ok (Some new) c' ∧
        users c' = <[new := fresh_user ns id]> (users c) ∧
        uidhash_table c' = list_add new (entry ns id) (uidhash_table c))).
Proof.
  intros Hi Hl Ez Hnew. unfold alloc_insert, call_ext, spin_lock_irq, spin_unlock_irq,
    uid_hash_insert. mstep. rewrite Ez. simpl.
  erewrite store_user_ok by (simpl; apply lookup_insert_eq). simpl.
  erewrite store_user_ok by (simpl; apply lookup_insert_eq). simpl.
  rewrite Hl, !insert_insert_eq. 
  match goal with |- context [<[new := ?v]> (users c)] => change v with (fresh_user ns id) end.
  match goal with |- context [uid_hash_find _ _ ?c0] => set (c1 := c0) end.
  destruct (hash_find_spec c1 (users c) refs ns id)
    as [(p & u & Hp & Hm & ->)|[Hno ->]]; [done|by apply insert_subseteq| |].
  - assert (p ≠ new) by (intros ->; congruence). simpl.
    erewrite load_user_ok by (simpl; rewrite lookup_insert_ne by done; apply lookup_insert_eq).
    eexists. split; [|left; exists p, u; split_and!; [done|done|done| |done]]; [done|].
    simpl. rewrite insert_insert_ne, delete_insert_id by (done || by rewrite lookup_insert_ne).
    done.
  - eexists. split; [|right; split_and!; [done|done|done|done]]. done.
Qed.

Lemma free_uid_spec c refs p u :
  cache_inv (users c) (uidhash_table c) refs → uidhash_lock c = false →
  users c !! p = Some u →
  ∃ c', free_uid (Some p) c = Ok tt c' ∧ uidhash_lock c' = false ∧
    if decide (__count u = 1)
    then users c' = delete p (users c) ∧ uidhash_table c' = list_del p (uidhash_table c)
    else users c' = <[p := u <| __count := s32 (__count u - 1) |>]> (users c) ∧
         uidhash_table c' = uidhash_table c.
Proof.
  intros Hi Hl Hp. unfold free_uid, atomic_dec_and_lock, spin_lock_irq. mstep.
  rewrite (load_user_ok c p u Hp). case_decide as Hone.
  - rewrite Hone. simpl. rewrite Hl. erewrite store_user_ok by done. simpl.
    unfold free_user, uid_hash_remove, call_ext, spin_unlock_irq. mstep.
    do 2 (erewrite load_user_ok by (simpl; apply lookup_insert_eq); simpl).
    eexists. split; [done|]. simpl. by rewrite delete_insert_eq.
  - destruct (Z.eqb_spec (__count u) 1); [done|]. erewrite store_user_ok by done. eauto.
Qed.

(** ** Interleaved use of the cache *)

(** The cache together with the references its clients hold. *)
Record usys : Type := mkUsys { uc : cache L X; refs : list Z }.

(** A call takes a reference for its caller or gives one back.  [alloc_uid] is
    cut between its critical sections; a block from the slab is not in use. *)
Inductive usys_step : usys → usys → Prop :=
  | step_find_user id r c c' rs :
      Z.of_nat (length rs) < INT_MAX → find_user UIDHASH_BITS id c = Ok r c' →
      usys_step (mkUsys c rs) (mkUsys c' (option_list r ++ rs))
  | step_alloc_find ns id r c c' rs :
      Z.of_nat (length rs) < INT_MAX → alloc_find UIDHASH_BITS ns id c = Ok r c' →
      usys_step (mkUsys c rs) (mkUsys c' (option_list r ++ rs))
  | step_alloc_insert ns id r c c' rs :
      Z.of_nat (length rs) < INT_MAX →
      (∀ new x, kmem_cache_zalloc (ext c) = (Some new, x) → users c !! new = None) →
      alloc_insert UIDHASH_BITS ns id c = Ok r c' →
      usys_step (mkUsys c rs) (mkUsys c' (option_list r ++ rs))
  | step_free_uid p c c' rs :
      p ∈ rs → free_uid (Some p) c = Ok tt c' →
      usys_step (mkUsys c rs) (mkUsys c' (remove_one p rs)).

Definition usys_inv (s : usys) : Prop :=
  uidhash_lock (uc s) = false ∧ Z.of_nat (length (refs s)) ≤ INT_MAX ∧
  cache_inv (users (uc s)) (uidhash_table (uc s)) (refs s).

Lemma find_step_inv c c' ns id r rs :
  usys_inv (mkUsys c rs) → Z.of_nat (length rs) < INT_MAX →
  alloc_find UIDHASH_BITS ns id c = Ok r c' → usys_inv (mkUsys c' (option_list r ++ rs)).
Proof.
  intros (Hl & Hlen & Hi) Hlt E. simpl in *.
  destruct (alloc_find_spec c rs ns id Hi Hl) as [(p & u & Hp & _ & E')|[_ E']];
    rewrite E in E'; simplify_eq/=.
  - split_and!; [done|simpl; lia|]. by apply inv_bump.
  - by split_and!.
Qed.

Lemma usys_inv_step s s' : usys_inv s → usys_step s s' → usys_inv s'.
Proof.
  intros Hs Hst. destruct Hst as [id r c c' rs Hlt E|ns id r c c' rs Hlt E
    |ns id r c c' rs Hlt Hz E|p c c' rs Hin E].
  - rewrite find_user_eq in E. by eapply find_step_inv.
  - by eapply find_step_inv.
  - destruct Hs as (Hl & Hlen & Hi). simpl in *.
    destruct (kmem_cache_zalloc (ext c)) as [[new|] x] eqn:Ez.
    + destruct (alloc_insert_spec c rs ns id new x Hi Hl Ez (Hz _ _ eq_refl))
        as (c2 & Hl2 & [(p & u & Hp & _ & E2 & Hu & Ht)|(Hno & E2 & Hu & Ht)]);
        rewrite E in E2; simplify_eq/=; (split_and!; [done|simpl; lia|]);
        simpl; rewrite Hu, Ht; [by apply inv_bump|apply (inv_insert _ _ _ new (fresh_user ns id)); [done|by eapply Hz|done|done]].
    + unfold alloc_insert in E. mstep. rewrite Ez in E. simplify_eq. by split_and!.
  - destruct Hs as (Hl & Hlen & Hi). simpl in Hl, Hlen, Hi.
    destruct (inv_refs _ _ _ Hi p Hin) as [u Hu].
    destruct (free_uid_spec c rs p u Hi Hl Hu) as (c2 & E2 & Hl2 & Hc). rewrite E in E2.
    simplify_eq. split_and!; [done| |].
    + simpl. rewrite (remove_one_perm p rs Hin) in Hlen. simpl in Hlen. lia.
    + simpl. case_decide; destruct Hc as [-> ->]; [by eapply inv_free|by apply inv_drop].
Qed.

(** The cache after [uid_cache_init] with the references of init and of the
    initial namespace to the root user. *)
Definition usys_init (s : usys) : Prop :=
  ∃ c0 r, users c0 = {[ root_user := root_user_init ]} ∧ uidhash_lock c0 = false ∧
    (∀ b, elems (uidhash_table c0) b = []) ∧
    uid_cache_init UIDHASH_BITS c0 = Ok r (uc s) ∧ refs s = [root_user; root_user].

Lemma init_lists (ns : list Z) (c : cache L X) :
  (∀ b, elems (uidhash_table c) b = []) →
  ∃ t, for_each ns (λ n, modify (λ c, c <| uidhash_table ::= INIT_LIST_HEAD (init_user_ns, n) |>)) c
       = Ok tt (c <| uidhash_table := t |>) ∧ ∀ b, elems t b = [].
Proof.
  revert c. induction ns as [|n ns IH]; intros c Hc; simpl.
  - exists (uidhash_table c). split; [by destruct c|done].
  - mstep. destruct (IH (c <| uidhash_table ::= INIT_LIST_HEAD (init_user_ns, n) |>)) as (t & E & Ht).
    + intros b. simpl. rewrite elems_init. by case_decide.
    + exists t. split; [|done]. rewrite E. by destruct c.
Qed.

Lemma usys_inv_init s : usys_init s → usys_inv s.
Proof.
  destruct s as [c rs]. intros (c0 & r & Hu & Hl & He & E & Hr). simpl in *. subst rs.
  unfold uid_cache_init, spin_lock_irq, spin_unlock_irq, uid_hash_insert in E. mstep.
  destruct (init_lists (seqZ 0 (UIDHASH_SZ UIDHASH_BITS)) c0 He) as (t & Et & Hte).
  mstep. rewrite Et in E. simpl in E. rewrite Hl in E. simplify_eq/=.
  split_and!; [done|simpl; widths; lia|]. simpl. rewrite Hu.
  assert (off_list t root_user) as Hoff by (intros b; rewrite Hte; apply not_elem_of_nil).
  split.
  - apply wf_add; [|done]. split; [intros b; rewrite Hte; apply NoDup_nil_2|].
    intros n b b'. by rewrite Hte, elem_of_nil.
  - intros p b. rewrite elems_add_in by done. rewrite Hte, elem_of_nil.
    setoid_rewrite lookup_singleton_Some. split; [intros [[-> ->]|[]]; eauto|].
    intros (u & [<- <-] & ->). by left.
  - intros p q u v. rewrite !lookup_singleton_Some. by intros [<- _] [<- _].
  - intros p u. rewrite lookup_singleton_Some. by intros [<- <-].
  - intros p Hp. assert (p = root_user) as -> by set_solver. by rewrite lookup_singleton_eq.
Qed.

(** C9. Reference counting is sound: whatever the interleaving of [find_user],
    the two critical sections of [alloc_uid] and [free_uid], every reference a
    client holds is to a live struct whose count is exactly the number of
    references held to it; the struct is on the list of its bucket; and no two
    structs describe the same user of the same namespace. *)
Theorem user_cache_sound s :
  reachable usys_init usys_step s →
  uidhash_lock (uc s) = false ∧
  (∀ p, p ∈ refs s → ∃ u, users (uc s) !! p = Some u ∧ __count u = refcnt p (refs s) ∧
     p ∈ elems (uidhash_table (uc s)) (entry (user_ns u) (uid u))) ∧
  (∀ p q u v, users (uc s) !! p = Some u → users (uc s) !! q = Some v →
     user_ns u = user_ns v → uid u = uid v → p = q).
Proof.
  intros Hr. assert (usys_inv s) as (Hl & _ & Hi)
    by (revert s Hr; apply reachable_inv; eauto using usys_inv_init, usys_inv_step).
  split_and!; [done| |].
  - intros p Hp. destruct (inv_refs _ _ _ Hi p Hp) as [u Hu]. exists u.
    split_and!; [done|by apply (inv_count _ _ _ Hi)|]. apply (inv_table _ _ _ Hi). eauto.
  - intros p q u v Hu Hv ? ?. by eapply (inv_unique _ _ _ Hi p q u v).
Qed.

(** Lookup after creation: in a reachable cache with a free block, [alloc_uid]
    returns the user's struct with one more reference, an existing one or a new
    one with count 1 and no memory limit; a [find_user] in that namespace then
    returns the same struct and takes another reference; and giving back the
    only reference removes the struct, so that it is not found any more. *)
Theorem alloc_find_free s ns id new x :
  reachable usys_init usys_step s → Z.of_nat (length (refs s)) + 2 < INT_MAX →
  kmem_cache_zalloc (ext (uc s)) = (Some new, x) → users (uc s) !! new = None →
  ∃ p u c1, alloc_uid UIDHASH_BITS ns id (uc s) = Ok (Some p) c1 ∧
    users c1 !! p = Some u ∧ user_ns u = ns ∧ uid u = id ∧
    (users (uc s) !! p = None → u = fresh_user ns id) ∧
    (∃ c2, alloc_find UIDHASH_BITS ns id c1 = Ok (Some p) c2) ∧
    (__count u = 1 → ∃ c3, free_uid (Some p) c1 = Ok tt c3 ∧
       alloc_find UIDHASH_BITS ns id c3 = Ok None c3).
Proof.
  intros Hr Hlen Ez Hnew. assert (usys_inv s) as (Hl & _ & Hi)
    by (revert s Hr Hlen Ez Hnew; intros s Hr _ _ _; revert s Hr; apply reachable_inv;
        eauto using usys_inv_init, usys_inv_step).
  assert (∃ p u c1, alloc_uid UIDHASH_BITS ns id (uc s) = Ok (Some p) c1 ∧
    users c1 !! p = Some u ∧ matches ns id u ∧ uidhash_lock c1 = false ∧
    cache_inv (users c1) (uidhash_table c1) (p :: refs s) ∧
    (users (uc s) !! p = None → u = fresh_user ns id)) as
    (p & u & c1 & E & Hu & [Hns Hid] & Hl1 & Hi1 & Hf).
  { unfold alloc_uid, mbind, M_bind.
    destruct (alloc_find_spec (uc s) (refs s) ns id Hi Hl) as [(p & u & Hp & Hm & ->)|[Hno ->]].
    - exists p, (bump u), ((uc s) <| users := <[p := bump u]> (users (uc s)) |>).
      split_and!; [done|apply lookup_insert_eq|done|done|apply inv_bump; (done || lia)|congruence].
    - destruct (alloc_insert_spec (uc s) (refs s) ns id new x Hi Hl Ez Hnew)
        as (c2 & Hl2 & [(p & u & Hp & Hm & _)|(_ & E2 & Hu & Ht)]); [by destruct (Hno p u Hp)|].
      exists new, (fresh_user ns id), c2. rewrite Hu, Ht.
      split_and!; [done|apply lookup_insert_eq|done|done|by apply inv_insert|done]. }
  exists p, u, c1. split_and!; [done..| |].
  - destruct (alloc_find_spec c1 (p :: refs s) ns id Hi1 Hl1)
      as [(q & v & Hq & [? ?] & E2)|[Hno _]]; [|by destruct (Hno p u Hu)].
    assert (q = p) as ->; [|eauto]. apply (inv_unique _ _ _ Hi1 q p v u Hq Hu). split; congruence.
  - intros Hone. destruct (free_uid_spec c1 (p :: refs s) p u Hi1 Hl1 Hu) as (c3 & E3 & Hl3 & Hc).
    rewrite decide_True in Hc by done. destruct Hc as [Hu3 Ht3]. exists c3. split; [done|].
    pose proof (inv_free _ _ _ p u Hi1 Hu ltac:(left) Hone) as Hi3. rewrite <- Hu3, <- Ht3 in Hi3.
    destruct (alloc_find_spec c3 _ ns id Hi3 Hl3) as [(q & v & Hq & [? ?] & _)|[_ E4]]; [|done].
    rewrite Hu3 in Hq. apply lookup_delete_Some in Hq as [Hne Hq].
    destruct Hne. apply (inv_unique _ _ _ Hi1 p q u v Hu Hq). split; congruence.
Qed.
End CacheSpec.

(** ** A concrete kernel *)

(** Blocks are numbered upwards; the current namespace is the initial one. *)
#[export] Instance demo_user_kernel : UserKernel Z := {
  current_user_ns _ := init_user_ns;
  get_user_ns _ x := x;
  put_user_ns _ x := x;
  key_put _ x := x;
  kmem_cache_zalloc x := (Some x, x + 1);
  kmem_cache_free _ x := x
}.

Definition demo_cache : cache (gmap (Z * Z) (list Z)) Z :=
  mkCache {[ root_user := root_user_init ]} ∅ false 100.

Definition demo_booted : usys :=
  mkUsys (res_state (uid_cache_init 3 demo_cache)) [root_user; root_user].

Lemma demo_boot_reachable : reachable (usys_init 3) (usys_step 3) demo_booted.
Proof.
  exists demo_booted. split; [|constructor]. exists demo_cache, 0. split_and!; done.
Qed.

(** User 1000 exists after an allocation. *)
Definition demo_user : usys :=
  mkUsys (res_state (alloc_insert 3 init_user_ns 1000 (uc demo_booted))) [100; root_user; root_user].

Lemma user_cache_sound_witness :
  ∃ u, users (uc demo_user) !! 100 = Some u ∧ __count u = 1.
Proof.
  destruct (user_cache_sound 3 demo_user) as (_ & Href & _).
  - eapply reachable_trans; [apply demo_boot_reachable|]. apply rtc_once.
    apply (step_alloc_insert 3 init_user_ns 1000 (Some 100) (uc demo_booted)); [done| |reflexivity].
    intros new x [= <- _]. reflexivity.
  - destruct (Href 100 ltac:(left)) as (u & Hu & Hc & _). exists u. by split.
Defined.

Lemma alloc_find_free_witness :
  ∃ p c1, alloc_uid 3 init_user_ns 1000 (uc demo_booted) = Ok (Some p) c1 ∧
    ∃ c2, alloc_find 3 init_user_ns 1000 c1 = Ok (Some p) c2.
Proof.
  destruct (alloc_find_free 3 demo_booted init_user_ns 1000 100 101
    demo_boot_reachable ltac:(reflexivity) ltac:(reflexivity) ltac:(reflexivity))
    as (p & u & c1 & E & _ & _ & _ & _ & Hf & _). eauto.
Defined.
