(* ===== verification/TaskWorld.v ===== *)
(** * Tasks, address spaces and users as the memory code of [hw5] sees them

    The fields of [struct task_struct], [struct mm_struct] and
    [struct signal_struct] that [set_mlimit.c], [oom_kill.c] and the limit check
    of [page_alloc.c] read or write, with pointers between them explicit: two
    tasks may share an address space or a signal struct.  The users are those
    of the user cache. *)

From S2P Require Import Prelude KList UserCache.

Definition PAGE_SIZE : Z := 4096.

Record mm_struct : Type := mkMm {
  rss : Z;          (** [get_mm_rss (mm)], in pages *)
  nr_ptes : Z;
  swapents : Z;     (** [get_mm_counter (mm, MM_SWAPENTS)] *)
  total_vm : Z
}.
#[export] Instance mm_struct_eta : Settable mm_struct := λ r,
  mkMm (rss r) (nr_ptes r) (swapents r) (total_vm r).

Record task_struct : Type := mkTask {
  flags : Z;
  exit_state : Z;
  ptrace : Z;
  tgid : Z;
  mm : option Z;
  signal : Z;
  cred_uid : Z;           (** [real_cred->uid] *)
  cred_user : Z;          (** [real_cred->user] *)
  group_leader : Z;
  thread_group : list Z;  (** the threads [while_each_thread] visits, from this one on *)
  children : list Z;
  tif_memdie : bool;
  frozen : bool;
  sigkill_pending : bool
}.
#[export] Instance task_struct_eta : Settable task_struct := λ r,
  mkTask (flags r) (exit_state r) (ptrace r) (tgid r) (mm r) (signal r) (cred_uid r)
    (cred_user r) (group_leader r) (thread_group r) (children r) (tif_memdie r) (frozen r)
    (sigkill_pending r).

Record world (L X : Type) : Type := mkWorld {
  tasks : gmap Z task_struct;
  mms : gmap Z mm_struct;
  oom_score_adj : gmap Z Z;      (** by signal struct *)
  processes : list Z;            (** [for_each_process] *)
  task_locks : list Z;           (** tasks whose [alloc_lock] is held *)
  oom_locked : gmap Z bool;      (** [ZONE_OOM_LOCKED], by zone *)
  ucache : cache L X;
  user : Z;                      (** [uid_t user] of [set_mlimit.c] *)
  start : Z
}.
Arguments mkWorld {L X}.
Arguments tasks {L X}.
Arguments mms {L X}.
Arguments oom_score_adj {L X}.
Arguments processes {L X}.
Arguments task_locks {L X}.
Arguments oom_locked {L X}.
Arguments ucache {L X}.
Arguments user {L X}.
Arguments start {L X}.
#[export] Instance world_eta L X : Settable (world L X) := λ r,
  mkWorld (tasks r) (mms r) (oom_score_adj r) (processes r) (task_locks r) (oom_locked r)
    (ucache r) (user r) (start r).

Section World.
Context {L X : Type} `{KList (Z * Z) L, UserKernel X}.
Implicit Types w : world L X.

Definition load_task (p : Z) : M (world L X) task_struct :=
  ts ← gets tasks;
  match ts !! p with Some t => mret t | None => fail Undefined end.

Definition store_task (p : Z) (f : task_struct → task_struct) : M (world L X) unit :=
  t ← load_task p;
  modify (λ w, w <| tasks ::= <[p := f t]> |>).

(** The address space behind [p->mm]. *)
Definition load_mm (o : option Z) : M (world L X) mm_struct :=
  a ← deref o;
  ms ← gets mms;
  match ms !! a with Some v => mret v | None => fail Undefined end.

(** Code of the user cache. *)
Definition call_cache {A} (op : M (cache L X) A) : M (world L X) A := λ w,
  match op (ucache w) with
  | Ok a c => Ok a (w <| ucache := c |>)
  | Err f c => Err f (w <| ucache := c |>)
  end.

Definition load_usr (o : option Z) : M (world L X) user_struct :=
  p ← deref o;
  call_cache (load_user p).

Definition store_usr (o : option Z) (f : user_struct → user_struct) : M (world L X) unit :=
  p ← deref o;
  call_cache (store_user p f).

(** [get_mm_rss (mm) * PAGE_SIZE], an [unsigned long]. *)
Definition rss_bytes (m : mm_struct) : Z := u32 (rss m * PAGE_SIZE).

Lemma load_task_ok w p t : tasks w !! p = Some t → load_task p w = Ok t w.
Proof. intros Hp. unfold load_task. mstep. by rewrite Hp. Qed.

Lemma store_task_ok w p f t :
  tasks w !! p = Some t → store_task p f w = Ok tt (w <| tasks := <[p := f t]> (tasks w) |>).
Proof. intros Hp. unfold store_task. mstep. rewrite (load_task_ok w p t Hp). by destruct w. Qed.

Lemma load_mm_ok w a m : mms w !! a = Some m → load_mm (Some a) w = Ok m w.
Proof. intros Ha. unfold load_mm. mstep. by rewrite Ha. Qed.

Lemma load_usr_ok w p u : users (ucache w) !! p = Some u → load_usr (Some p) w = Ok u w.
Proof.
  intros Hp. unfold load_usr, call_cache. mstep. rewrite (load_user_ok _ p u Hp). by destruct w.
Qed.

Lemma store_usr_ok w p f u :
  users (ucache w) !! p = Some u →
  store_usr (Some p) f w
  = Ok tt (w <| ucache := (ucache w) <| users := <[p := f u]> (users (ucache w)) |> |>).
Proof.
  intros Hp. unfold store_usr, call_cache. mstep. by rewrite (store_user_ok _ p f u Hp).
Qed.
End World.
