(* ===== verification/Mlimit.v ===== *)
(** * The system call [set_mlimit]: [hw5/arch/arm/kernel/set_mlimit.c]

    Sets a user's memory limit and charges the user with the resident memory
    of the processes it runs. *)

From S2P Require Import Prelude KList UserCache TaskWorld.

Section Mlimit.
Context {L X : Type} `{KListLaws (Z * Z) L, UserKernel X}.
Variable UIDHASH_BITS : Z.
Implicit Types w : world L X.

(** [usr->cumulative_mem += get_mm_rss (p->mm) * PAGE_SIZE] for a process of
    the user. *)
Definition charge_process (usr : option Z) (id : Z) (p : Z) : M (world L X) unit :=
  t ← load_task p;
  if cred_uid t =? id then
    m ← load_mm (mm t);
    store_usr usr (λ u, u <| cumulative_mem := s32 (cumulative_mem u + rss_bytes m) |>)
  else mret tt.

Definition set_mlimit (id max : Z) : M (world L X) Z :=
  usr ← call_cache (find_user UIDHASH_BITS id);
  ps ← gets TaskWorld.processes;
  _ ← for_each ps (charge_process usr id);
  _ ← load_usr usr;
  _ ← modify (λ w, w <| user := id |>);
  _ ← store_usr usr (λ u, u <| mem_max := max |>);
  _ ← load_usr usr;
  _ ← modify (λ w, w <| start := 1 |>);
  u ← load_usr usr;
  mret (cumulative_mem u).

(** The memory the processes of [id] have resident, in bytes. *)
Definition process_bytes w (id p : Z) : Z :=
  match tasks w !! p with
  | Some t =>
      if cred_uid t =? id then
        match mm t with
        | Some a => match mms w !! a with Some m => rss_bytes m | None => 0 end
        | None => 0
        end
      else 0
  | None => 0
  end.

Definition user_bytes w (id : Z) : Z := sumZ (process_bytes w id) (TaskWorld.processes w).

(** Every process has a task struct, and those of [id] have an address space. *)
Definition accountable w (id : Z) (ps : list Z) : Prop :=
  ∀ p, p ∈ ps → ∃ t, tasks w !! p = Some t ∧
    (cred_uid t = id → ∃ a m, mm t = Some a ∧ mms w !! a = Some m).

(** The world with [n] more bytes charged to [u]. *)
Definition charged w (q : Z) (u : user_struct) (n : Z) : world L X :=
  w <| ucache := (ucache w) <| users :=
    <[q := u <| cumulative_mem := s32 (cumulative_mem u + n) |>]> (users (ucache w)) |> |>.

Lemma charged_0 w q u :
  users (ucache w) !! q = Some u → in_s 32 (cumulative_mem u) → charged w q u 0 = w.
Proof.
  intros Hq Hin. unfold charged. rewrite Z.add_0_r, swrap_small by done.
  replace (u <| cumulative_mem := cumulative_mem u |>) with u by (by destruct u).
  rewrite insert_id by done. by destruct w as [? ? ? ? ? ? [] ? ?].
Qed.

Lemma charge_one id q u p t w :
  tasks w !! p = Some t → (cred_uid t = id → ∃ a m, mm t = Some a ∧ mms w !! a = Some m) →
  users (ucache w) !! q = Some u → in_s 32 (cumulative_mem u) →
  charge_process (Some q) id p w = Ok tt (charged w q u (process_bytes w id p)).
Proof.
  intros Ht Hmm Hq Hin. unfold charge_process, mbind, M_bind. rewrite (load_task_ok w p t Ht).
  unfold process_bytes. rewrite Ht. destruct (Z.eqb_spec (cred_uid t) id) as [Hid|Hid].
  - destruct (Hmm Hid) as (a & m & -> & Hm). rewrite (load_mm_ok w a m Hm), Hm.
    by rewrite (store_usr_ok w q _ u Hq).
  - by rewrite charged_0.
Qed.

(** Charging changes the one user's [cumulative_mem] only. *)
Lemma charge_loop ps id q u w :
  accountable w id ps → users (ucache w) !! q = Some u → in_s 32 (cumulative_mem u) →
  for_each ps (charge_process (Some q) id) w
  = Ok tt (charged w q u (sumZ (process_bytes w id) ps)).
Proof.
  revert u w. induction ps as [|p ps IH]; intros u w Hacc Hq Hin; simpl.
  { by rewrite charged_0. }
  destruct (Hacc p ltac:(left)) as (t & Ht & Hmm). unfold mbind, M_bind.
  rewrite (charge_one id q u p t w Ht Hmm Hq Hin).
  erewrite IH; [|intros r Hr; apply Hacc; by right|apply lookup_insert_eq|apply swrap_range; lia].
  unfold charged. simpl. f_equal.
  by rewrite insert_insert_eq, swrap_add_l, Z.add_assoc.
Qed.

Lemma charge_null ps id w :
  accountable w id ps →
  (∃ w', for_each ps (charge_process None id) w = Err NullDeref w') ∨
  for_each ps (charge_process None id) w = Ok tt w.
Proof.
  induction ps as [|p ps IH]; intros Hacc; [by right|]. simpl.
  destruct (Hacc p ltac:(left)) as (t & Ht & Hmm). unfold mbind, M_bind.
  assert (charge_process None id p w = Ok tt w ∨ charge_process None id p w = Err NullDeref w)
    as [->| ->]; [|apply IH; intros r Hr; apply Hacc; by right|eauto].
  unfold charge_process, mbind, M_bind. rewrite (load_task_ok w p t Ht).
  destruct (Z.eqb_spec (cred_uid t) id) as [Hid|Hid]; [|by left]. right.
  destruct (Hmm Hid) as (a & m & -> & Hm). by rewrite (load_mm_ok w a m Hm).
Qed.

(** [set_mlimit] for a known user whose processes have address spaces: the
    limit is stored, the user becomes the limited one, and the resident memory
    of its processes is added to what was already charged and returned.  The
    reference [find_user] took stays: the count has grown by one.  For a user
    that is not in the cache the call dereferences a null pointer. *)
Theorem set_mlimit_spec w id max refs :
  cache_inv UIDHASH_BITS (users (ucache w)) (uidhash_table (ucache w)) refs →
  uidhash_lock (ucache w) = false → accountable w id (TaskWorld.processes w) →
  (∀ p u, users (ucache w) !! p = Some u → in_s 32 (cumulative_mem u)) →
  let ns := current_user_ns (ext (ucache w)) in
  (∀ p u, users (ucache w) !! p = Some u → matches ns id u →
     ∃ w' u', set_mlimit id max w = Ok (s32 (cumulative_mem u + user_bytes w id)) w' ∧
       user w' = id ∧ start w' = 1 ∧ users (ucache w') !! p = Some u' ∧
       mem_max u' = max ∧ cumulative_mem u' = s32 (cumulative_mem u + user_bytes w id) ∧
       __count u' = s32 (__count u + 1)) ∧
  ((∀ p u, users (ucache w) !! p = Some u → ¬ matches ns id u) →
     ∃ w', set_mlimit id max w = Err NullDeref w').
Proof.
  intros Hi Hl Hacc Hin ns. unfold set_mlimit, call_cache. mstep.
  rewrite !find_user_eq. fold ns.
  destruct (alloc_find_spec UIDHASH_BITS (ucache w) refs ns id Hi Hl)
    as [(q & v & Hq & Hm & ->)|[Hno ->]].
  - split; [|intros Hno; by destruct (Hno q v)]. intros p u Hp Hmu.
    assert (p = q) as -> by (destruct Hm, Hmu; apply (inv_unique _ _ _ _ Hi p q u v Hp Hq); split; congruence).
    assert (v = u) as -> by congruence. set (w1 := w <| ucache := _ |>).
    assert (users (ucache w1) !! q = Some (bump u)) as Hq1 by apply lookup_insert_eq.
    change (TaskWorld.processes w1) with (TaskWorld.processes w).
    rewrite (charge_loop (TaskWorld.processes w) id q (bump u) w1 Hacc Hq1 (Hin _ _ Hp)).
    unfold charged. simpl.
    erewrite load_usr_ok by (simpl; apply lookup_insert_eq).
    erewrite store_usr_ok by (simpl; apply lookup_insert_eq).
    erewrite load_usr_ok by (simpl; apply lookup_insert_eq).
    erewrite load_usr_ok by (simpl; apply lookup_insert_eq).
    eexists _, _. split; [done|]. split; [done|]. split; [done|].
    split; [apply lookup_insert_eq|]. done.
  - split; [intros p u Hp Hmu; by destruct (Hno p u)|]. intros _. simpl.
    match goal with |- context [for_each _ _ ?w0] => set (w1 := w0) end.
    change (TaskWorld.processes w1) with (TaskWorld.processes w).
    destruct (charge_null (TaskWorld.processes w) id w1 Hacc) as [[w' ->]| ->]; simpl; eauto.
Qed.
End Mlimit.

(** User 1000 runs one process with 3 resident pages. *)
Definition demo_world : world (gmap (Z * Z) (list Z)) Z :=
  mkWorld {[ 7 := mkTask 0 0 0 7 (Some 70) 700 1000 100 7 [7] [] false false false ]}
    {[ 70 := mkMm 3 1 0 10 ]} {[ 700 := 0 ]} [7] [] ∅ (uc demo_user) 0 0.

Lemma demo_user_inv :
  cache_inv 3 (users (ucache demo_world)) (uidhash_table (ucache demo_world))
    [100; root_user; root_user].
Proof.
  apply (usys_inv_step 3 demo_booted demo_user).
  - apply usys_inv_init. exists demo_cache, 0. split_and!; done.
  - apply (step_alloc_insert 3 init_user_ns 1000 (Some 100) (uc demo_booted)); [done| |reflexivity].
    intros new x [= <- _]. reflexivity.
Qed.

Lemma set_mlimit_spec_witness :
  ∃ w' u', set_mlimit 3 1000 40960 demo_world = Ok 12288 w' ∧
    users (ucache w') !! 100 = Some u' ∧ mem_max u' = 40960 ∧ __count u' = 2.
Proof.
  destruct (set_mlimit_spec 3 demo_world 1000 40960 [100; root_user; root_user] demo_user_inv)
    as [Hok _].
  - reflexivity.
  - intros p Hp. apply list_elem_of_singleton in Hp as ->. eexists. split; [reflexivity|]. eauto.
  - intros p u Hp.
    assert (p = 100 ∨ p = 1) as [-> | ->]; [|vm_compute in Hp; injection Hp as <-; widths; simpl; lia..].
    destruct (decide (p = 100)); [by left|]. destruct (decide (p = 1)); [by right|].
    exfalso. change (users (ucache demo_world)) with (users (uc demo_user)) in Hp.
    assert (users (uc demo_user) = <[100 := fresh_user init_user_ns 1000]> {[ 1 := root_user_init ]}) as E
      by (vm_compute; reflexivity).
    rewrite E, lookup_insert_ne, lookup_singleton_ne in Hp by done. done.
  - destruct (Hok 100 (fresh_user init_user_ns 1000) ltac:(vm_compute; reflexivity) ltac:(by split))
      as (w' & u' & E & _ & _ & Hu & Hmax & _ & Hc).
    exists w', u'. split_and!; [exact E|exact Hu|exact Hmax|exact Hc].
Defined.
