(* ===== verification/OomKill.v ===== *)
(** * The OOM killer with per-user limits: [hw5/mm/oom_kill.c]

    Scoring of tasks, selection and killing of a victim, the zone locks that
    keep OOM kills from running in parallel, and the entry points.  The
    homework restricts the selection to the processes of the limited user.

    What the file asks of the rest of the kernel (capabilities, cgroups,
    cpusets and memory policies, node and zone tables, the notifier chain, the
    sysctl settings) is the parameter [OomEnv].  The spin lock of a task
    ([task_lock]) is modelled; [tasklist_lock] is only taken for reading and
    does not appear.  Messages are not modelled, but the dereferences in their
    arguments are. *)

From S2P Require Import Prelude KList UserCache TaskWorld.

Definition PF_EXITING : Z := 4.
Definition PF_KTHREAD : Z := 2097152.
Definition OOM_SCORE_ADJ_MIN : Z := -1000.

Inductive oom_constraint : Type :=
  | CONSTRAINT_NONE
  | CONSTRAINT_CPUSET
  | CONSTRAINT_MEMORY_POLICY
  | CONSTRAINT_MEMCG.

#[export] Instance oom_constraint_eq_dec : EqDecision oom_constraint.
Proof. solve_decision. Defined.

Class OomEnv : Type := {
  CONFIG_NUMA : bool;
  current : Z;
  is_global_init : Z → bool;
  task_in_mem_cgroup : Z → Z → bool;
  mempolicy_nodemask_intersects : Z → list Z → bool;
  cpuset_mems_allowed_intersects : Z → Z → bool;
  has_capability_sys_admin : Z → bool;
  oom_notify_freed : Z;
  totalram_pages : Z;
  total_swap_pages : Z;
  node_spanned_pages : Z → Z;
  N_HIGH_MEMORY_nodes : list Z;
  cpuset_current_mems_allowed : list Z;
  gfp_zone : Z → Z;
  zonelist_zones : Z → Z → option (list Z) → list Z;
  cpuset_zone_allowed_softwall : Z → Z → bool;
  populated_zones : list Z;
  mem_cgroup_get_limit : Z → Z;
  ratelimit_ok : bool;
  GFP_THISNODE_flag : Z;
  PT_TRACE_EXIT : Z;
  sysctl_panic_on_oom : Z;
  sysctl_oom_kill_allocating_task : Z;
  sysctl_oom_dump_tasks : Z
}.

(** The pointer [select_bad_process] returns: null, [ERR_PTR (-1UL)], a task. *)
Inductive victim : Type :=
  | NoVictim
  | InFlight
  | Victim (p : Z).

(** The arithmetic of [oom_badness] on 32-bit [long]s; [limited] says that the
    user has a memory limit. *)
Definition badness_points (limited admin : bool) (m : mm_struct) (adj totalpages : Z) : Z :=
  let points :=
    if limited then s32 (rss m)
    else
      let points := s32 (u32 (rss m + nr_ptes m)) in
      let points := s32 (points + swapents m) in
      let points := s32 (points * 1000) in
      s32 (u32 points / totalpages) in
  let points := if admin then s32 (points - 30) else points in
  let points := if limited then points else s32 (points + adj) in
  if points <=? 0 then 1 else if points <? 1000 then points else 1000.

Section OomKill.
Context {L X : Type} `{KList (Z * Z) L, UserKernel X} `{OomEnv}.
Variable UIDHASH_BITS : Z.

Definition load_adj (sig : Z) : M (world L X) Z :=
  a ← gets oom_score_adj;
  match a !! sig with Some v => mret v | None => fail Undefined end.

(** The critical sections of [siglock]. *)
Definition compare_swap_oom_score_adj (old_val new_val : Z) : M (world L X) unit :=
  t ← load_task current;
  adj ← load_adj (signal t);
  if adj =? old_val
  then modify (λ w, w <| oom_score_adj ::= <[signal t := new_val]> |>)
  else mret tt.

Definition test_set_oom_score_adj (new_val : Z) : M (world L X) Z :=
  t ← load_task current;
  old_val ← load_adj (signal t);
  _ ← modify (λ w, w <| oom_score_adj ::= <[signal t := new_val]> |>);
  mret old_val.

Definition task_lock (p : Z) : M (world L X) unit :=
  ls ← gets task_locks;
  if decide (p ∈ ls) then fail Blocked
  else modify (λ w, w <| task_locks ::= cons p |>).

Definition task_unlock (p : Z) : M (world L X) unit :=
  modify (λ w, w <| task_locks ::= remove_one p |>).

Definition has_intersects_mems_allowed (tsk : Z) (mask : option (list Z)) : M (world L X) bool :=
  if CONFIG_NUMA then
    t ← load_task tsk;
    mret (existsb (λ p, match mask with
                        | Some m => mempolicy_nodemask_intersects p m
                        | None => cpuset_mems_allowed_intersects current p
                        end) (thread_group t))
  else mret true.

Fixpoint find_lock_mm (ts : list Z) : M (world L X) (option Z) :=
  match ts with
  | [] => mret None
  | t :: ts' =>
      _ ← task_lock t;
      v ← load_task t;
      match mm v with
      | Some _ => mret (Some t)
      | None => _ ← task_unlock t; find_lock_mm ts'
      end
  end.

Definition find_lock_task_mm (p : Z) : M (world L X) (option Z) :=
  t ← load_task p;
  find_lock_mm (thread_group t).

Definition oom_unkillable_task (p : Z) (memcg : option Z) (nodemask : option (list Z))
    : M (world L X) bool :=
  if is_global_init p then mret true
  else
    t ← load_task p;
    if has_flag (flags t) PF_KTHREAD then mret true
    else if (match memcg with Some g => negb (task_in_mem_cgroup p g) | None => false end)
    then mret true
    else
      i ← has_intersects_mems_allowed p nodemask;
      mret (negb i).

Definition oom_badness (p : Z) (memcg : option Z) (nodemask : option (list Z)) (totalpages : Z)
    : M (world L X) Z :=
  un ← oom_unkillable_task p memcg nodemask;
  if un : bool then mret 0
  else
    r ← find_lock_task_mm p;
    match r with
    | None => mret 0
    | Some p =>
        t ← load_task p;
        adj ← load_adj (signal t);
        if adj =? OOM_SCORE_ADJ_MIN then
          _ ← task_unlock p;
          mret 0
        else
          let totalpages := if totalpages =? 0 then 1 else totalpages in
          u ← load_usr (Some (cred_user t));
          m ← load_mm (mm t);
          _ ← task_unlock p;
          mret (badness_points (negb (mem_max u =? -1)) (has_capability_sys_admin p) m adj totalpages)
    end.

(** The constraint and [*totalpages]. *)
Definition constrained_alloc (zonelist : option Z) (gfp_mask : Z) (nodemask : option (list Z))
    : oom_constraint * Z :=
  let all := u32 (totalram_pages + total_swap_pages) in
  let spanned ns := u32 (total_swap_pages + sumZ node_spanned_pages ns) in
  if CONFIG_NUMA then
    match zonelist with
    | None => (CONSTRAINT_NONE, all)
    | Some zl =>
        if has_flag gfp_mask GFP_THISNODE_flag then (CONSTRAINT_NONE, all)
        else
          let zones := zonelist_zones zl (gfp_zone gfp_mask) nodemask in
          let cpuset_limited := existsb (λ z, negb (cpuset_zone_allowed_softwall z gfp_mask)) zones in
          let by_cpuset :=
            if cpuset_limited then (CONSTRAINT_CPUSET, spanned cpuset_current_mems_allowed)
            else (CONSTRAINT_NONE, all) in
          match nodemask with
          | Some nm =>
              if forallb (λ n, bool_decide (n ∈ nm)) N_HIGH_MEMORY_nodes then by_cpuset
              else (CONSTRAINT_MEMORY_POLICY, spanned nm)
          | None => by_cpuset
          end
    end
  else (CONSTRAINT_NONE, all).

(** The loop over the processes of the limited user. *)
Fixpoint scan_user (ps : list Z) (id totalpages : Z) (memcg : option Z) (nodemask : option (list Z))
    (chosen : victim) (ppoints : Z) : M (world L X) (victim * Z) :=
  match ps with
  | [] => mret (chosen, ppoints)
  | p :: ps' =>
      t ← load_task p;
      if cred_uid t =? id then
        points ← oom_badness p memcg nodemask totalpages;
        if ppoints <? points
        then scan_user ps' id totalpages memcg nodemask (Victim p) points
        else scan_user ps' id totalpages memcg nodemask chosen ppoints
      else scan_user ps' id totalpages memcg nodemask chosen ppoints
  end.

(** The body of the loop over all threads up to the scoring: skip the thread,
    stop the search, or score it, with the choice so far. *)
Inductive verdict : Type :=
  | Skip
  | Stop
  | Score (chosen : victim) (ppoints : Z).

Definition examine (p : Z) (memcg : option Z) (nodemask : option (list Z)) (force_kill : bool)
    (chosen : victim) (ppoints : Z) : M (world L X) verdict :=
  t ← load_task p;
  if negb (exit_state t =? 0) then mret Skip
  else
    un ← oom_unkillable_task p memcg nodemask;
    if un : bool then mret Skip
    else
      _ ← (if tif_memdie t && frozen t
           then store_task p (λ t, t <| frozen := false |>) else mret tt);
      if tif_memdie t && negb force_kill then mret Stop
      else
        match mm t with
        | None => mret Skip
        | Some _ =>
            if has_flag (flags t) PF_EXITING then
              if p =? current then mret (Score (Victim p) 1000)
              else if force_kill then mret (Score chosen ppoints)
              else
                g ← load_task (group_leader t);
                if has_flag (ptrace g) PT_TRACE_EXIT then mret (Score chosen ppoints)
                else mret Stop
            else mret (Score chosen ppoints)
        end.

Fixpoint scan_threads (ps : list Z) (totalpages : Z) (memcg : option Z) (nodemask : option (list Z))
    (force_kill : bool) (chosen : victim) (ppoints : Z) : M (world L X) (victim * Z) :=
  match ps with
  | [] => mret (chosen, ppoints)
  | p :: ps' =>
      v ← examine p memcg nodemask force_kill chosen ppoints;
      match v with
      | Skip => scan_threads ps' totalpages memcg nodemask force_kill chosen ppoints
      | Stop => mret (InFlight, ppoints)
      | Score chosen ppoints =>
          points ← oom_badness p memcg nodemask totalpages;
          if ppoints <? points
          then scan_threads ps' totalpages memcg nodemask force_kill (Victim p) points
          else scan_threads ps' totalpages memcg nodemask force_kill chosen ppoints
      end
  end.

(** [do_each_thread]: the threads of every process. *)
Definition all_threads (w : world L X) : list Z :=
  concat (map (λ g, match tasks w !! g with Some t => thread_group t | None => [] end)
              (TaskWorld.processes w)).

Definition select_bad_process (totalpages : Z) (memcg : option Z) (nodemask : option (list Z))
    (force_kill : bool) : M (world L X) (victim * Z) :=
  w ← get;
  let id := user w in
  this_user ← (if id =? 0 then mret None
               else
                 r ← call_cache (find_user UIDHASH_BITS id);
                 _ ← load_usr r;
                 mret r);
  match this_user with
  | Some q =>
      u ← load_usr (Some q);
      if negb (mem_max u =? -1)
      then scan_user (TaskWorld.processes w) id totalpages memcg nodemask NoVictim 0
      else mret (NoVictim, 0)
  | None => scan_threads (all_threads w) totalpages memcg nodemask force_kill NoVictim 0
  end.

Definition dump_task (memcg : option Z) (nodemask : option (list Z)) (p : Z) : M (world L X) unit :=
  un ← oom_unkillable_task p memcg nodemask;
  if un : bool then mret tt
  else
    r ← find_lock_task_mm p;
    match r with
    | None => mret tt
    | Some task =>
        t ← load_task task;
        _ ← load_mm (mm t);
        _ ← load_adj (signal t);
        task_unlock task
    end.

Definition dump_tasks (memcg : option Z) (nodemask : option (list Z)) : M (world L X) unit :=
  ps ← gets TaskWorld.processes;
  for_each ps (dump_task memcg nodemask).

Definition dump_header (memcg : option Z) (nodemask : option (list Z)) : M (world L X) unit :=
  _ ← task_lock current;
  t ← load_task current;
  _ ← load_adj (signal t);
  _ ← task_unlock current;
  if sysctl_oom_dump_tasks =? 0 then mret tt else dump_tasks memcg nodemask.

(** [do_send_sig_info (SIGKILL, SEND_SIG_FORCED, p, true)]. *)
Definition send_sigkill (p : Z) : M (world L X) unit :=
  store_task p (λ t, t <| sigkill_pending := true |>).

Definition set_tif_memdie (p : Z) : M (world L X) unit :=
  store_task p (λ t, t <| tif_memdie := true |>).

(** The child with a different address space that scores highest. *)
Fixpoint scan_children (cs : list Z) (p : Z) (totalpages : Z) (memcg : option Z)
    (nodemask : option (list Z)) (vic victim_points : Z) : M (world L X) (Z * Z) :=
  match cs with
  | [] => mret (vic, victim_points)
  | child :: cs' =>
      c ← load_task child;
      t ← load_task p;
      if decide (mm c = mm t) then scan_children cs' p totalpages memcg nodemask vic victim_points
      else
        child_points ← oom_badness child memcg nodemask totalpages;
        if victim_points <? child_points
        then scan_children cs' p totalpages memcg nodemask child child_points
        else scan_children cs' p totalpages memcg nodemask vic victim_points
  end.

Fixpoint scan_group (ts : list Z) (p : Z) (totalpages : Z) (memcg : option Z)
    (nodemask : option (list Z)) (vic victim_points : Z) : M (world L X) (Z * Z) :=
  match ts with
  | [] => mret (vic, victim_points)
  | t :: ts' =>
      v ← load_task t;
      '(vic, victim_points) ← scan_children (children v) p totalpages memcg nodemask vic victim_points;
      scan_group ts' p totalpages memcg nodemask vic victim_points
  end.

(** One process of the last loop: killed when it shares the victim's memory. *)
Definition kill_sharing (m : option Z) (vic : Z) (p : Z) : M (world L X) unit :=
  t ← load_task p;
  v ← load_task vic;
  if bool_decide (mm t = m) && negb (tgid t =? tgid v) && negb (has_flag (flags t) PF_KTHREAD) then
    adj ← load_adj (signal t);
    if adj =? OOM_SCORE_ADJ_MIN then mret tt
    else
      _ ← task_lock p;
      _ ← task_unlock p;
      send_sigkill p
  else mret tt.

(** From the choice of the victim on. *)
Definition kill_victim (vic : Z) : M (world L X) unit :=
  r ← find_lock_task_mm vic;
  match r with
  | None => mret tt
  | Some vic =>
      v ← load_task vic;
      _ ← load_mm (mm v);
      _ ← task_unlock vic;
      ps ← gets TaskWorld.processes;
      _ ← for_each ps (kill_sharing (mm v) vic);
      _ ← set_tif_memdie vic;
      send_sigkill vic
  end.

Definition oom_kill_process (p : Z) (totalpages : Z) (memcg : option Z) (nodemask : option (list Z))
    : M (world L X) unit :=
  t ← load_task p;
  if has_flag (flags t) PF_EXITING then set_tif_memdie p
  else
    _ ← (if ratelimit_ok then dump_header memcg nodemask else mret tt);
    _ ← task_lock p;
    _ ← task_unlock p;
    '(vic, _) ← scan_group (thread_group t) p totalpages memcg nodemask p 0;
    kill_victim vic.

Definition check_panic_on_oom (constraint : oom_constraint) (nodemask : option (list Z))
    : M (world L X) unit :=
  if sysctl_panic_on_oom =? 0 then mret tt
  else if negb (sysctl_panic_on_oom =? 2) && bool_decide (constraint ≠ CONSTRAINT_NONE) then mret tt
  else
    _ ← dump_header None nodemask;
    fail KernelPanic.

(** [p->real_cred->user->cumulative_mem -= get_mm_rss (p->mm) * PAGE_SIZE]. *)
Definition uncharge (p : Z) : M (world L X) unit :=
  t ← load_task p;
  m ← load_mm (mm t);
  store_usr (Some (cred_user t))
    (λ u, u <| cumulative_mem := s32 (cumulative_mem u - rss_bytes m) |>).

Definition mem_cgroup_out_of_memory (memcg : Z) : M (world L X) unit :=
  c ← load_task current;
  if sigkill_pending c then set_tif_memdie current
  else
    _ ← check_panic_on_oom CONSTRAINT_MEMCG None;
    let limit := u32 (Z.shiftr (mem_cgroup_get_limit memcg) 12) in
    '(v, _) ← select_bad_process limit (Some memcg) None false;
    match v with
    | Victim p =>
        _ ← uncharge p;
        oom_kill_process p limit (Some memcg) None
    | _ => mret tt
    end.

Definition zone_is_oom_locked (w : world L X) (z : Z) : bool := default false (oom_locked w !! z).

(** Lock all of [zs], or none when one of them is locked. *)
Definition try_set_zones_oom (zs : list Z) : M (world L X) Z :=
  w ← get;
  if existsb (zone_is_oom_locked w) zs then mret 0
  else
    _ ← for_each zs (λ z, modify (λ w, w <| oom_locked ::= <[z := true]> |>));
    mret 1.

Definition clear_zones_oom (zs : list Z) : M (world L X) unit :=
  for_each zs (λ z, modify (λ w, w <| oom_locked ::= <[z := false]> |>)).

Definition try_set_zonelist_oom (zonelist gfp_mask : Z) : M (world L X) Z :=
  try_set_zones_oom (zonelist_zones zonelist (gfp_zone gfp_mask) None).

Definition clear_zonelist_oom (zonelist gfp_mask : Z) : M (world L X) unit :=
  clear_zones_oom (zonelist_zones zonelist (gfp_zone gfp_mask) None).

Definition try_set_system_oom : M (world L X) Z := try_set_zones_oom populated_zones.

Definition clear_system_oom : M (world L X) unit := clear_zones_oom populated_zones.

Definition out_of_memory (zonelist : option Z) (gfp_mask order : Z) (nodemask : option (list Z))
    (force_kill : bool) : M (world L X) unit :=
  if 0 <? oom_notify_freed then mret tt
  else
    c ← load_task current;
    if sigkill_pending c then set_tif_memdie current
    else
      let '(constraint, totalpages) := constrained_alloc zonelist gfp_mask nodemask in
      let mpol_mask :=
        if decide (constraint = CONSTRAINT_MEMORY_POLICY) then nodemask else None in
      _ ← check_panic_on_oom constraint mpol_mask;
      un ← (if sysctl_oom_kill_allocating_task =? 0 then mret true
            else oom_unkillable_task current None nodemask);
      w ← get;
      if negb un && bool_decide (is_Some (mm c)) then
        _ ← oom_kill_process current totalpages None nodemask;
        if cred_uid c =? user w then uncharge current else mret tt
      else
        '(v, _) ← select_bad_process totalpages None mpol_mask force_kill;
        match v with
        | NoVictim =>
            _ ← dump_header None mpol_mask;
            fail KernelPanic
        | InFlight => mret tt
        | Victim p =>
            t ← load_task p;
            _ ← (if cred_uid t =? user w then uncharge p else mret tt);
            oom_kill_process p totalpages None nodemask
        end.

Definition pagefault_out_of_memory : M (world L X) unit :=
  ok ← try_set_system_oom;
  if ok =? 0 then mret tt
  else
    _ ← out_of_memory None 0 0 None false;
    clear_system_oom.

End OomKill.

(** ** The score of a task *)

Section ScoreSpec.
Context {L X : Type} `{KListLaws (Z * Z) L, UserKernel X} `{OomEnv}.
Implicit Types w : world L X.

(** Pointers lead to live objects: the threads of a group, the children, and
    what a task refers to. *)
Record world_wf w : Prop := {
  wf_threads p t q : tasks w !! p = Some t → q ∈ thread_group t → is_Some (tasks w !! q);
  wf_children p t q : tasks w !! p = Some t → q ∈ children t → is_Some (tasks w !! q);
  wf_processes p : p ∈ TaskWorld.processes w → is_Some (tasks w !! p);
  wf_mm p t a : tasks w !! p = Some t → mm t = Some a → is_Some (mms w !! a);
  wf_signal p t : tasks w !! p = Some t → is_Some (oom_score_adj w !! signal t);
  wf_user p t : tasks w !! p = Some t → is_Some (users (ucache w) !! cred_user t)
}.

Definition intersects (t : task_struct) (mask : option (list Z)) : bool :=
  if CONFIG_NUMA then
    existsb (λ p, match mask with
                  | Some m => mempolicy_nodemask_intersects p m
                  | None => cpuset_mems_allowed_intersects current p
                  end) (thread_group t)
  else true.

Definition unkillable (p : Z) (t : task_struct) (memcg : option Z) (mask : option (list Z)) : bool :=
  is_global_init p || has_flag (flags t) PF_KTHREAD
  || (match memcg with Some g => negb (task_in_mem_cgroup p g) | None => false end)
  || negb (intersects t mask).

(** The first thread of the group that still has an address space. *)
Definition mm_thread w (t : task_struct) : option Z :=
  List.find (λ q, match tasks w !! q with
                  | Some v => bool_decide (is_Some (mm v))
                  | None => false
                  end) (thread_group t).

(** The score as a function of the world. *)
Definition badness w (p : Z) (memcg : option Z) (mask : option (list Z)) (totalpages : Z) : Z :=
  match tasks w !! p with
  | None => 0
  | Some t =>
      if unkillable p t memcg mask then 0
      else
        match mm_thread w t with
        | None => 0
        | Some q =>
            match tasks w !! q with
            | None => 0
            | Some v =>
                let adj := default 0 (oom_score_adj w !! signal v) in
                if adj =? OOM_SCORE_ADJ_MIN then 0
                else
                  let u := default zero_user (users (ucache w) !! cred_user v) in
                  let m := default (mkMm 0 0 0 0) (mm v ≫= λ a, mms w !! a) in
                  badness_points (negb (mem_max u =? -1)) (has_capability_sys_admin q) m adj
                    (if totalpages =? 0 then 1 else totalpages)
            end
        end
  end.

Lemma badness_points_range limited admin m adj total :
  1 ≤ badness_points limited admin m adj total ≤ 1000.
Proof.
  unfold badness_points.
  match goal with |- context [if ?x <=? 0 then 1 else _] => generalize x; intros pts end.
  destruct (Z.leb_spec pts 0); [lia|]. destruct (Z.ltb_spec pts 1000); lia.
Qed.

Lemma badness_range w p memcg mask total : 0 ≤ badness w p memcg mask total ≤ 1000.
Proof.
  unfold badness. repeat case_match; try lia;
    match goal with |- context [badness_points ?a ?b ?c ?d ?e] =>
      pose proof (badness_points_range a b c d e) end; lia.
Qed.

Lemma unkillable_ok w p t memcg mask :
  tasks w !! p = Some t →
  oom_unkillable_task p memcg mask w = Ok (unkillable p t memcg mask) w.
Proof.
  intros Hp. unfold oom_unkillable_task, unkillable, intersects, has_intersects_mems_allowed.
  destruct (is_global_init p); [done|]. unfold mbind, M_bind, mret, M_ret.
  rewrite (load_task_ok w p t Hp). destruct (has_flag _ _); [done|]. simpl.
  destruct (match memcg with Some g => _ | None => false end); [done|].
  destruct CONFIG_NUMA; [|done]. by rewrite (load_task_ok w p t Hp).
Qed.

Lemma find_lock_mm_ok w ts :
  (∀ q, q ∈ ts → is_Some (tasks w !! q)) → task_locks w = [] →
  find_lock_mm ts w
  = match List.find (λ q, match tasks w !! q with
                          | Some v => bool_decide (is_Some (mm v)) | None => false end) ts with
    | Some q => Ok (Some q) (w <| task_locks := [q] |>)
    | None => Ok None w
    end.
Proof.
  intros Hts Hl. induction ts as [|q ts IH]; [done|]. simpl.
  destruct (Hts q ltac:(left)) as [v Hv].
  unfold task_lock, task_unlock. mstep. rewrite Hl, Hv. simpl.
  rewrite (load_task_ok _ q v) by done. destruct (mm v) as [a|] eqn:Em.
  - rewrite bool_decide_true by eauto. simpl. unfold mret, M_ret. f_equal.
    destruct w; simpl in *. by subst.
  - rewrite bool_decide_false by (intros [? ?]; done).
    assert (w <| task_locks ::= cons q |> <| task_locks ::= remove_one q |> = w) as ->.
    { destruct w; simpl in *. unfold modify_field; simpl. by rewrite decide_True. }
    apply IH. intros r Hr. apply Hts. by right.
Qed.

Lemma mm_thread_some w t q :
  mm_thread w t = Some q →
  q ∈ thread_group t ∧ ∃ v a, tasks w !! q = Some v ∧ mm v = Some a.
Proof.
  intros [Hin Hq]%find_some. split; [by apply list_elem_of_In|].
  destruct (tasks w !! q) as [v|]; [|done]. apply bool_decide_eq_true in Hq as [a Ha]. eauto.
Qed.

Lemma oom_badness_ok w p t memcg mask total :
  world_wf w → task_locks w = [] → tasks w !! p = Some t →
  oom_badness p memcg mask total w = Ok (badness w p memcg mask total) w.
Proof.
  intros Hwf Hl Hp. unfold oom_badness, badness, mbind, M_bind.
  rewrite (unkillable_ok w p t) by done. rewrite Hp. destruct (unkillable p t memcg mask); [done|].
  unfold find_lock_task_mm, mbind, M_bind. rewrite (load_task_ok w p t Hp).
  rewrite find_lock_mm_ok by (done || (intros q Hq; by eapply wf_threads)).
  fold (mm_thread w t). destruct (mm_thread w t) as [q|] eqn:Eq; [|done].
  apply mm_thread_some in Eq as [Hin (v & a & Hv & Ha)]. rewrite Hv.
  rewrite (load_task_ok _ q v) by done.
  destruct (wf_signal _ Hwf q v Hv) as [adj Hadj]. unfold load_adj. mstep. rewrite Hadj. simpl.
  assert (w <| task_locks := [q] |> <| task_locks ::= remove_one q |> = w) as Hunlock.
  { destruct w; simpl in *. unfold modify_field; simpl. rewrite decide_True by done. by subst. }
  destruct (adj =? OOM_SCORE_ADJ_MIN); [unfold task_unlock, modify; by rewrite Hunlock|].
  destruct (wf_user _ Hwf q v Hv) as [u Hu]. rewrite (load_usr_ok _ _ u) by done.
  rewrite Ha. destruct (wf_mm _ Hwf q v a Hv Ha) as [m Hm]. rewrite (load_mm_ok _ a m) by done.
  unfold task_unlock, modify. rewrite Hunlock, Hu. simpl. by rewrite Hm.
Qed.

(** The score of a task: in a well-formed world without task locks held,
    [oom_badness] returns, changes nothing and holds no lock afterwards.  The
    score is between 0 and 1000; it is 0 exactly for tasks that must not be
    killed: unkillable ones, tasks whose threads have no address space left,
    and those whose adjustment is the minimum. *)
Theorem oom_badness_score w p t memcg mask total :
  world_wf w → task_locks w = [] → tasks w !! p = Some t →
  ∃ b, oom_badness p memcg mask total w = Ok b w ∧ 0 ≤ b ≤ 1000 ∧
    (b = 0 ↔ unkillable p t memcg mask = true ∨ mm_thread w t = None ∨
       ∃ q v, mm_thread w t = Some q ∧ tasks w !! q = Some v ∧
              oom_score_adj w !! signal v = Some OOM_SCORE_ADJ_MIN).
Proof.
  intros Hwf Hl Hp. exists (badness w p memcg mask total).
  split; [by eapply oom_badness_ok|]. split; [apply badness_range|].
  unfold badness. rewrite Hp. destruct (unkillable p t memcg mask); [naive_solver|].
  destruct (mm_thread w t) as [q|] eqn:Eq; [|naive_solver].
  apply mm_thread_some in Eq as [Hin (v & a & Hv & Ha)]. rewrite Hv.
  destruct (wf_signal _ Hwf q v Hv) as [adj Hadj]. rewrite Hadj. simpl.
  destruct (Z.eqb_spec adj OOM_SCORE_ADJ_MIN) as [->|Hne].
  - split; [|done]. intros _. right; right. exists q, v. by rewrite Hadj.
  - match goal with |- context [badness_points ?a ?b ?c ?d ?e] =>
      pose proof (badness_points_range a b c d e) end.
    split; [lia|]. intros [?|[?|(q' & v' & [= <-] & Hv' & Hadj')]]; [done..|]. congruence.
Qed.

(** The score without overflow is the documented one.  For a user without a
    limit: the share of memory in thousandths, less 30 for the administrator,
    plus the adjustment; for a limited user: the resident pages, less 30 for
    the administrator; in both cases cut to 1..1000.  So every task of a
    limited user with at least 1030 resident pages (4 MB) has the same score
    1000, however much memory it uses. *)
Theorem badness_points_spec admin m adj total :
  0 ≤ rss m → 0 ≤ nr_ptes m → 0 ≤ swapents m → -1000 ≤ adj ≤ 1000 → 1 ≤ total →
  (rss m + nr_ptes m + swapents m) * 1000 ≤ INT_MAX - 1000 →
  let bonus := if admin : bool then 30 else 0 in
  badness_points false admin m adj total
    = Z.max 1 (Z.min 1000 ((rss m + nr_ptes m + swapents m) * 1000 / total - bonus + adj)) ∧
  badness_points true admin m adj total = Z.max 1 (Z.min 1000 (rss m - bonus)) ∧
  (1030 ≤ rss m → badness_points true admin m adj total = 1000).
Proof.
  intros Hr Hp Hs Ha Ht Hmax bonus.
  assert (∀ x, (if x <=? 0 then 1 else if x <? 1000 then x else 1000) = Z.max 1 (Z.min 1000 x)) as Hclamp
    by (intros x; destruct (Z.leb_spec x 0), (Z.ltb_spec x 1000); lia).
  set (n := rss m + nr_ptes m + swapents m) in *.
  assert (0 ≤ n * 1000 / total ≤ n * 1000).
  { split; [apply Z.div_pos; lia|]. apply Z.div_le_upper_bound; nia. }
  assert (∀ x, -1030 ≤ x ≤ INT_MAX → s32 x = x) as Hs32 by (intros; apply swrap_small; widths; lia).
  assert (∀ x, 0 ≤ x ≤ INT_MAX → u32 x = x) as Hu32 by (intros; apply uwrap_small; widths; lia).
  assert (badness_points true admin m adj total = Z.max 1 (Z.min 1000 (rss m - bonus))) as E2.
  { unfold badness_points. rewrite Hclamp, (Hs32 (rss m)) by lia.
    subst bonus. destruct admin; rewrite ?Hs32 by lia; f_equal; lia. }
  split_and!; [|done|subst bonus; rewrite E2; destruct admin; lia].
  unfold badness_points. rewrite Hclamp, (Hu32 (rss m + nr_ptes m)), (Hs32 (rss m + nr_ptes m)) by lia.
  rewrite (Hs32 (rss m + nr_ptes m + swapents m)) by lia. fold n.
  rewrite (Hs32 (n * 1000)), (Hu32 (n * 1000)), (Hs32 (n * 1000 / total)) by lia.
  generalize dependent (n * 1000 / total). intros q Hq. subst bonus.
  destruct admin; [rewrite (Hs32 (q - 30)), (Hs32 (q - 30 + adj))|rewrite (Hs32 (q + adj))]; lia.
Qed.

(** ** Selecting a victim *)

(** The first element with the highest positive score. *)
Fixpoint pick (f : Z → Z) (ps : list Z) (chosen : victim) (points : Z) : victim * Z :=
  match ps with
  | [] => (chosen, points)
  | p :: ps' =>
      if points <? f p then pick f ps' (Victim p) (f p) else pick f ps' chosen points
  end.

Lemma pick_spec f ps chosen points v n :
  pick f ps chosen points = (v, n) →
  points ≤ n ∧ (∀ p, p ∈ ps → f p ≤ n) ∧
  ((v = chosen ∧ n = points) ∨
   ∃ l1 p l2, ps = l1 ++ p :: l2 ∧ v = Victim p ∧ f p = n ∧ points < n ∧ ∀ q, q ∈ l1 → f q < n).
Proof.
  revert chosen points. induction ps as [|p ps IH]; intros chosen points E; simpl in E.
  { simplify_eq. split_and!; [lia|by intros p ?%elem_of_nil|by left]. }
  destruct (Z.ltb_spec points (f p)) as [Hlt|Hge].
  - apply IH in E as (Hle & Hmax & Hcase). split_and!; [lia| |].
    + intros q [->|Hq]%elem_of_cons; auto.
    + right. destruct Hcase as [[-> ->]|(l1 & q & l2 & -> & -> & Hf & Hn & Hl1)].
      * exists [], p, ps. split_and!; [done..|lia|by intros q ?%elem_of_nil].
      * exists (p :: l1), q, l2. split_and!; [done..|lia|].
        intros r [->|Hr]%elem_of_cons; [lia|auto].
  - apply IH in E as (Hle & Hmax & Hcase). split_and!; [lia| |].
    + intros q [->|Hq]%elem_of_cons; [lia|auto].
    + destruct Hcase as [[-> ->]|(l1 & q & l2 & -> & -> & Hf & Hn & Hl1)]; [by left|right].
      exists (p :: l1), q, l2. split_and!; [done..|].
      intros r [->|Hr]%elem_of_cons; [lia|auto].
Qed.

Definition owned w (id p : Z) : bool :=
  match tasks w !! p with Some t => cred_uid t =? id | None => false end.

(** An element of a filtered list in the list itself. *)
Lemma filter_split (P : Z → bool) ps : ∀ l1 p l2, List.filter P ps = l1 ++ p :: l2 →
  ∃ k1 k2, ps = k1 ++ p :: k2 ∧ List.filter P k1 = l1 ∧ P p = true.
Proof.
  induction ps as [|q ps IH]; intros l1 p l2 E; simpl in E; [by destruct l1|].
  destruct (P q) eqn:Eq.
  - destruct l1 as [|x l1]; simpl in E; simplify_eq; [by exists [], ps|].
    destruct (IH l1 p l2) as (k1 & k2 & -> & <- & Hp); [done|]. exists (x :: k1), k2. simpl. by rewrite Eq.
  - destruct (IH l1 p l2 E) as (k1 & k2 & -> & <- & Hp). exists (q :: k1), k2. simpl. by rewrite Eq.
Qed.

Lemma scan_user_ok w ps id total memcg mask chosen points :
  world_wf w → task_locks w = [] → (∀ p, p ∈ ps → is_Some (tasks w !! p)) →
  scan_user ps id total memcg mask chosen points w
  = Ok (pick (λ p, badness w p memcg mask total) (List.filter (owned w id) ps) chosen points) w.
Proof.
  intros Hwf Hl. revert chosen points. induction ps as [|p ps IH]; intros chosen points Hps; [done|].
  simpl. destruct (Hps p ltac:(left)) as [t Ht]. unfold mbind, M_bind.
  assert (∀ q, q ∈ ps → is_Some (tasks w !! q)) by (intros q Hq; apply Hps; by right).
  rewrite (load_task_ok w p t Ht). unfold owned at 1. rewrite Ht.
  destruct (cred_uid t =? id); [|by apply IH].
  rewrite (oom_badness_ok w p t) by done. simpl. case_match; by apply IH.
Qed.

(** Taking a reference to a user changes no score. *)
Definition take_ref w (q : Z) (u : user_struct) : world L X :=
  w <| ucache := (ucache w) <| users := <[q := bump u]> (users (ucache w)) |> |>.

Lemma take_ref_wf w q u : world_wf w → users (ucache w) !! q = Some u → world_wf (take_ref w q u).
Proof.
  intros [Wt Wc Wp Wm Ws Wu] Hq. split; try done. intros p t Hp. simpl.
  destruct (decide (cred_user t = q)) as [->|]; [by rewrite lookup_insert_eq|].
  rewrite lookup_insert_ne by done. eauto.
Qed.

Lemma take_ref_badness w q u p memcg mask total :
  users (ucache w) !! q = Some u →
  badness (take_ref w q u) p memcg mask total = badness w p memcg mask total.
Proof.
  intros Hq. unfold badness, mm_thread. simpl. destruct (tasks w !! p) as [t|]; [|done].
  destruct (unkillable _ _ _ _); [done|]. destruct (List.find _ _) as [r|]; [|done].
  destruct (tasks w !! r) as [v|]; [|done].
  destruct (decide (cred_user v = q)) as [->|]; [|by rewrite lookup_insert_ne].
  by rewrite lookup_insert_eq, Hq.
Qed.

Lemma find_user_world UIDHASH_BITS w refs id q u :
  cache_inv UIDHASH_BITS (users (ucache w)) (uidhash_table (ucache w)) refs →
  uidhash_lock (ucache w) = false →
  users (ucache w) !! q = Some u → matches (current_user_ns (ext (ucache w))) id u →
  call_cache (find_user UIDHASH_BITS id) w = Ok (Some q) (take_ref w q u).
Proof.
  intros Hi Hl Hq Hm. unfold call_cache. rewrite find_user_eq.
  destruct (alloc_find_spec UIDHASH_BITS (ucache w) refs (current_user_ns (ext (ucache w))) id Hi Hl)
    as [(p & v & Hp & Hv & ->)|[Hno _]]; [|by destruct (Hno q u)].
  assert (p = q) as -> by (destruct Hm, Hv; apply (inv_unique _ _ _ _ Hi p q v u Hp Hq); split; congruence).
  by assert (v = u) as -> by congruence.
Qed.

(** C10. Selection for a limited user: the victim is a process of that user with
    the highest score, the first such in the task list, and the score is
    returned with it; no process is selected only when all processes of the
    user have score 0.  Processes of other users are never selected. *)
Theorem select_limited_user UIDHASH_BITS w refs q u total memcg mask force :
  world_wf w → task_locks w = [] →
  cache_inv UIDHASH_BITS (users (ucache w)) (uidhash_table (ucache w)) refs →
  uidhash_lock (ucache w) = false →
  user w ≠ 0 → users (ucache w) !! q = Some u →
  matches (current_user_ns (ext (ucache w))) (user w) u → mem_max u ≠ -1 →
  ∃ v n w', select_bad_process UIDHASH_BITS total memcg mask force w = Ok (v, n) w' ∧
    (∀ p, p ∈ TaskWorld.processes w → owned w (user w) p = true → badness w p memcg mask total ≤ n) ∧
    match v with
    | Victim p => ∃ before after, TaskWorld.processes w = before ++ p :: after ∧ owned w (user w) p = true ∧
                  badness w p memcg mask total = n ∧ 0 < n ∧
                  ∀ p', p' ∈ before → owned w (user w) p' = true → badness w p' memcg mask total < n
    | _ => v = NoVictim ∧ n = 0
    end.
Proof.
  intros Hwf Hl Hi Hlk Hid Hq Hm Hlim. unfold select_bad_process. mstep.
  destruct (Z.eqb_spec (user w) 0) as [|_]; [done|].
  rewrite (find_user_world UIDHASH_BITS w refs (user w) q u) by done. simpl.
  assert (users (ucache (take_ref w q u)) !! q = Some (bump u)) as Hq' by apply lookup_insert_eq.
  rewrite !(load_usr_ok _ q _ Hq'). change (mem_max (bump u)) with (mem_max u).
  destruct (Z.eqb_spec (mem_max u) (-1)) as [|_]; [done|]. simpl.
  rewrite scan_user_ok; [|by apply take_ref_wf|done|by apply wf_processes].
  destruct (pick _ _ _ _) as [v n] eqn:E. eexists v, n, _. split; [done|].
  apply pick_spec in E as (Hn & Hmax & Hcase).
  assert (∀ p, badness (take_ref w q u) p memcg mask total = badness w p memcg mask total) as Hb
    by (intros; by apply take_ref_badness).
  simpl in Hmax, Hcase. setoid_rewrite Hb in Hmax. setoid_rewrite Hb in Hcase.
  change (owned (take_ref w q u) (user w)) with (owned w (user w)) in *. split.
  - intros p Hp Ho. apply Hmax. apply list_elem_of_In, filter_In. split; [by apply list_elem_of_In|done].
  - destruct Hcase as [[-> ->]|(l1 & p & l2 & Hps & -> & Hf & Hpos & Hl1)]; [done|].
    destruct (filter_split _ _ _ _ _ Hps) as (k1 & k2 & Ek & Ef & Ho). exists k1, k2. split_and!; [done..|].
    intros p' Hp' Ho'. apply Hl1. rewrite <- Ef. apply list_elem_of_In, filter_In. split; [by apply list_elem_of_In|done].
Qed.

(** A thread that is neither exiting nor already chosen by an earlier kill. *)
Definition quiet w (p : Z) : Prop :=
  ∃ t, tasks w !! p = Some t ∧ tif_memdie t = false ∧ has_flag (flags t) PF_EXITING = false.

(** The threads the global search scores. *)
Definition eligible w (memcg : option Z) (mask : option (list Z)) (p : Z) : bool :=
  match tasks w !! p with
  | Some t => (exit_state t =? 0) && negb (unkillable p t memcg mask) && bool_decide (is_Some (mm t))
  | None => false
  end.

Lemma examine_quiet w p memcg mask force chosen points :
  quiet w p →
  examine p memcg mask force chosen points w
  = Ok (if eligible w memcg mask p then Score chosen points else Skip) w.
Proof.
  intros (t & Ht & Hmem & Hex). unfold examine, eligible, mbind, M_bind.
  rewrite (load_task_ok w p t Ht), Ht, Hmem, Hex.
  destruct (exit_state t =? 0); [|done]. simpl. rewrite (unkillable_ok w p t) by done.
  destruct (unkillable p t memcg mask); [done|]. simpl. by destruct (mm t).
Qed.

Lemma scan_threads_quiet w l1 ps total memcg mask force chosen points :
  world_wf w → task_locks w = [] → (∀ p, p ∈ l1 → quiet w p) →
  scan_threads (l1 ++ ps) total memcg mask force chosen points w
  = (let '(v, n) := pick (λ p, badness w p memcg mask total)
       (List.filter (eligible w memcg mask) l1) chosen points in
     scan_threads ps total memcg mask force v n) w.
Proof.
  intros Hwf Hl. revert chosen points. induction l1 as [|p l1 IH]; intros chosen points Hq; [done|].
  simpl. unfold mbind, M_bind. rewrite examine_quiet by (apply Hq; left).
  assert (∀ q, q ∈ l1 → quiet w q) by (intros q ?; apply Hq; by right).
  destruct (eligible w memcg mask p); [|by apply IH].
  destruct (Hq p ltac:(left)) as (t & Ht & _). rewrite (oom_badness_ok w p t) by done. simpl.
  case_match; by apply IH.
Qed.

(** Selection without a limited user: when no thread is exiting or dying,
    the victim is an eligible thread with the highest score, and none is
    selected only when no eligible thread scores.  When the search meets a
    killable thread that an earlier OOM kill has marked, and the kill is not
    forced, it selects nobody and reports a kill in flight. *)
Theorem select_any_user UIDHASH_BITS w total memcg mask force :
  world_wf w → task_locks w = [] → user w = 0 →
  ((∀ p, p ∈ all_threads w → quiet w p) →
   ∃ v n, select_bad_process UIDHASH_BITS total memcg mask force w = Ok (v, n) w ∧
     (∀ p, p ∈ all_threads w → eligible w memcg mask p = true → badness w p memcg mask total ≤ n) ∧
     match v with
     | Victim p => p ∈ all_threads w ∧ eligible w memcg mask p = true ∧
                   badness w p memcg mask total = n ∧ 0 < n
     | _ => v = NoVictim ∧ n = 0
     end) ∧
  (∀ l1 p t l2, all_threads w = l1 ++ p :: l2 → (∀ q, q ∈ l1 → quiet w q) →
     tasks w !! p = Some t → exit_state t = 0 → unkillable p t memcg mask = false →
     tif_memdie t = true → force = false →
     ∃ n w', select_bad_process UIDHASH_BITS total memcg mask force w = Ok (InFlight, n) w').
Proof.
  intros Hwf Hl Hu. unfold select_bad_process. mstep. rewrite Hu. simpl. split.
  - intros Hq.
    pose proof (scan_threads_quiet w (all_threads w) [] total memcg mask force NoVictim 0 Hwf Hl Hq) as Hs.
    rewrite app_nil_r in Hs. rewrite Hs. destruct (pick _ _ _ _) as [v n] eqn:E.
    exists v, n. split; [done|]. apply pick_spec in E as (Hn & Hmax & Hcase). split.
    + intros p Hp He. apply Hmax, list_elem_of_In, filter_In. split; [by apply list_elem_of_In|done].
    + destruct Hcase as [[-> ->]|(l1 & p & l2 & Hps & -> & Hf & Hpos & _)]; [done|].
      assert (p ∈ List.filter (eligible w memcg mask) (all_threads w)) as Hin
        by (rewrite Hps; set_solver).
      apply list_elem_of_In, filter_In in Hin as [Hin Ho]. by rewrite <- list_elem_of_In in Hin.
  - intros l1 p t l2 -> Hq Ht He Hun Hmem ->.
    rewrite scan_threads_quiet by done. destruct (pick _ _ _ _) as [v n]. simpl.
    unfold examine, mbind, M_bind. rewrite (load_task_ok w p t Ht), He. simpl.
    rewrite (unkillable_ok w p t), Hun, Hmem by done. simpl.
    destruct (frozen t); [rewrite (store_task_ok w p _ t Ht)|]; eauto.
Qed.

(** ** Messages *)

Lemma dump_task_ok w p memcg mask :
  world_wf w → task_locks w = [] → is_Some (tasks w !! p) → dump_task memcg mask p w = Ok tt w.
Proof.
  intros Hwf Hl [t Hp]. unfold dump_task, mbind, M_bind. rewrite (unkillable_ok w p t) by done.
  destruct (unkillable p t memcg mask); [done|].
  unfold find_lock_task_mm, mbind, M_bind. rewrite (load_task_ok w p t Hp).
  rewrite find_lock_mm_ok by (done || (intros q Hq; by eapply wf_threads)).
  fold (mm_thread w t). destruct (mm_thread w t) as [q|] eqn:Eq; [|done].
  apply mm_thread_some in Eq as [Hin (v & a & Hv & Ha)].
  rewrite (load_task_ok _ q v), Ha by done.
  destruct (wf_mm _ Hwf q v a Hv Ha) as [m Hm]. rewrite (load_mm_ok _ a m) by done.
  destruct (wf_signal _ Hwf q v Hv) as [adj Hadj].
  unfold load_adj, task_unlock. mstep. rewrite Hadj. simpl.
  f_equal. destruct w; simpl in *. unfold modify_field; simpl. rewrite decide_True by done. by subst.
Qed.

Lemma dump_header_ok w memcg mask :
  world_wf w → task_locks w = [] → is_Some (tasks w !! current) → dump_header memcg mask w = Ok tt w.
Proof.
  intros Hwf Hl [t Ht]. destruct (wf_signal _ Hwf current t Ht) as [adj Hadj].
  unfold dump_header, task_lock, task_unlock, load_adj. mstep. rewrite Hl. simpl.
  rewrite (load_task_ok _ current t) by done. simpl. rewrite Hadj. simpl.
  assert (w <| task_locks ::= cons current |> <| task_locks ::= remove_one current |> = w) as ->.
  { destruct w; simpl in *. unfold modify_field; simpl. by rewrite decide_True. }
  destruct (sysctl_oom_dump_tasks =? 0); [done|]. unfold dump_tasks. mstep.
  assert (∀ ps, (∀ p, p ∈ ps → is_Some (tasks w !! p)) → for_each ps (dump_task memcg mask) w = Ok tt w)
    as Hloop.
  { induction ps as [|p ps IH]; intros Hps; [done|]. simpl. unfold mbind, M_bind.
    rewrite dump_task_ok by (done || apply Hps; left). apply IH. intros q ?. apply Hps. by right. }
  apply Hloop, wf_processes, Hwf.
Qed.

(** A user without a limit brings the system down: once the variable [user]
    names a user whose [mem_max] is -1, an OOM condition in which the allocating
    task is not to be killed selects nobody, whatever the other tasks are, and
    the kernel panics. *)
Theorem unlimited_user_panics UIDHASH_BITS w refs q u c zonelist gfp order mask force :
  world_wf w → task_locks w = [] →
  cache_inv UIDHASH_BITS (users (ucache w)) (uidhash_table (ucache w)) refs →
  uidhash_lock (ucache w) = false →
  user w ≠ 0 → users (ucache w) !! q = Some u →
  matches (current_user_ns (ext (ucache w))) (user w) u → mem_max u = -1 →
  tasks w !! current = Some c → sigkill_pending c = false →
  oom_notify_freed = 0 → sysctl_panic_on_oom = 0 → sysctl_oom_kill_allocating_task = 0 →
  ∃ w', out_of_memory UIDHASH_BITS zonelist gfp order mask force w = Err KernelPanic w'.
Proof.
  intros Hwf Hl Hi Hlk Hid Hq Hm Hlim Hc Hsig Hfr Hpan Hka.
  unfold out_of_memory, check_panic_on_oom. mstep. rewrite Hfr. simpl.
  rewrite (load_task_ok w current c Hc), Hsig.
  destruct (constrained_alloc zonelist gfp mask) as [con total]. rewrite Hpan, Hka. simpl.
  unfold select_bad_process. mstep. destruct (Z.eqb_spec (user w) 0); [done|].
  rewrite (find_user_world UIDHASH_BITS w refs (user w) q u) by done. simpl.
  assert (users (ucache (take_ref w q u)) !! q = Some (bump u)) as Hq' by apply lookup_insert_eq.
  rewrite !(load_usr_ok _ q _ Hq'). change (mem_max (bump u)) with (mem_max u). rewrite Hlim. simpl.
  rewrite dump_header_ok; [eauto|by apply take_ref_wf|done|by eexists].
Qed.

(** ** The zone locks *)

Lemma lock_zones zs b w :
  ∃ w', for_each zs (λ z, modify (λ w : world L X, w <| oom_locked ::= <[z := b]> |>)) w = Ok tt w' ∧
    ∀ z, zone_is_oom_locked w' z = if bool_decide (z ∈ zs) then b else zone_is_oom_locked w z.
Proof.
  revert w. induction zs as [|y zs IH]; intros w.
  { exists w. split; [done|]. intros z. by rewrite bool_decide_false by apply not_elem_of_nil. }
  simpl. unfold mbind, M_bind, modify at 1. destruct (IH (w <| oom_locked ::= <[y := b]> |>)) as (w' & E & Hz).
  exists w'. split; [done|]. intros z. rewrite Hz. unfold zone_is_oom_locked. simpl.
  destruct (decide (z ∈ zs)).
  - rewrite !bool_decide_true by set_solver. done.
  - rewrite bool_decide_false by done. destruct (decide (z = y)) as [->|].
    + rewrite lookup_insert_eq, bool_decide_true by set_solver. done.
    + rewrite lookup_insert_ne, bool_decide_false by set_solver. done.
Qed.

(** The OOM lock of a zone list: the attempt fails and changes nothing when
    one of the zones is locked; otherwise all of them, and no others, become
    locked, so that a second attempt on any list sharing a zone fails; clearing
    unlocks exactly the zones of the list. *)
Theorem zonelist_oom_lock w zl gfp :
  let zs := zonelist_zones zl (gfp_zone gfp) None in
  (existsb (zone_is_oom_locked w) zs = true → try_set_zonelist_oom zl gfp w = Ok 0 w) ∧
  (existsb (zone_is_oom_locked w) zs = false →
    ∃ w', try_set_zonelist_oom zl gfp w = Ok 1 w' ∧
      (∀ z, zone_is_oom_locked w' z = bool_decide (z ∈ zs) || zone_is_oom_locked w z) ∧
      (∀ zl' gfp' z, z ∈ zs → z ∈ zonelist_zones zl' (gfp_zone gfp') None →
         try_set_zonelist_oom zl' gfp' w' = Ok 0 w') ∧
      ∃ w'', clear_zonelist_oom zl gfp w' = Ok tt w'' ∧
        ∀ z, zone_is_oom_locked w'' z = zone_is_oom_locked w z).
Proof.
  intros zs. unfold try_set_zonelist_oom, try_set_zones_oom, clear_zonelist_oom, clear_zones_oom.
  fold zs. mstep. split; [by intros ->|]. intros Hno. rewrite Hno.
  destruct (lock_zones zs true w) as (w' & E & Hz). unfold modify in E. rewrite E. exists w'.
  assert (∀ z, zone_is_oom_locked w' z = bool_decide (z ∈ zs) || zone_is_oom_locked w z) as Hz'
    by (intros z; rewrite Hz; by destruct (bool_decide _)).
  split_and!; [done|done| |].
  - intros zl' gfp' z Hz1 Hz2.
    assert (existsb (zone_is_oom_locked w') (zonelist_zones zl' (gfp_zone gfp') None) = true) as ->; [|done].
    apply existsb_exists. exists z. split; [by apply list_elem_of_In|].
    rewrite Hz'. by rewrite bool_decide_true.
  - destruct (lock_zones zs false w') as (w'' & E' & Hw''). unfold modify in E'.
    exists w''. split; [done|]. intros z. rewrite Hw'', Hz'.
    destruct (decide (z ∈ zs)) as [Hin|]; [|by rewrite !bool_decide_false].
    rewrite bool_decide_true by done. symmetry. apply not_true_iff_false. intros Hlk.
    apply not_true_iff_false in Hno. destruct Hno. apply existsb_exists. exists z.
    by rewrite <- list_elem_of_In.
Qed.

(** ** Killing *)

(** A process in another thread group that shares the address space of [v] and
    may be killed. *)
Definition sharing w (v : task_struct) (r : Z) : bool :=
  match tasks w !! r with
  | Some t =>
      bool_decide (mm t = mm v) && negb (tgid t =? tgid v) && negb (has_flag (flags t) PF_KTHREAD)
      && negb (default 0 (oom_score_adj w !! signal t) =? OOM_SCORE_ADJ_MIN)
  | None => false
  end.

Definition mark (b : bool) (t : task_struct) : task_struct :=
  if b then t <| sigkill_pending := true |> else t.

(** [w'] is [w] with a pending SIGKILL for the tasks [P] accepts. *)
Definition killed w (P : Z → bool) w' : Prop :=
  (∀ r, tasks w' !! r = mark (P r) <$> tasks w !! r) ∧
  oom_score_adj w' = oom_score_adj w ∧ task_locks w' = task_locks w ∧ mms w' = mms w ∧
  TaskWorld.processes w' = TaskWorld.processes w.

Lemma killed_ext w w' P Q : (∀ r, P r = Q r) → killed w P w' → killed w Q w'.
Proof. intros HPQ [Ht Hrest]. split; [|done]. intros r. by rewrite <- HPQ. Qed.

Lemma kill_one w w' P r t :
  killed w P w' → tasks w !! r = Some t →
  ∃ w'', send_sigkill r w' = Ok tt w'' ∧ killed w (λ x, P x || bool_decide (x = r)) w''.
Proof.
  intros (Ht & Hadj & Hlk & Hmm & Hps) Hr. unfold send_sigkill.
  erewrite store_task_ok by (rewrite Ht, Hr; reflexivity). eexists. split; [done|].
  split; [|done]. intros x. simpl. destruct (decide (x = r)) as [->|].
  - rewrite lookup_insert_eq, Hr, bool_decide_true, orb_true_r by done. simpl.
    f_equal. by destruct (P r).
  - rewrite lookup_insert_ne, Ht, bool_decide_false, orb_false_r by done. done.
Qed.

Lemma kill_sharing_ok w w' P vic v r :
  world_wf w → task_locks w = [] → killed w P w' → tasks w !! vic = Some v → is_Some (tasks w !! r) →
  ∃ w'', kill_sharing (mm v) vic r w' = Ok tt w'' ∧
         killed w (λ x, P x || bool_decide (x = r) && sharing w v x) w''.
Proof.
  intros Hwf Hl Hk Hv [t Hr]. pose proof Hk as (Ht & Hadj & Hlk & Hmm & Hps).
  assert (tasks w' !! r = Some (mark (P r) t)) as Hr' by (by rewrite Ht, Hr).
  assert (tasks w' !! vic = Some (mark (P vic) v)) as Hv' by (by rewrite Ht, Hv).
  unfold kill_sharing, mbind, M_bind. rewrite (load_task_ok w' _ _ Hr'), (load_task_ok w' _ _ Hv').
  assert (∀ b x, mm (mark b x) = mm x ∧ tgid (mark b x) = tgid x ∧ flags (mark b x) = flags x ∧
    signal (mark b x) = signal x) as Hmark by (intros []; done).
  destruct (Hmark (P r) t) as (-> & -> & -> & ->). destruct (Hmark (P vic) v) as (_ & -> & _).
  assert (∀ b, b = sharing w v r → ∀ x, P x || bool_decide (x = r) && sharing w v x
    = (if b then P x || bool_decide (x = r) else P x)) as Hcase.
  { intros b -> x. destruct (decide (x = r)) as [->|].
    - rewrite bool_decide_true by done. destruct (sharing w v r); simpl; [done|by rewrite orb_false_r].
    - rewrite bool_decide_false, !orb_false_r by done. by destruct (sharing w v r). }
  destruct (wf_signal _ Hwf r t Hr) as [adj Ha].
  assert (sharing w v r = bool_decide (mm t = mm v) && negb (tgid t =? tgid v)
    && negb (has_flag (flags t) PF_KTHREAD) && negb (adj =? OOM_SCORE_ADJ_MIN)) as Hsh
    by (unfold sharing; rewrite Hr, Ha; done).
  destruct (bool_decide (mm t = mm v) && negb (tgid t =? tgid v)
    && negb (has_flag (flags t) PF_KTHREAD)) eqn:Ec; simpl in Hsh.
  2: { exists w'. split; [done|]. eapply killed_ext; [|exact Hk]. intros x. by rewrite (Hcase false). }
  unfold load_adj. mstep. rewrite Hadj, Ha. simpl.
  destruct (adj =? OOM_SCORE_ADJ_MIN); simpl in Hsh.
  { exists w'. split; [done|]. eapply killed_ext; [|exact Hk]. intros x. by rewrite (Hcase false). }
  unfold task_lock, task_unlock. mstep. rewrite Hlk, Hl. simpl.
  assert (w' <| task_locks ::= cons r |> <| task_locks ::= remove_one r |> = w') as ->.
  { destruct w'; simpl in *. unfold modify_field; simpl. by rewrite decide_True. }
  destruct (kill_one w w' P r t Hk Hr) as (w'' & E & Hk''). exists w''. split; [done|].
  eapply killed_ext; [|exact Hk'']. intros x. by rewrite (Hcase true).
Qed.

Lemma kill_sharing_loop w w' P vic v ps :
  world_wf w → task_locks w = [] → killed w P w' → tasks w !! vic = Some v →
  (∀ r, r ∈ ps → is_Some (tasks w !! r)) →
  ∃ w'', for_each ps (kill_sharing (mm v) vic) w' = Ok tt w'' ∧
         killed w (λ x, P x || bool_decide (x ∈ ps) && sharing w v x) w''.
Proof.
  intros Hwf Hl Hk Hv. revert P w' Hk. induction ps as [|r ps IH]; intros P w' Hk Hps.
  { exists w'. split; [done|]. eapply killed_ext; [|exact Hk]. intros x.
    rewrite bool_decide_false by apply not_elem_of_nil. by rewrite orb_false_r. }
  destruct (kill_sharing_ok w w' P vic v r Hwf Hl Hk Hv (Hps r ltac:(left))) as (w1 & E1 & Hk1).
  destruct (IH _ w1 Hk1) as (w2 & E2 & Hk2); [intros x ?; apply Hps; by right|].
  exists w2. simpl. unfold mbind, M_bind. rewrite E1. split; [done|].
  eapply killed_ext; [|exact Hk2]. intros x. simpl.
  rewrite (bool_decide_ext _ _ (elem_of_cons ps x r)), bool_decide_or.
  by destruct (P x), (sharing w v x), (bool_decide (x = r)), (bool_decide (x ∈ ps)).
Qed.

Lemma kill_victim_ok w vic t q v :
  world_wf w → task_locks w = [] → tasks w !! vic = Some t → mm_thread w t = Some q →
  tasks w !! q = Some v →
  ∃ w', kill_victim vic w = Ok tt w' ∧ task_locks w' = [] ∧
    ∀ r, tasks w' !! r
       = (λ x, mark (bool_decide (r = q) || bool_decide (r ∈ TaskWorld.processes w) && sharing w v r)
                 (if decide (r = q) then x <| tif_memdie := true |> else x)) <$> tasks w !! r.
Proof.
  intros Hwf Hl Ht Hq Hv. unfold kill_victim, find_lock_task_mm, mbind, M_bind.
  rewrite (load_task_ok w vic t Ht).
  rewrite find_lock_mm_ok by (done || (intros ? ?; by apply (wf_threads w Hwf vic t))).
  fold (mm_thread w t). rewrite Hq. apply mm_thread_some in Hq as [_ (v' & a & Hv' & Ha)].
  assert (v' = v) as -> by congruence. rewrite (load_task_ok _ q v), Ha by done.
  destruct (wf_mm _ Hwf q v a Hv Ha) as [m Hm]. rewrite (load_mm_ok _ a m) by done.
  unfold task_unlock. mstep.
  assert (w <| task_locks := [q] |> <| task_locks ::= remove_one q |> = w) as ->.
  { destruct w; simpl in *. unfold modify_field; simpl. rewrite decide_True by done. by subst. }
  assert (killed w (λ _, false) w) as Hk0.
  { split; [|done]. intros r. destruct (tasks w !! r); done. }
  rewrite <- Ha.
  destruct (kill_sharing_loop w w (λ _, false) q v (TaskWorld.processes w) Hwf Hl Hk0 Hv)
    as (w1 & E1 & Hk1); [apply wf_processes, Hwf|]. rewrite E1.
  destruct Hk1 as (Ht1 & _ & Hlk1 & _). simpl in Ht1.
  unfold set_tif_memdie, send_sigkill.
  erewrite store_task_ok by (rewrite Ht1, Hv; reflexivity). simpl.
  erewrite store_task_ok by (simpl; apply lookup_insert_eq). simpl.
  eexists. split; [done|]. split; [by rewrite <- Hl|]. intros r. simpl.
  destruct (decide (r = q)) as [->|].
  - rewrite lookup_insert_eq, Hv, (bool_decide_true (q = q)) by done. simpl. f_equal.
    by destruct (bool_decide _ && sharing w v q).
  - rewrite !lookup_insert_ne, Ht1, (bool_decide_false (r = q)) by done. done.
Qed.

(** A child that may be sacrificed for its parent. *)
Definition sacrifice w (t : task_struct) (memcg : option Z) (mask : option (list Z)) (total : Z)
    (cs : list Z) (c : Z) : Prop :=
  c ∈ cs ∧ 0 < badness w c memcg mask total ∧ ∃ tc, tasks w !! c = Some tc ∧ mm tc ≠ mm t.

Lemma scan_children_ok w p t cs total memcg mask vic n :
  world_wf w → task_locks w = [] → tasks w !! p = Some t → 0 ≤ n →
  (∀ c, c ∈ cs → is_Some (tasks w !! c)) →
  ∃ vic' n', scan_children cs p total memcg mask vic n w = Ok (vic', n') w ∧ n ≤ n' ∧
    (vic' = vic ∨ sacrifice w t memcg mask total cs vic').
Proof.
  intros Hwf Hl Hp. revert vic n. induction cs as [|c cs IH]; intros vic n Hn Hcs.
  { exists vic, n. split_and!; [done|lia|by left]. }
  destruct (Hcs c ltac:(left)) as [tc Hc]. simpl. unfold mbind, M_bind.
  rewrite (load_task_ok w c tc Hc), (load_task_ok w p t Hp).
  assert (∀ x, x ∈ cs → is_Some (tasks w !! x)) as Hcs' by (intros x ?; apply Hcs; by right).
  assert (∀ x, sacrifice w t memcg mask total cs x → sacrifice w t memcg mask total (c :: cs) x)
    as Hmono by (intros x (? & ? & ?); split; [by right|done]).
  case_decide as Hmm.
  - destruct (IH vic n Hn Hcs') as (v' & n' & E & Hle & Hv). exists v', n'.
    split_and!; [done|done|destruct Hv; auto].
  - rewrite (oom_badness_ok w c tc) by done. destruct (Z.ltb_spec n (badness w c memcg mask total)).
    + destruct (IH c (badness w c memcg mask total)) as (v' & n' & E & Hle & Hv); [lia|done|].
      exists v', n'. split_and!; [done|lia|]. right. destruct Hv as [->|?]; [|auto].
      split_and!; [left|lia|eauto].
    + destruct (IH vic n Hn Hcs') as (v' & n' & E & Hle & Hv). exists v', n'.
      split_and!; [done|done|destruct Hv; auto].
Qed.

Lemma scan_group_ok w p t ts total memcg mask vic n :
  world_wf w → task_locks w = [] → tasks w !! p = Some t → 0 ≤ n →
  (∀ x, x ∈ ts → is_Some (tasks w !! x)) →
  ∃ vic' n', scan_group ts p total memcg mask vic n w = Ok (vic', n') w ∧
    (vic' = vic ∨ ∃ x tx, x ∈ ts ∧ tasks w !! x = Some tx ∧
       sacrifice w t memcg mask total (children tx) vic').
Proof.
  intros Hwf Hl Hp. revert vic n. induction ts as [|x ts IH]; intros vic n Hn Hts.
  { exists vic, n. split; [done|by left]. }
  destruct (Hts x ltac:(left)) as [tx Hx]. simpl. unfold mbind, M_bind.
  rewrite (load_task_ok w x tx Hx).
  destruct (scan_children_ok w p t (children tx) total memcg mask vic n) as (v1 & n1 & -> & Hle & Hv1);
    [done..|by intros c Hc; eapply wf_children|].
  destruct (IH v1 n1) as (v2 & n2 & E & Hv2); [lia|intros y ?; apply Hts; by right|].
  exists v2, n2. split; [done|]. destruct Hv2 as [->|(y & ty & ? & ? & ?)].
  - destruct Hv1 as [->|?]; [by left|]. right. exists x, tx. split_and!; [left|done..].
  - right. exists y, ty. split_and!; [by right|done..].
Qed.

(** C11. What an OOM kill does to the tasks.  An exiting process is only given
    access to the memory reserves.  Otherwise the victim is the process itself
    or a child, of one of its threads, with its own address space and a
    positive score; a victim without any address space left is spared.  The
    victim's thread that owns the address space gets [TIF_MEMDIE] and SIGKILL;
    SIGKILL also goes to exactly the processes of other thread groups that
    share that address space, kernel threads and tasks with the minimal
    adjustment excepted; no other task changes and no lock stays held. *)
Theorem oom_kill_effect w p t c total memcg mask :
  world_wf w → task_locks w = [] → tasks w !! p = Some t → tasks w !! current = Some c →
  (has_flag (flags t) PF_EXITING = true →
    oom_kill_process p total memcg mask w
    = Ok tt (w <| tasks := <[p := t <| tif_memdie := true |>]> (tasks w) |>)) ∧
  (has_flag (flags t) PF_EXITING = false →
    ∃ vic tv, tasks w !! vic = Some tv ∧
      (vic = p ∨ ∃ x tx, x ∈ thread_group t ∧ tasks w !! x = Some tx ∧
         sacrifice w t memcg mask total (children tx) vic) ∧
      match mm_thread w tv with
      | None => oom_kill_process p total memcg mask w = Ok tt w
      | Some q =>
          ∃ v w', tasks w !! q = Some v ∧ oom_kill_process p total memcg mask w = Ok tt w' ∧
            task_locks w' = [] ∧
            ∀ r, tasks w' !! r
              = (λ x, mark (bool_decide (r = q)
                            || bool_decide (r ∈ TaskWorld.processes w) && sharing w v r)
                        (if decide (r = q) then x <| tif_memdie := true |> else x)) <$> tasks w !! r
      end).
Proof.
  intros Hwf Hl Hp Hcur. unfold oom_kill_process, mbind, M_bind.
  rewrite (load_task_ok w p t Hp). split; intros Hex; rewrite Hex.
  { unfold set_tif_memdie. by erewrite store_task_ok. }
  assert ((if ratelimit_ok then dump_header memcg mask else mret tt) w = Ok tt w) as ->
    by (destruct ratelimit_ok; [apply dump_header_ok; eauto|done]).
  unfold task_lock, task_unlock. mstep. rewrite Hl. simpl.
  assert (w <| task_locks ::= cons p |> <| task_locks ::= remove_one p |> = w) as ->.
  { destruct w; simpl in *. unfold modify_field; simpl. by rewrite decide_True. }
  destruct (scan_group_ok w p t (thread_group t) total memcg mask p 0) as (vic & n & -> & Hv);
    [done..|intros x Hx; by apply (wf_threads w Hwf p t)|].
  assert (∃ tv, tasks w !! vic = Some tv) as [tv Htv]
    by (destruct Hv as [->|(_ & _ & _ & _ & _ & _ & tc & ? & _)]; eauto).
  exists vic, tv. split_and!; [done|done|]. destruct (mm_thread w tv) as [q|] eqn:Eq.
  - pose proof (mm_thread_some w tv q Eq) as [_ (v & _ & Hq & _)].
    destruct (kill_victim_ok w vic tv q v) as (w' & E & ? & ?); [done..|]. exists v, w'. done.
  - unfold kill_victim, find_lock_task_mm. mstep. rewrite (load_task_ok w vic tv Htv).
    rewrite find_lock_mm_ok by (done || (intros y Hy; by apply (wf_threads w Hwf vic tv))).
    fold (mm_thread w tv). by rewrite Eq.
Qed.
End ScoreSpec.

(** ** A concrete system *)

(** No NUMA, one zone list with the zones 1 and 2, task 7 runs. *)
#[export] Instance demo_env : OomEnv := {
  CONFIG_NUMA := false;
  current := 7;
  is_global_init p := p =? 1;
  task_in_mem_cgroup _ _ := true;
  mempolicy_nodemask_intersects _ _ := true;
  cpuset_mems_allowed_intersects _ _ := true;
  has_capability_sys_admin _ := false;
  oom_notify_freed := 0;
  totalram_pages := 100000;
  total_swap_pages := 0;
  node_spanned_pages _ := 100000;
  N_HIGH_MEMORY_nodes := [0];
  cpuset_current_mems_allowed := [0];
  gfp_zone _ := 1;
  zonelist_zones _ _ _ := [1; 2];
  cpuset_zone_allowed_softwall _ _ := true;
  populated_zones := [1; 2];
  mem_cgroup_get_limit _ := 0;
  ratelimit_ok := true;
  GFP_THISNODE_flag := 0;
  PT_TRACE_EXIT := 64;
  sysctl_panic_on_oom := 0;
  sysctl_oom_kill_allocating_task := 0;
  sysctl_oom_dump_tasks := 1
}.

(** Users 1000 and root; tasks 7 and 8 of user 1000, 8 sharing the memory of 9,
    which belongs to root. *)
Definition demo_users (max : Z) : gmap Z user_struct :=
  <[100 := (fresh_user init_user_ns 1000) <| mem_max := max |>]> {[ root_user := root_user_init ]}.

Definition oom_world (max limited : Z) : world (gmap (Z * Z) (list Z)) Z :=
  mkWorld
    (<[7 := mkTask 0 0 0 7 (Some 70) 700 1000 100 7 [7] [] false false false]>
     (<[8 := mkTask 0 0 0 8 (Some 80) 800 1000 100 8 [8] [] false false false]>
      {[9 := mkTask 0 0 0 9 (Some 80) 900 0 1 9 [9] [] false false false]}))
    (<[70 := mkMm 3 1 0 10]> {[80 := mkMm 500 1 0 10]})
    (<[700 := 0]> (<[800 := 0]> {[900 := 0]})) [7; 8; 9] [] ∅
    ((uc demo_user) <| users := demo_users max |>) limited 1.

Lemma oom_world_task max limited p t :
  tasks (oom_world max limited) !! p = Some t →
  (p = 7 ∨ p = 8 ∨ p = 9) ∧ thread_group t = [p] ∧ children t = [] ∧
  is_Some (oom_score_adj (oom_world max limited) !! signal t) ∧
  is_Some (users (ucache (oom_world max limited)) !! cred_user t) ∧
  ∃ a, mm t = Some a ∧ is_Some (mms (oom_world max limited) !! a).
Proof.
  simpl. rewrite !lookup_insert_Some, lookup_singleton_Some.
  intros [[<- <-]|[_ [[<- <-]|[_ [<- <-]]]]]; simpl; split_and!; auto; try (by eexists).
  all: eexists; split; [done|]; by eexists.
Qed.

Lemma oom_world_wf max limited : world_wf (oom_world max limited).
Proof.
  split.
  - intros p t q Hp Hq. destruct (oom_world_task max limited p t Hp) as (_ & E & _).
    rewrite E in Hq. apply list_elem_of_singleton in Hq as ->. eauto.
  - intros p t q Hp Hq. destruct (oom_world_task max limited p t Hp) as (_ & _ & E & _).
    rewrite E in Hq. by apply elem_of_nil in Hq.
  - intros p Hp. simpl in Hp. assert (p = 7 ∨ p = 8 ∨ p = 9) as [->|[->| ->]] by set_solver; by eexists.
  - intros p t a Hp Ha. destruct (oom_world_task max limited p t Hp) as (_ & _ & _ & _ & _ & b & Hb & ?).
    congruence.
  - intros p t Hp. by destruct (oom_world_task max limited p t Hp) as (_ & _ & _ & ? & _).
  - intros p t Hp. by destruct (oom_world_task max limited p t Hp) as (_ & _ & _ & _ & ? & _).
Qed.

Lemma oom_world_cache max limited :
  cache_inv 3 (users (ucache (oom_world max limited))) (uidhash_table (ucache (oom_world max limited)))
    [100; root_user; root_user].
Proof.
  simpl. unfold demo_users.
  rewrite <- (insert_insert_eq {[root_user := root_user_init]} 100
    ((fresh_user init_user_ns 1000) <| mem_max := max |>) (fresh_user init_user_ns 1000)).
  eapply inv_update; [|apply lookup_insert_eq|done..].
  apply (usys_inv_step 3 demo_booted demo_user).
  - apply usys_inv_init. exists demo_cache, 0. split_and!; done.
  - apply (step_alloc_insert 3 init_user_ns 1000 (Some 100) (uc demo_booted)); [done| |reflexivity].
    intros new x [= <- _]. reflexivity.
Qed.

Lemma oom_badness_score_witness :
  ∃ b, oom_badness 8 None None 100000 (oom_world 40960 1000) = Ok b (oom_world 40960 1000) ∧
       0 ≤ b ≤ 1000.
Proof.
  destruct (oom_badness_score (oom_world 40960 1000) 8
    (mkTask 0 0 0 8 (Some 80) 800 1000 100 8 [8] [] false false false) None None 100000
    (oom_world_wf _ _) ltac:(reflexivity) ltac:(reflexivity)) as (b & ? & ? & _). eauto.
Defined.

Lemma badness_points_spec_witness :
  badness_points false false (mkMm 500 1 0 10) 0 100000 = 5.
Proof.
  apply (badness_points_spec false (mkMm 500 1 0 10) 0 100000); simpl; lia || (widths; lia).
Defined.

Lemma select_limited_user_witness :
  ∃ v n w', select_bad_process 3 100000 None None false (oom_world 40960 1000) = Ok (v, n) w' ∧
    (∀ p, p ∈ [7; 8; 9] → owned (oom_world 40960 1000) 1000 p = true →
       badness (oom_world 40960 1000) p None None 100000 ≤ n).
Proof.
  destruct (select_limited_user 3 (oom_world 40960 1000) [100; root_user; root_user] 100
    ((fresh_user init_user_ns 1000) <| mem_max := 40960 |>) 100000 None None false
    (oom_world_wf _ _) ltac:(reflexivity) (oom_world_cache _ _) ltac:(reflexivity) ltac:(done)
    ltac:(reflexivity) ltac:(by split) ltac:(done)) as (v & n & w' & E & Hmax & _).
  exists v, n, w'. by split.
Defined.

Lemma select_any_user_witness :
  ∃ v n, select_bad_process 3 100000 None None false (oom_world 40960 0)
         = Ok (v, n) (oom_world 40960 0).
Proof.
  destruct (select_any_user 3 (oom_world 40960 0) 100000 None None false
    (oom_world_wf _ _) ltac:(reflexivity) ltac:(reflexivity)) as [Hq _].
  destruct Hq as (v & n & E & _); [|eauto].
  intros p Hp. change (all_threads (oom_world 40960 0)) with [7; 8; 9] in Hp.
  assert (p = 7 ∨ p = 8 ∨ p = 9) as [->|[->| ->]] by set_solver; by eexists.
Defined.

Lemma unlimited_user_panics_witness :
  ∃ w', out_of_memory 3 (Some 1) 0 0 None false (oom_world (-1) 1000) = Err KernelPanic w'.
Proof.
  apply (unlimited_user_panics 3 (oom_world (-1) 1000) [100; root_user; root_user] 100
    (fresh_user init_user_ns 1000)
    (mkTask 0 0 0 7 (Some 70) 700 1000 100 7 [7] [] false false false)
    (Some 1) 0 0 None false (oom_world_wf _ _) ltac:(reflexivity) (oom_world_cache _ _));
    done || by split.
Defined.

Lemma zonelist_oom_lock_witness :
  ∃ w', try_set_zonelist_oom 1 0 (oom_world 40960 1000) = Ok 1 w'.
Proof.
  destruct (zonelist_oom_lock (oom_world 40960 1000) 1 0) as [_ Hok].
  destruct (Hok ltac:(reflexivity)) as (w' & E & _). eauto.
Defined.

Lemma oom_kill_effect_witness :
  ∃ w', oom_kill_process 8 100000 None None (oom_world 40960 1000) = Ok tt w'.
Proof.
  destruct (oom_kill_effect (oom_world 40960 1000) 8
    (mkTask 0 0 0 8 (Some 80) 800 1000 100 8 [8] [] false false false)
    (mkTask 0 0 0 7 (Some 70) 700 1000 100 7 [7] [] false false false) 100000 None None
    (oom_world_wf _ _) ltac:(reflexivity) ltac:(reflexivity) ltac:(reflexivity)) as [_ Hk].
  destruct (Hk ltac:(reflexivity)) as (vic & tv & _ & _ & Hr).
  destruct (mm_thread _ tv); [destruct Hr as (v & w' & _ & E & _)|]; eauto.
Defined.
