(* ===== verification/Buddy.v ===== *)
(** * The buddy allocator of a zone: [hw5/mm/page_alloc.c], lines 230 to 1206

    A zone keeps its free memory as blocks of [2 ^ order] pages on lists by
    order and migrate type.  Freeing merges a block with its free buddy as long
    as it can; allocating takes a block from the smallest order that has one
    and splits it.  Pages are named by their page frame number, so the pointer
    arithmetic of the source on [struct page *] is arithmetic on frame numbers.

    Configuration and the accessors of headers outside this repository are the
    parameter [BuddyConfig]; lists are the interface [KList].  The debug checks
    ([VM_BUG_ON], [bad_range]) are modelled as faults, and guard pages
    ([CONFIG_DEBUG_PAGEALLOC]) are not configured. *)

From S2P Require Import Prelude KList.

(** [enum migratetype] of the kernel's [mmzone.h]. *)
Definition MIGRATE_UNMOVABLE : Z := 0.
Definition MIGRATE_RECLAIMABLE : Z := 1.
Definition MIGRATE_MOVABLE : Z := 2.
Definition MIGRATE_PCPTYPES : Z := 3.
Definition MIGRATE_RESERVE : Z := 3.
Definition MIGRATE_CMA : Z := 4.

Class BuddyConfig : Type := {
  MAX_ORDER : Z;
  pageblock_order : Z;
  CONFIG_CMA : bool;
  CONFIG_HOLES_IN_ZONE : bool;
  page_group_by_mobility_disabled : bool;
  pfn_valid_within : Z → bool;
  page_zone : Z → Z;
  PAGE_BUDDY_MAPCOUNT_VALUE : Z;
  PAGE_FLAGS_CHECK_AT_FREE : Z;
  PAGE_FLAGS_CHECK_AT_PREP : Z;
  mem_cgroup_bad_page : Z → bool;
  GFP_ZERO_flag : Z;
  GFP_COMP_flag : Z
}.

(** The fields of [struct page] the allocator uses; [page_mapping] is 0 for a
    null pointer and has bit 0 set for anonymous memory. *)
Record page : Type := mkPage {
  _mapcount : Z;
  private : Z;
  _count : Z;
  page_mapping : Z;
  page_flags : Z;
  PageHead : bool;
  PageTail : bool;
  first_page : Z;
  compound_order : Z;
  mlocked : bool
}.
#[export] Instance page_eta : Settable page := λ r,
  mkPage (_mapcount r) (private r) (_count r) (page_mapping r) (page_flags r) (PageHead r)
    (PageTail r) (first_page r) (compound_order r) (mlocked r).

Definition no_page : page := mkPage (-1) 0 0 0 0 false false 0 0 false.

(** The list heads of a zone: [free_area[order].free_list[mt]] and the lists of
    the per-cpu page set. *)
Inductive lhead : Type :=
  | FreeList (order mt : Z)
  | PcpList (mt : Z).

#[export] Instance lhead_eq_dec : EqDecision lhead.
Proof. solve_decision. Defined.

#[export] Instance lhead_countable : Countable lhead.
Proof.
  refine (inj_countable'
    (λ h, match h with FreeList o mt => inl (o, mt) | PcpList mt => inr mt end)
    (λ x, match x with inl (o, mt) => FreeList o mt | inr mt => PcpList mt end) _).
  by intros [].
Defined.

Record zone (L : Type) : Type := mkZone {
  zone_id : Z;
  zone_start_pfn : Z;
  spanned_pages : Z;
  mem_map : gmap Z page;
  lists : L;
  nr_free : gmap Z Z;
  NR_FREE_PAGES : Z;
  NR_FREE_CMA_PAGES : Z;
  block_mt : gmap Z Z;        (** migrate type of a page block *)
  zone_lock : bool;
  all_unreclaimable : Z;
  pages_scanned : Z;
  cma_alloc : bool;
  pcp_count : Z;
  pcp_high : Z;
  pcp_batch : Z;
  watermark : gmap Z Z;       (** by WMARK_MIN, WMARK_LOW, WMARK_HIGH *)
  lowmem_reserve : gmap Z Z;
  percpu_drift_mark : Z;
  zone_idx : Z;
  compact_considered : Z;
  compact_defer_shift : Z;
  compact_order_failed : Z
}.
Arguments mkZone {L}.
Arguments zone_id {L}.
Arguments zone_start_pfn {L}.
Arguments spanned_pages {L}.
Arguments mem_map {L}.
Arguments lists {L}.
Arguments nr_free {L}.
Arguments NR_FREE_PAGES {L}.
Arguments NR_FREE_CMA_PAGES {L}.
Arguments block_mt {L}.
Arguments zone_lock {L}.
Arguments all_unreclaimable {L}.
Arguments pages_scanned {L}.
Arguments cma_alloc {L}.
Arguments pcp_count {L}.
Arguments pcp_high {L}.
Arguments pcp_batch {L}.
Arguments watermark {L}.
Arguments lowmem_reserve {L}.
Arguments percpu_drift_mark {L}.
Arguments zone_idx {L}.
Arguments compact_considered {L}.
Arguments compact_defer_shift {L}.
Arguments compact_order_failed {L}.
#[export] Instance zone_eta L : Settable (zone L) := λ r,
  mkZone (zone_id r) (zone_start_pfn r) (spanned_pages r) (mem_map r) (lists r) (nr_free r)
    (NR_FREE_PAGES r) (NR_FREE_CMA_PAGES r) (block_mt r) (zone_lock r) (all_unreclaimable r)
    (pages_scanned r) (cma_alloc r) (pcp_count r) (pcp_high r) (pcp_batch r) (watermark r)
    (lowmem_reserve r) (percpu_drift_mark r) (zone_idx r) (compact_considered r)
    (compact_defer_shift r) (compact_order_failed r).

Section Buddy.
Context {L : Type} `{KList lhead L} `{BuddyConfig}.
Implicit Types z : zone L.

Definition MIGRATE_ISOLATE : Z := if CONFIG_CMA then 5 else 4.
Definition MIGRATE_TYPES : Z := MIGRATE_ISOLATE + 1.
Definition is_migrate_cma (mt : Z) : bool := CONFIG_CMA && (mt =? MIGRATE_CMA).
Definition pageblock_nr_pages : Z := Z.shiftl 1 pageblock_order.

Definition page_at z (p : Z) : page := default no_page (mem_map z !! p).
Definition PageBuddy z (p : Z) : bool := _mapcount (page_at z p) =? PAGE_BUDDY_MAPCOUNT_VALUE.
Definition PageCompound z (p : Z) : bool := PageHead (page_at z p) || PageTail (page_at z p).
Definition nr_free_of z (o : Z) : Z := default 0 (nr_free z !! o).
Definition get_pageblock_migratetype z (p : Z) : Z :=
  default MIGRATE_UNMOVABLE (block_mt z !! (p / pageblock_nr_pages)).

Definition upd_page (p : Z) (f : page → page) : M (zone L) unit :=
  modify (λ z, z <| mem_map ::= <[p := f (page_at z p)]> |>).

Definition add_nr_free (o d : Z) : M (zone L) unit :=
  modify (λ z, z <| nr_free ::= <[o := u32 (nr_free_of z o + d)]> |>).

Definition VM_BUG_ON (b : bool) : M (zone L) unit := if b then fail BugOn else mret tt.

(** [__mod_zone_page_state (zone, NR_FREE_CMA_PAGES, d)] and the like. *)
Definition mod_free_pages (d : Z) : M (zone L) unit :=
  modify (λ z, z <| NR_FREE_PAGES := s32 (NR_FREE_PAGES z + d) |>).
Definition mod_free_cma_pages (d : Z) : M (zone L) unit :=
  modify (λ z, z <| NR_FREE_CMA_PAGES := s32 (NR_FREE_CMA_PAGES z + d) |>).
Definition __mod_zone_freepage_state (d mt : Z) : M (zone L) unit :=
  _ ← mod_free_pages d;
  if is_migrate_cma mt then mod_free_cma_pages d else mret tt.

Definition zone_spin_lock : M (zone L) unit :=
  held ← gets zone_lock;
  if held : bool then fail Blocked else modify (λ z, z <| zone_lock := true |>).
Definition zone_spin_unlock : M (zone L) unit := modify (λ z, z <| zone_lock := false |>).

Definition set_pageblock_migratetype (p mt : Z) : M (zone L) unit :=
  let mt := if page_group_by_mobility_disabled then MIGRATE_UNMOVABLE else mt in
  modify (λ z, z <| block_mt ::= <[p / pageblock_nr_pages := mt]> |>).

Definition page_outside_zone_boundaries z (p : Z) : bool :=
  (zone_start_pfn z + spanned_pages z <=? p) || (p <? zone_start_pfn z).

Definition page_is_consistent z (p : Z) : bool :=
  pfn_valid_within p && (page_zone p =? zone_id z).

Definition bad_range z (p : Z) : bool :=
  page_outside_zone_boundaries z p || negb (page_is_consistent z p).

(** Both ways out of [bad_page] reset the map count, which removes PageBuddy. *)
Definition bad_page (p : Z) : M (zone L) unit := upd_page p (λ v, v <| _mapcount := -1 |>).

Definition prep_compound_page (p order : Z) : M (zone L) unit :=
  _ ← upd_page p (λ v, v <| compound_order := order |>);
  _ ← upd_page p (λ v, v <| PageHead := true |>);
  for_each (seqZ 1 (Z.shiftl 1 order - 1)) (λ i,
    upd_page (p + i) (λ v, v <| PageTail := true |> <| _count := 0 |> <| first_page := p |>)).

(** One tail page of [destroy_compound_page]; the number of bad pages so far. *)
Fixpoint destroy_tails (is_ : list Z) (p bad : Z) : M (zone L) Z :=
  match is_ with
  | [] => mret bad
  | i :: is' =>
      z ← get;
      let v := page_at z (p + i) in
      let wrong := negb (PageTail v) || negb (first_page v =? p) in
      _ ← (if wrong then bad_page p else mret tt);
      _ ← upd_page (p + i) (λ v, v <| PageTail := false |>);
      destroy_tails is' p (if wrong then s32 (bad + 1) else bad)
  end.

Definition destroy_compound_page (p order : Z) : M (zone L) Z :=
  z ← get;
  let v := page_at z p in
  let wrong := negb (compound_order v =? order) || negb (PageHead v) in
  _ ← (if wrong then bad_page p else mret tt);
  _ ← upd_page p (λ v, v <| PageHead := false |>);
  destroy_tails (seqZ 1 (Z.shiftl 1 order - 1)) p (if wrong then 1 else 0).

Definition set_page_order (p order : Z) : M (zone L) unit :=
  _ ← upd_page p (λ v, v <| private := order |>);
  z ← get;
  _ ← VM_BUG_ON (negb (_mapcount (page_at z p) =? -1));
  upd_page p (λ v, v <| _mapcount := PAGE_BUDDY_MAPCOUNT_VALUE |>).

Definition rmv_page_order (p : Z) : M (zone L) unit :=
  z ← get;
  _ ← VM_BUG_ON (negb (PageBuddy z p));
  _ ← upd_page p (λ v, v <| _mapcount := -1 |>);
  upd_page p (λ v, v <| private := 0 |>).

Definition __find_buddy_index (page_idx order : Z) : Z := Z.lxor page_idx (Z.shiftl 1 order).

Definition page_is_buddy (p buddy order : Z) : M (zone L) bool :=
  if negb (pfn_valid_within buddy) then mret false
  else if negb (page_zone p =? page_zone buddy) then mret false
  else
    z ← get;
    if PageBuddy z buddy && (private (page_at z buddy) =? order) then
      _ ← VM_BUG_ON (negb (_count (page_at z buddy) =? 0));
      mret true
    else mret false.

(** The merging loop: the block, its index and order, and the last buddy looked
    at.  [fuel] bounds the orders left. *)
Fixpoint merge (fuel : nat) (p page_idx order : Z) (last : option (Z * Z))
    : M (zone L) (Z * Z * Z * option (Z * Z)) :=
  match fuel with
  | O => fail OutOfFuel
  | S fuel' =>
      if order <? MAX_ORDER - 1 then
        let buddy_idx := __find_buddy_index page_idx order in
        let buddy := p + (buddy_idx - page_idx) in
        b ← page_is_buddy p buddy order;
        if b : bool then
          _ ← modify (λ z, z <| lists ::= list_del buddy |>);
          _ ← add_nr_free order (-1);
          _ ← rmv_page_order buddy;
          let combined_idx := Z.land buddy_idx page_idx in
          merge fuel' (p + (combined_idx - page_idx)) combined_idx (order + 1)
            (Some (buddy, buddy_idx))
        else mret (p, page_idx, order, Some (buddy, buddy_idx))
      else mret (p, page_idx, order, last)
  end.

(** Whether the block goes to the tail of its list: the buddy of the next order
    is free. *)
Definition likely_to_merge (p page_idx order : Z) (last : option (Z * Z)) : M (zone L) bool :=
  if order <? MAX_ORDER - 2 then
    '(buddy, buddy_idx) ← deref last;
    if pfn_valid_within buddy then
      let combined_idx := Z.land buddy_idx page_idx in
      let higher_page := p + (combined_idx - page_idx) in
      let buddy_idx := __find_buddy_index combined_idx (order + 1) in
      let higher_buddy := p + (buddy_idx - combined_idx) in
      page_is_buddy higher_page higher_buddy (order + 1)
    else mret false
  else mret false.

(** [__free_one_page] after the checks on the block. *)
Definition free_block (p order mt : Z) : M (zone L) unit :=
  let page_idx := Z.land p (Z.shiftl 1 MAX_ORDER - 1) in
  '(p, page_idx, order, last) ← merge (Z.to_nat MAX_ORDER) p page_idx order None;
  _ ← set_page_order p order;
  tail ← likely_to_merge p page_idx order last;
  _ ← (if tail : bool
       then modify (λ z, z <| lists ::= list_add_tail p (FreeList order mt) |>)
       else modify (λ z, z <| lists ::= list_add p (FreeList order mt) |>));
  add_nr_free order 1.

Definition __free_one_page (p order mt : Z) : M (zone L) unit :=
  z ← get;
  bad ← (if PageCompound z p then destroy_compound_page p order else mret 0);
  if negb (bad =? 0) then mret tt
  else
    _ ← VM_BUG_ON (mt =? -1);
    let page_idx := Z.land p (Z.shiftl 1 MAX_ORDER - 1) in
    _ ← VM_BUG_ON (has_flag page_idx (Z.shiftl 1 order - 1));
    z ← get;
    _ ← VM_BUG_ON (bad_range z p);
    free_block p order mt.

(** [page_mapcount (page) | page->mapping != NULL | page->_count != 0 | ...]. *)
Definition page_in_use z (p flags : Z) : bool :=
  let v := page_at z p in
  negb (_mapcount v + 1 =? 0) || negb (page_mapping v =? 0) || negb (_count v =? 0)
  || has_flag (page_flags v) flags || mem_cgroup_bad_page p.

Definition free_pages_check (p : Z) : M (zone L) Z :=
  z ← get;
  if page_in_use z p PAGE_FLAGS_CHECK_AT_FREE then
    _ ← bad_page p;
    mret 1
  else
    _ ← (if has_flag (page_flags (page_at z p)) PAGE_FLAGS_CHECK_AT_PREP
         then upd_page p (λ v, v <| page_flags := Z.ldiff (page_flags v) PAGE_FLAGS_CHECK_AT_PREP |>)
         else mret tt);
    mret 0.

(** The next per-cpu list that has pages, round robin from [mt], and the
    number of lists tried. *)
Fixpoint next_pcp_list (fuel : nat) (mt batch_free : Z) : M (zone L) (Z * Z) :=
  match fuel with
  | O => fail OutOfFuel
  | S fuel' =>
      let batch_free := batch_free + 1 in
      let mt := if mt + 1 =? MIGRATE_PCPTYPES then 0 else mt + 1 in
      z ← get;
      if decide (elems (lists z) (PcpList mt) = []) then next_pcp_list fuel' mt batch_free
      else mret (mt, batch_free)
  end.

(** Free pages from the end of one per-cpu list. *)
Fixpoint drain_list (fuel : nat) (mt to_free batch_free : Z) : M (zone L) (Z * Z) :=
  match fuel with
  | O => fail OutOfFuel
  | S fuel' =>
      z ← get;
      p ← deref (last (elems (lists z) (PcpList mt)));
      let block := get_pageblock_migratetype z p in
      _ ← modify (λ z, z <| lists ::= list_del p |>);
      _ ← __free_one_page p 0 (private (page_at z p));
      _ ← (if is_migrate_cma block then mod_free_cma_pages 1 else mret tt);
      let to_free := to_free - 1 in
      if to_free =? 0 then mret (to_free, batch_free)
      else
        let batch_free := batch_free - 1 in
        if batch_free =? 0 then mret (to_free, batch_free)
        else
          z ← get;
          if decide (elems (lists z) (PcpList mt) = []) then mret (to_free, batch_free)
          else drain_list fuel' mt to_free batch_free
  end.

Fixpoint drain_lists (fuel : nat) (mt to_free batch_free : Z) : M (zone L) unit :=
  match fuel with
  | O => fail OutOfFuel
  | S fuel' =>
      if to_free =? 0 then mret tt
      else
        '(mt, batch_free) ← next_pcp_list 3 mt batch_free;
        let batch_free := if batch_free =? MIGRATE_PCPTYPES then to_free else batch_free in
        '(to_free, batch_free) ← drain_list (Z.to_nat to_free) mt to_free batch_free;
        drain_lists fuel' mt to_free batch_free
  end.

Definition free_pcppages_bulk (count : Z) : M (zone L) unit :=
  _ ← zone_spin_lock;
  _ ← modify (λ z, z <| all_unreclaimable := 0 |>);
  _ ← modify (λ z, z <| pages_scanned := 0 |>);
  _ ← drain_lists (S (Z.to_nat count)) 0 count 0;
  _ ← mod_free_pages count;
  zone_spin_unlock.

Definition free_one_page (p order mt : Z) : M (zone L) unit :=
  _ ← zone_spin_lock;
  _ ← modify (λ z, z <| all_unreclaimable := 0 |>);
  _ ← modify (λ z, z <| pages_scanned := 0 |>);
  _ ← __free_one_page p order mt;
  _ ← (if negb (mt =? MIGRATE_ISOLATE) then __mod_zone_freepage_state (Z.shiftl 1 order) mt
       else mret tt);
  zone_spin_unlock.

Fixpoint check_pages (is_ : list Z) (p bad : Z) : M (zone L) Z :=
  match is_ with
  | [] => mret bad
  | i :: is' => b ← free_pages_check (p + i); check_pages is' p (s32 (bad + b))
  end.

Definition free_pages_prepare (p order : Z) : M (zone L) bool :=
  z ← get;
  _ ← (if Z.testbit (page_mapping (page_at z p)) 0
       then upd_page p (λ v, v <| page_mapping := 0 |>) else mret tt);
  bad ← check_pages (seqZ 0 (Z.shiftl 1 order)) p 0;
  mret (bad =? 0).

Definition __free_pages_ok (p order : Z) : M (zone L) unit :=
  _ ← upd_page p (λ v, v <| mlocked := false |>);
  ok ← free_pages_prepare p order;
  if ok : bool then
    z ← get;
    free_one_page p order (get_pageblock_migratetype z p)
  else mret tt.

Definition free_compound_page (p : Z) : M (zone L) unit :=
  z ← get;
  __free_pages_ok p (compound_order (page_at z p)).

(** [n] is [high - low], the number of halvings left. *)
Fixpoint expand (n : nat) (p high mt : Z) : M (zone L) unit :=
  match n with
  | O => mret tt
  | S n' =>
      let high := high - 1 in
      let size := Z.shiftl 1 high in
      z ← get;
      _ ← VM_BUG_ON (bad_range z (p + size));
      _ ← modify (λ z, z <| lists ::= list_add (p + size) (FreeList high mt) |>);
      _ ← add_nr_free high 1;
      _ ← set_page_order (p + size) high;
      expand n' p high mt
  end.

Definition check_new_page (p : Z) : M (zone L) Z :=
  z ← get;
  if page_in_use z p PAGE_FLAGS_CHECK_AT_PREP then
    _ ← bad_page p;
    mret 1
  else mret 0.

Fixpoint check_new_pages (is_ : list Z) (p : Z) : M (zone L) Z :=
  match is_ with
  | [] => mret 0
  | i :: is' =>
      b ← check_new_page (p + i);
      if negb (b =? 0) then mret 1 else check_new_pages is' p
  end.

(** [set_page_refcounted] of [mm/internal.h]. *)
Definition set_page_refcounted (p : Z) : M (zone L) unit :=
  z ← get;
  _ ← VM_BUG_ON (PageTail (page_at z p));
  _ ← VM_BUG_ON (negb (_count (page_at z p) =? 0));
  upd_page p (λ v, v <| _count := 1 |>).

Definition prep_new_page (p order gfp_flags : Z) : M (zone L) Z :=
  bad ← check_new_pages (seqZ 0 (Z.shiftl 1 order)) p;
  if negb (bad =? 0) then mret 1
  else
    _ ← upd_page p (λ v, v <| private := 0 |>);
    _ ← set_page_refcounted p;
    _ ← (if negb (order =? 0) && has_flag gfp_flags GFP_COMP_flag
         then prep_compound_page p order else mret tt);
    mret 0.

(** The search of [__rmqueue_smallest] over the orders [os]. *)
Fixpoint rmqueue_from (os : list Z) (order mt : Z) : M (zone L) (option Z) :=
  match os with
  | [] => mret None
  | current_order :: os' =>
      z ← get;
      match elems (lists z) (FreeList current_order mt) with
      | [] => rmqueue_from os' order mt
      | p :: _ =>
          _ ← modify (λ z, z <| lists ::= list_del p |>);
          _ ← rmv_page_order p;
          _ ← add_nr_free current_order (-1);
          _ ← expand (Z.to_nat (current_order - order)) p current_order mt;
          mret (Some p)
      end
  end.

Definition __rmqueue_smallest (order mt : Z) : M (zone L) (option Z) :=
  rmqueue_from (seqZ order (MAX_ORDER - order)) order mt.

(** The rows of [fallbacks] up to the entry MIGRATE_RESERVE. *)
Definition fallbacks (mt : Z) : list Z :=
  if mt =? MIGRATE_UNMOVABLE then [MIGRATE_RECLAIMABLE; MIGRATE_MOVABLE]
  else if mt =? MIGRATE_RECLAIMABLE then [MIGRATE_UNMOVABLE; MIGRATE_MOVABLE]
  else if mt =? MIGRATE_MOVABLE then
    if CONFIG_CMA then [MIGRATE_CMA; MIGRATE_RECLAIMABLE; MIGRATE_UNMOVABLE]
    else [MIGRATE_RECLAIMABLE; MIGRATE_UNMOVABLE]
  else [].

Definition get_migratetype_fallbacks (mt : Z) : list Z := fallbacks mt.

(** The walk of [move_freepages] from [p] to [last_page].  The debugging check that each
    page is of the node of the zone has no counterpart: zones here do not know their
    node. *)
Fixpoint move_from (fuel : nat) (p last_page mt moved : Z) : M (zone L) Z :=
  match fuel with
  | O => fail OutOfFuel
  | S fuel' =>
      if p <=? last_page then
        z ← get;
        if negb (pfn_valid_within p) then move_from fuel' (p + 1) last_page mt moved
        else if negb (PageBuddy z p) then move_from fuel' (p + 1) last_page mt moved
        else
          let order := private (page_at z p) in
          _ ← modify (λ z, z <| lists ::= list_del p |>);
          _ ← modify (λ z, z <| lists ::= list_add p (FreeList order mt) |>);
          move_from fuel' (p + Z.shiftl 1 order) last_page mt (s32 (moved + Z.shiftl 1 order))
      else mret moved
  end.

Definition move_freepages (start_page end_page mt : Z) : M (zone L) Z :=
  _ ← (if negb CONFIG_HOLES_IN_ZONE && negb (page_zone start_page =? page_zone end_page)
       then fail BugOn else mret tt);
  move_from (S (S (Z.to_nat (end_page - start_page)))) start_page end_page mt 0.

Definition move_freepages_block (p mt : Z) : M (zone L) Z :=
  z ← get;
  let start_pfn := Z.ldiff p (pageblock_nr_pages - 1) in
  let end_pfn := start_pfn + pageblock_nr_pages - 1 in
  let start_page := if start_pfn <? zone_start_pfn z then p else start_pfn in
  if zone_start_pfn z + spanned_pages z <=? end_pfn then mret 0
  else move_freepages start_page end_pfn mt.

Definition change_pageblock_range (p start_order mt : Z) : M (zone L) unit :=
  for_each (seqZ 0 (Z.shiftl 1 (start_order - pageblock_order))) (λ i,
    set_pageblock_migratetype (p + i * pageblock_nr_pages) mt).

(** Take the block [p] of [current_order] from the lists of type [mt]. *)
Definition steal_block (p current_order order start_mt mt : Z) : M (zone L) unit :=
  _ ← add_nr_free current_order (-1);
  mt ← (if negb (is_migrate_cma mt) &&
           ((pageblock_order / 2 <=? current_order) || (start_mt =? MIGRATE_RECLAIMABLE)
            || page_group_by_mobility_disabled) then
          pages ← move_freepages_block p start_mt;
          _ ← (if (Z.shiftl 1 (pageblock_order - 1) <=? pages) || page_group_by_mobility_disabled
               then set_pageblock_migratetype p start_mt else mret tt);
          mret start_mt
        else mret mt);
  _ ← modify (λ z, z <| lists ::= list_del p |>);
  _ ← rmv_page_order p;
  _ ← (if (pageblock_order <=? current_order) && negb (is_migrate_cma mt)
       then change_pageblock_range p current_order start_mt else mret tt);
  expand (Z.to_nat (current_order - order)) p current_order
    (if is_migrate_cma mt then mt else start_mt).

Fixpoint fallback_types (mts : list Z) (current_order order start_mt : Z)
    : M (zone L) (option Z) :=
  match mts with
  | [] => mret None
  | mt :: mts' =>
      z ← get;
      match elems (lists z) (FreeList current_order mt) with
      | [] => fallback_types mts' current_order order start_mt
      | p :: _ =>
          _ ← steal_block p current_order order start_mt mt;
          mret (Some p)
      end
  end.

Fixpoint fallback_orders (os : list Z) (order start_mt : Z) : M (zone L) (option Z) :=
  match os with
  | [] => mret None
  | current_order :: os' =>
      r ← fallback_types (fallbacks start_mt) current_order order start_mt;
      match r with
      | Some p => mret (Some p)
      | None => fallback_orders os' order start_mt
      end
  end.

Definition __rmqueue_fallback (order start_mt : Z) : M (zone L) (option Z) :=
  fallback_orders (reverse (seqZ order (MAX_ORDER - order))) order start_mt.

(** From the label [retry_reserve] on, with what the first search found. *)
Definition rmqueue_rest (r : option Z) (order mt : Z) : M (zone L) (option Z) :=
  match r with
  | Some p => mret (Some p)
  | None =>
      if mt =? MIGRATE_RESERVE then mret None
      else
        r ← __rmqueue_fallback order mt;
        match r with
        | Some p => mret (Some p)
        | None => __rmqueue_smallest order MIGRATE_RESERVE
        end
  end.

Definition __rmqueue (order mt : Z) : M (zone L) (option Z) :=
  r ← __rmqueue_smallest order mt;
  rmqueue_rest r order mt.

Definition __rmqueue_cma (order mt : Z) : M (zone L) (option Z) :=
  z ← get;
  r ← (if CONFIG_CMA && (mt =? MIGRATE_MOVABLE) && negb (cma_alloc z)
       then __rmqueue_smallest order MIGRATE_CMA else mret None);
  r ← match r with
      | Some p => mret (Some p)
      | None => __rmqueue_smallest order mt
      end;
  rmqueue_rest r order mt.

(** The loop of [rmqueue_bulk]; [pos] is the list position of the last page
    added, [None] for the head.  Returns the number of pages taken. *)
Fixpoint bulk_loop (n : nat) (order mt : Z) (cold cma : bool) (lst : Z) (pos : option Z) (i : Z)
    : M (zone L) Z :=
  match n with
  | O => mret i
  | S n' =>
      r ← (if cma then __rmqueue_cma order mt else __rmqueue order mt);
      match r with
      | None => mret i
      | Some p =>
          _ ← modify (λ z, z <| lists ::=
                match pos, cold with
                | None, false => list_add p (PcpList lst)
                | None, true => list_add_tail p (PcpList lst)
                | Some q, false => list_add_after p q
                | Some q, true => list_add_before p q
                end |>);
          z ← get;
          let block := get_pageblock_migratetype z p in
          let m := if CONFIG_CMA && (is_migrate_cma block || (block =? MIGRATE_ISOLATE))
                   then block else mt in
          _ ← upd_page p (λ v, v <| private := m |>);
          _ ← (if is_migrate_cma m then mod_free_cma_pages (- Z.shiftl 1 order) else mret tt);
          bulk_loop n' order mt cold cma lst (Some p) (i + 1)
      end
  end.

Definition rmqueue_bulk (order count lst mt : Z) (cold cma : bool) : M (zone L) Z :=
  _ ← zone_spin_lock;
  i ← bulk_loop (Z.to_nat count) order mt cold cma lst None 0;
  _ ← mod_free_pages (- Z.shiftl i order);
  _ ← zone_spin_unlock;
  mret i.

End Buddy.
