(* ===== verification/BuddySpec.v ===== *)
(** * Correctness of the buddy allocator

    The free memory of a zone is the union of its free blocks.  [buddy_inv]
    states that the blocks are aligned, disjoint, correctly marked, counted in
    [nr_free], and that no two free buddies are left unmerged.  The operations
    of [Buddy.v] are compositions of two steps, taking a block out and putting
    one in; the lemmas on them carry the invariant. *)

From S2P Require Import Prelude KList Buddy.

(** ** Blocks and buddies *)

(** The page [x] is in the block of order [o] at [p]. *)
Definition covers (p o x : Z) : Prop := p ≤ x < p + 2 ^ o.

(** The buddy of the block of order [o] at [p], and the block of order [o + 1]
    they form. *)
Definition buddy_of (p o : Z) : Z := if Z.even (p / 2 ^ o) then p + 2 ^ o else p - 2 ^ o.
Definition pair_base (p o : Z) : Z := if Z.even (p / 2 ^ o) then p else p - 2 ^ o.

Section Arithmetic.
Context (o : Z) (Ho : 0 ≤ o).

Lemma pow_pos : 0 < 2 ^ o.
Proof using Ho. apply Z.pow_pos_nonneg; lia. Qed.

Lemma pow_succ : 2 ^ (o + 1) = 2 * 2 ^ o.
Proof using Ho. rewrite Z.pow_add_r by lia. lia. Qed.

Lemma covers_self p : covers p o p.
Proof using Ho. unfold covers. pose proof pow_pos. lia. Qed.

Lemma lxor_1 k : Z.lxor k 1 = if Z.even k then k + 1 else k - 1.
Proof using.
  assert (∀ j, Z.lxor (2 * j) 1 = 2 * j + 1) as He.
  { intros j. symmetry. apply Z.add_nocarry_lxor. apply Z.bits_inj'. intros n Hn.
    rewrite Z.land_spec, Z.bits_0. destruct (decide (n = 0)) as [->|].
    - by rewrite Z.testbit_even_0.
    - replace n with (Z.succ (n - 1)) by lia. change 1 with (2 * 0 + 1).
      rewrite Z.testbit_odd_succ, Z.bits_0, andb_false_r by lia. done. }
  destruct (Z.even k) eqn:E.
  - apply Z.even_spec in E as [j ->]. apply He.
  - assert (Z.odd k = true) as Hodd by (rewrite <- Z.negb_even, E; done).
    apply Z.odd_spec in Hodd as [j ->]. rewrite <- He at 1.
    rewrite Z.lxor_assoc, Z.lxor_nilpotent, Z.lxor_0_r. lia.
Qed.

Lemma shift_one : Z.shiftl 1 o = 2 ^ o.
Proof using Ho. rewrite Z.shiftl_mul_pow2 by lia. lia. Qed.

(** The index computations of the source. *)
Lemma find_buddy_eq x : (2 ^ o | x) → __find_buddy_index x o = buddy_of x o.
Proof using Ho.
  intros [k ->]. unfold __find_buddy_index, buddy_of. pose proof pow_pos.
  rewrite shift_one, Z.div_mul by lia.
  replace (2 ^ o) with (1 * 2 ^ o) at 2 by lia.
  rewrite <- !Z.shiftl_mul_pow2, <- Z.shiftl_lxor, lxor_1 by lia.
  rewrite !Z.shiftl_mul_pow2 by lia. destruct (Z.even k); lia.
Qed.

Lemma combined_eq x : (2 ^ o | x) → Z.land (buddy_of x o) x = pair_base x o.
Proof using Ho.
  intros Hx. rewrite <- find_buddy_eq by done. destruct Hx as [k ->].
  unfold __find_buddy_index, pair_base. pose proof pow_pos.
  rewrite shift_one, Z.div_mul by lia.
  replace (2 ^ o) with (1 * 2 ^ o) at 2 by lia.
  rewrite <- !Z.shiftl_mul_pow2, <- Z.shiftl_lxor, <- Z.shiftl_land by lia.
  rewrite !Z.shiftl_mul_pow2 by lia.
  assert (Z.land (Z.lxor k 1) k = if Z.even k then k else k - 1) as ->.
  { assert (∀ j, Z.land (2 * j + 1) (2 * j) = 2 * j) as Hj.
    { intros j. apply Z.bits_inj'. intros n Hn. rewrite Z.land_spec.
      destruct (decide (n = 0)) as [->|]; [by rewrite Z.testbit_even_0, andb_false_r|].
      replace n with (Z.succ (n - 1)) by lia.
      rewrite Z.testbit_odd_succ, Z.testbit_even_succ by lia. apply andb_diag. }
    rewrite lxor_1. destruct (Z.even k) eqn:E.
    - apply Z.even_spec in E as [j ->]. apply Hj.
    - assert (Z.odd k = true) as Hodd by (rewrite <- Z.negb_even, E; done).
      apply Z.odd_spec in Hodd as [j ->].
      replace (2 * j + 1 - 1) with (2 * j) by lia. rewrite Z.land_comm. apply Hj. }
  destruct (Z.even k); lia.
Qed.

(** Buddies are computed on indices within the largest block. *)
Lemma buddy_shift p x m : o < m → (2 ^ m | p - x) → (2 ^ o | x) →
  p + (buddy_of x o - x) = buddy_of p o ∧ p + (pair_base x o - x) = pair_base p o.
Proof using Ho.
  intros Hm [k Hk] [j ->]. pose proof pow_pos.
  assert (p = (2 ^ (m - o) * k + j) * 2 ^ o) as ->.
  { replace (2 ^ m) with (2 ^ (m - o) * 2 ^ o) in Hk
      by (rewrite <- Z.pow_add_r by lia; f_equal; lia). lia. }
  unfold buddy_of, pair_base. rewrite !Z.div_mul by lia.
  replace (2 ^ (m - o)) with (2 * 2 ^ (m - o - 1))
    by (rewrite <- Z.pow_succ_r by lia; f_equal; lia).
  rewrite Z.even_add, <- Z.mul_assoc, Z.even_mul. simpl.
  destruct (Z.even j); simpl; lia.
Qed.

Lemma aligned_buddy p : (2 ^ o | p) → (2 ^ o | buddy_of p o).
Proof using Ho.
  intros [k ->]. unfold buddy_of. destruct (Z.even _); [exists (k + 1)|exists (k - 1)]; lia.
Qed.

Lemma aligned_pair p : (2 ^ o | p) → (2 ^ (o + 1) | pair_base p o).
Proof using Ho.
  intros [k ->]. unfold pair_base. pose proof pow_pos. rewrite Z.div_mul, pow_succ by lia.
  destruct (Z.even k) eqn:E.
  - apply Z.even_spec in E as [j ->]. exists j. lia.
  - assert (Z.odd k = true) as Hodd by (rewrite <- Z.negb_even, E; done).
    apply Z.odd_spec in Hodd as [j ->]. exists j. lia.
Qed.

Lemma buddy_buddy p : (2 ^ o | p) → buddy_of (buddy_of p o) o = p.
Proof using Ho.
  intros [k ->]. unfold buddy_of. pose proof pow_pos. rewrite Z.div_mul by lia.
  destruct (Z.even k) eqn:E.
  - replace (k * 2 ^ o + 2 ^ o) with ((k + 1) * 2 ^ o) by lia.
    rewrite Z.div_mul, Z.even_add, E by lia. simpl. lia.
  - replace (k * 2 ^ o - 2 ^ o) with ((k - 1) * 2 ^ o) by lia.
    rewrite Z.div_mul, Z.even_sub, E by lia. simpl. lia.
Qed.

Lemma covers_pair p x :
  covers (pair_base p o) (o + 1) x ↔ covers p o x ∨ covers (buddy_of p o) o x.
Proof using Ho.
  unfold covers, pair_base, buddy_of. rewrite pow_succ. pose proof pow_pos.
  destruct (Z.even _); lia.
Qed.

Lemma covers_split p x : covers p (o + 1) x ↔ covers p o x ∨ covers (p + 2 ^ o) o x.
Proof using Ho. unfold covers. rewrite pow_succ. pose proof pow_pos. lia. Qed.

Lemma buddy_of_upper p : (2 ^ (o + 1) | p) → buddy_of (p + 2 ^ o) o = p.
Proof using Ho.
  intros [k ->]. rewrite pow_succ. unfold buddy_of. pose proof pow_pos.
  replace (k * (2 * 2 ^ o) + 2 ^ o) with ((2 * k + 1) * 2 ^ o) by lia.
  rewrite Z.div_mul, Z.even_add, Z.even_mul by lia. simpl. lia.
Qed.
End Arithmetic.

(** ** The invariant *)

Section BuddyInv.
Context {L : Type} `{KListLaws lhead L} `{BuddyConfig}.
Hypothesis buddy_value : PAGE_BUDDY_MAPCOUNT_VALUE ≠ -1.
Implicit Types z : zone L.

Definition free_at z (p o : Z) : Prop := ∃ mt, p ∈ elems (lists z) (FreeList o mt).
Definition is_free z (x : Z) : Prop := ∃ p o, free_at z p o ∧ covers p o x.

(** A page nobody uses and that is on no list. *)
Definition page_idle z (x : Z) : Prop :=
  _mapcount (page_at z x) = -1 ∧ _count (page_at z x) = 0 ∧ off_list (lists z) x.

(** An aligned block of the zone that is out of the allocator. *)
Definition block_ok z (p o : Z) : Prop :=
  0 ≤ o < MAX_ORDER ∧ (2 ^ o | p) ∧
  ∀ x, covers p o x → page_idle z x ∧ ¬ is_free z x ∧ bad_range z x = false.

Definition blocks z (o : Z) : Z :=
  sumZ (λ mt, Z.of_nat (length (elems (lists z) (FreeList o mt)))) (seqZ 0 MIGRATE_TYPES).

Record buddy_inv z : Prop := {
  bi_lists : lists_wf (lists z);
  bi_types p o mt : p ∈ elems (lists z) (FreeList o mt) → 0 ≤ mt < MIGRATE_TYPES;
  bi_block p o : free_at z p o →
    0 ≤ o < MAX_ORDER ∧ (2 ^ o | p) ∧ PageBuddy z p = true ∧ private (page_at z p) = o ∧
    _count (page_at z p) = 0;
  bi_zone p o x : free_at z p o → covers p o x → bad_range z x = false;
  bi_flag p : PageBuddy z p = true → free_at z p (private (page_at z p));
  bi_disjoint p o q o' x :
    free_at z p o → free_at z q o' → covers p o x → covers q o' x → p = q;
  bi_inner p o x : free_at z p o → covers p o x → x ≠ p → page_idle z x;
  bi_coalesced p o : free_at z p o → o < MAX_ORDER - 1 → ¬ free_at z (buddy_of p o) o;
  bi_count o : nr_free_of z o = u32 (blocks z o)
}.

Lemma free_order z p o o' : buddy_inv z → free_at z p o → free_at z p o' → o = o'.
Proof.
  intros Hi (_ & _ & _ & <- & _)%(bi_block z Hi) (_ & _ & _ & <- & _)%(bi_block z Hi). done.
Qed.

Lemma free_self z p o : buddy_inv z → free_at z p o → is_free z p.
Proof. intros Hi Hf. exists p, o. split; [done|]. apply covers_self. destruct (bi_block z Hi p o Hf) as [? _]; lia. Qed.

Lemma free_on_list z p o : free_at z p o → on_list (lists z) p.
Proof. intros [mt Hin]. by eexists. Qed.

(** ** Taking a block out *)

Definition take_block z (b o : Z) : zone L :=
  z <| lists ::= list_del b |> <| nr_free ::= <[o := u32 (nr_free_of z o + -1)]> |>
    <| mem_map ::= <[b := (page_at z b) <| _mapcount := -1 |> <| private := 0 |>]> |>.

Lemma take_block_page z b o x : x ≠ b → page_at (take_block z b o) x = page_at z x.
Proof. intros Hx. unfold page_at, take_block. simpl. by rewrite lookup_insert_ne. Qed.

Lemma take_block_page_eq z b o :
  page_at (take_block z b o) b = (page_at z b) <| _mapcount := -1 |> <| private := 0 |>.
Proof. unfold page_at at 1, take_block. simpl. by rewrite lookup_insert_eq. Qed.

Lemma take_block_free z b o q o' :
  buddy_inv z → free_at z b o → free_at (take_block z b o) q o' ↔ free_at z q o' ∧ q ≠ b.
Proof.
  intros Hi Hf. unfold free_at, take_block. simpl.
  setoid_rewrite elems_del_in; [|apply Hi|by eapply free_on_list]. naive_solver.
Qed.

Lemma take_block_is_free z b o x :
  buddy_inv z → free_at z b o →
  is_free (take_block z b o) x ↔ is_free z x ∧ ¬ covers b o x.
Proof.
  intros Hi Hf. unfold is_free. setoid_rewrite take_block_free; [|done..]. split.
  - intros (p & o' & [Hp Hne] & Hc). split; [eauto|]. intros Hb.
    by eapply Hne, (bi_disjoint z Hi).
  - intros [(p & o' & Hp & Hc) Hb]. exists p, o'. split; [|done]. split; [done|].
    intros ->. rewrite (free_order z b o' o Hi Hp Hf) in Hc. done.
Qed.

Lemma take_block_off z b o x :
  buddy_inv z → free_at z b o → off_list (lists z) x ∨ x = b →
  off_list (lists (take_block z b o)) x.
Proof.
  intros Hi Hf Hx h. unfold take_block. simpl.
  rewrite elems_del_in; [|apply Hi|by eapply free_on_list].
  destruct Hx as [Hx| ->]; [|tauto]. specialize (Hx h). tauto.
Qed.

Lemma take_block_idle z b o x :
  buddy_inv z → free_at z b o → page_idle z x → page_idle (take_block z b o) x.
Proof.
  intros Hi Hf (Hm & Hc & Ho). destruct (decide (x = b)) as [->|].
  - destruct (free_on_list z b o Hf) as [h Hh]. by destruct (Ho h).
  - unfold page_idle. rewrite take_block_page by done.
    split_and!; [done..|]. apply take_block_off; auto.
Qed.

Lemma take_block_ok z b o q o' :
  buddy_inv z → free_at z b o → block_ok z q o' → block_ok (take_block z b o) q o'.
Proof.
  intros Hi Hf (Hr & Ha & Hx). split_and!; [lia|lia|done|]. intros x Hc.
  destruct (Hx x Hc) as (? & Hnf & ?). split_and!; [by apply take_block_idle| |done].
  rewrite take_block_is_free by done. tauto.
Qed.

Lemma take_block_result z b o :
  buddy_inv z → free_at z b o → block_ok (take_block z b o) b o.
Proof.
  intros Hi Hf. destruct (bi_block z Hi b o Hf) as (Hr & Ha & Hb & Hp & Hc).
  split_and!; [lia|lia|done|]. intros x Hx. split_and!; [| |by eapply (bi_zone z Hi)].
  - destruct (decide (x = b)) as [->|Hne].
    + unfold page_idle. rewrite take_block_page_eq. split_and!; [done|done|].
      apply take_block_off; auto.
    + apply take_block_idle; [done..|]. by eapply (bi_inner z Hi).
  - rewrite take_block_is_free by done. tauto.
Qed.

(** The count of blocks changes with the lists. *)
Lemma sum_update (f g : Z → Z) (mts : list Z) (mt d : Z) :
  mt ∈ mts → NoDup mts → (∀ m, m ≠ mt → g m = f m) → g mt = f mt + d →
  sumZ g mts = sumZ f mts + d.
Proof.
  intros Hin Hnd Hother Hmt. revert Hin. induction mts as [|m mts IH]; [by intros ?%elem_of_nil|].
  apply NoDup_cons in Hnd as [Hm Hnd]. simpl. intros [->|Hin]%elem_of_cons.
  - rewrite Hmt. assert (sumZ g mts = sumZ f mts) as ->; [|lia].
    clear IH Hnd. induction mts as [|x mts IHx]; [done|]. simpl.
    rewrite IHx by set_solver. rewrite (Hother x) by set_solver. done.
  - rewrite (Hother m) by set_solver. rewrite IH by done. lia.
Qed.

Lemma sum_same (f g : Z → Z) (mts : list Z) : (∀ m, g m = f m) → sumZ g mts = sumZ f mts.
Proof. intros Hfg. induction mts as [|m mts IH]; simpl; [done|]. by rewrite Hfg, IH. Qed.

Lemma remove_length (x : Z) q : x ∈ q → Z.of_nat (length (remove_one x q)) = Z.of_nat (length q) + -1.
Proof. intros Hx. rewrite (remove_one_perm x q Hx) at 2. simpl. lia. Qed.

Lemma type_in_range mt : 0 ≤ mt < MIGRATE_TYPES → mt ∈ seqZ 0 MIGRATE_TYPES.
Proof. intros. apply elem_of_seqZ. lia. Qed.

Lemma take_block_count z b o o' :
  buddy_inv z → free_at z b o →
  blocks (take_block z b o) o' = blocks z o' + (if decide (o' = o) then -1 else 0).
Proof.
  intros Hi Hf. pose proof Hf as [mt Hin]. unfold blocks, take_block. simpl.
  assert (on_list (lists z) b) as Hon by (by eapply free_on_list).
  assert (∀ h, elems (list_del b (lists z)) h = remove_one b (elems (lists z) h)) as He
    by (intros h; by apply elems_del, Hon; apply Hi).
  assert (∀ h, h ≠ FreeList o mt → elems (list_del b (lists z)) h = elems (lists z) h) as Hne.
  { intros h Hh. rewrite He. apply remove_one_absent. intros Hb. apply Hh.
    by apply (wf_one _ (bi_lists z Hi) b). }
  case_decide as Ho; [subst o'|].
  - apply sum_update with mt; [by eapply type_in_range, (bi_types z Hi)|apply NoDup_seqZ| |].
    + intros m Hm. by rewrite Hne by congruence.
    + rewrite He. by apply remove_length.
  - rewrite Z.add_0_r. apply sum_same. intros m. by rewrite Hne by congruence.
Qed.

Lemma nr_free_insert z z' o v o' :
  nr_free z' = <[o := v]> (nr_free z) →
  nr_free_of z' o' = if decide (o' = o) then v else nr_free_of z o'.
Proof.
  intros E. unfold nr_free_of. rewrite E. case_decide; subst; [by rewrite lookup_insert_eq|].
  by rewrite lookup_insert_ne.
Qed.

Lemma take_block_inv z b o : buddy_inv z → free_at z b o → buddy_inv (take_block z b o).
Proof.
  intros Hi Hf. assert (on_list (lists z) b) as Hon by (by eapply free_on_list). split.
  - apply wf_del; [apply Hi|done].
  - intros p o' mt. unfold take_block. simpl. rewrite elems_del_in by (done || apply Hi).
    intros [? _]. by eapply (bi_types z Hi).
  - intros p o'. rewrite take_block_free by done. intros [Hp Hne].
    unfold PageBuddy. rewrite take_block_page by done. by apply (bi_block z Hi).
  - intros p o' x. rewrite take_block_free by done. intros [Hp _]. by apply (bi_zone z Hi).
  - intros p. destruct (decide (p = b)) as [->|Hne].
    + unfold PageBuddy. rewrite take_block_page_eq. intros E%Z.eqb_eq. simpl in E. congruence.
    + unfold PageBuddy. rewrite take_block_page by done. intros Hb.
      apply take_block_free; [done..|]. split; [|done]. by apply (bi_flag z Hi).
  - intros p o1 q o2 x. rewrite !take_block_free by done. intros [? _] [? _].
    by eapply (bi_disjoint z Hi).
  - intros p o' x. rewrite take_block_free by done. intros [Hp Hne] Hc Hx.
    apply take_block_idle; [done..|]. by eapply (bi_inner z Hi).
  - intros p o'. rewrite !take_block_free by done. intros [Hp _] Hlt [Hq _].
    by apply (bi_coalesced z Hi p o' Hp Hlt).
  - intros o'. erewrite nr_free_insert by reflexivity. rewrite take_block_count by done.
    case_decide; subst; [|by rewrite Z.add_0_r; apply (bi_count z Hi)].
    rewrite (bi_count z Hi). by autorewrite with wrap.
Qed.

(** ** Putting a block in *)

Definition put_block z (p o mt : Z) (tail : bool) : zone L :=
  z <| mem_map ::= <[p := (page_at z p) <| private := o |>
                            <| _mapcount := PAGE_BUDDY_MAPCOUNT_VALUE |>]> |>
    <| lists ::= (if tail then list_add_tail p (FreeList o mt) else list_add p (FreeList o mt)) |>
    <| nr_free ::= <[o := u32 (nr_free_of z o + 1)]> |>.

Section PutBlock.
Variables (z : zone L) (p o mt : Z) (tail : bool).
Hypothesis Hi : buddy_inv z.
Hypothesis Hok : block_ok z p o.
Abbreviation z' := (put_block z p o mt tail).

Lemma put_idle_self : page_idle z p.
Proof. destruct Hok as (Hr & _ & Hx). apply Hx, covers_self. lia. Qed.

Lemma put_elems_in q h :
  q ∈ elems (lists z') h ↔ (q = p ∧ h = FreeList o mt) ∨ q ∈ elems (lists z) h.
Proof.
  destruct put_idle_self as (_ & _ & Hoff). unfold put_block. simpl.
  destruct tail; [by apply elems_add_tail_in|by apply elems_add_in].
Qed.

Lemma put_page x : x ≠ p → page_at z' x = page_at z x.
Proof. intros Hx. unfold page_at, put_block. simpl. by rewrite lookup_insert_ne. Qed.

Lemma put_page_eq :
  page_at z' p
  = (page_at z p) <| private := o |> <| _mapcount := PAGE_BUDDY_MAPCOUNT_VALUE |>.
Proof. unfold page_at at 1, put_block. simpl. by rewrite lookup_insert_eq. Qed.

Lemma put_free q o' : free_at z' q o' ↔ (q = p ∧ o' = o) ∨ free_at z q o'.
Proof.
  unfold free_at. setoid_rewrite put_elems_in. split.
  - intros [m [[-> [= -> ->]]|Hq]]; [by left|right; eauto].
  - intros [[-> ->]|[m Hq]]; eauto.
Qed.

Lemma put_is_free x : is_free z' x ↔ is_free z x ∨ covers p o x.
Proof.
  unfold is_free. setoid_rewrite put_free. split.
  - intros (q & o' & [[-> ->]|Hq] & Hc); [by right|left; eauto].
  - intros [(q & o' & Hq & Hc)|Hc]; [exists q, o'; auto|exists p, o; auto].
Qed.

Lemma put_idle x : x ≠ p → page_idle z x → page_idle z' x.
Proof.
  intros Hx (Hm & Hc & Ho). unfold page_idle. rewrite put_page by done.
  split_and!; [done..|]. intros h. rewrite put_elems_in. specialize (Ho h). tauto.
Qed.

(** Blocks elsewhere stay out of the allocator. *)
Lemma put_block_ok q o' :
  block_ok z q o' → (∀ x, covers q o' x → ¬ covers p o x) → block_ok z' q o'.
Proof.
  intros (Hr & Ha & Hx) Hdis. split_and!; [lia|lia|done|]. intros x Hc.
  destruct (Hx x Hc) as (Hidle & Hnf & Hb).
  assert (x ≠ p) by (intros ->; apply (Hdis p Hc); apply covers_self; destruct Hok; lia).
  split_and!; [by apply put_idle| |done]. rewrite put_is_free. intros [?|?]; [done|by eapply Hdis].
Qed.

Lemma put_count o' :
  0 ≤ mt < MIGRATE_TYPES → blocks z' o' = blocks z o' + (if decide (o' = o) then 1 else 0).
Proof.
  intros Hmt. destruct put_idle_self as (_ & _ & Hoff). unfold blocks, put_block. simpl.
  assert (∀ h, Z.of_nat (length (elems ((if tail then list_add_tail p (FreeList o mt)
    else list_add p (FreeList o mt)) (lists z)) h)) = Z.of_nat (length (elems (lists z) h))
      + (if decide (h = FreeList o mt) then 1 else 0)) as Hlen.
  { intros h. destruct tail; [rewrite elems_add_tail by done|rewrite elems_add by done];
      case_decide; subst; rewrite ?length_app; simpl; lia. }
  case_decide as Ho; [subst o'|].
  - apply sum_update with mt; [by apply type_in_range|apply NoDup_seqZ| |].
    + intros m Hm. rewrite Hlen, decide_False by congruence. lia.
    + by rewrite Hlen, decide_True.
  - rewrite Z.add_0_r. apply sum_same. intros m. rewrite Hlen, decide_False by congruence. lia.
Qed.

Lemma put_inv :
  0 ≤ mt < MIGRATE_TYPES → (o < MAX_ORDER - 1 → ¬ free_at z (buddy_of p o) o) → buddy_inv z'.
Proof.
  intros Hmt Hco. pose proof Hok as (Hr & Ha & Hx).
  destruct put_idle_self as (Hm & Hc & Hoff).
  assert (∀ q o' x, free_at z q o' → covers q o' x → covers p o x → False) as Hdis.
  { intros q o' x Hq Hqx Hpx. destruct (Hx x Hpx) as (_ & Hnf & _). apply Hnf. by exists q, o'. }
  assert (∀ q o', free_at z q o' → q ≠ p) as Hne.
  { intros q o' [m Hq] ->. by apply (Hoff (FreeList o' m)). }
  split.
  - unfold put_block. simpl. destruct tail; [apply wf_add_tail|apply wf_add]; done || apply Hi.
  - intros q o' m. rewrite put_elems_in. intros [[_ [= _ ->]]|Hq]; [done|by eapply (bi_types z Hi)].
  - intros q o'. rewrite put_free. intros [[-> ->]|Hq].
    + unfold PageBuddy. rewrite put_page_eq. split_and!; [lia|lia|done|apply Z.eqb_refl|done|done].
    + unfold PageBuddy. rewrite put_page by (by eapply Hne). by apply (bi_block z Hi).
  - intros q o' x. rewrite put_free. intros [[-> ->]|Hq] Hcx; [by apply Hx|by eapply (bi_zone z Hi)].
  - intros q. rewrite put_free. destruct (decide (q = p)) as [->|Hqp].
    + rewrite put_page_eq. by left.
    + unfold PageBuddy. rewrite put_page by done. intros Hb. right. by apply (bi_flag z Hi).
  - intros q o1 r o2 x. rewrite !put_free. intros [[-> ->]|Hq] [[-> ->]|Hr'] Hc1 Hc2; [done|..].
    + by destruct (Hdis r o2 x).
    + by destruct (Hdis q o1 x).
    + by eapply (bi_disjoint z Hi).
  - intros q o' x. rewrite put_free. intros [[-> ->]|Hq] Hcx Hxq.
    + apply put_idle; [done|]. by apply Hx.
    + destruct (decide (x = p)) as [->|].
      * destruct (Hdis q o' p Hq Hcx). apply covers_self. lia.
      * apply put_idle; [done|]. by eapply (bi_inner z Hi).
  - intros q o'. rewrite !put_free. intros Hq Hlt [[Hbq Hoo]|Hbq].
    + destruct Hq as [[-> ->]|Hq].
      * unfold buddy_of in Hbq. pose proof (pow_pos o ltac:(lia)). destruct (Z.even _); lia.
      * destruct (bi_block z Hi q o' Hq) as (? & Hal & _).
        subst o'. apply (Hco Hlt). rewrite <- Hbq, buddy_buddy by (done || lia). done.
    + destruct Hq as [[-> ->]|Hq]; [by apply Hco|by apply (bi_coalesced z Hi q o' Hq)].
  - intros o'. erewrite nr_free_insert by reflexivity. rewrite put_count by done.
    case_decide; subst; [|by rewrite Z.add_0_r; apply (bi_count z Hi)].
    rewrite (bi_count z Hi). by autorewrite with wrap.
Qed.
End PutBlock.

(** ** Joining and splitting blocks out of the allocator *)

Lemma block_ok_join z p o :
  block_ok z p o → block_ok z (buddy_of p o) o → o + 1 < MAX_ORDER →
  block_ok z (pair_base p o) (o + 1).
Proof.
  intros (Hr & Ha & Hx) (_ & _ & Hy) Ho. split_and!; [lia|lia|apply aligned_pair; (done || lia)|].
  intros x. rewrite covers_pair by lia. intros [Hc|Hc]; auto.
Qed.

Lemma block_ok_split z p o :
  0 ≤ o → block_ok z p (o + 1) → block_ok z p o ∧ block_ok z (p + 2 ^ o) o.
Proof.
  intros Ho (Hr & Ha & Hx). pose proof (pow_succ o Ho) as Hs.
  assert ((2 ^ o | p)) by (destruct Ha as [k ->]; exists (2 * k); lia).
  split; (split_and!; [lia|lia| |intros x Hc; apply Hx, covers_split; auto]).
  - done.
  - by apply Z.divide_add_r; [|exists 1; lia].
Qed.

(** The migrate types recorded for page blocks are migrate types. *)
Definition types_ok z : Prop := ∀ p, 0 ≤ get_pageblock_migratetype z p < MIGRATE_TYPES.

Lemma types_ok_set z i mt :
  types_ok z → 0 ≤ mt < MIGRATE_TYPES → types_ok (z <| block_mt ::= <[i := mt]> |>).
Proof.
  intros Ht Hmt p. specialize (Ht p). unfold get_pageblock_migratetype in *. simpl.
  destruct (decide (p / pageblock_nr_pages = i)) as [->|].
  - by rewrite lookup_insert_eq.
  - by rewrite lookup_insert_ne.
Qed.

Lemma unmovable_type : 0 ≤ MIGRATE_UNMOVABLE < MIGRATE_TYPES.
Proof. unfold MIGRATE_TYPES, MIGRATE_ISOLATE, MIGRATE_UNMOVABLE. destruct CONFIG_CMA; lia. Qed.

(** The fields of a page other than the marks of the free lists. *)
Definition desc (v : page) : page := v <| _mapcount := 0 |> <| private := 0 |>.

(** What an operation keeps besides the free memory: the bounds of the zone and
    the per-cpu lists with the pages on them; in most cases the counters too. *)
Definition pcp_kept z z' : Prop :=
  zone_id z' = zone_id z ∧ zone_start_pfn z' = zone_start_pfn z ∧
  spanned_pages z' = spanned_pages z ∧
  pcp_count z' = pcp_count z ∧ pcp_high z' = pcp_high z ∧ pcp_batch z' = pcp_batch z ∧
  (∀ mt, elems (lists z') (PcpList mt) = elems (lists z) (PcpList mt)) ∧
  (∀ mt x, x ∈ elems (lists z) (PcpList mt) → page_at z' x = page_at z x) ∧
  (types_ok z → types_ok z') ∧ (∀ x, desc (page_at z' x) = desc (page_at z x)).

Definition keeps z z' : Prop :=
  zone_lock z' = zone_lock z ∧ NR_FREE_PAGES z' = NR_FREE_PAGES z ∧
  NR_FREE_CMA_PAGES z' = NR_FREE_CMA_PAGES z ∧ pcp_kept z z'.

Lemma keeps_refl z : keeps z z.
Proof. done. Qed.

Lemma keeps_trans z1 z2 z3 : keeps z1 z2 → keeps z2 z3 → keeps z1 z3.
Proof.
  intros (? & ? & ? & ? & ? & ? & ? & ? & ? & L1 & P1 & ? & D1)
    (? & ? & ? & ? & ? & ? & ? & ? & ? & L2 & P2 & ? & D2).
  unfold keeps, pcp_kept. split_and!; [congruence..| |auto|].
  - intros mt x Hx. rewrite (P2 mt x), (P1 mt x Hx) by (by rewrite L1). done.
  - intros x. by rewrite D2, D1.
Qed.

Lemma keeps_bad_range z z' x : keeps z z' → bad_range z' x = bad_range z x.
Proof.
  intros (_ & _ & _ & Hz & Hs & Hn & _).
  unfold bad_range, page_outside_zone_boundaries, page_is_consistent. by rewrite Hz, Hs, Hn.
Qed.

Lemma keeps_take z b o : buddy_inv z → free_at z b o → keeps z (take_block z b o).
Proof.
  intros Hi Hf. pose proof Hf as [m Hm].
  assert (∀ mt, b ∉ elems (lists z) (PcpList mt)) as Hb.
  { intros mt Hp. by pose proof (wf_one _ (bi_lists z Hi) b _ _ Hm Hp). }
  unfold keeps, pcp_kept. split_and!; [done..| | |done|].
  - intros mt. unfold take_block. simpl.
    rewrite elems_del by (apply Hi || by eapply free_on_list). by apply remove_one_absent.
  - intros mt x Hx. apply take_block_page. intros ->. by apply (Hb mt).
  - intros x. destruct (decide (x = b)) as [->|]; [by rewrite take_block_page_eq|by rewrite take_block_page].
Qed.

Lemma keeps_put z p o mt tail : block_ok z p o → keeps z (put_block z p o mt tail).
Proof.
  intros Hok. pose proof (put_idle_self z p o Hok) as (_ & _ & Hoff).
  unfold keeps, pcp_kept. split_and!; [done..| | |done|].
  - intros m. unfold put_block. simpl. destruct tail;
      [rewrite elems_add_tail by done|rewrite elems_add by done]; by rewrite decide_False.
  - intros m x Hx. apply put_page. intros ->. by apply (Hoff (PcpList m)).
  - intros x. destruct (decide (x = p)) as [->|]; [by rewrite put_page_eq|by rewrite put_page].
Qed.

(** ** The steps of the code *)

Lemma page_at_upd z p v : page_at (z <| mem_map ::= <[p := v]> |>) p = v.
Proof. unfold page_at. simpl. by rewrite lookup_insert_eq. Qed.

Lemma upd_upd z p v v' :
  z <| mem_map ::= <[p := v]> |> <| mem_map ::= <[p := v']> |> = z <| mem_map ::= <[p := v']> |>.
Proof. destruct z. unfold modify_field; simpl. by rewrite insert_insert_eq. Qed.

Lemma rmv_page_order_ok z b :
  PageBuddy z b = true →
  rmv_page_order b z
  = Ok tt (z <| mem_map ::= <[b := (page_at z b) <| _mapcount := -1 |> <| private := 0 |>]> |>).
Proof.
  intros Hb. unfold rmv_page_order, VM_BUG_ON, upd_page. mstep. rewrite Hb. simpl.
  by rewrite page_at_upd, upd_upd.
Qed.

Lemma set_page_order_ok z p o :
  _mapcount (page_at z p) = -1 →
  set_page_order p o z
  = Ok tt (z <| mem_map ::= <[p := (page_at z p) <| private := o |>
                                     <| _mapcount := PAGE_BUDDY_MAPCOUNT_VALUE |>]> |>).
Proof.
  intros Hm. unfold set_page_order, VM_BUG_ON, upd_page. mstep.
  rewrite !page_at_upd. simpl. rewrite Hm. simpl. by rewrite ?page_at_upd, upd_upd.
Qed.

(** [page_is_buddy] never trips its check when marked pages are unused. *)
Lemma page_is_buddy_total z p b o :
  (∀ x, PageBuddy z x = true → _count (page_at z x) = 0) →
  ∃ r, page_is_buddy p b o z = Ok r z ∧
    (r = true ↔ pfn_valid_within b = true ∧ page_zone p = page_zone b ∧
       PageBuddy z b = true ∧ private (page_at z b) = o).
Proof.
  intros Hcount. unfold page_is_buddy, VM_BUG_ON. mstep.
  destruct (pfn_valid_within b); simpl; [|exists false; naive_solver].
  destruct (Z.eqb_spec (page_zone p) (page_zone b)); simpl; [|exists false; naive_solver].
  destruct (PageBuddy z b) eqn:Eb; simpl; [|exists false; naive_solver].
  destruct (Z.eqb_spec (private (page_at z b)) o); [|exists false; naive_solver].
  rewrite (Hcount b Eb). simpl. exists true. naive_solver.
Qed.

Lemma inv_marked_unused z : buddy_inv z → ∀ x, PageBuddy z x = true → _count (page_at z x) = 0.
Proof. intros Hi x Hx. apply (bi_flag z Hi) in Hx. by apply (bi_block z Hi) in Hx as (_ & _ & _ & _ & ?). Qed.

Lemma bad_range_false z x :
  bad_range z x = false → pfn_valid_within x = true ∧ page_zone x = zone_id z.
Proof.
  unfold bad_range, page_is_consistent. intros [_ Hc]%orb_false_iff.
  apply negb_false_iff, andb_true_iff in Hc as [? ?%Z.eqb_eq]. done.
Qed.

Lemma page_is_buddy_ok z p b o :
  buddy_inv z → page_zone p = zone_id z →
  ∃ r, page_is_buddy p b o z = Ok r z ∧ (r = true ↔ free_at z b o).
Proof.
  intros Hi Hz. destruct (page_is_buddy_total z p b o (inv_marked_unused z Hi)) as (r & E & Hr).
  exists r. split; [done|]. rewrite Hr. split.
  - intros (_ & _ & Hb & <-). by apply (bi_flag z Hi).
  - intros Hf. destruct (bi_block z Hi b o Hf) as (Ho & _ & ? & ? & _).
    destruct (bad_range_false z b) as [? ?]; [|naive_solver congruence].
    eapply (bi_zone z Hi); [done|]. apply covers_self. lia.
Qed.

(** Buddies lie in the same largest block, so the code's index arithmetic finds
    them. *)
Lemma merge_indices p idx o :
  0 ≤ o < MAX_ORDER → (2 ^ o | p) → (2 ^ MAX_ORDER | p - idx) →
  let bidx := __find_buddy_index idx o in
  p + (bidx - idx) = buddy_of p o ∧ p + (Z.land bidx idx - idx) = pair_base p o ∧
  (2 ^ MAX_ORDER | pair_base p o - Z.land bidx idx).
Proof.
  intros Ho Ha Hd bidx.
  assert ((2 ^ o | idx)) as Hidx.
  { replace idx with (p - (p - idx)) by lia. apply Z.divide_sub_r; [done|].
    etrans; [|exact Hd]. exists (2 ^ (MAX_ORDER - o)). rewrite <- Z.pow_add_r by lia. f_equal. lia. }
  subst bidx. rewrite find_buddy_eq, combined_eq by (done || lia).
  destruct (buddy_shift o (proj1 Ho) p idx MAX_ORDER (proj2 Ho) Hd Hidx) as [E1 E2].
  split_and!; [done|done|]. rewrite <- E2. by replace (p + (pair_base idx o - idx) - pair_base idx o)
    with (p - idx) by lia.
Qed.

(** The merging loop ends with a block that has no free buddy; the pages free
    or in hand stay the same. *)
Lemma merge_spec fuel p idx o last z :
  buddy_inv z → block_ok z p o → (2 ^ MAX_ORDER | p - idx) → MAX_ORDER - o ≤ Z.of_nat fuel →
  ∃ p' idx' o' last' z',
    merge fuel p idx o last z = Ok (p', idx', o', last') z' ∧
    buddy_inv z' ∧ block_ok z' p' o' ∧ keeps z z' ∧
    (o' < MAX_ORDER - 1 → ¬ free_at z' (buddy_of p' o') o' ∧ is_Some last') ∧
    (∀ x, is_free z' x ∨ covers p' o' x ↔ is_free z x ∨ covers p o x).
Proof.
  revert p idx o last z. induction fuel as [|fuel IH]; intros p idx o last z Hi Hok Hd Hfuel;
    pose proof Hok as (Hr & Ha & Hx); [lia|]. simpl.
  destruct (Z.ltb_spec o (MAX_ORDER - 1)) as [Hlt|Hge].
  2: { eexists p, idx, o, last, z. split; [done|]. split_and!; [done..| |done]. lia. }
  destruct (merge_indices p idx o Hr Ha Hd) as (-> & -> & Hd').
  assert (page_zone p = zone_id z) as Hz
    by (apply bad_range_false, Hx, covers_self; lia).
  destruct (page_is_buddy_ok z p (buddy_of p o) o Hi Hz) as (r & Er & Hrt).
  unfold mbind, M_bind. rewrite Er. destruct r.
  2: { eexists p, idx, o, _, z. split; [done|]. split_and!; [done..| |done].
       intros _. split; [|done]. intros Hf. by apply Hrt in Hf. }
  destruct Hrt as [Hf _]. specialize (Hf eq_refl). set (b := buddy_of p o) in *.
  assert (PageBuddy z b = true) as Hpb by (by apply (bi_block z Hi) in Hf as (_ & _ & ? & _)).
  unfold modify at 1, add_nr_free, modify at 1.
  rewrite rmv_page_order_ok by done.
  match goal with |- context [merge fuel _ _ _ _ ?s] => change s with (take_block z b o) end.
  destruct (IH (pair_base p o) (Z.land (__find_buddy_index idx o) idx) (o + 1)
    (Some (b, __find_buddy_index idx o)) (take_block z b o))
    as (p' & idx' & o' & last' & z' & E & Hi' & Hok' & Hk & Hco & Hfree).
  - by apply take_block_inv.
  - apply block_ok_join; [by apply take_block_ok|by apply take_block_result|lia].
  - done.
  - lia.
  - exists p', idx', o', last', z'. split_and!; [done..| |done|].
    + by eapply keeps_trans; [by apply keeps_take|].
    + intros x. rewrite Hfree, take_block_is_free, covers_pair by (done || lia). fold b.
      split; [|destruct (decide (covers b o x)); tauto].
      intros [[? _]|[?|?]]; auto. left. by exists b, o.
Qed.

Lemma likely_to_merge_total z p idx o last :
  (∀ x, PageBuddy z x = true → _count (page_at z x) = 0) →
  (o < MAX_ORDER - 1 → is_Some last) →
  ∃ r, likely_to_merge p idx o last z = Ok r z.
Proof.
  intros Hcount Hlast. unfold likely_to_merge, mbind, M_bind.
  destruct (Z.ltb_spec o (MAX_ORDER - 2)); [|by exists false].
  destruct Hlast as [[b bidx] ->]; [lia|]. simpl.
  destruct (pfn_valid_within b); [|by exists false].
  match goal with |- context [page_is_buddy ?p ?b ?o] =>
    destruct (page_is_buddy_total z p b o Hcount) as (r & -> & _) end. eauto.
Qed.

Lemma free_block_spec z p o mt :
  buddy_inv z → block_ok z p o → 0 ≤ mt < MIGRATE_TYPES →
  ∃ z', free_block p o mt z = Ok tt z' ∧ buddy_inv z' ∧ keeps z z' ∧
    ∀ x, is_free z' x ↔ is_free z x ∨ covers p o x.
Proof.
  intros Hi Hok Hmt. pose proof Hok as (Hr & Ha & _).
  set (idx := Z.land p (Z.shiftl 1 MAX_ORDER - 1)).
  assert ((2 ^ MAX_ORDER | p - idx)) as Hd.
  { subst idx. rewrite shift_one by lia. rewrite Z.sub_1_r, <- Z.ones_equiv, Z.land_ones by lia.
    exists (p / 2 ^ MAX_ORDER). assert (0 ≤ MAX_ORDER) as Hmo by lia.
    pose proof (pow_pos MAX_ORDER Hmo). pose proof (Z.div_mod p (2 ^ MAX_ORDER)). lia. }
  destruct (merge_spec (Z.to_nat MAX_ORDER) p idx o None z Hi Hok Hd ltac:(lia))
    as (p' & idx' & o' & last & z1 & E & Hi1 & Hok1 & Hk1 & Hco & Hfree).
  unfold free_block, mbind, M_bind. fold idx. rewrite E.
  destruct (put_idle_self z1 p' o' Hok1) as (Hm & Hc & Hoff).
  rewrite set_page_order_ok by done. set (z2 := modify_field _ z1).
  assert (∀ x, PageBuddy z2 x = true → _count (page_at z2 x) = 0) as Hcount.
  { intros x. destruct (decide (x = p')) as [->|Hx].
    - intros _. subst z2. by rewrite page_at_upd.
    - assert (page_at z2 x = page_at z1 x) as E2
        by (unfold page_at; simpl; by rewrite lookup_insert_ne).
      unfold PageBuddy. rewrite E2. by apply inv_marked_unused. }
  destruct (likely_to_merge_total z2 p' idx' o' last Hcount) as [tail Et]; [by intros [_ ?]%Hco|].
  rewrite Et. exists (put_block z1 p' o' mt tail). split_and!.
  - destruct tail; reflexivity.
  - apply put_inv; [done..|]. by intros [? _]%Hco.
  - by eapply keeps_trans; [|by apply keeps_put].
  - intros x. by rewrite put_is_free, Hfree.
Qed.

Lemma index_aligned p o :
  0 ≤ o < MAX_ORDER → (2 ^ o | p) →
  has_flag (Z.land p (Z.shiftl 1 MAX_ORDER - 1)) (Z.shiftl 1 o - 1) = false.
Proof.
  intros Ho Ha. unfold has_flag.
  rewrite !shift_one, !Z.sub_1_r, <- !Z.ones_equiv, !Z.land_ones by lia.
  destruct Ha as [k ->]. pose proof (pow_pos o ltac:(lia)).
  assert ((2 ^ o | 2 ^ MAX_ORDER)) as Hdiv.
  { exists (2 ^ (MAX_ORDER - o)). rewrite <- Z.pow_add_r by lia. f_equal. lia. }
  rewrite Z.mod_mod_divide by done.
  by rewrite Z.mod_mul by lia.
Qed.

(** ** Splitting *)

Lemma expand_spec n p high mt z :
  buddy_inv z → block_ok z p high → 0 ≤ mt < MIGRATE_TYPES → Z.of_nat n ≤ high →
  ∃ z', expand n p high mt z = Ok tt z' ∧ buddy_inv z' ∧ keeps z z' ∧
    block_ok z' p (high - Z.of_nat n) ∧
    ∀ x, is_free z x ∨ covers p high x ↔ is_free z' x ∨ covers p (high - Z.of_nat n) x.
Proof.
  revert high z. induction n as [|n IH]; intros high z Hi Hok Hmt Hn.
  { exists z. replace (high - Z.of_nat 0) with high by lia. done. }
  destruct (block_ok_split z p (high - 1)) as [Hlow Hup];
    [lia|by replace (high - 1 + 1) with high by lia|].
  set (h := high - 1) in *. assert (high = h + 1) as Ehigh by lia.
  pose proof Hup as (Hr & Ha & Hx). pose proof (Hx (p + 2 ^ h) ltac:(apply covers_self; lia)) as (Hid & _ & Hb).
  simpl. unfold mbind, M_bind, get at 1, VM_BUG_ON. fold h. rewrite shift_one, Hb by lia. simpl.
  unfold add_nr_free, modify.
  rewrite set_page_order_ok by (by destruct Hid as (? & _)).
  match goal with |- context [expand n p h mt ?s] =>
    change s with (put_block z (p + 2 ^ h) h mt false) end.
  assert (∀ x, covers p h x → ¬ covers (p + 2 ^ h) h x) as Hdis by (unfold covers; lia).
  destruct (IH h (put_block z (p + 2 ^ h) h mt false)) as (z' & E & Hi' & Hk & Hok' & Hfree).
  - apply put_inv; [done..|]. intros _.
    rewrite buddy_of_upper by (lia || (rewrite <- Ehigh; apply Hok)).
    intros Hf. destruct Hlow as (_ & _ & Hlow).
    destruct (Hlow p) as (_ & Hnf & _); [apply covers_self; lia|]. apply Hnf. by apply free_self in Hf.
  - by apply put_block_ok.
  - done.
  - lia.
  - replace (high - Z.of_nat (S n)) with (h - Z.of_nat n) by lia.
    exists z'. split_and!; [done|done| |done|].
    + by eapply keeps_trans; [by apply keeps_put|].
    + intros x. rewrite <- Hfree, put_is_free, Ehigh, covers_split by (done || lia). tauto.
Qed.

(** ** Taking the smallest block that fits *)

Lemma rmqueue_from_spec os order mt z :
  buddy_inv z → 0 ≤ mt < MIGRATE_TYPES → 0 ≤ order → (∀ o, o ∈ os → order ≤ o) →
  (rmqueue_from os order mt z = Ok None z ∧ ∀ o, o ∈ os → elems (lists z) (FreeList o mt) = []) ∨
  ∃ p z', rmqueue_from os order mt z = Ok (Some p) z' ∧ buddy_inv z' ∧ keeps z z' ∧
    block_ok z' p order ∧ ∀ x, is_free z x ↔ is_free z' x ∨ covers p order x.
Proof.
  intros Hi Hmt Hord. induction os as [|o os IH]; intros Hos.
  { left. split; [done|]. by intros o ?%elem_of_nil. }
  simpl. unfold mbind, M_bind, get.
  destruct (elems (lists z) (FreeList o mt)) as [|p q] eqn:Eq.
  - assert (∀ o', o' ∈ os → order ≤ o') as Hos' by (intros o' ?; apply Hos; by right).
    destruct (IH Hos') as [[E Hno]|Hsome]; [|right; exact Hsome].
    left. split; [done|]. intros o' [->|?]%elem_of_cons; auto.
  - right. assert (free_at z p o) as Hf by (exists mt; rewrite Eq; left).
    destruct (bi_block z Hi p o Hf) as (Hr & _ & Hpb & _).
    pose proof (Hos o ltac:(left)) as Hle.
    unfold add_nr_free, modify. rewrite rmv_page_order_ok by done.
    match goal with |- context [expand _ p o mt ?s] => change s with (take_block z p o) end.
    destruct (expand_spec (Z.to_nat (o - order)) p o mt (take_block z p o))
      as (z' & E & Hi' & Hk & Hok & Hfree);
      [by apply take_block_inv|by apply take_block_result|done|lia|].
    rewrite E. replace (o - Z.of_nat (Z.to_nat (o - order))) with order in * by lia.
    exists p, z'. split_and!; [done|done| |done|].
    + by eapply keeps_trans; [by apply keeps_take|].
    + intros x. rewrite <- Hfree, take_block_is_free by done.
      split; [intros ?; destruct (decide (covers p o x)); tauto|].
      intros [[? _]|?]; [done|]. by exists p, o.
Qed.

(** ** Stealing from other migrate types *)

(** The invariant depends on these fields only. *)
Lemma buddy_inv_congr z z' :
  lists z' = lists z → mem_map z' = mem_map z → nr_free z' = nr_free z → zone_id z' = zone_id z →
  zone_start_pfn z' = zone_start_pfn z → spanned_pages z' = spanned_pages z →
  buddy_inv z → buddy_inv z'.
Proof.
  destruct z, z'; simpl. intros -> -> -> -> -> -> Hi. destruct Hi. by split.
Qed.

(** Only the list a free block is on has changed. *)
Definition moved z z' : Prop :=
  (∀ q o, free_at z' q o ↔ free_at z q o) ∧ (∀ x, off_list (lists z) x → off_list (lists z') x) ∧
  mem_map z' = mem_map z ∧ nr_free z' = nr_free z ∧ keeps z z'.

Lemma moved_refl z : moved z z.
Proof. done. Qed.

Lemma moved_trans z1 z2 z3 : moved z1 z2 → moved z2 z3 → moved z1 z3.
Proof.
  intros (F1 & O1 & M1 & N1 & K1) (F2 & O2 & M2 & N2 & K2). split_and!; [| |congruence..|].
  - intros q o. by rewrite F2.
  - auto.
  - by eapply keeps_trans.
Qed.

Lemma moved_is_free z z' x : moved z z' → is_free z' x ↔ is_free z x.
Proof. intros (F & _). unfold is_free. by setoid_rewrite F. Qed.

Definition move_block z (p o mt : Z) : zone L :=
  z <| lists ::= list_del p |> <| lists ::= list_add p (FreeList o mt) |>.

Lemma move_block_elems z p o mt q h :
  buddy_inv z → free_at z p o →
  q ∈ elems (lists (move_block z p o mt)) h
  ↔ (q = p ∧ h = FreeList o mt) ∨ (q ∈ elems (lists z) h ∧ q ≠ p).
Proof.
  intros Hi Hf. assert (on_list (lists z) p) by (by eapply free_on_list).
  unfold move_block. simpl. rewrite elems_add_in by (apply del_off; (done || apply Hi)).
  rewrite elems_del_in by (done || apply Hi). done.
Qed.

Lemma move_block_free z p o mt q o' :
  buddy_inv z → free_at z p o → free_at (move_block z p o mt) q o' ↔ free_at z q o'.
Proof.
  intros Hi Hf. unfold free_at at 1. setoid_rewrite move_block_elems; [|done..]. split.
  - intros [m [[-> [= -> ->]]|[Hq _]]]; [done|by exists m].
  - intros Hq. destruct (decide (q = p)) as [->|Hne].
    + rewrite (free_order z p o' o Hi Hq Hf). exists mt. by left.
    + destruct Hq as [m Hq]. exists m. by right.
Qed.

Lemma move_block_count z p o mt o' :
  buddy_inv z → free_at z p o → 0 ≤ mt < MIGRATE_TYPES →
  blocks (move_block z p o mt) o' = blocks z o'.
Proof.
  intros Hi Hf Hmt. pose proof (take_block_count z p o o' Hi Hf) as Htake.
  set (z1 := take_block z p o) in *. pose proof (take_block_result z p o Hi Hf) as Hok.
  pose proof (put_count z1 p o mt false Hok o' Hmt) as Hput.
  change (blocks (put_block z1 p o mt false) o') with (blocks (move_block z p o mt) o') in Hput.
  rewrite Hput, Htake. case_decide; lia.
Qed.

Lemma move_block_off z p o mt x :
  buddy_inv z → free_at z p o → off_list (lists z) x → off_list (lists (move_block z p o mt)) x.
Proof.
  intros Hi Hf Hoff h. rewrite move_block_elems by done. intros [[-> ->]|[Hx _]].
  - destruct (free_on_list z p o Hf) as [h Hh]. by apply (Hoff h).
  - by apply (Hoff h).
Qed.

Lemma move_block_moved z p o mt : buddy_inv z → free_at z p o → moved z (move_block z p o mt).
Proof.
  intros Hi Hf. destruct (keeps_take z p o Hi Hf) as (_ & _ & _ & _ & _ & _ & _ & _ & _ & Hl & _).
  pose proof (put_idle_self _ p o (take_block_result z p o Hi Hf)) as (_ & _ & Hoff).
  split; [intros q o'; by apply move_block_free|].
  split; [by intros; apply move_block_off|]. split; [done|]. split; [done|].
  unfold keeps, pcp_kept. split_and!; [done..| |done|done|done]. intros m. unfold move_block. simpl.
  rewrite elems_add, decide_False by done. apply Hl.
Qed.

Lemma move_block_inv z p o mt :
  buddy_inv z → free_at z p o → 0 ≤ mt < MIGRATE_TYPES → buddy_inv (move_block z p o mt).
Proof.
  intros Hi Hf Hmt. assert (on_list (lists z) p) by (by eapply free_on_list). split.
  - unfold move_block. simpl. apply wf_add; [apply wf_del|apply del_off]; done || apply Hi.
  - intros q o' m. rewrite move_block_elems by done.
    intros [[_ [= _ ->]]|[Hq _]]; [done|by eapply (bi_types z Hi)].
  - intros q o'. rewrite move_block_free by done. apply (bi_block z Hi).
  - intros q o' x. rewrite move_block_free by done. apply (bi_zone z Hi).
  - intros q Hq. apply move_block_free; [done..|]. by apply (bi_flag z Hi).
  - intros q o1 r o2 x. rewrite !move_block_free by done. apply (bi_disjoint z Hi).
  - intros q o' x. rewrite move_block_free by done. intros Hq Hc Hx.
    destruct (bi_inner z Hi q o' x Hq Hc Hx) as (? & ? & ?).
    split_and!; [done..|]. by apply move_block_off.
  - intros q o'. rewrite !move_block_free by done. apply (bi_coalesced z Hi).
  - intros o'. rewrite move_block_count by done. apply (bi_count z Hi).
Qed.

(** The walk over a range of pages, whatever [nr_free] says meanwhile. *)
Lemma move_from_spec fuel p e mt n z nf :
  buddy_inv z → 0 ≤ mt < MIGRATE_TYPES → e - p + 1 < Z.of_nat fuel → (0 < fuel)%nat →
  ∃ m z', move_from fuel p e mt n (z <| nr_free := nf |>) = Ok m (z' <| nr_free := nf |>) ∧
          buddy_inv z' ∧ moved z z'.
Proof.
  revert p n z. induction fuel as [|fuel IH]; intros p n z Hi Hmt Hfuel Hpos; [lia|].
  simpl. destruct (Z.leb_spec p e) as [Hle|_]; [|by exists n, z].
  assert (0 < fuel)%nat by lia. unfold mbind, M_bind, get. simpl.
  destruct (pfn_valid_within p); [|apply IH; (done || lia)]. simpl.
  change (PageBuddy (z <| nr_free := nf |>) p) with (PageBuddy z p).
  change (page_at (z <| nr_free := nf |>) p) with (page_at z p).
  destruct (PageBuddy z p) eqn:Eb; [|apply IH; (done || lia)]. simpl.
  apply (bi_flag z Hi) in Eb. destruct (bi_block z Hi _ _ Eb) as (Ho & _).
  set (o := private (page_at z p)) in *. rewrite shift_one by lia. pose proof (pow_pos o (proj1 Ho)).
  unfold modify.
  match goal with |- context [move_from fuel _ _ _ _ ?s] =>
    change s with ((move_block z p o mt) <| nr_free := nf |>) end.
  destruct (IH (p + 2 ^ o) (s32 (n + 2 ^ o)) (move_block z p o mt)) as (m & z' & E & Hi' & Hm);
    [by apply move_block_inv|done|lia|done|].
  exists m, z'. split_and!; [done..|]. by eapply moved_trans; [apply move_block_moved|].
Qed.

Lemma set_type_ok z p mt :
  0 ≤ mt < MIGRATE_TYPES →
  ∃ bm, set_pageblock_migratetype p mt z = Ok tt (z <| block_mt := bm |>) ∧
        (types_ok z → types_ok (z <| block_mt := bm |>)).
Proof.
  intros Hmt. unfold set_pageblock_migratetype, modify. eexists. split; [reflexivity|].
  intros Ht. apply (types_ok_set z); [done|]. destruct page_group_by_mobility_disabled; [|done].
  apply unmovable_type.
Qed.

Lemma change_range_ok p o mt z :
  0 ≤ mt < MIGRATE_TYPES →
  ∃ bm, change_pageblock_range p o mt z = Ok tt (z <| block_mt := bm |>) ∧
        (types_ok z → types_ok (z <| block_mt := bm |>)).
Proof.
  intros Hmt. unfold change_pageblock_range. generalize (seqZ 0 (Z.shiftl 1 (o - pageblock_order))).
  intros is_. revert z. induction is_ as [|i is_ IH]; intros z; simpl.
  { exists (block_mt z). by destruct z. }
  destruct (set_type_ok z (p + i * pageblock_nr_pages) mt Hmt) as (bm1 & E1 & H1').
  unfold mbind, M_bind. rewrite E1. destruct (IH (z <| block_mt := bm1 |>)) as (bm & E & Ht).
  exists bm. rewrite E. split; [by destruct z|]. intros Hz. by apply Ht, H1'.
Qed.

(** Without holes the zone is one range of its own pages. *)
Definition zone_contiguous z : Prop :=
  CONFIG_HOLES_IN_ZONE = false →
  ∀ x, zone_start_pfn z ≤ x < zone_start_pfn z + spanned_pages z → page_zone x = zone_id z.

Lemma keeps_contiguous z z' : keeps z z' → zone_contiguous z → zone_contiguous z'.
Proof. intros (_ & _ & _ & Hz & Hs & Hn & _). unfold zone_contiguous. by rewrite Hz, Hs, Hn. Qed.

Lemma bad_range_bounds z x :
  bad_range z x = false → zone_start_pfn z ≤ x < zone_start_pfn z + spanned_pages z.
Proof. unfold bad_range, page_outside_zone_boundaries. intros. bsimp. lia. Qed.

(** The free blocks in the page block of a page of the zone change type. *)
Lemma move_block_spec p mt z nf :
  buddy_inv z → zone_start_pfn z ≤ p < zone_start_pfn z + spanned_pages z → 0 ≤ mt < MIGRATE_TYPES →
  zone_contiguous z → 0 ≤ pageblock_order →
  ∃ m z', move_freepages_block p mt (z <| nr_free := nf |>) = Ok m (z' <| nr_free := nf |>) ∧
          buddy_inv z' ∧ moved z z'.
Proof.
  intros Hi Hin Hmt Hct Hpb. unfold move_freepages_block, pageblock_nr_pages. mstep. rewrite shift_one by lia.
  replace (2 ^ pageblock_order - 1) with (Z.ones pageblock_order) by (rewrite Z.ones_equiv; lia).
  rewrite Z.ldiff_ones_r, Z.shiftr_div_pow2, Z.shiftl_mul_pow2 by lia.
  set (s := p / 2 ^ pageblock_order * 2 ^ pageblock_order).
  assert (s ≤ p < s + 2 ^ pageblock_order) as Hs.
  { subst s. pose proof (pow_pos pageblock_order Hpb).
    pose proof (Z.div_mod p (2 ^ pageblock_order)).
    pose proof (Z.mod_pos_bound p (2 ^ pageblock_order)). lia. }
  destruct (Z.leb_spec (zone_start_pfn z + spanned_pages z) (s + 2 ^ pageblock_order - 1)); [by exists 0, z|].
  unfold move_freepages, mbind, M_bind.
  set (st := if s <? zone_start_pfn z then p else s).
  assert (zone_start_pfn z ≤ st ≤ s + 2 ^ pageblock_order - 1) as Hst
    by (subst st; destruct (Z.ltb_spec s (zone_start_pfn z)); lia).
  assert (negb CONFIG_HOLES_IN_ZONE && negb (page_zone st =? page_zone (s + 2 ^ pageblock_order - 1)) = false)
    as ->.
  { destruct CONFIG_HOLES_IN_ZONE eqn:Eh; [done|]. simpl.
    rewrite !(Hct Eh) by lia. by rewrite Z.eqb_refl. }
  apply move_from_spec; [done|done|lia|lia].
Qed.

Lemma move_block_range_spec p o mt z nf :
  buddy_inv z → free_at z p o → 0 ≤ mt < MIGRATE_TYPES → zone_contiguous z → 0 ≤ pageblock_order →
  ∃ m z', move_freepages_block p mt (z <| nr_free := nf |>) = Ok m (z' <| nr_free := nf |>) ∧
          buddy_inv z' ∧ moved z z'.
Proof.
  intros Hi Hf. destruct (bi_block z Hi p o Hf) as (Ho & _). apply move_block_spec; [done|].
  apply bad_range_bounds, (bi_zone z Hi p o p Hf), covers_self. lia.
Qed.

Lemma steal_block_spec z p co order start mt :
  buddy_inv z → p ∈ elems (lists z) (FreeList co mt) → 0 ≤ order ≤ co →
  0 ≤ start < MIGRATE_TYPES → zone_contiguous z → 0 ≤ pageblock_order →
  ∃ z', steal_block p co order start mt z = Ok tt z' ∧ buddy_inv z' ∧ keeps z z' ∧
    block_ok z' p order ∧ ∀ x, is_free z x ↔ is_free z' x ∨ covers p order x.
Proof.
  intros Hi Hin Hord Hst Hct Hpb. assert (free_at z p co) as Hf by (by exists mt).
  pose proof (bi_types z Hi p co mt Hin) as Hmt.
  set (nf := <[co := u32 (nr_free_of z co + -1)]> (nr_free z)).
  unfold steal_block, add_nr_free, mbind, M_bind, modify at 1.
  match goal with |- context [_ (modify_field _ z)] =>
    change (z <| nr_free ::= <[co := u32 (nr_free_of z co + -1)]> |>) with (z <| nr_free := nf |>) end.
  match goal with |- context [match ?m (z <| nr_free := nf |>) with _ => _ end] =>
    assert (∃ mt' z1, m (z <| nr_free := nf |>) = Ok mt' (z1 <| nr_free := nf |>) ∧
      buddy_inv z1 ∧ moved z z1 ∧ 0 ≤ mt' < MIGRATE_TYPES) as (mt' & z1 & -> & Hi1 & Hm1 & Hmt') end.
  { destruct (negb (is_migrate_cma mt) && _); [|by exists mt, z].
    destruct (move_block_range_spec p co start z nf Hi Hf Hst Hct Hpb) as (n & z1 & E & Hi1 & Hm1).
    rewrite E. destruct (_ || page_group_by_mobility_disabled); [|by exists start, z1].
    destruct (set_type_ok z1 p start Hst) as (bm & Es & Ht).
    exists start, (z1 <| block_mt := bm |>). split; [by unfold set_pageblock_migratetype, modify in *; simplify_eq|].
    split; [by eapply buddy_inv_congr; [..|exact Hi1]|]. split; [|done].
    eapply moved_trans; [exact Hm1|]. split; [done|]. split; [done|]. split; [done|]. split; [done|].
    unfold keeps, pcp_kept. by split_and!. }
  pose proof Hm1 as (Hfr & _ & Hmm & Hnf & Hk1).
  assert (free_at z1 p co) as Hf1 by (by apply Hfr).
  destruct (bi_block z1 Hi1 p co Hf1) as (Hr & _ & Hpb1 & _).
  unfold modify at 1. rewrite rmv_page_order_ok by done.
  assert (z1 <| nr_free := nf |> <| lists ::= list_del p |> <| mem_map ::= <[p :=
     (page_at (z1 <| nr_free := nf |> <| lists ::= list_del p |>) p) <| _mapcount := -1 |>
       <| private := 0 |>]> |> = take_block z1 p co) as ->.
  { unfold take_block, nf, nr_free_of. rewrite <- Hnf. by destruct z1. }
  match goal with |- context [match ?m (take_block z1 p co) with _ => _ end] =>
    assert (∃ bm, m (take_block z1 p co) = Ok tt ((take_block z1 p co) <| block_mt := bm |>) ∧
              (types_ok z1 → types_ok (z1 <| block_mt := bm |>))) as (bm & -> & Hbm) end.
  { destruct (_ && _); [exact (change_range_ok p co start (take_block z1 p co) Hst)|]. exists (block_mt z1). by destruct z1. }
  set (z2 := z1 <| block_mt := bm |>).
  change ((take_block z1 p co) <| block_mt := bm |>) with (take_block z2 p co).
  assert (buddy_inv z2) as Hi2 by (by eapply buddy_inv_congr; [..|exact Hi1]).
  assert (free_at z2 p co) as Hf2 by done.
  destruct (expand_spec (Z.to_nat (co - order)) p co (if is_migrate_cma mt' then mt' else start)
    (take_block z2 p co)) as (z' & E & Hi' & Hk & Hok & Hfree);
    [by apply take_block_inv|by apply take_block_result|by destruct (is_migrate_cma mt')|lia|].
  rewrite E. replace (co - Z.of_nat (Z.to_nat (co - order))) with order in * by lia.
  exists z'. split_and!; [done|done| |done|].
  - assert (keeps z1 z2) as Hk12 by (unfold keeps, pcp_kept; by split_and!).
    eapply keeps_trans; [exact Hk1|]. eapply keeps_trans; [exact Hk12|].
    by eapply keeps_trans; [exact (keeps_take z2 p co Hi2 Hf2)|].
  - intros x. rewrite <- Hfree, take_block_is_free by done.
    change (is_free z2 x) with (is_free z1 x). rewrite (moved_is_free z z1) by done.
    split; [intros ?; destruct (decide (covers p co x)); tauto|].
    intros [[? _]|?]; [done|]. by exists p, co.
Qed.

(** The outcome of an allocation attempt: a block taken out of the free memory,
    or nothing changed and [None]. *)
Definition allocated z (order : Z) (r : option Z) z' : Prop :=
  buddy_inv z' ∧ keeps z z' ∧
  match r with
  | None => z' = z
  | Some p => block_ok z' p order ∧ ∀ x, is_free z x ↔ is_free z' x ∨ covers p order x
  end.

Section Rmqueue.
Variables (z : zone L) (order : Z).
Hypothesis Hi : buddy_inv z.
Hypothesis Hord : 0 ≤ order < MAX_ORDER.
Hypothesis Hct : zone_contiguous z.
Hypothesis Hpb : 0 ≤ pageblock_order.

(** No block of at least this order on the lists of type [mt]. *)
Definition exhausted (mt : Z) : Prop :=
  ∀ o, order ≤ o < MAX_ORDER → elems (lists z) (FreeList o mt) = [].

Lemma smallest_spec mt :
  0 ≤ mt < MIGRATE_TYPES →
  ∃ r z', __rmqueue_smallest order mt z = Ok r z' ∧ allocated z order r z' ∧
          (r = None → exhausted mt).
Proof.
  intros Hmt. unfold __rmqueue_smallest.
  destruct (rmqueue_from_spec (seqZ order (MAX_ORDER - order)) order mt z Hi Hmt ltac:(lia))
    as [[E Hno]|(p & z' & E & Hi' & Hk & Hok & Hf)].
  - intros o ?%elem_of_seqZ. lia.
  - exists None, z. split_and!; [done|done|]. intros _ o Ho. apply Hno, elem_of_seqZ. lia.
  - exists (Some p), z'. by split_and!.
Qed.

Lemma fallback_types_spec mts co start :
  order ≤ co → 0 ≤ start < MIGRATE_TYPES →
  ∃ r z', fallback_types mts co order start z = Ok r z' ∧ allocated z order r z' ∧
          (r = None → ∀ mt, mt ∈ mts → elems (lists z) (FreeList co mt) = []).
Proof.
  intros Hco Hst. induction mts as [|mt mts IH]; simpl.
  { exists None, z. split_and!; [done|done|]. by intros _ mt ?%elem_of_nil. }
  unfold mbind, M_bind, get. destruct (elems (lists z) (FreeList co mt)) as [|p q] eqn:Eq.
  - destruct IH as (r & z' & E & Ha & Hno). exists r, z'. split_and!; [done|done|].
    intros -> m [->|?]%elem_of_cons; [done|by apply Hno].
  - destruct (steal_block_spec z p co order start mt Hi) as (z' & E & Hi' & Hk & Hok & Hf);
      [rewrite Eq; left|lia|done|done|done|].
    rewrite E. exists (Some p), z'. by split_and!.
Qed.

Lemma fallback_spec start :
  0 ≤ start < MIGRATE_TYPES →
  ∃ r z', __rmqueue_fallback order start z = Ok r z' ∧ allocated z order r z' ∧
          (r = None → ∀ mt, mt ∈ fallbacks start → exhausted mt).
Proof.
  intros Hst. unfold __rmqueue_fallback.
  assert (∀ os, (∀ o, o ∈ os → order ≤ o) →
    ∃ r z', fallback_orders os order start z = Ok r z' ∧ allocated z order r z' ∧
      (r = None → ∀ o mt, o ∈ os → mt ∈ fallbacks start → elems (lists z) (FreeList o mt) = []))
    as Hloop.
  { induction os as [|co os IH]; intros Hos; simpl.
    { exists None, z. split_and!; [done|done|]. by intros _ o mt ?%elem_of_nil. }
    destruct (fallback_types_spec (fallbacks start) co start) as (r & z' & E & Ha & Hno);
      [apply Hos; left|done|]. unfold mbind, M_bind. rewrite E. destruct r as [p|].
    { exists (Some p), z'. by split_and!. }
    assert (z' = z) as -> by (by destruct Ha as (_ & _ & ->)).
    destruct IH as (r & z2 & E2 & Ha2 & Hno2); [intros o ?; apply Hos; by right|].
    exists r, z2. split_and!; [done|done|]. intros -> o mt [->|?]%elem_of_cons Hm; auto. }
  destruct (Hloop (reverse (seqZ order (MAX_ORDER - order)))) as (r & z' & E & Ha & Hno).
  - intros o Ho. apply elem_of_reverse, elem_of_seqZ in Ho. lia.
  - exists r, z'. split_and!; [done|done|]. intros Hr mt Hm o Ho.
    apply Hno; [done| |done]. apply elem_of_reverse, elem_of_seqZ. lia.
Qed.

Lemma reserve_type : 0 ≤ MIGRATE_RESERVE < MIGRATE_TYPES.
Proof. unfold MIGRATE_TYPES, MIGRATE_ISOLATE, MIGRATE_RESERVE. destruct CONFIG_CMA; lia. Qed.

(** From the label [retry_reserve] on: what the first search left. *)
Definition all_exhausted (mt : Z) : Prop :=
  exhausted mt ∧ (∀ m, m ∈ fallbacks mt → exhausted m) ∧ exhausted MIGRATE_RESERVE.

Lemma rmqueue_rest_spec r mt z1 :
  0 ≤ mt < MIGRATE_TYPES → allocated z order r z1 → (r = None → exhausted mt) →
  ∃ r' z', rmqueue_rest r order mt z1 = Ok r' z' ∧ allocated z order r' z' ∧
           (r' = None → all_exhausted mt).
Proof.
  intros Hmt Ha Hno. unfold rmqueue_rest, mbind, M_bind. destruct r as [p|]; [by exists (Some p), z1|].
  assert (z1 = z) as -> by (by destruct Ha as (_ & _ & ->)). specialize (Hno eq_refl).
  destruct (Z.eqb_spec mt MIGRATE_RESERVE) as [->|Hne].
  { exists None, z. split_and!; [done|done|]. intros _. split_and!; [done| |done].
    by intros m ?%elem_of_nil. }
  destruct (fallback_spec mt Hmt) as (r & z2 & E2 & Ha2 & Hno2). rewrite E2.
  destruct r as [p|]; [by exists (Some p), z2|].
  assert (z2 = z) as -> by (by destruct Ha2 as (_ & _ & ->)).
  destruct (smallest_spec MIGRATE_RESERVE reserve_type) as (r & z3 & E3 & Ha3 & Hno3).
  exists r, z3. split_and!; [done|done|]. intros Hr. split_and!; auto.
Qed.

Lemma rmqueue_spec mt :
  0 ≤ mt < MIGRATE_TYPES →
  ∃ r z', __rmqueue order mt z = Ok r z' ∧ allocated z order r z' ∧ (r = None → all_exhausted mt).
Proof.
  intros Hmt. unfold __rmqueue, mbind, M_bind.
  destruct (smallest_spec mt Hmt) as (r & z1 & E & Ha & Hno). rewrite E. by apply rmqueue_rest_spec.
Qed.

Lemma rmqueue_cma_spec mt :
  0 ≤ mt < MIGRATE_TYPES →
  ∃ r z', __rmqueue_cma order mt z = Ok r z' ∧ allocated z order r z' ∧ (r = None → all_exhausted mt).
Proof.
  intros Hmt. unfold __rmqueue_cma, mbind, M_bind, get.
  match goal with |- context [if ?c then __rmqueue_smallest _ _ else _] =>
    assert (∃ r z', (if c then __rmqueue_smallest order MIGRATE_CMA else mret None) z = Ok r z' ∧
      allocated z order r z') as (r0 & z0 & -> & Ha0) end.
  { destruct (CONFIG_CMA && _ && _) eqn:Ec; [|by exists None, z].
    bsimp. destruct (smallest_spec MIGRATE_CMA) as (r & z' & ? & ? & _); [|by eauto].
    unfold MIGRATE_TYPES, MIGRATE_ISOLATE, MIGRATE_CMA. case_match; [lia|congruence]. }
  destruct r0 as [p|]; [by apply rmqueue_rest_spec|].
  assert (z0 = z) as -> by (by destruct Ha0 as (_ & _ & ->)).
  destruct (smallest_spec mt Hmt) as (r & z1 & E & Ha & Hno). rewrite E. by apply rmqueue_rest_spec.
Qed.
End Rmqueue.

(** ** The claims *)

Lemma __free_one_page_spec z p o mt :
  buddy_inv z → block_ok z p o → PageCompound z p = false → 0 ≤ mt < MIGRATE_TYPES →
  ∃ z', __free_one_page p o mt z = Ok tt z' ∧ buddy_inv z' ∧ keeps z z' ∧
    ∀ x, is_free z' x ↔ is_free z x ∨ covers p o x.
Proof.
  intros Hi Hok Hcp Hmt. pose proof Hok as (Hr & Ha & Hx).
  unfold __free_one_page, VM_BUG_ON. mstep. rewrite Hcp. simpl.
  destruct (Z.eqb_spec mt (-1)); [lia|]. rewrite index_aligned by done. simpl.
  destruct (Hx p (covers_self o (proj1 Hr) p)) as (_ & _ & ->). by apply free_block_spec.
Qed.

Lemma free_one_page_spec z p o mt :
  buddy_inv z → zone_lock z = false → block_ok z p o → PageCompound z p = false →
  0 ≤ mt < MIGRATE_TYPES →
  ∃ z', free_one_page p o mt z = Ok tt z' ∧ buddy_inv z' ∧ zone_lock z' = false ∧
    NR_FREE_PAGES z' = (if mt =? MIGRATE_ISOLATE then NR_FREE_PAGES z
                        else s32 (NR_FREE_PAGES z + 2 ^ o)) ∧
    (∀ x, is_free z' x ↔ is_free z x ∨ covers p o x) ∧ pcp_kept z z'.
Proof.
  intros Hi Hl Hok Hcp Hmt. unfold free_one_page, zone_spin_lock, zone_spin_unlock. mstep.
  rewrite Hl. simpl. match goal with |- context [__free_one_page p o mt ?s] => set (z1 := s) end.
  destruct (__free_one_page_spec z1 p o mt) as (z2 & E & Hi2 & Hk & Hf);
    [by eapply buddy_inv_congr; [..|exact Hi]|exact Hok|done|done|].
  rewrite E. destruct Hk as (Hk1 & Hk2 & Hk3 & Hk4).
  pose proof Hok as (Hr & _). rewrite shift_one by lia.
  destruct (mt =? MIGRATE_ISOLATE).
  - simpl. eexists. split; [done|]. split; [by eapply buddy_inv_congr; [..|exact Hi2]|]. done.
  - unfold __mod_zone_freepage_state, mod_free_pages, mod_free_cma_pages. mstep.
    destruct (is_migrate_cma mt); simpl; (eexists; split; [done|]; split;
      [by eapply buddy_inv_congr; [..|exact Hi2]|]; split_and!; [done| |done|done];
      simpl; by rewrite Hk2).
Qed.

(** C1. Freeing a block: for an aligned block of unused pages of the zone that
    is out of the allocator, [free_one_page] returns (the merging loop ends and
    no debug check fires), releases the zone lock, and adds exactly the pages
    of the block to the free memory.  The invariant holds again: free blocks
    are aligned, disjoint, on the list of their order and counted in
    [nr_free], and no two free buddies remain unmerged.  [NR_FREE_PAGES] grows
    by the size of the block, except for isolated page blocks. *)
Theorem free_one_page_correct z p o mt :
  buddy_inv z → zone_lock z = false → block_ok z p o → PageCompound z p = false →
  0 ≤ mt < MIGRATE_TYPES →
  ∃ z', free_one_page p o mt z = Ok tt z' ∧ buddy_inv z' ∧ zone_lock z' = false ∧
    NR_FREE_PAGES z' = (if mt =? MIGRATE_ISOLATE then NR_FREE_PAGES z
                        else s32 (NR_FREE_PAGES z + 2 ^ o)) ∧
    ∀ x, is_free z' x ↔ is_free z x ∨ covers p o x.
Proof.
  intros. destruct (free_one_page_spec z p o mt) as (z' & ? & ? & ? & ? & ? & _); [done..|].
  by exists z'.
Qed.

(** C2. Allocating a block: [__rmqueue] always returns and keeps the invariant.
    It takes an aligned block of the requested order out of the free memory,
    leaving every other free page free; it fails only when no block of that
    order or above is on the lists of the requested type, of its fallback types
    and of the reserve, and then changes nothing. *)
Theorem rmqueue_correct z order mt :
  buddy_inv z → 0 ≤ order < MAX_ORDER → 0 ≤ mt < MIGRATE_TYPES →
  zone_contiguous z → 0 ≤ pageblock_order →
  ∃ r z', __rmqueue order mt z = Ok r z' ∧ buddy_inv z' ∧
    match r with
    | Some p => (2 ^ order | p) ∧ block_ok z' p order ∧
                ∀ x, is_free z x ↔ is_free z' x ∨ covers p order x
    | None => z' = z ∧ exhausted z order mt ∧
              (∀ m, m ∈ fallbacks mt → exhausted z order m) ∧ exhausted z order MIGRATE_RESERVE
    end.
Proof.
  intros Hi Hord Hmt Hct Hpb.
  destruct (rmqueue_spec z order Hi Hord Hct Hpb mt Hmt) as (r & z' & E & (Hi' & _ & Hr) & Hno).
  exists r, z'. split_and!; [done..|]. destruct r as [p|].
  - destruct Hr as [Hok Hf]. split_and!; [by destruct Hok as (_ & ? & _)|done..].
  - split; [done|]. by apply Hno.
Qed.

(** Allocating and freeing is a round trip: freeing the block [__rmqueue]
    returned gives back exactly the free memory there was. *)
Theorem alloc_free_roundtrip z order mt mt' p z' :
  buddy_inv z → zone_lock z = false → 0 ≤ order < MAX_ORDER → 0 ≤ mt < MIGRATE_TYPES →
  0 ≤ mt' < MIGRATE_TYPES → zone_contiguous z → 0 ≤ pageblock_order →
  __rmqueue order mt z = Ok (Some p) z' → PageCompound z' p = false →
  ∃ z'', free_one_page p order mt' z' = Ok tt z'' ∧ buddy_inv z'' ∧
         ∀ x, is_free z'' x ↔ is_free z x.
Proof.
  intros Hi Hl Hord Hmt Hmt' Hct Hpb E Hcp.
  destruct (rmqueue_spec z order Hi Hord Hct Hpb mt Hmt) as (r & z1 & E1 & (Hi' & Hk & Hr) & _).
  rewrite E in E1. simplify_eq. destruct Hr as [Hok Hf].
  destruct (free_one_page_spec z1 p order mt') as (z2 & E2 & Hi2 & _ & _ & Hf2 & _);
    [done|by destruct Hk as (-> & _)|done..|].
  exists z2. split_and!; [done|done|]. intros x. by rewrite Hf2, Hf.
Qed.
End BuddyInv.

(** ** A small zone *)

#[export] Instance demo_buddy : BuddyConfig := {
  MAX_ORDER := 3;
  pageblock_order := 2;
  CONFIG_CMA := true;
  CONFIG_HOLES_IN_ZONE := false;
  page_group_by_mobility_disabled := false;
  pfn_valid_within _ := true;
  page_zone _ := 0;
  PAGE_BUDDY_MAPCOUNT_VALUE := -128;
  PAGE_FLAGS_CHECK_AT_FREE := 1;
  PAGE_FLAGS_CHECK_AT_PREP := 3;
  mem_cgroup_bad_page _ := false;
  GFP_ZERO_flag := 32768;
  GFP_COMP_flag := 16384
}.

(** Eight pages, none of them free. *)
Definition demo_zone : zone (gmap lhead (list Z)) :=
  mkZone 0 0 8 ∅ ∅ ∅ 0 0 ∅ false 0 0 false 0 186 31 ∅ ∅ 0 0 0 0 0.

Lemma demo_elems h : elems (lists demo_zone) h = [].
Proof. done. Qed.

Lemma demo_not_free p o : ¬ free_at demo_zone p o.
Proof. intros [mt Hin]. by apply elem_of_nil in Hin. Qed.

Lemma demo_buddy_inv : buddy_inv demo_zone.
Proof.
  split; try (by intros; match goal with Hf : free_at demo_zone _ _ |- _ =>
    destruct (demo_not_free _ _ Hf) end).
  - split; [intros h; rewrite demo_elems; apply NoDup_nil_2|]. intros n h h'. by rewrite demo_elems, elem_of_nil.
  - intros p o mt. by rewrite demo_elems, elem_of_nil.
  - intros p Hb. discriminate Hb.
  - intros o. reflexivity.
Qed.

Lemma demo_block p o :
  0 ≤ o < 3 → (2 ^ o | p) → 0 ≤ p → p + 2 ^ o ≤ 8 → block_ok demo_zone p o.
Proof.
  intros Ho Ha Hp He. split_and!; [lia|simpl; lia|done|]. intros x Hx. unfold covers in Hx.
  split_and!.
  - split_and!; [done..|].
    intros h. rewrite demo_elems. apply not_elem_of_nil.
  - intros (q & o' & Hf & _). by apply (demo_not_free q o').
  - unfold bad_range, page_outside_zone_boundaries, page_is_consistent. simpl.
    destruct (Z.leb_spec 8 x), (Z.ltb_spec x 0); lia || done.
Qed.

Lemma demo_value : PAGE_BUDDY_MAPCOUNT_VALUE ≠ -1.
Proof. done. Qed.

Lemma demo_type mt : 0 ≤ mt ≤ 5 → 0 ≤ mt < MIGRATE_TYPES.
Proof. change MIGRATE_TYPES with 6. lia. Qed.

(** The block of order 2 at page 4 is free. *)
Definition demo_freed : zone (gmap lhead (list Z)) :=
  res_state (free_one_page 4 2 MIGRATE_MOVABLE demo_zone).

Lemma demo_freed_inv : buddy_inv demo_freed.
Proof.
  unfold demo_freed.
  destruct (free_one_page_spec demo_value demo_zone 4 2 MIGRATE_MOVABLE demo_buddy_inv eq_refl)
    as (z' & E & Hi & _); [|reflexivity|by apply demo_type|by rewrite E].
  apply demo_block; [lia|by exists 1|lia|simpl; lia].
Qed.

Lemma free_one_page_correct_witness :
  ∃ z', free_one_page 4 2 MIGRATE_MOVABLE demo_zone = Ok tt z' ∧ NR_FREE_PAGES z' = 4.
Proof.
  destruct (free_one_page_correct demo_value demo_zone 4 2 MIGRATE_MOVABLE demo_buddy_inv eq_refl)
    as (z' & E & _ & _ & Hn & _); [|reflexivity|by apply demo_type|].
  - apply demo_block; [lia|by exists 1|lia|simpl; lia].
  - exists z'. split; [done|]. rewrite Hn. reflexivity.
Defined.

Lemma rmqueue_correct_witness :
  ∃ r z', __rmqueue 0 MIGRATE_UNMOVABLE demo_freed = Ok r z' ∧ buddy_inv z'.
Proof.
  destruct (rmqueue_correct demo_value demo_freed 0 MIGRATE_UNMOVABLE demo_freed_inv)
    as (r & z' & E & Hi & _); [by split|by apply demo_type|by intros _ x _|done|].
  exists r, z'. by split.
Defined.

Lemma alloc_free_roundtrip_witness :
  ∃ z', free_one_page 4 0 MIGRATE_MOVABLE
          (res_state (__rmqueue 0 MIGRATE_UNMOVABLE demo_freed)) = Ok tt z' ∧
        ∀ x, is_free z' x ↔ is_free demo_freed x.
Proof.
  destruct (alloc_free_roundtrip demo_value demo_freed 0 MIGRATE_UNMOVABLE MIGRATE_MOVABLE 4
    (res_state (__rmqueue 0 MIGRATE_UNMOVABLE demo_freed)) demo_freed_inv)
    as (z' & E & _ & Hf); [reflexivity|by split|by apply demo_type|by apply demo_type|by intros _ x _|done|vm_compute; reflexivity|reflexivity|].
  exists z'. by split.
Defined.
