(* ===== verification/Pcp.v ===== *)
(** * Allocation and release within one zone: [hw5/mm/page_alloc.c], lines 1349 to 1706

    Single pages go through lists kept per processor in front of the buddy
    allocator: [free_hot_cold_page] fills them and spills a batch back when
    they are full, [buffered_rmqueue] serves from them and refills a batch when
    they are empty.  The watermark tests decide whether a zone may be used at
    all.  The lists are those of the processor that runs the code.

    The bits of [gfp_t] and of [alloc_flags], the sysctl
    [min_free_order_shift] and the counter deltas of other processors are the
    parameter [ZoneEnv]. *)

From S2P Require Import Prelude KList Buddy.

Definition WMARK_MIN : Z := 0.
Definition WMARK_LOW : Z := 1.
Definition WMARK_HIGH : Z := 2.

Class ZoneEnv : Type := {
  GFP_COLD : Z;
  GFP_CMA : Z;
  ALLOC_HIGH : Z;
  ALLOC_HARDER : Z;
  ALLOC_CMA : Z;
  min_free_order_shift : Z;
  vm_stat_diff : Z → Z     (** by zone: deltas of [NR_FREE_PAGES] not yet folded in *)
}.

Section Pcp.
Context {L : Type} `{KList lhead L} `{BuddyConfig} `{ZoneEnv}.
Implicit Types z : zone L.

(** ** Per-cpu lists *)

Definition free_hot_cold_page (p : Z) (cold : bool) : M (zone L) unit :=
  _ ← upd_page p (λ v, v <| mlocked := false |>);
  ok ← free_pages_prepare p 0;
  if negb ok then mret tt
  else
    z ← get;
    let migratetype := get_pageblock_migratetype z p in
    _ ← upd_page p (λ v, v <| private := migratetype |>);
    if (MIGRATE_PCPTYPES <=? migratetype) &&
       ((migratetype =? MIGRATE_ISOLATE) || is_migrate_cma migratetype)
    then free_one_page p 0 migratetype
    else
      let migratetype := if MIGRATE_PCPTYPES <=? migratetype then MIGRATE_MOVABLE else migratetype in
      _ ← modify (λ z, z <| lists ::= if cold then list_add_tail p (PcpList migratetype)
                                      else list_add p (PcpList migratetype) |>);
      _ ← modify (λ z, z <| pcp_count := s32 (pcp_count z + 1) |>);
      z ← get;
      if pcp_high z <=? pcp_count z then
        _ ← free_pcppages_bulk (pcp_batch z);
        modify (λ z, z <| pcp_count := s32 (pcp_count z - pcp_batch z) |>)
      else mret tt.

(** [list] as the pages on it; the next page is fetched before one is freed. *)
Definition free_hot_cold_page_list (list : list Z) (cold : bool) : M (zone L) unit :=
  for_each list (λ p, free_hot_cold_page p cold).

(** [drain_pages] on one zone. *)
Definition drain_zone : M (zone L) unit :=
  n ← gets pcp_count;
  if negb (n =? 0) then
    _ ← free_pcppages_bulk n;
    modify (λ z, z <| pcp_count := 0 |>)
  else mret tt.

(** ** Watermarks *)

(** [zone_page_state] reports a negative counter as 0. *)
Definition zone_page_state (n : Z) : Z := if n <? 0 then 0 else n.

(** The loop over the orders below the requested one. *)
Fixpoint watermark_orders (os : list Z) z (min free_pages : Z) : bool :=
  match os with
  | [] => true
  | o :: os' =>
      let free_pages := s32 (free_pages - u32 (Z.shiftl (nr_free_of z o) o)) in
      let min := Z.shiftr min min_free_order_shift in
      if free_pages <=? min then false else watermark_orders os' z min free_pages
  end.

Definition __zone_watermark_ok z (order mark classzone_idx alloc_flags free_pages : Z) : bool :=
  let min := s32 mark in
  let reserve := s32 (default 0 (lowmem_reserve z !! classzone_idx)) in
  let free_pages := s32 (free_pages - (Z.shiftl 1 order - 1)) in
  let min := if has_flag alloc_flags ALLOC_HIGH then s32 (min - Z.quot min 2) else min in
  let min := if has_flag alloc_flags ALLOC_HARDER then s32 (min - Z.quot min 4) else min in
  let free_pages :=
    if CONFIG_CMA && negb (has_flag alloc_flags ALLOC_CMA)
    then s32 (free_pages - zone_page_state (NR_FREE_CMA_PAGES z)) else free_pages in
  if free_pages <=? s32 (min + reserve) then false
  else watermark_orders (seqZ 0 order) z min free_pages.

Definition zone_watermark_ok z (order mark classzone_idx alloc_flags : Z) : bool :=
  __zone_watermark_ok z order mark classzone_idx alloc_flags (zone_page_state (NR_FREE_PAGES z)).

Definition zone_watermark_ok_safe z (order mark classzone_idx alloc_flags : Z) : bool :=
  let free_pages := zone_page_state (NR_FREE_PAGES z) in
  let free_pages :=
    if negb (percpu_drift_mark z =? 0) && (free_pages <? percpu_drift_mark z)
    then zone_page_state (NR_FREE_PAGES z + vm_stat_diff (zone_id z)) else free_pages in
  __zone_watermark_ok z order mark classzone_idx alloc_flags free_pages.

(** ** Splitting *)

Definition split_page (p order : Z) : M (zone L) unit :=
  z ← get;
  _ ← VM_BUG_ON (PageCompound z p);
  _ ← VM_BUG_ON (_count (page_at z p) =? 0);
  for_each (seqZ 1 (Z.shiftl 1 order - 1)) (λ i, set_page_refcounted (p + i)).

Definition mark_movable (p : Z) : M (zone L) unit :=
  z ← get;
  let mt := get_pageblock_migratetype z p in
  if negb (mt =? MIGRATE_ISOLATE) && negb (is_migrate_cma mt)
  then set_pageblock_migratetype p MIGRATE_MOVABLE else mret tt.

(** The last loop steps by page blocks from [page] to below [page + 2 ^ order - 1]. *)
Definition split_free_page (p : Z) : M (zone L) Z :=
  z ← get;
  if negb (PageBuddy z p) then fail BugOn
  else
    let order := private (page_at z p) in
    let mt := get_pageblock_migratetype z p in
    let mark := u32 (default 0 (watermark z !! WMARK_LOW) + Z.shiftl 1 order) in
    if negb (is_migrate_cma mt) && negb (mt =? MIGRATE_ISOLATE)
       && negb (zone_watermark_ok z 0 mark 0 0) then mret 0
    else
      _ ← modify (λ z, z <| lists ::= list_del p |>);
      _ ← add_nr_free order (-1);
      _ ← rmv_page_order p;
      _ ← (if negb (mt =? MIGRATE_ISOLATE) then __mod_zone_freepage_state (- Z.shiftl 1 order) mt
           else mret tt);
      _ ← set_page_refcounted p;
      _ ← split_page p order;
      _ ← (if pageblock_order - 1 <=? order then
             for_each (seqZ 0 ((Z.shiftl 1 order - 1 + pageblock_nr_pages - 1) / pageblock_nr_pages))
               (λ i, mark_movable (p + i * pageblock_nr_pages))
           else mret tt);
      mret (Z.shiftl 1 order).

(** ** Allocation from one zone *)

(** A page from the per-cpu lists, refilled first when the list is empty. *)
Definition pcp_take (gfp_flags migratetype : Z) : M (zone L) (option Z) :=
  let cold := has_flag gfp_flags GFP_COLD in
  z ← get;
  _ ← (if decide (elems (lists z) (PcpList migratetype) = []) then
         n ← rmqueue_bulk 0 (pcp_batch z) migratetype migratetype cold (has_flag gfp_flags GFP_CMA);
         modify (λ z, z <| pcp_count := s32 (pcp_count z + n) |>)
       else mret tt);
  z ← get;
  let l := elems (lists z) (PcpList migratetype) in
  match (if cold then last l else head l) with
  | None => mret None
  | Some p =>
      _ ← modify (λ z, z <| lists ::= list_del p |>);
      _ ← modify (λ z, z <| pcp_count := s32 (pcp_count z - 1) |>);
      mret (Some p)
  end.

(** A block from the buddy allocator. *)
Definition block_take (order gfp_flags migratetype : Z) : M (zone L) (option Z) :=
  _ ← zone_spin_lock;
  r ← (if has_flag gfp_flags GFP_CMA then __rmqueue_cma order migratetype
       else __rmqueue order migratetype);
  _ ← zone_spin_unlock;
  match r with
  | None => mret None
  | Some p =>
      z ← get;
      _ ← __mod_zone_freepage_state (- Z.shiftl 1 order) (get_pageblock_migratetype z p);
      mret (Some p)
  end.

(** The loop at the label [again]: a block with a bad page is dropped and the
    next one tried. *)
Fixpoint buffered_rmqueue_loop (fuel : nat) (order gfp_flags migratetype : Z)
    : M (zone L) (option Z) :=
  match fuel with
  | O => fail OutOfFuel
  | S fuel' =>
      r ← (if order =? 0 then pcp_take gfp_flags migratetype
           else block_take order gfp_flags migratetype);
      match r with
      | None => mret None
      | Some p =>
          z ← get;
          _ ← VM_BUG_ON (bad_range z p);
          bad ← prep_new_page p order gfp_flags;
          if negb (bad =? 0) then buffered_rmqueue_loop fuel' order gfp_flags migratetype
          else mret (Some p)
      end
  end.

(** Every round takes pages out, so the size of the zone bounds the rounds. *)
Definition buffered_rmqueue (order gfp_flags migratetype : Z) : M (zone L) (option Z) :=
  z ← get;
  buffered_rmqueue_loop (S (S (Z.to_nat (spanned_pages z)))) order gfp_flags migratetype.

End Pcp.
