(* ===== verification/PcpSpec.v ===== *)
(** * Correctness of the per-cpu lists and of allocation from one zone

    A zone holds its unallocated pages in two places: the free blocks of the
    buddy allocator and the per-cpu lists.  [pcp_ok] extends the invariant of
    [BuddySpec.v] to the lists; the operations move pages between the two
    places and to and from their users. *)

From S2P Require Import Prelude KList Buddy BuddySpec Pcp.

Section PcpInv.
Context {L : Type} `{KListLaws lhead L} `{BuddyConfig} `{ZoneEnv}.
Hypothesis buddy_value : PAGE_BUDDY_MAPCOUNT_VALUE ≠ -1.
Implicit Types z : zone L.

Definition pcp_pages z : list Z :=
  elems (lists z) (PcpList 0) ++ elems (lists z) (PcpList 1) ++ elems (lists z) (PcpList 2).

(** A page that may be handed to the buddy allocator. *)
Definition page_clean z (p : Z) : Prop :=
  _mapcount (page_at z p) = -1 ∧ _count (page_at z p) = 0 ∧ PageCompound z p = false ∧
  bad_range z p = false.

Definition pcp_ok z : Prop :=
  ∀ mt p, p ∈ elems (lists z) (PcpList mt) →
    0 ≤ mt < MIGRATE_PCPTYPES ∧ page_clean z p ∧ 0 ≤ private (page_at z p) < MIGRATE_TYPES.

Definition same_zone z z' : Prop :=
  zone_id z' = zone_id z ∧ zone_start_pfn z' = zone_start_pfn z ∧
  spanned_pages z' = spanned_pages z ∧ pcp_high z' = pcp_high z ∧ pcp_batch z' = pcp_batch z ∧
  (types_ok z → types_ok z') ∧ (∀ x, desc (page_at z' x) = desc (page_at z x)).

(** Which zone it is and where. *)
Definition bounds z : Z * Z * Z := (zone_id z, zone_start_pfn z, spanned_pages z).

Lemma same_zone_bounds z z' : same_zone z z' → bounds z' = bounds z.
Proof. intros (? & ? & ? & _). unfold bounds. congruence. Qed.

Lemma bounds_contiguous z z' : bounds z' = bounds z → zone_contiguous z → zone_contiguous z'.
Proof. unfold bounds, zone_contiguous. intros [= -> -> ->]. done. Qed.

Lemma same_zone_trans z1 z2 z3 : same_zone z1 z2 → same_zone z2 z3 → same_zone z1 z3.
Proof. unfold same_zone. intuition congruence. Qed.

Lemma kept_same z z' : pcp_kept z z' → same_zone z z'.
Proof. unfold pcp_kept, same_zone. tauto. Qed.

Lemma same_bad_range z z' x : same_zone z z' → bad_range z' x = bad_range z x.
Proof.
  intros (Hz & Hs & Hn & _).
  unfold bad_range, page_outside_zone_boundaries, page_is_consistent. by rewrite Hz, Hs, Hn.
Qed.

(** ** What the invariant of the free blocks depends on *)

(** Lists other than the free lists may change, as long as no page inside a free
    block gets onto one. *)
Lemma buddy_inv_lists z l' :
  buddy_inv z → lists_wf l' →
  (∀ o mt, elems l' (FreeList o mt) = elems (lists z) (FreeList o mt)) →
  (∀ x, is_free z x → off_list (lists z) x → off_list l' x) →
  buddy_inv (z <| lists := l' |>) ∧ ∀ x, is_free (z <| lists := l' |>) x ↔ is_free z x.
Proof.
  intros Hi Hwf He Hoff.
  assert (∀ p o, free_at (z <| lists := l' |>) p o ↔ free_at z p o) as Hf.
  { intros p o. unfold free_at. simpl. by setoid_rewrite He. }
  split; [|intros x; unfold is_free; by setoid_rewrite Hf].
  split; simpl; try (setoid_rewrite Hf; apply Hi); [done| | |].
  - intros p o mt. rewrite He. apply (bi_types z Hi).
  - intros p o x. rewrite Hf. intros Hp Hc Hx. destruct (bi_inner z Hi p o x Hp Hc Hx) as (? & ? & ?).
    split_and!; [done..|]. apply Hoff; [by exists p, o|done].
  - intros o. unfold blocks. rewrite (sum_same (λ mt, Z.of_nat (length (elems (lists z) (FreeList o mt)))));
      [apply (bi_count z Hi)|]. intros m. simpl. by rewrite He.
Qed.

(** Only the descriptors of the pages in [P] may differ. *)
Definition touched z (P : Z → Prop) z' : Prop :=
  ∃ m, z' = z <| mem_map := m |> ∧ ∀ x, ¬ P x → m !! x = mem_map z !! x.

Abbreviation only p := (λ x : Z, x = p).

Lemma touched_refl z P : touched z P z.
Proof. exists (mem_map z). by destruct z. Qed.

Lemma touched_trans z1 z2 z3 P : touched z1 P z2 → touched z2 P z3 → touched z1 P z3.
Proof.
  intros (m & -> & Hm) (m' & -> & Hm'). exists m'. split; [done|].
  intros x Hx. simpl in Hm'. by rewrite Hm', Hm.
Qed.

Lemma touched_upd z p v (P : Z → Prop) : P p → touched z P (z <| mem_map ::= <[p := v]> |>).
Proof.
  intros Hp. exists (<[p := v]> (mem_map z)). split; [done|]. intros x Hx.
  apply lookup_insert_ne. by intros ->.
Qed.

Lemma touched_page z P z' x : touched z P z' → ¬ P x → page_at z' x = page_at z x.
Proof. intros (m & -> & Hm) Hx. unfold page_at. simpl. by rewrite Hm. Qed.

Lemma touched_inv z (P : Z → Prop) `{∀ x, Decision (P x)} z' :
  touched z P z' → buddy_inv z →
  (∀ x, P x → ¬ is_free z x ∧ _mapcount (page_at z' x) ≠ PAGE_BUDDY_MAPCOUNT_VALUE) → buddy_inv z'.
Proof.
  intros Ht Hi Hp. pose proof (λ x, touched_page z P z' x Ht) as He.
  destruct Ht as (m & -> & _). set (z' := z <| mem_map := m |>) in *.
  assert (∀ q o x, free_at z q o → covers q o x → ¬ P x) as Hne
    by (intros q o x Hq Hc [Hx _]%Hp; apply Hx; by exists q, o).
  assert (∀ q o, free_at z q o → ¬ P q) as Hne'.
  { intros q o Hq. apply (Hne q o q Hq), covers_self. destruct (bi_block z Hi q o Hq); lia. }
  split; try apply Hi.
  - intros q o Hq. unfold PageBuddy. rewrite He by (by eapply Hne'). by apply (bi_block z Hi).
  - intros x. unfold PageBuddy. destruct (decide (P x)) as [[_ Hx]%Hp|Hx].
    + by intros ?%Z.eqb_eq.
    + rewrite He by done. apply (bi_flag z Hi).
  - intros q o x Hq Hc Hx. unfold page_idle. rewrite He by (by eapply Hne). by eapply (bi_inner z Hi).
Qed.

(** ** Pages on the per-cpu lists *)

Lemma pcp_not_free z p mt : buddy_inv z → p ∈ elems (lists z) (PcpList mt) → ¬ is_free z p.
Proof.
  intros Hi Hp (q & o & Hq & Hc). destruct (decide (p = q)) as [->|Hne].
  - destruct Hq as [m Hm]. by pose proof (wf_one _ (bi_lists z Hi) q _ _ Hm Hp).
  - destruct (bi_inner z Hi q o p Hq Hc Hne) as (_ & _ & Hoff). by apply (Hoff (PcpList mt)).
Qed.

Lemma pcp_pages_in z p : pcp_ok z → p ∈ pcp_pages z ↔ ∃ mt, p ∈ elems (lists z) (PcpList mt).
Proof.
  intros Hok. unfold pcp_pages. rewrite !elem_of_app. split; [naive_solver|].
  intros [mt Hp]. destruct (Hok mt p Hp) as [Hmt _]. unfold MIGRATE_PCPTYPES in Hmt.
  assert (mt = 0 ∨ mt = 1 ∨ mt = 2) as [->|[->| ->]] by lia; auto.
Qed.

Lemma pcp_pages_nodup z : buddy_inv z → NoDup (pcp_pages z).
Proof.
  intros Hi. assert (∀ a b x, a ≠ b → x ∈ elems (lists z) (PcpList a) →
                              ¬ x ∈ elems (lists z) (PcpList b)) as Hd.
  { intros a b x Hab Ha Hb. pose proof (wf_one _ (bi_lists z Hi) x _ _ Ha Hb). congruence. }
  unfold pcp_pages. rewrite !NoDup_app. setoid_rewrite elem_of_app.
  split_and!; try apply (bi_lists z Hi); intros x Hx; [intros [Hy|Hy]|intros Hy];
    by eapply Hd; [|exact Hx|exact Hy].
Qed.

(** Taking a page off a per-cpu list. *)
Definition drop z (p : Z) : zone L := z <| lists ::= list_del p |>.

Section Drop.
Variables (z : zone L) (p mt : Z).
Hypothesis Hi : buddy_inv z.
Hypothesis Hp : p ∈ elems (lists z) (PcpList mt).

Lemma drop_elems h : elems (lists (drop z p)) h = remove_one p (elems (lists z) h).
Proof. unfold drop. simpl. apply elems_del; [apply Hi|by eexists]. Qed.

Lemma drop_other h : h ≠ PcpList mt → elems (lists (drop z p)) h = elems (lists z) h.
Proof.
  intros Hh. rewrite drop_elems. apply remove_one_absent. intros Hx. apply Hh.
  by apply (wf_one _ (bi_lists z Hi) p).
Qed.

Lemma drop_in h x : x ∈ elems (lists (drop z p)) h ↔ x ∈ elems (lists z) h ∧ x ≠ p.
Proof. rewrite drop_elems. apply remove_one_in, (bi_lists z Hi). Qed.

Lemma drop_inv : buddy_inv (drop z p) ∧ ∀ x, is_free (drop z p) x ↔ is_free z x.
Proof.
  change (drop z p) with (z <| lists := list_del p (lists z) |>). apply buddy_inv_lists; [done|..].
  - apply wf_del; [apply Hi|by eexists].
  - intros o m. by apply drop_other.
  - intros x _ Hoff h. rewrite drop_in. intros [Hx _]. by apply (Hoff h).
Qed.

Lemma drop_ok : pcp_ok z → pcp_ok (drop z p).
Proof. intros Hok m x. rewrite drop_in. intros [Hx _]. by apply Hok. Qed.

Lemma drop_pages : pcp_ok z → pcp_pages z ≡ₚ p :: pcp_pages (drop z p).
Proof.
  intros Hok. destruct drop_inv as [Hi' _]. pose proof (drop_ok Hok) as Hok'.
  assert (p ∉ pcp_pages (drop z p)) as Hnp.
  { rewrite pcp_pages_in by done. intros [m Hm]. by apply drop_in in Hm as [_ ?]. }
  apply NoDup_Permutation; [by apply pcp_pages_nodup|apply NoDup_cons; split; [done|by apply pcp_pages_nodup]|].
  intros x. rewrite elem_of_cons, !pcp_pages_in by done. setoid_rewrite drop_in.
  destruct (decide (x = p)) as [->|]; naive_solver.
Qed.
End Drop.

(** ** Giving pages back to the buddy allocator *)

(** The pages [ps] went from the per-cpu lists to the free memory. *)
Record drained z (ps : list Z) z' : Prop := {
  dr_inv : buddy_inv z';
  dr_ok : pcp_ok z';
  dr_pages : pcp_pages z ≡ₚ ps ++ pcp_pages z';
  dr_free x : is_free z' x ↔ is_free z x ∨ x ∈ ps;
  dr_same : same_zone z z';
  dr_state : zone_lock z' = zone_lock z ∧ NR_FREE_PAGES z' = NR_FREE_PAGES z ∧
             pcp_count z' = pcp_count z
}.

Lemma drained_refl z : buddy_inv z → pcp_ok z → drained z [] z.
Proof. intros. split; try done. intros x. set_solver. Qed.

Lemma drained_trans z1 z2 z3 ps qs :
  drained z1 ps z2 → drained z2 qs z3 → drained z1 (ps ++ qs) z3.
Proof.
  intros [_ _ P1 F1 S1 (? & ? & ?)] [I2 O2 P2 F2 S2 (? & ? & ?)]. split; [done|done| | | |].
  - by rewrite P1, P2, app_assoc.
  - intros x. rewrite F2, F1, elem_of_app. tauto.
  - by eapply same_zone_trans.
  - split_and!; congruence.
Qed.

Lemma kept_pcp_ok z z' : pcp_kept z z' → pcp_ok z → pcp_ok z'.
Proof.
  intros Hk Hok mt p. pose proof Hk as (_ & _ & _ & _ & _ & _ & He & Hp & _).
  rewrite He. intros Hin. destruct (Hok mt p Hin) as (Hmt & (Hm & Hc & Hcp & Hb) & Hpr).
  unfold page_clean, PageCompound in *.
  rewrite (Hp mt p Hin), (same_bad_range z z' p (kept_same z z' Hk)). tauto.
Qed.

Lemma kept_pcp_pages z z' : pcp_kept z z' → pcp_pages z' = pcp_pages z.
Proof. intros (_ & _ & _ & _ & _ & _ & He & _). unfold pcp_pages. by rewrite !He. Qed.

Lemma covers_0 p x : covers p 0 x ↔ x = p.
Proof. unfold covers. change (2 ^ 0) with 1. lia. Qed.

Lemma clean_block_ok z p :
  page_clean z p → off_list (lists z) p → ¬ is_free z p → 0 < MAX_ORDER → block_ok z p 0.
Proof.
  intros (? & ? & ? & ?) Hoff Hnf Hm. split_and!; [lia|lia|exists p; lia|].
  intros x ->%covers_0. by split_and!.
Qed.

Lemma drain_one z p mt :
  buddy_inv z → pcp_ok z → 0 < MAX_ORDER → p ∈ elems (lists z) (PcpList mt) →
  ∃ z', __free_one_page p 0 (private (page_at z p)) (drop z p) = Ok tt z' ∧ drained z [p] z' ∧
        elems (lists z') (PcpList mt) = remove_one p (elems (lists z) (PcpList mt)).
Proof.
  intros Hi Hok Hm Hp. destruct (Hok mt p Hp) as (_ & Hcl & Hpr).
  destruct (drop_inv z p mt Hi Hp) as [Hi1 Hf1].
  destruct (__free_one_page_spec buddy_value (drop z p) p 0 (private (page_at z p)))
    as (z' & E & Hi' & Hk & Hf); [done| | |done|].
  - apply clean_block_ok; [done| | |done].
    + intros h. rewrite (drop_in z p mt) by done. tauto.
    + rewrite Hf1. by eapply pcp_not_free.
  - apply Hcl.
  - exists z'. split_and!; [done| |].
    + split; [done|by eapply kept_pcp_ok; [apply Hk|]; apply (drop_ok z p mt)| | | |].
      * rewrite (kept_pcp_pages (drop z p) z') by apply Hk. by apply (drop_pages z p mt).
      * intros x. rewrite Hf, Hf1, covers_0. set_solver.
      * destruct Hk as (_ & _ & _ & Hk). by apply kept_same in Hk.
      * by destruct Hk as (? & ? & _ & _ & _ & _ & ? & _).
    + pose proof Hk as (_ & _ & _ & _ & _ & _ & _ & _ & _ & -> & _). by eapply drop_elems.
Qed.

Lemma cma_same z ps z' d :
  drained z ps z' → drained z ps (z' <| NR_FREE_CMA_PAGES := d |>).
Proof.
  intros [I O P F S T]. split; try done. by eapply buddy_inv_congr; [..|exact I].
Qed.

Lemma drain_list_spec fuel z mt n b :
  buddy_inv z → pcp_ok z → 0 < MAX_ORDER → elems (lists z) (PcpList mt) ≠ [] →
  0 < n → 0 < b → n ≤ Z.of_nat fuel →
  ∃ ps z' b', drain_list fuel mt n b z = Ok (n - Z.of_nat (length ps), b') z' ∧
    drained z ps z' ∧ 0 < Z.of_nat (length ps) ≤ n ∧ 0 ≤ b'.
Proof.
  intros Hi Hok Hm. revert z n b Hi Hok. induction fuel as [|fuel IH]; intros z n b Hi Hok Hne Hn Hb Hfuel; [lia|].
  destruct (last (elems (lists z) (PcpList mt))) as [p|] eqn:El;
    [|by apply last_None in El].
  assert (p ∈ elems (lists z) (PcpList mt)) as Hp by (by eapply last_Some_elem_of).
  destruct (drain_one z p mt Hi Hok Hm Hp) as (z1 & E1 & Hd & _).
  simpl. unfold mbind, M_bind, get, deref, modify at 1. rewrite El. simpl.
  change (z <| lists ::= list_del p |>) with (drop z p). rewrite E1.
  match goal with |- context [match ?m z1 with _ => _ end] =>
    assert (∃ z2, m z1 = Ok tt z2 ∧ drained z [p] z2) as (z2 & -> & Hd2) end.
  { destruct (is_migrate_cma _); [|by exists z1]. eexists. split; [done|]. by apply cma_same. }
  destruct (Z.eqb_spec (n - 1) 0) as [Hz|Hz].
  { exists [p], z2, b. simpl. split_and!; [done|done|lia..]. }
  destruct (Z.eqb_spec (b - 1) 0) as [Hz'|Hz'].
  { exists [p], z2, (b - 1). simpl. split_and!; [done|done|lia..]. }
  destruct (decide (elems (lists z2) (PcpList mt) = [])) as [He|He].
  { exists [p], z2, (b - 1). simpl. split_and!; [done|done|lia..]. }
  pose proof Hd2 as [I2 O2 _ _ _ _].
  destruct (IH z2 (n - 1) (b - 1)) as (ps & z3 & b' & E3 & Hd3 & Hl & Hb'); [done|done|done|lia..|].
  exists (p :: ps), z3, b'. rewrite E3. simpl. split_and!; [|by apply (drained_trans z z2 z3 [p] ps)|lia..].
  do 2 f_equal. lia.
Qed.

Lemma next_pcp_list_spec z mt b :
  pcp_pages z ≠ [] → 0 ≤ mt < MIGRATE_PCPTYPES →
  ∃ mt' b', next_pcp_list 3 mt b z = Ok (mt', b') z ∧ 0 ≤ mt' < MIGRATE_PCPTYPES ∧ b < b' ∧
            elems (lists z) (PcpList mt') ≠ [].
Proof.
  unfold MIGRATE_PCPTYPES, pcp_pages. intros Hne Hmt.
  assert (mt = 0 ∨ mt = 1 ∨ mt = 2) as Hcase by lia.
  simpl. unfold mbind, M_bind, get, MIGRATE_PCPTYPES.
  destruct Hcase as [->|[->| ->]]; simpl; repeat case_decide;
    try (by eexists _, _; split_and!; [done|lia..|]);
    exfalso; apply Hne;
    repeat match goal with E : elems _ (PcpList ?m) = [] |- _ =>
             let v := eval vm_compute in m in change m with v in E; rewrite E; clear E end; done.
Qed.

Lemma drain_lists_spec fuel z mt n b :
  buddy_inv z → pcp_ok z → 0 < MAX_ORDER → 0 ≤ mt < MIGRATE_PCPTYPES → 0 ≤ b →
  0 ≤ n ≤ Z.of_nat (length (pcp_pages z)) → n < Z.of_nat fuel →
  ∃ ps z', drain_lists fuel mt n b z = Ok tt z' ∧ drained z ps z' ∧ Z.of_nat (length ps) = n.
Proof.
  intros Hi Hok Hm. revert z mt n b Hi Hok.
  induction fuel as [|fuel IH]; intros z mt n b Hi Hok Hmt Hb Hn Hfuel; [lia|].
  cbn [drain_lists]. destruct (Z.eqb_spec n 0) as [->|Hn0].
  { exists [], z. split_and!; [done|by apply drained_refl|done]. }
  destruct (next_pcp_list_spec z mt b) as (mt' & b1 & E1 & Hmt' & Hb1 & Hne);
    [by intros E; rewrite E in Hn; simpl in Hn; lia|done|].
  unfold mbind, M_bind. rewrite E1.
  destruct (drain_list_spec (Z.to_nat n) z mt' n (if b1 =? MIGRATE_PCPTYPES then n else b1))
    as (ps & z1 & b2 & E2 & Hd & Hl & Hb2); [done|done|done|done|lia|by case_match; lia|lia|].
  rewrite E2. pose proof Hd as [I1 O1 P1 _ _ _].
  assert (length (pcp_pages z) = length ps + length (pcp_pages z1))%nat as Hlen
    by (by rewrite P1, length_app).
  destruct (IH z1 mt' (n - Z.of_nat (length ps)) b2) as (qs & z2 & E3 & Hd2 & Hl2);
    [done|done|done|lia..|].
  exists (ps ++ qs), z2. split_and!; [done|by eapply drained_trans|]. rewrite length_app. lia.
Qed.

Lemma free_bulk_spec z n :
  buddy_inv z → pcp_ok z → 0 < MAX_ORDER → zone_lock z = false →
  0 ≤ n ≤ Z.of_nat (length (pcp_pages z)) →
  ∃ ps z', free_pcppages_bulk n z = Ok tt z' ∧ Z.of_nat (length ps) = n ∧
    buddy_inv z' ∧ pcp_ok z' ∧ pcp_pages z ≡ₚ ps ++ pcp_pages z' ∧
    (∀ x, is_free z' x ↔ is_free z x ∨ x ∈ ps) ∧ same_zone z z' ∧ zone_lock z' = false ∧
    pcp_count z' = pcp_count z ∧ NR_FREE_PAGES z' = s32 (NR_FREE_PAGES z + n).
Proof.
  intros Hi Hok Hm Hl Hn. unfold free_pcppages_bulk, zone_spin_lock, zone_spin_unlock, mod_free_pages.
  unfold mbind, M_bind, gets, modify. rewrite Hl.
  match goal with |- context [drain_lists _ _ _ _ ?s] => set (z1 := s) end.
  destruct (drain_lists_spec (S (Z.to_nat n)) z1 0 n 0) as (ps & z2 & E & Hd & Hlen);
    [by eapply buddy_inv_congr; [..|exact Hi]|exact Hok|done|done|done|exact Hn|lia|].
  rewrite E. destruct Hd as [I O P F S (T1 & T2 & T3)].
  exists ps. eexists. split; [done|]. split; [done|].
  split; [by eapply buddy_inv_congr; [..|exact I]|]. split; [exact O|]. split; [exact P|].
  split; [exact F|]. split; [exact S|]. split; [done|]. split; [exact T3|]. simpl. by rewrite T2.
Qed.

(** ** The zone as its users see it *)

(** Nothing is left on the page from its last use. *)
Definition plain z (x : Z) : Prop :=
  PageCompound z x = false ∧ page_mapping (page_at z x) = 0 ∧
  has_flag (page_flags (page_at z x)) PAGE_FLAGS_CHECK_AT_PREP = false ∧
  mem_cgroup_bad_page x = false.

Lemma compound_desc z z' x :
  desc (page_at z' x) = desc (page_at z x) → PageCompound z' x = PageCompound z x.
Proof.
  unfold PageCompound, desc. destruct (page_at z x), (page_at z' x); simpl. intros [=]. by subst.
Qed.

Lemma plain_desc z z' x : desc (page_at z' x) = desc (page_at z x) → plain z x → plain z' x.
Proof.
  unfold plain, PageCompound, desc. destruct (page_at z x), (page_at z' x); simpl.
  intros [=]. by subst.
Qed.

(** The page is not in use: in a free block or on a per-cpu list. *)
Definition in_zone z (x : Z) : Prop := is_free z x ∨ x ∈ pcp_pages z.

(** The invariant of a zone with its per-cpu lists, between two operations. *)
Record zone_ok z : Prop := {
  zo_buddy : buddy_inv z;
  zo_pcp : pcp_ok z;
  zo_count : pcp_count z = Z.of_nat (length (pcp_pages z));
  zo_lock : zone_lock z = false;
  zo_span : 0 ≤ spanned_pages z < 2 ^ 31;
  zo_batch : 1 ≤ pcp_batch z ≤ Z.max 1 (pcp_high z);
  zo_types : types_ok z;
  zo_plain x : in_zone z x → plain z x
}.

Lemma range_length (l : list Z) a n :
  NoDup l → (∀ x, x ∈ l → a ≤ x < a + n) → 0 ≤ n → Z.of_nat (length l) ≤ n.
Proof.
  intros Hnd Hr Hn. assert (l ⊆+ seqZ a n) as Hsub.
  { apply NoDup_submseteq; [done|]. intros x Hx. apply elem_of_seqZ. by apply Hr. }
  apply submseteq_length in Hsub. rewrite length_seqZ in Hsub. lia.
Qed.

Lemma pcp_length z :
  buddy_inv z → pcp_ok z → 0 ≤ spanned_pages z → Z.of_nat (length (pcp_pages z)) ≤ spanned_pages z.
Proof.
  intros Hi Hok Hs. apply range_length with (zone_start_pfn z); [by apply pcp_pages_nodup| |done].
  intros x [mt Hx]%pcp_pages_in; [|done]. destruct (Hok mt x Hx) as (_ & (_ & _ & _ & Hb) & _).
  by apply bad_range_bounds.
Qed.

Lemma touched_pcp_ok z P z' :
  touched z P z' → (∀ x, P x → off_list (lists z) x) → pcp_ok z → pcp_ok z'.
Proof.
  intros Ht Hoff Hok mt x. pose proof (touched_page z P z' x Ht) as He.
  destruct Ht as (m & -> & _). simpl. intros Hx.
  assert (¬ P x) as Hne by (intros HP; by apply (Hoff x HP (PcpList mt))).
  unfold page_clean, PageCompound. rewrite (He Hne). by apply Hok.
Qed.

(** Where a page goes on a per-cpu list: to an end of it, or behind or in front
    of the page added before. *)
Definition put_at (l : L) (p lst : Z) (pos : option Z) (cold : bool) : L :=
  match pos, cold with
  | None, false => list_add p (PcpList lst) l
  | None, true => list_add_tail p (PcpList lst) l
  | Some q, false => list_add_after p q l
  | Some q, true => list_add_before p q l
  end.

Lemma put_at_elems l p lst pos cold h :
  lists_wf l → off_list l p → (∀ q, pos = Some q → q ∈ elems l (PcpList lst)) →
  if decide (h = PcpList lst) then elems (put_at l p lst pos cold) h ≡ₚ p :: elems l h
  else elems (put_at l p lst pos cold) h = elems l h.
Proof.
  intros Hwf Hoff Hpos. destruct pos as [q|].
  - specialize (Hpos q eq_refl). assert (on_list l q) by (by eexists).
    assert (h ≠ PcpList lst → q ∉ elems l h) as Hq
      by (intros Hh Hin; by pose proof (wf_one _ Hwf q _ _ Hin Hpos)).
    destruct cold; simpl; [rewrite elems_add_before by done|rewrite elems_add_after by done];
      case_decide; subst; auto using insert_before_perm, insert_after_perm,
        insert_before_absent, insert_after_absent.
  - destruct cold; simpl; [rewrite elems_add_tail by done|rewrite elems_add by done];
      case_decide; subst; try done. by rewrite Permutation_app_comm.
Qed.

Section PutAt.
Variables (l : L) (p lst : Z) (pos : option Z) (cold : bool).
Hypothesis Hwf : lists_wf l.
Hypothesis Hoff : off_list l p.
Hypothesis Hpos : ∀ q, pos = Some q → q ∈ elems l (PcpList lst).
Abbreviation l' := (put_at l p lst pos cold).

Lemma put_at_in h x : x ∈ elems l' h ↔ (x = p ∧ h = PcpList lst) ∨ x ∈ elems l h.
Proof.
  pose proof (put_at_elems l p lst pos cold h Hwf Hoff Hpos) as He. case_decide.
  - rewrite He, elem_of_cons. naive_solver.
  - rewrite He. naive_solver.
Qed.

Lemma put_at_wf : lists_wf l'.
Proof.
  split.
  - intros h. pose proof (put_at_elems l p lst pos cold h Hwf Hoff Hpos) as He. case_decide.
    + rewrite He. apply NoDup_cons. split; [apply Hoff|apply Hwf].
    + rewrite He. apply Hwf.
  - intros n h h'. rewrite !put_at_in. intros [[-> ->]|Hn] [[E ->]|Hn'].
    + done.
    + by destruct (Hoff h').
    + subst. by destruct (Hoff h).
    + by eapply (wf_one _ Hwf).
Qed.

Lemma put_at_free o m : elems l' (FreeList o m) = elems l (FreeList o m).
Proof. pose proof (put_at_elems l p lst pos cold (FreeList o m) Hwf Hoff Hpos). by case_decide. Qed.
End PutAt.
(** Adding a page to a per-cpu list. *)
Lemma pcp_add z p mt pos cold :
  buddy_inv z → pcp_ok z → off_list (lists z) p → ¬ is_free z p → page_clean z p →
  0 ≤ private (page_at z p) < MIGRATE_TYPES → 0 ≤ mt < MIGRATE_PCPTYPES →
  (∀ q, pos = Some q → q ∈ elems (lists z) (PcpList mt)) →
  let z' := z <| lists := put_at (lists z) p mt pos cold |> in
  buddy_inv z' ∧ pcp_ok z' ∧ pcp_pages z' ≡ₚ p :: pcp_pages z ∧ ∀ x, is_free z' x ↔ is_free z x.
Proof.
  intros Hi Hok Hoff Hnf Hcl Hpr Hmt Hpos z'. pose proof (bi_lists z Hi) as Hwf.
  assert (∀ h x, x ∈ elems (lists z') h ↔ (x = p ∧ h = PcpList mt) ∨ x ∈ elems (lists z) h) as Hin
    by (intros h x; by apply put_at_in).
  destruct (buddy_inv_lists z (put_at (lists z) p mt pos cold) Hi) as [Hi' Hf'].
  { by apply put_at_wf. }
  { intros o m. by apply put_at_free. }
  { intros x Hx Hox h. change (x ∉ elems (lists z') h). rewrite Hin.
    intros [[-> _]|Hx']; [done|by apply (Hox h)]. }
  assert (pcp_ok z') as Hok'.
  { intros m x Hx. apply Hin in Hx as [[-> [= ->]]|Hx]; [done|]. by apply Hok. }
  split_and!; [done|done| |done]. apply NoDup_Permutation.
  - by apply pcp_pages_nodup.
  - apply NoDup_cons. split; [|by apply pcp_pages_nodup].
    rewrite pcp_pages_in by done. intros [m Hm]. by apply (Hoff (PcpList m)).
  - intros x. rewrite elem_of_cons, !pcp_pages_in by done. subst z'. simpl in Hin |- *.
    setoid_rewrite Hin. naive_solver.
Qed.

(** A page its last user gives back. *)
Record freeable z (p : Z) : Prop := {
  fr_clean : page_clean z p;
  fr_out : ¬ in_zone z p;
  fr_off : off_list (lists z) p;
  fr_mapping : page_mapping (page_at z p) = 0 ∨ Z.testbit (page_mapping (page_at z p)) 0 = true;
  fr_flags : has_flag (page_flags (page_at z p)) PAGE_FLAGS_CHECK_AT_FREE = false;
  fr_cgroup : mem_cgroup_bad_page p = false
}.

(** Updates of a page that leave the fields of [page_clean] alone. *)
Lemma clean_upd z p v :
  page_clean z p → _mapcount v = _mapcount (page_at z p) → _count v = _count (page_at z p) →
  PageHead v = PageHead (page_at z p) → PageTail v = PageTail (page_at z p) →
  page_clean (z <| mem_map ::= <[p := v]> |>) p.
Proof.
  unfold page_clean, PageCompound. rewrite page_at_upd. by intros (? & ? & ? & ?) -> -> -> ->.
Qed.

Lemma check_ok z p :
  page_clean z p → page_mapping (page_at z p) = 0 →
  has_flag (page_flags (page_at z p)) PAGE_FLAGS_CHECK_AT_FREE = false →
  mem_cgroup_bad_page p = false →
  ∃ z', free_pages_check p z = Ok 0 z' ∧ touched z (only p) z' ∧ page_clean z' p ∧ plain z' p.
Proof.
  intros Hcl Hmap Hfl Hcg. pose proof Hcl as (Hm & Hc & _).
  unfold free_pages_check, page_in_use, upd_page. mstep. rewrite Hm, Hmap, Hc, Hfl, Hcg.
  change (-1 + 1 =? 0) with true. simpl.
  pose proof Hcl as (_ & _ & Hcp & _).
  destruct (has_flag _ PAGE_FLAGS_CHECK_AT_PREP) eqn:Ef; [|by exists z; split_and!; [|apply touched_refl|..]].
  eexists. split_and!; [done|by apply touched_upd|by apply clean_upd|].
  unfold plain, PageCompound. rewrite page_at_upd. simpl. split_and!; [done|done| |done].
  unfold has_flag. replace (Z.land _ _) with 0; [done|]. symmetry. apply Z.bits_inj'. intros i Hi.
  rewrite Z.land_spec, Z.ldiff_spec, Z.bits_0. destruct (Z.testbit PAGE_FLAGS_CHECK_AT_PREP i);
    rewrite ?andb_false_r; done.
Qed.

Lemma prepare_ok z p :
  freeable z p →
  ∃ z', (_ ← upd_page p (λ v, v <| mlocked := false |>); free_pages_prepare p 0) z = Ok true z' ∧
        touched z (only p) z' ∧ page_clean z' p ∧ plain z' p.
Proof.
  intros [Hcl _ _ Hmap Hfl Hcg]. unfold free_pages_prepare.
  change (seqZ 0 (Z.shiftl 1 0)) with [0]. unfold upd_page. mstep.
  set (z1 := z <| mem_map ::= <[p := _]> |>).
  assert (page_clean z1 p) as Hcl1 by (by apply clean_upd).
  assert (touched z (only p) z1) as Ht1 by (by apply touched_upd).
  assert (page_at z1 p = (page_at z p) <| mlocked := false |>) as Hp1 by apply page_at_upd.
  match goal with |- context [match ?m z1 with _ => _ end] =>
    assert (∃ z2, m z1 = Ok tt z2 ∧ touched z1 (only p) z2 ∧ page_clean z2 p ∧
      page_mapping (page_at z2 p) = 0 ∧ page_flags (page_at z2 p) = page_flags (page_at z p))
      as (z2 & -> & Ht2 & Hcl2 & Hmap2 & Hfl2) end.
  { rewrite Hp1. simpl. destruct (Z.odd (page_mapping (page_at z p))) eqn:Et.
    - eexists. split_and!; [done|by apply touched_upd|by apply clean_upd|..];
        rewrite page_at_upd; [done|]. simpl. by rewrite Hp1.
    - exists z1. split_and!; [done|apply touched_refl|done|..]; rewrite Hp1; [|done].
      simpl. destruct Hmap as [?|?]; [done|congruence]. }
  unfold mbind, M_bind. rewrite Z.add_0_r. destruct (check_ok z2 p) as (z3 & -> & Ht3 & Hcl3 & Hpl3);
    [done|done|by rewrite Hfl2|done|].
  exists z3. split_and!; [done| |done|done]. by eapply touched_trans; [|eapply touched_trans].
Qed.

(** A list that is full spills a batch. *)
Lemma spill_spec z :
  zone_ok z → 0 < MAX_ORDER → 0 < pcp_count z → pcp_high z ≤ pcp_count z →
  ∃ z', (_ ← free_pcppages_bulk (pcp_batch z);
         modify (λ z, z <| pcp_count := s32 (pcp_count z - pcp_batch z) |>)) z = Ok tt z' ∧
    zone_ok z' ∧ bounds z' = bounds z ∧ ∀ x, in_zone z' x ↔ in_zone z x.
Proof.
  intros [Hi Hok Hn Hl Hs Hb Ht Hpl] Hm Hpos Hh.
  destruct (free_bulk_spec z (pcp_batch z)) as (ps & z1 & E & Hlen & I & O & P & F & S & T & C & N);
    [done|done|done|done|lia|].
  unfold mbind, M_bind. rewrite E. eexists. split; [done|].
  pose proof S as (_ & _ & S1 & S2 & S3 & S4 & S5). pose proof (pcp_length z Hi Hok (proj1 Hs)).
  assert (length (pcp_pages z) = length ps + length (pcp_pages z1))%nat as Hl1
    by (by rewrite P, length_app).
  assert (∀ x, in_zone z1 x ↔ in_zone z x) as Hx
    by (intros x; unfold in_zone; rewrite F, P, elem_of_app; tauto).
  split_and!; [|by apply same_zone_bounds in S|exact Hx].
  split; simpl; [by eapply buddy_inv_congr; [..|exact I]|exact O| |done|lia|lia|by apply S4|].
  - change (pcp_pages _) with (pcp_pages z1). rewrite swrap_small; widths; lia.
  - intros x Hx1. apply (plain_desc z); [apply S5|]. by apply Hpl, Hx.
Qed.

(** Freeing a single page. *)
Lemma hot_cold_spec z p cold :
  zone_ok z → freeable z p → 0 < MAX_ORDER →
  ∃ z', free_hot_cold_page p cold z = Ok tt z' ∧ zone_ok z' ∧ bounds z' = bounds z ∧
        ∀ x, in_zone z' x ↔ in_zone z x ∨ x = p.
Proof.
  intros Hz Hfr Hm. pose proof Hz as [Hi Hok Hn Hl Hs Hb Hty Hplain].
  destruct (prepare_ok z p Hfr) as (z1 & E1 & Ht1 & Hcl1 & Hpl1). destruct Hfr as [_ Hout Hoff _ _ _].
  unfold free_hot_cold_page. unfold mbind, M_bind in *.
  destruct (upd_page p _ z) as [[] z0|f z0]; [|done]. rewrite E1. cbn [negb]. unfold get at 1.
  set (mt := get_pageblock_migratetype z1 p). unfold upd_page. unfold modify at 1.
  set (z2 := z1 <| mem_map ::= _ |>).
  assert (touched z (only p) z2) as Ht2 by (eapply touched_trans; [done|by apply touched_upd]).
  assert (page_clean z2 p) as Hcl2 by (by apply clean_upd).
  assert (plain z2 p) as Hpl2 by (apply (plain_desc z1); [by unfold z2; rewrite page_at_upd|done]).
  assert (∀ x, in_zone z x ∨ x = p → plain z2 x) as Hplain2.
  { intros x [Hx| ->]; [|done]. destruct (decide (x = p)) as [->|Hne]; [done|].
    apply (plain_desc z); [by rewrite (touched_page z (only p) z2)|by apply Hplain]. }
  assert (¬ is_free z p) as Hnf by (intros ?; apply Hout; by left).
  assert (buddy_inv z2) as Hi2.
  { apply (touched_inv z (only p) z2); [done|done|]. intros x ->. destruct Hcl2 as (-> & _). done. }
  assert (pcp_ok z2) as Hok2 by (eapply touched_pcp_ok; [done|by intros x ->|done]).
  assert (0 ≤ mt < MIGRATE_TYPES) as Hmt.
  { destruct Ht1 as (m & E & _). subst mt. rewrite E. apply (Hty p). }
  assert (private (page_at z2 p) = mt) as Hpr by (subst z2; by rewrite page_at_upd).
  destruct Ht2 as (m & E2 & Hm2). clearbody z2 mt. subst z2. clear E1 Ht1 Hcl1 Hpl1 z1 z0.
  set (z2 := z <| mem_map := m |>) in *.
  destruct ((MIGRATE_PCPTYPES <=? mt) && _) eqn:Eiso.
  - destruct (free_one_page_spec buddy_value z2 p 0 mt) as (z3 & E3 & Hi3 & Hl3 & _ & Hf3 & Hk3);
      [done|done|by apply clean_block_ok|apply Hcl2|done|].
    exists z3. split; [done|]. pose proof (kept_pcp_pages z2 z3 Hk3) as Hpp.
    pose proof (kept_pcp_ok z2 z3 Hk3 Hok2).
    pose proof (same_zone_bounds z2 z3 (kept_same z2 z3 Hk3)). destruct Hk3 as (_ & _ & K1 & K2 & K3 & K4 & _ & _ & K5 & K6).
    assert (∀ x, in_zone z3 x ↔ in_zone z x ∨ x = p) as Hz3.
    { intros x. unfold in_zone. rewrite Hf3, Hpp, covers_0.
      change (is_free z2 x) with (is_free z x). change (pcp_pages z2) with (pcp_pages z). tauto. }
    split; [|done]. split; [done|done| |done|by rewrite K1|by rewrite K3, K4|by apply K5|].
    + by rewrite K2, Hpp.
    + intros x Hx. apply (plain_desc z2); [apply K6|]. by apply Hplain2, Hz3.
  - set (lt := if MIGRATE_PCPTYPES <=? mt then MIGRATE_MOVABLE else mt).
    assert (0 ≤ lt < MIGRATE_PCPTYPES) as Hlt.
    { subst lt. unfold MIGRATE_PCPTYPES, MIGRATE_MOVABLE. destruct (Z.leb_spec 3 mt); lia. }
    destruct (pcp_add z2 p lt None cold) as (Hi3 & Hok3 & Hp3 & Hf3); [done..|by rewrite Hpr|done|done|].
    set (z3 := z2 <| lists := put_at (lists z2) p lt None cold |>) in *. unfold modify at 1.
    replace (z2 <| lists ::= _ |>) with z3 by (unfold z3; by destruct cold). unfold modify at 1, get at 1.
    set (z4 := z3 <| pcp_count := _ |>).
    assert (length (pcp_pages z3) = S (length (pcp_pages z)))%nat as Hl3 by (by rewrite Hp3).
    pose proof (pcp_length z3 Hi3 Hok3 (proj1 Hs)) as Hlen. change (spanned_pages z3) with (spanned_pages z) in Hlen.
    assert (∀ x, in_zone z4 x ↔ in_zone z x ∨ x = p) as Hz4x.
    { intros x. unfold in_zone. change (pcp_pages z4) with (pcp_pages z3).
      change (is_free z4 x) with (is_free z3 x). rewrite Hf3, Hp3, elem_of_cons.
      change (is_free z2 x) with (is_free z x). change (pcp_pages z2) with (pcp_pages z). tauto. }
    assert (zone_ok z4) as Hz4.
    { split; [by eapply buddy_inv_congr; [..|exact Hi3]|done| |done|done|done|done|].
      - change (pcp_pages z4) with (pcp_pages z3).
        change (pcp_count z4) with (s32 (pcp_count z + 1)). rewrite swrap_small; widths; lia.
      - intros x Hx. by apply Hplain2, Hz4x. }
    destruct (Z.leb_spec (pcp_high z4) (pcp_count z4)) as [Hge|_]; [|by exists z4].
    assert (0 < pcp_count z4) as Hpos by (rewrite (zo_count z4 Hz4); change (pcp_pages z4) with (pcp_pages z3); lia).
    destruct (spill_spec z4 Hz4 Hm Hpos Hge) as (z5 & E5 & Hz5 & Hb5 & Hx5). unfold mbind, M_bind in E5.
    exists z5. split_and!; [exact E5|done|by rewrite Hb5|]. intros x. by rewrite Hx5.
Qed.


(** ** Refilling a per-cpu list *)

(** The pages [ps] went from the free memory to the per-cpu list [lst]. *)
Record refilled z (ps : list Z) (lst : Z) z' : Prop := {
  rf_inv : buddy_inv z';
  rf_ok : pcp_ok z';
  rf_pages : pcp_pages z' ≡ₚ ps ++ pcp_pages z;
  rf_free x : is_free z x ↔ is_free z' x ∨ x ∈ ps;
  rf_list x : x ∈ ps ∨ x ∈ elems (lists z) (PcpList lst) → x ∈ elems (lists z') (PcpList lst);
  rf_same : same_zone z z';
  rf_state : zone_lock z' = zone_lock z ∧ NR_FREE_PAGES z' = NR_FREE_PAGES z ∧
             pcp_count z' = pcp_count z
}.

Lemma refilled_refl z lst : buddy_inv z → pcp_ok z → refilled z [] lst z.
Proof. intros. split; try done; intros x; set_solver. Qed.

Lemma refilled_trans z1 z2 z3 ps qs lst :
  refilled z1 ps lst z2 → refilled z2 qs lst z3 → refilled z1 (ps ++ qs) lst z3.
Proof.
  intros [_ _ P1 F1 L1 S1 (? & ? & ?)] [I2 O2 P2 F2 L2 S2 (? & ? & ?)]. split; [done|done|..].
  - by rewrite P2, P1, app_assoc, (Permutation_app_comm qs ps).
  - intros x. rewrite F1, F2, elem_of_app. tauto.
  - intros x. rewrite elem_of_app. intros [[?|?]|?]; apply L2; auto.
  - by eapply same_zone_trans.
  - split_and!; congruence.
Qed.

(** One page of the loop, whatever the counters say. *)
Lemma bulk_step z p z1 lst pos cold m c :
  allocated z 0 (Some p) z1 → pcp_ok z → 0 ≤ lst < MIGRATE_PCPTYPES → 0 ≤ m < MIGRATE_TYPES →
  (∀ x, is_free z x → PageCompound z x = false) →
  (∀ q, pos = Some q → q ∈ elems (lists z) (PcpList lst)) →
  refilled z [p] lst (z1 <| lists := put_at (lists z1) p lst pos cold |>
     <| mem_map ::= <[p := (page_at z1 p) <| private := m |>]> |> <| NR_FREE_CMA_PAGES := c |>).
Proof.
  intros (Hi1 & Hk & Hblk & Hf) Hok Hlst Hm Hpl Hpos. destruct Hk as (K1 & K2 & _ & Hk).
  pose proof (kept_pcp_ok z z1 Hk Hok) as Hok1. pose proof (kept_pcp_pages z z1 Hk) as Hpp.
  pose proof Hk as (_ & _ & _ & K3 & _ & _ & Hel & _ & _ & Hd).
  destruct Hblk as (_ & _ & Hx). destruct (Hx p) as ((Hmc & Hct & Hoff) & Hnf & Hb); [by apply covers_0|].
  set (z2 := z1 <| mem_map ::= <[p := (page_at z1 p) <| private := m |>]> |>).
  assert (touched z1 (only p) z2) as Ht by (by apply touched_upd).
  assert (page_at z2 p = (page_at z1 p) <| private := m |>) as Hp2 by apply page_at_upd.
  assert (PageCompound z1 p = false) as Hcp.
  { pose proof (Hpl p) as Hz. rewrite Hf, covers_0 in Hz. specialize (Hz (or_intror eq_refl)).
    by rewrite (compound_desc z z1). }
  assert (page_clean z2 p) as Hcl2.
  { apply clean_upd; [|done..]. by split_and!. }
  destruct (pcp_add z2 p lst pos cold) as (I & O & P & F).
  - apply (touched_inv z1 (only p) z2); [done..|]. intros x ->. rewrite Hp2. simpl. by rewrite Hmc.
  - by apply (touched_pcp_ok z1 (only p) z2); [|intros x ->|].
  - done.
  - done.
  - done.
  - by rewrite Hp2.
  - done.
  - intros q Hq. simpl. rewrite Hel. by apply Hpos.
  - assert (same_zone z z2) as Hs2.
    { eapply same_zone_trans; [by apply kept_same|]. split_and!; [done..|].
      intros x. destruct (decide (x = p)) as [->|]; [by rewrite Hp2|].
      by rewrite (touched_page z1 (only p) z2). }
    split; [by eapply buddy_inv_congr; [..|exact I]|exact O| | | |exact Hs2|done].
    + simpl. rewrite <- Hpp. exact P.
    + intros x. rewrite Hf, covers_0, list_elem_of_singleton.
      change (is_free z2 x ∨ x = p ↔ is_free (z2 <| lists := put_at (lists z2) p lst pos cold |>) x ∨ x = p).
      by rewrite F.
    + intros x. simpl. rewrite put_at_in by (done || apply Hi1 || (intros q Hq; rewrite Hel; by apply Hpos)).
      rewrite Hel, list_elem_of_singleton. naive_solver.
Qed.

(** The loop of [rmqueue_bulk] on single pages. *)
Lemma bulk_loop_spec n z mt cold cma lst pos i :
  buddy_inv z → pcp_ok z → zone_contiguous z → 0 ≤ pageblock_order → 0 < MAX_ORDER →
  0 ≤ mt < MIGRATE_TYPES → 0 ≤ lst < MIGRATE_PCPTYPES → types_ok z →
  (∀ x, is_free z x → PageCompound z x = false) →
  (∀ q, pos = Some q → q ∈ elems (lists z) (PcpList lst)) →
  ∃ ps z', bulk_loop n 0 mt cold cma lst pos i z = Ok (i + Z.of_nat (length ps)) z' ∧
    refilled z ps lst z' ∧ (length ps ≤ n)%nat ∧
    (ps = [] → z' = z ∧ (n = O ∨ all_exhausted z 0 mt)).
Proof.
  intros Hi Hok Hct Hpb Hm Hmt Hlst. revert z pos i Hi Hok Hct.
  induction n as [|n IH]; intros z pos i Hi Hok Hct Hty Hpl Hpos.
  { exists [], z. rewrite Z.add_0_r. split_and!; [done|by apply refilled_refl|done|auto]. }
  simpl. unfold mbind, M_bind.
  assert (∃ r z1, (if cma then __rmqueue_cma 0 mt else __rmqueue 0 mt) z = Ok r z1 ∧
    allocated z 0 r z1 ∧ (r = None → all_exhausted z 0 mt)) as (r & z1 & -> & Ha & Hex).
  { destruct cma; [apply rmqueue_cma_spec|apply rmqueue_spec]; (done || lia). }
  destruct r as [p|].
  2: { exists [], z1. rewrite Z.add_0_r. assert (z1 = z) as -> by (by destruct Ha as (_ & _ & ->)).
       split_and!; [done|by apply refilled_refl|simpl; lia|]. intros _. split; [done|]. right. by apply Hex. }
  assert (types_ok z1) as Hty1 by (destruct Ha as (_ & (_ & _ & _ & Hk) & _); by apply Hk).
  unfold modify at 1, get at 1, upd_page. set (b := get_pageblock_migratetype _ p).
  set (m := if CONFIG_CMA && _ then b else mt).
  assert (0 ≤ m < MIGRATE_TYPES) as Hmr by (subst m; destruct (_ && _); [apply (Hty1 p)|done]).
  unfold modify at 1.
  match goal with |- context [match ?f ?s with _ => _ end] =>
    assert (∃ c, f s = Ok tt (z1 <| lists := put_at (lists z1) p lst pos cold |>
      <| mem_map ::= <[p := (page_at z1 p) <| private := m |>]> |> <| NR_FREE_CMA_PAGES := c |>))
      as [c ->] end.
  { destruct (is_migrate_cma m); [exists (s32 (NR_FREE_CMA_PAGES z1 + - Z.shiftl 1 0))
      |exists (NR_FREE_CMA_PAGES z1)]; destruct z1, pos, cold; reflexivity. }
  pose proof (bulk_step z p z1 lst pos cold m c Ha Hok Hlst Hmr Hpl Hpos) as Hr.
  match goal with Hr : refilled _ _ _ ?s |- _ => set (z2 := s) in * end. clearbody z2.
  pose proof Hr as [I2 O2 P2 F2 L2 S2 T2].
  destruct (IH z2 (Some p) (i + 1)) as (ps & z3 & E3 & Hr3 & Hlen & Hnil); [done|done|..].
  - destruct S2 as (Z1 & Z2 & Z3 & _). unfold zone_contiguous in *. by rewrite Z1, Z2, Z3.
  - by apply S2.
  - intros x Hx. rewrite (compound_desc z z2) by apply S2. apply Hpl, F2. by left.
  - intros q [= <-]. apply L2. set_solver.
  - exists (p :: ps), z3. rewrite E3. split_and!; [f_equal; simpl; lia|by apply (refilled_trans z z2 z3 [p])|simpl; lia|done].
Qed.

(** ** Allocating *)

Definition same_memory z z' : Prop := ∀ x, in_zone z' x ↔ in_zone z x.

Section Alloc.
Context (order_ok : 0 < MAX_ORDER) (block_ok_order : 0 ≤ pageblock_order).

Lemma refill_spec z mt cold cma :
  zone_ok z → zone_contiguous z → 0 ≤ mt < MIGRATE_PCPTYPES →
  ∃ z', (n ← rmqueue_bulk 0 (pcp_batch z) mt mt cold cma;
         modify (λ z, z <| pcp_count := s32 (pcp_count z + n) |>)) z = Ok tt z' ∧
    zone_ok z' ∧ bounds z' = bounds z ∧ same_memory z z' ∧
    (elems (lists z') (PcpList mt) = [] → all_exhausted z 0 mt).
Proof.
  intros [Hi Hok Hn Hl Hs Hb Ht Hpl] Hct Hmt.
  unfold rmqueue_bulk, zone_spin_lock, zone_spin_unlock, mod_free_pages, mbind, M_bind, gets, modify, mret, M_ret.
  rewrite Hl. set (z1 := z <| zone_lock := true |>).
  assert (buddy_inv z1) as Hi1 by (by eapply buddy_inv_congr; [..|exact Hi]).
  assert (0 ≤ mt < MIGRATE_TYPES) as Hmt'.
  { unfold MIGRATE_TYPES, MIGRATE_ISOLATE, MIGRATE_PCPTYPES in *. destruct CONFIG_CMA; lia. }
  destruct (bulk_loop_spec (Z.to_nat (pcp_batch z)) z1 mt cold cma mt None 0)
    as (ps & z2 & E & [I O P F Ls S (T1 & T2 & T3)] & Hlen & Hnil); [done..| |done|].
  { intros x Hx. by apply (Hpl x); left. }
  rewrite E. simpl. eexists. split; [done|]. pose proof S as (_ & _ & S1 & S2 & S3 & S4 & S5).
  assert (∀ x, in_zone z2 x ↔ in_zone z x) as Hx.
  { intros x. unfold in_zone. rewrite P, elem_of_app.
    change (is_free z x) with (is_free z1 x). rewrite (F x). tauto. }
  pose proof (pcp_length z2 I O) as Hlen2. change (spanned_pages z1) with (spanned_pages z) in S1.
  rewrite S1 in Hlen2. specialize (Hlen2 (proj1 Hs)).
  assert (length (pcp_pages z2) = length ps + length (pcp_pages z))%nat as Hl2 by (by rewrite P, length_app).
  split_and!; [|by apply same_zone_bounds in S|exact Hx|].
  - split; [by eapply buddy_inv_congr; [..|exact I]|exact O| |done|by rewrite <- S1 in Hs|..].
    + change (pcp_pages _) with (pcp_pages z2). simpl.
      change (pcp_count z1) with (pcp_count z) in T3. rewrite swrap_small; widths; lia.
    + simpl. change (pcp_batch z1) with (pcp_batch z) in S3. change (pcp_high z1) with (pcp_high z) in S2. lia.
    + by apply S4.
    + intros x Hx2. apply (plain_desc z); [apply S5|]. by apply Hpl, Hx.
  - simpl. intros He. destruct ps as [|p ps]; [|].
    + destruct (Hnil eq_refl) as [_ [Hz|Hex]]; [lia|done].
    + pose proof (Ls p ltac:(left; left)) as Hp. rewrite He in Hp. by apply elem_of_nil in Hp.
Qed.

(** A page taken out of the zone: clean, on no list, with nothing left over. *)
Definition taken z z' (P : Z → Prop) : Prop :=
  (∀ x, in_zone z x ↔ in_zone z' x ∨ P x) ∧
  (∀ x, P x → page_clean z' x ∧ off_list (lists z') x ∧ ¬ in_zone z' x ∧ plain z' x).

Lemma pcp_take_spec z gfp mt :
  zone_ok z → zone_contiguous z → 0 ≤ mt < MIGRATE_PCPTYPES →
  ∃ r z', pcp_take gfp mt z = Ok r z' ∧ zone_ok z' ∧ bounds z' = bounds z ∧
    match r with
    | Some p => taken z z' (only p)
    | None => same_memory z z' ∧ elems (lists z) (PcpList mt) = [] ∧ all_exhausted z 0 mt
    end.
Proof.
  intros Hz Hct Hmt. unfold pcp_take. unfold mbind at 1, M_bind at 1, get at 1.
  set (cold := has_flag gfp GFP_COLD).
  match goal with |- context [(_ ← ?m; _) z] =>
    assert (∃ z1, m z = Ok tt z1 ∧ zone_ok z1 ∧ bounds z1 = bounds z ∧ same_memory z z1 ∧
      (elems (lists z1) (PcpList mt) = [] → elems (lists z) (PcpList mt) = [] ∧ all_exhausted z 0 mt))
      as (z1 & E1 & Hz1 & Hb1 & Hx1 & He1) end.
  { case_decide as Hl; [|by exists z].
    destruct (refill_spec z mt cold (has_flag gfp GFP_CMA) Hz Hct Hmt) as (z1 & ? & ? & ? & ? & ?).
    exists z1. split_and!; auto. }
  unfold mbind, M_bind in E1 |- *. rewrite E1. unfold get.
  destruct (if cold then _ else _) as [p|] eqn:Ep.
  2: { assert (elems (lists z1) (PcpList mt) = []) as [? ?]%He1; [|by exists None, z1].
       destruct cold; [by apply last_None|by destruct (elems (lists z1) (PcpList mt))]. }
  assert (p ∈ elems (lists z1) (PcpList mt)) as Hp.
  { destruct cold; [by apply last_Some_elem_of|by apply head_Some_elem_of]. }
  unfold modify, mret, M_ret. change (z1 <| lists ::= list_del p |>) with (drop z1 p).
  pose proof Hz1 as [Hi Hok Hn Hl Hs Hb Ht Hpl].
  destruct (drop_inv z1 p mt Hi Hp) as [Hi2 Hf2]. pose proof (drop_pages z1 p mt Hi Hp Hok) as Hpp.
  pose proof (pcp_length z1 Hi Hok (proj1 Hs)) as Hlen.
  assert (length (pcp_pages z1) = S (length (pcp_pages (drop z1 p)))) as Hlen' by (by rewrite Hpp).
  eexists (Some p), _. split; [done|]. set (z2 := (drop z1 p) <| pcp_count := _ |>).
  assert (∀ x, in_zone z1 x ↔ in_zone z2 x ∨ x = p) as Hx2.
  { intros x. unfold in_zone. rewrite Hpp, elem_of_cons.
    change (is_free z2 x) with (is_free (drop z1 p) x). rewrite Hf2.
    change (pcp_pages z2) with (pcp_pages (drop z1 p)). tauto. }
  split; [|split; [done|split]].
  - split; [by eapply buddy_inv_congr; [..|exact Hi2]|by apply (drop_ok z1 p mt)| |done..|].
    + change (pcp_pages z2) with (pcp_pages (drop z1 p)). simpl. rewrite swrap_small; widths; lia.
    + intros x Hx. apply (Hpl x), Hx2. by left.
  - intros x. by rewrite <- (Hx1 x).
  - intros x ->. destruct (Hok mt p Hp) as (_ & Hcl & _). split_and!; [done| | |].
    + intros h Hh. by apply (drop_in z1 p mt Hi Hp) in Hh as [_ ?].
    + intros [Hfr|Hpcp].
      * apply (pcp_not_free z1 p mt Hi Hp). by apply Hf2.
      * change (pcp_pages z2) with (pcp_pages (drop z1 p)) in Hpcp.
        pose proof (pcp_pages_nodup z1 Hi) as Hnd. rewrite Hpp in Hnd.
        by apply NoDup_cons in Hnd as [? _].
    + apply (Hpl p). right. rewrite Hpp. left.
Qed.

Lemma off_not_pcp z x : pcp_ok z → off_list (lists z) x → x ∉ pcp_pages z.
Proof. intros Hok Hoff. rewrite pcp_pages_in by done. intros [mt Hm]. by apply (Hoff (PcpList mt)). Qed.

Lemma block_take_spec z order gfp mt :
  zone_ok z → zone_contiguous z → 0 ≤ order < MAX_ORDER → 0 ≤ mt < MIGRATE_TYPES →
  ∃ r z', block_take order gfp mt z = Ok r z' ∧ zone_ok z' ∧ bounds z' = bounds z ∧
    match r with
    | Some p => (2 ^ order | p) ∧ taken z z' (covers p order)
    | None => same_memory z z' ∧ all_exhausted z order mt
    end.
Proof.
  intros Hz Hct Hord Hmt. pose proof Hz as [Hi Hok Hn Hl Hs Hb Ht Hpl].
  unfold block_take, zone_spin_lock, zone_spin_unlock, mbind, M_bind, gets, modify. rewrite Hl.
  set (z1 := z <| zone_lock := true |>).
  assert (buddy_inv z1) as Hi1 by (by eapply buddy_inv_congr; [..|exact Hi]).
  assert (∃ r z2, (if has_flag gfp GFP_CMA then __rmqueue_cma order mt else __rmqueue order mt) z1
      = Ok r z2 ∧ allocated z1 order r z2 ∧ (r = None → all_exhausted z1 order mt))
    as (r & z2 & -> & (Hi2 & (_ & _ & _ & Hk) & Hr) & Hex).
  { destruct (has_flag gfp GFP_CMA); [by apply rmqueue_cma_spec|by apply rmqueue_spec]. }
  destruct r as [p|].
  2: { subst z2. exists None, z. split; [subst z1; clear -Hl; destruct z; simpl in *; by subst|].
       split_and!; [done|done|done|]. by apply Hex. }
  destruct Hr as [(_ & Hal & Hblk) Hf]. pose proof (kept_pcp_pages z1 z2 Hk) as Hpp.
  pose proof (kept_pcp_ok z1 z2 Hk Hok) as Hok2.
  pose proof (same_zone_bounds z1 z2 (kept_same z1 z2 Hk)) as Hbd.
  pose proof Hk as (_ & _ & S1 & S2 & S3 & S4 & _ & _ & S5 & S6).
  assert (∀ x, in_zone z x ↔ in_zone z2 x ∨ covers p order x) as Hx.
  { intros x. unfold in_zone. rewrite Hpp. change (is_free z x) with (is_free z1 x).
    change (pcp_pages z) with (pcp_pages z1). rewrite Hf. tauto. }
  assert (∀ nf nc, zone_ok (z2 <| zone_lock := false |> <| NR_FREE_PAGES := nf |> <| NR_FREE_CMA_PAGES := nc |>) ∧
    taken z (z2 <| zone_lock := false |> <| NR_FREE_PAGES := nf |> <| NR_FREE_CMA_PAGES := nc |>) (covers p order))
    as Hres.
  { intros nf nc. split; [split|split].
    - by eapply buddy_inv_congr; [..|exact Hi2].
    - exact Hok2.
    - change (pcp_pages _) with (pcp_pages z2). simpl. by rewrite Hpp, S2.
    - done.
    - simpl. by rewrite S1.
    - simpl. change (pcp_batch z1) with (pcp_batch z) in S4. change (pcp_high z1) with (pcp_high z) in S3. lia.
    - by apply S5.
    - intros x Hx2. apply (plain_desc z); [apply S6|]. apply Hpl, Hx. by left.
    - exact Hx.
    - intros x Hc. destruct (Hblk x Hc) as ((Hm & Hct2 & Hoff) & Hnf & Hbr).
      assert (plain z2 x) as Hpl2.
      { apply (plain_desc z); [apply S6|]. apply Hpl, Hx. by right. }
      split_and!; [|done| |done].
      + destruct Hpl2 as (Hcp & _). by split_and!.
      + intros [?|Hp]; [done|]. by apply (off_not_pcp z2 x). }
  exists (Some p). unfold get, __mod_zone_freepage_state, mod_free_pages, mod_free_cma_pages, mbind, M_bind, modify, mret, M_ret.
  destruct (is_migrate_cma _); eexists; (split; [reflexivity|]).
  - destruct (Hres (s32 (NR_FREE_PAGES z2 + - Z.shiftl 1 order)) (s32 (NR_FREE_CMA_PAGES z2 + - Z.shiftl 1 order)))
      as [? ?]. by split_and!.
  - destruct (Hres (s32 (NR_FREE_PAGES z2 + - Z.shiftl 1 order)) (NR_FREE_CMA_PAGES z2)) as [? ?].
    destruct z2. by split_and!.
Qed.

(** ** Preparing the block for its user *)

Lemma touched_zone_ok z (P : Z → Prop) `{∀ x, Decision (P x)} z' :
  zone_ok z → touched z P z' →
  (∀ x, P x → off_list (lists z) x ∧ ¬ in_zone z x ∧ _mapcount (page_at z' x) = -1) →
  zone_ok z' ∧ bounds z' = bounds z ∧ same_memory z z'.
Proof.
  intros [Hi Hok Hn Hl Hs Hb Hty Hpl] Ht HP.
  assert (buddy_inv z') as Hi'.
  { apply (touched_inv z P z'); [done|done|]. intros x (_ & Hx & ->)%HP. split; [|done].
    intros Hf. apply Hx. by left. }
  assert (pcp_ok z') as Hok' by (apply (touched_pcp_ok z P z'); [done|by intros x (? & _)%HP|done]).
  pose proof (λ x, touched_page z P z' x Ht) as Hpage. destruct Ht as (m & -> & _).
  split; [|done]. split; [done..|]. intros x Hx. apply (plain_desc z); [|by apply Hpl].
  by rewrite Hpage by (intros (_ & Hnx & _)%HP; done).
Qed.

Lemma check_new_ok z p is_ :
  (∀ i, i ∈ is_ → page_clean z (p + i) ∧ plain z (p + i)) → check_new_pages is_ p z = Ok 0 z.
Proof.
  induction is_ as [|i is_ IH]; intros Hp; [done|]. simpl. unfold check_new_page, page_in_use. mstep.
  destruct (Hp i ltac:(left)) as [(-> & -> & _) (_ & -> & -> & ->)]. change (-1 + 1 =? 0) with true. simpl.
  apply IH. intros j Hj. apply Hp. by right.
Qed.

(** Updates of pages in [P] that leave the map counts alone. *)
Definition marked z (P : Z → Prop) z' : Prop :=
  touched z P z' ∧ ∀ x, _mapcount (page_at z' x) = _mapcount (page_at z x).

Lemma marked_trans z1 z2 z3 P : marked z1 P z2 → marked z2 P z3 → marked z1 P z3.
Proof.
  intros [T1 M1] [T2 M2]. split; [by eapply touched_trans|]. intros x. by rewrite M2.
Qed.

Lemma marked_upd z p v (P : Z → Prop) :
  P p → _mapcount v = _mapcount (page_at z p) → marked z P (z <| mem_map ::= <[p := v]> |>).
Proof.
  intros Hp Hv. split; [by apply touched_upd|]. intros x. destruct (decide (x = p)) as [->|Hx].
  - by rewrite page_at_upd.
  - unfold page_at at 1. simpl. by rewrite lookup_insert_ne.
Qed.

Lemma for_each_upd z p (P : Z → Prop) is_ f :
  (∀ i, i ∈ is_ → P (p + i)) → (∀ v, _mapcount (f v) = _mapcount v) →
  ∃ z', for_each is_ (λ i, upd_page (p + i) f) z = Ok tt z' ∧ marked z P z' ∧
        ∀ x, (∀ i, i ∈ is_ → x ≠ p + i) → page_at z' x = page_at z x.
Proof.
  revert z. induction is_ as [|i is_ IH]; intros z HP Hf; simpl.
  { exists z. split_and!; [done|split; [apply touched_refl|done]|done]. }
  unfold mbind, M_bind. unfold upd_page at 1, modify at 1. set (z1 := z <| mem_map ::= _ |>).
  destruct (IH z1) as (z' & E & Hm & Hx); [intros j Hj; apply HP; by right|done|].
  exists z'. split_and!; [done| |].
  - eapply marked_trans; [|done]. apply marked_upd; [apply HP; left|]. by rewrite Hf.
  - intros x Hi. rewrite Hx by (intros j Hj; apply Hi; by right).
    unfold page_at, z1. simpl. rewrite lookup_insert_ne; [done|]. intros E2. by apply (Hi i ltac:(left)).
Qed.

Lemma refcounted_ok z p :
  PageTail (page_at z p) = false → _count (page_at z p) = 0 →
  set_page_refcounted p z = Ok tt (z <| mem_map ::= <[p := (page_at z p) <| _count := 1 |>]> |>).
Proof.
  intros Ht Hc. unfold set_page_refcounted, VM_BUG_ON, upd_page. mstep. by rewrite Ht, Hc.
Qed.

Lemma prep_compound_ok z p order :
  0 ≤ order →
  ∃ z', prep_compound_page p order z = Ok tt z' ∧ marked z (covers p order) z' ∧
        _count (page_at z' p) = _count (page_at z p).
Proof.
  intros Ho. assert (covers p order p) as Hself by (by apply covers_self).
  unfold prep_compound_page, mbind, M_bind. rewrite shift_one by done.
  unfold upd_page at 1, modify at 1. set (z1 := z <| mem_map ::= _ |>).
  unfold upd_page at 1, modify at 1. set (z2 := z1 <| mem_map ::= _ |>).
  destruct (for_each_upd z2 p (covers p order) (seqZ 1 (2 ^ order - 1))
    (λ v, v <| PageTail := true |> <| _count := 0 |> <| first_page := p |>)) as (z3 & E & Hm & Hx);
    [by intros i Hi%elem_of_seqZ; unfold covers; lia|done|].
  rewrite E. exists z3. split_and!; [done| |].
  - eapply marked_trans; [|exact Hm]. eapply (marked_trans z z1); by apply marked_upd.
  - rewrite Hx by (intros i Hi%elem_of_seqZ; lia).
    unfold z2. rewrite page_at_upd. simpl. unfold z1. by rewrite page_at_upd.
Qed.

Lemma prep_new_ok z p order gfp :
  0 ≤ order → (∀ x, covers p order x → page_clean z x ∧ plain z x) →
  ∃ z', prep_new_page p order gfp z = Ok 0 z' ∧ marked z (covers p order) z' ∧
        _count (page_at z' p) = 1 ∧ (order = 0 → plain z' p).
Proof.
  intros Ho Hp. assert (covers p order p) as Hself by (by apply covers_self).
  unfold prep_new_page. rewrite shift_one by done. unfold mbind, M_bind. rewrite check_new_ok.
  2: { intros i Hi%elem_of_seqZ. apply Hp. unfold covers. lia. }
  change (negb (0 =? 0)) with false. cbv beta iota.
  unfold upd_page at 1, modify at 1. set (z1 := z <| mem_map ::= _ |>).
  assert (page_at z1 p = (page_at z p) <| private := 0 |>) as Hp1 by apply page_at_upd.
  destruct (Hp p Hself) as [(_ & Hct & [_ Htail]%orb_false_iff & _) _].
  rewrite refcounted_ok by (by rewrite Hp1). set (z2 := z1 <| mem_map ::= _ |>).
  assert (_count (page_at z2 p) = 1) as Hc2 by (unfold z2; by rewrite page_at_upd).
  assert (marked z (covers p order) z2) as Hm2
    by (eapply (marked_trans z z1); by apply marked_upd).
  destruct (negb (order =? 0) && has_flag gfp GFP_COMP_flag) eqn:Ecomp.
  2: { exists z2. split_and!; [done|done|done|]. intros _.
       destruct (Hp p Hself) as [_ Hpl]. unfold plain, PageCompound in *. unfold z2.
       rewrite page_at_upd, Hp1. exact Hpl. }
  destruct (prep_compound_ok z2 p order Ho) as (z3 & E & Hm3 & Hc3). rewrite E.
  exists z3. split_and!; [done|by eapply marked_trans|by rewrite Hc3|].
  intros ->. done.
Qed.

(** A single page as its new user gets it. *)
Definition page_ready z (p : Z) : Prop :=
  _mapcount (page_at z p) = -1 ∧ off_list (lists z) p ∧ plain z p ∧ bad_range z p = false.

(** Allocation from a zone, for every order. *)
Lemma buffered_spec z order gfp mt :
  zone_ok z → zone_contiguous z → 0 ≤ order < MAX_ORDER → 0 ≤ mt < MIGRATE_PCPTYPES →
  ∃ r z', buffered_rmqueue order gfp mt z = Ok r z' ∧ zone_ok z' ∧ bounds z' = bounds z ∧
    match r with
    | Some p => (2 ^ order | p) ∧ _count (page_at z' p) = 1 ∧
                (∀ x, in_zone z x ↔ in_zone z' x ∨ covers p order x) ∧
                (∀ x, covers p order x → ¬ in_zone z' x ∧ bad_range z' x = false) ∧
                (order = 0 → page_ready z' p)
    | None => same_memory z z' ∧ all_exhausted z order mt ∧
              (order = 0 → elems (lists z) (PcpList mt) = [])
    end.
Proof.
  intros Hz Hct Hord Hmt. unfold buffered_rmqueue. unfold mbind at 1, M_bind at 1, get at 1.
  cbn [buffered_rmqueue_loop]. unfold mbind, M_bind, get.
  assert (0 ≤ mt < MIGRATE_TYPES) as Hmt'.
  { unfold MIGRATE_TYPES, MIGRATE_ISOLATE, MIGRATE_PCPTYPES in *. destruct CONFIG_CMA; lia. }
  assert (∃ r z1, (if order =? 0 then pcp_take gfp mt else block_take order gfp mt) z = Ok r z1 ∧
    zone_ok z1 ∧ bounds z1 = bounds z ∧ match r with
    | Some p => (2 ^ order | p) ∧ taken z z1 (covers p order)
    | None => same_memory z z1 ∧ all_exhausted z order mt ∧ (order = 0 → elems (lists z) (PcpList mt) = [])
    end) as (r & z1 & -> & Hz1 & Hb1 & Hr).
  { destruct (Z.eqb_spec order 0) as [->|Hne].
    - destruct (pcp_take_spec z gfp mt Hz Hct Hmt) as (r & z1 & E & Hz1 & Hb1 & Hr). exists r, z1.
      split_and!; [done|done|done|]. destruct r as [p|]; [|naive_solver].
      destruct Hr as [Hx Hp]. split; [exists p; lia|]. split.
      + intros x. by rewrite covers_0.
      + intros x ->%covers_0. by apply Hp.
    - destruct (block_take_spec z order gfp mt Hz Hct Hord Hmt') as (r & z1 & E & Hz1 & Hb1 & Hr).
      exists r, z1. split_and!; [done|done|done|]. destruct r as [p|]; [done|]. naive_solver. }
  destruct r as [p|]; [|by exists None, z1]. destruct Hr as (Hal & Hx & Hp).
  assert (covers p order p) as Hself by (apply covers_self; lia).
  destruct (Hp p Hself) as ((_ & _ & _ & Hb) & _). unfold VM_BUG_ON. rewrite Hb.
  destruct (prep_new_ok z1 p order gfp) as (z2 & E2 & [Ht2 Hm2] & Hc2 & Hpl2); [lia| |].
  { intros x Hc. by destruct (Hp x Hc) as (? & _ & _ & ?). }
  unfold mret, M_ret. rewrite E2. simpl. exists (Some p), z2. split; [done|].
  destruct (touched_zone_ok z1 (covers p order) z2) as (Hz2 & Hb2 & Hs2); [done|done| |].
  { intros x Hc. rewrite Hm2. destruct (Hp x Hc) as ((? & _) & ? & ? & _). by split_and!. }
  assert (∀ x, bad_range z2 x = bad_range z1 x) as Hbr by (by destruct Ht2 as (m & -> & _)).
  split_and!; [done|congruence|done|done| | |].
  - intros x. by rewrite Hx, (Hs2 x).
  - intros x Hc. rewrite (Hs2 x), Hbr. by destruct (Hp x Hc) as ((_ & _ & _ & ?) & _ & ? & _).
  - intros Ho0. destruct (Hp p Hself) as ((Hmc & _) & Hoff & _).
    split_and!; [by rewrite Hm2| |by apply Hpl2|by rewrite Hbr].
    by destruct Ht2 as (m & -> & _).
Qed.
End Alloc.

(** ** The claims *)

(** Spilling a per-cpu list: [free_pcppages_bulk] called with at most as
    many pages as the lists hold returns, takes exactly that many pages off the
    lists, round robin, and adds exactly those to the free memory.  The
    invariants of the free blocks and of the lists hold again, the zone lock is
    released, and [NR_FREE_PAGES] grows by the number of pages. *)
Theorem free_pcppages_bulk_correct z n :
  buddy_inv z → pcp_ok z → 0 < MAX_ORDER → zone_lock z = false →
  0 ≤ n ≤ Z.of_nat (length (pcp_pages z)) →
  ∃ ps z', free_pcppages_bulk n z = Ok tt z' ∧ Z.of_nat (length ps) = n ∧
    buddy_inv z' ∧ pcp_ok z' ∧ pcp_pages z ≡ₚ ps ++ pcp_pages z' ∧
    (∀ x, is_free z' x ↔ is_free z x ∨ x ∈ ps) ∧ zone_lock z' = false ∧
    pcp_count z' = pcp_count z ∧ NR_FREE_PAGES z' = s32 (NR_FREE_PAGES z + n).
Proof.
  intros. destruct (free_bulk_spec z n) as (ps & z' & ? & ? & ? & ? & ? & ? & _ & ? & ? & ?); [done..|].
  exists ps, z'. by split_and!.
Qed.

(** C4. Freeing a page: [free_hot_cold_page] of an unused page returns and puts
    exactly that page back into the zone, onto a per-cpu list or, for isolated
    and contiguous-memory blocks, into the free blocks; a full list spills.  The
    invariant of the zone is kept: in particular [pcp->count] stays the number
    of pages on the lists, and every page in the zone is ready for its next
    user. *)
Theorem free_hot_cold_page_correct z p cold :
  zone_ok z → freeable z p → 0 < MAX_ORDER →
  ∃ z', free_hot_cold_page p cold z = Ok tt z' ∧ zone_ok z' ∧
        ∀ x, in_zone z' x ↔ in_zone z x ∨ x = p.
Proof.
  intros. destruct (hot_cold_spec z p cold) as (z' & ? & ? & _ & ?); [done..|]. by exists z'.
Qed.

(** C3. Allocating from a zone: [buffered_rmqueue] returns for every order and
    migrate type the callers use, and keeps the invariant of the zone.  It hands
    out an aligned block of the requested order whose first page has one
    reference; exactly the pages of the block leave the zone.  It fails only
    when the per-cpu list (for single pages) is empty and the free lists of the
    type, of its fallbacks and of the reserve have no block that fits; no page
    leaves the zone then. *)
Theorem buffered_rmqueue_correct z order gfp mt :
  zone_ok z → zone_contiguous z → 0 ≤ order < MAX_ORDER → 0 ≤ mt < MIGRATE_PCPTYPES →
  0 ≤ pageblock_order →
  ∃ r z', buffered_rmqueue order gfp mt z = Ok r z' ∧ zone_ok z' ∧
    match r with
    | Some p => (2 ^ order | p) ∧ _count (page_at z' p) = 1 ∧
                (∀ x, in_zone z x ↔ in_zone z' x ∨ covers p order x) ∧
                (∀ x, covers p order x → ¬ in_zone z' x)
    | None => same_memory z z' ∧ all_exhausted z order mt ∧
              (order = 0 → elems (lists z) (PcpList mt) = [])
    end.
Proof.
  intros Hz Hct Hord Hmt Hpb.
  destruct (buffered_spec ltac:(lia) Hpb z order gfp mt Hz Hct Hord Hmt) as (r & z' & E & Hz' & _ & Hr).
  exists r, z'. split_and!; [done|done|]. destruct r as [p|]; [|done].
  destruct Hr as (? & ? & ? & Hc & _). split_and!; [done..|]. by intros x [? _]%Hc.
Qed.
End PcpInv.

(** ** A small zone *)

#[export] Instance demo_zone_env : ZoneEnv := {
  GFP_COLD := 256;
  GFP_CMA := 33554432;
  ALLOC_HIGH := 32;
  ALLOC_HARDER := 16;
  ALLOC_CMA := 128;
  min_free_order_shift := 1;
  vm_stat_diff _ := 0
}.

(** What freeing the block at page 4 gave. *)
Lemma demo_freed_facts :
  buddy_inv demo_freed ∧ zone_lock demo_freed = false ∧ pcp_kept demo_zone demo_freed ∧
  (∀ mt, elems (lists demo_freed) (PcpList mt) = []) ∧
  ∀ x, is_free demo_freed x ↔ covers 4 2 x.
Proof.
  destruct (free_one_page_spec demo_value demo_zone 4 2 MIGRATE_MOVABLE demo_buddy_inv eq_refl)
    as (z' & E & Hi & Hl & _ & Hf & Hk); [|reflexivity|by apply demo_type|].
  { apply demo_block; [lia|by exists 1|lia|simpl; lia]. }
  unfold demo_freed. rewrite E. cbn [res_state]. split_and!; [done|done|done| |].
  - intros mt. destruct Hk as (_ & _ & _ & _ & _ & _ & Hel & _). rewrite Hel. apply demo_elems.
  - intros x. rewrite Hf. split; [|by right]. intros [(p & o & Hp & _)|?]; [|done].
    by destruct (demo_not_free p o Hp).
Qed.

Lemma demo_zone_ok : zone_ok demo_freed.
Proof.
  destruct demo_freed_facts as (Hi & Hl & Hk & Hnil & _).
  pose proof Hk as (_ & _ & S1 & S2 & S3 & S4 & _ & _ & Hty & Hd).
  split; [done| | |done|by rewrite S1|by rewrite S3, S4| |].
  - intros mt p. rewrite Hnil. by intros ?%elem_of_nil.
  - rewrite S2. unfold pcp_pages. by rewrite !Hnil.
  - apply Hty. intros p. by apply demo_type.
  - intros x _. by apply (plain_desc demo_zone).
Qed.

Lemma demo_freeable : freeable demo_freed 0.
Proof.
  destruct demo_freed_facts as (Hi & _ & _ & Hnil & Hf).
  assert (¬ is_free demo_freed 0) as Hnf by (rewrite Hf; unfold covers; lia).
  split; [by vm_compute| | |by left; vm_compute|by vm_compute|done].
  - intros [?|Hp]; [done|]. unfold pcp_pages in Hp. rewrite !Hnil in Hp. by apply elem_of_nil in Hp.
  - intros [o mt|mt] Hin.
    + apply Hnf, (free_self demo_freed 0 o); [done|by exists mt].
    + rewrite Hnil in Hin. by apply elem_of_nil in Hin.
Qed.

(** Page 0 on a per-cpu list, the block at page 4 free. *)
Definition demo_pcp : zone (gmap lhead (list Z)) :=
  res_state (free_hot_cold_page 0 false demo_freed).

Lemma demo_pcp_ok : zone_ok demo_pcp.
Proof.
  unfold demo_pcp.
  destruct (hot_cold_spec demo_value demo_freed 0 false demo_zone_ok demo_freeable) as (z' & E & Hz & _);
    [done|by rewrite E].
Qed.

Lemma demo_contiguous : zone_contiguous demo_pcp.
Proof. by intros _ x _. Qed.

Lemma free_hot_cold_page_correct_witness :
  ∃ z', free_hot_cold_page 0 false demo_freed = Ok tt z' ∧ in_zone z' 0.
Proof.
  destruct (free_hot_cold_page_correct demo_value demo_freed 0 false demo_zone_ok demo_freeable)
    as (z' & E & _ & Hx); [done|].
  exists z'. split; [done|]. apply Hx. by right.
Defined.

Lemma free_pcppages_bulk_correct_witness :
  ∃ z', free_pcppages_bulk 1 demo_pcp = Ok tt z' ∧ NR_FREE_PAGES z' = 5.
Proof.
  destruct (free_pcppages_bulk_correct demo_value demo_pcp 1 (zo_buddy _ demo_pcp_ok) (zo_pcp _ demo_pcp_ok))
    as (ps & z' & E & _ & _ & _ & _ & _ & _ & _ & Hn); [done|vm_compute; done|vm_compute; done|].
  exists z'. split; [done|]. rewrite Hn. by vm_compute.
Defined.

Lemma buffered_rmqueue_correct_witness :
  ∃ p z', buffered_rmqueue 1 0 MIGRATE_MOVABLE demo_pcp = Ok (Some p) z' ∧ (2 ^ 1 | p) ∧ zone_ok z'.
Proof.
  destruct (buffered_rmqueue_correct demo_value demo_pcp 1 0 MIGRATE_MOVABLE demo_pcp_ok demo_contiguous)
    as (r & z' & E & Hz & Hr); [done|done|done|].
  destruct r as [p|].
  - exists p, z'. by destruct Hr as (? & _).
  - assert (is_Some (match buffered_rmqueue 1 0 MIGRATE_MOVABLE demo_pcp with
                     | Ok r _ => r | Err _ _ => None end)) as [q Hq] by (vm_compute; eauto).
    rewrite E in Hq. done.
Defined.
