(* ===== verification/Watermark.v ===== *)
(** * The watermark test in closed form

    [__zone_watermark_ok] (lines 1656 to 1686 of [hw5/mm/page_alloc.c], in
    [Pcp.v]) subtracts the small blocks order by order and halves the mark as
    it goes.  The theorems state what the loop decides, and what a zone that
    passes the test is good for. *)

From S2P Require Import Prelude KList Buddy BuddySpec Pcp PcpSpec.

Section Watermark.
Context {L : Type} `{KList lhead L} `{BuddyConfig} `{ZoneEnv}.
Implicit Types z : zone L.

(** Pages in free blocks of the orders [a] to [a + n - 1]. *)
Definition pages_in z (a n : Z) : Z := sumZ (λ o, nr_free_of z o * 2 ^ o) (seqZ a n).

(** The mark after the concessions to urgent allocations. *)
Definition eased_mark (mark alloc_flags : Z) : Z :=
  let m := if has_flag alloc_flags ALLOC_HIGH then mark - mark / 2 else mark in
  if has_flag alloc_flags ALLOC_HARDER then m - m / 4 else m.

(** The pages the allocation may count on, its own block apart. *)
Definition usable z (order alloc_flags free_pages : Z) : Z :=
  free_pages - (2 ^ order - 1)
  - (if CONFIG_CMA && negb (has_flag alloc_flags ALLOC_CMA)
     then zone_page_state (NR_FREE_CMA_PAGES z) else 0).

Lemma pages_in_cons z a n : 0 < n → pages_in z a n = nr_free_of z a * 2 ^ a + pages_in z (a + 1) (n - 1).
Proof. intros Hn. unfold pages_in. rewrite (seqZ_cons a n) by lia. simpl. do 3 f_equal; lia. Qed.

Lemma pages_in_0 z a : pages_in z a 0 = 0.
Proof. done. Qed.

Lemma pages_in_split z a n m :
  0 ≤ n → 0 ≤ m → pages_in z a (n + m) = pages_in z a n + pages_in z (a + n) m.
Proof. intros. unfold pages_in. by rewrite seqZ_app, sumZ_app by lia. Qed.

Lemma pages_in_nonneg z a n : 0 ≤ a → (∀ o, 0 ≤ nr_free_of z o) → 0 ≤ pages_in z a n.
Proof.
  intros Ha Hnr. apply sumZ_nonneg. intros o Ho%elem_of_seqZ.
  apply Z.mul_nonneg_nonneg; [apply Hnr|]. apply Z.pow_nonneg. lia.
Qed.

Lemma pages_in_some z n a :
  (∀ o, 0 ≤ nr_free_of z o) → 0 ≤ a → 0 < pages_in z a (Z.of_nat n) →
  ∃ o, a ≤ o < a + Z.of_nat n ∧ 0 < nr_free_of z o.
Proof.
  intros Hnr. revert a. induction n as [|n IH]; intros a Ha Hp; [rewrite pages_in_0 in Hp; lia|].
  rewrite pages_in_cons in Hp by lia. destruct (decide (0 < nr_free_of z a)); [exists a; lia|].
  assert (nr_free_of z a = 0) as E by (pose proof (Hnr a); lia). rewrite E in Hp.
  replace (Z.of_nat (S n) - 1) with (Z.of_nat n) in Hp by lia.
  destruct (IH (a + 1)) as (o & ? & ?); [lia..|]. exists o. lia.
Qed.

(** The loop over the orders. *)
Lemma watermark_orders_spec z min f (n : nat) (a : Z) :
  0 ≤ a → 0 ≤ min_free_order_shift → (∀ o, 0 ≤ nr_free_of z o) →
  f < 2 ^ 31 → - 2 ^ 31 ≤ f - pages_in z a (Z.of_nat n) → pages_in z a (Z.of_nat n) < 2 ^ 32 →
  watermark_orders (seqZ a (Z.of_nat n)) z min f = true ↔
  ∀ k, 0 < k ≤ Z.of_nat n →
       Z.shiftr min (min_free_order_shift * k) < f - pages_in z a k.
Proof.
  intros Ha Hsh Hnr. revert a min f Ha. induction n as [|n IH]; intros a min f Ha Hf Hs Hp.
  { split; [|done]. intros _ k Hk. lia. }
  pose proof (pages_in_cons z a (Z.of_nat (S n)) ltac:(lia)) as Hc.
  replace (Z.of_nat (S n) - 1) with (Z.of_nat n) in Hc by lia.
  pose proof (pages_in_nonneg z (a + 1) (Z.of_nat n) ltac:(lia) Hnr).
  assert (0 ≤ nr_free_of z a * 2 ^ a)
    by (apply Z.mul_nonneg_nonneg; [apply Hnr|apply Z.pow_nonneg; lia]).
  rewrite seqZ_cons by lia. cbn [watermark_orders].
  replace (Z.pred (Z.of_nat (S n))) with (Z.of_nat n) by lia.
  rewrite Z.shiftl_mul_pow2 by lia.
  rewrite uwrap_small by (widths; lia). rewrite swrap_small by (widths; lia).
  set (f' := f - nr_free_of z a * 2 ^ a) in *.
  assert (∀ k, 0 < k → f - pages_in z a k = f' - pages_in z (a + 1) (k - 1)) as Hk
    by (intros k Hk; rewrite pages_in_cons by done; lia).
  destruct (Z.leb_spec f' (Z.shiftr min min_free_order_shift)) as [Hle|Hgt].
  - split; [done|]. intros Hall. specialize (Hall 1 ltac:(lia)).
    rewrite Hk, Z.mul_1_r, pages_in_0 in Hall by lia. lia.
  - replace (Z.succ a) with (a + 1) by lia. rewrite IH by lia. split.
    + intros Hall k Hkr. rewrite Hk by lia. destruct (decide (k = 1)) as [->|].
      * rewrite Z.mul_1_r, pages_in_0. lia.
      * specialize (Hall (k - 1) ltac:(lia)). rewrite Z.shiftr_shiftr in Hall by nia.
        by replace (min_free_order_shift + min_free_order_shift * (k - 1))
          with (min_free_order_shift * k) in Hall by lia.
    + intros Hall k Hkr. specialize (Hall (k + 1) ltac:(lia)). rewrite Hk in Hall by lia.
      rewrite Z.shiftr_shiftr by nia.
      replace (min_free_order_shift + min_free_order_shift * k) with (min_free_order_shift * (k + 1)) by lia.
      by replace (k + 1 - 1) with k in Hall by lia.
Qed.

(** Sizes within which the arithmetic of the test does not wrap. *)
Record sizes_ok z (order mark classzone_idx alloc_flags free_pages : Z) : Prop := {
  so_order : 0 ≤ order ≤ 20;
  so_mark : 0 ≤ mark < 2 ^ 30;
  so_reserve : 0 ≤ default 0 (lowmem_reserve z !! classzone_idx) < 2 ^ 30;
  so_free : 0 ≤ free_pages < 2 ^ 30;
  so_cma : NR_FREE_CMA_PAGES z < 2 ^ 28;
  so_nr o : 0 ≤ nr_free_of z o;
  so_blocks : pages_in z 0 order < 2 ^ 30;
  so_shift : 0 ≤ min_free_order_shift
}.

Lemma fraction_bounds m : 0 ≤ m → 0 ≤ m - m / 2 ≤ m ∧ 0 ≤ m - m / 4 ≤ m.
Proof. intros Hm. Z.div_mod_to_equations. lia. Qed.

Lemma eased_mark_bounds mark flags : 0 ≤ mark → 0 ≤ eased_mark mark flags ≤ mark.
Proof.
  intros Hm. unfold eased_mark. repeat case_match; Z.div_mod_to_equations; lia.
Qed.

Lemma usable_bounds z order flags free :
  0 ≤ order ≤ 20 → 0 ≤ free < 2 ^ 30 → NR_FREE_CMA_PAGES z < 2 ^ 28 →
  - 2 ^ 29 ≤ usable z order flags free < 2 ^ 30.
Proof.
  intros Ho Hf Hc. unfold usable, zone_page_state.
  assert (1 ≤ 2 ^ order ≤ 2 ^ 20)
    by (split; [apply (Z.pow_le_mono_r 2 0); lia|apply Z.pow_le_mono_r; lia]).
  repeat case_match; bsimp; lia.
Qed.

Lemma watermark_spec z order mark idx flags free :
  sizes_ok z order mark idx flags free →
  __zone_watermark_ok z order mark idx flags free = true ↔
  eased_mark mark flags + default 0 (lowmem_reserve z !! idx) < usable z order flags free ∧
  ∀ k, 0 < k ≤ order →
    Z.shiftr (eased_mark mark flags) (min_free_order_shift * k)
    < usable z order flags free - pages_in z 0 k.
Proof.
  intros [Ho Hm Hr Hf Hc Hnr Hb Hs].
  pose proof (usable_bounds z order flags free Ho Hf Hc) as Hu.
  pose proof (eased_mark_bounds mark flags (proj1 Hm)) as He.
  pose proof (pages_in_nonneg z 0 order ltac:(lia) Hnr) as Hpg.
  set (res := default 0 (lowmem_reserve z !! idx)) in *.
  assert (1 ≤ 2 ^ order ≤ 2 ^ 20) as Hpow
    by (split; [apply (Z.pow_le_mono_r 2 0); lia|apply Z.pow_le_mono_r; lia]).
  assert (__zone_watermark_ok z order mark idx flags free =
    if usable z order flags free <=? eased_mark mark flags + res then false
    else watermark_orders (seqZ 0 order) z (eased_mark mark flags) (usable z order flags free)) as ->.
  { unfold __zone_watermark_ok. fold res. rewrite Z.shiftl_1_l.
    assert (∀ m, 0 ≤ m < 2 ^ 30 → Z.quot m 2 = m / 2 ∧ Z.quot m 4 = m / 4) as Hq
      by (intros m Hm'; split; apply Z.quot_div_nonneg; lia).
    assert (∀ m, 0 ≤ m < 2 ^ 30 → s32 m = m) as Hs32 by (intros m Hm'; apply swrap_small; widths; lia).
    unfold eased_mark, usable in *. rewrite (Hs32 mark), (Hs32 res) by lia.
    set (m1 := if has_flag flags ALLOC_HIGH then mark - mark / 2 else mark) in *.
    assert (0 ≤ m1 < 2 ^ 30) as Hm1
      by (subst m1; pose proof (fraction_bounds mark); destruct (has_flag flags ALLOC_HIGH); lia).
    replace (if has_flag flags ALLOC_HIGH then s32 (mark - Z.quot mark 2) else mark) with m1.
    2: { subst m1. destruct (has_flag flags ALLOC_HIGH); [|done].
         rewrite (proj1 (Hq mark Hm)). symmetry. apply Hs32. pose proof (fraction_bounds mark). lia. }
    set (m2 := if has_flag flags ALLOC_HARDER then m1 - m1 / 4 else m1) in *.
    replace (if has_flag flags ALLOC_HARDER then s32 (m1 - Z.quot m1 4) else m1) with m2.
    2: { subst m2. destruct (has_flag flags ALLOC_HARDER); [|done].
         rewrite (proj2 (Hq m1 Hm1)). symmetry. apply Hs32. pose proof (fraction_bounds m1). lia. }
    rewrite (swrap_small 32 ltac:(lia) (m2 + res)) by (widths; lia).
    rewrite (swrap_small 32 ltac:(lia) (free - (2 ^ order - 1))) by (widths; lia).
    destruct (CONFIG_CMA && _); [|by rewrite Z.sub_0_r]. rewrite swrap_small by (widths; lia). done. }
  destruct (Z.leb_spec (usable z order flags free) (eased_mark mark flags + res)) as [Hle|Hgt].
  { split; [done|]. lia. }
  pose proof (watermark_orders_spec z (eased_mark mark flags) (usable z order flags free)
    (Z.to_nat order) 0) as Hloop. rewrite Z2Nat.id in Hloop by lia.
  rewrite Hloop by (done || lia). split; [|tauto]. intros Hall. split; [lia|done].
Qed.

(** C37. The watermark test in closed form: as long as the sizes fit, a zone
    passes for an order when the free pages beyond the requested block exceed
    the (eased) mark plus the reserve for the class zone, and for every [k] up
    to the order the free pages in blocks of order [k] and above still exceed
    the mark shifted right by [k] times [min_free_order_shift]. *)
Theorem watermark_closed_form z order mark idx flags free :
  sizes_ok z order mark idx flags free →
  __zone_watermark_ok z order mark idx flags free = true ↔
  eased_mark mark flags + default 0 (lowmem_reserve z !! idx) < usable z order flags free ∧
  ∀ k, 0 < k ≤ order →
    Z.shiftr (eased_mark mark flags) (min_free_order_shift * k)
    < usable z order flags free - pages_in z 0 k.
Proof. apply watermark_spec. Qed.

(** What the test is for: when the counter of free pages is the number of
    pages in free blocks, a zone that passes for an order has a free block of
    that order or a larger one, so a request of that order can be met without
    compaction. *)
Theorem watermark_block_exists z order mark idx flags :
  NR_FREE_PAGES z = pages_in z 0 MAX_ORDER → 0 ≤ order < MAX_ORDER →
  sizes_ok z order mark idx flags (NR_FREE_PAGES z) →
  zone_watermark_ok z order mark idx flags = true →
  ∃ o, order ≤ o < MAX_ORDER ∧ 0 < nr_free_of z o.
Proof.
  intros Hn Ho Hs. pose proof Hs as [Ho' Hm Hr Hf Hc Hnr Hb Hsh].
  unfold zone_watermark_ok, zone_page_state. destruct (Z.ltb_spec (NR_FREE_PAGES z) 0); [lia|].
  rewrite watermark_spec by done. intros [Hfirst Hk].
  pose proof (eased_mark_bounds mark flags (proj1 Hm)) as He.
  assert (0 < usable z order flags (NR_FREE_PAGES z) - pages_in z 0 order) as Hpos.
  { destruct (decide (order = 0)) as [->|]; [rewrite pages_in_0; lia|].
    specialize (Hk order ltac:(lia)). assert (0 ≤ Z.shiftr (eased_mark mark flags) (min_free_order_shift * order))
      by (apply Z.shiftr_nonneg; lia). lia. }
  assert (0 < pages_in z order (MAX_ORDER - order)) as Hlarge.
  { assert (usable z order flags (NR_FREE_PAGES z) ≤ NR_FREE_PAGES z) as Hle.
    { unfold usable, zone_page_state. pose proof (pow_pos order (proj1 Ho)). repeat case_match; bsimp; lia. }
    pose proof (pages_in_split z 0 order (MAX_ORDER - order)) as Hsp.
    replace (order + (MAX_ORDER - order)) with MAX_ORDER in Hsp by lia. rewrite Z.add_0_l in Hsp. lia. }
  destruct (pages_in_some z (Z.to_nat (MAX_ORDER - order)) order Hnr) as (o & ? & ?);
    [lia|by rewrite Z2Nat.id by lia|]. exists o. lia.
Qed.
End Watermark.

(** ** The small zone of [PcpSpec.v]: one free block of four pages *)

Lemma demo_nr o : nr_free_of demo_freed o = if decide (o = 2) then 1 else 0.
Proof.
  assert (nr_free demo_freed = {[2 := 1]}) as E by (by vm_compute).
  unfold nr_free_of. rewrite E. case_decide; subst; [by rewrite lookup_singleton_eq|].
  by rewrite lookup_singleton_ne.
Qed.

Lemma demo_sizes order mark : 0 ≤ order ≤ 2 → 0 ≤ mark ≤ 4 → sizes_ok demo_freed order mark 0 0 4.
Proof.
  intros Ho Hm. split; [lia|lia|by vm_compute|lia|by vm_compute| | |done].
  - intros o. rewrite demo_nr. case_decide; lia.
  - assert (order = 0 ∨ order = 1 ∨ order = 2) as [->|[->| ->]] by lia; by vm_compute.
Qed.

Lemma watermark_closed_form_witness :
  __zone_watermark_ok demo_freed 1 1 0 0 4 = true ∧ 0 < usable demo_freed 1 0 4 - pages_in demo_freed 0 1.
Proof.
  destruct (watermark_closed_form demo_freed 1 1 0 0 4) as [Hok _]; [by apply demo_sizes|].
  assert (__zone_watermark_ok demo_freed 1 1 0 0 4 = true) as E by (by vm_compute).
  split; [done|]. destruct (Hok E) as [_ Hk]. specialize (Hk 1 ltac:(lia)). by vm_compute.
Defined.

Lemma watermark_block_exists_witness :
  ∃ o, 1 ≤ o < MAX_ORDER ∧ 0 < nr_free_of demo_freed o.
Proof.
  apply (watermark_block_exists demo_freed 1 1 0 0);
    [by vm_compute|by vm_compute|by apply demo_sizes|by vm_compute].
Defined.
