(* ===== verification/PageAlloc.v ===== *)
(** * The zoned page allocator: [hw5/mm/page_alloc.c], lines 118 to 152 and 1240 to 2756

    [__alloc_pages_nodemask] with the per-user memory limit the homework adds in
    front of it, the walk over the zonelist, the slow path with reclaim,
    compaction and the OOM killer, and the entry points that free.  Zones are
    those of [Buddy.v], tasks and users those of [TaskWorld.v].

    The model follows the ARM build: without CONFIG_NUMA, [NUMA_BUILD] and
    [zone_reclaim_mode] are the constant 0, so a zone that fails its watermark
    is skipped.  What the file calls elsewhere in the kernel (reclaim,
    compaction, kswapd, cpusets, dirty limits) is the parameter [AllocEnv]; the
    operations of it that change state are monadic.  Loops the source does not
    bound ([restart], [rebalance], [retry_cpuset], [__GFP_NOFAIL]) take fuel. *)

From S2P Require Import Prelude KList UserCache TaskWorld OomKill Buddy Pcp.

(** The memory of the machine and the tasks that use it. *)
Record kernel (L1 L2 X : Type) : Type := mkKernel {
  zones : gmap Z (zone L1);
  wld : world L2 X;
  gfp_allowed_mask : Z;
  saved_gfp_mask : Z
}.
Arguments mkKernel {L1 L2 X}.
Arguments zones {L1 L2 X}.
Arguments wld {L1 L2 X}.
Arguments gfp_allowed_mask {L1 L2 X}.
Arguments saved_gfp_mask {L1 L2 X}.
#[export] Instance kernel_eta L1 L2 X : Settable (kernel L1 L2 X) := λ r,
  mkKernel (zones r) (wld r) (gfp_allowed_mask r) (saved_gfp_mask r).

(** [fail_page_alloc] of the fault injection configuration. *)
Record fail_page_alloc : Type := mkFailPageAlloc {
  ignore_gfp_highmem : bool;
  ignore_gfp_wait : bool;
  min_order : Z
}.

Class AllocEnv (L1 L2 X : Type) : Type := {
  GFP_WAIT : Z;
  GFP_HIGH : Z;
  GFP_FS : Z;
  GFP_IOFS : Z;
  GFP_NOFAIL : Z;
  GFP_NORETRY : Z;
  GFP_REPEAT : Z;
  GFP_NOMEMALLOC : Z;
  GFP_HARDWALL : Z;
  GFP_NO_KSWAPD : Z;
  GFP_WRITE : Z;
  GFP_HIGHMEM : Z;
  ALLOC_CPUSET : Z;
  ALLOC_NO_WATERMARKS : Z;
  PF_MEMALLOC : Z;
  PF_DUMPCORE : Z;
  PAGE_ALLOC_COSTLY_ORDER : Z;
  ZONE_NORMAL : Z;
  allocflags_to_migratetype : Z → Z;
  zone_dirty_ok : Z → bool;
  in_interrupt : bool;
  rt_task : Z → bool;
  oom_killer_disabled : bool;
  mems_stable : nat → bool;       (** [put_mems_allowed] after the n-th attempt *)
  CONFIG_FAIL_PAGE_ALLOC : option fail_page_alloc;
  should_fail : Z → bool;
  CONFIG_COMPACTION : bool;
  COMPACT_SKIPPED : Z;
  compaction_deferred : Z → Z → M (kernel L1 L2 X) bool;
  try_to_compact_pages : Z → Z → Z → option (list Z) → bool → M (kernel L1 L2 X) Z;
  defer_compaction : Z → Z → M (kernel L1 L2 X) unit;
  try_to_free_pages : Z → Z → Z → option (list Z) → M (kernel L1 L2 X) Z;
  wakeup_kswapd : Z → Z → Z → M (kernel L1 L2 X) unit;
  page_address : Z → Z;
  virt_to_page : Z → Z;
  virt_addr_valid : Z → bool;
  zonelist_empty : Z → bool;      (** [!zonelist->_zonerefs->zone] *)
  node_zonelist : Z → Z;          (** the zonelist of the local node, by gfp mask *)
  get_order : Z → Z
}.

Definition ALLOC_WMARK_MIN : Z := WMARK_MIN.
Definition ALLOC_WMARK_LOW : Z := WMARK_LOW.
Definition ALLOC_WMARK_HIGH : Z := WMARK_HIGH.

Section PageAlloc.
Context {L1 L2 X : Type} `{KList lhead L1, KList (Z * Z) L2, UserKernel X}.
Context `{BuddyConfig, ZoneEnv, OomEnv} `{AllocEnv L1 L2 X}.
Variable UIDHASH_BITS : Z.
Abbreviation K := (M (kernel L1 L2 X)).

Definition ALLOC_WMARK_MASK : Z := ALLOC_NO_WATERMARKS - 1.

(** Code of a zone, and code of the tasks and users. *)
Definition call_zone {A} (i : Z) (op : M (zone L1) A) : K A := λ k,
  match zones k !! i with
  | None => Err Undefined k
  | Some z =>
      match op z with
      | Ok a z' => Ok a (k <| zones ::= <[i := z']> |>)
      | Err f z' => Err f (k <| zones ::= <[i := z']> |>)
      end
  end.

Definition call_world {A} (op : M (world L2 X) A) : K A := λ k,
  match op (wld k) with
  | Ok a w => Ok a (k <| wld := w |>)
  | Err f w => Err f (k <| wld := w |>)
  end.

(** ** Suspending *)

Definition pm_restore_gfp_mask : K unit :=
  s ← gets saved_gfp_mask;
  if negb (s =? 0) then
    _ ← modify (λ k, k <| gfp_allowed_mask := s |>);
    modify (λ k, k <| saved_gfp_mask := 0 |>)
  else mret tt.

Definition pm_restrict_gfp_mask : K unit :=
  _ ← modify (λ k, k <| saved_gfp_mask := gfp_allowed_mask k |>);
  modify (λ k, k <| gfp_allowed_mask ::= λ m, Z.ldiff m GFP_IOFS |>).

Definition pm_suspended_storage : K bool :=
  m ← gets gfp_allowed_mask;
  if Z.land m GFP_IOFS =? GFP_IOFS then mret false else mret true.

(** ** Draining *)

(** The processor that runs the code is the only one. *)
Definition drain_pages : K unit := for_each populated_zones (λ i, call_zone i drain_zone).

Definition drain_local_pages : K unit := drain_pages.

Fixpoint any_pcp (zs : list Z) : K bool :=
  match zs with
  | [] => mret false
  | i :: zs' =>
      n ← call_zone i (gets pcp_count);
      if negb (n =? 0) then mret true else any_pcp zs'
  end.

Definition drain_all_pages : K unit :=
  has_pcps ← any_pcp populated_zones;
  if has_pcps : bool then drain_local_pages else mret tt.

(** ** The walk over the zonelist *)

Definition should_fail_alloc_page (gfp_mask order : Z) : bool :=
  match CONFIG_FAIL_PAGE_ALLOC with
  | None => false
  | Some a =>
      if order <? min_order a then false
      else if has_flag gfp_mask GFP_NOFAIL then false
      else if ignore_gfp_highmem a && has_flag gfp_mask GFP_HIGHMEM then false
      else if ignore_gfp_wait a && has_flag gfp_mask GFP_WAIT then false
      else should_fail (Z.shiftl 1 order)
  end.

(** Whether the walk tries to allocate from the zone [i]. *)
Definition try_zone (gfp_mask order i alloc_flags classzone_idx : Z) : K bool :=
  if has_flag alloc_flags ALLOC_CPUSET && negb (cpuset_zone_allowed_softwall i gfp_mask)
  then mret false
  else if has_flag alloc_flags ALLOC_WMARK_LOW && has_flag gfp_mask GFP_WRITE
          && negb (zone_dirty_ok i)
  then mret false
  else if has_flag alloc_flags ALLOC_NO_WATERMARKS then mret true
  else
    z ← call_zone i get;
    let mark := default 0 (watermark z !! Z.land alloc_flags ALLOC_WMARK_MASK) in
    mret (zone_watermark_ok z order mark classzone_idx alloc_flags).

Fixpoint zonelist_scan (zs : list Z) (gfp_mask order alloc_flags classzone_idx migratetype : Z)
    : K (option Z) :=
  match zs with
  | [] => mret None
  | i :: zs' =>
      ok ← try_zone gfp_mask order i alloc_flags classzone_idx;
      if ok : bool then
        r ← call_zone i (buffered_rmqueue order gfp_mask migratetype);
        match r with
        | Some p => mret (Some p)
        | None => zonelist_scan zs' gfp_mask order alloc_flags classzone_idx migratetype
        end
      else zonelist_scan zs' gfp_mask order alloc_flags classzone_idx migratetype
  end.

Definition get_page_from_freelist (gfp_mask : Z) (nodemask : option (list Z)) (order zonelist
    high_zoneidx alloc_flags : Z) (preferred_zone : option Z) (migratetype : Z) : K (option Z) :=
  i ← deref preferred_zone;
  classzone_idx ← call_zone i (gets zone_idx);
  zonelist_scan (zonelist_zones zonelist high_zoneidx nodemask) gfp_mask order alloc_flags
    classzone_idx migratetype.

(** ** The slow path *)

Definition should_alloc_retry (gfp_mask order did_some_progress pages_reclaimed : Z) : K bool :=
  if has_flag gfp_mask GFP_NORETRY then mret false
  else if has_flag gfp_mask GFP_NOFAIL then mret true
  else
    suspended ← pm_suspended_storage;
    if (did_some_progress =? 0) && suspended then mret false
    else if order <=? PAGE_ALLOC_COSTLY_ORDER then mret true
    else mret (has_flag gfp_mask GFP_REPEAT && (pages_reclaimed <? Z.shiftl 1 order)).

Definition __alloc_pages_may_oom (gfp_mask order zonelist high_zoneidx : Z)
    (nodemask : option (list Z)) (preferred_zone : option Z) (migratetype : Z) : K (option Z) :=
  ok ← call_world (try_set_zonelist_oom zonelist gfp_mask);
  if ok =? 0 then mret None
  else
    page ← get_page_from_freelist (Z.lor gfp_mask GFP_HARDWALL) nodemask order zonelist
             high_zoneidx (Z.lor ALLOC_WMARK_HIGH ALLOC_CPUSET) preferred_zone migratetype;
    _ ← (match page with
         | Some _ => mret tt
         | None =>
             if negb (has_flag gfp_mask GFP_NOFAIL) &&
                ((PAGE_ALLOC_COSTLY_ORDER <? order) || (high_zoneidx <? ZONE_NORMAL)
                 || has_flag gfp_mask GFP_THISNODE_flag)
             then mret tt
             else call_world (out_of_memory UIDHASH_BITS (Some zonelist) gfp_mask order nodemask false)
         end);
    _ ← call_world (clear_zonelist_oom zonelist gfp_mask);
    mret page.

(** [current->flags |= mask] and [current->flags &= ~mask]. *)
Definition set_current_flags (mask : Z) : K unit :=
  call_world (store_task current (λ t, t <| flags ::= λ f, Z.lor f mask |>)).
Definition clear_current_flags (mask : Z) : K unit :=
  call_world (store_task current (λ t, t <| flags ::= λ f, Z.ldiff f mask |>)).

(** The page and the new value of [*deferred_compaction]. *)
Definition __alloc_pages_direct_compact (gfp_mask order zonelist high_zoneidx : Z)
    (nodemask : option (list Z)) (alloc_flags : Z) (preferred_zone : option Z) (migratetype : Z)
    (sync_migration deferred : bool) : K (option Z * bool) :=
  if negb CONFIG_COMPACTION then mret (None, deferred)
  else if order =? 0 then mret (None, deferred)
  else
    pz ← deref preferred_zone;
    d ← compaction_deferred pz order;
    if d : bool then mret (None, true)
    else
      _ ← set_current_flags PF_MEMALLOC;
      progress ← try_to_compact_pages zonelist order gfp_mask nodemask sync_migration;
      _ ← clear_current_flags PF_MEMALLOC;
      if progress =? COMPACT_SKIPPED then mret (None, deferred)
      else
        _ ← drain_pages;
        page ← get_page_from_freelist gfp_mask nodemask order zonelist high_zoneidx alloc_flags
                 preferred_zone migratetype;
        match page with
        | Some p =>
            _ ← call_zone pz (modify (λ z, z <| compact_considered := 0 |>
              <| compact_defer_shift := 0 |>
              <| compact_order_failed := if compact_order_failed z <=? order then order + 1
                                         else compact_order_failed z |>));
            mret (Some p, deferred)
        | None =>
            _ ← (if sync_migration then defer_compaction pz order else mret tt);
            mret (None, deferred)
        end.

Definition __perform_reclaim (gfp_mask order zonelist : Z) (nodemask : option (list Z)) : K Z :=
  _ ← set_current_flags PF_MEMALLOC;
  progress ← try_to_free_pages zonelist order gfp_mask nodemask;
  _ ← clear_current_flags PF_MEMALLOC;
  mret progress.

(** The page and [*did_some_progress]; the retry after draining happens once. *)
Definition __alloc_pages_direct_reclaim (gfp_mask order zonelist high_zoneidx : Z)
    (nodemask : option (list Z)) (alloc_flags : Z) (preferred_zone : option Z) (migratetype : Z)
    : K (option Z * Z) :=
  did_some_progress ← __perform_reclaim gfp_mask order zonelist nodemask;
  if did_some_progress =? 0 then mret (None, did_some_progress)
  else
    let attempt := get_page_from_freelist gfp_mask nodemask order zonelist high_zoneidx alloc_flags
                     preferred_zone migratetype in
    page ← attempt;
    match page with
    | Some p => mret (Some p, did_some_progress)
    | None =>
        _ ← drain_all_pages;
        page ← attempt;
        mret (page, did_some_progress)
    end.

Fixpoint __alloc_pages_high_priority (fuel : nat) (gfp_mask order zonelist high_zoneidx : Z)
    (nodemask : option (list Z)) (preferred_zone : option Z) (migratetype : Z) : K (option Z) :=
  match fuel with
  | O => fail OutOfFuel
  | S fuel' =>
      page ← get_page_from_freelist gfp_mask nodemask order zonelist high_zoneidx
               ALLOC_NO_WATERMARKS preferred_zone migratetype;
      match page with
      | Some p => mret (Some p)
      | None =>
          if has_flag gfp_mask GFP_NOFAIL
          then __alloc_pages_high_priority fuel' gfp_mask order zonelist high_zoneidx nodemask
                 preferred_zone migratetype
          else mret None
      end
  end.

Definition wake_all_kswapd (order zonelist high_zoneidx classzone_idx : Z) : K unit :=
  for_each (zonelist_zones zonelist high_zoneidx None) (λ i, wakeup_kswapd i order classzone_idx).

(** [t] is [current]. *)
Definition gfp_to_alloc_flags (t : task_struct) (gfp_mask : Z) : Z :=
  let alloc_flags := Z.lor ALLOC_WMARK_MIN ALLOC_CPUSET in
  let wait := has_flag gfp_mask GFP_WAIT in
  let alloc_flags := Z.lor alloc_flags (Z.land gfp_mask GFP_HIGH) in
  let alloc_flags :=
    if negb wait then
      let alloc_flags := if negb (has_flag gfp_mask GFP_NOMEMALLOC)
                         then Z.lor alloc_flags ALLOC_HARDER else alloc_flags in
      Z.ldiff alloc_flags ALLOC_CPUSET
    else if rt_task current && negb in_interrupt then Z.lor alloc_flags ALLOC_HARDER
    else alloc_flags in
  let alloc_flags :=
    if negb (has_flag gfp_mask GFP_NOMEMALLOC) && negb in_interrupt
       && (has_flag (flags t) PF_MEMALLOC || tif_memdie t)
    then Z.lor alloc_flags ALLOC_NO_WATERMARKS else alloc_flags in
  if CONFIG_CMA && (allocflags_to_migratetype gfp_mask =? MIGRATE_MOVABLE)
  then Z.lor alloc_flags ALLOC_CMA else alloc_flags.

(** The locals of [__alloc_pages_slowpath] that live across its gotos. *)
Record slow_locals : Type := mkLocals {
  sl_preferred : option Z;
  sl_flags : Z;
  sl_reclaimed : Z;
  sl_sync : bool;
  sl_deferred : bool
}.
#[export] Instance slow_locals_eta : Settable slow_locals := λ r,
  mkLocals (sl_preferred r) (sl_flags r) (sl_reclaimed r) (sl_sync r) (sl_deferred r).

(** Where one pass over the body goes. *)
Inductive slow_goto : Type :=
  | got_pg (p : Z)
  | nopage
  | restart (l : slow_locals)
  | rebalance (l : slow_locals).

Section Slowpath.
Variables (gfp_mask order zonelist high_zoneidx : Z) (nodemask : option (list Z)) (migratetype : Z).
Variable nofail_fuel : nat.

(** From the label [restart] to [rebalance]. *)
Definition slow_restart (l : slow_locals) : K slow_locals :=
  _ ← (if negb (has_flag gfp_mask GFP_NO_KSWAPD) then
         pz ← deref (sl_preferred l);
         idx ← call_zone pz (gets zone_idx);
         wake_all_kswapd order zonelist high_zoneidx idx
       else mret tt);
  t ← call_world (load_task current);
  let alloc_flags := gfp_to_alloc_flags t gfp_mask in
  let preferred := if negb (has_flag alloc_flags ALLOC_CPUSET) && bool_decide (nodemask = None)
                   then head (zonelist_zones zonelist high_zoneidx None) else sl_preferred l in
  mret (l <| sl_flags := alloc_flags |> <| sl_preferred := preferred |>).

(** After reclaim without a page: the OOM killer, or another round. *)
Definition slow_no_page (l : slow_locals) (did_some_progress : Z) : K slow_goto :=
  if (did_some_progress =? 0) && has_flag gfp_mask GFP_FS && negb (has_flag gfp_mask GFP_NORETRY) then
    t ← call_world (load_task current);
    if oom_killer_disabled then mret nopage
    else if has_flag (flags t) PF_DUMPCORE && negb (has_flag gfp_mask GFP_NOFAIL) then mret nopage
    else
      page ← __alloc_pages_may_oom gfp_mask order zonelist high_zoneidx nodemask
               (sl_preferred l) migratetype;
      match page with
      | Some p => mret (got_pg p)
      | None =>
          if negb (has_flag gfp_mask GFP_NOFAIL) &&
             ((PAGE_ALLOC_COSTLY_ORDER <? order) || (high_zoneidx <? ZONE_NORMAL))
          then mret nopage else mret (restart l)
      end
  else
    let l := l <| sl_reclaimed := u32 (sl_reclaimed l + did_some_progress) |> in
    again ← should_alloc_retry gfp_mask order did_some_progress (sl_reclaimed l);
    if again : bool then mret (rebalance l)
    else
      '(page, _) ← __alloc_pages_direct_compact gfp_mask order zonelist high_zoneidx nodemask
                     (sl_flags l) (sl_preferred l) migratetype (sl_sync l) (sl_deferred l);
      match page with Some p => mret (got_pg p) | None => mret nopage end.

(** From direct compaction on. *)
Definition slow_balance (l : slow_locals) : K slow_goto :=
  '(page, deferred) ← __alloc_pages_direct_compact gfp_mask order zonelist high_zoneidx nodemask
                        (sl_flags l) (sl_preferred l) migratetype (sl_sync l) (sl_deferred l);
  match page with
  | Some p => mret (got_pg p)
  | None =>
      let l := l <| sl_deferred := deferred |> <| sl_sync := true |> in
      if deferred && has_flag gfp_mask GFP_NO_KSWAPD then mret nopage
      else
        '(page, did_some_progress) ←
           __alloc_pages_direct_reclaim gfp_mask order zonelist high_zoneidx nodemask
             (sl_flags l) (sl_preferred l) migratetype;
        match page with
        | Some p => mret (got_pg p)
        | None => slow_no_page l did_some_progress
        end
  end.

(** From the label [rebalance] on. *)
Definition slow_rebalance (l : slow_locals) : K slow_goto :=
  page ← get_page_from_freelist gfp_mask nodemask order zonelist high_zoneidx
           (Z.ldiff (sl_flags l) ALLOC_NO_WATERMARKS) (sl_preferred l) migratetype;
  match page with
  | Some p => mret (got_pg p)
  | None =>
      page ← (if has_flag (sl_flags l) ALLOC_NO_WATERMARKS
              then __alloc_pages_high_priority nofail_fuel gfp_mask order zonelist high_zoneidx
                     nodemask (sl_preferred l) migratetype
              else mret None);
      match page with
      | Some p => mret (got_pg p)
      | None =>
          t ← call_world (load_task current);
          if negb (has_flag gfp_mask GFP_WAIT) then mret nopage
          else if has_flag (flags t) PF_MEMALLOC then mret nopage
          else if tif_memdie t && negb (has_flag gfp_mask GFP_NOFAIL) then mret nopage
          else slow_balance l
      end
  end.

Fixpoint slow_loop (fuel : nat) (again : bool) (l : slow_locals) : K (option Z) :=
  match fuel with
  | O => fail OutOfFuel
  | S fuel' =>
      l ← (if again then slow_restart l else mret l);
      g ← slow_rebalance l;
      match g with
      | got_pg p => mret (Some p)
      | nopage => mret None
      | restart l => slow_loop fuel' true l
      | rebalance l => slow_loop fuel' false l
      end
  end.

Definition __alloc_pages_slowpath (preferred_zone : option Z) : K (option Z) :=
  if MAX_ORDER <=? order then mret None
  else slow_loop nofail_fuel true (mkLocals preferred_zone 0 0 false false).

End Slowpath.

(** ** The limit check of the homework *)

(** [this_user->cumulative_mem + required_mem*PAGE_SIZE > this_user->mem_max], on
    unsigned longs. *)
Definition over_limit (u : user_struct) (order : Z) : bool :=
  u32 (mem_max u) <? u32 (cumulative_mem u + u32 (s32 (Z.shiftl 1 order)) * PAGE_SIZE).

Definition charge (u : user_struct) (order : Z) : user_struct :=
  u <| cumulative_mem := s32 (u32 (cumulative_mem u + u32 (s32 (Z.shiftl 1 order)) * PAGE_SIZE)) |>.

(** The loop over all processes; [false] when the allocation returns NULL. *)
Fixpoint limit_processes (ps : list Z) (this_user : option Z) (gfp_mask order zonelist : Z)
    (nodemask : option (list Z)) : M (world L2 X) bool :=
  match ps with
  | [] => mret true
  | p :: ps' =>
      t ← load_task p;
      id ← gets user;
      if cred_uid t =? id then
        u ← load_usr this_user;
        if over_limit u order then
          ok ← try_set_zonelist_oom zonelist gfp_mask;
          if ok =? 0 then mret false
          else
            _ ← out_of_memory UIDHASH_BITS (Some zonelist) gfp_mask order nodemask false;
            _ ← clear_zonelist_oom zonelist gfp_mask;
            limit_processes ps' this_user gfp_mask order zonelist nodemask
        else
          _ ← store_usr this_user (λ u, charge u order);
          limit_processes ps' this_user gfp_mask order zonelist nodemask
      else limit_processes ps' this_user gfp_mask order zonelist nodemask
  end.

(** The block under [if (start == 1)]. *)
Definition check_limit (gfp_mask order zonelist : Z) (nodemask : option (list Z))
    : M (world L2 X) bool :=
  w ← get;
  if negb (start w =? 1) then mret true
  else
    this_user ← (if user w =? 0 then mret None else call_cache (find_user UIDHASH_BITS (user w)));
    match this_user with
    | None => mret true
    | Some _ =>
        u ← load_usr this_user;
        if mem_max u =? -1 then mret true
        else limit_processes (TaskWorld.processes w) this_user gfp_mask order zonelist nodemask
    end.

(** ** The heart of the zoned buddy allocator *)

Fixpoint retry_cpuset (fuel slow_fuel attempt : nat) (gfp_mask order zonelist high_zoneidx : Z)
    (nodemask : option (list Z)) (migratetype : Z) : K (option Z) :=
  match fuel with
  | O => fail OutOfFuel
  | S fuel' =>
      let preferred_zone := head (zonelist_zones zonelist high_zoneidx
        (Some (default cpuset_current_mems_allowed nodemask))) in
      page ←
        match preferred_zone with
        | None => mret None
        | Some _ =>
            let alloc_flags := Z.lor ALLOC_WMARK_LOW ALLOC_CPUSET in
            let alloc_flags :=
              if CONFIG_CMA && (allocflags_to_migratetype gfp_mask =? MIGRATE_MOVABLE)
              then Z.lor alloc_flags ALLOC_CMA else alloc_flags in
            page ← get_page_from_freelist (Z.lor gfp_mask GFP_HARDWALL) nodemask order zonelist
                     high_zoneidx alloc_flags preferred_zone migratetype;
            match page with
            | Some p => mret (Some p)
            | None => __alloc_pages_slowpath gfp_mask order zonelist high_zoneidx nodemask
                        migratetype slow_fuel preferred_zone
            end
        end;
      match page with
      | Some p => mret (Some p)
      | None =>
          if mems_stable attempt then mret None
          else retry_cpuset fuel' slow_fuel (S attempt) gfp_mask order zonelist high_zoneidx
                 nodemask migratetype
      end
  end.

Definition __alloc_pages_nodemask (fuel slow_fuel : nat) (gfp_mask order zonelist : Z)
    (nodemask : option (list Z)) : K (option Z) :=
  let high_zoneidx := gfp_zone gfp_mask in
  let migratetype := allocflags_to_migratetype gfp_mask in
  ok ← call_world (check_limit gfp_mask order zonelist nodemask);
  if negb ok then mret None
  else
    allowed ← gets gfp_allowed_mask;
    let gfp_mask := Z.land gfp_mask allowed in
    if should_fail_alloc_page gfp_mask order then mret None
    else if zonelist_empty zonelist then mret None
    else retry_cpuset fuel slow_fuel O gfp_mask order zonelist high_zoneidx nodemask migratetype.

(** [alloc_pages] takes the zonelist of the local node. *)
Definition __get_free_pages (fuel slow_fuel : nat) (gfp_mask order : Z) : K Z :=
  if has_flag gfp_mask GFP_HIGHMEM then fail BugOn
  else
    page ← __alloc_pages_nodemask fuel slow_fuel gfp_mask order (node_zonelist gfp_mask) None;
    match page with
    | None => mret 0
    | Some p => mret (page_address p)
    end.

Definition get_zeroed_page (fuel slow_fuel : nat) (gfp_mask : Z) : K Z :=
  __get_free_pages fuel slow_fuel (Z.lor gfp_mask GFP_ZERO_flag) 0.

(** ** Freeing *)

(** [put_page_testzero]. *)
Definition put_page_testzero (p : Z) : M (zone L1) bool :=
  z ← get;
  _ ← VM_BUG_ON (_count (page_at z p) =? 0);
  _ ← upd_page p (λ v, v <| _count := s32 (_count v - 1) |>);
  z ← get;
  mret (_count (page_at z p) =? 0).

Definition __free_pages (p order : Z) : K unit :=
  call_zone (page_zone p)
    (zero ← put_page_testzero p;
     if zero : bool then
       if order =? 0 then free_hot_cold_page p false else __free_pages_ok p order
     else mret tt).

Definition free_pages (addr order : Z) : K unit :=
  if negb (addr =? 0) then
    if negb (virt_addr_valid addr) then fail BugOn
    else __free_pages (virt_to_page addr) order
  else mret tt.

(** ** Exact sizes *)

Definition PAGE_ALIGN (size : Z) : Z := Z.ldiff (u32 (size + (PAGE_SIZE - 1))) (PAGE_SIZE - 1).

(** The addresses [a], [a + PAGE_SIZE], ... below [e]. *)
Definition page_addrs (a e : Z) : list Z :=
  map (λ i, a + i * PAGE_SIZE) (seqZ 0 ((e - a + PAGE_SIZE - 1) / PAGE_SIZE)).

Definition make_alloc_exact (addr order size : Z) : K Z :=
  _ ← (if negb (addr =? 0) then
         let alloc_end := u32 (addr + Z.shiftl PAGE_SIZE order) in
         let used := u32 (addr + PAGE_ALIGN size) in
         let p := virt_to_page addr in
         _ ← call_zone (page_zone p) (split_page p order);
         for_each (page_addrs used alloc_end) (λ a, free_pages a 0)
       else mret tt);
  mret addr.

Definition alloc_pages_exact (fuel slow_fuel : nat) (size gfp_mask : Z) : K Z :=
  let order := get_order size in
  addr ← __get_free_pages fuel slow_fuel gfp_mask order;
  make_alloc_exact addr order size.

Definition free_pages_exact (virt size : Z) : K unit :=
  for_each (page_addrs virt (u32 (virt + PAGE_ALIGN size))) (λ a, free_pages a 0).

End PageAlloc.
