(* ===== verification/PageAllocSpec.v ===== *)
(** * Correctness of the zoned page allocator

    The walk over the zonelist and the release of pages on the level of the
    whole machine, the per-user limit check, and which parts of the slow path
    an allocation can reach. *)

From S2P Require Import Prelude KList UserCache TaskWorld OomKill Buddy BuddySpec Pcp PcpSpec PageAlloc.

Section Memory.
Context {L1 L2 X : Type} `{!EqDecision lhead} `{!KList lhead L1} `{!KListLaws lhead L1}.
Context `{!KList (Z * Z) L2} `{!UserKernel X}.
Context `{!BuddyConfig, !ZoneEnv, !OomEnv} `{!AllocEnv L1 L2 X}.
Hypothesis buddy_value : PAGE_BUDDY_MAPCOUNT_VALUE ≠ -1.
Hypothesis block_order : 0 ≤ pageblock_order.
Hypothesis some_order : 0 < MAX_ORDER.
Implicit Types k : kernel L1 L2 X.

(** Every zone satisfies its invariant and is found under its number. *)
Definition zones_ok k : Prop :=
  ∀ i z, zones k !! i = Some z → zone_ok z ∧ zone_contiguous z ∧ zone_id z = i.

(** The page [x] is unallocated, in zone [i]. *)
Definition unused k (i x : Z) : Prop := ∃ z, zones k !! i = Some z ∧ in_zone z x.

(** Nothing but the zones differs, and no zone appears or disappears. *)
Definition zones_only k k' : Prop :=
  (∃ zs, k' = k <| zones := zs |>) ∧ ∀ i, is_Some (zones k' !! i) ↔ is_Some (zones k !! i).

Lemma zones_only_refl k : zones_only k k.
Proof. split; [exists (zones k); by destruct k|done]. Qed.

Lemma zones_only_trans k1 k2 k3 : zones_only k1 k2 → zones_only k2 k3 → zones_only k1 k3.
Proof.
  intros [[zs ->] Ha] [[zs' ->] Hb]. split; [by exists zs'|]. intros i. by rewrite Hb, Ha.
Qed.

(** Replacing a zone. *)
Definition put_zone k (i : Z) (z : zone L1) : kernel L1 L2 X := k <| zones ::= <[i := z]> |>.

Lemma put_zone_only k i z z' : zones k !! i = Some z → zones_only k (put_zone k i z').
Proof.
  intros Hi. split; [by exists (<[i := z']> (zones k))|]. intros j. simpl.
  destruct (decide (j = i)) as [->|]; [rewrite lookup_insert_eq, Hi; split; by eexists|].
  by rewrite lookup_insert_ne.
Qed.

Lemma put_zone_ok k i z z' :
  zones_ok k → zones k !! i = Some z → zone_ok z' → bounds z' = bounds z → zones_ok (put_zone k i z').
Proof.
  intros Hk Hi Hz Hb j y. simpl. destruct (decide (j = i)) as [->|].
  - rewrite lookup_insert_eq. intros [= <-]. destruct (Hk i z Hi) as (_ & Hct & Hid).
    split_and!; [done|by eapply bounds_contiguous|]. unfold bounds in Hb. congruence.
  - rewrite lookup_insert_ne by done. apply Hk.
Qed.

Lemma put_zone_unused k i z z' j x :
  zones k !! i = Some z →
  unused (put_zone k i z') j x ↔ (j = i ∧ in_zone z' x) ∨ (j ≠ i ∧ unused k j x).
Proof.
  intros Hi. unfold unused. simpl. destruct (decide (j = i)) as [->|Hne].
  - rewrite lookup_insert_eq. naive_solver.
  - rewrite lookup_insert_ne by done. naive_solver.
Qed.

Lemma unused_at k i z x : zones k !! i = Some z → unused k i x ↔ in_zone z x.
Proof. intros Hi. unfold unused. rewrite Hi. naive_solver. Qed.

Definition same_unused k k' : Prop := ∀ i x, unused k' i x ↔ unused k i x.

Lemma call_zone_ok {A} k i z (op : M (zone L1) A) a z' :
  zones k !! i = Some z → op z = Ok a z' → call_zone i op k = Ok a (put_zone k i z').
Proof. intros Hi E. unfold call_zone. by rewrite Hi, E. Qed.

Lemma put_zone_id k i z : zones k !! i = Some z → put_zone k i z = k.
Proof. intros Hi. unfold put_zone. destruct k. unfold modify_field; simpl in *. by rewrite insert_id. Qed.

(** ** One zone of the walk *)

Section Walk.
Variables (gfp order mt : Z).
Hypothesis order_range : 0 ≤ order < MAX_ORDER.
Hypothesis type_range : 0 ≤ mt < MIGRATE_PCPTYPES.

(** The block [p] of zone [i] is handed out. *)
Definition handed_out k k' (i p : Z) : Prop :=
  (2 ^ order | p) ∧
  (∀ j x, unused k j x ↔ unused k' j x ∨ (j = i ∧ covers p order x)) ∧
  (∀ x, covers p order x → ¬ unused k' i x) ∧
  ∃ z, zones k' !! i = Some z ∧ page_zone p = i ∧ _count (page_at z p) = 1 ∧
       (order = 0 → page_ready z p).

Lemma zone_alloc k i z :
  zones_ok k → zones k !! i = Some z →
  ∃ r k', call_zone i (buffered_rmqueue order gfp mt) k = Ok r k' ∧ zones_ok k' ∧ zones_only k k' ∧
    (∀ j, j ≠ i → zones k' !! j = zones k !! j) ∧
    match r with Some p => handed_out k k' i p | None => same_unused k k' end.
Proof.
  intros Hk Hi. destruct (Hk i z Hi) as (Hz & Hct & Hid).
  destruct (buffered_spec buddy_value some_order block_order z order gfp mt Hz Hct order_range type_range)
    as (r & z' & E & Hz' & Hb & Hr).
  exists r, (put_zone k i z'). split_and!; [by eapply call_zone_ok|by eapply put_zone_ok|by eapply put_zone_only| |].
  { intros j Hj. simpl. by rewrite lookup_insert_ne. }
  destruct r as [p|].
  - destruct Hr as (Ha & Hc & Hx & Hn & Hrd). split_and!; [done| | |].
    + intros j x. rewrite (put_zone_unused k i z) by done. destruct (decide (j = i)) as [->|]; [|tauto].
      rewrite (unused_at k i z) by done. rewrite Hx. tauto.
    + intros x Hcx. rewrite (put_zone_unused k i z) by done. destruct (Hn x Hcx) as [? _]. tauto.
    + exists z'. simpl. rewrite lookup_insert_eq. split_and!; [done| |done|done].
      destruct (Hn p) as [_ [_ Hpz]%bad_range_false]; [apply covers_self; lia|].
      rewrite Hpz. unfold bounds in Hb. congruence.
  - destruct Hr as (Hs & _). intros j x. rewrite (put_zone_unused k i z) by done.
    destruct (decide (j = i)) as [->|]; [|tauto]. rewrite (unused_at k i z) by done. rewrite (Hs x). tauto.
Qed.

(** The decision about a zone as a function of its state. *)
Definition admits (alloc_flags idx i : Z) (z : zone L1) : bool :=
  negb (has_flag alloc_flags ALLOC_CPUSET && negb (cpuset_zone_allowed_softwall i gfp)) &&
  negb (has_flag alloc_flags ALLOC_WMARK_LOW && has_flag gfp GFP_WRITE && negb (zone_dirty_ok i)) &&
  (has_flag alloc_flags ALLOC_NO_WATERMARKS ||
   zone_watermark_ok z order (default 0 (watermark z !! Z.land alloc_flags ALLOC_WMARK_MASK))
     idx alloc_flags).

Lemma try_zone_ok k i z alloc_flags idx :
  zones k !! i = Some z → try_zone gfp order i alloc_flags idx k = Ok (admits alloc_flags idx i z) k.
Proof.
  intros Hi. unfold try_zone, admits.
  destruct (has_flag alloc_flags ALLOC_CPUSET && _); [done|].
  destruct (has_flag alloc_flags ALLOC_WMARK_LOW && _ && _); [done|].
  destruct (has_flag alloc_flags ALLOC_NO_WATERMARKS); [done|].
  unfold mbind, M_bind. erewrite call_zone_ok by done. by rewrite (put_zone_id k i z).
Qed.

Lemma zonelist_scan_spec zs k alloc_flags idx :
  zones_ok k → NoDup zs → (∀ i, i ∈ zs → is_Some (zones k !! i)) →
  ∃ r k', zonelist_scan zs gfp order alloc_flags idx mt k = Ok r k' ∧ zones_ok k' ∧ zones_only k k' ∧
    match r with
    | Some p => ∃ i z, i ∈ zs ∧ zones k !! i = Some z ∧ admits alloc_flags idx i z = true ∧
                       handed_out k k' i p
    | None => same_unused k k'
    end.
Proof.
  intros Hk Hnd Hin.
  assert (∀ k0, zones_ok k0 → zones_only k k0 → same_unused k k0 →
    (∀ i, i ∈ zs → zones k0 !! i = zones k !! i) →
    ∃ r k', zonelist_scan zs gfp order alloc_flags idx mt k0 = Ok r k' ∧ zones_ok k' ∧ zones_only k k' ∧
      match r with
      | Some p => ∃ i z, i ∈ zs ∧ zones k !! i = Some z ∧ admits alloc_flags idx i z = true ∧
                         handed_out k k' i p
      | None => same_unused k k'
      end) as Hgen.
  { clear Hk. induction zs as [|i zs IH]; intros k0 Hk0 Ho0 Hs0 He0; simpl.
    { by exists None, k0. }
    apply NoDup_cons in Hnd as [Hni Hnd]. destruct (Hin i ltac:(left)) as [z Hz].
    assert (zones k0 !! i = Some z) as Hz0 by (rewrite He0; [done|left]).
    assert (∀ j, j ∈ zs → is_Some (zones k !! j)) as Hin' by (intros j ?; apply Hin; by right).
    specialize (IH Hnd Hin'). unfold mbind, M_bind. rewrite (try_zone_ok k0 i z) by done.
    destruct (admits alloc_flags idx i z) eqn:Ead.
    - destruct (zone_alloc k0 i z Hk0 Hz0) as (r & k1 & E & Hk1 & Ho1 & He1 & Hr). rewrite E.
      destruct r as [p|].
      + exists (Some p), k1. split_and!; [done|done|by eapply zones_only_trans|].
        exists i, z. split_and!; [left|done|done|]. destruct Hr as (? & Hu & ? & ?).
        split_and!; [done| |done|done]. intros j x. by rewrite <- (Hs0 j x).
      + destruct (IH k1) as (r & k2 & E2 & Hk2 & Ho2 & Hr2).
        * done.
        * by eapply zones_only_trans.
        * intros j x. by rewrite (Hr j x).
        * intros j Hj. rewrite He1 by (by intros ->). apply He0. by right.
        * exists r, k2. split_and!; [done|done|done|]. destruct r; [|done].
          destruct Hr2 as (j & y & ? & ?). exists j, y. split; [by right|done].
    - destruct (IH k0) as (r & k2 & E2 & Hk2 & Ho2 & Hr2); [done..|intros j Hj; apply He0; by right|].
      exists r, k2. split_and!; [done|done|done|]. destruct r; [|done].
      destruct Hr2 as (j & y & ? & ?). exists j, y. split; [by right|done]. }
  apply Hgen; [done|apply zones_only_refl|done|done].
Qed.
End Walk.

(** The zones of a list exist, each of them once. *)
Definition zonelist_ok k (zl hz : Z) (nm : option (list Z)) : Prop :=
  NoDup (zonelist_zones zl hz nm) ∧ ∀ i, i ∈ zonelist_zones zl hz nm → is_Some (zones k !! i).

Lemma freelist_spec gfp nm order zl hz flags pz z mt k :
  0 ≤ order < MAX_ORDER → 0 ≤ mt < MIGRATE_PCPTYPES → zones_ok k → zonelist_ok k zl hz nm →
  zones k !! pz = Some z →
  ∃ r k', get_page_from_freelist gfp nm order zl hz flags (Some pz) mt k = Ok r k' ∧
    zones_ok k' ∧ zones_only k k' ∧
    match r with
    | Some p => ∃ i y, i ∈ zonelist_zones zl hz nm ∧ zones k !! i = Some y ∧
                       admits gfp order flags (zone_idx z) i y = true ∧ handed_out order k k' i p
    | None => same_unused k k'
    end.
Proof.
  intros Hord Hmt Hk [Hnd Hin] Hpz. unfold get_page_from_freelist, mbind, M_bind. simpl.
  rewrite (call_zone_ok k pz z (gets zone_idx) (zone_idx z) z Hpz eq_refl), put_zone_id by done.
  by apply zonelist_scan_spec.
Qed.

(** ** Freeing *)

Hypothesis free_flags :
  Z.land PAGE_FLAGS_CHECK_AT_FREE PAGE_FLAGS_CHECK_AT_PREP = PAGE_FLAGS_CHECK_AT_FREE.

Lemma free_flags_clear f :
  has_flag f PAGE_FLAGS_CHECK_AT_PREP = false → has_flag f PAGE_FLAGS_CHECK_AT_FREE = false.
Proof.
  unfold has_flag. rewrite !negb_false_iff, !Z.eqb_eq. intros Hf.
  by rewrite <- free_flags, (Z.land_comm PAGE_FLAGS_CHECK_AT_FREE), Z.land_assoc, Hf, Z.land_0_l.
Qed.

Lemma put_last_ref z p :
  zone_ok z → page_ready z p → ¬ in_zone z p → _count (page_at z p) = 1 →
  ∃ z', put_page_testzero p z = Ok true z' ∧ zone_ok z' ∧ bounds z' = bounds z ∧
        same_memory z z' ∧ freeable z' p.
Proof.
  intros Hz (Hmc & Hoff & Hpl & Hb) Hnz Hc. unfold put_page_testzero, VM_BUG_ON, upd_page. mstep.
  rewrite Hc. simpl. set (z1 := z <| mem_map ::= _ |>).
  assert (page_at z1 p = (page_at z p) <| _count := 0 |>) as Hp1
    by (unfold z1; rewrite page_at_upd, Hc; reflexivity).
  destruct (touched_zone_ok buddy_value z (λ x, x = p) z1) as (Hz1 & Hb1 & Hs1);
    [done|by apply touched_upd|by intros x ->; rewrite Hp1|].
  assert (plain z1 p) as (Hcp & Hmap & Hfl & Hcg) by (unfold plain, PageCompound; rewrite Hp1; exact Hpl).
  exists z1. split_and!; [by rewrite Hp1|done|done|done|].
  split; [|by rewrite (Hs1 p)|done|by left|by apply free_flags_clear|done].
  by split_and!; [rewrite Hp1..| |].
Qed.

Lemma free_spec k p z :
  zones_ok k → zones k !! page_zone p = Some z → page_ready z p → ¬ in_zone z p →
  _count (page_at z p) = 1 →
  ∃ k', __free_pages p 0 k = Ok tt k' ∧ zones_ok k' ∧ zones_only k k' ∧
        ∀ j x, unused k' j x ↔ unused k j x ∨ (j = page_zone p ∧ x = p).
Proof.
  intros Hk Hi Hrd Hnz Hc. destruct (Hk _ _ Hi) as (Hz & _).
  destruct (put_last_ref z p Hz Hrd Hnz Hc) as (z1 & E1 & Hz1 & Hb1 & Hs1 & Hfr).
  destruct (hot_cold_spec buddy_value z1 p false Hz1 Hfr some_order) as (z2 & E2 & Hz2 & Hb2 & Hx2).
  exists (put_zone k (page_zone p) z2). split_and!.
  - unfold __free_pages. eapply call_zone_ok; [done|]. unfold mbind, M_bind. by rewrite E1.
  - eapply put_zone_ok; [done|done|done|]. congruence.
  - by eapply put_zone_only.
  - intros j x. rewrite (put_zone_unused k _ z) by done.
    destruct (decide (j = page_zone p)) as [->|]; [|tauto].
    rewrite (unused_at k _ z), Hx2, (Hs1 x) by done. tauto.
Qed.

(** C5. The walk over the zonelist: with all zones consistent,
    [get_page_from_freelist] returns and keeps them consistent, touching nothing
    else.  A block it returns is aligned, has one reference, was unused before
    and leaves exactly its pages out of the unused memory of one zone of the
    list, a zone that the cpuset, the dirty limit and the watermark chosen by
    [alloc_flags] admit.  When it returns NULL, the unused memory is unchanged. *)
Theorem get_page_from_freelist_correct gfp nm order zl hz flags pz z mt k :
  0 ≤ order < MAX_ORDER → 0 ≤ mt < MIGRATE_PCPTYPES → zones_ok k → zonelist_ok k zl hz nm →
  zones k !! pz = Some z →
  ∃ r k', get_page_from_freelist gfp nm order zl hz flags (Some pz) mt k = Ok r k' ∧
    zones_ok k' ∧ zones_only k k' ∧
    match r with
    | Some p => ∃ i y, i ∈ zonelist_zones zl hz nm ∧ zones k !! i = Some y ∧
                       admits gfp order flags (zone_idx z) i y = true ∧ handed_out order k k' i p
    | None => same_unused k k'
    end.
Proof. apply freelist_spec. Qed.

(** C6. Allocating a page and freeing it: [__free_pages] of the page
    [get_page_from_freelist] returned drops the last reference, takes the page
    back into its zone and restores the unused memory of every zone. *)
Theorem alloc_free_pages_roundtrip gfp nm zl hz flags pz z mt k p k' :
  0 ≤ mt < MIGRATE_PCPTYPES → zones_ok k → zonelist_ok k zl hz nm → zones k !! pz = Some z →
  get_page_from_freelist gfp nm 0 zl hz flags (Some pz) mt k = Ok (Some p) k' →
  ∃ k'', __free_pages p 0 k' = Ok tt k'' ∧ zones_ok k'' ∧ zones_only k k'' ∧ same_unused k k''.
Proof.
  intros Hmt Hk Hzl Hpz E.
  destruct (freelist_spec gfp nm 0 zl hz flags pz z mt k) as (r & k1 & E1 & Hk1 & Ho1 & Hr); [lia|done..|].
  rewrite E in E1. simplify_eq. destruct Hr as (i & y & _ & _ & _ & _ & Hx & Hn & z1 & Hz1 & Hpi & Hc & Hrd).
  specialize (Hrd eq_refl). subst i.
  destruct (free_spec k1 p z1) as (k2 & E2 & Hk2 & Ho2 & Hx2); [done|done|done| |done|].
  { rewrite <- (unused_at k1 (page_zone p)) by done. apply Hn. by apply covers_0. }
  exists k2. split_and!; [done|done|by eapply zones_only_trans|].
  intros j x. rewrite Hx2, Hx, covers_0. tauto.
Qed.
End Memory.

(** ** The per-user limit *)

Section Limit.
Context {L1 L2 X : Type} `{!KList lhead L1} `{!KList (Z * Z) L2} `{!KListLaws (Z * Z) L2}.
Context `{!UserKernel X} `{!BuddyConfig, !ZoneEnv, !OomEnv} `{!AllocEnv L1 L2 X}.
Variable UIDHASH_BITS : Z.
Implicit Types w : world L2 X.

(** Replace the user behind the pointer [q]. *)
Definition set_user w (q : Z) (u : user_struct) : world L2 X :=
  w <| ucache := (ucache w) <| users := <[q := u]> (users (ucache w)) |> |>.

Lemma set_user_again w q u u' : set_user (set_user w q u) q u' = set_user w q u'.
Proof. unfold set_user. destruct w as [? ? ? ? ? ? [] ? ?]. unfold modify_field; simpl. by rewrite insert_insert_eq. Qed.

Lemma set_user_lookup w q u : users (ucache (set_user w q u)) !! q = Some u.
Proof. simpl. apply lookup_insert_eq. Qed.

(** Bytes of a block, as the code computes them. *)
Definition block_bytes (order : Z) : Z := 2 ^ order * PAGE_SIZE.

Lemma block_bytes_bound order : 0 ≤ order ≤ 18 → 0 < block_bytes order ≤ 2 ^ 30.
Proof.
  intros Ho. unfold block_bytes, PAGE_SIZE.
  assert (1 ≤ 2 ^ order ≤ 2 ^ 18)
    by (split; [apply (Z.pow_le_mono_r 2 0); lia|apply Z.pow_le_mono_r; lia]). lia.
Qed.

Lemma required_bytes order : 0 ≤ order ≤ 18 → u32 (s32 (Z.shiftl 1 order)) * PAGE_SIZE = block_bytes order.
Proof.
  intros Ho. rewrite Z.shiftl_1_l. unfold block_bytes.
  assert (1 ≤ 2 ^ order ≤ 2 ^ 18)
    by (split; [apply (Z.pow_le_mono_r 2 0); lia|apply Z.pow_le_mono_r; lia]).
  rewrite swrap_small, uwrap_small by (widths; lia). done.
Qed.

(** The test and the charge without wrap-around. *)
Lemma over_limit_spec u order :
  0 ≤ order ≤ 18 → 0 ≤ mem_max u < 2 ^ 31 → 0 ≤ cumulative_mem u < 2 ^ 31 →
  over_limit u order = (mem_max u <? cumulative_mem u + block_bytes order).
Proof.
  intros Ho Hm Hc. pose proof (block_bytes_bound order Ho). unfold over_limit.
  rewrite required_bytes by done. rewrite !uwrap_small by (widths; lia). done.
Qed.

Lemma charge_spec u order :
  0 ≤ order ≤ 18 → 0 ≤ cumulative_mem u → cumulative_mem u + block_bytes order < 2 ^ 31 →
  charge u order = u <| cumulative_mem := cumulative_mem u + block_bytes order |>.
Proof.
  intros Ho Hc Hs. pose proof (block_bytes_bound order Ho). unfold charge.
  rewrite required_bytes by done. rewrite uwrap_small, swrap_small by (widths; lia). done.
Qed.

Definition owned_count w (ps : list Z) : Z :=
  Z.of_nat (length (List.filter (owned w (user w)) ps)).

(** Below the limit every process of the user is charged for the block. *)
Lemma limit_processes_below w q u gfp order zl nm ps :
  (∀ p, p ∈ ps → is_Some (tasks w !! p)) → 0 ≤ order ≤ 18 → mem_max u < 2 ^ 31 →
  0 ≤ cumulative_mem u → cumulative_mem u + owned_count w ps * block_bytes order ≤ mem_max u →
  limit_processes UIDHASH_BITS ps (Some q) gfp order zl nm (set_user w q u)
  = Ok true (set_user w q (u <| cumulative_mem := cumulative_mem u + owned_count w ps * block_bytes order |>)).
Proof.
  revert u. induction ps as [|p ps IH]; intros u Hps Ho Hm Hc Hle.
  { simpl. rewrite Z.add_0_r. by destruct u. }
  pose proof (block_bytes_bound order Ho) as Hbb.
  destruct (Hps p ltac:(left)) as [t Ht].
  assert (∀ x, x ∈ ps → is_Some (tasks w !! x)) as Hps' by (intros x ?; apply Hps; by right).
  simpl. unfold mbind, M_bind. rewrite (load_task_ok _ p t) by done. unfold gets. simpl.
  unfold owned_count in *. simpl in *. assert (owned w (user w) p = (cred_uid t =? user w)) as Eo by (unfold owned; by rewrite Ht).
  rewrite Eo in *.
  destruct (cred_uid t =? user w) eqn:Eown; [|by apply IH].
  simpl in Hle. rewrite (load_usr_ok _ q u) by apply set_user_lookup.
  set (n := Z.of_nat (length (List.filter (owned w (user w)) ps))) in *.
  assert (0 ≤ n) as Hn by lia.
  replace (Z.of_nat (S (length (List.filter (owned w (user w)) ps)))) with (n + 1) in * by lia.
  rewrite over_limit_spec by lia. destruct (Z.ltb_spec (mem_max u) (cumulative_mem u + block_bytes order)); [nia|].
  rewrite (store_usr_ok _ q _ u) by apply set_user_lookup.
  match goal with |- context [limit_processes _ _ _ _ _ _ _ ?s] =>
    change s with (set_user (set_user w q u) q (charge u order)) end.
  rewrite set_user_again, charge_spec by nia. rewrite IH by (simpl; (done || nia)).
  do 2 f_equal. simpl. destruct u; unfold modify_field; simpl. f_equal. lia.
Qed.

(** C12. The limit check charges a block once per process: while the user of the
    limit stays below it, the check lets the allocation go on, takes a
    reference to the user that is never dropped, and adds the size of the block
    to [cumulative_mem] once for every process of the user in the task list,
    not once per allocation. *)
Theorem limit_charges_each_process w refs q u gfp order zl nm :
  world_wf w → cache_inv UIDHASH_BITS (users (ucache w)) (uidhash_table (ucache w)) refs →
  uidhash_lock (ucache w) = false → start w = 1 → user w ≠ 0 →
  users (ucache w) !! q = Some u → matches (current_user_ns (ext (ucache w))) (user w) u →
  mem_max u ≠ -1 → 0 ≤ order ≤ 18 → mem_max u < 2 ^ 31 → 0 ≤ cumulative_mem u →
  cumulative_mem u + owned_count w (TaskWorld.processes w) * block_bytes order ≤ mem_max u →
  check_limit UIDHASH_BITS gfp order zl nm w
  = Ok true (set_user w q ((bump u) <| cumulative_mem :=
      cumulative_mem u + owned_count w (TaskWorld.processes w) * block_bytes order |>)).
Proof.
  intros Hwf Hi Hl Hst Hu Hq Hm Hlim Ho Hmax Hc Hle.
  unfold check_limit, mbind, M_bind, get. rewrite Hst. simpl.
  apply Z.eqb_neq in Hu. rewrite Hu.
  rewrite (find_user_world UIDHASH_BITS w refs (user w) q u Hi Hl Hq Hm).
  change (take_ref w q u) with (set_user w q (bump u)).
  rewrite (load_usr_ok _ q (bump u)) by apply set_user_lookup.
  change (mem_max (bump u)) with (mem_max u). apply Z.eqb_neq in Hlim. rewrite Hlim.
  apply (limit_processes_below w q (bump u)); [by apply Hwf|done..].
Qed.

Lemma limit_processes_locked w q u gfp order zl nm ps1 p ps2 :
  (∀ x, x ∈ ps1 ++ p :: ps2 → is_Some (tasks w !! x)) →
  (∀ x, x ∈ ps1 → owned w (user w) x = false) → owned w (user w) p = true →
  users (ucache w) !! q = Some u → over_limit u order = true →
  existsb (zone_is_oom_locked w) (zonelist_zones zl (gfp_zone gfp) None) = true →
  limit_processes UIDHASH_BITS (ps1 ++ p :: ps2) (Some q) gfp order zl nm w = Ok false w.
Proof.
  intros Hps H1' Hp Hq Hov Hlk. induction ps1 as [|y ps1 IH]; simpl.
  - destruct (Hps p ltac:(left)) as [t Ht]. unfold owned in Hp. rewrite Ht in Hp.
    unfold mbind, M_bind. rewrite (load_task_ok _ p t) by done. unfold gets. rewrite Hp.
    rewrite (load_usr_ok _ q u) by done. rewrite Hov.
    unfold try_set_zonelist_oom, try_set_zones_oom, mbind, M_bind, get. by rewrite Hlk.
  - destruct (Hps y ltac:(left)) as [t Ht]. pose proof (H1' y ltac:(left)) as Hy.
    unfold owned in Hy. rewrite Ht in Hy.
    unfold mbind, M_bind. rewrite (load_task_ok _ y t) by done. unfold gets. rewrite Hy.
    apply IH; [intros x ?; apply Hps; by right|intros x ?; apply H1'; by right].
Qed.

(** At the limit while an OOM kill runs: when the limited user has a process
    and the block does not fit, and a zone of the zonelist is locked by an OOM
    kill in progress, [__alloc_pages_nodemask] returns NULL without looking at
    any zone; nothing changes but the reference to the user it takes. *)
Theorem limit_refuses_during_oom k refs q u fuel slow gfp order zl nm ps1 p ps2 :
  let w := wld k in
  world_wf w → cache_inv UIDHASH_BITS (users (ucache w)) (uidhash_table (ucache w)) refs →
  uidhash_lock (ucache w) = false → start w = 1 → user w ≠ 0 →
  users (ucache w) !! q = Some u → matches (current_user_ns (ext (ucache w))) (user w) u →
  mem_max u ≠ -1 → 0 ≤ order ≤ 18 → 0 ≤ mem_max u < 2 ^ 31 → 0 ≤ cumulative_mem u < 2 ^ 31 →
  mem_max u < cumulative_mem u + block_bytes order →
  TaskWorld.processes w = ps1 ++ p :: ps2 →
  (∀ x, x ∈ ps1 → owned w (user w) x = false) → owned w (user w) p = true →
  existsb (zone_is_oom_locked w) (zonelist_zones zl (gfp_zone gfp) None) = true →
  __alloc_pages_nodemask UIDHASH_BITS fuel slow gfp order zl nm k
  = Ok None (k <| wld := set_user w q (bump u) |>).
Proof.
  intros w Hwf Hi Hl Hst Hu Hq Hm Hlim Ho Hmax Hc Hov Hps H1' Hp Hlk.
  unfold __alloc_pages_nodemask, call_world. unfold mbind at 1, M_bind at 1.
  assert (check_limit UIDHASH_BITS gfp order zl nm w = Ok false (set_user w q (bump u))) as E.
  { unfold check_limit, mbind, M_bind, get. rewrite Hst. simpl. apply Z.eqb_neq in Hu. rewrite Hu.
    rewrite (find_user_world UIDHASH_BITS w refs (user w) q u Hi Hl Hq Hm).
    change (take_ref w q u) with (set_user w q (bump u)).
    rewrite (load_usr_ok _ q (bump u)) by apply set_user_lookup.
    change (mem_max (bump u)) with (mem_max u). apply Z.eqb_neq in Hlim. rewrite Hlim, Hps.
    apply (limit_processes_locked _ q (bump u)); try done.
    - intros x Hx. apply Hwf. by rewrite Hps.
    - apply set_user_lookup.
    - rewrite over_limit_spec by done. apply Z.ltb_lt. done. }
  fold w. rewrite E. done.
Qed.
End Limit.

(** ** The slow path *)

Section Slow.
Context {L1 L2 X : Type} `{!EqDecision lhead} `{!KList lhead L1} `{!KListLaws lhead L1}.
Context `{!KList (Z * Z) L2} `{!UserKernel X}.
Context `{!BuddyConfig, !ZoneEnv, !OomEnv} `{!AllocEnv L1 L2 X}.
Variable UIDHASH_BITS : Z.
Hypothesis buddy_value : PAGE_BUDDY_MAPCOUNT_VALUE ≠ -1.
Hypothesis block_order : 0 ≤ pageblock_order.
Hypothesis some_order : 0 < MAX_ORDER.
Implicit Types k : kernel L1 L2 X.
Variables (gfp order zl hz mt : Z) (nm : option (list Z)).

(** An attempt: a block handed out, or the unused memory as before; tasks, users
    and the OOM locks are as before. *)
Definition attempt_ok k (r : option Z) k' : Prop :=
  zones_ok k' ∧ zones_only k k' ∧
  match r with
  | Some p => ∃ i, i ∈ zonelist_zones zl hz nm ∧ handed_out order k k' i p
  | None => same_unused k k'
  end.

Lemma attempt_trans k1 k2 r k3 :
  attempt_ok k1 None k2 → attempt_ok k2 r k3 → attempt_ok k1 r k3.
Proof.
  intros (_ & Ho & Hs) (Hk & Ho' & Hr). split_and!; [done|by eapply zones_only_trans|].
  destruct r as [p|].
  - destruct Hr as (i & Hi & Ha & Hu & Hn & Hz). exists i. split; [done|]. split_and!; [done| |done|done].
    intros j x. by rewrite <- (Hs j x).
  - intros j x. by rewrite (Hr j x).
Qed.

Lemma attempt_list k r k' : attempt_ok k r k' → ∀ m, zonelist_ok k zl hz m → zonelist_ok k' zl hz m.
Proof. intros (_ & [_ Ho] & _) m [Hnd Hin]. split; [done|]. intros i Hi. by apply Ho, Hin. Qed.

Lemma attempt k flags pz :
  0 ≤ order < MAX_ORDER → 0 ≤ mt < MIGRATE_PCPTYPES → zones_ok k → zonelist_ok k zl hz nm →
  is_Some (zones k !! pz) →
  ∃ r k', get_page_from_freelist gfp nm order zl hz flags (Some pz) mt k = Ok r k' ∧ attempt_ok k r k'.
Proof.
  intros Hord Hmt Hk Hzl [z Hz].
  destruct (freelist_spec buddy_value block_order some_order gfp nm order zl hz flags pz z mt k)
    as (r & k' & E & Hk' & Ho & Hr); [done..|].
  exists r, k'. split; [done|]. split_and!; [done|done|]. destruct r; [|done].
  destruct Hr as (i & y & ? & _ & _ & ?). eauto.
Qed.

(** Waking kswapd leaves the state of this code alone. *)
Definition kswapd_passive : Prop := ∀ i o c k, wakeup_kswapd i o c k = Ok tt k.

Lemma wake_ok k c : kswapd_passive → wake_all_kswapd order zl hz c k = Ok tt k.
Proof.
  intros Hw. unfold wake_all_kswapd. induction (zonelist_zones zl hz None) as [|i l IH]; [done|].
  simpl. unfold mbind, M_bind. by rewrite Hw.
Qed.

Lemma slow_restart_ok k l pz t h :
  kswapd_passive → sl_preferred l = Some pz → is_Some (zones k !! pz) →
  tasks (wld k) !! current = Some t →
  head (zonelist_zones zl hz None) = Some h → is_Some (zones k !! h) →
  ∃ l' q, slow_restart gfp order zl hz nm l k = Ok l' k ∧
    sl_flags l' = gfp_to_alloc_flags t gfp ∧ sl_preferred l' = Some q ∧ is_Some (zones k !! q).
Proof.
  intros Hw Hp [z Hz] Ht Hh Hzh. unfold slow_restart.
  match goal with |- context [(_ ← ?m; _) k] => assert (m k = Ok tt k) as E end.
  { destruct (negb _); [|done]. rewrite Hp. unfold mbind, M_bind. simpl.
    rewrite (call_zone_ok k pz z (gets zone_idx) (zone_idx z) z Hz eq_refl), put_zone_id by done.
    by apply wake_ok. }
  unfold mbind at 1, M_bind at 1. rewrite E. unfold mbind, M_bind, call_world.
  rewrite (load_task_ok _ _ t Ht). simpl. replace (k <| wld := wld k |>) with k by (by destruct k).
  eexists _, (if negb (has_flag (gfp_to_alloc_flags t gfp) ALLOC_CPUSET) && bool_decide (nm = None)
              then h else pz). split; [reflexivity|]. split; [done|]. simpl.
  destruct (negb _ && _); split; try done; by eexists.
Qed.

(** Atomic allocations: without [__GFP_WAIT] and [__GFP_NOFAIL] the slow path
    makes one pass, whatever reclaim and compaction do: it never reclaims,
    compacts, or invokes the OOM killer, and tasks, users and OOM locks are as
    before.  It returns a block of a zone of the list, or NULL with the unused
    memory unchanged. *)
Theorem atomic_slowpath k pz t h fuel :
  has_flag gfp GFP_WAIT = false → has_flag gfp GFP_NOFAIL = false → kswapd_passive →
  0 ≤ order < MAX_ORDER → 0 ≤ mt < MIGRATE_PCPTYPES → zones_ok k → zonelist_ok k zl hz nm →
  is_Some (zones k !! pz) → tasks (wld k) !! current = Some t →
  head (zonelist_zones zl hz None) = Some h → is_Some (zones k !! h) →
  ∃ r k', __alloc_pages_slowpath UIDHASH_BITS gfp order zl hz nm mt (S fuel) (Some pz) k = Ok r k' ∧
          attempt_ok k r k'.
Proof.
  intros Hnw Hnf Hw Hord Hmt Hk Hzl Hpz Ht Hh Hzh. unfold __alloc_pages_slowpath.
  destruct (Z.leb_spec MAX_ORDER order); [lia|]. cbn [slow_loop].
  destruct (slow_restart_ok k (mkLocals (Some pz) 0 0 false false) pz t h)
    as (l & q & E & Hfl & Hq & Hzq); [done..|].
  unfold mbind at 1, M_bind at 1. rewrite E. unfold slow_rebalance. rewrite Hq.
  destruct (attempt k (Z.ldiff (sl_flags l) ALLOC_NO_WATERMARKS) q) as (r & k1 & E1 & Ha1); [done..|].
  unfold mbind, M_bind. rewrite E1. destruct r as [p|]; [by exists (Some p), k1|].
  assert (tasks (wld k1) !! current = Some t) as Ht1 by (by destruct Ha1 as (_ & [[zs ->] _] & _)).
  assert (is_Some (zones k1 !! q)) as Hzq1 by (destruct Ha1 as (_ & [_ Ho] & _); by apply Ho).
  destruct (attempt k1 ALLOC_NO_WATERMARKS q) as (r & k2 & E2 & Ha2);
    [done|done|by destruct Ha1|by eapply attempt_list|done|].
  assert (∃ r' k', (if has_flag (sl_flags l) ALLOC_NO_WATERMARKS
      then __alloc_pages_high_priority (S fuel) gfp order zl hz nm (Some q) mt else mret None) k1 = Ok r' k' ∧
    attempt_ok k1 r' k') as (r' & k3 & E3 & Ha3).
  { destruct (has_flag (sl_flags l) ALLOC_NO_WATERMARKS).
    - simpl. unfold mbind, M_bind. rewrite E2. exists r, k2. split; [|done]. destruct r; [done|]. by rewrite Hnf.
    - exists None, k1. split; [done|]. destruct Ha1 as (? & _). split_and!; [done|apply zones_only_refl|done]. }
  rewrite E3. pose proof (attempt_trans k k1 r' k3 Ha1 Ha3) as Ha.
  destruct r' as [p|]; [by exists (Some p), k3|].
  assert (tasks (wld k3) !! current = Some t) as Ht3 by (by destruct Ha as (_ & [[zs ->] _] & _)).
  unfold call_world. rewrite (load_task_ok _ _ t Ht3), Hnw. simpl.
  exists None, k3. split; [|done]. by destruct k3.
Qed.

End Slow.

Section NoRetry.
Context {L1 L2 X : Type} `{!KList lhead L1} `{!KList (Z * Z) L2} `{!UserKernel X}.
Context `{!BuddyConfig, !ZoneEnv, !OomEnv} `{!AllocEnv L1 L2 X}.
Variable UIDHASH_BITS : Z.
Variables (gfp order zl hz mt : Z) (nm : option (list Z)).
Implicit Types k : kernel L1 L2 X.

(** Where a pass goes on when retries are excluded. *)
Definition finished (g : slow_goto) : Prop :=
  match g with got_pg _ | nopage => True | _ => False end.

Lemma noretry_finished n l k g k' :
  has_flag gfp GFP_NORETRY = true →
  slow_rebalance UIDHASH_BITS gfp order zl hz nm mt n l k = Ok g k' → finished g.
Proof.
  intros Hnr. unfold slow_rebalance, slow_balance, slow_no_page, should_alloc_retry, mbind, M_bind, mret, M_ret.
  rewrite Hnr. simpl. intros E.
  repeat (case_match; rewrite ?andb_false_r in *; simplify_eq; try done).
Qed.

(** No retry: with [__GFP_NORETRY] the body of the slow path runs once,
    whatever reclaim and compaction report: one iteration is enough for the
    loop over [restart] and [rebalance], more of them change nothing, and no
    pass ends by asking for another. *)
Theorem noretry_single_pass n fuel k l again :
  has_flag gfp GFP_NORETRY = true →
  slow_loop UIDHASH_BITS gfp order zl hz nm mt n (S fuel) again l k
  = slow_loop UIDHASH_BITS gfp order zl hz nm mt n 1 again l k ∧
  ∀ g k', slow_rebalance UIDHASH_BITS gfp order zl hz nm mt n l k = Ok g k' → finished g.
Proof.
  intros Hnr. split; [|intros g k'; by apply noretry_finished]. cbn [slow_loop]. unfold mbind, M_bind.
  destruct ((if again then slow_restart gfp order zl hz nm l else mret l) k) as [l1 k1|]; [|done].
  destruct (slow_rebalance UIDHASH_BITS gfp order zl hz nm mt n l1 k1) as [g k2|] eqn:E; [|done].
  apply noretry_finished in E; [|done]. by destruct g.
Qed.
End NoRetry.

(** ** A small machine: the zone of [PcpSpec.v], the tasks of [OomKill.v] *)

#[local] Instance machine_env : OomEnv := {
  CONFIG_NUMA := false;
  current := 7;
  is_global_init p := p =? 1;
  task_in_mem_cgroup _ _ := true;
  mempolicy_nodemask_intersects _ _ := true;
  cpuset_mems_allowed_intersects _ _ := true;
  has_capability_sys_admin _ := false;
  oom_notify_freed := 0;
  totalram_pages := 8;
  total_swap_pages := 0;
  node_spanned_pages _ := 8;
  N_HIGH_MEMORY_nodes := [0];
  cpuset_current_mems_allowed := [0];
  gfp_zone _ := 1;
  zonelist_zones _ _ _ := [0];
  cpuset_zone_allowed_softwall _ _ := true;
  populated_zones := [0];
  mem_cgroup_get_limit _ := 0;
  ratelimit_ok := true;
  GFP_THISNODE_flag := 262144;
  PT_TRACE_EXIT := 64;
  sysctl_panic_on_oom := 0;
  sysctl_oom_kill_allocating_task := 0;
  sysctl_oom_dump_tasks := 1
}.

Abbreviation lists1 := (gmap lhead (list Z)).
Abbreviation lists2 := (gmap (Z * Z) (list Z)).

#[local] Instance machine_alloc : AllocEnv lists1 lists2 Z := {
  GFP_WAIT := 16; GFP_HIGH := 32; GFP_FS := 128; GFP_IOFS := 192; GFP_NOFAIL := 2048;
  GFP_NORETRY := 4096; GFP_REPEAT := 1024; GFP_NOMEMALLOC := 65536; GFP_HARDWALL := 131072;
  GFP_NO_KSWAPD := 4194304; GFP_WRITE := 16777216; GFP_HIGHMEM := 2;
  ALLOC_CPUSET := 64; ALLOC_NO_WATERMARKS := 4;
  PF_MEMALLOC := 2048; PF_DUMPCORE := 512;
  PAGE_ALLOC_COSTLY_ORDER := 3; ZONE_NORMAL := 0;
  allocflags_to_migratetype _ := MIGRATE_UNMOVABLE;
  zone_dirty_ok _ := true;
  in_interrupt := false;
  rt_task _ := false;
  oom_killer_disabled := false;
  mems_stable _ := true;
  CONFIG_FAIL_PAGE_ALLOC := None;
  should_fail _ := false;
  CONFIG_COMPACTION := false;
  COMPACT_SKIPPED := 0;
  compaction_deferred _ _ := mret false;
  try_to_compact_pages _ _ _ _ _ := mret 0;
  defer_compaction _ _ := mret tt;
  try_to_free_pages _ _ _ _ := mret 0;
  wakeup_kswapd _ _ _ := mret tt;
  page_address p := p * PAGE_SIZE;
  virt_to_page a := a / PAGE_SIZE;
  virt_addr_valid _ := true;
  zonelist_empty _ := false;
  node_zonelist _ := 1;
  get_order _ := 0
}.

Definition machine : kernel lists1 lists2 Z :=
  mkKernel {[0 := demo_pcp]} (oom_world 40960 1000) 4294967295 0.

Lemma machine_zones : zones_ok machine.
Proof.
  intros i z Hi. simpl in Hi. apply lookup_singleton_Some in Hi as [<- <-].
  split_and!; [apply demo_pcp_ok|apply demo_contiguous|by vm_compute].
Qed.

Lemma machine_list zl hz nm : zonelist_ok machine zl hz nm.
Proof.
  split; [apply NoDup_singleton|]. intros i ->%list_elem_of_singleton. by eexists.
Qed.

Lemma demo_pageblock : 0 ≤ pageblock_order.
Proof. done. Qed.

Lemma demo_max_order : 0 < MAX_ORDER.
Proof. done. Qed.

Lemma get_page_from_freelist_correct_witness :
  ∃ r k', get_page_from_freelist 0 None 1 1 1 4 (Some 0) MIGRATE_MOVABLE machine = Ok r k' ∧ zones_ok k'.
Proof.
  destruct (get_page_from_freelist_correct demo_value demo_pageblock demo_max_order
    0 None 1 1 1 4 0 demo_pcp MIGRATE_MOVABLE machine) as (r & k' & E & Hk & _);
    [by vm_compute|by vm_compute|apply machine_zones|apply machine_list|done|].
  by exists r, k'.
Defined.

Lemma alloc_free_pages_roundtrip_witness :
  ∃ k', __free_pages 0 0 (res_state (get_page_from_freelist 0 None 0 1 1 4 (Some 0)
          MIGRATE_UNMOVABLE machine)) = Ok tt k' ∧ same_unused machine k'.
Proof.
  destruct (alloc_free_pages_roundtrip demo_value demo_pageblock demo_max_order eq_refl
    0 None 1 1 4 0 demo_pcp MIGRATE_UNMOVABLE machine 0
    (res_state (get_page_from_freelist 0 None 0 1 1 4 (Some 0) MIGRATE_UNMOVABLE machine)))
    as (k' & E & _ & _ & Hs);
    [by vm_compute|apply machine_zones|apply machine_list|done|vm_compute; reflexivity|].
  by exists k'.
Defined.

(** Two processes of user 1000: a single page is charged twice. *)
Lemma limit_charges_each_process_witness :
  ∃ w', check_limit 3 0 0 1 None (oom_world 40960 1000) = Ok true w' ∧
        cumulative_mem <$> (users (ucache w') !! 100) = Some 8192.
Proof.
  eexists. split.
  - apply (limit_charges_each_process 3 (oom_world 40960 1000) [100; root_user; root_user] 100
      ((fresh_user init_user_ns 1000) <| mem_max := 40960 |>) 0 0 1 None
      (oom_world_wf _ _) (oom_world_cache _ _)); done || by split.
  - rewrite set_user_lookup. by vm_compute.
Defined.

Definition locked_world : world lists2 Z := (oom_world 1024 1000) <| oom_locked := {[0 := true]} |>.

Definition locked_machine : kernel lists1 lists2 Z :=
  mkKernel {[0 := demo_pcp]} locked_world 4294967295 0.

Lemma locked_world_wf : world_wf locked_world.
Proof. destruct (oom_world_wf 1024 1000) as [? ? ? ? ? ?]. by split. Qed.

Lemma limit_refuses_during_oom_witness :
  __alloc_pages_nodemask 3 1 1 0 0 1 None locked_machine
  = Ok None (locked_machine <| wld := set_user locked_world 100
      (bump ((fresh_user init_user_ns 1000) <| mem_max := 1024 |>)) |>).
Proof.
  apply (limit_refuses_during_oom 3 locked_machine [100; root_user; root_user] 100
    ((fresh_user init_user_ns 1000) <| mem_max := 1024 |>) 1 1 0 0 1 None [] 7 [8; 9]
    locked_world_wf (oom_world_cache 1024 1000)); try done; try by split.
  intros x Hx. by apply elem_of_nil in Hx.
Defined.

Lemma atomic_slowpath_witness :
  ∃ r k', __alloc_pages_slowpath 3 0 0 1 1 None MIGRATE_UNMOVABLE 1 (Some 0) machine = Ok r k' ∧
          zones_only machine k'.
Proof.
  destruct (atomic_slowpath 3 demo_value demo_pageblock demo_max_order 0 0 1 1 MIGRATE_UNMOVABLE None
    machine 0 (mkTask 0 0 0 7 (Some 70) 700 1000 100 7 [7] [] false false false) 0 0)
    as (r & k' & E & _ & Ho & _);
    [done|done|done|done|done|apply machine_zones|apply machine_list|by eexists|done|done|by eexists|].
  by exists r, k'.
Defined.

Lemma noretry_single_pass_witness :
  slow_loop 3 4096 0 1 1 None MIGRATE_UNMOVABLE 1 5 true (mkLocals (Some 0) 0 0 false false) machine
  = slow_loop 3 4096 0 1 1 None MIGRATE_UNMOVABLE 1 1 true (mkLocals (Some 0) 0 0 false false) machine.
Proof. apply (noretry_single_pass 3 4096 0 1 1 MIGRATE_UNMOVABLE None 1 4). reflexivity. Defined.
