(* ===== verification/PageBlock.v ===== *)
(** * The bitmap of the page blocks: [hw5/mm/page_alloc.c], lines 5557 to 5632

    A zone keeps a few bits for each of its page blocks, among them the migrate type.
    [Buddy.v] has the types as a map by page block; here is the bitmap the code keeps
    them in, and that reading and writing it is reading and writing that map.

    The bitmap is the integer of its bits; memory is not sparse (CONFIG_SPARSEMEM is
    off on the machine of the repository). *)

From S2P Require Import Prelude.

(** The zone as the bitmap needs it. *)
Record pb_zone : Type := mkPbZone {
  pb_start_pfn : Z;
  pb_spanned : Z;
  pageblock_flags : Z
}.
#[export] Instance pb_zone_eta : Settable pb_zone := λ r,
  mkPbZone (pb_start_pfn r) (pb_spanned r) (pageblock_flags r).

Section PageBlock.
Variables (block_order NR_PAGEBLOCK_BITS : Z).
Implicit Types (z : pb_zone) (pfn : Z).

Definition block_pages : Z := Z.shiftl 1 block_order.

(** [round_down] to a power of two. *)
Definition round_down (x y : Z) : Z := Z.ldiff x (y - 1).

Definition get_pageblock_bitmap z : Z := pageblock_flags z.

(** An [int]. *)
Definition pfn_to_bitidx z pfn : Z :=
  s32 (u32 (Z.shiftr (u32 (pfn - round_down (pb_start_pfn z) block_pages)) block_order * NR_PAGEBLOCK_BITS)).

(** The loop of [get_pageblock_flags_group]; [n] bits are left. *)
Fixpoint get_flags_loop (n : nat) (bitmap bit value flags : Z) : Z :=
  match n with
  | O => flags
  | S n' =>
      get_flags_loop n' bitmap (bit + 1) (u32 (Z.shiftl value 1))
        (if Z.testbit bitmap bit then Z.lor flags value else flags)
  end.

Definition get_pageblock_flags_group z pfn (start_bitidx end_bitidx : Z) : Z :=
  let bitmap := get_pageblock_bitmap z in
  let bitidx := u32 (pfn_to_bitidx z pfn) in
  get_flags_loop (Z.to_nat (end_bitidx - start_bitidx + 1)) bitmap (bitidx + start_bitidx) 1 0.

Fixpoint set_flags_loop (n : nat) (bitmap bit value flags : Z) : Z :=
  match n with
  | O => bitmap
  | S n' =>
      set_flags_loop n' (if has_flag flags value then Z.setbit bitmap bit else Z.clearbit bitmap bit)
        (bit + 1) (u32 (Z.shiftl value 1)) flags
  end.

Definition set_pageblock_flags_group (flags pfn start_bitidx end_bitidx : Z) : M pb_zone unit :=
  z ← get;
  let bitmap := get_pageblock_bitmap z in
  let bitidx := u32 (pfn_to_bitidx z pfn) in
  if pfn <? pb_start_pfn z then fail BugOn
  else if pb_start_pfn z + pb_spanned z <=? pfn then fail BugOn
  else
    modify (λ z, z <| pageblock_flags :=
      set_flags_loop (Z.to_nat (end_bitidx - start_bitidx + 1)) bitmap (bitidx + start_bitidx) 1 flags |>).

(** ** Bits *)

Lemma next_value k : 0 ≤ k < 32 → u32 (Z.shiftl (u32 (2 ^ k)) 1) = u32 (2 ^ (k + 1)).
Proof.
  intros Hk. rewrite Z.shiftl_mul_pow2 by lia. change (2 ^ 1) with 2.
  rewrite (uwrap_small 32 (2 ^ k)) by (split; [apply Z.pow_nonneg|apply Z.pow_lt_mono_r]; lia).
  by rewrite Z.pow_add_r by lia.
Qed.

Lemma value_bit k : 0 ≤ k < 32 → u32 (2 ^ k) = 2 ^ k.
Proof. intros Hk. apply uwrap_small. split; [apply Z.pow_nonneg|apply Z.pow_lt_mono_r]; lia. Qed.

Lemma has_flag_bit f k : 0 ≤ k → has_flag f (2 ^ k) = Z.testbit f k.
Proof.
  intros Hk. unfold has_flag. destruct (Z.testbit f k) eqn:E.
  - apply negb_true_iff, Z.eqb_neq. intros H0. apply (f_equal (λ x, Z.testbit x k)) in H0.
    rewrite Z.land_spec, Z.bits_0, E, Z.pow2_bits_true in H0 by done. done.
  - apply negb_false_iff, Z.eqb_eq. apply Z.bits_inj'. intros j Hj.
    rewrite Z.land_spec, Z.bits_0, Z.pow2_bits_eqb by done. destruct (Z.eqb_spec k j) as [<- | _]; [by rewrite E|apply andb_false_r].
Qed.

Lemma get_loop_bits bm j : ∀ n k bit flags,
  0 ≤ k → k + Z.of_nat n ≤ 32 → 0 ≤ j →
  Z.testbit (get_flags_loop n bm bit (u32 (2 ^ k)) flags) j =
  if bool_decide (k ≤ j < k + Z.of_nat n) then Z.testbit flags j || Z.testbit bm (bit + (j - k)) else Z.testbit flags j.
Proof.
  induction n as [|n IH]; intros k bit flags Hk Hn Hj; cbn [get_flags_loop].
  - rewrite bool_decide_eq_false_2 by lia. done.
  - rewrite next_value, (value_bit k) by lia. rewrite IH by lia.
    assert (Hb : Z.testbit (if Z.testbit bm bit then Z.lor flags (2 ^ k) else flags) j
                 = Z.testbit flags j || (Z.eqb k j && Z.testbit bm bit)).
    { destruct (Z.testbit bm bit); [by rewrite Z.lor_spec, Z.pow2_bits_eqb, andb_true_r by lia|by rewrite andb_false_r, orb_false_r]. }
    rewrite Hb. destruct (Z.eqb_spec k j) as [<- | Hne].
    + rewrite bool_decide_eq_false_2, bool_decide_eq_true_2 by lia. by rewrite Z.sub_diag, Z.add_0_r.
    + rewrite andb_false_l, orb_false_r. replace (bit + 1 + (j - (k + 1))) with (bit + (j - k)) by lia.
      repeat case_bool_decide; done || lia.
Qed.

Lemma set_loop_bits flags j : ∀ n k bit bm,
  0 ≤ k → k + Z.of_nat n ≤ 32 → 0 ≤ bit → 0 ≤ j →
  Z.testbit (set_flags_loop n bm bit (u32 (2 ^ k)) flags) j =
  if bool_decide (bit ≤ j < bit + Z.of_nat n) then Z.testbit flags (k + (j - bit)) else Z.testbit bm j.
Proof.
  induction n as [|n IH]; intros k bit bm Hk Hn Hb Hj; cbn [set_flags_loop].
  - rewrite bool_decide_eq_false_2 by lia. done.
  - rewrite next_value, (value_bit k), has_flag_bit by lia. rewrite IH by lia.
    assert (E : Z.testbit (if Z.testbit flags k then Z.setbit bm bit else Z.clearbit bm bit) j
                = if Z.eqb bit j then Z.testbit flags k else Z.testbit bm j).
    { destruct (Z.testbit flags k); [rewrite Z.setbit_eqb by lia|rewrite Z.clearbit_eqb by lia];
        destruct (Z.eqb_spec bit j); simpl; rewrite ?andb_true_r, ?andb_false_r; done. }
    rewrite E. replace (k + 1 + (j - (bit + 1))) with (k + (j - bit)) by lia.
    destruct (Z.eqb_spec bit j) as [<- | Hne].
    + rewrite bool_decide_eq_false_2, bool_decide_eq_true_2 by lia. by rewrite Z.sub_diag, Z.add_0_r.
    + repeat case_bool_decide; done || lia.
Qed.

(** ** The bits of a block *)

(** A bitmap with room for the zone. *)
Record pb_ok z : Prop := {
  pb_orders : 0 ≤ block_order < 32;
  pb_bits : 0 < NR_PAGEBLOCK_BITS ≤ 32;
  pb_pos : 0 ≤ pb_start_pfn z;
  pb_end : pb_start_pfn z + pb_spanned z < 2 ^ 26
}.

Definition in_pb_zone z pfn : Prop := pb_start_pfn z ≤ pfn < pb_start_pfn z + pb_spanned z.

(** The number of the page block within the zone. *)
Definition block_no z pfn : Z := pfn / 2 ^ block_order - pb_start_pfn z / 2 ^ block_order.

Lemma bitidx_exact z pfn :
  pb_ok z → in_pb_zone z pfn →
  u32 (pfn_to_bitidx z pfn) = block_no z pfn * NR_PAGEBLOCK_BITS ∧ 0 ≤ block_no z pfn.
Proof.
  intros [Ho Hb Hp He] [H1 H2]. unfold pfn_to_bitidx, round_down, block_pages, block_no.
  change (2 ^ 26) with 67108864 in He. rewrite Z.shiftl_mul_pow2, Z.mul_1_l by lia.
  assert (Hpow : 0 < 2 ^ block_order) by (apply Z.pow_pos_nonneg; lia).
  replace (2 ^ block_order - 1) with (Z.ones block_order) by (rewrite Z.ones_equiv; lia).
  rewrite Z.ldiff_ones_r, !Z.shiftr_div_pow2, Z.shiftl_mul_pow2 by lia.
  set (d := 2 ^ block_order) in *. set (q := pb_start_pfn z / d).
  assert (Hq : q * d ≤ pb_start_pfn z) by (subst q; pose proof (Z.mul_div_le (pb_start_pfn z) d); lia).
  assert (Hq0 : 0 ≤ q) by (apply Z.div_pos; lia).
  rewrite (uwrap_small 32 (pfn - q * d)) by (widths; nia).
  replace (pfn - q * d) with (pfn + (- q) * d) by lia. rewrite Z.div_add by lia.
  assert (Hn : 0 ≤ pfn / d + - q < 67108864).
  { pose proof (Z.div_le_mono (pb_start_pfn z) pfn d Hpow H1). fold q in H.
    assert (pfn / d ≤ pfn) by (apply Z.div_le_upper_bound; nia). lia. }
  set (m := (pfn / d + - q) * NR_PAGEBLOCK_BITS). assert (Hm : 0 ≤ m < 2147483648) by (subst m; nia).
  rewrite (uwrap_small 32 m) by (widths; lia). rewrite (swrap_small 32 ltac:(done) m) by (widths; lia).
  rewrite (uwrap_small 32 m) by (widths; lia). subst m. split; lia.
Qed.

Lemma group_bit z pfn sb e j :
  pb_ok z → in_pb_zone z pfn → 0 ≤ sb ≤ e → e < NR_PAGEBLOCK_BITS → 0 ≤ j →
  Z.testbit (get_pageblock_flags_group z pfn sb e) j =
  bool_decide (j ≤ e - sb) && Z.testbit (pageblock_flags z) (block_no z pfn * NR_PAGEBLOCK_BITS + sb + j).
Proof.
  intros Hz Hin Hs He Hj. destruct (bitidx_exact z pfn Hz Hin) as [Hi Hn]. destruct Hz as [_ Hb _ _].
  unfold get_pageblock_flags_group. rewrite Hi.
  change (get_flags_loop ?n ?b ?i 1 0) with (get_flags_loop n b i (u32 (2 ^ 0)) 0).
  rewrite get_loop_bits by lia. rewrite Z.bits_0, orb_false_l, Z.sub_0_r.
  unfold get_pageblock_bitmap. repeat case_bool_decide; done || lia.
Qed.

(** C17. The bitmap implements a map from page blocks to groups of bits: for a zone below
    2^26 pages with at most 32 bits per block, and bits [sb..e] of a block, storing [flags]
    for a page of the zone returns; every page of the same block then reads back exactly
    the low [e - sb + 1] bits of [flags], and any group of bits of any other block, or
    disjoint bits of the same block, reads as before.  Outside the zone storing stops. *)
Theorem pageblock_flags_roundtrip z pfn sb e flags :
  pb_ok z → 0 ≤ sb ≤ e → e < NR_PAGEBLOCK_BITS →
  (in_pb_zone z pfn → ∃ z', set_pageblock_flags_group flags pfn sb e z = Ok tt z' ∧
     pb_start_pfn z' = pb_start_pfn z ∧ pb_spanned z' = pb_spanned z ∧
     (∀ x, in_pb_zone z x → x / 2 ^ block_order = pfn / 2 ^ block_order →
        get_pageblock_flags_group z' x sb e = flags mod 2 ^ (e - sb + 1)) ∧
     (∀ x sb' e', in_pb_zone z x → 0 ≤ sb' ≤ e' → e' < NR_PAGEBLOCK_BITS →
        x / 2 ^ block_order ≠ pfn / 2 ^ block_order ∨ e < sb' ∨ e' < sb →
        get_pageblock_flags_group z' x sb' e' = get_pageblock_flags_group z x sb' e')) ∧
  (¬ in_pb_zone z pfn → set_pageblock_flags_group flags pfn sb e z = Err BugOn z).
Proof.
  intros Hz Hs He. split.
  2: { intros Hn. unfold set_pageblock_flags_group, in_pb_zone in *. mstep.
       destruct (Z.ltb_spec pfn (pb_start_pfn z)); [done|].
       destruct (Z.leb_spec (pb_start_pfn z + pb_spanned z) pfn); [done|lia]. }
  intros Hin. destruct (bitidx_exact z pfn Hz Hin) as [Hi Hn].
  eexists. split.
  { unfold set_pageblock_flags_group. mstep. destruct Hin as [H1 H2]. rewrite Hi.
    destruct (Z.ltb_spec pfn (pb_start_pfn z)); [lia|].
    destruct (Z.leb_spec (pb_start_pfn z + pb_spanned z) pfn); [lia|]. reflexivity. }
  set (bm := set_flags_loop _ _ _ _ _). set (z' := z <| pageblock_flags := bm |>).
  assert (Hz' : pb_ok z') by (destruct Hz; by split).
  assert (Hbits : ∀ j, 0 ≤ j → Z.testbit bm j =
    if bool_decide (block_no z pfn * NR_PAGEBLOCK_BITS + sb ≤ j < block_no z pfn * NR_PAGEBLOCK_BITS + sb + (e - sb + 1))
    then Z.testbit flags (j - (block_no z pfn * NR_PAGEBLOCK_BITS + sb)) else Z.testbit (pageblock_flags z) j).
  { intros j Hj. destruct Hz as [_ Hb _ _]. subst bm.
    change (set_flags_loop ?n ?b ?i 1 ?f) with (set_flags_loop n b i (u32 (2 ^ 0)) f).
    rewrite set_loop_bits by nia. rewrite Z2Nat.id, Z.add_0_l by lia. done. }
  split; [done|]. split; [done|]. split.
  - intros x Hx Heq. apply Z.bits_inj'. intros j Hj.
    rewrite group_bit by done. change (block_no z' x) with (block_no z x). unfold block_no at 1. rewrite Heq.
    fold (block_no z pfn). change (pageblock_flags z') with bm. rewrite Z.testbit_mod_pow2, Hbits by (destruct Hz; nia).
    case_bool_decide as Hje; simpl.
    + rewrite bool_decide_eq_true_2 by lia. replace (j <? e - sb + 1) with true by (symmetry; apply Z.ltb_lt; lia).
      simpl. f_equal. lia.
    + replace (j <? e - sb + 1) with false by (symmetry; apply Z.ltb_ge; lia). done.
  - intros x sb' e' Hx Hs' He' Hne. apply Z.bits_inj'. intros j Hj. destruct (bitidx_exact z x Hz Hx) as [_ Hnx].
    rewrite !group_bit by done. change (block_no z' x) with (block_no z x). change (pageblock_flags z') with bm.
    case_bool_decide as Hje; [|done]. rewrite !andb_true_l, Hbits by (destruct Hz; nia).
    rewrite bool_decide_eq_false_2; [done|]. destruct Hz as [_ Hb _ _]. unfold block_no in *.
    destruct Hne as [Hne|Hne]; [nia|]. intros Hr.
    destruct (decide (x / 2 ^ block_order = pfn / 2 ^ block_order)) as [E|E]; [rewrite E in Hr; lia|nia].
Qed.
End PageBlock.
