(* ===== verification/Isolate.v ===== *)
(** * Isolation of page blocks: [hw5/mm/page_alloc.c], lines 5634 to 6099

    A page block is isolated by making its migrate type MIGRATE_ISOLATE and moving its
    free blocks to the lists of that type, which no allocation searches.  Then its pages
    can be migrated away, taken out of the allocator for good, or given back.

    Zones are those of [Buddy.v], the machine that of [PageAlloc.v].  Notifiers,
    migration and the reclaim lists are the parameter [IsolateEnv]. *)

From S2P Require Import Prelude KList UserCache TaskWorld OomKill Buddy Pcp PageAlloc.

Definition EBUSY : Z := 16.
Definition EINTR : Z := 4.

Class IsolateEnv (L1 L2 X : Type) : Type := {
  ZONE_MOVABLE : Z;
  PG_lru : Z;                              (** the mask of the flag *)
  PG_reserved : Z;
  node_online : Z → bool;                  (** by page: its node is online *)
  pfn_valid : Z → bool;
  (** [memory_isolate_notify (MEM_ISOLATE_COUNT)] through [notifier_to_errno], and the
      pages the notifiers found. *)
  memory_isolate_notify : Z → Z * Z;
  fatal_signal_pending : M (kernel L1 L2 X) bool;
  migrate_prep : M (kernel L1 L2 X) unit;
  (** The first frame that was not scanned, and the list of pages to migrate. *)
  isolate_migratepages_range : Z → Z → Z → M (kernel L1 L2 X) (Z * list Z);
  (** The result, and the pages still on the list. *)
  migrate_pages : list Z → M (kernel L1 L2 X) (Z * list Z);
  putback_lru_pages : list Z → M (kernel L1 L2 X) unit
}.

Section Isolate.
Context {L1 L2 X : Type} `{KList lhead L1, KList (Z * Z) L2, UserKernel X}.
Context `{BuddyConfig, ZoneEnv, OomEnv} `{AllocEnv L1 L2 X} `{IsolateEnv L1 L2 X}.
Implicit Types z : zone L1.
Abbreviation K := (M (kernel L1 L2 X)).

(** ** Pages that cannot move *)

Definition PageLRU z (p : Z) : bool := has_flag (page_flags (page_at z p)) PG_lru.

(** The references of a page of a compound page are counted at its head. *)
Definition page_count z (p : Z) : Z :=
  let v := page_at z p in
  _count (if PageTail v then page_at z (first_page v) else v).

(** The loop of [__count_immobile_pages] from [iter] on; [found] pages so far. *)
Fixpoint immobile_loop (fuel : nat) z (pfn iter found count : Z) : M (zone L1) bool :=
  match fuel with
  | O => fail OutOfFuel
  | S fuel' =>
      if iter <? pageblock_nr_pages then
        let check := u32 (pfn + iter) in
        if negb (pfn_valid_within check) then immobile_loop fuel' z pfn (iter + 1) found count
        else if page_count z check =? 0 then
          immobile_loop fuel' z pfn
            (if PageBuddy z check then u32 (iter + (Z.shiftl 1 (private (page_at z check)) - 1)) + 1 else iter + 1)
            found count
        else
          let found := if negb (PageLRU z check) then u32 (found + 1) else found in
          if u32 count <? found then mret false
          else immobile_loop fuel' z pfn (iter + 1) found count
      else mret true
  end.

Definition __count_immobile_pages (p count : Z) : M (zone L1) bool :=
  z ← get;
  if zone_idx z =? ZONE_MOVABLE then mret true
  else
    let mt := get_pageblock_migratetype z p in
    if (mt =? MIGRATE_MOVABLE) || is_migrate_cma mt then mret true
    else immobile_loop (S (Z.to_nat pageblock_nr_pages)) z p 0 0 count.

Definition is_pageblock_removable_nolock (p : Z) : K bool :=
  if negb (node_online p) then mret false
  else
    call_zone (page_zone p)
      (z ← get;
       if (p <? zone_start_pfn z) || (zone_start_pfn z + spanned_pages z <=? p) then mret false
       else __count_immobile_pages p 0).

(** ** Isolating and giving back *)

(** [set_migratetype_isolate] with the lock of the zone: 0 or the error. *)
Definition isolate_block (p : Z) : M (zone L1) Z :=
  _ ← zone_spin_lock;
  let '(notifier_ret, pages_found) := memory_isolate_notify p in
  ret ← (if negb (notifier_ret =? 0) then mret (- EBUSY)
         else
           mobile ← __count_immobile_pages p pages_found;
           mret (if mobile : bool then 0 else - EBUSY));
  _ ← (if ret =? 0 then
         z ← get;
         let migratetype := get_pageblock_migratetype z p in
         _ ← set_pageblock_migratetype p MIGRATE_ISOLATE;
         nr_pages ← move_freepages_block p MIGRATE_ISOLATE;
         __mod_zone_freepage_state (s32 (- u32 nr_pages)) migratetype
       else mret tt);
  _ ← zone_spin_unlock;
  mret ret.

Definition set_migratetype_isolate (p : Z) : K Z :=
  ret ← call_zone (page_zone p) (isolate_block p);
  _ ← (if ret =? 0 then drain_all_pages else mret tt);
  mret ret.

Definition unset_migratetype_isolate (p migratetype : Z) : M (zone L1) unit :=
  _ ← zone_spin_lock;
  z ← get;
  _ ← (if negb (get_pageblock_migratetype z p =? MIGRATE_ISOLATE) then mret tt
       else
         nr_pages ← move_freepages_block p migratetype;
         _ ← __mod_zone_freepage_state (s32 (u32 nr_pages)) migratetype;
         set_pageblock_migratetype p migratetype);
  zone_spin_unlock.

(** ** Contiguous ranges *)

(** [MAX_ORDER_NR_PAGES]. *)
Definition MAX_ORDER_PAGES : Z := Z.shiftl 1 (MAX_ORDER - 1).

Definition pfn_max_align_down (pfn : Z) : Z :=
  Z.ldiff pfn (Z.max MAX_ORDER_PAGES pageblock_nr_pages - 1).

(** [ALIGN] of an [unsigned long]. *)
Definition pfn_max_align_up (pfn : Z) : Z :=
  let a := Z.max MAX_ORDER_PAGES pageblock_nr_pages in
  Z.ldiff (u32 (pfn + (a - 1))) (a - 1).

(** The loop of [__alloc_contig_migrate_range]: the result and the pages left on the
    list [migratepages]. *)
Fixpoint migrate_loop (fuel : nat) (zid pfn end_ : Z) (migratepages : list Z) (tries ret : Z) : K (Z * list Z) :=
  match fuel with
  | O => fail OutOfFuel
  | S fuel' =>
      if (pfn <? end_) || negb (bool_decide (migratepages = [])) then
        killed ← fatal_signal_pending;
        if killed : bool then mret (- EINTR, migratepages)
        else if bool_decide (migratepages = []) then
          '(pfn, migratepages) ← isolate_migratepages_range zid pfn end_;
          if pfn =? 0 then mret (- EINTR, migratepages)
          else
            '(ret, migratepages) ← migrate_pages migratepages;
            migrate_loop fuel' zid pfn end_ migratepages 0 ret
        else
          let tries := tries + 1 in
          if tries =? 5 then mret (if ret <? 0 then ret else - EBUSY, migratepages)
          else
            '(ret, migratepages) ← migrate_pages migratepages;
            migrate_loop fuel' zid pfn end_ migratepages tries ret
      else mret (ret, migratepages)
  end.

(** At most five passes for each frame of the range. *)
Definition migrate_fuel (start end_ : Z) : nat := S (5 * Z.to_nat (end_ - start)).

Definition __alloc_contig_migrate_range (start end_ : Z) : K Z :=
  _ ← migrate_prep;
  '(ret, migratepages) ← migrate_loop (migrate_fuel start end_) (page_zone start) start end_ [] 0 0;
  _ ← putback_lru_pages migratepages;
  mret (if 0 <? ret then 0 else ret).

Definition free_contig_range (pfn nr_pages : Z) : K unit :=
  for_each (seqZ pfn nr_pages) (λ p, __free_pages p 0).

(** ** Taking pages out *)

(** One block of [__offline_isolated_pages]; its order. *)
Definition offline_block (p : Z) : M (zone L1) Z :=
  z ← get;
  _ ← (if negb (page_count z p =? 0) then fail BugOn else mret tt);
  _ ← (if negb (PageBuddy z p) then fail BugOn else mret tt);
  let order := private (page_at z p) in
  _ ← modify (λ z, z <| lists ::= list_del p |>);
  _ ← rmv_page_order p;
  _ ← add_nr_free order (-1);
  _ ← mod_free_pages (- Z.shiftl 1 order);
  _ ← for_each (seqZ 0 (Z.shiftl 1 order)) (λ i, upd_page (p + i) (λ v, v <| page_flags ::= λ f, Z.lor f PG_reserved |>));
  mret order.

Fixpoint offline_loop (fuel : nat) (pfn end_pfn : Z) : M (zone L1) unit :=
  match fuel with
  | O => fail OutOfFuel
  | S fuel' =>
      if pfn <? end_pfn then
        if negb (pfn_valid pfn) then offline_loop fuel' (pfn + 1) end_pfn
        else
          order ← offline_block pfn;
          offline_loop fuel' (pfn + Z.shiftl 1 order) end_pfn
      else mret tt
  end.

(** The zone is that of the first valid frame. *)
Definition __offline_isolated_pages (start_pfn end_pfn : Z) : K unit :=
  match list_find (λ pfn, pfn_valid pfn = true) (seqZ start_pfn (end_pfn - start_pfn)) with
  | None => mret tt
  | Some (_, pfn) =>
      call_zone (page_zone pfn)
        (_ ← zone_spin_lock;
         _ ← offline_loop (S (Z.to_nat (end_pfn - start_pfn))) start_pfn end_pfn;
         zone_spin_unlock)
  end.

(** Whether an order from [os] on shows that the page is in a free block. *)
Fixpoint buddy_orders (os : list Z) z (pfn : Z) : bool :=
  match os with
  | [] => false
  | order :: os' =>
      let page_head := pfn - Z.land pfn (Z.shiftl 1 order - 1) in
      if PageBuddy z page_head && (order <=? private (page_at z page_head)) then true
      else buddy_orders os' z pfn
  end.

Definition is_free_buddy_page (p : Z) : M (zone L1) bool :=
  _ ← zone_spin_lock;
  z ← get;
  let found := buddy_orders (seqZ 0 MAX_ORDER) z p in
  _ ← zone_spin_unlock;
  mret found.
End Isolate.
