(* ===== verification/IsolateSpec.v ===== *)
(** * What isolation does to a zone *)

From S2P Require Import Prelude KList UserCache TaskWorld OomKill Buddy BuddySpec Pcp PcpSpec PageAlloc PageAllocSpec Isolate.

Section IsolateSpec.
Context {L1 L2 X : Type} `{!EqDecision lhead} `{!KList lhead L1} `{!KListLaws lhead L1}.
Context `{!KList (Z * Z) L2} `{!UserKernel X}.
Context `{!BuddyConfig, !ZoneEnv, !OomEnv} `{!AllocEnv L1 L2 X} `{!IsolateEnv L1 L2 X}.
Hypothesis buddy_value : PAGE_BUDDY_MAPCOUNT_VALUE ≠ -1.
Hypothesis block_order : 0 ≤ pageblock_order.
Implicit Types z : zone L1.

(** ** Pages in free blocks *)

Lemma head_align p o : 0 ≤ o → p - Z.land p (Z.shiftl 1 o - 1) = p / 2 ^ o * 2 ^ o.
Proof.
  intros Ho. rewrite shift_one by done. replace (2 ^ o - 1) with (Z.ones o) by (rewrite Z.ones_equiv; lia).
  rewrite Z.land_ones by done. pose proof (Z.div_mod p (2 ^ o)). pose proof (pow_pos o Ho). lia.
Qed.

Lemma aligned_base q o p : 0 ≤ o → (2 ^ o | q) → covers q o p → p / 2 ^ o * 2 ^ o = q.
Proof.
  intros Ho [k ->] Hc. unfold covers in Hc. pose proof (pow_pos o Ho). f_equal.
  symmetry. apply Z.div_unique with (p - k * 2 ^ o); lia.
Qed.

Lemma base_covers p o o' : 0 ≤ o ≤ o' → covers (p / 2 ^ o * 2 ^ o) o' p.
Proof.
  intros Ho. unfold covers. pose proof (pow_pos o (proj1 Ho)). pose proof (Z.div_mod p (2 ^ o)).
  pose proof (Z.mod_pos_bound p (2 ^ o)). pose proof (Z.pow_le_mono_r 2 o o'). lia.
Qed.

Lemma buddy_orders_exact z p os :
  buddy_inv z → (∀ o, o ∈ os → 0 ≤ o) →
  buddy_orders os z p = true ↔ ∃ o q o', o ∈ os ∧ o ≤ o' ∧ free_at z q o' ∧ q = p / 2 ^ o * 2 ^ o.
Proof.
  intros Hi. induction os as [|o os IH]; intros Hos; simpl.
  { split; [done|]. intros (o & q & o' & Ho & _). by apply not_elem_of_nil in Ho. }
  rewrite head_align by (apply Hos; left). set (h := p / 2 ^ o * 2 ^ o).
  destruct (PageBuddy z h && (o <=? private (page_at z h))) eqn:E.
  - split; [|done]. intros _. bsimp. exists o, h, (private (page_at z h)). split_and!; [left|lia|by apply (bi_flag z Hi)|done].
  - rewrite IH by (intros; apply Hos; by right). split.
    + intros (o1 & q & o' & Ho & Hle & Hf & Hq). exists o1, q, o'. split_and!; [by right|done..].
    + intros (o1 & q & o' & Ho & Hle & Hf & Hq). apply elem_of_cons in Ho as [-> | Ho]; [|by exists o1, q, o'].
      exfalso. subst q. fold h in Hf. destruct (bi_block z Hi h o' Hf) as (_ & _ & Hb & Hp & _).
      rewrite Hb, Hp in E. simpl in E. bsimp. lia.
Qed.

Lemma buddy_orders_lock os z p b : buddy_orders os (z <| zone_lock := b |>) p = buddy_orders os z p.
Proof. induction os as [|o os IH]; [done|]. simpl. by rewrite IH. Qed.

Lemma take_zone_lock z : zone_lock z = false → zone_spin_lock z = Ok tt (z <| zone_lock := true |>).
Proof. intros Hl. unfold zone_spin_lock. mstep. by rewrite Hl. Qed.

Lemma lock_unlock z : zone_lock z = false → z <| zone_lock := true |> <| zone_lock := false |> = z.
Proof. destruct z. simpl. by intros ->. Qed.

(** [is_free_buddy_page] decides whether a page is free: on a consistent zone whose
    lock is free it returns, leaves the zone as it is, and answers true exactly for the
    pages inside a block of a free list, whatever the order of the block. *)
Theorem is_free_buddy_page_exact z p :
  buddy_inv z → zone_lock z = false →
  ∃ b, is_free_buddy_page p z = Ok b z ∧ (b = true ↔ is_free z p).
Proof.
  intros Hi Hl. exists (buddy_orders (seqZ 0 MAX_ORDER) z p). split.
  { unfold is_free_buddy_page, zone_spin_lock, zone_spin_unlock. mstep. rewrite Hl. mstep.
    by rewrite buddy_orders_lock, lock_unlock. }
  rewrite buddy_orders_exact; [|done|intros o Ho%elem_of_seqZ; lia]. split.
  - intros (o & q & o' & Ho%elem_of_seqZ & Hle & Hf & ->). exists (p / 2 ^ o * 2 ^ o), o'. split; [done|].
    apply base_covers. lia.
  - intros (q & o & Hf & Hc). destruct (bi_block z Hi q o Hf) as (Ho & Ha & _).
    exists o, q, o. split_and!; [apply elem_of_seqZ; lia|lia|done|]. symmetry. by apply aligned_base; [lia|..].
Qed.

(** ** Pages that cannot move *)

Definition immobile_page z (x : Z) : Z :=
  if pfn_valid_within x && negb (page_count z x =? 0) && negb (PageLRU z x) then 1 else 0.

(** The used pages of [n] frames from [p] on that are not on a reclaim list. *)
Definition immobile z (p n : Z) : Z := sumZ (immobile_page z) (seqZ p n).

Lemma sum_cons (h : Z → Z) p n : 0 < n → sumZ h (seqZ p n) = h p + sumZ h (seqZ (p + 1) (n - 1)).
Proof. intros Hn. rewrite seqZ_cons by lia. simpl. do 3 f_equal; lia. Qed.

Lemma sum_zero (h : Z → Z) p n : (∀ x, p ≤ x < p + n → h x = 0) → sumZ h (seqZ p n) = 0.
Proof.
  intros Hh. rewrite (sumZ_ext h (λ _, 0)); [|intros x Hx%elem_of_seqZ; apply Hh; lia].
  induction (seqZ p n) as [|y l IH]; simpl; lia.
Qed.

(** Pages without weight are skipped. *)
Lemma sum_skip (h : Z → Z) p n k :
  0 ≤ k → (∀ x, p ≤ x < p + k → h x = 0) → sumZ h (seqZ p n) = sumZ h (seqZ (p + k) (n - k)).
Proof.
  intros Hk Hh. destruct (Z.le_gt_cases k n) as [Hle|Hgt].
  - replace n with (k + (n - k)) at 1 by lia. rewrite seqZ_app by lia. rewrite sumZ_app, (sum_zero h p k) by done. lia.
  - rewrite (sum_zero h p n) by (intros; apply Hh; lia). rewrite (sum_zero h (p + k) (n - k)); [done|]. intros. lia.
Qed.

Lemma immobile_nonneg z p n : 0 ≤ immobile z p n.
Proof. apply sumZ_nonneg. intros x _. unfold immobile_page. case_match; lia. Qed.

(** A page of a free block has no users. *)
Lemma free_count z x :
  buddy_inv z → is_free z x → PageCompound z x = false → page_count z x = 0.
Proof.
  intros Hi (q & o & Hf & Hc) Hn. unfold page_count, PageCompound in *.
  apply orb_false_iff in Hn as [_ Hn]. rewrite Hn. destruct (decide (x = q)) as [-> | Hne].
  - by destruct (bi_block z Hi q o Hf) as (_ & _ & _ & _ & ?).
  - by destruct (bi_inner z Hi q o x Hf Hc Hne) as (_ & ? & _).
Qed.

Lemma free_immobile z q o x :
  buddy_inv z → (∀ y, is_free z y → PageCompound z y = false) → free_at z q o → covers q o x → immobile_page z x = 0.
Proof.
  intros Hi Hn Hf Hc. unfold immobile_page.
  assert (is_free z x) by (by exists q, o). rewrite (free_count z x) by auto. simpl. by rewrite andb_false_r.
Qed.

Section immobile.
Variables (z : zone L1) (p count : Z).
Hypothesis Hi : buddy_inv z.
Hypothesis Hn : ∀ y, is_free z y → PageCompound z y = false.
Hypothesis Hp : 0 ≤ p.
Hypothesis Hend : p + pageblock_nr_pages < 2 ^ 31.
Hypothesis Hmax : MAX_ORDER ≤ 31.
Hypothesis Hc : 0 ≤ count < 2 ^ 31.

Lemma immobile_loop_exact : ∀ fuel iter found y,
  0 ≤ iter → 0 ≤ found ≤ count → Z.max 0 (pageblock_nr_pages - iter) < Z.of_nat fuel →
  immobile_loop fuel z p iter found count y =
  Ok (found + immobile z (p + iter) (pageblock_nr_pages - iter) <=? count) y.
Proof.
  change (2 ^ 31) with 2147483648 in *. pose proof Hend as Hend'. induction fuel as [|fuel IH]; intros iter found y Hit Hfd Hfu.
  { lia. }
  cbn [immobile_loop]. destruct (Z.ltb_spec iter pageblock_nr_pages) as [Hlt|Hge].
  2: { unfold immobile. replace (seqZ _ _) with (@nil Z); [|symmetry; apply seqZ_nil; lia]. simpl.
       replace (found + 0 <=? count) with true; [done|]. symmetry. apply Z.leb_le. lia. }
  rewrite (uwrap_small 32 (p + iter)) by (widths; lia).
  unfold immobile. rewrite (sum_cons (immobile_page z)) by lia.
  replace (p + iter + 1) with (p + (iter + 1)) by lia. replace (pageblock_nr_pages - iter - 1) with (pageblock_nr_pages - (iter + 1)) by lia.
  fold (immobile z (p + (iter + 1)) (pageblock_nr_pages - (iter + 1))).
  unfold immobile_page at 1.
  destruct (pfn_valid_within (p + iter)); cbn [negb andb]; [|rewrite IH by lia; by rewrite Z.add_0_l].
  destruct (page_count z (p + iter) =? 0) eqn:E0; cbn [negb andb].
  - destruct (PageBuddy z (p + iter)) eqn:Eb; [|rewrite IH by lia; by rewrite Z.add_0_l].
    pose proof (bi_flag z Hi _ Eb) as Hf. set (o := private (page_at z (p + iter))) in *.
    destruct (bi_block z Hi _ o Hf) as (Ho & _). rewrite shift_one by lia.
    pose proof (pow_pos o (proj1 Ho)) as Hpow. pose proof (Z.pow_le_mono_r 2 o 30 ltac:(lia) ltac:(lia)) as Hle.
    change (2 ^ 30) with 1073741824 in Hle.
    rewrite (uwrap_small 32) by (widths; lia). rewrite IH by lia. rewrite Z.add_0_l. do 3 f_equal. unfold immobile.
    rewrite (sum_skip (immobile_page z) (p + (iter + 1)) (pageblock_nr_pages - (iter + 1)) (2 ^ o - 1)); [do 2 f_equal; lia|lia|].
    intros x Hx. apply (free_immobile z (p + iter) o x Hi Hn Hf). unfold covers. lia.
  - pose proof (immobile_nonneg z (p + (iter + 1)) (pageblock_nr_pages - (iter + 1))) as Hnn.
    destruct (PageLRU z (p + iter)); cbn [negb andb].
    + destruct (Z.ltb_spec (u32 count) found) as [Hl|_]; [rewrite (uwrap_small 32) in Hl by (widths; lia); lia|].
      rewrite IH by lia. by rewrite Z.add_0_l.
    + rewrite (uwrap_small 32 (found + 1)), (uwrap_small 32 count) by (widths; lia).
      destruct (Z.ltb_spec count (found + 1)) as [Hl|Hl].
      * replace (found + _ <=? count) with false; [done|]. symmetry. apply Z.leb_gt. lia.
      * rewrite IH by lia. do 2 f_equal. lia.
Qed.

(** The test is a closed form. *)
Lemma count_immobile_exact :
  __count_immobile_pages p count z =
  Ok ((zone_idx z =? ZONE_MOVABLE) || (get_pageblock_migratetype z p =? MIGRATE_MOVABLE)
      || is_migrate_cma (get_pageblock_migratetype z p) || (immobile z p pageblock_nr_pages <=? count)) z.
Proof.
  unfold __count_immobile_pages, mbind, M_bind, get, mret, M_ret.
  destruct (zone_idx z =? ZONE_MOVABLE); cbn [orb]; [done|].
  destruct ((get_pageblock_migratetype z p =? MIGRATE_MOVABLE) || is_migrate_cma _); cbn [orb]; [done|].
  rewrite immobile_loop_exact by lia. by rewrite Z.add_0_r, Z.sub_0_r.
Qed.
End immobile.

(** ** Moving the free blocks of a range *)

Definition buddy_size z (x : Z) : Z := if PageBuddy z x then 2 ^ private (page_at z x) else 0.

(** The pages of the free blocks that begin in [n] frames from [p] on. *)
Definition free_pages_in z (p n : Z) : Z := sumZ (buddy_size z) (seqZ p n).

(** The free blocks that begin in [p..e] are on the lists of [mt], the others where they
    were. *)
Definition relisted z (p e mt : Z) z' : Prop :=
  ∀ q o m, q ∈ elems (lists z') (FreeList o m) ↔
    (free_at z q o ∧ p ≤ q ≤ e ∧ m = mt) ∨ (q ∈ elems (lists z) (FreeList o m) ∧ ¬ p ≤ q ≤ e).

Lemma relisted_none z p e mt : e < p → relisted z p e mt z.
Proof. intros He q o m. split; [intros Hq; right; split; [done|lia]|]. intros [(_ & Hr & _)|[Hq _]]; [lia|done]. Qed.

Lemma relisted_skip z p e mt z' :
  p ≤ e → (∀ o, ¬ free_at z p o) → relisted z (p + 1) e mt z' → relisted z p e mt z'.
Proof.
  intros He Hn Hr q o m. rewrite (Hr q o m). destruct (decide (q = p)) as [-> | Hne].
  - split; intros [(Hf & ? & ?)|[Hq ?]]; [lia| | |]; exfalso; eapply Hn; [by exists m|exact Hf|by exists m].
  - split; intros [(Hf & Hx & Hm)|[Hq Hx]]; [left|right|left|right]; split_and!; done || lia.
Qed.

Lemma inner_size z q o x : buddy_inv z → free_at z q o → q < x < q + 2 ^ o → buddy_size z x = 0.
Proof.
  intros Hi Hf Hx. unfold buddy_size, PageBuddy.
  destruct (bi_inner z Hi q o x Hf) as (-> & _ & _); [unfold covers; lia|lia|].
  destruct (Z.eqb_spec (-1) PAGE_BUDDY_MAPCOUNT_VALUE); [congruence|done].
Qed.

Lemma inner_not_free z q o x o' : buddy_inv z → free_at z q o → q < x < q + 2 ^ o → ¬ free_at z x o'.
Proof.
  intros Hi Hf Hx Hf'. destruct (bi_block z Hi x o' Hf') as (Ho' & _).
  assert (q = x); [|lia]. apply (bi_disjoint z Hi q o x o' x Hf Hf'); [unfold covers; lia|apply covers_self; lia].
Qed.

Lemma relisted_block z p o e mt z' :
  buddy_inv z → p ≤ e → free_at z p o → relisted (move_block z p o mt) (p + 2 ^ o) e mt z' → relisted z p e mt z'.
Proof.
  intros Hi He Hf Hr q o1 m. destruct (bi_block z Hi p o Hf) as (Ho & _). pose proof (pow_pos o (proj1 Ho)).
  rewrite (Hr q o1 m), move_block_free, move_block_elems by done.
  destruct (decide (q = p)) as [-> | Hne].
  - split.
    + intros [(_ & ? & _)|[[[_ [= -> ->]]|[_ ?]] _]]; [lia|left; split_and!; done || lia|done].
    + intros [(Hf' & _ & ->)|[_ ?]]; [|lia]. right. split; [left|lia]. by rewrite (free_order z p o1 o Hi Hf' Hf).
  - assert (Hin : ∀ o', p < q < p + 2 ^ o → ¬ free_at z q o') by (intros; by eapply inner_not_free).
    split.
    + intros [(Hf' & ? & ->)|[[[? _]|[Hq _]] Hx]]; [left; split_and!; done || lia|done|].
      right. split; [done|]. intros Hy. apply (Hin o1); [lia|by exists m].
    + intros [(Hf' & Hx & ->)|[Hq Hx]].
      * left. split_and!; [done| |lia|done]. destruct (Z.le_gt_cases (p + 2 ^ o) q); [done|]. destruct (Hin o1); [lia|done].
      * right. split; [right; done|lia].
Qed.

Lemma move_from_exact mt e : ∀ fuel p n z,
  buddy_inv z → 0 ≤ mt < MIGRATE_TYPES → Z.max 0 (e - p + 1) < Z.of_nat fuel → in_s 32 n →
  ∃ l, move_from fuel p e mt n z = Ok (s32 (n + free_pages_in z p (e - p + 1))) (z <| lists := l |>) ∧
       buddy_inv (z <| lists := l |>) ∧ moved z (z <| lists := l |>) ∧ relisted z p e mt (z <| lists := l |>).
Proof.
  induction fuel as [|fuel IH]; intros p n z Hi Hmt Hfu Hn; [lia|].
  assert (Hskip : p ≤ e → (∀ o, ¬ free_at z p o) → buddy_size z p = 0 →
    move_from (S fuel) p e mt n z = move_from fuel (p + 1) e mt n z →
    ∃ l, move_from (S fuel) p e mt n z = Ok (s32 (n + free_pages_in z p (e - p + 1))) (z <| lists := l |>) ∧
         buddy_inv (z <| lists := l |>) ∧ moved z (z <| lists := l |>) ∧ relisted z p e mt (z <| lists := l |>)).
  { intros Hle Hnf Hsz ->. destruct (IH (p + 1) n z) as (l & E & Hi' & Hm & Hr); [done|done|lia|done|].
    exists l. unfold free_pages_in in *. rewrite (sum_cons (buddy_size z) p), Hsz, Z.add_0_l by lia.
    replace (e - p + 1 - 1) with (e - (p + 1) + 1) by lia. split_and!; [done..|by apply relisted_skip]. }
  cbn [move_from] in *. destruct (Z.leb_spec p e) as [Hle|Hgt].
  2: { exists (lists z). replace (z <| lists := lists z |>) with z by (by destruct z).
       unfold free_pages_in. replace (seqZ _ _) with (@nil Z) by (symmetry; apply seqZ_nil; lia). simpl.
       rewrite Z.add_0_r, (swrap_small 32 ltac:(done) n) by done.
       split_and!; [done|done|apply moved_refl|by apply relisted_none]. }
  unfold mbind, M_bind, get in *. destruct (pfn_valid_within p) eqn:Ev.
  2: { apply Hskip; [done| | |done].
       - intros o Hf. destruct (bi_block z Hi p o Hf) as (Ho & _).
         destruct (bad_range_false z p) as [Hv _]; [|congruence]. apply (bi_zone z Hi p o p Hf), covers_self. lia.
       - unfold buddy_size. destruct (PageBuddy z p) eqn:Eb; [|done]. apply (bi_flag z Hi) in Eb.
         destruct (bi_block z Hi p _ Eb) as (Ho & _).
         destruct (bad_range_false z p) as [Hv _]; [|congruence]. apply (bi_zone z Hi p _ p Eb), covers_self. lia. }
  simpl negb in *. destruct (PageBuddy z p) eqn:Eb.
  2: { apply Hskip; [done| | |done].
       - intros o Hf. destruct (bi_block z Hi p o Hf) as (_ & _ & Hb & _). congruence.
       - unfold buddy_size. by rewrite Eb. }
  clear Hskip. pose proof (bi_flag z Hi p Eb) as Hf. set (o := private (page_at z p)) in *.
  destruct (bi_block z Hi p o Hf) as (Ho & _). pose proof (pow_pos o (proj1 Ho)) as Hpow. rewrite shift_one by lia.
  unfold modify. cbn [negb].
  match goal with |- context [move_from fuel _ _ _ _ ?s] => change s with (move_block z p o mt) end.
  destruct (IH (p + 2 ^ o) (s32 (n + 2 ^ o)) (move_block z p o mt)) as (l & E & Hi' & Hm & Hr);
    [by apply move_block_inv|done|lia|by apply swrap_range|].
  exists l. split_and!; [|done| |by eapply relisted_block].
  - rewrite E. f_equal. rewrite swrap_add_l by done. f_equal. rewrite <- Z.add_assoc. f_equal.
    change (free_pages_in (move_block z p o mt)) with (free_pages_in z). unfold free_pages_in.
    rewrite (sum_cons (buddy_size z) p (e - p + 1)) by lia. unfold buddy_size at 2. rewrite Eb. fold o. f_equal.
    rewrite (sum_skip (buddy_size z) (p + 1) (e - p + 1 - 1) (2 ^ o - 1)); [do 2 f_equal; lia|lia|].
    intros x Hx. apply (inner_size z p o x Hi Hf). lia.
  - eapply moved_trans; [by apply (move_block_moved z p o mt)|exact Hm].
Qed.

(** ** A whole page block *)

(** [p] is the first page of a page block that lies in the zone. *)
Definition whole_block z (p : Z) : Prop :=
  (2 ^ pageblock_order | p) ∧ zone_start_pfn z ≤ p ∧ p + 2 ^ pageblock_order ≤ zone_start_pfn z + spanned_pages z.

Definition block_end (p : Z) : Z := p + 2 ^ pageblock_order - 1.
Definition block_free z (p : Z) : Z := free_pages_in z p (2 ^ pageblock_order).

Lemma move_freepages_block_exact z p mt :
  buddy_inv z → 0 ≤ mt < MIGRATE_TYPES → zone_contiguous z → whole_block z p →
  ∃ l, move_freepages_block p mt z = Ok (s32 (block_free z p)) (z <| lists := l |>) ∧
       buddy_inv (z <| lists := l |>) ∧ moved z (z <| lists := l |>) ∧ relisted z p (block_end p) mt (z <| lists := l |>).
Proof.
  intros Hi Hmt Hct (Ha & Hs & He). pose proof (pow_pos pageblock_order block_order) as Hpow.
  unfold move_freepages_block, pageblock_nr_pages, mbind, M_bind, get. rewrite shift_one by lia.
  replace (2 ^ pageblock_order - 1) with (Z.ones pageblock_order) by (rewrite Z.ones_equiv; lia).
  rewrite Z.ldiff_ones_r, Z.shiftr_div_pow2, Z.shiftl_mul_pow2 by lia.
  rewrite (aligned_base p pageblock_order p) by (done || apply covers_self; lia).
  destruct (Z.ltb_spec p (zone_start_pfn z)); [lia|]. fold (block_end p).
  destruct (Z.leb_spec (zone_start_pfn z + spanned_pages z) (block_end p)); [unfold block_end in *; lia|].
  unfold move_freepages, mbind, M_bind.
  assert (negb CONFIG_HOLES_IN_ZONE && negb (page_zone p =? page_zone (block_end p)) = false) as ->.
  { destruct CONFIG_HOLES_IN_ZONE eqn:Eh; [done|]. simpl.
    rewrite !(Hct Eh) by (unfold block_end; lia). by rewrite Z.eqb_refl. }
  destruct (move_from_exact mt (block_end p) (S (S (Z.to_nat (block_end p - p)))) p 0 z) as (l & E & Hr);
    [done|done|unfold block_end; lia|widths; lia|].
  exists l. split; [|exact Hr]. unfold mret, M_ret.
  replace (block_end p - p + 1) with (2 ^ pageblock_order) in E by (unfold block_end; lia).
  by rewrite E, Z.add_0_l.
Qed.

(** Sums of wrapped numbers. *)
Lemma s32_shift x : ∃ k, s32 x = x + k * 2 ^ 32.
Proof.
  unfold swrap. exists (- ((x + 2 ^ (32 - 1)) / 2 ^ 32)). rewrite Z.mod_eq by lia. lia.
Qed.

Lemma u32_shift x : ∃ k, u32 x = x + k * 2 ^ 32.
Proof. unfold uwrap. exists (- (x / 2 ^ 32)). rewrite Z.mod_eq by lia. lia. Qed.

Lemma s32_period x k : s32 (x + k * 2 ^ 32) = s32 x.
Proof. unfold swrap. rewrite <- (Z.mod_add (x + 2 ^ (32 - 1)) k (2 ^ 32)) by lia. do 2 f_equal. lia. Qed.

Lemma freed_sum a n : s32 (a + s32 (u32 (s32 n))) = s32 (a + n).
Proof.
  destruct (s32_shift n) as [k1 E1], (u32_shift (s32 n)) as [k2 E2], (s32_shift (u32 (s32 n))) as [k3 E3].
  rewrite E3, E2, E1. rewrite <- (s32_period (a + n) (k1 + k2 + k3)). f_equal. lia.
Qed.

Lemma taken_sum a n : s32 (a + s32 (- u32 (s32 n))) = s32 (a - n).
Proof.
  destruct (s32_shift n) as [k1 E1], (u32_shift (s32 n)) as [k2 E2], (s32_shift (- u32 (s32 n))) as [k3 E3].
  rewrite E3, E2, E1. rewrite <- (s32_period (a - n) (k3 - k1 - k2)). f_equal. lia.
Qed.

(** The zone with its lists, types and counters changed. *)
Definition relabelled z (l : L1) (bm : gmap Z Z) (n c : Z) : zone L1 :=
  z <| lists := l |> <| block_mt := bm |> <| NR_FREE_PAGES := n |> <| NR_FREE_CMA_PAGES := c |>.

Lemma relabelled_ok z l bm n c :
  zone_ok z → buddy_inv (z <| lists := l |>) → moved z (z <| lists := l |>) →
  types_ok (z <| block_mt := bm |>) → zone_ok (relabelled z l bm n c).
Proof.
  intros Hz Hi' Hm Ht. pose proof Hm as (Hfr & Hoff & _ & _ & Hk). set (z' := relabelled z l bm n c).
  assert (Hi : buddy_inv z') by (by eapply buddy_inv_congr; [..|exact Hi']).
  assert (Hpk : pcp_kept z (z <| lists := l |>)) by apply Hk.
  assert (Hpp : pcp_pages z' = pcp_pages z) by apply (kept_pcp_pages _ _ Hpk).
  assert (Hin : ∀ x, in_zone z' x ↔ in_zone z x).
  { intros x. unfold in_zone. rewrite Hpp. by rewrite <- (moved_is_free _ _ x Hm). }
  destruct Hz as [Z1 Z2 Z3 Z4 Z5 Z6 Z7 Z8]. split; [exact Hi| | |exact Z4|exact Z5|exact Z6|exact Ht|].
  - exact (kept_pcp_ok _ _ Hpk Z2).
  - rewrite Hpp. exact Z3.
  - intros x Hx. apply Hin in Hx. exact (Z8 x Hx).
Qed.

(** ** Isolation *)

(** Moving does not depend on the lock and the types. *)
Lemma moved_lists y z l :
  lists y = lists z → mem_map y = mem_map z → moved y (y <| lists := l |>) → moved z (z <| lists := l |>).
Proof.
  intros El Em (F & O & _ & _ & (_ & _ & _ & (_ & _ & _ & _ & _ & _ & E & _))).
  unfold free_at in F. simpl in F, E. rewrite El in F, O, E.
  split; [exact F|]. split; [exact O|]. split; [done|]. split; [done|].
  unfold keeps, pcp_kept. split_and!; try done.
Qed.

(** What [set_migratetype_isolate] asks of the block. *)
Definition can_isolate z (p found : Z) : bool :=
  (zone_idx z =? ZONE_MOVABLE) || (get_pageblock_migratetype z p =? MIGRATE_MOVABLE)
  || is_migrate_cma (get_pageblock_migratetype z p) || (immobile z p pageblock_nr_pages <=? found).

Definition stored_type (mt : Z) : Z := if page_group_by_mobility_disabled then MIGRATE_UNMOVABLE else mt.

Lemma isolate_type : 0 ≤ MIGRATE_ISOLATE < MIGRATE_TYPES.
Proof. unfold MIGRATE_TYPES, MIGRATE_ISOLATE. destruct CONFIG_CMA; lia. Qed.

Lemma relabelled_types z p mt :
  types_ok z → 0 ≤ mt < MIGRATE_TYPES →
  types_ok (z <| block_mt := <[p / pageblock_nr_pages := stored_type mt]> (block_mt z) |>).
Proof.
  intros Ht Hmt. apply (types_ok_set z); [done|]. unfold stored_type.
  destruct page_group_by_mobility_disabled; [apply unmovable_type|done].
Qed.

Lemma relabelled_unlock z l bm n c :
  zone_lock z = false → (relabelled (z <| zone_lock := true |>) l bm n c) <| zone_lock := false |> = relabelled z l bm n c.
Proof. destruct z. simpl. by intros ->. Qed.

(** The counters are updated under the lock. *)
Lemma count_unlock z l bm d mt :
  zone_lock z = false →
  ∃ y, __mod_zone_freepage_state d mt (z <| zone_lock := true |> <| block_mt := bm |> <| lists := l |>) = Ok tt y ∧
    y <| zone_lock := false |> =
    relabelled z l bm (s32 (NR_FREE_PAGES z + d)) (if is_migrate_cma mt then s32 (NR_FREE_CMA_PAGES z + d) else NR_FREE_CMA_PAGES z).
Proof.
  intros Hl. unfold __mod_zone_freepage_state, mod_free_pages, mod_free_cma_pages, mbind, M_bind, modify, mret, M_ret.
  destruct (is_migrate_cma mt); eexists; (split; [reflexivity|]); destruct z; simpl in Hl; by rewrite Hl.
Qed.

(** The type of [p], the free pages of its block and the CMA counter. *)
Definition cma_minus z (p : Z) : Z :=
  if is_migrate_cma (get_pageblock_migratetype z p) then s32 (NR_FREE_CMA_PAGES z - block_free z p) else NR_FREE_CMA_PAGES z.

Section isolate.
Variables (z : zone L1) (p err found : Z).
Hypothesis Hz : zone_ok z.
Hypothesis Hct : zone_contiguous z.
Hypothesis Hw : whole_block z p.
Hypothesis Hp : 0 ≤ p.
Hypothesis Hend : p + 2 ^ pageblock_order < 2 ^ 31.
Hypothesis Hmax : MAX_ORDER ≤ 31.
Hypothesis Hno : memory_isolate_notify p = (err, found).
Hypothesis Hfd : 0 ≤ found < 2 ^ 31.

Lemma isolate_block_run :
  if (err =? 0) && can_isolate z p found then
    ∃ l, isolate_block p z =
         Ok 0 (relabelled z l (<[p / pageblock_nr_pages := stored_type MIGRATE_ISOLATE]> (block_mt z))
                 (s32 (NR_FREE_PAGES z - block_free z p)) (cma_minus z p)) ∧
      buddy_inv (z <| lists := l |>) ∧ moved z (z <| lists := l |>) ∧
      relisted z p (block_end p) MIGRATE_ISOLATE (z <| lists := l |>)
  else isolate_block p z = Ok (- EBUSY) z.
Proof.
  set (z0 := z <| zone_lock := true |>).
  assert (Hi0 : buddy_inv z0) by (eapply buddy_inv_congr; [..|apply (zo_buddy z Hz)]; done).
  assert (Hl : zone_lock z = false) by apply (zo_lock z Hz).
  unfold isolate_block, mbind, M_bind. rewrite take_zone_lock by done. fold z0. rewrite Hno. destruct (err =? 0); cbn [negb andb].
  2: { unfold mret, M_ret. replace (- EBUSY =? 0) with false by done. unfold zone_spin_unlock, modify. subst z0. by rewrite lock_unlock. }
  rewrite (count_immobile_exact z0 p found Hi0) by
    (done || (unfold pageblock_nr_pages; rewrite shift_one; done) || (intros y Hy; apply (zo_plain z Hz y); by left)).
  change (zone_idx z0) with (zone_idx z). change (get_pageblock_migratetype z0 p) with (get_pageblock_migratetype z p).
  change (immobile z0 p pageblock_nr_pages) with (immobile z p pageblock_nr_pages). fold (can_isolate z p found).
  destruct (can_isolate z p found).
  2: { unfold mret, M_ret. replace (- EBUSY =? 0) with false by done. unfold zone_spin_unlock, modify. subst z0. by rewrite lock_unlock. }
  unfold mret at 1, M_ret at 1. change (0 =? 0) with true. cbv iota. unfold get at 1.
  change (get_pageblock_migratetype z0 p) with (get_pageblock_migratetype z p).
  unfold set_pageblock_migratetype at 1, modify at 1. fold (stored_type MIGRATE_ISOLATE).
  set (bm := <[p / pageblock_nr_pages := stored_type MIGRATE_ISOLATE]> (block_mt z)).
  change (z0 <| block_mt ::= <[p / pageblock_nr_pages := stored_type MIGRATE_ISOLATE]> |>) with (z0 <| block_mt := bm |>).
  destruct (move_freepages_block_exact z p MIGRATE_ISOLATE (zo_buddy z Hz) isolate_type Hct Hw)
    as (l & _ & Hi' & Hm & Hr).
  destruct (move_freepages_block_exact (z0 <| block_mt := bm |>) p MIGRATE_ISOLATE) as (l0 & E & Hi1 & Hm1 & Hr1);
    [eapply buddy_inv_congr; [..|exact Hi0]; done|apply isolate_type|exact Hct|exact Hw|].
  rewrite E. exists l0. clear l Hi' Hm Hr. split_and!.
  - change (block_free (z0 <| block_mt := bm |>) p) with (block_free z p).
    destruct (count_unlock z l0 bm (s32 (- u32 (s32 (block_free z p)))) (get_pageblock_migratetype z p) Hl) as (y & Ey & Eu).
    subst z0. rewrite Ey. unfold zone_spin_unlock, modify, mret, M_ret. rewrite Eu. unfold cma_minus.
    by rewrite !taken_sum.
  - by eapply buddy_inv_congr; [..|exact Hi1].
  - by eapply moved_lists; [..|exact Hm1].
  - exact Hr1.
Qed.
End isolate.

Lemma count_type_unlock z l p d mt :
  zone_lock z = false →
  ∃ y, __mod_zone_freepage_state d mt (z <| zone_lock := true |> <| lists := l |>) = Ok tt y ∧
  ∃ y', set_pageblock_migratetype p mt y = Ok tt y' ∧
    y' <| zone_lock := false |> =
    relabelled z l (<[p / pageblock_nr_pages := stored_type mt]> (block_mt z)) (s32 (NR_FREE_PAGES z + d))
      (if is_migrate_cma mt then s32 (NR_FREE_CMA_PAGES z + d) else NR_FREE_CMA_PAGES z).
Proof.
  intros Hl. unfold __mod_zone_freepage_state, mod_free_pages, mod_free_cma_pages, set_pageblock_migratetype, mbind, M_bind, modify, mret, M_ret.
  destruct (is_migrate_cma mt); eexists; (split; [reflexivity|]); eexists; (split; [reflexivity|]);
    destruct z; simpl in Hl; by rewrite Hl.
Qed.

Lemma unset_run z p mt :
  zone_ok z → zone_contiguous z → whole_block z p → 0 ≤ mt < MIGRATE_TYPES →
  if get_pageblock_migratetype z p =? MIGRATE_ISOLATE then
    ∃ l, unset_migratetype_isolate p mt z =
         Ok tt (relabelled z l (<[p / pageblock_nr_pages := stored_type mt]> (block_mt z))
                  (s32 (NR_FREE_PAGES z + block_free z p))
                  (if is_migrate_cma mt then s32 (NR_FREE_CMA_PAGES z + block_free z p) else NR_FREE_CMA_PAGES z)) ∧
      buddy_inv (z <| lists := l |>) ∧ moved z (z <| lists := l |>) ∧
      relisted z p (block_end p) mt (z <| lists := l |>)
  else unset_migratetype_isolate p mt z = Ok tt z.
Proof.
  intros Hz Hct Hw Hmt. set (z0 := z <| zone_lock := true |>).
  assert (Hi0 : buddy_inv z0) by (eapply buddy_inv_congr; [..|apply (zo_buddy z Hz)]; done).
  assert (Hl : zone_lock z = false) by apply (zo_lock z Hz).
  unfold unset_migratetype_isolate, mbind, M_bind. rewrite take_zone_lock by done. fold z0. unfold get at 1 2.
  change (get_pageblock_migratetype z0 p) with (get_pageblock_migratetype z p).
  destruct (get_pageblock_migratetype z p =? MIGRATE_ISOLATE); cbn [negb].
  2: { unfold mret, M_ret, zone_spin_unlock, modify. subst z0. by rewrite lock_unlock. }
  destruct (move_freepages_block_exact z0 p mt Hi0 Hmt Hct Hw) as (l & E & Hi1 & Hm1 & Hr1).
  exists l. split_and!.
  - rewrite E. change (block_free z0 p) with (block_free z p).
    destruct (count_type_unlock z l p (s32 (u32 (s32 (block_free z p)))) mt Hl) as (y & Ey & y' & Ey' & Eu).
    subst z0. rewrite Ey, Ey'. unfold zone_spin_unlock, modify. rewrite Eu. by rewrite !freed_sum.
  - by eapply buddy_inv_congr; [..|exact Hi1].
  - by eapply moved_lists; [..|exact Hm1].
  - exact Hr1.
Qed.

(** The type of a block as the map has it. *)
Lemma relabelled_type z l p mt n c :
  get_pageblock_migratetype (relabelled z l (<[p / pageblock_nr_pages := mt]> (block_mt z)) n c) p = mt.
Proof. unfold get_pageblock_migratetype. simpl. by rewrite lookup_insert_eq. Qed.

(** Giving back undoes the isolation, in between the free pages are not in reach. *)
Lemma isolate_block_roundtrip z p err found z1 :
  zone_ok z → zone_contiguous z → whole_block z p → 0 ≤ p → p + 2 ^ pageblock_order < 2 ^ 31 → MAX_ORDER ≤ 31 →
  memory_isolate_notify p = (err, found) → 0 ≤ found < 2 ^ 31 → page_group_by_mobility_disabled = false →
  in_s 32 (NR_FREE_PAGES z) → in_s 32 (NR_FREE_CMA_PAGES z) →
  is_Some (block_mt z !! (p / pageblock_nr_pages)) →
  isolate_block p z = Ok 0 z1 →
  (zone_ok z1 ∧ get_pageblock_migratetype z1 p = MIGRATE_ISOLATE ∧
   NR_FREE_PAGES z1 = s32 (NR_FREE_PAGES z - block_free z p) ∧ moved z (z <| lists := lists z1 |>) ∧
   (∀ q o mt, q ∈ elems (lists z1) (FreeList o mt) → p ≤ q ≤ block_end p → mt = MIGRATE_ISOLATE)) ∧
  ∃ l, unset_migratetype_isolate p (get_pageblock_migratetype z p) z1 = Ok tt (z <| lists := l |>) ∧
    zone_ok (z <| lists := l |>) ∧ moved z (z <| lists := l |>) ∧
    relisted z p (block_end p) (get_pageblock_migratetype z p) (z <| lists := l |>).
Proof.
  intros Hz Hct Hw Hp Hend Hmax Hno Hfd Hgrp Hnr Hnc [mt Hmt] E.
  pose proof (isolate_block_run z p err found Hz Hct Hw Hp Hend Hmax Hno Hfd) as Hr.
  destruct ((err =? 0) && can_isolate z p found); [|by rewrite Hr in E].
  destruct Hr as (l & E' & Hi & Hm & Hre). rewrite E' in E. injection E as <-.
  set (bm := <[p / pageblock_nr_pages := stored_type MIGRATE_ISOLATE]> (block_mt z)) in *.
  set (z1 := relabelled z l bm _ _).
  assert (Hst : ∀ t, stored_type t = t) by (intros t; unfold stored_type; by rewrite Hgrp).
  assert (Ht1 : get_pageblock_migratetype z1 p = MIGRATE_ISOLATE)
    by (subst z1 bm; rewrite relabelled_type; apply Hst).
  assert (Hz1 : zone_ok z1).
  { apply relabelled_ok; [done..|]. apply relabelled_types; [apply (zo_types z Hz)|apply isolate_type]. }
  split.
  { split_and!; [done|done|done|exact Hm|]. intros q o m Hq Hx. apply (Hre q o m) in Hq as [(_ & _ & ->)|[_ Hn]]; done. }
  pose proof (zo_types z Hz p) as Htp.
  pose proof (unset_run z1 p (get_pageblock_migratetype z p) Hz1 Hct Hw Htp) as Hu.
  rewrite Ht1, Z.eqb_refl in Hu. destruct Hu as (l2 & E2 & Hi2 & Hm2 & Hre2).
  assert (Hm2' : moved z (z <| lists := l2 |>)).
  { apply (moved_trans z (z <| lists := l |>) (z <| lists := l2 |>)); [exact Hm|]. 
    change (moved (z <| lists := l |>) (z <| lists := l |> <| lists := l2 |>)). by apply (moved_lists z1). }
  assert (Hback : ∀ n, in_s 32 n → s32 (s32 (n - block_free z p) + block_free z p) = n).
  { intros n Hn. rewrite swrap_add_l by done. replace (n - _ + _) with n by lia. by apply (swrap_small 32). }
  exists l2. split_and!; [| |exact Hm2'|].
  - rewrite E2. f_equal. change (block_free z1 p) with (block_free z p). rewrite Hst.
    assert (Hbm : <[p / pageblock_nr_pages := get_pageblock_migratetype z p]> (block_mt z1) = block_mt z).
    { subst z1 bm. simpl. rewrite insert_insert_eq. apply insert_id. unfold get_pageblock_migratetype. by rewrite Hmt. }
    rewrite Hbm. change (NR_FREE_PAGES z1) with (s32 (NR_FREE_PAGES z - block_free z p)).
    change (NR_FREE_CMA_PAGES z1) with (cma_minus z p). unfold cma_minus. rewrite (Hback _ Hnr).
    assert (Hc : (if is_migrate_cma (get_pageblock_migratetype z p)
                  then s32 ((if is_migrate_cma (get_pageblock_migratetype z p) then s32 (NR_FREE_CMA_PAGES z - block_free z p)
                             else NR_FREE_CMA_PAGES z) + block_free z p)
                  else if is_migrate_cma (get_pageblock_migratetype z p) then s32 (NR_FREE_CMA_PAGES z - block_free z p)
                       else NR_FREE_CMA_PAGES z) = NR_FREE_CMA_PAGES z).
    { destruct (is_migrate_cma _); [by apply Hback|done]. }
    rewrite Hc. by destruct z.
  - apply (relabelled_ok z l2 (block_mt z) (NR_FREE_PAGES z) (NR_FREE_CMA_PAGES z)); [done| |done|].
    + by eapply buddy_inv_congr; [..|exact Hi2].
    + intros x. apply (zo_types z Hz x).
  - intros q o m. rewrite (Hre2 q o m). destruct Hm as (Hfr & _).
    change (free_at z1 q o) with (free_at (z <| lists := l |>) q o). rewrite (Hfr q o).
    split; (intros [(Hf & Hx & Hmm)|[Hq Hx]]; [by left|right; split; [|done]]).
    + apply (Hre q o m) in Hq as [(_ & ? & _)|[? _]]; done.
    + apply (Hre q o m). right. done.
Qed.

(** Without mobility grouping isolation loses memory: [set_pageblock_migratetype]
    then stores the unmovable type whatever it is given.  When [set_migratetype_isolate]
    succeeds on a block of a consistent zone, its free pages are taken from the count and
    moved to the isolate lists, but the block is not marked; [unset_migratetype_isolate],
    with whatever type, takes it for not isolated and changes nothing, so the free blocks
    stay on lists that no allocation searches. *)
Theorem isolate_ungrouped_lost z p err found z1 mt :
  zone_ok z → zone_contiguous z → whole_block z p → 0 ≤ p → p + 2 ^ pageblock_order < 2 ^ 31 → MAX_ORDER ≤ 31 →
  memory_isolate_notify p = (err, found) → 0 ≤ found < 2 ^ 31 → page_group_by_mobility_disabled = true →
  0 ≤ mt < MIGRATE_TYPES →
  isolate_block p z = Ok 0 z1 →
  unset_migratetype_isolate p mt z1 = Ok tt z1 ∧
  NR_FREE_PAGES z1 = s32 (NR_FREE_PAGES z - block_free z p) ∧
  (∀ q o m, free_at z q o → p ≤ q ≤ block_end p → q ∈ elems (lists z1) (FreeList o m) ↔ m = MIGRATE_ISOLATE).
Proof.
  intros Hz Hct Hw Hp Hend Hmax Hno Hfd Hgrp Hmt E.
  pose proof (isolate_block_run z p err found Hz Hct Hw Hp Hend Hmax Hno Hfd) as Hr.
  destruct ((err =? 0) && can_isolate z p found); [|by rewrite Hr in E].
  destruct Hr as (l & E' & Hi & Hm & Hre). rewrite E' in E. injection E as <-.
  assert (Hst : stored_type MIGRATE_ISOLATE = MIGRATE_UNMOVABLE) by (unfold stored_type; by rewrite Hgrp).
  match goal with |- unset_migratetype_isolate _ _ ?zz = _ ∧ _ => set (z1 := zz) end.
  assert (Hz1 : zone_ok z1).
  { apply relabelled_ok; [done..|]. apply relabelled_types; [apply (zo_types z Hz)|apply isolate_type]. }
  split_and!; [|done|].
  - pose proof (unset_run z1 p mt Hz1 Hct Hw Hmt) as Hu.
    replace (get_pageblock_migratetype z1 p) with MIGRATE_UNMOVABLE in Hu by (symmetry; subst z1; rewrite relabelled_type; apply Hst).
    destruct (Z.eqb_spec MIGRATE_UNMOVABLE MIGRATE_ISOLATE) as [Eq|_]; [|exact Hu].
    exfalso. revert Eq. unfold MIGRATE_UNMOVABLE, MIGRATE_ISOLATE. destruct CONFIG_CMA; lia.
  - intros q o m Hf Hx. change (lists z1) with (lists (z <| lists := l |>)). rewrite (Hre q o m). naive_solver.
Qed.

(** ** Draining *)

Section machine.
Hypothesis some_order : 0 < MAX_ORDER.
Implicit Types k : kernel L1 L2 X.

(** Draining does not touch the types of the blocks. *)
#[local] Hint Extern 1 (frames _ (modify _)) => apply frames_modify; done : frame.

Lemma frame_merge fuel : ∀ p i o l, frames block_mt (merge (L := L1) fuel p i o l).
Proof.
  induction fuel as [|fuel IH]; intros p i o l; cbn [merge]; [apply frames_fail|].
  unfold page_is_buddy, rmv_page_order, add_nr_free, upd_page, VM_BUG_ON. frame; apply IH.
Qed.

Lemma frame_tails l : ∀ p bad, frames block_mt (destroy_tails (L := L1) l p bad).
Proof.
  induction l as [|i l IH]; intros p bad; cbn [destroy_tails]; [apply frames_ret|]. unfold bad_page, upd_page. frame; apply IH.
Qed.

Lemma frame_free_one p o mt : frames block_mt (__free_one_page (L := L1) p o mt).
Proof.
  unfold __free_one_page, free_block, destroy_compound_page, set_page_order, likely_to_merge, page_is_buddy, bad_page,
    add_nr_free, upd_page, VM_BUG_ON.
  frame; (apply frame_merge || apply frame_tails).
Qed.

Lemma frame_drain_list fuel : ∀ mt n b, frames block_mt (drain_list (L := L1) fuel mt n b).
Proof.
  induction fuel as [|fuel IH]; intros mt n b; cbn [drain_list]; [apply frames_fail|]. unfold mod_free_cma_pages.
  frame; (apply frame_free_one || apply IH).
Qed.

Lemma frame_next fuel : ∀ mt b, frames block_mt (next_pcp_list (L := L1) fuel mt b).
Proof. induction fuel as [|fuel IH]; intros mt b; cbn [next_pcp_list]; [apply frames_fail|]. frame; apply IH. Qed.

Lemma frame_drain_lists fuel : ∀ mt n b, frames block_mt (drain_lists (L := L1) fuel mt n b).
Proof.
  induction fuel as [|fuel IH]; intros mt n b; cbn [drain_lists]; [apply frames_fail|].
  frame; (apply frame_next || apply frame_drain_list || apply IH).
Qed.

Lemma frame_drain : frames block_mt (drain_zone (L := L1)).
Proof.
  unfold drain_zone, free_pcppages_bulk, zone_spin_lock, zone_spin_unlock, mod_free_pages. frame. apply frame_drain_lists.
Qed.

(** What draining leaves: the types of the blocks, the sum of free and per-cpu pages, and
    all of a zone whose per-cpu lists are empty. *)
Definition emptied z z' : Prop :=
  block_mt z' = block_mt z ∧ (pcp_pages z = [] → z' = z) ∧
  s32 (NR_FREE_PAGES z' + Z.of_nat (length (pcp_pages z'))) = s32 (NR_FREE_PAGES z + Z.of_nat (length (pcp_pages z))).

#[local] Instance emptied_preorder : PreOrder emptied.
Proof.
  split; [by split|]. intros z1 z2 z3 (A1 & A2 & A3) (B1 & B2 & B3). split_and!; [congruence| |congruence].
  intros Hn. rewrite B2; auto. by rewrite A2.
Qed.

Lemma drain_zone_ok z :
  zone_ok z → ∃ z', drain_zone z = Ok tt z' ∧ zone_ok z' ∧ bounds z' = bounds z ∧ same_memory z z' ∧ emptied z z'.
Proof.
  intros Hz. pose proof Hz as [Z1 Z2 Z3 Z4 Z5 Z6 Z7 Z8]. pose proof (frame_drain z) as Hfr. unfold drain_zone, mbind, M_bind, gets in *.
  destruct (pcp_count z =? 0) eqn:E0; cbn [negb] in *; [by exists z|]. bsimp.
  destruct (free_bulk_spec buddy_value z (pcp_count z)) as
    (ps & z' & E & Hlen & Hi & Hok & Hps & Hfree & Hs & Hl & Hc & Hnr); [done..|lia|].
  rewrite E in *. unfold modify in *. eexists. split; [reflexivity|].
  assert (Hnil : pcp_pages z' = []).
  { apply length_zero_iff_nil. apply Permutation_length in Hps. rewrite length_app in Hps. lia. }
  assert (Hmem : ∀ x, in_zone (z' <| pcp_count := 0 |>) x ↔ in_zone z x).
  { intros x. unfold in_zone. change (is_free (z' <| pcp_count := 0 |>) x) with (is_free z' x).
    change (pcp_pages (z' <| pcp_count := 0 |>)) with (pcp_pages z'). rewrite Hfree, Hps, Hnil, app_nil_r.
    rewrite elem_of_nil. tauto. }
  split_and!; [|by rewrite <- (same_zone_bounds _ _ Hs)|exact Hmem|].
  - pose proof Hs as (_ & _ & Hsp & Hh & Hb & Ht & Hd). split.
    + by eapply buddy_inv_congr; [..|exact Hi].
    + exact Hok.
    + change (pcp_pages (z' <| pcp_count := 0 |>)) with (pcp_pages z'). by rewrite Hnil.
    + exact Hl.
    + simpl. by rewrite Hsp.
    + simpl. by rewrite Hb, Hh.
    + intros x. apply (Ht Z7 x).
    + intros x Hx. apply Hmem in Hx. eapply plain_desc; [|exact (Z8 x Hx)]. exact (Hd x).
  - split_and!; [exact Hfr|intros Hn; rewrite Hn in Z3; simpl in Z3; lia|].
    change (pcp_pages (z' <| pcp_count := 0 |>)) with (pcp_pages z'). rewrite Hnil. simpl. rewrite Hnr, Z.add_0_r.
    rewrite (swrap_small 32) by (try done; apply swrap_range; done). by rewrite Z3.
Qed.

(** The same of all zones of a machine. *)
Definition all_emptied k k' : Prop := ∀ i z, zones k !! i = Some z → ∃ z', zones k' !! i = Some z' ∧ emptied z z'.

Lemma drain_pages_ok zs k :
  zones_ok k → (∀ i, i ∈ zs → is_Some (zones k !! i)) →
  ∃ k', for_each zs (λ i, call_zone i drain_zone) k = Ok tt k' ∧ zones_ok k' ∧ zones_only k k' ∧ same_unused k k' ∧ all_emptied k k'.
Proof.
  revert k. induction zs as [|i zs IH]; intros k Hk Hzs.
  { exists k. split_and!; [done|done|apply zones_only_refl|done|]. intros i z Hz. by exists z. }
  destruct (Hzs i ltac:(left)) as [z Hi]. destruct (Hk i z Hi) as (Hz & _).
  destruct (drain_zone_ok z Hz) as (z' & E & Hz' & Hb & Hm & He).
  pose proof (put_zone_only k i z z' Hi) as Hon.
  destruct (IH (put_zone k i z')) as (k' & E' & Hk' & Hon' & Hu & Hem).
  { by apply (put_zone_ok k i z). }
  { intros j Hj. apply Hon. apply Hzs. by right. }
  exists k'. split_and!; [|done|by eapply zones_only_trans| |].
  - simpl. unfold mbind, M_bind. by rewrite (call_zone_ok k i z drain_zone tt z' Hi E).
  - intros j x. rewrite (Hu j x), (put_zone_unused k i z z' j x Hi). split.
    + intros [[-> Hx]|[_ Hx]]; [|done]. apply (unused_at k i z x Hi). by apply Hm.
    + intros Hx. destruct (decide (j = i)) as [-> | Hne]; [left|by right]. split; [done|].
      apply Hm. by apply (unused_at k i z x Hi).
  - intros j y Hj. destruct (decide (j = i)) as [-> | Hne].
    + assert (y = z) as -> by congruence. destruct (Hem i z') as (y' & Hy' & He'); [simpl; by rewrite lookup_insert_eq|].
      exists y'. split; [done|]. by etrans.
    + apply Hem. simpl. by rewrite lookup_insert_ne by auto.
Qed.

Lemma any_pcp_ok zs k :
  (∀ i, i ∈ zs → is_Some (zones k !! i)) → ∃ b, any_pcp zs k = Ok b k.
Proof.
  induction zs as [|i zs IH]; intros Hzs; [by exists false|]. destruct (Hzs i ltac:(left)) as [z Hi].
  simpl. unfold mbind, M_bind. rewrite (call_zone_ok k i z (gets pcp_count) (pcp_count z) z Hi) by done.
  rewrite (put_zone_id k i z Hi). destruct (negb _); [by exists true|]. apply IH. intros j Hj. apply Hzs. by right.
Qed.

Lemma drain_all_ok k :
  zones_ok k → (∀ i, i ∈ populated_zones → is_Some (zones k !! i)) →
  ∃ k', drain_all_pages k = Ok tt k' ∧ zones_ok k' ∧ zones_only k k' ∧ same_unused k k' ∧ all_emptied k k'.
Proof.
  intros Hk Hzs. unfold drain_all_pages, drain_local_pages, drain_pages, mbind, M_bind.
  destruct (any_pcp_ok populated_zones k Hzs) as [b ->]. destruct b; [by apply drain_pages_ok|].
  exists k. split_and!; [done|done|apply zones_only_refl|done|]. intros i z Hz. by exists z.
Qed.

(** What a machine without per-cpu pages is after draining: the same. *)
Lemma emptied_same k k' : zones_only k k' → all_emptied k k' → (∀ i z, zones k !! i = Some z → pcp_pages z = []) → k' = k.
Proof.
  intros [[zs ->] Hdom] Hem Hno. assert (zs = zones k) as ->; [|by destruct k]. apply map_eq. intros i. simpl in *.
  destruct (zones k !! i) as [z|] eqn:Hz.
  - destruct (Hem i z Hz) as (z' & Hz' & _ & He & _). simpl in Hz'. rewrite Hz'. by rewrite He by (by eapply Hno).
  - apply eq_None_not_Some. intros Hs. apply (Hdom i) in Hs. rewrite Hz in Hs. by destruct Hs.
Qed.

(** The isolation of a block and the drain that follows. *)
Lemma set_isolate_run k p z err found :
  zones_ok k → (∀ i, i ∈ populated_zones → is_Some (zones k !! i)) →
  zones k !! page_zone p = Some z → whole_block z p → 0 ≤ p → p + 2 ^ pageblock_order < 2 ^ 31 → MAX_ORDER ≤ 31 →
  memory_isolate_notify p = (err, found) → 0 ≤ found < 2 ^ 31 →
  if (err =? 0) && can_isolate z p found then
    ∃ l k', let z1 := relabelled z l (<[p / pageblock_nr_pages := stored_type MIGRATE_ISOLATE]> (block_mt z))
             (s32 (NR_FREE_PAGES z - block_free z p)) (cma_minus z p) in
      isolate_block p z = Ok 0 z1 ∧ set_migratetype_isolate p k = Ok 0 k' ∧
      relisted z p (block_end p) MIGRATE_ISOLATE z1 ∧ pcp_pages z1 = pcp_pages z ∧ all_emptied (put_zone k (page_zone p) z1) k' ∧
      zones_only (put_zone k (page_zone p) z1) k' ∧ zones_ok k' ∧ zones_only k k' ∧ same_unused k k'
  else set_migratetype_isolate p k = Ok (- EBUSY) k.
Proof.
  intros Hk Hpz Hi Hw Hp Hend Hmax Hno Hfd. destruct (Hk _ _ Hi) as (Hz & Hct & _).
  pose proof (isolate_block_run z p err found Hz Hct Hw Hp Hend Hmax Hno Hfd) as Hr.
  unfold set_migratetype_isolate, mbind, M_bind.
  destruct ((err =? 0) && can_isolate z p found).
  2: { rewrite (call_zone_ok k _ z _ _ _ Hi Hr), (put_zone_id _ _ _ Hi). done. }
  destruct Hr as (l & E & Hb & Hm & Hre). set (bm := <[_ := _]> _) in *.
  match type of E with _ = Ok 0 ?zz => set (z1 := zz) in * end.
  assert (Hz1 : zone_ok z1).
  { apply relabelled_ok; [done..|]. apply relabelled_types; [apply (zo_types z Hz)|apply isolate_type]. }
  pose proof (put_zone_only k (page_zone p) z z1 Hi) as Hon.
  destruct (drain_all_ok (put_zone k (page_zone p) z1)) as (k' & Ed & Hk' & Hon' & Hu & Hem).
  { by apply (put_zone_ok k _ z). }
  { intros i Hip. apply Hon. by apply Hpz. }
  assert (Hpk : pcp_pages z1 = pcp_pages z).
  { destruct Hm as (_ & _ & _ & _ & Hkp). assert (Hpk : pcp_kept z (z <| lists := l |>)) by apply Hkp.
    change (pcp_pages z1) with (pcp_pages (z <| lists := l |>)). by rewrite (kept_pcp_pages _ _ Hpk). }
  exists l, k'. cbv zeta. fold z1. split_and!; [done| |exact Hre|done|done|done|done|by eapply zones_only_trans|].
  - rewrite (call_zone_ok k _ z _ _ _ Hi E). simpl. by rewrite Ed.
  - intros j x. rewrite (Hu j x), (put_zone_unused k _ z z1 j x Hi).
    assert (Hin : in_zone z1 x ↔ in_zone z x).
    { unfold in_zone. destruct Hm as (Hfr & _). rewrite Hpk.
      change (is_free z1 x) with (is_free (z <| lists := l |>) x). unfold is_free. by setoid_rewrite Hfr. }
    destruct (decide (j = page_zone p)) as [-> | Hne]; [|naive_solver]. rewrite (unused_at k _ z x Hi). naive_solver.
Qed.

(** C16. Isolating a page block of a consistent machine: [set_migratetype_isolate] returns
    0 exactly if the notifiers report no error and the zone is the movable one, or the
    block is movable or of CMA, or it has at most as many used pages off the reclaim lists
    as the notifiers account for; otherwise it returns -EBUSY with nothing changed.
    On success, after the per-cpu lists are drained: the block has the type isolate (the
    unmovable one if grouping by mobility is disabled) and the other blocks have theirs,
    the free and per-cpu pages of the zone together are counted without the pages of the
    block that were free, every zone is consistent, and exactly the pages that were unused
    are unused.  If the zone had no per-cpu page, then every free block of the page block
    is on an isolate list and the others are where they were; otherwise a drained page may
    take pages of the block to another list. *)
Theorem set_migratetype_isolate_exact k p z err found :
  zones_ok k → (∀ i, i ∈ populated_zones → is_Some (zones k !! i)) →
  zones k !! page_zone p = Some z → whole_block z p → 0 ≤ p → p + 2 ^ pageblock_order < 2 ^ 31 → MAX_ORDER ≤ 31 →
  memory_isolate_notify p = (err, found) → 0 ≤ found < 2 ^ 31 →
  if (err =? 0) && ((zone_idx z =? ZONE_MOVABLE) || (get_pageblock_migratetype z p =? MIGRATE_MOVABLE) ||
      is_migrate_cma (get_pageblock_migratetype z p) || (immobile z p pageblock_nr_pages <=? found))
  then
    ∃ k' z', set_migratetype_isolate p k = Ok 0 k' ∧ zones k' !! page_zone p = Some z' ∧
      block_mt z' = <[p / pageblock_nr_pages := stored_type MIGRATE_ISOLATE]> (block_mt z) ∧
      s32 (NR_FREE_PAGES z' + Z.of_nat (length (pcp_pages z'))) =
        s32 (NR_FREE_PAGES z - block_free z p + Z.of_nat (length (pcp_pages z))) ∧
      (pcp_pages z = [] → relisted z p (block_end p) MIGRATE_ISOLATE z') ∧
      zones_ok k' ∧ zones_only k k' ∧ same_unused k k'
  else set_migratetype_isolate p k = Ok (- EBUSY) k.
Proof.
  intros Hk Hpz Hi Hw Hp Hend Hmax Hno Hfd. fold (can_isolate z p found).
  pose proof (set_isolate_run k p z err found Hk Hpz Hi Hw Hp Hend Hmax Hno Hfd) as Hr.
  destruct ((err =? 0) && can_isolate z p found); [|exact Hr]. destruct Hr as (l & k' & Hr). cbv zeta in Hr.
  set (z1 := relabelled z l _ _ _) in Hr. destruct Hr as (_ & E & Hre & Hpcp & Hem & _ & Hk' & Hon & Hu).
  destruct (Hem (page_zone p) z1) as (z' & Hz' & Hbm & Hsame & Hsum); [simpl; apply lookup_insert_eq|].
  exists k', z'. split_and!; [done|done|by rewrite Hbm| | |done|done|done].
  - rewrite Hsum, Hpcp. change (NR_FREE_PAGES z1) with (s32 (NR_FREE_PAGES z - block_free z p)). by rewrite swrap_add_l by done.
  - intros Hn. rewrite Hsame by (by rewrite Hpcp). exact Hre.
Qed.

(** C15. Giving back a page block undoes its isolation.  In a consistent machine with
    grouping by mobility and without per-cpu pages, let [set_migratetype_isolate] succeed on
    a page block.  Then the block is of type isolate, no free block that begins in it is on
    a list that an allocation searches, its free pages are not counted and nothing else
    has changed; and [unset_migratetype_isolate] with the type the block had returns and
    restores the machine up to the order of the free lists: type, counts and everything
    else are those from before, the free memory is the same blocks, each free block of the
    page block is on the list of its type, the others where they were, and the zone is
    consistent. *)
Theorem isolate_roundtrip k p z err found k1 :
  zones_ok k → (∀ i, i ∈ populated_zones → is_Some (zones k !! i)) → (∀ i y, zones k !! i = Some y → pcp_pages y = []) →
  zones k !! page_zone p = Some z → whole_block z p → 0 ≤ p → p + 2 ^ pageblock_order < 2 ^ 31 → MAX_ORDER ≤ 31 →
  memory_isolate_notify p = (err, found) → 0 ≤ found < 2 ^ 31 → page_group_by_mobility_disabled = false →
  in_s 32 (NR_FREE_PAGES z) → in_s 32 (NR_FREE_CMA_PAGES z) →
  is_Some (block_mt z !! (p / pageblock_nr_pages)) →
  set_migratetype_isolate p k = Ok 0 k1 →
  (∃ z1, k1 = put_zone k (page_zone p) z1 ∧
   zone_ok z1 ∧ get_pageblock_migratetype z1 p = MIGRATE_ISOLATE ∧
   NR_FREE_PAGES z1 = s32 (NR_FREE_PAGES z - block_free z p) ∧ moved z (z <| lists := lists z1 |>) ∧
   (∀ q o mt, q ∈ elems (lists z1) (FreeList o mt) → p ≤ q ≤ block_end p → mt = MIGRATE_ISOLATE)) ∧
  ∃ l, call_zone (page_zone p) (unset_migratetype_isolate p (get_pageblock_migratetype z p)) k1 =
      Ok tt (put_zone k (page_zone p) (z <| lists := l |>)) ∧
    zone_ok (z <| lists := l |>) ∧ moved z (z <| lists := l |>) ∧
    relisted z p (block_end p) (get_pageblock_migratetype z p) (z <| lists := l |>).
Proof.
  intros Hk Hpz Hnp Hi Hw Hp Hend Hmax Hno Hfd Hgrp Hnr Hnc Hbt E. destruct (Hk _ _ Hi) as (Hz & Hct & _).
  pose proof (set_isolate_run k p z err found Hk Hpz Hi Hw Hp Hend Hmax Hno Hfd) as Hr.
  destruct ((err =? 0) && can_isolate z p found); [|rewrite Hr in E; discriminate E]. destruct Hr as (l & k' & Hr). cbv zeta in Hr.
  set (z1 := relabelled z l _ _ _) in Hr. destruct Hr as (Eb & E' & _ & Hpcp & Hem & Hon & _).
  rewrite E' in E. injection E as ->.
  assert (k1 = put_zone k (page_zone p) z1) as ->.
  { apply emptied_same; [done|done|]. intros i y. simpl. destruct (decide (i = page_zone p)) as [-> | Hne].
    - rewrite lookup_insert_eq. intros [= <-]. rewrite Hpcp. by eapply Hnp.
    - rewrite lookup_insert_ne by auto. apply Hnp. }
  destruct (isolate_block_roundtrip z p err found z1) as [(F1 & F2 & F3 & F4 & F5) (l' & Eu & G1 & G2 & G3)]; try done.
  split; [by exists z1|]. exists l'. split_and!; [|done|done|done].
  rewrite (call_zone_ok _ _ z1 _ tt _ (lookup_insert_eq _ _ _) Eu). f_equal. unfold put_zone. destruct k. unfold modify_field. simpl.
  by rewrite insert_insert_eq.
Qed.
End machine.
End IsolateSpec.
