(* ===== verification/ContigSpec.v ===== *)
(** * Ranges of isolated pages

    The migration of a range ends after at most five passes per frame; the blocks of an
    isolated range are taken out of the zone for good. *)

From S2P Require Import Prelude KList UserCache TaskWorld OomKill Buddy BuddySpec Pcp PcpSpec PageAlloc PageAllocSpec Isolate IsolateSpec.

Section ContigSpec.
Context {L1 L2 X : Type} `{!EqDecision lhead} `{!KList lhead L1} `{!KListLaws lhead L1}.
Context `{!KList (Z * Z) L2} `{!UserKernel X}.
Context `{!BuddyConfig, !ZoneEnv, !OomEnv} `{!AllocEnv L1 L2 X} `{!IsolateEnv L1 L2 X}.
Hypothesis buddy_value : PAGE_BUDDY_MAPCOUNT_VALUE ≠ -1.
Hypothesis block_order : 0 ≤ pageblock_order.
Implicit Types z : zone L1.
Implicit Types k : kernel L1 L2 X.

(** ** Rounding *)

Lemma align_down_exact pfn :
  0 < MAX_ORDER →
  let a := Z.max MAX_ORDER_PAGES pageblock_nr_pages in
  (a | pfn_max_align_down pfn) ∧ pfn_max_align_down pfn ≤ pfn < pfn_max_align_down pfn + a.
Proof.
  intros Hm a. unfold pfn_max_align_down. fold a.
  assert (Ha : ∃ o, 0 ≤ o ∧ a = 2 ^ o).
  { subst a. unfold MAX_ORDER_PAGES, pageblock_nr_pages. rewrite !shift_one by lia.
    destruct (Z.max_spec (2 ^ (MAX_ORDER - 1)) (2 ^ pageblock_order)) as [[_ ->]|[_ ->]]; eexists; (split; [|reflexivity]); lia. }
  destruct Ha as (o & Ho & ->). pose proof (pow_pos o Ho).
  replace (2 ^ o - 1) with (Z.ones o) by (rewrite Z.ones_equiv; lia).
  rewrite Z.ldiff_ones_r, Z.shiftr_div_pow2, Z.shiftl_mul_pow2 by lia.
  pose proof (Z.div_mod pfn (2 ^ o)). pose proof (Z.mod_pos_bound pfn (2 ^ o)).
  split; [exists (pfn / 2 ^ o); lia|]. lia.
Qed.

(** ** Migration *)

(** The calls of migration return, and scanning makes progress. *)
Record migrate_returns : Prop := {
  mr_signal k : ∃ b k', fatal_signal_pending k = Ok b k';
  mr_prep k : ∃ k', migrate_prep k = Ok tt k';
  mr_scan k zid pfn e : pfn < e → ∃ pfn' l k', isolate_migratepages_range zid pfn e k = Ok (pfn', l) k' ∧ (pfn' = 0 ∨ pfn < pfn');
  mr_migrate k l : ∃ r l' k', migrate_pages l k = Ok (r, l') k';
  mr_putback k l : ∃ k', putback_lru_pages l k = Ok tt k'
}.

Lemma migrate_loop_ends zid e : migrate_returns → ∀ fuel pfn l tries ret k,
  0 ≤ tries ≤ 4 →
  5 * Z.max 0 (e - pfn) + (if bool_decide (l = []) then 0 else 4 - tries) < Z.of_nat fuel →
  ∃ r l' k', migrate_loop fuel zid pfn e l tries ret k = Ok (r, l') k' ∧ (0 ≤ r → l' = []).
Proof.
  intros [Hsig _ Hscan Hmig _]. induction fuel as [|fuel IH]; intros pfn l tries ret k Ht Hf.
  { case_bool_decide; lia. }
  cbn [migrate_loop]. destruct ((pfn <? e) || negb (bool_decide (l = []))) eqn:Eg.
  2: { bsimp. case_bool_decide as El; [|done]. by exists ret, l, k. }
  unfold mbind, M_bind. destruct (Hsig k) as (b & k1 & ->). destruct b.
  { exists (- EINTR), l, k1. split; [done|]. unfold EINTR. lia. }
  case_bool_decide as El.
  - simpl in Eg. rewrite orb_false_r in Eg. bsimp.
    destruct (Hscan k1 zid pfn e Eg) as (pfn' & l' & k2 & -> & Hpr). destruct (pfn' =? 0) eqn:E0.
    { exists (- EINTR), l', k2. split; [done|]. unfold EINTR. lia. }
    bsimp. destruct (Hmig k2 l') as (r & l2 & k3 & ->). apply IH; [lia|]. case_bool_decide; lia.
  - destruct (tries + 1 =? 5) eqn:E5.
    { eexists _, l, k1. split; [reflexivity|]. unfold EBUSY. destruct (ret <? 0) eqn:Er; bsimp; lia. }
    bsimp. destruct (Hmig k1 l) as (r & l2 & k3 & ->). apply IH; [lia|]. case_bool_decide; lia.
Qed.

(** Migration of a range ends: when the calls it makes return and a scan answers 0 or
    a frame behind the one it began with, [__alloc_contig_migrate_range] returns after at
    most five passes per frame of the range, with 0 or a negative error, and puts back the
    pages that could not be migrated; 0 means that there are none. *)
Theorem contig_migrate_ends start e k :
  migrate_returns →
  ∃ r l k1 k', __alloc_contig_migrate_range start e k = Ok r k' ∧ r ≤ 0 ∧
    putback_lru_pages l k1 = Ok tt k' ∧ (r = 0 → l = []).
Proof.
  intros Hm. unfold __alloc_contig_migrate_range, mbind, M_bind. destruct (mr_prep Hm k) as (k0 & ->).
  destruct (migrate_loop_ends (page_zone start) e Hm (migrate_fuel start e) start [] 0 0 k0)
    as (r & l & k1 & -> & Hr); [lia|unfold migrate_fuel; case_bool_decide; [lia|done]|].
  destruct (mr_putback Hm k1 l) as (k' & E). rewrite E.
  exists (if 0 <? r then 0 else r), l, k1, k'. destruct (Z.ltb_spec 0 r); split_and!; done || lia || (intros; apply Hr; lia).
Qed.

(** ** Taking blocks out *)

(** Only flags of the pages [ps] differ. *)
Definition reserved z (P : Z → Prop) z' : Prop :=
  touched z P z' ∧ ∀ x, (page_at z' x) <| page_flags := 0 |> = (page_at z x) <| page_flags := 0 |>.

Lemma reserved_marks z P z' x : reserved z P z' →
  _mapcount (page_at z' x) = _mapcount (page_at z x) ∧ PageCompound z' x = PageCompound z x.
Proof.
  intros [_ Hx]. specialize (Hx x). unfold PageCompound. destruct (page_at z x), (page_at z' x). by simplify_eq/=.
Qed.

Lemma reserve_pages p is_ z :
  ∃ z', for_each is_ (λ i, upd_page (p + i) (λ v, v <| page_flags ::= λ f, Z.lor f PG_reserved |>)) z = Ok tt z' ∧
        reserved z (λ x, x - p ∈ is_) z'.
Proof.
  revert z. induction is_ as [|i is_ IH]; intros z.
  { exists z. split; [done|]. split; [apply touched_refl|done]. }
  simpl. unfold mbind, M_bind, upd_page at 1, modify.
  set (z1 := z <| mem_map ::= _ |>). destruct (IH z1) as (z' & E & Ht & Hp). exists z'. split; [done|]. split.
  - apply (touched_trans z z1).
    + apply touched_upd. replace (p + i - p) with i by lia. left.
    + destruct Ht as (m & -> & Hm). exists m. split; [done|]. intros x Hx. apply Hm. intros Hin. apply Hx. by right.
  - intros x. rewrite Hp. subst z1. unfold page_at. simpl. destruct (decide (x = p + i)) as [-> | Hne].
    + rewrite lookup_insert_eq. simpl. by destruct (default no_page (mem_map z !! (p + i))).
    + by rewrite lookup_insert_ne by done.
Qed.

Section offline.
(** Free memory none of which is compound. *)
Definition out_ok z : Prop := buddy_inv z ∧ ∀ x, is_free z x → PageCompound z x = false.

Lemma offline_block_ok z p o :
  out_ok z → free_at z p o →
  ∃ z', offline_block p z = Ok o z' ∧ out_ok z' ∧
    (∀ q o', free_at z' q o' ↔ free_at z q o' ∧ q ≠ p) ∧
    (∀ x, ¬ covers p o x → buddy_size z' x = buddy_size z x) ∧
    NR_FREE_PAGES z' = s32 (NR_FREE_PAGES z - 2 ^ o) ∧ zone_lock z' = zone_lock z.
Proof.
  intros [Hi Hn] Hf. destruct (bi_block z Hi p o Hf) as (Ho & _ & Hb & Hpr & _).
  assert (Hfp : is_free z p) by (by eapply free_self).
  assert (Hcnt : page_count z p = 0) by (apply free_count; auto).
  unfold offline_block, mbind, M_bind, get. rewrite Hcnt, Hb, Hpr. cbn [negb]. change (0 =? 0) with true. cbn [negb].
  unfold mret at 1 2, M_ret at 1 2. unfold modify at 1.
  rewrite rmv_page_order_ok by done. unfold add_nr_free, mod_free_pages, modify. rewrite shift_one by lia.
  set (z1 := modify_field _ _).
  destruct (reserve_pages p (seqZ 0 (2 ^ o)) z1) as (z' & E & Hres). rewrite E. exists z'. split; [done|].
  assert (Hz1 : ∃ n, z1 = (take_block z p o) <| NR_FREE_PAGES := n |> ∧ n = s32 (NR_FREE_PAGES z - 2 ^ o)).
  { eexists. split; [|reflexivity]. subst z1. unfold take_block. by destruct z. }
  destruct Hz1 as (n & Ez1 & Hn1). clearbody z1. subst z1.
  assert (Hcov : ∀ x, x - p ∈ seqZ 0 (2 ^ o) ↔ covers p o x) by (intros x; rewrite elem_of_seqZ; unfold covers; lia).
  set (y := take_block z p o) in *.
  assert (Hiy : buddy_inv (y <| NR_FREE_PAGES := n |>)) by (eapply buddy_inv_congr; [..|by apply take_block_inv]; done).
  destruct (take_block_result z p o Hi Hf) as (_ & _ & Hidle). fold y in Hidle.
  assert (Hi' : buddy_inv z').
  { apply (touched_inv _ (λ x, x - p ∈ seqZ 0 (2 ^ o)) z' (proj1 Hres) Hiy). intros x Hx. apply Hcov in Hx.
    destruct (Hidle x Hx) as ((Hm & _) & Hnf & _). split; [exact Hnf|].
    rewrite (proj1 (reserved_marks _ _ _ x Hres)). change (page_at (y <| NR_FREE_PAGES := n |>) x) with (page_at y x).
    rewrite Hm. congruence. }
  pose proof Hres as ((m & Ez' & Hm) & _).
  assert (Hfr : ∀ q o', free_at z' q o' ↔ free_at z q o' ∧ q ≠ p).
  { intros q o'. rewrite Ez'. by apply (take_block_free z p o q o'). }
  unfold out_ok. split_and!; [done| |exact Hfr| | |].
  - intros x (q & o' & Hq & Hc). apply Hfr in Hq as [Hq Hne]. rewrite (proj2 (reserved_marks _ _ _ x Hres)).
    assert (x ≠ p). { intros ->. apply Hne. symmetry. apply (bi_disjoint z Hi p o q o' p); [done|done|apply covers_self; lia|done]. }
    change (PageCompound y x = false). unfold PageCompound. subst y. rewrite take_block_page by done.
    apply (Hn x). by exists q, o'.
  - intros x Hx. unfold buddy_size, PageBuddy.
    rewrite (touched_page _ _ z' x (proj1 Hres)) by (by rewrite Hcov).
    change (page_at (y <| NR_FREE_PAGES := n |>) x) with (page_at y x). subst y. rewrite take_block_page; [done|].
    intros ->. apply Hx, covers_self. lia.
  - by rewrite Ez', <- Hn1.
  - by rewrite Ez'.
Qed.

(** The valid frames of [s..e) are in free blocks that begin there. *)
Definition range_free z (s e : Z) : Prop :=
  ∀ x, s ≤ x < e → pfn_valid x = true → ∃ q o, free_at z q o ∧ covers q o x ∧ s ≤ q.

Lemma offline_loop_ok e : ∀ fuel s z,
  out_ok z → range_free z s e → (∀ q o, free_at z q o → s ≤ q < e → pfn_valid q = true) →
  Z.max 0 (e - s) < Z.of_nat fuel → in_s 32 (NR_FREE_PAGES z) →
  ∃ z', offline_loop fuel s e z = Ok tt z' ∧ out_ok z' ∧ zone_lock z' = zone_lock z ∧
    (∀ q o, free_at z' q o ↔ free_at z q o ∧ ¬ s ≤ q < e) ∧
    NR_FREE_PAGES z' = s32 (NR_FREE_PAGES z - free_pages_in z s (e - s)).
Proof.
  induction fuel as [|fuel IH]; intros s z Hok Hr Hv Hfu Hn; [lia|].
  cbn [offline_loop]. destruct (Z.ltb_spec s e) as [Hlt|Hge].
  2: { exists z. split_and!; [done|done|done| |].
       - intros q o. split; [|tauto]. intros; split; [done|lia].
       - unfold free_pages_in. replace (seqZ _ _) with (@nil Z) by (symmetry; apply seqZ_nil; lia). simpl.
         by rewrite Z.sub_0_r, (swrap_small 32 ltac:(done)). }
  pose proof Hok as [Hi Hpl]. unfold free_pages_in. rewrite (sum_cons (buddy_size z) s (e - s)) by lia.
  destruct (pfn_valid s) eqn:Es; cbn [negb].
  2: { assert (Hnf : ∀ o, ¬ free_at z s o) by (intros o Hf; specialize (Hv s o Hf); rewrite Hv in Es; [done|lia]).
       destruct (IH (s + 1) z) as (z' & E & Hok' & Hl & Hf & HN); [done| |intros; by eapply Hv; [|lia]|lia|done|].
       { intros x Hx Hvx. destruct (Hr x ltac:(lia) Hvx) as (q & o & Hq & Hc & Hs). exists q, o. split_and!; [done|done|].
         destruct (decide (q = s)) as [-> | Hne]; [by destruct (Hnf o)|lia]. }
       exists z'. split_and!; [done|done|done| |].
       - intros q o. rewrite Hf. split; intros [Hq Hx]; (split; [done|]); [|lia].
         intros Hy. destruct (decide (q = s)) as [-> | Hne]; [by destruct (Hnf o)|lia].
       - assert (Hsz : buddy_size z s = 0).
         { unfold buddy_size. destruct (PageBuddy z s) eqn:Eb; [by destruct (Hnf _ (bi_flag z Hi s Eb))|done]. }
         rewrite HN, Hsz, Z.add_0_l. unfold free_pages_in. by replace (e - (s + 1)) with (e - s - 1) by lia. }
  destruct (Hr s ltac:(lia) Es) as (q & o & Hf & Hc & Hs).
  assert (q = s) as -> by (unfold covers in Hc; lia).
  destruct (bi_block z Hi s o Hf) as (Ho & _ & Hb & Hpr & _). pose proof (pow_pos o (proj1 Ho)) as Hpow.
  destruct (offline_block_ok z s o Hok Hf) as (z1 & E1 & Hok1 & Hf1 & Hs1 & HN1 & Hl1).
  assert (Hin : ∀ q o', s < q < s + 2 ^ o → ¬ free_at z q o') by (intros; by eapply inner_not_free).
  destruct (IH (s + 2 ^ o) z1) as (z' & E & Hok' & Hl & Hf' & HN); [done| | |lia|rewrite HN1; by apply swrap_range|].
  { intros x Hx Hvx. destruct (Hr x ltac:(lia) Hvx) as (q & o' & Hq & Hcq & Hsq).
    assert (q ≠ s) by (intros ->; rewrite (free_order z s o' o Hi Hq Hf) in Hcq; unfold covers in Hcq; lia).
    exists q, o'. split_and!; [by apply Hf1|done|].
    destruct (Z.le_gt_cases (s + 2 ^ o) q); [done|]. destruct (Hin q o'); [lia|done]. }
  { intros q o' Hq Hx. apply Hf1 in Hq as [Hq _]. apply (Hv q o' Hq). lia. }
  exists z'. unfold mbind, M_bind. rewrite E1, shift_one by lia. split_and!; [done|done|congruence| |].
  - intros q o'. rewrite Hf', Hf1. split.
    + intros [[Hq Hne] Hx]. split; [done|]. intros Hy. apply (Hin q o'); [lia|done].
    + intros [Hq Hx]. split; [split; [done|lia]|lia].
  - rewrite HN, HN1. rewrite swrap_sub_l by done. f_equal.
    assert (Hsz : buddy_size z s = 2 ^ o) by (unfold buddy_size; by rewrite Hb, Hpr).
    rewrite Hsz. unfold free_pages_in.
    rewrite (sumZ_ext (buddy_size z1) (buddy_size z) (seqZ (s + 2 ^ o) (e - (s + 2 ^ o))));
      [|intros x Hx%elem_of_seqZ; apply Hs1; unfold covers; lia].
    rewrite (sum_skip (buddy_size z) (s + 1) (e - s - 1) (2 ^ o - 1));
      [|lia|intros x Hx; apply (inner_size buddy_value z s o x Hi Hf); lia].
    replace (s + 1 + (2 ^ o - 1)) with (s + 2 ^ o) by lia. replace (e - s - 1 - (2 ^ o - 1)) with (e - (s + 2 ^ o)) by lia. lia.
Qed.
End offline.

(** Memory that goes off line leaves the allocator exactly: if every valid frame of
    the range is in a free block that begins in it, [__offline_isolated_pages] returns, no
    check stops it; afterwards exactly the blocks that began in the range are gone from the
    free lists, the other free blocks are untouched, the number of free pages went down by
    the pages of the removed blocks, and the free memory is consistent. *)
Theorem offline_isolated_pages_exact k z s e x :
  s ≤ x < e → pfn_valid x = true → (∀ y, s ≤ y < x → pfn_valid y = false) →
  zones k !! page_zone x = Some z → zone_ok z → in_s 32 (NR_FREE_PAGES z) →
  range_free z s e → (∀ q o, free_at z q o → s ≤ q < e → pfn_valid q = true) →
  ∃ z', __offline_isolated_pages s e k = Ok tt (put_zone k (page_zone x) z') ∧ buddy_inv z' ∧ zone_lock z' = false ∧
    (∀ q o, free_at z' q o ↔ free_at z q o ∧ ¬ s ≤ q < e) ∧
    NR_FREE_PAGES z' = s32 (NR_FREE_PAGES z - free_pages_in z s (e - s)).
Proof.
  intros Hx Hvx Hfirst Hk Hz Hn Hr Hv.
  assert (Hfind : list_find (λ pfn, pfn_valid pfn = true) (seqZ s (e - s)) = Some (Z.to_nat (x - s), x)).
  { apply list_find_Some. split_and!; [|done|].
    - rewrite lookup_seqZ. lia.
    - intros j y Hj Hlt. apply lookup_seqZ in Hj as [-> Hj]. rewrite Hfirst by lia. done. }
  unfold __offline_isolated_pages. rewrite Hfind.
  set (z0 := z <| zone_lock := true |>).
  assert (Hok0 : out_ok z0).
  { split; [eapply buddy_inv_congr; [..|apply (zo_buddy z Hz)]; done|]. intros y Hy. apply (zo_plain z Hz y). by left. }
  destruct (offline_loop_ok e (S (Z.to_nat (e - s))) s z0 Hok0 Hr Hv ltac:(lia) Hn) as (z1 & E & [Hi1 _] & _ & Hf & HN).
  exists (z1 <| zone_lock := false |>). split_and!.
  - apply (call_zone_ok k (page_zone x) z _ tt _ Hk). unfold mbind, M_bind.
    rewrite take_zone_lock by apply (zo_lock z Hz). fold z0. by rewrite E.
  - by eapply buddy_inv_congr; [..|exact Hi1].
  - done.
  - exact Hf.
  - exact HN.
Qed.
End ContigSpec.
