(* ===== verification/IsolateDemo.v ===== *)
(** * Isolation on a small machine

    The machine of [PageAllocSpec.v]: eight pages in two page blocks, the second one free,
    page 0 on a per-cpu list.  The theorems on isolation are applied to it; a page of an
    isolated block that was on a per-cpu list is handed out. *)

From S2P Require Import Prelude KList UserCache TaskWorld OomKill Buddy BuddySpec Pcp PcpSpec PageAlloc PageAllocSpec PageBlock Isolate IsolateSpec ContigSpec.

Module IsolateDemo.
#[local] Existing Instances machine_env machine_alloc.

#[export] Instance iso_env : IsolateEnv lists1 lists2 Z := {
  ZONE_MOVABLE := 3;
  PG_lru := 32;
  PG_reserved := 1024;
  node_online _ := true;
  pfn_valid _ := true;
  memory_isolate_notify _ := (0, 0);
  fatal_signal_pending := mret false;
  migrate_prep := mret tt;
  isolate_migratepages_range _ pfn _ := mret (pfn + 1, [pfn]);
  migrate_pages _ := mret (0, []);
  putback_lru_pages _ := mret tt
}.

(** The second block is movable. *)
Definition typed : zone lists1 := relabelled demo_freed (lists demo_freed) {[1 := MIGRATE_MOVABLE]} 4 0.

Lemma same_lists (z : zone lists1) : buddy_inv z → buddy_inv (z <| lists := lists z |>) ∧ moved z (z <| lists := lists z |>).
Proof. intros Hi. split; [by eapply buddy_inv_congr; [..|exact Hi]|]. by destruct z. Qed.

Lemma typed_ok : zone_ok typed.
Proof.
  destruct (same_lists demo_freed demo_freed_inv) as [Hi Hm].
  apply relabelled_ok; [apply demo_zone_ok|exact Hi|exact Hm|].
  intros p. unfold get_pageblock_migratetype. simpl. destruct (decide (1 = p / pageblock_nr_pages)) as [<- | Hne].
  - rewrite lookup_singleton_eq. by apply demo_type.
  - rewrite lookup_singleton_ne by done. by apply demo_type.
Qed.

Lemma typed_contiguous : zone_contiguous typed.
Proof. by intros _ x _. Qed.

Lemma second_block : whole_block typed 4.
Proof. split; [by exists 1|]. split; by vm_compute. Qed.

(** The machine with this zone, and without per-cpu pages. *)
Definition drained_machine : kernel lists1 lists2 Z := machine <| zones := {[0 := typed]} |>.

Lemma drained_zones : zones_ok drained_machine ∧ ∀ i y, zones drained_machine !! i = Some y → pcp_pages y = [].
Proof.
  split; intros i z Hi; simpl in Hi; apply lookup_singleton_Some in Hi as [<- <-]; [|by vm_compute].
  split_and!; [apply typed_ok|apply typed_contiguous|by vm_compute].
Qed.

Lemma populated_there (k : kernel lists1 lists2 Z) z : zones k = {[0 := z]} → ∀ i, i ∈ populated_zones → is_Some (zones k !! i).
Proof. intros Hk i ->%list_elem_of_singleton. rewrite Hk. by eexists. Qed.

Lemma isolate_roundtrip_witness :
  ∃ k1 l, set_migratetype_isolate 4 drained_machine = Ok 0 k1 ∧
    call_zone 0 (unset_migratetype_isolate 4 MIGRATE_MOVABLE) k1 = Ok tt (put_zone drained_machine 0 (typed <| lists := l |>)) ∧
    zone_ok (typed <| lists := l |>).
Proof.
  destruct (isolate_roundtrip demo_value demo_pageblock demo_max_order drained_machine 4 typed 0 0
    (res_state (set_migratetype_isolate 4 drained_machine)) (proj1 drained_zones)) as (_ & l & E & Hz & _);
    [by eapply populated_there|apply drained_zones|apply lookup_singleton_eq|exact second_block|done|done|done|reflexivity|done|reflexivity|
     done|done|by eexists|vm_compute; reflexivity|].
  eexists _, l. split; [|split; [exact E|exact Hz]]. vm_compute. reflexivity.
Defined.

(** With per-cpu pages in the block the free pages are counted twice: page 0 is on such a
    list when its block is isolated; draining counts it, and giving the block back counts
    it again.  Four pages were free and one was on the list; six are counted. *)
Example drained_page_counted_twice :
  ∃ z k2 z2, zones machine !! 0 = Some z ∧ NR_FREE_PAGES z = 4 ∧ length (pcp_pages z) = 1%nat ∧
    call_zone 0 (unset_migratetype_isolate 0 MIGRATE_UNMOVABLE) (res_state (set_migratetype_isolate 0 machine)) = Ok tt k2 ∧
    zones k2 !! 0 = Some z2 ∧ NR_FREE_PAGES z2 = 6 ∧ pcp_pages z2 = [].
Proof.
  eexists _, _, _. split; [reflexivity|]. split; [vm_compute; reflexivity|]. split; [vm_compute; reflexivity|].
  split; [vm_compute; reflexivity|]. split; [reflexivity|]. split; [vm_compute; reflexivity|vm_compute; reflexivity].
Qed.

Lemma is_free_buddy_page_witness : ∃ b, is_free_buddy_page 6 typed = Ok b typed ∧ (b = true ↔ is_free typed 6).
Proof. exact (is_free_buddy_page_exact typed 6 (zo_buddy _ typed_ok) (zo_lock _ typed_ok)). Defined.

Lemma second_block_pcp : whole_block demo_pcp 4.
Proof. split; [by exists 1|]. split; by vm_compute. Qed.

Lemma set_migratetype_isolate_witness :
  ∃ k' z', set_migratetype_isolate 4 machine = Ok 0 k' ∧ zones k' !! 0 = Some z' ∧ get_pageblock_migratetype z' 4 = MIGRATE_ISOLATE ∧
    zones_ok k' ∧ same_unused machine k'.
Proof.
  pose proof (set_migratetype_isolate_exact demo_value demo_pageblock demo_max_order machine 4 demo_pcp 0 0 machine_zones) as Hs.
  match type of Hs with context [if ?c then _ else _] => replace c with true in Hs by (by vm_compute) end.
  destruct Hs as (k' & z' & E & Hz' & Hbm & _ & _ & Hk & _ & Hu);
    [by eapply populated_there|apply lookup_singleton_eq|exact second_block_pcp|lia|by vm_compute|by vm_compute|reflexivity|lia|].
  exists k', z'. split; [exact E|]. split; [exact Hz'|]. split; [unfold get_pageblock_migratetype; rewrite Hbm; by vm_compute|].
  split; [exact Hk|exact Hu].
Defined.

Lemma demo_migrate_returns : migrate_returns.
Proof.
  split.
  - intros k. by exists false, k.
  - intros k. by exists k.
  - intros k zid pfn e _. exists (pfn + 1), [pfn], k. split; [done|lia].
  - intros k l. by exists 0, [], k.
  - intros k l. by exists k.
Qed.

Lemma contig_migrate_ends_witness :
  ∃ r l k1 k', __alloc_contig_migrate_range 0 4 machine = Ok r k' ∧ r ≤ 0 ∧
    putback_lru_pages l k1 = Ok tt k' ∧ (r = 0 → l = []).
Proof. exact (contig_migrate_ends 0 4 machine demo_migrate_returns). Defined.

Lemma second_block_free : range_free demo_freed 4 8.
Proof.
  intros x Hx _. destruct demo_freed_facts as (Hi & _ & _ & _ & Hf).
  assert (Hb : free_at demo_freed 4 2) by (apply (bi_flag demo_freed Hi 4); reflexivity).
  exists 4, 2. split; [exact Hb|]. split; [unfold covers; simpl; lia|lia].
Qed.

Lemma offline_isolated_pages_witness :
  ∃ z', __offline_isolated_pages 4 8 (machine <| zones := {[0 := demo_freed]} |>) =
        Ok tt (put_zone (machine <| zones := {[0 := demo_freed]} |>) 0 z') ∧ buddy_inv z' ∧ NR_FREE_PAGES z' = 0.
Proof.
  destruct (offline_isolated_pages_exact demo_value (machine <| zones := {[0 := demo_freed]} |>) demo_freed 4 8 4)
    as (z' & E & Hi & _ & _ & Hn); [lia|done|lia|reflexivity|exact demo_zone_ok|by vm_compute|exact second_block_free|done|].
  exists z'. split; [exact E|]. split; [exact Hi|]. rewrite Hn. by vm_compute.
Defined.

(** The comment of [set_migratetype_isolate] says that the page allocator never allocates
    from an isolated block.  Page 0 is on a per-cpu list when its block is isolated;
    draining puts it back on the free list of the type it was freed with, and the next
    allocation of that type gets it. *)
Lemma isolated_page_allocated :
  ∃ k z z', set_migratetype_isolate 0 machine = Ok 0 k ∧ zones k !! 0 = Some z ∧
    get_pageblock_migratetype z 0 = MIGRATE_ISOLATE ∧ __rmqueue 0 MIGRATE_UNMOVABLE z = Ok (Some 0) z'.
Proof. eexists _, _, _. split; [vm_compute; reflexivity|]. split; [reflexivity|]. split; [reflexivity|vm_compute; reflexivity]. Qed.

(** ** The bitmap of the blocks *)

Definition bits : pb_zone := mkPbZone 0 8 0.

Lemma bits_ok : pb_ok 2 3 bits.
Proof. by split. Qed.

Lemma pageblock_flags_witness :
  ∃ z', set_pageblock_flags_group 2 3 MIGRATE_MOVABLE 5 0 2 bits = Ok tt z' ∧ get_pageblock_flags_group 2 3 z' 6 0 2 = MIGRATE_MOVABLE.
Proof.
  destruct (pageblock_flags_roundtrip 2 3 bits 5 0 2 MIGRATE_MOVABLE bits_ok) as [Hin _]; [lia|lia|].
  destruct Hin as (z' & E & _ & _ & Hsame & _); [by vm_compute|]. exists z'. split; [exact E|].
  rewrite (Hsame 6); [reflexivity|by vm_compute|reflexivity].
Defined.
End IsolateDemo.

(** ** Without mobility grouping *)

Module UngroupedDemo.
#[local] Existing Instances machine_env machine_alloc IsolateDemo.iso_env.

#[local] Instance ungrouped : BuddyConfig := {
  MAX_ORDER := 3;
  pageblock_order := 2;
  CONFIG_CMA := true;
  CONFIG_HOLES_IN_ZONE := false;
  page_group_by_mobility_disabled := true;
  pfn_valid_within _ := true;
  page_zone _ := 0;
  PAGE_BUDDY_MAPCOUNT_VALUE := -128;
  PAGE_FLAGS_CHECK_AT_FREE := 1;
  PAGE_FLAGS_CHECK_AT_PREP := 3;
  mem_cgroup_bad_page _ := false;
  GFP_ZERO_flag := 32768;
  GFP_COMP_flag := 16384
}.

Lemma ungrouped_inv : buddy_inv demo_zone.
Proof.
  split; try (by intros; match goal with Hf : free_at demo_zone _ _ |- _ =>
    destruct (demo_not_free _ _ Hf) end).
  - split; [intros h; rewrite demo_elems; apply NoDup_nil_2|]. intros n h h'. by rewrite demo_elems, elem_of_nil.
  - intros p o mt. by rewrite demo_elems, elem_of_nil.
  - intros p Hb. discriminate Hb.
  - intros o. reflexivity.
Qed.

Lemma ungrouped_ok : zone_ok demo_zone.
Proof.
  split; [exact ungrouped_inv| |reflexivity|reflexivity|done|done| |].
  - intros mt p. rewrite demo_elems. by intros ?%elem_of_nil.
  - intros p. by vm_compute.
  - by intros x _.
Qed.

Lemma ungrouped_value : PAGE_BUDDY_MAPCOUNT_VALUE ≠ -1.
Proof. done. Qed.

Lemma ungrouped_pageblock : 0 ≤ pageblock_order.
Proof. done. Qed.

Lemma isolate_ungrouped_lost_witness :
  unset_migratetype_isolate 4 MIGRATE_MOVABLE (res_state (isolate_block 4 demo_zone)) =
  Ok tt (res_state (isolate_block 4 demo_zone)).
Proof.
  destruct (isolate_ungrouped_lost (X := Z) (L2 := lists2) ungrouped_value ungrouped_pageblock demo_zone 4 0 0
    (res_state (isolate_block 4 demo_zone)) MIGRATE_MOVABLE ungrouped_ok) as (E & _);
    [by intros _ x _|split; [by exists 1|split; by vm_compute]|done|done|done|reflexivity|done|reflexivity|by vm_compute|vm_compute; reflexivity|].
  exact E.
Defined.
End UngroupedDemo.
