(* ===== verification/ZoneData.v ===== *)
(** * Nodes and zones of the machine, for their set-up in [page_alloc.c]

    A node has zones of [S top_zone] types.  A zone is that of [Buddy.v] with what
    only the set-up uses; the fallback lists of a node are arrays that end at the
    first null entry.

    The topology (nodes, distances, processors) and what the set-up calls outside of
    this repository are the parameter [NumaEnv].  There is one possible processor, as
    in [Buddy.v]. *)

From stdpp Require Import strings.
From S2P Require Import Prelude KList Buddy.

(** A zone: its node and its type. *)
Definition zone_ref : Type := Z * nat.

Class NumaEnv : Type := {
  MAX_NUMNODES : nat;
  top_zone : nat;                          (** [MAX_NR_ZONES - 1] *)
  ZONE_NORMAL : nat;
  is_highmem : nat → bool;
  online_nodes : list Z;                   (** [for_each_online_node], ascending *)
  memory_nodes : list Z;                   (** [N_HIGH_MEMORY], ascending *)
  numa_node_id : Z;
  gfp_zone_user : nat;                     (** [gfp_zone (GFP_USER)] *)
  gfp_zone_movable : nat;                  (** [gfp_zone (GFP_HIGHUSER_MOVABLE)] *)
  node_distance : Z → Z → Z;
  has_cpus : Z → bool;                     (** [cpumask_of_node] is not empty *)
  PENALTY_FOR_NODE_WITH_CPUS : Z;
  RECLAIM_DISTANCE : Z;
  check_highest_zone : nat → Z → Z;        (** the new [policy_zone] *)
  PAGE_SHIFT : Z;
  SWAP_CLUSTER_MAX : Z;
  int_sqrt : Z → Z;
  rounddown_pow_of_two : Z → Z;
  ffz : Z → Z;                             (** the lowest bit that is 0 *)
  pfn_valid : Z → bool;
  page_to_nid : Z → Z;
  PageReserved : page → bool
}.

(** The two lists of a node, [node_zonelists[0]] and [node_zonelists[1]]. *)
Inductive which_list := Fallback | Thisnode.
#[export] Instance which_list_eq_dec : EqDecision which_list.
Proof. solve_decision. Defined.
#[export] Instance which_list_countable : Countable which_list.
Proof.
  refine (inj_countable' (λ w, match w with Fallback => true | Thisnode => false end)
    (λ b, if b : bool then Fallback else Thisnode) _). by intros [].
Defined.

Record zinfo (L : Type) : Type := mkZinfo {
  zz : zone L;
  present_pages : Z;
  min_cma_pages : Z;
  zone_dirty_balance_reserve : Z;
  inactive_ratio : Z;
  min_unmapped_pages : Z;
  min_slab_pages : Z
}.
Arguments mkZinfo {L}.
Arguments zz {L}.
Arguments present_pages {L}.
Arguments min_cma_pages {L}.
Arguments zone_dirty_balance_reserve {L}.
Arguments inactive_ratio {L}.
Arguments min_unmapped_pages {L}.
Arguments min_slab_pages {L}.
#[export] Instance zinfo_eta L : Settable (zinfo L) := λ r,
  mkZinfo (zz r) (present_pages r) (min_cma_pages r) (zone_dirty_balance_reserve r) (inactive_ratio r)
    (min_unmapped_pages r) (min_slab_pages r).

Record msys (L : Type) : Type := mkMsys {
  zones : gmap zone_ref (zinfo L);
  zonerefs : gmap (Z * which_list) (list (option zone_ref));
  z_to_n : gmap Z (list Z);                (** the cache of each node: nodes of the entries *)
  fullzones : gmap Z (list bool);
  node_load : gmap Z Z;
  node_order : list Z;
  user_zonelist_order : Z;
  current_zonelist_order : Z;
  numa_zonelist_order : string;
  zone_reclaim_mode : Z;
  policy_zone : Z;
  boot_pageset : Z * Z * Z;                (** count, high and batch *)
  vm_total_pages : Z;
  mobility_disabled : bool;                (** [page_group_by_mobility_disabled] *)
  min_free_kbytes : Z;
  sysctl_lowmem_reserve_ratio : gmap nat Z;
  percpu_pagelist_fraction : Z;
  sysctl_min_unmapped_ratio : Z;
  sysctl_min_slab_ratio : Z;
  totalreserve_pages : Z;
  dirty_balance_reserve : Z
}.
Arguments mkMsys {L}.
Arguments zones {L}.
Arguments zonerefs {L}.
Arguments z_to_n {L}.
Arguments fullzones {L}.
Arguments node_load {L}.
Arguments node_order {L}.
Arguments user_zonelist_order {L}.
Arguments current_zonelist_order {L}.
Arguments numa_zonelist_order {L}.
Arguments zone_reclaim_mode {L}.
Arguments policy_zone {L}.
Arguments boot_pageset {L}.
Arguments vm_total_pages {L}.
Arguments mobility_disabled {L}.
Arguments min_free_kbytes {L}.
Arguments sysctl_lowmem_reserve_ratio {L}.
Arguments percpu_pagelist_fraction {L}.
Arguments sysctl_min_unmapped_ratio {L}.
Arguments sysctl_min_slab_ratio {L}.
Arguments totalreserve_pages {L}.
Arguments dirty_balance_reserve {L}.
#[export] Instance msys_eta L : Settable (msys L) := λ s,
  mkMsys (zones s) (zonerefs s) (z_to_n s) (fullzones s) (node_load s) (node_order s) (user_zonelist_order s)
    (current_zonelist_order s) (numa_zonelist_order s) (zone_reclaim_mode s) (policy_zone s) (boot_pageset s) (vm_total_pages s) (mobility_disabled s)
    (min_free_kbytes s) (sysctl_lowmem_reserve_ratio s) (percpu_pagelist_fraction s) (sysctl_min_unmapped_ratio s) (sysctl_min_slab_ratio s) (totalreserve_pages s) (dirty_balance_reserve s).

Section Data.
Context {L : Type} `{KList lhead L} `{BuddyConfig} `{NumaEnv}.

Definition load_zone (z : zone_ref) : M (msys L) (zinfo L) := s ← get; deref (zones s !! z).

Definition store_zone (z : zone_ref) (f : zinfo L → zinfo L) : M (msys L) unit :=
  i ← load_zone z;
  modify (λ s, s <| zones ::= <[z := f i]> |>).

(** Code of one zone. *)
Definition on_zone {A} (z : zone_ref) (m : M (zone L) A) : M (msys L) A := λ s,
  match zones s !! z with
  | None => Err NullDeref s
  | Some i => match m (zz i) with
              | Ok a z' => Ok a (s <| zones ::= <[z := i <| zz := z' |>]> |>)
              | Err f z' => Err f (s <| zones ::= <[z := i <| zz := z' |>]> |>)
              end
  end.

(** [for_each_zone]: by node, by type. *)
Definition all_zones : list zone_ref := n ← online_nodes; (λ t, (n, t)) <$> seq 0 (S top_zone).

Definition present_of (s : msys L) (z : zone_ref) : Z := from_option present_pages 0 (zones s !! z).

Definition populated_zone (s : msys L) (z : zone_ref) : bool := negb (present_of s z =? 0).
End Data.
