(* ===== verification/Zonelist.v ===== *)
(** * Fallback lists: the zonelist part of [page_alloc.c]

    Each node has a list of the zones an allocation on it tries in turn.  With more
    than one node they are ordered by distance, node by node or zone by zone; the
    order is detected or set by the user.  A write outside of the array of a list is a
    fault. *)

From stdpp Require Import strings.
From Stdlib Require Import Ascii.
From S2P Require Import Prelude KList Buddy Pcp ZoneData.

Definition ZONELIST_ORDER_DEFAULT : Z := 0.
Definition ZONELIST_ORDER_NODE : Z := 1.
Definition ZONELIST_ORDER_ZONE : Z := 2.

Section Zonelist.
Context {L : Type} `{KList lhead L} `{BuddyConfig} `{NumaEnv}.
Abbreviation G := (M (msys L)).
Implicit Types (s : msys L).

Definition nr_online_nodes : Z := Z.of_nat (length online_nodes).

Definition MAX_ZONES_PER_ZONELIST : nat := MAX_NUMNODES * S top_zone.

(** [zonelist->_zonerefs[j] = v], for [j] in the array. *)
Definition set_zoneref (l : Z * which_list) (j : nat) (v : option zone_ref) : G unit :=
  s ← get;
  zl ← deref (zonerefs s !! l);
  if decide (j < length zl)%nat then modify (λ s, s <| zonerefs ::= <[l := <[j := v]> zl]> |>) else fail Undefined.

(** ** The zones of one node *)

Fixpoint add_zones (node : Z) (l : Z * which_list) (nr_zones : nat) (zone_type : nat) : G nat :=
  s ← get;
  nr_zones ← (if populated_zone s (node, zone_type) then
                _ ← set_zoneref l nr_zones (Some (node, zone_type));
                _ ← modify (λ s, s <| policy_zone ::= check_highest_zone zone_type |>);
                mret (S nr_zones)
              else mret nr_zones);
  match zone_type with
  | O => mret nr_zones
  | S zone_type' => add_zones node l nr_zones zone_type'
  end.

Definition build_zonelists_node (node : Z) (l : Z * which_list) (nr_zones zone_type : nat) : G nat :=
  if decide (top_zone < zone_type)%nat then fail BugOn else add_zones node l nr_zones zone_type.

(** ** The order *)

Definition EINVAL : Z := 22.

Definition __parse_numa_zonelist_order (str : string) : G Z :=
  let c := match str with String c _ => Some c | EmptyString => None end in
  if bool_decide (c = Some "d"%char ∨ c = Some "D"%char) then
    _ ← modify (λ s, s <| user_zonelist_order := ZONELIST_ORDER_DEFAULT |>); mret 0
  else if bool_decide (c = Some "n"%char ∨ c = Some "N"%char) then
    _ ← modify (λ s, s <| user_zonelist_order := ZONELIST_ORDER_NODE |>); mret 0
  else if bool_decide (c = Some "z"%char ∨ c = Some "Z"%char) then
    _ ← modify (λ s, s <| user_zonelist_order := ZONELIST_ORDER_ZONE |>); mret 0
  else mret (- EINVAL).

(** [strlcpy] into 16 bytes. *)
Definition setup_numa_zonelist_order (str : option string) : G Z :=
  match str with
  | None => mret 0
  | Some str =>
      ret ← __parse_numa_zonelist_order str;
      if ret =? 0 then
        _ ← modify (λ s, s <| numa_zonelist_order := String.substring 0 15 str |>); mret ret
      else mret ret
  end.

(** Sums over the zones of a node, in 32 bits: of those below [ZONE_NORMAL], of all,
    and whether [ZONE_NORMAL] is missing before the sum ends. *)
Fixpoint kmem_sizes s (node : Z) (types : list nat) (low total : Z) : Z * Z * bool :=
  match types with
  | [] => (low, total, false)
  | zt :: types' =>
      if populated_zone s (node, zt) then
        kmem_sizes s node types' (if decide (zt < ZONE_NORMAL)%nat then u32 (low + present_of s (node, zt)) else low)
          (u32 (total + present_of s (node, zt)))
      else if decide (zt = ZONE_NORMAL) then (low, total, true)
      else kmem_sizes s node types' low total
  end.

Fixpoint all_sizes s (nodes : list Z) (low total : Z) : Z * Z * bool :=
  match nodes with
  | [] => (low, total, false)
  | n :: nodes' =>
      let '(low, total, missing) := kmem_sizes s n (seq 0 (S top_zone)) low total in
      if missing : bool then (low, total, true) else all_sizes s nodes' low total
  end.

(** The sums over the zones of a node, none missing. *)
Fixpoint node_sizes s (node : Z) (types : list nat) (low total : Z) : Z * Z :=
  match types with
  | [] => (low, total)
  | zt :: types' =>
      if populated_zone s (node, zt) then
        node_sizes s node types' (if decide (zt < ZONE_NORMAL)%nat then u32 (low + present_of s (node, zt)) else low)
          (u32 (total + present_of s (node, zt)))
      else node_sizes s node types' low total
  end.

Definition big_low_node s (average_size : Z) (n : Z) : bool :=
  let '(low, total) := node_sizes s n (seq 0 (S top_zone)) 0 0 in
  negb (low =? 0) && (u32 average_size <? total) && (u32 (total * 70) / 100 <? low).

Definition default_zonelist_order s : Z :=
  let '(low, total, missing) := all_sizes s online_nodes 0 0 in
  if missing : bool then ZONELIST_ORDER_NODE
  else if (low =? 0) || (total / 2 <? low) then ZONELIST_ORDER_NODE
  else
    let average_size := s32 (total / (Z.of_nat (length memory_nodes) + 1)) in
    if existsb (big_low_node s average_size) online_nodes then ZONELIST_ORDER_NODE else ZONELIST_ORDER_ZONE.

Definition set_zonelist_order : G unit :=
  modify (λ s, s <| current_zonelist_order :=
    if user_zonelist_order s =? ZONELIST_ORDER_DEFAULT then default_zonelist_order s else user_zonelist_order s |>).

(** ** The lists of a node, several nodes *)

Definition MAX_NODE_LOAD : Z := nr_online_nodes.

(** How far away a node is taken to be. *)
Definition node_value (s : msys L) (node n : Z) : Z :=
  let val := node_distance node n in
  let val := s32 (val + (if n <? node then 1 else 0)) in
  let val := if has_cpus n then s32 (val + PENALTY_FOR_NODE_WITH_CPUS) else val in
  let val := s32 (val * s32 (MAX_NODE_LOAD * Z.of_nat MAX_NUMNODES)) in
  s32 (val + default 0 (node_load s !! n)).

Definition INT_MAX : Z := 2 ^ 31 - 1.

Fixpoint closest (s : msys L) (node : Z) (used : gset Z) (ns : list Z) (min_val best_node : Z) : Z :=
  match ns with
  | [] => best_node
  | n :: ns' =>
      if decide (n ∈ used) then closest s node used ns' min_val best_node
      else
        let val := node_value s node n in
        if val <? min_val then closest s node used ns' val n else closest s node used ns' min_val best_node
  end.

(** The next node, or -1, and the nodes used then. *)
Definition find_next_best_node (node : Z) (used_node_mask : gset Z) : G (Z * gset Z) :=
  if negb (bool_decide (node ∈ used_node_mask)) then mret (node, {[node]} ∪ used_node_mask)
  else
    s ← get;
    let best_node := closest s node used_node_mask memory_nodes INT_MAX (-1) in
    if 0 <=? best_node then mret (best_node, {[best_node]} ∪ used_node_mask) else mret (best_node, used_node_mask).

(** The index of the first null entry. *)
Fixpoint first_null (zl : list (option zone_ref)) : option nat :=
  match zl with
  | [] => None
  | None :: _ => Some O
  | Some _ :: zl' => S <$> first_null zl'
  end.

Definition build_zonelists_in_node_order (nid node : Z) : G unit :=
  s ← get;
  zl ← deref (zonerefs s !! (nid, Fallback));
  match first_null zl with
  | None => fail Undefined
  | Some j =>
      j ← build_zonelists_node node (nid, Fallback) j top_zone;
      set_zoneref (nid, Fallback) j None
  end.

Definition build_thisnode_zonelists (nid : Z) : G unit :=
  j ← build_zonelists_node nid (nid, Thisnode) 0 top_zone;
  set_zoneref (nid, Thisnode) j None.

(** One type of zone, on the first [nr_nodes] nodes of the order. *)
Fixpoint add_type (nid : Z) (zone_type : nat) (nodes : list Z) (pos : nat) : G nat :=
  match nodes with
  | [] => mret pos
  | node :: nodes' =>
      s ← get;
      pos ← (if populated_zone s (node, zone_type) then
               _ ← set_zoneref (nid, Fallback) pos (Some (node, zone_type));
               _ ← modify (λ s, s <| policy_zone ::= check_highest_zone zone_type |>);
               mret (S pos)
             else mret pos);
      add_type nid zone_type nodes' pos
  end.

Fixpoint add_types (nid : Z) (zone_type : nat) (nodes : list Z) (pos : nat) : G nat :=
  pos ← add_type nid zone_type nodes pos;
  match zone_type with
  | O => mret pos
  | S zone_type' => add_types nid zone_type' nodes pos
  end.

Definition build_zonelists_in_zone_order (nid : Z) (nr_nodes : nat) : G unit :=
  s ← get;
  pos ← add_types nid top_zone (take nr_nodes (node_order s)) 0;
  set_zoneref (nid, Fallback) pos None.

(** The loop over the nodes by distance; a node is chosen once. *)
Fixpoint order_nodes (fuel : nat) (local_node order : Z) (used : gset Z) (load prev_node : Z) (j : nat) : G nat :=
  match fuel with
  | O => fail OutOfFuel
  | S fuel' =>
      nu ← find_next_best_node local_node used;
      let '(node, used) := nu in
      if node <? 0 then mret j
      else
        let distance := node_distance local_node node in
        _ ← (if RECLAIM_DISTANCE <? distance then modify (λ s, s <| zone_reclaim_mode := 1 |>) else mret tt);
        _ ← (if negb (distance =? node_distance local_node prev_node)
             then modify (λ s, s <| node_load ::= <[node := load]> |>) else mret tt);
        if order =? ZONELIST_ORDER_NODE then
          _ ← build_zonelists_in_node_order local_node node;
          order_nodes fuel' local_node order used (s32 (load - 1)) node j
        else
          s ← get;
          if decide (j < length (node_order s))%nat then
            _ ← modify (λ s, s <| node_order ::= <[j := node]> |>);
            order_nodes fuel' local_node order used (s32 (load - 1)) node (S j)
          else fail Undefined
  end.

(** Every node with memory is chosen once, and the node itself. *)
Definition nodes_bound : nat := S (S (length memory_nodes)).

Definition build_zonelists (nid : Z) : G unit :=
  s ← get;
  let order := current_zonelist_order s in
  _ ← set_zoneref (nid, Fallback) 0 None;
  _ ← set_zoneref (nid, Thisnode) 0 None;
  _ ← modify (λ s, s <| node_order ::= fmap (λ _, 0) |>);
  j ← order_nodes nodes_bound nid order ∅ nr_online_nodes nid 0;
  _ ← (if order =? ZONELIST_ORDER_ZONE then build_zonelists_in_zone_order nid j else mret tt);
  build_thisnode_zonelists nid.

Definition build_zonelist_cache (nid : Z) : G unit :=
  s ← get;
  zl ← deref (zonerefs s !! (nid, Fallback));
  match first_null zl with
  | None => fail Undefined
  | Some k =>
      modify (λ s, s <| fullzones ::= <[nid := replicate MAX_ZONES_PER_ZONELIST false]> |>
                     <| z_to_n ::= <[nid := omap (fmap fst) (take k zl)]> |>)
  end.

(** A page set with an empty list: its count, its high mark and its batch. *)
Definition new_pageset (batch : Z) : Z * Z * Z := (0, s32 (6 * batch), s32 (Z.max 1 (1 * batch))).

Definition __build_all_zonelists : G unit :=
  _ ← modify (λ s, s <| node_load := ∅ |>);
  _ ← for_each online_nodes (λ nid, _ ← build_zonelists nid; build_zonelist_cache nid);
  modify (λ s, s <| boot_pageset := new_pageset 0 |>).

(** The entries of a list up to the first null one. *)
Fixpoint entries (zl : list (option zone_ref)) : list zone_ref :=
  match zl with Some z :: zl' => z :: entries zl' | _ => [] end.

(** [for_each_zone_zonelist]: the entries of types up to [offset]. *)
Fixpoint sum_free (s : msys L) (zs : list zone_ref) (offset : nat) (sum : Z) : G Z :=
  match zs with
  | [] => mret sum
  | z :: zs' =>
      if decide (offset < z.2)%nat then sum_free s zs' offset sum
      else
        i ← deref (zones s !! z);
        let size := present_pages i in
        let high := default 0 (watermark (zz i) !! WMARK_HIGH) in
        sum_free s zs' offset (if high <? size then u32 (sum + u32 (size - high)) else sum)
  end.

Definition nr_free_zone_pages (offset : nat) : G Z :=
  s ← get;
  zl ← deref (zonerefs s !! (numa_node_id, Fallback));
  sum_free s (entries zl) offset 0.

Definition nr_free_buffer_pages : G Z := nr_free_zone_pages gfp_zone_user.

Definition nr_free_pagecache_pages : G Z := nr_free_zone_pages gfp_zone_movable.

(** Without memory hotplug [data] is not used, and booting or not the lists are built
    while nobody uses them. *)
Definition build_all_zonelists : G unit :=
  _ ← set_zonelist_order;
  _ ← __build_all_zonelists;
  n ← nr_free_pagecache_pages;
  modify (λ s, s <| vm_total_pages := n |>
                 <| mobility_disabled := n <? u32 (pageblock_nr_pages * MIGRATE_TYPES) |>).

(** What [proc_dostring] answers and writes is outside: [ret], and the string after
    it. *)
Definition numa_zonelist_order_handler (write : bool) (ret : Z) (str : string) : G Z :=
  s ← get;
  let saved_string := numa_zonelist_order s in
  _ ← modify (λ s, s <| numa_zonelist_order := str |>);
  if negb (ret =? 0) then mret ret
  else if negb write then mret ret
  else
    let oldval := user_zonelist_order s in
    bad ← __parse_numa_zonelist_order str;
    _ ← (if negb (bad =? 0) then
           modify (λ s, s <| numa_zonelist_order := saved_string |> <| user_zonelist_order := oldval |>)
         else
           s ← get;
           if negb (oldval =? user_zonelist_order s) then build_all_zonelists else mret tt);
    mret ret.

(** ** The lists of a node, distance unknown *)

Fixpoint add_nodes (nodes : list Z) (nid : Z) (j : nat) : G nat :=
  match nodes with
  | [] => mret j
  | node :: nodes' =>
      if negb (bool_decide (node ∈ online_nodes)) then add_nodes nodes' nid j
      else
        j ← build_zonelists_node node (nid, Fallback) j top_zone;
        add_nodes nodes' nid j
  end.

Definition build_zonelists_flat (nid : Z) : G unit :=
  j ← build_zonelists_node nid (nid, Fallback) 0 top_zone;
  j ← add_nodes (seqZ (nid + 1) (Z.of_nat MAX_NUMNODES - (nid + 1))) nid j;
  j ← add_nodes (seqZ 0 nid) nid j;
  set_zoneref (nid, Fallback) j None.
End Zonelist.
