(* ===== verification/ZonelistSpec.v ===== *)
(** * Fallback lists are complete and ordered

    The list built for a node has every populated zone of the nodes with memory once,
    the nodes in the order of their distance; nothing is written outside of the
    arrays, and the loops end. *)

From stdpp Require Import sorting strings.
From Stdlib Require Import Ascii.
From S2P Require Import Prelude KList Buddy Pcp ZoneData Zonelist.

(** ** Arrays that end at a null entry *)

Abbreviation refs := (list (option zone_ref)).

(** The first entries of the array. *)
Definition begins (zl : refs) (es : list zone_ref) : Prop := ∃ rest, zl = (Some <$> es) ++ rest.

(** All entries of the array. *)
Definition holds (zl : refs) (es : list zone_ref) : Prop := ∃ rest, zl = (Some <$> es) ++ None :: rest.

Lemma begins_nil zl : begins zl [].
Proof. by exists zl. Qed.

Lemma holds_begins zl es : holds zl es → begins zl es.
Proof. intros [rest ->]. by eexists. Qed.

Lemma begins_snoc zl es z : begins zl es → (length es < length zl)%nat → begins (<[length es := Some z]> zl) (es ++ [z]).
Proof.
  intros [rest ->] Hlen. rewrite length_app, length_fmap in Hlen. destruct rest as [|x rest]; [simpl in Hlen; lia|].
  exists rest. replace (length es) with (length (Some <$> es) + 0)%nat by (rewrite length_fmap; lia).
  rewrite insert_app_r, fmap_app, <- app_assoc. done.
Qed.

Lemma holds_end zl es : begins zl es → (length es < length zl)%nat → holds (<[length es := None]> zl) es.
Proof.
  intros [rest ->] Hlen. rewrite length_app, length_fmap in Hlen. destruct rest as [|x rest]; [simpl in Hlen; lia|].
  exists rest. replace (length es) with (length (Some <$> es) + 0)%nat by (rewrite length_fmap; lia).
  by rewrite insert_app_r.
Qed.

Lemma holds_first_null zl es : holds zl es → first_null zl = Some (length es).
Proof. intros [rest ->]. induction es as [|e es IH]; [done|]. csimpl. by rewrite IH. Qed.

Lemma holds_entries zl es : holds zl es → entries zl = es.
Proof. intros [rest ->]. induction es as [|e es IH]; [done|]. csimpl. by rewrite IH. Qed.

Lemma holds_length zl es : holds zl es → (length es < length zl)%nat.
Proof. intros [rest ->]. rewrite length_app, length_fmap. simpl. lia. Qed.

Lemma length_take_le_all {A} k (l : list A) : (length (take k l) ≤ k)%nat.
Proof. rewrite length_take. lia. Qed.

Section Spec.
Context {L : Type} `{KList lhead L} `{BuddyConfig} `{NumaEnv}.
Implicit Types (s : msys L).

(** ** The zones of a node *)

(** The populated zones of a node from type [zt] down. *)
Fixpoint zones_from s (n : Z) (zt : nat) : list zone_ref :=
  (if populated_zone s (n, zt) then [(n, zt)] else []) ++
  match zt with O => [] | S zt' => zones_from s n zt' end.

Definition zones_of s (n : Z) : list zone_ref := zones_from s n top_zone.

Lemma zones_from_in s n zt z : z ∈ zones_from s n zt ↔ z.1 = n ∧ (z.2 ≤ zt)%nat ∧ populated_zone s z = true.
Proof.
  destruct z as [m t]. induction zt as [|zt IH]; simpl; rewrite elem_of_app.
  - destruct (populated_zone s (n, 0%nat)) eqn:Hp; rewrite ?list_elem_of_singleton, ?elem_of_nil.
    + split; [intros [[= -> ->]|[]]; auto|]. intros (-> & Ht & _). left. f_equal. simpl in *. lia.
    + split; [by intros [[]|[]]|]. intros (-> & Ht & Hpp). simpl in *. assert (t = 0%nat) as -> by lia. congruence.
  - rewrite IH. destruct (populated_zone s (n, S zt)) eqn:Hp; rewrite ?list_elem_of_singleton, ?elem_of_nil; simpl.
    + split; [intros [[= -> ->]|(-> & ? & ?)]; auto with lia|]. intros (-> & Ht & Hpp).
      destruct (decide (t = S zt)) as [->|]; [by left|right]. auto with lia.
    + split; [intros [[]|(-> & ? & ?)]; auto with lia|]. intros (-> & Ht & Hpp).
      destruct (decide (t = S zt)) as [->|]; [congruence|right]. auto with lia.
Qed.

Lemma zones_from_length s n zt : (length (zones_from s n zt) ≤ S zt)%nat.
Proof.
  induction zt as [|zt IH]; cbn [zones_from]; rewrite length_app; destruct (populated_zone _ _); cbn [length].
  1, 2: lia. all: unfold zone_ref in *; lia.
Qed.

Lemma zones_from_nodup s n zt : NoDup (zones_from s n zt).
Proof.
  induction zt as [|zt IH]; simpl; destruct (populated_zone _ _); simpl; try apply NoDup_singleton; try constructor; try done.
  intros Hin. apply zones_from_in in Hin as (_ & Hle & _). simpl in Hle. lia.
Qed.

Lemma zones_from_zones s s' n zt : zones s' = zones s → zones_from s' n zt = zones_from s n zt.
Proof.
  intros Hz. assert (∀ z, populated_zone s' z = populated_zone s z) as Hp
    by (intros z; unfold populated_zone, present_of; by rewrite Hz).
  induction zt as [|zt IH]; simpl; rewrite Hp; [done|by rewrite IH].
Qed.

(** ** Writing to a list *)

(** Nothing but the list [l] changes, and the policy zone. *)
Definition wrote (l : Z * which_list) s (zl : refs) s' : Prop :=
  ∃ pz, s' = s <| zonerefs ::= <[l := zl]> |> <| policy_zone := pz |>.

Lemma wrote_trans l s zl s' zl' s'' : wrote l s zl s' → wrote l s' zl' s'' → wrote l s zl' s''.
Proof. intros [pz ->] [pz' ->]. exists pz'. destruct s. unfold modify_field. simpl. by rewrite insert_insert_eq. Qed.

Lemma wrote_refl l s zl : zonerefs s !! l = Some zl → wrote l s zl s.
Proof. intros Hl. exists (policy_zone s). destruct s. unfold modify_field. simpl in *. by rewrite insert_id. Qed.

Lemma wrote_lookup l s zl s' : wrote l s zl s' → zonerefs s' !! l = Some zl.
Proof. intros [pz ->]. simpl. apply lookup_insert_eq. Qed.

Lemma wrote_zones l s zl s' : wrote l s zl s' → zones s' = zones s.
Proof. by intros [pz ->]. Qed.

Lemma set_zoneref_ok l j v s zl :
  zonerefs s !! l = Some zl → (j < length zl)%nat → returns (set_zoneref l j v) s (λ _ s', wrote l s (<[j := v]> zl) s').
Proof.
  intros Hl Hj. unfold set_zoneref. apply returns_bind. eapply returns_eq; [reflexivity|].
  apply returns_bind. eapply returns_eq; [by rewrite Hl|]. rewrite decide_True by done.
  eapply returns_eq; [reflexivity|]. exists (policy_zone s). by destruct s.
Qed.

(** One zone, if it is populated. *)
Lemma list_zone_ok l s zl es z (t : nat) :
  zonerefs s !! l = Some zl → begins zl es → (length es < length zl)%nat →
  returns (if populated_zone s z then
             _ ← set_zoneref l (length es) (Some z);
             _ ← modify (λ s, s <| policy_zone ::= check_highest_zone t |>);
             mret (S (length es))
           else mret (length es)) s (λ n s', ∃ zl',
    let es' := es ++ (if populated_zone s z then [z] else []) in
    n = length es' ∧ wrote l s zl' s' ∧ begins zl' es' ∧ length zl' = length zl).
Proof.
  intros Hl Hb Hlen. cbv zeta. destruct (populated_zone s z).
  - apply returns_bind. eapply returns_mono; [by apply set_zoneref_ok|]. intros [] s1 Hw.
    apply returns_bind. eapply returns_eq; [reflexivity|]. apply returns_ret. exists (<[length es := Some z]> zl).
    split_and!; [rewrite length_app; simpl; lia| |by apply begins_snoc|by rewrite length_insert].
    destruct Hw as [pz ->]. eexists. destruct s. reflexivity.
  - apply returns_ret. exists zl. rewrite app_nil_r. split_and!; [done|by apply wrote_refl|done|done].
Qed.

Lemma add_zones_ok node l zt : ∀ s zl es,
  zonerefs s !! l = Some zl → begins zl es → (length es + zt < length zl)%nat →
  returns (add_zones node l (length es) zt) s (λ n s', ∃ zl',
    let es' := es ++ zones_from s node zt in
    n = length es' ∧ wrote l s zl' s' ∧ begins zl' es' ∧ length zl' = length zl).
Proof.
  induction zt as [|zt IH]; intros s zl es Hl Hb Hlen; cbn [add_zones zones_from]; apply returns_bind;
    (eapply returns_eq; [reflexivity|]); apply returns_bind;
    (eapply returns_mono; [apply list_zone_ok; [done|done|lia]|]); intros n s1 (zl1 & -> & Hw1 & Hb1 & Hl1).
  - apply returns_ret. exists zl1. by rewrite app_nil_r.
  - rewrite app_assoc. eapply returns_mono; [eapply (IH s1 zl1); [by eapply wrote_lookup|done|]|].
    { rewrite length_app. destruct (populated_zone _ _); simpl; lia. }
    intros n s2 (zl2 & -> & Hw2 & Hb2 & Hl2). exists zl2. rewrite (zones_from_zones s s1) in * by (by eapply wrote_zones).
    split_and!; [done|by eapply wrote_trans|done|lia].
Qed.

Lemma build_zonelists_node_ok node l s zl es :
  zonerefs s !! l = Some zl → begins zl es → (length es + top_zone < length zl)%nat →
  returns (build_zonelists_node node l (length es) top_zone) s (λ n s', ∃ zl',
    let es' := es ++ zones_of s node in
    n = length es' ∧ wrote l s zl' s' ∧ begins zl' es' ∧ length zl' = length zl).
Proof. intros Hl Hb Hlen. unfold build_zonelists_node. rewrite decide_False by lia. by apply add_zones_ok. Qed.

Lemma thisnode_ok nid s zl :
  zonerefs s !! (nid, Thisnode) = Some zl → (S top_zone < length zl)%nat →
  returns (build_thisnode_zonelists nid) s (λ _ s', ∃ zl',
    wrote (nid, Thisnode) s zl' s' ∧ holds zl' (zones_of s nid) ∧ length zl' = length zl).
Proof.
  intros Hl Hlen. unfold build_thisnode_zonelists. apply returns_bind.
  eapply returns_mono; [apply (build_zonelists_node_ok nid _ s zl []); [done|apply begins_nil|simpl; lia]|].
  intros n s1 (zl1 & -> & Hw1 & Hb1 & Hl1). pose proof (zones_from_length s nid top_zone) as Hz. simpl in *. fold (zones_of s nid) in Hz.
  eapply returns_mono; [eapply set_zoneref_ok; [by eapply wrote_lookup|lia]|]. intros [] s2 Hw2.
  eexists. split_and!; [by eapply wrote_trans|apply holds_end; [done|lia]|by rewrite length_insert].
Qed.

Lemma node_order_ok nid node s zl es :
  zonerefs s !! (nid, Fallback) = Some zl → holds zl es → (length es + S top_zone < length zl)%nat →
  returns (build_zonelists_in_node_order nid node) s (λ _ s', ∃ zl',
    wrote (nid, Fallback) s zl' s' ∧ holds zl' (es ++ zones_of s node) ∧ length zl' = length zl).
Proof.
  intros Hl Hh Hlen. unfold build_zonelists_in_node_order. apply returns_bind. eapply returns_eq; [reflexivity|].
  apply returns_bind. eapply returns_eq; [by rewrite Hl|]. rewrite (holds_first_null _ _ Hh). apply returns_bind.
  eapply returns_mono; [apply build_zonelists_node_ok; [done|by apply holds_begins|lia]|].
  intros n s1 (zl1 & -> & Hw1 & Hb1 & Hl1). pose proof (zones_from_length s node top_zone) as Hz. fold (zones_of s node) in Hz.
  assert (length (es ++ zones_of s node) < length zl1)%nat by (rewrite length_app; lia).
  eapply returns_mono; [eapply set_zoneref_ok; [by eapply wrote_lookup|lia]|]. intros [] s2 Hw2.
  eexists. split_and!; [by eapply wrote_trans|by apply holds_end|by rewrite length_insert].
Qed.

(** ** The order of the nodes *)

(** How far a node is: its distance, one more for a node below, and a penalty for one
    with processors. *)
Definition farness (node n : Z) : Z :=
  node_distance node n + (if n <? node then 1 else 0) + (if has_cpus n then PENALTY_FOR_NODE_WITH_CPUS else 0).

(** With what spreads the load over nodes that are equally far. *)
Definition remoteness (loads : gmap Z Z) (node n : Z) : Z :=
  farness node n * (nr_online_nodes * Z.of_nat MAX_NUMNODES) + default 0 (loads !! n).

(** A machine the code is made for: the values fit. *)
Class NumaLaws : Prop := {
  nl_nodup : NoDup memory_nodes;
  nl_online_nodup : NoDup online_nodes;
  nl_here : numa_node_id ∈ online_nodes;
  nl_memory : ∀ n, n ∈ memory_nodes → n ∈ online_nodes;
  nl_range : ∀ n, n ∈ memory_nodes ∨ n ∈ online_nodes → 0 ≤ n < Z.of_nat MAX_NUMNODES;
  nl_many : Z.of_nat MAX_NUMNODES < 2 ^ 14;
  nl_online : (length online_nodes ≤ MAX_NUMNODES)%nat;
  nl_penalty : 0 ≤ PENALTY_FOR_NODE_WITH_CPUS;
  nl_distance : ∀ a b, 0 ≤ node_distance a b ∧
    (node_distance a b + 1 + PENALTY_FOR_NODE_WITH_CPUS) * (nr_online_nodes * Z.of_nat MAX_NUMNODES) < 2 ^ 30
}.

Definition load_ok (loads : gmap Z Z) : Prop := ∀ n, 0 ≤ default 0 (loads !! n) ≤ nr_online_nodes.

Context `{!NumaLaws}.

Lemma node_value_eq s node n : load_ok (node_load s) →
  node_value s node n = remoteness (node_load s) node n ∧ remoteness (node_load s) node n < INT_MAX.
Proof.
  intros Hl. specialize (Hl n). destruct (nl_distance node n) as [Hd Hb]. pose proof nl_penalty as Hp.
  pose proof nl_many. pose proof nl_online. unfold node_value, remoteness, farness, MAX_NODE_LOAD, INT_MAX.
  assert (0 ≤ nr_online_nodes ≤ Z.of_nat MAX_NUMNODES) as Hn by (unfold nr_online_nodes; lia).
  set (K := nr_online_nodes * Z.of_nat MAX_NUMNODES) in *. assert (0 ≤ K < 2 ^ 28) as HK.
  { change (2 ^ 14) with 16384 in *. change (2 ^ 28) with 268435456. unfold K. nia. }
  clearbody K.
  set (d := node_distance node n) in *. set (P := PENALTY_FOR_NODE_WITH_CPUS) in *.
  change (2 ^ 30) with 1073741824 in *. change (2 ^ 28) with 268435456 in *. change (2 ^ 14) with 16384 in *.
  change (2 ^ 31) with 2147483648. destruct (decide (K = 0)) as [->|HK0].
  { change (s32 0) with 0. rewrite !Z.mul_0_r. change (s32 0) with 0.
    rewrite swrap_small by (widths; lia). lia. }
  assert (d + 1 + P < 1073741824) by nia.
  rewrite (swrap_small 32 ltac:(done) K) by (widths; lia).
  rewrite (swrap_small 32 ltac:(done) (d + _)) by (widths; destruct (n <? node); lia).
  destruct (has_cpus n); rewrite ?(swrap_small 32 ltac:(done) (_ + P)) by (widths; destruct (n <? node); lia).
  all: rewrite (swrap_small 32 ltac:(done) (_ * K)) by (widths; destruct (n <? node); nia).
  all: rewrite swrap_small by (widths; destruct (n <? node); nia).
  all: split; [f_equal; f_equal; lia|destruct (n <? node); nia].
Qed.

(** The load never outweighs the distance. *)
Lemma remote_far loads node a b :
  load_ok loads → a ∈ memory_nodes → b ∈ memory_nodes → remoteness loads node a ≤ remoteness loads node b → farness node a ≤ farness node b.
Proof.
  intros Hl Ha Hb Hle. pose proof (Hl a). pose proof (Hl b). pose proof (nl_range a (or_introl Ha)). pose proof (nl_range b (or_introl Hb)).
  destruct (decide (a = b)) as [->|Hne]; [done|]. assert (1 ≤ nr_online_nodes) as Hn.
  { unfold nr_online_nodes. pose proof nl_here as Hh. destruct online_nodes; [by apply not_elem_of_nil in Hh|simpl; lia]. }
  unfold remoteness in Hle. set (K := nr_online_nodes * Z.of_nat MAX_NUMNODES) in *.
  assert (nr_online_nodes < K) by (unfold K; nia). destruct (decide (farness node a ≤ farness node b)); [done|]. nia.
Qed.

Lemma sorted_far loads node ns : load_ok loads → (∀ n, n ∈ ns → n ∈ memory_nodes) →
  StronglySorted (λ a b, remoteness loads node a ≤ remoteness loads node b) ns → StronglySorted (λ a b, farness node a ≤ farness node b) ns.
Proof.
  intros Hl Hns Hs. induction Hs as [|a ns Hs IH Ha]; constructor; [apply IH; intros; apply Hns; by right|].
  apply Forall_forall. intros b Hb. eapply remote_far; [done|apply Hns; left|apply Hns; by right|]. by eapply Forall_forall in Ha.
Qed.

Lemma closest_ok s node used ns : ∀ mv b,
  let r := closest s node used ns mv b in
  (r = b ∧ ∀ n, n ∈ ns → n ∉ used → mv ≤ node_value s node n) ∨
  (r ∈ ns ∧ r ∉ used ∧ node_value s node r < mv ∧ ∀ n, n ∈ ns → n ∉ used → node_value s node r ≤ node_value s node n).
Proof.
  induction ns as [|x ns IH]; intros mv b; cbn [closest]; [left; split; [done|]; by intros n ?%not_elem_of_nil|].
  case_decide as Hu.
  - destruct (IH mv b) as [[-> Hall]|(Hr & Hn & Hlt & Hall)]; [left|right].
    + split; [done|]. intros n [->|Hin]%elem_of_cons Hn; [done|auto].
    + split_and!; [by right|done|done|]. intros n [->|Hin]%elem_of_cons Hnu; [done|auto].
  - cbv zeta. destruct (node_value s node x <? mv) eqn:Hlt; bsimp.
    + right. destruct (IH (node_value s node x) x) as [[-> Hall]|(Hr & Hn & Hlt' & Hall)].
      * split_and!; [left|done|done|]. intros n [->|Hin]%elem_of_cons Hnu; [done|auto].
      * split_and!; [by right|done|lia|]. intros n [->|Hin]%elem_of_cons Hnu; [lia|auto].
    + destruct (IH mv b) as [[-> Hall]|(Hr & Hn & Hlt' & Hall)]; [left|right].
      * split; [done|]. intros n [->|Hin]%elem_of_cons Hn; [done|auto].
      * split_and!; [by right|done|done|]. intros n [->|Hin]%elem_of_cons Hnu; [lia|auto].
Qed.

(** The next node: the local one first, then the least remote of the others. *)
Lemma find_next_ok s node used :
  load_ok (node_load s) →
  returns (find_next_best_node node used) s (λ res s', s' = s ∧
    if decide (node ∈ used) then
      (res = (-1, used) ∧ ∀ n, n ∈ memory_nodes → n ∈ used) ∨
      (∃ x, res = (x, {[x]} ∪ used) ∧ x ∈ memory_nodes ∧ x ∉ used ∧
        ∀ n, n ∈ memory_nodes → n ∉ used → remoteness (node_load s) node x ≤ remoteness (node_load s) node n)
    else res = (node, {[node]} ∪ used)).
Proof.
  intros Hl. unfold find_next_best_node. case_decide as Hu.
  - rewrite bool_decide_eq_true_2 by done. simpl. apply returns_bind. eapply returns_eq; [reflexivity|]. cbv zeta.
    destruct (closest_ok s node used memory_nodes INT_MAX (-1)) as [[-> Hall]|(Hr & Hn & _ & Hall)].
    + apply returns_ret. split; [done|]. left. split; [done|]. intros n Hin. destruct (decide (n ∈ used)) as [|Hnu]; [done|].
      specialize (Hall n Hin Hnu). destruct (node_value_eq s node n Hl). lia.
    + destruct (nl_range _ (or_introl Hr)) as [H0' _]. rewrite (proj2 (Z.leb_le _ _) H0').
      apply returns_ret. split; [done|]. right. eexists. split_and!; [done|done|done|]. intros n Hin Hnu.
      specialize (Hall n Hin Hnu). rewrite !(proj1 (node_value_eq s node _ Hl)) in Hall. done.
  - rewrite bool_decide_eq_false_2 by done. by apply returns_ret.
Qed.

(** ** The loop over the nodes *)

Section Loop.
Context (nid : Z) (s0 : msys L) (order : Z) (Hnid : 0 ≤ nid < Z.of_nat MAX_NUMNODES) (Hon : nid ∈ online_nodes).

(** Nothing changes but the list of the node, the loads and the order of the nodes. *)
Record kept s : Prop := {
  kp_zones : zones s = zones s0;
  kp_refs : ∀ l, l ≠ (nid, Fallback) → zonerefs s !! l = zonerefs s0 !! l;
  kp_order : current_zonelist_order s = current_zonelist_order s0;
  kp_user : user_zonelist_order s = user_zonelist_order s0
}.

(** The nodes chosen so far: the node itself, then nodes with memory, the least remote
    first, and none twice. *)
Record chosen (cs : list Z) : Prop := {
  ch_nodup : NoDup cs;
  ch_head : ∃ ns, cs = nid :: ns ∧ (∀ n, n ∈ ns → n ∈ memory_nodes) ∧
    StronglySorted (λ a b, remoteness (node_load s0) nid a ≤ remoteness (node_load s0) nid b) ns ∧
    ∀ x n, x ∈ ns → n ∈ memory_nodes → n ∉ cs → remoteness (node_load s0) nid x ≤ remoteness (node_load s0) nid n
}.

(** Where they are: in the list of the node, or in the order of the nodes. *)
Definition placed (cs : list Z) s : Prop :=
  ∃ zl, zonerefs s !! (nid, Fallback) = Some zl ∧ length zl = S MAX_ZONES_PER_ZONELIST ∧
    length (node_order s) = MAX_NUMNODES ∧
    if order =? ZONELIST_ORDER_NODE then holds zl (cs ≫= zones_of s0)
    else take (length cs) (node_order s) = cs.

Lemma bind_length cs : (length (cs ≫= zones_of s0) ≤ length cs * S top_zone)%nat.
Proof.
  induction cs as [|c cs IH]; [done|]. rewrite bind_cons, length_app.
  pose proof (zones_from_length s0 c top_zone). fold (zones_of s0 c) in *. cbn [length]. unfold zone_ref in *. lia.
Qed.

Lemma chosen_length cs : chosen cs → (length cs ≤ MAX_NUMNODES)%nat ∧ (length cs ≤ S (length memory_nodes))%nat.
Proof.
  intros [Hnd (ns & -> & Hns & _)]. split.
  - assert (length (nid :: ns) ≤ length (seqZ 0 (Z.of_nat MAX_NUMNODES)))%nat; [|rewrite length_seqZ in *; lia].
    apply submseteq_length, NoDup_submseteq; [done|]. intros x Hx. apply elem_of_seqZ.
    apply elem_of_cons in Hx as [->|Hx]; [lia|]. specialize (nl_range x (or_introl (Hns x Hx))). lia.
  - apply NoDup_cons in Hnd as [_ Hnd]. simpl. apply le_n_S, submseteq_length, NoDup_submseteq; done.
Qed.

(** A node is added. *)
Definition place_node (node : Z) (j : nat) : M (msys L) nat :=
  if order =? ZONELIST_ORDER_NODE then _ ← build_zonelists_in_node_order nid node; mret j
  else
    s ← get;
    if decide (j < length (node_order s))%nat then _ ← modify (λ s, s <| node_order ::= <[j := node]> |>); mret (S j)
    else fail Undefined.

Lemma place_node_ok cs node j s :
  kept s → placed cs s → (length cs < MAX_NUMNODES)%nat → (order ≠ ZONELIST_ORDER_NODE → j = length cs) →
  returns (place_node node j) s (λ j' s', kept s' ∧ placed (cs ++ [node]) s' ∧ node_load s' = node_load s ∧
    j' = if order =? ZONELIST_ORDER_NODE then j else S j).
Proof.
  intros [Hz Hr Ho Hu] (zl & Hzl & Hlen & Hno & Hp) Hcs Hj. unfold place_node, placed. destruct (order =? ZONELIST_ORDER_NODE) eqn:Hord.
  - apply returns_bind. eapply returns_mono; [eapply node_order_ok; [done|done|]|].
    { rewrite Hlen. pose proof (bind_length cs). unfold MAX_ZONES_PER_ZONELIST. nia. }
    intros [] s1 (zl' & [pz ->] & Hh & Hl'). apply returns_ret. split_and!; [split|..|done|done]; try done.
    + intros l Hl. simpl. rewrite lookup_insert_ne by auto. by apply Hr.
    + exists zl'. simpl. rewrite lookup_insert_eq. split_and!; [done|lia|done|].
      rewrite bind_app, bind_singleton. unfold zones_of in Hh at 2. by rewrite (zones_from_zones s0) in Hh by done.
  - bsimp. rewrite (Hj Hord). apply returns_bind. eapply returns_eq; [reflexivity|]. rewrite decide_True by lia.
    apply returns_bind. eapply returns_eq; [reflexivity|]. apply returns_ret. split_and!; [by split| |done|done].
    exists zl. simpl. rewrite length_insert. split_and!; [done|done|done|]. rewrite length_app. simpl.
    rewrite Nat.add_1_r, (take_S_r _ _ node) by (apply list_lookup_insert_eq; lia).
    rewrite take_insert_ge by lia. by rewrite Hp.
Qed.

(** What the next node is, after the nodes [cs]. *)
Lemma next_chosen cs s node (used : gset Z) :
  cs = [] ∨ chosen cs → (∀ n, n ∉ cs → node_load s !! n = node_load s0 !! n) →
  (if decide (nid ∈ (list_to_set cs : gset Z)) then
      ((node, used) = (-1, list_to_set cs) ∧ ∀ n, n ∈ memory_nodes → n ∈ (list_to_set cs : gset Z)) ∨
      (∃ x, (node, used) = (x, {[x]} ∪ list_to_set cs) ∧ x ∈ memory_nodes ∧ x ∉ (list_to_set cs : gset Z) ∧
        ∀ n, n ∈ memory_nodes → n ∉ (list_to_set cs : gset Z) →
          remoteness (node_load s) nid x ≤ remoteness (node_load s) nid n)
    else (node, used) = (nid, {[nid]} ∪ list_to_set cs)) →
  (node = -1 ∧ chosen cs ∧ ∀ n, n ∈ memory_nodes → n ∈ cs) ∨
  (0 ≤ node ∧ node ∉ cs ∧ used = {[node]} ∪ list_to_set cs ∧ chosen (cs ++ [node])).
Proof.
  intros Hcs Hsame. destruct Hcs as [->|Hc].
  { rewrite decide_False by (simpl; apply not_elem_of_empty). intros [= -> ->]. right.
    split_and!; [lia|apply not_elem_of_nil|done|]. split; [apply NoDup_singleton|]. exists []. split_and!; [done| |constructor|];
      intros x; intros; by destruct (not_elem_of_nil x). }
  pose proof (ch_head _ Hc) as (ns & Hcs & Hns & Hsort & Hmin).
  rewrite decide_True by (apply elem_of_list_to_set; rewrite Hcs; left).
  intros [[[= -> ->] Hall]|(x & [= -> ->] & Hx & Hxu & Hle)].
  { left. split_and!; [done|done|]. intros n Hn. apply Hall in Hn. by apply elem_of_list_to_set in Hn. }
  right. rewrite elem_of_list_to_set in Hxu. destruct (nl_range x (or_introl Hx)) as [Hx0 _]. split_and!; [done|done|done|].
  assert (∀ n, n ∈ memory_nodes → n ∉ cs → remoteness (node_load s0) nid x ≤ remoteness (node_load s0) nid n) as Hle0.
  { intros n Hn Hnc. specialize (Hle n Hn). rewrite elem_of_list_to_set in Hle. specialize (Hle Hnc).
    unfold remoteness in *. by rewrite !Hsame in Hle. }
  split; [apply NoDup_app; split_and!; [apply Hc|intros y Hy ->%list_elem_of_singleton; done|apply NoDup_singleton]|].
  exists (ns ++ [x]). split_and!; [by rewrite Hcs| | |].
  - intros n [Hn| ->%list_elem_of_singleton]%elem_of_app; auto.
  - apply StronglySorted_app_2; [|done|repeat constructor]. intros y z Hy ->%list_elem_of_singleton. by apply Hmin.
  - intros y n [Hy| ->%list_elem_of_singleton]%elem_of_app Hn [Hnc _]%not_elem_of_app; auto.
Qed.

(** The nodes are online: the load stays positive. *)
Lemma load_small cs : chosen cs → Z.of_nat (length cs) ≤ nr_online_nodes.
Proof.
  intros [Hnd (ns & -> & Hns & _)]. unfold nr_online_nodes.
  assert (length (nid :: ns) ≤ length online_nodes)%nat; [|lia].
  apply submseteq_length, NoDup_submseteq; [done|]. intros x [->|Hx]%elem_of_cons; [done|]. by apply nl_memory, Hns.
Qed.

Lemma order_nodes_ok fuel : ∀ cs s used load prev j,
  cs = [] ∨ chosen cs → used = list_to_set cs → kept s → placed cs s → load_ok (node_load s) →
  (∀ n, n ∉ cs → node_load s !! n = node_load s0 !! n) →
  load = nr_online_nodes - Z.of_nat (length cs) → (order ≠ ZONELIST_ORDER_NODE → j = length cs) →
  (S (length memory_nodes) < fuel + length cs)%nat →
  returns (order_nodes fuel nid order used load prev j) s (λ j' s', ∃ cs',
    chosen cs' ∧ (∀ n, n ∈ memory_nodes → n ∈ cs') ∧ kept s' ∧ placed cs' s' ∧ load_ok (node_load s') ∧
    (order ≠ ZONELIST_ORDER_NODE → j' = length cs')).
Proof.
  induction fuel as [|fuel IH]; intros cs s used load prev j Hc -> Hk Hp Hl Hsame -> Hj Hfuel.
  { destruct Hc as [->|Hc]; [simpl in *; lia|]. pose proof (chosen_length cs Hc). lia. }
  cbn [order_nodes]. apply returns_bind. eapply returns_mono; [by apply find_next_ok|]. intros [x used] ? [-> Hnext].
  apply (next_chosen _ _ _ _ Hc Hsame) in Hnext as [(-> & Hc' & Hall)|(Hx0 & Hxc & -> & Hc')].
  { apply returns_ret. exists cs. split_and!; done. }
  rewrite (proj2 (Z.ltb_ge x 0)) by done.
  destruct (chosen_length _ Hc') as [Hlen3 Hlen4]. rewrite length_app in Hlen3, Hlen4. cbn [length] in Hlen3, Hlen4.
  pose proof (load_small _ Hc') as Hlo. rewrite length_app in Hlo. cbn [length] in Hlo. set (load := nr_online_nodes - _) in *.
  assert (load_ok (<[x := load]> (node_load s))) as Hl'.
  { intros n. destruct (decide (n = x)) as [->|]; [|rewrite lookup_insert_ne by auto; apply Hl]. rewrite lookup_insert_eq. simpl. unfold load. lia. }
  apply returns_bind. apply (returns_mono _ _ (λ _ s1, kept s1 ∧ placed cs s1 ∧ node_load s1 = node_load s)).
  { destruct (RECLAIM_DISTANCE <? _); [|by apply returns_ret]. eapply returns_eq; [reflexivity|]. destruct Hk. by split. }
  intros [] s1 (Hk1 & Hp1 & Hn1). apply returns_bind.
  apply (returns_mono _ _ (λ _ s2, kept s2 ∧ placed cs s2 ∧
    (node_load s2 = node_load s ∨ node_load s2 = <[x := load]> (node_load s)))).
  { destruct (negb _); [|apply returns_ret; auto]. eapply returns_eq; [reflexivity|]. simpl. rewrite Hn1.
    destruct Hk1. split_and!; [by split|done|by right]. }
  intros [] s2 (Hk2 & Hp2 & Hn2).
  assert (load_ok (node_load s2) ∧ ∀ n, n ∉ cs ++ [x] → node_load s2 !! n = node_load s0 !! n) as [Hl2 Hs2].
  { split; [by destruct Hn2 as [-> | ->]|]. intros n Hn. apply not_elem_of_app in Hn as [Hn3 Hn4%not_elem_of_cons].
    destruct Hn4 as [Hn4 _]. destruct Hn2 as [-> | ->]; [|rewrite lookup_insert_ne by auto]; by apply Hsame. }
  assert (returns (j' ← place_node x j; order_nodes fuel nid order ({[x]} ∪ list_to_set cs) (s32 (load - 1)) x j') s2
    (λ j' s', ∃ cs', chosen cs' ∧ (∀ n, n ∈ memory_nodes → n ∈ cs') ∧ kept s' ∧ placed cs' s' ∧ load_ok (node_load s') ∧
    (order ≠ ZONELIST_ORDER_NODE → j' = length cs'))) as Hrest.
  { apply returns_bind. eapply returns_mono; [apply (place_node_ok cs); try done; lia|].
    intros j' s3 (Hk3 & Hp3 & Hn3 & ->).
    eapply IH; [by right; exact Hc'| |done|done|by rewrite Hn3|by rewrite Hn3| | |].
    - rewrite list_to_set_app_L, (comm_L (∪)). simpl. by rewrite (right_id_L ∅ (∪)).
    - pose proof nl_many. pose proof nl_online. change (2 ^ 14) with 16384 in *. unfold load, nr_online_nodes in *.
      rewrite (swrap_small 32 ltac:(done)) by (widths; lia). rewrite length_app. simpl. lia.
    - intros Hne. rewrite (proj2 (Z.eqb_neq _ _) Hne), (Hj Hne), length_app. simpl. lia.
    - rewrite length_app. simpl in *. lia. }
  unfold place_node in Hrest. destruct (order =? ZONELIST_ORDER_NODE) eqn:Hord.
  - destruct Hrest as (a & s3 & Hrun & HQ). exists a, s3. split; [|done]. rewrite <- Hrun. unfold mbind, M_bind.
    by destruct (build_zonelists_in_node_order nid x s2).
  - destruct Hrest as (a & s3 & Hrun & HQ). exists a, s3. split; [|done]. rewrite <- Hrun. unfold mbind, M_bind, get.
    by destruct (decide _).
Qed.
End Loop.

(** ** Zone by zone *)

(** The populated zones of one type, and of all types from [zt] down. *)
Definition type_zones s (zt : nat) (nodes : list Z) : list zone_ref :=
  nodes ≫= λ n, if populated_zone s (n, zt) then [(n, zt)] else [].

Fixpoint zones_by_type s (zt : nat) (nodes : list Z) : list zone_ref :=
  type_zones s zt nodes ++ match zt with O => [] | S zt' => zones_by_type s zt' nodes end.

Lemma type_zones_in s zt nodes z : z ∈ type_zones s zt nodes ↔ z.2 = zt ∧ z.1 ∈ nodes ∧ populated_zone s z = true.
Proof.
  unfold type_zones. rewrite list_elem_of_bind. destruct z as [m t]. simpl. split.
  - intros (n & Hz & Hn). destruct (populated_zone s (n, zt)) eqn:Hp; [|by apply not_elem_of_nil in Hz].
    apply list_elem_of_singleton in Hz as [= -> ->]. auto.
  - intros (-> & Hm & Hp). exists m. rewrite Hp. split; [by apply list_elem_of_singleton|done].
Qed.

Lemma type_zones_length s zt nodes : (length (type_zones s zt nodes) ≤ length nodes)%nat.
Proof.
  unfold type_zones. induction nodes as [|n nodes IH]; [done|]. rewrite bind_cons, length_app.
  destruct (populated_zone _ _); cbn [length]; unfold zone_ref in *; lia.
Qed.

Lemma type_zones_nodup s zt nodes : NoDup nodes → NoDup (type_zones s zt nodes).
Proof.
  intros Hnd. induction Hnd as [|n nodes Hn Hnd IH]; [constructor|]. unfold type_zones in *. rewrite bind_cons.
  destruct (populated_zone s (n, zt)); [|done]. constructor; [|done]. intros Hin.
  fold (type_zones s zt nodes) in Hin. apply type_zones_in in Hin as (_ & ? & _). done.
Qed.

Lemma zones_by_type_in s zt nodes z :
  z ∈ zones_by_type s zt nodes ↔ (z.2 ≤ zt)%nat ∧ z.1 ∈ nodes ∧ populated_zone s z = true.
Proof.
  induction zt as [|zt IH]; cbn [zones_by_type]; rewrite elem_of_app, type_zones_in.
  - rewrite elem_of_nil. split; [intros [(-> & ? & ?)|[]]; auto|]. intros (? & ? & ?). left. split_and!; [lia|done|done].
  - rewrite IH. split; [intros [(-> & ? & ?)|(? & ? & ?)]; auto with lia|]. intros (Hle & ? & ?).
    destruct (decide (z.2 = S zt)); [by left|right]. auto with lia.
Qed.

Lemma zones_by_type_nodup s zt nodes : NoDup nodes → NoDup (zones_by_type s zt nodes).
Proof.
  intros Hnd. induction zt as [|zt IH]; cbn [zones_by_type]; apply NoDup_app; split_and!; try by apply type_zones_nodup.
  - intros z _. apply not_elem_of_nil.
  - constructor.
  - intros z Hz Hz'. apply type_zones_in in Hz as (Hz & _). apply zones_by_type_in in Hz' as (Hz' & _). lia.
  - done.
Qed.

Lemma type_zones_zones s s' zt nodes : zones s' = zones s → type_zones s' zt nodes = type_zones s zt nodes.
Proof. intros Hz. unfold type_zones, populated_zone, present_of. by rewrite Hz. Qed.

Lemma zones_by_type_zones s s' zt nodes : zones s' = zones s → zones_by_type s' zt nodes = zones_by_type s zt nodes.
Proof. intros Hz. induction zt as [|zt IH]; simpl; rewrite (type_zones_zones s); try done. by rewrite IH. Qed.

Lemma add_type_ok nid zt nodes : ∀ s zl es,
  zonerefs s !! (nid, Fallback) = Some zl → begins zl es → (length es + length nodes < length zl)%nat →
  returns (add_type nid zt nodes (length es)) s (λ n s', ∃ zl',
    let es' := es ++ type_zones s zt nodes in
    n = length es' ∧ wrote (nid, Fallback) s zl' s' ∧ begins zl' es' ∧ length zl' = length zl).
Proof.
  induction nodes as [|n nodes IH]; intros s zl es Hl Hb Hlen; cbn [add_type].
  { apply returns_ret. exists zl. cbv zeta. rewrite app_nil_r. split_and!; [done|by apply wrote_refl|done|done]. }
  apply returns_bind. eapply returns_eq; [reflexivity|]. apply returns_bind. cbn [length] in Hlen.
  eapply returns_mono; [apply list_zone_ok; [done|done|lia]|]. intros k s1 (zl1 & -> & Hw1 & Hb1 & Hl1).
  unfold type_zones. rewrite bind_cons, app_assoc. fold (type_zones s zt nodes).
  eapply returns_mono; [eapply (IH s1 zl1); [by eapply wrote_lookup|done|]|].
  { rewrite length_app. destruct (populated_zone _ _); cbn [length]; lia. }
  intros k s2 (zl2 & -> & Hw2 & Hb2 & Hl2). exists zl2. rewrite (type_zones_zones s s1) in * by (by eapply wrote_zones).
  split_and!; [done|by eapply wrote_trans|done|lia].
Qed.

Lemma add_types_ok nid zt nodes : ∀ s zl es,
  zonerefs s !! (nid, Fallback) = Some zl → begins zl es → (length es + length nodes * S zt < length zl)%nat →
  returns (add_types nid zt nodes (length es)) s (λ n s', ∃ zl',
    let es' := es ++ zones_by_type s zt nodes in
    n = length es' ∧ wrote (nid, Fallback) s zl' s' ∧ begins zl' es' ∧ length zl' = length zl).
Proof.
  induction zt as [|zt IH]; intros s zl es Hl Hb Hlen; cbn [add_types zones_by_type]; apply returns_bind;
    (eapply returns_mono; [apply add_type_ok; [done|done|lia]|]); intros n s1 (zl1 & -> & Hw1 & Hb1 & Hl1).
  - apply returns_ret. exists zl1. by rewrite app_nil_r.
  - rewrite app_assoc. eapply returns_mono; [eapply (IH s1 zl1); [by eapply wrote_lookup|done|]|].
    { rewrite length_app. pose proof (type_zones_length s (S zt) nodes). lia. }
    intros n s2 (zl2 & -> & Hw2 & Hb2 & Hl2). exists zl2. rewrite (zones_by_type_zones s s1) in * by (by eapply wrote_zones).
    split_and!; [done|by eapply wrote_trans|done|lia].
Qed.

Lemma zone_order_ok nid k s zl :
  zonerefs s !! (nid, Fallback) = Some zl → (k * S top_zone < length zl)%nat →
  returns (build_zonelists_in_zone_order nid k) s (λ _ s', ∃ zl', wrote (nid, Fallback) s zl' s' ∧
    holds zl' (zones_by_type s top_zone (take k (node_order s))) ∧ length zl' = length zl).
Proof.
  intros Hl Hlen. unfold build_zonelists_in_zone_order. apply returns_bind. eapply returns_eq; [reflexivity|].
  pose proof (length_take_le_all k (node_order s)) as Hk. apply returns_bind.
  eapply returns_mono; [apply (add_types_ok nid top_zone _ s zl []); [done|apply begins_nil|cbn [length]; nia]|].
  intros n s1 (zl1 & -> & Hw1 & Hb1 & Hl1). cbn [app] in *.
  assert (length (zones_by_type s top_zone (take k (node_order s))) ≤ length (take k (node_order s)) * S top_zone)%nat as Hz.
  { generalize top_zone as zt. induction zt as [|zt IH]; cbn [zones_by_type]; rewrite length_app;
      pose proof (type_zones_length s 0 (take k (node_order s))); try pose proof (type_zones_length s (S zt) (take k (node_order s)));
      cbn [length]; unfold zone_ref in *; lia. }
  eapply returns_mono; [eapply set_zoneref_ok; [by eapply wrote_lookup|nia]|]. intros [] s2 Hw2.
  eexists. split_and!; [by eapply wrote_trans|apply holds_end; [done|nia]|by rewrite length_insert].
Qed.

(** ** The lists of a node *)

(** The fallback list made of the nodes [cs]. *)
Definition list_of s (order : Z) (cs : list Z) : list zone_ref :=
  if order =? ZONELIST_ORDER_NODE then cs ≫= zones_of s else zones_by_type s top_zone cs.

Lemma zones_of_in s cs z : z ∈ cs ≫= zones_of s ↔ (z.2 ≤ top_zone)%nat ∧ z.1 ∈ cs ∧ populated_zone s z = true.
Proof.
  rewrite list_elem_of_bind. split.
  - intros (n & Hz & Hn). apply zones_from_in in Hz as (<- & ? & ?). auto.
  - intros (? & Hn & ?). exists z.1. split; [|done]. by apply zones_from_in.
Qed.

Lemma zones_of_nodup s cs : NoDup cs → NoDup (cs ≫= zones_of s).
Proof.
  intros Hnd. induction Hnd as [|n cs Hn Hnd IH]; [constructor|]. rewrite bind_cons. apply NoDup_app.
  split_and!; [apply zones_from_nodup| |done]. intros z Hz Hz'. apply zones_from_in in Hz as (<- & _).
  apply zones_of_in in Hz' as (_ & ? & _). done.
Qed.

(** Every populated zone of these nodes, once. *)
Lemma list_of_complete s order cs : NoDup cs →
  NoDup (list_of s order cs) ∧
  ∀ z, z ∈ list_of s order cs ↔ (z.2 ≤ top_zone)%nat ∧ z.1 ∈ cs ∧ populated_zone s z = true.
Proof.
  intros Hnd. unfold list_of. destruct (_ =? _).
  - split; [by apply zones_of_nodup|apply zones_of_in].
  - split; [by apply zones_by_type_nodup|intros z; apply zones_by_type_in].
Qed.

(** The arrays of a node are there. *)
Definition arrays s (nid : Z) : Prop :=
  ∀ w, ∃ zl, zonerefs s !! (nid, w) = Some zl ∧ length zl = S MAX_ZONES_PER_ZONELIST.

(** The lists of a node are built: the one of the node, and the fallback list, from the
    nodes with memory in the order of their distance. *)
Definition built s0 (order nid : Z) s : Prop :=
  ∃ cs zl zt, NoDup cs ∧ (∀ n, n ∈ cs ↔ n = nid ∨ n ∈ memory_nodes) ∧
    (∃ ns, cs = nid :: ns ∧ StronglySorted (λ a b, farness nid a ≤ farness nid b) ns) ∧
    zonerefs s !! (nid, Fallback) = Some zl ∧ holds zl (list_of s0 order cs) ∧
    zonerefs s !! (nid, Thisnode) = Some zt ∧ holds zt (zones_of s0 nid).

(** What stays when the lists of node [nid] are built. *)
Record others (nid : Z) s s' : Prop := {
  ot_zones : zones s' = zones s;
  ot_refs : ∀ n w, n ≠ nid → zonerefs s' !! (n, w) = zonerefs s !! (n, w);
  ot_order : current_zonelist_order s' = current_zonelist_order s;
  ot_user : user_zonelist_order s' = user_zonelist_order s;
  ot_length : length (node_order s') = length (node_order s)
}.

Lemma bind_zones s s' cs : zones s' = zones s → cs ≫= zones_of s' = cs ≫= zones_of s.
Proof.
  intros Hz. induction cs as [|c cs IH]; [done|]. rewrite !bind_cons, IH. unfold zones_of. by rewrite (zones_from_zones s s').
Qed.

Lemma list_of_zones s s' order cs : zones s' = zones s → list_of s' order cs = list_of s order cs.
Proof.
  intros Hz. unfold list_of. rewrite (zones_by_type_zones s s') by done. by rewrite (bind_zones s s').
Qed.

Lemma built_zones s0 s0' order nid s : zones s0' = zones s0 → built s0' order nid s → built s0 order nid s.
Proof.
  intros Hz (cs & zl & zt & Hb). exists cs, zl, zt. unfold zones_of in *.
  rewrite (list_of_zones s0 s0'), (zones_from_zones s0 s0') in Hb by done. done.
Qed.

Lemma build_zonelists_ok nid s :
  nid ∈ online_nodes → arrays s nid → length (node_order s) = MAX_NUMNODES → load_ok (node_load s) →
  current_zonelist_order s = ZONELIST_ORDER_NODE ∨ current_zonelist_order s = ZONELIST_ORDER_ZONE →
  returns (build_zonelists nid) s (λ _ s',
    built s (current_zonelist_order s) nid s' ∧ others nid s s' ∧ arrays s' nid ∧ load_ok (node_load s')).
Proof.
  intros Hon Harr Hno Hl Hord. pose proof (nl_range nid (or_intror Hon)) as Hnid. destruct (Harr Fallback) as (zf & Hzf & Hlf). destruct (Harr Thisnode) as (zt & Hzt & Hlt).
  remember (current_zonelist_order s) as order eqn:Horder. unfold build_zonelists. apply returns_bind. eapply returns_eq; [reflexivity|]. rewrite <- Horder.
  apply returns_bind. eapply returns_mono; [apply set_zoneref_ok; [done|lia]|]. intros [] s1 [pz1 ->].
  apply returns_bind. eapply returns_mono; [apply set_zoneref_ok; [simpl; by rewrite lookup_insert_ne|lia]|]. intros [] s2 [pz2 ->].
  apply returns_bind. eapply returns_eq; [reflexivity|]. set (s3 := modify_field _ _).
  assert (Hr3 : zonerefs s3 = <[(nid, Thisnode) := <[0%nat := None]> zt]> (<[(nid, Fallback) := <[0%nat := None]> zf]> (zonerefs s))) by done.
  assert (zones s3 = zones s ∧ current_zonelist_order s3 = order ∧ user_zonelist_order s3 = user_zonelist_order s ∧
    node_load s3 = node_load s ∧ length (node_order s3) = MAX_NUMNODES) as (Hz3 & Ho3 & Hu3 & Hn3 & Hlen3)
    by (split_and!; try done; unfold s3; simpl; rewrite ?length_fmap; done).
  clearbody s3. apply returns_bind.
  eapply returns_mono; [apply (order_nodes_ok nid s3 order Hnid Hon nodes_bound [] s3)|].
  { by left. } { done. } { by split. }
  { exists (<[0%nat := None]> zf). rewrite Hr3, lookup_insert_ne, lookup_insert_eq, length_insert by done. split_and!; [done|done|done|].
    destruct (order =? _); [|done]. destruct zf as [|e zf]; [done|]. by exists zf. }
  { by rewrite Hn3. } { done. } { simpl. lia. } { done. } { unfold nodes_bound. simpl. lia. }
  intros j s4 (cs & Hc & Hall & [Hz4 Hr4 Ho4 Hu4] & (zl & Hzl & Hlen & Hno4 & Hp) & Hl4 & Hj).
  pose proof (chosen_length nid s3 Hnid cs Hc) as [Hcl _]. pose proof Hc as [Hnd (ns & Hcs & Hns & Hsort & _)].
  apply returns_bind. apply (returns_mono _ _ (λ _ s5, ∃ zl', wrote (nid, Fallback) s4 zl' s5 ∧
    holds zl' (list_of s order cs) ∧ length zl' = S MAX_ZONES_PER_ZONELIST)).
  { rewrite (list_of_zones s3 s) in * by done. unfold list_of. destruct Hord as [Hord|Hord]; rewrite Hord in *; simpl in *.
    - apply returns_ret. exists zl. split_and!; [by apply wrote_refl|done|done].
    - eapply returns_mono; [eapply zone_order_ok; [done|]|].
      { rewrite Hlen, (Hj ltac:(done)). unfold MAX_ZONES_PER_ZONELIST. nia. }
      intros [] s5 (zl' & Hw & Hh & Hl'). exists zl'. rewrite (Hj ltac:(done)), Hp in Hh.
      rewrite (zones_by_type_zones s3 s4) in Hh by done. split_and!; [done|done|lia]. }
  intros [] s5 (zl5 & [pz5 ->] & Hh5 & Hlen5).
  eapply returns_mono; [eapply (thisnode_ok nid)|].
  { simpl. rewrite lookup_insert_ne by done. rewrite Hr4, Hr3 by done. by rewrite lookup_insert_eq. }
  { rewrite length_insert, Hlt. unfold MAX_ZONES_PER_ZONELIST. assert (1 ≤ MAX_NUMNODES)%nat by lia. nia. }
  intros [] s6 (zt6 & [pz6 ->] & Hh6 & Hlen6). split_and!.
  - exists cs, zl5, zt6. simpl. split_and!; [done| | |by rewrite lookup_insert_ne, lookup_insert_eq|done|by rewrite lookup_insert_eq|].
    + intros n. rewrite Hcs. split; [intros [->|Hn]%elem_of_cons; auto|]. intros [->|Hn]; [left|]. rewrite <- Hcs. auto.
    + exists ns. split; [done|]. eapply sorted_far; [|done|done]. by rewrite Hn3.
    + unfold zones_of in *. rewrite (zones_from_zones s) in Hh6; [done|]. simpl. congruence.
  - split; simpl; [congruence| |congruence..].
    intros n w Hn. rewrite !lookup_insert_ne by congruence. rewrite Hr4 by congruence. rewrite Hr3. by rewrite !lookup_insert_ne by congruence.
  - intros []; simpl.
    + exists zl5. by rewrite lookup_insert_ne, lookup_insert_eq.
    + exists zt6. rewrite lookup_insert_eq. split; [done|]. by rewrite Hlen6, length_insert.
  - done.
Qed.

(** ** The lists of all nodes *)

Record zl_ready s : Prop := {
  zr_arrays : ∀ n, n ∈ online_nodes → arrays s n;
  zr_order : length (node_order s) = MAX_NUMNODES;
  zr_user : user_zonelist_order s = ZONELIST_ORDER_DEFAULT ∨ user_zonelist_order s = ZONELIST_ORDER_NODE ∨
    user_zonelist_order s = ZONELIST_ORDER_ZONE
}.

Lemma default_order_ok s : default_zonelist_order s = ZONELIST_ORDER_NODE ∨ default_zonelist_order s = ZONELIST_ORDER_ZONE.
Proof. unfold default_zonelist_order. repeat case_match; auto. Qed.

Lemma nodes_of_entries (es : list zone_ref) : omap (fmap fst) (Some <$> es) = fst <$> es.
Proof. induction es as [|e es IH]; [done|]. csimpl. by rewrite IH. Qed.

Lemma cache_ok nid s zl es :
  zonerefs s !! (nid, Fallback) = Some zl → holds zl es →
  returns (build_zonelist_cache nid) s (λ _ s', ∃ f, s' = s <| fullzones := f |> <| z_to_n ::= <[nid := fst <$> es]> |>).
Proof.
  intros Hl Hh. unfold build_zonelist_cache. apply returns_bind. eapply returns_eq; [reflexivity|].
  apply returns_bind. eapply returns_eq; [by rewrite Hl|]. rewrite (holds_first_null _ _ Hh). eapply returns_eq; [reflexivity|].
  exists (<[nid := replicate MAX_ZONES_PER_ZONELIST false]> (fullzones s)).
  replace (fst <$> es) with (omap (fmap fst) (take (length es) zl) : list Z); [by destruct s|].
  destruct Hh as [rest ->]. rewrite take_app_length' by (by rewrite length_fmap). apply nodes_of_entries.
Qed.

Lemma built_others s0 order n nid s s' : n ≠ nid → others nid s s' → built s0 order n s → built s0 order n s'.
Proof.
  intros Hne Ho (cs & zl & zt & Hnd & Hcs & Hs & Hzl & Hh & Hzt & Ht). exists cs, zl, zt.
  rewrite !(ot_refs _ _ _ Ho) by done. done.
Qed.

Lemma arrays_others n nid s s' : n ≠ nid → others nid s s' → arrays s n → arrays s' n.
Proof. intros Hne Ho Ha w. rewrite (ot_refs _ _ _ Ho) by done. apply Ha. Qed.

Lemma build_nodes_ok s0 order nodes : ∀ done s,
  NoDup (done ++ nodes) → (∀ n, n ∈ nodes → n ∈ online_nodes) →
  (∀ n, n ∈ done → built s0 order n s) → (∀ n, n ∈ done ++ nodes → arrays s n) → zones s = zones s0 →
  order = ZONELIST_ORDER_NODE ∨ order = ZONELIST_ORDER_ZONE → current_zonelist_order s = order →
  length (node_order s) = MAX_NUMNODES → load_ok (node_load s) →
  returns (for_each nodes (λ nid, _ ← build_zonelists nid; build_zonelist_cache nid)) s (λ _ s',
    (∀ n, n ∈ done ++ nodes → built s0 order n s' ∧ arrays s' n) ∧ zones s' = zones s0 ∧ current_zonelist_order s' = order ∧
    user_zonelist_order s' = user_zonelist_order s ∧ length (node_order s') = MAX_NUMNODES).
Proof.
  induction nodes as [|nid nodes IH]; intros don s Hnd Hon Hb Ha Hz Hord Hcur Hlen Hl; cbn [for_each].
  { apply returns_ret. rewrite app_nil_r in *. split_and!; try done. intros n Hn. auto. }
  assert (nid ∈ online_nodes) as Hnid by (apply Hon; left).
  apply returns_bind, returns_bind. eapply returns_mono; [apply build_zonelists_ok|].
  { done. } { apply Ha, elem_of_app. right. left. } { done. } { done. } { by rewrite Hcur. }
  intros [] s1 (Hb1 & Ho1 & Ha1 & Hl1). pose proof Hb1 as (cs & zl & zt & _ & _ & _ & Hzl & Hh & _).
  eapply returns_mono; [by eapply cache_ok|]. intros [] s2 [f ->]. rewrite Hcur in Hb1.
  assert (built s0 order nid s1) as Hb1' by (by eapply built_zones).
  replace (don ++ nid :: nodes) with ((don ++ [nid]) ++ nodes) in * by (by rewrite <- app_assoc).
  assert (∀ n, n ∈ don → n ≠ nid) as Hne.
  { intros n Hn ->. apply NoDup_app in Hnd as [Hnd _]. apply NoDup_app in Hnd as (_ & Hnd & _). apply (Hnd nid Hn). left. }
  destruct Ho1 as [Hoz Hor Hoo Hou Hol]. pose proof (Build_others _ _ _ Hoz Hor Hoo Hou Hol) as Ho1.
  eapply returns_mono; [apply (IH (don ++ [nid])); simpl|].
  - done.
  - intros n Hn. apply Hon. by right.
  - intros n [Hn| ->%list_elem_of_singleton]%elem_of_app; [|done].
    destruct (built_others s0 order n nid s s1 (Hne n Hn) Ho1 (Hb n Hn)) as (x & y & z & Hx). by exists x, y, z.
  - intros n Hn w. destruct (decide (n = nid)) as [->|Hn2]; [apply Ha1|]. apply (arrays_others n nid s s1 Hn2 Ho1 (Ha n Hn)).
  - congruence.
  - done.
  - congruence.
  - congruence.
  - done.
  - intros [] s3 (Hb3 & Hz3 & Hc3 & Hu3 & Hl3). split_and!; try done. rewrite Hu3. simpl. congruence.
Qed.

Lemma sum_free_ok s es offset sum : (∀ z, z ∈ es → is_Some (zones s !! z)) → ∀ s', returns (sum_free s es offset sum) s' (λ _ s'', s'' = s').
Proof.
  intros Hes s'. revert sum. induction es as [|z es IH]; intros sum; cbn [sum_free]; [by apply returns_ret|].
  assert (∀ z, z ∈ es → is_Some (zones s !! z)) as Hes' by (intros; apply Hes; by right).
  case_decide; [auto|]. destruct (Hes z) as [i Hi]; [left|]. apply returns_bind. eapply returns_eq; [by rewrite Hi|]. auto.
Qed.

Lemma build_all_zonelists_ok s :
  zl_ready s →
  returns build_all_zonelists s (λ _ s', zones s' = zones s ∧ zl_ready s' ∧
    user_zonelist_order s' = user_zonelist_order s ∧
    (user_zonelist_order s ≠ ZONELIST_ORDER_DEFAULT → current_zonelist_order s' = user_zonelist_order s) ∧
    ∀ nid, nid ∈ online_nodes → built s (current_zonelist_order s') nid s').
Proof.
  intros [Ha Hno Hu]. unfold build_all_zonelists, set_zonelist_order. apply returns_bind. eapply returns_eq; [reflexivity|].
  set (s1 := modify_field _ _). apply returns_bind. unfold __build_all_zonelists. apply returns_bind.
  eapply returns_eq; [reflexivity|]. set (order := current_zonelist_order s1).
  assert (order = ZONELIST_ORDER_NODE ∨ order = ZONELIST_ORDER_ZONE) as Hord.
  { unfold order, s1. simpl. destruct (user_zonelist_order s =? ZONELIST_ORDER_DEFAULT) eqn:He; [apply default_order_ok|].
    bsimp. destruct Hu as [?|[?|?]]; [done|auto..]. }
  apply returns_bind. eapply returns_mono; [apply (build_nodes_ok s order online_nodes []); try done|].
  - simpl. apply nl_online_nodup.
  - by intros n ?%not_elem_of_nil.
  - intros n. simpl. rewrite lookup_empty. unfold nr_online_nodes. simpl. lia.
  - intros [] s2 (Hb2 & Hz2 & Hc2 & Hu2 & Hl2). eapply returns_eq; [reflexivity|]. apply returns_bind.
    unfold nr_free_pagecache_pages, nr_free_zone_pages. apply returns_bind. eapply returns_eq; [reflexivity|].
    destruct (Hb2 numa_node_id nl_here) as [(cs & zl & zt & Hnd & _ & _ & Hzl & Hh & _) _].
    apply returns_bind. eapply returns_eq; [simpl; by rewrite Hzl|]. rewrite (holds_entries _ _ Hh).
    eapply returns_mono; [apply sum_free_ok|].
    { intros z Hz. apply (list_of_complete s order cs Hnd) in Hz as (_ & _ & Hp). simpl. rewrite Hz2.
      unfold populated_zone, present_of in Hp. by destruct (zones s !! z). }
    intros n s3 ->. eapply returns_eq; [reflexivity|]. simpl. split_and!; [done| |done| |].
    + split; [|done|simpl; by rewrite Hu2]. intros n' Hn'. destruct (Hb2 n' Hn') as [_ Ha2]. exact Ha2.
    + intros Hne. rewrite Hc2. unfold order, s1. simpl. by rewrite (proj2 (Z.eqb_neq _ _) Hne).
    + intros nid Hn. rewrite Hc2. destruct (Hb2 nid Hn) as [(x & y & z & Hx) _]. by exists x, y, z.
Qed.

(** ** Distance unknown *)

(** The nodes in the order in which they are taken then: up from the node, around. *)
Definition circle (nid : Z) : list Z :=
  nid :: filter (λ n, n ∈ online_nodes)
    (seqZ (nid + 1) (Z.of_nat MAX_NUMNODES - (nid + 1)) ++ seqZ 0 nid).

Lemma circle_nodup nid : 0 ≤ nid → NoDup (circle nid).
Proof.
  intros Hn. constructor.
  - intros [_ Hin]%list_elem_of_filter. apply elem_of_app in Hin as [Hin|Hin]; apply elem_of_seqZ in Hin; lia.
  - apply NoDup_filter, NoDup_app. split_and!; [apply NoDup_seqZ| |apply NoDup_seqZ].
    intros x Hx Hx'. apply elem_of_seqZ in Hx, Hx'. lia.
Qed.

Lemma circle_in nid n : 0 ≤ nid < Z.of_nat MAX_NUMNODES → n ∈ circle nid ↔ n = nid ∨ n ∈ online_nodes.
Proof.
  intros Hnid. unfold circle. rewrite elem_of_cons, list_elem_of_filter, elem_of_app, !elem_of_seqZ. split; [tauto|].
  intros [->|Hn]; [by left|]. destruct (decide (n = nid)) as [->|Hne]; [by left|right]. split; [done|].
  pose proof (nl_range n (or_intror Hn)). lia.
Qed.

Lemma circle_length nid : 0 ≤ nid < Z.of_nat MAX_NUMNODES → (length (circle nid) ≤ MAX_NUMNODES)%nat.
Proof.
  intros Hnid. assert (length (circle nid) ≤ length (seqZ 0 (Z.of_nat MAX_NUMNODES)))%nat; [|rewrite length_seqZ in *; lia].
  apply submseteq_length, NoDup_submseteq; [apply circle_nodup; lia|]. intros n Hn. apply elem_of_seqZ.
  apply circle_in in Hn; [|done]. destruct Hn as [->|Hn]; [lia|]. pose proof (nl_range n (or_intror Hn)). lia.
Qed.

Lemma add_nodes_ok nid nodes : ∀ s zl cs,
  zonerefs s !! (nid, Fallback) = Some zl → begins zl (cs ≫= zones_of s) →
  ((length cs + length (filter (λ n, n ∈ online_nodes) nodes)) * S top_zone < length zl)%nat →
  returns (add_nodes nodes nid (length (cs ≫= zones_of s))) s (λ n s', ∃ zl',
    let es' := (cs ++ filter (λ n, n ∈ online_nodes) nodes) ≫= zones_of s in
    n = length es' ∧ wrote (nid, Fallback) s zl' s' ∧ begins zl' es' ∧ length zl' = length zl).
Proof.
  induction nodes as [|n nodes IH]; intros s zl cs Hl Hb Hlen; cbn [add_nodes].
  { apply returns_ret. exists zl. cbv zeta. rewrite filter_nil, app_nil_r. split_and!; [done|by apply wrote_refl|done|done]. }
  rewrite filter_cons in *. case_decide as Hon.
  2: { rewrite bool_decide_eq_false_2 by done. simpl. by apply IH. }
  rewrite bool_decide_eq_true_2 by done. simpl negb. cbv iota. cbn [length] in Hlen. apply returns_bind.
  pose proof (bind_length s cs) as Hbl.
  eapply returns_mono; [apply build_zonelists_node_ok; [done|done|nia]|]. intros k s1 (zl1 & -> & Hw1 & Hb1 & Hl1).
  replace (cs ++ n :: filter (λ n0, n0 ∈ online_nodes) nodes) with ((cs ++ [n]) ++ filter (λ n0, n0 ∈ online_nodes) nodes)
    by (by rewrite <- app_assoc).
  assert (∀ l, l ≫= zones_of s1 = l ≫= zones_of s) as Hz1 by (intros l; by apply bind_zones; eapply wrote_zones).
  assert ((cs ≫= zones_of s) ++ zones_of s n = (cs ++ [n]) ≫= zones_of s) as He by (by rewrite bind_app, bind_singleton).
  rewrite He in *. eapply returns_mono.
  { specialize (IH s1 zl1 (cs ++ [n])). rewrite !Hz1 in IH. apply IH; [by eapply wrote_lookup|done|]. rewrite length_app, Hl1. simpl. lia. }
  intros k s2 (zl2 & -> & Hw2 & Hb2 & Hl2). exists zl2. split_and!; [done|by eapply wrote_trans|done|lia].
Qed.

Lemma build_zonelists_flat_ok nid s :
  0 ≤ nid < Z.of_nat MAX_NUMNODES → arrays s nid →
  returns (build_zonelists_flat nid) s (λ _ s', ∃ zl,
    wrote (nid, Fallback) s zl s' ∧ holds zl (circle nid ≫= zones_of s)).
Proof.
  intros Hnid Ha. destruct (Ha Fallback) as (zl & Hzl & Hlen). unfold build_zonelists_flat.
  pose proof (circle_length nid Hnid) as Hcl. unfold circle in *. rewrite filter_app in *.
  set (up := filter _ (seqZ (nid + 1) _)) in *. set (down := filter _ (seqZ 0 nid)) in *.
  cbn [length] in Hcl. rewrite length_app in Hcl. unfold MAX_ZONES_PER_ZONELIST in Hlen. apply returns_bind.
  eapply returns_mono; [apply (build_zonelists_node_ok nid _ s zl []); [done|apply begins_nil|simpl; nia]|].
  intros k s1 (zl1 & -> & [pz1 ->] & Hb1 & Hl1). set (s1 := modify_field _ _).
  assert (zonerefs s1 !! (nid, Fallback) = Some zl1) as Hz1 by (unfold s1; simpl; apply lookup_insert_eq).
  assert (wrote (nid, Fallback) s zl1 s1) as Hw1 by (by exists pz1).
  assert (∀ l, l ≫= zones_of s1 = l ≫= zones_of s) as Hzo1 by (intros l; by apply bind_zones; eapply wrote_zones). clearbody s1.
  assert ([] ++ zones_of s nid = [nid] ≫= zones_of s1) as He by (by rewrite Hzo1, bind_singleton).
  rewrite He in *. apply returns_bind.
  eapply returns_mono; [apply (add_nodes_ok nid _ s1 zl1 [nid] Hz1 Hb1); fold up; cbn [length]; nia|]. fold up.
  intros k s2 (zl2 & -> & Hw2 & Hb2 & Hl2).
  assert (∀ l, l ≫= zones_of s2 = l ≫= zones_of s1) as Hzo2 by (intros l; by apply bind_zones; eapply wrote_zones).
  rewrite <- Hzo2 in Hb2 |- *. apply returns_bind.
  eapply returns_mono; [apply (add_nodes_ok nid _ s2 zl2 ([nid] ++ up)); [by eapply wrote_lookup|done|]; fold down; rewrite length_app; cbn [length]; nia|].
  fold down. intros k s3 (zl3 & -> & Hw3 & Hb3 & Hl3). pose proof (bind_length s2 (([nid] ++ up) ++ down)) as Hbl.
  rewrite !length_app in Hbl. cbn [length] in Hbl.
  eapply returns_mono; [eapply set_zoneref_ok; [by eapply wrote_lookup|nia]|]. intros [] s4 Hw4.
  eexists. split; [by eapply wrote_trans, wrote_trans, wrote_trans|].
  rewrite <- Hzo1, <- Hzo2. change (nid :: up ++ down) with ([nid] ++ up ++ down). rewrite (assoc_L (++)).
  apply holds_end; [done|nia].
Qed.

(** The order a string names by its first letter. *)
Definition order_of_string (str : string) : option Z :=
  match str with
  | EmptyString => None
  | String c _ =>
      if bool_decide (c ∈ ["d"; "D"]%char) then Some ZONELIST_ORDER_DEFAULT
      else if bool_decide (c ∈ ["n"; "N"]%char) then Some ZONELIST_ORDER_NODE
      else if bool_decide (c ∈ ["z"; "Z"]%char) then Some ZONELIST_ORDER_ZONE else None
  end.

Lemma parse_ok str s : returns (__parse_numa_zonelist_order str) s (λ bad s',
  match order_of_string str with
  | Some o => bad = 0 ∧ s' = s <| user_zonelist_order := o |>
  | None => bad = - EINVAL ∧ s' = s
  end).
Proof.
  unfold __parse_numa_zonelist_order, order_of_string. destruct str as [|c str]; cbv zeta.
  { rewrite !bool_decide_eq_false_2 by naive_solver. by apply returns_ret. }
  assert (∀ a b : ascii, bool_decide (Some c = Some a ∨ Some c = Some b) = bool_decide (c ∈ [a; b])) as Hc.
  { intros a b. apply bool_decide_ext. rewrite !elem_of_cons, elem_of_nil. naive_solver. }
  rewrite !Hc. repeat case_match; try (apply returns_bind; eapply returns_eq; [reflexivity|]); by apply returns_ret.
Qed.

(** ** The theorems *)

(** C14. [build_all_zonelists] returns, writes nothing outside of the arrays, leaves
    the zones alone, follows the order the user asked for if any, and gives every online
    node a list that has every populated zone of the node and of the nodes with memory
    once, and a list of its own zones.  The nodes come in this order, node by node or zone
    by zone: the node itself, then the others by their distance from it (with one more for
    a node below it and the penalty for a node with processors), never a farther one
    before a nearer one. *)
Theorem build_all_zonelists_complete s :
  zl_ready s →
  returns build_all_zonelists s (λ _ s', zones s' = zones s ∧
    (user_zonelist_order s ≠ ZONELIST_ORDER_DEFAULT → current_zonelist_order s' = user_zonelist_order s) ∧
    ∀ nid, nid ∈ online_nodes → built s (current_zonelist_order s') nid s' ∧
      ∃ zl, zonerefs s' !! (nid, Fallback) = Some zl ∧ NoDup (entries zl) ∧
        ∀ z, z ∈ entries zl ↔
          (z.2 ≤ top_zone)%nat ∧ (z.1 = nid ∨ z.1 ∈ memory_nodes) ∧ populated_zone s z = true).
Proof.
  intros Hr. eapply returns_mono; [by apply build_all_zonelists_ok|]. intros [] s' (Hz & _ & _ & Hu & Hb).
  split_and!; [done|done|]. intros nid Hn. split; [auto|].
  destruct (Hb nid Hn) as (cs & zl & zt & Hnd & Hcs & _ & Hzl & Hh & _). exists zl. rewrite (holds_entries _ _ Hh).
  destruct (list_of_complete s (current_zonelist_order s') cs Hnd) as [Hnd' Hin]. split_and!; [done|done|].
  intros z. rewrite Hin, Hcs. done.
Qed.

(** A write to [numa_zonelist_order] returns: a string that names no order changes
    nothing; one that does is kept with its order, and if the order is another one than
    before the lists of all nodes are built anew. *)
Theorem numa_order_handler_outcomes s str :
  zl_ready s →
  returns (numa_zonelist_order_handler true 0 str) s (λ ret s', ret = 0 ∧ zl_ready s' ∧
    match order_of_string str with
    | None => s' = s
    | Some o => user_zonelist_order s' = o ∧
        (o = user_zonelist_order s → s' = s <| numa_zonelist_order := str |>) ∧
        (o ≠ user_zonelist_order s → zones s' = zones s ∧
          ∀ nid, nid ∈ online_nodes → built s (current_zonelist_order s') nid s')
    end).
Proof.
  intros Hr. unfold numa_zonelist_order_handler. apply returns_bind. eapply returns_eq; [reflexivity|].
  apply returns_bind. eapply returns_eq; [reflexivity|]. simpl negb. cbv iota zeta. apply returns_bind.
  set (s1 := s <| numa_zonelist_order := str |>). assert (zl_ready s1) as Hr1 by (by destruct Hr).
  eapply returns_mono; [apply parse_ok|]. intros bad s2 Hp. destruct (order_of_string str) as [o|] eqn:Ho.
  - destruct Hp as [-> ->]. simpl negb. cbv iota. apply returns_bind, returns_bind. eapply returns_eq; [reflexivity|].
    change (user_zonelist_order (s1 <| user_zonelist_order := o |>)) with o.
    destruct (user_zonelist_order s =? o) eqn:Heq; bsimp; simpl negb; cbv iota.
    + apply returns_ret. apply returns_ret. subst o. split_and!; [done|by destruct Hr1; split|done| |done].
      intros _. by destruct s.
    + eapply returns_mono; [apply build_all_zonelists_ok|].
      { destruct Hr1. split; try done. simpl. unfold order_of_string in Ho. repeat case_match; naive_solver. }
      intros [] s3 (Hz3 & Hr3 & Hu3 & _ & Hb3). apply returns_ret. split_and!; [done|done|done|congruence|].
      intros _. split; [done|]. intros nid Hn. eapply built_zones, Hb3; done.
  - destruct Hp as [-> ->]. apply returns_bind. eapply returns_eq; [reflexivity|]. apply returns_ret.
    replace (_ <| user_zonelist_order := _ |>) with s by (by destruct s). done.
Qed.
End Spec.
