(* ===== verification/ZoneInit.v ===== *)
(** * Watermarks, reserves and page sets of the zones: [page_alloc.c]

    From the sizes of the zones and [min_free_kbytes] follow the watermarks, the
    blocks kept in reserve, what each zone keeps back from allocations that could have
    used a higher zone, and the sizes of the per-cpu lists.  [unsigned long] has 32
    bits. *)

From S2P Require Import Prelude KList Buddy Pcp ZoneData Zonelist.

(** What is called outside of this repository. *)
Class ZoneCalls (L : Type) : Type := {
  refresh_zone_stat_thresholds : msys L → msys L
}.

Section ZoneInit.
Context {L : Type} `{KList lhead L} `{BuddyConfig} `{NumaEnv} `{ZoneCalls L}.
Abbreviation G := (M (msys L)).
Implicit Types (s : msys L).

Definition PAGE_SIZE : Z := Z.shiftl 1 PAGE_SHIFT.

Definition roundup (x y : Z) : Z := u32 (u32 (x + (y - 1)) / y * y).

(** ** Page sets *)

Definition zone_batchsize (present : Z) : Z :=
  let batch := s32 (present / 1024) in
  let batch := if 512 * 1024 <? u32 (batch * PAGE_SIZE) then s32 ((512 * 1024) / PAGE_SIZE) else batch in
  let batch := Z.quot batch 4 in
  let batch := if batch <? 1 then 1 else batch in
  s32 (rounddown_pow_of_two (batch + Z.quot batch 2) - 1).

Definition setup_pageset (batch : Z) : M (zone L) unit :=
  _ ← modify (λ z, z <| pcp_count := 0 |> <| pcp_high := s32 (6 * batch) |>
                     <| pcp_batch := s32 (Z.max 1 (1 * batch)) |>);
  for_each (seqZ 0 MIGRATE_PCPTYPES) (λ mt, modify (λ z, z <| lists ::= INIT_LIST_HEAD (PcpList mt) |>)).

Definition setup_pagelist_highmark (high : Z) : M (zone L) unit :=
  _ ← modify (λ z, z <| pcp_high := s32 high |> <| pcp_batch := s32 (Z.max 1 (high / 4)) |>);
  if PAGE_SHIFT * 8 <? high / 4 then modify (λ z, z <| pcp_batch := PAGE_SHIFT * 8 |>) else mret tt.

(** [alloc_percpu] is expected to succeed. *)
Definition setup_zone_pageset (z : zone_ref) : G unit :=
  i ← load_zone z;
  _ ← on_zone z (setup_pageset (u32 (zone_batchsize (present_pages i))));
  s ← get;
  if negb (percpu_pagelist_fraction s =? 0)
  then on_zone z (setup_pagelist_highmark (present_pages i / u32 (percpu_pagelist_fraction s)))
  else mret tt.

Definition for_each_populated_zone (body : zone_ref → G unit) : G unit :=
  for_each all_zones (λ z, s ← get; if populated_zone s z then body z else mret tt).

Definition setup_per_cpu_pageset : G unit := for_each_populated_zone setup_zone_pageset.

Definition __zone_pcp_update (z : zone_ref) : G unit :=
  i ← load_zone z;
  let batch := u32 (zone_batchsize (present_pages i)) in
  on_zone z (c ← gets pcp_count; _ ← free_pcppages_bulk c; setup_pageset batch).

Definition zone_pcp_update (z : zone_ref) : G unit := __zone_pcp_update z.

Definition percpu_pagelist_fraction_sysctl_handler (write : bool) (ret fraction : Z) : G Z :=
  _ ← modify (λ s, s <| percpu_pagelist_fraction := fraction |>);
  if negb write || (ret <? 0) then mret ret
  else
    _ ← for_each_populated_zone (λ z,
          i ← load_zone z;
          if fraction =? 0 then fail Undefined
          else on_zone z (setup_pagelist_highmark (present_pages i / u32 fraction)));
    mret 0.

(** ** Free lists and the wait table *)

Definition zone_init_free_lists : M (zone L) unit :=
  for_each (seqZ 0 MAX_ORDER) (λ order,
    for_each (seqZ 0 MIGRATE_TYPES) (λ t,
      modify (λ z, z <| lists ::= INIT_LIST_HEAD (FreeList order t) |> <| nr_free ::= <[order := 0]> |>))).

Definition PAGES_PER_WAITQUEUE : Z := 256.

Fixpoint double_until (fuel : nat) (size pages : Z) : option Z :=
  match fuel with
  | O => None
  | S fuel' => if size <? pages then double_until fuel' (u32 (Z.shiftl size 1)) pages else Some size
  end.

(** 32 doublings reach every number of 32 bits. *)
Definition wait_table_hash_nr_entries (pages : Z) : option Z :=
  size ← double_until 33 1 (pages / PAGES_PER_WAITQUEUE);
  Some (Z.max (Z.min size 4096) 4).

Definition wait_table_bits (size : Z) : Z := ffz (u32 (Z.lnot size)).

(** ** Blocks in reserve *)

Definition pageblock_is_reserved (z : zone L) (start_pfn end_pfn : Z) : bool :=
  existsb (λ pfn, negb (pfn_valid_within pfn) || PageReserved (page_at z pfn)) (seqZ start_pfn (end_pfn - start_pfn)).

Definition min_wmark_pages (z : zone L) : Z := default 0 (watermark z !! WMARK_MIN).
Definition high_wmark_pages (z : zone L) : Z := default 0 (watermark z !! WMARK_HIGH).

(** One block; what is left to reserve after it. *)
Definition reserve_block (nid pfn end_pfn reserve : Z) : M (zone L) Z :=
  if negb (pfn_valid pfn) then mret reserve
  else if negb (page_to_nid pfn =? nid) then mret reserve
  else
    z ← get;
    let block_migratetype := get_pageblock_migratetype z pfn in
    let take_back :=
      if block_migratetype =? MIGRATE_RESERVE then
        _ ← set_pageblock_migratetype pfn MIGRATE_MOVABLE;
        _ ← move_freepages_block pfn MIGRATE_MOVABLE;
        mret reserve
      else mret reserve in
    if 0 <? reserve then
      let block_end_pfn := Z.min (pfn + pageblock_nr_pages) end_pfn in
      if pageblock_is_reserved z pfn block_end_pfn then mret reserve
      else if block_migratetype =? MIGRATE_RESERVE then mret (reserve - 1)
      else if block_migratetype =? MIGRATE_MOVABLE then
        _ ← set_pageblock_migratetype pfn MIGRATE_RESERVE;
        _ ← move_freepages_block pfn MIGRATE_RESERVE;
        mret (reserve - 1)
      else take_back
    else take_back.

Fixpoint reserve_blocks (nid : Z) (pfns : list Z) (end_pfn reserve : Z) : M (zone L) Z :=
  match pfns with
  | [] => mret reserve
  | pfn :: pfns' =>
      reserve ← reserve_block nid pfn end_pfn reserve;
      reserve_blocks nid pfns' end_pfn reserve
  end.

(** The first pages of the blocks from [start] below [end]. *)
Definition block_starts (start_pfn end_pfn : Z) : list Z :=
  (λ k, start_pfn + k * pageblock_nr_pages) <$>
    seqZ 0 ((end_pfn - start_pfn + pageblock_nr_pages - 1) / pageblock_nr_pages).

Definition setup_zone_migrate_reserve (nid : Z) : M (zone L) unit :=
  z ← get;
  let end_pfn := u32 (zone_start_pfn z + spanned_pages z) in
  let start_pfn := roundup (zone_start_pfn z) pageblock_nr_pages in
  let reserve := s32 (Z.shiftr (roundup (min_wmark_pages z) pageblock_nr_pages) pageblock_order) in
  let reserve := Z.min 2 reserve in
  _ ← reserve_blocks nid (block_starts start_pfn end_pfn) end_pfn reserve;
  mret tt.

(** ** Watermarks *)

(** The largest reserve of a zone for the types from its own up. *)
Definition max_reserve (z : zone L) (types : list nat) : Z :=
  foldl (λ m j, let r := default 0 (lowmem_reserve z !! Z.of_nat j) in if m <? r then r else m) 0 types.

Definition total_reserve_zone (z : zone_ref) (reserve_pages : Z) : G Z :=
  i ← load_zone z;
  let max := max_reserve (zz i) (seq z.2 (S top_zone - z.2)) in
  let max := u32 (max + high_wmark_pages (zz i)) in
  let max := if present_pages i <? max then present_pages i else max in
  _ ← store_zone z (λ i, i <| zone_dirty_balance_reserve := max |>);
  mret (u32 (reserve_pages + max)).

Fixpoint total_reserve_zones (zs : list zone_ref) (reserve_pages : Z) : G Z :=
  match zs with
  | [] => mret reserve_pages
  | z :: zs' => reserve_pages ← total_reserve_zone z reserve_pages; total_reserve_zones zs' reserve_pages
  end.

Definition calculate_totalreserve_pages : G unit :=
  reserve_pages ← total_reserve_zones all_zones 0;
  modify (λ s, s <| dirty_balance_reserve := reserve_pages |> <| totalreserve_pages := reserve_pages |>).

(** The zones below type [idx] keep pages back from allocations for type [j]. *)
Fixpoint lower_reserves (n : Z) (j idx : nat) (present : Z) : G unit :=
  match idx with
  | O => mret tt
  | S idx' =>
      _ ← modify (λ s, s <| sysctl_lowmem_reserve_ratio ::= λ r,
            if default 0 (r !! idx') <? 1 then <[idx' := 1]> r else r |>);
      s ← get;
      let ratio := default 0 (sysctl_lowmem_reserve_ratio s !! idx') in
      _ ← on_zone (n, idx') (modify (λ z, z <| lowmem_reserve ::= <[Z.of_nat j := present / ratio]> |>));
      i ← load_zone (n, idx');
      lower_reserves n j idx' (u32 (present + present_pages i))
  end.

Definition lowmem_reserve_zone (z : zone_ref) : G unit :=
  i ← load_zone z;
  _ ← on_zone z (modify (λ y, y <| lowmem_reserve ::= <[Z.of_nat z.2 := 0]> |>));
  lower_reserves z.1 z.2 z.2 (present_pages i).

Definition setup_per_zone_lowmem_reserve : G unit :=
  _ ← for_each all_zones lowmem_reserve_zone;
  calculate_totalreserve_pages.

Definition sum_lowmem s : Z :=
  foldl (λ n z, if is_highmem z.2 then n else u32 (n + present_of s z)) 0 all_zones.

(** The watermarks of a zone that gets [tmp] pages of the minimum, before the pages
    for contiguous allocation are added. *)
Definition zone_marks (highmem : bool) (present tmp : Z) : Z * Z * Z :=
  let min :=
    if highmem then
      let min_pages := s32 (present / 1024) in
      let min_pages := if min_pages <? SWAP_CLUSTER_MAX then SWAP_CLUSTER_MAX else min_pages in
      if 128 <? min_pages then 128 else min_pages
    else u32 tmp in
  (min, u32 (min + Z.shiftr tmp 2), u32 (min + Z.shiftr tmp 1)).

Definition zone_wmarks (pages_min lowmem_pages : Z) (z : zone_ref) : G unit :=
  _ ← on_zone z zone_spin_lock;
  i ← load_zone z;
  if lowmem_pages =? 0 then fail Undefined
  else
    let tmp := u64 (pages_min * present_pages i) / lowmem_pages in
    let '(min, low, high) := zone_marks (is_highmem z.2) (present_pages i) tmp in
    let cma := min_cma_pages i in
    _ ← on_zone z (modify (λ y, y <| watermark ::= λ w,
          <[WMARK_HIGH := u32 (high + cma)]> (<[WMARK_LOW := u32 (low + cma)]> (<[WMARK_MIN := u32 (min + cma)]> w)) |>));
    _ ← on_zone z (setup_zone_migrate_reserve z.1);
    on_zone z zone_spin_unlock.

Definition __setup_per_zone_wmarks : G unit :=
  s ← get;
  let pages_min := u32 (Z.shiftr (min_free_kbytes s) (PAGE_SHIFT - 10)) in
  let lowmem_pages := sum_lowmem s in
  _ ← for_each all_zones (zone_wmarks pages_min lowmem_pages);
  calculate_totalreserve_pages.

Definition setup_per_zone_wmarks : G unit := __setup_per_zone_wmarks.

Definition calculate_zone_inactive_ratio (z : zone_ref) : G unit :=
  store_zone z (λ i,
    let gb := Z.shiftr (present_pages i) (30 - PAGE_SHIFT) in
    i <| inactive_ratio := if negb (gb =? 0) then u32 (int_sqrt (u32 (10 * gb))) else 1 |>).

Definition setup_per_zone_inactive_ratio : G unit := for_each all_zones calculate_zone_inactive_ratio.

Definition init_per_zone_wmark_min : G Z :=
  n ← nr_free_buffer_pages;
  let lowmem_kbytes := u32 (n * Z.shiftr PAGE_SIZE 10) in
  let kb := s32 (int_sqrt (u32 (lowmem_kbytes * 16))) in
  let kb := if kb <? 128 then 128 else kb in
  let kb := if 65536 <? kb then 65536 else kb in
  _ ← modify (λ s, s <| min_free_kbytes := kb |>);
  _ ← setup_per_zone_wmarks;
  _ ← modify refresh_zone_stat_thresholds;
  _ ← setup_per_zone_lowmem_reserve;
  _ ← setup_per_zone_inactive_ratio;
  mret 0.

(** What [proc_dointvec] writes is outside: the values of the variables after it. *)
Definition min_free_kbytes_sysctl_handler (write : bool) (kbytes : Z) : G Z :=
  _ ← modify (λ s, s <| min_free_kbytes := kbytes |>);
  _ ← (if write then setup_per_zone_wmarks else mret tt);
  mret 0.

Definition lowmem_reserve_ratio_sysctl_handler (ratios : gmap nat Z) : G Z :=
  _ ← modify (λ s, s <| sysctl_lowmem_reserve_ratio := ratios |>);
  _ ← setup_per_zone_lowmem_reserve;
  mret 0.

Definition sysctl_min_unmapped_ratio_sysctl_handler (rc ratio : Z) : G Z :=
  _ ← modify (λ s, s <| sysctl_min_unmapped_ratio := ratio |>);
  if negb (rc =? 0) then mret rc
  else
    _ ← for_each all_zones (λ z, store_zone z (λ i,
          i <| min_unmapped_pages := u32 (present_pages i * u32 ratio) / 100 |>));
    mret 0.

Definition sysctl_min_slab_ratio_sysctl_handler (rc ratio : Z) : G Z :=
  _ ← modify (λ s, s <| sysctl_min_slab_ratio := ratio |>);
  if negb (rc =? 0) then mret rc
  else
    _ ← for_each all_zones (λ z, store_zone z (λ i,
          i <| min_slab_pages := u32 (present_pages i * u32 ratio) / 100 |>));
    mret 0.

(** The watermarks leave room for contiguous memory. *)
Definition __update_cma_watermarks (z : zone_ref) (count : Z) : G unit :=
  _ ← on_zone z zone_spin_lock;
  _ ← store_zone z (λ i, i <| min_cma_pages := u32 (min_cma_pages i + u32 count) |>);
  _ ← on_zone z zone_spin_unlock;
  setup_per_zone_wmarks.
End ZoneInit.
