(* ===== verification/ZoneInitSpec.v ===== *)
(** * The set-up of zones keeps and establishes what the allocator relies on

    The sizes of the per-cpu lists, the blocks in reserve, the watermarks and the
    reserves of the zones.  What the theorems of [PcpSpec.v] assume of the per-cpu
    lists is what the set-up establishes, and the set-up keeps the invariant of a zone
    in use. *)

From S2P Require Import Prelude KList Buddy BuddySpec Pcp PcpSpec ZoneData Zonelist ZoneInit.

(** What is relied on of the arithmetic outside of this repository. *)
Class ZoneLaws `{NumaEnv} : Prop := {
  zl_pow2 : ∀ n, 0 < n → ∃ k, 0 ≤ k ∧ rounddown_pow_of_two n = 2 ^ k ∧ 2 ^ k ≤ n < 2 ^ (k + 1);
  zl_shift : 10 ≤ PAGE_SHIFT ≤ 16;
  zl_cluster : 0 < SWAP_CLUSTER_MAX ≤ 128
}.

Section Pageset.
Context {L : Type} `{KListLaws lhead L} `{BuddyConfig} `{ZoneEnv} `{NumaEnv} `{!ZoneLaws}.
Hypothesis buddy_value : PAGE_BUDDY_MAPCOUNT_VALUE ≠ -1.
Implicit Types z : zone L.

(** ** Page sets *)

(** The batch is one less than a power of two, and pages of at most half a megabyte. *)
Lemma zone_batchsize_ok present :
  0 ≤ present → present / 1024 * PAGE_SIZE < 2 ^ 32 →
  (∃ k, 0 ≤ k ∧ zone_batchsize present = 2 ^ k - 1) ∧ 0 ≤ zone_batchsize present ≤ 191.
Proof.
  intros Hp Hmem. pose proof zl_shift as Hs. assert (0 ≤ present / 1024) as Hb0 by (apply Z.div_pos; lia).
  assert (1024 ≤ PAGE_SIZE) as Hps.
  { unfold PAGE_SIZE. rewrite Z.shiftl_mul_pow2, Z.mul_1_l by lia. change 1024 with (2 ^ 10). apply Z.pow_le_mono_r; lia. }
  change (2 ^ 32) with 4294967296 in *. assert (present / 1024 < 4194304) as Hb1 by nia.
  unfold zone_batchsize. rewrite (swrap_small 32 ltac:(done) (present / 1024)) by (widths; lia).
  rewrite (uwrap_small 32 (_ * PAGE_SIZE)) by (widths; nia). cbv zeta. set (b1 := if 512 * 1024 <? _ then _ else _).
  assert (0 ≤ b1 ≤ 512) as Hb2.
  { assert (0 ≤ 512 * 1024 / PAGE_SIZE ≤ 512) as Hq by (split; [apply Z.div_pos; lia|apply Z.div_le_upper_bound; lia]).
    unfold b1. destruct (512 * 1024 <? _) eqn:Hc; bsimp; [rewrite (swrap_small 32 ltac:(done)) by (widths; lia); lia|nia]. }
  clearbody b1. set (b2 := if _ <? 1 then _ else _).
  assert (1 ≤ b2 ≤ 128) as Hb3.
  { unfold b2. assert (0 ≤ Z.quot b1 4 ≤ 128) by (rewrite Z.quot_div_nonneg by lia; split; [apply Z.div_pos; lia|apply Z.div_le_upper_bound; lia]).
    destruct (_ <? 1) eqn:Hc; bsimp; lia. }
  clearbody b2. assert (0 ≤ Z.quot b2 2 ≤ 64) as Hb4
    by (rewrite Z.quot_div_nonneg by lia; split; [apply Z.div_pos; lia|apply Z.div_le_upper_bound; lia]).
  destruct (zl_pow2 (b2 + Z.quot b2 2)) as (k & Hk & -> & Hle); [lia|]. pose proof (Z.pow_pos_nonneg 2 k ltac:(lia) Hk).
  rewrite (swrap_small 32 ltac:(done)) by (widths; lia). split; [eauto|lia].
Qed.

(** What a zone is but for the size and the limits of its per-cpu lists. *)
Record zone_base z : Prop := {
  zb_buddy : buddy_inv z;
  zb_pcp : pcp_ok z;
  zb_lock : zone_lock z = false;
  zb_span : 0 ≤ spanned_pages z < 2 ^ 31;
  zb_types : types_ok z;
  zb_plain x : in_zone z x → plain z x
}.

Lemma zone_ok_base z : zone_ok z → zone_base z.
Proof. intros [? ? ? ? ? ? ? ?]. by split. Qed.

Lemma init_lists_ok mts : ∀ z,
  returns (for_each mts (λ mt, modify (λ z, z <| lists ::= INIT_LIST_HEAD (PcpList mt) |>))) z (λ _ z',
    ∃ l, z' = z <| lists := l |> ∧ ∀ h, elems l h = if decide (h ∈ PcpList <$> mts) then [] else elems (lists z) h).
Proof.
  induction mts as [|m mts IH]; intros z; cbn [for_each].
  { apply returns_ret. exists (lists z). split; [by destruct z|]. done. }
  apply returns_bind. eapply returns_eq; [reflexivity|]. eapply returns_mono; [apply IH|]. intros [] z' (l & -> & Hl).
  exists l. split; [by destruct z|]. intros h. rewrite Hl. simpl. rewrite elems_init. csimpl.
  destruct (decide (h ∈ PcpList <$> mts)) as [Hin|Hno].
  - rewrite decide_True; [done|by right].
  - destruct (decide (h = PcpList m)) as [->|Hne].
    + rewrite decide_True; [done|left].
    + rewrite decide_False; [done|]. by intros [->|Hin]%elem_of_cons.
Qed.

(** A page set with empty lists starts with them empty, and with a batch that fits. *)
Lemma setup_pageset_ok z batch :
  zone_base z → pcp_pages z = [] → 0 ≤ batch ≤ 2 ^ 20 →
  returns (setup_pageset batch) z (λ _ z', zone_ok z' ∧ bounds z' = bounds z ∧ (∀ x, in_zone z' x ↔ in_zone z x) ∧
    pcp_pages z' = [] ∧ pcp_batch z' = Z.max 1 batch ∧ pcp_high z' = 6 * batch ∧ watermark z' = watermark z ∧
    lowmem_reserve z' = lowmem_reserve z).
Proof.
  intros [Hi Hok Hl Hs Ht Hpl] Hempty Hb. change (2 ^ 20) with 1048576 in Hb. unfold setup_pageset.
  rewrite Z.mul_1_l, !(swrap_small 32 ltac:(done)) by (widths; lia).
  apply returns_bind. eapply returns_eq; [reflexivity|]. eapply returns_mono; [apply init_lists_ok|].
  intros [] z' (l & -> & Hel).
  assert (∀ mt, elems (lists z) (PcpList mt) = []) as Hnil.
  { intros mt. destruct (elems (lists z) (PcpList mt)) as [|p ps] eqn:He; [done|].
    assert (p ∈ pcp_pages z) as Hin by (apply pcp_pages_in; [done|]; exists mt; rewrite He; left).
    rewrite Hempty in Hin. by apply not_elem_of_nil in Hin. }
  assert (∀ h, elems l h = elems (lists z) h) as Hsame.
  { intros h. rewrite Hel. case_decide as Hex; [|done]. apply list_elem_of_fmap in Hex as (mt & -> & _). by rewrite Hnil. }
  destruct (buddy_inv_lists z l Hi) as [Hi' Hf'].
  { destruct (bi_lists z Hi) as [Hnd Hone]. split; [intros h; by rewrite Hsame|]. intros n h h'. rewrite !Hsame. apply Hone. }
  { intros. by rewrite Hsame. }
  { intros x _ Hoff h. rewrite Hsame. apply Hoff. }
  set (z' := modify_field _ _). assert (pcp_pages z' = []) as Hp' by (unfold pcp_pages, z'; simpl; by rewrite !Hsame, !Hnil).
  assert (∀ x, in_zone z' x ↔ in_zone z x) as Hz.
  { intros x. unfold in_zone. rewrite Hp', Hempty. change (is_free z' x) with (is_free (z <| lists := l |>) x). by rewrite Hf'. }
  split_and!; [|done|done|done|done|done|done|done]. split.
  - by eapply buddy_inv_congr; [..|exact Hi'].
  - intros mt p. unfold z'. simpl. rewrite Hsame, Hnil. by intros ?%not_elem_of_nil.
  - by rewrite Hp'.
  - done.
  - done.
  - unfold z'. simpl. lia.
  - exact Ht.
  - intros x Hx. apply Hz in Hx. by apply Hpl in Hx.
Qed.

(** A high mark of its own gives a batch that fits as well. *)
Lemma highmark_ok z high :
  zone_ok z → 0 ≤ high < 2 ^ 31 →
  returns (setup_pagelist_highmark high) z (λ _ z', zone_ok z' ∧ bounds z' = bounds z ∧ (∀ x, in_zone z' x ↔ in_zone z x) ∧
    pcp_high z' = high).
Proof.
  intros [Hi Hok Hn Hl Hs Hb Ht Hpl] Hh. change (2 ^ 31) with 2147483648 in Hh. pose proof zl_shift.
  assert (0 ≤ high / 4 ≤ high) as Hq by (split; [apply Z.div_pos; lia|apply Z.div_le_upper_bound; lia]).
  unfold setup_pagelist_highmark. rewrite !(swrap_small 32 ltac:(done)) by (widths; lia).
  apply returns_bind. eapply returns_eq; [reflexivity|]. destruct (PAGE_SHIFT * 8 <? high / 4) eqn:Hc; bsimp.
  - eapply returns_eq; [reflexivity|]. split_and!; [|done|done|done]. split; try done; [by eapply buddy_inv_congr; [..|exact Hi]|simpl; lia].
  - apply returns_ret. split_and!; [|done|done|done]. split; try done; [by eapply buddy_inv_congr; [..|exact Hi]|simpl; lia].
Qed.

(** The lists of a zone in use are emptied and set up anew: every page stays in the
    zone. *)
Lemma pcp_update_ok z batch :
  zone_ok z → 0 < MAX_ORDER → 0 ≤ batch ≤ 2 ^ 20 →
  returns (c ← gets pcp_count; _ ← free_pcppages_bulk c; setup_pageset batch) z (λ _ z',
    zone_ok z' ∧ bounds z' = bounds z ∧ (∀ x, in_zone z' x ↔ in_zone z x) ∧ pcp_pages z' = [] ∧
    pcp_batch z' = Z.max 1 batch ∧ pcp_high z' = 6 * batch).
Proof.
  intros [Hi Hok Hn Hl Hs Hb Ht Hpl] Hm Hbt. apply returns_bind. eapply returns_eq; [reflexivity|].
  destruct (free_bulk_spec buddy_value z (pcp_count z)) as (ps & z1 & E & Hlen & I & O & P & F & S & T & _);
    [done|done|done|done|lia|].
  apply returns_bind. eapply returns_eq; [exact E|].
  assert (pcp_pages z1 = []) as Hnil.
  { apply length_zero_iff_nil. apply Permutation_length in P. rewrite length_app in P. lia. }
  assert (∀ x, in_zone z1 x ↔ in_zone z x) as Hx by (intros x; unfold in_zone; rewrite F, P, Hnil, elem_of_app, elem_of_nil; tauto).
  pose proof S as (_ & _ & S1 & _ & _ & S4 & S5).
  eapply returns_mono; [apply setup_pageset_ok; [split|done|done]|].
  - done.
  - done.
  - done.
  - lia.
  - auto.
  - intros x Hx1. apply (plain_desc z); [apply S5|]. by apply Hpl, Hx.
  - intros [] z2 (Hz2 & Hb2 & Hx2 & Hp2 & Hba & Hhi & _). split_and!; try done.
    + rewrite Hb2. by apply same_zone_bounds.
    + intros x. by rewrite Hx2.
Qed.

(** ** Blocks in reserve *)

(** The invariant of a zone whose lock may be held. *)
Record unlocked_ok z : Prop := {
  uo_buddy : buddy_inv z;
  uo_pcp : pcp_ok z;
  uo_count : pcp_count z = Z.of_nat (length (pcp_pages z));
  uo_span : 0 ≤ spanned_pages z < 2 ^ 31;
  uo_batch : 1 ≤ pcp_batch z ≤ Z.max 1 (pcp_high z);
  uo_types : types_ok z;
  uo_plain x : in_zone z x → plain z x
}.

Lemma zone_ok_unlocked z : zone_ok z → unlocked_ok z.
Proof. intros [? ? ? ? ? ? ? ?]. by split. Qed.

Lemma unlocked_zone_ok z : unlocked_ok z → zone_lock z = false → zone_ok z.
Proof. intros [? ? ? ? ? ? ?]. by split. Qed.

Definition marks z := (watermark z, lowmem_reserve z).

Lemma frame_move_from fuel : ∀ p e mt n, frames (λ z, (marks z, block_mt z)) (move_from (L := L) fuel p e mt n).
Proof.
  induction fuel as [|fuel IH]; intros p e mt n; simpl; [apply frames_fail|]. frame; apply frames_modify; done.
Qed.

Lemma frame_move_block p mt : frames (λ z, (marks z, block_mt z)) (move_freepages_block (L := L) p mt).
Proof. unfold move_freepages_block, move_freepages. frame. apply frame_move_from. Qed.

Lemma zone_ok_moved z z' : unlocked_ok z → buddy_inv z' → moved z z' →
  unlocked_ok z' ∧ bounds z' = bounds z ∧ ∀ x, in_zone z' x ↔ in_zone z x.
Proof.
  intros [Hi Hok Hn Hs Hb Ht Hpl] Hi' (Hf & _ & Hm & _ & (Hk1 & _ & _ & K1 & K2 & K3 & K4 & K5 & K6 & K7 & K8 & K9 & K10)).
  assert (pcp_pages z' = pcp_pages z) as Hp by (unfold pcp_pages; by rewrite !K7).
  assert (∀ x, in_zone z' x ↔ in_zone z x) as Hx.
  { intros x. unfold in_zone, is_free. rewrite Hp. by setoid_rewrite Hf. }
  split_and!; [|unfold bounds; by rewrite K1, K2, K3|done].
  split; [done| |by rewrite Hp, K4|by rewrite K3|by rewrite K5, K6|auto|].
  - intros mt p. rewrite K7. intros Hin. destruct (Hok mt p Hin) as (? & Hc & ?). unfold page_clean, PageCompound in *.
    rewrite (K8 mt) by done. split; [done|]. split; [|done]. destruct Hc as (Hc1 & Hc2 & Hc3 & Hc4). split_and!; [done|done|done|].
    unfold bad_range, page_outside_zone_boundaries, page_is_consistent in *. by rewrite K1, K2, K3.
  - intros x Hin. apply (plain_desc z); [apply K10|]. by apply Hpl, Hx.
Qed.

Context (order_ok : 0 ≤ pageblock_order).

(** A block of the zone changes its type, and its free pages their lists. *)
Lemma retype_ok z pfn mt :
  unlocked_ok z → zone_contiguous z → zone_start_pfn z ≤ pfn < zone_start_pfn z + spanned_pages z → 0 ≤ mt < MIGRATE_TYPES →
  returns (_ ← set_pageblock_migratetype pfn mt; move_freepages_block pfn mt) z (λ _ z',
    unlocked_ok z' ∧ bounds z' = bounds z ∧ (∀ x, in_zone z' x ↔ in_zone z x) ∧ marks z' = marks z ∧ mem_map z' = mem_map z ∧ zone_lock z' = zone_lock z ∧
    block_mt z' = <[pfn / pageblock_nr_pages := if page_group_by_mobility_disabled then MIGRATE_UNMOVABLE else mt]> (block_mt z)).
Proof.
  intros Hz Hct Hp Hmt. destruct (set_type_ok z pfn mt Hmt) as (bm & Es & Hty).
  assert (bm = <[pfn / pageblock_nr_pages := if page_group_by_mobility_disabled then MIGRATE_UNMOVABLE else mt]> (block_mt z)) as Hbm.
  { unfold set_pageblock_migratetype, modify in Es. by injection Es. }
  apply returns_bind. eapply returns_eq; [exact Es|]. set (z1 := z <| block_mt := bm |>).
  assert (unlocked_ok z1) as Hz1.
  { destruct Hz as [Hi Hok Hn Hs Hb Ht Hpl]. split; try done; [by eapply buddy_inv_congr; [..|exact Hi]|auto]. }
  destruct (move_block_spec buddy_value pfn mt z1 (nr_free z1)) as (m & z' & E & Hi' & Hm); [apply Hz1|done|done|done|done|].
  replace (z1 <| nr_free := nr_free z1 |>) with z1 in E by (by destruct z).
  assert (z' <| nr_free := nr_free z1 |> = z') as Hnf by (destruct Hm as (_ & _ & _ & <- & _); by destruct z').
  rewrite Hnf in E. pose proof (frames_run _ _ _ _ _ (frame_move_block pfn mt) E) as [= Hw Hlr Hbt].
  destruct (zone_ok_moved z1 z' Hz1 Hi' Hm) as (Hz' & Hb' & Hx'). eapply returns_eq; [exact E|].
  pose proof Hm as (_ & _ & _ & _ & Hm'). destruct Hm as (_ & _ & Hmm & _). split_and!; [done|done|done| |done|by apply Hm'|by rewrite Hbt, <- Hbm].
  unfold marks. by rewrite Hw, Hlr.
Qed.

(** A block that is kept in reserve: of this node, without pages that never become
    free. *)
Definition in_reserve (nid end_pfn : Z) z (pfn : Z) : bool :=
  pfn_valid pfn && (page_to_nid pfn =? nid) &&
  negb (pageblock_is_reserved z pfn (Z.min (pfn + pageblock_nr_pages) end_pfn)) &&
  (get_pageblock_migratetype z pfn =? MIGRATE_RESERVE).

Lemma is_reserved_map z z' a b : mem_map z' = mem_map z → pageblock_is_reserved z' a b = pageblock_is_reserved z a b.
Proof. intros Hm. unfold pageblock_is_reserved, page_at. by rewrite Hm. Qed.

Lemma reserve_types : 0 ≤ MIGRATE_RESERVE < MIGRATE_TYPES ∧ 0 ≤ MIGRATE_MOVABLE < MIGRATE_TYPES.
Proof. unfold MIGRATE_TYPES, MIGRATE_ISOLATE, MIGRATE_RESERVE, MIGRATE_MOVABLE. destruct CONFIG_CMA; lia. Qed.

(** What a step of the loop does besides counting. *)
Record reserved_step (pfn : Z) z z' : Prop := {
  rs_ok : unlocked_ok z';
  rs_bounds : bounds z' = bounds z;
  rs_pages x : in_zone z' x ↔ in_zone z x;
  rs_marks : marks z' = marks z;
  rs_map : mem_map z' = mem_map z;
  rs_lock : zone_lock z' = zone_lock z;
  rs_other q : q / pageblock_nr_pages ≠ pfn / pageblock_nr_pages →
    get_pageblock_migratetype z' q = get_pageblock_migratetype z q
}.

Lemma reserved_step_refl pfn z : unlocked_ok z → reserved_step pfn z z.
Proof. intros Hz. by split. Qed.

Lemma retype_step z pfn mt :
  unlocked_ok z → zone_contiguous z → zone_start_pfn z ≤ pfn < zone_start_pfn z + spanned_pages z → 0 ≤ mt < MIGRATE_TYPES →
  returns (_ ← set_pageblock_migratetype pfn mt; move_freepages_block pfn mt) z (λ _ z', reserved_step pfn z z' ∧
    get_pageblock_migratetype z' pfn = if page_group_by_mobility_disabled then MIGRATE_UNMOVABLE else mt).
Proof.
  intros Hz Hct Hp Hmt. eapply returns_mono; [by apply retype_ok|]. intros m z' (H1' & H2' & H3' & H4' & H5' & H6' & H7').
  split; [split; try done|]; unfold get_pageblock_migratetype; rewrite H7'.
  - intros q Hq. by rewrite lookup_insert_ne by auto.
  - by rewrite lookup_insert_eq.
Qed.

Lemma reserve_block_ok nid end_pfn z pfn reserve :
  unlocked_ok z → zone_contiguous z → zone_start_pfn z ≤ pfn < zone_start_pfn z + spanned_pages z → 0 ≤ reserve →
  returns (reserve_block nid pfn end_pfn reserve) z (λ r z', reserved_step pfn z z' ∧
    0 ≤ r ∧ (if in_reserve nid end_pfn z' pfn then 1 else 0) ≤ reserve - r ≤ 1).
Proof.
  intros Hz Hct Hp Hr. pose proof reserve_types as [Hrt Hmt]. unfold reserve_block, in_reserve.
  destruct (pfn_valid pfn); simpl; [|apply returns_ret; split_and!; try lia; by apply reserved_step_refl].
  destruct (page_to_nid pfn =? nid); simpl; [|apply returns_ret; split_and!; try lia; by apply reserved_step_refl].
  apply returns_bind. eapply returns_eq; [reflexivity|]. cbv zeta.
  assert (∀ mt, 0 ≤ mt < MIGRATE_TYPES → ∀ (k : Z) Q,
    (∀ z', reserved_step pfn z z' → get_pageblock_migratetype z' pfn = (if page_group_by_mobility_disabled then MIGRATE_UNMOVABLE else mt) → Q k z') →
    returns (_ ← set_pageblock_migratetype pfn mt; _ ← move_freepages_block pfn mt; mret k) z Q) as Hret.
  { intros mt Hm k Q HQ. destruct (retype_step z pfn mt Hz Hct Hp Hm) as (b & z' & E & Hs & Ht).
    exists k, z'. split; [|by apply HQ]. unfold mbind, M_bind in *. destruct (set_pageblock_migratetype pfn mt z); [|done]. by rewrite E. }
  assert (returns (if get_pageblock_migratetype z pfn =? MIGRATE_RESERVE then
        _ ← set_pageblock_migratetype pfn MIGRATE_MOVABLE;
        _ ← move_freepages_block pfn MIGRATE_MOVABLE;
        mret reserve
      else mret reserve) z (λ r z', reserved_step pfn z z' ∧ r = reserve ∧
        (get_pageblock_migratetype z' pfn =? MIGRATE_RESERVE) = false)) as Hback.
  { destruct (get_pageblock_migratetype z pfn =? MIGRATE_RESERVE) eqn:Hg.
    - apply Hret; [done|]. intros z' Hs Ht. split_and!; [done|done|]. rewrite Ht.
      by destruct page_group_by_mobility_disabled.
    - apply returns_ret. split_and!; [by apply reserved_step_refl|done|done]. }
  assert (∀ z', reserved_step pfn z z' →
    pageblock_is_reserved z' pfn (Z.min (pfn + pageblock_nr_pages) end_pfn) =
    pageblock_is_reserved z pfn (Z.min (pfn + pageblock_nr_pages) end_pfn)) as Hres
    by (intros z' Hs; apply is_reserved_map, Hs).
  destruct (0 <? reserve) eqn:Hpos; bsimp.
  - destruct (pageblock_is_reserved z pfn _) eqn:Hpr.
    { apply returns_ret. rewrite Hpr. simpl. split_and!; try lia. by apply reserved_step_refl. }
    destruct (get_pageblock_migratetype z pfn =? MIGRATE_RESERVE) eqn:Hg.
    { apply returns_ret. rewrite Hpr, Hg. simpl. split_and!; try lia. by apply reserved_step_refl. }
    destruct (get_pageblock_migratetype z pfn =? MIGRATE_MOVABLE) eqn:Hg2.
    { apply Hret; [done|]. intros z' Hs Ht. split_and!; [done|lia| |lia]. destruct (_ && _); lia. }
    eapply returns_mono; [exact Hback|]. intros r z' (Hs & -> & Ht). rewrite Ht, andb_false_r. split_and!; [done|lia..].
  - eapply returns_mono; [exact Hback|]. intros r z' (Hs & -> & Ht). rewrite Ht, andb_false_r. split_and!; [done|lia..].
Qed.

(** The number of blocks in reserve. *)
Definition nr_reserve (nid end_pfn : Z) z (pfns : list Z) : Z :=
  sumZ (λ pfn, if in_reserve nid end_pfn z pfn then 1 else 0) pfns.

(** What the whole loop keeps. *)
Record reserved_zone (pfns : list Z) z z' : Prop := {
  rz_ok : unlocked_ok z';
  rz_bounds : bounds z' = bounds z;
  rz_pages x : in_zone z' x ↔ in_zone z x;
  rz_marks : marks z' = marks z;
  rz_map : mem_map z' = mem_map z;
  rz_lock : zone_lock z' = zone_lock z;
  rz_other q : q / pageblock_nr_pages ∉ (λ p, p / pageblock_nr_pages) <$> pfns →
    get_pageblock_migratetype z' q = get_pageblock_migratetype z q
}.

Lemma reserve_blocks_ok nid end_pfn pfns : ∀ z reserve,
  unlocked_ok z → zone_contiguous z → (∀ p, p ∈ pfns → zone_start_pfn z ≤ p < zone_start_pfn z + spanned_pages z) →
  NoDup ((λ p, p / pageblock_nr_pages) <$> pfns) → 0 ≤ reserve →
  returns (reserve_blocks nid pfns end_pfn reserve) z (λ r z', reserved_zone pfns z z' ∧ 0 ≤ r ∧
    nr_reserve nid end_pfn z' pfns ≤ reserve - r).
Proof.
  induction pfns as [|p pfns IH]; intros z reserve Hz Hct Hin Hnd Hr; cbn [reserve_blocks].
  { apply returns_ret. split_and!; [by split|done|]. unfold nr_reserve. simpl. lia. }
  csimpl in *. apply NoDup_cons in Hnd as [Hp Hnd]. apply returns_bind.
  eapply returns_mono; [apply reserve_block_ok; [done|done|apply Hin; left|done]|]. intros r z1 ([H1' H2' H3' H4' H5' H5'' H6'] & Hr1 & Hc1).
  pose proof H2' as [= Hb1 Hb2 Hb3]. eapply returns_mono; [apply IH; [done|by eapply bounds_contiguous| |done|done]|].
  { intros q Hq. rewrite Hb2, Hb3. apply Hin. by right. }
  intros r2 z2 ([G1 G2 G3 G4 G5 G5' G6] & Hr2 & Hc2). split_and!; [|done|].
  - split; [done|congruence| |congruence|congruence|congruence|].
    + intros x. by rewrite G3.
    + intros q Hq. csimpl in Hq. apply not_elem_of_cons in Hq as [Hq1 Hq2]. rewrite G6, H6'; done.
  - unfold nr_reserve in *. cbn [sumZ foldr].
    assert (in_reserve nid end_pfn z2 p = in_reserve nid end_pfn z1 p) as ->.
    { unfold in_reserve. rewrite (is_reserved_map z1 z2), G6 by done. done. }
    unfold sumZ in *. lia.
Qed.

Lemma roundup_ok x : 0 ≤ x → x + pageblock_nr_pages < 2 ^ 32 →
  (pageblock_nr_pages | roundup x pageblock_nr_pages) ∧ x ≤ roundup x pageblock_nr_pages < x + pageblock_nr_pages.
Proof.
  intros Hx Hm. assert (0 < pageblock_nr_pages) as Hb
    by (unfold pageblock_nr_pages; rewrite Z.shiftl_mul_pow2, Z.mul_1_l by done; apply Z.pow_pos_nonneg; lia).
  change (2 ^ 32) with 4294967296 in Hm. unfold roundup. rewrite (uwrap_small 32 (x + _)) by (widths; lia).
  set (B := pageblock_nr_pages) in *. pose proof (Z.div_mod (x + (B - 1)) B ltac:(lia)) as Hd.
  pose proof (Z.mod_pos_bound (x + (B - 1)) B Hb) as Hmod.
  assert (0 ≤ (x + (B - 1)) / B * B ≤ x + (B - 1)) as Hq by lia. rewrite uwrap_small by (widths; lia).
  split; [by exists ((x + (B - 1)) / B)|lia].
Qed.

(** The first pages of the blocks that begin in the zone. *)
Lemma block_starts_ok a b :
  (pageblock_nr_pages | a) →
  NoDup ((λ p, p / pageblock_nr_pages) <$> block_starts a b) ∧ ∀ p, p ∈ block_starts a b → a ≤ p < b.
Proof.
  intros [k ->]. assert (0 < pageblock_nr_pages) as Hb
    by (unfold pageblock_nr_pages; rewrite Z.shiftl_mul_pow2, Z.mul_1_l by done; apply Z.pow_pos_nonneg; lia).
  unfold block_starts. set (B := pageblock_nr_pages) in *. split.
  - rewrite <- list_fmap_compose. apply NoDup_fmap_2; [|apply NoDup_seqZ]. intros i j. simpl.
    rewrite <- !Z.mul_add_distr_r, !Z.div_mul by lia. lia.
  - intros p (i & -> & Hi)%list_elem_of_fmap. apply elem_of_seqZ in Hi. split; [nia|].
    assert (i < (b - k * B + B - 1) / B) as Hlt by lia.
    assert (B * (i + 1) ≤ b - k * B + B - 1); [|nia]. etrans; [|apply (Z.mul_div_le _ B); lia]. nia.
Qed.

(** What is kept in reserve for a minimum of [min] pages. *)
Definition reserve_goal (min : Z) : Z := Z.min 2 (Z.shiftr (roundup min pageblock_nr_pages) pageblock_order).

Lemma migrate_reserve_ok nid z :
  unlocked_ok z → zone_contiguous z → 0 ≤ zone_start_pfn z →
  zone_start_pfn z + spanned_pages z + pageblock_nr_pages < 2 ^ 32 →
  0 ≤ min_wmark_pages z < 2 ^ 30 → pageblock_nr_pages ≤ 2 ^ 30 →
  let e := zone_start_pfn z + spanned_pages z in
  let pfns := block_starts (roundup (zone_start_pfn z) pageblock_nr_pages) e in
  returns (setup_zone_migrate_reserve nid) z (λ _ z', reserved_zone pfns z z' ∧
    nr_reserve nid e z' pfns ≤ reserve_goal (min_wmark_pages z)).
Proof.
  intros Hz Hct H0' Hend Hmin Hpb e pfns. pose proof (uo_span z Hz) as Hsp.
  assert (0 < pageblock_nr_pages) as Hb
    by (unfold pageblock_nr_pages; rewrite Z.shiftl_mul_pow2, Z.mul_1_l by done; apply Z.pow_pos_nonneg; lia).
  destruct (roundup_ok (zone_start_pfn z)) as [Hdiv Hru]; [done|lia|].
  destruct (roundup_ok (min_wmark_pages z)) as [_ Hrm]; [lia|change (2 ^ 30) with 1073741824 in *; change (2 ^ 32) with 4294967296; lia|].
  change (2 ^ 32) with 4294967296 in *. change (2 ^ 30) with 1073741824 in *. change (2 ^ 31) with 2147483648 in *.
  assert (0 ≤ Z.shiftr (roundup (min_wmark_pages z) pageblock_nr_pages) pageblock_order < 2147483648) as Hsr.
  { rewrite Z.shiftr_div_pow2 by done. pose proof (Z.pow_pos_nonneg 2 pageblock_order ltac:(lia) order_ok).
    split; [apply Z.div_pos; lia|apply Z.div_lt_upper_bound; nia]. }
  destruct (block_starts_ok _ e Hdiv) as [Hnd Hrange].
  unfold setup_zone_migrate_reserve. apply returns_bind. eapply returns_eq; [reflexivity|]. cbv zeta.
  rewrite (uwrap_small 32 (_ + spanned_pages z)) by (widths; lia). fold e. fold pfns.
  rewrite (swrap_small 32 ltac:(done)) by (widths; lia). fold (reserve_goal (min_wmark_pages z)).
  apply returns_bind. eapply returns_mono; [apply reserve_blocks_ok; [done|done| |done|unfold reserve_goal; lia]|].
  { intros p Hp. apply Hrange in Hp. unfold e in Hp. lia. }
  intros r z' (Hrz & Hr & Hc). apply returns_ret. split; [done|lia].
Qed.
End Pageset.
