(* ===== verification/ZoneMarks.v ===== *)
(** * Watermarks and reserves of all zones

    What [setup_per_zone_wmarks] and [setup_per_zone_lowmem_reserve] compute, in
    numbers, and that the zones stay as the allocator needs them. *)

From S2P Require Import Prelude KList Buddy BuddySpec Pcp PcpSpec ZoneData Zonelist ZoneInit ZoneInitSpec.

Section Marks.
Context {L : Type} `{KListLaws lhead L} `{BuddyConfig} `{ZoneEnv} `{NumaEnv} `{!ZoneLaws}.
Hypothesis buddy_value : PAGE_BUDDY_MAPCOUNT_VALUE ≠ -1.
Context (order_ok : 0 ≤ pageblock_order).
Implicit Types (s : msys L) (z : zone_ref) (i : zinfo L).

(** ** Loops over the zones *)

(** All but the zones. *)
Definition rest s : msys L := s <| zones := ∅ |>.

Lemma rest_zones s z i : rest (s <| zones ::= <[z := i]> |>) = rest s.
Proof. done. Qed.

Lemma load_zone_ok s z i : zones s !! z = Some i → load_zone z s = Ok i s.
Proof. intros Hz. unfold load_zone, mbind, M_bind, get. by rewrite Hz. Qed.

Lemma store_zone_ok s z i f : zones s !! z = Some i →
  store_zone z f s = Ok tt (s <| zones ::= <[z := f i]> |>).
Proof. intros Hz. unfold store_zone, mbind, M_bind. by rewrite (load_zone_ok s z i Hz). Qed.

Lemma on_zone_ok {A} (m : M (zone L) A) s z i (Q : A → msys L → Prop) :
  zones s !! z = Some i →
  returns m (zz i) (λ a y, Q a (s <| zones ::= <[z := i <| zz := y |>]> |>)) → returns (on_zone z m) s Q.
Proof. intros Hz (a & y & Hm & HQ). unfold returns, on_zone. rewrite Hz, Hm. by eexists _, _. Qed.

(** A zone with a new description. *)
Definition put s z i : msys L := s <| zones ::= <[z := i]> |>.

Lemma put_id s z i : zones s !! z = Some i → put s z i = s.
Proof. intros Hz. unfold put. destruct s. unfold modify_field. simpl in *. by rewrite insert_id. Qed.

Lemma put_twice s z i i' : put (put s z i) z i' = put s z i'.
Proof. unfold put. destruct s. unfold modify_field. simpl. by rewrite insert_insert_eq. Qed.

Lemma put_lookup s z i : zones (put s z i) !! z = Some i.
Proof. unfold put. simpl. apply lookup_insert_eq. Qed.

Lemma on_zone_put {A} (m : M (zone L) A) s z i (Q : A → msys L → Prop) :
  returns m (zz i) (λ a y, Q a (put s z (i <| zz := y |>))) → returns (on_zone z m) (put s z i) Q.
Proof.
  intros Hm. eapply on_zone_ok; [apply put_lookup|]. eapply returns_mono; [exact Hm|]. intros a y HQ.
  fold (put (put s z i) z (i <| zz := y |>)). by rewrite put_twice.
Qed.

(** A loop that changes each zone by itself. *)
Lemma zones_each (body : zone_ref → M (msys L) unit) (R : zone_ref → zinfo L → Prop)
    (Post : zone_ref → zinfo L → zinfo L → Prop) l : ∀ s,
  NoDup l → (∀ z, z ∈ l → ∃ i, zones s !! z = Some i ∧ R z i) →
  (∀ z i s', z ∈ l → rest s' = rest s → zones s' !! z = Some i → R z i →
    returns (body z) s' (λ _ s'', ∃ i', s'' = s' <| zones ::= <[z := i']> |> ∧ Post z i i')) →
  returns (for_each l body) s (λ _ s', rest s' = rest s ∧ (∀ z, z ∉ l → zones s' !! z = zones s !! z) ∧
    ∀ z, z ∈ l → ∃ i i', zones s !! z = Some i ∧ zones s' !! z = Some i' ∧ Post z i i').
Proof.
  induction l as [|z l IH]; intros s Hnd Hin Hbody; cbn [for_each].
  { apply returns_ret. split_and!; [done|done|]. by intros z ?%not_elem_of_nil. }
  apply NoDup_cons in Hnd as [Hz Hnd]. destruct (Hin z ltac:(left)) as (i & Hzi & HR).
  apply returns_bind. eapply returns_mono; [apply (Hbody z i s); [left|done|done|done]|]. intros [] s1 (i' & -> & HP).
  set (s1 := s <| zones ::= <[z := i']> |>).
  assert (∀ x, x ≠ z → zones s1 !! x = zones s !! x) as Hne by (intros x Hx; unfold s1; simpl; by rewrite lookup_insert_ne by auto).
  assert (zones s1 !! z = Some i') as Heq by (unfold s1; simpl; apply lookup_insert_eq).
  assert (rest s1 = rest s) as Hrest by done. clearbody s1.
  eapply returns_mono; [apply (IH s1 Hnd)|].
  { intros x Hx. rewrite Hne by (intros ->; done). apply Hin. by right. }
  { intros x j s' Hx Hr. rewrite Hrest in Hr. apply Hbody; [by right|done]. }
  intros [] s2 (Hr2 & Ho2 & Hp2). split_and!; [congruence| |].
  - intros x [Hxz Hx]%not_elem_of_cons. rewrite Ho2, Hne; done.
  - intros x [->|Hx]%elem_of_cons.
    + exists i, i'. split_and!; [done|by rewrite Ho2|done].
    + destruct (Hp2 x Hx) as (j & j' & Hj & Hj' & HPj). exists j, j'. rewrite Hne in Hj by (intros ->; done). done.
Qed.

(** ** What is computed *)

(** Pages in zones the kernel maps directly. *)
Definition lowmem s : Z := sumZ (λ z, if is_highmem z.2 then 0 else present_of s z) all_zones.

Definition pages_min s : Z := Z.shiftr (min_free_kbytes s) (PAGE_SHIFT - 10).

(** The part of the minimum a zone answers for. *)
Definition part s z : Z := pages_min s * present_of s z / lowmem s.

Definition clamp (a b x : Z) : Z := Z.min b (Z.max a x).

Definition base_mark s z : Z :=
  if is_highmem z.2 then clamp SWAP_CLUSTER_MAX 128 (present_of s z / 1024) else part s z.

Record zone_fit i : Prop := {
  zf_ok : zone_ok (zz i);
  zf_contiguous : zone_contiguous (zz i);
  zf_start : 0 ≤ zone_start_pfn (zz i);
  zf_end : zone_start_pfn (zz i) + spanned_pages (zz i) + pageblock_nr_pages < 2 ^ 32;
  zf_cma : 0 ≤ min_cma_pages i ≤ present_pages i;
  zf_reserve (j : nat) : default 0 (lowmem_reserve (zz i) !! Z.of_nat j) ≤ 2 ^ 30
}.

(** A machine with up to 2^28 pages, whose minimum is not more than what it has. *)
Record marks_ready s : Prop := {
  mr_nodes : NoDup online_nodes;
  mr_zones z : z ∈ all_zones → ∃ i, zones s !! z = Some i ∧ zone_fit i;
  mr_total : sumZ (present_of s) all_zones < 2 ^ 28;
  mr_lowmem : 0 < lowmem s;
  mr_kbytes : 0 ≤ min_free_kbytes s < 2 ^ 31;
  mr_min : pages_min s ≤ lowmem s;
  mr_block : pageblock_nr_pages ≤ 2 ^ 30
}.

Lemma all_zones_nodup : NoDup online_nodes → NoDup all_zones.
Proof.
  intros Hnd. unfold all_zones. induction Hnd as [|n ns Hn Hnd IH]; [constructor|]. rewrite bind_cons. apply NoDup_app.
  split_and!; [apply NoDup_fmap_2; [by intros ?? [= ->]|apply NoDup_seq]| |done].
  intros z (t & -> & _)%list_elem_of_fmap (m & Hm & Hin)%list_elem_of_bind.
  apply list_elem_of_fmap in Hm as (t' & [= -> ->] & _). done.
Qed.

Section Ready.
Context s (Hr : marks_ready s).

Lemma present_nonneg z : z ∈ all_zones → 0 ≤ present_of s z.
Proof. intros Hz. destruct (mr_zones s Hr z Hz) as (i & Hi & Hf). unfold present_of. rewrite Hi. simpl. destruct (zf_cma i Hf). lia. Qed.

Lemma present_small z : z ∈ all_zones → 0 ≤ present_of s z < 2 ^ 28.
Proof.
  intros Hz. split; [by apply present_nonneg|]. pose proof (mr_total s Hr).
  pose proof (sumZ_elem (present_of s) all_zones z present_nonneg Hz). lia.
Qed.

Lemma lowmem_total : lowmem s ≤ sumZ (present_of s) all_zones.
Proof. apply sumZ_le. intros z Hz. pose proof (present_nonneg z Hz). destruct (is_highmem z.2); lia. Qed.

Lemma sum_lowmem_ok : sum_lowmem s = lowmem s.
Proof.
  unfold sum_lowmem, lowmem. pose proof (mr_total s Hr) as Ht. change (2 ^ 28) with 268435456 in Ht.
  assert (∀ l acc, (∀ z, z ∈ l → 0 ≤ present_of s z) → 0 ≤ acc → acc + sumZ (present_of s) l < 268435456 →
    foldl (λ n z, if is_highmem z.2 then n else u32 (n + present_of s z)) acc l =
    acc + sumZ (λ z, if is_highmem z.2 then 0 else present_of s z) l) as Hgen.
  { induction l as [|z l IH]; intros acc Hl Ha Hsum; [unfold sumZ; simpl; lia|]. unfold sumZ in *. simpl in *.
    pose proof (Hl z ltac:(left)) as Hz. assert (∀ y, y ∈ l → 0 ≤ present_of s y) as Hl' by (intros; apply Hl; by right).
    pose proof (sumZ_nonneg _ l Hl') as Hn. unfold sumZ in Hn.
    destruct (is_highmem z.2); [rewrite IH by (done || lia); lia|].
    rewrite uwrap_small by (widths; lia). rewrite IH by (done || lia). lia. }
  rewrite Hgen; [lia|apply present_nonneg|lia|lia].
Qed.

Lemma pages_min_nonneg : 0 ≤ pages_min s.
Proof. unfold pages_min. apply Z.shiftr_nonneg. apply (mr_kbytes s Hr). Qed.

Lemma part_bounds z : z ∈ all_zones → 0 ≤ part s z ≤ present_of s z.
Proof.
  intros Hz. pose proof (present_nonneg z Hz). pose proof pages_min_nonneg. pose proof (mr_lowmem s Hr). pose proof (mr_min s Hr).
  unfold part. split; [apply Z.div_pos; nia|apply Z.div_le_upper_bound; nia].
Qed.

Lemma base_mark_bounds z : z ∈ all_zones → 0 ≤ base_mark s z < 2 ^ 28.
Proof.
  intros Hz. pose proof (present_small z Hz). pose proof (part_bounds z Hz). pose proof zl_cluster.
  change (2 ^ 28) with 268435456 in *. unfold base_mark, clamp. destruct (is_highmem z.2); lia.
Qed.

(** The marks as the code computes them. *)
Lemma zone_marks_ok z : z ∈ all_zones →
  u64 (pages_min s * present_of s z) / lowmem s = part s z ∧
  zone_marks (is_highmem z.2) (present_of s z) (part s z) =
    (base_mark s z, base_mark s z + part s z / 4, base_mark s z + part s z / 2).
Proof.
  intros Hz. pose proof (present_small z Hz) as Hp. pose proof (part_bounds z Hz) as Hpt. pose proof (base_mark_bounds z Hz) as Hbm.
  pose proof pages_min_nonneg. pose proof (mr_min s Hr). pose proof lowmem_total. pose proof (mr_total s Hr).
  change (2 ^ 28) with 268435456 in *. split.
  - rewrite uwrap_small; [done|]. widths. nia.
  - assert (0 ≤ part s z / 4 ≤ part s z ∧ 0 ≤ part s z / 2 ≤ part s z) as [Hq1 Hq2]
      by (split; split; first [apply Z.div_pos; lia | apply Z.div_le_upper_bound; lia]).
    unfold zone_marks, base_mark, clamp in *. cbv zeta.
    assert (0 ≤ present_of s z / 1024 ≤ present_of s z) as Hk by (split; [apply Z.div_pos; lia|apply Z.div_le_upper_bound; lia]).
    rewrite !Z.shiftr_div_pow2 by done. change (2 ^ 2) with 4. change (2 ^ 1) with 2.
    rewrite (swrap_small 32 ltac:(done) (present_of s z / 1024)) by (widths; lia).
    destruct (is_highmem z.2).
    + pose proof zl_cluster.
      assert ((if 128 <? (if present_of s z / 1024 <? SWAP_CLUSTER_MAX then SWAP_CLUSTER_MAX else present_of s z / 1024) then 128
        else if present_of s z / 1024 <? SWAP_CLUSTER_MAX then SWAP_CLUSTER_MAX else present_of s z / 1024) =
        Z.min 128 (Z.max SWAP_CLUSTER_MAX (present_of s z / 1024))) as ->
        by (repeat case_match; bsimp; lia).
      rewrite !uwrap_small by (widths; lia). done.
    + rewrite !uwrap_small by (widths; rewrite ?uwrap_small by (widths; lia); lia). done.
Qed.
End Ready.

(** ** The watermarks *)

Lemma spin_lock_ok (y : zone L) : zone_lock y = false → zone_spin_lock y = Ok tt (y <| zone_lock := true |>).
Proof. intros Hy. unfold zone_spin_lock, mbind, M_bind, gets. by rewrite Hy. Qed.

(** What the set-up of the watermarks does to a zone. *)
Record marked s z i i' : Prop := {
  mk_fit : zone_fit i';
  mk_present : present_pages i' = present_pages i;
  mk_cma : min_cma_pages i' = min_cma_pages i;
  mk_pages x : in_zone (zz i') x ↔ in_zone (zz i) x;
  mk_reserve : lowmem_reserve (zz i') = lowmem_reserve (zz i);
  mk_min : watermark (zz i') !! WMARK_MIN = Some (base_mark s z + min_cma_pages i);
  mk_low : watermark (zz i') !! WMARK_LOW = Some (base_mark s z + part s z / 4 + min_cma_pages i);
  mk_high : watermark (zz i') !! WMARK_HIGH = Some (base_mark s z + part s z / 2 + min_cma_pages i);
  mk_blocks : let e := zone_start_pfn (zz i) + spanned_pages (zz i) in
    nr_reserve z.1 e (zz i') (block_starts (roundup (zone_start_pfn (zz i)) pageblock_nr_pages) e) ≤
    reserve_goal (base_mark s z + min_cma_pages i)
}.

Lemma zone_wmarks_ok s z i s' :
  marks_ready s → z ∈ all_zones → zones s !! z = Some i → zone_fit i → zones s' !! z = Some i →
  returns (zone_wmarks (pages_min s) (lowmem s) z) s' (λ _ s'', ∃ i', s'' = put s' z i' ∧ marked s z i i').
Proof.
  intros Hr Hz Hi [Hok Hct Hst Hen Hcma Hrsv] Hi'. rewrite <- (put_id s' z i Hi').
  pose proof (present_small s Hr z Hz) as Hp. pose proof (part_bounds s Hr z Hz) as Hpt.
  pose proof (base_mark_bounds s Hr z Hz) as Hbm. destruct (zone_marks_ok s Hr z Hz) as [Htmp Hmarks].
  assert (present_of s z = present_pages i) as Hpi by (unfold present_of; by rewrite Hi).
  rewrite Hpi in *. change (2 ^ 28) with 268435456 in *.
  assert (0 ≤ part s z / 4 ≤ part s z ∧ 0 ≤ part s z / 2 ≤ part s z) as [Hq1 Hq2]
    by (split; split; first [apply Z.div_pos; lia | apply Z.div_le_upper_bound; lia]).
  unfold zone_wmarks. apply returns_bind, on_zone_put. eapply returns_eq; [by apply spin_lock_ok, Hok|].
  set (i1 := i <| zz := _ |>). apply returns_bind. eapply returns_eq; [apply load_zone_ok, put_lookup|].
  change (present_pages i1) with (present_pages i). change (min_cma_pages i1) with (min_cma_pages i).
  rewrite (proj2 (Z.eqb_neq (lowmem s) 0)) by (pose proof (mr_lowmem s Hr); lia).
  rewrite Htmp, Hmarks. rewrite !uwrap_small by (widths; lia).
  apply returns_bind, on_zone_put. eapply returns_eq; [reflexivity|]. set (i2 := i1 <| zz := _ |>).
  assert (unlocked_ok (zz i2)) as Hok2.
  { destruct Hok as [Hb1 Hb2 Hb3 Hb4 Hb5 Hb6 Hb7 Hb8]. split; try done. by eapply buddy_inv_congr; [..|exact Hb1]. }
  assert (min_wmark_pages (zz i2) = base_mark s z + min_cma_pages i) as Hmw.
  { unfold min_wmark_pages, i2. simpl. rewrite lookup_insert_ne, lookup_insert_ne, lookup_insert_eq by done. done. }
  apply returns_bind, on_zone_put.
  eapply returns_mono; [apply (migrate_reserve_ok buddy_value order_ok z.1 (zz i2) Hok2); [exact Hct|exact Hst|exact Hen| |apply Hr]|].
  { rewrite Hmw. change (2 ^ 30) with 1073741824. lia. }
  rewrite Hmw. intros [] y ([R1 R2 R3 R4 R5 R5' R6] & Hres). apply on_zone_put. eapply returns_eq; [reflexivity|].
  eexists. split; [rewrite put_twice; reflexivity|]. pose proof R2 as [= Rb1 Rb2 Rb3]. pose proof R4 as [= Rw Rl].
  set (y' := y <| zone_lock := false |>).
  assert (zone_ok y') as Hy'.
  { destruct R1 as [Hb1 Hb2 Hb3 Hb5 Hb6 Hb7 Hb8]. split; try done. by eapply buddy_inv_congr; [..|exact Hb1]. }
  split; simpl.
  - split; simpl; [done| | | |lia|].
    + intros Hh x. simpl. rewrite Rb1, Rb2, Rb3. apply (Hct Hh).
    + by rewrite Rb2.
    + by rewrite Rb2, Rb3.
    + intros j. rewrite Rl. apply Hrsv.
  - done.
  - done.
  - intros x. apply R3.
  - by rewrite Rl.
  - rewrite Rw. simpl. by rewrite lookup_insert_ne, lookup_insert_ne, lookup_insert_eq.
  - rewrite Rw. simpl. by rewrite lookup_insert_ne, lookup_insert_eq.
  - rewrite Rw. simpl. by rewrite lookup_insert_eq.
  - exact Hres.
Qed.

Lemma wmarks_loop_ok s :
  marks_ready s →
  returns (for_each all_zones (zone_wmarks (pages_min s) (lowmem s))) s (λ _ s', rest s' = rest s ∧
    (∀ z, z ∉ all_zones → zones s' !! z = zones s !! z) ∧
    ∀ z, z ∈ all_zones → ∃ i i', zones s !! z = Some i ∧ zones s' !! z = Some i' ∧ marked s z i i').
Proof.
  intros Hr. apply (zones_each _ (λ z i, zones s !! z = Some i ∧ zone_fit i) (marked s) all_zones s).
  - apply all_zones_nodup, Hr.
  - intros z Hz. destruct (mr_zones s Hr z Hz) as (i & Hi & Hf). eauto.
  - intros z i s' Hz _ Hi' [Hi Hf]. by apply zone_wmarks_ok.
Qed.

(** ** The total of the reserves *)

(** What a zone keeps back at most. *)
Definition kept_back i z : Z :=
  Z.min (present_pages i) (max_reserve (zz i) (seq z.2 (S top_zone - z.2)) + high_wmark_pages (zz i)).

Lemma max_reserve_bounds (y : zone L) b js :
  (∀ j, default 0 (lowmem_reserve y !! Z.of_nat j) ≤ b) → 0 ≤ b → 0 ≤ max_reserve y js ≤ b.
Proof.
  intros Hb H0'. unfold max_reserve.
  assert (∀ js m, 0 ≤ m ≤ b →
    0 ≤ foldl (λ m j, let r := default 0 (lowmem_reserve y !! Z.of_nat j) in if m <? r then r else m) m js ≤ b) as Hgen; [|apply Hgen; lia].
  induction js0 as [|j js0 IH]; intros m Hm; simpl; [done|]. apply IH. specialize (Hb j).
  destruct (m <? default 0 (lowmem_reserve y !! Z.of_nat j)) eqn:Hc; bsimp; lia.
Qed.

Lemma total_reserve_ok l : ∀ s acc,
  NoDup l → 0 ≤ acc →
  (∀ z, z ∈ l → ∃ i, zones s !! z = Some i ∧ 0 ≤ present_pages i ∧
    0 ≤ max_reserve (zz i) (seq z.2 (S top_zone - z.2)) < 2 ^ 31 ∧ 0 ≤ high_wmark_pages (zz i) < 2 ^ 31) →
  acc + sumZ (present_of s) l < 2 ^ 32 →
  returns (total_reserve_zones l acc) s (λ sum s', rest s' = rest s ∧
    sum = acc + sumZ (λ z, from_option (λ i, kept_back i z) 0 (zones s !! z)) l ∧
    (∀ z, z ∉ l → zones s' !! z = zones s !! z) ∧
    ∀ z, z ∈ l → ∃ i, zones s !! z = Some i ∧
      zones s' !! z = Some (i <| zone_dirty_balance_reserve := kept_back i z |>)).
Proof.
  induction l as [|z l IH]; intros s acc Hnd Ha Hl Hsum; cbn [total_reserve_zones].
  { apply returns_ret. split_and!; [done|unfold sumZ; simpl; lia|done|]. by intros z ?%not_elem_of_nil. }
  apply NoDup_cons in Hnd as [Hz Hnd]. destruct (Hl z ltac:(left)) as (i & Hi & Hp & Hm & Hh).
  change (2 ^ 31) with 2147483648 in *. change (2 ^ 32) with 4294967296 in *.
  assert (∀ y, y ∈ l → 0 ≤ present_of s y) as Hpos.
  { intros y Hy. destruct (Hl y ltac:(by right)) as (j & Hj & ? & _). unfold present_of. by rewrite Hj. }
  pose proof (sumZ_nonneg _ l Hpos) as Hnn. unfold sumZ in Hsum, Hnn. cbn [foldr] in Hsum.
  assert (present_of s z = present_pages i) as Hpi by (unfold present_of; by rewrite Hi).
  apply returns_bind. unfold total_reserve_zone. apply returns_bind. eapply returns_eq; [by apply load_zone_ok|].
  rewrite (uwrap_small 32 (max_reserve _ _ + _)) by (widths; lia).
  assert ((if present_pages i <? max_reserve (zz i) (seq z.2 (S top_zone - z.2)) + high_wmark_pages (zz i) then present_pages i
    else max_reserve (zz i) (seq z.2 (S top_zone - z.2)) + high_wmark_pages (zz i)) = kept_back i z) as ->.
  { unfold kept_back. destruct (_ <? _) eqn:Hc; bsimp; lia. }
  assert (0 ≤ kept_back i z ≤ present_pages i) as Hk by (unfold kept_back; lia).
  apply returns_bind. eapply returns_eq; [by apply store_zone_ok|]. apply returns_ret.
  rewrite (uwrap_small 32 (acc + _)) by (widths; lia). set (s1 := s <| zones ::= _ |>).
  assert (∀ y, y ≠ z → zones s1 !! y = zones s !! y) as Hne by (intros y Hy; unfold s1; simpl; by rewrite lookup_insert_ne by auto).
  assert (zones s1 !! z = Some (i <| zone_dirty_balance_reserve := kept_back i z |>)) as Heq by (unfold s1; simpl; apply lookup_insert_eq).
  assert (rest s1 = rest s) as Hrs by done. clearbody s1.
  assert (∀ y, y ∈ l → y ≠ z) as Hyz by (intros y Hy ->; done).
  eapply returns_mono; [apply (IH s1 (acc + kept_back i z) Hnd)|].
  { lia. }
  { intros y Hy. rewrite Hne by auto. apply Hl. by right. }
  { assert (sumZ (present_of s1) l = sumZ (present_of s) l) as ->; [|unfold sumZ; lia].
    clear -Hne Hyz. induction l as [|y l IH]; [done|]. unfold sumZ in *. simpl.
    rewrite IH by (intros; apply Hyz; by right). unfold present_of at 1 3. rewrite Hne; [done|]. apply Hyz. left. }
  intros sum s2 (Hr2 & -> & Ho2 & Hin2). split_and!; [congruence| | |].
  - unfold sumZ. cbn [foldr]. rewrite Hi. cbn [from_option].
    assert (∀ l', (∀ y, y ∈ l' → y ≠ z) → foldr (λ x a, from_option (λ i, kept_back i x) 0 (zones s1 !! x) + a) 0 l' =
      foldr (λ x a, from_option (λ i, kept_back i x) 0 (zones s !! x) + a) 0 l') as He.
    { induction l' as [|y l' IH']; intros Hl'; [done|]. simpl. rewrite IH' by (intros; apply Hl'; by right).
      rewrite Hne; [done|]. apply Hl'. left. }
    rewrite He by auto. lia.
  - intros y [Hy1 Hy2]%not_elem_of_cons. by rewrite Ho2, Hne.
  - intros y [->|Hy]%elem_of_cons; [exists i; by rewrite Ho2|]. destruct (Hin2 y Hy) as (j & Hj & Hj').
    exists j. rewrite Hne in Hj by auto. done.
Qed.

(** ** All zones together *)

(** The zones share no more than the minimum. *)
Lemma parts_bounded s : marks_ready s → sumZ (λ z, if is_highmem z.2 then 0 else part s z) all_zones ≤ pages_min s.
Proof.
  intros Hr. pose proof (mr_lowmem s Hr) as Hl.
  assert (∀ l, sumZ (λ z, if is_highmem z.2 then 0 else part s z) l * lowmem s ≤
    pages_min s * sumZ (λ z, if is_highmem z.2 then 0 else present_of s z) l) as Hgen.
  { induction l as [|z l IH]; unfold sumZ in *; simpl; [lia|]. destruct (is_highmem z.2); [lia|].
    pose proof (Z.mul_div_le (pages_min s * present_of s z) (lowmem s) Hl). unfold part at 1. nia. }
  specialize (Hgen all_zones). fold (lowmem s) in Hgen. nia.
Qed.

Lemma high_wmark_ok s z i i' : marks_ready s → z ∈ all_zones → zones s !! z = Some i → zone_fit i → marked s z i i' →
  0 ≤ high_wmark_pages (zz i') < 2 ^ 31.
Proof.
  intros Hr Hz Hi Hf Hm. unfold high_wmark_pages. rewrite (mk_high s z i i' Hm). simpl.
  pose proof (present_small s Hr z Hz) as Hp. pose proof (part_bounds s Hr z Hz). pose proof (base_mark_bounds s Hr z Hz).
  destruct (zf_cma i Hf) as [Hc1 Hc2]. assert (present_of s z = present_pages i) as Hpi by (unfold present_of; by rewrite Hi).
  rewrite Hpi in *. change (2 ^ 28) with 268435456 in *. change (2 ^ 31) with 2147483648.
  assert (0 ≤ part s z / 2 ≤ part s z) by (split; [apply Z.div_pos; lia|apply Z.div_le_upper_bound; lia]). lia.
Qed.

(** What the set-up of the watermarks leaves behind. *)
Record wmarks_set s s' : Prop := {
  ws_zone z : z ∈ all_zones → ∃ i i', zones s !! z = Some i ∧ zones s' !! z = Some i' ∧ marked s z i i' ∧
    zone_dirty_balance_reserve i' = kept_back i' z;
  ws_share : sumZ (λ z, if is_highmem z.2 then 0 else part s z) all_zones ≤ pages_min s;
  ws_total : totalreserve_pages s' = sumZ (λ z, from_option (λ i, kept_back i z) 0 (zones s' !! z)) all_zones;
  ws_dirty : dirty_balance_reserve s' = totalreserve_pages s';
  ws_present z : present_of s' z = present_of s z;
  ws_rest : rest s' <| totalreserve_pages := totalreserve_pages s |> <| dirty_balance_reserve := dirty_balance_reserve s |> = rest s
}.

Lemma marked_dirty s z i i' d : marked s z i i' → marked s z i (i' <| zone_dirty_balance_reserve := d |>).
Proof. intros [[? ? ? ? ? ?] ? ? ? ? ? ? ? ?]. by split. Qed.

Lemma wmarks_ok s : marks_ready s → returns setup_per_zone_wmarks s (λ _ s', wmarks_set s s').
Proof.
  intros Hr. unfold setup_per_zone_wmarks, __setup_per_zone_wmarks. apply returns_bind. eapply returns_eq; [reflexivity|].
  cbv zeta. rewrite (sum_lowmem_ok s Hr). fold (pages_min s).
  pose proof (pages_min_nonneg s Hr) as Hp0. pose proof (mr_min s Hr). pose proof (lowmem_total s Hr). pose proof (mr_total s Hr).
  change (2 ^ 28) with 268435456 in *. rewrite (uwrap_small 32 (pages_min s)) by (widths; lia).
  apply returns_bind. eapply returns_mono; [by apply wmarks_loop_ok|]. intros [] s1 (Hrest1 & Hout1 & Hin1).
  assert (∀ z, present_of s1 z = present_of s z) as Hpr.
  { intros z. unfold present_of. destruct (decide (z ∈ all_zones)) as [Hz|Hz]; [|by rewrite Hout1].
    destruct (Hin1 z Hz) as (i & i' & -> & -> & Hm). simpl. apply Hm. }
  unfold calculate_totalreserve_pages. apply returns_bind. eapply returns_mono; [apply (total_reserve_ok all_zones s1 0)|].
  - apply all_zones_nodup, Hr.
  - done.
  - intros z Hz. destruct (Hin1 z Hz) as (i & i' & Hi & Hi' & Hm). exists i'.
    destruct (mr_zones s Hr z Hz) as (i0 & Hi0 & Hf). assert (i0 = i) as -> by congruence.
    pose proof (zf_cma i' (mk_fit s z i i' Hm)). split_and!; [done|lia| | |by eapply high_wmark_ok..].
    + eapply (proj1 (max_reserve_bounds (zz i') (2 ^ 30) _ (λ j, zf_reserve i' (mk_fit s z i i' Hm) _) ltac:(done))).
    + pose proof (proj2 (max_reserve_bounds (zz i') (2 ^ 30) (seq z.2 (S top_zone - z.2)) (λ j, zf_reserve i' (mk_fit s z i i' Hm) _) ltac:(done))).
      change (2 ^ 30) with 1073741824 in *. change (2 ^ 31) with 2147483648. lia.
  - rewrite (sumZ_ext (present_of s1) (present_of s)) by (intros; apply Hpr). change (2 ^ 32) with 4294967296. lia.
  - intros sum s2 (Hrest2 & -> & Hout2 & Hin2). eapply returns_eq; [reflexivity|].
    assert (∀ z, from_option (λ i, kept_back i z) 0 (zones s2 !! z) = from_option (λ i, kept_back i z) 0 (zones s1 !! z)) as Hkb.
    { intros z. destruct (decide (z ∈ all_zones)) as [Hz|Hz]; [|by rewrite Hout2]. by destruct (Hin2 z Hz) as (i & -> & ->). }
    split; simpl.
    + intros z Hz. destruct (Hin1 z Hz) as (i & i' & Hi & Hi' & Hm), (Hin2 z Hz) as (j & Hj & Hj').
      assert (j = i') as -> by congruence. exists i. eexists. split_and!; [done|done|by apply marked_dirty|done].
    + by apply parts_bounded.
    + apply sumZ_ext. intros z _. by rewrite Hkb.
    + done.
    + intros z. rewrite <- Hpr. unfold present_of. simpl. destruct (decide (z ∈ all_zones)) as [Hz|Hz]; [|by rewrite Hout2].
      by destruct (Hin2 z Hz) as (i & -> & ->).
    + assert (rest s2 = rest s) as He by congruence.
      change ((rest s2) <| totalreserve_pages := totalreserve_pages s |> <| dirty_balance_reserve := dirty_balance_reserve s |> = rest s).
      rewrite He. by destruct s.
Qed.

(** A write of [min_free_kbytes] returns 0 and gives every zone its watermarks:
    the minimum is the zone's share of the pages wanted, in proportion to its size (for
    high memory a 1024th of its size between [SWAP_CLUSTER_MAX] and 128), the low and
    the high mark are a quarter and a half of the share above it, all raised by the
    pages for contiguous allocation; the shares of low memory together are no more than
    what was asked for; no more than two blocks are kept in reserve, every page stays in
    its zone and the zone stays fit for the allocator; the total of the reserves is
    recomputed.  A read changes nothing else. *)
Theorem min_free_kbytes_handler_exact s write kbytes :
  let s0 := s <| min_free_kbytes := kbytes |> in
  marks_ready s0 →
  returns (min_free_kbytes_sysctl_handler write kbytes) s (λ r s', r = 0 ∧ if write then wmarks_set s0 s' else s' = s0).
Proof.
  intros s0 Hr. unfold min_free_kbytes_sysctl_handler. apply returns_bind. eapply returns_eq; [reflexivity|]. fold s0.
  destruct write; [|apply returns_bind, returns_ret, returns_ret; done].
  apply returns_bind. eapply returns_mono; [by apply wmarks_ok|]. intros [] s' Hs'. by apply returns_ret.
Qed.
End Marks.
