(* ===== verification/ZoneReserve.v ===== *)
(** * The reserves of low memory, and the theorems on the set-up of zones

    What [setup_per_zone_lowmem_reserve] writes, entry by entry, and the statements on
    the watermarks, the reserves and the page sets. *)

From S2P Require Import Prelude KList Buddy BuddySpec Pcp PcpSpec ZoneData Zonelist ZoneInit ZoneInitSpec ZoneMarks.

Section Reserve.
Context {L : Type} `{KListLaws lhead L} `{BuddyConfig} `{ZoneEnv} `{NumaEnv} `{!ZoneLaws}.
Hypothesis buddy_value : PAGE_BUDDY_MAPCOUNT_VALUE ≠ -1.
Context (order_ok : 0 ≤ pageblock_order).
Implicit Types (s : msys L) (z : zone_ref) (i : zinfo L).

(** ** Entries of the reserves *)

(** What zone [z] keeps back from an allocation for type [j]. *)
Definition entry s z (j : nat) : Z :=
  from_option (λ i, default 0 (lowmem_reserve (zz i) !! Z.of_nat j)) 0 (zones s !! z).

(** The divisor of a type; it is at least 1. *)
Definition ratio s (t : nat) : Z := Z.max 1 (default 0 (sysctl_lowmem_reserve_ratio s !! t)).

(** Pages in the zones of types [a] to [j] of a node. *)
Definition span_pages s (n : Z) (a j : nat) : Z := sumZ (λ t, present_of s (n, t)) (seq a (S j - a)).

(** What the code intends for [entry]. *)
Definition kept_for s z (j : nat) : Z :=
  if decide (z.2 = j) then 0 else span_pages s z.1 (S z.2) j / ratio s z.2.

(** A zone but for its reserves. *)
Definition blank i : zinfo L := i <| zz := (zz i) <| lowmem_reserve := ∅ |> |>.

(** What the set-up of the reserves leaves alone. *)
Record same_but s s' : Prop := {
  sb_zones z : blank <$> zones s' !! z = blank <$> zones s !! z;
  sb_ratio t : ratio s' t = ratio s t;
  sb_rest : (rest s') <| sysctl_lowmem_reserve_ratio := ∅ |> = (rest s) <| sysctl_lowmem_reserve_ratio := ∅ |>
}.

#[local] Instance same_but_refl : Reflexive same_but.
Proof. by intros s. Qed.
#[local] Instance same_but_trans : Transitive same_but.
Proof. intros s1 s2 s3 [? ? ?] [? ? ?]. split; intros; congruence. Qed.

Lemma same_but_present s s' z : same_but s s' → present_of s' z = present_of s z.
Proof.
  intros Hs. pose proof (sb_zones s s' Hs z) as Hz. unfold present_of.
  destruct (zones s' !! z) as [i'|], (zones s !! z) as [i|]; try done. simpl in *.
  apply (inj Some) in Hz. change (present_pages (blank i') = present_pages (blank i)). by rewrite Hz.
Qed.

Lemma same_but_span s s' n a j : same_but s s' → span_pages s' n a j = span_pages s n a j.
Proof. intros Hs. apply sumZ_ext. intros t _. by apply same_but_present. Qed.

Lemma same_but_kept s s' z j : same_but s s' → kept_for s' z j = kept_for s z j.
Proof. intros Hs. unfold kept_for. by rewrite (same_but_span s s'), (sb_ratio s s'). Qed.

(** One entry is written. *)
Definition set_entry (j : nat) (v : Z) : M (zone L) unit :=
  modify (λ y, y <| lowmem_reserve ::= <[Z.of_nat j := v]> |>).

Lemma set_entry_ok s z i j v :
  zones s !! z = Some i →
  returns (on_zone z (set_entry j v)) s (λ _ s', same_but s s' ∧ sysctl_lowmem_reserve_ratio s' = sysctl_lowmem_reserve_ratio s ∧
    entry s' z j = v ∧ ∀ x k, (x, k) ≠ (z, j) → entry s' x k = entry s x k).
Proof.
  intros Hz. eapply on_zone_ok; [exact Hz|]. eapply returns_eq; [reflexivity|]. split_and!; [split|done| |].
  - intros x. simpl. destruct (decide (x = z)) as [->|Hx]; [|by rewrite lookup_insert_ne by auto].
    rewrite lookup_insert_eq, Hz. done.
  - done.
  - done.
  - unfold entry. simpl. rewrite lookup_insert_eq. simpl. by rewrite lookup_insert_eq.
  - intros x k Hne. unfold entry. simpl. destruct (decide (x = z)) as [->|Hx]; [|by rewrite lookup_insert_ne by auto].
    rewrite lookup_insert_eq, Hz. simpl. rewrite lookup_insert_ne; [done|]. intros ?%(inj Z.of_nat). congruence.
Qed.

(** A divisor below 1 is replaced. *)
Lemma fix_ratio_ok s t :
  let s' := s <| sysctl_lowmem_reserve_ratio ::= λ r, if default 0 (r !! t) <? 1 then <[t := 1]> r else r |> in
  same_but s s' ∧ default 0 (sysctl_lowmem_reserve_ratio s' !! t) = ratio s t ∧ ∀ z j, entry s' z j = entry s z j.
Proof.
  intros s'. unfold s'. simpl. unfold ratio. destruct (default 0 (sysctl_lowmem_reserve_ratio s !! t) <? 1) eqn:Hc; bsimp.
  - split_and!; [split; [done| |done]|rewrite lookup_insert_eq; simpl; lia|done].
    intros u. unfold ratio. simpl. rewrite (proj2 (Z.ltb_lt _ _) Hc). destruct (decide (u = t)) as [->|Hu].
    + rewrite lookup_insert_eq. simpl. lia.
    + by rewrite lookup_insert_ne by auto.
  - split_and!; [split; [done| |done]|lia|done]. intros u. unfold ratio. simpl.
    by rewrite (proj2 (Z.ltb_ge _ _) Hc).
Qed.

Lemma span_step s n a j : (a ≤ j)%nat → span_pages s n a j = span_pages s n (S a) j + present_of s (n, a).
Proof.
  intros Ha. unfold span_pages. replace (S j - a)%nat with (S (j - a)) by lia. cbn [seq]. unfold sumZ at 1. simpl.
  fold (sumZ (λ t, present_of s (n, t)) (seq (S a) (j - a))). lia.
Qed.

Lemma present_load s z i : zones s !! z = Some i → present_of s z = present_pages i.
Proof. intros Hz. unfold present_of. by rewrite Hz. Qed.

Lemma same_but_lookup s s' z i : same_but s s' → zones s !! z = Some i → is_Some (zones s' !! z).
Proof. intros Hs Hz. pose proof (sb_zones s s' Hs z) as He. rewrite Hz in He. by destruct (zones s' !! z). Qed.

(** What [lower_reserves] writes. *)
Lemma lower_reserves_ok n j : ∀ idx s,
  (idx ≤ j)%nat → (∀ t, (t ≤ j)%nat → is_Some (zones s !! (n, t)) ∧ 0 ≤ present_of s (n, t)) → span_pages s n 0 j < 2 ^ 32 →
  returns (lower_reserves n j idx (span_pages s n idx j)) s (λ _ s', same_but s s' ∧
    (∀ t, (t < idx)%nat → entry s' (n, t) j = kept_for s (n, t) j) ∧
    ∀ x k, (k = j → x.1 = n → (x.2 < idx)%nat → False) → entry s' x k = entry s x k).
Proof.
  induction idx as [|idx IH]; intros s Hj Hin Hsum; cbn [lower_reserves].
  { apply returns_ret. split_and!; [done|lia|done]. }
  destruct (fix_ratio_ok s idx) as (Hs1 & Hr1 & He1). apply returns_bind. eapply returns_eq; [reflexivity|].
  set (s1 := s <| sysctl_lowmem_reserve_ratio ::= _ |>) in *. clearbody s1. apply returns_bind. eapply returns_eq; [reflexivity|].
  cbv beta zeta. rewrite Hr1. destruct (Hin idx ltac:(lia)) as [(i & Hi) Hp]. destruct (same_but_lookup s s1 _ _ Hs1 Hi) as (i1 & Hi1).
  apply returns_bind. eapply returns_mono; [by eapply (set_entry_ok s1)|]. intros [] s2 (Hs2 & _ & He2 & Ho2).
  destruct (same_but_lookup s1 s2 _ _ Hs2 Hi1) as (i2 & Hi2). apply returns_bind. eapply returns_eq; [by apply load_zone_ok|].
  rewrite <- (present_load s2 _ _ Hi2). assert (same_but s s2) as Hs by (by etrans). rewrite (same_but_present s s2 _ Hs).
  rewrite <- span_step by lia.
  assert (0 ≤ span_pages s n idx j < 2 ^ 32) as Hsp.
  { assert (span_pages s n 0 j = sumZ (λ t, present_of s (n, t)) (seq 0 idx) + span_pages s n idx j) as Hsplit.
    { unfold span_pages. rewrite <- sumZ_app. replace (S j - 0)%nat with (idx + (S j - idx))%nat by lia. by rewrite seq_app. }
    assert (0 ≤ sumZ (λ t, present_of s (n, t)) (seq 0 idx)) by (apply sumZ_nonneg; intros t Ht%elem_of_seq; apply Hin; lia).
    split; [|lia]. apply sumZ_nonneg. intros t Ht%elem_of_seq. apply Hin. lia. }
  change (2 ^ 32) with 4294967296 in *. rewrite uwrap_small by (widths; lia). rewrite <- (same_but_span s s2 _ _ _ Hs).
  eapply returns_mono; [apply (IH s2); [lia| |]|].
  { intros t Ht. destruct (Hin t Ht) as [[it Hit] Hpt]. split; [by eapply same_but_lookup|]. by rewrite (same_but_present s s2). }
  { by rewrite (same_but_span s s2). }
  intros [] s3 (Hs3 & Hd3 & Ho3). split_and!; [by etrans| |].
  - intros t Ht. destruct (decide (t = idx)) as [->|Hne].
    + rewrite Ho3 by (simpl; lia). rewrite He2. unfold kept_for. simpl. by rewrite decide_False by lia.
    + rewrite Hd3 by lia. by apply same_but_kept.
  - intros x k Hx. rewrite Ho3 by (intros; apply Hx; try done; lia). rewrite Ho2, He1; [done|].
    intros [= -> ->]. apply Hx; [done|done|simpl; lia].
Qed.

Lemma all_zones_in n t : (n, t) ∈ all_zones ↔ n ∈ online_nodes ∧ (t ≤ top_zone)%nat.
Proof.
  unfold all_zones. rewrite list_elem_of_bind. split.
  - intros (m & (u & [= -> ->] & Hu)%list_elem_of_fmap & Hm). apply elem_of_seq in Hu. split; [done|lia].
  - intros [Hn Ht]. exists n. split; [|done]. apply list_elem_of_fmap. exists t. split; [done|]. apply elem_of_seq. lia.
Qed.

(** A node has no more pages than the machine. *)
Lemma node_total s n j : marks_ready s → n ∈ online_nodes → (j ≤ top_zone)%nat → span_pages s n 0 j ≤ sumZ (present_of s) all_zones.
Proof.
  intros Hr Hn Hj. assert (∀ m, m ∈ online_nodes → ∀ t, t ∈ seq 0 (S top_zone) → 0 ≤ present_of s (m, t)) as Hpos.
  { intros m Hm t Ht%elem_of_seq. apply present_nonneg; [done|]. apply all_zones_in. split; [done|lia]. }
  assert (∀ m, m ∈ online_nodes → span_pages s m 0 j ≤ sumZ (present_of s) ((λ t, (m, t)) <$> seq 0 (S top_zone))) as Hone.
  { intros m Hm. unfold span_pages. replace (S top_zone) with (S j + (top_zone - j))%nat by lia.
    rewrite seq_app, fmap_app, sumZ_app, Nat.sub_0_r.
    assert (∀ l, sumZ (present_of s) ((λ t, (m, t)) <$> l) = sumZ (λ t, present_of s (m, t)) l) as Hmap
      by (induction l as [|t l IH]; [done|]; rewrite fmap_cons; unfold sumZ in *; cbn [foldr]; by rewrite IH).
    rewrite !Hmap. assert (0 ≤ sumZ (λ t, present_of s (m, t)) (seq (0 + S j) (top_zone - j))); [|lia].
    apply sumZ_nonneg. intros t Ht. apply Hpos; [done|]. apply elem_of_seq in Ht. apply elem_of_seq. lia. }
  unfold all_zones. clear Hr. induction online_nodes as [|m ns IH]; [by apply not_elem_of_nil in Hn|].
  rewrite bind_cons, sumZ_app.
  assert (0 ≤ sumZ (present_of s) ((λ t, (m, t)) <$> seq 0 (S top_zone))) as H1'.
  { apply sumZ_nonneg. intros z (t & -> & Ht)%list_elem_of_fmap. apply Hpos; [left|done]. }
  assert (0 ≤ sumZ (present_of s) (ns ≫= λ n, (λ t, (n, t)) <$> seq 0 (S top_zone))) as H2'.
  { apply sumZ_nonneg. intros z (k & (t & -> & Ht)%list_elem_of_fmap & Hk)%list_elem_of_bind. apply Hpos; [by right|done]. }
  apply elem_of_cons in Hn as [->|Hn]; [pose proof (Hone m ltac:(left)); lia|].
  assert (span_pages s n 0 j ≤ sumZ (present_of s) (ns ≫= λ n, (λ t, (n, t)) <$> seq 0 (S top_zone))); [|lia].
  apply IH; [done|intros; apply Hpos; [by right|done]|intros; apply Hone; by right].
Qed.

Lemma reserve_loop_ok s0 l : ∀ s,
  marks_ready s0 → same_but s0 s → (∀ z, z ∈ l → z ∈ all_zones) →
  returns (for_each l lowmem_reserve_zone) s (λ _ s', same_but s0 s' ∧
    ∀ x k, entry s' x k = if decide ((x.1, k) ∈ l ∧ (x.2 ≤ k)%nat) then kept_for s0 x k else entry s x k).
Proof.
  induction l as [|[n j] l IH]; intros s Hr Hs Hl; cbn [for_each].
  { apply returns_ret. split; [done|]. intros x k. rewrite decide_False; [done|]. by intros [?%not_elem_of_nil _]. }
  pose proof (Hl (n, j) ltac:(left)) as Hz. apply all_zones_in in Hz as [Hn Hj].
  assert (∀ t, (t ≤ j)%nat → ∃ i, zones s0 !! (n, t) = Some i) as Hz0.
  { intros t Ht. destruct (mr_zones s0 Hr (n, t)) as (i & Hi & _); [apply all_zones_in; split; [done|lia]|eauto]. }
  destruct (Hz0 j ltac:(lia)) as (i0 & Hi0). destruct (same_but_lookup s0 s _ _ Hs Hi0) as (i & Hi).
  apply returns_bind. unfold lowmem_reserve_zone. apply returns_bind. eapply returns_eq; [by apply load_zone_ok|].
  apply returns_bind. eapply returns_mono; [by eapply (set_entry_ok s)|]. intros [] s1 (Hs1 & _ & He1 & Ho1). simpl in He1, Ho1.
  assert (same_but s0 s1) as Hs01 by (by etrans). rewrite <- (present_load s _ _ Hi), (same_but_present s0 s _ Hs). simpl.
  assert (present_of s0 (n, j) = span_pages s1 n j j) as ->.
  { rewrite (same_but_span s0 s1), span_step by (done || lia). unfold span_pages. rewrite Nat.sub_diag. unfold sumZ. simpl. lia. }
  eapply returns_mono; [apply (lower_reserves_ok n j j s1); [lia| |]|].
  { intros t Ht. destruct (Hz0 t Ht) as (it & Hit). split; [by eapply same_but_lookup|]. rewrite (same_but_present s0 s1) by done.
    apply present_nonneg; [done|]. apply all_zones_in. split; [done|lia]. }
  { rewrite (same_but_span s0 s1) by done. pose proof (node_total s0 n j Hr Hn Hj). pose proof (mr_total s0 Hr).
    change (2 ^ 28) with 268435456 in *. change (2 ^ 32) with 4294967296. lia. }
  intros [] s2 (Hs2 & Hd2 & Ho2). assert (same_but s0 s2) as Hs02 by (by etrans).
  eapply returns_mono; [apply (IH s2); [done|done|intros; apply Hl; by right]|]. intros [] s3 (Hs3 & He3). split; [done|].
  intros [m t] k. rewrite He3. simpl. case_decide as Hd.
  { rewrite decide_True; [done|]. split; [right; apply Hd|apply Hd]. }
  case_decide as Hd'.
  - destruct Hd' as [[[= -> ->]|Hin]%elem_of_cons Hle]; [|tauto].
    destruct (decide (t = j)) as [->|Hne].
    + rewrite Ho2 by (simpl; lia). rewrite He1. unfold kept_for. simpl. by rewrite decide_True.
    + rewrite Hd2 by lia. by apply same_but_kept.
  - assert (¬ ((m, k) = (n, j) ∧ (t ≤ k)%nat)) as Hno.
    { intros [Heq Hle]. apply Hd'. split; [rewrite Heq; left|done]. }
    rewrite Ho2 by (intros -> Hm Ht; simpl in *; apply Hno; split; [by rewrite Hm|lia]).
    apply Ho1. intros [= -> -> ->]. apply Hno. split; [done|lia].
Qed.

(** What the reserves do not touch stays fit. *)
Lemma blank_fit i i' : zone_fit i → blank i' = blank i → (∀ j, default 0 (lowmem_reserve (zz i') !! Z.of_nat j) ≤ 2 ^ 30) → zone_fit i'.
Proof.
  intros [Hok Hct Hst Hen Hcma _] Hb Hj. assert (i' = i <| zz := (zz i) <| lowmem_reserve := lowmem_reserve (zz i') |> |>) as ->.
  { destruct i as [[] ? ? ? ? ? ?], i' as [[] ? ? ? ? ? ?]. unfold blank, modify_field in *. simpl in *. injection Hb. by intros; subst. }
  split; try done. destruct Hok as [Hb1 Hb2 Hb3 Hb4 Hb5 Hb6 Hb7 Hb8]. split; try done. by eapply buddy_inv_congr; [..|exact Hb1].
Qed.

(** What the set-up of the reserves leaves behind. *)
Record reserves_set s s' : Prop := {
  rv_entry n t j : n ∈ online_nodes → (t ≤ j ≤ top_zone)%nat → entry s' (n, t) j = kept_for s (n, t) j;
  rv_zone z : z ∈ all_zones → ∃ i i', zones s !! z = Some i ∧ zones s' !! z = Some i' ∧ zone_fit i' ∧
    present_pages i' = present_pages i ∧ watermark (zz i') = watermark (zz i) ∧
    zone_dirty_balance_reserve i' = kept_back i' z;
  rv_ratio t : ratio s' t = ratio s t;
  rv_total : totalreserve_pages s' = sumZ (λ z, from_option (λ i, kept_back i z) 0 (zones s' !! z)) all_zones;
  rv_bound : 0 ≤ totalreserve_pages s' ≤ sumZ (present_of s) all_zones
}.

Lemma kept_for_bounds s n t j : marks_ready s → n ∈ online_nodes → (t ≤ j ≤ top_zone)%nat → 0 ≤ kept_for s (n, t) j < 2 ^ 28.
Proof.
  intros Hr Hn Ht. unfold kept_for. simpl. case_decide; [done|].
  assert (0 ≤ span_pages s n (S t) j) as Hpos.
  { apply sumZ_nonneg. intros u Hu%elem_of_seq. apply present_nonneg; [done|]. apply all_zones_in. split; [done|lia]. }
  assert (span_pages s n (S t) j ≤ span_pages s n 0 j) as Hle.
  { unfold span_pages. replace (S j - 0)%nat with (S t + (S j - S t))%nat by lia. rewrite seq_app, sumZ_app.
    assert (0 ≤ sumZ (λ t0, present_of s (n, t0)) (seq 0 (S t))); [|change (0 + S t)%nat with (S t); lia].
    apply sumZ_nonneg. intros u Hu%elem_of_seq. apply present_nonneg; [done|]. apply all_zones_in. split; [done|lia]. }
  pose proof (node_total s n j Hr Hn ltac:(lia)). pose proof (mr_total s Hr).
  assert (1 ≤ ratio s t) by (unfold ratio; lia). split; [apply Z.div_pos; lia|].
  apply (Z.le_lt_trans _ (span_pages s n (S t) j)); [|change (2 ^ 28) with 268435456 in *; lia]. apply Z.div_le_upper_bound; nia.
Qed.

Lemma reserves_ok s :
  marks_ready s → (∀ z i, z ∈ all_zones → zones s !! z = Some i → 0 ≤ high_wmark_pages (zz i) < 2 ^ 31) →
  returns setup_per_zone_lowmem_reserve s (λ _ s', reserves_set s s').
Proof.
  intros Hr Hhw. unfold setup_per_zone_lowmem_reserve. apply returns_bind.
  eapply returns_mono; [by apply (reserve_loop_ok s all_zones)|]. intros [] s1 (Hs1 & He1).
  assert (∀ z, z ∈ all_zones → ∃ i i', zones s !! z = Some i ∧ zones s1 !! z = Some i' ∧ blank i' = blank i ∧ zone_fit i') as Hz1.
  { intros [n t] Hz. destruct (mr_zones s Hr _ Hz) as (i & Hi & Hf). destruct (same_but_lookup s s1 _ _ Hs1 Hi) as (i' & Hi').
    pose proof (sb_zones s s1 Hs1 (n, t)) as Hb. rewrite Hi, Hi' in Hb. apply (inj Some) in Hb.
    exists i, i'. split_and!; [done|done|done|]. eapply blank_fit; [exact Hf|done|]. intros j.
    specialize (He1 (n, t) j). unfold entry at 1 in He1. rewrite Hi' in He1. simpl in He1. rewrite He1. case_decide as Hd.
    - destruct Hd as [Hd1 Hd2]. apply all_zones_in in Hd1 as [Hn Hj].
      pose proof (kept_for_bounds s n t j Hr Hn ltac:(lia)). change (2 ^ 28) with 268435456 in *. change (2 ^ 30) with 1073741824. lia.
    - unfold entry. rewrite Hi. simpl. apply Hf. }
  assert (sumZ (present_of s1) all_zones = sumZ (present_of s) all_zones) as Hsum
    by (apply sumZ_ext; intros; by apply same_but_present).
  assert (∀ z, z ∈ all_zones → ∃ i, zones s1 !! z = Some i ∧ 0 ≤ present_pages i ∧
    0 ≤ max_reserve (zz i) (seq z.2 (S top_zone - z.2)) < 2 ^ 31 ∧ 0 ≤ high_wmark_pages (zz i) < 2 ^ 31) as Hpos.
  { intros z Hz. destruct (Hz1 z Hz) as (i & i' & Hi & Hi' & Hb & Hf). exists i'. pose proof (zf_cma i' Hf).
    assert (watermark (zz i') = watermark (zz i)) as Hw
      by (change (watermark (zz (blank i')) = watermark (zz (blank i))); by rewrite Hb).
    pose proof (max_reserve_bounds (zz i') (2 ^ 30) (seq z.2 (S top_zone - z.2)) (λ j, zf_reserve i' Hf j) ltac:(done)) as Hm.
    change (2 ^ 30) with 1073741824 in *. change (2 ^ 31) with 2147483648 in *. split_and!; [done|lia|lia|lia| |];
      unfold high_wmark_pages; rewrite Hw; by apply (Hhw z i). }
  unfold calculate_totalreserve_pages. apply returns_bind. eapply returns_mono; [apply (total_reserve_ok all_zones s1 0)|].
  - apply all_zones_nodup, Hr.
  - done.
  - exact Hpos.
  - rewrite Hsum. pose proof (mr_total s Hr). change (2 ^ 28) with 268435456 in *. change (2 ^ 32) with 4294967296. lia.
  - intros sum s2 (Hrest & -> & Hout2 & Hin2). eapply returns_eq; [reflexivity|]. rewrite Z.add_0_l.
    assert (∀ z, from_option (λ i, kept_back i z) 0 (zones s2 !! z) = from_option (λ i, kept_back i z) 0 (zones s1 !! z)) as Hkb.
    { intros z. destruct (decide (z ∈ all_zones)) as [Hz|Hz]; [|by rewrite Hout2]. by destruct (Hin2 z Hz) as (i & -> & ->). }
    split; simpl.
    + intros n t j Hn Htj. assert ((n, t) ∈ all_zones) as Hz by (apply all_zones_in; split; [done|lia]).
      destruct (Hin2 _ Hz) as (i & Hi & Hi2). transitivity (entry s1 (n, t) j).
      { unfold entry. simpl. by rewrite Hi, Hi2. }
      rewrite He1, decide_True; [done|]. split; [|simpl; lia]. apply all_zones_in. split; [done|lia].
    + intros z Hz. destruct (Hz1 z Hz) as (i & i' & Hi & Hi' & Hb & Hf), (Hin2 z Hz) as (j & Hj & Hj').
      assert (j = i') as -> by congruence. exists i. eexists. split_and!; [done|done| | | |done].
      * destruct Hf as [? ? ? ? ? ?]. by split.
      * by change (present_pages (blank i') = present_pages (blank i)); rewrite Hb.
      * by change (watermark (zz (blank i')) = watermark (zz (blank i))); rewrite Hb.
    + intros t. rewrite <- (sb_ratio s s1 Hs1). unfold ratio. simpl. by rewrite (f_equal sysctl_lowmem_reserve_ratio Hrest : sysctl_lowmem_reserve_ratio s2 = _).
    + apply sumZ_ext. intros z _. by rewrite Hkb.
    + split; [apply sumZ_nonneg; intros z Hz|rewrite <- Hsum; apply sumZ_le; intros z Hz]; destruct (Hpos z Hz) as (i & Hi & Hb1 & Hb2 & Hb3);
        unfold present_of; rewrite Hi; simpl; unfold kept_back; lia.
Qed.

(** ** The theorems *)

(** A write of the ratios returns 0 and sets what each zone keeps back: from an
    allocation that could have used a zone of type [j] of its node, the pages of the
    zones above it up to that type, divided by the ratio of its own type (a ratio below
    1 counts as 1), and nothing from an allocation for its own type; the total of the
    reserves is recomputed and is no more than the memory there is. *)
Theorem lowmem_reserve_handler_exact s ratios :
  let s0 := s <| sysctl_lowmem_reserve_ratio := ratios |> in
  marks_ready s0 → (∀ z i, z ∈ all_zones → zones s !! z = Some i → 0 ≤ high_wmark_pages (zz i) < 2 ^ 31) →
  returns (lowmem_reserve_ratio_sysctl_handler ratios) s (λ r s', r = 0 ∧ reserves_set s0 s').
Proof.
  intros s0 Hr Hw. unfold lowmem_reserve_ratio_sysctl_handler. apply returns_bind. eapply returns_eq; [reflexivity|]. fold s0.
  apply returns_bind. eapply returns_mono; [by apply reserves_ok|]. intros [] s' Hs'. by apply returns_ret.
Qed.

(** What a new fraction does to a zone. *)
Definition fraction_set (fraction : Z) z i i' : Prop :=
  if present_pages i =? 0 then i' = i
  else zone_ok (zz i') ∧ (∀ x, in_zone (zz i') x ↔ in_zone (zz i) x) ∧ pcp_high (zz i') = present_pages i / fraction.

Definition fraction_zone (fraction : Z) (z : zone_ref) : M (msys L) unit :=
  i ← load_zone z;
  if fraction =? 0 then fail Undefined else on_zone z (setup_pagelist_highmark (present_pages i / u32 fraction)).

Lemma fraction_zero_ok s zs :
  (∀ z, z ∈ zs → is_Some (zones s !! z)) → existsb (λ z, populated_zone s z) zs = true →
  for_each zs (λ z, s ← get; if populated_zone s z then fraction_zone 0 z else mret tt) s = Err Undefined s.
Proof.
  induction zs as [|z zs IH]; intros Hz Hex; [done|]. cbn [for_each existsb] in *. unfold mbind, M_bind, get in *.
  destruct (populated_zone s z).
  - destruct (Hz z ltac:(left)) as [i Hi]. unfold fraction_zone, mbind, M_bind. by rewrite (load_zone_ok s z i Hi).
  - apply IH; [by intros; apply Hz; right|done].
Qed.

Lemma fraction_loop_ok s fraction :
  NoDup online_nodes → (∀ z, z ∈ all_zones → ∃ i, zones s !! z = Some i ∧ zone_ok (zz i) ∧ 0 ≤ present_pages i < 2 ^ 31) →
  0 ≤ fraction < 2 ^ 31 → existsb (λ z, populated_zone s z) all_zones && (fraction =? 0) = false →
  returns (for_each all_zones (λ z, s ← get; if populated_zone s z then fraction_zone fraction z else mret tt)) s (λ _ s',
    rest s' = rest s ∧ (∀ z, z ∉ all_zones → zones s' !! z = zones s !! z) ∧
    ∀ z, z ∈ all_zones → ∃ i i', zones s !! z = Some i ∧ zones s' !! z = Some i' ∧ fraction_set fraction z i i').
Proof.
  intros Hnd Hz Hf Hc.
  apply (zones_each _ (λ z i, zones s !! z = Some i ∧ zone_ok (zz i) ∧ 0 ≤ present_pages i < 2 ^ 31) (fraction_set fraction)).
  - by apply all_zones_nodup.
  - intros z Hin. destruct (Hz z Hin) as (i & Hi & Hok & Hp). by exists i.
  - intros z i s' Hin _ Hi' (Hi & Hok & Hp). apply returns_bind. eapply returns_eq; [reflexivity|]. cbv beta.
    assert (populated_zone s' z = negb (present_pages i =? 0)) as Hpop by (unfold populated_zone, present_of; by rewrite Hi').
    rewrite Hpop. unfold fraction_set, fraction_zone. destruct (present_pages i =? 0) eqn:Hp0; simpl.
    { apply returns_ret. exists i. split; [|done]. symmetry. by apply put_id. }
    apply returns_bind. eapply returns_eq; [by apply load_zone_ok|].
    assert ((fraction =? 0) = false) as Hf0.
    { apply andb_false_iff in Hc as [Hc|Hc]; [|done]. exfalso.
      assert (existsb (λ z, populated_zone s z) all_zones = true) as Hex; [|congruence].
      apply existsb_exists. exists z. split; [by apply list_elem_of_In|]. unfold populated_zone, present_of. rewrite Hi. simpl. by rewrite Hp0. }
    rewrite Hf0. bsimp. change (2 ^ 31) with 2147483648 in *. rewrite (uwrap_small 32 fraction) by (widths; lia).
    assert (0 ≤ present_pages i / fraction ≤ present_pages i) as Hq by (split; [apply Z.div_pos; lia|apply Z.div_le_upper_bound; nia]).
    eapply on_zone_ok; [exact Hi'|]. eapply returns_mono; [apply highmark_ok; [done|change (2 ^ 31) with 2147483648; lia]|].
    intros [] y (Hy & _ & Hx & Hh). by eexists.
Qed.

(** A write of the fraction of a zone that its per-cpu lists may hold sets their
    high mark to that fraction of the zone, with a batch that fits, and keeps the pages
    of every zone; a failed write or a read changes nothing but the variable.  A write
    that leaves the fraction 0 divides by zero as soon as a zone has memory. *)
Theorem percpu_fraction_outcomes s write ret fraction :
  NoDup online_nodes → (∀ z, z ∈ all_zones → ∃ i, zones s !! z = Some i ∧ zone_ok (zz i) ∧ 0 ≤ present_pages i < 2 ^ 31) →
  0 ≤ fraction < 2 ^ 31 →
  let s0 := s <| percpu_pagelist_fraction := fraction |> in
  let run := percpu_pagelist_fraction_sysctl_handler write ret fraction s in
  if negb write || (ret <? 0) then run = Ok ret s0
  else if existsb (λ z, populated_zone s z) all_zones && (fraction =? 0) then run = Err Undefined s0
  else ∃ s', run = Ok 0 s' ∧ rest s' = rest s0 ∧ (∀ z, z ∉ all_zones → zones s' !! z = zones s !! z) ∧
    ∀ z, z ∈ all_zones → ∃ i i', zones s !! z = Some i ∧ zones s' !! z = Some i' ∧ fraction_set fraction z i i'.
Proof.
  intros Hnd Hz Hf s0 run.
  assert (run = if negb write || (ret <? 0) then Ok ret s0 else
    match for_each_populated_zone (fraction_zone fraction) s0 with Ok _ x => Ok 0 x | Err e x => Err e x end) as ->.
  { unfold run, percpu_pagelist_fraction_sysctl_handler, mbind, M_bind, modify. by destruct (negb write || (ret <? 0)). }
  destruct (negb write || (ret <? 0)); [done|]. unfold for_each_populated_zone. destruct (_ && _) eqn:Hc.
  - apply andb_prop in Hc as [Hex ->%Z.eqb_eq]. change (existsb (λ z, populated_zone s0 z) all_zones = true) in Hex.
    rewrite (fraction_zero_ok s0); [done| |done].
    intros z Hin. destruct (Hz z Hin) as (i & Hi & _). by exists i.
  - destruct (fraction_loop_ok s0 fraction) as ([] & s' & -> & Hs'); try done. by exists s'.
Qed.

(** When a zone changes its size its per-cpu lists are emptied and set up anew:
    every page stays in the zone, none is left on a list, the batch is one less than a
    power of two (at least 1, at most 191) and the high mark is six batches. *)
Theorem zone_pcp_update_exact s z i :
  zones s !! z = Some i → zone_ok (zz i) → 0 < MAX_ORDER → 0 ≤ present_pages i → present_pages i / 1024 * PAGE_SIZE < 2 ^ 32 →
  returns (zone_pcp_update z) s (λ _ s', ∃ y k, s' = put s z (i <| zz := y |>) ∧ zone_ok y ∧
    (∀ x, in_zone y x ↔ in_zone (zz i) x) ∧ pcp_pages y = [] ∧ 0 ≤ k ∧ 2 ^ k ≤ 192 ∧
    pcp_batch y = Z.max 1 (2 ^ k - 1) ∧ pcp_high y = 6 * (2 ^ k - 1)).
Proof.
  intros Hz Hok Hm Hp Hmem. destruct (zone_batchsize_ok (present_pages i) Hp Hmem) as [(k & Hk & Heq) Hb].
  unfold zone_pcp_update, __zone_pcp_update. apply returns_bind. eapply returns_eq; [by apply load_zone_ok|]. cbv zeta.
  rewrite (uwrap_small 32 (zone_batchsize _)) by (widths; lia). eapply on_zone_ok; [exact Hz|].
  eapply returns_mono; [apply pcp_update_ok; [done|done|done|change (2 ^ 20) with 1048576; lia]|].
  intros [] y (Hy & _ & Hx & Hnil & Hba & Hh). exists y, k. rewrite Heq in *. split_and!; try done. lia.
Qed.
End Reserve.
