(* ===== verification/ZoneDemo.v ===== *)
(** * The set-up of zones on a small machine

    Two nodes of two zones, of eight and of four pages, as a model of what the theorems
    assume of the topology and of the arithmetic. *)

From stdpp Require Import strings.
From S2P Require Import Prelude KList Buddy BuddySpec Pcp PcpSpec ZoneData Zonelist ZonelistSpec ZoneInit ZoneInitSpec ZoneMarks ZoneReserve.

Abbreviation DL := (gmap lhead (list Z)).

#[export] Instance demo_numa : NumaEnv := {
  MAX_NUMNODES := 2;
  top_zone := 1;
  ZONE_NORMAL := 0;
  is_highmem t := bool_decide (t = 1%nat);
  online_nodes := [0; 1];
  memory_nodes := [0; 1];
  numa_node_id := 0;
  gfp_zone_user := 0;
  gfp_zone_movable := 1;
  node_distance a b := if a =? b then 10 else 20;
  has_cpus _ := true;
  PENALTY_FOR_NODE_WITH_CPUS := 1;
  RECLAIM_DISTANCE := 20;
  check_highest_zone _ p := p;
  PAGE_SHIFT := 12;
  SWAP_CLUSTER_MAX := 32;
  int_sqrt := Z.sqrt;
  rounddown_pow_of_two n := 2 ^ Z.log2 n;
  ffz n := 0;
  pfn_valid _ := true;
  page_to_nid _ := 0;
  PageReserved _ := false
}.

#[export] Instance demo_zone_laws : ZoneLaws.
Proof.
  split; [|done|done]. intros n Hn. exists (Z.log2 n). pose proof (Z.log2_spec n Hn). pose proof (Z.log2_nonneg n).
  split_and!; [done|done|lia|]. rewrite Z.add_1_r. lia.
Qed.

#[export] Instance demo_numa_laws : NumaLaws.
Proof.
  assert (NoDup [0; 1]) as Hnd by (repeat constructor; rewrite ?elem_of_cons, ?elem_of_nil; lia). split.
  - exact Hnd.
  - exact Hnd.
  - left.
  - done.
  - intros n. simpl. rewrite !elem_of_cons, !elem_of_nil. lia.
  - done.
  - done.
  - done.
  - intros a b. unfold nr_online_nodes. simpl. destruct (a =? b); done.
Qed.

Definition demo_info (y : zone DL) (pages : Z) : zinfo DL := mkZinfo y pages 0 0 1 0 0.

Definition demo_msys : msys DL :=
  mkMsys {[(0, 0%nat) := demo_info demo_pcp 8; (0, 1%nat) := demo_info demo_freed 8;
           (1, 0%nat) := demo_info demo_freed 4; (1, 1%nat) := demo_info demo_freed 0]}
    {[(0, Fallback) := replicate 5 None; (0, Thisnode) := replicate 5 None;
      (1, Fallback) := replicate 5 None; (1, Thisnode) := replicate 5 None]}
    ∅ ∅ ∅ [0; 0] ZONELIST_ORDER_DEFAULT ZONELIST_ORDER_DEFAULT "default" 0 0 (0, 0, 0) 0 false 16
    {[0%nat := 2; 1%nat := 0]} 0 1 5 0 0.

Lemma demo_fit y pages : zone_ok y → zone_contiguous y → zone_start_pfn y = 0 → spanned_pages y = 8 → lowmem_reserve y = ∅ →
  0 ≤ pages → zone_fit (demo_info y pages).
Proof.
  intros Hy Hc Hs Hsp Hl Hp. split; simpl; [done|done|lia|rewrite Hs, Hsp; by vm_compute|lia|]. intros j. by rewrite Hl.
Qed.

Lemma demo_zones z : z ∈ all_zones → ∃ i, zones demo_msys !! z = Some i ∧ zone_fit i ∧ 0 ≤ present_pages i < 2 ^ 31 ∧
  high_wmark_pages (zz i) = 0.
Proof.
  assert (∀ pages, 0 ≤ pages → zone_fit (demo_info demo_freed pages)) as Hf
    by (intros; apply demo_fit; [apply demo_zone_ok|by intros _ x _|reflexivity|reflexivity|reflexivity|done]).
  assert (zone_fit (demo_info demo_pcp 8)) as Hp
    by (apply demo_fit; [apply demo_pcp_ok|apply demo_contiguous|reflexivity|reflexivity|reflexivity|done]).
  intros Hz. unfold all_zones in Hz. cbn -[zones] in Hz.
  repeat rewrite elem_of_cons in Hz. rewrite elem_of_nil in Hz. destruct Hz as [->|[->|[->|[->|[]]]]].
  - exists (demo_info demo_pcp 8). split; [reflexivity|]. split_and!; [exact Hp|done|done|reflexivity].
  - exists (demo_info demo_freed 8). split; [reflexivity|]. split_and!; [by apply Hf|done|done|reflexivity].
  - exists (demo_info demo_freed 4). split; [reflexivity|]. split_and!; [by apply Hf|done|done|reflexivity].
  - exists (demo_info demo_freed 0). split; [reflexivity|]. split_and!; [by apply Hf|done|done|reflexivity].
Qed.

Lemma demo_marks (kbytes : Z) (ratios : gmap nat Z) : kbytes = 16 → marks_ready (demo_msys <| min_free_kbytes := kbytes |> <| sysctl_lowmem_reserve_ratio := ratios |>).
Proof.
  intros ->. split.
  - apply demo_numa_laws.
  - intros z Hz. destruct (demo_zones z Hz) as (i & Hi & Hf & _). by exists i.
  - by vm_compute.
  - by vm_compute.
  - done.
  - by vm_compute.
  - by vm_compute.
Qed.

Lemma demo_zl_ready : zl_ready demo_msys.
Proof.
  split; [|done|by left]. intros n Hn w. simpl in Hn. rewrite !elem_of_cons, elem_of_nil in Hn.
  exists (replicate 5 None). destruct Hn as [->|[->|[]]], w; split; reflexivity.
Qed.

Lemma build_all_zonelists_complete_witness :
  zl_ready demo_msys ∧ returns build_all_zonelists demo_msys (λ _ s',
    ∃ zl, zonerefs s' !! (1, Fallback) = Some zl ∧ NoDup (entries zl) ∧ (1, 1%nat) ∉ entries zl ∧ (0, 1%nat) ∈ entries zl).
Proof.
  split; [exact demo_zl_ready|]. eapply returns_mono; [apply (build_all_zonelists_complete demo_msys demo_zl_ready)|].
  intros [] s' (_ & _ & Hb). destruct (Hb 1) as (_ & zl & Hzl & Hnd & Hin); [by right; left|].
  exists zl. split_and!; [done|done| |].
  - rewrite Hin. by intros (_ & _ & ?).
  - apply Hin. simpl. split_and!; [lia|right; left|done].
Defined.

Lemma numa_order_handler_outcomes_witness :
  returns (numa_zonelist_order_handler true 0 "Zone") demo_msys (λ ret s', ret = 0 ∧ user_zonelist_order s' = ZONELIST_ORDER_ZONE).
Proof.
  eapply returns_mono; [apply (numa_order_handler_outcomes demo_msys "Zone" demo_zl_ready)|].
  intros ret s' (-> & _ & Hs). split; [done|]. by destruct Hs.
Defined.

Lemma min_free_kbytes_handler_exact_witness :
  marks_ready (demo_msys <| min_free_kbytes := 16 |>) ∧
  returns (min_free_kbytes_sysctl_handler true 16) demo_msys (λ r s', r = 0 ∧ wmarks_set (demo_msys <| min_free_kbytes := 16 |>) s').
Proof.
  split; [by apply (demo_marks 16 {[0%nat := 2; 1%nat := 0]})|].
  apply (min_free_kbytes_handler_exact demo_value ltac:(done) demo_msys true 16).
  by apply (demo_marks 16 {[0%nat := 2; 1%nat := 0]}).
Defined.

Lemma lowmem_reserve_handler_exact_witness :
  returns (lowmem_reserve_ratio_sysctl_handler {[0%nat := 4]}) demo_msys (λ r s', r = 0 ∧ entry s' (0, 0%nat) 1 = 2).
Proof.
  eapply returns_mono; [apply (lowmem_reserve_handler_exact demo_msys {[0%nat := 4]})|].
  - by apply (demo_marks 16).
  - intros z i Hz Hi. destruct (demo_zones z Hz) as (j & Hj & _ & _ & Hh). assert (j = i) as -> by congruence. rewrite Hh. done.
  - intros r s' [-> Hs]. split; [done|]. rewrite (rv_entry _ _ Hs 0 0 1); [by vm_compute|left|simpl; lia].
Defined.

Lemma percpu_fraction_outcomes_witness :
  ∃ s', percpu_pagelist_fraction_sysctl_handler true 0 0 demo_msys = Err Undefined s'.
Proof.
  assert (existsb (λ z, populated_zone demo_msys z) all_zones = true) as Hpop by (vm_compute; reflexivity).
  pose proof (percpu_fraction_outcomes demo_msys true 0 0 ltac:(apply demo_numa_laws)) as Hf. cbv zeta in Hf. rewrite Hpop in Hf.
  eexists. apply Hf; [clear Hf|done]. intros z Hz. destruct (demo_zones z Hz) as (i & Hi & Hf & Hp & _). exists i. split_and!; [done|apply Hf|apply Hp|apply Hp].
Defined.

Lemma zone_pcp_update_exact_witness :
  returns (zone_pcp_update (0, 0%nat)) demo_msys (λ _ s', ∃ i, zones s' !! (0, 0%nat) = Some i ∧ zone_ok (zz i) ∧ pcp_pages (zz i) = []).
Proof.
  eapply returns_mono; [apply (zone_pcp_update_exact demo_value demo_msys (0, 0%nat) (demo_info demo_pcp 8) eq_refl demo_pcp_ok); done|].
  intros [] s' (y & k & -> & Hy & _ & Hnil & _). eexists. split; [apply put_lookup|]. done.
Defined.
