(* ===== verification/MemMap.v ===== *)
(** * Sizes of nodes and zones from the early memory map: [page_alloc.c]

    At boot the ranges of memory of each node are known ([for_each_mem_pfn_range]) and
    the architecture gives the last page of each type of zone.  From these follow where
    the movable zone of each node begins, what each zone spans, how much of it is memory
    and the initial state of the zones.  Without CONFIG_HAVE_MEMBLOCK_NODE_MAP the caller
    gives the sizes and holes of the zones instead.

    [unsigned long] has 32 bits. *)

From S2P Require Import Prelude KList Buddy Pcp ZoneData Zonelist ZoneInit.

(** What is used of the rest of the kernel: the ranges (start, end and node) in the
    order of [memblock], the configuration, and accesses to [struct page]. *)
Class BootEnv : Type := {
  mem_ranges : list (Z * Z * Z);
  ZONE_MOVABLE : nat;
  sizeof_page : Z;
  sizeof_wait_queue_head : Z;
  NR_PAGEBLOCK_BITS : Z;
  CONFIG_NUMA : bool;
  CONFIG_NODES_SPAN_OTHER_NODES : bool;
  movable_reserved_size : option Z;        (** with CONFIG_FIX_MOVABLE_ZONE *)
  possible_nodes : list Z;                 (** [node_possible_map], ascending *)
  early_pfn_valid : Z → bool;
  set_page_links : page → nat → Z → Z → page;
  init_page_count : page → page;
  reset_page_mapcount : page → page;
  SetPageReserved : page → page;
  alloc_remap : Z → Z → bool;              (** by node and size: is there memory *)
  alloc_bootmem : Z → Z → bool;            (** [alloc_bootmem_node_nopanic], zero-filled *)
  __ffs : Z → Z
}.

(** The variables of the set-up; [ms] is the machine of [ZoneData.v]. *)
Record boot (L : Type) : Type := mkBoot {
  ms : msys L;
  lowest_possible_pfn : gmap nat Z;        (** [arch_zone_lowest_possible_pfn] *)
  highest_possible_pfn : gmap nat Z;       (** [arch_zone_highest_possible_pfn] *)
  required_kernelcore : Z;
  required_movablecore : Z;
  zone_movable_pfn : gmap Z Z;
  movable_zone : nat;
  high_memory : gset Z;                    (** [node_states[N_HIGH_MEMORY]] *)
  normal_memory : gset Z;
  nr_node_ids : Z;
  nr_kernel_pages : Z;
  nr_all_pages : Z;
  dma_reserve : Z;
  highest_memmap_pfn : Z;
  node_start_pfn : gmap Z Z;
  node_spanned_pages : gmap Z Z;
  node_present_pages : gmap Z Z;
  node_nr_zones : gmap Z nat;
  wait_table : gmap zone_ref (Z * Z);      (** entries and bits *)
  node_mem_map : gmap Z bool;              (** set or not, and if so whether it was allocated *)
  has_usemap : gset zone_ref               (** zones whose [pageblock_flags] is not null *)
}.
Arguments mkBoot {L}.
Arguments ms {L}.
Arguments lowest_possible_pfn {L}.
Arguments highest_possible_pfn {L}.
Arguments required_kernelcore {L}.
Arguments required_movablecore {L}.
Arguments zone_movable_pfn {L}.
Arguments movable_zone {L}.
Arguments high_memory {L}.
Arguments normal_memory {L}.
Arguments nr_node_ids {L}.
Arguments nr_kernel_pages {L}.
Arguments nr_all_pages {L}.
Arguments dma_reserve {L}.
Arguments highest_memmap_pfn {L}.
Arguments node_start_pfn {L}.
Arguments node_spanned_pages {L}.
Arguments node_present_pages {L}.
Arguments node_nr_zones {L}.
Arguments wait_table {L}.
Arguments node_mem_map {L}.
Arguments has_usemap {L}.
#[export] Instance boot_eta L : Settable (boot L) := λ b,
  mkBoot (ms b) (lowest_possible_pfn b) (highest_possible_pfn b) (required_kernelcore b) (required_movablecore b)
    (zone_movable_pfn b) (movable_zone b) (high_memory b) (normal_memory b) (nr_node_ids b) (nr_kernel_pages b)
    (nr_all_pages b) (dma_reserve b) (highest_memmap_pfn b) (node_start_pfn b) (node_spanned_pages b)
    (node_present_pages b) (node_nr_zones b) (wait_table b) (node_mem_map b) (has_usemap b).

(** Sizes and holes of the zones: from the map, or given by the caller. *)
Inductive zone_sizes : Type :=
  | FromMap
  | Given (zones_size : nat → Z) (zholes_size : option (nat → Z)).

Section MemMap.
Context {L : Type} `{KList lhead L} `{BuddyConfig} `{NumaEnv} `{BootEnv}.
Abbreviation B := (M (boot L)).
Implicit Types (b : boot L).

(** ** Ranges of memory *)

(** [for_each_mem_pfn_range]; the node MAX_NUMNODES stands for all. *)
Definition pfn_ranges (nid : Z) : list (Z * Z * Z) :=
  if nid =? Z.of_nat MAX_NUMNODES then mem_ranges else filter (λ r, r.2 = nid) mem_ranges.

Definition ULONG_MAX : Z := 2 ^ 32 - 1.

Fixpoint nid_of (rs : list (Z * Z * Z)) (pfn : Z) : Z :=
  match rs with
  | [] => -1
  | (start_pfn, end_pfn, nid) :: rs' => if (start_pfn <=? pfn) && (pfn <? end_pfn) then nid else nid_of rs' pfn
  end.

Definition __early_pfn_to_nid (pfn : Z) : Z := nid_of (pfn_ranges (Z.of_nat MAX_NUMNODES)) pfn.

Definition early_pfn_to_nid (pfn : Z) : Z :=
  let nid := __early_pfn_to_nid pfn in if 0 <=? nid then nid else 0.

Definition early_pfn_in_nid (pfn node : Z) : bool :=
  if CONFIG_NODES_SPAN_OTHER_NODES then
    let nid := __early_pfn_to_nid pfn in negb ((0 <=? nid) && negb (nid =? node))
  else true.

(** The calls of [free_bootmem_node]: node, first page, and size in bytes. *)
Definition free_bootmem_with_active_regions (nid max_low_pfn : Z) : list (Z * Z * Z) :=
  omap (λ '(start_pfn, end_pfn, this_nid),
    let start_pfn := Z.min start_pfn max_low_pfn in
    let end_pfn := Z.min end_pfn max_low_pfn in
    if start_pfn <? end_pfn then Some (this_nid, start_pfn, u32 (Z.shiftl (end_pfn - start_pfn) PAGE_SHIFT)) else None)
    (pfn_ranges nid).

(** The calls of [memory_present]. *)
Definition sparse_memory_present_with_active_regions (nid : Z) : list (Z * Z * Z) :=
  (λ '(start_pfn, end_pfn, this_nid), (this_nid, start_pfn, end_pfn)) <$> pfn_ranges nid.

Definition get_pfn_range_for_nid (nid : Z) : Z * Z :=
  let '(start_pfn, end_pfn) :=
    foldl (λ '(start_pfn, end_pfn) '(this_start_pfn, this_end_pfn, _),
      (Z.min start_pfn this_start_pfn, Z.max end_pfn this_end_pfn)) (ULONG_MAX, 0) (pfn_ranges nid) in
  (if start_pfn =? ULONG_MAX then 0 else start_pfn, end_pfn).

Definition find_min_pfn_for_node (nid : Z) : Z :=
  let min_pfn := foldl (λ min_pfn '(start_pfn, _, _), Z.min min_pfn start_pfn) ULONG_MAX (pfn_ranges nid) in
  if min_pfn =? ULONG_MAX then 0 else min_pfn.

Definition find_min_pfn_with_active_regions : Z := find_min_pfn_for_node (Z.of_nat MAX_NUMNODES).

(** ** Which alignment tells the nodes apart *)

(** The mask of 32 bits is shifted out after 32 steps. *)
Fixpoint coarsen (fuel : nat) (last_end start mask : Z) : Z :=
  match fuel with
  | O => mask
  | S fuel' =>
      if negb (mask =? 0) && (last_end <=? Z.land start (u32 (Z.shiftl mask 1)))
      then coarsen fuel' last_end start (u32 (Z.shiftl mask 1)) else mask
  end.

Fixpoint inter_masks (rs : list (Z * Z * Z)) (accl_mask last_end last_nid : Z) : Z :=
  match rs with
  | [] => accl_mask
  | (start, end_, nid) :: rs' =>
      if (start =? 0) || (last_nid <? 0) || (last_nid =? nid) then inter_masks rs' accl_mask end_ nid
      else
        let mask := u32 (Z.lnot (Z.shiftl 1 (__ffs start) - 1)) in
        let mask := coarsen 32 last_end start mask in
        inter_masks rs' (Z.lor accl_mask mask) last_end last_nid
  end.

Definition node_map_pfn_alignment : Z :=
  u32 (u32 (Z.lnot (inter_masks (pfn_ranges (Z.of_nat MAX_NUMNODES)) 0 0 (-1))) + 1).

(** ** The movable zone *)

Fixpoint usable_zone b (zone_index : nat) : option nat :=
  if negb (zone_index =? ZONE_MOVABLE)%nat &&
     (default 0 (lowest_possible_pfn b !! zone_index) <? default 0 (highest_possible_pfn b !! zone_index))
  then Some zone_index
  else match zone_index with O => None | S zone_index' => usable_zone b zone_index' end.

Definition find_usable_zone_for_movable : B unit :=
  b ← get;
  match usable_zone b top_zone with
  | None => fail BugOn
  | Some zone_index => modify (λ b, b <| movable_zone := zone_index |>)
  end.

Definition early_calculate_totalpages : B Z :=
  let rs := pfn_ranges (Z.of_nat MAX_NUMNODES) in
  _ ← for_each rs (λ '(start_pfn, end_pfn, nid),
        if negb (end_pfn - start_pfn =? 0) then modify (λ b, b <| high_memory ::= union {[nid]} |>) else mret tt);
  mret (foldl (λ totalpages '(start_pfn, end_pfn, _), u32 (totalpages + (end_pfn - start_pfn))) 0 rs).

(** The ranges of a node: the page at which its movable zone begins and what is left of
    [required_kernelcore].  What is subtracted is never more than what is there. *)
Fixpoint node_movable (usable_startpfn : Z) (rs : list (Z * Z * Z)) (movable required remaining : Z) : Z * Z :=
  match rs with
  | [] => (movable, required)
  | (start_pfn, end_pfn, _) :: rs' =>
      let start_pfn := Z.max start_pfn movable in
      if end_pfn <=? start_pfn then node_movable usable_startpfn rs' movable required remaining
      else
        let kernel_pages := if start_pfn <? usable_startpfn then Z.min end_pfn usable_startpfn - start_pfn else 0 in
        let remaining := remaining - Z.min kernel_pages remaining in
        let required := required - Z.min kernel_pages required in
        if (start_pfn <? usable_startpfn) && (end_pfn <=? usable_startpfn) then
          node_movable usable_startpfn rs' end_pfn required remaining
        else
          let start_pfn := if start_pfn <? usable_startpfn then usable_startpfn else start_pfn in
          let size_pages := end_pfn - start_pfn in
          let size_pages := if remaining <? size_pages then remaining else size_pages in
          let movable := start_pfn + size_pages in
          let required := required - Z.min required size_pages in
          let remaining := remaining - size_pages in
          if remaining =? 0 then (movable, required) else node_movable usable_startpfn rs' movable required remaining
  end.

(** One pass over the nodes with memory. *)
Fixpoint spread (usable_startpfn usable_nodes : Z) (nodes : list Z) (kernelcore_node : Z) (movable : gmap Z Z) (required : Z) : gmap Z Z * Z :=
  match nodes with
  | [] => (movable, required)
  | nid :: nodes' =>
      let kernelcore_node := if required <? kernelcore_node then required / usable_nodes else kernelcore_node in
      let '(m, required) := node_movable usable_startpfn (pfn_ranges nid) (default 0 (movable !! nid)) required kernelcore_node in
      spread usable_startpfn usable_nodes nodes' kernelcore_node (<[nid := m]> movable) required
  end.

(** The passes, with one node less each time. *)
Fixpoint spread_passes (usable_nodes : nat) (usable_startpfn : Z) (nodes : list Z) (movable : gmap Z Z) (required : Z) : gmap Z Z * Z :=
  match usable_nodes with
  | O => (movable, required)
  | S n =>
      let '(movable, required) :=
        spread usable_startpfn (Z.of_nat usable_nodes) nodes (required / Z.of_nat usable_nodes) movable required in
      if Z.of_nat n <? required then spread_passes n usable_startpfn nodes movable required else (movable, required)
  end.

Definition MAX_ORDER_NR_PAGES : Z := Z.shiftl 1 (MAX_ORDER - 1).

(** The nodes of a mask, ascending. *)
Definition nodes_of (m : gset Z) : list Z := filter (λ n, n ∈ m) (seqZ 0 (Z.of_nat MAX_NUMNODES)).

Definition find_zone_movable_pfns_for_nodes : B unit :=
  b ← get;
  let saved_node_state := high_memory b in
  totalpages ← early_calculate_totalpages;
  _ ← (match movable_reserved_size with
       | Some size => modify (λ b, b <| required_movablecore := Z.shiftr size PAGE_SHIFT |>)
       | None => mret tt
       end);
  _ ← modify (λ b, if negb (required_movablecore b =? 0) then
         let movablecore := roundup (required_movablecore b) MAX_ORDER_NR_PAGES in
         let corepages := u32 (totalpages - movablecore) in
         b <| required_movablecore := movablecore |> <| required_kernelcore := Z.max (required_kernelcore b) corepages |>
       else b);
  b ← get;
  _ ← (if required_kernelcore b =? 0 then mret tt
       else
         _ ← find_usable_zone_for_movable;
         b ← get;
         let nodes := nodes_of (high_memory b) in
         let usable_startpfn := default 0 (lowest_possible_pfn b !! movable_zone b) in
         if decide (nodes = []) then fail Undefined
         else
           let '(movable, required) :=
             spread_passes (length nodes) usable_startpfn nodes (zone_movable_pfn b) (required_kernelcore b) in
           modify (λ b, b <| required_kernelcore := required |>
             <| zone_movable_pfn := (λ pfn, roundup pfn MAX_ORDER_NR_PAGES) <$> movable |>));
  modify (λ b, b <| high_memory := saved_node_state |>).

(** ** Sizes of the zones *)

Definition adjust_zone_range_for_zone_movable b (nid : Z) (zone_type : nat) (node_start_pfn node_end_pfn zone_start_pfn zone_end_pfn : Z) : Z * Z :=
  let movable := default 0 (zone_movable_pfn b !! nid) in
  if negb (movable =? 0) then
    if (zone_type =? ZONE_MOVABLE)%nat then
      (movable, Z.min node_end_pfn (default 0 (highest_possible_pfn b !! movable_zone b)))
    else if (zone_start_pfn <? movable) && (movable <? zone_end_pfn) then (zone_start_pfn, movable)
    else if movable <=? zone_start_pfn then (zone_end_pfn, zone_end_pfn)
    else (zone_start_pfn, zone_end_pfn)
  else (zone_start_pfn, zone_end_pfn).

Definition zone_spanned_pages_in_node b (nid : Z) (zone_type : nat) (g : zone_sizes) : Z :=
  match g with
  | Given zones_size _ => zones_size zone_type
  | FromMap =>
      let '(node_start_pfn, node_end_pfn) := get_pfn_range_for_nid nid in
      let '(zone_start_pfn, zone_end_pfn) :=
        adjust_zone_range_for_zone_movable b nid zone_type node_start_pfn node_end_pfn
          (default 0 (lowest_possible_pfn b !! zone_type)) (default 0 (highest_possible_pfn b !! zone_type)) in
      if (zone_end_pfn <? node_start_pfn) || (node_end_pfn <? zone_start_pfn) then 0
      else u32 (Z.min zone_end_pfn node_end_pfn - Z.max zone_start_pfn node_start_pfn)
  end.

(** The macro of the kernel: first the lower bound, then the upper one. *)
Definition clamp_pfn (val min max : Z) : Z :=
  let val := if val <? min then min else val in if max <? val then max else val.

Definition __absent_pages_in_range (nid range_start_pfn range_end_pfn : Z) : Z :=
  foldl (λ nr_absent '(start_pfn, end_pfn, _),
    u32 (nr_absent - u32 (clamp_pfn end_pfn range_start_pfn range_end_pfn - clamp_pfn start_pfn range_start_pfn range_end_pfn)))
    (u32 (range_end_pfn - range_start_pfn)) (pfn_ranges nid).

Definition absent_pages_in_range (start_pfn end_pfn : Z) : Z :=
  __absent_pages_in_range (Z.of_nat MAX_NUMNODES) start_pfn end_pfn.

Definition zone_absent_pages_in_node b (nid : Z) (zone_type : nat) (g : zone_sizes) : Z :=
  match g with
  | Given _ None => 0
  | Given _ (Some zholes_size) => zholes_size zone_type
  | FromMap =>
      let zone_low := default 0 (lowest_possible_pfn b !! zone_type) in
      let zone_high := default 0 (highest_possible_pfn b !! zone_type) in
      let '(node_start_pfn, node_end_pfn) := get_pfn_range_for_nid nid in
      let '(zone_start_pfn, zone_end_pfn) :=
        adjust_zone_range_for_zone_movable b nid zone_type node_start_pfn node_end_pfn
          (clamp_pfn node_start_pfn zone_low zone_high) (clamp_pfn node_end_pfn zone_low zone_high) in
      __absent_pages_in_range nid zone_start_pfn zone_end_pfn
  end.

Definition zone_types : list nat := seq 0 (S top_zone).

Definition calculate_node_totalpages (nid : Z) (g : zone_sizes) : B unit :=
  b ← get;
  let totalpages := foldl (λ n t, u32 (n + zone_spanned_pages_in_node b nid t g)) 0 zone_types in
  _ ← modify (λ b, b <| node_spanned_pages ::= <[nid := totalpages]> |>);
  let realtotalpages := foldl (λ n t, u32 (n - zone_absent_pages_in_node b nid t g)) totalpages zone_types in
  modify (λ b, b <| node_present_pages ::= <[nid := realtotalpages]> |>).

(** The bytes for the flags of the blocks of a zone. *)
Definition usemap_size (zonesize : Z) : Z :=
  let usemapsize := roundup zonesize pageblock_nr_pages in
  let usemapsize := Z.shiftr usemapsize pageblock_order in
  let usemapsize := u32 (usemapsize * NR_PAGEBLOCK_BITS) in
  roundup usemapsize (8 * 4) / 8.

(** ** The initial state of a zone *)

Definition in_ms {A} (m : M (msys L) A) : B A := λ b,
  match m (ms b) with
  | Ok a s => Ok a (b <| ms := s |>)
  | Err e s => Err e (b <| ms := s |>)
  end.

Definition ENOMEM : Z := 12.

Definition zone_wait_table_init (z : zone_ref) (zone_size_pages : Z) : B Z :=
  size ← deref (wait_table_hash_nr_entries zone_size_pages);
  _ ← modify (λ b, b <| wait_table ::= <[z := (size, wait_table_bits size)]> |>);
  mret (if alloc_bootmem z.1 (u32 (size * sizeof_wait_queue_head)) then 0 else - ENOMEM).

Definition init_currently_empty_zone (z : zone_ref) (start_pfn size : Z) : B Z :=
  ret ← zone_wait_table_init z size;
  if negb (ret =? 0) then mret ret
  else
    _ ← modify (λ b, b <| node_nr_zones ::= <[z.1 := S z.2]> |>);
    _ ← in_ms (on_zone z (modify (λ y, y <| zone_start_pfn := start_pfn |>)));
    _ ← in_ms (on_zone z zone_init_free_lists);
    mret 0.

(** The bitmap of the blocks; what the early allocator gives is zero-filled
    (without CONFIG_SPARSEMEM). *)
Definition setup_usemap (z : zone_ref) (zonesize : Z) : B unit :=
  let usemapsize := usemap_size zonesize in
  if negb (usemapsize =? 0) && alloc_bootmem z.1 usemapsize then
    _ ← modify (λ b, b <| has_usemap ::= union {[z]} |>);
    in_ms (on_zone z (modify (λ y, y <| block_mt := ∅ |>)))
  else modify (λ b, b <| has_usemap ::= λ u, u ∖ {[z]} |>).

(** One page of the zone; [early] is [context == MEMMAP_EARLY].  The page is in the map
    of the node, if there is one ([mapped]), and its block in the bitmap, if there is
    one ([usemap]). *)
Definition memmap_init_page (mapped usemap early : bool) (nid : Z) (zone_type : nat) (pfn : Z) : M (zone L) unit :=
  if early && negb (early_pfn_valid pfn) then mret tt
  else if early && negb (early_pfn_in_nid pfn nid) then mret tt
  else
    _ ← (if mapped : bool then mret tt else fail NullDeref);
    _ ← modify (λ z, z <| mem_map ::= <[pfn := SetPageReserved (reset_page_mapcount (init_page_count
          (set_page_links (page_at z pfn) zone_type nid pfn)))]> |>);
    z ← get;
    if (zone_start_pfn z <=? pfn) && (pfn <? u32 (zone_start_pfn z + spanned_pages z)) &&
       (Z.land pfn (pageblock_nr_pages - 1) =? 0)
    then if usemap : bool then set_pageblock_migratetype pfn MIGRATE_MOVABLE else fail NullDeref
    else mret tt.

Definition memmap_init_zone (early : bool) (size nid : Z) (zone_type : nat) (start_pfn : Z) : B unit :=
  let end_pfn := u32 (start_pfn + size) in
  _ ← modify (λ b, b <| highest_memmap_pfn ::= λ h, if h <? u32 (end_pfn - 1) then u32 (end_pfn - 1) else h |>);
  b ← get;
  let mapped := default false (node_mem_map b !! nid) in
  let usemap := bool_decide ((nid, zone_type) ∈ has_usemap b) in
  for_each (seqZ start_pfn (end_pfn - start_pfn)) (λ pfn,
    in_ms (on_zone (nid, zone_type) (memmap_init_page mapped usemap early nid zone_type pfn))).

(** The page set of a zone is the one of the boot, until it gets its own. *)
Definition zone_pcp_init (z : zone_ref) : M (msys L) unit :=
  s ← get;
  let '(count, high, batch) := boot_pageset s in
  on_zone z (modify (λ y, y <| pcp_count := count |> <| pcp_high := high |> <| pcp_batch := batch |>)).

Definition PAGE_ALIGN (x : Z) : Z := Z.land (u32 (x + (PAGE_SIZE - 1))) (u32 (Z.lnot (PAGE_SIZE - 1))).

(** Pages of a zone that are left for use. *)
Definition realsize_of b (j : nat) (size absent : Z) : Z :=
  let realsize := u32 (size - absent) in
  let memmap_pages := Z.shiftr (PAGE_ALIGN (u32 (size * sizeof_page))) PAGE_SHIFT in
  let realsize := if memmap_pages <=? realsize then realsize - memmap_pages else realsize in
  if (j =? 0)%nat && (dma_reserve b <? realsize) then realsize - dma_reserve b else realsize.

(** A zone of the node; the first page of the next one. *)
Definition init_zone (nid : Z) (g : zone_sizes) (j : nat) (zone_start_pfn : Z) : B Z :=
  b ← get;
  let size := zone_spanned_pages_in_node b nid j g in
  let realsize := realsize_of b j size (zone_absent_pages_in_node b nid j g) in
  _ ← modify (λ b, b <| nr_kernel_pages ::= λ n, if is_highmem j then n else u32 (n + realsize) |>
                     <| nr_all_pages ::= λ n, u32 (n + realsize) |>);
  _ ← in_ms (store_zone (nid, j) (λ i, i <| zz ::= λ y, y <| spanned_pages := size |> |> <| present_pages := realsize |>));
  _ ← (if CONFIG_NUMA then
         in_ms (s ← get; store_zone (nid, j) (λ i,
           i <| min_unmapped_pages := u32 (realsize * u32 (sysctl_min_unmapped_ratio s)) / 100 |>
             <| min_slab_pages := u32 (realsize * u32 (sysctl_min_slab_ratio s)) / 100 |>))
       else mret tt);
  _ ← in_ms (on_zone (nid, j) (modify (λ y, y <| zone_lock := false |>)));
  _ ← in_ms (zone_pcp_init (nid, j));
  _ ← in_ms (on_zone (nid, j) (modify (λ y, y <| NR_FREE_PAGES := 0 |> <| NR_FREE_CMA_PAGES := 0 |>)));
  if size =? 0 then mret zone_start_pfn
  else
    _ ← setup_usemap (nid, j) size;
    ret ← init_currently_empty_zone (nid, j) zone_start_pfn size;
    if negb (ret =? 0) then fail BugOn
    else
      _ ← memmap_init_zone true size nid j zone_start_pfn;
      mret (u32 (zone_start_pfn + size)).

Fixpoint init_zones (nid : Z) (g : zone_sizes) (types : list nat) (zone_start_pfn : Z) : B unit :=
  match types with
  | [] => mret tt
  | j :: types' => zone_start_pfn ← init_zone nid g j zone_start_pfn; init_zones nid g types' zone_start_pfn
  end.

Definition free_area_init_core (nid : Z) (g : zone_sizes) : B unit :=
  b ← get;
  _ ← modify (λ b, b <| node_nr_zones ::= <[nid := 0%nat]> |>);
  init_zones nid g zone_types (default 0 (node_start_pfn b !! nid)).

(** [struct page] filled with zeros. *)
Definition zero_page : page := mkPage 0 0 0 0 0 false false 0 0 false.

Definition zeroed (start n : Z) (m : gmap Z page) : gmap Z page :=
  foldr (λ p, <[p := zero_page]>) m (seqZ start n).

(** The map of the node gets zero-filled descriptors for the pages from [start]. *)
Definition new_map (nid start n : Z) (s : msys L) : msys L :=
  s <| zones ::= map_imap (λ z i, Some (if z.1 =? nid then i <| zz ::= λ y, y <| mem_map ::= zeroed start n |> |> else i)) |>.

Definition ALIGN (x a : Z) : Z := Z.land (u32 (x + (a - 1))) (u32 (Z.lnot (a - 1))).

(** With CONFIG_FLAT_NODE_MEM_MAP; pages are named by frame, so that the shift of the
    global [mem_map] has no counterpart. *)
Definition alloc_node_mem_map (nid : Z) : B unit :=
  b ← get;
  let spanned := default 0 (node_spanned_pages b !! nid) in
  if spanned =? 0 then mret tt
  else match node_mem_map b !! nid with
  | Some _ => mret tt
  | None =>
      let first := default 0 (node_start_pfn b !! nid) in
      let start := Z.land first (u32 (Z.lnot (MAX_ORDER_NR_PAGES - 1))) in
      let end_ := ALIGN (u32 (first + spanned)) MAX_ORDER_NR_PAGES in
      let size := u32 (u32 (end_ - start) * sizeof_page) in
      let got := alloc_remap nid size || alloc_bootmem nid size in
      _ ← (if got then modify (λ b, b <| ms ::= new_map nid start (u32 (end_ - start)) |>) else mret tt);
      modify (λ b, b <| node_mem_map ::= <[nid := got]> |>)
  end.

Definition free_area_init_node (nid : Z) (g : zone_sizes) (start_pfn : Z) : B unit :=
  _ ← modify (λ b, b <| node_start_pfn ::= <[nid := start_pfn]> |>);
  _ ← calculate_node_totalpages nid g;
  _ ← alloc_node_mem_map nid;
  free_area_init_core nid g.

(** ** All nodes *)

Definition setup_nr_node_ids : B unit :=
  modify (λ b, b <| nr_node_ids := foldl (λ _ node, node) 0 possible_nodes + 1 |>).

(** The types below and including [ZONE_NORMAL]. *)
Definition check_for_regular_memory (nid : Z) : B unit :=
  b ← get;
  if existsb (λ t, negb (present_of (ms b) (nid, t) =? 0)) (seq 0 (S ZONE_NORMAL))
  then modify (λ b, b <| normal_memory ::= union {[nid]} |>) else mret tt.

Fixpoint zone_bounds (max_zone_pfn : nat → Z) (types : list nat) (low high : gmap nat Z) : gmap nat Z * gmap nat Z :=
  match types with
  | [] => (low, high)
  | i :: types' =>
      if (i =? ZONE_MOVABLE)%nat then zone_bounds max_zone_pfn types' low high
      else
        let l := default 0 (high !! (i - 1)%nat) in
        zone_bounds max_zone_pfn types' (<[i := l]> low) (<[i := Z.max (max_zone_pfn i) l]> high)
  end.

Definition free_area_init_nodes (max_zone_pfn : nat → Z) : B unit :=
  let '(low, high) := zone_bounds max_zone_pfn (seq 1 top_zone)
    {[0%nat := find_min_pfn_with_active_regions]} {[0%nat := max_zone_pfn 0%nat]} in
  _ ← modify (λ b, b <| lowest_possible_pfn := <[ZONE_MOVABLE := 0]> low |>
                     <| highest_possible_pfn := <[ZONE_MOVABLE := 0]> high |>
                     <| zone_movable_pfn := ∅ |>);
  _ ← find_zone_movable_pfns_for_nodes;
  _ ← setup_nr_node_ids;
  for_each online_nodes (λ nid,
    _ ← free_area_init_node nid FromMap (find_min_pfn_for_node nid);
    b ← get;
    _ ← (if negb (default 0 (node_present_pages b !! nid) =? 0)
         then modify (λ b, b <| high_memory ::= union {[nid]} |>) else mret tt);
    check_for_regular_memory nid).

(** ** Parameters of the boot *)

(** [memparse] gives a number of bytes; [None] stands for a missing value. *)
Definition cmdline_parse_core (coremem : option Z) : option Z :=
  coremem ← coremem; Some (u32 (Z.shiftr coremem PAGE_SHIFT)).

Definition cmdline_parse_kernelcore (coremem : option Z) : B Z :=
  match cmdline_parse_core coremem with
  | None => mret (- EINVAL)
  | Some core => _ ← modify (λ b, b <| required_kernelcore := core |>); mret 0
  end.

Definition cmdline_parse_movablecore (coremem : option Z) : B Z :=
  match cmdline_parse_core coremem with
  | None => mret (- EINVAL)
  | Some core => _ ← modify (λ b, b <| required_movablecore := core |>); mret 0
  end.

Definition set_dma_reserve (new_dma_reserve : Z) : B unit := modify (λ b, b <| dma_reserve := new_dma_reserve |>).
End MemMap.
