(* ===== verification/MemMapSpec.v ===== *)
(** * Nodes and zones get all of the memory, once

    The zones of a node are consecutive intervals; what a zone spans less its holes is
    the memory of the node in its interval, and the zones together have all memory of
    the node that the architecture can use.  The movable zones begin where the memory
    asked for the kernel ends. *)

From stdpp Require Import sorting.
From S2P Require Import Prelude KList Buddy BuddySpec Pcp PcpSpec ZoneData Zonelist ZoneInit MemMap.

(** What [memblock] promises: ranges in ascending order, none empty, none overlapping. *)
Class BootLaws `{NumaEnv} `{BootEnv} : Prop := {
  bl_range : ∀ s e n, (s, e, n) ∈ mem_ranges → 0 ≤ s < e ∧ e < 2 ^ 30 ∧ 0 ≤ n < Z.of_nat MAX_NUMNODES;
  bl_sorted : StronglySorted (λ r r', r.1.2 ≤ r'.1.1) mem_ranges
}.

(** ** Counting pages *)

(** Pages of the ranges [rs] in an interval. *)
Definition pages_of (rs : list (Z * Z * Z)) (a b : Z) : Z :=
  sumZ (λ r, Z.max 0 (Z.min r.1.2 b - Z.max r.1.1 a)) rs.

Definition ranges_ok (rs : list (Z * Z * Z)) : Prop :=
  (∀ r, r ∈ rs → 0 ≤ r.1.1 < r.1.2 ∧ r.1.2 < 2 ^ 30) ∧ StronglySorted (λ r r', r.1.2 ≤ r'.1.1) rs.

Lemma ranges_ok_cons r rs : ranges_ok (r :: rs) →
  (0 ≤ r.1.1 < r.1.2 ∧ r.1.2 < 2 ^ 30) ∧ ranges_ok rs ∧ ∀ r', r' ∈ rs → r.1.2 ≤ r'.1.1.
Proof.
  intros [Hin Hs]. apply StronglySorted_inv in Hs as [Hs Hf]. rewrite Forall_forall in Hf.
  split; [apply Hin; left|]. split; [|done]. split; [intros; apply Hin; by right|done].
Qed.

Lemma pages_of_nonneg rs a b : 0 ≤ pages_of rs a b.
Proof. apply sumZ_nonneg. intros. lia. Qed.

Lemma pages_of_cons r rs a b : pages_of (r :: rs) a b = Z.max 0 (Z.min r.1.2 b - Z.max r.1.1 a) + pages_of rs a b.
Proof. done. Qed.

(** No pages of ranges that lie above. *)
Lemma pages_of_above rs a b : (∀ r, r ∈ rs → b ≤ r.1.1) → pages_of rs a b = 0.
Proof.
  induction rs as [|r rs IH]; intros Hb; [done|]. rewrite pages_of_cons, IH by (intros; apply Hb; by right).
  pose proof (Hb r ltac:(left)). lia.
Qed.

(** An interval has no more pages than it is long. *)
Lemma pages_of_le rs : ∀ a b, ranges_ok rs → a ≤ b → pages_of rs a b ≤ b - a.
Proof.
  induction rs as [|r rs IH]; intros a b Hrs Hab; [unfold pages_of, sumZ; simpl; lia|].
  apply ranges_ok_cons in Hrs as (Hr & Hrs & Hup). rewrite pages_of_cons.
  destruct (decide (b ≤ r.1.2)).
  - rewrite pages_of_above by (intros r' Hr'; specialize (Hup r' Hr'); lia). lia.
  - assert (pages_of rs a b = pages_of rs (Z.max a r.1.2) b) as ->.
    { apply sumZ_ext. intros r' Hr'. specialize (Hup r' Hr'). lia. }
    specialize (IH (Z.max a r.1.2) b Hrs ltac:(lia)). lia.
Qed.

(** Adjacent intervals. *)
Lemma pages_of_split rs a c b : a ≤ c ≤ b → pages_of rs a b = pages_of rs a c + pages_of rs c b.
Proof.
  intros Hc. induction rs as [|r rs IH]; [done|]. rewrite !pages_of_cons, IH. lia.
Qed.

Lemma pages_of_empty rs a : pages_of rs a a = 0.
Proof. induction rs as [|r rs IH]; [done|]. rewrite pages_of_cons, IH. lia. Qed.

Section Spec.
Context {L : Type} `{KListLaws lhead L} `{BuddyConfig} `{NumaEnv} `{BootEnv} `{!BootLaws}.
Implicit Types (b : boot L).

Lemma pfn_ranges_ok nid : ranges_ok (pfn_ranges nid).
Proof.
  assert (ranges_ok mem_ranges) as Hm.
  { split; [intros [[s e] n] Hr; destruct (bl_range s e n Hr); simpl; lia|apply bl_sorted]. }
  unfold pfn_ranges. destruct (_ =? _); [done|]. destruct Hm as [Hin Hs]. split.
  - intros r Hr. apply list_elem_of_filter in Hr as [_ Hr]. auto.
  - clear Hin. induction Hs as [|r rs Hs IH Hf]; [constructor|]. rewrite filter_cons. case_decide; [|done].
    constructor; [done|]. apply Forall_forall. intros r' Hr'. apply list_elem_of_filter in Hr' as [_ Hr'].
    rewrite Forall_forall in Hf. auto.
Qed.

(** The ends of a node: no memory outside. *)
Lemma pfn_range_ok nid ns ne :
  get_pfn_range_for_nid nid = (ns, ne) →
  0 ≤ ns ∧ 0 ≤ ne < 2 ^ 30 ∧ (pfn_ranges nid ≠ [] → ns < ne) ∧ (pfn_ranges nid = [] → ns = 0 ∧ ne = 0) ∧
  ∀ r, r ∈ pfn_ranges nid → ns ≤ r.1.1 ∧ r.1.2 ≤ ne.
Proof.
  pose proof (pfn_ranges_ok nid) as [Hin _]. unfold get_pfn_range_for_nid, ULONG_MAX.
  change (2 ^ 30) with 1073741824 in *. change (2 ^ 32 - 1) with 4294967295 in *.
  set (f := λ '(start_pfn, end_pfn) '(this_start_pfn, this_end_pfn, _), (Z.min start_pfn this_start_pfn, Z.max end_pfn this_end_pfn)).
  assert (∀ (rs : list (Z * Z * Z)) x y, (∀ r, r ∈ rs → 0 ≤ r.1.1 < r.1.2 ∧ r.1.2 < 1073741824) → 0 ≤ x → 0 ≤ y < 1073741824 →
    let '(p, q) := foldl f (x, y) rs in 0 ≤ p ≤ x ∧ y ≤ q < 1073741824 ∧ (∀ r, r ∈ rs → p ≤ r.1.1 ∧ r.1.2 ≤ q) ∧
      (p = x ∨ p < 1073741824) ∧ (rs = [] → p = x ∧ q = y) ∧ (rs ≠ [] → p < 1073741824)) as Hgen.
  { induction rs as [|[[s e] n] rs IH]; intros x y Hrs Hx Hy; cbn [foldl].
    { split_and!; first [lia | done | by intros r ?%not_elem_of_nil | by left]. }
    pose proof (Hrs (s, e, n) ltac:(left)) as Hr. simpl in Hr.
    specialize (IH (Z.min x s) (Z.max y e) ltac:(intros; apply Hrs; by right) ltac:(lia) ltac:(lia)). simpl.
    destruct (foldl f (Z.min x s, Z.max y e) rs) as [p q]. destruct IH as (I1 & I2 & I3 & I4 & _ & _).
    split_and!; try lia; try done. intros r [->|Hin']%elem_of_cons; [simpl; lia|auto]. }
  specialize (Hgen (pfn_ranges nid) 4294967295 0 Hin ltac:(lia) ltac:(lia)).
  destruct (foldl f (4294967295, 0) (pfn_ranges nid)) as [p q]. destruct Hgen as (G1 & G2 & G3 & G4 & G5 & G6).
  intros [= <- <-]. destruct (p =? 4294967295) eqn:Hp; bsimp.
  - split_and!; try lia; try done.
    + intros Hne. specialize (G6 Hne). lia.
    + intros He. by destruct (G5 He) as [_ ->].
    + intros r Hr. destruct (Hin r Hr), (G3 r Hr). lia.
  - split_and!; try lia; try done.
    + intros Hne. destruct (pfn_ranges nid) as [|r rs]; [done|]. destruct (G3 r ltac:(left)), (Hin r ltac:(left)). lia.
    + intros He. destruct (G5 He). lia.
Qed.

(** Holes of an interval. *)
Lemma absent_ok nid a c :
  0 ≤ a ≤ c → c < 2 ^ 30 → __absent_pages_in_range nid a c = c - a - pages_of (pfn_ranges nid) a c.
Proof.
  intros Ha Hc. change (2 ^ 30) with 1073741824 in Hc. unfold __absent_pages_in_range.
  pose proof (pages_of_le _ a c (pfn_ranges_ok nid) ltac:(lia)) as Hle. pose proof (pfn_ranges_ok nid) as [Hin _].
  rewrite (uwrap_small 32 (c - a)) by (widths; lia).
  assert (∀ (rs : list (Z * Z * Z)) n, (∀ r, r ∈ rs → 0 ≤ r.1.1 < r.1.2 ∧ r.1.2 < 2 ^ 30) → 0 ≤ n - pages_of rs a c → n < 4294967296 →
    foldl (λ nr_absent '(start_pfn, end_pfn, _), u32 (nr_absent - u32 (clamp_pfn end_pfn a c - clamp_pfn start_pfn a c))) n rs =
    n - pages_of rs a c) as Hgen; [|apply Hgen; [done|lia|lia]].
  induction rs as [|[[s e] m] rs IH]; intros n Hrs Hn Hlt; cbn [foldl]; [unfold pages_of, sumZ; simpl; lia|].
  pose proof (Hrs (s, e, m) ltac:(left)) as Hr. rewrite pages_of_cons in *. cbn [fst snd] in *. pose proof (pages_of_nonneg rs a c).
  assert (clamp_pfn e a c - clamp_pfn s a c = Z.max 0 (Z.min e c - Z.max s a)) as ->
    by (unfold clamp_pfn; repeat case_match; bsimp; lia).
  rewrite (uwrap_small 32 (Z.max _ _)) by (widths; lia). rewrite uwrap_small by (widths; lia).
  rewrite IH by (intros; (apply Hrs; by right) || lia). lia.
Qed.

(** ** The interval of a zone *)

Definition low b (t : nat) : Z := default 0 (lowest_possible_pfn b !! t).
Definition high b (t : nat) : Z := default 0 (highest_possible_pfn b !! t).
Definition movable_at b (nid : Z) : Z := default 0 (zone_movable_pfn b !! nid).

Definition clamp (x a c : Z) : Z := Z.min (Z.max x a) c.

(** The end of a zone: where the movable zone begins, if that is in it. *)
Definition cut b (nid : Z) (t : nat) : Z :=
  if movable_at b nid =? 0 then high b t else Z.max (low b t) (Z.min (high b t) (movable_at b nid)).

(** The interval as the code computes it; where an empty one lies is of no account. *)
Definition raw_range b (nid : Z) (t : nat) : Z * Z :=
  let '(ns, ne) := get_pfn_range_for_nid nid in
  if (t =? ZONE_MOVABLE)%nat then
    if movable_at b nid =? 0 then (0, 0) else (movable_at b nid, Z.min ne (high b (movable_zone b)))
  else (clamp ns (low b t) (cut b nid t), clamp ne (low b t) (cut b nid t)).

(** The types of zones follow each other, the movable one last. *)
Record bounds_ok b : Prop := {
  bo_last : ZONE_MOVABLE = top_zone;
  bo_some : (0 < top_zone)%nat;
  bo_order t : (t < top_zone)%nat → 0 ≤ low b t ≤ high b t ∧ high b t < 2 ^ 30;
  bo_next t : (S t < top_zone)%nat → low b (S t) = high b t;
  bo_movable : low b top_zone = 0 ∧ high b top_zone = 0
}.

(** The movable zone of the node begins in it, and in the highest zone. *)
Definition movable_fits b (nid : Z) : Prop :=
  let '(ns, ne) := get_pfn_range_for_nid nid in
  movable_at b nid = 0 ∨
  (0 < movable_at b nid ∧ ns ≤ movable_at b nid ≤ Z.min ne (high b (movable_zone b)) ∧ (movable_zone b < top_zone)%nat ∧
   high b (movable_zone b) = high b (top_zone - 1)).

Lemma raw_sizes_ok b nid t :
  bounds_ok b → movable_fits b nid → (t ≤ top_zone)%nat →
  let '(x, y) := raw_range b nid t in
  0 ≤ x ≤ y ∧ y < 2 ^ 30 ∧ zone_spanned_pages_in_node b nid t FromMap = y - x ∧
  zone_absent_pages_in_node b nid t FromMap = y - x - pages_of (pfn_ranges nid) x y.
Proof.
  intros Hb Hf Ht. unfold raw_range, movable_fits, zone_spanned_pages_in_node, zone_absent_pages_in_node in *.
  destruct (get_pfn_range_for_nid nid) as [ns ne] eqn:Hr. apply pfn_range_ok in Hr as (Hns & Hne & Hn1 & Hn2 & _).
  change (2 ^ 30) with 1073741824 in *.
  assert (ns ≤ ne) as Hnn.
  { destruct (pfn_ranges nid) as [|r rs]; [destruct (Hn2 eq_refl); lia|]. specialize (Hn1 ltac:(done)). lia. }
  unfold adjust_zone_range_for_zone_movable. fold (movable_at b nid) (low b t) (high b t) (high b (movable_zone b)).
  rewrite (bo_last b Hb) in *. destruct (Nat.eqb_spec t top_zone) as [->|Hne'].
  - destruct (bo_movable b Hb) as [Hl Hh]. rewrite Hl, Hh.
    destruct (movable_at b nid =? 0) eqn:Hmv; simpl negb; cbv iota; bsimp.
    + assert (clamp_pfn ns 0 0 = 0) as -> by (unfold clamp_pfn; repeat case_match; bsimp; lia).
      assert (clamp_pfn ne 0 0 = 0) as -> by (unfold clamp_pfn; repeat case_match; bsimp; lia).
      rewrite absent_ok by (change (2 ^ 30) with 1073741824; lia). split_and!; try lia.
      destruct ((0 <? ns) || (ne <? 0)) eqn:Hc; [lia|]. bsimp. rewrite uwrap_small by (widths; lia). lia.
    + destruct Hf as [?|(Hm0 & Hm & Hz & Hhi)]; [lia|]. destruct (bo_order b Hb _ Hz) as [? ?]. change (2 ^ 30) with 1073741824 in *.
      rewrite absent_ok by (change (2 ^ 30) with 1073741824; lia). split_and!; try lia.
      destruct ((_ <? ns) || (ne <? _)) eqn:Hc; bsimp; [apply orb_true_iff in Hc as [Hc|Hc]; bsimp; lia|].
      rewrite uwrap_small by (widths; lia). lia.
  - destruct (bo_order b Hb t ltac:(lia)) as [Hlo Hhi]. change (2 ^ 30) with 1073741824 in *. unfold cut, clamp.
    set (lo := low b t) in *. set (hi := high b t) in *. set (mv := movable_at b nid) in *.
    assert (mv = 0 ∨ 0 < mv) as Hmv' by lia. clear Hf Hb. clearbody lo hi mv.
    destruct (mv =? 0) eqn:Hmv; simpl negb; cbv iota; bsimp.
    + assert (clamp_pfn ns lo hi = Z.min (Z.max ns lo) hi) as -> by (unfold clamp_pfn; repeat case_match; bsimp; lia).
      assert (clamp_pfn ne lo hi = Z.min (Z.max ne lo) hi) as -> by (unfold clamp_pfn; repeat case_match; bsimp; lia).
      rewrite absent_ok by (change (2 ^ 30) with 1073741824; lia). split_and!; try lia.
      destruct ((hi <? ns) || (ne <? lo)) eqn:Hc; bsimp; [apply orb_true_iff in Hc as [Hc|Hc]; bsimp; lia|].
      rewrite uwrap_small by (widths; lia). lia.
    + assert (∀ x, clamp_pfn x lo hi = Z.min (Z.max x lo) hi) as Hcl by (intros; unfold clamp_pfn; repeat case_match; bsimp; lia).
      rewrite !Hcl. clear Hcl.
      split_and!; try lia.
      * destruct ((lo <? mv) && (mv <? hi)) eqn:Hc; [|destruct (mv <=? lo) eqn:Hc2];
          rewrite ?andb_false_iff in Hc; bsimp;
          (destruct ((_ <? ns) || (ne <? _)) eqn:Hd; bsimp; [apply orb_true_iff in Hd as [Hd|Hd]; bsimp; lia|]; rewrite uwrap_small by (widths; lia); lia).
      * destruct ((Z.min (Z.max ns lo) hi <? mv) && (mv <? Z.min (Z.max ne lo) hi)) eqn:Hc; [|destruct (mv <=? Z.min (Z.max ns lo) hi) eqn:Hc2];
          bsimp; rewrite absent_ok by (change (2 ^ 30) with 1073741824; lia).
        -- f_equal; [|f_equal]; lia.
        -- rewrite pages_of_empty. set (x := Z.min (Z.max ns lo) (Z.max lo (Z.min hi mv))). set (y := Z.min (Z.max ne lo) (Z.max lo (Z.min hi mv))).
           assert (y = x) as -> by (unfold x, y; lia). rewrite pages_of_empty. lia.
        -- apply andb_false_iff in Hc. f_equal; [|f_equal]; destruct Hc; bsimp; lia.
Qed.

(** Cutting a zone to the node and the node to the zone give the same interval, or an
    empty one. *)
Lemma clamp_swap lo c ns ne : lo ≤ c → ns ≤ ne →
  (clamp lo ns ne = clamp ns lo c ∧ clamp c ns ne = clamp ne lo c) ∨ (clamp ns lo c = clamp ne lo c ∧ clamp lo ns ne = clamp c ns ne).
Proof.
  intros Hc Hn. unfold clamp. destruct (decide (c ≤ ns)); [right; lia|]. destruct (decide (ne ≤ lo)); [right; lia|]. left. lia.
Qed.

Lemma clamp_le x y a c : x ≤ y → a ≤ c → clamp x a c ≤ clamp y a c ∧ a ≤ clamp x a c ∧ clamp y a c ≤ c.
Proof. unfold clamp. lia. Qed.

(** Where zone [t] begins and zone [t - 1] ends, before it is cut to the node: the zones
    are consecutive. *)
Definition edge b (nid : Z) (t : nat) : Z :=
  let lim p := if movable_at b nid =? 0 then p else Z.min p (movable_at b nid) in
  match t with
  | O => lim (low b 0)
  | S t' => if (t' =? top_zone)%nat then high b (top_zone - 1) else lim (high b t')
  end.

Definition zone_from b (nid : Z) (t : nat) : Z :=
  let '(ns, ne) := get_pfn_range_for_nid nid in clamp (edge b nid t) ns ne.

(** Zone [t] is the interval from [zone_from t] to [zone_from (S t)]. *)
Lemma zone_sizes_ok b nid t :
  bounds_ok b → movable_fits b nid → (t ≤ top_zone)%nat →
  let x := zone_from b nid t in let y := zone_from b nid (S t) in
  0 ≤ x ≤ y ∧ y < 2 ^ 30 ∧ zone_spanned_pages_in_node b nid t FromMap = y - x ∧
  zone_absent_pages_in_node b nid t FromMap = y - x - pages_of (pfn_ranges nid) x y.
Proof.
  intros Hb Hf Ht. pose proof (raw_sizes_ok b nid t Hb Hf Ht) as Hraw. unfold raw_range, zone_from, movable_fits in *. cbv zeta.
  destruct (get_pfn_range_for_nid nid) as [ns ne] eqn:Hr. apply pfn_range_ok in Hr as (Hns & Hne & Hn1 & Hn2 & _).
  assert (ns ≤ ne) as Hnn.
  { destruct (pfn_ranges nid) as [|r rs]; [destruct (Hn2 eq_refl); lia|]. specialize (Hn1 ltac:(done)). lia. }
  change (2 ^ 30) with 1073741824 in *. rewrite (bo_last b Hb) in *.
  assert (∀ x y x' y', 0 ≤ x ≤ y ∧ y < 1073741824 ∧ zone_spanned_pages_in_node b nid t FromMap = y - x ∧
    zone_absent_pages_in_node b nid t FromMap = y - x - pages_of (pfn_ranges nid) x y →
    0 ≤ x' ≤ y' → y' < 1073741824 → (x' = x ∧ y' = y) ∨ (x = y ∧ x' = y') →
    0 ≤ x' ≤ y' ∧ y' < 1073741824 ∧ zone_spanned_pages_in_node b nid t FromMap = y' - x' ∧
    zone_absent_pages_in_node b nid t FromMap = y' - x' - pages_of (pfn_ranges nid) x' y') as Hmove.
  { intros x y x' y' (? & ? & Hs & Ha) ? ? [[-> ->]|[-> ->]]; [done|]. rewrite Hs, Ha, !pages_of_empty. lia. }
  assert (edge b nid t = if movable_at b nid =? 0 then (if (t =? top_zone)%nat then high b (top_zone - 1) else low b t)
    else Z.min (if (t =? top_zone)%nat then high b (top_zone - 1) else low b t) (movable_at b nid)) as ->.
  { pose proof (bo_some b Hb). unfold edge. destruct t as [|t]; [by destruct (Nat.eqb_spec 0 top_zone); [lia|]|].
    destruct (Nat.eqb_spec t top_zone) as [->|Hne']; [lia|]. destruct (Nat.eqb_spec (S t) top_zone) as [<-|Hne''].
    - by replace (S t - 1)%nat with t by lia.
    - rewrite (bo_next b Hb t) by lia. done. }
  unfold edge. pose proof (bo_some b Hb) as Hsome.
  destruct (bo_order b Hb (top_zone - 1) ltac:(lia)) as [? ?]. change (2 ^ 30) with 1073741824 in *.
  destruct (Nat.eqb_spec t top_zone) as [->|Hne'].
  - destruct (movable_at b nid =? 0) eqn:Hmv; bsimp; (eapply Hmove; [exact Hraw|unfold clamp; lia|unfold clamp; lia|]).
    + right. done.
    + destruct Hf as [?|(? & ? & ? & Hh)]; [lia|]. rewrite Hh. left. unfold clamp. lia.
  - destruct (bo_order b Hb t ltac:(lia)) as [? ?]. change (2 ^ 30) with 1073741824 in *. unfold cut in Hraw.
    destruct (movable_at b nid =? 0) eqn:Hmv; bsimp.
    + pose proof (clamp_le (low b t) (high b t) ns ne ltac:(lia) Hnn). eapply Hmove; [exact Hraw|lia|lia|].
      apply clamp_swap; lia.
    + set (mv := movable_at b nid) in *. pose proof (clamp_le (Z.min (low b t) mv) (Z.min (high b t) mv) ns ne ltac:(lia) Hnn).
      eapply Hmove; [exact Hraw|lia|lia|]. destruct (decide (mv ≤ low b t)).
      * right. rewrite !Z.min_r, Z.max_l by lia. split; [unfold clamp; lia|done].
      * rewrite (Z.min_l (low b t)), Z.max_r by lia. apply clamp_swap; lia.
Qed.

(** ** Totals of a node *)

Lemma spanned_sum b nid : bounds_ok b → movable_fits b nid → ∀ k, (k ≤ S top_zone)%nat →
  foldl (λ n t, u32 (n + zone_spanned_pages_in_node b nid t FromMap)) 0 (seq 0 k) = zone_from b nid k - zone_from b nid 0 ∧
  zone_from b nid 0 ≤ zone_from b nid k.
Proof.
  intros Hb Hf. induction k as [|k IH]; intros Hk; [simpl; lia|]. destruct (IH ltac:(lia)) as [E Hle].
  rewrite seq_S, foldl_snoc, E, Nat.add_0_l. destruct (zone_sizes_ok b nid k Hb Hf ltac:(lia)) as (Hx & Hy & -> & _).
  destruct (zone_sizes_ok b nid 0 Hb Hf ltac:(lia)) as (Hx0 & _). change (2 ^ 30) with 1073741824 in *.
  rewrite uwrap_small by (widths; lia). lia.
Qed.

Lemma absent_sum b nid : bounds_ok b → movable_fits b nid → ∀ k n, (k ≤ S top_zone)%nat →
  zone_from b nid k - zone_from b nid 0 ≤ n < 2 ^ 32 →
  foldl (λ n t, u32 (n - zone_absent_pages_in_node b nid t FromMap)) n (seq 0 k) =
    n - (zone_from b nid k - zone_from b nid 0 - pages_of (pfn_ranges nid) (zone_from b nid 0) (zone_from b nid k)).
Proof.
  intros Hb Hf. induction k as [|k IH]; intros n Hk Hn.
  { simpl. rewrite pages_of_empty. lia. }
  destruct (zone_sizes_ok b nid k Hb Hf ltac:(lia)) as (Hx & Hy & _ & Ha). destruct (spanned_sum b nid Hb Hf k ltac:(lia)) as [_ Hle].
  rewrite seq_S, foldl_snoc, IH, Nat.add_0_l, Ha by lia.
  rewrite (pages_of_split (pfn_ranges nid) (zone_from b nid 0) (zone_from b nid k) (zone_from b nid (S k))) by lia.
  pose proof (pages_of_le _ _ _ (pfn_ranges_ok nid) Hle). pose proof (pages_of_le (pfn_ranges nid) (zone_from b nid k) (zone_from b nid (S k)) (pfn_ranges_ok nid) ltac:(lia)).
  pose proof (pages_of_nonneg (pfn_ranges nid) (zone_from b nid 0) (zone_from b nid k)).
  pose proof (pages_of_nonneg (pfn_ranges nid) (zone_from b nid k) (zone_from b nid (S k))).
  change (2 ^ 32) with 4294967296 in *. rewrite uwrap_small by (widths; lia). lia.
Qed.

(** The node as a whole: from its first page, all of its memory below the end of the
    highest zone. *)
Lemma node_whole b nid : bounds_ok b →
  let '(ns, ne) := get_pfn_range_for_nid nid in
  low b 0 ≤ ns → movable_at b nid = 0 ∨ ns ≤ movable_at b nid →
  zone_from b nid 0 = ns ∧ zone_from b nid (S top_zone) = clamp (high b (top_zone - 1)) ns ne ∧
  pages_of (pfn_ranges nid) ns (clamp (high b (top_zone - 1)) ns ne) = pages_of (pfn_ranges nid) 0 (high b (top_zone - 1)).
Proof.
  intros Hb. unfold zone_from. destruct (get_pfn_range_for_nid nid) as [ns ne] eqn:Hr. apply pfn_range_ok in Hr as (Hns & Hne & Hn1 & Hn2 & Hin).
  assert (ns ≤ ne) as Hnn.
  { destruct (pfn_ranges nid) as [|r rs]; [destruct (Hn2 eq_refl); lia|]. specialize (Hn1 ltac:(done)). lia. }
  intros Hlo Hmv. split_and!.
  - unfold edge, clamp. destruct (movable_at b nid =? 0) eqn:Hm; bsimp; lia.
  - unfold edge. by rewrite Nat.eqb_refl.
  - apply sumZ_ext. intros r Hr. specialize (Hin r Hr). pose proof (pfn_ranges_ok nid) as [Hok _]. specialize (Hok r Hr). unfold clamp. lia.
Qed.
End Spec.
