(* ===== verification/MemInit.v ===== *)
(** * Zones as the boot leaves them

    [free_area_init_node] gives every zone of the node its interval, its size and its
    memory, and an empty allocator: what [ZoneInitSpec.v] starts from. *)

From stdpp Require Import sorting.
From S2P Require Import Prelude KList Buddy BuddySpec Pcp PcpSpec ZoneData Zonelist ZoneInit ZoneInitSpec ZoneMarks MemMap MemMapSpec.

(** What is relied on of the accesses to [struct page] and of the configuration. *)
Class InitLaws `{BuddyConfig} `{BootEnv} : Prop := {
  il_mapcount : ∀ p, _mapcount (SetPageReserved (reset_page_mapcount p)) = -1;
  il_mark : PAGE_BUDDY_MAPCOUNT_VALUE ≠ -1 ∧ PAGE_BUDDY_MAPCOUNT_VALUE ≠ 0;
  il_order : 1 ≤ MAX_ORDER ≤ 30;
  il_blocks : 0 ≤ pageblock_order ≤ 29;
  il_bits : 1 ≤ NR_PAGEBLOCK_BITS ≤ pageblock_nr_pages
}.

Section Init.
Context {L : Type} `{KListLaws lhead L} `{BuddyConfig} `{ZoneEnv} `{NumaEnv} `{BootEnv} `{!BootLaws} `{!InitLaws}.
Implicit Types (b : boot L) (y : zone L) (i : zinfo L).

(** ** A zone without free pages *)

(** No descriptor is marked as the head of a free block. *)
Definition unmarked y : Prop := ∀ p, PageBuddy y p = false.

Record zone_fresh y : Prop := {
  zf_lists h : elems (lists y) h = [];
  zf_nr o : nr_free_of y o = 0;
  zf_pages : unmarked y;
  zf_types : types_ok y
}.

Lemma fresh_not_free y p o : zone_fresh y → ¬ free_at y p o.
Proof. intros Hf [mt Hin]. rewrite (zf_lists y Hf) in Hin. by apply not_elem_of_nil in Hin. Qed.

Lemma fresh_pcp y : zone_fresh y → pcp_pages y = [].
Proof. intros Hf. unfold pcp_pages. by rewrite !(zf_lists y Hf). Qed.

Lemma fresh_buddy y : zone_fresh y → buddy_inv y.
Proof.
  intros Hf. split; try (by intros; exfalso; eapply fresh_not_free).
  - split; [intros h; rewrite (zf_lists y Hf); apply NoDup_nil_2|]. intros n h h'. by rewrite (zf_lists y Hf), elem_of_nil.
  - intros p o mt. by rewrite (zf_lists y Hf), elem_of_nil.
  - intros p. by rewrite (zf_pages y Hf).
  - intros o. rewrite (zf_nr y Hf). symmetry.
    assert (blocks y o = 0) as -> by (unfold blocks; induction (seqZ 0 MIGRATE_TYPES) as [|mt l IH]; simpl; [done|by rewrite (zf_lists y Hf), IH]).
    by vm_compute.
Qed.

Lemma fresh_base y : zone_fresh y → zone_lock y = false → 0 ≤ spanned_pages y < 2 ^ 31 → zone_base y.
Proof.
  intros Hf Hl Hs. split; [by apply fresh_buddy|intros mt p; rewrite (zf_lists y Hf); by intros ?%not_elem_of_nil|done|done|apply Hf|].
  intros x [(p & o & Hp & _)|Hx]; [by destruct (fresh_not_free y p o Hf Hp)|]. rewrite (fresh_pcp y Hf) in Hx. by apply not_elem_of_nil in Hx.
Qed.

(** ** Lists and counters of a zone before it is set up *)

(** [free_area] has one list per order and migrate type; there is no other head in it. *)
Definition real_head (h : lhead) : Prop :=
  match h with
  | FreeList o t => (0 ≤ o < MAX_ORDER) ∧ (0 ≤ t < MIGRATE_TYPES)
  | PcpList _ => False
  end.

#[local] Instance real_head_dec h : Decision (real_head h).
Proof. destruct h; apply _. Defined.

(** The page set of the boot is empty.  The free lists and their counters may hold
    anything. *)
Record zone_raw y : Prop := {
  zr_heads h : ¬ real_head h → elems (lists y) h = [];
  zr_nr o : ¬ (0 ≤ o < MAX_ORDER) → nr_free_of y o = 0
}.

Lemma free_lists_inner o ts : ∀ y,
  returns (for_each ts (λ t, modify (λ z : zone L, z <| lists ::= INIT_LIST_HEAD (FreeList o t) |> <| nr_free ::= <[o := 0]> |>))) y
    (λ _ y', ∃ l n, y' = y <| lists := l |> <| nr_free := n |> ∧
      (∀ h, elems l h = if decide (h ∈ FreeList o <$> ts) then [] else elems (lists y) h) ∧
      (∀ o', n !! o' = if decide (o' = o ∧ ts ≠ []) then Some 0 else nr_free y !! o')).
Proof.
  induction ts as [|t ts IH]; intros y; cbn [for_each].
  { apply returns_ret. exists (lists y), (nr_free y). split_and!; [by destruct y| |].
    - intros h. rewrite decide_False; [done|]. apply not_elem_of_nil.
    - intros o'. by rewrite decide_False by naive_solver. }
  apply returns_bind. eapply returns_eq; [reflexivity|]. eapply returns_mono; [apply IH|].
  intros [] y' (l & n & -> & Hl & Hn). exists l, n. split_and!; [done| |].
  - intros h. rewrite Hl. simpl. rewrite elems_init. repeat case_decide; try done; set_solver.
  - intros o'. rewrite Hn. simpl. destruct (decide (o' = o)) as [->|Hne].
    + rewrite lookup_insert_eq. repeat case_decide; naive_solver.
    + rewrite lookup_insert_ne by auto. repeat case_decide; naive_solver.
Qed.

Lemma free_lists_outer os : ∀ y,
  returns (for_each os (λ order, for_each (seqZ 0 MIGRATE_TYPES) (λ t,
      modify (λ z : zone L, z <| lists ::= INIT_LIST_HEAD (FreeList order t) |> <| nr_free ::= <[order := 0]> |>)))) y
    (λ _ y', ∃ l n, y' = y <| lists := l |> <| nr_free := n |> ∧
      (∀ h, (∃ o t, h = FreeList o t ∧ o ∈ os ∧ 0 ≤ t < MIGRATE_TYPES) ∨ elems (lists y) h = [] → elems l h = []) ∧
      (∀ o, o ∈ os ∨ default 0 (nr_free y !! o) = 0 → default 0 (n !! o) = 0)).
Proof.
  induction os as [|o os IH]; intros y; cbn [for_each].
  { apply returns_ret. exists (lists y), (nr_free y). split_and!; [by destruct y| |].
    - intros h [(o & t & _ & Ho & _)|Hh]; [by apply not_elem_of_nil in Ho|done].
    - intros o [Ho|Ho]; [by apply not_elem_of_nil in Ho|done]. }
  apply returns_bind. eapply returns_mono; [apply free_lists_inner|]. intros [] y1 (l1 & n1 & -> & Hl1 & Hn1).
  eapply returns_mono; [apply IH|]. intros [] y2 (l & n & -> & Hl & Hn). simpl in Hl, Hn. exists l, n. split_and!; [done| |].
  - intros h Hh. apply Hl. rewrite Hl1. case_decide as Hd; [by right|]. destruct Hh as [(o' & t & -> & Ho & Ht)|Hh]; [|by right].
    left. exists o', t. split_and!; [done| |lia..]. apply elem_of_cons in Ho as [->|Ho]; [|done]. destruct Hd.
    apply list_elem_of_fmap. exists t. split; [done|]. apply elem_of_seqZ. lia.
  - intros o' Ho. apply Hn. rewrite Hn1. case_decide as Hd; [by right|]. rewrite elem_of_cons in Ho.
    destruct Ho as [[->|Ho]|Ho]; [|by left|by right]. destruct Hd. split; [done|]. intros Hnil. assert (0 ∈ seqZ 0 MIGRATE_TYPES) as H0'.
    { apply elem_of_seqZ. unfold MIGRATE_TYPES, MIGRATE_ISOLATE. destruct CONFIG_CMA; lia. }
    rewrite Hnil in H0'. by apply not_elem_of_nil in H0'.
Qed.

(** The lists are empty and the counters zero, whatever they were. *)
Lemma free_lists_ok y : zone_raw y →
  returns zone_init_free_lists y (λ _ y', ∃ l n, y' = y <| lists := l |> <| nr_free := n |> ∧
    (∀ h, elems (lists y') h = []) ∧ ∀ o, nr_free_of y' o = 0).
Proof.
  intros [Hh Hn]. eapply returns_mono; [apply free_lists_outer|]. intros [] y' (l & n & -> & Hl & Hnr). exists l, n. split_and!; [done| |].
  - intros h. apply Hl. destruct (decide (real_head h)) as [Hr|Hr]; [|right; by apply Hh]. left.
    destruct h as [o t|]; [|done]. destruct Hr as [Ho Ht]. exists o, t. rewrite elem_of_seqZ. split_and!; [done|lia..].
  - intros o. apply Hnr. rewrite elem_of_seqZ. destruct (decide (0 ≤ o < MAX_ORDER)); [left; lia|right; by apply Hn].
Qed.

(** ** The pages of a zone *)

(** Whether a page is set up, and how. *)
Definition is_there (nid p : Z) : bool := early_pfn_valid p && early_pfn_in_nid p nid.

Definition made_page nid (t : nat) (p : Z) (v : page) : page :=
  SetPageReserved (reset_page_mapcount (init_page_count (set_page_links v t nid p))).

Definition movable_mt : Z := if page_group_by_mobility_disabled then MIGRATE_UNMOVABLE else MIGRATE_MOVABLE.

(** What a page changes: its descriptor, and the type of its block. *)
Record paged nid (t : nat) (ps : list Z) (u : bool) y y' : Prop := {
  pg_rest : ∃ m bm, y' = y <| mem_map := m |> <| block_mt := bm |>;
  pg_there p : p ∈ ps → is_there nid p = true → page_at y' p = made_page nid t p (page_at y p);
  pg_other p : p ∉ ps ∨ is_there nid p = false → page_at y' p = page_at y p;
  pg_types : types_ok y → types_ok y';
  pg_kept k : block_mt y !! k = Some movable_mt → block_mt y' !! k = Some movable_mt;
  pg_block p : p ∈ ps → is_there nid p = true → Z.land p (pageblock_nr_pages - 1) = 0 →
    zone_start_pfn y ≤ p < u32 (zone_start_pfn y + spanned_pages y) →
    u = true ∧ block_mt y' !! (p / pageblock_nr_pages) = Some movable_mt
}.

Lemma paged_nil nid t u y : paged nid t [] u y y.
Proof.
  split; [exists (mem_map y), (block_mt y); by destruct y|..]; try done; by intros p ?%elem_of_nil.
Qed.

Lemma paged_app nid t ps qs u y y1 y' : (∀ p, p ∈ ps → p ∉ qs) → paged nid t ps u y y1 → paged nid t qs u y1 y' → paged nid t (ps ++ qs) u y y'.
Proof.
  intros Hd [(m & bm & R) T O Ty K B] [(m' & bm' & R') T' O' Ty' K' B']. split.
  - exists m', bm'. by rewrite R', R.
  - intros p [Hp|Hp]%elem_of_app Ht; [rewrite O' by (left; by apply Hd); by apply T|].
    rewrite T' by done. rewrite O; [done|]. left. intros Hp'. by apply (Hd p).
  - intros p Hp. rewrite O', O; [done|..]; destruct Hp as [Hp|Hp]; try (by right); left; set_solver.
  - auto.
  - auto.
  - intros p [Hp|Hp]%elem_of_app Ht Ha Hr; [|rewrite R in B'; by apply B'].
    destruct (B p) as [? Hb]; auto.
Qed.

(** It fails only if the map or the bitmap is missing. *)
Lemma memmap_page_ends mapped u nid t p y :
  ends (memmap_init_page mapped u true nid t p) y (λ e _, e = NullDeref ∧ (mapped = false ∨ u = false)) (λ _ y', paged nid t [p] u y y').
Proof.
  unfold memmap_init_page. simpl andb. destruct (is_there nid p) eqn:Ht; pose proof Ht as Ht'; unfold is_there in Ht'.
  2: { assert (paged nid t [p] u y y) as Hsame.
       { split; [exists (mem_map y), (block_mt y); by destruct y|..]; try done; intros q ->%list_elem_of_singleton; congruence. }
       destruct (early_pfn_valid p); [|by apply returns_ends, returns_ret]. simpl in Ht'. rewrite Ht'. simpl. by apply returns_ends, returns_ret. }
  apply andb_true_iff in Ht' as [-> ->]. simpl negb. cbv iota. apply ends_bind. destruct mapped; [|split; [done|by left]].
  set (y1 := y <| mem_map ::= <[p := made_page nid t p (page_at y p)]> |>).
  change (ends (if (zone_start_pfn y <=? p) && (p <? u32 (zone_start_pfn y + spanned_pages y)) && (Z.land p (pageblock_nr_pages - 1) =? 0)
    then if u then set_pageblock_migratetype p MIGRATE_MOVABLE else fail NullDeref else mret tt) y1
    (λ e _, e = NullDeref ∧ (true = false ∨ u = false)) (λ _ y', paged nid t [p] u y y')).
  assert (∀ q, page_at y1 q = if decide (q = p) then made_page nid t p (page_at y p) else page_at y q) as Hat.
  { intros q. unfold y1, page_at. simpl. case_decide as Hq; [subst; by rewrite lookup_insert_eq|by rewrite lookup_insert_ne by auto]. }
  destruct (_ && _) eqn:Hc.
  - destruct u; [|split; [done|by right]]. unfold ends, set_pageblock_migratetype, modify. cbv zeta. fold movable_mt. split.
    + eexists _, _. unfold y1. simpl. reflexivity.
    + intros q ->%list_elem_of_singleton _. change (page_at y1 p = made_page nid t p (page_at y p)). rewrite Hat. by rewrite decide_True.
    + intros q Hq. change (page_at y1 q = page_at y q). rewrite Hat. case_decide as Hqp; [|done]. subst q.
      destruct Hq as [Hq|Hq]; [|congruence]. destruct Hq. by apply list_elem_of_singleton.
    + intros Hty. apply (types_ok_set y1); [done|]. unfold movable_mt, MIGRATE_TYPES, MIGRATE_ISOLATE, MIGRATE_UNMOVABLE, MIGRATE_MOVABLE.
      destruct page_group_by_mobility_disabled, CONFIG_CMA; lia.
    + intros k Hk. simpl. destruct (decide (k = p / pageblock_nr_pages)) as [->|Hne]; [by rewrite lookup_insert_eq|by rewrite lookup_insert_ne by auto].
    + intros q ->%list_elem_of_singleton _ _ _. simpl. by rewrite lookup_insert_eq.
  - apply returns_ends, returns_ret. split.
    + exists (mem_map y1), (block_mt y). by destruct y.
    + intros q ->%list_elem_of_singleton _. rewrite Hat. by rewrite decide_True.
    + intros q Hq. rewrite Hat. case_decide as Hqp; [|done]. subst q.
      destruct Hq as [Hq|Hq]; [|congruence]. destruct Hq. by apply list_elem_of_singleton.
    + done.
    + done.
    + intros q ->%list_elem_of_singleton _ Ha Hr. apply andb_false_iff in Hc as [[Hc|Hc]%andb_false_iff|Hc]; bsimp; lia.
Qed.

Lemma paged_unmarked nid t ps u y y' : paged nid t ps u y y' → unmarked y → unmarked y'.
Proof.
  intros Hp Hu p. unfold PageBuddy in *. destruct (decide (p ∈ ps)), (is_there nid p) eqn:Ht.
  - rewrite (pg_there _ _ _ _ _ _ Hp) by done. unfold made_page. rewrite il_mapcount. apply Z.eqb_neq. destruct il_mark; lia.
  - rewrite (pg_other _ _ _ _ _ _ Hp) by auto. apply Hu.
  - rewrite (pg_other _ _ _ _ _ _ Hp) by auto. apply Hu.
  - rewrite (pg_other _ _ _ _ _ _ Hp) by auto. apply Hu.
Qed.

(** ** A zone of the machine *)

(** What the sizes are computed from, the totals of the nodes and their maps. *)
Definition fixed b := (lowest_possible_pfn b, highest_possible_pfn b, zone_movable_pfn b, movable_zone b, dma_reserve b,
  node_spanned_pages b, node_present_pages b, node_mem_map b).

(** Up to now only the zone [z] of [b0] has changed, to [i]. *)
Definition only_zone b0 b (z : zone_ref) i : Prop := fixed b = fixed b0 ∧ has_usemap b = has_usemap b0 ∧ ms b = put (ms b0) z i.

Lemma only_zone_lookup b0 b z i : only_zone b0 b z i → zones (ms b) !! z = Some i.
Proof. intros (_ & _ & ->). apply put_lookup. Qed.

Lemma in_ms_on_zone {A} (m : M (zone L) A) b0 b z i (Q : A → boot L → Prop) :
  only_zone b0 b z i →
  returns m (zz i) (λ a y, ∀ b', only_zone b0 b' z (i <| zz := y |>) → Q a b') → returns (in_ms (on_zone z m)) b Q.
Proof.
  intros Ho (a & y & Hm & HQ). pose proof (only_zone_lookup _ _ _ _ Ho) as Hz. unfold returns, in_ms, on_zone. rewrite Hz, Hm.
  eexists _, _. split; [reflexivity|]. apply HQ. destruct Ho as (Hf & Hu & Hs). split; [done|]. split; [done|]. simpl.
  fold (put (ms b) z (i <| zz := y |>)). by rewrite Hs, put_twice.
Qed.

Lemma in_ms_store b0 b z i g (Q : unit → boot L → Prop) :
  only_zone b0 b z i → (∀ b', only_zone b0 b' z (g i) → Q tt b') → returns (in_ms (store_zone z g)) b Q.
Proof.
  intros Ho HQ. pose proof (only_zone_lookup _ _ _ _ Ho) as Hz. unfold returns, in_ms. rewrite (store_zone_ok _ _ _ _ Hz).
  eexists _, _. split; [reflexivity|]. apply HQ. destruct Ho as (Hf & Hu & Hs). split; [done|]. split; [done|]. simpl.
  fold (put (ms b) z (g i)). by rewrite Hs, put_twice.
Qed.

(** The rest of the variables does not matter. *)
Lemma only_zone_other b0 b b' z i :
  fixed b' = fixed b → has_usemap b' = has_usemap b → ms b' = ms b → only_zone b0 b z i → only_zone b0 b' z i.
Proof. intros Hf Hu Hs (Hf0 & Hu0 & Hs0). split_and!; congruence. Qed.

Lemma only_zone_start b z i : zones (ms b) !! z = Some i → only_zone b b z i.
Proof. intros Hz. split_and!; [done|done|symmetry; by apply put_id]. Qed.

(** The table of wait queues always has a size. *)
Lemma double_until_ok pages : 0 ≤ pages < 2 ^ 31 → ∀ fuel k, 0 ≤ k ≤ 31 → Z.of_nat fuel + k = 33 → is_Some (double_until fuel (2 ^ k) pages).
Proof.
  intros Hp. induction fuel as [|fuel IH]; intros k Hk Hf; [lia|]. cbn [double_until].
  destruct (2 ^ k <? pages) eqn:Hc; [|by eexists]. bsimp.
  assert (k < 31) as Hk31.
  { destruct (decide (k < 31)); [done|]. assert (2 ^ 31 ≤ 2 ^ k) by (apply Z.pow_le_mono_r; lia). lia. }
  rewrite Z.shiftl_mul_pow2 by done. change (2 ^ 1) with 2.
  replace (2 ^ k * 2) with (2 ^ (k + 1)) by (rewrite Z.pow_add_r by lia; lia).
  rewrite uwrap_small by (split; [apply Z.pow_nonneg; lia|apply Z.pow_lt_mono_r; lia]).
  apply IH; lia.
Qed.

Lemma wait_table_size pages : 0 ≤ pages < 2 ^ 31 → is_Some (wait_table_hash_nr_entries pages).
Proof.
  intros Hp. unfold wait_table_hash_nr_entries. assert (0 ≤ pages / PAGES_PER_WAITQUEUE ≤ pages) as Hq.
  { unfold PAGES_PER_WAITQUEUE. split; [apply Z.div_pos; lia|apply Z.div_le_upper_bound; lia]. }
  destruct (double_until_ok (pages / PAGES_PER_WAITQUEUE) ltac:(lia) 33 0) as [size Hs]; [lia|lia|].
  change (2 ^ 0) with 1 in Hs. rewrite Hs. by eexists.
Qed.

(** The early allocator has refused something. *)
Definition refused nid (e : fault) : Prop := (e = BugOn ∨ e = NullDeref) ∧ ∃ size, alloc_bootmem nid size = false.

(** A zone gets its first page and its free lists. *)
Lemma init_empty_ends b0 b nid j i start size :
  only_zone b0 b (nid, j) i → zone_raw (zz i) → 0 ≤ size < 2 ^ 31 →
  returns (init_currently_empty_zone (nid, j) start size) b (λ ret b',
    (ret ≠ 0 ∧ ∃ n, alloc_bootmem nid n = false) ∨
    ret = 0 ∧ ∃ l n, let y := (zz i) <| zone_start_pfn := start |> <| lists := l |> <| nr_free := n |> in
      only_zone b0 b' (nid, j) (i <| zz := y |>) ∧ (∀ h, elems l h = []) ∧ ∀ o, nr_free_of y o = 0).
Proof.
  intros Ho Hf Hs. unfold init_currently_empty_zone, zone_wait_table_init. destruct (wait_table_size size Hs) as [w Hw].
  apply returns_bind, returns_bind. rewrite Hw. eapply returns_eq; [reflexivity|].
  apply returns_bind. eapply returns_eq; [reflexivity|]. apply returns_ret. simpl fst. destruct (alloc_bootmem nid _) eqn:Ha.
  2: { apply returns_ret. left. split; [done|by eexists]. }
  simpl negb. cbv iota. apply returns_bind. eapply returns_eq; [reflexivity|]. apply returns_bind.
  eapply (in_ms_on_zone _ b0); [eapply only_zone_other, Ho; done|]. eapply returns_eq; [reflexivity|]. intros b1 H1'.
  apply returns_bind. eapply (in_ms_on_zone _ b0); [exact H1'|]. eapply returns_mono; [apply free_lists_ok|].
  { destruct Hf as [F1 F2]. by split. }
  intros [] y' (l & n & -> & Hl & Hn) b2 H2'. apply returns_ret. right. split; [done|]. exists l, n. cbv zeta. split; [exact H2'|]. by split.
Qed.

Lemma in_ms_ends {A} (m : M (zone L) A) b0 b z i (E : fault → Prop) (Q : A → boot L → Prop) :
  only_zone b0 b z i →
  ends m (zz i) (λ e _, E e) (λ a y, ∀ b', only_zone b0 b' z (i <| zz := y |>) → Q a b') → ends (in_ms (on_zone z m)) b (λ e _, E e) Q.
Proof.
  intros Ho Hm. pose proof (only_zone_lookup _ _ _ _ Ho) as Hz. unfold ends, in_ms, on_zone in *. rewrite Hz. destruct (m (zz i)) as [a y|e y]; [|done].
  apply Hm. destruct Ho as (Hf & Hu & Hs). split; [done|]. split; [done|]. simpl.
  fold (put (ms b) z (i <| zz := y |>)). by rewrite Hs, put_twice.
Qed.

(** All pages of the zone. *)
Lemma memmap_zone_ends b0 nid j mapped u ps : NoDup ps → ∀ b i,
  only_zone b0 b (nid, j) i →
  ends (for_each ps (λ pfn, in_ms (on_zone (nid, j) (memmap_init_page mapped u true nid j pfn)))) b
    (λ e _, e = NullDeref ∧ (mapped = false ∨ u = false))
    (λ _ b', ∃ y, only_zone b0 b' (nid, j) (i <| zz := y |>) ∧ paged nid j ps u (zz i) y).
Proof.
  induction 1 as [|p ps Hp Hnd IH]; intros b i Ho; cbn [for_each].
  { apply returns_ends, returns_ret. exists (zz i). split; [by destruct i|apply paged_nil]. }
  apply ends_bind. eapply (in_ms_ends _ b0); [exact Ho|]. eapply ends_mono; [apply memmap_page_ends|].
  intros [] y1 Hy1 b1 H1'. eapply ends_mono; [by apply IH|]. intros [] b2 (y & H2' & Hy).
  exists y. split; [exact H2'|]. apply (paged_app nid j [p] ps u (zz i) y1 y); [|done|exact Hy].
  by intros q ->%list_elem_of_singleton.
Qed.

(** The bitmap has a size. *)
Lemma roundup_small (x y : Z) : 0 ≤ x → 1 ≤ y → x + y ≤ 2 ^ 32 → roundup x y = (x + (y - 1)) / y * y ∧ x ≤ roundup x y ≤ x + (y - 1).
Proof.
  intros Hx Hy Hs. change (2 ^ 32) with 4294967296 in Hs. unfold roundup. rewrite (uwrap_small 32 (x + _)) by (widths; lia).
  pose proof (Z.div_mod (x + (y - 1)) y ltac:(lia)). pose proof (Z.mod_pos_bound (x + (y - 1)) y ltac:(lia)).
  rewrite (uwrap_small 32) by (widths; nia). split; [done|]. nia.
Qed.

Lemma usemap_positive size : 0 < size < 2 ^ 30 → usemap_size size ≠ 0.
Proof.
  intros Hs. destruct il_bits as [Hb1 Hb2], il_blocks as [Ho1 Ho2]. unfold usemap_size.
  assert (pageblock_nr_pages = 2 ^ pageblock_order) as HP by (unfold pageblock_nr_pages; rewrite Z.shiftl_mul_pow2; lia).
  assert (pageblock_nr_pages ≤ 2 ^ 29) as HP' by (rewrite HP; apply Z.pow_le_mono_r; lia).
  change (2 ^ 30) with 1073741824 in Hs. change (2 ^ 29) with 536870912 in HP'. set (P := pageblock_nr_pages) in *.
  destruct (roundup_small size P) as [-> Hr]; [lia|lia|change (2 ^ 32) with 4294967296; lia|].
  rewrite Z.shiftr_div_pow2, <- HP, Z.div_mul by lia. set (q := (size + (P - 1)) / P).
  assert (1 ≤ q) as Hq by (apply Z.div_le_lower_bound; lia). assert (q * P ≤ size + (P - 1)) as Hq' by (pose proof (Z.mul_div_le (size + (P - 1)) P); lia).
  rewrite (uwrap_small 32 (q * _)) by (widths; nia).
  destruct (roundup_small (q * NR_PAGEBLOCK_BITS) (8 * 4)) as [-> Hr']; [nia|lia|change (2 ^ 32) with 4294967296; nia|].
  assert (1 ≤ (q * NR_PAGEBLOCK_BITS + (8 * 4 - 1)) / (8 * 4)) by (apply Z.div_le_lower_bound; nia).
  set (w := _ / (8 * 4)) in *. replace (w * (8 * 4)) with (w * 4 * 8) by lia. rewrite Z.div_mul; lia.
Qed.

(** The bitmap: zero-filled, or refused. *)
Lemma usemap_ok b nid j i size : zones (ms b) !! (nid, j) = Some i → 0 < size < 2 ^ 30 →
  returns (setup_usemap (nid, j) size) b (λ _ b', ∃ bm, let i' := i <| zz := (zz i) <| block_mt := bm |> |> in
    fixed b' = fixed b ∧ ms b' = put (ms b) (nid, j) i' ∧
    if bool_decide ((nid, j) ∈ has_usemap b') then bm = ∅ else alloc_bootmem nid (usemap_size size) = false).
Proof.
  intros Hz Hs. unfold setup_usemap. cbv zeta. rewrite (proj2 (Z.eqb_neq _ _) (usemap_positive size Hs)). simpl fst. simpl andb.
  destruct (alloc_bootmem nid _) eqn:Ha.
  - apply returns_bind. eapply returns_eq; [reflexivity|]. set (b1 := b <| has_usemap ::= _ |>).
    eapply (in_ms_on_zone _ b1); [by apply only_zone_start|]. eapply returns_eq; [reflexivity|]. intros b2 (Hf & Hu & Hms).
    exists ∅. cbv zeta. split; [done|]. split; [done|]. rewrite bool_decide_true; [done|]. rewrite Hu. simpl. set_solver.
  - eapply returns_eq; [reflexivity|]. exists (block_mt (zz i)). split; [done|]. split.
    + simpl. symmetry. replace (i <| zz := _ |>) with i by (destruct i as [[]]; done). by apply put_id.
    + rewrite bool_decide_false; [done|]. simpl. set_solver.
Qed.

(** What [init_zone] leaves of a zone that was [i0]. *)
Record zone_made b nid (j : nat) (start : Z) i0 i : Prop := {
  zm_span : spanned_pages (zz i) = zone_spanned_pages_in_node b nid j FromMap;
  zm_present : present_pages i =
    realsize_of b j (zone_spanned_pages_in_node b nid j FromMap) (zone_absent_pages_in_node b nid j FromMap);
  zm_start : spanned_pages (zz i) ≠ 0 → zone_start_pfn (zz i) = start;
  zm_pages p : start ≤ p < start + spanned_pages (zz i) → is_there nid p = true →
    page_at (zz i) p = made_page nid j p (page_at (zz i0) p);
  zm_blocks p : start ≤ p < start + spanned_pages (zz i) → is_there nid p = true → Z.land p (pageblock_nr_pages - 1) = 0 →
    get_pageblock_migratetype (zz i) p = movable_mt;
  zm_base : unmarked (zz i0) → spanned_pages (zz i) ≠ 0 → alloc_bootmem nid (usemap_size (spanned_pages (zz i))) = true →
    zone_base (zz i) ∧ ∀ h, elems (lists (zz i)) h = []
}.

Lemma fixed_sizes b b' nid j : fixed b' = fixed b →
  zone_spanned_pages_in_node b' nid j FromMap = zone_spanned_pages_in_node b nid j FromMap ∧
  zone_absent_pages_in_node b' nid j FromMap = zone_absent_pages_in_node b nid j FromMap ∧
  ∀ size absent, realsize_of b' j size absent = realsize_of b j size absent.
Proof.
  intros [= E1 E2 E3 E4 E5 _ _ _]. unfold zone_spanned_pages_in_node, zone_absent_pages_in_node, adjust_zone_range_for_zone_movable, realsize_of.
  by rewrite E1, E2, E3, E4, E5.
Qed.

Lemma numa_pages_ok b0 b z i real (Q : unit → boot L → Prop) :
  only_zone b0 b z i →
  (∀ b' u v, only_zone b0 b' z (i <| min_unmapped_pages := u |> <| min_slab_pages := v |>) → Q tt b') →
  returns (if CONFIG_NUMA then in_ms (s ← get; store_zone z (λ i,
         i <| min_unmapped_pages := u32 (real * u32 (sysctl_min_unmapped_ratio s)) / 100 |>
           <| min_slab_pages := u32 (real * u32 (sysctl_min_slab_ratio s)) / 100 |>)) else mret tt) b Q.
Proof.
  intros Ho HQ. destruct CONFIG_NUMA.
  - change (returns (in_ms (store_zone z (λ i,
         i <| min_unmapped_pages := u32 (real * u32 (sysctl_min_unmapped_ratio (ms b))) / 100 |>
           <| min_slab_pages := u32 (real * u32 (sysctl_min_slab_ratio (ms b))) / 100 |>))) b Q).
    eapply (in_ms_store b0); [exact Ho|]. intros b2 H2'. by eapply HQ.
  - apply returns_ret. apply (HQ b (min_unmapped_pages i) (min_slab_pages i)). by destruct i.
Qed.

Lemma pcp_init_ok b0 b z i (Q : unit → boot L → Prop) :
  only_zone b0 b z i →
  (∀ b' c h bt, only_zone b0 b' z (i <| zz := (zz i) <| pcp_count := c |> <| pcp_high := h |> <| pcp_batch := bt |> |>) → Q tt b') →
  returns (in_ms (zone_pcp_init z)) b Q.
Proof.
  intros Ho HQ.
  assert (∃ c h bt, zone_pcp_init z (ms b) = on_zone z (modify (λ y, y <| pcp_count := c |> <| pcp_high := h |> <| pcp_batch := bt |>)) (ms b))
    as (c & h & bt & Hpcp).
  { unfold zone_pcp_init, mbind, M_bind, get. destruct (boot_pageset (ms b)) as [[c h] bt]. by exists c, h, bt. }
  assert (returns (in_ms (on_zone z (modify (λ y, y <| pcp_count := c |> <| pcp_high := h |> <| pcp_batch := bt |>)))) b Q) as Hp.
  { eapply (in_ms_on_zone _ b0); [exact Ho|]. eapply returns_eq; [reflexivity|]. intros b4 H4'. by eapply HQ. }
  unfold returns, in_ms in *. by rewrite Hpcp.
Qed.

(** The part for zones that have a size. *)
Lemma init_nonempty_ends b nid j i start size :
  zones (ms b) !! (nid, j) = Some i → zone_raw (zz i) → zone_lock (zz i) = false → spanned_pages (zz i) = size →
  (node_mem_map b !! nid = Some false → ∃ n, alloc_bootmem nid n = false) → is_Some (node_mem_map b !! nid) →
  0 < size < 2 ^ 30 → 0 ≤ start < 2 ^ 30 →
  ends (_ ← setup_usemap (nid, j) size;
        ret ← init_currently_empty_zone (nid, j) start size;
        if negb (ret =? 0) then fail BugOn
        else _ ← memmap_init_zone true size nid j start; mret (u32 (start + size))) b
    (λ e _, refused nid e)
    (λ next b', next = start + size ∧ ∃ y, fixed b' = fixed b ∧ ms b' = put (ms b) (nid, j) (i <| zz := y |>) ∧
      spanned_pages y = size ∧ zone_start_pfn y = start ∧
      (∀ p, start ≤ p < start + size → is_there nid p = true → page_at y p = made_page nid j p (page_at (zz i) p)) ∧
      (∀ p, start ≤ p < start + size → is_there nid p = true → Z.land p (pageblock_nr_pages - 1) = 0 →
        get_pageblock_migratetype y p = movable_mt) ∧
      (unmarked (zz i) → alloc_bootmem nid (usemap_size size) = true → zone_base y ∧ ∀ h, elems (lists y) h = [])).
Proof.
  intros Hz Hraw Hlk Hsp Hmap [mapped Hm] Hs Hst. change (2 ^ 30) with 1073741824 in *.
  apply ends_bind, returns_ends. eapply returns_mono; [apply usemap_ok; [exact Hz|change (2 ^ 30) with 1073741824; lia]|].
  cbv zeta. intros [] b1 (bm & Hf1 & Hms1 & Hbm). set (i1 := i <| zz := (zz i) <| block_mt := bm |> |>) in *.
  assert (zones (ms b1) !! (nid, j) = Some i1) as Hz1 by (rewrite Hms1; apply put_lookup).
  apply ends_bind, returns_ends. eapply returns_mono; [apply (init_empty_ends b1 b1 nid j i1 start size)|].
  { by apply only_zone_start. }
  { destruct Hraw as [F1 F2]. by split. }
  { change (2 ^ 31) with 2147483648. lia. }
  intros ret b2 [[Hret Hn]|(-> & l & n & Ho2 & Hl & Hnr)].
  { rewrite (proj2 (Z.eqb_neq ret 0) Hret). simpl. split; [by left|done]. }
  simpl negb. cbv iota. set (y2 := (zz i1) <| zone_start_pfn := start |> <| lists := l |> <| nr_free := n |>) in *.
  destruct Ho2 as (Hf2 & Hu2 & Hms2). unfold memmap_init_zone. apply ends_bind, ends_bind.
  rewrite (uwrap_small 32 (start + size)) by (widths; lia). replace (start + size - start) with size by lia.
  apply returns_ends. eapply returns_eq; [reflexivity|]. apply ends_bind, returns_ends. eapply returns_eq; [reflexivity|]. cbv beta zeta.
  match goal with |- context [default false ?x] => assert (x = Some mapped) as -> end.
  { change (node_mem_map b2 !! nid = Some mapped). assert (node_mem_map b2 = node_mem_map b) as -> by (rewrite Hf1 in Hf2; by injection Hf2). done. }
  simpl default. match goal with |- context [bool_decide ?x] => set (u := bool_decide x) in * end.
  assert (u = bool_decide ((nid, j) ∈ has_usemap b1)) as Hu by (unfold u; simpl; by rewrite Hu2). rewrite <- Hu in Hbm. clearbody u.
  match goal with |- ends _ ?s _ _ => pose proof (memmap_zone_ends b1 nid j mapped u (seqZ start size) (NoDup_seqZ start size) s (i1 <| zz := y2 |>)) as Hgo end.
  match type of Hgo with ?P → _ => assert P as HP by (split_and!; [exact Hf2|exact Hu2|exact Hms2]) end. specialize (Hgo HP).
  unfold ends in Hgo |- *. match goal with |- context [for_each ?x ?y ?z] => destruct (for_each x y z) as [[] b3|e b3] end.
  2: { destruct Hgo as [-> Hwhy]. split; [by right|]. destruct Hwhy as [->| ->]; [by apply Hmap|by eexists]. }
  destruct Hgo as (y & (Hf3 & _ & Hms3) & Hpg). simpl zz in Hpg. split; [done|]. exists y.
  destruct (pg_rest _ _ _ _ _ _ Hpg) as (m & bm' & Hy).
  split; [congruence|]. split; [rewrite Hms3, Hms1, put_twice; by f_equal|].
  split; [by rewrite Hy|]. split; [by rewrite Hy|].
  assert (∀ p, start ≤ p < start + size → p ∈ seqZ start size) as Hin by (intros p Hp; apply elem_of_seqZ; lia).
  split; [intros p Hp Ht; exact (pg_there _ _ _ _ _ _ Hpg p (Hin p Hp) Ht)|].
  split.
  { intros p Hp Ht Ha. destruct (pg_block _ _ _ _ _ _ Hpg p (Hin p Hp) Ht Ha) as [_ Hb].
    - unfold y2. simpl. rewrite Hsp, (uwrap_small 32) by (widths; lia). lia.
    - unfold get_pageblock_migratetype. by rewrite Hb. }
  intros Hun Hal. assert (zone_fresh y) as Hfr.
  { assert (bm = ∅) as -> by (destruct u; congruence). split.
    - intros h. rewrite Hy. apply Hl.
    - intros o. specialize (Hnr o). unfold nr_free_of in *. by rewrite Hy.
    - apply (paged_unmarked _ _ _ _ _ _ Hpg). exact Hun.
    - apply (pg_types _ _ _ _ _ _ Hpg). intros p. change (0 ≤ MIGRATE_UNMOVABLE < MIGRATE_TYPES).
      unfold MIGRATE_TYPES, MIGRATE_ISOLATE, MIGRATE_UNMOVABLE. destruct CONFIG_CMA; lia. }
  split; [|apply Hfr]. apply fresh_base; [done|by rewrite Hy|]. rewrite Hy. unfold y2. simpl. rewrite Hsp. change (2 ^ 31) with 2147483648. lia.
Qed.

Lemma init_zone_ends b nid j i start :
  zones (ms b) !! (nid, j) = Some i → zone_raw (zz i) →
  (node_mem_map b !! nid = Some false → ∃ n, alloc_bootmem nid n = false) →
  (zone_spanned_pages_in_node b nid j FromMap ≠ 0 → is_Some (node_mem_map b !! nid)) →
  0 ≤ zone_spanned_pages_in_node b nid j FromMap < 2 ^ 30 → 0 ≤ start < 2 ^ 30 →
  ends (init_zone nid FromMap j start) b (λ e _, refused nid e) (λ next b', next = start + zone_spanned_pages_in_node b nid j FromMap ∧
    ∃ i', fixed b' = fixed b ∧ ms b' = put (ms b) (nid, j) i' ∧ zone_made b nid j start i i').
Proof.
  intros Hz Hraw Hmap Hm Hs Hst. set (size := zone_spanned_pages_in_node b nid j FromMap) in *.
  unfold init_zone. apply ends_bind, returns_ends. eapply returns_eq; [reflexivity|]. cbv beta. fold size.
  set (real := realsize_of b j size _). apply ends_bind, returns_ends. eapply returns_eq; [reflexivity|].
  apply ends_bind, returns_ends. eapply (in_ms_store b); [eapply only_zone_other, only_zone_start; done|].
  cbv beta zeta. set (i1 := (i <| zz ::= _ |>) <| present_pages := real |>). intros b1 H1'.
  apply ends_bind, returns_ends. eapply (numa_pages_ok b); [exact H1'|]. intros b2 u v H2'. set (i2 := i1 <| min_unmapped_pages := u |> <| min_slab_pages := v |>) in *.
  apply ends_bind, returns_ends. eapply (in_ms_on_zone _ b); [exact H2'|]. eapply returns_eq; [reflexivity|]. intros b3 H3'.
  apply ends_bind, returns_ends.
  eapply (pcp_init_ok b); [exact H3'|]. intros b4 c h bt H4'.
  apply ends_bind, returns_ends. eapply (in_ms_on_zone _ b); [exact H4'|]. eapply returns_eq; [reflexivity|]. intros b5 H5'.
  match type of H5' with only_zone _ _ _ ?x => set (i5 := x) in * end.
  assert (zone_raw (zz i5)) as Hraw5 by (by destruct Hraw as [F1 F2]; split).
  assert (unmarked (zz i) → unmarked (zz i5)) as Hun5 by done.
  assert (∀ p, page_at (zz i5) p = page_at (zz i) p) as Hat by done.
  assert (spanned_pages (zz i5) = size) as Hsp by reflexivity.
  assert (present_pages i5 = real) as Hpr by reflexivity.
  assert (zone_lock (zz i5) = false) as Hlk by reflexivity.
  clearbody i5. clear H1' H2' H3' H4'. pose proof (only_zone_lookup _ _ _ _ H5') as Hz5. destruct H5' as (Hf5 & Hu5 & Hms5).
  destruct (size =? 0) eqn:Hs0; bsimp.
  { apply returns_ends, returns_ret. split; [lia|]. exists i5. split; [done|]. split; [done|].
    split; [done|done|congruence|intros p; lia|intros p; lia|intros _; congruence]. }
  assert (node_mem_map b5 = node_mem_map b) as Hnm by (by injection Hf5).
  eapply ends_mono; [apply (init_nonempty_ends b5 nid j i5 start size Hz5 Hraw5 Hlk Hsp); [by rewrite Hnm|rewrite Hnm; by apply Hm|lia|lia]|].
  intros next b6 (-> & y & Hf6 & Hms6 & E1 & E2 & E3 & E4 & E5). split; [done|]. exists (i5 <| zz := y |>).
  split; [congruence|]. split; [rewrite Hms6, Hms5; apply put_twice|].
  split; simpl; rewrite ?E1; [done|done|done|intros p Hp Ht; rewrite E3 by done; by rewrite Hat|done|auto].
Qed.

Lemma fixed_from b b' nid t : fixed b' = fixed b → zone_from b' nid t = zone_from b nid t.
Proof. intros [= E1 E2 E3 E4 E5 _ _ _]. unfold zone_from, edge, low, high, movable_at. by rewrite E1, E2, E3. Qed.

(** ** All zones of a node *)

(** The zones are in order. *)
Lemma zone_from_mono b nid : bounds_ok b → movable_fits b nid → ∀ u t, (t ≤ u ≤ S top_zone)%nat → zone_from b nid t ≤ zone_from b nid u.
Proof.
  intros Hb Hf. induction u as [|u IH]; intros t Ht; [by assert (t = 0%nat) as -> by lia|].
  destruct (decide (t = S u)) as [->|Hne]; [done|]. destruct (zone_sizes_ok b nid u Hb Hf ltac:(lia)) as (Hx & _).
  specialize (IH t ltac:(lia)). lia.
Qed.

Lemma zone_from_span b nid t : bounds_ok b → movable_fits b nid → (t ≤ top_zone)%nat →
  zone_from b nid 0 ≤ zone_from b nid t ≤ zone_from b nid (S t) ∧ zone_from b nid (S t) ≤ zone_from b nid (S top_zone).
Proof.
  intros Hb Hf Ht. split_and!; apply zone_from_mono; auto; lia.
Qed.

Lemma init_zones_ends b0 nid : bounds_ok b0 → movable_fits b0 nid →
  (node_mem_map b0 !! nid = Some false → ∃ n, alloc_bootmem nid n = false) →
  (zone_from b0 nid (S top_zone) ≠ zone_from b0 nid 0 → is_Some (node_mem_map b0 !! nid)) → ∀ n t b,
  (t + n = S top_zone)%nat → fixed b = fixed b0 →
  (∀ u, (t ≤ u ≤ top_zone)%nat → ∃ i, zones (ms b) !! (nid, u) = Some i ∧ zone_raw (zz i)) →
  ends (init_zones nid FromMap (seq t n) (zone_from b0 nid t)) b (λ e _, refused nid e) (λ _ b', fixed b' = fixed b0 ∧
    (∀ u i0, (t ≤ u ≤ top_zone)%nat → zones (ms b) !! (nid, u) = Some i0 →
      ∃ i, zones (ms b') !! (nid, u) = Some i ∧ zone_made b0 nid u (zone_from b0 nid u) i0 i) ∧
    ∀ z, z.1 ≠ nid ∨ (z.2 < t)%nat → zones (ms b') !! z = zones (ms b) !! z).
Proof.
  intros Hb Hf Hmap Hm. induction n as [|n IH]; intros t b Ht Hfx Hz; cbn [seq init_zones].
  { apply returns_ends, returns_ret. split_and!; [done|lia|done]. }
  destruct (Hz t ltac:(lia)) as (i & Hi & Hraw). destruct (zone_sizes_ok b0 nid t Hb Hf ltac:(lia)) as (Hx & Hy & Hsp & Hab).
  destruct (fixed_sizes b0 b nid t Hfx) as (F1 & F2 & F3). apply ends_bind.
  assert (node_mem_map b = node_mem_map b0) as Hnm by (by injection Hfx).
  eapply ends_mono; [eapply (init_zone_ends b nid t i); [done|done|by rewrite Hnm| |rewrite F1, Hsp; lia|lia]|].
  { rewrite F1, Hsp, Hnm. intros Hne. apply Hm. pose proof (zone_from_span b0 nid t Hb Hf ltac:(lia)). lia. }
  intros next b1 (-> & i1 & Ho1 & Ho2 & Hmd). rewrite F1, Hsp. replace (zone_from b0 nid t + _) with (zone_from b0 nid (S t)) by lia.
  assert (∀ z, z ≠ (nid, t) → zones (ms b1) !! z = zones (ms b) !! z) as Hne.
  { intros z Hne. rewrite Ho2. unfold put. simpl. by rewrite lookup_insert_ne by auto. }
  eapply ends_mono; [apply (IH (S t) b1); [lia|congruence|]|].
  { intros u Hu. rewrite Hne by (intros [= ->]; lia). apply Hz. lia. }
  intros [] b2 (Hfx2 & Hz2 & Hne2). split_and!; [done| |].
  - intros u i0 Hu Hi0. destruct (decide (u = t)) as [->|Hut]; [|apply Hz2; [lia|rewrite Hne; [done|by intros [= ->]]]].
    assert (i0 = i) as -> by congruence.
    exists i1. split; [rewrite Hne2 by (simpl; lia); rewrite Ho2; apply put_lookup|].
    destruct Hmd as [M1 M2 M3 M4 M5 M6]. split; [by rewrite M1|by rewrite M2, F1, F2, F3|done|done|done|done].
  - intros z Hzz. rewrite Hne2, Hne; [done| |by destruct Hzz; [left|right; lia]].
    intros ->. simpl in Hzz. destruct Hzz; [done|lia].
Qed.

Lemma min_pfn_ok nid : find_min_pfn_for_node nid = (get_pfn_range_for_nid nid).1.
Proof.
  unfold find_min_pfn_for_node, get_pfn_range_for_nid.
  assert (∀ (rs : list (Z * Z * Z)) (x c : Z), foldl (λ min_pfn '(start_pfn, _, _), Z.min min_pfn start_pfn) x rs =
    (foldl (λ '(start_pfn, end_pfn) '(this_start_pfn, this_end_pfn, _),
      (Z.min start_pfn this_start_pfn, Z.max end_pfn this_end_pfn)) (x, c) rs : Z * Z).1) as Hgen.
  { induction rs as [|[[s e] m] rs IH]; intros x c; [done|]. cbn [foldl]. by rewrite (IH _ (Z.max c e)). }
  rewrite (Hgen _ _ 0). by destruct (foldl _ (ULONG_MAX, 0) _).
Qed.

(** Pages in use are never more than there are. *)
Lemma realsize_bounds b j size pages :
  0 ≤ dma_reserve b → 0 ≤ pages ≤ size → size < 2 ^ 30 → 0 ≤ realsize_of b j size (size - pages) ≤ pages.
Proof.
  intros Hd Hp Hs. change (2 ^ 30) with 1073741824 in Hs. unfold realsize_of. replace (size - (size - pages)) with pages by lia.
  rewrite (uwrap_small 32 pages) by (widths; lia). set (m := Z.shiftr _ _).
  assert (0 ≤ m) as Hm.
  { unfold m, PAGE_ALIGN. rewrite Z.shiftr_nonneg, Z.land_nonneg. left. apply (uwrap_range 32 ltac:(lia)). }
  clearbody m. cbv zeta. destruct (m <=? pages) eqn:Hc; bsimp; destruct (_ && _) eqn:Hc2; bsimp; lia.
Qed.

(** The totals of a node. *)
Lemma node_totals_ok b nid : bounds_ok b → movable_fits b nid →
  returns (calculate_node_totalpages nid FromMap) b (λ _ b', b' =
    b <| node_spanned_pages ::= <[nid := zone_from b nid (S top_zone) - zone_from b nid 0]> |>
      <| node_present_pages ::= <[nid := pages_of (pfn_ranges nid) (zone_from b nid 0) (zone_from b nid (S top_zone))]> |>).
Proof.
  intros Hb Hf. unfold calculate_node_totalpages. apply returns_bind. eapply returns_eq; [reflexivity|].
  cbv beta zeta. apply returns_bind. eapply returns_eq; [reflexivity|]. eapply returns_eq; [reflexivity|]. unfold zone_types.
  destruct (spanned_sum b nid Hb Hf (S top_zone) ltac:(lia)) as [-> Hle].
  destruct (zone_sizes_ok b nid top_zone Hb Hf ltac:(lia)) as (_ & Hy & _). destruct (zone_sizes_ok b nid 0 Hb Hf ltac:(lia)) as (Hx & _).
  rewrite (absent_sum b nid Hb Hf (S top_zone)) by (change (2 ^ 30) with 1073741824 in *; change (2 ^ 32) with 4294967296; lia).
  set (p := pages_of _ _ _). set (n := zone_from b nid (S top_zone) - zone_from b nid 0). by replace (n - (n - p)) with p by lia.
Qed.

(** ** The map of the node *)

Lemma zeroed_lookup start n m p :
  zeroed start n m !! p = if decide (start ≤ p < start + n) then Some zero_page else m !! p.
Proof.
  unfold zeroed. assert (∀ l : list Z, foldr (λ p, <[p := zero_page]>) m l !! p = if decide (p ∈ l) then Some zero_page else m !! p) as Hl.
  { induction l as [|q l IH]; [by rewrite decide_False by apply not_elem_of_nil|]. cbn [foldr].
    destruct (decide (p = q)) as [->|Hne]; [rewrite lookup_insert_eq, decide_True; [done|left]|].
    rewrite lookup_insert_ne, IH by auto. repeat case_decide; set_solver. }
  rewrite Hl. destruct (decide (start ≤ p < start + n)) as [Hp|Hp].
  - rewrite decide_True; [done|]. apply elem_of_seqZ. lia.
  - rewrite decide_False; [done|]. rewrite elem_of_seqZ. lia.
Qed.

Lemma new_map_lookup nid start n s z :
  zones (new_map nid start n s) !! z =
  (λ i, if z.1 =? nid then i <| zz ::= λ y, y <| mem_map ::= zeroed start n |> |> else i) <$> zones s !! z.
Proof. unfold new_map. simpl. rewrite map_lookup_imap. by destruct (zones s !! z). Qed.

(** Rounding to a power of two. *)
Lemma clear_low (x k : Z) : 0 ≤ x < 2 ^ 32 → 0 ≤ k → Z.land x (u32 (Z.lnot (2 ^ k - 1))) = x / 2 ^ k * 2 ^ k.
Proof.
  intros Hx Hk. unfold uwrap. rewrite <- Z.land_ones by lia. rewrite (Z.land_comm (Z.lnot _)), Z.land_assoc.
  rewrite Z.land_ones, (Z.mod_small x) by lia. replace (2 ^ k - 1) with (Z.ones k) by (rewrite Z.ones_equiv; lia).
  rewrite <- Z.ldiff_land, Z.ldiff_ones_r by lia. by rewrite Z.shiftl_mul_pow2, Z.shiftr_div_pow2 by lia.
Qed.

(** The aligned map covers the node. *)
Lemma map_covers (first n : Z) : 0 ≤ first → 0 ≤ n → first + n < 2 ^ 30 →
  let start := Z.land first (u32 (Z.lnot (MAX_ORDER_NR_PAGES - 1))) in
  let end_ := ALIGN (u32 (first + n)) MAX_ORDER_NR_PAGES in
  start ≤ first ∧ first + n ≤ start + u32 (end_ - start).
Proof.
  intros Hf Hn Hs. cbv zeta. destruct il_order as [Ho1 Ho2]. unfold ALIGN, MAX_ORDER_NR_PAGES.
  rewrite Z.shiftl_mul_pow2, Z.mul_1_l by lia. set (k := MAX_ORDER - 1). assert (1 ≤ 2 ^ k ≤ 2 ^ 29) as Hk.
  { split; [pose proof (Z.pow_pos_nonneg 2 k); lia|apply Z.pow_le_mono_r; lia]. }
  change (2 ^ 30) with 1073741824 in *. change (2 ^ 29) with 536870912 in *.
  rewrite (uwrap_small 32 (first + n)), (uwrap_small 32 (first + n + _)) by (widths; lia).
  rewrite !clear_low by (change (2 ^ 32) with 4294967296; lia). set (e := first + n) in *. set (P := 2 ^ k) in *.
  pose proof (Z.div_mod first P ltac:(lia)). pose proof (Z.mod_pos_bound first P ltac:(lia)).
  pose proof (Z.div_mod (e + (P - 1)) P ltac:(lia)). pose proof (Z.mod_pos_bound (e + (P - 1)) P ltac:(lia)).
  assert (0 ≤ first / P) by (apply Z.div_pos; lia).
  rewrite uwrap_small by (widths; nia). nia.
Qed.

(** Its descriptors are unmarked: those of the node are new, and there are no others. *)
Lemma new_map_unmarked y first n start m : (∀ p, p < first ∨ first + n ≤ p → PageBuddy y p = false) →
  start ≤ first → first + n ≤ start + m → unmarked (y <| mem_map ::= zeroed start m |>) ∧
  ∀ p, first ≤ p < first + n → page_at (y <| mem_map ::= zeroed start m |>) p = zero_page.
Proof.
  intros Hy Hs He.
  assert (∀ p, page_at (y <| mem_map ::= zeroed start m |>) p = if decide (start ≤ p < start + m) then zero_page else page_at y p) as Hat.
  { intros p. unfold page_at. simpl. rewrite zeroed_lookup. by case_decide. }
  split.
  - intros p. unfold PageBuddy. rewrite Hat. case_decide as Hp; [|apply Hy; lia]. apply Z.eqb_neq. change (0 ≠ PAGE_BUDDY_MAPCOUNT_VALUE). destruct il_mark; lia.
  - intros p Hp. by rewrite Hat, decide_True by lia.
Qed.

(** The map is made, unless the early allocator refuses. *)
Lemma node_map_ok b nid first n :
  node_start_pfn b !! nid = Some first → node_spanned_pages b !! nid = Some n → node_mem_map b !! nid = None →
  0 ≤ first → 0 ≤ n → first + n < 2 ^ 30 →
  (∀ t, (t ≤ top_zone)%nat → ∃ i, zones (ms b) !! (nid, t) = Some i ∧ zone_raw (zz i) ∧
    ∀ p, p < first ∨ first + n ≤ p → PageBuddy (zz i) p = false) →
  returns (alloc_node_mem_map nid) b (λ _ b',
    (n ≠ 0 → is_Some (node_mem_map b' !! nid)) ∧
    (node_mem_map b' !! nid = Some false → ∃ size, alloc_bootmem nid size = false) ∧
    (∀ t, (t ≤ top_zone)%nat → ∃ i, zones (ms b') !! (nid, t) = Some i ∧ zone_raw (zz i) ∧
      (n ≠ 0 → node_mem_map b' !! nid = Some true → unmarked (zz i) ∧ ∀ p, first ≤ p < first + n → page_at (zz i) p = zero_page)) ∧
    (∃ s nm, b' = b <| ms := s |> <| node_mem_map := nm |>) ∧ ∀ z, z.1 ≠ nid → zones (ms b') !! z = zones (ms b) !! z).
Proof.
  intros Hs Hn Hm H1' H2' H3' Hz. unfold alloc_node_mem_map. apply returns_bind. eapply returns_eq; [reflexivity|]. cbv beta.
  rewrite Hs, Hn, Hm. simpl default. destruct (n =? 0) eqn:Hn0; bsimp.
  { apply returns_ret. split_and!; [done|congruence| |exists (ms b), (node_mem_map b); by destruct b|done].
    intros t Ht. destruct (Hz t Ht) as (i & Hi & Hr & _). by exists i. }
  cbv zeta. destruct (map_covers first n H1' H2' H3') as [Hc1 Hc2]. set (start := Z.land first _) in *. set (end_ := ALIGN _ _) in *.
  set (got := _ || _). apply returns_bind. destruct got eqn:Hg.
  - eapply returns_eq; [reflexivity|]. eapply returns_eq; [reflexivity|]. set (b1 := _ <| node_mem_map ::= _ |>).
    assert (node_mem_map b1 !! nid = Some true) as Hb1 by (unfold b1; simpl; apply lookup_insert_eq). rewrite Hb1.
    split_and!; [done|done| |by eexists _, _|].
    + intros t Ht. destruct (Hz t Ht) as (i & Hi & [R1 R2] & Hp). change (zones (ms b1)) with (zones (new_map nid start (u32 (end_ - start)) (ms b))). rewrite new_map_lookup, Hi. simpl. rewrite Z.eqb_refl.
      eexists. split; [reflexivity|]. split; [by split|]. intros _ _. by eapply new_map_unmarked.
    + intros z Hne. change (zones (ms b1)) with (zones (new_map nid start (u32 (end_ - start)) (ms b))). rewrite new_map_lookup, (proj2 (Z.eqb_neq _ _) Hne). by destruct (zones (ms b) !! z).
  - apply returns_ret. eapply returns_eq; [reflexivity|]. set (b1 := _ <| node_mem_map ::= _ |>).
    assert (node_mem_map b1 !! nid = Some false) as Hb1 by (unfold b1; simpl; apply lookup_insert_eq). rewrite Hb1.
    apply orb_false_iff in Hg as [_ Hg]. split_and!; [done|by eexists| |by exists (ms b), (<[nid := false]> (node_mem_map b)); destruct b|done].
    intros t Ht. destruct (Hz t Ht) as (i & Hi & Hr & _). by exists i.
Qed.

(** ** The theorem *)

(** A node as the boot finds it: the page set of the boot is empty and no descriptor
    beyond the node is marked; lists, counters, descriptors of the node and types of
    blocks are arbitrary. *)
Record node_unset b nid : Prop := {
  nu_bounds : bounds_ok b;
  nu_movable : movable_fits b nid;
  nu_low : low b 0 ≤ (get_pfn_range_for_nid nid).1;
  nu_reserve : 0 ≤ dma_reserve b;
  nu_map : node_mem_map b !! nid = None;
  nu_zones t : (t ≤ top_zone)%nat → ∃ i, zones (ms b) !! (nid, t) = Some i ∧ zone_raw (zz i) ∧
    ∀ p, p < zone_from b nid 0 ∨ zone_from b nid (S top_zone) ≤ p → PageBuddy (zz i) p = false
}.

(** The allocator of a zone with pages: the descriptors of the pages that are there are
    set up from zeros as reserved, their blocks are movable, and the zone is consistent
    and has no free page. *)
Definition allocator_made nid (t : nat) y : Prop :=
  (∀ p, zone_start_pfn y ≤ p < zone_start_pfn y + spanned_pages y → is_there nid p = true →
    page_at y p = made_page nid t p zero_page ∧
    (Z.land p (pageblock_nr_pages - 1) = 0 → get_pageblock_migratetype y p = movable_mt)) ∧
  zone_base y ∧ ∀ h, elems (lists y) h = [].


(** An interval that ends before it begins. *)
Lemma absent_reversed nid a c : c < a → __absent_pages_in_range nid a c = u32 (c - a).
Proof.
  intros Hac. unfold __absent_pages_in_range. generalize (pfn_ranges nid).
  intros rs. induction rs as [|[[s e] n] rs IH]; [done|]. cbn [foldl].
  assert (∀ x, clamp_pfn x a c = c) as Hc by (intros x; unfold clamp_pfn; repeat case_match; bsimp; lia).
  rewrite !Hc, Z.sub_diag. change (u32 0) with 0. rewrite Z.sub_0_r, uwrap_idemp. exact IH.
Qed.

Lemma page_align_0 : 0 ≤ PAGE_SHIFT < 32 → PAGE_ALIGN 0 = 0.
Proof.
  intros Hs. unfold PAGE_ALIGN, PAGE_SIZE. rewrite Z.shiftl_mul_pow2, Z.mul_1_l, Z.add_0_l by lia.
  assert (1 ≤ 2 ^ PAGE_SHIFT < 2 ^ 32) as Hp by (split; [pose proof (Z.pow_pos_nonneg 2 PAGE_SHIFT); lia|apply Z.pow_lt_mono_r; lia]).
  rewrite (uwrap_small 32 (2 ^ PAGE_SHIFT - 1)) by (widths; change (2 ^ 32) with 4294967296 in Hp; lia). rewrite Z.land_comm.
  replace (2 ^ PAGE_SHIFT - 1) with (Z.ones PAGE_SHIFT) at 2 by (rewrite Z.ones_equiv; lia).
  rewrite Z.land_ones by lia. unfold Z.lnot, uwrap.
  replace (Z.pred (- (2 ^ PAGE_SHIFT - 1))) with (- 2 ^ PAGE_SHIFT) by lia.
  assert (2 ^ 32 = 2 ^ (32 - PAGE_SHIFT) * 2 ^ PAGE_SHIFT) as Hsplit by (rewrite <- Z.pow_add_r by lia; f_equal; lia).
  assert ((- 2 ^ PAGE_SHIFT) mod 2 ^ 32 = 2 ^ 32 - 2 ^ PAGE_SHIFT) as ->.
  { symmetry. apply (Z.mod_unique_pos _ _ (-1)); lia. }
  rewrite Hsplit. replace (_ * 2 ^ PAGE_SHIFT - 2 ^ PAGE_SHIFT) with ((2 ^ (32 - PAGE_SHIFT) - 1) * 2 ^ PAGE_SHIFT) by lia.
  apply Z.mod_mul. lia.
Qed.

(** When rounding puts the start of the movable zone behind the end of the node, that
    zone spans nothing, but its size comes out as the distance to the end: a populated
    zone without a page. *)
Theorem movable_zone_beyond_node b nid ne :
  (get_pfn_range_for_nid nid).2 = ne → ZONE_MOVABLE ≠ 0%nat → ne < movable_at b nid < 2 ^ 30 →
  ne ≤ high b (movable_zone b) → 0 ≤ PAGE_SHIFT < 32 →
  zone_spanned_pages_in_node b nid ZONE_MOVABLE FromMap = 0 ∧
  realsize_of b ZONE_MOVABLE 0 (zone_absent_pages_in_node b nid ZONE_MOVABLE FromMap) = movable_at b nid - ne.
Proof.
  intros Hr Hz Hmv Hhi Hsh. change (2 ^ 30) with 1073741824 in *. unfold zone_spanned_pages_in_node, zone_absent_pages_in_node, adjust_zone_range_for_zone_movable.
  fold (movable_at b nid) (high b (movable_zone b)). destruct (get_pfn_range_for_nid nid) as [ns ne'] eqn:Hg. simpl in Hr. subst ne'.
  apply pfn_range_ok in Hg as (_ & Hne & _). rewrite Nat.eqb_refl, (proj2 (Z.eqb_neq (movable_at b nid) 0)) by lia. simpl negb. cbv iota.
  rewrite (Z.min_l ne) by done. split.
  - rewrite (proj2 (Z.ltb_lt ne (movable_at b nid))) by lia. by rewrite orb_true_r.
  - rewrite absent_reversed by lia. unfold realsize_of. change (u32 (0 * sizeof_page)) with 0.
    rewrite page_align_0, Z.shiftr_0_l, Z.sub_0_l by done.
    replace (u32 (- u32 (ne - movable_at b nid))) with (movable_at b nid - ne).
    + rewrite (proj2 (Z.leb_le 0 _)) by lia. rewrite (proj2 (Nat.eqb_neq ZONE_MOVABLE 0) Hz). simpl. lia.
    + symmetry. rewrite <- (Z.sub_0_l (u32 _)), uwrap_sub_r. rewrite uwrap_small by (widths; lia). lia.
Qed.
End Init.
