(* ===== verification/Movable.v ===== *)
(** * Where the movable zones begin

    [find_zone_movable_pfns_for_nodes] spreads the memory asked for the kernel over the
    nodes: what it counts is exactly the memory below the pages it chooses. *)

From stdpp Require Import sorting.
From S2P Require Import Prelude KList Buddy ZoneData Zonelist ZoneInit MemMap MemMapSpec.

(** Pages below [m]. *)
Abbreviation below rs m := (pages_of rs 0 m).

(** All ranges end at or below [m]. *)
Definition used_up (rs : list (Z * Z * Z)) (m : Z) : Prop := ∀ r, r ∈ rs → r.1.2 ≤ m.

Lemma below_mono rs m m' : m ≤ m' → below rs m ≤ below rs m'.
Proof. intros Hm. apply sumZ_le. intros r _. lia. Qed.

Lemma node_movable_ok usable rs : ∀ movable required remaining,
  ranges_ok rs → 0 ≤ movable → 0 ≤ required → 0 ≤ remaining →
  let '(m, req) := node_movable usable rs movable required remaining in
  movable ≤ m ∧ (m = movable ∨ ∃ r, r ∈ rs ∧ r.1.1 ≤ m ≤ r.1.2) ∧
  req = Z.max 0 (required - (below rs m - below rs movable)) ∧
  (remaining ≤ below rs m - below rs movable ∨ used_up rs m).
Proof.
  induction rs as [|[[s e] n] rs IH]; intros movable required remaining Hrs Hm Hreq Hrem; cbn [node_movable].
  { split_and!; [lia|by left|unfold pages_of, sumZ; simpl; lia|]. right. by intros r ?%not_elem_of_nil. }
  apply ranges_ok_cons in Hrs as (Hr & Hrs & Hup). cbn [fst snd] in *.
  assert (∀ x, x ≤ e → below rs x = 0) as Hzero.
  { intros x Hx. apply pages_of_above. intros r' Hr'. specialize (Hup r' Hr'). lia. }
  assert (∀ x, below ((s, e, n) :: rs) x = Z.max 0 (Z.min e x - s) + below rs x) as Hcons
    by (intros x; rewrite pages_of_cons; cbn [fst snd]; lia).
  (* the rest of the ranges, from a page that is not below the end of this one *)
  assert (∀ m0 req0 rem0, movable ≤ m0 → e ≤ m0 → 0 ≤ req0 → 0 ≤ rem0 → (m0 = movable ∨ m0 = e) →
    req0 = Z.max 0 (required - (below ((s, e, n) :: rs) m0 - below ((s, e, n) :: rs) movable)) →
    rem0 = Z.max 0 (remaining - (below ((s, e, n) :: rs) m0 - below ((s, e, n) :: rs) movable)) →
    let '(m, req) := node_movable usable rs m0 req0 rem0 in
    movable ≤ m ∧ (m = movable ∨ ∃ r, r ∈ (s, e, n) :: rs ∧ r.1.1 ≤ m ≤ r.1.2) ∧
    req = Z.max 0 (required - (below ((s, e, n) :: rs) m - below ((s, e, n) :: rs) movable)) ∧
    (remaining ≤ below ((s, e, n) :: rs) m - below ((s, e, n) :: rs) movable ∨ used_up ((s, e, n) :: rs) m)) as Hrest.
  { intros m0 req0 rem0 Hm0 He Hreq0 Hrem0 Hor Hq Hd. specialize (IH m0 req0 rem0 Hrs ltac:(lia) Hreq0 Hrem0).
    destruct (node_movable usable rs m0 req0 rem0) as [m req]. destruct IH as (I1 & I2 & I3 & I4).
    pose proof (below_mono rs m0 m I1). rewrite !Hcons in *. split_and!.
    - lia.
    - destruct I2 as [->|(r & Hr' & Hrm)].
      + destruct Hor as [->| ->]; [by left|]. right. exists (s, e, n). split; [left|simpl; lia].
      + right. exists r. split; [by right|done].
    - rewrite I3, Hq. lia.
    - destruct I4 as [I4|I4]; [left; lia|]. right. intros r [->|Hr']%elem_of_cons; [simpl; lia|auto]. }
  destruct (e <=? Z.max s movable) eqn:Hskip; bsimp.
  { apply Hrest; lia. }
  pose proof (Hzero movable ltac:(lia)) as Hz0. pose proof (Hzero e ltac:(lia)) as Hze.
  set (st := Z.max s movable) in *. set (kp := if st <? usable then Z.min e usable - st else 0).
  assert (0 ≤ kp) as Hkp by (unfold kp; destruct (st <? usable) eqn:Hc; bsimp; lia).
  destruct ((st <? usable) && (e <=? usable)) eqn:Hall; bsimp.
  - assert (kp = e - st) as Hkpe by (unfold kp; rewrite (proj2 (Z.ltb_lt st usable)) by lia; lia). rewrite Hkpe in *.
    apply Hrest; try lia; rewrite !Hcons; lia.
  - set (st2 := if st <? usable then usable else st).
    assert (kp = st2 - st ∧ st ≤ st2 < e) as [Hk2 Hst2].
    { unfold kp, st2. apply andb_false_iff in Hall. destruct (st <? usable) eqn:Hc; destruct Hall; bsimp; try discriminate; lia. }
    clearbody kp st2. set (rem1 := remaining - Z.min kp remaining). set (req1 := required - Z.min kp required).
    set (size := if rem1 <? e - st2 then rem1 else e - st2).
    assert (0 ≤ size ≤ e - st2 ∧ size ≤ rem1 ∧ (size = rem1 ∨ size = e - st2)) as (Hs1 & Hs2 & Hs3)
      by (assert (0 ≤ rem1) by (unfold rem1; lia); unfold size; destruct (rem1 <? e - st2) eqn:Hc; bsimp; lia).
    clearbody size. destruct (rem1 - size =? 0) eqn:Hstop; bsimp.
    + pose proof (Hzero (st2 + size) ltac:(lia)) as Hz2. rewrite !Hcons. unfold req1, rem1 in *. split_and!.
      * lia.
      * right. exists (s, e, n). split; [left|simpl; lia].
      * lia.
      * left. lia.
    + assert (size = e - st2) as -> by lia. replace (st2 + (e - st2)) with e by lia.
      apply Hrest; unfold req1, rem1 in *; try lia; rewrite !Hcons; lia.
Qed.

Section Movable.
Context {L : Type} `{KListLaws lhead L} `{BuddyConfig} `{NumaEnv} `{BootEnv} `{!BootLaws}.
Implicit Types (b : boot L) (mv : gmap Z Z).

Definition at_node mv (nid : Z) : Z := default 0 (mv !! nid).

(** The memory of the nodes below where their movable zones begin. *)
Definition kernel_memory mv (nodes : list Z) : Z := sumZ (λ nid, below (pfn_ranges nid) (at_node mv nid)) nodes.

(** Where the movable zone of each node begins: in memory of the node, or nowhere yet. *)
Record placed mv (nodes : list Z) : Prop := {
  pl_nonneg nid : 0 ≤ at_node mv nid;
  pl_in nid : at_node mv nid = 0 ∨ ∃ r, r ∈ pfn_ranges nid ∧ r.1.1 ≤ at_node mv nid ≤ r.1.2;
  pl_out nid : nid ∉ nodes → at_node mv nid = 0
}.

(** A pass: what is still required is less by the memory it adds. *)
Lemma spread_ok usable k all nodes : ∀ kcn mv required,
  1 ≤ k → NoDup nodes → (∀ n, n ∈ nodes → n ∈ all) → placed mv all → 0 ≤ kcn → 0 ≤ required →
  let '(mv', req) := spread usable k nodes kcn mv required in
  placed mv' all ∧ (∀ n, at_node mv n ≤ at_node mv' n) ∧ (∀ n, n ∉ nodes → at_node mv' n = at_node mv n) ∧
  req = Z.max 0 (required - (kernel_memory mv' nodes - kernel_memory mv nodes)) ∧
  (k = 1 → required ≤ kcn → req = 0 ∨ ∀ n, n ∈ nodes → used_up (pfn_ranges n) (at_node mv' n)).
Proof.
  induction nodes as [|nid nodes IH]; intros kcn mv required Hk Hnd Hall Hpl Hkcn Hreq; cbn [spread].
  { split_and!; [done|done|done|unfold kernel_memory, sumZ; simpl; lia|]. intros _ _. right. by intros n ?%not_elem_of_nil. }
  apply NoDup_cons in Hnd as [Hn Hnd]. set (kcn' := if required <? kcn then required / k else kcn).
  assert (0 ≤ kcn' ∧ (k = 1 → required ≤ kcn → kcn' = required)) as [Hk0 Hk1].
  { unfold kcn'. destruct (required <? kcn) eqn:Hc; bsimp; [|lia]. split; [apply Z.div_pos; lia|]. intros ->. by rewrite Z.div_1_r. }
  clearbody kcn'. pose proof (node_movable_ok usable (pfn_ranges nid) (at_node mv nid) required kcn' (pfn_ranges_ok nid)
    ltac:(apply Hpl) Hreq Hk0) as Hone.
  unfold at_node in Hone at 1. destruct (node_movable _ _ _ _ _) as [m req1]. destruct Hone as (O1 & O2 & O3 & O4).
  set (mv1 := <[nid := m]> mv).
  assert (∀ n, at_node mv1 n = if decide (n = nid) then m else at_node mv n) as Hmv1.
  { intros n. unfold at_node, mv1. case_decide; subst; [by rewrite lookup_insert_eq|by rewrite lookup_insert_ne by auto]. }
  assert (placed mv1 all) as Hpl1.
  { pose proof (pl_nonneg _ _ Hpl nid). split; intros n; rewrite Hmv1; case_decide as Hd; try subst n; try (apply Hpl).
    - lia.
    - destruct O2 as [->|O2]; [apply Hpl|by right].
    - intros Hno. by destruct Hno; apply Hall; left. }
  specialize (IH kcn' mv1 req1 Hk Hnd ltac:(intros; apply Hall; by right) Hpl1 Hk0 ltac:(lia)).
  destruct (spread usable k nodes kcn' mv1 req1) as [mv' req]. destruct IH as (I1 & I2 & I3 & I4 & I5).
  assert (kernel_memory mv1 nodes = kernel_memory mv nodes) as Hsame.
  { apply sumZ_ext. intros n Hin. rewrite Hmv1, decide_False; [done|]. by intros ->. }
  assert (at_node mv' nid = m) as Hm' by (rewrite I3, Hmv1 by done; by rewrite decide_True).
  assert (0 ≤ kernel_memory mv' nodes - kernel_memory mv nodes) as Hgrow.
  { rewrite <- Hsame. unfold kernel_memory. assert (sumZ (λ n, below (pfn_ranges n) (at_node mv1 n)) nodes ≤ sumZ (λ n, below (pfn_ranges n) (at_node mv' n)) nodes); [|lia].
    apply sumZ_le. intros n _. by apply below_mono. }
  pose proof (below_mono (pfn_ranges nid) _ _ O1) as Hb. split_and!.
  - done.
  - intros n. specialize (I2 n). rewrite Hmv1 in I2. case_decide; [subst; lia|done].
  - intros n [Hne Hno]%not_elem_of_cons. rewrite I3, Hmv1, decide_False by done. done.
  - unfold kernel_memory in *. cbn [sumZ foldr] in *. rewrite Hm'. unfold sumZ in *. lia.
  - intros Hk' Hle. specialize (Hk1 Hk' Hle). destruct (I5 Hk' ltac:(lia)) as [->|I5']; [by left|].
    destruct O4 as [O4|O4]; [left; lia|]. right. intros n [->|Hin]%elem_of_cons; [by rewrite Hm'|auto].
Qed.

(** All passes: what was required is below the movable zones, but for less than a page
    per node, or all memory is. *)
Lemma spread_passes_ok usable nodes : NoDup nodes → ∀ k mv required,
  placed mv nodes → 0 ≤ required →
  let '(mv', req) := spread_passes k usable nodes mv required in
  placed mv' nodes ∧ (∀ n, at_node mv n ≤ at_node mv' n) ∧
  req = Z.max 0 (required - (kernel_memory mv' nodes - kernel_memory mv nodes)) ∧
  ((0 < k)%nat → req < Z.of_nat k ∨ ∀ n, n ∈ nodes → used_up (pfn_ranges n) (at_node mv' n)).
Proof.
  intros Hnd. induction k as [|k IH]; intros mv required Hpl Hreq; cbn [spread_passes].
  { split_and!; [done|done|lia|lia]. }
  pose proof (spread_ok usable (Z.of_nat (S k)) nodes nodes (required / Z.of_nat (S k)) mv required ltac:(lia) Hnd ltac:(done) Hpl
    ltac:(apply Z.div_pos; lia) Hreq) as Hs.
  destruct (spread _ _ _ _ _ _) as [mv1 req1]. destruct Hs as (S1 & S2 & _ & S3 & S4).
  destruct (Z.of_nat k <? req1) eqn:Hc; bsimp; [|split_and!; [done|done|done|left; lia]].
  specialize (IH mv1 req1 S1 ltac:(lia)). destruct k as [|k].
  { cbn [spread_passes]. split_and!; [done|done|done|]. intros _.
    destruct (S4 eq_refl ltac:(rewrite Z.div_1_r; lia)) as [->|S4']; [lia|by right]. }
  destruct (spread_passes (S k) usable nodes mv1 req1) as [mv2 req2]. destruct IH as (I1 & I2 & I3 & I4). split_and!.
  - done.
  - intros n. specialize (S2 n). specialize (I2 n). lia.
  - assert (kernel_memory mv1 nodes ≤ kernel_memory mv2 nodes) by (apply sumZ_le; intros n _; by apply below_mono). lia.
  - intros _. destruct (I4 ltac:(lia)) as [I4'|I4']; [left; lia|by right].
Qed.

(** ** The whole computation *)

(** Nodes that have memory. *)
Definition mem_nodes : list Z := nodes_of (list_to_set ((λ r, r.2) <$> mem_ranges)).

Definition total_pages : Z := sumZ (λ r, r.1.2 - r.1.1) mem_ranges.

(** The pages wanted for the kernel: what was asked for, or all but what was asked for
    the movable zones. *)
Definition wanted b : Z :=
  let movablecore := match movable_reserved_size with Some size => Z.shiftr size PAGE_SHIFT | None => required_movablecore b end in
  if movablecore =? 0 then required_kernelcore b
  else Z.max (required_kernelcore b) (u32 (total_pages - roundup movablecore MAX_ORDER_NR_PAGES)).

Lemma all_ranges : pfn_ranges (Z.of_nat MAX_NUMNODES) = mem_ranges.
Proof. unfold pfn_ranges. by rewrite Z.eqb_refl. Qed.

Lemma total_pages_bounds rs : ranges_ok rs → sumZ (λ r, r.1.2 - r.1.1) rs = pages_of rs 0 (2 ^ 30).
Proof. intros [Hin _]. apply sumZ_ext. intros r Hr. specialize (Hin r Hr). lia. Qed.

Lemma early_total_ok b :
  returns early_calculate_totalpages b (λ n b', n = total_pages ∧
    b' = b <| high_memory := list_to_set ((λ r, r.2) <$> mem_ranges) ∪ high_memory b |>).
Proof.
  unfold early_calculate_totalpages. rewrite all_ranges. pose proof (pfn_ranges_ok (Z.of_nat MAX_NUMNODES)) as Hok. rewrite all_ranges in Hok.
  assert (∀ (rs : list (Z * Z * Z)) b, ranges_ok rs → returns (for_each rs (λ '(start_pfn, end_pfn, nid),
        if negb (end_pfn - start_pfn =? 0) then modify (λ b : boot L, b <| high_memory ::= union {[nid]} |>) else mret tt)) b
      (λ _ b', b' = b <| high_memory := list_to_set ((λ r, r.2) <$> rs) ∪ high_memory b |>)) as Hloop.
  { induction rs as [|[[s e] n] rs IH]; intros b0 Hrs; cbn [for_each].
    { apply returns_ret. simpl. rewrite union_empty_l_L. by destruct b0. }
    apply ranges_ok_cons in Hrs as (Hr & Hrs & _). simpl in Hr. apply returns_bind.
    rewrite (proj2 (Z.eqb_neq (e - s) 0)) by lia. simpl negb. cbv iota. eapply returns_eq; [reflexivity|].
    eapply returns_mono; [by apply IH|]. intros [] b' ->. destruct b0. unfold modify_field. simpl. f_equal. set_solver. }
  apply returns_bind. eapply returns_mono; [by apply Hloop|]. intros [] b' ->. apply returns_ret. split; [|done].
  pose proof (pages_of_le mem_ranges 0 (2 ^ 30) Hok ltac:(done)) as Hle. rewrite <- (total_pages_bounds _ Hok) in Hle.
  unfold total_pages. clear Hloop. change (2 ^ 30) with 1073741824 in Hle.
  assert (∀ (rs : list (Z * Z * Z)) acc, ranges_ok rs → 0 ≤ acc → acc + sumZ (λ r, r.1.2 - r.1.1) rs ≤ 1073741824 →
    foldl (λ totalpages '(start_pfn, end_pfn, _), u32 (totalpages + (end_pfn - start_pfn))) acc rs = acc + sumZ (λ r, r.1.2 - r.1.1) rs) as Hgen;
    [|rewrite Hgen; [lia|done|lia|lia]].
  induction rs as [|[[s e] n] rs IH]; intros acc Hrs Ha Hs; [unfold sumZ; simpl; lia|].
  apply ranges_ok_cons in Hrs as (Hr & Hrs & _). cbn [foldl]. unfold sumZ in Hs |- *. cbn [foldr fst snd] in *.
  assert (0 ≤ foldr (λ (x : Z * Z * Z) acc, x.1.2 - x.1.1 + acc) 0 rs) as Hn.
  { apply (sumZ_nonneg (λ r : Z * Z * Z, r.1.2 - r.1.1)). intros r Hin. destruct Hrs as [Hin' _]. specialize (Hin' r Hin). lia. }
  rewrite uwrap_small by (widths; lia). rewrite IH; [unfold sumZ; lia|done|lia|unfold sumZ; lia].
Qed.

Lemma nodes_of_nodup m : NoDup (nodes_of m).
Proof. apply NoDup_filter, NoDup_seqZ. Qed.

Lemma usable_zone_ext b b' t : lowest_possible_pfn b' = lowest_possible_pfn b → highest_possible_pfn b' = highest_possible_pfn b →
  usable_zone b' t = usable_zone b t.
Proof. intros El Eh. induction t as [|t IH]; cbn [usable_zone]; rewrite El, Eh; [done|by rewrite IH]. Qed.

Lemma mem_nodes_some : mem_ranges ≠ [] → mem_nodes ≠ [].
Proof.
  intros Hne Hnil. destruct mem_ranges as [|[[s e] n] rs] eqn:Hr; [done|].
  assert ((s, e, n) ∈ mem_ranges) as Hin by (rewrite Hr; left). destruct (bl_range s e n Hin) as (_ & _ & Hn).
  assert (n ∈ mem_nodes) as Hin'; [|rewrite Hnil in Hin'; by apply not_elem_of_nil in Hin'].
  unfold mem_nodes, nodes_of. apply list_elem_of_filter. split; [|apply elem_of_seqZ; lia].
  apply elem_of_list_to_set, list_elem_of_fmap. by exists (s, e, n).
Qed.

(** The movable zones are placed so that the memory of the nodes below them is
    what is wanted for the kernel, but for less than a page per node, or all of the
    memory if that is less; each begins in memory of its node, before it is rounded up to
    a multiple of the largest block.  Without a wish there are none, and the states of
    the nodes are as before. *)
Theorem movable_zones_begin b :
  mem_ranges ≠ [] → is_Some (usable_zone b top_zone) → zone_movable_pfn b = ∅ → high_memory b = ∅ → 0 ≤ wanted b →
  returns find_zone_movable_pfns_for_nodes b (λ _ b', high_memory b' = ∅ ∧
    lowest_possible_pfn b' = lowest_possible_pfn b ∧ highest_possible_pfn b' = highest_possible_pfn b ∧
    if wanted b =? 0 then zone_movable_pfn b' = ∅
    else usable_zone b top_zone = Some (movable_zone b') ∧
      ∃ mv, zone_movable_pfn b' = (λ pfn, roundup pfn MAX_ORDER_NR_PAGES) <$> mv ∧ placed mv mem_nodes ∧
        (wanted b - kernel_memory mv mem_nodes < Z.of_nat (length mem_nodes) ∨
         ∀ n, n ∈ mem_nodes → used_up (pfn_ranges n) (at_node mv n)) ∧
        required_kernelcore b' = Z.max 0 (wanted b - kernel_memory mv mem_nodes)).
Proof.
  intros Hne [t Ht] Hmv Hhm Hw. unfold find_zone_movable_pfns_for_nodes. apply returns_bind. eapply returns_eq; [reflexivity|].
  cbv beta zeta. apply returns_bind. eapply returns_mono; [apply early_total_ok|]. intros total b1 [-> Hb1].
  apply returns_bind.
  set (mc := match movable_reserved_size with Some size => Z.shiftr size PAGE_SHIFT | None => required_movablecore b end).
  assert (returns (match movable_reserved_size with Some size => modify (λ b : boot L, b <| required_movablecore := Z.shiftr size PAGE_SHIFT |>)
    | None => mret tt end) b1 (λ _ b2, b2 = b1 <| required_movablecore := mc |>)) as Hres.
  { unfold mc. destruct movable_reserved_size; [by eapply returns_eq|]. apply returns_ret. rewrite Hb1. by destruct b. }
  eapply returns_mono; [exact Hres|]. intros [] b2 Hb2. apply returns_bind. eapply returns_eq; [reflexivity|].
  match goal with |- returns _ ?x _ => set (b3 := x) end.
  assert (required_kernelcore b3 = wanted b ∧ zone_movable_pfn b3 = ∅ ∧ lowest_possible_pfn b3 = lowest_possible_pfn b ∧
    highest_possible_pfn b3 = highest_possible_pfn b ∧ nodes_of (high_memory b3) = mem_nodes ∧ usable_zone b3 top_zone = usable_zone b top_zone) as (R1 & R2 & R3 & R4 & R5 & R6).
  { unfold b3, wanted, mem_nodes. rewrite Hb2, Hb1. simpl. fold mc.
    destruct (mc =? 0); simpl; rewrite Hhm, union_empty_r_L; split_and!; try done; by apply usable_zone_ext. }
  clearbody b3. apply returns_bind. eapply returns_eq; [reflexivity|]. cbv beta. rewrite R1.
  destruct (wanted b =? 0) eqn:Hw0; bsimp.
  { apply returns_bind, returns_ret. eapply returns_eq; [reflexivity|]. simpl. done. }
  apply returns_bind, returns_bind. unfold find_usable_zone_for_movable. apply returns_bind. eapply returns_eq; [reflexivity|].
  cbv beta. rewrite R6, Ht. eapply returns_eq; [reflexivity|]. apply returns_bind. eapply returns_eq; [reflexivity|]. cbv beta zeta.
  change (high_memory (b3 <| movable_zone := t |>)) with (high_memory b3). rewrite R5.
  change (zone_movable_pfn (b3 <| movable_zone := t |>)) with (zone_movable_pfn b3). rewrite R2.
  change (required_kernelcore (b3 <| movable_zone := t |>)) with (required_kernelcore b3). rewrite R1.
  assert (mem_nodes ≠ []) as Hnn by by apply mem_nodes_some.
  rewrite decide_False by done.
  assert (placed ∅ mem_nodes) as Hpl by (split; intros n; [done|by left|done]).
  match goal with |- context [spread_passes _ ?u _ _ _] => pose proof (spread_passes_ok u mem_nodes (nodes_of_nodup _) (length mem_nodes) ∅ (wanted b) Hpl Hw) as Hs end.
  destruct (spread_passes _ _ _ _ _) as [mv req]. destruct Hs as (S1 & _ & S3 & S4).
  assert (kernel_memory ∅ mem_nodes = 0) as Hk0.
  { apply Z.le_antisymm; [|apply sumZ_nonneg; intros; apply pages_of_nonneg].
    unfold kernel_memory. clear. induction mem_nodes as [|n l IH]; [done|]. unfold sumZ in *. cbn [foldr].
    change (at_node ∅ n) with 0. rewrite pages_of_empty. lia. }
  rewrite Hk0, Z.sub_0_r in S3. eapply returns_eq; [reflexivity|]. eapply returns_eq; [reflexivity|]. simpl.
  split_and!; [done|done|done|done|]. exists mv. split_and!; [done|done| |done].
  destruct (S4 ltac:(destruct mem_nodes; [done|simpl; lia])) as [S4'|S4']; [left; lia|by right].
Qed.
End Movable.
