(* ===== verification/MemDemo.v ===== *)
(** * A small memory map

    Two nodes: one with a hole, one behind it.  The theorems on the sizes of nodes and
    zones are applied to it. *)

From stdpp Require Import sorting.
From S2P Require Import Prelude KList Buddy BuddySpec Pcp PcpSpec ZoneData Zonelist ZoneInit ZoneInitSpec ZoneMarks ZoneDemo MemMap MemMapSpec MemInit Movable.

Abbreviation demo_env ranges memory := ({|
  mem_ranges := ranges;
  ZONE_MOVABLE := 1;
  sizeof_page := 32;
  sizeof_wait_queue_head := 8;
  NR_PAGEBLOCK_BITS := 4;
  CONFIG_NUMA := true;
  CONFIG_NODES_SPAN_OTHER_NODES := false;
  movable_reserved_size := None;
  possible_nodes := [0; 1];
  early_pfn_valid _ := true;
  set_page_links p _ _ _ := p;
  init_page_count p := p <| _count := 1 |>;
  reset_page_mapcount p := p <| _mapcount := -1 |>;
  SetPageReserved p := p <| page_flags ::= Z.lor 1024 |>;
  alloc_remap _ _ := false;
  alloc_bootmem _ _ := memory;
  __ffs n := Z.log2 (Z.land n (- n))
|}) (only parsing).

#[export] Instance demo_memory : BootEnv := demo_env [(0, 6, 0); (8, 17, 0); (20, 28, 1)] true.

#[export] Instance demo_boot_laws : BootLaws.
Proof.
  split.
  - intros s e n Hin. simpl in Hin. rewrite !elem_of_cons, elem_of_nil in Hin. change (2 ^ 30) with 1073741824. simpl.
    naive_solver lia.
  - simpl. repeat constructor; simpl; lia.
Qed.

#[export] Instance demo_init_laws : InitLaws.
Proof. split; [done|by split|by vm_compute|by vm_compute|by vm_compute]. Qed.

Definition demo_boot (movable : gmap Z Z) (core : Z) : boot DL :=
  mkBoot (demo_msys <| zones := (λ i, i <| zz := demo_freed |>) <$> zones demo_msys |>) {[0%nat := 0; 1%nat := 0]}
    {[0%nat := 28; 1%nat := 0]} core 0 movable 0 ∅ ∅ 0 0 0 0 0 ∅ ∅ ∅ ∅ ∅ ∅ ∅.

(** The zones still hold a free block: the set-up must not rely on empty lists. *)
Lemma demo_raw : zone_raw demo_freed ∧ ∀ p, p < 0 ∨ 17 ≤ p → PageBuddy demo_freed p = false.
Proof.
  assert (lists demo_freed = {[FreeList 2 MIGRATE_MOVABLE := [4]]}) as Hl by (vm_compute; reflexivity).
  assert (nr_free demo_freed = {[2 := 1]}) as Hn by (vm_compute; reflexivity).
  split; [split|].
  - intros h Hh. rewrite Hl. unfold elems. simpl. rewrite lookup_singleton_ne; [done|]. intros <-. apply Hh. by vm_compute.
  - intros o Ho. unfold nr_free_of. rewrite Hn, lookup_singleton_ne; [done|]. intros <-. apply Ho. by vm_compute.
  - intros p Hp. assert (∃ v, mem_map demo_freed = {[4 := v]}) as [v Hm] by (eexists; vm_compute; reflexivity).
    unfold PageBuddy, page_at. rewrite Hm, lookup_singleton_ne by lia. done.
Qed.

Lemma demo_unset : node_unset (demo_boot {[0 := 12]} 0) 0.
Proof.
  split.
  - split; [done|simpl; lia| | |by vm_compute].
    + intros [|t] Ht; [by vm_compute|simpl in Ht; lia].
    + intros t Ht. simpl in Ht. lia.
  - change (12 = 0 ∨ 0 < 12 ∧ 0 ≤ 12 ≤ 17 ∧ (0 < 1)%nat ∧ 28 = 28). right. lia.
  - by vm_compute.
  - done.
  - done.
  - assert (zone_from (demo_boot {[0 := 12]} 0) 0 0 = 0) as -> by (by vm_compute).
    assert (zone_from (demo_boot {[0 := 12]} 0) 0 (S top_zone) = 17) as -> by (by vm_compute).
    intros [|[|t]] Ht; [eexists; split; [vm_compute; reflexivity|exact demo_raw]..|simpl in Ht; lia].
Qed.


(** Without memory for the early allocator the set-up stops. *)
Example init_without_memory :
  ∃ b, free_area_init_node (H2 := demo_env [(0, 6, 0); (8, 17, 0); (20, 28, 1)] false) 0 FromMap 0 (demo_boot {[0 := 12]} 0) = Err BugOn b.
Proof. eexists. vm_compute. reflexivity. Qed.

Lemma movable_zones_begin_witness :
  ∃ b', find_zone_movable_pfns_for_nodes (demo_boot ∅ 20) = Ok tt b' ∧ zone_movable_pfn b' ≠ ∅.
Proof.
  destruct (movable_zones_begin (demo_boot ∅ 20)) as ([] & b' & E & _ & _ & _ & Hw);
    [done|by exists 0%nat|done|done|by vm_compute|].
  exists b'. split; [exact E|]. assert (wanted (demo_boot ∅ 20) = 20) as Hwn by reflexivity. rewrite Hwn in Hw. simpl in Hw.
  destruct Hw as (_ & mv & -> & _ & Hor & _). intros Hn. apply fmap_empty_inv in Hn. subst mv.
  destruct Hor as [Hor|Hor].
  - assert (kernel_memory ∅ mem_nodes = 0) as Hk by (vm_compute; reflexivity).
    assert (length mem_nodes = 2%nat) as Hl by (vm_compute; reflexivity). rewrite Hk, Hl in Hor. lia.
  - assert (0 ∈ mem_nodes ∧ (0, 6, 0) ∈ pfn_ranges 0) as [H0 H1] by (split; vm_compute; left).
    specialize (Hor 0 H0 (0, 6, 0) H1). change (6 ≤ 0) in Hor. lia.
Defined.

(** Node 0 ends at page 17; with 23 pages for the kernel its movable zone begins at 20. *)
Lemma movable_zone_beyond_node_witness :
  zone_movable_pfn (res_state (find_zone_movable_pfns_for_nodes (demo_boot ∅ 23))) !! 0 = Some 20 ∧
  realsize_of (demo_boot {[0 := 20]} 0) 1 0 (zone_absent_pages_in_node (demo_boot {[0 := 20]} 0) 0 1 FromMap) = 3.
Proof.
  split; [vm_compute; reflexivity|].
  destruct (movable_zone_beyond_node (demo_boot {[0 := 20]} 0) 0 17) as [_ Hr]; [reflexivity|done|by vm_compute|by vm_compute|done|].
  change 3 with (20 - 17). exact Hr.
Defined.

(** Pages 8 and 9 belong to different nodes, but an alignment of 4 is reported, so that
    both lie in one aligned block. *)
Example alignment_misses_border :
  @node_map_pfn_alignment demo_numa (demo_env [(0, 4, 0); (4, 9, 1); (9, 16, 2)] true) = 4 ∧ 8 / 4 = 9 / 4.
Proof. split; vm_compute; reflexivity. Qed.
