(* ===== verification/SchedData.v ===== *)
(** * Run queues, tasks and scheduling entities

    The data the scheduler works on: [struct task_struct] with its embedded
    [struct sched_entity], [struct cfs_rq], [struct task_group] and [struct rq] of
    [hw4/kernel/sched/sched.h] and [hw4/linux/sched.h], the method table of a
    scheduling class, and the accesses all files share.

    The run queue is the one of the only processor (CONFIG_SMP off), and groups
    of tasks exist (CONFIG_FAIR_GROUP_SCHED on).  Entities are addressed as in C:
    [TaskSe p] is [&p->se] and [GroupSe g] is [tg->se[0]] of the group [g].  A
    group and its [cfs_rq] have the same number; 0 is the root group, whose
    [cfs_rq] is [rq->cfs].  Spin locks are held in the sections the source marks
    and are not represented; schedstat counters and tracing are left out.

    What the code reads from the rest of the kernel is the parameter [SchedEnv]:
    credentials, limits, security hooks, the real-time mutexes, and the classes
    whose files are not part of the repository (stop, real-time, idle). *)

From S2P Require Import Prelude.

Definition SCHED_NORMAL : Z := 0.
Definition SCHED_FIFO : Z := 1.
Definition SCHED_RR : Z := 2.
Definition SCHED_BATCH : Z := 3.
Definition SCHED_IDLE : Z := 5.
Definition SCHED_MYCFS : Z := 6.
Definition SCHED_RESET_ON_FORK : Z := 1073741824.

Definition MAX_USER_RT_PRIO : Z := 100.
Definition MAX_RT_PRIO : Z := MAX_USER_RT_PRIO.
Definition MAX_PRIO : Z := MAX_RT_PRIO + 40.

Definition EPERM : Z := 1.
Definition ESRCH : Z := 3.
Definition EFAULT : Z := 14.
Definition EINVAL : Z := 22.

Definition NICE_TO_PRIO (nice : Z) : Z := MAX_RT_PRIO + nice + 20.
Definition PRIO_TO_NICE (prio : Z) : Z := prio - MAX_RT_PRIO - 20.

Definition rt_prio (prio : Z) : bool := prio <? MAX_RT_PRIO.

Definition rt_policy (policy : Z) : bool := (policy =? SCHED_FIFO) || (policy =? SCHED_RR).

Definition WEIGHT_IDLEPRIO : Z := 3.
Definition WMULT_IDLEPRIO : Z := 1431655765.

Definition prio_to_weight : list Z := [
  88761; 71755; 56483; 46273; 36291;
  29154; 23254; 18705; 14949; 11916;
  9548; 7620; 6100; 4904; 3906;
  3121; 2501; 1991; 1586; 1277;
  1024; 820; 655; 526; 423;
  335; 272; 215; 172; 137;
  110; 87; 70; 56; 45;
  36; 29; 23; 18; 15].

Definition prio_to_wmult : list Z := [
  48388; 59856; 76040; 92818; 118348;
  147320; 184698; 229616; 287308; 360437;
  449829; 563644; 704093; 875809; 1099582;
  1376151; 1717300; 2157191; 2708050; 3363326;
  4194304; 5237765; 6557202; 8165337; 10153587;
  12820798; 15790321; 19976592; 24970740; 31350126;
  39045157; 49367440; 61356676; 76695844; 95443717;
  119304647; 148102320; 186737708; 238609294; 286331153].

Inductive sched_class : Type :=
  | stop_sched_class
  | rt_sched_class
  | fair_sched_class
  | mycfs_sched_class
  | idle_sched_class.

#[export] Instance sched_class_eq_dec : EqDecision sched_class.
Proof. solve_decision. Defined.

(** The chain [for_each_class] follows: [fair_sched_class.next] is the class of
    the homework and its [next] is the idle class. *)
Definition class_chain : list sched_class :=
  [stop_sched_class; rt_sched_class; fair_sched_class; mycfs_sched_class; idle_sched_class].

Definition TASK_RUNNING : Z := 0.
Definition TASK_INTERRUPTIBLE : Z := 1.
Definition TASK_UNINTERRUPTIBLE : Z := 2.
Definition TASK_WAKEKILL : Z := 128.
Definition TASK_NORMAL : Z := Z.lor TASK_INTERRUPTIBLE TASK_UNINTERRUPTIBLE.
Definition TASK_WAKING : Z := 256.
Definition PF_WQ_WORKER : Z := 32.
Definition PF_FROZEN : Z := 65536.

Definition WF_SYNC : Z := 1.
Definition WF_FORK : Z := 2.
Definition ENQUEUE_WAKEUP : Z := 1.
Definition ENQUEUE_HEAD : Z := 2.
Definition ENQUEUE_WAKING : Z := 0.
Definition DEQUEUE_SLEEP : Z := 1.

Record load_weight : Type := mkLoad { weight : Z; inv_weight : Z }.
#[export] Instance load_weight_eta : Settable load_weight := λ r,
  mkLoad (weight r) (inv_weight r).

Definition update_load_add (lw : load_weight) (inc : Z) : load_weight :=
  lw <| weight := u32 (weight lw + inc) |> <| inv_weight := 0 |>.
Definition update_load_sub (lw : load_weight) (dec : Z) : load_weight :=
  lw <| weight := u32 (weight lw - dec) |> <| inv_weight := 0 |>.
Definition update_load_set (lw : load_weight) (w : Z) : load_weight :=
  lw <| weight := w |> <| inv_weight := 0 |>.

Inductive se_ptr : Type :=
  | TaskSe (p : Z)
  | GroupSe (g : Z).

#[export] Instance se_ptr_eq_dec : EqDecision se_ptr.
Proof. solve_decision. Defined.

Record sched_entity : Type := mkSe {
  load : load_weight;
  se_on_rq : Z;
  exec_start : Z;
  sum_exec_runtime : Z;
  vruntime : Z;
  prev_sum_exec_runtime : Z;
  se_parent : option se_ptr;
  se_cfs_rq : Z;
  my_q : option Z
}.
#[export] Instance sched_entity_eta : Settable sched_entity := λ r,
  mkSe (load r) (se_on_rq r) (exec_start r) (sum_exec_runtime r) (vruntime r)
    (prev_sum_exec_runtime r) (se_parent r) (se_cfs_rq r) (my_q r).

(** The fields of [struct task_struct] the scheduler uses. *)
Record task : Type := mkTask {
  pid : Z;
  policy : Z;
  rt_priority : Z;
  static_prio : Z;
  t_normal_prio : Z;
  prio : Z;
  class : sched_class;
  on_rq : Z;
  state : Z;
  flags : Z;
  has_mm : bool;
  sched_reset_on_fork : bool;
  se : sched_entity;
  need_resched : bool;
  nvcsw : Z;
  nivcsw : Z;
  sigpending : bool;                            (** the thread flag [TIF_SIGPENDING] *)
  sigkill : bool                                (** [SIGKILL] is among the pending signals *)
}.
#[export] Instance task_eta : Settable task := λ r,
  mkTask (pid r) (policy r) (rt_priority r) (static_prio r) (t_normal_prio r) (prio r) (class r)
    (on_rq r) (state r) (flags r) (has_mm r) (sched_reset_on_fork r) (se r)
    (need_resched r) (nvcsw r) (nivcsw r) (sigpending r) (sigkill r).

Definition signal_pending (t : task) : bool := sigpending t.

Definition __fatal_signal_pending (t : task) : bool := sigkill t.

Definition fatal_signal_pending (t : task) : bool := signal_pending t && __fatal_signal_pending t.

Definition signal_pending_state (state : Z) (t : task) : bool :=
  if negb (has_flag state (Z.lor TASK_INTERRUPTIBLE TASK_WAKEKILL)) then false
  else if negb (signal_pending t) then false
  else has_flag state TASK_INTERRUPTIBLE || __fatal_signal_pending t.

(** A search tree of the red-black tree library, without its colours. *)
Inductive rb_tree : Type :=
  | RB_ROOT
  | rb_node (rb_left : rb_tree) (x : se_ptr) (rb_right : rb_tree).

(** [struct cfs_rq] with the members of CONFIG_CFS_BANDWIDTH. *)
Record cfs_rq : Type := mkCfsRq {
  c_load : load_weight;
  c_nr_running : Z;
  h_nr_running : Z;
  min_vruntime : Z;
  min_vruntime_copy : Z;
  tasks_timeline : rb_tree;
  rb_leftmost : option se_ptr;
  c_curr : option se_ptr;
  c_next : option se_ptr;
  c_last : option se_ptr;
  c_skip : option se_ptr;
  on_list : bool;
  runtime_enabled : bool;
  runtime_expires : Z;
  runtime_remaining : Z;
  throttled_timestamp : Z;
  throttled : bool;
  throttle_count : Z
}.
#[export] Instance cfs_rq_eta : Settable cfs_rq := λ r,
  mkCfsRq (c_load r) (c_nr_running r) (h_nr_running r) (min_vruntime r) (min_vruntime_copy r)
    (tasks_timeline r) (rb_leftmost r) (c_curr r) (c_next r) (c_last r) (c_skip r) (on_list r)
    (runtime_enabled r) (runtime_expires r) (runtime_remaining r) (throttled_timestamp r)
    (throttled r) (throttle_count r).

(** [struct cfs_bandwidth]; the list of throttled queues by their numbers, and of
    the two timers whether they are armed. *)
Record cfs_bandwidth : Type := mkBandwidth {
  period : Z;
  quota : Z;
  runtime : Z;
  b_runtime_expires : Z;
  b_idle : bool;
  timer_active : bool;
  period_timer : bool;
  slack_timer : bool;
  throttled_cfs_rq : list Z;
  nr_periods : Z;
  nr_throttled : Z;
  throttled_time : Z
}.
#[export] Instance cfs_bandwidth_eta : Settable cfs_bandwidth := λ r,
  mkBandwidth (period r) (quota r) (runtime r) (b_runtime_expires r) (b_idle r) (timer_active r)
    (period_timer r) (slack_timer r) (throttled_cfs_rq r) (nr_periods r) (nr_throttled r) (throttled_time r).

Record task_group : Type := mkGroup {
  shares : Z;
  tg_se : option se_ptr;
  tg_parent : option Z;
  children : list Z;
  bandwidth : cfs_bandwidth
}.
#[export] Instance task_group_eta : Settable task_group := λ r,
  mkGroup (shares r) (tg_se r) (tg_parent r) (children r) (bandwidth r).

(** The fields of [struct mycfs_rq] the code assigns; the tree is its nodes in
    order. *)
Record mycfs_rq : Type := mkMycfsRq {
  my_tasks_timeline : list Z;
  my_min_vruntime : Z;
  my_min_vruntime_copy : Z
}.
#[export] Instance mycfs_rq_eta : Settable mycfs_rq := λ r,
  mkMycfsRq (my_tasks_timeline r) (my_min_vruntime r) (my_min_vruntime_copy r).

(** The tunables of [fair.c], global variables of the source. *)
Record tunables : Type := mkTunables {
  sysctl_sched_latency : Z;
  normalized_sysctl_sched_latency : Z;
  sysctl_sched_min_granularity : Z;
  normalized_sysctl_sched_min_granularity : Z;
  sysctl_sched_wakeup_granularity : Z;
  normalized_sysctl_sched_wakeup_granularity : Z;
  sched_nr_latency : Z;
  sysctl_sched_child_runs_first : Z;
  sysctl_sched_tunable_scaling : Z;
  sysctl_sched_cfs_bandwidth_slice : Z
}.
#[export] Instance tunables_eta : Settable tunables := λ r,
  mkTunables (sysctl_sched_latency r) (normalized_sysctl_sched_latency r)
    (sysctl_sched_min_granularity r) (normalized_sysctl_sched_min_granularity r)
    (sysctl_sched_wakeup_granularity r) (normalized_sysctl_sched_wakeup_granularity r)
    (sched_nr_latency r) (sysctl_sched_child_runs_first r) (sysctl_sched_tunable_scaling r)
    (sysctl_sched_cfs_bandwidth_slice r).

(** The run queue with everything reachable from it.  [hw_clock] is what
    [sched_clock_cpu] shows; [other] is the state of the classes that are not
    modelled. *)
Record rq (Y : Type) : Type := mkRq {
  tasks : gmap Z task;
  group_se : gmap Z sched_entity;
  cfs_rqs : gmap Z cfs_rq;
  groups : gmap Z task_group;
  leaf_cfs_rq_list : list Z;
  tun : tunables;
  curr : Z;
  idle : Z;
  stop : option Z;
  nr_running : Z;
  rq_load : load_weight;
  hw_clock : Z;
  clock : Z;
  clock_task : Z;
  skip_clock_update : Z;
  nr_switches : Z;
  nr_uninterruptible : Z;
  mycfs : mycfs_rq;
  other : Y
}.
Arguments mkRq {Y}.
Arguments tasks {Y}.
Arguments group_se {Y}.
Arguments cfs_rqs {Y}.
Arguments groups {Y}.
Arguments leaf_cfs_rq_list {Y}.
Arguments tun {Y}.
Arguments curr {Y}.
Arguments idle {Y}.
Arguments stop {Y}.
Arguments nr_running {Y}.
Arguments rq_load {Y}.
Arguments hw_clock {Y}.
Arguments clock {Y}.
Arguments clock_task {Y}.
Arguments skip_clock_update {Y}.
Arguments nr_switches {Y}.
Arguments nr_uninterruptible {Y}.
Arguments mycfs {Y}.
Arguments other {Y}.
#[export] Instance rq_eta Y : Settable (rq Y) := λ r,
  mkRq (tasks r) (group_se r) (cfs_rqs r) (groups r) (leaf_cfs_rq_list r) (tun r)
    (curr r) (idle r) (stop r) (nr_running r) (rq_load r) (hw_clock r) (clock r)
    (clock_task r) (skip_clock_update r) (nr_switches r) (nr_uninterruptible r)
    (mycfs r) (other r).

(** [struct sched_class]: the methods the core calls on one processor. *)
Record methods (Y : Type) : Type := mkMethods {
  enqueue_method : option (Z → Z → M (rq Y) unit);
  dequeue_method : option (Z → Z → M (rq Y) unit);
  yield_method : option (M (rq Y) unit);
  yield_to_method : option (Z → bool → M (rq Y) bool);
  check_preempt_method : option (Z → Z → M (rq Y) unit);
  pick_next_method : option (M (rq Y) (option Z));
  put_prev_method : option (Z → M (rq Y) unit);
  set_curr_method : option (M (rq Y) unit);
  task_tick_method : option (Z → Z → M (rq Y) unit);
  task_fork_method : option (Z → M (rq Y) unit);
  switched_from_method : option (Z → M (rq Y) unit);
  switched_to_method : option (Z → M (rq Y) unit);
  prio_changed_method : option (Z → Z → M (rq Y) unit)
}.
Arguments mkMethods {Y}.
Arguments enqueue_method {Y}.
Arguments dequeue_method {Y}.
Arguments yield_method {Y}.
Arguments yield_to_method {Y}.
Arguments check_preempt_method {Y}.
Arguments pick_next_method {Y}.
Arguments put_prev_method {Y}.
Arguments set_curr_method {Y}.
Arguments task_tick_method {Y}.
Arguments task_fork_method {Y}.
Arguments switched_from_method {Y}.
Arguments switched_to_method {Y}.
Arguments prio_changed_method {Y}.

Class SchedEnv (Y : Type) : Type := {
  class_methods : sched_class → methods Y;      (** stop, real-time, idle *)
  current : Z;
  find_task_by_vpid : Z → option Z;
  capable_sys_nice : bool;
  rlimit_rtprio : Z → Z;
  rlimit_nice : Z → Z;
  cred_euid : Z → Z;
  cred_uid : Z → Z;
  cred_user_ns : Z → Z;
  security_task_setscheduler : Z → Z;
  security_task_getscheduler : Z → Z;
  security_task_setnice : Z → Z → Z;
  rt_mutex_getprio : Z → Z → Z;                 (** task, its normal priority *)
  rt_mutex_adjust_pi : Z → M (rq Y) unit;
  rt_group_no_runtime : Z → bool;
  preempt_active : bool;
  wq_worker_sleeping : Z → option Z;
  wq_worker_waking_up : Z → M (rq Y) unit
}.

Section Access.
Context {Y : Type}.
Abbreviation R := (M (rq Y)).

Definition load_task (p : Z) : R task :=
  ts ← gets tasks;
  match ts !! p with Some t => mret t | None => fail Undefined end.

Definition store_task (p : Z) (f : task → task) : R unit :=
  t ← load_task p;
  modify (λ r, r <| tasks ::= <[p := f t]> |>).

(** [*se] and an assignment to its members. *)
Definition load_se (s : se_ptr) : R sched_entity :=
  match s with
  | TaskSe p => t ← load_task p; mret (se t)
  | GroupSe g =>
      es ← gets group_se;
      match es !! g with Some e => mret e | None => fail Undefined end
  end.

Definition store_se (s : se_ptr) (f : sched_entity → sched_entity) : R unit :=
  match s with
  | TaskSe p => store_task p (λ t, t <| se ::= f |>)
  | GroupSe g =>
      e ← load_se (GroupSe g);
      modify (λ r, r <| group_se ::= <[g := f e]> |>)
  end.

Definition load_cfs (c : Z) : R cfs_rq :=
  qs ← gets cfs_rqs;
  match qs !! c with Some q => mret q | None => fail Undefined end.

Definition store_cfs (c : Z) (f : cfs_rq → cfs_rq) : R unit :=
  q ← load_cfs c;
  modify (λ r, r <| cfs_rqs ::= <[c := f q]> |>).

Definition load_group (g : Z) : R task_group :=
  gs ← gets groups;
  match gs !! g with Some t => mret t | None => fail Undefined end.

Definition store_bandwidth (g : Z) (f : cfs_bandwidth → cfs_bandwidth) : R unit :=
  t ← load_group g;
  modify (λ r, r <| groups ::= <[g := t <| bandwidth ::= f |>]> |>).

Definition resched_task (p : Z) : R unit := store_task p (λ t, t <| need_resched := true |>).

(** The clock of tasks advances with the clock of the queue: time spent in
    interrupts is not accounted (CONFIG_IRQ_TIME_ACCOUNTING off). *)
Definition update_rq_clock_task (delta : Z) : R unit :=
  modify (λ r, r <| clock_task := u64 (clock_task r + delta) |>).

Definition update_rq_clock : R unit :=
  r ← get;
  if 0 <? skip_clock_update r then mret tt
  else
    let delta := s64 (hw_clock r - clock r) in
    _ ← modify (λ r, r <| clock := u64 (clock r + delta) |>);
    update_rq_clock_task delta.

Definition inc_nr_running : R unit := modify (λ r, r <| nr_running := u32 (nr_running r + 1) |>).
Definition dec_nr_running : R unit := modify (λ r, r <| nr_running := u32 (nr_running r - 1) |>).

End Access.

Definition TASK_NICE (t : task) : Z := PRIO_TO_NICE (static_prio t).
Definition task_has_rt_policy (t : task) : bool := rt_policy (policy t).
Definition task_contributes_to_load (t : task) : bool :=
  has_flag (state t) TASK_UNINTERRUPTIBLE && negb (has_flag (flags t) PF_FROZEN).
