(* ===== verification/Fair.v ===== *)
(** * The completely fair scheduler: [hw4/kernel/sched/fair.c]

    Every entity has a virtual run time that grows with the time it runs,
    divided by its weight.  A queue keeps its waiting entities in a red-black
    tree ordered by virtual run time and runs the leftmost one.  Groups of tasks
    are entities with a queue of their own, and may be limited to a share of run
    time per period ([cfs_bandwidth]).

    The configuration is that of one processor with group scheduling and
    bandwidth control; statistics, debug checks and the high resolution tick are
    not configured.  With one processor the load average of groups is not kept
    ([update_cfs_load] is empty) and the weight of a group is its shares.

    The red-black tree library, the feature bits of [features.h] and the timers
    are the parameter [FairEnv].  Loops over the ancestors of an entity and over
    the tree of groups are bounded by the number of groups. *)

From S2P Require Import Prelude SchedData.

Definition WMULT_CONST : Z := ULONG_MAX.
Definition WMULT_SHIFT : Z := 32.
Definition NICE_0_LOAD : Z := 1024.
Definition RUNTIME_INF : Z := 2 ^ 64 - 1.
Definition MIN_SHARES : Z := 2.
Definition MAX_SHARES : Z := Z.shiftl 1 18.
Definition NSEC_PER_USEC : Z := 1000.
Definition NSEC_PER_MSEC : Z := 1000000.

Class FairEnv (Y : Type) : Type := {
  rb_insert_color : se_ptr → rb_tree → rb_tree;
  rb_erase : se_ptr → rb_tree → rb_tree;
  rb_next : se_ptr → rb_tree → option se_ptr;
  feat_START_DEBIT : bool;
  feat_GENTLE_FAIR_SLEEPERS : bool;
  feat_NEXT_BUDDY : bool;
  feat_LAST_BUDDY : bool;
  cfs_bandwidth_used : bool;
  TICK_NSEC : Z;
  num_online_cpus : Z;
  hrtimer_callback_running : Z → rq Y → bool;   (** the period timer of a group *)
  hrtimer_expires_remaining : Z → rq Y → Z;
  task_group_of : Z → Z                         (** the group a task belongs to *)
}.

(** ** Arithmetic *)

(** Shift right and round, in 64 bits. *)
Definition SRR (x y : Z) : Z := Z.shiftr (u64 (x + Z.shiftl 1 (y - 1))) y.

(** The cached inverse of a weight. *)
Definition fill_inv_weight (lw : load_weight) : load_weight :=
  if inv_weight lw =? 0 then
    if weight lw =? 0 then lw <| inv_weight := WMULT_CONST |>
    else lw <| inv_weight := WMULT_CONST / weight lw |>
  else lw.

(** [delta_exec * w / lw], and [lw] with its cached inverse. *)
Definition calc_delta_mine (delta_exec w : Z) (lw : load_weight) : Z * load_weight :=
  let tmp := if 1 <? w then u64 (delta_exec * w) else delta_exec in
  let lw := fill_inv_weight lw in
  let tmp :=
    if WMULT_CONST <? tmp
    then SRR (u64 (SRR tmp (WMULT_SHIFT / 2) * inv_weight lw)) (WMULT_SHIFT / 2)
    else SRR (u64 (tmp * inv_weight lw)) WMULT_SHIFT in
  (Z.min tmp LONG_MAX, lw).

Definition max_vruntime (min_vruntime vruntime : Z) : Z :=
  if 0 <? s64 (vruntime - min_vruntime) then vruntime else min_vruntime.

Definition min_of_vruntime (min_vruntime vruntime : Z) : Z :=
  if s64 (vruntime - min_vruntime) <? 0 then vruntime else min_vruntime.

Definition entity_before (a b : sched_entity) : bool := s64 (vruntime a - vruntime b) <? 0.

Definition entity_is_task (e : sched_entity) : bool :=
  match my_q e with Some _ => false | None => true end.

Definition default_cfs_period : Z := 100000000.
Definition min_cfs_rq_runtime : Z := NSEC_PER_MSEC.
Definition min_bandwidth_expiration : Z := 2 * NSEC_PER_MSEC.
Definition cfs_bandwidth_slack_period : Z := 5 * NSEC_PER_MSEC.

Section Fair.
Context {Y : Type} `{FairEnv Y}.
Abbreviation R := (M (rq Y)).

(** ** Tunables *)

Definition get_update_sysctl_factor : R Z :=
  t ← gets tun;
  let cpus := Z.min num_online_cpus 8 in
  mret (if sysctl_sched_tunable_scaling t =? 0 then 1
        else if sysctl_sched_tunable_scaling t =? 2 then cpus
        else 1 + Z.log2 cpus).

Definition update_sysctl : R unit :=
  f ← get_update_sysctl_factor;
  modify (λ r, r <| tun ::= λ t, t
    <| sysctl_sched_min_granularity := u32 (f * normalized_sysctl_sched_min_granularity t) |>
    <| sysctl_sched_latency := u32 (f * normalized_sysctl_sched_latency t) |>
    <| sysctl_sched_wakeup_granularity := u32 (f * normalized_sysctl_sched_wakeup_granularity t) |> |>).

Definition sched_init_granularity : R unit := update_sysctl.

(** [ret] is what [proc_dointvec_minmax] answered. *)
Definition sched_proc_update_handler (write : bool) (ret : Z) : R Z :=
  factor ← get_update_sysctl_factor;
  if negb (ret =? 0) || negb write then mret ret
  else
    _ ← modify (λ r, r <| tun ::= λ t, t
      <| sched_nr_latency :=
           u32 (sysctl_sched_latency t + sysctl_sched_min_granularity t - 1)
             / sysctl_sched_min_granularity t |>
      <| normalized_sysctl_sched_min_granularity := sysctl_sched_min_granularity t / factor |>
      <| normalized_sysctl_sched_latency := sysctl_sched_latency t / factor |>
      <| normalized_sysctl_sched_wakeup_granularity :=
           sysctl_sched_wakeup_granularity t / factor |> |>);
    mret 0.

(** ** The hierarchy of entities *)

Definition parent_entity (s : se_ptr) : R (option se_ptr) :=
  e ← load_se s;
  mret (se_parent e).

(** [for (; se; se = se->parent)] with a body that may leave the loop; the
    result is the entity at which the loop stopped. *)
Fixpoint for_each_sched_entity {A} (fuel : nat) (body : A → se_ptr → R (bool * A)) (a : A)
    (s : option se_ptr) : R (option se_ptr * A) :=
  match s with
  | None => mret (None, a)
  | Some x =>
      match fuel with
      | O => fail OutOfFuel
      | S fuel' =>
          ga ← body a x;
          if ga.1 : bool
          then n ← parent_entity x; for_each_sched_entity fuel' body ga.2 n
          else mret (Some x, ga.2)
      end
  end.

(** More entities than any chain of ancestors has. *)
Definition depth_bound : R nat :=
  r ← get;
  mret (S (S (size (group_se r)))).

Definition cfs_rq_of (s : se_ptr) : R Z :=
  e ← load_se s;
  mret (se_cfs_rq e).

Definition task_of (s : se_ptr) : R Z :=
  match s with TaskSe p => mret p | GroupSe _ => fail Undefined end.

Definition is_same_group (s ps : se_ptr) : R bool :=
  c ← cfs_rq_of s;
  pc ← cfs_rq_of ps;
  mret (c =? pc).

Definition depth_se (s : se_ptr) : R Z :=
  n ← depth_bound;
  d ← for_each_sched_entity n (λ d _, mret (true, d + 1)) 0 (Some s);
  mret d.2.

(** [k] steps up the hierarchy. *)
Fixpoint walk_up (k : nat) (s : se_ptr) : R se_ptr :=
  match k with
  | O => mret s
  | S k' => n ← parent_entity s; x ← deref n; walk_up k' x
  end.

Fixpoint match_groups (fuel : nat) (s ps : se_ptr) : R (se_ptr * se_ptr) :=
  match fuel with
  | O => fail OutOfFuel
  | S fuel' =>
      same ← is_same_group s ps;
      if same : bool then mret (s, ps)
      else
        n ← parent_entity s;
        pn ← parent_entity ps;
        s' ← deref n;
        ps' ← deref pn;
        match_groups fuel' s' ps'
  end.

Definition find_matching_se (s ps : se_ptr) : R (se_ptr * se_ptr) :=
  d ← depth_se s;
  pd ← depth_se ps;
  s ← walk_up (Z.to_nat (d - pd)) s;
  ps ← walk_up (Z.to_nat (pd - d)) ps;
  n ← depth_bound;
  match_groups n s ps.

Definition list_add_leaf_cfs_rq (c : Z) : R unit :=
  q ← load_cfs c;
  if on_list q then mret tt
  else
    g ← load_group c;
    parent_listed ← match tg_parent g with
                    | Some pg => pq ← load_cfs pg; mret (on_list pq)
                    | None => mret false
                    end;
    _ ← modify (λ r, r <| leaf_cfs_rq_list ::=
                  λ l, if parent_listed : bool then c :: l else l ++ [c] |>);
    store_cfs c (λ q, q <| on_list := true |>).

Definition list_del_leaf_cfs_rq (c : Z) : R unit :=
  q ← load_cfs c;
  if on_list q then
    _ ← modify (λ r, r <| leaf_cfs_rq_list ::= remove_one c |>);
    store_cfs c (λ q, q <| on_list := false |>)
  else mret tt.

(** ** The run time of limited groups *)

Definition sched_cfs_bandwidth_slice : R Z :=
  t ← gets tun;
  mret (u64 (sysctl_sched_cfs_bandwidth_slice t * NSEC_PER_USEC)).

Definition __refill_cfs_bandwidth_runtime (g : Z) : R unit :=
  t ← load_group g;
  if quota (bandwidth t) =? RUNTIME_INF then mret tt
  else
    now ← gets hw_clock;
    store_bandwidth g (λ b, b <| runtime := quota b |>
                              <| b_runtime_expires := u64 (now + period b) |>).

(** The timer is armed when the call returns. *)
Definition start_bandwidth_timer (g : Z) (slack : bool) : R unit :=
  store_bandwidth g (λ b, if slack then b <| slack_timer := true |>
                          else b <| period_timer := true |>).

(** A timer that is still armed is cancelled first. *)
Definition __start_cfs_bandwidth (g : Z) : R unit :=
  t ← load_group g;
  stop ← (if period_timer (bandwidth t) then
            _ ← store_bandwidth g (λ b, b <| period_timer := false |>);
            t ← load_group g;
            mret (timer_active (bandwidth t))
          else mret false);
  if stop : bool then mret tt
  else
    _ ← store_bandwidth g (λ b, b <| timer_active := true |>);
    start_bandwidth_timer g false.

(** What the pool of the group gives, at most [min_amount]. *)
Definition take_from_pool (g min_amount : Z) : R Z :=
  t ← load_group g;
  if quota (bandwidth t) =? RUNTIME_INF then mret min_amount
  else
    _ ← (if timer_active (bandwidth t) then mret tt
         else
           _ ← __refill_cfs_bandwidth_runtime g;
           __start_cfs_bandwidth g);
    t ← load_group g;
    if 0 <? runtime (bandwidth t) then
      let amount := Z.min (runtime (bandwidth t)) min_amount in
      _ ← store_bandwidth g (λ b, b <| runtime := u64 (runtime b - amount) |> <| b_idle := false |>);
      mret amount
    else mret 0.

Definition assign_cfs_rq_runtime (c : Z) : R bool :=
  slice ← sched_cfs_bandwidth_slice;
  q ← load_cfs c;
  amount ← take_from_pool c (u64 (slice - runtime_remaining q));
  t ← load_group c;
  let expires := b_runtime_expires (bandwidth t) in
  _ ← store_cfs c (λ q, q <| runtime_remaining := s64 (runtime_remaining q + amount) |>);
  _ ← store_cfs c (λ q, if 0 <? s64 (expires - runtime_expires q)
                        then q <| runtime_expires := expires |> else q);
  q ← load_cfs c;
  mret (0 <? runtime_remaining q).

Definition expire_cfs_rq_runtime (c : Z) : R unit :=
  t ← load_group c;
  now ← gets clock;
  q ← load_cfs c;
  if s64 (now - runtime_expires q) <? 0 then mret tt
  else if runtime_remaining q <? 0 then mret tt
  else if 0 <=? s64 (runtime_expires q - b_runtime_expires (bandwidth t)) then
    store_cfs c (λ q, q <| runtime_expires := u64 (runtime_expires q + TICK_NSEC) |>)
  else store_cfs c (λ q, q <| runtime_remaining := 0 |>).

Definition __account_cfs_rq_runtime (c delta_exec : Z) : R unit :=
  _ ← store_cfs c (λ q, q <| runtime_remaining := s64 (runtime_remaining q - delta_exec) |>);
  _ ← expire_cfs_rq_runtime c;
  q ← load_cfs c;
  if 0 <? runtime_remaining q then mret tt
  else
    got ← assign_cfs_rq_runtime c;
    q ← load_cfs c;
    match got, c_curr q with
    | false, Some _ => p ← gets curr; resched_task p
    | _, _ => mret tt
    end.

Definition account_cfs_rq_runtime (c delta_exec : Z) : R unit :=
  q ← load_cfs c;
  if negb cfs_bandwidth_used || negb (runtime_enabled q) then mret tt
  else __account_cfs_rq_runtime c delta_exec.

Definition cfs_rq_throttled (c : Z) : R bool :=
  q ← load_cfs c;
  mret (cfs_bandwidth_used && throttled q).

Definition throttled_hierarchy (c : Z) : R bool :=
  q ← load_cfs c;
  mret (cfs_bandwidth_used && negb (throttle_count q =? 0)).

Definition runtime_refresh_within (g min_expire : Z) : R bool :=
  r ← get;
  if hrtimer_callback_running g r then mret true
  else mret (u64 (hrtimer_expires_remaining g r) <? min_expire).

Definition start_cfs_slack_bandwidth (g : Z) : R unit :=
  soon ← runtime_refresh_within g (cfs_bandwidth_slack_period + min_bandwidth_expiration);
  if soon : bool then mret tt else start_bandwidth_timer g true.

Definition __return_cfs_rq_runtime (c : Z) : R unit :=
  q ← load_cfs c;
  let slack_runtime := s64 (runtime_remaining q - min_cfs_rq_runtime) in
  if slack_runtime <=? 0 then mret tt
  else
    t ← load_group c;
    _ ← (if negb (quota (bandwidth t) =? RUNTIME_INF)
            && (runtime_expires q =? b_runtime_expires (bandwidth t)) then
           _ ← store_bandwidth c (λ b, b <| runtime := u64 (runtime b + slack_runtime) |>);
           t ← load_group c;
           slice ← sched_cfs_bandwidth_slice;
           match (slice <? runtime (bandwidth t)), throttled_cfs_rq (bandwidth t) with
           | true, _ :: _ => start_cfs_slack_bandwidth c
           | _, _ => mret tt
           end
         else mret tt);
    store_cfs c (λ q, q <| runtime_remaining := s64 (runtime_remaining q - slack_runtime) |>).

Definition return_cfs_rq_runtime (c : Z) : R unit :=
  if negb cfs_bandwidth_used then mret tt
  else
    q ← load_cfs c;
    if negb (runtime_enabled q) || negb (c_nr_running q =? 0) then mret tt
    else __return_cfs_rq_runtime c.

(** ** The time line *)

Definition update_min_vruntime (c : Z) : R unit :=
  q ← load_cfs c;
  v ← match c_curr q with
      | Some s => e ← load_se s; mret (vruntime e)
      | None => mret (min_vruntime q)
      end;
  v ← match rb_leftmost q with
      | Some s =>
          e ← load_se s;
          match c_curr q with
          | None => mret (vruntime e)
          | Some _ => mret (min_of_vruntime v (vruntime e))
          end
      | None => mret v
      end;
  _ ← store_cfs c (λ q, q <| min_vruntime := max_vruntime (min_vruntime q) v |>);
  store_cfs c (λ q, q <| min_vruntime_copy := min_vruntime q |>).

(** The descent to the place of a new leaf: the tree with the leaf, and whether
    every step went left. *)
Fixpoint rb_link (s : se_ptr) (e : sched_entity) (leftmost : bool) (t : rb_tree)
    : R (rb_tree * bool) :=
  match t with
  | RB_ROOT => mret (rb_node RB_ROOT s RB_ROOT, leftmost)
  | rb_node l x r =>
      entry ← load_se x;
      if entity_before e entry
      then lm ← rb_link s e leftmost l; mret (rb_node lm.1 x r, lm.2)
      else rm ← rb_link s e false r; mret (rb_node l x rm.1, rm.2)
  end.

Definition __enqueue_entity (c : Z) (s : se_ptr) : R unit :=
  q ← load_cfs c;
  e ← load_se s;
  tl ← rb_link s e true (tasks_timeline q);
  _ ← (if tl.2 : bool then store_cfs c (λ q, q <| rb_leftmost := Some s |>) else mret tt);
  store_cfs c (λ q, q <| tasks_timeline := rb_insert_color s tl.1 |>).

Definition __dequeue_entity (c : Z) (s : se_ptr) : R unit :=
  q ← load_cfs c;
  _ ← (if decide (rb_leftmost q = Some s)
       then store_cfs c (λ q, q <| rb_leftmost := rb_next s (tasks_timeline q) |>)
       else mret tt);
  store_cfs c (λ q, q <| tasks_timeline ::= rb_erase s |>).

Definition __pick_first_entity (c : Z) : R (option se_ptr) :=
  q ← load_cfs c;
  mret (rb_leftmost q).

Definition __pick_next_entity (c : Z) (s : se_ptr) : R (option se_ptr) :=
  q ← load_cfs c;
  mret (rb_next s (tasks_timeline q)).

(** ** Slices and virtual run time *)

Definition calc_delta_fair (delta : Z) (s : se_ptr) : R Z :=
  e ← load_se s;
  if negb (weight (load e) =? NICE_0_LOAD) then
    let '(d, lw) := calc_delta_mine delta NICE_0_LOAD (load e) in
    _ ← store_se s (λ e, e <| load := lw |>);
    mret d
  else mret delta.

Definition __sched_period (nr : Z) : R Z :=
  t ← gets tun;
  if sched_nr_latency t <? nr then mret (u64 (sysctl_sched_min_granularity t * nr))
  else mret (sysctl_sched_latency t).

Definition slice_step (slice : Z) (s : se_ptr) : R (bool * Z) :=
  c ← cfs_rq_of s;
  q ← load_cfs c;
  e ← load_se s;
  if se_on_rq e =? 0 then
    let lw := update_load_add (c_load q) (weight (load e)) in
    mret (true, (calc_delta_mine (u32 slice) (weight (load e)) lw).1)
  else
    let '(d, lw) := calc_delta_mine (u32 slice) (weight (load e)) (c_load q) in
    _ ← store_cfs c (λ q, q <| c_load := lw |>);
    mret (true, d).

Definition sched_slice (c : Z) (s : se_ptr) : R Z :=
  q ← load_cfs c;
  e ← load_se s;
  period ← __sched_period (u32 (c_nr_running q + b2z (se_on_rq e =? 0)));
  n ← depth_bound;
  r ← for_each_sched_entity n slice_step period (Some s);
  mret r.2.

Definition sched_vslice (c : Z) (s : se_ptr) : R Z :=
  slice ← sched_slice c s;
  calc_delta_fair (u32 slice) s.

Definition __update_curr (c : Z) (s : se_ptr) (delta_exec : Z) : R unit :=
  _ ← store_se s (λ e, e <| sum_exec_runtime := u64 (sum_exec_runtime e + delta_exec) |>);
  w ← calc_delta_fair delta_exec s;
  _ ← store_se s (λ e, e <| vruntime := u64 (vruntime e + w) |>);
  update_min_vruntime c.

Definition update_curr (c : Z) : R unit :=
  q ← load_cfs c;
  now ← gets clock_task;
  match c_curr q with
  | None => mret tt
  | Some s =>
      e ← load_se s;
      let delta_exec := u32 (now - exec_start e) in
      if delta_exec =? 0 then mret tt
      else
        _ ← __update_curr c s delta_exec;
        _ ← store_se s (λ e, e <| exec_start := now |>);
        account_cfs_rq_runtime c delta_exec
  end.

Definition update_stats_curr_start (s : se_ptr) : R unit :=
  now ← gets clock_task;
  store_se s (λ e, e <| exec_start := now |>).

(** ** Accounting and shares *)

Definition account_entity_enqueue (c : Z) (s : se_ptr) : R unit :=
  e ← load_se s;
  _ ← store_cfs c (λ q, q <| c_load := update_load_add (c_load q) (weight (load e)) |>);
  p ← parent_entity s;
  _ ← match p with
      | None => modify (λ r, r <| rq_load := update_load_add (rq_load r) (weight (load e)) |>)
      | Some _ => mret tt
      end;
  store_cfs c (λ q, q <| c_nr_running := u32 (c_nr_running q + 1) |>).

Definition account_entity_dequeue (c : Z) (s : se_ptr) : R unit :=
  e ← load_se s;
  _ ← store_cfs c (λ q, q <| c_load := update_load_sub (c_load q) (weight (load e)) |>);
  p ← parent_entity s;
  _ ← match p with
      | None => modify (λ r, r <| rq_load := update_load_sub (rq_load r) (weight (load e)) |>)
      | Some _ => mret tt
      end;
  store_cfs c (λ q, q <| c_nr_running := u32 (c_nr_running q - 1) |>).

Definition update_cfs_load (c : Z) : R unit := mret tt.

Definition calc_cfs_shares (c : Z) : R Z :=
  g ← load_group c;
  mret (shares g).

Definition update_entity_shares_tick (c : Z) : R unit := mret tt.

Definition reweight_entity (c : Z) (s : se_ptr) (w : Z) : R unit :=
  e ← load_se s;
  _ ← (if negb (se_on_rq e =? 0) then
         q ← load_cfs c;
         _ ← (if decide (c_curr q = Some s) then update_curr c else mret tt);
         account_entity_dequeue c s
       else mret tt);
  _ ← store_se s (λ e, e <| load := update_load_set (load e) w |>);
  e ← load_se s;
  if negb (se_on_rq e =? 0) then account_entity_enqueue c s else mret tt.

Definition update_cfs_shares (c : Z) : R unit :=
  g ← load_group c;
  th ← throttled_hierarchy c;
  match tg_se g with
  | None => mret tt
  | Some s =>
      if th : bool then mret tt
      else
        e ← load_se s;
        if weight (load e) =? shares g then mret tt
        else
          w ← calc_cfs_shares c;
          c' ← cfs_rq_of s;
          reweight_entity c' s w
  end.

(** ** Queueing entities *)

Definition place_entity (c : Z) (s : se_ptr) (initial : bool) : R unit :=
  q ← load_cfs c;
  v ← (if initial && feat_START_DEBIT
       then vs ← sched_vslice c s; mret (u64 (min_vruntime q + vs))
       else mret (min_vruntime q));
  t ← gets tun;
  let v :=
    if initial then v
    else
      let thresh := sysctl_sched_latency t in
      let thresh := if feat_GENTLE_FAIR_SLEEPERS then Z.shiftr thresh 1 else thresh in
      u64 (v - thresh) in
  store_se s (λ e, e <| vruntime := max_vruntime (vruntime e) v |>).

Definition __clear_buddies_last (s : se_ptr) : R unit :=
  n ← depth_bound;
  _ ← for_each_sched_entity n
        (λ _ x, c ← cfs_rq_of x;
                q ← load_cfs c;
                if decide (c_last q = Some x)
                then _ ← store_cfs c (λ q, q <| c_last := None |>); mret (true, tt)
                else mret (false, tt)) tt (Some s);
  mret tt.

Definition __clear_buddies_next (s : se_ptr) : R unit :=
  n ← depth_bound;
  _ ← for_each_sched_entity n
        (λ _ x, c ← cfs_rq_of x;
                q ← load_cfs c;
                if decide (c_next q = Some x)
                then _ ← store_cfs c (λ q, q <| c_next := None |>); mret (true, tt)
                else mret (false, tt)) tt (Some s);
  mret tt.

Definition __clear_buddies_skip (s : se_ptr) : R unit :=
  n ← depth_bound;
  _ ← for_each_sched_entity n
        (λ _ x, c ← cfs_rq_of x;
                q ← load_cfs c;
                if decide (c_skip q = Some x)
                then _ ← store_cfs c (λ q, q <| c_skip := None |>); mret (true, tt)
                else mret (false, tt)) tt (Some s);
  mret tt.

Definition clear_buddies (c : Z) (s : se_ptr) : R unit :=
  q ← load_cfs c;
  _ ← (if decide (c_last q = Some s) then __clear_buddies_last s else mret tt);
  q ← load_cfs c;
  _ ← (if decide (c_next q = Some s) then __clear_buddies_next s else mret tt);
  q ← load_cfs c;
  if decide (c_skip q = Some s) then __clear_buddies_skip s else mret tt.

Definition dequeue_entity (c : Z) (s : se_ptr) (flags : Z) : R unit :=
  _ ← update_curr c;
  _ ← clear_buddies c s;
  q ← load_cfs c;
  _ ← (if decide (c_curr q = Some s) then mret tt else __dequeue_entity c s);
  _ ← store_se s (λ e, e <| se_on_rq := 0 |>);
  _ ← update_cfs_load c;
  _ ← account_entity_dequeue c s;
  _ ← (if has_flag flags DEQUEUE_SLEEP then mret tt
       else
         q ← load_cfs c;
         store_se s (λ e, e <| vruntime := u64 (vruntime e - min_vruntime q) |>));
  _ ← return_cfs_rq_runtime c;
  _ ← update_min_vruntime c;
  update_cfs_shares c.

(** ** Throttling *)

(** Pre- and postorder walk over the groups below [from]; a visitor that answers
    anything but 0 ends it. *)
Fixpoint walk_tg_tree_from (fuel : nat) (from : Z) (down up : Z → R Z) : R Z :=
  match fuel with
  | O => fail OutOfFuel
  | S fuel' =>
      ret ← down from;
      if negb (ret =? 0) then mret ret
      else
        g ← load_group from;
        ret ← (fix visit (cs : list Z) : R Z :=
                 match cs with
                 | [] => mret 0
                 | child :: cs' =>
                     ret ← walk_tg_tree_from fuel' child down up;
                     if negb (ret =? 0) then mret ret else visit cs'
                 end) (children g);
        if negb (ret =? 0) then mret ret else up from
  end.

Definition tg_nop (g : Z) : R Z := mret 0.

Definition tg_unthrottle_up (g : Z) : R Z :=
  _ ← store_cfs g (λ q, q <| throttle_count := s32 (throttle_count q - 1) |>);
  mret 0.

Definition tg_throttle_down (g : Z) : R Z :=
  q ← load_cfs g;
  _ ← (if throttle_count q =? 0 then update_cfs_load g else mret tt);
  _ ← store_cfs g (λ q, q <| throttle_count := s32 (throttle_count q + 1) |>);
  mret 0.

Definition group_bound : R nat :=
  r ← get;
  mret (S (size (groups r))).

Definition throttle_step (task_delta : Z) (dequeue : bool) (s : se_ptr) : R (bool * bool) :=
  c ← cfs_rq_of s;
  e ← load_se s;
  if se_on_rq e =? 0 then mret (false, dequeue)
  else
    _ ← (if dequeue then dequeue_entity c s DEQUEUE_SLEEP else mret tt);
    _ ← store_cfs c (λ q, q <| h_nr_running := u32 (h_nr_running q - task_delta) |>);
    q ← load_cfs c;
    mret (true, if negb (weight (c_load q) =? 0) then false else dequeue).

Definition throttle_cfs_rq (c : Z) : R unit :=
  g ← load_group c;
  n ← group_bound;
  _ ← walk_tg_tree_from n c tg_throttle_down tg_nop;
  q ← load_cfs c;
  let task_delta := h_nr_running q in
  d ← depth_bound;
  r ← for_each_sched_entity d (throttle_step task_delta) true (tg_se g);
  _ ← match r.1 with
      | None => modify (λ r, r <| nr_running := u32 (nr_running r - task_delta) |>)
      | Some _ => mret tt
      end;
  now ← gets clock;
  _ ← store_cfs c (λ q, q <| throttled := true |> <| throttled_timestamp := now |>);
  store_bandwidth c (λ b, b <| throttled_cfs_rq := throttled_cfs_rq b ++ [c] |>).

Definition check_enqueue_throttle (c : Z) : R unit :=
  if negb cfs_bandwidth_used then mret tt
  else
    q ← load_cfs c;
    match runtime_enabled q, c_curr q with
    | true, None =>
        th ← cfs_rq_throttled c;
        if th : bool then mret tt
        else
          _ ← account_cfs_rq_runtime c 0;
          q ← load_cfs c;
          if runtime_remaining q <=? 0 then throttle_cfs_rq c else mret tt
    | _, _ => mret tt
    end.

Definition check_cfs_rq_runtime (c : Z) : R unit :=
  if negb cfs_bandwidth_used then mret tt
  else
    q ← load_cfs c;
    if negb (runtime_enabled q) || (0 <? runtime_remaining q) then mret tt
    else
      th ← cfs_rq_throttled c;
      if th : bool then mret tt else throttle_cfs_rq c.

Definition enqueue_entity (c : Z) (s : se_ptr) (flags : Z) : R unit :=
  _ ← (if negb (has_flag flags ENQUEUE_WAKEUP) || has_flag flags ENQUEUE_WAKING then
         q ← load_cfs c;
         store_se s (λ e, e <| vruntime := u64 (vruntime e + min_vruntime q) |>)
       else mret tt);
  _ ← update_curr c;
  _ ← update_cfs_load c;
  _ ← account_entity_enqueue c s;
  _ ← update_cfs_shares c;
  _ ← (if has_flag flags ENQUEUE_WAKEUP then place_entity c s false else mret tt);
  q ← load_cfs c;
  _ ← (if decide (c_curr q = Some s) then mret tt else __enqueue_entity c s);
  _ ← store_se s (λ e, e <| se_on_rq := 1 |>);
  q ← load_cfs c;
  if c_nr_running q =? 1 then
    _ ← list_add_leaf_cfs_rq c;
    check_enqueue_throttle c
  else mret tt.

Definition unthrottle_step (task_delta : Z) (enqueue : bool) (s : se_ptr) : R (bool * bool) :=
  e ← load_se s;
  let enqueue := if negb (se_on_rq e =? 0) then false else enqueue in
  c ← cfs_rq_of s;
  _ ← (if enqueue then enqueue_entity c s ENQUEUE_WAKEUP else mret tt);
  _ ← store_cfs c (λ q, q <| h_nr_running := u32 (h_nr_running q + task_delta) |>);
  th ← cfs_rq_throttled c;
  mret (negb th, enqueue).

Definition unthrottle_cfs_rq (c : Z) : R unit :=
  g ← load_group c;
  _ ← store_cfs c (λ q, q <| throttled := false |>);
  now ← gets clock;
  q ← load_cfs c;
  _ ← store_bandwidth c (λ b, b
        <| throttled_time := u64 (throttled_time b + (now - throttled_timestamp q)) |>
        <| throttled_cfs_rq ::= remove_one c |>);
  _ ← store_cfs c (λ q, q <| throttled_timestamp := 0 |>);
  _ ← update_rq_clock;
  n ← group_bound;
  _ ← walk_tg_tree_from n c tg_nop tg_unthrottle_up;
  q ← load_cfs c;
  if weight (c_load q) =? 0 then mret tt
  else
    let task_delta := h_nr_running q in
    d ← depth_bound;
    r ← for_each_sched_entity d (unthrottle_step task_delta) true (tg_se g);
    _ ← match r.1 with
        | None => modify (λ r, r <| nr_running := u32 (nr_running r + task_delta) |>)
        | Some _ => mret tt
        end;
    rs ← get;
    root ← load_cfs 0;
    if (curr rs =? idle rs) && negb (c_nr_running root =? 0) then resched_task (curr rs)
    else mret tt.

(** The queues that were throttled when the walk began. *)
Fixpoint distribute_to (cs : list Z) (remaining expires : Z) : R Z :=
  match cs with
  | [] => mret remaining
  | c :: cs' =>
      th ← cfs_rq_throttled c;
      remaining ←
        (if th : bool then
           q ← load_cfs c;
           let want := u64 (- runtime_remaining q + 1) in
           let given := if remaining <? want then remaining else want in
           _ ← store_cfs c (λ q, q <| runtime_remaining := s64 (runtime_remaining q + given) |>
                                   <| runtime_expires := expires |>);
           q ← load_cfs c;
           _ ← (if 0 <? runtime_remaining q then unthrottle_cfs_rq c else mret tt);
           mret (u64 (remaining - given))
         else mret remaining);
      if remaining =? 0 then mret remaining else distribute_to cs' remaining expires
  end.

Definition distribute_cfs_runtime (g remaining expires : Z) : R Z :=
  t ← load_group g;
  distribute_to (throttled_cfs_rq (bandwidth t)) remaining expires.

Fixpoint distribute_all (fuel : nat) (g remaining expires : Z) : R Z :=
  t ← load_group g;
  match throttled_cfs_rq (bandwidth t), (0 <? remaining) with
  | _ :: _, true =>
      match fuel with
      | O => fail OutOfFuel
      | S fuel' =>
          remaining ← distribute_cfs_runtime g remaining expires;
          distribute_all fuel' g remaining expires
      end
  | _, _ => mret remaining
  end.

(** Work of a period that is not idle. *)
Definition period_refill (fuel : nat) (g overrun : Z) (throttled : bool) : R unit :=
  _ ← __refill_cfs_bandwidth_runtime g;
  if negb throttled then store_bandwidth g (λ b, b <| b_idle := true |>)
  else
    _ ← store_bandwidth g (λ b, b <| nr_throttled := s32 (nr_throttled b + overrun) |>);
    t ← load_group g;
    let expires := b_runtime_expires (bandwidth t) in
    _ ← store_bandwidth g (λ b, b <| runtime := 0 |>);
    rest ← distribute_all fuel g (runtime (bandwidth t)) expires;
    store_bandwidth g (λ b, b <| runtime := rest |> <| b_idle := false |>).

Definition do_sched_cfs_period_timer (fuel : nat) (g overrun : Z) : R bool :=
  t ← load_group g;
  idle ← (if quota (bandwidth t) =? RUNTIME_INF then mret true
          else
            let throttled := match throttled_cfs_rq (bandwidth t) with [] => false | _ => true end in
            let idle := b_idle (bandwidth t) && negb throttled in
            _ ← store_bandwidth g (λ b, b <| nr_periods := s32 (nr_periods b + overrun) |>);
            _ ← (if idle then mret tt else period_refill fuel g overrun throttled);
            mret idle);
  _ ← (if idle : bool then store_bandwidth g (λ b, b <| timer_active := false |>) else mret tt);
  mret idle.

(** [overruns] are the answers of [hrtimer_forward] before the first 0; the
    result is whether the timer stays armed. *)
Fixpoint sched_cfs_period_timer (fuel : nat) (g : Z) (overruns : list Z) (idle : bool) : R bool :=
  match overruns with
  | [] => mret (negb idle)
  | o :: os =>
      idle ← do_sched_cfs_period_timer fuel g o;
      sched_cfs_period_timer fuel g os idle
  end.

Definition do_sched_cfs_slack_timer (g : Z) : R unit :=
  slice ← sched_cfs_bandwidth_slice;
  soon ← runtime_refresh_within g min_bandwidth_expiration;
  if soon : bool then mret tt
  else
    t ← load_group g;
    let b := bandwidth t in
    given ← (if negb (quota b =? RUNTIME_INF) && (slice <? runtime b) then
               _ ← store_bandwidth g (λ b, b <| runtime := 0 |>);
               mret (runtime b)
             else mret 0);
    let expires := b_runtime_expires b in
    if given =? 0 then mret tt
    else
      rest ← distribute_cfs_runtime g given expires;
      t ← load_group g;
      if expires =? b_runtime_expires (bandwidth t)
      then store_bandwidth g (λ b, b <| runtime := rest |>)
      else mret tt.

Definition init_cfs_bandwidth (g : Z) : R unit :=
  store_bandwidth g (λ b, b <| runtime := 0 |> <| quota := RUNTIME_INF |>
    <| period := default_cfs_period |> <| throttled_cfs_rq := [] |>
    <| period_timer := false |> <| slack_timer := false |>).

Definition init_cfs_rq_runtime (c : Z) : R unit :=
  store_cfs c (λ q, q <| runtime_enabled := false |>).

Definition destroy_cfs_bandwidth (g : Z) : R unit :=
  store_bandwidth g (λ b, b <| period_timer := false |> <| slack_timer := false |>).

Definition unthrottle_offline_cfs_rqs : R unit :=
  l ← gets leaf_cfs_rq_list;
  for_each l (λ c,
    t ← load_group c;
    q ← load_cfs c;
    if negb (runtime_enabled q) then mret tt
    else
      _ ← store_cfs c (λ q, q <| runtime_remaining := s64 (quota (bandwidth t)) |>);
      th ← cfs_rq_throttled c;
      if th : bool then unthrottle_cfs_rq c else mret tt).

(** ** Buddies and preemption *)

Definition wakeup_gran (s : se_ptr) : R Z :=
  t ← gets tun;
  calc_delta_fair (sysctl_sched_wakeup_granularity t) s.

Definition wakeup_preempt_entity (cs s : se_ptr) : R Z :=
  c ← load_se cs;
  e ← load_se s;
  let vdiff := s64 (vruntime c - vruntime e) in
  if vdiff <=? 0 then mret (-1)
  else
    gran ← wakeup_gran s;
    if gran <? vdiff then mret 1 else mret 0.

Definition is_idle_task (s : se_ptr) : R bool :=
  e ← load_se s;
  if entity_is_task e then
    p ← task_of s;
    t ← load_task p;
    mret (policy t =? SCHED_IDLE)
  else mret false.

Definition set_last_buddy (s : se_ptr) : R unit :=
  idle ← is_idle_task s;
  if idle : bool then mret tt
  else
    n ← depth_bound;
    _ ← for_each_sched_entity n
          (λ _ x, c ← cfs_rq_of x;
                  _ ← store_cfs c (λ q, q <| c_last := Some x |>);
                  mret (true, tt)) tt (Some s);
    mret tt.

Definition set_next_buddy (s : se_ptr) : R unit :=
  idle ← is_idle_task s;
  if idle : bool then mret tt
  else
    n ← depth_bound;
    _ ← for_each_sched_entity n
          (λ _ x, c ← cfs_rq_of x;
                  _ ← store_cfs c (λ q, q <| c_next := Some x |>);
                  mret (true, tt)) tt (Some s);
    mret tt.

Definition set_skip_buddy (s : se_ptr) : R unit :=
  n ← depth_bound;
  _ ← for_each_sched_entity n
        (λ _ x, c ← cfs_rq_of x;
                _ ← store_cfs c (λ q, q <| c_skip := Some x |>);
                mret (true, tt)) tt (Some s);
  mret tt.

Definition check_preempt_tick (c : Z) (s : se_ptr) : R unit :=
  slice ← sched_slice c s;
  let ideal_runtime := u32 slice in
  e ← load_se s;
  t ← gets tun;
  let delta_exec := u32 (sum_exec_runtime e - prev_sum_exec_runtime e) in
  if ideal_runtime <? delta_exec then
    p ← gets curr;
    _ ← resched_task p;
    clear_buddies c s
  else if delta_exec <? sysctl_sched_min_granularity t then mret tt
  else
    f ← __pick_first_entity c;
    x ← deref f;
    fe ← load_se x;
    let delta := s64 (vruntime e - vruntime fe) in
    if delta <? 0 then mret tt
    else if ideal_runtime <? delta then p ← gets curr; resched_task p
    else mret tt.

Definition set_next_entity (c : Z) (s : se_ptr) : R unit :=
  e ← load_se s;
  _ ← (if negb (se_on_rq e =? 0) then __dequeue_entity c s else mret tt);
  _ ← update_stats_curr_start s;
  _ ← store_cfs c (λ q, q <| c_curr := Some s |>);
  store_se s (λ e, e <| prev_sum_exec_runtime := sum_exec_runtime e |>).

(** A buddy is taken if that is not too unfair to the leftmost entity. *)
Definition try_buddy (b : option se_ptr) (left choice : option se_ptr) : R (option se_ptr) :=
  match b with
  | None => mret choice
  | Some x =>
      l ← deref left;
      w ← wakeup_preempt_entity x l;
      if w <? 1 then mret (Some x) else mret choice
  end.

Definition pick_next_entity (c : Z) : R se_ptr :=
  left ← __pick_first_entity c;
  q ← load_cfs c;
  choice ← (if decide (c_skip q = left) then
              l ← deref left;
              second ← __pick_next_entity c l;
              try_buddy second left left
            else mret left);
  choice ← try_buddy (c_last q) left choice;
  choice ← try_buddy (c_next q) left choice;
  s ← deref choice;
  _ ← clear_buddies c s;
  mret s.

Definition put_prev_entity (c : Z) (s : se_ptr) : R unit :=
  e ← load_se s;
  _ ← (if negb (se_on_rq e =? 0) then update_curr c else mret tt);
  _ ← check_cfs_rq_runtime c;
  e ← load_se s;
  _ ← (if negb (se_on_rq e =? 0) then __enqueue_entity c s else mret tt);
  store_cfs c (λ q, q <| c_curr := None |>).

Definition entity_tick (c : Z) (s : se_ptr) : R unit :=
  _ ← update_curr c;
  _ ← update_entity_shares_tick c;
  q ← load_cfs c;
  if 1 <? c_nr_running q then check_preempt_tick c s else mret tt.

(** ** The methods of the class *)

Definition enqueue_step (flags : Z) (s : se_ptr) : R (bool * Z) :=
  e ← load_se s;
  if negb (se_on_rq e =? 0) then mret (false, flags)
  else
    c ← cfs_rq_of s;
    _ ← enqueue_entity c s flags;
    th ← cfs_rq_throttled c;
    if th : bool then mret (false, flags)
    else
      _ ← store_cfs c (λ q, q <| h_nr_running := u32 (h_nr_running q + 1) |>);
      mret (true, ENQUEUE_WAKEUP).

Definition count_step (d : Z) (_ : unit) (s : se_ptr) : R (bool * unit) :=
  c ← cfs_rq_of s;
  _ ← store_cfs c (λ q, q <| h_nr_running := u32 (h_nr_running q + d) |>);
  th ← cfs_rq_throttled c;
  if th : bool then mret (false, tt)
  else
    _ ← update_cfs_load c;
    _ ← update_cfs_shares c;
    mret (true, tt).

Definition enqueue_task_fair (p flags : Z) : R unit :=
  n ← depth_bound;
  r ← for_each_sched_entity n enqueue_step flags (Some (TaskSe p));
  r ← for_each_sched_entity n (count_step 1) tt r.1;
  match r.1 with None => inc_nr_running | Some _ => mret tt end.

(** The loop leaves with [break] at the entity, or at its parent when that has
    other entities. *)
Definition dequeue_step (task_sleep : bool) (a : Z * option (option se_ptr)) (s : se_ptr)
    : R (bool * (Z * option (option se_ptr))) :=
  c ← cfs_rq_of s;
  _ ← dequeue_entity c s a.1;
  th ← cfs_rq_throttled c;
  if th : bool then mret (false, a)
  else
    _ ← store_cfs c (λ q, q <| h_nr_running := u32 (h_nr_running q - 1) |>);
    q ← load_cfs c;
    if negb (weight (c_load q) =? 0) then
      p ← parent_entity s;
      _ ← match task_sleep, p with
          | true, Some x => set_next_buddy x
          | _, _ => mret tt
          end;
      mret (false, (a.1, Some p))
    else mret (true, (Z.lor a.1 DEQUEUE_SLEEP, None)).

Definition dequeue_task_fair (p flags : Z) : R unit :=
  n ← depth_bound;
  r ← for_each_sched_entity n (dequeue_step (has_flag flags DEQUEUE_SLEEP)) (flags, None)
        (Some (TaskSe p));
  let s := match r.2.2 with Some s => s | None => r.1 end in
  r ← for_each_sched_entity n (count_step (-1)) tt s;
  match r.1 with None => dec_nr_running | Some _ => mret tt end.

Definition check_preempt_wakeup (p wake_flags : Z) : R unit :=
  cp ← gets curr;
  let s := TaskSe cp in
  let ps := TaskSe p in
  c ← cfs_rq_of s;
  q ← load_cfs c;
  tn ← gets tun;
  let scale := sched_nr_latency tn <=? c_nr_running q in
  if decide (s = ps) then mret tt
  else
    pc ← cfs_rq_of ps;
    th ← throttled_hierarchy pc;
    if th : bool then mret tt
    else
      let mark := feat_NEXT_BUDDY && scale && negb (has_flag wake_flags WF_FORK) in
      _ ← (if mark then set_next_buddy ps else mret tt);
      ct ← load_task cp;
      t ← load_task p;
      if need_resched ct then mret tt
      else
        preempt ←
          (if (policy ct =? SCHED_IDLE) && negb (policy t =? SCHED_IDLE) then mret (Some s)
           else if negb (policy t =? SCHED_NORMAL) then mret None
           else
             m ← find_matching_se s ps;
             mc ← cfs_rq_of m.1;
             _ ← update_curr mc;
             w ← wakeup_preempt_entity m.1 m.2;
             if w =? 1 then
               _ ← (if mark then mret tt else set_next_buddy m.2);
               mret (Some m.1)
             else mret None);
        match preempt with
        | None => mret tt
        | Some s =>
            _ ← resched_task cp;
            e ← load_se s;
            i ← gets idle;
            if (se_on_rq e =? 0) || (cp =? i) then mret tt
            else if feat_LAST_BUDDY && scale && entity_is_task e then set_last_buddy s
            else mret tt
        end.

(** Down the hierarchy from the root queue to a task. *)
Fixpoint pick_down (fuel : nat) (c : Z) : R se_ptr :=
  match fuel with
  | O => fail OutOfFuel
  | S fuel' =>
      s ← pick_next_entity c;
      _ ← set_next_entity c s;
      e ← load_se s;
      match my_q e with Some c' => pick_down fuel' c' | None => mret s end
  end.

Definition pick_next_task_fair : R (option Z) :=
  q ← load_cfs 0;
  if c_nr_running q =? 0 then mret None
  else
    n ← depth_bound;
    s ← pick_down n 0;
    p ← task_of s;
    mret (Some p).

Definition put_prev_task_fair (prev : Z) : R unit :=
  n ← depth_bound;
  _ ← for_each_sched_entity n
        (λ _ x, c ← cfs_rq_of x; _ ← put_prev_entity c x; mret (true, tt)) tt
        (Some (TaskSe prev));
  mret tt.

Definition yield_task_fair : R unit :=
  p ← gets curr;
  c ← cfs_rq_of (TaskSe p);
  n ← gets nr_running;
  if n =? 1 then mret tt
  else
    _ ← clear_buddies c (TaskSe p);
    t ← load_task p;
    _ ← (if negb (policy t =? SCHED_BATCH) then
           _ ← update_rq_clock;
           _ ← update_curr c;
           modify (λ r, r <| skip_clock_update := 1 |>)
         else mret tt);
    set_skip_buddy (TaskSe p).

Definition yield_to_task_fair (p : Z) (preempt : bool) : R bool :=
  e ← load_se (TaskSe p);
  th ← throttled_hierarchy (se_cfs_rq e);
  if (se_on_rq e =? 0) || th then mret false
  else
    _ ← set_next_buddy (TaskSe p);
    _ ← yield_task_fair;
    mret true.

Definition task_tick_fair (p queued : Z) : R unit :=
  n ← depth_bound;
  _ ← for_each_sched_entity n
        (λ _ x, c ← cfs_rq_of x; _ ← entity_tick c x; mret (true, tt)) tt (Some (TaskSe p));
  mret tt.

Definition task_fork_fair (current p : Z) : R unit :=
  let s := TaskSe p in
  _ ← update_rq_clock;
  c ← cfs_rq_of (TaskSe current);
  q ← load_cfs c;
  _ ← update_curr c;
  _ ← match c_curr q with
      | Some cs => ce ← load_se cs; store_se s (λ e, e <| vruntime := vruntime ce |>)
      | None => mret tt
      end;
  _ ← place_entity c s true;
  tn ← gets tun;
  _ ← match c_curr q with
      | Some cs =>
          ce ← load_se cs;
          e ← load_se s;
          if negb (sysctl_sched_child_runs_first tn =? 0) && entity_before ce e then
            _ ← store_se cs (λ x, x <| vruntime := vruntime e |>);
            _ ← store_se s (λ x, x <| vruntime := vruntime ce |>);
            p ← gets curr;
            resched_task p
          else mret tt
      | None => mret tt
      end;
  q ← load_cfs c;
  store_se s (λ e, e <| vruntime := u64 (vruntime e - min_vruntime q) |>).

Definition switched_from_fair (p : Z) : R unit :=
  t ← load_task p;
  c ← cfs_rq_of (TaskSe p);
  if (se_on_rq (se t) =? 0) && negb (state t =? TASK_RUNNING) then
    _ ← place_entity c (TaskSe p) false;
    q ← load_cfs c;
    store_se (TaskSe p) (λ e, e <| vruntime := u64 (vruntime e - min_vruntime q) |>)
  else mret tt.

Definition set_curr_task_fair : R unit :=
  p ← gets curr;
  n ← depth_bound;
  _ ← for_each_sched_entity n
        (λ _ x, c ← cfs_rq_of x;
                _ ← set_next_entity c x;
                _ ← account_cfs_rq_runtime c 0;
                mret (true, tt)) tt (Some (TaskSe p));
  mret tt.

Definition init_cfs_rq (c : Z) : R unit :=
  let v := u64 (- Z.shiftl 1 20) in
  store_cfs c (λ q, q <| tasks_timeline := RB_ROOT |> <| min_vruntime := v |>
                      <| min_vruntime_copy := v |>).

(** [set_task_rq]: the task moves to the queue of its group. *)
Definition set_task_rq (p : Z) : R unit :=
  let g := task_group_of p in
  t ← load_group g;
  store_se (TaskSe p) (λ e, e <| se_cfs_rq := g |> <| se_parent := tg_se t |>).

Definition task_move_group_fair (p on_rq : Z) : R unit :=
  t ← load_task p;
  let on_rq := if (on_rq =? 0) && ((sum_exec_runtime (se t) =? 0) || (state t =? TASK_WAKING))
               then 1 else on_rq in
  _ ← (if on_rq =? 0 then
         q ← load_cfs (se_cfs_rq (se t));
         store_se (TaskSe p) (λ e, e <| vruntime := u64 (vruntime e - min_vruntime q) |>)
       else mret tt);
  _ ← set_task_rq p;
  if on_rq =? 0 then
    c ← cfs_rq_of (TaskSe p);
    q ← load_cfs c;
    store_se (TaskSe p) (λ e, e <| vruntime := u64 (vruntime e + min_vruntime q) |>)
  else mret tt.

Definition unregister_fair_sched_group (g : Z) : R unit :=
  q ← load_cfs g;
  if on_list q then list_del_leaf_cfs_rq g else mret tt.

(** The queue and the entity of a group are set up; [parent] is the entity of
    the parent group. *)
Definition init_tg_cfs_entry (g : Z) (s parent : option se_ptr) : R unit :=
  _ ← init_cfs_rq_runtime g;
  t ← load_group g;
  _ ← modify (λ r, r <| groups ::= <[g := t <| tg_se := s |>]> |>);
  match s with
  | None => mret tt
  | Some x =>
      pq ← match parent with
           | None => mret 0
           | Some y => e ← load_se y; deref (my_q e)
           end;
      store_se x (λ e, e <| se_cfs_rq := pq |> <| my_q := Some g |>
                         <| load := update_load_set (load e) 0 |> <| se_parent := parent |>)
  end.

Definition sched_group_set_shares (g w : Z) : R Z :=
  t ← load_group g;
  match tg_se t with
  | None => mret (- EINVAL)
  | Some s =>
      let w := Z.max MIN_SHARES (Z.min w MAX_SHARES) in
      if shares t =? w then mret 0
      else
        _ ← modify (λ r, r <| groups ::= <[g := t <| shares := w |>]> |>);
        n ← depth_bound;
        _ ← for_each_sched_entity n
              (λ _ x, e ← load_se x;
                      c ← deref (my_q e);
                      _ ← update_cfs_shares c;
                      mret (true, tt)) tt (Some s);
        mret 0
  end.

Definition get_rr_interval_fair (p : Z) (NS_TO_JIFFIES : Z → Z) : R Z :=
  q ← load_cfs 0;
  if weight (c_load q) =? 0 then mret 0
  else
    slice ← sched_slice 0 (TaskSe p);
    mret (u32 (NS_TO_JIFFIES slice)).

End Fair.

(** The two methods that ask for preemption across classes. *)
Section Switching.
Context {Y : Type}.
Variable check_preempt_curr : Z → Z → M (rq Y) unit.

Definition prio_changed_fair (p oldprio : Z) : M (rq Y) unit :=
  t ← load_task p;
  if se_on_rq (se t) =? 0 then mret tt
  else
    c ← gets curr;
    if c =? p then
      if oldprio <? prio t then resched_task c else mret tt
    else check_preempt_curr p 0.

Definition switched_to_fair (p : Z) : M (rq Y) unit :=
  t ← load_task p;
  if se_on_rq (se t) =? 0 then mret tt
  else
    c ← gets curr;
    if c =? p then resched_task c else check_preempt_curr p 0.
End Switching.
