(* ===== verification/Sched.v ===== *)
(** * Priorities, policies and the MYCFS class: [hw4/kernel/sched]

    The homework adds a scheduling class, [mycfs.c], between the fair class and
    the idle class, and the policy SCHED_MYCFS in [core.c].  Modelled are all of
    [mycfs.c] and, of [core.c], the priorities and load weights of tasks, the
    system calls that change policy and nice value, the choice of the next task,
    wake-up, fork, the tick and yielding.

    A class is its method table; a method that a table leaves out is a null
    function pointer.  The tables of the fair and the MYCFS class are those of
    the source, the others are parameters. *)

From S2P Require Import Prelude SchedData Fair.

Section Sched.
Context {Y : Type} `{SchedEnv Y} `{FairEnv Y}.
Abbreviation R := (M (rq Y)).

(** ** The MYCFS class *)

Definition enqueue_task_mycfs (p flags : Z) : R unit := store_task p (λ t, t <| on_rq := 1 |>).

Definition dequeue_task_mycfs (prev flags : Z) : R unit := store_task prev (λ t, t <| on_rq := 0 |>).

Definition pick_next_task_mycfs : R (option Z) :=
  c ← gets curr;
  t ← load_task c;
  if negb (on_rq t =? 0) then mret (Some c) else mret None.

Definition put_prev_task_mycfs (prev : Z) : R unit := mret tt.
Definition yield_task_mycfs : R unit := mret tt.
Definition check_preempt_curr_mycfs (p flags : Z) : R unit := mret tt.
Definition select_task_rq_mycfs (task_cpu sd_flag wake_flags : Z) : Z := task_cpu.
Definition set_curr_task_mycfs : R unit := mret tt.
Definition get_rr_interval_mycfs (p : Z) : Z := 0.
Definition prio_changed_mycfs (p oldprio : Z) : R unit := mret tt.
Definition task_tick_mycfs (c queued : Z) : R unit := mret tt.
Definition task_fork_mycfs (p : Z) : R unit := mret tt.

Definition init_mycfs_rq : R unit :=
  let v := u64 (- Z.shiftl 1 20) in
  modify (λ r, r <| mycfs := mkMycfsRq [] v v |>).

(** ** Preemption *)

Definition check_preempt_of (c : sched_class) : option (Z → Z → R unit) :=
  match c with
  | fair_sched_class => Some check_preempt_wakeup
  | mycfs_sched_class => Some check_preempt_curr_mycfs
  | _ => check_preempt_method (class_methods c)
  end.

(** The walk down the chain until the class of [curr] or of the new task. *)
Fixpoint preempt_class (cs : list sched_class) (cc pc : sched_class) (c : Z) : R unit :=
  match cs with
  | [] => mret tt
  | x :: cs' =>
      if decide (x = cc) then mret tt
      else if decide (x = pc) then resched_task c
      else preempt_class cs' cc pc c
  end.

Definition check_preempt_curr (p flags : Z) : R unit :=
  c ← gets curr;
  t ← load_task p;
  ct ← load_task c;
  _ ← (if decide (class t = class ct) then
         m ← deref (check_preempt_of (class ct));
         m p flags
       else preempt_class class_chain (class ct) (class t) c);
  ct ← load_task c;
  if negb (on_rq ct =? 0) && need_resched ct
  then modify (λ r, r <| skip_clock_update := 1 |>) else mret tt.

(** ** Method tables *)

Definition fair_methods : methods Y := mkMethods
  (Some enqueue_task_fair) (Some dequeue_task_fair) (Some yield_task_fair)
  (Some yield_to_task_fair) (Some check_preempt_wakeup) (Some pick_next_task_fair)
  (Some put_prev_task_fair) (Some set_curr_task_fair) (Some task_tick_fair)
  (Some (task_fork_fair current)) (Some switched_from_fair)
  (Some (switched_to_fair check_preempt_curr)) (Some (prio_changed_fair check_preempt_curr)).

(** [mycfs_sched_class] has neither [switched_from] nor [switched_to]. *)
Definition mycfs_methods : methods Y := mkMethods
  (Some enqueue_task_mycfs) (Some dequeue_task_mycfs) (Some yield_task_mycfs) None
  (Some check_preempt_curr_mycfs) (Some pick_next_task_mycfs) (Some put_prev_task_mycfs)
  (Some set_curr_task_mycfs) (Some task_tick_mycfs) (Some task_fork_mycfs)
  None None (Some prio_changed_mycfs).

Definition methods_of (c : sched_class) : methods Y :=
  match c with
  | fair_sched_class => fair_methods
  | mycfs_sched_class => mycfs_methods
  | _ => class_methods c
  end.

(** ** Queueing *)

Definition set_load_weight (p : Z) : R unit :=
  t ← load_task p;
  let prio := static_prio t - MAX_RT_PRIO in
  if policy t =? SCHED_IDLE
  then store_task p (λ t, t <| se ::= λ e, e <| load := mkLoad WEIGHT_IDLEPRIO WMULT_IDLEPRIO |> |>)
  else
    match prio_to_weight !! Z.to_nat prio, prio_to_wmult !! Z.to_nat prio with
    | Some w, Some i =>
        if prio <? 0 then fail Undefined
        else store_task p (λ t, t <| se ::= λ e, e <| load := mkLoad w i |> |>)
    | _, _ => fail Undefined
    end.

Definition enqueue_task (p flags : Z) : R unit :=
  _ ← update_rq_clock;
  t ← load_task p;
  m ← deref (enqueue_method (methods_of (class t)));
  m p flags.

Definition dequeue_task (p flags : Z) : R unit :=
  _ ← update_rq_clock;
  t ← load_task p;
  m ← deref (dequeue_method (methods_of (class t)));
  m p flags.

Definition activate_task (p flags : Z) : R unit :=
  t ← load_task p;
  _ ← (if task_contributes_to_load t
       then modify (λ r, r <| nr_uninterruptible := u32 (nr_uninterruptible r - 1) |>) else mret tt);
  enqueue_task p flags.

Definition deactivate_task (p flags : Z) : R unit :=
  t ← load_task p;
  _ ← (if task_contributes_to_load t
       then modify (λ r, r <| nr_uninterruptible := u32 (nr_uninterruptible r + 1) |>) else mret tt);
  dequeue_task p flags.

(** ** Priorities *)

Definition __normal_prio (t : task) : Z := static_prio t.

Definition normal_prio (t : task) : Z :=
  if task_has_rt_policy t then MAX_RT_PRIO - 1 - rt_priority t else __normal_prio t.

Definition effective_prio (p : Z) : R Z :=
  _ ← store_task p (λ t, t <| t_normal_prio := normal_prio t |>);
  t ← load_task p;
  if negb (rt_prio (prio t)) then mret (t_normal_prio t) else mret (prio t).

Definition task_curr (p : Z) : R bool :=
  c ← gets curr;
  mret (c =? p).

Definition check_class_changed (p : Z) (prev_class : sched_class) (oldprio : Z) : R unit :=
  t ← load_task p;
  if decide (prev_class = class t) then
    if negb (oldprio =? prio t) then
      m ← deref (prio_changed_method (methods_of (class t)));
      m p oldprio
    else mret tt
  else
    _ ← match switched_from_method (methods_of prev_class) with
        | Some m => m p
        | None => mret tt
        end;
    m ← deref (switched_to_method (methods_of (class t)));
    m p.

(** ** Choosing the next task *)

Definition put_prev_method_of (prev : Z) : R unit :=
  t ← load_task prev;
  m ← deref (put_prev_method (methods_of (class t)));
  m prev.

Definition put_prev_task (prev : Z) : R unit :=
  t ← load_task prev;
  skip ← gets skip_clock_update;
  _ ← (if negb (on_rq t =? 0) || (skip <? 0) then update_rq_clock else mret tt);
  put_prev_method_of prev.

Fixpoint pick_class (cs : list sched_class) : R Z :=
  match cs with
  | [] => fail BugOn
  | c :: cs' =>
      m ← deref (pick_next_method (methods_of c));
      r ← m;
      match r with Some p => mret p | None => pick_class cs' end
  end.

Definition pick_next_task : R Z :=
  n ← gets nr_running;
  q ← load_cfs 0;
  p ← (if n =? h_nr_running q then
         m ← deref (pick_next_method (methods_of fair_sched_class));
         m
       else mret None);
  match p with
  | Some p => mret p
  | None => pick_class class_chain
  end.

(** ** Waking up *)

Definition ttwu_activate (p en_flags : Z) : R unit :=
  _ ← activate_task p en_flags;
  _ ← store_task p (λ t, t <| on_rq := 1 |>);
  t ← load_task p;
  if has_flag (flags t) PF_WQ_WORKER then wq_worker_waking_up p else mret tt.

Definition ttwu_do_wakeup (p wake_flags : Z) : R unit :=
  _ ← check_preempt_curr p wake_flags;
  store_task p (λ t, t <| state := TASK_RUNNING |>).

Definition ttwu_do_activate (p wake_flags : Z) : R unit :=
  _ ← ttwu_activate p (Z.lor ENQUEUE_WAKEUP ENQUEUE_WAKING);
  ttwu_do_wakeup p wake_flags.

Definition ttwu_remote (p wake_flags : Z) : R bool :=
  t ← load_task p;
  if negb (on_rq t =? 0) then _ ← ttwu_do_wakeup p wake_flags; mret true else mret false.

Definition ttwu_queue (p : Z) : R unit := ttwu_do_activate p 0.

Definition try_to_wake_up (p st wake_flags : Z) : R bool :=
  t ← load_task p;
  if negb (has_flag (state t) st) then mret false
  else
    done ← (if negb (on_rq t =? 0) then ttwu_remote p wake_flags else mret false);
    _ ← (if done : bool then mret tt else ttwu_queue p);
    mret true.

Definition try_to_wake_up_local (p : Z) : R unit :=
  if p =? current then fail BugOn
  else
    t ← load_task p;
    if negb (has_flag (state t) TASK_NORMAL) then mret tt
    else
      _ ← (if on_rq t =? 0 then ttwu_activate p ENQUEUE_WAKEUP else mret tt);
      ttwu_do_wakeup p 0.

Definition wake_up_process (p : Z) : R bool := try_to_wake_up p TASK_NORMAL 0.
Definition wake_up_state (p st : Z) : R bool := try_to_wake_up p st 0.

(** ** Fork *)

Definition __sched_fork (p : Z) : R unit :=
  _ ← store_task p (λ t, t <| on_rq := 0 |>);
  store_task p (λ t, t <| se ::= λ e, e <| se_on_rq := 0 |> <| exec_start := 0 |>
    <| sum_exec_runtime := 0 |> <| prev_sum_exec_runtime := 0 |> <| vruntime := 0 |> |>).

Definition reset_on_fork (t : task) : task :=
  let t := if task_has_rt_policy t
           then t <| policy := SCHED_NORMAL |> <| static_prio := NICE_TO_PRIO 0 |>
                  <| rt_priority := 0 |>
           else if PRIO_TO_NICE (static_prio t) <? 0
           then t <| static_prio := NICE_TO_PRIO 0 |> else t in
  t <| t_normal_prio := __normal_prio t |> <| prio := __normal_prio t |>.

Definition sched_fork (p : Z) : R unit :=
  _ ← __sched_fork p;
  _ ← store_task p (λ t, t <| state := TASK_RUNNING |>);
  ct ← load_task current;
  _ ← store_task p (λ t, t <| prio := t_normal_prio ct |>);
  t ← load_task p;
  _ ← (if sched_reset_on_fork t then
         _ ← store_task p reset_on_fork;
         _ ← set_load_weight p;
         store_task p (λ t, t <| sched_reset_on_fork := false |>)
       else mret tt);
  t ← load_task p;
  _ ← (if negb (rt_prio (prio t)) then store_task p (λ t, t <| class := fair_sched_class |>)
       else mret tt);
  t ← load_task p;
  match task_fork_method (methods_of (class t)) with
  | Some m => m p
  | None => mret tt
  end.

Definition wake_up_new_task (p : Z) : R unit :=
  _ ← activate_task p 0;
  _ ← store_task p (λ t, t <| on_rq := 1 |>);
  check_preempt_curr p WF_FORK.

(** ** Scheduling *)

(** One pass of [__schedule] up to the context switch; the task that runs next. *)
Definition __schedule : R Z :=
  prev ← gets curr;
  t ← load_task prev;
  voluntary ← (if negb (state t =? 0) && negb preempt_active then
         _ ← (if signal_pending_state (state t) t
              then store_task prev (λ t, t <| state := TASK_RUNNING |>)
              else
                _ ← deactivate_task prev DEQUEUE_SLEEP;
                _ ← store_task prev (λ t, t <| on_rq := 0 |>);
                t ← load_task prev;
                match has_flag (flags t) PF_WQ_WORKER, wq_worker_sleeping prev with
                | true, Some w => try_to_wake_up_local w
                | _, _ => mret tt
                end);
         mret true
       else mret false);
  _ ← put_prev_task prev;
  next ← pick_next_task;
  _ ← store_task prev (λ t, t <| need_resched := false |>);
  _ ← modify (λ r, r <| skip_clock_update := 0 |>);
  _ ← (if negb (prev =? next) then
         _ ← modify (λ r, r <| nr_switches := u64 (nr_switches r + 1) |>);
         _ ← modify (λ r, r <| curr := next |>);
         store_task prev (λ t, if voluntary : bool then t <| nvcsw := u32 (nvcsw t + 1) |>
                               else t <| nivcsw := u32 (nivcsw t + 1) |>)
       else mret tt);
  mret next.

(** [__schedule] starts over while the task it returns to is to be preempted. *)
Fixpoint schedule_loop (fuel : nat) : R Z :=
  match fuel with
  | O => fail OutOfFuel
  | S fuel' =>
      next ← __schedule;
      t ← load_task next;
      if need_resched t then schedule_loop fuel' else mret next
  end.

(** The tick; the averages of the processor load are not kept here. *)
Definition scheduler_tick : R unit :=
  _ ← update_rq_clock;
  c ← gets curr;
  t ← load_task c;
  m ← deref (task_tick_method (methods_of (class t)));
  m c 0.

Definition sys_sched_yield (fuel : nat) : R Z :=
  t ← load_task current;
  m ← deref (yield_method (methods_of (class t)));
  _ ← m;
  _ ← schedule_loop fuel;
  mret 0.

Definition yield (fuel : nat) : R Z :=
  _ ← store_task current (λ t, t <| state := TASK_RUNNING |>);
  sys_sched_yield fuel.

(** Both tasks are on the queue of the only processor. *)
Definition yield_to (fuel : nat) (p : Z) (preempt : bool) : R bool :=
  ct ← load_task current;
  t ← load_task p;
  run ← task_curr p;
  yielded ←
    match yield_to_method (methods_of (class ct)) with
    | None => mret false
    | Some m =>
        if decide (class ct = class t) then
          if run || negb (state t =? 0) then mret false
          else
            y ← m p preempt;
            _ ← (if y : bool then mret tt else modify (λ r, r <| skip_clock_update := 0 |>));
            mret y
        else mret false
    end;
  _ ← (if yielded : bool then _ ← schedule_loop fuel; mret tt else mret tt);
  mret yielded.

(** ** Nice values *)

Definition rt_mutex_setprio (p prio' : Z) : R unit :=
  if (prio' <? 0) || (MAX_PRIO <? prio') then fail BugOn
  else
    i ← gets idle;
    if p =? i then mret tt
    else
      t ← load_task p;
      let oldprio := prio t in
      let prev_class := class t in
      let queued := negb (on_rq t =? 0) in
      running ← task_curr p;
      _ ← (if queued then dequeue_task p 0 else mret tt);
      _ ← (if (running : bool) then put_prev_method_of p else mret tt);
      _ ← store_task p (λ t, t <| class := if rt_prio prio' then rt_sched_class
                                          else fair_sched_class |>);
      _ ← store_task p (λ t, t <| prio := prio' |>);
      t ← load_task p;
      _ ← (if (running : bool) then m ← deref (set_curr_method (methods_of (class t))); m else mret tt);
      _ ← (if queued then enqueue_task p (if oldprio <? prio' then ENQUEUE_HEAD else 0) else mret tt);
      check_class_changed p prev_class oldprio.

Definition set_user_nice (p nice : Z) : R unit :=
  t ← load_task p;
  if (TASK_NICE t =? nice) || (nice <? -20) || (19 <? nice) then mret tt
  else if task_has_rt_policy t then store_task p (λ t, t <| static_prio := NICE_TO_PRIO nice |>)
  else
    let queued := negb (on_rq t =? 0) in
    _ ← (if queued then dequeue_task p 0 else mret tt);
    _ ← store_task p (λ t, t <| static_prio := NICE_TO_PRIO nice |>);
    _ ← set_load_weight p;
    t ← load_task p;
    let old_prio := prio t in
    e ← effective_prio p;
    _ ← store_task p (λ t, t <| prio := e |>);
    let delta := e - old_prio in
    if queued then
      _ ← enqueue_task p 0;
      running ← task_curr p;
      if (delta <? 0) || ((0 <? delta) && running) then
        c ← gets curr;
        resched_task c
      else mret tt
    else mret tt.

Definition can_nice (p nice : Z) : bool := (u32 (20 - nice) <=? rlimit_nice p) || capable_sys_nice.

Definition sys_nice (increment : Z) : R Z :=
  let increment := if increment <? -40 then -40 else increment in
  let increment := if 40 <? increment then 40 else increment in
  t ← load_task current;
  let nice := TASK_NICE t + increment in
  let nice := if nice <? -20 then -20 else nice in
  let nice := if 19 <? nice then 19 else nice in
  if (increment <? 0) && negb (can_nice current nice) then mret (- EPERM)
  else
    let retval := security_task_setnice current nice in
    if negb (retval =? 0) then mret retval
    else
      _ ← set_user_nice current nice;
      mret 0.

Definition task_prio (t : task) : Z := prio t - MAX_RT_PRIO.
Definition task_nice (t : task) : Z := TASK_NICE t.

(** ** Policies *)

Definition find_process_by_pid (pid : Z) : option Z :=
  if negb (pid =? 0) then find_task_by_vpid pid else Some current.

Definition __setscheduler (p policy' prio' : Z) : R unit :=
  _ ← store_task p (λ t, t <| policy := policy' |>);
  _ ← store_task p (λ t, t <| rt_priority := prio' |>);
  _ ← store_task p (λ t, t <| t_normal_prio := normal_prio t |>);
  _ ← store_task p (λ t, t <| prio := rt_mutex_getprio p (t_normal_prio t) |>);
  _ ← store_task p (λ t, t <| class := if rt_prio (prio t) then rt_sched_class
                                      else fair_sched_class |>);
  _ ← (if policy' =? SCHED_MYCFS then store_task p (λ t, t <| class := mycfs_sched_class |>)
       else mret tt);
  set_load_weight p.

Definition check_same_owner (p : Z) : bool :=
  if cred_user_ns current =? cred_user_ns p
  then (cred_euid current =? cred_euid p) || (cred_euid current =? cred_uid p)
  else false.

(** The checks before the run queue lock is taken: an error, or the policy and
    the reset flag. *)
Definition check_policy (t : task) (p policy' priority : Z) (user : bool) : Z + Z * bool :=
  let '(pol, reset) :=
    if policy' <? 0 then (policy t, sched_reset_on_fork t)
    else (Z.ldiff policy' SCHED_RESET_ON_FORK, has_flag policy' SCHED_RESET_ON_FORK) in
  if (0 <=? policy') && negb ((pol =? SCHED_FIFO) || (pol =? SCHED_RR) || (pol =? SCHED_NORMAL)
       || (pol =? SCHED_BATCH) || (pol =? SCHED_IDLE) || (pol =? SCHED_MYCFS))
  then inl (- EINVAL)
  else if (priority <? 0) || (has_mm t && (MAX_USER_RT_PRIO - 1 <? priority))
          || (negb (has_mm t) && (MAX_RT_PRIO - 1 <? priority))
  then inl (- EINVAL)
  else if negb (bool_decide (rt_policy pol = negb (priority =? 0))) then inl (- EINVAL)
  else if user && negb capable_sys_nice && rt_policy pol && negb (pol =? policy t)
          && (rlimit_rtprio p =? 0)
  then inl (- EPERM)
  else if user && negb capable_sys_nice && rt_policy pol && (rt_priority t <? priority)
          && (rlimit_rtprio p <? priority)
  then inl (- EPERM)
  else if user && negb capable_sys_nice && (policy t =? SCHED_IDLE) && negb (pol =? SCHED_IDLE)
          && negb (can_nice p (TASK_NICE t))
  then inl (- EPERM)
  else if user && negb capable_sys_nice && negb (check_same_owner p) then inl (- EPERM)
  else if user && negb capable_sys_nice && sched_reset_on_fork t && negb reset then inl (- EPERM)
  else if user && negb (security_task_setscheduler p =? 0)
  then inl (security_task_setscheduler p)
  else inr (pol, reset).

(** From the lock on. *)
Definition change_policy (p pol priority : Z) (reset : bool) : R unit :=
  t ← load_task p;
  let queued := negb (on_rq t =? 0) in
  running ← task_curr p;
  _ ← (if queued then dequeue_task p 0 else mret tt);
  _ ← (if (running : bool) then put_prev_method_of p else mret tt);
  _ ← store_task p (λ t, t <| sched_reset_on_fork := reset |>);
  t ← load_task p;
  let oldprio := prio t in
  let prev_class := class t in
  _ ← __setscheduler p pol priority;
  t ← load_task p;
  _ ← (if (running : bool) then m ← deref (set_curr_method (methods_of (class t))); m else mret tt);
  _ ← (if queued then enqueue_task p 0 else mret tt);
  check_class_changed p prev_class oldprio.

(** Between the checks and the lock nobody else runs here, so the policy that
    was read is still current and the label [recheck] is not taken again. *)
Definition __sched_setscheduler (p policy' priority : Z) (user : bool) : R Z :=
  t ← load_task p;
  match check_policy t p policy' priority user with
  | inl e => mret e
  | inr (pol, reset) =>
      s ← gets stop;
      if bool_decide (s = Some p) then mret (- EINVAL)
      else if (pol =? policy t) && (negb (rt_policy pol) || (priority =? rt_priority t)) then mret 0
      else if user && rt_policy pol && rt_group_no_runtime p then mret (- EPERM)
      else
        _ ← change_policy p pol priority reset;
        _ ← rt_mutex_adjust_pi p;
        mret 0
  end.

Definition sched_setscheduler (p policy' priority : Z) : R Z :=
  __sched_setscheduler p policy' priority true.

Definition sched_setscheduler_nocheck (p policy' priority : Z) : R Z :=
  __sched_setscheduler p policy' priority false.

Definition sched_set_stop_task (stop' : option Z) : R unit :=
  old_stop ← gets stop;
  _ ← match stop' with
      | Some s =>
          _ ← sched_setscheduler_nocheck s SCHED_FIFO (MAX_RT_PRIO - 1);
          store_task s (λ t, t <| class := stop_sched_class |>)
      | None => mret tt
      end;
  _ ← modify (λ r, r <| stop := stop' |>);
  match old_stop with
  | Some o => store_task o (λ t, t <| class := rt_sched_class |>)
  | None => mret tt
  end.

(** [param] is the structure read from user space: no pointer, a fault, or the
    priority. *)
Definition do_sched_setscheduler (pid policy' : Z) (param : option (option Z)) : R Z :=
  match param with
  | None => mret (- EINVAL)
  | Some v =>
      if pid <? 0 then mret (- EINVAL)
      else
        match v with
        | None => mret (- EFAULT)
        | Some priority =>
            match find_process_by_pid pid with
            | None => mret (- ESRCH)
            | Some p => sched_setscheduler p policy' priority
            end
        end
  end.

Definition sys_sched_setscheduler (pid policy' : Z) (param : option (option Z)) : R Z :=
  if policy' <? 0 then mret (- EINVAL) else do_sched_setscheduler pid policy' param.

Definition sys_sched_setparam (pid : Z) (param : option (option Z)) : R Z :=
  do_sched_setscheduler pid (-1) param.

Definition sys_sched_getscheduler (pid : Z) : R Z :=
  if pid <? 0 then mret (- EINVAL)
  else
    match find_process_by_pid pid with
    | None => mret (- ESRCH)
    | Some p =>
        let retval := security_task_getscheduler p in
        if retval =? 0 then
          t ← load_task p;
          mret (Z.lor (policy t) (if sched_reset_on_fork t then SCHED_RESET_ON_FORK else 0))
        else mret retval
    end.

Definition sys_sched_get_priority_max (policy' : Z) : Z :=
  if (policy' =? SCHED_FIFO) || (policy' =? SCHED_RR) then MAX_USER_RT_PRIO - 1
  else if (policy' =? SCHED_NORMAL) || (policy' =? SCHED_MYCFS) || (policy' =? SCHED_BATCH)
          || (policy' =? SCHED_IDLE)
  then 0
  else - EINVAL.

Definition sys_sched_get_priority_min (policy' : Z) : Z :=
  if (policy' =? SCHED_FIFO) || (policy' =? SCHED_MYCFS) || (policy' =? SCHED_RR) then 1
  else if (policy' =? SCHED_NORMAL) || (policy' =? SCHED_BATCH) || (policy' =? SCHED_IDLE) then 0
  else - EINVAL.

(** ** Groups and the magic key *)

Definition task_move_group_method (c : sched_class) : option (Z → Z → R unit) :=
  match c with fair_sched_class => Some task_move_group_fair | _ => None end.

Definition sched_move_task (p : Z) : R unit :=
  running ← task_curr p;
  t ← load_task p;
  let queued := on_rq t in
  _ ← (if negb (queued =? 0) then dequeue_task p 0 else mret tt);
  _ ← (if (running : bool) then put_prev_method_of p else mret tt);
  t ← load_task p;
  _ ← match task_move_group_method (class t) with
      | Some m => m p queued
      | None => set_task_rq p
      end;
  t ← load_task p;
  _ ← (if (running : bool) then m ← deref (set_curr_method (methods_of (class t))); m else mret tt);
  if negb (queued =? 0) then enqueue_task p 0 else mret tt.

Definition normalize_task (p : Z) : R unit :=
  t ← load_task p;
  let prev_class := class t in
  let old_prio := prio t in
  let queued := negb (on_rq t =? 0) in
  _ ← (if queued then dequeue_task p 0 else mret tt);
  _ ← __setscheduler p SCHED_NORMAL 0;
  _ ← (if queued then
         _ ← enqueue_task p 0;
         c ← gets curr;
         resched_task c
       else mret tt);
  check_class_changed p prev_class old_prio.

(** All threads, in the order of the task list. *)
Definition normalize_rt_tasks (threads : list Z) : R unit :=
  for_each threads (λ p,
    t ← load_task p;
    if negb (has_mm t) then mret tt
    else
      _ ← store_task p (λ t, t <| se ::= λ e, e <| exec_start := 0 |> |>);
      if negb (rt_prio (prio t)) then
        if (TASK_NICE t <? 0) && has_mm t then set_user_nice p 0 else mret tt
      else normalize_task p).

End Sched.
