(* ===== verification/SchedSpec.v ===== *)
(** * The scheduler core: specifications

    What the core promises about policies, nice values and the choice of the
    next task.  The scheduling classes behind their method tables are seen
    through [ClassLaws], which says what the core relies on: a method called as
    the core does returns, keeps the queues consistent, may set reschedule flags
    and change the time accounting of entities, and leaves every other attribute
    of every task alone.  [FairClass.v] shows that the fair class keeps these
    laws. *)

From S2P Require Import Prelude SchedData Fair Sched.

(** A task without its reschedule flag and the time accounting of its entity,
    which the methods of a class may write. *)
Definition erase (t : task) : task :=
  t <| need_resched := false |> <| se := mkSe (load (se t)) 0 0 0 0 0 None 0 None |>.

Section Queue.
Context {Y : Type}.

(** Two run queues with the same tasks up to reschedule flags. *)
Record same_sched (r r' : rq Y) : Prop := {
  ss_tasks : ∀ q, erase <$> tasks r' !! q = erase <$> tasks r !! q;
  ss_curr : curr r' = curr r;
  ss_idle : idle r' = idle r;
  ss_stop : stop r' = stop r
}.

(** The same with [p] being the task [t'] in the second one. *)
Record upd (p : Z) (t' : task) (r r' : rq Y) : Prop := {
  up_task : erase <$> tasks r' !! p = Some (erase t');
  up_others : ∀ q, q ≠ p → erase <$> tasks r' !! q = erase <$> tasks r !! q;
  up_curr : curr r' = curr r;
  up_idle : idle r' = idle r;
  up_stop : stop r' = stop r
}.

#[export] Instance same_sched_equiv : Equivalence same_sched.
Proof.
  split.
  - done.
  - intros r r' []. by split.
  - intros r r' r'' [] []. split; try congruence.
Qed.

Lemma erase_class t t' : erase t = erase t' → class t = class t'.
Proof. by destruct t, t'; intros [=]. Qed.

Lemma erase_on_rq t t' : erase t = erase t' → on_rq t = on_rq t'.
Proof. by destruct t, t'; intros [=]. Qed.

Lemma erase_prio t t' : erase t = erase t' → prio t = prio t'.
Proof. by destruct t, t'; intros [=]. Qed.

Lemma erase_lookup (r r' : rq Y) p t :
  same_sched r r' → tasks r !! p = Some t →
  ∃ t', tasks r' !! p = Some t' ∧ erase t' = erase t.
Proof.
  intros Hs Ht. pose proof (ss_tasks _ _ Hs p) as Hp. rewrite Ht in Hp.
  apply fmap_Some in Hp as (t' & -> & He). eauto.
Qed.

Lemma upd_lookup p t' (r r' : rq Y) :
  upd p t' r r' → ∃ t'', tasks r' !! p = Some t'' ∧ erase t'' = erase t'.
Proof.
  intros Hu. apply up_task, fmap_Some in Hu as (t'' & -> & He). eauto.
Qed.

Lemma same_upd p t (r r' : rq Y) : tasks r !! p = Some t → same_sched r r' → upd p t r r'.
Proof. intros Ht []. split; try done. by rewrite ss_tasks0, Ht. Qed.

Lemma upd_same p t (r r' r'' : rq Y) : upd p t r r' → same_sched r' r'' → upd p t r r''.
Proof. intros [] []. split; try congruence. intros q Hq. by rewrite ss_tasks0, up_others0. Qed.

Lemma upd_trans p t t' (r r' r'' : rq Y) : upd p t r r' → upd p t' r' r'' → upd p t' r r''.
Proof. intros [] []. split; try congruence. intros q Hq. by rewrite up_others1, up_others0. Qed.

Lemma upd_erase p t t' (r r' : rq Y) : erase t = erase t' → upd p t r r' → upd p t' r r'.
Proof. intros He []. split; try done. by rewrite <- He. Qed.

Lemma upd_store p t' (r : rq Y) : upd p t' r (r <| tasks ::= <[p := t']> |>).
Proof.
  split; try done; simpl.
  - by rewrite lookup_insert_eq.
  - intros q Hq. by rewrite lookup_insert_ne.
Qed.
End Queue.
Arguments erase : simpl never.

(** ** The weight of a task *)

Definition weights_of (pol static : Z) : option load_weight :=
  if pol =? SCHED_IDLE then Some (mkLoad WEIGHT_IDLEPRIO WMULT_IDLEPRIO)
  else
    match prio_to_weight !! Z.to_nat (static - MAX_RT_PRIO),
          prio_to_wmult !! Z.to_nat (static - MAX_RT_PRIO) with
    | Some w, Some i => Some (mkLoad w i)
    | _, _ => None
    end.

Definition set_weights (t : task) : task :=
  match weights_of (policy t) (static_prio t) with
  | Some lw => t <| se ::= λ e, e <| load := lw |> |>
  | None => t
  end.

(** A load weight the arithmetic of the fair class can use. *)
Definition load_valid (lw : load_weight) : Prop :=
  2 ≤ weight lw < 2 ^ 32 ∧ 0 < inv_weight lw < 2 ^ 32.

(** What holds of every task: the nice value is in range, the normal priority
    is the one of the policy, and unless the policy is a real-time one the load
    weight is the table's. *)
Record task_ok (t : task) : Prop := {
  ok_static : MAX_RT_PRIO ≤ static_prio t < MAX_PRIO;
  ok_normal : t_normal_prio t = normal_prio t;
  ok_weight : rt_policy (policy t) = false →
    weights_of (policy t) (static_prio t) = Some (load (se t));
  ok_load : load_valid (load (se t));
  ok_on_rq : on_rq t = 0 ∨ on_rq t = 1
}.

Lemma erase_load t t' : erase t = erase t' → load (se t) = load (se t').
Proof. intros He. by apply (f_equal (λ x, load (se x))) in He. Qed.

Lemma task_ok_erase t t' : erase t = erase t' → task_ok t → task_ok t'.
Proof.
  intros He Hok. pose proof (erase_load _ _ He) as Hl. destruct t, t'. injection He. intros. subst.
  destruct Hok. simpl in *. by split; simpl; rewrite <- ?Hl.
Qed.

Lemma table_valid n w i :
  prio_to_weight !! n = Some w → prio_to_wmult !! n = Some i → load_valid (mkLoad w i).
Proof.
  intros Hw Hi. unfold prio_to_weight, prio_to_wmult in *. unfold load_valid. widths. simpl.
  do 40 (destruct n as [|n]; [simplify_eq/=; lia|]). done.
Qed.

Lemma weights_defined pol static :
  MAX_RT_PRIO ≤ static < MAX_PRIO → ∃ lw, weights_of pol static = Some lw ∧ load_valid lw.
Proof.
  intros Hs. unfold weights_of. destruct (pol =? SCHED_IDLE).
  { eexists. split; [done|]. unfold load_valid. widths. simpl.
    unfold WEIGHT_IDLEPRIO, WMULT_IDLEPRIO. lia. }
  assert (Z.to_nat (static - MAX_RT_PRIO) < 40)%nat as Hn
    by (unfold MAX_PRIO, MAX_RT_PRIO, MAX_USER_RT_PRIO in *; lia).
  destruct (lookup_lt_is_Some_2 prio_to_weight (Z.to_nat (static - MAX_RT_PRIO))) as [w Hw];
    [exact Hn|].
  destruct (lookup_lt_is_Some_2 prio_to_wmult (Z.to_nat (static - MAX_RT_PRIO))) as [i Hi];
    [exact Hn|].
  rewrite Hw, Hi. eexists. split; [done|]. by eapply table_valid.
Qed.

Section Laws.
Context {Y : Type} `{SchedEnv Y} `{FairEnv Y}.

(** [check_preempt_curr] keeps what its steps keep: the class's own test, a
    reschedule flag, the mark for the clock. *)
Lemma check_preempt_curr_keeps (K : rq Y → Prop) (r : rq Y) p wake_flags t ct :
  tasks r !! p = Some t → tasks r !! curr r = Some ct → K r →
  (class t = class ct → ∃ m, check_preempt_of (class ct) = Some m ∧
    returns (m p wake_flags) r (λ _, K)) →
  (∀ r', K r' → is_Some (tasks r' !! curr r)) →
  returns (resched_task (curr r)) r (λ _, K) →
  (∀ r', K r' → K (r' <| skip_clock_update := 1 |>)) →
  returns (check_preempt_curr p wake_flags) r (λ _, K).
Proof.
  intros Ht Hct HK Hm Hcur Hres Hskip. unfold check_preempt_curr.
  assert (∀ q x, tasks r !! q = Some x → load_task q r = Ok x r) as Hload
    by (intros q x Hq; unfold load_task; mstep; by rewrite Hq).
  apply returns_bind. eexists _, _. split; [reflexivity|].
  apply returns_bind. eapply returns_eq; [by apply Hload|].
  apply returns_bind. eapply returns_eq; [by apply Hload|]. apply returns_bind.
  apply (returns_mono _ _ (λ _, K)).
  { destruct (decide _) as [Hc|_].
    - destruct (Hm Hc) as (m & Hm' & Hrun). apply returns_bind. rewrite Hm'. by apply returns_ret.
    - generalize class_chain as cs. induction cs as [|x cs IH]; cbn [preempt_class]; [by apply returns_ret|].
      destruct (decide _); [by apply returns_ret|]. by destruct (decide _). }
  intros _ r' HK'. destruct (Hcur r' HK') as [ct' Hct']. apply returns_bind.
  apply (returns_eq _ _ ct' r'); [unfold load_task; mstep; by rewrite Hct'|].
  destruct (_ && _); [|by apply returns_ret]. eexists _, _. split; [reflexivity|]. by apply Hskip.
Qed.

(** What an assignment of the core may change in a task while the classes hold
    it: nothing of the entity but its load. *)
Definition attr_of (t t' : task) : Prop :=
  se t' = (se t) <| load := load (se t') |> ∧ load_valid (load (se t')).

(** A class whose tasks are put on queues; the idle class has no [enqueue_task]
    and MYCFS is treated apart. *)
Definition queueing (c : sched_class) : Prop :=
  c = stop_sched_class ∨ c = rt_sched_class ∨ c = fair_sched_class.

Lemma queueing_known c : queueing c → c ≠ mycfs_sched_class ∧ c ≠ idle_sched_class.
Proof. by intros [->|[->| ->]]. Qed.

(** The classes a policy can lead to. *)
Definition policy_class (c : sched_class) : Prop := c = rt_sched_class ∨ c = fair_sched_class.

(** A new task [t] whose entity was copied from that of [tq] and taken off all
    queues. *)
Record copied (tq t : task) : Prop := {
  cp_class : policy_class (class t);
  cp_on_rq : se_on_rq (se t) = 0;
  cp_load : load_valid (load (se t));
  cp_links : (se_parent (se t), se_cfs_rq (se t), my_q (se t)) =
             (se_parent (se tq), se_cfs_rq (se tq), my_q (se tq))
}.

(** Nothing but clocks and counters of the core differs. *)
Definition counters (r r' : rq Y) : Prop :=
  r' = r <| hw_clock := hw_clock r' |> <| clock := clock r' |> <| clock_task := clock_task r' |>
         <| skip_clock_update := skip_clock_update r' |> <| nr_switches := nr_switches r' |>
         <| nr_uninterruptible := nr_uninterruptible r' |>.

(** What the core relies on of the classes other than MYCFS.  [class_ok b r]:
    the queues of the classes are consistent, and the class of the running task
    holds it as its current one ([b] true) or has put it aside ([b] false).
    [queued] tells which tasks the classes have on a queue. *)
Class ClassLaws : Type := {
  class_ok : bool → rq Y → Prop;
  queued : rq Y → Z → Prop;
  counters_law : ∀ b r r', class_ok b r → counters r r' →
    class_ok b r' ∧ ∀ q, queued r' q ↔ queued r q;
  attr_law : ∀ b r p t t',
    class_ok b r → tasks r !! p = Some t → attr_of t t' →
    (¬ queued r p ∨ load (se t') = load (se t) ∧ prio t' = prio t) →
    (class t' = class t ∨
     ¬ queued r p ∧ (b = false ∨ curr r ≠ p) ∧ class t ≠ idle_sched_class) →
    let r' := r <| tasks ::= <[p := t']> |> in
    class_ok b r' ∧ ∀ q, queued r' q ↔ queued r q;
  new_task_law : ∀ b r p q t tq,
    class_ok b r → tasks r !! p = None → curr r ≠ p → tasks r !! q = Some tq → copied tq t →
    Z.of_nat (size (tasks r)) + 1 < 2 ^ 32 →
    let r' := r <| tasks ::= <[p := t]> |> in
    class_ok b r' ∧ ∀ x, queued r' x ↔ queued r x;
  fork_law : ∀ m p r t,
    class_ok true r → tasks r !! p = Some t → curr r = current → p ≠ current →
    is_Some (tasks r !! curr r) → policy_class (class t) → ¬ queued r p →
    task_fork_method (methods_of (class t)) = Some m →
    returns (m p) r (λ _ r', class_ok true r' ∧ same_sched r r' ∧ ∀ q, queued r' q ↔ queued r q);
  queued_law : ∀ b r p, class_ok b r → queued r p →
    ∃ t, tasks r !! p = Some t ∧ queueing (class t);
  enqueue_law : ∀ b p flags r t,
    class_ok b r → tasks r !! p = Some t → queueing (class t) → ¬ queued r p →
    ∃ m, enqueue_method (methods_of (class t)) = Some m ∧ returns (m p flags) r (λ _ r',
      class_ok b r' ∧ same_sched r r' ∧ ∀ q, queued r' q ↔ q = p ∨ queued r q);
  dequeue_law : ∀ b p flags r t,
    class_ok b r → tasks r !! p = Some t → queued r p →
    ∃ m, dequeue_method (methods_of (class t)) = Some m ∧ returns (m p flags) r (λ _ r',
      class_ok b r' ∧ same_sched r r' ∧ ∀ q, queued r' q ↔ q ≠ p ∧ queued r q);
  put_prev_law : ∀ r t,
    class_ok true r → tasks r !! curr r = Some t → class t ≠ mycfs_sched_class →
    ∃ m, put_prev_method (methods_of (class t)) = Some m ∧ returns (m (curr r)) r (λ _ r',
      class_ok false r' ∧ same_sched r r' ∧ ∀ q, queued r' q ↔ queued r q);
  set_curr_law : ∀ r t,
    class_ok false r → tasks r !! curr r = Some t → class t ≠ mycfs_sched_class →
    ∃ m, set_curr_method (methods_of (class t)) = Some m ∧ returns m r (λ _ r',
      class_ok true r' ∧ same_sched r r' ∧ ∀ q, queued r' q ↔ queued r q);
  switched_from_law : ∀ b c m p r t,
    c ≠ mycfs_sched_class → class_ok b r → switched_from_method (methods_of c) = Some m →
    tasks r !! p = Some t → class t ≠ c →
    returns (m p) r (λ _ r', class_ok b r' ∧ same_sched r r' ∧ ∀ q, queued r' q ↔ queued r q);
  switched_to_law : ∀ p r t,
    class_ok true r → tasks r !! p = Some t → policy_class (class t) →
    is_Some (tasks r !! curr r) →
    ∃ m, switched_to_method (methods_of (class t)) = Some m ∧ returns (m p) r (λ _ r',
      class_ok true r' ∧ same_sched r r' ∧ ∀ q, queued r' q ↔ queued r q);
  prio_changed_law : ∀ p old r t,
    class_ok true r → tasks r !! p = Some t → policy_class (class t) →
    is_Some (tasks r !! curr r) →
    ∃ m, prio_changed_method (methods_of (class t)) = Some m ∧ returns (m p old) r (λ _ r',
      class_ok true r' ∧ same_sched r r' ∧ ∀ q, queued r' q ↔ queued r q);
  preempt_law : ∀ p wake_flags r t,
    class_ok true r → tasks r !! curr r = Some t → class t ≠ mycfs_sched_class →
    class <$> tasks r !! p = Some (class t) → queued r p →
    ∃ m, check_preempt_of (class t) = Some m ∧ returns (m p wake_flags) r (λ _ r',
      class_ok true r' ∧ same_sched r r' ∧ ∀ q, queued r' q ↔ queued r q);
  tick_law : ∀ r t,
    class_ok true r → tasks r !! curr r = Some t → class t ≠ mycfs_sched_class →
    ∃ m, task_tick_method (methods_of (class t)) = Some m ∧ returns (m (curr r) 0) r (λ _ r',
      class_ok true r' ∧ same_sched r r' ∧ ∀ q, queued r' q ↔ queued r q);
  pick_law : ∀ c r,
    class_ok false r → c ≠ mycfs_sched_class →
    (∀ q t, tasks r !! q = Some t → class t ≠ mycfs_sched_class → (queued r q ↔ on_rq t = 1)) →
    ∃ m, pick_next_method (methods_of c) = Some m ∧ returns m r (λ o r',
      match o with
      | None => r' = r ∧ c ≠ idle_sched_class
      | Some p => same_sched r r' ∧ (∀ q, queued r' q ↔ queued r q) ∧
          class_ok true (r' <| curr := p |>) ∧
          (∀ q, queued (r' <| curr := p |>) q ↔ queued r q) ∧
          (class <$> tasks r !! p = Some c) ∧ (c ≠ idle_sched_class → queued r p)
      end);
  shortcut_law : ∀ r, class_ok false r → ∃ q, cfs_rqs r !! 0 = Some q ∧
    (nr_running r = h_nr_running q → ∀ p, queued r p →
     class <$> tasks r !! p = Some fair_sched_class)
}.
Context `{!ClassLaws}.

(** The core's view of what is queued agrees with the classes'. *)
Definition synced (r : rq Y) : Prop :=
  ∀ q t, tasks r !! q = Some t → class t ≠ mycfs_sched_class → (queued r q ↔ on_rq t = 1).

Definition same_queue (r r' : rq Y) : Prop := ∀ q, queued r' q ↔ queued r q.

#[export] Instance same_queue_equiv : Equivalence same_queue.
Proof.
  split; [done|intros r r' Hq q; by rewrite (Hq q)|].
  intros r r' r'' Hq Hq' q. by rewrite (Hq' q), (Hq q).
Qed.

(** The invariant of the run queue, outside the critical sections. *)
Record rq_ok (r : rq Y) : Prop := {
  rq_class : class_ok true r;
  rq_tasks : ∀ q t, tasks r !! q = Some t → task_ok t;
  rq_queued : synced r;
  rq_curr : is_Some (tasks r !! curr r)
}.

(** An update of one task that keeps the queues keeps the invariant. *)
Lemma rq_ok_upd (r r' : rq Y) p t t' :
  rq_ok r → tasks r !! p = Some t → upd p t' r r' → task_ok t' → class_ok true r' →
  (class t' ≠ mycfs_sched_class → (queued r' p ↔ on_rq t' = 1)) →
  (∀ q, q ≠ p → (queued r' q ↔ queued r q)) → rq_ok r'.
Proof.
  intros Hr Ht Hu Hok Hcl Hp Hq.
  assert (Hold : ∀ q tq, q ≠ p → tasks r' !! q = Some tq →
            ∃ tq0, tasks r !! q = Some tq0 ∧ erase tq = erase tq0).
  { intros q tq Hne Htq. pose proof (up_others _ _ _ _ Hu q Hne) as Ho. rewrite Htq in Ho.
    symmetry in Ho. apply fmap_Some in Ho as (t0 & ? & ?). eauto. }
  destruct (upd_lookup _ _ _ _ Hu) as (t'' & Ht'' & He). split.
  - done.
  - intros q tq Htq. destruct (decide (q = p)) as [->|Hne].
    + rewrite Ht'' in Htq. injection Htq as <-. by apply (task_ok_erase t'); [symmetry|].
    + destruct (Hold q tq Hne Htq) as (t0 & Ht0 & He0).
      apply (task_ok_erase t0); [by symmetry|]. by apply (rq_tasks r Hr q).
  - intros q tq Htq Hc. destruct (decide (q = p)) as [->|Hne].
    + rewrite Ht'' in Htq. injection Htq as <-.
      rewrite (erase_class _ _ He) in Hc. rewrite (erase_on_rq _ _ He). by apply Hp.
    + destruct (Hold q tq Hne Htq) as (t0 & Ht0 & He0). rewrite Hq by done.
      rewrite (erase_class _ _ He0) in Hc. rewrite (erase_on_rq _ _ He0).
      by apply (rq_queued r Hr).
  - rewrite (up_curr _ _ _ _ Hu). destruct (decide (curr r = p)) as [->|Hne]; [by eexists|].
    destruct (rq_curr r Hr) as [tc Htc]. pose proof (up_others _ _ _ _ Hu _ Hne) as Ho.
    rewrite Htc in Ho. apply fmap_Some in Ho as (t0 & ? & ?). eauto.
Qed.

Lemma rq_ok_same (r r' : rq Y) :
  rq_ok r → class_ok true r' → same_sched r r' → same_queue r r' → rq_ok r'.
Proof.
  intros Hr Hcl Hs Hq. destruct (rq_curr r Hr) as [t Ht].
  apply (rq_ok_upd r r' (curr r) t t); try done.
  - by apply same_upd.
  - by apply (rq_tasks r Hr (curr r)).
  - rewrite (Hq _). by apply (rq_queued r Hr).
Qed.

(** ** The steps of the core on a known task *)

Lemma load_task_eq (r : rq Y) p t : tasks r !! p = Some t → load_task p r = Ok t r.
Proof. intros Ht. unfold load_task. mstep. by rewrite Ht. Qed.

Lemma store_task_eq (r : rq Y) p t f :
  tasks r !! p = Some t → store_task p f r = Ok tt (r <| tasks ::= <[p := f t]> |>).
Proof. intros Ht. unfold store_task, mbind, M_bind. by rewrite (load_task_eq r p t). Qed.

Lemma set_load_weight_eq (r : rq Y) p t :
  tasks r !! p = Some t → MAX_RT_PRIO ≤ static_prio t < MAX_PRIO →
  set_load_weight p r = Ok tt (r <| tasks ::= <[p := set_weights t]> |>).
Proof.
  intros Ht Hs. unfold set_load_weight, mbind, M_bind. rewrite (load_task_eq r p t) by done.
  destruct (weights_defined (policy t) (static_prio t) Hs) as ([w i] & Hw & _).
  unfold set_weights. rewrite Hw. unfold weights_of in Hw.
  destruct (policy t =? SCHED_IDLE).
  - injection Hw as <- <-. by rewrite (store_task_eq r p t).
  - set (n := Z.to_nat (static_prio t - MAX_RT_PRIO)) in *.
    destruct (prio_to_weight !! n); [|done]. destruct (prio_to_wmult !! n); [|done].
    injection Hw as <- <-. rewrite (proj2 (Z.ltb_ge _ 0)) by lia.
    by rewrite (store_task_eq r p t).
Qed.

Lemma counters_same (r r' : rq Y) : counters r r' → same_sched r r'.
Proof. intros ->. by destruct r. Qed.

Lemma update_rq_clock_eq (r : rq Y) : returns update_rq_clock r (λ _ r', counters r r').
Proof.
  unfold returns, update_rq_clock, mbind, M_bind, get. destruct r. simpl.
  destruct (0 <? _); do 2 eexists; (split; [reflexivity|reflexivity]).
Qed.

(** The clock is brought up to date first. *)
Lemma clock_first b (r : rq Y) p t :
  class_ok b r → tasks r !! p = Some t →
  ∃ r1, update_rq_clock r = Ok tt r1 ∧ class_ok b r1 ∧ same_sched r r1 ∧ same_queue r r1 ∧
    tasks r1 !! p = Some t.
Proof.
  intros Hr Ht. destruct (update_rq_clock_eq r) as ([] & r1 & Hrun & Hc).
  destruct (counters_law b r r1 Hr Hc) as [Hr1 Hq]. exists r1. split_and!; try done.
  - by apply counters_same.
  - rewrite Hc. by destruct r.
Qed.

Lemma dequeue_task_other b (r : rq Y) p flags t :
  class_ok b r → tasks r !! p = Some t → queued r p →
  ∃ r', dequeue_task p flags r = Ok tt r' ∧ class_ok b r' ∧ same_sched r r' ∧
    ∀ q, queued r' q ↔ q ≠ p ∧ queued r q.
Proof.
  intros Hr Ht Hq. destruct (clock_first b r p t Hr Ht) as (r1 & Hc & Hr1 & Hs & Hq1 & Ht1).
  destruct (dequeue_law b p flags r1 t) as (m & Hm & [] & r' & Hrun & Hr' & Hs' & Hq');
    auto; [by apply Hq1|].
  exists r'. unfold dequeue_task, mbind, M_bind. rewrite Hc, (load_task_eq r1 p t) by done.
  rewrite Hm. split_and!; try done; [by etrans|]. intros q. by rewrite Hq', (Hq1 q).
Qed.

Lemma enqueue_task_other b (r : rq Y) p flags t :
  class_ok b r → tasks r !! p = Some t → queueing (class t) → ¬ queued r p →
  ∃ r', enqueue_task p flags r = Ok tt r' ∧ class_ok b r' ∧ same_sched r r' ∧
    ∀ q, queued r' q ↔ q = p ∨ queued r q.
Proof.
  intros Hr Ht Hc Hq. destruct (clock_first b r p t Hr Ht) as (r1 & Hcl & Hr1 & Hs & Hq1 & Ht1).
  destruct (enqueue_law b p flags r1 t) as (m & Hm & [] & r' & Hrun & Hr' & Hs' & Hq');
    auto; [by rewrite (Hq1 p)|].
  exists r'. unfold enqueue_task, mbind, M_bind. rewrite Hcl, (load_task_eq r1 p t) by done.
  rewrite Hm. split_and!; try done; [by etrans|]. intros q. by rewrite Hq', (Hq1 q).
Qed.

Lemma queued_class b (r : rq Y) p t :
  class_ok b r → queued r p → tasks r !! p = Some t → queueing (class t).
Proof.
  intros Hr Hq Ht. destruct (queued_law b r p Hr Hq) as (t' & Ht' & Hc). rewrite Ht in Ht'.
  by injection Ht' as ->.
Qed.

(** Leaving the queue when on it, as [set_user_nice] and the policy calls do. *)
Lemma leave_queue (r : rq Y) p t :
  rq_ok r → tasks r !! p = Some t → class t ≠ mycfs_sched_class →
  ∃ r' t', (if negb (on_rq t =? 0) then dequeue_task p 0 else mret tt) r = Ok tt r' ∧
    class_ok true r' ∧ same_sched r r' ∧ tasks r' !! p = Some t' ∧ erase t' = erase t ∧
    ¬ queued r' p ∧ (on_rq t = 1 → queueing (class t)) ∧
    ∀ q, q ≠ p → (queued r' q ↔ queued r q).
Proof.
  intros Hr Ht Hc. pose proof (rq_queued r Hr p t Ht Hc) as Hq. pose proof (rq_class r Hr) as Hcl.
  destruct (ok_on_rq t (rq_tasks r Hr p t Ht)) as [Ho|Ho].
  - exists r, t. rewrite Ho in *. split_and!; try done. rewrite Hq. lia.
  - destruct (dequeue_task_other true r p 0 t Hcl Ht) as (r' & Hd & Hr' & Hs & Hq'); [by apply Hq|].
    destruct (erase_lookup r r' p t Hs Ht) as (t' & Ht' & He).
    exists r', t'. rewrite Ho. split_and!; try done; [naive_solver| |naive_solver].
    intros _. apply (queued_class true r p); [done|by apply Hq|done].
Qed.

(** And coming back as the task [t]. *)
Lemma enter_queue b (o : Z) (r : rq Y) p t :
  class_ok b r → tasks r !! p = Some t → ¬ queued r p → o = 0 ∨ o = 1 ∧ queueing (class t) →
  ∃ r', (if negb (o =? 0) then enqueue_task p 0 else mret tt) r = Ok tt r' ∧
    class_ok b r' ∧ same_sched r r' ∧ (queued r' p ↔ o = 1) ∧
    ∀ q, q ≠ p → (queued r' q ↔ queued r q).
Proof.
  intros Hr Ht Hq [->|[-> Hc]].
  - exists r. split_and!; try done.
  - destruct (enqueue_task_other b r p 0 t) as (r' & Hd & Hr' & Hs & Hq'); try done.
    exists r'. split_and!; try done; naive_solver.
Qed.

(** An assignment to a task that its class does not look at. *)
Lemma store_quiet b (r : rq Y) p t t' :
  class_ok b r → tasks r !! p = Some t → load_valid (load (se t)) →
  se t' = se t → prio t' = prio t → class t' = class t →
  class_ok b (r <| tasks ::= <[p := t']> |>) ∧ same_queue r (r <| tasks ::= <[p := t']> |>).
Proof.
  intros Hr Ht Hl Hse Hp Hc.
  apply (attr_law b r p t t'); try done; [|by right; rewrite Hse|by left].
  split; rewrite Hse; [by destruct (se t)|done].
Qed.

Lemma resched_task_same b (r : rq Y) p t :
  class_ok b r → tasks r !! p = Some t → load_valid (load (se t)) →
  ∃ r', resched_task p r = Ok tt r' ∧ class_ok b r' ∧ same_sched r r' ∧ same_queue r r' ∧
    need_resched <$> tasks r' !! p = Some true.
Proof.
  intros Hr Ht Hl. eexists. unfold resched_task. rewrite (store_task_eq r p t) by done.
  split; [done|]. set (t' := t <| need_resched := true |>).
  destruct (store_quiet b r p t t') as [Hr' Hq']; try done.
  split_and!; try done; [|simpl; by rewrite lookup_insert_eq].
  split; try done. intros q. simpl. destruct (decide (q = p)) as [->|Hne].
  - rewrite lookup_insert_eq, Ht. by destruct t.
  - by rewrite lookup_insert_ne.
Qed.

Lemma store_store (r : rq Y) p t t' :
  r <| tasks ::= <[p := t]> |> <| tasks ::= <[p := t']> |> = r <| tasks ::= <[p := t']> |>.
Proof.
  destruct r. unfold modify_field. simpl. f_equal. apply insert_insert_eq.
Qed.

Lemma effective_prio_eq (r : rq Y) p t :
  tasks r !! p = Some t →
  effective_prio p r = Ok (if rt_prio (prio t) then prio t else normal_prio t)
    (r <| tasks ::= <[p := t <| t_normal_prio := normal_prio t |>]> |>).
Proof.
  intros Ht. unfold effective_prio, mbind, M_bind. rewrite (store_task_eq r p t) by done.
  erewrite (load_task_eq _ p) by (simpl; by rewrite lookup_insert_eq).
  simpl. by destruct (rt_prio (prio t)).
Qed.

(** ** Nice values *)

(** The task a new nice value makes of a task under a policy that is not a
    real-time one. *)
Definition niced (nice : Z) (t : task) : task :=
  (set_weights (t <| static_prio := NICE_TO_PRIO nice |>))
    <| t_normal_prio := NICE_TO_PRIO nice |>
    <| prio := if rt_prio (prio t) then prio t else NICE_TO_PRIO nice |>.

Definition renice (nice : Z) (t : task) : task :=
  if (TASK_NICE t =? nice) || (nice <? -20) || (19 <? nice) then t
  else if task_has_rt_policy t then t <| static_prio := NICE_TO_PRIO nice |>
  else niced nice t.

Lemma niced_erase nice t : erase (niced nice t) = niced nice (erase t).
Proof.
  unfold niced, set_weights, erase. destruct t; simpl. by destruct (weights_of _ _).
Qed.

Lemma set_weights_attr t :
  MAX_RT_PRIO ≤ static_prio t < MAX_PRIO → attr_of t (set_weights t).
Proof.
  intros Hs. unfold set_weights, attr_of.
  destruct (weights_defined (policy t) (static_prio t) Hs) as (lw & -> & Hv).
  split; [|done]. destruct t as [? ? ? ? ? ? ? ? ? ? ? ? [] ? ? ?]. reflexivity.
Qed.

Lemma set_weights_fields t :
  policy (set_weights t) = policy t ∧ static_prio (set_weights t) = static_prio t ∧
  prio (set_weights t) = prio t ∧ class (set_weights t) = class t ∧
  on_rq (set_weights t) = on_rq t ∧ rt_priority (set_weights t) = rt_priority t.
Proof. unfold set_weights. by destruct (weights_of _ _), t. Qed.

(** The assignments of [set_user_nice] between leaving and entering the queue. *)
Lemma nice_assignments {B} (k : Z → M (rq Y) B) (r : rq Y) p t nice :
  tasks r !! p = Some t → task_has_rt_policy t = false → -20 ≤ nice ≤ 19 →
  (_ ← store_task p (λ t, t <| static_prio := NICE_TO_PRIO nice |>);
   _ ← set_load_weight p;
   t ← load_task p;
   e ← effective_prio p;
   _ ← store_task p (λ t, t <| prio := e |>);
   k (e - prio t)) r =
  k (prio (niced nice t) - prio t) (r <| tasks ::= <[p := niced nice t]> |>).
Proof.
  intros Ht Hp Hn. unfold mbind, M_bind. rewrite (store_task_eq r p t) by done.
  set (t1 := t <| static_prio := NICE_TO_PRIO nice |>).
  rewrite (set_load_weight_eq _ p t1); simpl;
    [|by rewrite lookup_insert_eq|unfold NICE_TO_PRIO, MAX_PRIO, MAX_RT_PRIO; lia].
  destruct (set_weights_fields t1) as (Fp & Fs & Fr & Fc & Fo & Frt).
  rewrite (load_task_eq _ p (set_weights t1)) by (simpl; by rewrite lookup_insert_eq).
  rewrite (effective_prio_eq _ p (set_weights t1)) by (simpl; by rewrite lookup_insert_eq).
  erewrite (store_task_eq _ p) by (simpl; by rewrite lookup_insert_eq).
  rewrite !store_store.
  assert (normal_prio (set_weights t1) = NICE_TO_PRIO nice) as ->.
  { unfold normal_prio, task_has_rt_policy, __normal_prio in *. rewrite Fp, Fs.
    change (policy t1) with (policy t). by rewrite Hp. }
  unfold niced. fold t1. rewrite Fr. reflexivity.
Qed.
Lemma niced_ok nice t :
  task_ok t → -20 ≤ nice ≤ 19 → task_has_rt_policy t = false → task_ok (niced nice t).
Proof.
  intros [] Hn Hp. unfold task_has_rt_policy in Hp.
  assert (MAX_RT_PRIO ≤ NICE_TO_PRIO nice < MAX_PRIO)
    by (unfold NICE_TO_PRIO, MAX_PRIO, MAX_RT_PRIO; lia).
  destruct (weights_defined (policy t) (NICE_TO_PRIO nice)) as (lw & Hw & Hv); [done|].
  unfold niced, set_weights. destruct t; simpl in *. rewrite Hw.
  split; simpl; try done. unfold normal_prio, task_has_rt_policy. simpl. by rewrite Hp.
Qed.

Lemma rt_static_ok nice t :
  task_ok t → -20 ≤ nice ≤ 19 → task_has_rt_policy t = true →
  task_ok (t <| static_prio := NICE_TO_PRIO nice |>).
Proof.
  intros [] Hn Hp. unfold task_has_rt_policy in Hp. destruct t. simpl in *. split; simpl; try done.
  - unfold NICE_TO_PRIO, MAX_PRIO, MAX_RT_PRIO. lia.
  - unfold normal_prio, task_has_rt_policy in *. simpl in *. by rewrite Hp in *.
  - by rewrite Hp.
Qed.

Lemma niced_queue nice t : class (niced nice t) = class t ∧ on_rq (niced nice t) = on_rq t.
Proof.
  destruct (set_weights_fields (t <| static_prio := NICE_TO_PRIO nice |>))
    as (_ & _ & _ & Fc & Fo & _). by destruct t.
Qed.

(** The tail of [set_user_nice]: back on the queue and, when the priority
    asks for it, the processor is told to reschedule. *)
Definition requeue (p o delta : Z) : M (rq Y) unit :=
  if negb (o =? 0) then
    _ ← enqueue_task p 0;
    running ← task_curr p;
    if (delta <? 0) || ((0 <? delta) && running) then
      c ← gets curr;
      resched_task c
    else mret tt
  else mret tt.

Lemma niced_attr nice t : -20 ≤ nice ≤ 19 → attr_of t (niced nice t).
Proof.
  intros Hn. destruct (set_weights_attr (t <| static_prio := NICE_TO_PRIO nice |>)) as [Hs Hv].
  { unfold NICE_TO_PRIO, MAX_PRIO, MAX_RT_PRIO. simpl. lia. }
  split; [exact Hs|exact Hv].
Qed.

(** The tasks of a queue that agrees with a consistent one have usable weights. *)
Lemma load_valid_same (r r' : rq Y) q t :
  rq_ok r → same_sched r r' → tasks r' !! q = Some t → load_valid (load (se t)).
Proof.
  intros Hr Hs Ht. pose proof (ss_tasks _ _ Hs q) as Hq. rewrite Ht in Hq. symmetry in Hq.
  apply fmap_Some in Hq as (t0 & Ht0 & He). rewrite (erase_load _ _ He).
  by apply (rq_tasks r Hr q).
Qed.

Lemma nice_requeue (r : rq Y) p t (delta o : Z) :
  class_ok true r → tasks r !! p = Some t → ¬ queued r p →
  (∃ tc, tasks r !! curr r = Some tc ∧ load_valid (load (se tc))) →
  o = 0 ∨ o = 1 ∧ queueing (class t) →
  ∃ r', requeue p o delta r = Ok tt r' ∧ class_ok true r' ∧ same_sched r r' ∧
    (queued r' p ↔ o = 1) ∧ (∀ q, q ≠ p → (queued r' q ↔ queued r q)) ∧
    (o = 1 → delta < 0 ∨ 0 < delta ∧ curr r = p → need_resched <$> tasks r' !! curr r' = Some true).
Proof.
  intros Hr Ht Hq (tc & Htc & Hl) Ho.
  destruct (enter_queue true o r p t) as (r1 & He & Hr1 & Hs & Hp & Hne); auto.
  unfold requeue.
  destruct Ho as [->|[-> Hc]]; simpl in *.
  { injection He as <-. exists r. split_and!; auto; lia. }
  unfold mbind, M_bind. rewrite He. unfold task_curr, mbind, M_bind, gets, mret, M_ret.
  destruct (erase_lookup r r1 (curr r) tc Hs Htc) as (tc' & Htc' & Hec).
  rewrite <- (ss_curr _ _ Hs) in Htc'.
  destruct (resched_task_same true r1 (curr r1) tc' Hr1 Htc') as (r2 & Hrun & Hr2 & Hs2 & Hq2 & Hn);
    [by rewrite (erase_load _ _ Hec)|].
  destruct ((delta <? 0) || ((0 <? delta) && (curr r1 =? p))) eqn:Hd.
  - exists r2. split_and!; auto; [by etrans|by rewrite (Hq2 p)| |].
    + intros q Hqp. rewrite (Hq2 q). by apply Hne.
    + intros _ _. by rewrite (ss_curr _ _ Hs2).
  - exists r1. split_and!; auto. intros _. rewrite <- (ss_curr _ _ Hs).
    apply orb_false_iff in Hd as [? Hd]. bsimp. apply andb_false_iff in Hd as [?|?]; bsimp; lia.
Qed.

(** The running task after an update. *)
Lemma upd_running (r r' : rq Y) p t' :
  rq_ok r → upd p t' r r' → task_ok t' →
  ∃ tc, tasks r' !! curr r' = Some tc ∧ load_valid (load (se tc)).
Proof.
  intros Hr Hu Hok. rewrite (up_curr _ _ _ _ Hu). destruct (decide (curr r = p)) as [->|Hne].
  - destruct (upd_lookup _ _ _ _ Hu) as (t'' & Ht & He). exists t''. split; [done|].
    rewrite (erase_load _ _ He). apply Hok.
  - destruct (rq_curr r Hr) as [tc Htc]. pose proof (up_others _ _ _ _ Hu _ Hne) as Ho.
    rewrite Htc in Ho. apply fmap_Some in Ho as (t0 & Ht0 & He). exists t0. split; [done|].
    rewrite <- (erase_load _ _ He). by apply (rq_tasks r Hr (curr r)).
Qed.

(** The branch for policies that are not real-time ones, from leaving the queue
    on. *)
Lemma set_user_nice_queued (r : rq Y) p nice t :
  rq_ok r → tasks r !! p = Some t → class t ≠ mycfs_sched_class →
  -20 ≤ nice ≤ 19 → task_has_rt_policy t = false →
  ∃ r', (_ ← (if negb (on_rq t =? 0) then dequeue_task p 0 else mret tt);
         _ ← store_task p (λ t, t <| static_prio := NICE_TO_PRIO nice |>);
         _ ← set_load_weight p;
         t' ← load_task p;
         e ← effective_prio p;
         _ ← store_task p (λ t, t <| prio := e |>);
         requeue p (on_rq t) (e - prio t')) r = Ok tt r' ∧
    rq_ok r' ∧ upd p (niced nice t) r r' ∧
    (on_rq t = 1 → prio (niced nice t) < prio t ∨ prio t < prio (niced nice t) ∧ curr r = p →
     need_resched <$> tasks r' !! curr r' = Some true).
Proof.
  intros Hr Ht Hc Hn Hp.
  destruct (leave_queue r p t Hr Ht Hc) as (r1 & t1 & Hl & Hr1 & Hs & Ht1 & He & Hq1 & Hcq & Hne).
  unfold mbind at 1, M_bind at 1. rewrite Hl.
  assert (task_has_rt_policy t1 = false) as Hp1 by (destruct t, t1; by injection He; intros; subst).
  assert (erase (niced nice t1) = erase (niced nice t)) as Hen by (by rewrite !niced_erase, He).
  destruct (niced_queue nice t1) as [Fc Fo].
  set (r2 := r1 <| tasks ::= <[p := niced nice t1]> |>).
  assert (upd p (niced nice t) r r2) as Hu.
  { apply (upd_trans _ t _ _ r1); [by apply same_upd|].
    apply (upd_erase _ (niced nice t1)); [done|]. apply upd_store. }
  assert (task_ok (niced nice t)) as Hok by (apply niced_ok; [by apply (rq_tasks r Hr p)|lia|done]).
  destruct (attr_law true r1 p t1 (niced nice t1)) as [Hr2 Hq2]; auto; [by apply niced_attr|].
  fold r2 in Hr2, Hq2.
  destruct (nice_requeue r2 p (niced nice t1) (prio (niced nice t1) - prio t1) (on_rq t))
    as (r3 & Hq & Hr3 & Hs3 & Hp3 & Hq3 & Hn3); auto.
  { simpl. by rewrite lookup_insert_eq. }
  { by rewrite (Hq2 p). }
  { by apply (upd_running r r2 p (niced nice t)). }
  { rewrite Fc, (erase_class _ _ He).
    destruct (ok_on_rq t (rq_tasks r Hr p t Ht)) as [Ho|Ho]; auto. }
  exists r3. split_and!.
  - refine (eq_trans (nice_assignments (requeue p (on_rq t)) r1 p t1 nice Ht1 Hp1 _) Hq). lia.
  - eapply (rq_ok_upd r r3 p t (niced nice t)); try done; [by eapply upd_same| |].
    + intros _. destruct (niced_queue nice t) as [_ ->]. done.
    + intros q Hqp. rewrite Hq3, (Hq2 q) by done. by apply Hne.
  - by eapply upd_same.
  - intros Ho Hd. apply Hn3; [done|].
    rewrite (up_curr _ _ _ _ Hu).
    assert (prio (niced nice t1) = prio (niced nice t) ∧ prio t1 = prio t) as [-> ->]
      by (split; by apply erase_prio). lia.
Qed.

(** [set_user_nice] has the effect of [renice]. *)
Lemma set_user_nice_run (r : rq Y) p nice t :
  rq_ok r → tasks r !! p = Some t → class t ≠ mycfs_sched_class →
  ∃ r', set_user_nice p nice r = Ok tt r' ∧ rq_ok r' ∧ upd p (renice nice t) r r' ∧
    (on_rq t = 1 → task_has_rt_policy t = false →
     prio (renice nice t) < prio t ∨ prio t < prio (renice nice t) ∧ curr r = p →
     need_resched <$> tasks r' !! curr r' = Some true).
Proof.
  intros Hr Ht Hc. unfold set_user_nice, renice. unfold mbind at 1, M_bind at 1.
  rewrite (load_task_eq r p t) by done.
  destruct (_ || _) eqn:Hn.
  { exists r. split_and!; try done; [by apply same_upd|]. lia. }
  bsimp. destruct (task_has_rt_policy t) eqn:Hp.
  { eexists. rewrite (store_task_eq r p t) by done. split; [done|].
    assert (upd p (t <| static_prio := NICE_TO_PRIO nice |>) r
              (r <| tasks ::= <[p := t <| static_prio := NICE_TO_PRIO nice |>]> |>)) as Hu
      by apply upd_store.
    destruct (store_quiet true r p t (t <| static_prio := NICE_TO_PRIO nice |>)) as [Hr' Hq'];
      try done; [apply (rq_class r Hr)|apply (rq_tasks r Hr p t Ht)|].
    split_and!; [|done|done]. eapply rq_ok_upd; [done|done|exact Hu| |done|intros _|].
    - by apply rt_static_ok; [apply (rq_tasks r Hr p)| |].
    - rewrite (Hq' p). apply (rq_queued r Hr p t Ht Hc).
    - intros q _. apply Hq'. }
  destruct (set_user_nice_queued r p nice t Hr Ht Hc) as (r' & Hrun & Hok & Hu & Hd); [lia|done|].
  exists r'. split_and!; auto.
Qed.

(** [set_user_nice] on a task that is not in the MYCFS class returns, with
    exactly the effect of [renice]: nothing for the present nice value or one out
    of range, only the static priority for a real-time task, and otherwise the
    static and normal priority, the load weight of the table and, unless the task
    is boosted to a real-time priority, the effective priority.  The run queue
    invariant holds again, no other task changes but for reschedule flags, and
    the processor is told to reschedule when a queued task gained priority or the
    running one lost it. *)
Theorem set_user_nice_correct (r : rq Y) p nice t :
  rq_ok r → tasks r !! p = Some t → class t ≠ mycfs_sched_class →
  ∃ r', set_user_nice p nice r = Ok tt r' ∧ rq_ok r' ∧ upd p (renice nice t) r r' ∧
    (on_rq t = 1 → task_has_rt_policy t = false →
     prio (renice nice t) < prio t ∨ prio t < prio (renice nice t) ∧ curr r = p →
     need_resched <$> tasks r' !! curr r' = Some true).
Proof. apply set_user_nice_run. Qed.

(** ** Policies *)

(** The task after a change of policy. *)
Definition with_policy (p pol priority : Z) (t : task) : task :=
  let t := t <| policy := pol |> <| rt_priority := priority |> in
  let t := t <| t_normal_prio := normal_prio t |> in
  let pr := rt_mutex_getprio p (t_normal_prio t) in
  set_weights (t <| prio := pr |>
    <| class := if pol =? SCHED_MYCFS then mycfs_sched_class
                else if rt_prio pr then rt_sched_class else fair_sched_class |>).

Lemma with_policy_erase p pol priority t :
  erase (with_policy p pol priority t) = with_policy p pol priority (erase t).
Proof.
  unfold with_policy, set_weights, erase. destruct t; simpl. by destruct (weights_of _ _).
Qed.

Lemma with_policy_fields p pol priority t :
  on_rq (with_policy p pol priority t) = on_rq t ∧
  class (with_policy p pol priority t) =
    (if pol =? SCHED_MYCFS then mycfs_sched_class
     else if rt_prio (prio (with_policy p pol priority t)) then rt_sched_class
     else fair_sched_class).
Proof.
  unfold with_policy. cbv zeta.
  match goal with |- context [set_weights ?x] =>
    destruct (set_weights_fields x) as (_ & _ & Fr & Fc & Fo & _) end.
  rewrite Fr, Fc, Fo. by destruct t.
Qed.

Lemma with_policy_ok p pol priority t : task_ok t → task_ok (with_policy p pol priority t).
Proof.
  intros [Hs _ _ _ Ho]. destruct (weights_defined pol (static_prio t) Hs) as (lw & Hw & Hv).
  unfold with_policy, set_weights. destruct t; simpl in *. rewrite Hw. by split.
Qed.

Lemma setscheduler_assignments (r : rq Y) p pol priority t :
  tasks r !! p = Some t → task_ok t →
  __setscheduler p pol priority r =
    Ok tt (r <| tasks ::= <[p := with_policy p pol priority t]> |>).
Proof.
  intros Ht [Hs _ _ _ _]. unfold __setscheduler, mbind, M_bind.
  do 5 (erewrite (store_task_eq _ p) by (simpl; rewrite ?lookup_insert_eq; done)).
  unfold with_policy. destruct (pol =? SCHED_MYCFS).
  - erewrite (store_task_eq _ p) by (simpl; rewrite ?lookup_insert_eq; done).
    erewrite (set_load_weight_eq _ p) by (simpl; rewrite ?lookup_insert_eq; done).
    by rewrite !store_store.
  - unfold mret, M_ret.
    erewrite (set_load_weight_eq _ p) by (simpl; rewrite ?lookup_insert_eq; done).
    by rewrite !store_store.
Qed.

Lemma with_policy_attr p pol priority t :
  task_ok t → attr_of t (with_policy p pol priority t).
Proof.
  intros [Hs _ _ _ _]. unfold with_policy. cbv zeta.
  match goal with |- attr_of _ (set_weights ?x) => destruct (set_weights_attr x) as [Ha Hv] end;
    [exact Hs|]. split; [exact Ha|exact Hv].
Qed.

(** The running task is taken from its class, and given back to its new one. *)
Lemma put_prev_running (r : rq Y) p t :
  class_ok true r → tasks r !! p = Some t → class t ≠ mycfs_sched_class →
  ∃ r', (if curr r =? p then put_prev_method_of p else mret tt) r = Ok tt r' ∧
    class_ok (negb (curr r =? p)) r' ∧ same_sched r r' ∧ same_queue r r'.
Proof.
  intros Hr Ht Hc. destruct (Z.eqb_spec (curr r) p) as [<-|Hne]; [|by exists r].
  destruct (put_prev_law r t) as (m & Hm & [] & r' & Hrun & Hr' & Hs & Hq); auto.
  exists r'. unfold put_prev_method_of, mbind, M_bind. rewrite (load_task_eq r _ t) by done.
  by rewrite Hm.
Qed.

Lemma set_curr_running (r : rq Y) p t :
  class_ok (negb (curr r =? p)) r → tasks r !! p = Some t → class t ≠ mycfs_sched_class →
  ∃ r', (if curr r =? p then m ← deref (set_curr_method (methods_of (class t))); m
         else mret tt) r = Ok tt r' ∧
    class_ok true r' ∧ same_sched r r' ∧ same_queue r r'.
Proof.
  intros Hr Ht Hc. destruct (Z.eqb_spec (curr r) p) as [<-|Hne]; [|by exists r].
  destruct (set_curr_law r t) as (m & Hm & [] & r' & Hrun & Hr' & Hs & Hq); auto.
  exists r'. unfold mbind, M_bind. by rewrite Hm.
Qed.

(** The part of the policy change that follows the assignments. *)
Definition enter_class (p o : Z) (running : bool) (prev_class : sched_class) (oldprio : Z)
    : M (rq Y) unit :=
  t ← load_task p;
  _ ← (if running then m ← deref (set_curr_method (methods_of (class t))); m else mret tt);
  _ ← (if negb (o =? 0) then enqueue_task p 0 else mret tt);
  check_class_changed p prev_class oldprio.

(** Leaving the old class and the assignments: [p] is off every queue. *)
Lemma change_policy_leave (r : rq Y) p pol priority reset t :
  rq_ok r → tasks r !! p = Some t → queueing (class t) →
  let t' := with_policy p pol priority (t <| sched_reset_on_fork := reset |>) in
  ∃ r', change_policy p pol priority reset r =
          enter_class p (on_rq t) (curr r =? p) (class t) (prio t) r' ∧
    class_ok (negb (curr r =? p)) r' ∧ upd p t' r r' ∧ ¬ queued r' p ∧
    ∀ q, q ≠ p → (queued r' q ↔ queued r q).
Proof.
  intros Hr Ht Hcq t'. destruct (queueing_known _ Hcq) as [Hc Hni]. unfold change_policy.
  destruct (leave_queue r p t Hr Ht Hc) as (r1 & t1 & Hl & Hr1 & Hs & Ht1 & He & Hq1 & _ & Hne).
  destruct (put_prev_running r1 p t1) as (r2 & Hpp & Hr2 & Hs2 & Hq2);
    [done|done|by rewrite (erase_class _ _ He)|].
  rewrite (ss_curr _ _ Hs) in Hpp, Hr2.
  destruct (erase_lookup r1 r2 p t1 Hs2 Ht1) as (t2 & Ht2 & He2). rewrite He in He2.
  unfold mbind, M_bind. rewrite (load_task_eq r p t) by done.
  change (task_curr p r) with (@Ok (rq Y) bool (curr r =? p) r).
  cbv beta iota zeta. rewrite Hl, Hpp.
  rewrite (store_task_eq r2 p t2) by done.
  set (t3 := t2 <| sched_reset_on_fork := reset |>).
  assert (erase t3 = erase (t <| sched_reset_on_fork := reset |>)) as He3
    by (unfold t3; by apply (f_equal (λ x, x <| sched_reset_on_fork := reset |>)) in He2).
  assert (task_ok t3) as Hok3.
  { apply (task_ok_erase (t <| sched_reset_on_fork := reset |>)); [done|].
    destruct (rq_tasks r Hr p t Ht). by split. }
  erewrite (load_task_eq _ p t3) by (simpl; by rewrite lookup_insert_eq).
  rewrite (setscheduler_assignments _ p pol priority t3); [|simpl; by rewrite lookup_insert_eq|done].
  rewrite store_store.
  destruct (attr_law (negb (curr r =? p)) r2 p t2 (with_policy p pol priority t3)) as [Hr3 Hq3];
    auto.
  { apply (with_policy_attr p pol priority t3 Hok3). }
  { left. by rewrite (Hq2 p). }
  { right. rewrite (ss_curr _ _ Hs2), (ss_curr _ _ Hs), (erase_class _ _ He2).
    split_and!; [by rewrite (Hq2 p)|destruct (Z.eqb_spec (curr r) p); auto|done]. }
  eexists. split; [|split_and!].
  - change (prio t3) with (prio t2). change (class t3) with (class t2).
    rewrite (erase_prio _ _ He2), (erase_class _ _ He2). reflexivity.
  - done.
  - apply (upd_trans _ t2 _ _ r2).
    + apply (upd_erase _ t); [done|]. apply same_upd; [done|]. by etrans.
    + apply (upd_erase _ (with_policy p pol priority t3)); [|apply upd_store].
      unfold t'. by rewrite !with_policy_erase, He3.
  - by rewrite (Hq3 p), (Hq2 p).
  - intros q Hq. rewrite (Hq3 q), (Hq2 q). by apply Hne.
Qed.

(** Hands between classes that are both known to the core. *)
Lemma check_class_changed_other (r : rq Y) p prev_class oldprio t :
  class_ok true r → tasks r !! p = Some t → policy_class (class t) →
  prev_class ≠ mycfs_sched_class → is_Some (tasks r !! curr r) →
  ∃ r', check_class_changed p prev_class oldprio r = Ok tt r' ∧ class_ok true r' ∧
    same_sched r r' ∧ same_queue r r'.
Proof.
  intros Hr Ht Hc Hpc Hcur. unfold check_class_changed, mbind, M_bind.
  rewrite (load_task_eq r p t) by done.
  destruct (decide _) as [Heq|Hneq].
  - destruct (negb _); [|by exists r].
    destruct (prio_changed_law p oldprio r t) as (m & Hm & [] & r' & Hrun & Hr' & Hs & Hq); auto.
    exists r'. by rewrite Hm.
  - assert (∃ r1, match switched_from_method (methods_of prev_class) with
                  | Some m => m p | None => mret tt end r = Ok tt r1 ∧ class_ok true r1 ∧
                  same_sched r r1 ∧ same_queue r r1) as (r1 & Hf & Hr1 & Hs1 & Hq1).
    { destruct (switched_from_method _) as [m|] eqn:Hm; [|by exists r].
      destruct (switched_from_law true prev_class m p r t) as ([] & r1 & ?); auto. by exists r1. }
    rewrite Hf. destruct (erase_lookup r r1 p t Hs1 Ht) as (t1 & Ht1 & He).
    rewrite <- (erase_class _ _ He) in Hc |- *.
    destruct (switched_to_law p r1 t1) as (m & Hm & [] & r2 & Hrun & Hr2 & Hs2 & Hq2); auto.
    { rewrite (ss_curr _ _ Hs1). destruct Hcur as [tc Htc].
      by destruct (erase_lookup r r1 _ tc Hs1 Htc) as (? & -> & _). }
    exists r2. rewrite Hm. split_and!; [done|done|by etrans|by etrans].
Qed.

Lemma running_same (r r' : rq Y) :
  same_sched r r' → is_Some (tasks r !! curr r) → is_Some (tasks r' !! curr r').
Proof.
  intros Hs [t Ht]. rewrite (ss_curr _ _ Hs). by destruct (erase_lookup r r' _ t Hs Ht) as (? & -> & _).
Qed.

Lemma enter_class_other (r : rq Y) p (o : Z) prev_class oldprio t :
  class_ok (negb (curr r =? p)) r → tasks r !! p = Some t → policy_class (class t) →
  prev_class ≠ mycfs_sched_class → ¬ queued r p → o = 0 ∨ o = 1 → is_Some (tasks r !! curr r) →
  ∃ r', enter_class p o (curr r =? p) prev_class oldprio r = Ok tt r' ∧ class_ok true r' ∧
    same_sched r r' ∧ (queued r' p ↔ o = 1) ∧ ∀ q, q ≠ p → (queued r' q ↔ queued r q).
Proof.
  intros Hr Ht Hc Hpc Hq Ho Hcur. unfold enter_class. unfold mbind at 1, M_bind at 1.
  rewrite (load_task_eq r p t) by done.
  assert (class t ≠ mycfs_sched_class ∧ queueing (class t)) as [Hc1 Hc2]
    by (unfold queueing; destruct Hc as [-> | ->]; auto).
  destruct (set_curr_running r p t Hr Ht Hc1) as (r1 & Hrun1 & Hr1 & Hs1 & Hq1).
  destruct (erase_lookup r r1 p t Hs1 Ht) as (t1 & Ht1 & He1).
  rewrite <- (erase_class _ _ He1) in Hc, Hc2.
  destruct (enter_queue true o r1 p t1) as (r2 & Hrun2 & Hr2 & Hs2 & Hp2 & Hq2); auto;
    [by rewrite (Hq1 p)|naive_solver|].
  destruct (erase_lookup r1 r2 p t1 Hs2 Ht1) as (t2 & Ht2 & He2).
  rewrite <- (erase_class _ _ He2) in Hc.
  destruct (check_class_changed_other r2 p prev_class oldprio t2)
    as (r3 & Hrun3 & Hr3 & Hs3 & Hq3); auto.
  { apply (running_same r1); [done|]. by apply (running_same r). }
  exists r3. unfold mbind at 1, M_bind at 1. rewrite Hrun1. unfold mbind, M_bind.
  rewrite Hrun2, Hrun3. split_and!; [done|done|by etrans; [|etrans]|by rewrite (Hq3 p)|].
  intros q Hqp. by rewrite (Hq3 q), Hq2, (Hq1 q) by done.
Qed.

(** Entering MYCFS calls the [switched_to] the class does not have. *)
Lemma enter_class_mycfs b (r : rq Y) p (o : Z) running prev_class oldprio t :
  class_ok b r → tasks r !! p = Some t → load_valid (load (se t)) →
  class t = mycfs_sched_class → prev_class ≠ mycfs_sched_class →
  ∃ r', enter_class p o running prev_class oldprio r = Err NullDeref r'.
Proof.
  intros Hr Ht Hl Hc Hpc. unfold enter_class. unfold mbind at 1, M_bind at 1.
  rewrite (load_task_eq r p t), Hc by done.
  assert ((if running then m ← deref (set_curr_method (methods_of mycfs_sched_class)); m
           else mret tt) r = Ok tt r) as Hsc by by destruct running.
  unfold mbind at 1, M_bind at 1. rewrite Hsc.
  assert (∃ r1 t1, (if negb (o =? 0) then enqueue_task p 0 else mret tt) r = Ok tt r1 ∧
            class_ok b r1 ∧ tasks r1 !! p = Some t1 ∧ class t1 = mycfs_sched_class)
    as (r1 & t1 & Hrun1 & Hr1 & Ht1 & Hc1).
  { destruct (negb _); [|by exists r, t].
    destruct (clock_first b r p t Hr Ht) as (r0 & Hcl & Hr0 & _ & _ & Ht0).
    exists (r0 <| tasks ::= <[p := t <| on_rq := 1 |>]> |>), (t <| on_rq := 1 |>).
    destruct (store_quiet b r0 p t (t <| on_rq := 1 |>)) as [Hr1 _]; auto.
    unfold enqueue_task, mbind, M_bind. rewrite Hcl, (load_task_eq r0 p t), Hc by done.
    simpl. unfold enqueue_task_mycfs. rewrite (store_task_eq r0 p t) by done.
    by rewrite lookup_insert_eq. }
  unfold mbind, M_bind. rewrite Hrun1. unfold check_class_changed, mbind, M_bind.
  rewrite (load_task_eq r1 p t1), Hc1 by done. rewrite decide_False by done.
  destruct (switched_from_method _) as [m|] eqn:Hm; [|by eexists].
  destruct (switched_from_law b prev_class m p r1 t1) as (? & r2 & -> & _); auto; [congruence|].
  by eexists.
Qed.

Lemma with_policy_class p pol priority t :
  pol ≠ SCHED_MYCFS → policy_class (class (with_policy p pol priority t)).
Proof.
  intros Hpol. destruct (with_policy_fields p pol priority t) as [_ ->].
  rewrite (proj2 (Z.eqb_neq pol _) Hpol). unfold policy_class. destruct (rt_prio _); auto.
Qed.

Lemma change_policy_other (r : rq Y) p pol priority reset t :
  rq_ok r → tasks r !! p = Some t → queueing (class t) → pol ≠ SCHED_MYCFS →
  let t' := with_policy p pol priority (t <| sched_reset_on_fork := reset |>) in
  ∃ r', change_policy p pol priority reset r = Ok tt r' ∧ rq_ok r' ∧ upd p t' r r'.
Proof.
  intros Hr Ht Hc Hpol t'. pose proof (rq_tasks r Hr p t Ht) as Hok.
  assert (task_ok t') as Hok' by (apply with_policy_ok; destruct Hok; by split).
  destruct (change_policy_leave r p pol priority reset t Hr Ht Hc) as (r1 & -> & Hr1 & Hu & Hq & Hne).
  fold t' in Hu. destruct (upd_lookup _ _ _ _ Hu) as (t1 & Ht1 & He).
  pose proof (with_policy_class p pol priority (t <| sched_reset_on_fork := reset |>) Hpol) as Hc'.
  fold t' in Hc'. rewrite <- (up_curr _ _ _ _ Hu) in Hr1 |- *.
  destruct (enter_class_other r1 p (on_rq t) (class t) (prio t) t1)
    as (r2 & Hr2 & Hcl2 & Hs2 & Hp2 & Hq2); auto;
    [by rewrite (erase_class _ _ He)|apply (queueing_known _ Hc)|apply (ok_on_rq t Hok)
    |destruct (upd_running r r1 p t' Hr Hu Hok') as (tc & ? & _); by exists tc|].
  exists r2. assert (upd p t' r r2) as Hu2 by (by eapply upd_same).
  split_and!; [done| |done].
  apply (rq_ok_upd r r2 p t t'); try done.
  - intros _. unfold t'.
    by rewrite (proj1 (with_policy_fields p pol priority (t <| sched_reset_on_fork := reset |>))).
  - intros q Hqp. by rewrite Hq2, Hne.
Qed.

(** The policy and the priority a request asks for. *)
Definition asks_for (policy' priority : Z) (t t' : task) : Prop :=
  policy t' = (if policy' <? 0 then policy t else Z.ldiff policy' SCHED_RESET_ON_FORK) ∧
  (rt_policy (policy t') = true → rt_priority t' = priority).

Lemma asks_for_erase policy' priority t t1 t2 :
  erase t1 = erase t2 → asks_for policy' priority t t1 → asks_for policy' priority t t2.
Proof. destruct t1, t2. intros He. injection He. intros. by subst. Qed.

Lemma check_policy_pol t p policy' priority user pol reset :
  check_policy t p policy' priority user = inr (pol, reset) →
  pol = (if policy' <? 0 then policy t else Z.ldiff policy' SCHED_RESET_ON_FORK).
Proof.
  unfold check_policy. destruct (policy' <? 0); intros Hc;
    repeat (case_match; try discriminate Hc); by injection Hc.
Qed.

Lemma with_policy_asked p policy' pol priority t t0 :
  pol = (if policy' <? 0 then policy t else Z.ldiff policy' SCHED_RESET_ON_FORK) →
  asks_for policy' priority t (with_policy p pol priority t0).
Proof.
  intros ->. unfold asks_for, with_policy. cbv zeta.
  match goal with |- context [set_weights ?x] =>
    destruct (set_weights_fields x) as (-> & _ & _ & _ & _ & ->) end.
  by destruct t0.
Qed.

Lemma check_policy_error t p policy' priority user e :
  check_policy t p policy' priority user = inl e → e ≠ 0.
Proof.
  unfold check_policy. destruct (policy' <? 0); intros Hc;
    repeat (case_match; try discriminate Hc); injection Hc as <-; try done; bsimp; done.
Qed.

(** [p] waits for no priority-inheriting mutex, so that adjusting the chain of
    owners behind it changes no task. *)
Definition pi_quiet (p : Z) : Prop :=
  ∀ r, class_ok true r → returns (rt_mutex_adjust_pi p) r (λ _ r',
    class_ok true r' ∧ same_sched r r' ∧ same_queue r r').

Lemma change_and_adjust (r : rq Y) p pol priority reset t :
  pi_quiet p → rq_ok r → tasks r !! p = Some t → queueing (class t) →
  pol ≠ SCHED_MYCFS →
  let t' := with_policy p pol priority (t <| sched_reset_on_fork := reset |>) in
  ∃ r', (_ ← change_policy p pol priority reset; _ ← rt_mutex_adjust_pi p; mret 0) r = Ok 0 r' ∧
    rq_ok r' ∧ upd p t' r r'.
Proof.
  intros Hpi Hr Ht Hc Hpol t'.
  destruct (change_policy_other r p pol priority reset t Hr Ht Hc Hpol) as (r1 & Hch & Hr1 & Hu).
  fold t' in Hu. destruct (Hpi r1 (rq_class r1 Hr1)) as ([] & r2 & Had & Hr2 & Hs & Hq).
  exists r2. unfold mbind, M_bind. rewrite Hch, Had. split_and!; [done| |by eapply upd_same].
  by apply (rq_ok_same r1).
Qed.

(** A request for any policy but SCHED_MYCFS leaves the queue as it is, with an
    error or because nothing is asked for, or changes the policy. *)
Lemma setscheduler_run (r : rq Y) p policy' priority user t :
  pi_quiet p → rq_ok r → tasks r !! p = Some t → queueing (class t) →
  (if policy' <? 0 then policy t else Z.ldiff policy' SCHED_RESET_ON_FORK) ≠ SCHED_MYCFS →
  ∃ v r', __sched_setscheduler p policy' priority user r = Ok v r' ∧
    ((r' = r ∧ (v = 0 → asks_for policy' priority t t)) ∨
     v = 0 ∧ rq_ok r' ∧ ∃ pol reset,
       upd p (with_policy p pol priority (t <| sched_reset_on_fork := reset |>)) r r' ∧
       pol = (if policy' <? 0 then policy t else Z.ldiff policy' SCHED_RESET_ON_FORK)).
Proof.
  intros Hpi Hr Ht Hc Hpol. unfold __sched_setscheduler. unfold mbind at 1, M_bind at 1.
  rewrite (load_task_eq r p t) by done.
  destruct (check_policy _ _ _ _ _) as [e|[pol reset]] eqn:Hck.
  { exists e, r. split; [done|]. left. split; [done|]. intros ->.
    by pose proof (check_policy_error _ _ _ _ _ _ Hck). }
  pose proof (check_policy_pol _ _ _ _ _ _ _ Hck) as Hpe. rewrite <- Hpe in Hpol.
  unfold mbind at 1, M_bind at 1, gets.
  destruct (bool_decide _); [exists (- EINVAL), r; split; [done|by left]|].
  destruct ((pol =? policy t) && _) eqn:Hsame.
  { exists 0, r. split; [done|]. left. split; [done|]. intros _.
    apply andb_true_iff in Hsame as [Hsame Hpr]. bsimp. split; [congruence|]. rewrite <- Hsame.
    intros Hrt. rewrite Hrt in Hpr. simpl in Hpr. bsimp. done. }
  destruct (user && _ && _); [exists (- EPERM), r; split; [done|by left]|].
  destruct (change_and_adjust r p pol priority reset t) as (r' & Hrun & Hr' & Hu); try done.
  exists 0, r'. split; [done|]. right. split_and!; [done|done|]. by exists pol, reset.
Qed.

(** C21. A request for any policy but SCHED_MYCFS, made on a task of the stop,
    real-time or fair class, returns; the run queue invariant holds again and no other task
    changes but for reschedule flags.  An error leaves everything as it was, and
    0 means that the task now has the policy, and under a real-time policy the
    priority, that was asked for. *)
Theorem sched_setscheduler_correct (r : rq Y) p policy' priority user t :
  pi_quiet p → rq_ok r → tasks r !! p = Some t → queueing (class t) →
  (if policy' <? 0 then policy t else Z.ldiff policy' SCHED_RESET_ON_FORK) ≠ SCHED_MYCFS →
  ∃ v r', __sched_setscheduler p policy' priority user r = Ok v r' ∧ rq_ok r' ∧
    (∀ q, q ≠ p → erase <$> tasks r' !! q = erase <$> tasks r !! q) ∧
    (v ≠ 0 → r' = r) ∧
    (v = 0 → ∃ t', tasks r' !! p = Some t' ∧ asks_for policy' priority t t').
Proof.
  intros Hpi Hr Ht Hc Hpol.
  destruct (setscheduler_run r p policy' priority user t Hpi Hr Ht Hc Hpol)
    as (v & r' & Hrun & [[-> Hv]|(-> & Hr' & pol & reset & Hu & Hpe)]); exists v, r || exists 0, r'.
  - split_and!; eauto.
  - split_and!; [done|done|apply (up_others _ _ _ _ Hu)|done|]. intros _.
    destruct (upd_lookup _ _ _ _ Hu) as (t1 & Ht1 & He). exists t1. split; [done|].
    eapply asks_for_erase; [by symmetry|]. by apply with_policy_asked.
Qed.

(** A request for SCHED_MYCFS changes nothing, or never returns. *)
Lemma setscheduler_mycfs_run (r : rq Y) p policy' priority user t v r' :
  rq_ok r → tasks r !! p = Some t → queueing (class t) →
  (if policy' <? 0 then policy t else Z.ldiff policy' SCHED_RESET_ON_FORK) = SCHED_MYCFS →
  __sched_setscheduler p policy' priority user r = Ok v r' → r' = r.
Proof.
  intros Hr Ht Hc Hpol. unfold __sched_setscheduler. unfold mbind at 1, M_bind at 1.
  rewrite (load_task_eq r p t) by done.
  destruct (check_policy _ _ _ _ _) as [e|[pol reset]] eqn:Hck; [by intros [= _ ->]|].
  pose proof (check_policy_pol _ _ _ _ _ _ _ Hck) as Hpe. rewrite Hpol in Hpe. subst pol.
  unfold mbind at 1, M_bind at 1, gets. destruct (bool_decide _); [by intros [= _ ->]|].
  destruct (_ && _); [by intros [= _ ->]|]. destruct (user && _ && _); [by intros [= _ ->]|].
  destruct (change_policy_leave r p SCHED_MYCFS priority reset t Hr Ht Hc)
    as (r1 & Hch & Hr1 & Hu & _ & _).
  destruct (upd_lookup _ _ _ _ Hu) as (t1 & Ht1 & He).
  destruct (enter_class_mycfs _ r1 p (on_rq t) (curr r =? p) (class t) (prio t) t1 Hr1)
    as (r2 & Hen); auto; [| |by apply queueing_known|].
  { rewrite (erase_load _ _ He). apply ok_load, with_policy_ok.
    destruct (rq_tasks r Hr p t Ht). by split. }
  { rewrite (erase_class _ _ He). apply with_policy_fields. }
  unfold mbind, M_bind. by rewrite Hch, Hen.
Qed.

(** C38. [sched_setscheduler (pid, SCHED_MYCFS, 0)] by a privileged caller on a
    real-time or fair task that is not the stop task never returns: the task is
    put in the MYCFS class, and [check_class_changed] then calls the
    [switched_to] method that [mycfs_sched_class] leaves out. *)
Theorem setscheduler_mycfs_faults (r : rq Y) pid p t :
  rq_ok r → tasks r !! p = Some t → queueing (class t) → policy t ≠ SCHED_MYCFS →
  stop r ≠ Some p → 0 ≤ pid → find_process_by_pid pid = Some p →
  capable_sys_nice = true → security_task_setscheduler p = 0 →
  ∃ r', sys_sched_setscheduler pid SCHED_MYCFS (Some (Some 0)) r = Err NullDeref r'.
Proof.
  intros Hr Ht Hc Hpol Hst Hpid Hf Hcap Hsec.
  unfold sys_sched_setscheduler, do_sched_setscheduler, sched_setscheduler.
  rewrite (proj2 (Z.ltb_ge _ _) Hpid), Hf. change (SCHED_MYCFS <? 0) with false.
  unfold __sched_setscheduler. unfold mbind at 1, M_bind at 1.
  rewrite (load_task_eq r p t) by done.
  assert (check_policy t p SCHED_MYCFS 0 true = inr (SCHED_MYCFS, false)) as ->.
  { unfold check_policy. rewrite Hcap, Hsec. by destruct (has_mm t). }
  unfold mbind at 1, M_bind at 1, gets. rewrite bool_decide_eq_false_2 by done.
  rewrite (proj2 (Z.eqb_neq SCHED_MYCFS (policy t))) by done.
  rewrite andb_false_r. simpl.
  destruct (change_policy_leave r p SCHED_MYCFS 0 false t Hr Ht Hc) as (r1 & Hch & Hr1 & Hu & _ & _).
  destruct (upd_lookup _ _ _ _ Hu) as (t1 & Ht1 & He).
  destruct (enter_class_mycfs _ r1 p (on_rq t) (curr r =? p) (class t) (prio t) t1 Hr1)
    as (r2 & Hen); auto; [| |by apply queueing_known|].
  { rewrite (erase_load _ _ He). apply ok_load, with_policy_ok.
    destruct (rq_tasks r Hr p t Ht). by split. }
  { rewrite (erase_class _ _ He). apply with_policy_fields. }
  exists r2. unfold mbind, M_bind. by rewrite Hch, Hen.
Qed.

(** ** The choice of the next task *)

(** The task the class [c] would run next. *)
Definition offer (c : sched_class) (r : rq Y) : option Z :=
  match pick_next_method (methods_of c) with
  | Some m => match m r with Ok o _ => o | Err _ _ => None end
  | None => None
  end.

(** [c] is the first class of the chain that makes an offer, and offers [p]. *)
Definition first_offer (cs : list sched_class) (r : rq Y) (c : sched_class) (p : Z) : Prop :=
  ∃ pre post, cs = pre ++ c :: post ∧ Forall (λ x, offer x r = None) pre ∧ offer c r = Some p.

(** What holds when the class [c] chooses [p]: it becomes the current task of
    that class.  MYCFS chooses the task that runs, whatever its class. *)
Definition chosen (c : sched_class) (r : rq Y) (p : Z) (r' : rq Y) : Prop :=
  same_sched r r' ∧ same_queue r r' ∧
  if decide (c = mycfs_sched_class)
  then p = curr r ∧ r' = r ∧ ∃ t, tasks r !! p = Some t ∧ on_rq t ≠ 0
  else class <$> tasks r !! p = Some c ∧ class_ok true (r' <| curr := p |>) ∧
    same_queue r (r' <| curr := p |>) ∧ (c ≠ idle_sched_class → queued r p).

(** One class is asked. *)
Lemma ask_class c (r : rq Y) :
  class_ok false r → synced r → is_Some (tasks r !! curr r) →
  ∃ m, pick_next_method (methods_of c) = Some m ∧ returns m r (λ o r', o = offer c r ∧
    match o with None => r' = r ∧ c ≠ idle_sched_class | Some p => chosen c r p r' end).
Proof.
  intros Hr Hy [t Ht]. unfold offer, chosen, returns. destruct (decide (c = mycfs_sched_class)) as [->|Hc].
  - exists pick_next_task_mycfs. split; [done|]. cbn [pick_next_method methods_of mycfs_methods].
    unfold pick_next_task_mycfs, mbind, M_bind, gets. rewrite (load_task_eq r _ t) by done.
    destruct (on_rq t =? 0) eqn:Ho; simpl; do 2 eexists; split_and!; try done.
    split_and!; try done. exists t. split; [done|]. by bsimp.
  - destruct (pick_law c r Hr Hc Hy) as (m & Hm & o & r' & Hrun & Ho). exists m. split; [done|].
    exists o, r'. rewrite Hm, Hrun. split_and!; try done. destruct o; [|done].
    by destruct Ho as (? & ? & ? & ? & ? & ?).
Qed.

Lemma pick_class_first cs (r : rq Y) :
  class_ok false r → synced r → is_Some (tasks r !! curr r) → idle_sched_class ∈ cs →
  ∃ p r' c, pick_class cs r = Ok p r' ∧ first_offer cs r c p ∧ chosen c r p r'.
Proof.
  intros Hr Hy Ht. induction cs as [|c cs IH]; intros Hi; [by apply elem_of_nil in Hi|].
  destruct (ask_class c r Hr Hy Ht) as (m & Hm & o & r1 & Hrun & Ho & Hc).
  cbn [pick_class]. rewrite Hm. cbn [deref]. unfold mbind, M_bind. simpl. rewrite Hrun.
  destruct o as [p|].
  - exists p, r1, c. split_and!; try done. by exists [], cs.
  - destruct Hc as [-> Hne]. destruct IH as (p & r' & c' & Hpick & (pre & post & -> & Hpre & Hoff) & Hch).
    { by apply elem_of_cons in Hi as [<-|?]. }
    exists p, r', c'. split_and!; try done. exists (c :: pre), post. by split_and!; [|constructor|].
Qed.

(** When only fair tasks are queued, the classes before the fair one have no
    offer. *)
Lemma only_fair (r : rq Y) q c :
  class_ok false r → synced r → is_Some (tasks r !! curr r) → cfs_rqs r !! 0 = Some q →
  nr_running r = h_nr_running q → c = stop_sched_class ∨ c = rt_sched_class → offer c r = None.
Proof.
  intros Hr Hy Ht Hq Hn Hc. destruct (shortcut_law r Hr) as (q' & Hq' & Hf).
  rewrite Hq in Hq'. injection Hq' as <-. specialize (Hf Hn).
  destruct (ask_class c r Hr Hy Ht) as (m & _ & o & r1 & _ & Ho & Hch). rewrite <- Ho.
  destruct o as [p|]; [|done]. exfalso. destruct Hch as (_ & _ & Hch).
  rewrite decide_False in Hch by (by destruct Hc as [-> | ->]).
  destruct Hch as (Hcl & _ & _ & Hqd). rewrite (Hf p) in Hcl by (apply Hqd; by destruct Hc as [-> | ->]).
  destruct Hc as [-> | ->]; discriminate Hcl.
Qed.

Lemma pick_next_task_first (r : rq Y) :
  class_ok false r → synced r → is_Some (tasks r !! curr r) →
  ∃ p r' c, pick_next_task r = Ok p r' ∧ first_offer class_chain r c p ∧ chosen c r p r'.
Proof.
  intros Hr Hy Hcur. destruct (shortcut_law r Hr) as (q & Hq & _).
  assert (load_cfs 0 r = Ok q r) as Hl by (unfold load_cfs; mstep; by rewrite Hq).
  unfold pick_next_task. unfold mbind at 1 2, M_bind at 1 2, gets. rewrite Hl.
  destruct (pick_class_first class_chain r Hr Hy Hcur) as (p & r' & c & Hrun & Hfo & Hch);
    [unfold class_chain; set_solver|].
  destruct (nr_running r =? h_nr_running q) eqn:Hn; bsimp; [|by exists p, r', c].
  destruct (ask_class fair_sched_class r Hr Hy Hcur) as (m & Hm & o & r1 & Hrun1 & Ho & Hc).
  rewrite Hm. unfold mbind, M_bind. simpl. unfold mret, M_ret. rewrite Hrun1.
  destruct o as [p'|]; [|destruct Hc as [-> _]; by exists p, r', c].
  exists p', r1, fair_sched_class. split_and!; try done.
  exists [stop_sched_class; rt_sched_class], [mycfs_sched_class; idle_sched_class].
  split_and!; [done| |done]. repeat constructor; apply (only_fair r q); auto.
Qed.

(** [pick_next_task] always returns, and the shortcut for a queue that
    holds only fair tasks does not change its answer: it is the offer of the
    first class of the chain that makes one, and that class now holds it as its
    current task.  The MYCFS class offers the task that runs, of whatever class
    that is. *)
Theorem pick_next_task_highest (r : rq Y) :
  class_ok false r → synced r → is_Some (tasks r !! curr r) →
  ∃ p r' c, pick_next_task r = Ok p r' ∧ first_offer class_chain r c p ∧ chosen c r p r'.
Proof. apply pick_next_task_first. Qed.
End Laws.

(** The limits the system calls report for SCHED_MYCFS exclude each other, while
    the only priority [__sched_setscheduler] takes for it is 0. *)
Lemma mycfs_priority_range_empty :
  sys_sched_get_priority_max SCHED_MYCFS < sys_sched_get_priority_min SCHED_MYCFS.
Proof. done. Qed.
