(* ===== verification/SchedRun.v ===== *)
(** * The scheduler at work: ticks, wake-ups and context switches

    The operations that run all the time, proved against the interface
    [ClassLaws]: from a consistent run queue they return, and leave a consistent
    one.  [sched_step] collects the operations as one step relation; its
    reachable states are consistent and hold no task of the MYCFS class. *)

From S2P Require Import Prelude SchedData Fair Sched SchedSpec.

Section Run.
Context {Y : Type} `{SchedEnv Y} `{FairEnv Y} `{!ClassLaws}.
Implicit Types (r : rq Y).

(** Workers of the work queues are told when they wake up; that touches no
    scheduling state. *)
Definition workers_quiet : Prop :=
  ∀ p r, class_ok true r → returns (wq_worker_waking_up p) r (λ _ r',
    class_ok true r' ∧ same_sched r r' ∧ same_queue r r').

(** The running task is still queued, but no class that queues tasks offers one: they are
    throttled. *)
Definition withheld (r : rq Y) : Prop := queued r (curr r) ∧ ∀ c, queueing c → offer c r = None.

(** A run queue on which the scheduler can work: consistent, with a running task
    that is queued or the idle task, idle tasks that never block, and nothing in
    MYCFS. *)
Record live (r : rq Y) : Prop := {
  lv_ok : rq_ok r;
  lv_mycfs : ∀ q t, tasks r !! q = Some t → class t ≠ mycfs_sched_class;
  lv_idle : ∀ q t, tasks r !! q = Some t → class t = idle_sched_class → state t = TASK_RUNNING;
  lv_curr : ∀ t, tasks r !! curr r = Some t → class t = idle_sched_class ∨ on_rq t = 1
}.

Lemma erase_state t t' : erase t = erase t' → state t = state t'.
Proof. by destruct t, t'; intros [=]. Qed.

(** An update of one task keeps the run queue live. *)
Lemma live_upd r r' p t t' :
  live r → rq_ok r' → tasks r !! p = Some t → upd p t' r r' →
  class t' ≠ mycfs_sched_class → (class t' = idle_sched_class → state t' = TASK_RUNNING) →
  (curr r = p → class t' = idle_sched_class ∨ on_rq t' = 1) → live r'.
Proof.
  intros Hr Hok Ht Hu Hm Hi Hc. destruct (upd_lookup _ _ _ _ Hu) as (t'' & Ht'' & He).
  assert (∀ q tq, tasks r' !! q = Some tq →
    (q = p ∧ erase tq = erase t') ∨ (q ≠ p ∧ ∃ t0, tasks r !! q = Some t0 ∧ erase tq = erase t0)) as Hcase.
  { intros q tq Htq. destruct (decide (q = p)) as [->|Hne].
    - left. rewrite Ht'' in Htq. by injection Htq as <-.
    - right. split; [done|]. pose proof (up_others _ _ _ _ Hu q Hne) as Ho. rewrite Htq in Ho.
      symmetry in Ho. apply fmap_Some in Ho as (t0 & ? & ?). eauto. }
  split; [done|..].
  - intros q tq Htq. destruct (Hcase q tq Htq) as [[-> He']|[_ (t0 & Ht0 & He')]];
      rewrite (erase_class _ _ He'); [done|]. by apply (lv_mycfs r Hr q).
  - intros q tq Htq. destruct (Hcase q tq Htq) as [[-> He']|[_ (t0 & Ht0 & He')]];
      rewrite (erase_class _ _ He'), (erase_state _ _ He'); [done|]. by apply (lv_idle r Hr q).
  - rewrite (up_curr _ _ _ _ Hu). intros tq Htq.
    destruct (Hcase _ tq Htq) as [[Hp He']|[_ (t0 & Ht0 & He')]];
      rewrite (erase_class _ _ He'), (erase_on_rq _ _ He'); [by apply Hc|]. by apply (lv_curr r Hr).
Qed.

Lemma live_same r r' :
  live r → class_ok true r' → same_sched r r' → same_queue r r' → live r'.
Proof.
  intros Hr Hcl Hs Hq. destruct (rq_curr r (lv_ok r Hr)) as [t Ht].
  apply (live_upd r r' (curr r) t t); try done.
  - by apply (rq_ok_same r); [apply Hr|..].
  - by apply same_upd.
  - by apply (lv_mycfs r Hr (curr r)).
  - by apply (lv_idle r Hr (curr r)).
  - intros _. by apply (lv_curr r Hr).
Qed.

(** ** The tick *)

(** The timer tick accounts the running task to its class and returns with the
    run queue live; no attribute of any task changes but reschedule flags and the
    time accounting of entities. *)
Lemma scheduler_tick_live r :
  live r → returns scheduler_tick r (λ _ r', live r' ∧ same_sched r r' ∧ same_queue r r').
Proof.
  intros Hr. destruct (rq_curr r (lv_ok r Hr)) as [t Ht].
  destruct (clock_first true r (curr r) t (rq_class r (lv_ok r Hr)) Ht)
    as (r1 & Hcl & Hr1 & Hs1 & Hq1 & Ht1).
  unfold scheduler_tick. apply returns_bind. eapply returns_eq; [exact Hcl|].
  apply returns_bind. eexists _, _. split; [reflexivity|]. rewrite (ss_curr _ _ Hs1).
  apply returns_bind. eapply returns_eq; [by apply load_task_eq|]. apply returns_bind.
  rewrite <- (ss_curr _ _ Hs1) in Ht1 |- *.
  destruct (tick_law r1 t Hr1 Ht1) as (m & -> & Hrun); [by apply (lv_mycfs r Hr (curr r))|].
  apply returns_ret. eapply returns_mono; [exact Hrun|]. intros [] r' (Hr' & Hs' & Hq').
  assert (same_sched r r') by (by etrans). assert (same_queue r r') by (by etrans).
  split_and!; [|done|done]. by apply (live_same r).
Qed.

(** ** Waking up *)

Lemma activate_task_ok b r p flags t :
  class_ok b r → tasks r !! p = Some t → queueing (class t) → ¬ queued r p →
  returns (activate_task p flags) r (λ _ r', class_ok b r' ∧ same_sched r r' ∧
    ∀ q, queued r' q ↔ q = p ∨ queued r q).
Proof.
  intros Hr Ht Hc Hq. unfold activate_task. apply returns_bind.
  eapply returns_eq; [by apply load_task_eq|]. apply returns_bind.
  apply (returns_mono _ _ (λ _ r', counters r r')).
  { destruct (task_contributes_to_load t); [|apply returns_ret; by destruct r].
    eexists _, _. split; [reflexivity|]. by destruct r. }
  intros [] r1 Hc1. destruct (counters_law b r r1 Hr Hc1) as [Hr1 Hq1].
  pose proof (counters_same r r1 Hc1) as Hs1.
  assert (tasks r1 !! p = Some t) as Ht1 by (rewrite Hc1; by destruct r).
  destruct (enqueue_task_other b r1 p flags t Hr1 Ht1 Hc) as (r' & Hrun & Hr' & Hs' & Hq');
    [by rewrite Hq1|].
  eapply returns_eq; [exact Hrun|]. split_and!; [done|by etrans|]. intros q. by rewrite Hq', Hq1.
Qed.

Lemma check_preempt_curr_ok r p wake_flags t ct :
  class_ok true r → tasks r !! p = Some t → class t ≠ mycfs_sched_class → queued r p →
  tasks r !! curr r = Some ct → load_valid (load (se ct)) →
  returns (check_preempt_curr p wake_flags) r (λ _ r',
    class_ok true r' ∧ same_sched r r' ∧ same_queue r r').
Proof.
  intros Hr Ht Hc Hq Hct Hl.
  apply (check_preempt_curr_keeps (λ r', class_ok true r' ∧ same_sched r r' ∧ same_queue r r')
    r p wake_flags t ct); try done.
  - intros Hcc. rewrite Hcc in Hc. apply preempt_law; [done|done|done|by rewrite Ht, <- Hcc|done].
  - intros r' (_ & Hs & _). destruct (erase_lookup r r' _ ct Hs Hct) as (t' & -> & _). by eexists.
  - destruct (resched_task_same true r (curr r) ct Hr Hct Hl) as (r' & Hrun & ? & ? & ? & _).
    by eapply returns_eq.
  - intros r' (Hr' & Hs & Hq').
    destruct (counters_law true r' (r' <| skip_clock_update := 1 |>) Hr') as [Hr2 Hq2]; [by destruct r'|].
    split_and!; [done| |by etrans]. etrans; [exact Hs|]. apply counters_same. by destruct r'.
Qed.

(** Storing an attribute of [p] that its class does not look at, after [p] has
    become [t1] up to time accounting. *)
Lemma store_attr b r p t (f : task → task) :
  class_ok b r → tasks r !! p = Some t → load_valid (load (se t)) →
  (∀ x, se (f x) = se x ∧ prio (f x) = prio x ∧ class (f x) = class x) →
  returns (store_task p f) r (λ _ r', class_ok b r' ∧ upd p (f t) r r' ∧ same_queue r r').
Proof.
  intros Hr Ht Hl Hf. destruct (Hf t) as (Hse & Hp & Hc).
  destruct (store_quiet b r p t (f t)) as [Hr' Hq]; try done.
  eapply returns_eq; [by apply store_task_eq|]. split_and!; [done|apply upd_store|done].
Qed.

Lemma erase_on (o : Z) t t' : erase t = erase t' → erase (t <| on_rq := o |>) = erase (t' <| on_rq := o |>).
Proof. intros He. apply (f_equal (λ x, x <| on_rq := o |>)) in He. exact He. Qed.

Lemma erase_running (s : Z) t t' : erase t = erase t' → erase (t <| state := s |>) = erase (t' <| state := s |>).
Proof. intros He. apply (f_equal (λ x, x <| state := s |>)) in He. exact He. Qed.

Lemma ttwu_activate_ok r p flags t :
  workers_quiet → class_ok true r → tasks r !! p = Some t → load_valid (load (se t)) →
  queueing (class t) → ¬ queued r p →
  returns (ttwu_activate p flags) r (λ _ r', class_ok true r' ∧ upd p (t <| on_rq := 1 |>) r r' ∧
    ∀ q, queued r' q ↔ q = p ∨ queued r q).
Proof.
  intros Hw Hr Ht Hl Hc Hq. unfold ttwu_activate. apply returns_bind.
  eapply returns_mono; [by apply (activate_task_ok true r p flags t)|].
  intros [] r1 (Hr1 & Hs1 & Hq1). destruct (erase_lookup r r1 p t Hs1 Ht) as (t1 & Ht1 & He1).
  apply returns_bind.
  eapply returns_mono; [apply (store_attr true r1 p t1); [done|done|by rewrite (erase_load _ _ He1)|done]|].
  intros [] r2 (Hr2 & Hu2 & Hq2). destruct (upd_lookup _ _ _ _ Hu2) as (t2 & Ht2 & He2).
  assert (upd p (t <| on_rq := 1 |>) r r2) as Hu.
  { apply (upd_trans _ t _ _ r1); [by apply same_upd|].
    apply (upd_erase _ (t1 <| on_rq := 1 |>)); [by apply erase_on|done]. }
  apply returns_bind. eapply returns_eq; [by apply load_task_eq|].
  destruct (has_flag (SchedData.flags t2) PF_WQ_WORKER).
  - eapply returns_mono; [by apply Hw|]. intros [] r3 (Hr3 & Hs3 & Hq3).
    split_and!; [done|by eapply upd_same|]. intros q. by rewrite (Hq3 q), (Hq2 q), Hq1.
  - apply returns_ret. split_and!; [done|done|]. intros q. by rewrite (Hq2 q), Hq1.
Qed.

Lemma ttwu_do_wakeup_ok r p flags t :
  class_ok true r → tasks r !! p = Some t → load_valid (load (se t)) →
  class t ≠ mycfs_sched_class → queued r p →
  (∃ ct, tasks r !! curr r = Some ct ∧ load_valid (load (se ct))) →
  returns (ttwu_do_wakeup p flags) r (λ _ r', class_ok true r' ∧
    upd p (t <| state := TASK_RUNNING |>) r r' ∧ same_queue r r').
Proof.
  intros Hr Ht Hl Hc Hq (ct & Hct & Hlc). unfold ttwu_do_wakeup. apply returns_bind.
  eapply returns_mono; [by eapply check_preempt_curr_ok|]. intros [] r1 (Hr1 & Hs1 & Hq1).
  destruct (erase_lookup r r1 p t Hs1 Ht) as (t1 & Ht1 & He1).
  eapply returns_mono; [apply (store_attr true r1 p t1); [done|done|by rewrite (erase_load _ _ He1)|done]|].
  intros [] r2 (Hr2 & Hu2 & Hq2). split_and!; [done| |by etrans].
  apply (upd_trans _ t _ _ r1); [by apply same_upd|].
  apply (upd_erase _ (t1 <| state := TASK_RUNNING |>)); [by apply erase_running|done].
Qed.

(** The second half of a wake-up: [p] is on its queue. *)
Lemma wakeup_tail r r1 p f t :
  live r → tasks r !! p = Some t → queueing (class t) → class_ok true r1 →
  upd p (t <| on_rq := 1 |>) r r1 → queued r1 p → (∀ q, q ≠ p → (queued r1 q ↔ queued r q)) →
  returns (ttwu_do_wakeup p f) r1 (λ _ r', live r' ∧
    upd p (t <| on_rq := 1 |> <| state := TASK_RUNNING |>) r r' ∧ queued r' p).
Proof.
  intros Hr Ht Hc Hr1 Hu Hp Hq. pose proof (lv_ok r Hr) as Hok.
  assert (task_ok (t <| on_rq := 1 |>)) as Htok
    by (destruct (rq_tasks r Hok p t Ht); split; try done; by right).
  destruct (upd_lookup _ _ _ _ Hu) as (t1 & Ht1 & He1).
  eapply returns_mono; [apply (ttwu_do_wakeup_ok r1 p f t1); try done|].
  - rewrite (erase_load _ _ He1). apply Htok.
  - rewrite (erase_class _ _ He1). exact (lv_mycfs r Hr p t Ht).
  - by apply (upd_running r r1 p (t <| on_rq := 1 |>)).
  - intros [] r' (Hr' & Hu' & Hq').
    assert (upd p (t <| on_rq := 1 |> <| state := TASK_RUNNING |>) r r') as Hu2.
    { apply (upd_trans _ (t <| on_rq := 1 |>) _ _ r1); [done|].
      apply (upd_erase _ (t1 <| state := TASK_RUNNING |>)); [exact (erase_running _ _ _ He1)|done]. }
    split_and!; [|done|by apply Hq'].
    apply (live_upd r r' p t (t <| on_rq := 1 |> <| state := TASK_RUNNING |>)); try done.
    + apply (rq_ok_upd r r' p t (t <| on_rq := 1 |> <| state := TASK_RUNNING |>)); try done.
      * destruct Htok. by split.
      * intros _. rewrite (Hq' p). done.
      * intros q Hqp. rewrite (Hq' q). by apply Hq.
    + exact (lv_mycfs r Hr p t Ht).
    + intros _. by right.
Qed.

Lemma try_to_wake_up_ok r p st wake_flags t :
  workers_quiet → live r → tasks r !! p = Some t →
  returns (try_to_wake_up p st wake_flags) r (λ b r', live r' ∧
    if has_flag (state t) st
    then b = true ∧ upd p (t <| on_rq := 1 |> <| state := TASK_RUNNING |>) r r' ∧ queued r' p
    else b = false ∧ r' = r).
Proof.
  intros Hw Hr Ht. pose proof (lv_ok r Hr) as Hok. pose proof (rq_tasks r Hok p t Ht) as Htok.
  pose proof (rq_queued r Hok p t Ht (lv_mycfs r Hr p t Ht)) as Hsy.
  unfold try_to_wake_up. apply returns_bind. eapply returns_eq; [by apply load_task_eq|].
  destruct (has_flag (state t) st) eqn:Hst; simpl; [|by apply returns_ret].
  assert (queueing (class t)) as Hc.
  { pose proof (lv_mycfs r Hr p t Ht). pose proof (lv_idle r Hr p t Ht) as Hi.
    unfold queueing. destruct (class t); auto; [done|]. rewrite (Hi eq_refl) in Hst.
    unfold has_flag in Hst. by rewrite Z.land_0_l in Hst. }
  apply returns_bind. destruct (ok_on_rq t Htok) as [Ho|Ho]; rewrite Ho in *; simpl.
  - apply returns_ret, returns_bind. unfold ttwu_queue, ttwu_do_activate. apply returns_bind.
    eapply returns_mono; [apply (ttwu_activate_ok r p _ t); try done; [apply Hok|apply Htok|]|].
    { rewrite Hsy. lia. }
    intros [] r1 (Hr1 & Hu1 & Hq1).
    eapply returns_mono; [apply (wakeup_tail r r1 p 0 t); try done; naive_solver|].
    intros [] r' (? & ? & ?). by apply returns_ret.
  - unfold ttwu_remote. apply returns_bind. eapply returns_eq; [by apply load_task_eq|].
    rewrite Ho. simpl. apply returns_bind.
    eapply returns_mono; [apply (wakeup_tail r r p wake_flags t); try done|].
    + apply Hok.
    + apply (same_upd p (t <| on_rq := 1 |>)); [|done]. rewrite Ht. f_equal. destruct t. simpl in *. by subst.
    + by apply Hsy.
    + intros [] r' (? & ? & ?). apply returns_ret, returns_bind. by do 2 apply returns_ret.
Qed.

(** ** The context switch *)

(** What holds throughout [__schedule]: a live run queue whose running task may be
    leaving, held by its class ([b] true) or put aside. *)
Record settled (b : bool) (r : rq Y) : Prop := {
  st_class : class_ok b r;
  st_synced : synced r;
  st_tasks : ∀ q t, tasks r !! q = Some t → task_ok t ∧ class t ≠ mycfs_sched_class ∧
    (class t = idle_sched_class → state t = TASK_RUNNING);
  st_curr : is_Some (tasks r !! curr r)
}.

Lemma live_settled r : live r ↔
  settled true r ∧ ∀ t, tasks r !! curr r = Some t → class t = idle_sched_class ∨ on_rq t = 1.
Proof.
  split.
  - intros [[] ? ? ?]. split; [|done]. split; try done. intros q t Ht. split_and!; eauto.
  - intros [[? ? Hq ?] ?]. split; [split; try done| | |done].
    + intros q t Ht. by apply (Hq q t Ht).
    + intros q t Ht. by apply (Hq q t Ht).
    + intros q t Ht. by apply (Hq q t Ht).
Qed.

(** The attributes of a task the invariant speaks of. *)
Definition attrs (t : task) :=
  (static_prio t, t_normal_prio t, policy t, rt_priority t, load (se t), on_rq t, class t, state t).

Lemma attrs_erase t t' : erase t = erase t' → attrs t = attrs t'.
Proof.
  intros He. pose proof (erase_load _ _ He) as Hl. destruct t, t'. injection He. intros. subst.
  unfold attrs. simpl in *. by rewrite Hl.
Qed.

Lemma attrs_ok t t' : attrs t = attrs t' → task_ok t → task_ok t'.
Proof.
  intros [= Hs Hn Hp Hr Hl Ho Hc Hst] [].
  split; unfold normal_prio, task_has_rt_policy, __normal_prio in *;
    rewrite <- ?Hs, <- ?Hn, <- ?Hp, <- ?Hr, <- ?Hl, <- ?Ho; done.
Qed.

Lemma settled_attrs b b' r r' :
  settled b r → class_ok b' r' → same_queue r r' →
  (∀ q, attrs <$> tasks r' !! q = attrs <$> tasks r !! q) → is_Some (tasks r' !! curr r') →
  settled b' r'.
Proof.
  intros [Hc Hsy Hts Hcu] Hc' Hq Ha Hcu'.
  assert (∀ q t', tasks r' !! q = Some t' → ∃ t, tasks r !! q = Some t ∧ attrs t = attrs t') as Hback.
  { intros q t' Ht'. specialize (Ha q). rewrite Ht' in Ha. symmetry in Ha.
    apply fmap_Some in Ha as (t & ? & ?). eauto. }
  split; [done| | |done].
  - intros q t' Ht' Hm. destruct (Hback q t' Ht') as (t & Ht & Hat). injection Hat as ????? Hon Hcl _.
    rewrite (Hq q), <- Hon. apply (Hsy q t Ht). congruence.
  - intros q t' Ht'. destruct (Hback q t' Ht') as (t & Ht & Hat). destruct (Hts q t Ht) as (? & ? & ?).
    split_and!; [by apply (attrs_ok t)| |]; injection Hat as ?????? Hcl Hst; rewrite <- Hcl, <- ?Hst; done.
Qed.

Lemma settled_same b b' r r' :
  settled b r → class_ok b' r' → same_sched r r' → same_queue r r' → settled b' r'.
Proof.
  intros Hr Hc Hs Hq. eapply settled_attrs; [exact Hr|done|done| |].
  - intros q. pose proof (ss_tasks _ _ Hs q) as Ht.
    destruct (tasks r' !! q), (tasks r !! q); simpl in *; try done.
    apply (inj Some) in Ht. by rewrite (attrs_erase _ _ Ht).
  - apply (running_same r); [done|apply Hr].
Qed.

Lemma settled_upd b r r' p t t' :
  settled b r → class_ok b r' → tasks r !! p = Some t → upd p t' r r' →
  task_ok t' → class t' ≠ mycfs_sched_class → (class t' = idle_sched_class → state t' = TASK_RUNNING) →
  (queued r' p ↔ on_rq t' = 1) → (∀ q, q ≠ p → (queued r' q ↔ queued r q)) → settled b r'.
Proof.
  intros [Hc Hsy Hts Hcu] Hc' Ht Hu Hok Hm Hi Hp Hq.
  destruct (upd_lookup _ _ _ _ Hu) as (t'' & Ht'' & He).
  assert (∀ q tq, tasks r' !! q = Some tq → (q = p ∧ attrs tq = attrs t') ∨
    (q ≠ p ∧ ∃ t0, tasks r !! q = Some t0 ∧ attrs tq = attrs t0)) as Hcase.
  { intros q tq Htq. destruct (decide (q = p)) as [->|Hne].
    - left. rewrite Ht'' in Htq. injection Htq as <-. split; [done|]. by apply attrs_erase.
    - right. split; [done|]. pose proof (up_others _ _ _ _ Hu q Hne) as Ho. rewrite Htq in Ho.
      symmetry in Ho. apply fmap_Some in Ho as (t0 & ? & Het). exists t0. split; [done|].
      by apply attrs_erase. }
  split; [done| | |].
  - intros q tq Htq Hmq. destruct (Hcase q tq Htq) as [[-> Hat]|[Hne (t0 & Ht0 & Hat)]];
      injection Hat as ????? Hon Hcl _; rewrite Hon; [done|]. rewrite Hq by done.
    apply (Hsy q t0 Ht0). congruence.
  - intros q tq Htq. destruct (Hcase q tq Htq) as [[-> Hat]|[Hne (t0 & Ht0 & Hat)]];
      [|destruct (Hts q t0 Ht0) as (? & ? & ?)];
      (split_and!; [by eapply attrs_ok|injection Hat as ?????? Hcl Hst; rewrite Hcl, ?Hst; done..]).
  - rewrite (up_curr _ _ _ _ Hu). destruct (decide (curr r = p)) as [->|Hne]; [by eexists|].
    destruct Hcu as [tc Htc]. pose proof (up_others _ _ _ _ Hu _ Hne) as Ho.
    rewrite Htc in Ho. apply fmap_Some in Ho as (t0 & ? & ?). eauto.
Qed.

Lemma deactivate_task_ok b r p flags t :
  class_ok b r → tasks r !! p = Some t → queued r p →
  returns (deactivate_task p flags) r (λ _ r', class_ok b r' ∧ same_sched r r' ∧
    ∀ q, queued r' q ↔ q ≠ p ∧ queued r q).
Proof.
  intros Hr Ht Hq. unfold deactivate_task. apply returns_bind.
  eapply returns_eq; [by apply load_task_eq|]. apply returns_bind.
  apply (returns_mono _ _ (λ _ r', counters r r')).
  { destruct (task_contributes_to_load t); [|apply returns_ret; by destruct r].
    eexists _, _. split; [reflexivity|]. by destruct r. }
  intros [] r1 Hc1. destruct (counters_law b r r1 Hr Hc1) as [Hr1 Hq1].
  pose proof (counters_same r r1 Hc1) as Hs1.
  assert (tasks r1 !! p = Some t) as Ht1 by (rewrite Hc1; by destruct r).
  destruct (dequeue_task_other b r1 p flags t Hr1 Ht1) as (r' & Hrun & Hr' & Hs' & Hq');
    [by apply Hq1|].
  eapply returns_eq; [exact Hrun|]. split_and!; [done|by etrans|]. intros q. by rewrite Hq', Hq1.
Qed.

(** The running task gives up the processor for good: it is not runnable, not
    preempted, and no signal is pending. *)
Definition blocks (t : task) : bool :=
  negb (state t =? 0) && negb preempt_active && negb (signal_pending_state (state t) t).

(** The first part of [__schedule]: the running task leaves its queue if it blocks. *)
Definition leave_cpu (prev : Z) (t : task) : M (rq Y) bool :=
  if negb (state t =? 0) && negb preempt_active then
    _ ← (if signal_pending_state (state t) t
         then store_task prev (λ t, t <| state := TASK_RUNNING |>)
         else
           _ ← deactivate_task prev DEQUEUE_SLEEP;
           _ ← store_task prev (λ t, t <| on_rq := 0 |>);
           t ← load_task prev;
           match has_flag (flags t) PF_WQ_WORKER, wq_worker_sleeping prev with
           | true, Some w => try_to_wake_up_local w
           | _, _ => mret tt
           end);
    mret true
  else mret false.

(** It is not a worker whose sleep wakes up another worker. *)
Definition wakes_no_worker (r : rq Y) (t : task) : Prop :=
  has_flag (flags t) PF_WQ_WORKER = true → wq_worker_sleeping (curr r) = None.

Lemma schedule_leave r t :
  live r → tasks r !! curr r = Some t → wakes_no_worker r t →
  returns (leave_cpu (curr r) t) r (λ _ r1, settled true r1 ∧
    (∃ t1, upd (curr r) t1 r r1 ∧ (state t1 = state t ∨ state t1 = TASK_RUNNING)) ∧
    ∀ q, queued r1 q ↔ queued r q ∧ (q = curr r → blocks t = false)).
Proof.
  intros Hr Ht Hfl. pose proof (proj1 (proj1 (live_settled r) Hr)) as Hse.
  pose proof (st_class _ _ Hse) as Hcl. destruct (st_tasks _ _ Hse _ t Ht) as (Hok & Hm & Hi).
  unfold blocks, leave_cpu. destruct (negb (state t =? 0) && negb preempt_active) eqn:Hv; simpl.
  2: { apply returns_ret. split_and!; [done|exists t; split; [by apply same_upd|by left]|tauto]. }
  bsimp. apply returns_bind. destruct (signal_pending_state (state t) t); simpl.
  - eapply returns_mono; [apply (store_attr true r (curr r) t); [done|done|apply Hok|done]|].
    intros [] r1 (Hr1 & Hu1 & Hq1). apply returns_ret. split_and!; [|eexists; split; [done|by right]|].
    + eapply settled_upd; [exact Hse|done|exact Ht|exact Hu1|destruct Hok; by split|done|done| |].
      * rewrite (Hq1 _). apply (st_synced _ _ Hse _ t Ht Hm).
      * intros q _. apply (Hq1 q).
    + intros q. rewrite (Hq1 q). tauto.
  - assert (on_rq t = 1) as Ho by (destruct (lv_curr r Hr t Ht) as [Hid|]; [specialize (Hi Hid)|]; done).
    apply returns_bind.
    eapply returns_mono; [apply (deactivate_task_ok true r (curr r) _ t); try done;
      by apply (st_synced _ _ Hse _ t Ht Hm)|].
    intros [] r1 (Hr1 & Hs1 & Hq1). destruct (erase_lookup r r1 _ t Hs1 Ht) as (t1 & Ht1 & He1).
    apply returns_bind.
    eapply returns_mono; [apply (store_attr true r1 (curr r) t1); [done|done|rewrite (erase_load _ _ He1); apply Hok|done]|].
    intros [] r2 (Hr2 & Hu2 & Hq2). destruct (upd_lookup _ _ _ _ Hu2) as (t2 & Ht2 & He2).
    assert (upd (curr r) (t <| on_rq := 0 |>) r r2) as Hu.
    { apply (upd_trans _ t _ _ r1); [by apply same_upd|].
      apply (upd_erase _ (t1 <| on_rq := 0 |>)); [exact (erase_on _ _ _ He1)|done]. }
    apply returns_bind. eapply returns_eq; [by apply load_task_eq|].
    assert (flags t2 = flags t) as ->.
    { clear -He1 He2. apply (f_equal flags) in He1, He2. etrans; [exact He2|exact He1]. }
    apply (returns_mono _ _ (λ _ r3, r3 = r2)).
    { destruct (has_flag (flags t) PF_WQ_WORKER) eqn:Hf; [rewrite (Hfl Hf)|]; by apply returns_ret. }
    intros [] ? ->. apply returns_ret.
    assert (∀ q, queued r2 q ↔ q ≠ curr r ∧ queued r q) as Hqq by (intros q; by rewrite (Hq2 q), Hq1).
    split_and!; [|eexists; split; [done|by left]|intros q; rewrite Hqq; naive_solver].
    eapply settled_upd; [exact Hse|done|exact Ht|exact Hu|destruct Hok; split; try done; by left|done|done| |].
    + rewrite Hqq. simpl. split; [naive_solver|lia].
    + intros q Hne. rewrite Hqq. naive_solver.
Qed.

Lemma put_prev_task_ok r :
  settled true r → returns (put_prev_task (curr r)) r (λ _ r',
    settled false r' ∧ same_sched r r' ∧ same_queue r r').
Proof.
  intros Hse. destruct (st_curr _ _ Hse) as [t Ht]. destruct (st_tasks _ _ Hse _ t Ht) as (_ & Hm & _).
  unfold put_prev_task. apply returns_bind. eapply returns_eq; [by apply load_task_eq|].
  apply returns_bind. eexists _, _. split; [reflexivity|]. apply returns_bind.
  apply (returns_mono _ _ (λ _ r1, counters r r1)).
  { destruct (_ || _); [apply update_rq_clock_eq|]. apply returns_ret. by destruct r. }
  intros [] r1 Hc1. destruct (counters_law true r r1 (st_class _ _ Hse) Hc1) as [Hr1 Hq1].
  pose proof (counters_same r r1 Hc1) as Hs1.
  assert (tasks r1 !! curr r1 = Some t) as Ht1 by (rewrite Hc1; by destruct r).
  rewrite <- (ss_curr _ _ Hs1). unfold put_prev_method_of. apply returns_bind.
  eapply returns_eq; [by apply load_task_eq|]. apply returns_bind.
  destruct (put_prev_law r1 t Hr1 Ht1 Hm) as (m & -> & Hrun). apply returns_ret.
  eapply returns_mono; [exact Hrun|]. intros [] r2 (Hr2 & Hs2 & Hq2).
  assert (same_sched r r2) by (by etrans). assert (same_queue r r2) by (intros q; by rewrite Hq2, Hq1).
  split_and!; [|done|done]. by apply (settled_same true false r).
Qed.

(** The turn of the MYCFS class comes with an offer only if the running task is still
    queued and its class, like the others, offers nothing; its offer is that task. *)
Lemma pick_mycfs r p c :
  settled false r → first_offer class_chain r c p → if decide (c = mycfs_sched_class) then withheld r ∧ p = curr r else ¬ withheld r.
Proof.
  intros Hse (pre & post & Hch & Hpre & Hoff). pose proof (st_synced _ _ Hse) as Hsy.
  destruct (st_curr _ _ Hse) as [t Ht]. destruct (st_tasks _ _ Hse _ t Ht) as (Hok & Hm & _).
  assert (∀ o, offer mycfs_sched_class r = o → o = if on_rq t =? 0 then None else Some (curr r)) as Hmy.
  { unfold offer. cbn [pick_next_method methods_of mycfs_methods].
    unfold pick_next_task_mycfs, mbind, M_bind, gets. rewrite (load_task_eq r _ t Ht). by destruct (on_rq t =? 0); intros o <-. }
  unfold class_chain in Hch. case_decide as Hc.
  - subst c. assert (pre = [stop_sched_class; rt_sched_class; fair_sched_class]) as ->.
    { by destruct pre as [|? [|? [|? [|? [|? [|]]]]]]; simplify_eq/=. }
    apply Hmy in Hoff. destruct (ok_on_rq t Hok) as [Ho|Ho]; rewrite Ho in Hoff; [done|]. simpl in Hoff. injection Hoff as ->.
    split; [|done]. split; [by apply (Hsy _ t Ht Hm)|]. intros c Hq. rewrite Forall_forall in Hpre. apply Hpre.
    unfold queueing in Hq. set_solver.
  - intros [Hq Hno]. assert (queueing c ∨ c = idle_sched_class) as [Hqc| ->].
    { unfold queueing. destruct c; auto. done. }
    + by rewrite (Hno c Hqc) in Hoff.
    + assert (mycfs_sched_class ∈ pre) as Hin.
      { destruct pre as [|? [|? [|? [|? [|? [|]]]]]]; simplify_eq/=. set_solver. }
      rewrite Forall_forall in Hpre. apply Hpre, Hmy in Hin. apply (Hsy _ t Ht Hm) in Hq. by rewrite Hq in Hin.
Qed.

(** The bookkeeping after the choice of [next] in the state [r]. *)
Definition switch_to (prev next : Z) (voluntary : bool) : M (rq Y) Z :=
  _ ← store_task prev (λ t, t <| need_resched := false |>);
  _ ← modify (λ r, r <| skip_clock_update := 0 |>);
  _ ← (if negb (prev =? next) then
         _ ← modify (λ r, r <| nr_switches := u64 (nr_switches r + 1) |>);
         _ ← modify (λ r, r <| curr := next |>);
         store_task prev (λ t, if voluntary : bool then t <| nvcsw := u32 (nvcsw t + 1) |>
                               else t <| nivcsw := u32 (nivcsw t + 1) |>)
       else mret tt);
  mret next.

(** It is a change of counters and of [prev]'s statistics in the state in which
    [next] runs. *)
Lemma switch_to_eq r next voluntary t :
  tasks r !! curr r = Some t →
  ∃ t' r1, attrs t' = attrs t ∧ se t' = se t ∧ prio t' = prio t ∧
    counters (r <| curr := next |>) r1 ∧
    switch_to (curr r) next voluntary r = Ok next (r1 <| tasks ::= <[curr r := t']> |>).
Proof.
  intros Ht. unfold switch_to, mbind, M_bind. rewrite (store_task_eq r _ t) by done.
  destruct (Z.eqb_spec (curr r) next) as [Heq|Hne]; cbn [negb].
  - exists (t <| need_resched := false |>), (r <| skip_clock_update := 0 |>).
    split_and!; try done. rewrite <- Heq. by destruct r.
  - unfold modify. set (t1 := t <| need_resched := false |>).
    erewrite (store_task_eq _ (curr r) t1) by (simpl; by rewrite lookup_insert_eq).
    set (t2 := if voluntary then t1 <| nvcsw := u32 (nvcsw t1 + 1) |>
               else t1 <| nivcsw := u32 (nivcsw t1 + 1) |>).
    exists t2, (r <| curr := next |> <| skip_clock_update := 0 |>
                  <| nr_switches := u64 (nr_switches r + 1) |>).
    split_and!; [by unfold t2; destruct voluntary..|by destruct r|].
    exact (f_equal (Ok next) (store_store (r <| curr := next |> <| skip_clock_update := 0 |>
      <| nr_switches := u64 (nr_switches r + 1) |>) (curr r) t1 t2)).
Qed.

Lemma attrs_same r r' q : same_sched r r' → attrs <$> tasks r' !! q = attrs <$> tasks r !! q.
Proof.
  intros Hs. pose proof (ss_tasks _ _ Hs q) as Ht.
  destruct (tasks r' !! q), (tasks r !! q); simpl in *; try done.
  apply (inj Some) in Ht. by rewrite (attrs_erase _ _ Ht).
Qed.

Lemma attrs_class r r' q t' :
  (∀ q, attrs <$> tasks r' !! q = attrs <$> tasks r !! q) → tasks r' !! q = Some t' →
  ∃ t, tasks r !! q = Some t ∧ class t = class t'.
Proof.
  intros Ha Ht'. specialize (Ha q). rewrite Ht' in Ha. symmetry in Ha.
  apply fmap_Some in Ha as (t & ? & Hat). exists t. split; [done|]. by injection Hat.
Qed.

(** The end of [__schedule]: [next] runs, held by its class. *)
Lemma switch_to_live r0 r next c voluntary :
  settled false r0 → c ≠ mycfs_sched_class → chosen c r0 next r →
  returns (switch_to (curr r) next voluntary) r (λ p r', p = next ∧ live r' ∧ curr r' = next ∧
    (∀ q, attrs <$> tasks r' !! q = attrs <$> tasks r0 !! q) ∧ same_queue r0 r').
Proof.
  intros Hse Hm (Hs & Hq & Hch). rewrite decide_False in Hch by done.
  destruct Hch as (Hcl & Hok & Hqn & Hqd).
  destruct (running_same r0 r Hs (st_curr _ _ Hse)) as [t Ht].
  destruct (switch_to_eq r next voluntary t Ht) as (t' & r1 & Hat & Htse & Hpr & Hc1 & Hrun).
  eapply returns_eq; [exact Hrun|]. split; [done|].
  destruct (counters_law true _ r1 Hok Hc1) as [Hok1 Hq1].
  assert (tasks r1 = tasks r ∧ curr r1 = next) as [Ht1 Hcu1] by (rewrite Hc1; by destruct r).
  assert (load_valid (load (se t))) as Hl.
  { pose proof (attrs_same r0 r (curr r) Hs) as Ha. rewrite Ht in Ha. symmetry in Ha.
    apply fmap_Some in Ha as (tx & Htx & Hax). injection Hax as _ _ _ _ -> _ _ _.
    apply (st_tasks _ _ Hse _ tx Htx). }
  assert (class t' = class t) as Hct by (by injection Hat).
  destruct (store_quiet true r1 (curr r) t t') as [Hok2 Hq2]; try done; [by rewrite Ht1|].
  set (r2 := r1 <| tasks ::= <[curr r := t']> |>) in *.
  assert (∀ q, attrs <$> tasks r2 !! q = attrs <$> tasks r0 !! q) as Hall.
  { intros q. rewrite <- (attrs_same r0 r q Hs). unfold r2. simpl. rewrite Ht1.
    destruct (decide (q = curr r)) as [->|Hne]; [by rewrite lookup_insert_eq, Ht; simpl; rewrite Hat|].
    by rewrite lookup_insert_ne. }
  assert (same_queue r0 r2) as Hqq.
  { intros q. by rewrite (Hq2 q), Hq1, (Hqn q). }
  apply fmap_Some in Hcl as (tn & Htn & Hcn). pose proof (Hall next) as Hn. rewrite Htn in Hn.
  apply fmap_Some in Hn as (tn' & Htn' & Han). injection Han as _ _ _ _ _ Hon Hcn' _.
  split_and!; [|done|done|done]. apply live_settled. split.
  - eapply settled_attrs; [exact Hse|done|done|done|]. unfold r2. simpl. rewrite Hcu1. by eexists.
  - change (curr r2) with (curr r1). rewrite Hcu1. intros tz Htz. rewrite Htn' in Htz.
    injection Htz as <-. rewrite <- Hcn', <- Hcn, <- Hon.
    destruct (decide (c = idle_sched_class)) as [|Hni]; [by left|right].
    apply (st_synced _ _ Hse next tn Htn); [congruence|]. by apply Hqd.
Qed.

(** When the MYCFS class returns the processor to the task that ran, the class of that
    task has put it aside and does not take it back. *)
Lemma switch_to_aside r voluntary :
  settled false r →
  returns (switch_to (curr r) (curr r) voluntary) r (λ p r', p = curr r ∧ class_ok false r' ∧ curr r' = curr r ∧
    (∀ q, attrs <$> tasks r' !! q = attrs <$> tasks r !! q) ∧ same_queue r r').
Proof.
  intros Hse. destruct (st_curr _ _ Hse) as [t Ht]. destruct (st_tasks _ _ Hse _ t Ht) as (Hok & _).
  destruct (switch_to_eq r (curr r) voluntary t Ht) as (t' & r1 & Hat & Htse & Hpr & Hc1 & Hrun).
  eapply returns_eq; [exact Hrun|]. split; [done|].
  replace (r <| curr := curr r |>) with r in Hc1 by (by destruct r).
  destruct (counters_law false r r1 (st_class _ _ Hse) Hc1) as [Hok1 Hq1].
  assert (tasks r1 = tasks r ∧ curr r1 = curr r) as [Ht1 Hcu1] by (rewrite Hc1; by destruct r).
  assert (class t' = class t) as Hct by (by injection Hat).
  destruct (store_quiet false r1 (curr r) t t') as [Hok2 Hq2]; try done; [by rewrite Ht1|apply Hok|].
  split_and!; [done|done| |].
  - intros q. simpl. rewrite Ht1. destruct (decide (q = curr r)) as [->|Hne]; [by rewrite lookup_insert_eq, Ht; simpl; rewrite Hat|].
    by rewrite lookup_insert_ne.
  - intros q. by rewrite (Hq2 q), Hq1.
Qed.

(** [__schedule] up to the choice of the next task. *)
Definition before_pick : M (rq Y) bool :=
  prev ← gets curr; t ← load_task prev; v ← leave_cpu prev t; _ ← put_prev_task prev; mret v.

Lemma before_pick_ok r t :
  live r → tasks r !! curr r = Some t → wakes_no_worker r t →
  returns before_pick r (λ _ r2, settled false r2 ∧ curr r2 = curr r ∧
    (∀ q, q ≠ curr r → attrs <$> tasks r2 !! q = attrs <$> tasks r !! q) ∧
    (∀ q, queued r2 q ↔ queued r q ∧ (q = curr r → blocks t = false)) ∧
    ∃ s, state <$> tasks r2 !! curr r = Some s ∧ (s = state t ∨ s = TASK_RUNNING)).
Proof.
  intros Hr Ht Hfl. unfold before_pick. apply returns_bind. eexists _, _. split; [reflexivity|].
  apply returns_bind. eapply returns_eq; [by apply load_task_eq|]. apply returns_bind.
  eapply returns_mono; [by apply schedule_leave|].
  intros v r1 (Hse1 & (t1 & Hu1 & Hst1) & Hq1). apply returns_bind. rewrite <- (up_curr _ _ _ _ Hu1).
  eapply returns_mono; [by apply put_prev_task_ok|]. intros [] r2 (Hse2 & Hs2 & Hq2). apply returns_ret.
  rewrite (up_curr _ _ _ _ Hu1). split_and!; [done|rewrite (ss_curr _ _ Hs2); apply (up_curr _ _ _ _ Hu1)| | |].
  - intros q Hne. rewrite (attrs_same r1 r2 q Hs2). pose proof (up_others _ _ _ _ Hu1 q Hne) as Ho.
    destruct (tasks r1 !! q), (tasks r !! q); simpl in *; try done.
    apply (inj Some) in Ho. by rewrite (attrs_erase _ _ Ho).
  - intros q. by rewrite (Hq2 q), Hq1.
  - destruct (upd_lookup _ _ _ _ Hu1) as (t1' & Ht1' & He1). pose proof (attrs_same r1 r2 (curr r) Hs2) as Hat.
    rewrite Ht1' in Hat. apply fmap_Some in Hat as (tz & Htz & Haz).
    exists (state t1). rewrite Htz. split; [|done]. injection Haz as _ _ _ _ _ _ _ Hz.
    simpl. by rewrite <- Hz, (erase_state _ _ He1).
Qed.

(** One pass of [__schedule], from the state [r2] in which the next task is chosen: either
    every class withholds and the task that ran goes on, put aside by its class, or the
    offer of the first class runs and the run queue is live. *)
Lemma schedule_run r t :
  live r → tasks r !! curr r = Some t → wakes_no_worker r t →
  ∃ v r2 next r' c, before_pick r = Ok v r2 ∧ __schedule r = Ok next r' ∧ settled false r2 ∧ first_offer class_chain r2 c next ∧
    curr r' = next ∧ same_queue r2 r' ∧ (∀ q, attrs <$> tasks r' !! q = attrs <$> tasks r2 !! q) ∧
    if decide (c = mycfs_sched_class) then withheld r2 ∧ next = curr r ∧ class_ok false r'
    else ¬ withheld r2 ∧ live r' ∧ class <$> tasks r2 !! next = Some c.
Proof.
  intros Hr Ht Hfl. destruct (before_pick_ok r t Hr Ht Hfl) as (v & r2 & Hpre & Hse & Hcu & _).
  destruct (pick_next_task_first r2) as (p & r3 & c & Hpick & Hfo & Hch); [apply Hse..|].
  pose proof (pick_mycfs r2 p c Hse Hfo) as Hm.
  assert (∀ k s, returns (switch_to (curr r) p v) r3 k → k = s → ∃ a r', __schedule r = Ok a r' ∧ s a r') as Hgo.
  { intros k s (a & r' & Hsw & Hk) <-. exists a, r'. split; [|done]. unfold before_pick in Hpre.
    change __schedule with (prev ← gets curr; t ← load_task prev; voluntary ← leave_cpu prev t; _ ← put_prev_task prev;
      next ← pick_next_task; switch_to prev next voluntary).
    unfold mbind, M_bind, gets in Hpre |- *. destruct (load_task (curr r) r) as [t' r0|]; [|done].
    destruct (leave_cpu (curr r) t' r0) as [v' r1|]; [|done].
    destruct (put_prev_task (curr r) r1) as [[] r2'|]; [|done]. unfold mret, M_ret in Hpre. injection Hpre as <- <-.
    rewrite Hpick. exact Hsw. }
  destruct (decide (c = mycfs_sched_class)) as [Hc|Hc].
  - destruct Hm as [Hw ->]. destruct Hch as (_ & _ & Hch). rewrite decide_True in Hch by done. destruct Hch as (_ & -> & _).
    rewrite <- Hcu in Hgo. destruct (Hgo _ _ (switch_to_aside r2 v Hse) eq_refl) as (a & r' & Hrun & -> & Hok & Hcr & Hat & Hq).
    exists v, r2, (curr r2), r', c. rewrite decide_True by done. split_and!; done.
  - assert (curr r3 = curr r) as Hcu3 by (rewrite (ss_curr _ _ (proj1 Hch)); done). rewrite <- Hcu3 in Hgo.
    destruct (Hgo _ _ (switch_to_live r2 r3 p c v Hse Hc Hch) eq_refl) as (a & r' & Hrun & -> & Hl & Hcr & Hat & Hq).
    exists v, r2, p, r', c. rewrite decide_False by done. split_and!; try done.
    destruct Hch as (_ & _ & Hch). rewrite decide_False in Hch by done. apply Hch.
Qed.

(** The classes as [next] links them: the stop class first, then real-time, fair, the class
    of the homework and idle. *)
Definition class_rank (c : sched_class) : Z :=
  match c with
  | stop_sched_class => 4
  | rt_sched_class => 3
  | fair_sched_class => 2
  | mycfs_sched_class => 1
  | idle_sched_class => 0
  end.

Lemma first_offer_highest r p c c' : first_offer class_chain r c p → class_rank c < class_rank c' → offer c' r = None.
Proof.
  intros (pre & post & Hch & Hpre & _) Hlt. rewrite Forall_forall in Hpre. apply Hpre. unfold class_chain in Hch.
  destruct pre as [|? [|? [|? [|? [|? [|]]]]]]; simplify_eq/=; destruct c'; simpl in Hlt; try lia; set_solver.
Qed.

(** ** Fork *)

(** The child as [dup_task_struct] copies it from its parent. *)
Definition dup_task (p : Z) (ct : task) : task := ct <| pid := p |> <| need_resched := false |>.

(** What [sched_fork] makes of it: off all queues, without the parent's boost,
    and back at the default policy if the parent asked for that. *)
Definition cleared (ct t : task) : task :=
  t <| on_rq := 0 |>
    <| se ::= λ e, e <| se_on_rq := 0 |> <| exec_start := 0 |> <| sum_exec_runtime := 0 |>
                     <| prev_sum_exec_runtime := 0 |> <| vruntime := 0 |> |>
    <| state := TASK_RUNNING |> <| prio := t_normal_prio ct |>.

Definition reset_child (t : task) : task :=
  if sched_reset_on_fork t
  then (set_weights (reset_on_fork t)) <| sched_reset_on_fork := false |> else t.

Definition child_of (ct t : task) : task :=
  let t := reset_child (cleared ct t) in
  if negb (rt_prio (prio t)) then t <| class := fair_sched_class |> else t.

Lemma reset_on_fork_fields t :
  MAX_RT_PRIO ≤ static_prio t < MAX_PRIO →
  MAX_RT_PRIO ≤ static_prio (reset_on_fork t) < MAX_PRIO ∧
  rt_policy (policy (reset_on_fork t)) = false ∧ se (reset_on_fork t) = se t ∧
  class (reset_on_fork t) = class t ∧ on_rq (reset_on_fork t) = on_rq t ∧
  prio (reset_on_fork t) = static_prio (reset_on_fork t) ∧
  t_normal_prio (reset_on_fork t) = static_prio (reset_on_fork t) ∧
  state (reset_on_fork t) = state t.
Proof.
  intros Hs. unfold reset_on_fork, task_has_rt_policy, __normal_prio.
  assert (MAX_RT_PRIO ≤ NICE_TO_PRIO 0 < MAX_PRIO) by done.
  destruct (rt_policy (policy t)) eqn:Hp; simpl; [done|].
  destruct (PRIO_TO_NICE (static_prio t) <? 0); simpl; rewrite ?Hp; done.
Qed.

(** Accesses to a task that was just stored. *)
Lemma store_at r p t f :
  store_task p f (r <| tasks ::= <[p := t]> |>) = Ok tt (r <| tasks ::= <[p := f t]> |>).
Proof.
  rewrite (store_task_eq _ p t) by (simpl; by rewrite lookup_insert_eq). by rewrite store_store.
Qed.

Lemma load_at r p t :
  load_task p (r <| tasks ::= <[p := t]> |>) = Ok t (r <| tasks ::= <[p := t]> |>).
Proof. apply load_task_eq. simpl. by rewrite lookup_insert_eq. Qed.

Lemma load_besides r p t q tq :
  q ≠ p → tasks r !! q = Some tq →
  load_task q (r <| tasks ::= <[p := t]> |>) = Ok tq (r <| tasks ::= <[p := t]> |>).
Proof. intros Hne Hq. apply load_task_eq. simpl. by rewrite lookup_insert_ne. Qed.

Lemma weigh_at r p t :
  MAX_RT_PRIO ≤ static_prio t < MAX_PRIO →
  set_load_weight p (r <| tasks ::= <[p := t]> |>) = Ok tt (r <| tasks ::= <[p := set_weights t]> |>).
Proof.
  intros Hs. rewrite (set_load_weight_eq _ p t) by (done || simpl; by rewrite lookup_insert_eq).
  by rewrite store_store.
Qed.

(** The first assignments of [sched_fork]. *)
Lemma cleared_eq {A} r p t ct (k : M (rq Y) A) :
  tasks r !! current = Some ct → p ≠ current →
  (_ ← __sched_fork p;
   _ ← store_task p (λ t, t <| state := TASK_RUNNING |>);
   ct ← load_task current;
   _ ← store_task p (λ t, t <| prio := t_normal_prio ct |>);
   k) (r <| tasks ::= <[p := t]> |>) = k (r <| tasks ::= <[p := cleared ct t]> |>).
Proof.
  intros Hct Hne. unfold __sched_fork, mbind, M_bind.
  rewrite !store_at, (load_besides r p _ current ct), store_at by done. reflexivity.
Qed.

(** The rest, before the method of the class. *)
Lemma sched_fork_eq r p t ct :
  tasks r !! current = Some ct → p ≠ current → MAX_RT_PRIO ≤ static_prio t < MAX_PRIO →
  sched_fork p (r <| tasks ::= <[p := t]> |>) =
    match task_fork_method (methods_of (class (child_of ct t))) with
    | Some m => m p | None => mret tt
    end (r <| tasks ::= <[p := child_of ct t]> |>).
Proof.
  intros Hct Hne Hst. unfold sched_fork. rewrite (cleared_eq r p t ct) by done.
  assert (MAX_RT_PRIO ≤ static_prio (cleared ct t) < MAX_PRIO) as Hs1 by done.
  unfold child_of. generalize dependent (cleared ct t). intros t1 Hs1.
  assert ((if sched_reset_on_fork t1 then
         _ ← store_task p reset_on_fork;
         _ ← set_load_weight p;
         store_task p (λ t, t <| sched_reset_on_fork := false |>)
       else mret tt) (r <| tasks ::= <[p := t1]> |>)
    = Ok tt (r <| tasks ::= <[p := reset_child t1]> |>)) as Hreset.
  { unfold reset_child, mbind, M_bind. destruct (sched_reset_on_fork t1); [|done].
    rewrite store_at, weigh_at by (by apply reset_on_fork_fields). by rewrite store_at. }
  unfold mbind, M_bind in *. rewrite load_at, Hreset, load_at.
  generalize (reset_child t1). intros t2. destruct (negb _).
  - by rewrite store_at, load_at.
  - unfold mret, M_ret. by rewrite load_at.
Qed.

(** The child is a well-formed task of the real-time or fair class that is on no
    queue, runs at its normal priority, and does not reset its own children. *)
Record newborn (ct t : task) : Prop := {
  nb_ok : task_ok t;
  nb_copied : copied ct t;
  nb_off : on_rq t = 0;
  nb_running : state t = TASK_RUNNING;
  nb_prio : prio t = t_normal_prio t;
  nb_reset : sched_reset_on_fork t = false;
  nb_policy : sched_reset_on_fork ct = true → rt_policy (policy t) = false ∧ 0 ≤ TASK_NICE t
}.

Lemma reset_static_nice t :
  MAX_RT_PRIO ≤ static_prio t < MAX_PRIO → 0 ≤ PRIO_TO_NICE (static_prio (reset_on_fork t)).
Proof.
  intros Hs. unfold reset_on_fork. destruct (task_has_rt_policy t); [done|].
  destruct (PRIO_TO_NICE (static_prio t) <? 0) eqn:Hn; [done|]. bsimp. done.
Qed.

Lemma reset_newborn ct t :
  task_ok ct → policy_class (class ct) → t = cleared ct (dup_task (pid t) ct) →
  newborn ct ((set_weights (reset_on_fork t)) <| sched_reset_on_fork := false |>).
Proof.
  intros Hok Hc Ht.
  assert (MAX_RT_PRIO ≤ static_prio t < MAX_PRIO) as Hs by (rewrite Ht; apply Hok).
  destruct (reset_on_fork_fields t Hs) as (Hst & Hpo & Hse & Hcl & Hon & Hpr & Hnp & Hsta).
  pose proof (reset_static_nice t Hs) as Hnice. set (t' := reset_on_fork t) in *.
  destruct (weights_defined (policy t') (static_prio t') Hst) as (lw & Hw & Hv).
  unfold set_weights. rewrite Hw. clearbody t'.
  split; simpl; try done.
  - split; simpl; try done.
    + unfold normal_prio, task_has_rt_policy. simpl. by rewrite Hpo.
    + left. by rewrite Hon, Ht.
  - split; simpl; [by rewrite Hcl, Ht|by rewrite Hse, Ht|done|by rewrite Hse, Ht].
  - by rewrite Hon, Ht.
  - by rewrite Hsta, Ht.
  - congruence.
Qed.

Lemma newborn_fair ct t : newborn ct t → newborn ct (t <| class := fair_sched_class |>).
Proof.
  intros [Hok Hcp ? ? ? ? ?]. split; [| |done..]; [by destruct Hok|].
  destruct Hcp. split; [by right|done..].
Qed.

Lemma cleared_newborn p ct :
  task_ok ct → policy_class (class ct) → sched_reset_on_fork ct = false →
  newborn ct (cleared ct (dup_task p ct)).
Proof.
  intros [] Hc Hr. split; [split; try done; by left|by split|done..|]. by rewrite Hr.
Qed.

Lemma child_newborn p ct :
  task_ok ct → policy_class (class ct) → newborn ct (child_of ct (dup_task p ct)).
Proof.
  intros Hok Hc. unfold child_of. cbv zeta.
  assert (newborn ct (reset_child (cleared ct (dup_task p ct)))) as Hn.
  { unfold reset_child. change (sched_reset_on_fork (cleared ct (dup_task p ct)))
      with (sched_reset_on_fork ct).
    destruct (sched_reset_on_fork ct) eqn:Hr; [by apply reset_newborn|by apply cleared_newborn]. }
  destruct (negb _); [by apply newborn_fair|done].
Qed.

Lemma live_newborn r p ct t :
  live r → tasks r !! p = None → tasks r !! curr r = Some ct → newborn ct t →
  Z.of_nat (size (tasks r)) + 1 < 2 ^ 32 →
  let r' := r <| tasks ::= <[p := t]> |> in live r' ∧ same_queue r r' ∧ ¬ queued r' p.
Proof.
  intros Hr Hp Hct Hn Hsz r'. pose proof (lv_ok r Hr) as Hok.
  assert (curr r ≠ p) as Hne by (intros <-; congruence).
  destruct (new_task_law true r p (curr r) t ct (rq_class r Hok) Hp Hne Hct (nb_copied _ _ Hn) Hsz)
    as [Hcl Hq]. fold r' in Hcl, Hq.
  assert (¬ queued r p) as Hnp.
  { intros Hqp. destruct (queued_law true r p (rq_class r Hok) Hqp) as (t' & Ht' & _). congruence. }
  assert (∀ x tx, tasks r' !! x = Some tx → x = p ∧ tx = t ∨ tasks r !! x = Some tx) as Hcase.
  { intros x tx Hx. unfold r' in Hx. simpl in Hx. apply lookup_insert_Some in Hx as [[<- <-]|[_ Hx]]; auto. }
  destruct (cp_class _ _ (nb_copied _ _ Hn)) as [Hc|Hc];
  (split_and!; [split; [split|..]|done|by rewrite Hq]; try done;
    [intros x tx [[-> ->]|Hx]%Hcase; [apply Hn|by apply (rq_tasks r Hok x)]
    |intros x tx [[-> ->]|Hx]%Hcase Hm; rewrite Hq; [rewrite (nb_off _ _ Hn); split; [done|lia]|by apply (rq_queued r Hok)]
    |exists ct; unfold r'; simpl; by rewrite lookup_insert_ne
    |intros x tx [[-> ->]|Hx]%Hcase; [by rewrite Hc|by apply (lv_mycfs r Hr x)]
    |intros x tx [[-> ->]|Hx]%Hcase; [by rewrite Hc|by apply (lv_idle r Hr x)]
    |intros tx; unfold r'; simpl; rewrite lookup_insert_ne by done; apply (lv_curr r Hr)]).
Qed.

Lemma sched_fork_ok r p ct :
  live r → tasks r !! p = None → curr r = current → tasks r !! current = Some ct →
  policy_class (class ct) → Z.of_nat (size (tasks r)) + 1 < 2 ^ 32 →
  returns (sched_fork p) (r <| tasks ::= <[p := dup_task p ct]> |>) (λ _ r', live r' ∧
    (∃ t, newborn ct t ∧ upd p t r r') ∧ same_queue r r').
Proof.
  intros Hr Hp Hcu Hct Hc Hsz. pose proof (lv_ok r Hr) as Hok.
  pose proof (rq_tasks r Hok _ ct Hct) as Htok.
  assert (p ≠ current) as Hne by (intros ->; congruence).
  pose proof (child_newborn p ct Htok Hc) as Hn. set (t := child_of ct (dup_task p ct)) in *.
  destruct (live_newborn r p ct t Hr Hp) as (Hr1 & Hq1 & Hnq); [by rewrite Hcu|done|done|].
  set (r1 := r <| tasks ::= <[p := t]> |>) in *.
  assert (upd p t r r1) as Hu by apply upd_store.
  assert (tasks r1 !! p = Some t) as Ht1 by (unfold r1; simpl; by rewrite lookup_insert_eq).
  assert (returns (match task_fork_method (methods_of (class t)) with
                   | Some m => m p | None => mret tt end) r1 (λ _ r',
    class_ok true r' ∧ same_sched r1 r' ∧ same_queue r1 r')) as (a & r' & Hrun & Hr' & Hs' & Hq').
  { destruct (task_fork_method (methods_of (class t))) as [m|] eqn:Hm.
    - apply (fork_law m p r1 t); try done; [apply Hr1| |apply (nb_copied _ _ Hn)]. apply Hr1.
    - apply returns_ret. split_and!; [apply Hr1|done|done]. }
  exists a, r'. split.
  - rewrite (sched_fork_eq r p (dup_task p ct) ct); [exact Hrun|done|done|apply Htok].
  - split_and!; [by apply (live_same r1)|exists t; split; [done|by eapply upd_same]|by etrans].
Qed.

Lemma wake_up_new_task_ok r p t :
  live r → tasks r !! p = Some t → queueing (class t) → on_rq t = 0 →
  returns (wake_up_new_task p) r (λ _ r', live r' ∧ upd p (t <| on_rq := 1 |>) r r' ∧ queued r' p).
Proof.
  intros Hr Ht Hc Ho. pose proof (lv_ok r Hr) as Hok. pose proof (rq_tasks r Hok p t Ht) as Htok.
  pose proof (lv_mycfs r Hr p t Ht) as Hm.
  assert (¬ queued r p) as Hnq by (rewrite (rq_queued r Hok p t Ht Hm); lia).
  unfold wake_up_new_task. apply returns_bind.
  eapply returns_mono; [by apply (activate_task_ok true r p 0 t); [apply Hok|..]|].
  intros [] r1 (Hr1 & Hs1 & Hq1). destruct (erase_lookup r r1 p t Hs1 Ht) as (t1 & Ht1 & He1).
  apply returns_bind.
  eapply returns_mono; [apply (store_attr true r1 p t1); [done|done|rewrite (erase_load _ _ He1); apply Htok|done]|].
  intros [] r2 (Hr2 & Hu2 & Hq2). destruct (upd_lookup _ _ _ _ Hu2) as (t2 & Ht2 & He2).
  assert (upd p (t <| on_rq := 1 |>) r r2) as Hu.
  { apply (upd_trans _ t _ _ r1); [by apply same_upd|].
    apply (upd_erase _ (t1 <| on_rq := 1 |>)); [exact (erase_on _ _ _ He1)|done]. }
  assert (task_ok (t <| on_rq := 1 |>)) as Htok1 by (destruct Htok; split; try done; by right).
  destruct (upd_running r r2 p (t <| on_rq := 1 |>)) as (ct & Hct & Hlc); [done|done|done|].
  assert (queued r2 p) as Hqp by (rewrite (Hq2 p), Hq1; by left).
  eapply returns_mono; [apply (check_preempt_curr_ok r2 p WF_FORK t2 ct); try done|].
  - rewrite (erase_class _ _ He2), (erase_class _ (t <| on_rq := 1 |>)); [done|]. exact (erase_on _ _ _ He1).
  - intros [] r' (Hr' & Hs' & Hq').
    assert (upd p (t <| on_rq := 1 |>) r r') as Hu' by (by eapply upd_same).
    split_and!; [|done|by apply Hq'].
    apply (live_upd r r' p t (t <| on_rq := 1 |>)); try done.
    + apply (rq_ok_upd r r' p t (t <| on_rq := 1 |>)); try done.
      * intros _. rewrite (Hq' p). done.
      * intros x Hx. rewrite (Hq' x), (Hq2 x), Hq1. naive_solver.
    + exact (lv_idle r Hr p t Ht).
    + intros _. by right.
Qed.

(** ** All operations together *)

(** A store that touches neither what the classes look at nor the place on the
    queue. *)
Lemma store_live r p t (f : task → task) :
  live r → tasks r !! p = Some t → (∀ x, se (f x) = se x ∧ prio (f x) = prio x ∧ class (f x) = class x) →
  task_ok (f t) → on_rq (f t) = on_rq t → (class t = idle_sched_class → state (f t) = TASK_RUNNING) →
  returns (store_task p f) r (λ _ r', live r' ∧ upd p (f t) r r' ∧ same_queue r r').
Proof.
  intros Hr Ht Hf Hok' Ho Hi. pose proof (lv_ok r Hr) as Hok. destruct (Hf t) as (_ & _ & Hc).
  pose proof (lv_mycfs r Hr p t Ht) as Hm.
  eapply returns_mono; [apply (store_attr true r p t f); try done; [apply Hok|by apply (rq_tasks r Hok p)]|].
  intros [] r' (Hr' & Hu & Hq). split_and!; [|done|done].
  eapply live_upd; [exact Hr| |exact Ht|exact Hu|by rewrite Hc..|].
  - apply (rq_ok_upd r r' p t (f t)); try done.
    + intros _. rewrite (Hq _), Ho. exact (rq_queued r Hok p t Ht Hm).
  - intros <-. rewrite Hc, Ho. exact (lv_curr r Hr t Ht).
Qed.

Lemma set_state_live r p t s :
  live r → tasks r !! p = Some t → (class t = idle_sched_class → s = TASK_RUNNING) →
  returns (store_task p (λ t, t <| state := s |>)) r (λ _ r',
    live r' ∧ upd p (t <| state := s |>) r r' ∧ same_queue r r').
Proof.
  intros Hr Ht Hi. apply store_live; try done. by destruct (rq_tasks r (lv_ok r Hr) p t Ht).
Qed.

Lemma set_signal_live r p t sp sk :
  live r → tasks r !! p = Some t →
  returns (store_task p (λ t, t <| sigpending := sp |> <| sigkill := sk |>)) r (λ _ r',
    live r' ∧ upd p (t <| sigpending := sp |> <| sigkill := sk |>) r r' ∧ same_queue r r').
Proof.
  intros Hr Ht.
  apply (store_live r p t (λ t, t <| sigpending := sp |> <| sigkill := sk |>)); try done; [|exact (lv_idle r Hr p t Ht)].
  by destruct (rq_tasks r (lv_ok r Hr) p t Ht).
Qed.

Section Steps.
Context (Hw : workers_quiet) (Hpi : ∀ p, pi_quiet p).

(** What happens to a run queue: time passes, the timer ticks, the running task
    sets its state or forks, signals arrive, tasks are woken up, new ones for the first
    time, the processor is rescheduled, and nice values and policies are set.  No call is
    made for the idle task; a reschedule does not find the running task withheld by all
    classes, and wakes up no other worker. *)
Inductive sched_step : rq Y → rq Y → Prop :=
  | step_time r now : sched_step r (r <| hw_clock := now |>)
  | step_tick r r' : scheduler_tick r = Ok tt r' → sched_step r r'
  | step_state r s t r' :
      tasks r !! curr r = Some t → class t ≠ idle_sched_class →
      store_task (curr r) (λ t, t <| state := s |>) r = Ok tt r' → sched_step r r'
  | step_signal r p pending kill r' :
      store_task p (λ t, t <| sigpending := pending |> <| sigkill := kill |>) r = Ok tt r' → sched_step r r'
  | step_wake r p st f b r' : try_to_wake_up p st f r = Ok b r' → sched_step r r'
  | step_fork r p ct r' :
      tasks r !! p = None → curr r = current → tasks r !! current = Some ct →
      policy_class (class ct) → Z.of_nat (size (tasks r)) + 1 < 2 ^ 32 →
      sched_fork p (r <| tasks ::= <[p := dup_task p ct]> |>) = Ok tt r' → sched_step r r'
  | step_new r p t r' :
      tasks r !! p = Some t → queueing (class t) → on_rq t = 0 →
      wake_up_new_task p r = Ok tt r' → sched_step r r'
  | step_schedule r t next r' :
      tasks r !! curr r = Some t → wakes_no_worker r t → (∀ v r2, before_pick r = Ok v r2 → ¬ withheld r2) →
      __schedule r = Ok next r' → sched_step r r'
  | step_nice r p nice r' : set_user_nice p nice r = Ok tt r' → sched_step r r'
  | step_policy r p t policy' priority user v r' :
      tasks r !! p = Some t → class t ≠ idle_sched_class →
      __sched_setscheduler p policy' priority user r = Ok v r' → sched_step r r'.

Lemma returns_fun {A} (m : M (rq Y) A) r a r' (Q : A → rq Y → Prop) :
  returns m r Q → m r = Ok a r' → Q a r'.
Proof. intros (? & ? & Hm & HQ) Hm'. rewrite Hm in Hm'. by injection Hm' as -> ->. Qed.

Lemma renice_live r r' p nice t :
  live r → rq_ok r' → tasks r !! p = Some t → upd p (renice nice t) r r' → live r'.
Proof.
  intros Hr Hok Ht Hu.
  assert (class (renice nice t) = class t ∧ state (renice nice t) = state t ∧
          on_rq (renice nice t) = on_rq t) as (Hc & Hs & Ho).
  { unfold renice, niced, set_weights. do 2 (case_match; [done|]).
    by destruct (weights_of _ _). }
  eapply live_upd; [exact Hr|done|exact Ht|exact Hu|..]; rewrite Hc, ?Hs, ?Ho.
  - by apply (lv_mycfs r Hr p).
  - by apply (lv_idle r Hr p).
  - intros <-. by apply (lv_curr r Hr).
Qed.

Lemma policy_live r r' p t pol priority reset :
  live r → rq_ok r' → tasks r !! p = Some t → class t ≠ idle_sched_class → pol ≠ SCHED_MYCFS →
  upd p (with_policy p pol priority (t <| sched_reset_on_fork := reset |>)) r r' → live r'.
Proof.
  intros Hr Hok Ht Hi Hpol Hu.
  pose proof (with_policy_class p pol priority (t <| sched_reset_on_fork := reset |>) Hpol) as Hc.
  destruct (with_policy_fields p pol priority (t <| sched_reset_on_fork := reset |>)) as [Ho _].
  eapply live_upd; [exact Hr|done|exact Ht|exact Hu|by destruct Hc as [-> | ->]..|].
  intros <-. right. rewrite Ho. by destruct (lv_curr r Hr t Ht).
Qed.

Lemma sched_step_live r r' : live r → sched_step r r' → live r'.
Proof.
  intros Hr Hstep. pose proof (lv_ok r Hr) as Hok.
  destruct Hstep as [r now|r r' Hrun|r s t r' Ht Hi Hrun|r p sp sk r' Hrun|r p st f b r' Hrun
                    |r p ct r' Hp Hcu Hct Hpc Hsz Hrun|r p t r' Ht Hq Ho Hrun|r t next r' Ht Hf Hwh Hrun
                    |r p nice r' Hrun|r p t policy' priority user v r' Ht Hi Hrun].
  - assert (counters r (r <| hw_clock := now |>)) as Hc by by destruct r.
    destruct (counters_law true r _ (rq_class r Hok) Hc) as [? ?].
    apply (live_same r); done.
  - by apply (returns_fun _ _ _ _ _ (scheduler_tick_live r Hr)) in Hrun as [? _].
  - by apply (returns_fun _ _ _ _ _ (set_state_live r (curr r) t s Hr Ht (λ Hc, match Hi Hc with end))) in Hrun as [? _].
  - destruct (tasks r !! p) as [t|] eqn:Ht.
    + by apply (returns_fun _ _ _ _ _ (set_signal_live r p t sp sk Hr Ht)) in Hrun as [? _].
    + unfold store_task, load_task, mbind, M_bind, gets in Hrun. by rewrite Ht in Hrun.
  - destruct (tasks r !! p) as [t|] eqn:Ht.
    + by apply (returns_fun _ _ _ _ _ (try_to_wake_up_ok r p st f t Hw Hr Ht)) in Hrun as [? _].
    + unfold try_to_wake_up, load_task, mbind, M_bind, gets in Hrun. by rewrite Ht in Hrun.
  - by apply (returns_fun _ _ _ _ _ (sched_fork_ok r p ct Hr Hp Hcu Hct Hpc Hsz)) in Hrun as [? _].
  - by apply (returns_fun _ _ _ _ _ (wake_up_new_task_ok r p t Hr Ht Hq Ho)) in Hrun as [? _].
  - destruct (schedule_run r t Hr Ht Hf) as (v & r2 & next' & r'' & c & Hpre & Hrun' & _ & _ & _ & _ & _ & Hcase).
    rewrite Hrun in Hrun'. injection Hrun' as <- <-. specialize (Hwh v r2 Hpre). case_decide; [by destruct Hcase|by destruct Hcase as (_ & ? & _)].
  - destruct (tasks r !! p) as [t|] eqn:Ht.
    + destruct (set_user_nice_run r p nice t Hok Ht (lv_mycfs r Hr p t Ht)) as (r1 & Hr1 & Hok1 & Hu & _).
      rewrite Hrun in Hr1. injection Hr1 as <-. by eapply renice_live.
    + unfold set_user_nice, load_task, mbind, M_bind, gets in Hrun. by rewrite Ht in Hrun.
  - assert (queueing (class t)) as Hm.
    { pose proof (lv_mycfs r Hr p t Ht). unfold queueing. by destruct (class t); auto. }
    destruct (decide ((if policy' <? 0 then policy t else Z.ldiff policy' SCHED_RESET_ON_FORK)
                      = SCHED_MYCFS)) as [Hpol|Hpol].
    + by rewrite (setscheduler_mycfs_run r p policy' priority user t v r' Hok Ht Hm Hpol Hrun).
    + destruct (setscheduler_run r p policy' priority user t (Hpi p) Hok Ht Hm Hpol)
        as (v1 & r1 & Hr1 & [[-> _]|(-> & Hok1 & pol & reset & Hu & Hpe)]);
        rewrite Hrun in Hr1; injection Hr1 as -> ->; [done|].
      eapply policy_live; [exact Hr|done|exact Ht|done| |exact Hu]. by rewrite Hpe.
Qed.
End Steps.

(** A forked child is well formed and starts clean: [sched_fork] on the copy
    of a real-time or fair task returns with the run queue live; the child is on
    no queue, runs at its normal priority (a priority the parent was boosted to
    does not leak), has the default policy and no negative nice value if the
    parent asked for that, and no other task changes; [wake_up_new_task] then
    returns with the child queued. *)
Theorem sched_fork_child r p ct :
  live r → tasks r !! p = None → curr r = current → tasks r !! current = Some ct →
  policy_class (class ct) → Z.of_nat (size (tasks r)) + 1 < 2 ^ 32 →
  returns (sched_fork p) (r <| tasks ::= <[p := dup_task p ct]> |>) (λ _ r', live r' ∧
    same_queue r r' ∧
    (∃ t, tasks r' !! p = Some t ∧ task_ok t ∧ on_rq t = 0 ∧ prio t = t_normal_prio t ∧
      (sched_reset_on_fork ct = true → rt_policy (policy t) = false ∧ 0 ≤ TASK_NICE t)) ∧
    (∀ q, q ≠ p → erase <$> tasks r' !! q = erase <$> tasks r !! q) ∧
    returns (wake_up_new_task p) r' (λ _ r'', live r'' ∧ queued r'' p)).
Proof.
  intros Hr Hp Hcu Hct Hc Hsz. eapply returns_mono; [by apply (sched_fork_ok r p ct)|].
  intros [] r' (Hr' & (t & Hn & Hu) & Hq). destruct (upd_lookup _ _ _ _ Hu) as (t' & Ht' & He).
  pose proof (nb_ok _ _ Hn) as Htok.
  assert (on_rq t' = 0) as Ho by (rewrite (erase_on_rq _ _ He); apply Hn).
  split_and!; [done|done| |apply (up_others _ _ _ _ Hu)|].
  - exists t'. split_and!; [done|by apply (task_ok_erase t); [symmetry|]|done| |].
    + pose proof (f_equal t_normal_prio He) as Hnp. simpl in Hnp.
      rewrite (erase_prio _ _ He), Hnp. apply Hn.
    + intros Hre. destruct (nb_policy _ _ Hn Hre) as [Hpo Hni].
      pose proof (f_equal policy He) as Hp'. pose proof (f_equal static_prio He) as Hs'. simpl in Hp', Hs'.
      unfold TASK_NICE in *. by rewrite Hp', Hs'.
  - eapply returns_mono; [apply (wake_up_new_task_ok r' p t'); [done|done| |done]|].
    + rewrite (erase_class _ _ He). destruct (cp_class _ _ (nb_copied _ _ Hn)) as [->| ->]; unfold queueing; auto.
    + intros [] r'' (? & _ & ?). done.
Qed.

(** Waking up a task of a live run queue returns.  A task in none of the
    states asked for is left alone; otherwise it is runnable and on its queue
    afterwards, nothing else changes but flags and time accounting, and the run
    queue is live again. *)
Theorem try_to_wake_up_live r p st wake_flags t :
  workers_quiet → live r → tasks r !! p = Some t →
  returns (try_to_wake_up p st wake_flags) r (λ b r', live r' ∧
    if has_flag (state t) st
    then b = true ∧ upd p (t <| on_rq := 1 |> <| state := TASK_RUNNING |>) r r' ∧ queued r' p
    else b = false ∧ r' = r).
Proof. apply try_to_wake_up_ok. Qed.

(** C19. One pass of [__schedule] over a live run queue returns, unless the running task is
    a worker whose sleep wakes up another one, which is left out.  The task that ran leaves
    its queue exactly if it blocks, and no other task changes.  Let [r2] be the state in
    which the next task is chosen.  If the running task is still queued there and the stop,
    real-time and fair classes all offer nothing (they are throttled), the MYCFS class hands
    the processor back to it: it runs on although its class has put it aside.  Otherwise the
    task chosen runs, is queued unless it is the idle task, and the run queue is live again:
    the scheduler never runs a task that is not runnable, and never takes a null method or a
    missing task. *)
Theorem schedule_live r t :
  live r → tasks r !! curr r = Some t → wakes_no_worker r t →
  ∃ v r2, before_pick r = Ok v r2 ∧
  returns __schedule r (λ next r', curr r' = next ∧
    (∀ q, q ≠ curr r → attrs <$> tasks r' !! q = attrs <$> tasks r !! q) ∧
    (∀ q, queued r' q ↔ queued r q ∧ (q = curr r → blocks t = false)) ∧
    ((withheld r2 ∧ next = curr r ∧ class_ok false r') ∨ (¬ withheld r2 ∧ live r'))).
Proof.
  intros Hr Ht Hf. destruct (schedule_run r t Hr Ht Hf) as (v & r2 & next & r' & c & Hpre & Hrun & _ & _ & Hcu & Hq & Hat & Hcase).
  exists v, r2. split; [done|]. exists next, r'. split; [done|].
  destruct (before_pick_ok r t Hr Ht Hf) as (v' & r2' & Hpre' & _ & _ & Ha & Hqq & _). rewrite Hpre in Hpre'. injection Hpre' as <- <-.
  split_and!; [done|intros q Hne; rewrite Hat; by apply Ha|intros q; by rewrite (Hq q), Hqq|].
  case_decide; [by left|right]. by destruct Hcase as (? & ? & _).
Qed.

(** C20. The processor is given to the highest class that offers a task: when a queued
    task is of a class above that of the task [__schedule] chooses, in the order stop,
    real-time, fair, MYCFS, idle, then its class offered nothing when it was asked, before
    the shortcut for a queue of fair tasks or after it: it is throttled.  In particular the
    idle task runs only when every class that has a task queued withholds it. *)
Theorem schedule_work_conserving r t :
  live r → tasks r !! curr r = Some t → wakes_no_worker r t →
  ∃ v r2, before_pick r = Ok v r2 ∧
  returns __schedule r (λ next r', ∃ tn, tasks r' !! next = Some tn ∧
    ∀ q tq, tasks r' !! q = Some tq → queued r' q → class_rank (class tn) < class_rank (class tq) → offer (class tq) r2 = None).
Proof.
  intros Hr Ht Hf. destruct (schedule_run r t Hr Ht Hf) as (v & r2 & next & r' & c & Hpre & Hrun & Hse & Hfo & Hcu & Hq & Hat & Hcase).
  exists v, r2. split; [done|]. exists next, r'. split; [done|].
  assert (∃ t2, tasks r2 !! next = Some t2) as [t2 Ht2].
  { case_decide; [|destruct Hcase as (_ & _ & Hc); apply fmap_Some in Hc as (t2 & ? & _); eauto].
    destruct Hcase as (_ & -> & _). destruct (before_pick_ok r t Hr Ht Hf) as (v' & r2' & Hpre' & _ & Hcu2 & _).
    rewrite Hpre in Hpre'. injection Hpre' as <- <-. destruct (st_curr _ _ Hse) as [t2 ?]. exists t2. congruence. }
  pose proof (Hat next) as Hn. rewrite Ht2 in Hn. apply fmap_Some in Hn as (tn & Htn & Han). exists tn. split; [done|].
  intros q tq Htq Hqd Hlt. destruct (attrs_class r2 r' q tq Hat Htq) as (tq2 & Htq2 & Hcq).
  assert (class tn = class t2) as Hcn by (by injection Han). apply Hq in Hqd.
  destruct (queued_law false r2 q (st_class _ _ Hse) Hqd) as (tq' & Htq' & Hqc). rewrite Htq2 in Htq'. injection Htq' as <-. rewrite Hcq in Hqc.
  case_decide as Hc.
  - destruct Hcase as ([_ Hno] & _). by apply Hno.
  - destruct Hcase as (_ & _ & Hcl). rewrite Ht2 in Hcl. injection Hcl as <-. rewrite <- Hcn in Hfo. by eapply first_offer_highest.
Qed.

(** C18. From a live run queue, every sequence of ticks, forks, wake-ups, reschedules,
    state changes, signals, nice values and policy changes leads to live run queues, as long
    as no reschedule finds the running task still queued and withheld by every class (all
    throttled), or is of a worker that wakes up another; the work queues and the priority
    inheritance do not touch the run queue.  In particular no task is ever in the MYCFS
    class, although SCHED_MYCFS is a policy the system call accepts: asking for it faults
    before the call returns. *)
Theorem sched_reachable_live r r' q t :
  workers_quiet → (∀ p, pi_quiet p) → live r → rtc sched_step r r' →
  tasks r' !! q = Some t → live r' ∧ class t ≠ mycfs_sched_class.
Proof.
  intros Hw Hpi Hr Hsteps Ht.
  assert (live r') as Hr' by (induction Hsteps; eauto using sched_step_live).
  split; [done|]. by apply (lv_mycfs r' Hr' q).
Qed.
End Run.
