(* ===== verification/FairSpec.v ===== *)
(** * The queue of the fair class: specifications

    The entities of tasks that belong to no group lie on one queue, [rq->cfs].
    For that flat hierarchy, without bandwidth limits, this file gives every
    operation on entities a specification over the entities of the tasks and the
    queue alone ([holds]), the invariant of the queue ([queue_ok]), and proves
    that the operations keep it.  What the red-black tree library promises is
    stated in [RbLaws] through the list of a tree in order. *)

From Stdlib Require Import Sorted.
From S2P Require Import Prelude SchedData Fair Sched SchedSpec.

(** ** Trees as lists *)

Fixpoint inorder (t : rb_tree) : list se_ptr :=
  match t with
  | RB_ROOT => []
  | rb_node l x r => inorder l ++ x :: inorder r
  end.

(** The element after [s]. *)
Fixpoint next_in {A} `{EqDecision A} (s : A) (l : list A) : option A :=
  match l with
  | [] => None
  | x :: l' => if decide (x = s) then head l' else next_in s l'
  end.

(** What the tree library promises: rebalancing keeps the order, a node is
    erased, the next node is the next in order. *)
Class RbLaws {Y} `{FairEnv Y} : Prop := {
  rb_insert_law : ∀ s t, inorder (rb_insert_color s t) = inorder t;
  rb_erase_law : ∀ s t, NoDup (inorder t) → inorder (rb_erase s t) = remove_one s (inorder t);
  rb_next_law : ∀ s t, NoDup (inorder t) → rb_next s t = next_in s (inorder t)
}.

(** ** Entities and queue *)

Abbreviation entities := (gmap Z sched_entity).

(** An entity of a task outside all groups. *)
Record flat_entity (e : sched_entity) : Prop := {
  fe_parent : se_parent e = None;
  fe_cfs_rq : se_cfs_rq e = 0;
  fe_my_q : my_q e = None;
  fe_load : load_valid (load e);
  fe_on_rq : se_on_rq e = 0 ∨ se_on_rq e = 1
}.

(** The tasks whose entity is on the queue. *)
Definition queued_set (E : entities) : gset Z := dom (filter (λ pe, se_on_rq pe.2 = 1) E).

Definition weight_of (E : entities) (p : Z) : Z :=
  match E !! p with Some e => weight (load e) | None => 0 end.

(** The invariant: the time line holds, once each, the queued entities but the
    current one; the cached leftmost entity is its first; buddies are queued;
    the counters and the load are those of the queued entities. *)
Record queue_ok (E : entities) (q : cfs_rq) (l : list Z) : Prop := {
  qo_entities : ∀ p e, E !! p = Some e → flat_entity e;
  qo_line : inorder (tasks_timeline q) = TaskSe <$> l;
  qo_nodup : NoDup l;
  qo_mem : ∀ p, p ∈ l ↔ p ∈ queued_set E ∧ c_curr q ≠ Some (TaskSe p);
  qo_left : rb_leftmost q = TaskSe <$> head l;
  qo_curr : ∀ x, c_curr q = Some x → ∃ p, x = TaskSe p ∧ is_Some (E !! p);
  qo_buddies : ∀ x, c_next q = Some x ∨ c_last q = Some x ∨ c_skip q = Some x →
    ∃ p, x = TaskSe p ∧ p ∈ queued_set E;
  qo_nr : c_nr_running q = Z.of_nat (size (queued_set E));
  qo_load : weight (c_load q) = u32 (sumZ (weight_of E) (elements (queued_set E)));
  qo_size : Z.of_nat (size E) < 2 ^ 32
}.

Lemma elem_of_queued E p : p ∈ queued_set E ↔ ∃ e, E !! p = Some e ∧ se_on_rq e = 1.
Proof.
  unfold queued_set. rewrite elem_of_dom. split.
  - intros [e He]. apply map_lookup_filter_Some in He as [? ?]. eauto.
  - intros (e & He & Ho). exists e. by apply map_lookup_filter_Some.
Qed.

(** Entities that differ in their time accounting only. *)
Definition links (e : sched_entity) : load_weight * Z * option se_ptr * Z * option Z :=
  (load e, se_on_rq e, se_parent e, se_cfs_rq e, my_q e).

Definition same_links (E E' : entities) : Prop := links <$> E = links <$> E'.

#[export] Instance same_links_equiv : Equivalence same_links.
Proof. split; unfold same_links; congruence. Qed.

Lemma same_links_lookup E E' p e :
  same_links E E' → E' !! p = Some e → ∃ e0, E !! p = Some e0 ∧ links e0 = links e.
Proof.
  intros Hl He. apply (f_equal (lookup p)) in Hl. rewrite !lookup_fmap, He in Hl.
  apply fmap_Some in Hl as (e0 & ? & ?). eauto.
Qed.

Lemma same_links_insert E p e e' :
  E !! p = Some e → links e' = links e → same_links E (<[p := e']> E).
Proof.
  intros He Hl. unfold same_links. rewrite fmap_insert, Hl. symmetry.
  apply insert_id. by rewrite lookup_fmap, He.
Qed.

Lemma same_links_queued E E' : same_links E E' → queued_set E' = queued_set E.
Proof.
  intros Hl. apply set_eq. intros p. rewrite !elem_of_queued. split; intros (e & He & Ho).
  - destruct (same_links_lookup E E' p e Hl He) as (e0 & ? & [=]). exists e0. split; congruence.
  - destruct (same_links_lookup E' E p e (symmetry Hl) He) as (e0 & ? & [=]).
    exists e0. split; congruence.
Qed.

Lemma same_links_weight E E' p : same_links E E' → weight_of E' p = weight_of E p.
Proof.
  intros Hl. apply (f_equal (lookup p)) in Hl. rewrite !lookup_fmap in Hl. unfold weight_of.
  destruct (E !! p), (E' !! p); simpl in Hl; try done. by injection Hl as ->.
Qed.

Lemma same_links_size E E' : same_links E E' → size E' = size E.
Proof.
  intros Hl. apply (f_equal size) in Hl. by rewrite !map_size_fmap in Hl.
Qed.

Lemma flat_links e e' : links e = links e' → flat_entity e → flat_entity e'.
Proof. intros [=] []. split; congruence. Qed.

(** Queues that differ in virtual time and the cached inverse of the load only. *)
Definition shape (q : cfs_rq) :=
  (tasks_timeline q, rb_leftmost q, c_curr q, (c_next q, c_last q, c_skip q),
   c_nr_running q, h_nr_running q, weight (c_load q)).

Lemma queue_ok_quiet E E' q q' l :
  queue_ok E q l → same_links E E' → shape q' = shape q → queue_ok E' q' l.
Proof.
  intros [] Hl Hq. injection Hq as Ht Hlm Hc Hn Hla Hs Hnr Hh Hw.
  pose proof (same_links_queued _ _ Hl) as Hqs.
  split; rewrite ?Ht, ?Hlm, ?Hc, ?Hn, ?Hla, ?Hs, ?Hnr, ?Hw, ?Hqs,
    ?(same_links_size _ _ Hl); try done.
  - intros p e He. destruct (same_links_lookup E E' p e Hl He) as (e0 & He0 & Hll).
    apply (flat_links e0); eauto.
  - intros x Hx. destruct (qo_curr0 x Hx) as (p & -> & e & He). exists p. split; [done|].
    destruct (same_links_lookup E' E p e (symmetry Hl) He) as (e0 & ? & _). by exists e0.
  - rewrite qo_load0. f_equal. unfold sumZ. generalize (elements (queued_set E)) as k.
    induction k as [|x k IH]; [done|]. simpl. by rewrite IH, (same_links_weight E E').
Qed.

(** ** Specifications over entities and queue *)

Section Rules.
Context {Y : Type} `{FairEnv Y}.

(** What no operation of the fair class changes: a task but for its entity and
    its reschedule flag, and everything else the run queue holds. *)
Definition bare (t : task) : task :=
  t <| need_resched := false |>
    <| se := mkSe (mkLoad 0 0) 0 0 0 0 0 None 0 None |>.

Definition rest (r : rq Y) : rq Y :=
  r <| tasks := ∅ |> <| cfs_rqs := ∅ |> <| rq_load := mkLoad 0 0 |> <| leaf_cfs_rq_list := [] |>
    <| nr_running := 0 |>.

(** From [r0] the code has come to [r], where the tasks have the entities [E],
    the queue of the root group is [q] and [n] tasks run. *)
Record holds (r0 r : rq Y) (E : entities) (q : cfs_rq) (n : Z) : Prop := {
  h_rest : rest r = rest r0;
  h_bare : bare <$> tasks r = bare <$> tasks r0;
  h_ents : se <$> tasks r = E;
  h_cfs : cfs_rqs r !! 0 = Some q;
  h_nr : nr_running r = n
}.

Lemma holds_refl (r : rq Y) q :
  cfs_rqs r !! 0 = Some q → holds r r (se <$> tasks r) q (nr_running r).
Proof. by split. Qed.

Lemma holds_task r0 r E q n p e :
  holds r0 r E q n → E !! p = Some e → ∃ t, tasks r !! p = Some t ∧ se t = e.
Proof.
  intros [] He. subst E. rewrite lookup_fmap in He. apply fmap_Some in He as (t & ? & ->). eauto.
Qed.

Lemma holds_field {A} (f : rq Y → A) r0 r E q n :
  holds r0 r E q n → (∀ r, f (rest r) = f r) → f r = f r0.
Proof. intros [] Hf. by rewrite <- Hf, h_rest0, Hf. Qed.

Lemma rule_load_se r0 r E q n p e Q :
  holds r0 r E q n → E !! p = Some e → Q e r → returns (load_se (TaskSe p)) r Q.
Proof.
  intros Hs He HQ. destruct (holds_task _ _ _ _ _ _ _ Hs He) as (t & Ht & <-).
  exists (se t), r. split; [|done]. unfold load_se, mbind, M_bind. by rewrite (load_task_eq r p t).
Qed.

Lemma rule_store_task r0 r E q n p t f Q :
  holds r0 r E q n → tasks r !! p = Some t → bare (f t) = bare t →
  (∀ r', holds r0 r' (<[p := se (f t)]> E) q n → tasks r' !! p = Some (f t) → Q tt r') →
  returns (store_task p f) r Q.
Proof.
  intros [] Ht Hb HQ. eexists _, _. split; [by rewrite (store_task_eq r p t)|].
  apply HQ; simpl; [|by rewrite lookup_insert_eq]. split; simpl; try done.
  - rewrite fmap_insert, Hb, <- h_bare0. apply insert_id. by rewrite lookup_fmap, Ht.
  - by rewrite fmap_insert, h_ents0.
Qed.

Lemma rule_store_se r0 r E q n p e f Q :
  holds r0 r E q n → E !! p = Some e →
  (∀ r', holds r0 r' (<[p := f e]> E) q n → Q tt r') →
  returns (store_se (TaskSe p) f) r Q.
Proof.
  intros Hs He HQ. destruct (holds_task _ _ _ _ _ _ _ Hs He) as (t & Ht & <-).
  eapply (rule_store_task _ _ _ _ _ p t (λ t, t <| se ::= f |>)); eauto.
Qed.

Lemma rule_resched r0 r E q n p Q :
  holds r0 r E q n → is_Some (E !! p) →
  (∀ r', holds r0 r' E q n → Q tt r') → returns (resched_task p) r Q.
Proof.
  intros Hs [e He] HQ. destruct (holds_task _ _ _ _ _ _ _ Hs He) as (t & Ht & <-).
  eapply (rule_store_task _ _ _ _ _ p t (λ t, t <| need_resched := true |>)); eauto.
  intros r' Hs' _. apply HQ. simpl in Hs'. by rewrite insert_id in Hs'.
Qed.

Lemma rule_load_cfs r0 r E q n Q :
  holds r0 r E q n → Q q r → returns (load_cfs 0) r Q.
Proof.
  intros [] HQ. exists q, r. split; [|done]. unfold load_cfs. mstep. by rewrite h_cfs0.
Qed.

Lemma rule_store_cfs r0 r E q n f Q :
  holds r0 r E q n → (∀ r', holds r0 r' E (f q) n → Q tt r') → returns (store_cfs 0 f) r Q.
Proof.
  intros [] HQ. eexists _, _. split; [unfold store_cfs, load_cfs; mstep; by rewrite h_cfs0|].
  apply HQ. split; simpl; try done. by rewrite lookup_insert_eq.
Qed.

Lemma rule_gets {A} (f : rq Y → A) r0 r E q n Q :
  holds r0 r E q n → (∀ r, f (rest r) = f r) → Q (f r0) r → returns (gets f) r Q.
Proof.
  intros Hs Hf HQ. exists (f r), r. split; [done|]. by rewrite (holds_field f r0 r E q n).
Qed.

Lemma rule_modify f r0 r E q n Q :
  holds r0 r E q n → (∀ r, rest (f r) = rest r ∧ tasks (f r) = tasks r ∧
    cfs_rqs (f r) = cfs_rqs r ∧ nr_running (f r) = nr_running r) →
  (∀ r', holds r0 r' E q n → Q tt r') → returns (modify f) r Q.
Proof.
  intros [] Hf HQ. destruct (Hf r) as (Hr & Ht & Hc & Hn). exists tt, (f r). split; [done|].
  apply HQ. split; rewrite ?Hr, ?Ht, ?Hc, ?Hn; done.
Qed.

Lemma rule_nr_running (f : Z → Z) r0 r E q n Q :
  holds r0 r E q n → (∀ r', holds r0 r' E q (f n) → Q tt r') →
  returns (modify (λ r, r <| nr_running := f (nr_running r) |>)) r Q.
Proof.
  intros [] HQ. eexists _, _. split; [done|]. apply HQ. split; try done. simpl. by rewrite h_nr0.
Qed.

Lemma rule_if (b : bool) {A} (m1 m2 : M (rq Y) A) r Q :
  (b = true → returns m1 r Q) → (b = false → returns m2 r Q) →
  returns (if b then m1 else m2) r Q.
Proof. by destruct b; auto. Qed.

(** A loop over the ancestors of a task outside all groups makes one pass. *)
Lemma rule_ancestors {A} r0 r E q n p fuel (body : A → se_ptr → M (rq Y) (bool * A)) a Q :
  holds r0 r E q n →
  returns (body a (TaskSe p)) r (λ ga r', ∃ E' q' n' e, holds r0 r' E' q' n' ∧
    E' !! p = Some e ∧ se_parent e = None ∧
    Q (if ga.1 : bool then None else Some (TaskSe p), ga.2) r') →
  returns (for_each_sched_entity (S fuel) body a (Some (TaskSe p))) r Q.
Proof.
  intros Hs Hb. simpl. apply returns_bind. eapply returns_mono; [exact Hb|].
  intros [[|] a'] r' (E' & q' & n' & e & Hs' & He & Hp & HQ); simpl in *.
  - apply returns_bind. unfold parent_entity. apply returns_bind.
    eapply rule_load_se; [exact Hs'|exact He|]. apply returns_ret. rewrite Hp.
    destruct fuel; by apply returns_ret.
  - by apply returns_ret.
Qed.

Lemma rule_depth_bound (r : rq Y) Q :
  (∀ n, Q (S n) r) → returns depth_bound r Q.
Proof. intros HQ. eexists _, _. split; [reflexivity|]. apply HQ. Qed.

Lemma rule_cfs_rq_of r0 r E q n p e Q :
  holds r0 r E q n → E !! p = Some e → se_cfs_rq e = 0 → Q 0 r → returns (cfs_rq_of (TaskSe p)) r Q.
Proof.
  intros Hs He Hc HQ. unfold cfs_rq_of. apply returns_bind. eapply rule_load_se; eauto.
  rewrite Hc. by apply returns_ret.
Qed.
End Rules.

Ltac look :=
  rewrite ?lookup_insert_eq; first [eassumption | done | rewrite lookup_insert_ne by done; look].

(** One statement of the code, under a specification of the state before it. *)
Ltac fstep :=
  cbv beta;
  lazymatch goal with
  | |- returns (mbind _ _) _ _ => apply returns_bind
  | |- returns (mret _) _ _ => apply returns_ret
  | |- returns (update_cfs_load _) _ _ => apply returns_ret
  | |- returns depth_bound _ _ => apply rule_depth_bound; intros ?fuel
  | Hs : holds ?r0 ?r ?E ?q ?n |- returns (load_se (TaskSe ?p)) ?r _ =>
      eapply rule_load_se; [exact Hs|look|]
  | Hs : holds ?r0 ?r ?E ?q ?n |- returns (store_se (TaskSe ?p) ?f) ?r _ =>
      eapply rule_store_se; [exact Hs|look|clear Hs r; intros r Hs]
  | Hs : holds ?r0 ?r ?E ?q ?n |- returns (load_cfs 0) ?r _ =>
      eapply rule_load_cfs; [exact Hs|]
  | Hs : holds ?r0 ?r ?E ?q ?n |- returns (store_cfs 0 ?f) ?r _ =>
      eapply rule_store_cfs; [exact Hs|clear Hs r; intros r Hs]
  | Hs : holds ?r0 ?r ?E ?q ?n |- returns (gets ?f) ?r _ =>
      eapply (rule_gets f); [exact Hs|reflexivity|]
  | Hs : holds ?r0 ?r ?E ?q ?n |- returns (resched_task ?p) ?r _ =>
      eapply rule_resched; [exact Hs|try (eexists; look)|clear Hs r; intros r Hs]
  | |- returns (if _ then _ else _) _ _ => apply rule_if; intros ?Hb
  end.

(** ** Virtual time *)

(** [delta] nanoseconds of the entity in virtual time. *)
Definition fair_delta (delta : Z) (e : sched_entity) : Z :=
  if negb (weight (load e) =? NICE_0_LOAD) then (calc_delta_mine delta NICE_0_LOAD (load e)).1
  else delta.

(** The entity after it ran [delta] until [now]. *)
Definition charge_entity (delta now : Z) (e : sched_entity) : sched_entity :=
  e <| sum_exec_runtime := u64 (sum_exec_runtime e + delta) |>
    <| vruntime := u64 (vruntime e + fair_delta delta e) |> <| exec_start := now |>.

Definition vruntime_of (E : entities) (x : option se_ptr) : option Z :=
  match x with Some (TaskSe p) => vruntime <$> E !! p | _ => None end.

(** The least virtual run time of the queue, which never goes backwards. *)
Definition next_min_vruntime (E : entities) (q : cfs_rq) : Z :=
  let v := match vruntime_of E (c_curr q), vruntime_of E (rb_leftmost q) with
           | Some c, Some l => min_of_vruntime c l
           | Some c, None => c
           | None, Some l => l
           | None, None => min_vruntime q
           end in
  max_vruntime (min_vruntime q) v.

Definition advance (E : entities) (q : cfs_rq) : cfs_rq :=
  q <| min_vruntime := next_min_vruntime E q |> <| min_vruntime_copy := next_min_vruntime E q |>.

(** The current entity is charged for the time since its accounting began. *)
Definition run_curr (now : Z) (E : entities) (q : cfs_rq) : entities * cfs_rq :=
  match c_curr q with
  | Some (TaskSe p) =>
      match E !! p with
      | Some e =>
          let delta := u32 (now - exec_start e) in
          if delta =? 0 then (E, q)
          else let E' := <[p := charge_entity delta now e]> E in (E', advance E' q)
      | None => (E, q)
      end
  | _ => (E, q)
  end.

Lemma fill_inv_valid lw : load_valid lw → fill_inv_weight lw = lw.
Proof. intros [_ ?]. unfold fill_inv_weight. rewrite (proj2 (Z.eqb_neq _ _)) by lia. done. Qed.

(** A usable weight has its inverse cached already. *)
Lemma calc_delta_keeps delta w lw : load_valid lw → (calc_delta_mine delta w lw).2 = lw.
Proof. intros Hl. unfold calc_delta_mine. by rewrite (fill_inv_valid lw Hl). Qed.

Lemma advance_shape E q : shape (advance E q) = shape q.
Proof. done. Qed.

Lemma charge_links d now e : links (charge_entity d now e) = links e.
Proof. done. Qed.

Lemma run_curr_links now E q : same_links E (run_curr now E q).1.
Proof.
  unfold run_curr. destruct (c_curr q) as [[p|]|]; try done. destruct (E !! p) as [e|] eqn:He; [|done].
  cbv zeta. destruct (_ =? _); [done|]. simpl. by eapply same_links_insert.
Qed.

Lemma run_curr_shape now E q : shape (run_curr now E q).2 = shape q.
Proof.
  unfold run_curr. destruct (c_curr q) as [[p|]|]; try done. destruct (E !! p); [|done].
  cbv zeta. by destruct (_ =? _).
Qed.

Section Time.
Context {Y : Type} `{FairEnv Y}.
Implicit Types (r : rq Y).

Lemma rule_calc_delta_fair r0 r E q n p e delta Q :
  holds r0 r E q n → E !! p = Some e → load_valid (load e) →
  (∀ r', holds r0 r' E q n → Q (fair_delta delta e) r') →
  returns (calc_delta_fair delta (TaskSe p)) r Q.
Proof.
  intros Hs He Hl HQ. unfold calc_delta_fair, fair_delta in *. do 2 fstep.
  destruct (negb _); [|fstep; by apply HQ].
  pose proof (calc_delta_keeps delta NICE_0_LOAD (load e) Hl) as Hk.
  destruct (calc_delta_mine _ _ _) as [d lw]. simpl in Hk. subst lw. do 3 fstep.
  apply HQ. rewrite insert_id in Hs; [done|]. by rewrite He; destruct e.
Qed.

Lemma rule_update_min_vruntime r0 r E q n Q :
  holds r0 r E q n →
  (∀ x, c_curr q = Some x → ∃ p, x = TaskSe p ∧ is_Some (E !! p)) →
  (∀ x, rb_leftmost q = Some x → ∃ p, x = TaskSe p ∧ is_Some (E !! p)) →
  (∀ r', holds r0 r' E (advance E q) n → Q tt r') →
  returns (update_min_vruntime 0) r Q.
Proof.
  intros Hs Hc Hl HQ. unfold update_min_vruntime. do 3 fstep.
  apply (returns_mono _ _ (λ v r', v = default (min_vruntime q) (vruntime_of E (c_curr q)) ∧ r' = r)).
  { destruct (c_curr q) as [x|]; [|by fstep].
    destruct (Hc x eq_refl) as (p & -> & e & He). do 2 fstep. fstep. simpl. by rewrite He. }
  intros v ? [-> ->]. fstep.
  apply (returns_mono _ _ (λ v r', max_vruntime (min_vruntime q) v = next_min_vruntime E q ∧ r' = r)).
  { unfold next_min_vruntime. destruct (rb_leftmost q) as [x|].
    - destruct (Hl x eq_refl) as (p & -> & e & He). do 2 fstep.
      destruct (c_curr q) as [x|]; [|fstep; simpl; by rewrite He].
      destruct (Hc x eq_refl) as (p' & -> & e' & He'). fstep. simpl. by rewrite He, He'.
    - fstep. simpl. split; [|done]. by destruct (vruntime_of _ _). }
  intros v ? [Hv ->]. do 3 fstep. apply HQ. by rewrite Hv in Hs.
Qed.
End Time.

(** ** Entities on the queue *)

Lemma queued_lookup E p : p ∈ queued_set E → is_Some (E !! p).
Proof. intros (e & -> & _)%elem_of_queued. by eexists. Qed.

Lemma left_lookup E q l x :
  queue_ok E q l → rb_leftmost q = Some x → ∃ p, x = TaskSe p ∧ is_Some (E !! p).
Proof.
  intros Hq Hx. rewrite (qo_left _ _ _ Hq) in Hx. apply fmap_Some in Hx as (p & Hp & ->).
  exists p. split; [done|]. apply head_Some_elem_of, (qo_mem _ _ _ Hq) in Hp as [Hp _].
  by apply queued_lookup.
Qed.

Lemma queue_ok_run now E q l :
  queue_ok E q l → queue_ok (run_curr now E q).1 (run_curr now E q).2 l.
Proof. intros Hq. eapply queue_ok_quiet; [exact Hq|apply run_curr_links|apply run_curr_shape]. Qed.

Lemma run_curr_lookup now E q p e :
  E !! p = Some e → ∃ e', (run_curr now E q).1 !! p = Some e' ∧ links e' = links e ∧
    (c_curr q ≠ Some (TaskSe p) → e' = e).
Proof.
  intros He. destruct (decide (c_curr q = Some (TaskSe p))) as [Hc|Hc].
  - destruct (same_links_lookup _ _ p e (symmetry (run_curr_links now E q)) He) as (e' & ? & ?).
    by exists e'.
  - exists e. split; [|done]. unfold run_curr. destruct (c_curr q) as [[p'|]|]; try done.
    destruct (E !! p') as [e'|]; [|done]. cbv zeta. destruct (_ =? _); [done|]. simpl.
    rewrite lookup_insert_ne; [done|congruence].
Qed.

(** Removing and inserting one element of a list without duplicates. *)
Lemma remove_one_elem {A} `{EqDecision A} (x y : A) l :
  NoDup l → y ∈ remove_one x l ↔ y ∈ l ∧ y ≠ x.
Proof.
  induction 1 as [|z l Hz Hl IH]; simpl; [set_solver|].
  case_decide; subst; [set_solver|]. rewrite !elem_of_cons, IH. set_solver.
Qed.

Lemma remove_keeps_nodup {A} `{EqDecision A} (x : A) l : NoDup l → NoDup (remove_one x l).
Proof.
  induction 1 as [|z l Hz Hl IH]; simpl; [constructor|]. case_decide; [done|].
  constructor; [|done]. rewrite remove_one_elem by done. set_solver.
Qed.

Lemma remove_one_fmap {A B} `{EqDecision A, EqDecision B} (f : A → B) `{!Inj eq eq f} x l :
  remove_one (f x) (f <$> l) = f <$> remove_one x l.
Proof.
  induction l as [|y l IH]; [done|]. simpl. do 2 case_decide; simplify_eq/=; try done.
  by rewrite IH.
Qed.

Lemma next_in_fmap {A B} `{EqDecision A, EqDecision B} (f : A → B) `{!Inj eq eq f} x l :
  next_in (f x) (f <$> l) = f <$> next_in x l.
Proof.
  induction l as [|y l IH]; [done|]. simpl. do 2 case_decide; simplify_eq/=; try done.
  by destruct l.
Qed.

#[export] Instance TaskSe_inj : Inj eq eq TaskSe.
Proof. by intros ?? [=]. Qed.

(** The head after a removal. *)
Lemma head_remove {A} `{EqDecision A} (x : A) l :
  head (remove_one x l) = if decide (head l = Some x) then next_in x l else head l.
Proof.
  destruct l as [|y l]; [done|]. simpl. destruct (decide (x = y)) as [->|Hne].
  - rewrite decide_True by done. by rewrite decide_True.
  - rewrite decide_False by congruence. done.
Qed.

(** The sets after one entity joins or leaves. *)
Lemma queued_set_join E p e :
  se_on_rq e = 1 → queued_set (<[p := e]> E) = {[p]} ∪ queued_set E.
Proof.
  intros He. apply set_eq. intros x. rewrite elem_of_union, elem_of_singleton, !elem_of_queued.
  destruct (decide (x = p)) as [->|Hne].
  - rewrite lookup_insert_eq. naive_solver.
  - rewrite lookup_insert_ne by done. naive_solver.
Qed.

Lemma queued_set_leave E p e :
  se_on_rq e ≠ 1 → queued_set (<[p := e]> E) = queued_set E ∖ {[p]}.
Proof.
  intros He. apply set_eq. intros x. rewrite elem_of_difference, elem_of_singleton, !elem_of_queued.
  destruct (decide (x = p)) as [->|Hne].
  - rewrite lookup_insert_eq. naive_solver.
  - rewrite lookup_insert_ne by done. naive_solver.
Qed.

Lemma queued_size E : (size (queued_set E) ≤ size E)%nat.
Proof.
  unfold queued_set. rewrite size_dom. apply map_subseteq_size, map_filter_subseteq.
Qed.

Lemma not_queued_size E p e :
  E !! p = Some e → p ∉ queued_set E → (size (queued_set E) < size E)%nat.
Proof.
  intros He Hp. rewrite <- (size_dom E). apply subset_size. split.
  - intros x Hx. apply elem_of_dom. by apply queued_lookup.
  - intros Hsub. apply Hp, Hsub, elem_of_dom. by eexists.
Qed.

Lemma sum_weight_insert E p e (X : gset Z) :
  p ∉ X → sumZ (weight_of (<[p := e]> E)) (elements X) = sumZ (weight_of E) (elements X).
Proof.
  intros Hp. unfold sumZ. assert (∀ k, p ∉ k →
    foldr (λ x acc, weight_of (<[p := e]> E) x + acc) 0 k =
    foldr (λ x acc, weight_of E x + acc) 0 k) as Hk.
  { induction k as [|x k IH]; intros Hk; [done|]. simpl. apply not_elem_of_cons in Hk as [Hx Hk].
    rewrite IH by done. unfold weight_of at 1. by rewrite lookup_insert_ne. }
  apply Hk. by rewrite elem_of_elements.
Qed.

Definition buddies (q : cfs_rq) : list (option se_ptr) := [c_next q; c_last q; c_skip q].

(** The tree of [q] is the list [l], with its first element cached. *)
Definition timeline (q : cfs_rq) (l : list Z) : Prop :=
  inorder (tasks_timeline q) = TaskSe <$> l ∧ rb_leftmost q = TaskSe <$> head l.

Lemma queue_ok_buddies E q l x :
  queue_ok E q l → Some x ∈ buddies q → ∃ p, x = TaskSe p ∧ p ∈ queued_set E.
Proof.
  intros Hq Hx. apply (qo_buddies _ _ _ Hq). unfold buddies in Hx.
  rewrite !elem_of_cons in Hx. destruct Hx as [?|[?|[?|[]%elem_of_nil]]]; auto.
Qed.

(** An entity joins the queue: on the time line, unless it is the current one. *)
Lemma queue_ok_join E q l p e e' q' l' :
  queue_ok E q l → E !! p = Some e → se_on_rq e = 0 → links e' = links (e <| se_on_rq := 1 |>) →
  l' ≡ₚ (if decide (c_curr q = Some (TaskSe p)) then l else p :: l) →
  timeline q' l' → c_curr q' = c_curr q → buddies q' = buddies q →
  c_nr_running q' = u32 (c_nr_running q + 1) →
  weight (c_load q') = u32 (weight (c_load q) + weight (load e)) →
  queue_ok (<[p := e']> E) q' l'.
Proof.
  intros Hq He Ho Hl Hp [Ht1 Ht2] Hc Hb Hn Hw. injection Hl as Hld Hon Hpar Hcf Hmy.
  assert (p ∉ queued_set E) as Hnq by (rewrite elem_of_queued; intros (? & ? & ?); simplify_eq; lia).
  assert (p ∉ l) as Hnl by (rewrite (qo_mem _ _ _ Hq); tauto).
  pose proof (queued_set_join E p e' Hon) as Hset.
  pose proof (not_queued_size E p e He Hnq) as Hsz. pose proof (qo_size _ _ _ Hq) as Hsz'.
  split; rewrite ?Hset, ?Hc; try done.
  - intros x ex Hx. apply lookup_insert_Some in Hx as [[<- <-]|[_ Hx]].
    + destruct (qo_entities _ _ _ Hq p e He). split; simpl in *; try congruence. by right.
    + by apply (qo_entities _ _ _ Hq x).
  - rewrite Hp. case_decide; [apply Hq|]. constructor; [done|apply Hq].
  - intros x. rewrite Hp, elem_of_union, elem_of_singleton. case_decide as Hd.
    + rewrite (qo_mem _ _ _ Hq). split; [tauto|]. intros [[->|?] ?]; tauto.
    + rewrite elem_of_cons, (qo_mem _ _ _ Hq). split; [|tauto]. intros [->|[? ?]]; tauto.
  - intros x Hx. destruct (qo_curr _ _ _ Hq x Hx) as (y & -> & Hy). exists y. split; [done|].
    apply lookup_insert_is_Some. destruct (decide (p = y)); auto.
  - injection Hb as -> -> ->. intros x Hx. destruct (qo_buddies _ _ _ Hq x Hx) as (y & -> & ?).
    exists y. set_solver.
  - rewrite Hn, (qo_nr _ _ _ Hq), size_union, size_singleton by set_solver.
    rewrite uwrap_small; widths; lia.
  - rewrite Hw, (qo_load _ _ _ Hq).
    rewrite (sumZ_perm _ _ _ (elements_union_singleton _ _ Hnq)). simpl.
    rewrite sum_weight_insert by done. unfold weight_of at 2. rewrite lookup_insert_eq.
    rewrite uwrap_add_l. f_equal. rewrite Hld. simpl. lia.
  - rewrite map_size_insert_Some by (by eexists). done.
Qed.

(** And leaves it, together with every mark of it as a buddy. *)
Lemma queue_ok_leave E q l p e e' q' l' :
  queue_ok E q l → E !! p = Some e → se_on_rq e = 1 → links e' = links (e <| se_on_rq := 0 |>) →
  l' = (if decide (c_curr q = Some (TaskSe p)) then l else remove_one p l) →
  timeline q' l' → c_curr q' = c_curr q →
  (∀ x, Some x ∈ buddies q' → Some x ∈ buddies q ∧ x ≠ TaskSe p) →
  c_nr_running q' = u32 (c_nr_running q - 1) →
  weight (c_load q') = u32 (weight (c_load q) - weight (load e)) →
  queue_ok (<[p := e']> E) q' l'.
Proof.
  intros Hq He Ho Hl Hp [Ht1 Ht2] Hc Hb Hn Hw. injection Hl as Hld Hon Hpar Hcf Hmy.
  assert (p ∈ queued_set E) as Hqd by (rewrite elem_of_queued; eauto).
  pose proof (queued_set_leave E p e' ltac:(simpl in Hon; lia)) as Hset.
  pose proof (queued_size E) as Hsz. pose proof (qo_size _ _ _ Hq) as Hsz'.
  assert (queued_set E = {[p]} ∪ queued_set E ∖ {[p]}) as Hdec
    by (apply set_eq; intros x; destruct (decide (x = p)); set_solver).
  assert (p ∉ queued_set E ∖ {[p]}) as Hnot by set_solver.
  split; rewrite ?Hset, ?Hc; try done.
  - intros x ex Hx. apply lookup_insert_Some in Hx as [[<- <-]|[_ Hx]].
    + destruct (qo_entities _ _ _ Hq p e He). split; simpl in *; try congruence. by left.
    + by apply (qo_entities _ _ _ Hq x).
  - rewrite Hp. case_decide; [apply Hq|]. apply remove_keeps_nodup, Hq.
  - intros x. rewrite Hp, elem_of_difference, elem_of_singleton. case_decide as Hd.
    + rewrite (qo_mem _ _ _ Hq). split; [|tauto]. intros [? Hx]. split_and!; try done. congruence.
    + rewrite remove_one_elem, (qo_mem _ _ _ Hq) by apply Hq. tauto.
  - intros x Hx. destruct (qo_curr _ _ _ Hq x Hx) as (y & -> & Hy). exists y. split; [done|].
    apply lookup_insert_is_Some. destruct (decide (p = y)); auto.
  - intros x Hx. destruct (Hb x) as [Hx' Hne]; [unfold buddies; rewrite !elem_of_cons; destruct Hx as [?|[?|?]]; auto|].
    destruct (queue_ok_buddies _ _ _ x Hq Hx') as (y & -> & ?). exists y. set_solver.
  - rewrite Hn, (qo_nr _ _ _ Hq). rewrite Hdec at 1.
    rewrite size_union, size_singleton by set_solver.
    rewrite Hdec, size_union, size_singleton in Hsz by set_solver. rewrite uwrap_small; widths; lia.
  - rewrite Hw, (qo_load _ _ _ Hq). rewrite Hdec at 1.
    rewrite (sumZ_perm _ _ _ (elements_union_singleton _ _ Hnot)). simpl.
    rewrite sum_weight_insert by done. unfold weight_of at 1. rewrite He.
    rewrite uwrap_sub_l. f_equal. lia.
  - rewrite map_size_insert_Some by (by eexists). done.
Qed.

(** An entity moves between the time line and the place of the current one. *)
Lemma queue_ok_move E q l q' l' :
  queue_ok E q l → timeline q' l' → NoDup l' →
  (∀ p, p ∈ l' ↔ p ∈ queued_set E ∧ c_curr q' ≠ Some (TaskSe p)) →
  (∀ x, c_curr q' = Some x → ∃ p, x = TaskSe p ∧ is_Some (E !! p)) →
  buddies q' = buddies q → c_nr_running q' = c_nr_running q →
  weight (c_load q') = weight (c_load q) → queue_ok E q' l'.
Proof.
  intros [] [] Hnd Hm Hc Hb Hn Hw. split; rewrite ?Hn, ?Hw; try done.
  injection Hb as -> -> ->. done.
Qed.

(** ** The order of the time line

    Virtual run times are compared by the sign of their difference in 64 bits, so
    their order is that of the keys [vruntime - base] as long as these lie in a
    window of half the range. *)

Definition key (base : Z) (E : entities) (p : Z) : Z :=
  match E !! p with Some e => s64 (vruntime e - base) | None => 0 end.

Definition near (base : Z) (E : entities) (l : list Z) : Prop :=
  ∀ p, p ∈ l → - 2 ^ 62 ≤ key base E p < 2 ^ 62.

Definition sorted (base : Z) (E : entities) (l : list Z) : Prop :=
  StronglySorted Z.le (key base E <$> l).

Lemma s64_diff a b base :
  - 2 ^ 62 ≤ s64 (a - base) < 2 ^ 62 → - 2 ^ 62 ≤ s64 (b - base) < 2 ^ 62 →
  s64 (a - b) = s64 (a - base) - s64 (b - base).
Proof.
  intros Ha Hb. change (2 ^ 62) with 4611686018427387904 in *.
  rewrite <- (swrap_small 64 ltac:(lia) (s64 (a - base) - s64 (b - base))) by (widths; lia).
  rewrite swrap_sub_l.
  replace (a - base - s64 (b - base)) with (- s64 (b - base) - (base - a)) by lia.
  replace (- s64 (b - base) - (base - a)) with (0 - s64 (b - base) + (a - base)) by lia.
  unfold swrap. f_equal.
  replace (0 - ((b - base + 2 ^ (64 - 1)) mod 2 ^ 64 - 2 ^ (64 - 1)) + (a - base) + 2 ^ (64 - 1))
    with (a - base + 2 ^ 64 - (b - base + 2 ^ (64 - 1)) mod 2 ^ 64) by (widths; lia).
  rewrite Zminus_mod_idemp_r.
  replace (a - base + 2 ^ 64 - (b - base + 2 ^ (64 - 1))) with (a - b + 2 ^ (64 - 1)) by (widths; lia).
  done.
Qed.

Lemma before_key base E l p x e ex :
  near base E l → p ∈ l → x ∈ l → E !! p = Some e → E !! x = Some ex →
  entity_before e ex = (key base E p <? key base E x).
Proof.
  intros Hn Hp Hx He Hex. pose proof (Hn p Hp) as H1. pose proof (Hn x Hx) as H2.
  unfold entity_before, key in *. rewrite He, Hex in *.
  rewrite (s64_diff _ _ base) by done.
  destruct (Z.ltb_spec (s64 (vruntime e - base)) (s64 (vruntime ex - base))); lia.
Qed.

Lemma sorted_cons base E x l :
  sorted base E (x :: l) ↔ sorted base E l ∧ ∀ y, y ∈ l → key base E x ≤ key base E y.
Proof.
  unfold sorted. rewrite fmap_cons. split.
  - intros [? Hx]%StronglySorted_inv. by rewrite Forall_fmap, Forall_forall in Hx.
  - intros [? Hx]. constructor; [done|]. by apply Forall_fmap, Forall_forall.
Qed.

Lemma sorted_app base E l1 l2 :
  sorted base E (l1 ++ l2) ↔ sorted base E l1 ∧ sorted base E l2 ∧
  ∀ x y, x ∈ l1 → y ∈ l2 → key base E x ≤ key base E y.
Proof.
  induction l1 as [|z l1 IH]; simpl.
  - split; [|tauto]. intros Hs. split_and!; [constructor|done|]. by intros x y ?%elem_of_nil.
  - rewrite !sorted_cons, IH. split.
    + intros ((Hs1 & Hs2 & H12) & Hz). split_and!; try done; [set_solver|].
      intros x y [->|Hx]%elem_of_cons Hy; [set_solver|by apply H12].
    + intros ((Hs1 & Hz) & Hs2 & H12). split_and!; try done; [set_solver|].
      intros y [Hy|Hy]%elem_of_app; set_solver.
Qed.

Lemma sorted_insert base E l1 p l2 :
  sorted base E (l1 ++ l2) → (∀ x, x ∈ l1 → key base E x ≤ key base E p) →
  (∀ x, x ∈ l2 → key base E p ≤ key base E x) → sorted base E (l1 ++ p :: l2).
Proof.
  rewrite !sorted_app, sorted_cons. intros (Hs1 & Hs2 & H12) H1 H2. split_and!; try done.
  intros x y Hx [->|Hy]%elem_of_cons; [by apply H1|by apply H12].
Qed.

Lemma sorted_remove base E p l : sorted base E l → sorted base E (remove_one p l).
Proof.
  assert (∀ k y, y ∈ remove_one p k → y ∈ k) as Hsub.
  { induction k as [|z k IH]; intros y; simpl; [done|]. case_decide; set_solver. }
  induction l as [|x l IH]; simpl; [done|]. rewrite sorted_cons. intros [Hs Hx].
  case_decide; [done|]. apply sorted_cons. split; [by apply IH|]. intros y Hy. by apply Hx, Hsub.
Qed.

Section Line.
Context {Y : Type} `{FairEnv Y}.
Implicit Types (r : rq Y).

(** The descent of [__enqueue_entity] links the new leaf somewhere in the list,
    at its place when the list is sorted. *)
Lemma rule_rb_link r0 r E q n p e t l lm Q :
  holds r0 r E q n → E !! p = Some e → inorder t = TaskSe <$> l →
  (∀ x, x ∈ l → is_Some (E !! x)) →
  (∀ t' l1 l2, l = l1 ++ l2 → inorder t' = TaskSe <$> (l1 ++ p :: l2) →
    (∀ base, near base E (p :: l) → sorted base E l → sorted base E (l1 ++ p :: l2)) →
    Q (t', lm && bool_decide (l1 = [])) r) →
  returns (rb_link (TaskSe p) e lm t) r Q.
Proof.
  intros Hs He. revert l lm Q. induction t as [|tl IHl x tr IHr]; intros l lm Q Hin Hdom HQ.
  { apply returns_ret. symmetry in Hin. apply fmap_nil_inv in Hin as ->.
    specialize (HQ (rb_node RB_ROOT (TaskSe p) RB_ROOT) [] [] eq_refl eq_refl).
    rewrite andb_true_r in HQ. apply HQ. intros base _ _. repeat constructor. }
  simpl in Hin. symmetry in Hin. apply fmap_app_inv in Hin as (l1 & l' & Hl1 & Hl' & ->).
  symmetry in Hl'. apply fmap_cons_inv in Hl' as (px & l2 & -> & Hl2 & ->).
  destruct (Hdom px) as [ex Hex]; [set_solver|].
  assert (∀ base k, near base E (p :: l1 ++ px :: l2) → (∀ x, x ∈ k → x ∈ l1 ++ px :: l2) →
            near base E (p :: k)) as Hsub by (intros base k Hn Hk x Hx; apply Hn; set_solver).
  cbn [rb_link]. do 2 fstep.
  fstep.
  - fstep. apply (IHl l1); [done|set_solver|]. intros t' k1 k2 -> Hin Hso. fstep. simpl.
    rewrite <- app_assoc in HQ. apply (HQ (rb_node t' (TaskSe px) tr) k1 (k2 ++ px :: l2)); [done| |].
    + simpl. by rewrite Hin, Hl2, <- fmap_cons, <- fmap_app, <- app_assoc.
    + intros base Hn Hs0. rewrite (before_key base E (p :: (k1 ++ k2) ++ px :: l2) p px) in Hb;
        [|by rewrite <- app_assoc|set_solver|set_solver|done|done].
      bsimp. rewrite app_assoc in Hs0. pose proof (proj1 (sorted_app _ _ _ _) Hs0) as (H1 & H2 & H12).
      specialize (Hso base (Hsub base (k1 ++ k2) ltac:(by rewrite <- app_assoc) ltac:(set_solver)) H1).
      apply sorted_app in Hso as (Hk1 & [Hk2 Hk2']%sorted_cons & Hk12). apply sorted_cons in H2 as [_ H2].
      apply sorted_insert; [by rewrite app_assoc|set_solver|].
      intros x Hx. rewrite elem_of_app, elem_of_cons in Hx. destruct Hx as [Hx|[->|Hx]];
        [by apply Hk2'|lia|]. specialize (H2 x Hx). lia.
  - fstep. apply (IHr l2); [done|set_solver|]. intros t' k1 k2 -> Hin Hso. fstep. simpl.
    specialize (HQ (rb_node tl (TaskSe px) t') (l1 ++ px :: k1) k2).
    rewrite (bool_decide_eq_false_2 (l1 ++ px :: k1 = [])), andb_false_r in HQ by (by destruct l1).
    apply HQ; [by rewrite <- app_assoc| |].
    + simpl. by rewrite Hin, Hl1, <- fmap_cons, <- fmap_app, <- app_assoc.
    + intros base Hn Hs0. rewrite (before_key base E (p :: l1 ++ px :: k1 ++ k2) p px) in Hb;
        [|done|set_solver|set_solver|done|done].
      bsimp. pose proof (proj1 (sorted_app _ _ _ _) Hs0) as (H1 & [H2 Hx]%sorted_cons & H12).
      specialize (Hso base (Hsub base (k1 ++ k2) Hn ltac:(set_solver)) H2).
      apply sorted_app in Hso as (Hk1 & [Hk2 Hk2']%sorted_cons & Hk12).
      apply sorted_insert; [by rewrite <- app_assoc| |done].
      intros x. rewrite elem_of_app, elem_of_cons. intros [Hy|[->|Hy]]; [|lia|set_solver].
      specialize (H12 x px Hy ltac:(left)). lia.
Qed.
End Line.

(** ** Operations on entities *)

Section Ops.
Context {Y : Type} `{FairEnv Y} `{!RbLaws} (Hbw : cfs_bandwidth_used = false).
Implicit Types (r : rq Y).

Lemma rule_enqueue_line r0 r E q n p e l Q :
  holds r0 r E q n → E !! p = Some e → inorder (tasks_timeline q) = TaskSe <$> l →
  rb_leftmost q = TaskSe <$> head l → (∀ x, x ∈ l → is_Some (E !! x)) →
  (∀ r' t' l1 l2, l = l1 ++ l2 → inorder t' = TaskSe <$> (l1 ++ p :: l2) →
    (∀ base, near base E (p :: l) → sorted base E l → sorted base E (l1 ++ p :: l2)) →
    holds r0 r' E (q <| rb_leftmost := TaskSe <$> head (l1 ++ p :: l2) |>
                     <| tasks_timeline := t' |>) n → Q tt r') →
  returns (__enqueue_entity 0 (TaskSe p)) r Q.
Proof.
  intros Hs He Hin Hlm Hdom HQ. unfold __enqueue_entity. do 5 fstep.
  eapply rule_rb_link; [exact Hs|exact He|exact Hin|exact Hdom|].
  intros t' l1 l2 -> Hin' Hso. rewrite andb_true_l. cbn [fst snd]. fstep.
  specialize (HQ); destruct l1 as [|y l1].
  - rewrite bool_decide_eq_true_2 by done. do 2 fstep.
    eapply (HQ r _ [] l2); [done| |done|exact Hs]. by rewrite rb_insert_law.
  - rewrite bool_decide_eq_false_2 by done. do 2 fstep.
    eapply (HQ r _ (y :: l1) l2); [done|by rewrite rb_insert_law|done|].
    simpl in Hlm. simpl. rewrite <- Hlm. by destruct q.
Qed.

Lemma rule_dequeue_line r0 r E q n p l Q :
  holds r0 r E q n → inorder (tasks_timeline q) = TaskSe <$> l →
  rb_leftmost q = TaskSe <$> head l → NoDup l →
  (∀ r' t', inorder t' = TaskSe <$> remove_one p l →
    holds r0 r' E (q <| rb_leftmost := TaskSe <$> head (remove_one p l) |>
                     <| tasks_timeline := t' |>) n → Q tt r') →
  returns (__dequeue_entity 0 (TaskSe p)) r Q.
Proof.
  intros Hs Hin Hlm Hnd HQ. unfold __dequeue_entity. do 3 fstep.
  assert (NoDup (inorder (tasks_timeline q))) as Hnd' by (rewrite Hin; by apply (NoDup_fmap_2 TaskSe)).
  assert (inorder (rb_erase (TaskSe p) (tasks_timeline q)) = TaskSe <$> remove_one p l) as Her
    by (rewrite rb_erase_law by done; rewrite Hin; apply (remove_one_fmap TaskSe)).
  assert (rb_leftmost q = Some (TaskSe p) ↔ head l = Some p) as Hhd
    by (rewrite Hlm; destruct (head l); simpl; split; congruence).
  rewrite head_remove in HQ.
  destruct (decide (rb_leftmost q = Some (TaskSe p))) as [Hd|Hd].
  - do 2 fstep. eapply (HQ r); [exact Her|].
    rewrite decide_True by (by apply Hhd).
    rewrite rb_next_law, Hin, (next_in_fmap TaskSe) in Hs by done. exact Hs.
  - do 2 fstep. eapply (HQ r); [exact Her|].
    rewrite decide_False by (by rewrite <- Hhd).
    rewrite <- Hlm. by destruct q.
Qed.

Lemma next_min_ext E E' q :
  (∀ x, vruntime <$> E !! x = vruntime <$> E' !! x) → advance E q = advance E' q.
Proof.
  intros Hv. assert (∀ x, vruntime_of E x = vruntime_of E' x) as Hx.
  { intros [[x|]|]; [apply Hv|done|done]. }
  unfold advance, next_min_vruntime. by rewrite !Hx.
Qed.

Lemma rule_account_runtime r0 r E q n d Q :
  holds r0 r E q n → Q tt r → returns (account_cfs_rq_runtime 0 d) r Q.
Proof.
  intros Hs HQ. unfold account_cfs_rq_runtime. do 2 fstep. rewrite Hbw. simpl. by fstep.
Qed.

Lemma rule_update_curr r0 r E q n l Q :
  holds r0 r E q n → queue_ok E q l →
  (∀ r', holds r0 r' (run_curr (clock_task r0) E q).1 (run_curr (clock_task r0) E q).2 n →
    Q tt r') →
  returns (update_curr 0) r Q.
Proof.
  intros Hs Hq HQ. unfold update_curr, run_curr in *. do 4 fstep.
  destruct (c_curr q) as [x|] eqn:Hc; [|fstep; by apply HQ].
  destruct (qo_curr _ _ _ Hq x Hc) as (p & -> & e & He). rewrite He in HQ. do 2 fstep.
  cbv zeta in *. destruct (u32 _ =? 0); [fstep; by apply HQ|]. fstep.
  unfold __update_curr. do 3 fstep.
  eapply rule_calc_delta_fair; [exact Hs|look|apply (qo_entities _ _ _ Hq p e He)|].
  clear Hs r. intros r Hs. do 2 fstep. rewrite insert_insert_eq in Hs.
  set (d := u32 (clock_task r0 - exec_start e)) in *.
  eapply rule_update_min_vruntime; [exact Hs| | |].
  - intros x Hx. rewrite Hc in Hx. injection Hx as <-. exists p. split; [done|].
    rewrite lookup_insert_eq. by eexists.
  - intros x Hx. destruct (left_lookup _ _ _ x Hq Hx) as (p' & -> & ?). exists p'.
    split; [done|]. apply lookup_insert_is_Some. destruct (decide (p = p')); auto.
  - clear Hs r. intros r Hs. do 2 fstep. rewrite insert_insert_eq in Hs.
    eapply rule_account_runtime; [exact Hs|]. apply HQ. simpl.
    erewrite next_min_ext; [exact Hs|]. intros x. destruct (decide (x = p)) as [->|Hne].
    + by rewrite !lookup_insert_eq.
    + by rewrite !lookup_insert_ne.
Qed.

(** [q] without its marks of [p]. *)
Definition unmark (p : Z) (q : cfs_rq) : cfs_rq :=
  q <| c_last := if decide (c_last q = Some (TaskSe p)) then None else c_last q |>
    <| c_next := if decide (c_next q = Some (TaskSe p)) then None else c_next q |>
    <| c_skip := if decide (c_skip q = Some (TaskSe p)) then None else c_skip q |>.

Lemma unmark_buddies p q x :
  Some x ∈ buddies (unmark p q) → Some x ∈ buddies q ∧ x ≠ TaskSe p.
Proof.
  unfold buddies, unmark. simpl. rewrite !elem_of_cons.
  intros [Hx|[Hx|[Hx|[]%elem_of_nil]]]; case_decide; try done; split; auto; congruence.
Qed.

Lemma set_same (q : cfs_rq) :
  q <| c_last := c_last q |> = q ∧ q <| c_next := c_next q |> = q ∧ q <| c_skip := c_skip q |> = q.
Proof. by destruct q. Qed.

Lemma queue_ok_unmark E q l p : queue_ok E q l → queue_ok E (unmark p q) l.
Proof.
  intros Hq. pose proof (queue_ok_buddies E q l) as Hb. pose proof (unmark_buddies p q) as Hu.
  destruct Hq. split; try done. intros x Hx. apply Hb; [by split|]. apply Hu. unfold buddies.
  rewrite !elem_of_cons. destruct Hx as [?|[?|?]]; auto.
Qed.

(** The loop of the three functions that clear one kind of buddy. *)
Lemma rule_clear_loop (mark : cfs_rq → option se_ptr) clear r0 r E q n p e Q :
  holds r0 r E q n → E !! p = Some e → flat_entity e → mark q = Some (TaskSe p) →
  (∀ r', holds r0 r' E (clear q) n → Q tt r') →
  returns (n ← depth_bound;
           _ ← for_each_sched_entity n
                 (λ _ x, c ← cfs_rq_of x;
                         q ← load_cfs c;
                         if decide (mark q = Some x)
                         then _ ← store_cfs c clear; mret (true, tt)
                         else mret (false, tt)) tt (Some (TaskSe p));
           mret tt) r Q.
Proof.
  intros Hs He [] Hl HQ. do 3 fstep. eapply rule_ancestors; [exact Hs|]. fstep.
  eapply rule_cfs_rq_of; [exact Hs|exact He|done|]. do 2 fstep.
  rewrite decide_True by done. do 3 fstep. do 4 eexists. split_and!; [exact Hs|exact He|done|].
  fstep. by apply HQ.
Qed.

Lemma rule_clear_buddies r0 r E q n p e Q :
  holds r0 r E q n → E !! p = Some e → flat_entity e →
  (∀ r', holds r0 r' E (unmark p q) n → Q tt r') → returns (clear_buddies 0 (TaskSe p)) r Q.
Proof.
  intros Hs He Hf HQ. unfold clear_buddies. do 3 fstep.
  set (q1 := q <| c_last := if decide (c_last q = Some (TaskSe p)) then None else c_last q |>).
  set (q2 := q1 <| c_next := if decide (c_next q = Some (TaskSe p)) then None else c_next q |>).
  apply (returns_mono _ _ (λ _ r', holds r0 r' E q1 n)).
  { unfold q1. destruct (decide _) as [Hd|Hd]; [|fstep; by rewrite (proj1 (set_same q))].
    by eapply (rule_clear_loop c_last). }
  clear Hs r. intros _ r Hs. do 3 fstep.
  apply (returns_mono _ _ (λ _ r', holds r0 r' E q2 n)).
  { unfold q2. change (c_next q1) with (c_next q).
    destruct (decide (c_next q = _)) as [Hd|Hd];
      [|fstep; change (c_next q) with (c_next q1); by rewrite (proj1 (proj2 (set_same q1)))].
    by eapply (rule_clear_loop c_next). }
  clear Hs r. intros _ r Hs. do 2 fstep. change (c_skip q2) with (c_skip q).
  unfold unmark in HQ. fold q1 in HQ.
  destruct (decide (c_skip q = _)) as [Hd|Hd]; [by eapply (rule_clear_loop c_skip)|].
  fstep. apply HQ. fold q2. change (c_skip q) with (c_skip q2).
  by rewrite (proj2 (proj2 (set_same q2))).
Qed.

Lemma rule_parent r0 r E q n p e Q :
  holds r0 r E q n → E !! p = Some e → se_parent e = None → Q None r →
  returns (parent_entity (TaskSe p)) r Q.
Proof. intros Hs He Hp HQ. unfold parent_entity. do 3 fstep. by rewrite Hp. Qed.

(** Accounting an entity that joins or leaves. *)
Lemma rule_account_enqueue r0 r E q n p e Q :
  holds r0 r E q n → E !! p = Some e → se_parent e = None →
  (∀ r', holds r0 r' E (q <| c_load := update_load_add (c_load q) (weight (load e)) |>
                          <| c_nr_running := u32 (c_nr_running q + 1) |>) n → Q tt r') →
  returns (account_entity_enqueue 0 (TaskSe p)) r Q.
Proof.
  intros Hs He Hp HQ. unfold account_entity_enqueue. do 5 fstep.
  eapply rule_parent; [exact Hs|exact He|done|]. fstep.
  eapply rule_modify; [exact Hs|done|]. clear Hs r. intros r Hs. fstep. by apply HQ.
Qed.

Lemma rule_account_dequeue r0 r E q n p e Q :
  holds r0 r E q n → E !! p = Some e → se_parent e = None →
  (∀ r', holds r0 r' E (q <| c_load := update_load_sub (c_load q) (weight (load e)) |>
                          <| c_nr_running := u32 (c_nr_running q - 1) |>) n → Q tt r') →
  returns (account_entity_dequeue 0 (TaskSe p)) r Q.
Proof.
  intros Hs He Hp HQ. unfold account_entity_dequeue. do 5 fstep.
  eapply rule_parent; [exact Hs|exact He|done|]. fstep.
  eapply rule_modify; [exact Hs|done|]. clear Hs r. intros r Hs. fstep. by apply HQ.
Qed.

(** The root group is no entity of another one. *)
Definition root_group (r : rq Y) : Prop :=
  ∃ g, groups r !! 0 = Some g ∧ tg_se g = None ∧ tg_parent g = None.

Lemma rule_load_root r0 r E q n Q :
  holds r0 r E q n → root_group r0 →
  (∀ g, tg_se g = None → tg_parent g = None → Q g r) → returns (load_group 0) r Q.
Proof.
  intros Hs (g & Hg & Hse & Hpar) HQ. exists g, r. split; [|by apply HQ].
  rewrite <- (holds_field groups r0 r E q n Hs) in Hg by done.
  unfold load_group. mstep. by rewrite Hg.
Qed.

Lemma rule_root_shares r0 r E q n Q :
  holds r0 r E q n → root_group r0 → Q tt r → returns (update_cfs_shares 0) r Q.
Proof.
  intros Hs Hr HQ. unfold update_cfs_shares. fstep. eapply rule_load_root; [exact Hs|exact Hr|].
  intros g Hse _. unfold throttled_hierarchy. do 4 fstep. rewrite Hse. by fstep.
Qed.

Lemma rule_add_leaf r0 r E q n Q :
  holds r0 r E q n → root_group r0 →
  (∀ r', holds r0 r' E (q <| on_list := true |>) n → Q tt r') →
  returns (list_add_leaf_cfs_rq 0) r Q.
Proof.
  intros Hs Hr HQ. unfold list_add_leaf_cfs_rq. do 3 fstep.
  - fstep. apply HQ. rewrite <- Hb. by destruct q.
  - fstep. eapply rule_load_root; [exact Hs|exact Hr|]. intros g _ Hpar. rewrite Hpar.
    do 3 fstep. eapply rule_modify; [exact Hs|done|]. clear Hs r. intros r Hs. fstep. by apply HQ.
Qed.

(** The credit a sleeper gets. *)
Definition sleeper_credit (tn : tunables) : Z :=
  if feat_GENTLE_FAIR_SLEEPERS then Z.shiftr (sysctl_sched_latency tn) 1
  else sysctl_sched_latency tn.

Definition placed (tn : tunables) (q : cfs_rq) (e : sched_entity) : sched_entity :=
  e <| vruntime := max_vruntime (vruntime e) (u64 (min_vruntime q - sleeper_credit tn)) |>.

Lemma rule_place_sleeper r0 r E q n p e Q :
  holds r0 r E q n → E !! p = Some e →
  (∀ r', holds r0 r' (<[p := placed (tun r0) q e]> E) q n → Q tt r') →
  returns (place_entity 0 (TaskSe p) false) r Q.
Proof. intros Hs He HQ. unfold place_entity. do 3 fstep. cbn [andb]. do 4 fstep. by apply HQ. Qed.

(** *** An entity is queued *)

(** The virtual run time becomes absolute again, unless the entity wakes up. *)
Definition renormalised (flags : Z) (q : cfs_rq) (e : sched_entity) : sched_entity :=
  if has_flag flags ENQUEUE_WAKEUP then e
  else e <| vruntime := u64 (vruntime e + min_vruntime q) |>.

(** The time line with [p] somewhere in it. *)
Definition inserted (p : Z) (l l' : list Z) : Prop := ∃ l1 l2, l = l1 ++ l2 ∧ l' = l1 ++ p :: l2.

Record joined (flags now : Z) (tn : tunables) (E : entities) (q : cfs_rq) (l : list Z) (p : Z)
    (e : sched_entity) (E' : entities) (q' : cfs_rq) (l' : list Z) : Prop := {
  j_ok : queue_ok E' q' l';
  j_entities : let s := run_curr now (<[p := renormalised flags q e]> E) q in
    ∃ e2, s.1 !! p = Some e2 ∧
      E' = <[p := (if has_flag flags ENQUEUE_WAKEUP then placed tn s.2 e2 else e2)
                    <| se_on_rq := 1 |>]> s.1;
  j_line : if decide (c_curr q = Some (TaskSe p)) then l' = l else inserted p l l';
  j_sorted : ∀ base, near base E' (p :: l) → sorted base E' l → sorted base E' l';
  j_min : min_vruntime q' = min_vruntime (run_curr now (<[p := renormalised flags q e]> E) q).2;
  j_curr : c_curr q' = c_curr q;
  j_h : h_nr_running q' = h_nr_running q;
  j_buddies : buddies q' = buddies q
}.

Lemma key_ext base (E E' : entities) :
  (∀ x, vruntime <$> E !! x = vruntime <$> E' !! x) → ∀ x, key base E x = key base E' x.
Proof.
  intros Hv x. specialize (Hv x). unfold key. destruct (E !! x), (E' !! x); simplify_eq/=; congruence.
Qed.

Lemma sorted_ext base (E E' : entities) l :
  (∀ x, vruntime <$> E !! x = vruntime <$> E' !! x) →
  (sorted base E l ↔ sorted base E' l) ∧ (near base E l ↔ near base E' l).
Proof.
  intros Hv. pose proof (key_ext base E E' Hv) as Hk. unfold sorted, near. split.
  - by rewrite (list_fmap_ext _ (key base E') l) by auto.
  - by setoid_rewrite Hk.
Qed.

Lemma vruntime_insert (E : entities) p e e' x :
  E !! p = Some e → vruntime e' = vruntime e →
  vruntime <$> <[p := e']> E !! x = vruntime <$> E !! x.
Proof.
  intros He Hv. destruct (decide (x = p)) as [->|Hne].
  - rewrite lookup_insert_eq, He. simpl. by rewrite Hv.
  - by rewrite lookup_insert_ne.
Qed.

(** The part of [enqueue_entity] after the accounting: time line and flag. *)
Lemma rule_enqueue_tail r0 r E q n l p e Q :
  holds r0 r E q n → root_group r0 → E !! p = Some e → timeline q l →
  (∀ x, x ∈ l → is_Some (E !! x)) →
  (∀ r' t' l' ol,
    (if decide (c_curr q = Some (TaskSe p)) then l' = l else inserted p l l') →
    (∀ base, near base E (p :: l) → sorted base E l → sorted base E l') →
    let q' := q <| rb_leftmost := TaskSe <$> head l' |> <| tasks_timeline := t' |>
                <| on_list := ol |> in
    timeline q' l' → holds r0 r' (<[p := e <| se_on_rq := 1 |>]> E) q' n → Q tt r') →
  returns (q0 ← load_cfs 0;
           _ ← (if decide (c_curr q0 = Some (TaskSe p)) then mret tt
                else __enqueue_entity 0 (TaskSe p));
           _ ← store_se (TaskSe p) (λ e, e <| se_on_rq := 1 |>);
           q0 ← load_cfs 0;
           if c_nr_running q0 =? 1 then
             _ ← list_add_leaf_cfs_rq 0; check_enqueue_throttle 0
           else mret tt) r Q.
Proof.
  intros Hs Hroot He [Hin Hlm] Hdom HQ. do 3 fstep.
  apply (returns_mono _ _ (λ _ r', ∃ t' l',
    (if decide (c_curr q = Some (TaskSe p)) then l' = l else inserted p l l') ∧
    (∀ base, near base E (p :: l) → sorted base E l → sorted base E l') ∧
    inorder t' = TaskSe <$> l' ∧
    holds r0 r' E (q <| rb_leftmost := TaskSe <$> head l' |> <| tasks_timeline := t' |>) n)).
  { destruct (decide _).
    - fstep. exists (tasks_timeline q), l. split_and!; try done. rewrite <- Hlm. by destruct q.
    - eapply rule_enqueue_line; [exact Hs|exact He|done|done|done|].
      intros r' t' l1 l2 -> Hin' Hso Hs'. exists t', (l1 ++ p :: l2). split_and!; try done.
      by exists l1, l2. }
  clear Hs r. intros _ r (t' & l' & Hl & Hso & Hin' & Hs). do 5 fstep.
  - fstep. eapply rule_add_leaf; [exact Hs|done|]. clear Hs r. intros r Hs.
    unfold check_enqueue_throttle. rewrite Hbw. simpl. fstep.
    by eapply (HQ r t' l' true).
  - fstep. by eapply (HQ r t' l' (on_list q)).
Qed.

Lemma queue_ok_dom E q l x : queue_ok E q l → x ∈ l → is_Some (E !! x).
Proof. intros Hq Hx. apply (qo_mem _ _ _ Hq) in Hx as [Hx _]. by apply queued_lookup. Qed.

(** The entity on its way to the queue, before it is placed. *)
Lemma renormalised_links flags q e : links (renormalised flags q e) = links e.
Proof. unfold renormalised. by destruct (has_flag _ _). Qed.

Definition start_join (flags now : Z) (E : entities) (q : cfs_rq) (p : Z) (e : sched_entity) :=
  run_curr now (<[p := renormalised flags q e]> E) q.

Lemma start_join_ok flags now E q l p e :
  queue_ok E q l → E !! p = Some e →
  queue_ok (<[p := renormalised flags q e]> E) q l ∧
  queue_ok (start_join flags now E q p e).1 (start_join flags now E q p e).2 l ∧
  shape (start_join flags now E q p e).2 = shape q ∧
  ∃ e2, (start_join flags now E q p e).1 !! p = Some e2 ∧ links e2 = links e.
Proof.
  intros Hq He. assert (queue_ok (<[p := renormalised flags q e]> E) q l) as Hq1.
  { eapply queue_ok_quiet; [exact Hq| |done].
    eapply same_links_insert; [done|apply renormalised_links]. }
  split_and!; [done|by apply queue_ok_run|apply run_curr_shape|].
  destruct (run_curr_lookup now (<[p := renormalised flags q e]> E) q p _ (lookup_insert_eq _ _ _))
    as (e2 & He2 & Hl2 & _). exists e2. split; [done|]. by rewrite Hl2, renormalised_links.
Qed.

Lemma rule_enqueue_head r0 r E q n l p e flags (k : M (rq Y) unit) Q :
  holds r0 r E q n → root_group r0 → queue_ok E q l → E !! p = Some e →
  (∀ r' e2, let s := start_join flags (clock_task r0) E q p e in
    s.1 !! p = Some e2 →
    holds r0 r' (<[p := if has_flag flags ENQUEUE_WAKEUP then placed (tun r0) s.2 e2 else e2]> s.1)
      (s.2 <| c_load := update_load_add (c_load s.2) (weight (load e2)) |>
           <| c_nr_running := u32 (c_nr_running s.2 + 1) |>) n → returns k r' Q) →
  returns (_ ← (if negb (has_flag flags ENQUEUE_WAKEUP) || has_flag flags ENQUEUE_WAKING then
                  q ← load_cfs 0;
                  store_se (TaskSe p) (λ e, e <| vruntime := u64 (vruntime e + min_vruntime q) |>)
                else mret tt);
           _ ← update_curr 0;
           _ ← update_cfs_load 0;
           _ ← account_entity_enqueue 0 (TaskSe p);
           _ ← update_cfs_shares 0;
           _ ← (if has_flag flags ENQUEUE_WAKEUP then place_entity 0 (TaskSe p) false else mret tt);
           k) r Q.
Proof.
  intros Hs Hroot Hq He Hk. fstep.
  destruct (start_join_ok flags (clock_task r0) E q l p e Hq He) as (Hq1 & Hq2 & _ & e2 & He2 & _).
  apply (returns_mono _ _ (λ _ r', holds r0 r' (<[p := renormalised flags q e]> E) q n)).
  { unfold renormalised.
    change (has_flag flags ENQUEUE_WAKING) with (negb (Z.land flags 0 =? 0)).
    rewrite Z.land_0_r, orb_false_r. destruct (has_flag flags ENQUEUE_WAKEUP); cbn [negb].
    - fstep. by rewrite insert_id.
    - do 3 fstep. done. }
  clear Hs r. intros _ r Hs. fstep. eapply rule_update_curr; [exact Hs|exact Hq1|].
  clear Hs r. intros r Hs. do 3 fstep.
  eapply rule_account_enqueue; [exact Hs|exact He2|by apply (qo_entities _ _ _ Hq2 p)|].
  clear Hs r. intros r Hs. fstep. eapply rule_root_shares; [exact Hs|done|]. fstep.
  eapply returns_mono; [|intros ? r' Hr'; exact (Hk r' e2 He2 Hr')].
  destruct (has_flag flags ENQUEUE_WAKEUP).
  - eapply rule_place_sleeper; [exact Hs|exact He2|]. done.
  - fstep. by rewrite insert_id.
Qed.

Lemma rule_enqueue_entity r0 r E q n l p e flags Q :
  holds r0 r E q n → root_group r0 → queue_ok E q l → E !! p = Some e → se_on_rq e = 0 →
  (∀ r' E' q' l', joined flags (clock_task r0) (tun r0) E q l p e E' q' l' →
    holds r0 r' E' q' n → Q tt r') →
  returns (enqueue_entity 0 (TaskSe p) flags) r Q.
Proof.
  intros Hs Hroot Hq He Ho HQ.
  destruct (start_join_ok flags (clock_task r0) E q l p e Hq He) as (_ & Hq2 & Hsh & e2 & He2 & Hl2).
  eapply rule_enqueue_head; [exact Hs|done|exact Hq|exact He|]. clear Hs r.
  intros r e2' s He2' Hs. fold s in Hq2, Hsh, He2. rewrite He2 in He2'. injection He2' as <-.
  set (e3 := if has_flag flags ENQUEUE_WAKEUP then placed (tun r0) s.2 e2 else e2) in *.
  assert (links e3 = links e2) as Hl3 by (unfold e3; by destruct (has_flag _ _)).
  injection Hsh as Ht Hlm Hc Hn Hla Hsk Hnr Hh Hw.
  eapply (rule_enqueue_tail _ _ _ _ _ l p e3); [exact Hs|done|look|split; apply Hq2| |].
  { intros x Hx. apply lookup_insert_is_Some. destruct (decide (p = x)); [by left|right].
    split; [done|]. by eapply queue_ok_dom. }
  clear Hs r. intros r t' l' ol Hl' Hso q' Htl Hs. rewrite insert_insert_eq in Hs.
  eapply (HQ r _ _ l'); [|exact Hs]. simpl in Hl'. rewrite Hc in Hl'. injection Hl2 as Hld2 Hon2 _ _ _. split.
  - eapply (queue_ok_join s.1 s.2 l p e2); try done.
    + congruence.
    + injection Hl3 as ?????. unfold links. simpl. congruence.
    + rewrite Hc. destruct (decide _); [by rewrite Hl'|]. destruct Hl' as (l1 & l2 & -> & ->).
      symmetry. apply Permutation_middle.
  - by exists e2.
  - done.
  - assert (∀ x, vruntime <$> <[p := e3]> s.1 !! x
                = vruntime <$> <[p := e3 <| se_on_rq := 1 |>]> s.1 !! x) as Hv.
    { intros x. destruct (decide (x = p)) as [->|?];
        rewrite ?lookup_insert_eq, ?lookup_insert_ne by done; done. }
    intros base Hnear Hsort. apply (sorted_ext base _ _ l' Hv), Hso;
      by apply (sorted_ext base _ _ _ Hv).
  - done.
  - exact Hc.
  - exact Hh.
  - unfold buddies. simpl. congruence.
Qed.

(** *** An entity leaves the queue *)

(** Its virtual run time becomes relative to the queue, unless it sleeps. *)
Definition normalised (flags : Z) (q : cfs_rq) (e : sched_entity) : sched_entity :=
  if has_flag flags DEQUEUE_SLEEP then e
  else e <| vruntime := u64 (vruntime e - min_vruntime q) |>.

Record parted (flags now : Z) (E : entities) (q : cfs_rq) (l : list Z) (p : Z)
    (E' : entities) (q' : cfs_rq) (l' : list Z) : Prop := {
  pt_ok : queue_ok E' q' l';
  pt_entities : let s := run_curr now E q in
    ∃ e2, s.1 !! p = Some e2 ∧
      E' = <[p := normalised flags s.2 (e2 <| se_on_rq := 0 |>)]> s.1;
  pt_line : l' = if decide (c_curr q = Some (TaskSe p)) then l else remove_one p l;
  pt_min : ∃ q3, q' = advance E' q3 ∧ min_vruntime q3 = min_vruntime (run_curr now E q).2;
  pt_curr : c_curr q' = c_curr q;
  pt_h : h_nr_running q' = h_nr_running q;
  pt_buddies : buddies q' = buddies (unmark p q)
}.

(** The queue without [p], before its virtual time advances. *)
Definition without (p : Z) (e : sched_entity) (l' : list Z) (t' : rb_tree) (q : cfs_rq) : cfs_rq :=
  (unmark p q) <| rb_leftmost := TaskSe <$> head l' |> <| tasks_timeline := t' |>
    <| c_load := update_load_sub (c_load q) (weight (load e)) |>
    <| c_nr_running := u32 (c_nr_running q - 1) |>.

Lemma rule_dequeue_head r0 r E q n l p e2 flags (k : M (rq Y) unit) Q :
  holds r0 r E q n → queue_ok E q l → (run_curr (clock_task r0) E q).1 !! p = Some e2 →
  (∀ r' t', let s := run_curr (clock_task r0) E q in
    let l' := if decide (c_curr q = Some (TaskSe p)) then l else remove_one p l in
    inorder t' = TaskSe <$> l' →
    holds r0 r' (<[p := normalised flags s.2 (e2 <| se_on_rq := 0 |>)]> s.1)
      (without p e2 l' t' s.2) n → returns k r' Q) →
  returns (_ ← update_curr 0;
           _ ← clear_buddies 0 (TaskSe p);
           q ← load_cfs 0;
           _ ← (if decide (c_curr q = Some (TaskSe p)) then mret tt else __dequeue_entity 0 (TaskSe p));
           _ ← store_se (TaskSe p) (λ e, e <| se_on_rq := 0 |>);
           _ ← update_cfs_load 0;
           _ ← account_entity_dequeue 0 (TaskSe p);
           _ ← (if has_flag flags DEQUEUE_SLEEP then mret tt
                else
                  q ← load_cfs 0;
                  store_se (TaskSe p) (λ e, e <| vruntime := u64 (vruntime e - min_vruntime q) |>));
           k) r Q.
Proof.
  intros Hs Hq He2 Hk. fstep. eapply rule_update_curr; [exact Hs|exact Hq|].
  pose proof (queue_ok_run (clock_task r0) _ _ _ Hq) as Hq2.
  pose proof (run_curr_shape (clock_task r0) E q) as Hsh.
  set (s := run_curr (clock_task r0) E q) in *. injection Hsh as Ht Hlm Hc Hn Hla Hsk Hnr Hh Hw.
  pose proof (qo_entities _ _ _ Hq2 p e2 He2) as Hf2.
  set (l' := if decide (c_curr q = Some (TaskSe p)) then l else remove_one p l) in *.
  clear Hs r. intros r Hs. fstep. eapply rule_clear_buddies; [exact Hs|exact He2|exact Hf2|].
  clear Hs r. intros r Hs. do 3 fstep. change (c_curr (unmark p s.2)) with (c_curr s.2).
  apply (returns_mono _ _ (λ _ r', ∃ t', inorder t' = TaskSe <$> l' ∧ holds r0 r' s.1
    ((unmark p s.2) <| rb_leftmost := TaskSe <$> head l' |> <| tasks_timeline := t' |>) n)).
  { unfold l'. rewrite Hc. destruct (decide _).
    - fstep. exists (tasks_timeline s.2). split; [apply Hq2|].
      rewrite <- (qo_left _ _ _ Hq2). by destruct s.2.
    - eapply rule_dequeue_line; [exact Hs|apply Hq2|apply Hq2|apply Hq2|]. eauto. }
  clear Hs r. intros _ r (t' & Hin & Hs). do 5 fstep.
  eapply rule_account_dequeue; [exact Hs|look|apply Hf2|]. clear Hs r. intros r Hs. fstep.
  eapply returns_mono; [|intros ? r' Hr'; exact (Hk r' t' Hin Hr')]. unfold normalised.
  destruct (has_flag flags DEQUEUE_SLEEP); [by fstep|]. do 3 fstep. by rewrite insert_insert_eq in Hs.
Qed.

Lemma without_ok E q l p e e' l' t' :
  queue_ok E q l → E !! p = Some e → se_on_rq e = 1 → links e' = links (e <| se_on_rq := 0 |>) →
  l' = (if decide (c_curr q = Some (TaskSe p)) then l else remove_one p l) →
  inorder t' = TaskSe <$> l' → queue_ok (<[p := e']> E) (without p e l' t' q) l'.
Proof.
  intros Hq He Ho Hl Hl' Hin. eapply queue_ok_leave; eauto; [done|].
  intros x Hx. by apply unmark_buddies.
Qed.

Lemma normalised_links flags q e : links (normalised flags q e) = links e.
Proof. unfold normalised. by destruct (has_flag _ _). Qed.

Lemma rule_dequeue_entity r0 r E q n l p e flags Q :
  holds r0 r E q n → root_group r0 → queue_ok E q l → E !! p = Some e → se_on_rq e = 1 →
  (∀ r' E' q' l', parted flags (clock_task r0) E q l p E' q' l' →
    holds r0 r' E' q' n → Q tt r') →
  returns (dequeue_entity 0 (TaskSe p) flags) r Q.
Proof.
  intros Hs Hroot Hq He Ho HQ.
  pose proof (queue_ok_run (clock_task r0) _ _ _ Hq) as Hq2.
  pose proof (run_curr_shape (clock_task r0) E q) as Hsh.
  destruct (run_curr_lookup (clock_task r0) E q p e He) as (e2 & He2 & Hl2 & _).
  eapply rule_dequeue_head; [exact Hs|exact Hq|exact He2|]. clear Hs r.
  intros r t' s l' Hin Hs. fold s in Hq2, Hsh, He2. injection Hsh as Ht Hlm Hc Hn Hla Hsk Hnr Hh Hw.
  injection Hl2 as _ Ho2 _ _ _.
  assert (queue_ok (<[p := normalised flags s.2 (e2 <| se_on_rq := 0 |>)]> s.1)
            (without p e2 l' t' s.2) l') as Hq3.
  { eapply without_ok; [exact Hq2|done|congruence|apply normalised_links|by rewrite Hc|done]. }
  fstep. unfold return_cfs_rq_runtime. rewrite Hbw. cbn [negb]. do 2 fstep.
  eapply rule_update_min_vruntime; [exact Hs|apply Hq3|intros x; by apply (left_lookup _ _ _ _ Hq3)|].
  clear Hs r. intros r Hs. eapply rule_root_shares; [exact Hs|done|].
  eapply HQ; [|exact Hs]. split.
  - eapply queue_ok_quiet; [exact Hq3|done|done].
  - by exists e2.
  - done.
  - by eexists.
  - exact Hc.
  - exact Hh.
  - unfold buddies. simpl. by rewrite Hn, Hla, Hsk.
Qed.

(** *** An entity starts and stops running *)

(** The current entity goes back to the time line if it is queued. *)
Lemma queue_ok_put E q l p e q' l' :
  queue_ok E q l → c_curr q = Some (TaskSe p) → E !! p = Some e →
  (if decide (se_on_rq e = 1) then inserted p l l' else l' = l) →
  timeline q' l' → c_curr q' = None →
  buddies q' = buddies q → c_nr_running q' = c_nr_running q →
  weight (c_load q') = weight (c_load q) → queue_ok E q' l'.
Proof.
  intros Hq Hc He Hl Ht Hc' Hb Hn Hw. eapply queue_ok_move; [exact Hq|done| | |by rewrite Hc'|done..].
  - destruct (decide _); [|subst l'; apply Hq]. destruct Hl as (l1 & l2 & -> & ->).
    rewrite <- Permutation_middle. constructor; [|apply Hq].
    rewrite (qo_mem _ _ _ Hq), Hc. tauto.
  - intros x. rewrite Hc'. destruct (decide (se_on_rq e = 1)) as [Hd|Hd].
    + destruct Hl as (l1 & l2 & Hl & ->). rewrite <- Permutation_middle, elem_of_cons, <- Hl.
      rewrite (qo_mem _ _ _ Hq), Hc. split.
      * intros [->|[? _]]; [|done]. split; [|done]. apply elem_of_queued. by exists e.
      * intros [Hx _]. destruct (decide (x = p)) as [->|Hne]; [by left|right]. split; [done|congruence].
    + subst l'. rewrite (qo_mem _ _ _ Hq), Hc. split; [by intros [? _]|].
      intros [Hx _]. split; [done|]. intros [= <-].
      by apply elem_of_queued in Hx as (e' & ? & ?); simplify_eq.
Qed.

(** And leaves the time line when it starts to run. *)
Lemma queue_ok_take E q l p e q' l' :
  queue_ok E q l → c_curr q = None → E !! p = Some e →
  l' = (if decide (se_on_rq e = 1) then remove_one p l else l) →
  timeline q' l' → c_curr q' = Some (TaskSe p) →
  buddies q' = buddies q → c_nr_running q' = c_nr_running q →
  weight (c_load q') = weight (c_load q) → queue_ok E q' l'.
Proof.
  intros Hq Hc He -> Ht Hc' Hb Hn Hw. eapply queue_ok_move; [exact Hq|done| | | |done..].
  - case_decide; [apply remove_keeps_nodup|]; apply Hq.
  - intros x. rewrite Hc'. case_decide as Hd.
    + rewrite remove_one_elem, (qo_mem _ _ _ Hq), Hc by apply Hq. split; [|intros [? Hx]].
      * intros [[? _] ?]. split; [done|congruence].
      * split_and!; try done. congruence.
    + rewrite (qo_mem _ _ _ Hq), Hc. split; [|by intros [? _]]. intros [Hx _]. split; [done|].
      intros [= ->]. by apply elem_of_queued in Hx as (e' & ? & ?); simplify_eq.
  - rewrite Hc'. intros x [= <-]. eauto.
Qed.

Definition started (now : Z) (e : sched_entity) : sched_entity :=
  e <| exec_start := now |> <| prev_sum_exec_runtime := sum_exec_runtime e |>.

Lemma rule_set_next_entity r0 r E q n l p e Q :
  holds r0 r E q n → queue_ok E q l → c_curr q = None → E !! p = Some e →
  (∀ r' q', let l' := if decide (se_on_rq e = 1) then remove_one p l else l in
    let E' := <[p := started (clock_task r0) e]> E in
    queue_ok E' q' l' → c_curr q' = Some (TaskSe p) → h_nr_running q' = h_nr_running q →
    min_vruntime q' = min_vruntime q → buddies q' = buddies q → holds r0 r' E' q' n → Q tt r') →
  returns (set_next_entity 0 (TaskSe p)) r Q.
Proof.
  intros Hs Hq Hc He HQ. unfold set_next_entity, update_stats_curr_start. do 3 fstep.
  set (l' := if decide (se_on_rq e = 1) then remove_one p l else l) in *.
  pose proof (fe_on_rq e (qo_entities _ _ _ Hq p e He)) as Hon.
  apply (returns_mono _ _ (λ _ r', ∃ t', inorder t' = TaskSe <$> l' ∧ holds r0 r' E
    (q <| rb_leftmost := TaskSe <$> head l' |> <| tasks_timeline := t' |>) n)).
  { unfold l'. destruct Hon as [Hon|Hon]; rewrite Hon; simpl.
    - fstep. exists (tasks_timeline q). split; [apply Hq|]. rewrite <- (qo_left _ _ _ Hq). by destruct q.
    - eapply rule_dequeue_line; [exact Hs|apply Hq|apply Hq|apply Hq|]. eauto. }
  clear Hs r. intros _ r (t' & Hin & Hs). do 7 fstep. rewrite insert_insert_eq in Hs.
  eapply HQ; [..|exact Hs]; [|done..].
  eapply queue_ok_quiet; [|by eapply same_links_insert|reflexivity].
  by eapply queue_ok_take.
Qed.

(** The current entity returns to the time line if it is still queued. *)
Lemma rule_put_prev_entity r0 r E q n l p e Q :
  holds r0 r E q n → queue_ok E q l → c_curr q = Some (TaskSe p) → E !! p = Some e →
  (∀ r' q' l', let s := if decide (se_on_rq e = 1) then run_curr (clock_task r0) E q else (E, q) in
    queue_ok s.1 q' l' → (if decide (se_on_rq e = 1) then inserted p l l' else l' = l) →
    (∀ base, near base s.1 (p :: l) → sorted base s.1 l → sorted base s.1 l') →
    c_curr q' = None → h_nr_running q' = h_nr_running q → min_vruntime q' = min_vruntime s.2 →
    buddies q' = buddies q → holds r0 r' s.1 q' n → Q tt r') →
  returns (put_prev_entity 0 (TaskSe p)) r Q.
Proof.
  intros Hs Hq Hc He HQ. unfold put_prev_entity, check_cfs_rq_runtime. rewrite Hbw. do 3 fstep.
  pose proof (fe_on_rq e (qo_entities _ _ _ Hq p e He)) as Hon.
  set (s := if decide (se_on_rq e = 1) then run_curr (clock_task r0) E q else (E, q)) in *.
  assert (queue_ok s.1 s.2 l ∧ shape s.2 = shape q ∧
          ∃ e2, s.1 !! p = Some e2 ∧ links e2 = links e) as (Hq2 & Hsh & e2 & He2 & Hl2).
  { unfold s. destruct (decide _); [|by split_and!; [| |exists e]].
    split_and!; [by apply queue_ok_run|apply run_curr_shape|].
    destruct (run_curr_lookup (clock_task r0) E q p e He) as (e2 & ? & ? & _). by exists e2. }
  injection Hsh as Ht Hlm Hcu Hn Hla Hsk Hnr Hh Hw. injection Hl2 as _ Hon2 _ _ _.
  apply (returns_mono _ _ (λ _ r', holds r0 r' s.1 s.2 n)).
  { unfold s. destruct Hon as [Hon|Hon]; rewrite Hon; simpl; [by fstep|].
    eapply rule_update_curr; [exact Hs|exact Hq|]. done. }
  clear Hs r. intros _ r Hs. cbn [negb]. do 5 fstep. rewrite Hon2.
  apply (returns_mono _ _ (λ _ r', ∃ t' l',
    (if decide (se_on_rq e = 1) then inserted p l l' else l' = l) ∧
    (∀ base, near base s.1 (p :: l) → sorted base s.1 l → sorted base s.1 l') ∧
    inorder t' = TaskSe <$> l' ∧
    holds r0 r' s.1 (s.2 <| rb_leftmost := TaskSe <$> head l' |> <| tasks_timeline := t' |>) n)).
  { destruct Hon as [Hon|Hon]; rewrite Hon; simpl.
    - fstep. exists (tasks_timeline s.2), l. split_and!; try done; [apply Hq2|].
      rewrite <- (qo_left _ _ _ Hq2). by destruct s.2.
    - eapply rule_enqueue_line; [exact Hs|exact He2|apply Hq2|apply Hq2| |].
      { intros x. by apply (queue_ok_dom s.1 s.2 l). }
      intros r' t' l1 l2 Hl Hin' Hso Hs'. exists t', (l1 ++ p :: l2). split_and!; try done.
      by exists l1, l2. }
  clear Hs r. intros _ r (t' & l' & Hl & Hso & Hin & Hs). fstep.
  eapply (HQ r _ l'); [..|exact Hs]; [|done|done|done|exact Hh|done|unfold buddies; simpl; congruence].
  eapply queue_ok_put; [exact Hq2|by rewrite Hcu|exact He2|by rewrite Hon2|done..].
Qed.

(** *** The choice of the next entity *)

(** Running [x] before [y] is fair enough: [x] is at most the wake-up granularity
    of [y] behind it. *)
Definition fair_enough (tn : tunables) (E : entities) (x y : Z) : bool :=
  match E !! x, E !! y with
  | Some ex, Some ey =>
      s64 (vruntime ex - vruntime ey)
        <=? Z.max 0 (fair_delta (sysctl_sched_wakeup_granularity tn) ey)
  | _, _ => false
  end.

Lemma rule_wakeup_preempt r0 r E q n l x y Q :
  holds r0 r E q n → queue_ok E q l → is_Some (E !! x) → is_Some (E !! y) →
  (∀ r' v, v ∈ [-1; 0; 1] → (v <? 1) = fair_enough (tun r0) E x y → holds r0 r' E q n → Q v r') →
  returns (wakeup_preempt_entity (TaskSe x) (TaskSe y)) r Q.
Proof.
  intros Hs Hq [ex Hx] [ey Hy] HQ. unfold wakeup_preempt_entity. do 4 fstep.
  unfold fair_enough in HQ. rewrite Hx, Hy in HQ. cbv zeta. fstep.
  { fstep. apply (HQ r (-1)); [set_solver| |done]. bsimp. symmetry. apply Z.leb_le. lia. }
  fstep. unfold wakeup_gran. do 2 fstep.
  eapply rule_calc_delta_fair; [exact Hs|exact Hy|apply (qo_entities _ _ _ Hq y ey Hy)|].
  clear Hs r. intros r Hs. bsimp. fstep; fstep; bsimp.
  - apply (HQ r 1); [set_solver| |done]. symmetry. apply Z.leb_gt. lia.
  - apply (HQ r 0); [set_solver| |done]. symmetry. apply Z.leb_le. lia.
Qed.

Definition task_at (x : option se_ptr) : option Z :=
  match x with Some (TaskSe p) => Some p | _ => None end.

(** The buddy [b] instead of the [choice], if that is fair to the leftmost
    entity. *)
Definition prefer (tn : tunables) (E : entities) (left : Z) (b : option Z) (choice : Z) : Z :=
  match b with Some x => if fair_enough tn E x left then x else choice | None => choice end.

Definition next_choice (tn : tunables) (E : entities) (q : cfs_rq) (l : list Z) (left : Z) : Z :=
  prefer tn E left (task_at (c_next q))
    (prefer tn E left (task_at (c_last q))
      (if decide (c_skip q = Some (TaskSe left)) then prefer tn E left (next_in left l) left
       else left)).

Lemma rule_try_buddy r0 r E q n l b left choice Q :
  holds r0 r E q n → queue_ok E q l → is_Some (E !! left) →
  (∀ x, b = Some x → ∃ p, x = TaskSe p ∧ is_Some (E !! p)) →
  (∀ r', holds r0 r' E q n → Q (Some (TaskSe (prefer (tun r0) E left (task_at b) choice))) r') →
  returns (try_buddy b (Some (TaskSe left)) (Some (TaskSe choice))) r Q.
Proof.
  intros Hs Hq Hl Hb HQ. unfold try_buddy. destruct b as [x|]; [|fstep; by apply HQ].
  destruct (Hb x eq_refl) as (p & -> & Hp). fstep. apply returns_ret. fstep.
  eapply rule_wakeup_preempt; [exact Hs|exact Hq|done|done|]. clear Hs r.
  intros r v _ Hv Hs. rewrite Hv. specialize (HQ r Hs). simpl in HQ.
  destruct (fair_enough _ _ _ _); by fstep.
Qed.

Lemma next_in_elem {A} `{EqDecision A} (x y : A) l : next_in x l = Some y → y ∈ l.
Proof.
  induction l as [|z l IH]; simpl; [done|]. case_decide; intros Hy.
  - right. by apply head_Some_elem_of.
  - right. by apply IH.
Qed.

Lemma buddy_lookup E q l b :
  queue_ok E q l → b ∈ buddies q → ∀ x, b = Some x → ∃ p, x = TaskSe p ∧ is_Some (E !! p).
Proof.
  intros Hq Hb x ->. destruct (queue_ok_buddies _ _ _ x Hq Hb) as (p & -> & Hp).
  exists p. split; [done|]. by apply queued_lookup.
Qed.

(** Whatever is preferred is on the time line. *)
Lemma prefer_elem tn E left b choice (l : list Z) :
  (∀ x, b = Some x → x ∈ l) → choice ∈ l → prefer tn E left b choice ∈ l.
Proof. intros Hb Hc. unfold prefer. destruct b as [x|]; [|done]. case_match; auto. Qed.

Lemma buddy_elem E q l b x :
  queue_ok E q l → c_curr q = None → b ∈ buddies q → task_at b = Some x → x ∈ l.
Proof.
  intros Hq Hc Hb Hx. destruct b as [y|]; [|done].
  destruct (queue_ok_buddies _ _ _ y Hq Hb) as (p & -> & Hp). injection Hx as <-.
  apply (qo_mem _ _ _ Hq). by rewrite Hc.
Qed.

Lemma next_choice_elem tn E q l left :
  queue_ok E q (left :: l) → c_curr q = None →
  next_choice tn E q (left :: l) left ∈ left :: l.
Proof.
  intros Hq Hc. unfold next_choice.
  apply prefer_elem; [intros x; apply (buddy_elem E q); [done..|unfold buddies; set_solver]|].
  apply prefer_elem; [intros x; apply (buddy_elem E q); [done..|unfold buddies; set_solver]|].
  case_decide; [|by left]. apply prefer_elem; [|by left]. intros x. apply next_in_elem.
Qed.

Lemma rule_pick_next_entity r0 r E q n left l Q :
  holds r0 r E q n → queue_ok E q (left :: l) → c_curr q = None →
  (∀ r', let s := next_choice (tun r0) E q (left :: l) left in
    s ∈ left :: l → holds r0 r' E (unmark s q) n → Q (TaskSe s) r') →
  returns (pick_next_entity 0) r Q.
Proof.
  intros Hs Hq Hc HQ. unfold pick_next_entity, __pick_first_entity. do 7 fstep.
  rewrite (qo_left _ _ _ Hq). cbn [fmap option_fmap option_map head].
  assert (is_Some (E !! left)) as Hleft by (eapply queue_ok_dom; [exact Hq|by left]).
  set (c0 := if decide (c_skip q = Some (TaskSe left))
             then prefer (tun r0) E left (next_in left (left :: l)) left else left).
  apply (returns_mono _ _ (λ o r', o = Some (TaskSe c0) ∧ holds r0 r' E q n)).
  { unfold c0. destruct (decide _); [|by fstep]. fstep. apply returns_ret. fstep.
    unfold __pick_next_entity. do 3 fstep.
    rewrite rb_next_law, (qo_line _ _ _ Hq), (next_in_fmap TaskSe)
      by (rewrite (qo_line _ _ _ Hq); apply (NoDup_fmap_2 TaskSe), Hq).
    eapply rule_try_buddy; [exact Hs|exact Hq|done| |].
    - intros x (y & Hy & ->)%fmap_Some. exists y. split; [done|].
      eapply queue_ok_dom; [exact Hq|]. by eapply next_in_elem.
    - intros r' Hs'. split; [|done]. by destruct (next_in left (left :: l)). }
  clear Hs r. intros o r [-> Hs]. fstep.
  eapply rule_try_buddy; [exact Hs|exact Hq|done| |].
  { apply (buddy_lookup _ _ _ _ Hq). unfold buddies. set_solver. }
  clear Hs r. intros r Hs. fstep. eapply rule_try_buddy; [exact Hs|exact Hq|done| |].
  { apply (buddy_lookup _ _ _ _ Hq). unfold buddies. set_solver. }
  clear Hs r. intros r Hs. fstep. apply returns_ret.
  pose proof (next_choice_elem (tun r0) E q l left Hq Hc) as Hel.
  unfold next_choice in *. fold c0 in Hel, HQ.
  set (s := prefer (tun r0) E left (task_at (c_next q)) _) in *. destruct (queue_ok_dom _ _ _ s Hq Hel) as [e He].
  fstep. eapply rule_clear_buddies; [exact Hs|exact He|apply (qo_entities _ _ _ Hq s e He)|].
  clear Hs r. intros r Hs. fstep. by apply HQ.
Qed.

(** *** Slices and the tick *)

Definition period_of (tn : tunables) (nr : Z) : Z :=
  if sched_nr_latency tn <? nr then u64 (sysctl_sched_min_granularity tn * nr)
  else sysctl_sched_latency tn.

(** The share of the period that falls to the entity by its weight. *)
Definition slice_of (tn : tunables) (q : cfs_rq) (e : sched_entity) : Z :=
  let queued := negb (se_on_rq e =? 0) in
  let nr := u32 (c_nr_running q + b2z (negb queued)) in
  let lw := if queued then c_load q else update_load_add (c_load q) (weight (load e)) in
  (calc_delta_mine (u32 (period_of tn nr)) (weight (load e)) lw).1.

Lemma fill_inv_weight_same lw : weight (fill_inv_weight lw) = weight lw.
Proof. unfold fill_inv_weight. by repeat case_match. Qed.

Lemma rule_sched_slice r0 r E q n p e Q :
  holds r0 r E q n → E !! p = Some e → flat_entity e →
  (∀ r' q', shape q' = shape q → min_vruntime q' = min_vruntime q → holds r0 r' E q' n →
    Q (slice_of (tun r0) q e) r') →
  returns (sched_slice 0 (TaskSe p)) r Q.
Proof.
  intros Hs He Hf HQ. unfold sched_slice, __sched_period, slice_of in *.
  cbv zeta in HQ. do 7 fstep.
  set (nr := u32 (c_nr_running q + b2z (se_on_rq e =? 0))) in *.
  apply (returns_mono _ _ (λ v r', v = period_of (tun r0) nr ∧ holds r0 r' E q n)).
  { unfold period_of. destruct (sched_nr_latency (tun r0) <? nr); by fstep. }
  clear Hs r. intros v r [-> Hs]. do 3 fstep. eapply rule_ancestors; [exact Hs|].
  unfold slice_step. fstep. eapply rule_cfs_rq_of; [exact Hs|exact He|apply Hf|]. do 4 fstep.
  rewrite negb_involutive in HQ. fold nr in HQ.
  destruct (se_on_rq e =? 0); cbv zeta; cbn [negb] in HQ.
  - fstep. do 4 eexists. split_and!; [exact Hs|exact He|apply Hf|]. fstep. by eapply HQ.
  - destruct (calc_delta_mine _ _ _) as [d lw] eqn:Hd. do 3 fstep.
    do 4 eexists. split_and!; [exact Hs|exact He|apply Hf|]. fstep. simpl.
    eapply HQ; [..|exact Hs]; [|done].
    unfold calc_delta_mine in Hd. cbv zeta in Hd. injection Hd as _ <-.
    unfold shape. simpl. by rewrite fill_inv_weight_same.
Qed.

(** The tick keeps the queue; it may set the reschedule flag of the running
    task and clear its buddy marks. *)
Lemma rule_check_preempt_tick r0 r E q n l p e Q :
  holds r0 r E q n → queue_ok E q l → E !! p = Some e → is_Some (E !! curr r0) →
  l ≠ [] →
  (∀ r' q', queue_ok E q' l → c_curr q' = c_curr q → h_nr_running q' = h_nr_running q →
    min_vruntime q' = min_vruntime q → holds r0 r' E q' n → Q tt r') →
  returns (check_preempt_tick 0 (TaskSe p)) r Q.
Proof.
  intros Hs Hq He [ec Hec] Hne HQ. pose proof (qo_entities _ _ _ Hq p e He) as Hf.
  unfold check_preempt_tick. fstep.
  eapply rule_sched_slice; [exact Hs|exact He|done|]. clear Hs r. intros r q1 Hsh Hm Hs.
  pose proof (queue_ok_quiet _ _ _ _ _ Hq (reflexivity E) Hsh) as Hq1.
  injection Hsh as Ht Hlm Hcu Hn Hla Hsk Hnr Hh Hw.
  do 4 fstep. cbv zeta. fstep.
  { do 4 fstep. eapply rule_clear_buddies; [exact Hs|exact He|done|]. clear Hs r. intros r Hs.
    eapply HQ; [..|exact Hs]; [|done..].
    by apply queue_ok_unmark. }
  fstep; [fstep; by eapply HQ|]. unfold __pick_first_entity. do 4 fstep.
  rewrite (qo_left _ _ _ Hq1). destruct l as [|x l]; [done|]. cbn [fmap option_fmap option_map head].
  fstep. apply returns_ret.
  destruct (queue_ok_dom _ _ _ x Hq1) as [ex Hx]; [by left|]. do 2 fstep.
  fstep; [fstep; by eapply HQ|]. fstep; [|fstep; by eapply HQ]. do 3 fstep. by eapply HQ.
Qed.
End Ops.
