(* ===== verification/FairClass.v ===== *)
(** * The fair class keeps the laws of the scheduler core

    With no groups and no bandwidth limits, the methods of the fair class satisfy
    [ClassLaws], given the corresponding laws of the classes whose files are not
    part of the repository ([OtherLaws]: stop, real-time and idle). *)

From S2P Require Import Prelude SchedData Fair Sched SchedSpec FairSpec.

Section FairClass.
Context {Y : Type} `{SchedEnv Y} `{FairEnv Y} `{!RbLaws} (Hbw : cfs_bandwidth_used = false).
Implicit Types (r : rq Y).

(** The entities of all tasks, and the tasks the fair class has queued. *)
Definition ents (r : rq Y) : entities := se <$> tasks r.
Definition fair_queued (r : rq Y) : gset Z := queued_set (ents r).

(** The current entity of the fair queue: the running task if that is in the fair
    class, unless it was put aside. *)
Definition current_of (b : bool) (r : rq Y) : option se_ptr :=
  if b && bool_decide (class <$> tasks r !! curr r = Some fair_sched_class)
  then Some (TaskSe (curr r)) else None.

Record fair_ok (b : bool) (r : rq Y) : Prop := {
  fo_root : root_group r;
  fo_queue : ∃ q l, cfs_rqs r !! 0 = Some q ∧ queue_ok (ents r) q l ∧
    h_nr_running q = c_nr_running q ∧ c_curr q = current_of b r;
  fo_class : ∀ p, p ∈ fair_queued r → class <$> tasks r !! p = Some fair_sched_class
}.

Lemma holds_attr {A} (f : task → A) r0 r E q n x :
  holds r0 r E q n → (∀ t, f (bare t) = f t) → f <$> tasks r !! x = f <$> tasks r0 !! x.
Proof.
  intros Hs Hf. pose proof (h_bare _ _ _ _ _ Hs) as Hb. apply (f_equal (lookup x)) in Hb.
  rewrite !lookup_fmap in Hb.
  destruct (tasks r !! x) as [t|], (tasks r0 !! x) as [t0|]; simpl in *; try done.
  apply (inj Some) in Hb. by rewrite <- (Hf t), <- (Hf t0), Hb.
Qed.

Lemma erase_bare t t' : bare t = bare t' → load (se t) = load (se t') → erase t = erase t'.
Proof.
  intros Hb Hl. destruct t, t'. unfold bare in Hb. unfold erase. simpl in *.
  injection Hb. intros. subst. by rewrite Hl.
Qed.

Lemma holds_same_sched r r' E q n :
  holds r r' E q n → load <$> E = load <$> ents r → same_sched r r'.
Proof.
  intros Hs Hl. split.
  - intros x. pose proof (h_bare _ _ _ _ _ Hs) as Hb. pose proof (h_ents _ _ _ _ _ Hs) as He.
    rewrite <- He in Hl. apply (f_equal (lookup x)) in Hb. apply (f_equal (lookup x)) in Hl.
    unfold ents in Hl. rewrite !lookup_fmap in Hb. rewrite !lookup_fmap in Hl.
    destruct (tasks r' !! x) as [t'|], (tasks r !! x) as [t|]; simpl in *; try done.
    f_equal. apply erase_bare; congruence.
  - by apply (holds_field curr _ _ _ _ _ Hs).
  - by apply (holds_field idle _ _ _ _ _ Hs).
  - by apply (holds_field stop _ _ _ _ _ Hs).
Qed.

Lemma current_of_holds b r r' E q n : holds r r' E q n → current_of b r' = current_of b r.
Proof.
  intros Hs. unfold current_of. rewrite (holds_field curr _ _ _ _ _ Hs) by done.
  by rewrite (holds_attr class _ _ _ _ _ (curr r) Hs) by done.
Qed.

(** What a method of the fair class leaves behind: the invariant, the rest of the
    machine as it was, [n] running tasks and the tasks [X] queued. *)
Record fair_step (b : bool) (r : rq Y) (X : gset Z) (n : Z) (r' : rq Y) : Prop := {
  fs_ok : fair_ok b r';
  fs_same : same_sched r r';
  fs_other : other r' = other r;
  fs_nr : nr_running r' = n;
  fs_queued : fair_queued r' = X
}.

Lemma fair_step_holds b r r' E q l n :
  root_group r → holds r r' E q n → queue_ok E q l → load <$> E = load <$> ents r →
  h_nr_running q = c_nr_running q → c_curr q = current_of b r →
  (∀ p, p ∈ queued_set E → class <$> tasks r !! p = Some fair_sched_class) →
  fair_step b r (queued_set E) n r'.
Proof.
  intros Hroot Hs Hq Hl Hh Hc Hcl. pose proof (h_ents _ _ _ _ _ Hs) as He.
  assert (ents r' = E) as He' by done. split.
  - split.
    + destruct Hroot as (g & ? & ? & ?). exists g.
      by rewrite (holds_field groups _ _ _ _ _ Hs) by done.
    + exists q, l. rewrite He', (current_of_holds b r r' E q n Hs). split_and!; try done.
      by apply (h_cfs _ _ _ _ _ Hs).
    + unfold fair_queued. rewrite He'. intros p Hp. rewrite (holds_attr class _ _ _ _ _ p Hs) by done.
      by apply Hcl.
  - by eapply holds_same_sched.
  - by apply (holds_field other _ _ _ _ _ Hs).
  - by apply (h_nr _ _ _ _ _ Hs).
  - unfold fair_queued. by rewrite He'.
Qed.

Lemma same_links_load E E' : same_links E E' → load <$> E' = load <$> E.
Proof.
  intros Hl. apply map_eq. intros x. apply (f_equal (lookup x)) in Hl. rewrite !lookup_fmap in *.
  destruct (E !! x), (E' !! x); simplify_eq/=; congruence.
Qed.

Lemma load_insert (E : entities) p e e' :
  E !! p = Some e → load e' = load e → load <$> <[p := e']> E = load <$> E.
Proof.
  intros He Hl. rewrite fmap_insert, Hl. apply insert_id. by rewrite lookup_fmap, He.
Qed.

Lemma fair_start b r :
  fair_ok b r → ∃ q l, holds r r (ents r) q (nr_running r) ∧ queue_ok (ents r) q l ∧
    h_nr_running q = c_nr_running q ∧ c_curr q = current_of b r.
Proof. intros [_ (q & l & Hq & ?) _]. exists q, l. split; [by apply holds_refl|done]. Qed.

Lemma not_queued_off r p t b :
  fair_ok b r → tasks r !! p = Some t → p ∉ fair_queued r → se_on_rq (se t) = 0.
Proof.
  intros Hf Ht Hp. destruct (fair_start b r Hf) as (q & l & _ & Hq & _).
  assert (ents r !! p = Some (se t)) as He by (unfold ents; by rewrite lookup_fmap, Ht).
  destruct (fe_on_rq _ (qo_entities _ _ _ Hq p _ He)) as [|Ho]; [done|].
  destruct Hp. apply elem_of_queued. eauto.
Qed.

Lemma ents_lookup r p t : tasks r !! p = Some t → ents r !! p = Some (se t).
Proof. intros Ht. unfold ents. by rewrite lookup_fmap, Ht. Qed.

Lemma rule_not_throttled r0 r E q n Q :
  holds r0 r E q n → Q false r → returns (cfs_rq_throttled 0) r Q.
Proof. intros Hs HQ. unfold cfs_rq_throttled. do 3 fstep. by rewrite Hbw. Qed.

(** Entities that join or leave keep their load. *)
Lemma joined_load flags now tn E q l p e E' q' l' :
  E !! p = Some e → joined flags now tn E q l p e E' q' l' →
  load <$> E' = load <$> E ∧ queued_set E' = {[p]} ∪ queued_set E.
Proof.
  intros He [_ (e2 & He2 & ->) _ _ _ _ _ _].
  assert (same_links E (run_curr now (<[p := renormalised flags q e]> E) q).1) as Hl.
  { etrans; [|apply run_curr_links]. eapply same_links_insert; [done|apply renormalised_links]. }
  split.
  - erewrite load_insert; [by apply same_links_load|exact He2|]. by case_match.
  - rewrite queued_set_join by done. by rewrite (same_links_queued _ _ Hl).
Qed.

Lemma parted_load flags now E q l p E' q' l' :
  parted flags now E q l p E' q' l' →
  load <$> E' = load <$> E ∧ queued_set E' = queued_set E ∖ {[p]}.
Proof.
  intros [_ (e2 & He2 & ->) _ _ _ _ _].
  pose proof (run_curr_links now E q) as Hl. split.
  - erewrite load_insert; [by apply same_links_load|exact He2|].
    unfold normalised. by destruct (has_flag _ _).
  - rewrite queued_set_leave by (unfold normalised; by destruct (has_flag _ _)).
    by rewrite (same_links_queued _ _ Hl).
Qed.

Lemma queue_ok_count E q l h : queue_ok E q l → queue_ok E (q <| h_nr_running := h |>) l.
Proof. intros []. by split. Qed.

Lemma enqueue_task_fair_ok b r p t flags :
  fair_ok b r → tasks r !! p = Some t → class t = fair_sched_class → p ∉ fair_queued r →
  returns (enqueue_task_fair p flags) r (λ _ r',
    fair_step b r ({[p]} ∪ fair_queued r) (u32 (nr_running r + 1)) r').
Proof.
  intros Hf Ht Hc Hp. destruct (fair_start b r Hf) as (q & l & Hs & Hq & Hh & Hcu).
  pose proof (not_queued_off r p t b Hf Ht Hp) as Ho. pose proof (ents_lookup r p t Ht) as He.
  pose proof (qo_entities _ _ _ Hq p _ He) as Hfe. pose proof (fo_root b r Hf) as Hroot.
  unfold enqueue_task_fair. do 3 fstep. eapply rule_ancestors; [exact Hs|].
  unfold enqueue_step. do 2 fstep. rewrite Ho. cbn [Z.eqb negb]. fstep.
  eapply rule_cfs_rq_of; [exact Hs|exact He|apply Hfe|]. fstep.
  eapply rule_enqueue_entity; [done|exact Hs|done|exact Hq|exact He|done|].
  intros r1 E1 q1 l1 Hj Hs1. fstep.
  eapply rule_not_throttled; [exact Hs1|]. do 3 fstep.
  destruct (joined_load _ _ _ _ _ _ _ _ _ _ _ He Hj) as [Hld Hset].
  pose proof (j_ok _ _ _ _ _ _ _ _ _ _ _ Hj) as Hq1.
  assert (∃ e1, E1 !! p = Some e1 ∧ se_parent e1 = None) as (e1 & He1 & Hpar).
  { destruct (j_entities _ _ _ _ _ _ _ _ _ _ _ Hj) as (e2 & _ & ->).
    rewrite lookup_insert_eq. eexists. split; [done|].
    apply (qo_entities _ _ _ Hq1 p). by rewrite lookup_insert_eq. }
  do 4 eexists. split_and!; [exact Hs1|exact He1|done|].
  fstep. apply returns_ret. unfold inc_nr_running.
  eapply (rule_nr_running (λ n, u32 (n + 1))); [exact Hs1|]. clear Hs1 r1. intros r1 Hs1.
  unfold fair_queued. rewrite <- Hset. eapply fair_step_holds; [done|exact Hs1| |done| | |].
  - by apply queue_ok_count.
  - simpl. rewrite (j_h _ _ _ _ _ _ _ _ _ _ _ Hj), Hh, (qo_nr _ _ _ Hq), (qo_nr _ _ _ Hq1), Hset.
    rewrite size_union, size_singleton by set_solver.
    pose proof (not_queued_size _ p _ He Hp). pose proof (qo_size _ _ _ Hq).
    rewrite uwrap_small; widths; lia.
  - simpl. by rewrite (j_curr _ _ _ _ _ _ _ _ _ _ _ Hj).
  - rewrite Hset. intros x [->%elem_of_singleton|Hx]%elem_of_union; [by rewrite Ht, <- Hc|].
    by apply (fo_class b r Hf).
Qed.

Lemma dequeue_task_fair_ok b r p t flags :
  fair_ok b r → tasks r !! p = Some t → p ∈ fair_queued r →
  returns (dequeue_task_fair p flags) r (λ _ r',
    fair_step b r (fair_queued r ∖ {[p]}) (u32 (nr_running r - 1)) r').
Proof.
  intros Hf Ht Hp. destruct (fair_start b r Hf) as (q & l & Hs & Hq & Hh & Hcu).
  pose proof (ents_lookup r p t Ht) as He. pose proof (fo_root b r Hf) as Hroot.
  pose proof (qo_entities _ _ _ Hq p _ He) as Hfe.
  assert (se_on_rq (se t) = 1) as Ho.
  { apply elem_of_queued in Hp as (e & He' & ?). rewrite He in He'. by injection He' as ->. }
  unfold dequeue_task_fair. do 3 fstep. eapply rule_ancestors; [exact Hs|].
  unfold dequeue_step. fstep. eapply rule_cfs_rq_of; [exact Hs|exact He|apply Hfe|]. fstep.
  eapply rule_dequeue_entity; [done|exact Hs|done|exact Hq|exact He|done|].
  intros r1 E1 q1 l1 Hj Hs1. fstep.
  eapply rule_not_throttled; [exact Hs1|]. do 4 fstep.
  destruct (parted_load _ _ _ _ _ _ _ _ _ Hj) as [Hld Hset].
  pose proof (pt_ok _ _ _ _ _ _ _ _ _ Hj) as Hq1.
  assert (∃ e1, E1 !! p = Some e1 ∧ se_parent e1 = None) as (e1 & He1 & Hpar).
  { destruct (pt_entities _ _ _ _ _ _ _ _ _ Hj) as (e2 & _ & HE1).
    assert (∃ e1, E1 !! p = Some e1) as [e1 He1] by (rewrite HE1, lookup_insert_eq; eauto).
    exists e1. split; [done|]. by apply (qo_entities _ _ _ Hq1 p). }
  assert (returns (r ← for_each_sched_entity (S fuel) (count_step (-1)) tt None;
      match r.1 with None => dec_nr_running | Some _ => mret tt end) r1 (λ _ r',
    fair_step b r (fair_queued r ∖ {[p]}) (u32 (nr_running r - 1)) r')) as Hend.
  { fstep. apply returns_ret. unfold dec_nr_running.
    eapply (rule_nr_running (λ n, u32 (n - 1))); [exact Hs1|]. intros r2 Hs2.
    unfold fair_queued. rewrite <- Hset.
    eapply fair_step_holds; [done|exact Hs2|by apply queue_ok_count|done| | |].
    - simpl. rewrite (pt_h _ _ _ _ _ _ _ _ _ Hj), Hh, (qo_nr _ _ _ Hq), (qo_nr _ _ _ Hq1), Hset.
      rewrite size_difference, size_singleton by set_solver.
      assert (size (queued_set (ents r)) ≠ 0%nat) by (apply size_non_empty_iff; set_solver).
      pose proof (queued_size (ents r)). pose proof (qo_size _ _ _ Hq).
      rewrite uwrap_small; widths; lia.
    - simpl. by rewrite (pt_curr _ _ _ _ _ _ _ _ _ Hj).
    - rewrite Hset. intros x [Hx _]%elem_of_difference. by apply (fo_class b r Hf). }
  fstep.
  - fstep. eapply rule_parent; [exact Hs1|exact He1|done|]. fstep.
    apply (returns_mono _ _ (λ _ r', r' = r1)); [by destruct (has_flag _ _); fstep|].
    intros _ ? ->. fstep. do 4 eexists. split_and!; [exact Hs1|exact He1|done|exact Hend].
  - fstep. do 4 eexists. split_and!; [exact Hs1|exact He1|done|exact Hend].
Qed.

(** C28. Without groups and bandwidth limits ([cfs_bandwidth_used] is false and every
    entity is that of a task on the queue of the processor), queueing a fair task and
    taking it off again are exact: from a consistent class and a task that is not queued, [enqueue_task_fair] returns
    with exactly that task more queued and counted, and [dequeue_task_fair] after
    it returns to the queued tasks and the count of before; the class is
    consistent throughout, and nothing else changes but time accounting. *)
Theorem fair_enqueue_dequeue b r p t flags flags' :
  fair_ok b r → tasks r !! p = Some t → class t = fair_sched_class → p ∉ fair_queued r →
  0 ≤ nr_running r < 2 ^ 32 - 1 →
  returns (enqueue_task_fair p flags) r (λ _ r1,
    fair_step b r ({[p]} ∪ fair_queued r) (nr_running r + 1) r1 ∧
    returns (dequeue_task_fair p flags') r1 (λ _ r2,
      fair_step b r (fair_queued r) (nr_running r) r2)).
Proof.
  intros Hf Ht Hc Hp Hn. eapply returns_mono; [by apply (enqueue_task_fair_ok b r p t flags)|].
  intros [] r1 Hs1. rewrite uwrap_small in Hs1 by (widths; lia). split; [done|].
  destruct Hs1 as [Hok1 Hsame1 Hoth1 Hnr1 Hq1].
  destruct (erase_lookup r r1 p t Hsame1 Ht) as (t1 & Ht1 & _).
  eapply returns_mono; [apply (dequeue_task_fair_ok b r1 p t1 flags'); try done; set_solver|].
  intros [] r2 [Hok2 Hsame2 Hoth2 Hnr2 Hq2]. split; [done|by etrans|congruence| |].
  - rewrite Hnr2, Hnr1, uwrap_small; widths; lia.
  - rewrite Hq2, Hq1. set_solver.
Qed.

(** A step that queues and unqueues nothing. *)
Lemma fair_step_quiet b b' r r' E q l :
  fair_ok b r → holds r r' E q (nr_running r) → queue_ok E q l → same_links (ents r) E →
  h_nr_running q = c_nr_running q → c_curr q = current_of b' r →
  fair_step b' r (fair_queued r) (nr_running r) r'.
Proof.
  intros Hf Hs Hq Hl Hh Hc. unfold fair_queued. rewrite <- (same_links_queued _ _ Hl).
  eapply fair_step_holds; [apply (fo_root b r Hf)|exact Hs|exact Hq|by apply same_links_load|done|done|].
  rewrite (same_links_queued _ _ Hl). apply (fo_class b r Hf).
Qed.

Lemma current_true r t :
  tasks r !! curr r = Some t → class t = fair_sched_class → current_of true r = Some (TaskSe (curr r)).
Proof. intros Ht Hc. unfold current_of. rewrite Ht. simpl. by rewrite bool_decide_eq_true_2 by congruence. Qed.

Lemma current_false r : current_of false r = None.
Proof. done. Qed.

Lemma put_prev_task_fair_ok r t :
  fair_ok true r → tasks r !! curr r = Some t → class t = fair_sched_class →
  returns (put_prev_task_fair (curr r)) r (λ _ r',
    fair_step false r (fair_queued r) (nr_running r) r').
Proof.
  intros Hf Ht Hc. destruct (fair_start true r Hf) as (q & l & Hs & Hq & Hh & Hcu).
  pose proof (ents_lookup r _ t Ht) as He. pose proof (qo_entities _ _ _ Hq _ _ He) as Hfe.
  rewrite (current_true r t Ht Hc) in Hcu.
  unfold put_prev_task_fair. do 3 fstep. eapply rule_ancestors; [exact Hs|]. fstep.
  eapply rule_cfs_rq_of; [exact Hs|exact He|apply Hfe|]. fstep.
  eapply rule_put_prev_entity; [done|exact Hs|exact Hq|done|exact He|].
  intros r1 q1 l1 s Hq1 Hl1 _ Hc1 Hh1 _ _ Hs1. fstep.
  assert (same_links (ents r) s.1 ∧ c_nr_running s.2 = c_nr_running q) as [Hl Hn].
  { unfold s. case_decide; [|done]. split; [apply run_curr_links|].
    by injection (run_curr_shape (clock_task r) (ents r) q). }
  destruct (same_links_lookup _ _ _ _ (symmetry Hl) He) as (e1 & He1 & Hl2).
  do 4 eexists. split_and!; [exact Hs1|exact He1|injection Hl2 as _ _ -> _ _; apply Hfe|]. fstep.
  eapply fair_step_quiet; [exact Hf|exact Hs1|exact Hq1|done| |done].
  rewrite Hh1, Hh, (qo_nr _ _ _ Hq), (qo_nr _ _ _ Hq1). by rewrite (same_links_queued _ _ Hl).
Qed.

Lemma set_curr_task_fair_ok r t :
  fair_ok false r → tasks r !! curr r = Some t → class t = fair_sched_class →
  returns set_curr_task_fair r (λ _ r', fair_step true r (fair_queued r) (nr_running r) r').
Proof.
  intros Hf Ht Hc. destruct (fair_start false r Hf) as (q & l & Hs & Hq & Hh & Hcu).
  pose proof (ents_lookup r _ t Ht) as He. pose proof (qo_entities _ _ _ Hq _ _ He) as Hfe.
  unfold set_curr_task_fair. do 5 fstep. eapply rule_ancestors; [exact Hs|]. fstep.
  eapply rule_cfs_rq_of; [exact Hs|exact He|apply Hfe|]. fstep.
  eapply rule_set_next_entity; [exact Hs|exact Hq|done|exact He|].
  intros r1 q1 l1 E1 Hq1 Hc1 Hh1 _ _ Hs1. fstep.
  assert (same_links (ents r) E1) as Hl by (by eapply same_links_insert).
  eapply rule_account_runtime; [done|exact Hs1|]. fstep.
  do 4 eexists. split_and!; [exact Hs1|by unfold E1; rewrite lookup_insert_eq|apply Hfe|]. fstep.
  eapply fair_step_quiet; [exact Hf|exact Hs1|exact Hq1|done| |].
  - rewrite Hh1, Hh, (qo_nr _ _ _ Hq), (qo_nr _ _ _ Hq1). by rewrite (same_links_queued _ _ Hl).
  - by rewrite Hc1, (current_true r t).
Qed.

(** With an empty time line at most the current entity is queued. *)
Lemma queue_ok_short E q : queue_ok E q [] → c_nr_running q ≤ 1.
Proof.
  intros Hq. rewrite (qo_nr _ _ _ Hq). destruct (c_curr q) as [x|] eqn:Hc.
  - destruct (qo_curr _ _ _ Hq x Hc) as (p & -> & _).
    assert (queued_set E ⊆ {[p]}) as Hsub.
    { intros y Hy. destruct (decide (y = p)) as [->|Hne]; [set_solver|].
      destruct (not_elem_of_nil y). apply (qo_mem _ _ _ Hq). split; [done|]. congruence. }
    apply subseteq_size in Hsub. rewrite size_singleton in Hsub. lia.
  - assert (queued_set E = ∅) as ->; [|by rewrite size_empty].
    apply set_eq. intros y. split; [|set_solver]. intros Hy.
    destruct (not_elem_of_nil y). apply (qo_mem _ _ _ Hq). by rewrite Hc.
Qed.

Lemma task_tick_fair_ok r t :
  fair_ok true r → tasks r !! curr r = Some t → class t = fair_sched_class →
  returns (task_tick_fair (curr r) 0) r (λ _ r',
    fair_step true r (fair_queued r) (nr_running r) r').
Proof.
  intros Hf Ht Hc. destruct (fair_start true r Hf) as (q & l & Hs & Hq & Hh & Hcu).
  pose proof (ents_lookup r _ t Ht) as He. pose proof (qo_entities _ _ _ Hq _ _ He) as Hfe.
  rewrite (current_true r t Ht Hc) in Hcu.
  unfold task_tick_fair. do 3 fstep. eapply rule_ancestors; [exact Hs|]. fstep.
  eapply rule_cfs_rq_of; [exact Hs|exact He|apply Hfe|]. unfold entity_tick. do 2 fstep.
  eapply rule_update_curr; [done|exact Hs|exact Hq|].
  pose proof (queue_ok_run (clock_task r) _ _ _ Hq) as Hq2.
  pose proof (run_curr_shape (clock_task r) (ents r) q) as Hsh.
  pose proof (run_curr_links (clock_task r) (ents r) q) as Hl.
  destruct (run_curr_lookup (clock_task r) (ents r) q _ _ He) as (e1 & He1 & Hl1 & _).
  set (s := run_curr (clock_task r) (ents r) q) in *.
  injection Hsh as _ _ Hc1 _ _ _ Hn1 Hh1 _.
  intros r1 Hs1. fstep. apply returns_ret. do 2 fstep.
  assert (∀ r' q', queue_ok s.1 q' l → c_curr q' = c_curr s.2 → h_nr_running q' = h_nr_running s.2 →
    holds r r' s.1 q' (nr_running r) →
    returns (mret (true, tt)) r' (λ ga r', ∃ E' q' n' e, holds r r' E' q' n' ∧
      E' !! curr r = Some e ∧ se_parent e = None ∧
      returns (mret tt) r' (λ _ r', fair_step true r (fair_queued r) (nr_running r) r'))) as Hend.
  { intros r2 q2 Hq' Hc2 Hh2 Hs2. fstep. do 4 eexists.
    split_and!; [exact Hs2|exact He1|injection Hl1 as _ _ -> _ _; apply Hfe|]. fstep.
    eapply fair_step_quiet; [exact Hf|exact Hs2|exact Hq'|done| |].
    - rewrite Hh2, Hh1, Hh, (qo_nr _ _ _ Hq), (qo_nr _ _ _ Hq').
      by rewrite (same_links_queued _ _ Hl).
    - rewrite Hc2, Hc1, Hcu. by rewrite (current_true r t). }
  fstep; [|fstep; by eapply Hend]. bsimp.
  eapply rule_check_preempt_tick; [exact Hs1|exact Hq2|exact He1|by eexists| |].
  - intros ->. pose proof (queue_ok_short _ _ Hq2). lia.
  - intros r2 q2 Hq' Hc2 Hh2 _ Hs2. by eapply Hend.
Qed.

(** The class hands [p] to the processor. *)
Lemma fair_handover b r r' E q l p :
  fair_ok b r → holds r r' E q (nr_running r) → queue_ok E q l → same_links (ents r) E →
  h_nr_running q = c_nr_running q → c_curr q = Some (TaskSe p) → p ∈ fair_queued r →
  fair_ok true (r' <| curr := p |>) ∧ same_sched r r' ∧ other r' = other r ∧
  nr_running r' = nr_running r ∧ fair_queued r' = fair_queued r ∧ rest r' = rest r.
Proof.
  intros Hf Hs Hq Hl Hh Hc Hp.
  assert (ents r' = E) as He by apply (h_ents _ _ _ _ _ Hs).
  assert (∀ x, class <$> tasks r' !! x = class <$> tasks r !! x) as Hcl
    by (intros x; by apply (holds_attr class _ _ _ _ _ x Hs)).
  assert (fair_queued r' = fair_queued r) as Hqs
    by (unfold fair_queued; rewrite He; by apply same_links_queued).
  split_and!.
  - split.
    + destruct (fo_root b r Hf) as (g & ? & ? & ?). exists g. simpl.
      by rewrite (holds_field groups _ _ _ _ _ Hs) by done.
    + exists q, l. change (ents (r' <| curr := p |>)) with (ents r'). rewrite He.
      split_and!; [apply (h_cfs _ _ _ _ _ Hs)|done|done|].
      unfold current_of. simpl. rewrite bool_decide_eq_true_2; [done|].
      rewrite Hcl. by apply (fo_class b r Hf).
    + change (fair_queued (r' <| curr := p |>)) with (fair_queued r'). rewrite Hqs. simpl.
      intros x Hx. rewrite Hcl. by apply (fo_class b r Hf).
  - eapply holds_same_sched; [exact Hs|by apply same_links_load].
  - by apply (holds_field other _ _ _ _ _ Hs).
  - by apply (h_nr _ _ _ _ _ Hs).
  - done.
  - by apply (h_rest _ _ _ _ _ Hs).
Qed.

(** [p] is what the rules of the fair class choose from the time line of [r]. *)
Definition fair_choice (r : rq Y) (p : Z) : Prop :=
  ∃ q left l, cfs_rqs r !! 0 = Some q ∧ queue_ok (ents r) q (left :: l) ∧
    p = next_choice (tun r) (ents r) q (left :: l) left.

Lemma pick_next_task_fair_ok r :
  fair_ok false r → returns pick_next_task_fair r (λ o r',
    match o with
    | None => r' = r ∧ fair_queued r = ∅
    | Some p => p ∈ fair_queued r ∧ fair_ok true (r' <| curr := p |>) ∧ same_sched r r' ∧
        other r' = other r ∧ nr_running r' = nr_running r ∧ fair_queued r' = fair_queued r ∧
        rest r' = rest r ∧ fair_choice r p
    end).
Proof.
  intros Hf. destruct (fair_start false r Hf) as (q & l & Hs & Hq & Hh & Hcu).
  rewrite current_false in Hcu. unfold pick_next_task_fair. do 2 fstep. fstep; bsimp.
  { fstep. split; [done|]. apply leibniz_equiv, size_empty_inv. unfold fair_queued. rewrite (qo_nr _ _ _ Hq) in Hb. lia. }
  destruct l as [|left l].
  { pose proof (qo_mem _ _ _ Hq) as Hm. rewrite (qo_nr _ _ _ Hq) in Hb.
    destruct (size_pos_elem_of (queued_set (ents r))) as [x Hx]; [lia|].
    destruct (not_elem_of_nil x). apply Hm. by rewrite Hcu. }
  do 3 fstep. cbn [pick_down]. fstep.
  eapply rule_pick_next_entity; [done|exact Hs|exact Hq|done|]. intros r1 p Hp Hs1. fstep.
  destruct (queue_ok_dom _ _ _ p Hq Hp) as [e He].
  eapply rule_set_next_entity; [exact Hs1|by apply queue_ok_unmark|done|exact He|].
  intros r2 q2 l2 E2 Hq2 Hc2 Hh2 _ _ Hs2.
  assert (same_links (ents r) E2) as Hl by (by eapply same_links_insert).
  subst E2 l2. do 2 fstep.
  change (my_q (started (clock_task r) e)) with (my_q e).
  rewrite (fe_my_q e (qo_entities _ _ _ Hq p e He)).
  do 2 fstep. unfold task_of. do 2 fstep.
  assert (p ∈ fair_queued r) as Hpq by (by apply (qo_mem _ _ _ Hq) in Hp as [? _]).
  split; [done|].
  assert (fair_choice r p) as Hch by (exists q, left, l; split_and!; [apply Hs|done|done]).
  destruct (fair_handover false r r2 _ _ _ p Hf Hs2 Hq2 Hl) as (? & ? & ? & ? & ? & ?); try done.
  rewrite Hh2. simpl. rewrite Hh, (qo_nr _ _ _ Hq), (qo_nr _ _ _ Hq2).
  by rewrite (same_links_queued _ _ Hl).
Qed.

(** ** Preemption *)

(** Only time accounting, marks and flags change. *)
Record calm (E : entities) (q : cfs_rq) (l : list Z) (E' : entities) (q' : cfs_rq) : Prop := {
  calm_ok : queue_ok E' q' l;
  calm_links : same_links E E';
  calm_curr : c_curr q' = c_curr q;
  calm_h : h_nr_running q' = h_nr_running q
}.

Lemma calm_refl E q l : queue_ok E q l → calm E q l E q.
Proof. by split. Qed.

Lemma calm_trans E q l E1 q1 E2 q2 : calm E q l E1 q1 → calm E1 q1 l E2 q2 → calm E q l E2 q2.
Proof. intros [] []. split; [done|by etrans|congruence|congruence]. Qed.

Lemma calm_run now E q l : queue_ok E q l → calm E q l (run_curr now E q).1 (run_curr now E q).2.
Proof.
  intros Hq. pose proof (run_curr_shape now E q) as Hsh. injection Hsh as _ _ Hc _ _ _ _ Hh _.
  split; [by apply queue_ok_run|apply run_curr_links|done|done].
Qed.

Lemma fair_step_calm b r r' E q E' q' l :
  fair_ok b r → E = ents r → queue_ok E q l → h_nr_running q = c_nr_running q →
  c_curr q = current_of b r → holds r r' E' q' (nr_running r) → calm E q l E' q' →
  fair_step b r (fair_queued r) (nr_running r) r'.
Proof.
  intros Hf -> Hq Hh Hc Hs [Hq' Hl Hc' Hh']. eapply fair_step_quiet; [exact Hf|exact Hs|exact Hq'|done| |].
  - rewrite Hh', Hh, (qo_nr _ _ _ Hq), (qo_nr _ _ _ Hq'). by rewrite (same_links_queued _ _ Hl).
  - congruence.
Qed.

Lemma rule_load_task r0 r E q n p Q :
  holds r0 r E q n → is_Some (E !! p) → (∀ t, tasks r !! p = Some t → Q t r) →
  returns (load_task p) r Q.
Proof.
  intros Hs [e He] HQ. destruct (holds_task _ _ _ _ _ _ _ Hs He) as (t & Ht & _).
  exists t, r. split; [by apply load_task_eq|by apply HQ].
Qed.

Lemma rule_is_idle_task r0 r E q n l p Q :
  holds r0 r E q n → queue_ok E q l → is_Some (E !! p) → (∀ b, Q b r) →
  returns (is_idle_task (TaskSe p)) r Q.
Proof.
  intros Hs Hq [e He] HQ. unfold is_idle_task, entity_is_task, task_of. do 2 fstep.
  rewrite (fe_my_q e (qo_entities _ _ _ Hq p e He)). do 3 fstep.
  eapply rule_load_task; [exact Hs|by eexists|]. intros t Ht. fstep. apply HQ.
Qed.

(** Marking a queued entity as a buddy. *)
Lemma rule_mark_loop (set : cfs_rq → se_ptr → cfs_rq) r0 r E q n l p Q :
  (∀ q x, calm E q l E q → c_curr (set q x) = c_curr q ∧ h_nr_running (set q x) = h_nr_running q) →
  (∀ q, queue_ok E q l → p ∈ queued_set E → queue_ok E (set q (TaskSe p)) l) →
  holds r0 r E q n → queue_ok E q l → p ∈ queued_set E →
  (∀ r' q', calm E q l E q' → holds r0 r' E q' n → Q tt r') →
  returns (n ← depth_bound;
           _ ← for_each_sched_entity n
                 (λ _ x, c ← cfs_rq_of x;
                         _ ← store_cfs c (λ q, set q x);
                         mret (true, tt)) tt (Some (TaskSe p));
           mret tt) r Q.
Proof.
  intros Hset Hok Hs Hq Hp HQ. destruct (queued_lookup E p Hp) as [e He].
  pose proof (qo_entities _ _ _ Hq p e He) as Hf.
  do 3 fstep. eapply rule_ancestors; [exact Hs|]. fstep.
  eapply rule_cfs_rq_of; [exact Hs|exact He|apply Hf|]. fstep.
  eapply rule_store_cfs; [exact Hs|]. intros r1 Hs1. fstep.
  do 4 eexists. split_and!; [exact Hs1|exact He|apply Hf|]. fstep.
  eapply HQ; [|exact Hs1]. destruct (Hset q (TaskSe p) (calm_refl _ _ _ Hq)). split; auto. done.
Qed.

Lemma rule_set_next_buddy r0 r E q n l p Q :
  holds r0 r E q n → queue_ok E q l → p ∈ queued_set E →
  (∀ r' q', calm E q l E q' → holds r0 r' E q' n → Q tt r') →
  returns (set_next_buddy (TaskSe p)) r Q.
Proof.
  intros Hs Hq Hp HQ. unfold set_next_buddy. fstep.
  eapply rule_is_idle_task; [exact Hs|exact Hq|by apply queued_lookup|]. intros idle.
  fstep; [fstep; eapply HQ; [by apply calm_refl|done]|].
  eapply (rule_mark_loop (λ q x, q <| c_next := Some x |>)); [done| |exact Hs|exact Hq|done|done].
  intros q1 Hq1 Hp1. destruct Hq1. split; try done. simpl. intros x [[= <-]|Hx]; eauto.
Qed.

Lemma rule_set_last_buddy r0 r E q n l p Q :
  holds r0 r E q n → queue_ok E q l → p ∈ queued_set E →
  (∀ r' q', calm E q l E q' → holds r0 r' E q' n → Q tt r') →
  returns (set_last_buddy (TaskSe p)) r Q.
Proof.
  intros Hs Hq Hp HQ. unfold set_last_buddy. fstep.
  eapply rule_is_idle_task; [exact Hs|exact Hq|by apply queued_lookup|]. intros idle.
  fstep; [fstep; eapply HQ; [by apply calm_refl|done]|].
  eapply (rule_mark_loop (λ q x, q <| c_last := Some x |>)); [done| |exact Hs|exact Hq|done|done].
  intros q1 Hq1 Hp1. destruct Hq1. split; try done. simpl. intros x [Hx|[[= <-]|Hx]]; eauto.
Qed.

(** Two tasks outside all groups are siblings. *)
Lemma rule_find_matching r0 r E q n l x y Q :
  holds r0 r E q n → queue_ok E q l → is_Some (E !! x) → is_Some (E !! y) →
  Q (TaskSe x, TaskSe y) r → returns (find_matching_se (TaskSe x) (TaskSe y)) r Q.
Proof.
  intros Hs Hq [ex Hx] [ey Hy] HQ. pose proof (qo_entities _ _ _ Hq x ex Hx) as Hfx.
  pose proof (qo_entities _ _ _ Hq y ey Hy) as Hfy. unfold find_matching_se.
  assert (∀ p e Q, E !! p = Some e → se_parent e = None → Q 1 r → returns (depth_se (TaskSe p)) r Q)
    as Hd.
  { intros p e Q' He Hp HQ'. unfold depth_se. do 3 fstep. eapply rule_ancestors; [exact Hs|].
    fstep. do 4 eexists. split_and!; [exact Hs|exact He|done|]. by fstep. }
  fstep. eapply Hd; [exact Hx|apply Hfx|]. fstep. eapply Hd; [exact Hy|apply Hfy|].
  change (Z.to_nat (1 - 1)) with 0%nat. cbn [walk_up]. do 6 fstep. cbn [match_groups].
  unfold is_same_group. do 2 fstep. eapply rule_cfs_rq_of; [exact Hs|exact Hx|apply Hfx|]. fstep.
  eapply rule_cfs_rq_of; [exact Hs|exact Hy|apply Hfy|]. fstep.
  change (0 =? 0) with true. cbv beta iota. by fstep.
Qed.

(** The decision of [check_preempt_wakeup]: nobody, or the running task. *)
Lemma rule_preempt_decision r0 r E q n l c p (ct t : task) (mark : bool) Q :
  holds r0 r E q n → queue_ok E q l → is_Some (E !! c) → p ∈ queued_set E →
  (∀ r' E' q' o, calm E q l E' q' → o = None ∨ o = Some (TaskSe c) → holds r0 r' E' q' n → Q o r') →
  returns (if (policy ct =? SCHED_IDLE) && negb (policy t =? SCHED_IDLE) then mret (Some (TaskSe c))
           else if negb (policy t =? SCHED_NORMAL) then mret None
           else
             m ← find_matching_se (TaskSe c) (TaskSe p);
             mc ← cfs_rq_of m.1;
             _ ← update_curr mc;
             w ← wakeup_preempt_entity m.1 m.2;
             if w =? 1 then
               _ ← (if mark then mret tt else set_next_buddy m.2);
               mret (Some m.1)
             else mret None) r Q.
Proof.
  intros Hs Hq [ec Hec] Hp HQ. pose proof (calm_refl _ _ _ Hq) as Hr.
  fstep; [fstep; eapply HQ; [exact Hr|by right|exact Hs]|].
  fstep; [fstep; eapply HQ; [exact Hr|by left|exact Hs]|]. fstep.
  eapply rule_find_matching; [exact Hs|exact Hq|by eexists|by apply queued_lookup|]. cbn [fst snd].
  fstep. eapply rule_cfs_rq_of; [exact Hs|exact Hec|apply (qo_entities _ _ _ Hq c ec Hec)|]. fstep.
  eapply rule_update_curr; [done|exact Hs|exact Hq|].
  pose proof (calm_run (clock_task r0) _ _ _ Hq) as Hcalm.
  set (s := run_curr (clock_task r0) E q) in *. pose proof (calm_ok _ _ _ _ _ Hcalm) as Hq1.
  clear Hs r. intros r Hs. fstep.
  assert (p ∈ queued_set s.1) as Hp1 by (by rewrite (same_links_queued _ _ (calm_links _ _ _ _ _ Hcalm))).
  eapply rule_wakeup_preempt; [done|exact Hs|exact Hq1| |by apply queued_lookup|].
  { destruct (same_links_lookup _ _ c ec (symmetry (calm_links _ _ _ _ _ Hcalm)) Hec)
      as (e & -> & _). by eexists. }
  clear Hs r. intros r v _ _ Hs. fstep; [|fstep; eapply HQ; [exact Hcalm|by left|exact Hs]]. fstep.
  destruct mark; [do 2 fstep; eapply HQ; [exact Hcalm|by right|exact Hs]|].
  eapply rule_set_next_buddy; [exact Hs|exact Hq1|done|]. clear Hs r. intros r q2 Hc2 Hs. fstep.
  eapply HQ; [by eapply calm_trans|by right|exact Hs].
Qed.

Lemma check_preempt_wakeup_ok r t p flags :
  fair_ok true r → tasks r !! curr r = Some t → class t = fair_sched_class → p ∈ fair_queued r →
  returns (check_preempt_wakeup p flags) r (λ _ r',
    fair_step true r (fair_queued r) (nr_running r) r').
Proof.
  intros Hf Ht Hc Hp. destruct (fair_start true r Hf) as (q & l & Hs & Hq & Hh & Hcu).
  pose proof (ents_lookup r _ t Ht) as He. pose proof (qo_entities _ _ _ Hq _ _ He) as Hfe.
  destruct (queued_lookup _ _ Hp) as [ep Hep]. pose proof (qo_entities _ _ _ Hq _ _ Hep) as Hfp.
  assert (∀ r' E' q', calm (ents r) q l E' q' → holds r r' E' q' (nr_running r) →
    fair_step true r (fair_queued r) (nr_running r) r') as Hend
    by (intros r' E' q' Hca Hs'; by eapply fair_step_calm).
  unfold check_preempt_wakeup. do 3 fstep. eapply rule_cfs_rq_of; [exact Hs|exact He|apply Hfe|].
  do 4 fstep. destruct (decide _); [fstep; eapply Hend; [by apply calm_refl|done]|]. fstep.
  eapply rule_cfs_rq_of; [exact Hs|exact Hep|apply Hfp|]. unfold throttled_hierarchy. do 4 fstep.
  rewrite Hbw. cbn [andb]. set (mark := feat_NEXT_BUDDY && _ && _). fstep.
  apply (returns_mono _ _ (λ _ r', ∃ q', calm (ents r) q l (ents r) q' ∧
    holds r r' (ents r) q' (nr_running r))).
  { destruct mark; [|fstep; exists q; split; [by apply calm_refl|done]].
    eapply rule_set_next_buddy; [exact Hs|exact Hq|done|]. eauto. }
  intros _ r1 (q1 & Hc1 & Hs1). pose proof (calm_ok _ _ _ _ _ Hc1) as Hq1. fstep.
  eapply rule_load_task; [exact Hs1|by eexists|]. intros ct _. fstep.
  eapply rule_load_task; [exact Hs1|by eexists|]. intros pt _.
  fstep; [fstep; by eapply Hend|]. fstep.
  eapply rule_preempt_decision; [exact Hs1|exact Hq1|by eexists|done|].
  intros r2 E2 q2 o Hc2 Ho Hs2. pose proof (calm_trans _ _ _ _ _ _ _ Hc1 Hc2) as Hc12.
  destruct Ho as [->| ->]; [fstep; by eapply Hend|].
  destruct (same_links_lookup _ _ _ _ (symmetry (calm_links _ _ _ _ _ Hc12)) He)
    as (e2 & He2 & Hl2).
  do 6 fstep. fstep; [fstep; by eapply Hend|]. fstep; [|fstep; by eapply Hend].
  eapply rule_set_last_buddy; [exact Hs2|apply Hc12| |].
  { apply orb_false_iff in Hb0 as [Hb0 _]. bsimp. apply elem_of_queued. exists e2. split; [done|].
    destruct (fe_on_rq e2 (qo_entities _ _ _ (calm_ok _ _ _ _ _ Hc12) _ _ He2)); [done|done]. }
  intros r3 q3 Hc3 Hs3. eapply Hend; [|exact Hs3]. by eapply calm_trans.
Qed.

Lemma switched_from_fair_ok b r p t :
  fair_ok b r → tasks r !! p = Some t →
  returns (switched_from_fair p) r (λ _ r', fair_step b r (fair_queued r) (nr_running r) r').
Proof.
  intros Hf Ht. destruct (fair_start b r Hf) as (q & l & Hs & Hq & Hh & Hcu).
  pose proof (ents_lookup r _ t Ht) as He. pose proof (qo_entities _ _ _ Hq _ _ He) as Hfe.
  unfold switched_from_fair. fstep. eapply rule_load_task; [exact Hs|by eexists|]. intros t' Ht'.
  rewrite Ht in Ht'. injection Ht' as <-. fstep.
  eapply rule_cfs_rq_of; [exact Hs|exact He|apply Hfe|]. fstep.
  - fstep. eapply rule_place_sleeper; [exact Hs|exact He|]. intros r1 Hs1. do 3 fstep.
    rewrite insert_insert_eq in Hs1. eapply fair_step_calm; [exact Hf|done|exact Hq|done|done|exact Hs1|].
    assert (∀ e, links e = links (se t) → same_links (ents r) (<[p := e]> (ents r))) as Hl
      by (intros e Hle; by eapply same_links_insert).
    split; [|by apply Hl|done|done]. by eapply queue_ok_quiet; [exact Hq|apply Hl|].
  - fstep. eapply fair_step_calm; [exact Hf|done|exact Hq|done|done|exact Hs|]. by apply calm_refl.
Qed.

(** ** The core's test for preemption *)

Lemma fair_step_refl b r : fair_ok b r → fair_step b r (fair_queued r) (nr_running r) r.
Proof. by split. Qed.

Lemma fair_attr r p t t' :
  tasks r !! p = Some t → se t' = se t → ents (r <| tasks ::= <[p := t']> |>) = ents r.
Proof.
  intros Ht Hse. unfold ents. simpl. rewrite fmap_insert, Hse. apply insert_id.
  by rewrite lookup_fmap, Ht.
Qed.


(** ** The other classes *)

Definition other_class (c : sched_class) : Prop :=
  c = stop_sched_class ∨ c = rt_sched_class ∨ c = idle_sched_class.

(** A method of another class leaves the fair class alone; it may account run time
    to an entity. *)
Record aside (r r' : rq Y) : Prop := {
  as_same : same_sched r r';
  as_links : same_links (ents r) (ents r');
  as_cfs : cfs_rqs r' = cfs_rqs r;
  as_groups : groups r' = groups r
}.

(** What the stop, real-time and idle classes promise.  [oth_queued] are the tasks
    on their queues; a task they queue is counted in [nr_running]. *)
Class OtherLaws : Type := {
  oth_ok : rq Y → Prop;
  oth_queued : rq Y → gset Z;
  oth_frame : ∀ r r', oth_ok r → other r' = other r → same_sched r r' →
    oth_ok r' ∧ oth_queued r' = oth_queued r;
  oth_curr : ∀ r p, oth_ok r →
    oth_ok (r <| curr := p |>) ∧ oth_queued (r <| curr := p |>) = oth_queued r;
  oth_attr : ∀ r p t t', oth_ok r → tasks r !! p = Some t →
    (p ∉ oth_queued r ∨ prio t' = prio t) →
    (class t' = class t ∨ (class t ≠ idle_sched_class ∧ p ∉ oth_queued r)) →
    oth_ok (r <| tasks ::= <[p := t']> |>) ∧
    oth_queued (r <| tasks ::= <[p := t']> |>) = oth_queued r;
  oth_new : ∀ r p t, oth_ok r → tasks r !! p = None → policy_class (class t) →
    oth_ok (r <| tasks ::= <[p := t]> |>) ∧
    oth_queued (r <| tasks ::= <[p := t]> |>) = oth_queued r;
  oth_fork : ∀ r m p t, oth_ok r → tasks r !! p = Some t → class t = rt_sched_class →
    task_fork_method (class_methods rt_sched_class) = Some m →
    returns (m p) r (λ _ r',
      oth_ok r' ∧ aside r r' ∧ oth_queued r' = oth_queued r ∧ nr_running r' = nr_running r);
  oth_class : ∀ r p, oth_ok r → p ∈ oth_queued r →
    ∃ t, tasks r !! p = Some t ∧ (class t = stop_sched_class ∨ class t = rt_sched_class);
  oth_enqueue : ∀ r p flags t, oth_ok r → tasks r !! p = Some t →
    class t = stop_sched_class ∨ class t = rt_sched_class → p ∉ oth_queued r →
    ∃ m, enqueue_method (class_methods (class t)) = Some m ∧ returns (m p flags) r (λ _ r',
      oth_ok r' ∧ aside r r' ∧ oth_queued r' = {[p]} ∪ oth_queued r ∧
      nr_running r' = u32 (nr_running r + 1));
  oth_dequeue : ∀ r p flags t, oth_ok r → tasks r !! p = Some t → p ∈ oth_queued r →
    ∃ m, dequeue_method (class_methods (class t)) = Some m ∧ returns (m p flags) r (λ _ r',
      oth_ok r' ∧ aside r r' ∧ oth_queued r' = oth_queued r ∖ {[p]} ∧
      nr_running r' = u32 (nr_running r - 1));
  oth_put_prev : ∀ r t, oth_ok r → tasks r !! curr r = Some t → other_class (class t) →
    ∃ m, put_prev_method (class_methods (class t)) = Some m ∧ returns (m (curr r)) r (λ _ r',
      oth_ok r' ∧ aside r r' ∧ oth_queued r' = oth_queued r ∧ nr_running r' = nr_running r);
  oth_set_curr : ∀ r t, oth_ok r → tasks r !! curr r = Some t → other_class (class t) →
    ∃ m, set_curr_method (class_methods (class t)) = Some m ∧ returns m r (λ _ r',
      oth_ok r' ∧ aside r r' ∧ oth_queued r' = oth_queued r ∧ nr_running r' = nr_running r);
  oth_tick : ∀ r t, oth_ok r → tasks r !! curr r = Some t → other_class (class t) →
    ∃ m, task_tick_method (class_methods (class t)) = Some m ∧ returns (m (curr r) 0) r (λ _ r',
      oth_ok r' ∧ aside r r' ∧ oth_queued r' = oth_queued r ∧ nr_running r' = nr_running r);
  oth_preempt : ∀ r t p wake_flags, oth_ok r → tasks r !! curr r = Some t →
    other_class (class t) → class <$> tasks r !! p = Some (class t) → p ∈ oth_queued r →
    ∃ m, check_preempt_method (class_methods (class t)) = Some m ∧
      returns (m p wake_flags) r (λ _ r',
        oth_ok r' ∧ aside r r' ∧ oth_queued r' = oth_queued r ∧ nr_running r' = nr_running r);
  oth_switched_from : ∀ r c m p t, oth_ok r → other_class c →
    switched_from_method (class_methods c) = Some m → tasks r !! p = Some t → class t ≠ c →
    returns (m p) r (λ _ r',
      oth_ok r' ∧ aside r r' ∧ oth_queued r' = oth_queued r ∧ nr_running r' = nr_running r);
  oth_switched_to : ∀ r p t, oth_ok r → tasks r !! p = Some t → class t = rt_sched_class →
    is_Some (tasks r !! curr r) →
    ∃ m, switched_to_method (class_methods rt_sched_class) = Some m ∧ returns (m p) r (λ _ r',
      oth_ok r' ∧ aside r r' ∧ oth_queued r' = oth_queued r ∧ nr_running r' = nr_running r);
  oth_prio_changed : ∀ r p old t, oth_ok r → tasks r !! p = Some t → class t = rt_sched_class →
    is_Some (tasks r !! curr r) →
    ∃ m, prio_changed_method (class_methods rt_sched_class) = Some m ∧
      returns (m p old) r (λ _ r',
        oth_ok r' ∧ aside r r' ∧ oth_queued r' = oth_queued r ∧ nr_running r' = nr_running r);
  oth_pick : ∀ r c, oth_ok r → other_class c →
    (∀ q t, tasks r !! q = Some t → other_class (class t) → (q ∈ oth_queued r ↔ on_rq t = 1)) →
    ∃ m, pick_next_method (class_methods c) = Some m ∧ returns m r (λ o r',
      match o with
      | None => r' = r ∧ c ≠ idle_sched_class
      | Some p => oth_ok r' ∧ aside r r' ∧ oth_queued r' = oth_queued r ∧
          nr_running r' = nr_running r ∧ class <$> tasks r !! p = Some c ∧
          (c ≠ idle_sched_class → p ∈ oth_queued r)
      end)
}.
Context `{!OtherLaws}.

(** The invariant of all classes together. *)
Record all_ok (b : bool) (r : rq Y) : Prop := {
  ao_fair : fair_ok b r;
  ao_other : oth_ok r;
  ao_nr : nr_running r = Z.of_nat (size (fair_queued r)) + Z.of_nat (size (oth_queued r))
}.

Definition all_queued (r : rq Y) (p : Z) : Prop := p ∈ fair_queued r ∨ p ∈ oth_queued r.

Lemma queued_disjoint b r p : all_ok b r → p ∈ fair_queued r → p ∉ oth_queued r.
Proof.
  intros [Hf Ho _] Hp Hp'. pose proof (fo_class b r Hf p Hp) as Hc.
  destruct (oth_class r p Ho Hp') as (t & Ht & Hc'). rewrite Ht in Hc. simpl in Hc.
  destruct Hc' as [Hc'|Hc']; rewrite Hc' in Hc; discriminate Hc.
Qed.

Lemma queued_total b r :
  all_ok b r → nr_running r ≤ Z.of_nat (size (tasks r)) ∧ Z.of_nat (size (tasks r)) < 2 ^ 32.
Proof.
  intros Hr. pose proof Hr as [Hf Ho Hn]. split.
  - rewrite Hn, <- Nat2Z.inj_add, <- size_union
      by (intros p Hp Hp'; by apply (queued_disjoint b r p)).
    rewrite <- (size_dom (tasks r)). apply Nat2Z.inj_le, subseteq_size.
    intros p [Hp|Hp]%elem_of_union; apply elem_of_dom.
    + apply queued_lookup in Hp as [e He]. unfold ents in He. rewrite lookup_fmap in He.
      apply fmap_Some in He as (t & -> & _). by eexists.
    + destruct (oth_class r p Ho Hp) as (t & -> & _). by eexists.
  - destruct (fair_start b r Hf) as (q & l & _ & Hq & _). pose proof (qo_size _ _ _ Hq) as Hs.
    unfold ents in Hs. by rewrite map_size_fmap in Hs.
Qed.

(** A task that is on no queue leaves room for the counter. *)
Lemma queued_room b r p t :
  all_ok b r → tasks r !! p = Some t → ¬ all_queued r p →
  0 ≤ nr_running r ∧ nr_running r + 1 < 2 ^ 32.
Proof.
  intros Hr Ht Hp. pose proof Hr as [Hf Ho Hn]. split; [lia|].
  destruct (queued_total b r Hr) as [_ Hb].
  assert (size (fair_queued r ∪ oth_queued r) < size (tasks r))%nat as Hlt.
  { rewrite <- (size_dom (tasks r)). apply subset_size. split.
    - intros x [Hx|Hx]%elem_of_union; apply elem_of_dom.
      + apply queued_lookup in Hx as [e He]. unfold ents in He. rewrite lookup_fmap in He.
        apply fmap_Some in He as (t' & -> & _). by eexists.
      + destruct (oth_class r x Ho Hx) as (t' & -> & _). by eexists.
    - intros Hsub. apply Hp. assert (p ∈ dom (tasks r)) as Hd by (apply elem_of_dom; by eexists).
      apply Hsub, elem_of_union in Hd. exact Hd. }
  rewrite size_union in Hlt by (intros x Hx Hx'; by apply (queued_disjoint b r x)).
  change (2 ^ 32) with 4294967296 in *. lia.
Qed.

(** ** Composition *)

Lemma fair_to_all b b' r X n r' :
  all_ok b r → fair_step b' r X n r' → n = Z.of_nat (size X) + Z.of_nat (size (oth_queued r)) →
  all_ok b' r' ∧ oth_queued r' = oth_queued r.
Proof.
  intros [Hf Ho Hn] [Hf' Hs Hot Hnr HX] Hn'. destruct (oth_frame r r' Ho Hot Hs) as [Ho' Hq].
  split; [|done]. split; [done|done|]. by rewrite Hnr, HX, Hq.
Qed.

(** A step of the fair class that queues nothing. *)
Lemma fair_quiet_all b b' r r' :
  all_ok b r → fair_step b' r (fair_queued r) (nr_running r) r' →
  all_ok b' r' ∧ same_sched r r' ∧ ∀ q, all_queued r' q ↔ all_queued r q.
Proof.
  intros Hr Hs. destruct (fair_to_all b b' r _ _ r' Hr Hs) as [Hr' Hq]; [apply Hr|].
  split_and!; [done|apply Hs|]. intros q. unfold all_queued.
  by rewrite Hq, (fs_queued _ _ _ _ _ Hs).
Qed.

Lemma class_same r r' q : same_sched r r' → class <$> tasks r' !! q = class <$> tasks r !! q.
Proof.
  intros Hs. pose proof (ss_tasks _ _ Hs q) as Hq.
  destruct (tasks r' !! q) as [t'|], (tasks r !! q) as [t|]; simpl in *; try done.
  apply (inj Some) in Hq. by rewrite (erase_class _ _ Hq).
Qed.

Lemma fair_ok_shape b b' r r' q l :
  fair_ok b r → cfs_rqs r !! 0 = Some q → queue_ok (ents r) q l →
  same_links (ents r) (ents r') → cfs_rqs r' = cfs_rqs r → groups r' = groups r →
  (∀ x, class <$> tasks r' !! x = class <$> tasks r !! x) → c_curr q = current_of b' r' →
  h_nr_running q = c_nr_running q → fair_ok b' r'.
Proof.
  intros Hf Hcq Hq Hl Hc Hg Hcl Hcu Hh. split.
  - destruct (fo_root b r Hf) as (g & ?). exists g. by rewrite Hg.
  - exists q, l. split_and!; [by rewrite Hc|by eapply queue_ok_quiet|done|done].
  - unfold fair_queued. rewrite (same_links_queued _ _ Hl). intros p Hp. rewrite Hcl.
    by apply (fo_class b r Hf).
Qed.

Lemma aside_fair b r r' :
  fair_ok b r → aside r r' → fair_ok b r' ∧ fair_queued r' = fair_queued r.
Proof.
  intros Hf [Hs Hl Hc Hg]. destruct (fo_queue b r Hf) as (q & l & Hcq & Hq & Hh & Hcu). split.
  - eapply fair_ok_shape; [exact Hf|exact Hcq|exact Hq|done|done|done| | |done].
    + intros x. by apply class_same.
    + rewrite Hcu. unfold current_of. by rewrite (ss_curr _ _ Hs), (class_same r r').
  - unfold fair_queued. by rewrite (same_links_queued _ _ Hl).
Qed.

Lemma aside_all b r r' :
  all_ok b r → oth_ok r' ∧ aside r r' ∧ oth_queued r' = oth_queued r ∧
    nr_running r' = nr_running r →
  all_ok b r' ∧ same_sched r r' ∧ ∀ q, all_queued r' q ↔ all_queued r q.
Proof.
  intros [Hf Ho Hn] (Ho' & Ha & Hq & Hnr). destruct (aside_fair b r r' Hf Ha) as [Hf' Hfq].
  split_and!; [|apply Ha|].
  - split; [done|done|]. by rewrite Hnr, Hn, Hq, Hfq.
  - intros x. unfold all_queued. by rewrite Hq, Hfq.
Qed.

(** Which task the fair class holds as its current one depends on the running
    task only if that is in the fair class. *)
Lemma fair_ok_idle b b' r :
  fair_ok b r → class <$> tasks r !! curr r ≠ Some fair_sched_class → fair_ok b' r.
Proof.
  intros Hf Hc. destruct (fo_queue b r Hf) as (q & l & Hcq & Hq & Hh & Hcu).
  eapply fair_ok_shape; [exact Hf|exact Hcq|exact Hq|done|done|done|done| |done].
  rewrite Hcu. unfold current_of. by rewrite bool_decide_eq_false_2, !andb_false_r.
Qed.

Lemma all_ok_idle b b' r :
  all_ok b r → class <$> tasks r !! curr r ≠ Some fair_sched_class → all_ok b' r.
Proof. intros [Hf Ho Hn] Hc. split; [by eapply fair_ok_idle|done|done]. Qed.

Lemma methods_of_other c : other_class c → methods_of c = class_methods c.
Proof. by intros [->|[->| ->]]. Qed.

Lemma other_or_fair c : c ≠ mycfs_sched_class → c = fair_sched_class ∨ other_class c.
Proof. unfold other_class. destruct c; auto. done. Qed.

(** ** The laws, one by one *)

Lemma law_counters b r r' :
  all_ok b r → counters r r' → all_ok b r' ∧ ∀ q, all_queued r' q ↔ all_queued r q.
Proof.
  intros [Hf Ho Hn] Hc. pose proof (counters_same r r' Hc) as Hs.
  assert (tasks r' = tasks r ∧ cfs_rqs r' = cfs_rqs r ∧ groups r' = groups r ∧
          other r' = other r ∧ nr_running r' = nr_running r) as (Ht & Hcf & Hg & Hot & Hnr)
    by (rewrite Hc; by destruct r).
  destruct (oth_frame r r' Ho Hot Hs) as [Ho' Hoq].
  assert (aside r r') as Ha by (split; [done|unfold ents; by rewrite Ht|done|done]).
  destruct (aside_all b r r') as (? & _ & ?); [by split|done|]. done.
Qed.

Lemma queued_set_load (E : entities) p e lw :
  E !! p = Some e → queued_set (<[p := e <| load := lw |>]> E) = queued_set E.
Proof.
  intros He. apply set_eq. intros x. rewrite !elem_of_queued.
  destruct (decide (x = p)) as [->|Hne]; [|by rewrite lookup_insert_ne].
  rewrite lookup_insert_eq, He.
  split; intros (e' & [= <-] & Ho'); eexists; (split; [done|]); done.
Qed.

(** The weight of an entity that is not queued may change. *)
Lemma queue_ok_attr E q l p e lw :
  queue_ok E q l → E !! p = Some e → load_valid lw → p ∉ queued_set E ∨ lw = load e →
  queue_ok (<[p := e <| load := lw |>]> E) q l.
Proof.
  intros Hq He Hl [Hp|Hlw].
  2: { rewrite insert_id; [done|]. rewrite He, Hlw. by destruct e. }
  pose proof (queued_set_load E p e lw He) as Hqs. pose proof (qo_load _ _ _ Hq) as Hld.
  rewrite <- (sum_weight_insert E p (e <| load := lw |>) _ Hp) in Hld.
  destruct Hq as [Hen]. split; rewrite ?Hqs; try done.
  - intros x e' [[<- <-]|[_ Hx]]%lookup_insert_Some; [|eauto]. by destruct (Hen p e He).
  - intros x Hx. destruct (qo_curr x Hx) as (y & -> & Hy). exists y. split; [done|].
    apply lookup_insert_is_Some. destruct (decide (p = y)); auto.
  - by rewrite map_size_insert_Some.
Qed.

Lemma law_attr b r p t t' :
  all_ok b r → tasks r !! p = Some t → attr_of t t' →
  (¬ all_queued r p ∨ load (se t') = load (se t) ∧ prio t' = prio t) →
  (class t' = class t ∨ ¬ all_queued r p ∧ (b = false ∨ curr r ≠ p) ∧ class t ≠ idle_sched_class) →
  let r' := r <| tasks ::= <[p := t']> |> in
  all_ok b r' ∧ ∀ q, all_queued r' q ↔ all_queued r q.
Proof.
  intros Hr Ht [Hse Hlv] Hld Hcl r'. pose proof Hr as [Hf Ho Hn].
  destruct (fo_queue b r Hf) as (q & l & Hcq & Hq & Hh & Hcu).
  pose proof (ents_lookup r p t Ht) as He. unfold all_queued in Hld, Hcl.
  assert (ents r' = <[p := (se t) <| load := load (se t') |>]> (ents r)) as Hents
    by (unfold ents, r'; simpl; by rewrite fmap_insert, <- Hse).
  assert (fair_queued r' = fair_queued r) as Hfq
    by (unfold fair_queued; rewrite Hents; by apply queued_set_load).
  destruct (oth_attr r p t t' Ho Ht) as [Ho' Hoq].
  { tauto. }
  { tauto. }
  fold r' in Ho', Hoq.
  split; [|intros x; unfold all_queued; by rewrite Hoq, Hfq].
  split; [|done|unfold r' at 1; simpl; by rewrite Hoq, Hfq].
  split; [apply (fo_root b r Hf)| |].
  - exists q, l. split_and!; [done| |done|].
    + rewrite Hents. apply queue_ok_attr; try done. unfold fair_queued in Hld. tauto.
    + rewrite Hcu. unfold current_of. simpl. destruct (decide (curr r = p)) as [Hcp|Hne].
      * rewrite Hcp, lookup_insert_eq, Ht. simpl. destruct Hcl as [->|(_ & [->|?] & _)]; done.
      * by rewrite lookup_insert_ne.
  - rewrite Hfq. intros x Hx. simpl. pose proof (fo_class b r Hf x Hx) as Hx'.
    destruct (decide (x = p)) as [->|Hne]; [|by rewrite lookup_insert_ne].
    rewrite Ht in Hx'. rewrite lookup_insert_eq. simpl in *. destruct Hcl as [->|[? _]]; tauto.
Qed.

Lemma law_queued b r p :
  all_ok b r → all_queued r p → ∃ t, tasks r !! p = Some t ∧ queueing (class t).
Proof.
  intros [Hf Ho _] [Hp|Hp]; unfold queueing.
  - apply (fo_class b r Hf), fmap_Some in Hp as (t & ? & ?). eauto.
  - destruct (oth_class r p Ho Hp) as (t & ? & [?|?]); eauto.
Qed.

Lemma law_enqueue b p flags r t :
  all_ok b r → tasks r !! p = Some t → queueing (class t) → ¬ all_queued r p →
  ∃ m, enqueue_method (methods_of (class t)) = Some m ∧ returns (m p flags) r (λ _ r',
    all_ok b r' ∧ same_sched r r' ∧ ∀ q, all_queued r' q ↔ q = p ∨ all_queued r q).
Proof.
  intros Hr Ht Hc Hp. pose proof Hr as [Hf Ho Hn]. destruct (queued_room b r p t Hr Ht Hp) as [Hn0 Hn1].
  unfold all_queued in Hp. assert (u32 (nr_running r + 1) = nr_running r + 1) as Hw
    by (apply uwrap_small; unfold in_u; lia).
  destruct (decide (class t = fair_sched_class)) as [Hcf|Hcf].
  - exists enqueue_task_fair. rewrite Hcf. split; [done|].
    eapply returns_mono; [apply (enqueue_task_fair_ok b r p t flags); tauto|]. intros [] r' Hs.
    destruct (fair_to_all b b r _ _ r' Hr Hs) as [Hr' Hq].
    { rewrite Hw, Hn, size_union, size_singleton by set_solver. lia. }
    split_and!; [done|apply Hs|]. intros x. unfold all_queued.
    rewrite Hq, (fs_queued _ _ _ _ _ Hs), elem_of_union, elem_of_singleton. tauto.
  - assert (class t = stop_sched_class ∨ class t = rt_sched_class) as Hc'
      by (destruct Hc as [?|[?|?]]; auto; done).
    destruct (oth_enqueue r p flags t Ho Ht Hc') as (m & Hm & Hrun); [tauto|].
    exists m. rewrite methods_of_other by (unfold other_class; tauto). split; [done|].
    eapply returns_mono; [exact Hrun|]. intros [] r' (Ho' & Ha & Hq & Hnr).
    destruct (aside_fair b r r' Hf Ha) as [Hf' Hfq]. split_and!; [|apply Ha|].
    + split; [done|done|]. rewrite Hnr, Hw, Hn, Hq, Hfq, size_union, size_singleton by set_solver. lia.
    + intros x. unfold all_queued. rewrite Hq, Hfq, elem_of_union, elem_of_singleton. tauto.
Qed.

Lemma size_minus (X : gset Z) p :
  p ∈ X → Z.of_nat (size (X ∖ {[p]})) = Z.of_nat (size X) - 1.
Proof.
  intros Hp. rewrite size_difference, size_singleton by set_solver.
  assert (size X ≠ 0%nat) by (apply size_non_empty_iff; set_solver). lia.
Qed.

Lemma law_dequeue b p flags r t :
  all_ok b r → tasks r !! p = Some t → all_queued r p →
  ∃ m, dequeue_method (methods_of (class t)) = Some m ∧ returns (m p flags) r (λ _ r',
    all_ok b r' ∧ same_sched r r' ∧ ∀ q, all_queued r' q ↔ q ≠ p ∧ all_queued r q).
Proof.
  intros Hr Ht Hp. pose proof Hr as [Hf Ho Hn]. destruct (queued_total b r Hr) as [Hn0 Hn1].
  pose proof (queued_disjoint b r) as Hdis.
  destruct Hp as [Hp|Hp].
  - pose proof (fo_class b r Hf p Hp) as Hc. rewrite Ht in Hc. injection Hc as Hc.
    exists dequeue_task_fair. rewrite Hc. split; [done|].
    eapply returns_mono; [by apply (dequeue_task_fair_ok b r p t flags)|]. intros [] r' Hs.
    pose proof (size_minus _ p Hp) as Hsz.
    destruct (fair_to_all b b r _ _ r' Hr Hs) as [Hr' Hq].
    { rewrite Hsz, uwrap_small; [lia|]. unfold in_u. lia. }
    split_and!; [done|apply Hs|]. intros x. unfold all_queued.
    rewrite Hq, (fs_queued _ _ _ _ _ Hs), elem_of_difference, elem_of_singleton. split; [|tauto].
    intros [?|Hx]; [tauto|]. split; [|tauto]. intros ->. by apply (Hdis p Hr).
  - destruct (oth_dequeue r p flags t Ho Ht Hp) as (m & Hm & Hrun).
    destruct (oth_class r p Ho Hp) as (t' & Ht' & Hc). rewrite Ht in Ht'. injection Ht' as <-.
    exists m. rewrite methods_of_other by (unfold other_class; tauto). split; [done|].
    eapply returns_mono; [exact Hrun|]. intros [] r' (Ho' & Ha & Hq & Hnr).
    destruct (aside_fair b r r' Hf Ha) as [Hf' Hfq]. pose proof (size_minus _ p Hp) as Hsz.
    split_and!; [|apply Ha|].
    + split; [done|done|]. rewrite Hnr, Hq, Hfq, Hsz, uwrap_small; [lia|unfold in_u; lia].
    + intros x. unfold all_queued. rewrite Hq, Hfq, elem_of_difference, elem_of_singleton.
      split; [|tauto]. intros [Hx|?]; [|tauto]. split; [|tauto]. intros ->. by apply (Hdis p Hr).
Qed.

Lemma law_put_prev r t :
  all_ok true r → tasks r !! curr r = Some t → class t ≠ mycfs_sched_class →
  ∃ m, put_prev_method (methods_of (class t)) = Some m ∧ returns (m (curr r)) r (λ _ r',
    all_ok false r' ∧ same_sched r r' ∧ ∀ q, all_queued r' q ↔ all_queued r q).
Proof.
  intros Hr Ht Hc. destruct (other_or_fair _ Hc) as [Hcf|Hco].
  - exists put_prev_task_fair. rewrite Hcf. split; [done|].
    eapply returns_mono; [apply (put_prev_task_fair_ok r t); [apply Hr|done|done]|].
    intros [] r' Hs. by eapply fair_quiet_all.
  - destruct (oth_put_prev r t (ao_other _ _ Hr) Ht Hco) as (m & Hm & Hrun). exists m.
    rewrite methods_of_other by done. split; [done|]. eapply returns_mono; [exact Hrun|].
    intros [] r' Ha. apply (aside_all false r r'); [|done]. eapply all_ok_idle; [exact Hr|].
    rewrite Ht. simpl. by destruct Hco as [->|[->| ->]].
Qed.

Lemma law_set_curr r t :
  all_ok false r → tasks r !! curr r = Some t → class t ≠ mycfs_sched_class →
  ∃ m, set_curr_method (methods_of (class t)) = Some m ∧ returns m r (λ _ r',
    all_ok true r' ∧ same_sched r r' ∧ ∀ q, all_queued r' q ↔ all_queued r q).
Proof.
  intros Hr Ht Hc. destruct (other_or_fair _ Hc) as [Hcf|Hco].
  - exists set_curr_task_fair. rewrite Hcf. split; [done|].
    eapply returns_mono; [apply (set_curr_task_fair_ok r t); [apply Hr|done|done]|].
    intros [] r' Hs. by eapply fair_quiet_all.
  - destruct (oth_set_curr r t (ao_other _ _ Hr) Ht Hco) as (m & Hm & Hrun). exists m.
    rewrite methods_of_other by done. split; [done|]. eapply returns_mono; [exact Hrun|].
    intros [] r' Ha. apply (aside_all true r r'); [|done]. eapply all_ok_idle; [exact Hr|].
    rewrite Ht. simpl. by destruct Hco as [->|[->| ->]].
Qed.

Lemma law_tick r t :
  all_ok true r → tasks r !! curr r = Some t → class t ≠ mycfs_sched_class →
  ∃ m, task_tick_method (methods_of (class t)) = Some m ∧ returns (m (curr r) 0) r (λ _ r',
    all_ok true r' ∧ same_sched r r' ∧ ∀ q, all_queued r' q ↔ all_queued r q).
Proof.
  intros Hr Ht Hc. destruct (other_or_fair _ Hc) as [Hcf|Hco].
  - exists task_tick_fair. rewrite Hcf. split; [done|].
    eapply returns_mono; [apply (task_tick_fair_ok r t); [apply Hr|done|done]|].
    intros [] r' Hs. by eapply fair_quiet_all.
  - destruct (oth_tick r t (ao_other _ _ Hr) Ht Hco) as (m & Hm & Hrun). exists m.
    rewrite methods_of_other by done. split; [done|]. eapply returns_mono; [exact Hrun|].
    intros [] r' Ha. by apply (aside_all true r r').
Qed.

Lemma law_switched_from b c m p r t :
  c ≠ mycfs_sched_class → all_ok b r → switched_from_method (methods_of c) = Some m →
  tasks r !! p = Some t → class t ≠ c →
  returns (m p) r (λ _ r', all_ok b r' ∧ same_sched r r' ∧ ∀ q, all_queued r' q ↔ all_queued r q).
Proof.
  intros Hc Hr Hm Ht Hne. destruct (other_or_fair c Hc) as [->|Hco].
  - injection Hm as <-. eapply returns_mono; [apply (switched_from_fair_ok b r p t); [apply Hr|done]|].
    intros [] r' Hs. by eapply fair_quiet_all.
  - rewrite methods_of_other in Hm by done.
    eapply returns_mono; [by apply (oth_switched_from r c m p t); [apply Hr|..]|].
    intros [] r' Ha. by apply (aside_all b r r').
Qed.

Lemma law_preempt p wake_flags r t :
  all_ok true r → tasks r !! curr r = Some t → class t ≠ mycfs_sched_class →
  class <$> tasks r !! p = Some (class t) → all_queued r p →
  ∃ m, check_preempt_of (class t) = Some m ∧ returns (m p wake_flags) r (λ _ r',
    all_ok true r' ∧ same_sched r r' ∧ ∀ q, all_queued r' q ↔ all_queued r q).
Proof.
  intros Hr Ht Hc Hp Hq. pose proof Hr as [Hf Ho _]. destruct (other_or_fair _ Hc) as [Hcf|Hco].
  - exists check_preempt_wakeup. rewrite Hcf in *. split; [done|].
    eapply returns_mono; [apply (check_preempt_wakeup_ok r t); try done|].
    + destruct Hq as [|Hq]; [done|]. destruct (oth_class r p Ho Hq) as (tp & Htp & Hcp).
      rewrite Htp in Hp. injection Hp as Hp. destruct Hcp; congruence.
    + intros [] r' Hs. by eapply fair_quiet_all.
  - assert (p ∈ oth_queued r) as Hpo.
    { destruct Hq as [Hq|]; [|done]. pose proof (fo_class _ r Hf p Hq) as Hcp. rewrite Hp in Hcp.
      injection Hcp as Hcp. rewrite Hcp in Hco. by destruct Hco as [?|[?|?]]. }
    destruct (oth_preempt r t p wake_flags Ho Ht Hco Hp Hpo) as (m & Hm & Hrun). exists m. split.
    + by destruct Hco as [Hx|[Hx|Hx]]; rewrite Hx in *.
    + eapply returns_mono; [exact Hrun|]. intros [] r' Ha. by apply (aside_all true r r').
Qed.

(** The fair class asks for a reschedule, or the core tests for preemption. *)
Lemma resched_all b r p :
  all_ok b r → is_Some (tasks r !! p) → returns (resched_task p) r (λ _ r',
    all_ok b r' ∧ same_sched r r' ∧ ∀ q, all_queued r' q ↔ all_queued r q).
Proof.
  intros Hr [t Ht]. pose proof Hr as [Hf _ _]. destruct (fair_start b r Hf) as (q & l & Hs & Hq & Hh & Hc).
  eapply rule_resched; [exact Hs|by rewrite (ents_lookup r p t)|]. intros r' Hs'.
  eapply fair_quiet_all; [exact Hr|]. eapply fair_step_calm; [exact Hf|done|exact Hq|done..|].
  by apply calm_refl.
Qed.

Lemma preempt_all r p t :
  all_ok true r → tasks r !! p = Some t → class t = fair_sched_class → p ∈ fair_queued r →
  is_Some (tasks r !! curr r) →
  returns (check_preempt_curr p 0) r (λ _ r',
    all_ok true r' ∧ same_sched r r' ∧ ∀ q, all_queued r' q ↔ all_queued r q).
Proof.
  intros Hr Ht Hc Hp [ct Hct].
  apply (check_preempt_curr_keeps (λ r', all_ok true r' ∧ same_sched r r' ∧
    ∀ q, all_queued r' q ↔ all_queued r q) r p 0 t ct); try done.
  - intros Hcc. apply law_preempt; [done|done|by rewrite <- Hcc, Hc|by rewrite Ht, <- Hcc|by left].
  - intros r' (_ & Hs & _). destruct (erase_lookup r r' _ ct Hs Hct) as (t' & -> & _). by eexists.
  - by apply resched_all.
  - intros r' (Hr' & Hs & Hq).
    destruct (law_counters true r' (r' <| skip_clock_update := 1 |>) Hr') as [Hr2 Hq2]; [by destruct r'|].
    split_and!; [done| |intros x; by rewrite Hq2, Hq].
    etrans; [exact Hs|]. apply counters_same. by destruct r'.
Qed.

Lemma fair_off_queue r p t b :
  all_ok b r → tasks r !! p = Some t → se_on_rq (se t) ≠ 0 → p ∈ fair_queued r.
Proof.
  intros [Hf _ _] Ht Ho. destruct (fair_start b r Hf) as (q & l & _ & Hq & _).
  pose proof (ents_lookup r p t Ht) as He. apply elem_of_queued. exists (se t). split; [done|].
  by destruct (fe_on_rq _ (qo_entities _ _ _ Hq p _ He)).
Qed.

Lemma law_switched_to p r t :
  all_ok true r → tasks r !! p = Some t → policy_class (class t) → is_Some (tasks r !! curr r) →
  ∃ m, switched_to_method (methods_of (class t)) = Some m ∧ returns (m p) r (λ _ r',
    all_ok true r' ∧ same_sched r r' ∧ ∀ q, all_queued r' q ↔ all_queued r q).
Proof.
  intros Hr Ht Hc Hcur. destruct Hc as [Hc|Hc].
  - destruct (oth_switched_to r p t (ao_other _ _ Hr) Ht Hc Hcur) as (m & Hm & Hrun).
    exists m. rewrite Hc. split; [done|]. eapply returns_mono; [exact Hrun|].
    intros [] r' Ha. by apply (aside_all true r r').
  - exists (switched_to_fair check_preempt_curr). rewrite Hc. split; [done|].
    unfold switched_to_fair. apply returns_bind. eapply returns_eq; [by apply load_task_eq|].
    apply rule_if; intros Ho; [by apply returns_ret|]. bsimp.
    apply returns_bind. eexists _, _. split; [reflexivity|].
    apply rule_if; intros _; [by apply resched_all|].
    eapply preempt_all; [done|exact Ht|done|by eapply fair_off_queue|done].
Qed.

Lemma law_prio_changed p old r t :
  all_ok true r → tasks r !! p = Some t → policy_class (class t) → is_Some (tasks r !! curr r) →
  ∃ m, prio_changed_method (methods_of (class t)) = Some m ∧ returns (m p old) r (λ _ r',
    all_ok true r' ∧ same_sched r r' ∧ ∀ q, all_queued r' q ↔ all_queued r q).
Proof.
  intros Hr Ht Hc Hcur. destruct Hc as [Hc|Hc].
  - destruct (oth_prio_changed r p old t (ao_other _ _ Hr) Ht Hc Hcur) as (m & Hm & Hrun).
    exists m. rewrite Hc. split; [done|]. eapply returns_mono; [exact Hrun|].
    intros [] r' Ha. by apply (aside_all true r r').
  - exists (prio_changed_fair check_preempt_curr). rewrite Hc. split; [done|].
    unfold prio_changed_fair. apply returns_bind. eapply returns_eq; [by apply load_task_eq|].
    apply rule_if; intros Ho; [by apply returns_ret|]. bsimp.
    apply returns_bind. eexists _, _. split; [reflexivity|].
    apply rule_if; intros _.
    + apply rule_if; intros _; [by apply resched_all|by apply returns_ret].
    + eapply preempt_all; [done|exact Ht|done|by eapply fair_off_queue|done].
Qed.

Lemma law_pick c r :
  all_ok false r → c ≠ mycfs_sched_class →
  (∀ q t, tasks r !! q = Some t → class t ≠ mycfs_sched_class → (all_queued r q ↔ on_rq t = 1)) →
  ∃ m, pick_next_method (methods_of c) = Some m ∧ returns m r (λ o r',
    match o with
    | None => r' = r ∧ c ≠ idle_sched_class
    | Some p => same_sched r r' ∧ (∀ q, all_queued r' q ↔ all_queued r q) ∧
        all_ok true (r' <| curr := p |>) ∧
        (∀ q, all_queued (r' <| curr := p |>) q ↔ all_queued r q) ∧
        (class <$> tasks r !! p = Some c) ∧
        (c ≠ idle_sched_class → all_queued r p)
    end).
Proof.
  intros Hr Hc Hsync. pose proof Hr as [Hf Ho Hn]. destruct (other_or_fair c Hc) as [->|Hco].
  - exists pick_next_task_fair. split; [done|].
    eapply returns_mono; [by apply (pick_next_task_fair_ok r)|]. intros [p|] r'; [|by intros [-> _]].
    intros (Hp & Hf' & Hs & Hot & Hnr & Hfq & _).
    destruct (oth_frame r r' Ho Hot Hs) as [Ho1 Hq1]. destruct (oth_curr r' p Ho1) as [Ho2 Hq2].
    change (fair_queued (r' <| curr := p |>)) with (fair_queued r') in *.
    split_and!; [done|intros x; unfold all_queued; by rewrite Hfq, Hq1| |intros x; unfold all_queued|
      by apply (fo_class false r Hf)|by left].
    2: { rewrite Hq2, Hq1. change (fair_queued (r' <| curr := p |>)) with (fair_queued r'). by rewrite Hfq. }
    split; [done|done|]. change (fair_queued (r' <| curr := p |>)) with (fair_queued r').
    change (nr_running (r' <| curr := p |>)) with (nr_running r'). by rewrite Hnr, Hn, Hq2, Hq1, Hfq.
  - destruct (oth_pick r c Ho Hco) as (m & Hm & Hrun).
    { intros q t Ht Hct. rewrite <- (Hsync q t Ht) by (by destruct Hct as [->|[->| ->]]).
      unfold all_queued. split; [tauto|]. intros [Hq|]; [|done].
      pose proof (fo_class false r Hf q Hq) as Hcq. rewrite Ht in Hcq. injection Hcq as Hcq.
      rewrite Hcq in Hct. by destruct Hct as [?|[?|?]]. }
    exists m. rewrite methods_of_other by done. split; [done|].
    eapply returns_mono; [exact Hrun|]. intros [p|] r'; [|done].
    intros (Ho' & Ha & Hq & Hnr & Hcp & Hpq).
    destruct (aside_all false r r' Hr) as (Hr' & Hs & Hqq); [done|].
    destruct (oth_curr r' p Ho') as [Ho2 Hq2].
    split_and!; [done|done| |intros x; rewrite <- Hqq; unfold all_queued; by rewrite Hq2|done|
      intros Hi; right; by apply Hpq].
    pose proof Hr' as [Hf' _ Hn']. destruct (fo_queue _ _ Hf') as (q & l & Hcq & Hqo & Hh & Hcu).
    split; [|done|]; [|change (nr_running (r' <| curr := p |>)) with (nr_running r'); by rewrite Hq2].
    eapply fair_ok_shape; [exact Hf'|exact Hcq|exact Hqo|done..| |done].
    rewrite Hcu. unfold current_of. simpl. rewrite (class_same r r' p Hs), Hcp.
    rewrite bool_decide_eq_false_2; [done|]. intros [= ->]. by destruct Hco as [?|[?|?]].
Qed.

Lemma law_shortcut r :
  all_ok false r → ∃ q, cfs_rqs r !! 0 = Some q ∧
    (nr_running r = h_nr_running q → ∀ p, all_queued r p →
     class <$> tasks r !! p = Some fair_sched_class).
Proof.
  intros [Hf Ho Hn]. destruct (fo_queue _ r Hf) as (q & l & Hcq & Hq & Hh & _).
  exists q. split; [done|]. rewrite Hh, (qo_nr _ _ _ Hq), Hn. fold (fair_queued r). intros Heq p [Hp|Hp].
  - by apply (fo_class false r Hf).
  - assert (oth_queued r = ∅) as Hem by (apply leibniz_equiv, size_empty_inv; lia). set_solver.
Qed.

(** A new task that is not queued. *)
Lemma queue_ok_new E q l p e :
  queue_ok E q l → E !! p = None → flat_entity e → se_on_rq e = 0 →
  Z.of_nat (size E) + 1 < 2 ^ 32 →
  queue_ok (<[p := e]> E) q l ∧ queued_set (<[p := e]> E) = queued_set E.
Proof.
  intros Hq Hp He Ho Hn.
  assert (queued_set (<[p := e]> E) = queued_set E) as Hqs.
  { apply set_eq. intros x. rewrite !elem_of_queued.
    destruct (decide (x = p)) as [->|Hne]; [|by rewrite lookup_insert_ne].
    rewrite lookup_insert_eq, Hp. split; intros (e' & [= <-] & ?); lia. }
  assert (p ∉ queued_set E) as Hnp by (intros (e' & He' & _)%elem_of_queued; congruence).
  split; [|done]. pose proof (qo_load _ _ _ Hq) as Hld.
  rewrite <- (sum_weight_insert E p e _ Hnp) in Hld.
  destruct Hq as [Hen]. split; rewrite ?Hqs; try done.
  - intros x e' [[<- <-]|[_ Hx]]%lookup_insert_Some; eauto.
  - intros x Hx. destruct (qo_curr x Hx) as (y & -> & Hy). exists y. split; [done|].
    apply lookup_insert_is_Some. destruct (decide (p = y)); auto.
  - rewrite map_size_insert_None by done. lia.
Qed.

Lemma law_new_task b r p q t tq :
  all_ok b r → tasks r !! p = None → curr r ≠ p → tasks r !! q = Some tq → copied tq t →
  Z.of_nat (size (tasks r)) + 1 < 2 ^ 32 →
  let r' := r <| tasks ::= <[p := t]> |> in
  all_ok b r' ∧ ∀ x, all_queued r' x ↔ all_queued r x.
Proof.
  intros [Hf Ho Hn] Hp Hcp Hq [Hc Hon Hl Hlk] Hsz r'.
  destruct (fo_queue b r Hf) as (cq & l & Hcq & Hqo & Hh & Hcu).
  destruct (qo_entities _ _ _ Hqo q (se tq)) as [Hpa Hcf Hmy _ _]; [by apply ents_lookup|].
  injection Hlk as Hpa' Hcf' Hmy'.
  destruct (queue_ok_new (ents r) cq l p (se t)) as [Hqo' Hqs]; try done.
  { unfold ents. by rewrite lookup_fmap, Hp. }
  { split; [congruence..|done|by left]. }
  { unfold ents. by rewrite map_size_fmap. }
  assert (ents r' = <[p := se t]> (ents r)) as Hents by (unfold ents, r'; simpl; by rewrite fmap_insert).
  assert (fair_queued r' = fair_queued r) as Hfq by (unfold fair_queued; by rewrite Hents).
  destruct (oth_new r p t Ho Hp Hc) as [Ho' Hoq]. fold r' in Ho', Hoq.
  split; [|intros x; unfold all_queued; by rewrite Hoq, Hfq].
  split; [|done|unfold r' at 1; simpl; by rewrite Hoq, Hfq].
  split; [apply (fo_root b r Hf)| |].
  - exists cq, l. rewrite Hents. split_and!; [done..|]. rewrite Hcu. unfold current_of. simpl.
    by rewrite lookup_insert_ne.
  - rewrite Hfq. intros x Hx. pose proof (fo_class b r Hf x Hx) as Hx'. simpl.
    rewrite lookup_insert_ne; [done|]. intros <-. by rewrite Hp in Hx'.
Qed.

(** The place of a new task in virtual time. *)
Lemma rule_place_new r0 r E q n p e Q :
  holds r0 r E q n → E !! p = Some e → flat_entity e →
  (∀ r' q' v, shape q' = shape q → min_vruntime q' = min_vruntime q →
    holds r0 r' (<[p := e <| vruntime := v |>]> E) q' n → Q tt r') →
  returns (place_entity 0 (TaskSe p) true) r Q.
Proof.
  intros Hs He Hf HQ. unfold place_entity. do 3 fstep. rewrite andb_true_l.
  apply (returns_mono _ _ (λ _ r', ∃ q', shape q' = shape q ∧ min_vruntime q' = min_vruntime q ∧
    holds r0 r' E q' n)).
  { destruct feat_START_DEBIT; [|fstep; by exists q]. fstep. unfold sched_vslice. fstep.
    eapply rule_sched_slice; [exact Hs|exact He|done|]. clear Hs r. intros r q' Hsh Hm Hs.
    eapply rule_calc_delta_fair; [exact Hs|exact He|apply Hf|]. clear Hs r. intros r Hs.
    fstep. by exists q'. }
  clear Hs r. intros v r (q' & Hsh & Hm & Hs). do 3 fstep. by eapply HQ.
Qed.

(** Virtual run times may be set at will outside the time line. *)
Lemma calm_vruntime E q l p e v :
  queue_ok E q l → E !! p = Some e → calm E q l (<[p := e <| vruntime := v |>]> E) q.
Proof.
  intros Hq He.
  assert (same_links E (<[p := e <| vruntime := v |>]> E)) as Hl by (by eapply same_links_insert).
  split; [|done|done|done]. by eapply queue_ok_quiet; [exact Hq|exact Hl|].
Qed.

Lemma calm_shape E q l q' : queue_ok E q l → shape q' = shape q → calm E q l E q'.
Proof.
  intros Hq Hsh. split; [by eapply queue_ok_quiet|done|by injection Hsh..].
Qed.

(** One assignment of a virtual run time, with what is known so far. *)
Lemma rule_set_vruntime r0 r E0 q0 l E q n p v Q :
  calm E0 q0 l E q → holds r0 r E q n → is_Some (E0 !! p) →
  (∀ r' E', calm E0 q0 l E' q → holds r0 r' E' q n → Q tt r') →
  returns (store_se (TaskSe p) (λ e, e <| vruntime := v e |>)) r Q.
Proof.
  intros Hc Hs [e0 He0] HQ.
  destruct (same_links_lookup _ _ p e0 (symmetry (calm_links _ _ _ _ _ Hc)) He0) as (e & He & _).
  fstep. eapply HQ; [|exact Hs]. eapply calm_trans; [exact Hc|].
  apply (calm_vruntime E q l p e (v e)); [apply Hc|done].
Qed.

Lemma rule_calm_load r0 r E0 q0 l E q n p Q :
  calm E0 q0 l E q → holds r0 r E q n → is_Some (E0 !! p) → (∀ e, flat_entity e → E !! p = Some e → Q e r) →
  returns (load_se (TaskSe p)) r Q.
Proof.
  intros Hc Hs [e0 He0] HQ.
  destruct (same_links_lookup _ _ p e0 (symmetry (calm_links _ _ _ _ _ Hc)) He0) as (e & He & _).
  fstep. apply HQ; [|done]. by apply (qo_entities _ _ _ (calm_ok _ _ _ _ _ Hc) p).
Qed.

(** [task_fork_fair] after the clock was updated. *)
Definition fork_tail (p : Z) : M (rq Y) unit :=
  let s := TaskSe p in
  c ← cfs_rq_of (TaskSe current);
  q ← load_cfs c;
  _ ← update_curr c;
  _ ← match c_curr q with
      | Some cs => ce ← load_se cs; store_se s (λ e, e <| vruntime := vruntime ce |>)
      | None => mret tt
      end;
  _ ← place_entity c s true;
  tn ← gets tun;
  _ ← match c_curr q with
      | Some cs =>
          ce ← load_se cs;
          e ← load_se s;
          if negb (sysctl_sched_child_runs_first tn =? 0) && entity_before ce e then
            _ ← store_se cs (λ x, x <| vruntime := vruntime e |>);
            _ ← store_se s (λ x, x <| vruntime := vruntime ce |>);
            p ← gets curr;
            resched_task p
          else mret tt
      | None => mret tt
      end;
  q ← load_cfs c;
  store_se s (λ e, e <| vruntime := u64 (vruntime e - min_vruntime q) |>).

(** Child and running entity may exchange their virtual run times. *)
Lemma rule_child_first r0 r E0 q0 l E q n p x tn Q :
  calm E0 q0 l E q → holds r0 r E q n → is_Some (E0 !! p) → is_Some (E0 !! x) →
  is_Some (E0 !! curr r0) →
  (∀ r' E', calm E0 q0 l E' q → holds r0 r' E' q n → Q tt r') →
  returns (ce ← load_se (TaskSe x);
           e ← load_se (TaskSe p);
           if negb (sysctl_sched_child_runs_first tn =? 0) && entity_before ce e then
             _ ← store_se (TaskSe x) (λ x, x <| vruntime := vruntime e |>);
             _ ← store_se (TaskSe p) (λ x, x <| vruntime := vruntime ce |>);
             p ← gets curr;
             resched_task p
           else mret tt) r Q.
Proof.
  intros Hc Hs Hp Hx Hcu HQ. fstep. eapply rule_calm_load; [exact Hc|exact Hs|done|]. intros ce _ _.
  fstep. eapply rule_calm_load; [exact Hc|exact Hs|done|]. intros e _ _.
  destruct (_ && _); [|fstep; by eapply HQ]. fstep.
  eapply rule_set_vruntime; [exact Hc|exact Hs|done|]. clear Hs Hc r E. intros r E Hc Hs. fstep.
  eapply rule_set_vruntime; [exact Hc|exact Hs|done|]. clear Hs Hc r E. intros r E Hc Hs. do 2 fstep.
  destruct Hcu as [e0 He0].
  destruct (same_links_lookup _ _ _ e0 (symmetry (calm_links _ _ _ _ _ Hc)) He0) as (e' & He & _).
  fstep. by eapply HQ.
Qed.

Lemma rule_copy_vruntime r0 r E0 q0 l E q n p o Q :
  calm E0 q0 l E q → holds r0 r E q n → is_Some (E0 !! p) →
  (∀ x, o = Some x → ∃ y, x = TaskSe y ∧ is_Some (E0 !! y)) →
  (∀ r' E', calm E0 q0 l E' q → holds r0 r' E' q n → Q tt r') →
  returns (match o with
           | Some cs => ce ← load_se cs; store_se (TaskSe p) (λ e, e <| vruntime := vruntime ce |>)
           | None => mret tt
           end) r Q.
Proof.
  intros Hc Hs Hp Ho HQ. destruct o as [x|]; [|fstep; by eapply HQ].
  destruct (Ho x eq_refl) as (y & -> & Hy). fstep.
  eapply rule_calm_load; [exact Hc|exact Hs|done|]. intros ce _ _.
  by eapply rule_set_vruntime; [exact Hc|exact Hs|done|].
Qed.

Lemma fork_tail_ok r p :
  fair_ok true r → is_Some (tasks r !! p) → is_Some (tasks r !! current) →
  is_Some (tasks r !! curr r) →
  returns (fork_tail p) r (λ _ r', fair_step true r (fair_queued r) (nr_running r) r').
Proof.
  intros Hf Hp Hcu Hc. destruct (fair_start true r Hf) as (q & l & Hs & Hq & Hh & Hcq).
  assert (∀ x, is_Some (tasks r !! x) → is_Some (ents r !! x)) as Hdom
    by (intros x [t Ht]; exists (se t); by apply ents_lookup).
  apply Hdom in Hp, Hc. destruct (Hdom _ Hcu) as [ec Hec].
  assert (∀ x, c_curr q = Some x → ∃ y, x = TaskSe y ∧ is_Some (ents r !! y)) as Hcur by apply Hq.
  assert (∀ r' E' q', calm (ents r) q l E' q' → holds r r' E' q' (nr_running r) →
    fair_step true r (fair_queued r) (nr_running r) r') as Hend
    by (intros r' E' q' Hcalm Hs'; by eapply fair_step_calm).
  set (E0 := ents r) in *.
  unfold fork_tail. cbv zeta. fstep.
  eapply rule_cfs_rq_of; [exact Hs|exact Hec|by apply (qo_entities _ _ _ Hq current)|]. do 3 fstep.
  eapply rule_update_curr; [done|exact Hs|exact Hq|].
  pose proof (calm_run (clock_task r) _ _ _ Hq) as Hca.
  destruct (run_curr _ _ _) as [E1 q1]. simpl in Hca. intros r1 Hs1. fstep.
  eapply rule_copy_vruntime; [exact Hca|exact Hs1|done|done|].
  clear Hs Hs1 Hca r1 E1. intros r2 E2 Hca Hs. fstep.
  destruct Hp as [ep Hep].
  destruct (same_links_lookup _ _ p ep (symmetry (calm_links _ _ _ _ _ Hca)) Hep) as (e2 & He2 & _).
  eapply rule_place_new; [exact Hs|exact He2|by apply (qo_entities _ _ _ (calm_ok _ _ _ _ _ Hca) p)|].
  intros r3 q3 v Hsh Hm Hs3.
  assert (calm E0 q l (<[p := e2 <| vruntime := v |>]> E2) q3) as Hca3.
  { eapply calm_trans; [exact Hca|]. eapply calm_trans; [apply (calm_vruntime E2 q1 l p e2 v); [apply Hca|done]|].
    apply calm_shape; [|done]. apply (calm_vruntime E2 q1 l p e2 v); [apply Hca|done]. }
  clear Hs Hca. do 3 fstep.
  apply (returns_mono _ _ (λ _ r', ∃ E', calm E0 q l E' q3 ∧ holds r r' E' q3 (nr_running r))).
  { destruct (c_curr q) as [x|]; [|fstep; eauto]. destruct (Hcur x eq_refl) as (y & -> & Hy).
    eapply rule_child_first; [exact Hca3|exact Hs3|by eexists|done|done|]. eauto. }
  intros [] r4 (E4 & Hca4 & Hs4). do 2 fstep.
  eapply rule_set_vruntime; [exact Hca4|exact Hs4|by eexists|]. intros. by eapply Hend.
Qed.

Lemma law_fork m p r t :
  all_ok true r → tasks r !! p = Some t → curr r = current → p ≠ current →
  is_Some (tasks r !! curr r) → policy_class (class t) → ¬ all_queued r p →
  task_fork_method (methods_of (class t)) = Some m →
  returns (m p) r (λ _ r', all_ok true r' ∧ same_sched r r' ∧ ∀ q, all_queued r' q ↔ all_queued r q).
Proof.
  intros Hr Ht Hcu Hne Hcr Hc Hq Hm. destruct Hc as [Hc|Hc]; rewrite Hc in Hm.
  - eapply returns_mono; [by apply (oth_fork r m p t); [apply Hr|..]|].
    intros [] r' Ha. by apply (aside_all true r r').
  - injection Hm as <-. change (task_fork_fair current p) with (_ ← update_rq_clock; fork_tail p).
    apply returns_bind. eapply returns_mono; [apply update_rq_clock_eq|]. intros [] r1 Hc1.
    destruct (law_counters true r r1 Hr Hc1) as [Hr1 Hq1].
    assert (tasks r1 = tasks r ∧ curr r1 = curr r) as [Ht1 Hcu1] by (rewrite Hc1; by destruct r).
    eapply returns_mono.
    { apply (fork_tail_ok r1 p); [apply Hr1|rewrite Ht1; by eexists|by rewrite Ht1, <- Hcu|by rewrite Ht1, Hcu1]. }
    intros [] r' Hs. destruct (fair_quiet_all true true r1 r' Hr1 Hs) as (Hr' & Hs' & Hq').
    split_and!; [done|etrans; [by apply counters_same|done]|]. intros x. by rewrite Hq', Hq1.
Qed.

(** The fair class, beside classes that keep [OtherLaws], keeps the laws of the
    core. *)
#[export] Instance fair_class_laws : ClassLaws := {|
  class_ok := all_ok;
  queued := all_queued;
  counters_law := law_counters;
  attr_law := law_attr;
  new_task_law := law_new_task;
  fork_law := law_fork;
  queued_law := law_queued;
  enqueue_law := law_enqueue;
  dequeue_law := law_dequeue;
  put_prev_law := law_put_prev;
  set_curr_law := law_set_curr;
  switched_from_law := law_switched_from;
  switched_to_law := law_switched_to;
  prio_changed_law := law_prio_changed;
  preempt_law := law_preempt;
  tick_law := law_tick;
  pick_law := law_pick;
  shortcut_law := law_shortcut
|}.
End FairClass.
