(* ===== verification/FairTheorems.v ===== *)
(** * Theorems of the fair class

    What the operations of [fair.c] promise: the accuracy of the weighted time,
    the accounting of the running entity, the order of the time line, the choice
    of the next task, and that moving an entity off the queue and back keeps its
    place in virtual time.  For groups with a limit, run time is neither made nor
    lost when it moves between the pool of the group and its queue. *)

From Stdlib Require Import Sorted.
From S2P Require Import Prelude SchedData Fair Sched SchedSpec FairSpec FairClass.

(** ** Weighted time *)

Lemma SRR_eq x y :
  0 ≤ x < 2 ^ 63 + 2 ^ 62 → 0 < y ≤ 32 → 2 ^ y * SRR x y ≤ x + 2 ^ (y - 1) < 2 ^ y * SRR x y + 2 ^ y.
Proof.
  intros Hx Hy. unfold SRR. rewrite Z.shiftl_1_l, Z.shiftr_div_pow2 by lia.
  assert (2 ^ (y - 1) ≤ 2 ^ 31) by (apply Z.pow_le_mono_r; lia).
  assert (0 < 2 ^ (y - 1)) by (apply Z.pow_pos_nonneg; lia).
  assert (0 < 2 ^ y) by (apply Z.pow_pos_nonneg; lia).
  rewrite uwrap_small by (widths; lia).
  pose proof (Z.div_mod (x + 2 ^ (y - 1)) (2 ^ y) ltac:(lia)).
  pose proof (Z.mod_pos_bound (x + 2 ^ (y - 1)) (2 ^ y) ltac:(lia)). lia.
Qed.

(** The inverse of a weight that is cached with it, if any, is [2^32 / weight] up
    to one unit. *)
Definition accurate (lw : load_weight) : Prop :=
  inv_weight lw = 0 ∨ Z.abs (inv_weight lw * weight lw - 2 ^ 32) ≤ weight lw.

Lemma fill_accurate lw :
  2 ≤ weight lw → accurate lw →
  Z.abs (inv_weight (fill_inv_weight lw) * weight lw - 2 ^ 32) ≤ weight lw.
Proof.
  intros Hw Hi. unfold fill_inv_weight. destruct (inv_weight lw =? 0) eqn:Hz; bsimp.
  - rewrite (proj2 (Z.eqb_neq (weight lw) 0)) by lia. simpl.
    pose proof (Z.div_mod WMULT_CONST (weight lw) ltac:(lia)).
    pose proof (Z.mod_pos_bound WMULT_CONST (weight lw) ltac:(lia)).
    change WMULT_CONST with (2 ^ 32 - 1) in *. lia.
  - by destruct Hi.
Qed.

(** The weights of the tables are accurate. *)
Lemma weights_accurate pol static lw : weights_of pol static = Some lw → accurate lw.
Proof.
  unfold weights_of, accurate. intros Hw. right. destruct (pol =? SCHED_IDLE).
  { injection Hw as <-. vm_compute. discriminate. }
  set (n := Z.to_nat _) in Hw.
  do 40 (destruct n as [|n]; [injection Hw as <-; vm_compute; discriminate|]). done.
Qed.

(** Both branches of [calc_delta_mine] compute the product with the inverse
    within the rounding of two shifts. *)
Lemma weighted_bound T W i d s :
  2 ≤ W < 2 ^ 31 → 0 ≤ T ≤ 2 ^ 30 * W → Z.abs (i * W - 2 ^ 32) ≤ W →
  2 ^ 16 * s ≤ T + 2 ^ 15 < 2 ^ 16 * s + 2 ^ 16 →
  2 ^ 16 * d ≤ s * i + 2 ^ 15 < 2 ^ 16 * d + 2 ^ 16 →
  2 ^ 32 * Z.abs (d * W - T) ≤ T * W + (W + 2 ^ 16) * 2 ^ 32.
Proof.
  intros HW HT Hi Hs Hd.
  assert (0 ≤ s) by (change (2 ^ 16) with 65536 in *; change (2 ^ 15) with 32768 in *; lia).
  assert (Z.abs (s * (i * W) - s * 2 ^ 32) ≤ s * W) as H1.
  { rewrite <- Z.mul_sub_distr_l, Z.abs_mul, (Z.abs_eq s) by lia. apply Z.mul_le_mono_nonneg_l; lia. }
  assert (2 ^ 16 * d * W ≤ (s * i + 2 ^ 15) * W) by (apply Z.mul_le_mono_nonneg_r; lia).
  assert ((s * i + 2 ^ 15 - 2 ^ 16) * W ≤ 2 ^ 16 * d * W) by (apply Z.mul_le_mono_nonneg_r; lia).
  assert (2 ^ 16 * s * W ≤ (T + 2 ^ 15) * W) by (apply Z.mul_le_mono_nonneg_r; lia).
  change (2 ^ 16) with 65536 in *. change (2 ^ 15) with 32768 in *.
  change (2 ^ 32) with 4294967296 in *. change (2 ^ 31) with 2147483648 in *. lia.
Qed.

Lemma small_bound T W i d :
  2 ≤ W < 2 ^ 31 → 0 ≤ T < 2 ^ 32 → Z.abs (i * W - 2 ^ 32) ≤ W →
  2 ^ 32 * d ≤ T * i + 2 ^ 31 < 2 ^ 32 * d + 2 ^ 32 →
  2 ^ 32 * Z.abs (d * W - T) ≤ T * W + (W + 2 ^ 16) * 2 ^ 32.
Proof.
  intros HW HT Hi Hd.
  assert (Z.abs (T * (i * W) - T * 2 ^ 32) ≤ T * W) as H1.
  { rewrite <- Z.mul_sub_distr_l, Z.abs_mul, (Z.abs_eq T) by lia. apply Z.mul_le_mono_nonneg_l; lia. }
  assert (2 ^ 32 * d * W ≤ (T * i + 2 ^ 31) * W) by (apply Z.mul_le_mono_nonneg_r; lia).
  assert ((T * i + 2 ^ 31 - 2 ^ 32) * W ≤ 2 ^ 32 * d * W) by (apply Z.mul_le_mono_nonneg_r; lia).
  change (2 ^ 16) with 65536 in *. change (2 ^ 32) with 4294967296 in *.
  change (2 ^ 31) with 2147483648 in *. lia.
Qed.

(** The inverse is small enough for the products to fit in 64 bits. *)
Lemma inverse_small W i : 2 ≤ W → Z.abs (i * W - 2 ^ 32) ≤ W → 0 ≤ i ≤ 2 ^ 31 + 1.
Proof. intros HW Hi. change (2 ^ 32) with 4294967296 in *. change (2 ^ 31) with 2147483648. nia. Qed.

Lemma product_small T W i s :
  2 ≤ W < 2 ^ 31 → 0 ≤ T ≤ 2 ^ 30 * W → Z.abs (i * W - 2 ^ 32) ≤ W → 0 ≤ i ≤ 2 ^ 31 + 1 →
  2 ^ 16 * s ≤ T + 2 ^ 15 < 2 ^ 16 * s + 2 ^ 16 → 0 ≤ s * i < 2 ^ 62.
Proof.
  intros HW HT Hi Hib Hs. change (2 ^ 16) with 65536 in *. change (2 ^ 15) with 32768 in *.
  change (2 ^ 30) with 1073741824 in *. assert (0 ≤ s ≤ 16384 * W + 1) by lia.
  assert (s * i ≤ (16384 * W + 1) * i) by (apply Z.mul_le_mono_nonneg_r; lia).
  assert (0 ≤ s * i) by (apply Z.mul_nonneg_nonneg; lia).
  change (2 ^ 32) with 4294967296 in *. change (2 ^ 31) with 2147483648 in *.
  change (2 ^ 62) with 4611686018427387904. lia.
Qed.

(** The cap at LONG_MAX is not reached. *)
Lemma uncapped T W d :
  2 ≤ W < 2 ^ 31 → 0 ≤ T ≤ 2 ^ 30 * W →
  2 ^ 32 * Z.abs (d * W - T) ≤ T * W + (W + 2 ^ 16) * 2 ^ 32 → d ≤ LONG_MAX.
Proof.
  intros HW HT Hd. apply Z.nlt_ge. intros Hlt. widths.
  assert (T * W ≤ T * 2147483648) by (apply Z.mul_le_mono_nonneg_l; lia).
  assert (2147483648 * W ≤ d * W) by (apply Z.mul_le_mono_nonneg_r; lia). lia.
Qed.

(** Time is weighted accurately: as long as the result fits, with a weight
    below [2^31] and a cached inverse that is absent or right to one unit,
    [calc_delta_mine delta w lw] is [delta * w / weight lw] up to a relative error
    of [weight lw / 2^32] and an absolute one of [1 + 2^16 / weight lw], although
    the code neither divides nor uses more than 64 bits. *)
Theorem calc_delta_mine_accurate delta w lw :
  2 ≤ weight lw < 2 ^ 31 → accurate lw → 0 ≤ delta → 1 ≤ w → delta * w ≤ 2 ^ 30 * weight lw →
  2 ^ 32 * Z.abs ((calc_delta_mine delta w lw).1 * weight lw - delta * w)
    ≤ delta * w * weight lw + (weight lw + 2 ^ 16) * 2 ^ 32.
Proof.
  intros HW Hacc Hd Hw HT. pose proof (fill_accurate lw ltac:(lia) Hacc) as Hi.
  pose proof (inverse_small (weight lw) _ ltac:(lia) Hi) as Hib. unfold calc_delta_mine. cbv zeta. simpl.
  assert ((if 1 <? w then u64 (delta * w) else delta) = delta * w) as ->.
  { destruct (1 <? w) eqn:H1; bsimp; [|assert (w = 1) as -> by lia; lia].
    apply uwrap_small. widths. nia. }
  set (T := delta * w) in *. assert (0 ≤ T) by (unfold T; nia).
  set (W := weight lw) in *. set (i := inv_weight (fill_inv_weight lw)) in *.
  change (WMULT_SHIFT / 2) with 16. destruct (WMULT_CONST <? T) eqn:Hbig; bsimp.
  - pose proof (SRR_eq T 16 ltac:(lia) ltac:(lia)) as Hs. set (s := SRR T 16) in *.
    pose proof (product_small T W i s HW ltac:(lia) Hi Hib Hs) as Hsi.
    rewrite (uwrap_small 64 (s * i)) by (widths; lia).
    pose proof (SRR_eq (s * i) 16 ltac:(lia) ltac:(lia)) as Hr.
    pose proof (weighted_bound T W i _ s HW ltac:(lia) Hi Hs Hr) as Hb.
    by rewrite Z.min_l by (by eapply uncapped; [exact HW|split; [|exact HT]|]).
  - assert (0 ≤ T * i < 2 ^ 63 + 2 ^ 62) as Hti by (unfold WMULT_CONST in Hbig; widths; nia).
    rewrite (uwrap_small 64 (T * i)) by (widths; lia).
    pose proof (SRR_eq (T * i) 32 ltac:(lia) ltac:(lia)) as Hr. change WMULT_SHIFT with 32.
    unfold WMULT_CONST, ULONG_MAX in Hbig.
    pose proof (small_bound T W i _ HW ltac:(lia) Hi Hr) as Hb.
    by rewrite Z.min_l by (by eapply uncapped; [exact HW|split; [|exact HT]|]).
Qed.

(** ** The queue of the fair class *)

(** Virtual time does not go backwards. *)
Lemma max_vruntime_forward m v : 0 ≤ s64 (max_vruntime m v - m).
Proof.
  unfold max_vruntime. destruct (0 <? s64 (v - m)) eqn:Hv; bsimp; [lia|].
  by rewrite Z.sub_diag.
Qed.

Lemma run_curr_forward now E q :
  0 ≤ s64 (min_vruntime (run_curr now E q).2 - min_vruntime q).
Proof.
  assert (0 ≤ s64 (min_vruntime q - min_vruntime q)) by (by rewrite Z.sub_diag).
  unfold run_curr. destruct (c_curr q) as [[p|g]|]; simpl; try done.
  destruct (E !! p); [|done]. destruct (_ =? 0); [done|]. simpl. apply max_vruntime_forward.
Qed.

(** The current entity is charged once: a second time at the same instant there
    is nothing to charge. *)
Lemma run_curr_twice now E q E' q' :
  c_curr q' = c_curr q →
  (∀ p, c_curr q = Some (TaskSe p) →
    exec_start <$> E' !! p = exec_start <$> (run_curr now E q).1 !! p) →
  run_curr now E' q' = (E', q').
Proof.
  intros Hc He. unfold run_curr at 1. rewrite Hc. destruct (c_curr q) as [[p|g]|] eqn:Hp; try done.
  specialize (He p eq_refl). destruct (E' !! p) as [e'|] eqn:He'; [|done].
  assert (u32 (now - exec_start e') = 0) as ->; [|done].
  unfold run_curr in He. rewrite Hp in He.
  destruct (E !! p) as [e|] eqn:Hep; [|simpl in He; by rewrite Hep in He].
  destruct (u32 (now - exec_start e) =? 0) eqn:Hz; simpl in He.
  - rewrite Hep in He. injection He as ->. by bsimp.
  - rewrite lookup_insert_eq in He. injection He as ->. by rewrite Z.sub_diag.
Qed.

Section Queue.
Context {Y : Type} `{SchedEnv Y} `{FairEnv Y} `{!RbLaws} (Hbw : cfs_bandwidth_used = false).
Implicit Types (r : rq Y).

(** The queue of the fair class in the state [r], and that nothing but the fair
    class has changed since [r0]. *)
Definition fair_queue (r : rq Y) (q : cfs_rq) (l : list Z) : Prop :=
  cfs_rqs r !! 0 = Some q ∧ queue_ok (ents r) q l ∧ root_group r.

Lemma fair_queue_holds r0 r E q l n :
  root_group r0 → holds r0 r E q n → queue_ok E q l → ents r = E ∧ fair_queue r q l.
Proof.
  intros (g & Hg & ? & ?) Hs Hq. pose proof (h_ents _ _ _ _ _ Hs) as He.
  change (ents r = E) in He. split; [done|]. split_and!; [apply Hs|by rewrite He|].
  exists g. by rewrite (holds_field groups _ _ _ _ _ Hs) by done.
Qed.

(** [update_curr] charges the running entity exactly once for the time
    since its accounting began, and nobody else: the entities and the queue are
    those of [run_curr], the queue stays consistent, the least virtual run time
    never goes back, and a second call at the same instant changes nothing. *)
Theorem update_curr_charges r q l :
  fair_queue r q l →
  returns (update_curr 0) r (λ _ r', ∃ q', fair_queue r' q' l ∧
    (ents r', q') = run_curr (clock_task r) (ents r) q ∧
    0 ≤ s64 (min_vruntime q' - min_vruntime q) ∧ rest r' = rest r ∧
    run_curr (clock_task r) (ents r') q' = (ents r', q')).
Proof.
  intros (Hc & Hq & Hroot). eapply rule_update_curr; [done|by apply holds_refl|exact Hq|].
  intros r' Hs. destruct (fair_queue_holds _ _ _ _ l _ Hroot Hs) as [He Hf].
  { by apply queue_ok_run. }
  exists (run_curr (clock_task r) (ents r) q).2. change (se <$> tasks r) with (ents r) in *.
  rewrite He. split_and!; [done|by destruct (run_curr _ _ _)|apply run_curr_forward|apply Hs|].
  apply (run_curr_twice _ (ents r) q); [|done].
  pose proof (run_curr_shape (clock_task r) (ents r) q) as Hsh. by injection Hsh.
Qed.

(** How far ahead of the queue's virtual time the entity of [p] is. *)
Definition lag (E : entities) (q : cfs_rq) (p : Z) : option Z :=
  e ← E !! p; Some (u64 (vruntime e - min_vruntime q)).

Lemma requeued_lag now E q p e2 E1 q1 q3 :
  let s := run_curr now E q in
  s.1 !! p = Some e2 → E1 = <[p := normalised 0 s.2 (e2 <| se_on_rq := 0 |>)]> s.1 →
  q1 = advance E1 q3 → c_curr q1 = c_curr q →
  let e1 := normalised 0 s.2 (e2 <| se_on_rq := 0 |>) in
  let E1' := <[p := renormalised 0 q1 e1]> E1 in
  run_curr now E1' q1 = (E1', q1) ∧ lag E1' q1 p = lag s.1 s.2 p.
Proof.
  cbv zeta. intros He2 -> Hq1 Hc. split.
  - apply (run_curr_twice now E q); [done|]. intros x Hx. rewrite insert_insert_eq.
    destruct (decide (x = p)) as [->|Hne]; [|by rewrite lookup_insert_ne].
    by rewrite lookup_insert_eq, He2.
  - unfold lag. rewrite lookup_insert_eq, He2. simpl. f_equal.
    unfold renormalised, normalised. simpl. autorewrite with wrap.
    by rewrite Z.add_simpl_r, uwrap_idemp.
Qed.

(** Taking a queued entity off the queue and putting it back, as every
    change of a nice value or a policy does, keeps its place in virtual time: how
    far it is ahead of the queue is what it was after the running entity was
    charged, the same entities are queued, and the queue is consistent. *)
Theorem requeue_keeps_lag r q l p e :
  fair_queue r q l → ents r !! p = Some e → se_on_rq e = 1 →
  returns (_ ← dequeue_entity 0 (TaskSe p) 0; enqueue_entity 0 (TaskSe p) 0) r (λ _ r',
    ∃ q' l', fair_queue r' q' l' ∧ queued_set (ents r') = queued_set (ents r) ∧
      (let s := run_curr (clock_task r) (ents r) q in
       lag (ents r') q' p = lag s.1 s.2 p) ∧ rest r' = rest r).
Proof.
  intros (Hc & Hq & Hroot) He Ho. apply returns_bind.
  eapply rule_dequeue_entity; [done|by apply holds_refl|done|exact Hq|exact He|done|].
  intros r1 E1 q1 l1 Hp Hs1. destruct (parted_load _ _ _ _ _ _ _ _ _ Hp) as [_ Hset1].
  destruct (pt_entities _ _ _ _ _ _ _ _ _ Hp) as (e2 & He2 & HE1).
  destruct (pt_min _ _ _ _ _ _ _ _ _ Hp) as (q3 & Hq3 & _).
  set (s := run_curr (clock_task r) (ents r) q) in *.
  destruct (requeued_lag (clock_task r) (ents r) q p e2 E1 q1 q3 He2 HE1 Hq3
    (pt_curr _ _ _ _ _ _ _ _ _ Hp)) as [Hrun Hlag].
  set (e1 := normalised 0 s.2 (e2 <| se_on_rq := 0 |>)) in *.
  assert (E1 !! p = Some e1) as He1 by (by rewrite HE1, lookup_insert_eq).
  eapply rule_enqueue_entity; [done|exact Hs1|done|apply Hp|exact He1|done|].
  intros r2 E2 q2 l2 Hj Hs2. destruct (joined_load _ _ _ _ _ _ _ _ _ _ _ He1 Hj) as [_ Hset2].
  destruct (fair_queue_holds r r2 E2 q2 l2 _ Hroot Hs2 (j_ok _ _ _ _ _ _ _ _ _ _ _ Hj)) as [HE2 Hf].
  exists q2, l2. rewrite HE2. split_and!; [done| | |apply Hs2].
  - rewrite Hset2, Hset1. assert (p ∈ queued_set (ents r)) by (apply elem_of_queued; eauto).
    change (se <$> tasks r) with (ents r). apply set_eq. intros x. destruct (decide (x = p)); set_solver.
  - etrans; [|exact Hlag]. destruct (j_entities _ _ _ _ _ _ _ _ _ _ _ Hj) as (e3 & He3 & HE2').
    pose proof (j_min _ _ _ _ _ _ _ _ _ _ _ Hj) as Hm. fold s e1 in Hrun. rewrite Hrun in He3, HE2', Hm. simpl in He3, HE2', Hm.
    rewrite lookup_insert_eq in He3. injection He3 as <-. unfold lag. by rewrite HE2', Hm, !lookup_insert_eq.
Qed.

(** The keys of the waiting entities are not touched when [p] joins. *)
Lemma joined_keys flags now tn E q l p e E' q' l' base :
  joined flags now tn E q l p e E' q' l' → p ∉ l →
  (∀ x, x ∈ l → is_Some (E !! x) ∧ c_curr q ≠ Some (TaskSe x)) →
  ∀ x, x ∈ l → key base E' x = key base E x.
Proof.
  intros Hj Hp Hc x Hx. destruct (Hc x Hx) as [[ex Hex] Hcx].
  destruct (j_entities _ _ _ _ _ _ _ _ _ _ _ Hj) as (e2 & _ & ->).
  assert (p ≠ x) by (by intros ->). unfold key. rewrite lookup_insert_ne by done.
  destruct (run_curr_lookup now (<[p := renormalised flags q e]> E) q x ex) as (e' & -> & _ & He');
    [by rewrite lookup_insert_ne|]. by rewrite He', Hex.
Qed.

Lemma sorted_keys base (E E' : entities) l :
  (∀ x, x ∈ l → key base E' x = key base E x) → sorted base E l → sorted base E' l.
Proof.
  intros Hk. unfold sorted. replace (key base E' <$> l) with (key base E <$> l); [done|].
  apply list_fmap_ext. intros i x Hx. symmetry. apply Hk. by eapply list_elem_of_lookup_2.
Qed.

(** The first of a sorted line has the least key. *)
Lemma sorted_head base E x l y : sorted base E (x :: l) → y ∈ x :: l → key base E x ≤ key base E y.
Proof.
  intros Hs [->|Hy]%elem_of_cons; [lia|]. inversion Hs as [|? ? _ Hf]; subst.
  rewrite Forall_fmap, Forall_forall in Hf. by apply Hf.
Qed.

(** C27. The time line is ordered by virtual run time: as long as the waiting
    entities lie within [2^62] of a point of the 64-bit time axis,
    [enqueue_entity] keeps the line sorted, and the cached leftmost entity is one
    with the least virtual run time.  The comparison wraps around with the time
    axis, so the point is arbitrary. *)
Theorem enqueue_entity_sorted r q l p e flags base :
  fair_queue r q l → ents r !! p = Some e → se_on_rq e = 0 → sorted base (ents r) l →
  returns (enqueue_entity 0 (TaskSe p) flags) r (λ _ r', ∃ q' l', fair_queue r' q' l' ∧
    queued_set (ents r') = {[p]} ∪ queued_set (ents r) ∧
    (near base (ents r') (p :: l) → sorted base (ents r') l' ∧
      ∀ x, x ∈ l' → ∃ left, rb_leftmost q' = Some (TaskSe left) ∧
        key base (ents r') left ≤ key base (ents r') x)).
Proof.
  intros (Hc & Hq & Hroot) He Ho Hso.
  eapply rule_enqueue_entity; [done|by apply holds_refl|done|exact Hq|exact He|done|].
  intros r' E' q' l' Hj Hs. destruct (joined_load _ _ _ _ _ _ _ _ _ _ _ He Hj) as [_ Hset].
  pose proof (j_ok _ _ _ _ _ _ _ _ _ _ _ Hj) as Hq'.
  destruct (fair_queue_holds _ _ _ _ l' _ Hroot Hs Hq') as [HE Hf].
  exists q', l'. rewrite HE. split_and!; [done|done|]. intros Hn.
  assert (p ∉ l) as Hpl.
  { intros Hin. apply (qo_mem _ _ _ Hq) in Hin as [(e' & He' & Ho')%elem_of_queued _].
    rewrite He in He'. injection He' as <-. congruence. }
  assert (sorted base E' l') as Hso'.
  { apply (j_sorted _ _ _ _ _ _ _ _ _ _ _ Hj base Hn), (sorted_keys base (ents r)); [|done].
    eapply joined_keys; [exact Hj|done|]. intros x Hx.
    split; [by eapply queue_ok_dom|]. by apply (qo_mem _ _ _ Hq) in Hx as [_ ?]. }
  split; [done|]. intros x Hx. destruct l' as [|left l']; [by apply not_elem_of_nil in Hx|].
  exists left. split; [apply (qo_left _ _ _ Hq')|by apply (sorted_head _ _ _ l')].
Qed.

(** The candidate [b] holds a task that is fair to run before the leftmost one. *)
Definition admits tn E (left : Z) (b : option Z) (x : Z) : Prop := b = Some x ∧ fair_enough tn E x left = true.

Lemma prefer_cases tn E left b choice :
  admits tn E left b (prefer tn E left b choice) ∨ (¬ ∃ x, admits tn E left b x) ∧ prefer tn E left b choice = choice.
Proof.
  unfold admits, prefer. destruct b as [x|]; [|right; split; [by intros (? & ? & _)|done]].
  destruct (fair_enough tn E x left) eqn:Hx; [by left|]. right. split; [|done]. intros (y & [= <-] & Hy). congruence.
Qed.

(** C26. Without groups and bandwidth limits, the fair class offers a task exactly if it
    has one queued.  A candidate is admitted if it is at most the wake-up granularity
    behind the leftmost task of the time line.  The task offered is the next buddy if it is
    admitted, else the last buddy if it is, else the second of the time line if the leftmost
    is to be skipped and the second is admitted, else the leftmost.  The class then holds
    it as its current task and is consistent. *)
Theorem pick_next_task_fair_choice r :
  fair_ok false r →
  returns pick_next_task_fair r (λ o r',
    match o with
    | None => r' = r ∧ fair_queued r = ∅
    | Some p => p ∈ fair_queued r ∧ fair_ok true (r' <| curr := p |>) ∧
        ∃ q left l, fair_queue r q (left :: l) ∧
          let admitted := admits (tun r) (ents r) left in
          let next := task_at (c_next q) in
          let last := task_at (c_last q) in
          let second := if decide (c_skip q = Some (TaskSe left)) then head l else None in
          admitted next p ∨ (¬ ∃ x, admitted next x) ∧
            (admitted last p ∨ (¬ ∃ x, admitted last x) ∧
              (admitted second p ∨ (¬ ∃ x, admitted second x) ∧ p = left))
    end).
Proof.
  intros Hf. eapply returns_mono; [by apply pick_next_task_fair_ok|]. intros [p|] r'; [|done].
  intros (Hp & Hok & _ & _ & _ & _ & _ & q & left & l & Hc & Hq & ->).
  split_and!; [done|done|]. exists q, left, l. split; [by split_and!; [..|apply (fo_root _ _ Hf)]|].
  cbv zeta. unfold next_choice. set (second := if decide _ then prefer _ _ _ _ _ else left).
  destruct (prefer_cases (tun r) (ents r) left (task_at (c_next q)) (prefer (tun r) (ents r) left (task_at (c_last q)) second)) as [Hn|[Hn ->]];
    [by left|right]. split; [done|].
  destruct (prefer_cases (tun r) (ents r) left (task_at (c_last q)) second) as [Hl|[Hl ->]]; [by left|right]. split; [done|].
  unfold second. destruct (decide _); [|right; split; [by intros (? & ? & _)|done]].
  cbn [next_in]. rewrite decide_True by done. apply prefer_cases.
Qed.
End Queue.

(** ** Run time of limited groups *)

Section Bandwidth.
Context {Y : Type} `{FairEnv Y}.
Implicit Types (r : rq Y) (b : cfs_bandwidth).

(** The queue [q] and the pool [b] of the group [c]; the rest of the machine is
    as in [r0]. *)
Record limited (r0 : rq Y) (c : Z) (q : cfs_rq) (b : cfs_bandwidth) (r : rq Y) : Prop := {
  lm_queue : cfs_rqs r !! c = Some q;
  lm_pool : ∃ t, groups r !! c = Some t ∧ bandwidth t = b;
  lm_rest : r <| cfs_rqs := ∅ |> <| groups := ∅ |> = r0 <| cfs_rqs := ∅ |> <| groups := ∅ |>
}.

Lemma limited_field {A} (f : rq Y → A) r0 c q b r :
  limited r0 c q b r → (∀ x, f (x <| cfs_rqs := ∅ |> <| groups := ∅ |>) = f x) → f r = f r0.
Proof. intros [_ _ Hr] Hf. by rewrite <- Hf, Hr, Hf. Qed.

Lemma rule_limited_group r0 c q b r Q :
  limited r0 c q b r → (∀ t, bandwidth t = b → Q t r) → returns (load_group c) r Q.
Proof.
  intros [_ (t & Ht & Hb) _] HQ. exists t, r. split; [|by apply HQ].
  unfold load_group, mbind, M_bind, gets. by rewrite Ht.
Qed.

Lemma rule_limited_store r0 c q b r f Q :
  limited r0 c q b r → (∀ r', limited r0 c q (f b) r' → Q tt r') →
  returns (store_bandwidth c f) r Q.
Proof.
  intros Hl HQ. unfold store_bandwidth. apply returns_bind.
  eapply rule_limited_group; [exact Hl|]. intros t Hb. eexists _, _. split; [reflexivity|].
  apply HQ. destruct Hl as [? _ ?]. split; [done| |done].
  eexists. simpl. rewrite lookup_insert_eq. split; [done|]. simpl. by rewrite Hb.
Qed.

Lemma rule_limited_cfs r0 c q b r Q :
  limited r0 c q b r → Q q r → returns (load_cfs c) r Q.
Proof.
  intros [Hq _ _] HQ. exists q, r. split; [|done].
  unfold load_cfs, mbind, M_bind, gets. by rewrite Hq.
Qed.

Lemma rule_limited_cfs_store r0 c q b r f Q :
  limited r0 c q b r → (∀ r', limited r0 c (f q) b r' → Q tt r') →
  returns (store_cfs c f) r Q.
Proof.
  intros Hl HQ. unfold store_cfs. apply returns_bind. eapply rule_limited_cfs; [exact Hl|].
  eexists _, _. split; [reflexivity|]. apply HQ. destruct Hl as [? ? ?].
  split; [simpl; by rewrite lookup_insert_eq|done|done].
Qed.

Lemma rule_limited_gets {A} (f : rq Y → A) r0 c q b r Q :
  limited r0 c q b r → (∀ x, f (x <| cfs_rqs := ∅ |> <| groups := ∅ |>) = f x) → Q (f r0) r →
  returns (gets f) r Q.
Proof.
  intros Hl Hf HQ. eexists _, _. split; [reflexivity|]. by rewrite (limited_field f _ _ _ _ _ Hl Hf).
Qed.

Ltac bstep :=
  cbv beta;
  lazymatch goal with
  | |- returns (mbind _ _) _ _ => apply returns_bind
  | |- returns (mret _) _ _ => apply returns_ret
  | Hl : limited ?r0 ?c ?q ?b ?r |- returns (load_group ?c) ?r _ =>
      eapply rule_limited_group; [exact Hl|intros ?t ?Ht]
  | Hl : limited ?r0 ?c ?q ?b ?r |- returns (store_bandwidth ?c ?f) ?r _ =>
      eapply rule_limited_store; [exact Hl|clear Hl r; intros r Hl]
  | Hl : limited ?r0 ?c ?q ?b ?r |- returns (load_cfs ?c) ?r _ =>
      eapply rule_limited_cfs; [exact Hl|]
  | Hl : limited ?r0 ?c ?q ?b ?r |- returns (store_cfs ?c ?f) ?r _ =>
      eapply rule_limited_cfs_store; [exact Hl|clear Hl r; intros r Hl]
  | Hl : limited ?r0 ?c ?q ?b ?r |- returns (gets ?f) ?r _ =>
      eapply (rule_limited_gets f); [exact Hl|done|]
  end.

(** The pool after a refill, if none was due the pool itself, with its timer
    armed. *)
Definition refilled (now : Z) (b : cfs_bandwidth) : cfs_bandwidth :=
  if timer_active b then b
  else b <| runtime := quota b |> <| b_runtime_expires := u64 (now + period b) |>
         <| period_timer := true |> <| timer_active := true |>.

(** What is taken from the pool when [want] is asked for. *)
Definition taken (b : cfs_bandwidth) (want : Z) : Z :=
  if 0 <? runtime b then Z.min (runtime b) want else 0.

Definition take (b : cfs_bandwidth) (want : Z) : cfs_bandwidth :=
  if 0 <? runtime b then b <| runtime := u64 (runtime b - taken b want) |> <| b_idle := false |>
  else b.

Lemma rule_take r0 c q b r want Q :
  limited r0 c q b r → quota b ≠ RUNTIME_INF →
  (∀ r', let b' := refilled (hw_clock r0) b in
    limited r0 c q (take b' want) r' → Q (taken b' want) r') →
  returns (take_from_pool c want) r Q.
Proof.
  intros Hl Hq HQ. unfold take_from_pool. do 2 bstep. rewrite Ht, (proj2 (Z.eqb_neq _ _) Hq). bstep.
  apply (returns_mono _ _ (λ _ r', limited r0 c q (refilled (hw_clock r0) b) r')).
  { unfold refilled. destruct (timer_active b) eqn:Hta; [by bstep|].
    bstep. unfold __refill_cfs_bandwidth_runtime. do 2 bstep.
    rewrite Ht0, (proj2 (Z.eqb_neq _ _) Hq). do 3 bstep.
    unfold __start_cfs_bandwidth, start_bandwidth_timer. do 3 bstep. rewrite Ht1. simpl.
    destruct (period_timer b) eqn:Hpt.
    - do 4 bstep. rewrite Ht2. simpl. bstep. rewrite Hta. do 2 bstep. bstep.
      destruct b; simpl in *. by subst.
    - do 3 bstep. bstep. destruct b; simpl in *. by subst. }
  clear Hl r. intros [] r Hl. do 2 bstep. rewrite Ht0.
  unfold take, taken in HQ. destruct (0 <? runtime _); [|bstep; by apply HQ].
  do 3 bstep. by apply HQ.
Qed.

(** The queue but for its run time. *)
Definition but_runtime (q : cfs_rq) : cfs_rq := q <| runtime_remaining := 0 |> <| runtime_expires := 0 |>.

Definition slice_ns (r : rq Y) : Z := u64 (sysctl_sched_cfs_bandwidth_slice (tun r) * NSEC_PER_USEC).

Lemma assign_runtime_ok r0 r c q b :
  limited r0 c q b r → quota b ≠ RUNTIME_INF → 0 ≤ runtime (refilled (hw_clock r0) b) < 2 ^ 62 →
  - 2 ^ 62 ≤ runtime_remaining q ≤ 0 → 0 < slice_ns r0 < 2 ^ 62 →
  returns (assign_cfs_rq_runtime c) r (λ ok r', ∃ q' b', limited r0 c q' b' r' ∧
    but_runtime q' = but_runtime q ∧
    runtime b' + runtime_remaining q' = runtime (refilled (hw_clock r0) b) + runtime_remaining q ∧
    0 ≤ runtime b' ∧ runtime_remaining q ≤ runtime_remaining q' ≤ slice_ns r0 ∧
    ok = (0 <? runtime_remaining q') ∧ (ok = false → runtime b' = 0)).
Proof.
  intros Hl Hq Hb Hr Hs. unfold assign_cfs_rq_runtime, sched_cfs_bandwidth_slice.
  do 6 bstep. fold (slice_ns r0). set (b0 := refilled (hw_clock r0) b) in *.
  assert (u64 (slice_ns r0 - runtime_remaining q) = slice_ns r0 - runtime_remaining q) as ->
    by (apply uwrap_small; widths; lia).
  set (want := slice_ns r0 - runtime_remaining q).
  bstep. eapply rule_take; [exact Hl|done|]. clear Hl r. cbv zeta. fold b0. intros r Hl.
  assert (0 ≤ taken b0 want ∧ runtime (take b0 want) = runtime b0 - taken b0 want ∧
    (taken b0 want = want ∨ taken b0 want = runtime b0) ∧ taken b0 want ≤ want ∧
    taken b0 want ≤ runtime b0) as (H0 & H1 & H2 & H3 & H4).
  { unfold take, taken, want in *. destruct (0 <? runtime b0) eqn:Hz; bsimp; [|lia]. simpl.
    rewrite uwrap_small; widths; lia. }
  set (g := taken b0 want) in *. do 8 bstep.
  match type of Hl with limited _ _ ?x _ _ => set (q' := x) in * end.
  assert (runtime_remaining q' = runtime_remaining q + g ∧ but_runtime q' = but_runtime q) as [Hrem Hbut].
  { unfold q'. split; [|by case_match].
    transitivity (s64 (runtime_remaining q + g)); [by case_match|].
    apply swrap_small; widths; unfold want in *; lia. }
  bstep. exists q', (take b0 want). rewrite Hrem. split_and!; try done; try lia;
    unfold want in *; lia.
Qed.

(** C29. Run time is neither made nor lost between the pool of a limited group
    and its queue: [assign_cfs_rq_runtime] moves run time from the pool, refilled
    with the quota if its period timer was off, to a queue that has used up its
    own; the sum stays, the queue gets at most one slice, and the call fails only
    with an empty pool. *)
Theorem assign_runtime_conserves r c q b :
  limited r c q b r → quota b ≠ RUNTIME_INF → 0 ≤ runtime (refilled (hw_clock r) b) < 2 ^ 62 →
  - 2 ^ 62 ≤ runtime_remaining q ≤ 0 → 0 < slice_ns r < 2 ^ 62 →
  returns (assign_cfs_rq_runtime c) r (λ ok r', ∃ q' b', limited r c q' b' r' ∧
    but_runtime q' = but_runtime q ∧
    runtime b' + runtime_remaining q' = runtime (refilled (hw_clock r) b) + runtime_remaining q ∧
    0 ≤ runtime b' ∧ runtime_remaining q ≤ runtime_remaining q' ≤ slice_ns r ∧
    ok = (0 <? runtime_remaining q') ∧ (ok = false → runtime b' = 0)).
Proof. apply assign_runtime_ok. Qed.

(** What an idle queue keeps of its run time, and what it gives back to the pool
    while that is of the same period. *)
Lemma return_runtime_ok r0 r c q b :
  limited r0 c q b r → quota b ≠ RUNTIME_INF → runtime_expires q = b_runtime_expires b →
  0 ≤ runtime b < 2 ^ 62 → min_cfs_rq_runtime < runtime_remaining q < 2 ^ 62 →
  returns (__return_cfs_rq_runtime c) r (λ _ r', ∃ q' b', limited r0 c q' b' r' ∧
    runtime_remaining q' = min_cfs_rq_runtime ∧
    runtime b' + runtime_remaining q' = runtime b + runtime_remaining q).
Proof.
  intros Hl Hq He Hb Hr. unfold __return_cfs_rq_runtime. do 2 bstep. cbv zeta.
  assert (0 < min_cfs_rq_runtime) by (vm_compute; done).
  rewrite (swrap_small 64 ltac:(lia)) by (widths; lia).
  set (s := runtime_remaining q - min_cfs_rq_runtime) in *.
  rewrite (proj2 (Z.leb_gt s 0)) by (unfold s; lia). do 3 bstep.
  rewrite Ht, (proj2 (Z.eqb_neq _ _) Hq), He, Z.eqb_refl. cbn [negb andb].
  set (b' := b <| runtime := u64 (runtime b + s) |>).
  apply (returns_mono _ _ (λ _ r', ∃ b2, limited r0 c q b2 r' ∧ runtime b2 = runtime b')).
  { do 5 bstep. unfold sched_cfs_bandwidth_slice. do 3 bstep. case_match; [case_match|]; [by bstep; eauto| |by bstep; eauto].
    unfold start_cfs_slack_bandwidth, runtime_refresh_within, start_bandwidth_timer. do 2 bstep.
    eexists _, _. split; [reflexivity|]. destruct (hrtimer_callback_running c r); bstep; [by bstep; eauto|].
    match goal with |- returns (if ?x then _ else _) _ _ => destruct x end; [by bstep; eauto|]. bstep. by eexists. }
  clear Hl r. intros [] r (b2 & Hl & Hb2). bstep. eexists _, b2. split; [exact Hl|]. simpl.
  rewrite Hb2. unfold b'. simpl. rewrite uwrap_small, (swrap_small 64 ltac:(lia)); unfold s in *; widths; lia.
Qed.
End Bandwidth.
