(* ===== verification/FairFrame.v ===== *)
(** * What the fair class leaves alone

    Queueing, throttling and accounting of the fair class change neither the tree
    of groups nor the period and the quota of any group. *)

From S2P Require Import Prelude SchedData Fair.

(** The tree of groups and their limits. *)
Definition group_view (t : task_group) := (tg_parent t, children t, period (bandwidth t), quota (bandwidth t)).

Definition limits_view {Y} (r : rq Y) := group_view <$> groups r.

Section Frame.
Context {Y : Type} `{FairEnv Y}.
Abbreviation fr := (frames (limits_view (Y := Y))).

Lemma fr_modify (f : rq Y → rq Y) : (∀ r, groups (f r) = groups r) → fr (modify f).
Proof. intros Hf. apply frames_modify. intros r. unfold limits_view. by rewrite Hf. Qed.

Lemma fr_store_group g t (f : task_group → task_group) (r : rq Y) :
  groups r !! g = Some t → group_view (f t) = group_view t →
  limits_view (r <| groups ::= <[g := f t]> |>) = limits_view r.
Proof.
  intros Hg Hf. unfold limits_view. simpl. rewrite fmap_insert, Hf, insert_id; [done|]. by rewrite lookup_fmap, Hg.
Qed.

Lemma fr_load_task p : fr (load_task p).
Proof. unfold load_task. frame. Qed.

Lemma fr_load_cfs c : fr (load_cfs c).
Proof. unfold load_cfs. frame. Qed.

Lemma fr_load_group g : fr (load_group g).
Proof. unfold load_group. frame. Qed.
#[local] Hint Resolve fr_load_task fr_load_cfs fr_load_group : frame.

Lemma fr_load_se s : fr (load_se s).
Proof. destruct s; simpl; frame. Qed.
#[local] Hint Resolve fr_load_se : frame.

Lemma fr_store_task p f : fr (store_task p f).
Proof. unfold store_task. frame. by apply fr_modify. Qed.

Lemma fr_store_cfs c f : fr (store_cfs c f).
Proof. unfold store_cfs. frame. by apply fr_modify. Qed.
#[local] Hint Resolve fr_store_task fr_store_cfs : frame.

Lemma fr_store_se s f : fr (store_se s f).
Proof. destruct s; simpl; frame. by apply fr_modify. Qed.
#[local] Hint Resolve fr_store_se : frame.

Lemma fr_store_bandwidth g f :
  (∀ b, period (f b) = period b ∧ quota (f b) = quota b) → fr (store_bandwidth g f).
Proof.
  intros Hf r. unfold store_bandwidth, load_group, mbind, M_bind, gets. destruct (groups r !! g) as [t|] eqn:Hg; [|done].
  destruct (Hf (bandwidth t)) as [Hp Hq].
  apply (fr_store_group g t (λ t, t <| bandwidth ::= f |>) r Hg). unfold group_view. simpl. by rewrite Hp, Hq.
Qed.
#[local] Hint Extern 1 (frames _ (store_bandwidth _ _)) =>
  apply fr_store_bandwidth; intros; repeat case_match; done : frame.
#[local] Hint Extern 1 (frames _ (modify _)) => apply fr_modify; done : frame.

Lemma fr_resched p : fr (resched_task p).
Proof. apply fr_store_task. Qed.

Lemma fr_clock : fr update_rq_clock.
Proof. unfold update_rq_clock, update_rq_clock_task. frame. Qed.
#[local] Hint Resolve fr_resched fr_clock : frame.

Lemma fr_entities {A} n (body : A → se_ptr → M (rq Y) (bool * A)) a s :
  (∀ a x, fr (body a x)) → fr (for_each_sched_entity n body a s).
Proof.
  intros Hb. revert a s. induction n as [|n IH]; intros a [x|]; simpl; frame; unfold parent_entity; frame.
Qed.

Lemma fr_depth : fr depth_bound.
Proof. unfold depth_bound. frame. Qed.

Lemma fr_cfs_rq_of s : fr (cfs_rq_of s).
Proof. unfold cfs_rq_of. frame. Qed.

Lemma fr_parent s : fr (parent_entity s).
Proof. unfold parent_entity. frame. Qed.

Lemma fr_slice : fr sched_cfs_bandwidth_slice.
Proof. unfold sched_cfs_bandwidth_slice. frame. Qed.
#[local] Hint Resolve fr_depth fr_cfs_rq_of fr_parent fr_slice : frame.

Lemma fr_account c d : fr (account_cfs_rq_runtime c d).
Proof.
  unfold account_cfs_rq_runtime, __account_cfs_rq_runtime, expire_cfs_rq_runtime, assign_cfs_rq_runtime,
    take_from_pool, __refill_cfs_bandwidth_runtime, __start_cfs_bandwidth, start_bandwidth_timer. frame.
Qed.

Lemma fr_throttled c : fr (cfs_rq_throttled c).
Proof. unfold cfs_rq_throttled. frame. Qed.

Lemma fr_hierarchy c : fr (throttled_hierarchy c).
Proof. unfold throttled_hierarchy. frame. Qed.

Lemma fr_min_vruntime c : fr (update_min_vruntime c).
Proof. unfold update_min_vruntime. frame. Qed.
#[local] Hint Resolve fr_account fr_throttled fr_hierarchy fr_min_vruntime : frame.

Lemma fr_return c : fr (return_cfs_rq_runtime c).
Proof.
  unfold return_cfs_rq_runtime, __return_cfs_rq_runtime, start_cfs_slack_bandwidth, runtime_refresh_within,
    start_bandwidth_timer. frame.
Qed.

Lemma fr_delta_fair d s : fr (calc_delta_fair d s).
Proof. unfold calc_delta_fair. frame. Qed.
#[local] Hint Resolve fr_return fr_delta_fair : frame.

Lemma fr_update_curr c : fr (update_curr c).
Proof. unfold update_curr, __update_curr. frame. Qed.

Lemma fr_sched_slice c s : fr (sched_slice c s).
Proof. unfold sched_slice, __sched_period. frame. apply fr_entities. intros. unfold slice_step. frame. Qed.

Lemma fr_enqueue_load c s : fr (account_entity_enqueue c s).
Proof. unfold account_entity_enqueue. frame. Qed.

Lemma fr_dequeue_load c s : fr (account_entity_dequeue c s).
Proof. unfold account_entity_dequeue. frame. Qed.
#[local] Hint Resolve fr_update_curr fr_sched_slice fr_enqueue_load fr_dequeue_load : frame.

Lemma fr_shares c : fr (update_cfs_shares c).
Proof. unfold update_cfs_shares, reweight_entity, calc_cfs_shares. frame. Qed.

Lemma fr_place c s b : fr (place_entity c s b).
Proof. unfold place_entity, sched_vslice. frame. Qed.

Lemma fr_clear c s : fr (clear_buddies c s).
Proof.
  unfold clear_buddies, __clear_buddies_last, __clear_buddies_next, __clear_buddies_skip.
  frame; apply fr_entities; intros; frame.
Qed.

Lemma fr_rb_link s e b t : fr (rb_link s e b t).
Proof. revert b. induction t; intros b; simpl; frame. Qed.

Lemma fr_enqueue_tree c s : fr (__enqueue_entity c s).
Proof. unfold __enqueue_entity. frame. apply fr_rb_link. Qed.

Lemma fr_dequeue_tree c s : fr (__dequeue_entity c s).
Proof. unfold __dequeue_entity. frame. Qed.
#[local] Hint Resolve fr_shares fr_place fr_clear fr_enqueue_tree fr_dequeue_tree : frame.

Lemma fr_dequeue_entity c s flags : fr (dequeue_entity c s flags).
Proof. unfold dequeue_entity, update_cfs_load. frame. Qed.
#[local] Hint Resolve fr_dequeue_entity : frame.

Lemma fr_walk n g down up : (∀ x, fr (down x)) → (∀ x, fr (up x)) → fr (walk_tg_tree_from n g down up).
Proof.
  intros Hd Hu. revert g. induction n as [|n IH]; intros g; simpl; frame.
  match goal with t : task_group |- _ => generalize (children t) end. intros cs.
  induction cs as [|c cs IHc]; frame.
Qed.

Lemma fr_throttle c : fr (throttle_cfs_rq c).
Proof.
  unfold throttle_cfs_rq, group_bound, throttle_step. frame.
  - apply fr_walk; intros; unfold tg_throttle_down, tg_nop, update_cfs_load; frame.
  - apply fr_entities. intros. frame.
Qed.
#[local] Hint Resolve fr_throttle : frame.

Lemma fr_enqueue_entity c s flags : fr (enqueue_entity c s flags).
Proof. unfold enqueue_entity, update_cfs_load, list_add_leaf_cfs_rq, check_enqueue_throttle. frame. Qed.
#[local] Hint Resolve fr_enqueue_entity : frame.

Lemma fr_unthrottle c : fr (unthrottle_cfs_rq c).
Proof.
  unfold unthrottle_cfs_rq, group_bound, unthrottle_step. frame.
  - apply fr_walk; intros; unfold tg_unthrottle_up, tg_nop; frame.
  - apply fr_entities. intros. frame.
Qed.

Lemma fr_refill g : fr (__refill_cfs_bandwidth_runtime g).
Proof. unfold __refill_cfs_bandwidth_runtime. frame. Qed.

Lemma fr_start g : fr (__start_cfs_bandwidth g).
Proof. unfold __start_cfs_bandwidth, start_bandwidth_timer. frame. Qed.

Lemma fr_init_cfs_rq c : fr (init_cfs_rq c).
Proof. apply fr_store_cfs. Qed.

Lemma fr_unregister g : fr (unregister_fair_sched_group g).
Proof. unfold unregister_fair_sched_group, list_del_leaf_cfs_rq. frame. Qed.

Lemma fr_destroy g : fr (destroy_cfs_bandwidth g).
Proof. by apply fr_store_bandwidth. Qed.

Lemma fr_init_tg_cfs_entry g s p : fr (init_tg_cfs_entry g s p).
Proof.
  unfold init_tg_cfs_entry, init_cfs_rq_runtime. apply frames_bind; [apply fr_store_cfs|]. intros _.
  intros r. unfold mbind at 1, M_bind at 1. unfold load_group, mbind at 1, M_bind at 1, gets.
  destruct (groups r !! g) as [t|] eqn:Hg; [|done]. unfold mret at 1, M_ret. unfold mbind at 1, M_bind at 1, modify.
  transitivity (limits_view (r <| groups ::= <[g := t <| tg_se := s |>]> |>)); [|by apply fr_store_group].
  match goal with |- limits_view (res_state (?m _)) = _ => assert (fr m) as Hm by frame; apply Hm end.
Qed.
End Frame.

#[export] Hint Resolve fr_load_task fr_load_cfs fr_load_group fr_load_se fr_store_task fr_store_cfs fr_store_se
  fr_unthrottle fr_refill fr_start : frame.

(** ** The tree alone *)

Definition tree_view (t : task_group) := (tg_parent t, children t).

Definition tree_of {Y} (r : rq Y) := tree_view <$> groups r.

(** Parent and children of a view. *)
Definition view_tree (v : option Z * list Z * Z * Z) : option Z * list Z := (v.1.1.1, v.1.1.2).

Lemma tree_limits {Y} (r : rq Y) : tree_of r = view_tree <$> limits_view r.
Proof. unfold tree_of, limits_view. by rewrite <- map_fmap_compose. Qed.
