(* ===== verification/Groups.v ===== *)
(** * Task groups and their limits: [core.c]

    Task groups form a tree.  A group has a real-time limit (run time per period)
    and, in [SchedData.v], a limit of the fair class; a new limit is admitted only
    if the whole tree stays schedulable, which a walk over the tree decides.  The
    tree and the fair limits are those of the run queue of [Fair.v]; what that run
    queue does not hold (real-time limits, the sysctl variables, the list of all
    groups) is added here.

    Memory allocation and the part of the real-time class that sets up a group are
    the parameter [GroupEnv]. *)

From S2P Require Import Prelude SchedData Fair Sched.

Definition EBUSY : Z := 16.
Definition ENOMEM : Z := 12.
Definition EACCES : Z := 13.
Definition root_task_group : Z := 0.

(** [struct rt_bandwidth] of a group, and the run time of its queue on each
    processor. *)
Record rt_bandwidth : Type := mkRt {
  rt_period : Z;
  rt_runtime : Z;
  rt_rqs : gmap Z Z
}.
#[export] Instance rt_bandwidth_eta : Settable rt_bandwidth := λ r,
  mkRt (rt_period r) (rt_runtime r) (rt_rqs r).

Record gsys (Y : Type) : Type := mkG {
  proc : rq Y;
  rt_bw : gmap Z rt_bandwidth;
  hierarchal_quota : gmap Z Z;
  notify_on_migrate : gmap Z bool;
  task_groups : list Z;
  sysctl_sched_rt_period : Z;
  sysctl_sched_rt_runtime : Z;
  def_rt_bandwidth : Z * Z;                     (** period and run time *)
  cfs_bandwidth_users : Z                       (** the static key [__cfs_bandwidth_used] *)
}.
Arguments mkG {Y}.
Arguments proc {Y}.
Arguments rt_bw {Y}.
Arguments hierarchal_quota {Y}.
Arguments notify_on_migrate {Y}.
Arguments task_groups {Y}.
Arguments sysctl_sched_rt_period {Y}.
Arguments sysctl_sched_rt_runtime {Y}.
Arguments def_rt_bandwidth {Y}.
Arguments cfs_bandwidth_users {Y}.
#[export] Instance gsys_eta Y : Settable (gsys Y) := λ s,
  mkG (proc s) (rt_bw s) (hierarchal_quota s) (notify_on_migrate s) (task_groups s)
    (sysctl_sched_rt_period s) (sysctl_sched_rt_runtime s) (def_rt_bandwidth s) (cfs_bandwidth_users s).

Class GroupEnv (Y : Type) : Type := {
  kzalloc_group : gsys Y → option Z;            (** the new group, if there is memory *)
  kzalloc_arrays : gsys Y → bool;               (** memory for the arrays of queues and entities *)
  kzalloc_queue : gsys Y → bool;                (** memory for a queue and an entity *)
  alloc_rt_sched_group : gsys Y → Z → option rt_bandwidth;
  rq_rt_tg : Z → Z;                             (** [task_rq (p)->rt.tg] *)
  cred_suid : Z → Z
}.

Section Groups.
Context {Y : Type} `{SchedEnv Y} `{FairEnv Y} `{GroupEnv Y}.
Abbreviation G := (M (gsys Y)).

(** Code of the run queue. *)
Definition on_proc {A} (m : M (rq Y) A) : G A := λ s,
  match m (proc s) with Ok a r => Ok a (s <| proc := r |>) | Err f r => Err f (s <| proc := r |>) end.

Definition load_rt (g : Z) : G rt_bandwidth := s ← get; deref (rt_bw s !! g).

Definition store_rt (g : Z) (f : rt_bandwidth → rt_bandwidth) : G unit :=
  b ← load_rt g;
  modify (λ s, s <| rt_bw ::= <[g := f b]> |>).

(** ** Groups come and go *)

(** The timers of a group can be cancelled once [init_cfs_bandwidth] has set them up,
    together with the period; [hrtimer_cancel] is not defined on a timer without a base. *)
Definition free_fair_sched_group (g : Z) : G unit :=
  t ← on_proc (load_group g);
  _ ← (if period (bandwidth t) =? 0 then fail Undefined else on_proc (destroy_cfs_bandwidth g));
  modify (λ s, s <| proc ::= λ r, r <| cfs_rqs ::= delete g |> <| group_se ::= delete g |> |>).

Definition free_sched_group (g : Z) : G unit :=
  _ ← free_fair_sched_group g;
  _ ← modify (λ s, s <| rt_bw ::= delete g |>);
  modify (λ s, s <| proc ::= λ r, r <| groups ::= delete g |> |>
                 <| hierarchal_quota ::= delete g |> <| notify_on_migrate ::= delete g |>).

Definition zero_bandwidth : cfs_bandwidth := mkBandwidth 0 0 0 0 false false false false [] 0 0 0.
Definition zero_queue : cfs_rq :=
  mkCfsRq (mkLoad 0 0) 0 0 0 0 RB_ROOT None None None None None false false 0 0 0 false 0.
Definition zero_entity : sched_entity := mkSe (mkLoad 0 0) 0 0 0 0 0 None 0 None.

(** One processor: one queue and one entity. *)
Definition alloc_fair_sched_group (g parent : Z) : G bool :=
  s ← get;
  if negb (kzalloc_arrays s) then mret false
  else
    t ← on_proc (load_group g);
    _ ← modify (λ s, s <| proc ::= λ r, r <| groups ::= <[g := t <| shares := NICE_0_LOAD |>]> |> |>);
    _ ← on_proc (init_cfs_bandwidth g);
    s ← get;
    if negb (kzalloc_queue s) then mret false
    else
      _ ← modify (λ s, s <| proc ::= λ r, r <| cfs_rqs ::= <[g := zero_queue]> |>
                                            <| group_se ::= <[g := zero_entity]> |> |>);
      _ ← on_proc (init_cfs_rq g);
      pt ← on_proc (load_group parent);
      _ ← on_proc (init_tg_cfs_entry g (Some (GroupSe g)) (tg_se pt));
      mret true.

(** A new group, or an error. *)
Definition sched_create_group (parent : Z) : G (Z + Z) :=
  s ← get;
  match kzalloc_group s with
  | None => mret (inr (- ENOMEM))
  | Some tg =>
      _ ← modify (λ s, s <| proc ::= λ r, r <| groups ::= <[tg := mkGroup 0 None None [] zero_bandwidth]> |> |>
                         <| hierarchal_quota ::= <[tg := 0]> |> <| notify_on_migrate ::= <[tg := false]> |>);
      ok ← alloc_fair_sched_group tg parent;
      if negb ok then _ ← free_sched_group tg; mret (inr (- ENOMEM))
      else
        s ← get;
        match alloc_rt_sched_group s parent with
        | None => _ ← free_sched_group tg; mret (inr (- ENOMEM))
        | Some b =>
            _ ← modify (λ s, s <| rt_bw ::= <[tg := b]> |>);
            _ ← modify (λ s, s <| task_groups ::= cons tg |>);
            t ← on_proc (load_group tg);
            _ ← modify (λ s, s <| proc ::= λ r, r <| groups ::= <[tg := t <| tg_parent := Some parent |> <| children := [] |>]> |> |>);
            p ← on_proc (load_group parent);
            _ ← modify (λ s, s <| proc ::= λ r, r <| groups ::= <[parent := p <| children := tg :: children p |>]> |> |>);
            mret (inl tg)
        end
  end.

Definition free_sched_group_rcu (g : Z) : G unit := free_sched_group g.

(** The group leaves the tree; [free_sched_group_rcu] is called later. *)
Definition sched_destroy_group (g : Z) : G unit :=
  _ ← on_proc (unregister_fair_sched_group g);
  _ ← modify (λ s, s <| task_groups ::= remove_one g |>);
  t ← on_proc (load_group g);
  match tg_parent t with
  | None => mret tt
  | Some p =>
      pt ← on_proc (load_group p);
      modify (λ s, s <| proc ::= λ r, r <| groups ::= <[p := pt <| children := remove_one g (children pt) |>]> |> |>)
  end.

(** ** The walk over all groups *)

Fixpoint walk_from (fuel : nat) (down up : Z → G Z) (from : Z) : G Z :=
  match fuel with
  | O => fail OutOfFuel
  | S fuel' =>
      ret ← down from;
      if negb (ret =? 0) then mret ret
      else
        t ← on_proc (load_group from);
        ret ← (fix visit (cs : list Z) : G Z :=
                 match cs with
                 | [] => mret 0
                 | child :: cs' =>
                     ret ← walk_from fuel' down up child;
                     if negb (ret =? 0) then mret ret else visit cs'
                 end) (children t);
        if negb (ret =? 0) then mret ret else up from
  end.

Definition group_nop (g : Z) : G Z := mret 0.

(** A tree of groups is no deeper than their number. *)
Definition walk_tg_tree (down up : Z → G Z) : G Z :=
  s ← get;
  walk_from (S (size (groups (proc s)))) down up root_task_group.

(** ** Real-time limits *)

Definition rt_bandwidth_enabled (s : gsys Y) : bool := 0 <=? sysctl_sched_rt_runtime s.

Definition global_rt_period (s : gsys Y) : Z := u64 (sysctl_sched_rt_period s * NSEC_PER_USEC).

Definition global_rt_runtime (s : gsys Y) : Z :=
  if sysctl_sched_rt_runtime s <? 0 then RUNTIME_INF
  else u64 (sysctl_sched_rt_runtime s * NSEC_PER_USEC).

Definition div64_u64 (a b : Z) : G Z := if b =? 0 then fail Undefined else mret (a / b).

Definition to_ratio (period runtime : Z) : G Z :=
  if runtime =? RUNTIME_INF then mret (Z.shiftl 1 20)
  else q ← div64_u64 (u64 (Z.shiftl runtime 20)) period; mret (u32 q).

Definition rt_task (t : task) : bool := rt_prio (prio t).

Definition tg_has_rt_tasks (g : Z) : G bool :=
  r ← gets proc;
  mret (existsb (λ pt, rt_task pt.2 && (rq_rt_tg pt.1 =? g)) (map_to_list (tasks r))).

Record rt_schedulable_data : Type := mkRtData { d_tg : option Z; d_rt_period : Z; d_rt_runtime : Z }.

(** The limit of a group, with the one to be admitted in place of its own. *)
Definition rt_limit (d : rt_schedulable_data) (g : Z) : G (Z * Z) :=
  b ← load_rt g;
  if decide (d_tg d = Some g) then mret (d_rt_period d, d_rt_runtime d)
  else mret (rt_period b, rt_runtime b).

Fixpoint sum_ratios (d : rt_schedulable_data) (cs : list Z) (sum : Z) : G Z :=
  match cs with
  | [] => mret sum
  | child :: cs' =>
      pr ← rt_limit d child;
      ratio ← to_ratio pr.1 pr.2;
      sum_ratios d cs' (u32 (sum + ratio))
  end.

Definition tg_rt_schedulable (d : rt_schedulable_data) (g : Z) : G Z :=
  pr ← rt_limit d g;
  let '(period, runtime) := pr in
  if (period <? runtime) && negb (runtime =? RUNTIME_INF) then mret (- EINVAL)
  else
    s ← get;
    busy ← (if rt_bandwidth_enabled s && (runtime =? 0) then tg_has_rt_tasks g else mret false);
    if busy : bool then mret (- EBUSY)
    else
      total ← to_ratio period runtime;
      global ← to_ratio (global_rt_period s) (global_rt_runtime s);
      if global <? total then mret (- EINVAL)
      else
        t ← on_proc (load_group g);
        sum ← sum_ratios d (children t) 0;
        if total <? sum then mret (- EINVAL) else mret 0.

Definition __rt_schedulable (g : option Z) (period runtime : Z) : G Z :=
  walk_tg_tree (tg_rt_schedulable (mkRtData g period runtime)) group_nop.

Definition tg_set_rt_bandwidth (g period runtime : Z) : G Z :=
  err ← __rt_schedulable (Some g) period runtime;
  if negb (err =? 0) then mret err
  else
    _ ← store_rt g (λ b, b <| rt_period := period |> <| rt_runtime := runtime |>
                           <| rt_rqs ::= fmap (λ _, runtime) |>);
    mret err.

(** [rt_runtime_us] is a [long]; converted to [u64] it keeps its sign. *)
Definition sched_group_set_rt_runtime (g rt_runtime_us : Z) : G Z :=
  b ← load_rt g;
  let runtime := if rt_runtime_us <? 0 then RUNTIME_INF else u64 (rt_runtime_us * NSEC_PER_USEC) in
  tg_set_rt_bandwidth g (rt_period b) runtime.

Definition sched_group_rt_runtime (g : Z) : G Z :=
  b ← load_rt g;
  if rt_runtime b =? RUNTIME_INF then mret (-1) else mret (s32 (rt_runtime b / NSEC_PER_USEC)).

Definition sched_group_set_rt_period (g rt_period_us : Z) : G Z :=
  b ← load_rt g;
  let period := u64 (rt_period_us * NSEC_PER_USEC) in
  if period =? 0 then mret (- EINVAL) else tg_set_rt_bandwidth g period (rt_runtime b).

Definition sched_group_rt_period (g : Z) : G Z :=
  b ← load_rt g;
  mret (s32 (rt_period b / NSEC_PER_USEC)).

Definition sched_rt_global_constraints : G Z :=
  s ← get;
  if sysctl_sched_rt_period s <=? 0 then mret (- EINVAL)
  else
    let runtime := global_rt_runtime s in
    let period := global_rt_period s in
    if (period <? runtime) && negb (runtime =? RUNTIME_INF) then mret (- EINVAL)
    else __rt_schedulable None 0 0.

Definition sched_rt_can_attach (g : Z) (t : task) : G bool :=
  b ← load_rt g;
  mret (negb (rt_task t && (rt_runtime b =? 0))).

(** What [proc_dointvec] answers and writes is outside: [ret], and the values of
    the two variables after it. *)
Definition sched_rt_handler (write : bool) (ret new_period new_runtime : Z) : G Z :=
  s ← get;
  let old_period := sysctl_sched_rt_period s in
  let old_runtime := sysctl_sched_rt_runtime s in
  _ ← modify (λ s, s <| sysctl_sched_rt_period := new_period |> <| sysctl_sched_rt_runtime := new_runtime |>);
  if (ret =? 0) && write then
    ret ← sched_rt_global_constraints;
    if negb (ret =? 0) then
      _ ← modify (λ s, s <| sysctl_sched_rt_period := old_period |> <| sysctl_sched_rt_runtime := old_runtime |>);
      mret ret
    else
      _ ← modify (λ s, s <| def_rt_bandwidth := (global_rt_period s, global_rt_runtime s) |>);
      mret ret
  else mret ret.

(** ** Limits of the fair class *)

Definition max_cfs_quota_period : Z := 1000000000.
Definition min_cfs_quota_period : Z := 1 * NSEC_PER_MSEC.

Definition account_cfs_bandwidth_used (enabled was_enabled : bool) : G unit :=
  if enabled && negb was_enabled then modify (λ s, s <| cfs_bandwidth_users := s32 (cfs_bandwidth_users s + 1) |>)
  else if negb enabled && was_enabled
  then modify (λ s, s <| cfs_bandwidth_users := s32 (cfs_bandwidth_users s - 1) |>)
  else mret tt.

(** The values a [long] can hold. *)
Definition tg_get_cfs_quota (g : Z) : G Z :=
  t ← on_proc (load_group g);
  if quota (bandwidth t) =? RUNTIME_INF then mret (-1)
  else mret (s32 (quota (bandwidth t) / NSEC_PER_USEC)).

Definition tg_get_cfs_period (g : Z) : G Z :=
  t ← on_proc (load_group g);
  mret (s32 (period (bandwidth t) / NSEC_PER_USEC)).

Record cfs_schedulable_data : Type := mkCfsData { c_tg : Z; d_period : Z; d_quota : Z }.

Definition normalize_cfs_quota (d : cfs_schedulable_data) (g : Z) : G Z :=
  pq ← (if decide (g = c_tg d) then mret (d_period d, d_quota d)
        else p ← tg_get_cfs_period g; q ← tg_get_cfs_quota g; mret (u64 p, u64 q));
  if (pq.2 =? RUNTIME_INF) || (pq.2 =? u64 (-1)) then mret RUNTIME_INF
  else to_ratio pq.1 pq.2.

(** [quota] and [parent_quota] are [s64]: [RUNTIME_INF] is [-1] there. *)
Definition tg_cfs_schedulable_down (d : cfs_schedulable_data) (g : Z) : G Z :=
  t ← on_proc (load_group g);
  match tg_parent t with
  | None => _ ← modify (λ s, s <| hierarchal_quota ::= <[g := s64 RUNTIME_INF]> |>); mret 0
  | Some p =>
      q ← normalize_cfs_quota d g;
      let quota := s64 q in
      s ← get;
      parent_quota ← deref (hierarchal_quota s !! p);
      if u64 quota =? RUNTIME_INF
      then _ ← modify (λ s, s <| hierarchal_quota ::= <[g := parent_quota]> |>); mret 0
      else if negb (u64 parent_quota =? RUNTIME_INF) && (parent_quota <? quota) then mret (- EINVAL)
      else _ ← modify (λ s, s <| hierarchal_quota ::= <[g := quota]> |>); mret 0
  end.

Definition __cfs_schedulable (g period quota : Z) : G Z :=
  let d := if negb (quota =? RUNTIME_INF)
           then mkCfsData g (period / NSEC_PER_USEC) (quota / NSEC_PER_USEC)
           else mkCfsData g period quota in
  walk_tg_tree (tg_cfs_schedulable_down d) group_nop.

(** One processor: one queue per group. *)
Definition tg_set_cfs_bandwidth (g new_period new_quota : Z) : G Z :=
  if g =? root_task_group then mret (- EINVAL)
  else if (new_quota <? min_cfs_quota_period) || (new_period <? min_cfs_quota_period) then mret (- EINVAL)
  else if max_cfs_quota_period <? new_period then mret (- EINVAL)
  else
    ret ← __cfs_schedulable g new_period new_quota;
    if negb (ret =? 0) then mret ret
    else
      t ← on_proc (load_group g);
      let enabled := negb (new_quota =? RUNTIME_INF) in
      let was_enabled := negb (quota (bandwidth t) =? RUNTIME_INF) in
      _ ← account_cfs_bandwidth_used enabled was_enabled;
      _ ← on_proc (store_bandwidth g (λ b, b <| period := new_period |> <| quota := new_quota |>));
      _ ← on_proc (__refill_cfs_bandwidth_runtime g);
      t ← on_proc (load_group g);
      _ ← (if enabled && timer_active (bandwidth t) then
             _ ← on_proc (store_bandwidth g (λ b, b <| timer_active := false |>));
             on_proc (__start_cfs_bandwidth g)
           else mret tt);
      _ ← on_proc (store_cfs g (λ q, q <| runtime_enabled := enabled |> <| runtime_remaining := 0 |>));
      q ← on_proc (load_cfs g);
      _ ← (if throttled q then on_proc (unthrottle_cfs_rq g) else mret tt);
      mret ret.

Definition tg_set_cfs_quota (g cfs_quota_us : Z) : G Z :=
  t ← on_proc (load_group g);
  let q := if cfs_quota_us <? 0 then RUNTIME_INF else u64 (cfs_quota_us * NSEC_PER_USEC) in
  tg_set_cfs_bandwidth g (period (bandwidth t)) q.

Definition tg_set_cfs_period (g cfs_period_us : Z) : G Z :=
  t ← on_proc (load_group g);
  tg_set_cfs_bandwidth g (u64 (cfs_period_us * NSEC_PER_USEC)) (quota (bandwidth t)).

(** ** The files of the cpu control group

    The control group of a group is the group; the [s64] and [u64] values of the
    files are passed as [long]. *)

Definition cgroup_tg (cgrp : Z) : Z := cgrp.

Definition cpu_cgroup_create (parent : option Z) : G (Z + Z) :=
  match parent with
  | None => mret (inl root_task_group)
  | Some p =>
      tg ← sched_create_group (cgroup_tg p);
      match tg with inr _ => mret (inr (- ENOMEM)) | inl g => mret (inl g) end
  end.

Definition cpu_cgroup_destroy (cgrp : Z) : G unit := sched_destroy_group (cgroup_tg cgrp).

Fixpoint cpu_cgroup_allow_attach (tset : list Z) : Z :=
  match tset with
  | [] => 0
  | p :: tset' =>
      if negb (current =? p) && negb capable_sys_nice && negb (cred_euid current =? cred_uid p) &&
         negb (cred_euid current =? cred_suid p)
      then - EACCES else cpu_cgroup_allow_attach tset'
  end.

Fixpoint cpu_cgroup_can_attach (cgrp : Z) (tset : list Z) : G Z :=
  match tset with
  | [] => mret 0
  | p :: tset' =>
      t ← on_proc (load_task p);
      ok ← sched_rt_can_attach (cgroup_tg cgrp) t;
      if negb ok then mret (- EINVAL) else cpu_cgroup_can_attach cgrp tset'
  end.

Definition cpu_cgroup_attach (tset : list Z) : G unit :=
  for_each tset (λ p, on_proc (sched_move_task p)).

Definition PF_EXITING : Z := 4.

Definition cpu_cgroup_exit (p : Z) : G unit :=
  t ← on_proc (load_task p);
  if negb (has_flag (flags t) PF_EXITING) then mret tt else on_proc (sched_move_task p).

Definition cpu_notify_on_migrate_read_u64 (cgrp : Z) : G Z :=
  s ← get;
  b ← deref (notify_on_migrate s !! cgroup_tg cgrp);
  mret (b2z b).

Definition cpu_notify_on_migrate_write_u64 (cgrp notify : Z) : G Z :=
  s ← get;
  _ ← deref (notify_on_migrate s !! cgroup_tg cgrp);
  _ ← modify (λ s, s <| notify_on_migrate ::= <[cgroup_tg cgrp := 0 <? notify]> |>);
  mret 0.

Definition cpu_shares_write_u64 (cgrp shareval : Z) : G Z :=
  on_proc (sched_group_set_shares (cgroup_tg cgrp) (u32 shareval)).

Definition cpu_shares_read_u64 (cgrp : Z) : G Z :=
  t ← on_proc (load_group (cgroup_tg cgrp));
  mret (shares t).

Definition cpu_cfs_quota_read_s64 (cgrp : Z) : G Z := tg_get_cfs_quota (cgroup_tg cgrp).
Definition cpu_cfs_quota_write_s64 (cgrp cfs_quota_us : Z) : G Z := tg_set_cfs_quota (cgroup_tg cgrp) (s32 cfs_quota_us).
Definition cpu_cfs_period_read_u64 (cgrp : Z) : G Z := p ← tg_get_cfs_period (cgroup_tg cgrp); mret (u64 p).
Definition cpu_cfs_period_write_u64 (cgrp cfs_period_us : Z) : G Z := tg_set_cfs_period (cgroup_tg cgrp) (s32 cfs_period_us).

(** The statistics in the order they are reported. *)
Definition cpu_stats_show (cgrp : Z) : G (list Z) :=
  t ← on_proc (load_group (cgroup_tg cgrp));
  let b := bandwidth t in
  mret [nr_periods b; nr_throttled b; throttled_time b].

Definition cpu_rt_runtime_write (cgrp val : Z) : G Z := sched_group_set_rt_runtime (cgroup_tg cgrp) (s32 val).
Definition cpu_rt_runtime_read (cgrp : Z) : G Z := sched_group_rt_runtime (cgroup_tg cgrp).
Definition cpu_rt_period_write_uint (cgrp rt_period_us : Z) : G Z := sched_group_set_rt_period (cgroup_tg cgrp) (s32 rt_period_us).
Definition cpu_rt_period_read_uint (cgrp : Z) : G Z := p ← sched_group_rt_period (cgroup_tg cgrp); mret (u64 p).
End Groups.
