(* ===== verification/GroupSpec.v ===== *)
(** * The limits of task groups stay schedulable

    The walk over the tree of groups visits every group; a limit is admitted
    exactly if the whole tree satisfies the constraints with it; so that, whatever
    groups are made, removed and limited, in every state every group has at most
    its period, at most what the global setting allows, and at least what its
    children have together. *)

From S2P Require Import Prelude SchedData Fair Sched FairFrame Groups.

(** ** The tree of groups *)

(** A tree of groups: each with its parent and its children. *)
Abbreviation tree := (gmap Z (option Z * list Z)).

Record tree_ok (tv : tree) (L : list Z) : Prop := {
  to_nodup : NoDup L;
  to_root : root_task_group ∈ L ∧ ∃ ks, tv !! root_task_group = Some (None, ks);
  to_node : ∀ g, g ∈ L → ∃ p ks, tv !! g = Some (p, ks) ∧ NoDup ks ∧
    ∀ c, c ∈ ks → c ∈ L ∧ ∃ ks', tv !! c = Some (Some g, ks');
  to_parent : ∀ g, g ∈ L → g ≠ root_task_group → ∃ p q ks, p ∈ L ∧ tv !! p = Some (q, ks) ∧ g ∈ ks;
  to_level : ∃ lv : Z → nat, lv root_task_group = 0%nat ∧
    ∀ g p ks c, g ∈ L → tv !! g = Some (p, ks) → c ∈ ks → lv c = S (lv g)
}.

(** [x] is a child of [g]. *)
Definition child_of (tv : tree) (g x : Z) : Prop := ∃ p ks, tv !! g = Some (p, ks) ∧ x ∈ ks.

Lemma tree_group {Y} (r : rq Y) g p ks :
  tree_of r !! g = Some (p, ks) → ∃ t, groups r !! g = Some t ∧ tg_parent t = p ∧ children t = ks.
Proof. unfold tree_of. rewrite lookup_fmap. intros Hg. apply fmap_Some in Hg as (t & ? & [= -> ->]). eauto. Qed.

Lemma group_tree {Y} (r : rq Y) g t : groups r !! g = Some t → tree_of r !! g = Some (tg_parent t, children t).
Proof. intros Hg. unfold tree_of. by rewrite lookup_fmap, Hg. Qed.

Section Tree.
Context (tv : tree) (L : list Z) (Ht : tree_ok tv L).

Lemma child_in g x : g ∈ L → child_of tv g x → x ∈ L.
Proof. intros Hg (p & ks & Hgt & Hx). destruct (to_node _ _ Ht g Hg) as (p' & ks' & Hgt' & _ & Hc). naive_solver. Qed.

Lemma descendant_in g x : g ∈ L → rtc (child_of tv) g x → x ∈ L.
Proof. intros Hg Hr. induction Hr; [done|]. by eauto using child_in. Qed.

(** Every group descends from the root. *)
Lemma from_root g : g ∈ L → rtc (child_of tv) root_task_group g.
Proof.
  destruct (to_level _ _ Ht) as (lv & H0 & Hlv). remember (lv g) as n eqn:Hn. revert g Hn.
  induction n as [n IH] using lt_wf_ind. intros g -> Hg.
  destruct (decide (g = root_task_group)) as [->|Hne]; [apply rtc_refl|].
  destruct (to_parent _ _ Ht g Hg Hne) as (p & q & ks & Hp & Hpt & Hc).
  eapply rtc_r; [apply (IH (lv p)); [|done|done]|by exists q, ks]. rewrite (Hlv p q ks g); [lia|done..].
Qed.

(** The level of a group is less than the number of groups. *)
Lemma level_bound lv g :
  lv root_task_group = 0%nat →
  (∀ g p ks c, g ∈ L → tv !! g = Some (p, ks) → c ∈ ks → lv c = S (lv g)) →
  g ∈ L → (lv g < size tv)%nat.
Proof.
  intros H0 Hlv Hg.
  assert (∃ l, NoDup l ∧ length l = S (lv g) ∧ ∀ x, x ∈ l → x ∈ L ∧ (lv x ≤ lv g)%nat) as (l & Hnd & Hl & Hin).
  { remember (lv g) as n eqn:Hn. revert g Hn Hg. induction n as [|n IH]; intros g Hn Hg.
    - exists [g]. split_and!; [apply NoDup_singleton|done|]. intros x ->%list_elem_of_singleton. split; [done|lia].
    - destruct (decide (g = root_task_group)) as [->|Hne]; [congruence|].
      destruct (to_parent _ _ Ht g Hg Hne) as (p & q & ks & Hp & Hpt & Hc). pose proof (Hlv p q ks g Hp Hpt Hc) as Hlp.
      destruct (IH p) as (l & Hnd & Hl & Hin); [lia|done|]. exists (g :: l). split_and!.
      + apply NoDup_cons. split; [|done]. intros Hgl. apply Hin in Hgl as [_ Hle]. lia.
      + simpl. lia.
      + intros x [->|Hx]%elem_of_cons; [split; [done|lia]|]. apply Hin in Hx as [? ?]. split; [done|lia]. }
  assert (length l ≤ size (dom tv))%nat; [|rewrite size_dom in *; lia].
  rewrite <- (size_list_to_set (C := gset Z) l Hnd). apply subseteq_size. intros x Hx.
  apply elem_of_list_to_set, Hin in Hx as [Hx _].
  destruct (to_node _ _ Ht x Hx) as (p & ks & Hxt & _). by apply elem_of_dom_2 in Hxt.
Qed.

(** Nothing but the groups of the list matters. *)
Lemma tree_ok_ext tv' : (∀ g, g ∈ L → tv' !! g = tv !! g) → tree_ok tv' L.
Proof.
  intros He. destruct Ht as [Hnd [Hr0 (rks & Hr1)] Hnode Hpar (lv & H0 & Hlv)]. split; [done| | | |].
  - split; [done|]. rewrite He by done. eauto.
  - intros g Hg. destruct (Hnode g Hg) as (p & ks & Hgt & Hnd' & Hk). exists p, ks. rewrite He by done.
    split_and!; [done|done|]. intros c Hc. destruct (Hk c Hc) as [? ?]. rewrite He by done. done.
  - intros g Hg Hne. destruct (Hpar g Hg Hne) as (p & q & ks & ? & ? & ?). exists p, q, ks. by rewrite He.
  - exists lv. split; [done|]. intros g p ks c Hg. rewrite He by done. eauto.
Qed.

(** A new leaf [g] below [p]. *)
Lemma tree_ok_add p q ks g :
  p ∈ L → tv !! p = Some (q, ks) → tv !! g = None →
  tree_ok (<[p := (q, g :: ks)]> (<[g := (Some p, [])]> tv)) (g :: L).
Proof.
  intros Hp Htp Hg. destruct Ht as [Hnd [Hr0 (rks & Hr1)] Hnode Hpar (lv & H0 & Hlv)].
  assert (∀ x, x ∈ L → x ≠ g) as HgL
    by (intros x Hx ->; destruct (Hnode g Hx) as (? & ? & ? & _); congruence).
  set (tv' := <[p := (q, g :: ks)]> (<[g := (Some p, [])]> tv)).
  assert (tv' !! g = Some (Some p, [])) as Hg' by (unfold tv'; by simplify_map_eq).
  assert (tv' !! p = Some (q, g :: ks)) as Hp' by (unfold tv'; by simplify_map_eq).
  assert (∀ x, x ≠ g → x ≠ p → tv' !! x = tv !! x) as Hx' by (intros; unfold tv'; by simplify_map_eq).
  assert (∀ c y zs, c ∈ L → tv !! c = Some (y, zs) → ∃ zs', tv' !! c = Some (y, zs')) as Hkeep.
  { intros c y zs Hc Hcy. destruct (decide (c = p)) as [->|]; [|rewrite Hx'; eauto]. simplify_eq. eauto. }
  split; [apply NoDup_cons; split; [intros Hgl; by apply (HgL g)|done]| | | |].
  - split; [by right|]. by eapply Hkeep.
  - intros x [->|Hx]%elem_of_cons; [exists (Some p), []; split_and!; [done|constructor|set_solver]|].
    destruct (Hnode x Hx) as (y & zs & Hxy & Hzs & Hk).
    assert (∀ c, c ∈ zs → c ∈ g :: L ∧ ∃ zs', tv' !! c = Some (Some x, zs')) as Hk'.
    { intros c Hc. destruct (Hk c Hc) as [HcL [zs' Hcz]]. split; [by right|]. by eapply Hkeep. }
    destruct (decide (x = p)) as [->|Hne]; [|exists y, zs; rewrite Hx'; auto].
    simplify_eq. exists q, (g :: ks). split_and!; [done| |].
    + apply NoDup_cons. split; [|done]. intros Hgk. destruct (Hk g Hgk) as [HgL' _]. by apply (HgL g).
    + intros c [->|Hc]%elem_of_cons; [split; [left|eauto]|auto].
  - intros x [->|Hx]%elem_of_cons Hne; [exists p, q, (g :: ks); split_and!; [by right|done|left]|].
    destruct (Hpar x Hx Hne) as (y & z & zs & Hy & Hyz & Hxz).
    destruct (decide (y = p)) as [->|Hyp]; [|exists y, z, zs; rewrite Hx' by auto; split_and!; [by right|done|done]].
    simplify_eq. exists p, q, (g :: ks). split_and!; [by right|done|by right].
  - exists (λ x, if decide (x = g) then S (lv p) else lv x). split; [by rewrite decide_False by auto|].
    intros x y zs c [->|Hx]%elem_of_cons Hxy Hc; [set_solver|]. rewrite (decide_False (P := x = g)) by auto.
    destruct (decide (x = p)) as [->|Hxp].
    + rewrite Hp' in Hxy. simplify_eq. apply elem_of_cons in Hc as [->|Hc]; [by rewrite decide_True|].
      destruct (Hnode p Hp) as (? & ? & ? & _ & Hk). simplify_eq. destruct (Hk c Hc).
      rewrite decide_False by auto. by eapply Hlv.
    + rewrite Hx' in Hxy by auto. destruct (Hnode x Hx) as (? & ? & ? & _ & Hk). simplify_eq. destruct (Hk c Hc).
      rewrite decide_False by auto. by eapply Hlv.
Qed.

(** A leaf [g] below [p] leaves. *)
Lemma tree_ok_remove g p q ks :
  g ∈ L → tv !! g = Some (Some p, []) → tv !! p = Some (q, ks) → p ∈ L →
  tree_ok (<[p := (q, remove_one g ks)]> tv) (remove_one g L).
Proof.
  intros Hg Htg Htp Hp. destruct Ht as [Hnd [Hr0 (rks & Hr1)] Hnode Hpar (lv & H0 & Hlv)].
  assert (p ≠ g) as Hpg.
  { intros ->. simplify_eq. destruct (Hnode g Hg) as (y & zs & ? & _ & _). simplify_eq.
    destruct (decide (g = root_task_group)) as [->|Hne]; [congruence|].
    destruct (Hpar g Hg Hne) as (x & ? & xs & Hx & Hxt & Hgx). pose proof (Hlv x _ xs g Hx Hxt Hgx).
    destruct (Hnode x Hx) as (? & ? & ? & _ & Hk). simplify_eq. destruct (Hk g Hgx) as [_ [? ?]]. simplify_eq. lia. }
  destruct (Hnode p Hp) as (? & ? & ? & Hks & Hkp). simplify_eq.
  set (tv' := <[p := (q, remove_one g ks)]> tv).
  assert (tv' !! p = Some (q, remove_one g ks)) as Hp' by (unfold tv'; by simplify_map_eq).
  assert (∀ x, x ≠ p → tv' !! x = tv !! x) as Hx' by (intros; unfold tv'; by simplify_map_eq).
  assert (∀ c y zs, tv !! c = Some (y, zs) → ∃ zs', tv' !! c = Some (y, zs')) as Hkeep.
  { intros c y zs Hcy. destruct (decide (c = p)) as [->|]; [|rewrite Hx'; eauto]. simplify_eq. eauto. }
  split; [by apply remove_one_nodup| | | |].
  - split; [|by eapply Hkeep]. apply remove_one_in; [done|]. split; [done|]. intros He. congruence.
  - intros x Hx. apply remove_one_in in Hx as [Hx Hxg]; [|done]. destruct (Hnode x Hx) as (y & zs & Hxy & Hzs & Hk).
    destruct (decide (x = p)) as [->|Hne].
    + simplify_eq. exists q, (remove_one g ks). split_and!; [done|by apply remove_one_nodup|].
      intros c Hc. apply remove_one_in in Hc as [Hc Hcg]; [|done]. destruct (Hk c Hc) as [? [? ?]].
      split; [by apply remove_one_in|]. by eapply Hkeep.
    + exists y, zs. rewrite Hx' by done. split_and!; [done|done|]. intros c Hc. destruct (Hk c Hc) as [? [? ?]].
      split; [|by eapply Hkeep]. apply remove_one_in; [done|]. split; [done|]. intros ->. congruence.
  - intros x Hx Hne. apply remove_one_in in Hx as [Hx Hxg]; [|done].
    destruct (Hpar x Hx Hne) as (y & z & zs & Hy & Hyz & Hxz). assert (y ≠ g) by (intros ->; simplify_eq; set_solver).
    destruct (decide (y = p)) as [->|Hyp].
    + simplify_eq. exists p, q, (remove_one g ks). split_and!; [by apply remove_one_in|done|by apply remove_one_in].
    + exists y, z, zs. rewrite Hx' by done. split_and!; [by apply remove_one_in|done|done].
  - exists lv. split; [done|]. intros x y zs c Hx Hxy Hc. apply remove_one_in in Hx as [Hx Hxg]; [|done].
    destruct (decide (x = p)) as [->|Hxp].
    + rewrite Hp' in Hxy. simplify_eq. apply remove_one_in in Hc as [Hc _]; [|done]. by eapply Hlv.
    + rewrite Hx' in Hxy by done. by eapply Hlv.
Qed.
End Tree.

(** ** The walk *)

Section Walk.
Context {Y : Type} (tv : tree) (L : list Z) (Ht : tree_ok tv L).
Context (down : Z → M (gsys Y) Z) (I : gsys Y → Prop) (pre P : Z → gsys Y → Prop) (E : Z → Z → Prop).
(** What the visitor does: it keeps [I] and what was established at other groups,
    and where it answers 0 it establishes [P], which the children need. *)
Context (Htv : ∀ s, I s → tree_of (proc s) = tv).
Context (Hdown : ∀ g s, g ∈ L → I s → pre g s →
  returns (down g) s (λ ret s', I s' ∧ (∀ x, P x s → P x s') ∧ if ret =? 0 then P g s' else E g ret)).
Context (Hpre : ∀ g c s, g ∈ L → child_of tv g c → P g s → pre c s).

Definition walked (g : Z) (s : gsys Y) (ret : Z) (s' : gsys Y) : Prop :=
  I s' ∧ (∀ x, P x s → P x s') ∧
  if ret =? 0 then ∀ x, rtc (child_of tv) g x → P x s'
  else ∃ x, rtc (child_of tv) g x ∧ E x ret.

Lemma walk_from_ok lv :
  (∀ g p ks c, g ∈ L → tv !! g = Some (p, ks) → c ∈ ks → lv c = S (lv g)) →
  (∀ g, g ∈ L → (lv g < size tv)%nat) →
  ∀ n g s, g ∈ L → (size tv ≤ n + lv g)%nat → I s → pre g s →
  returns (walk_from n down group_nop g) s (walked g s).
Proof.
  intros Hlv Hsz. induction n as [|n IH]; intros g s Hg Hn Hi Hp.
  { specialize (Hsz g Hg). lia. }
  cbn [walk_from]. apply returns_bind. eapply returns_mono; [by apply Hdown|].
  intros ret s1 (Hi1 & Hk1 & Hr1). destruct (ret =? 0) eqn:Hret; simpl.
  2: { apply returns_ret. unfold walked. rewrite Hret. split_and!; [done|done|]. exists g. split; [apply rtc_refl|done]. }
  destruct (to_node _ _ Ht g Hg) as (p & ks & Hgt & _ & Hc).
  destruct (tree_group (proc s1) g p ks) as (t & Hgr & _ & Hks); [by rewrite Htv|].
  apply returns_bind. eapply returns_eq.
  { unfold on_proc, load_group, mbind, M_bind, gets. rewrite Hgr. reflexivity. }
  replace (s1 <| proc := proc s1 |>) with s1 by (by destruct s1). rewrite Hks. apply returns_bind.
  set (visit := fix visit (cs : list Z) := _).
  assert (∀ cs s2, (∀ c, c ∈ cs → c ∈ ks) → I s2 → P g s2 → returns (visit cs) s2 (λ ret s',
    I s' ∧ (∀ x, P x s2 → P x s') ∧ P g s' ∧
    if ret =? 0 then ∀ c x, c ∈ cs → rtc (child_of tv) c x → P x s'
    else ∃ c x, c ∈ cs ∧ rtc (child_of tv) c x ∧ E x ret)) as Hvisit.
  { induction cs as [|c cs IHcs]; intros s2 Hcs Hi2 Hg2.
    - apply returns_ret. split_and!; try done. intros c x Hc'. by apply not_elem_of_nil in Hc'.
    - assert (c ∈ ks) as Hct by (apply Hcs; left). cbn. apply returns_bind.
      eapply returns_mono; [apply (IH c s2); [by apply Hc| |done|by eapply Hpre; [exact Hg|exists p, ks|]]|].
      { rewrite (Hlv g p ks c) by done. lia. }
      intros ret2 s3 (Hi3 & Hk3 & Hr3). destruct (ret2 =? 0) eqn:Hret2; simpl.
      + eapply returns_mono; [apply (IHcs s3); [|done|auto]|].
        { intros c' Hc'. apply Hcs. by right. }
        intros ret4 s4 (Hi4 & Hk4 & Hg4 & Hr4). split_and!; [done|auto|done|]. destruct (ret4 =? 0).
        * intros c' x [->|Hc']%elem_of_cons Hx; [auto|eauto].
        * destruct Hr4 as (c' & x & ? & ? & ?). exists c', x. split_and!; [by right|done|done].
      + apply returns_ret. rewrite Hret2. split_and!; [done|done|auto|]. destruct Hr3 as (x & ? & ?).
        exists c, x. split_and!; [left|done|done]. }
  eapply returns_mono; [by apply (Hvisit (ks) s1)|].
  intros ret2 s2 (Hi2 & Hk2 & Hg2 & Hr2). destruct (ret2 =? 0) eqn:Hret2; simpl.
  - apply returns_ret. unfold walked. simpl. split_and!; [done|auto|]. intros x Hx.
    apply rtc_inv in Hx as [->|(c & (p' & ks' & Ht' & Hc') & Hx)]; [done|]. simplify_eq. eauto.
  - apply returns_ret. unfold walked. rewrite Hret2. split_and!; [done|auto|].
    destruct Hr2 as (c & x & Hcc & Hx & HE). exists x. split; [|done]. eapply rtc_l; [|done]. by exists p, ks.
Qed.

(** The walk returns, and answers 0 only if every group was visited and found
    good. *)
Lemma walk_tg_tree_ok s :
  I s → pre root_task_group s →
  returns (walk_tg_tree down group_nop) s (λ ret s', I s' ∧ (∀ x, P x s → P x s') ∧
    if ret =? 0 then ∀ x, x ∈ L → P x s' else ∃ x, x ∈ L ∧ E x ret).
Proof.
  intros Hi Hp. destruct (to_level _ _ Ht) as (lv & H0 & Hlv). destruct (to_root _ _ Ht) as [Hroot _].
  unfold walk_tg_tree. apply returns_bind. eapply returns_eq; [reflexivity|]. replace (size (groups (proc s))) with (size tv) by (rewrite <- (Htv s Hi); apply map_size_fmap).
  eapply returns_mono; [apply (walk_from_ok lv); try done; [|lia]|].
  { intros g Hg. by apply (level_bound tv L). }
  intros ret s' (Hi' & Hk & Hr). split_and!; [done|done|]. destruct (ret =? 0).
  - intros x Hx. apply Hr. by apply (from_root tv L).
  - destruct Hr as (x & Hx & HE). exists x. split; [|done]. by apply (descendant_in tv L Ht root_task_group).
Qed.
End Walk.

(** ** Real-time limits *)

(** A share of the processor in units of 2^-20. *)
Definition ratio (pr : Z * Z) : Z :=
  if pr.2 =? RUNTIME_INF then 2 ^ 20 else pr.2 * 2 ^ 20 / pr.1.

(** A limit the system calls can set. *)
Definition sane (pr : Z * Z) : Prop :=
  0 < pr.1 < 2 ^ 64 ∧ (pr.2 = RUNTIME_INF ∨ 0 ≤ pr.2 < 2 ^ 44).

(** At most the whole processor. *)
Definition feasible (pr : Z * Z) : Prop := pr.2 = RUNTIME_INF ∨ pr.2 ≤ pr.1.

Lemma ratio_nonneg pr : sane pr → 0 ≤ ratio pr.
Proof.
  destruct pr as [p r]. intros [Hp Hr]. unfold ratio. simpl in *. destruct (r =? RUNTIME_INF) eqn:He; bsimp; [done|].
  destruct Hr; [done|]. apply Z.div_pos; nia.
Qed.

Lemma ratio_le pr : sane pr → feasible pr → ratio pr ≤ 2 ^ 20.
Proof.
  destruct pr as [p r]. intros [Hp Hr] Hf. unfold ratio, feasible in *. simpl in *.
  destruct (r =? RUNTIME_INF) eqn:He; bsimp; [done|]. destruct Hf as [|Hf]; [done|]. apply Z.div_le_upper_bound; nia.
Qed.

Section Rt.
Context {Y : Type} `{SchedEnv Y} `{FairEnv Y} `{GroupEnv Y}.
Implicit Types (s : gsys Y).

Lemma to_ratio_eq s p r : sane (p, r) → to_ratio p r s = Ok (u32 (ratio (p, r))) s.
Proof.
  intros [Hp Hr]. simpl in *. unfold to_ratio, ratio. simpl. destruct (r =? RUNTIME_INF) eqn:He; bsimp; [done|].
  destruct Hr as [|Hr]; [done|]. change (2 ^ 44) with 17592186044416 in Hr.
  unfold div64_u64, mbind, M_bind. rewrite (proj2 (Z.eqb_neq p 0)) by lia. unfold mret, M_ret.
  rewrite Z.shiftl_mul_pow2 by done. rewrite (uwrap_small 64) by (widths; change (2 ^ 20) with 1048576; lia). done.
Qed.

Lemma u32_ratio pr : sane pr → feasible pr → u32 (ratio pr) = ratio pr.
Proof.
  intros Hs Hf. apply uwrap_small. pose proof (ratio_nonneg _ Hs). pose proof (ratio_le _ Hs Hf).
  change (2 ^ 20) with 1048576 in *. widths. lia.
Qed.

Definition limit_of s (g : Z) : Z * Z := from_option (λ b, (rt_period b, rt_runtime b)) (0, 0) (rt_bw s !! g).

(** The limits with one replaced. *)
Definition limit_with (d : rt_schedulable_data) s (g : Z) : Z * Z :=
  if decide (d_tg d = Some g) then (d_rt_period d, d_rt_runtime d) else limit_of s g.

Definition global_limit s : Z * Z := (global_rt_period s, global_rt_runtime s).

Definition kids s (g : Z) : list Z := from_option children [] (groups (proc s) !! g).

(** The constraints on one group, for the limits [f]. *)
Record rt_fits s (f : Z → Z * Z) (g : Z) : Prop := {
  rf_feasible : feasible (f g);
  rf_global : ratio (f g) ≤ ratio (global_limit s);
  rf_children : sumZ (λ c, ratio (f c)) (kids s g) ≤ ratio (f g)
}.

(** States the admission test works on. *)
Record rt_base s : Prop := {
  rb_tree : tree_ok (tree_of (proc s)) (task_groups s);
  rb_count : (length (task_groups s) < 4096)%nat;
  rb_limits : ∀ g, g ∈ task_groups s → is_Some (rt_bw s !! g) ∧ sane (limit_of s g);
  rb_period : 0 < sysctl_sched_rt_period s < 2 ^ 32;
  rb_runtime : - 2 ^ 31 ≤ sysctl_sched_rt_runtime s < 2 ^ 31
}.

Lemma global_sane s : rt_base s → sane (global_limit s).
Proof.
  intros [_ _ _ Hp Hr]. unfold global_limit, global_rt_period, global_rt_runtime, sane. simpl.
  unfold NSEC_PER_USEC. change (2 ^ 31) with 2147483648 in Hr. change (2 ^ 32) with 4294967296 in Hp.
  change (2 ^ 64) with 18446744073709551616. change (2 ^ 44) with 17592186044416.
  rewrite (uwrap_small 64 (_ * 1000)) by (widths; lia). split; [lia|].
  destruct (_ <? 0) eqn:Hn; bsimp; [by left|right]. rewrite uwrap_small by (widths; lia). lia.
Qed.

Lemma limit_with_sane s d g :
  rt_base s → sane (d_rt_period d, d_rt_runtime d) ∨ d_tg d = None → g ∈ task_groups s → sane (limit_with d s g).
Proof.
  intros Hb Hd Hg. unfold limit_with. case_decide as Hdt; [|by apply (rb_limits s Hb)].
  destruct Hd as [Hd|Hd]; [done|congruence].
Qed.

Lemma rt_limit_eq s d g : rt_base s → g ∈ task_groups s → rt_limit d g s = Ok (limit_with d s g) s.
Proof.
  intros Hb Hg. destruct (rb_limits s Hb g Hg) as [[b Hbw] _].
  unfold rt_limit, load_rt, mbind, M_bind, get. rewrite Hbw. cbn [deref]. unfold mret, M_ret, limit_with, limit_of.
  rewrite Hbw. by case_decide.
Qed.

(** The 32-bit sum of the ratios of groups. *)
Lemma sum_ratios_eq s d cs acc :
  rt_base s → (sane (d_rt_period d, d_rt_runtime d) ∨ d_tg d = None) → (∀ c, c ∈ cs → c ∈ task_groups s) →
  sum_ratios d cs (u32 acc) s = Ok (u32 (acc + sumZ (λ c, ratio (limit_with d s c)) cs)) s.
Proof.
  intros Hb Hd. revert acc. induction cs as [|c cs IH]; intros acc Hcs; cbn [sum_ratios sumZ foldr].
  { unfold mret, M_ret. by rewrite Z.add_0_r. }
  unfold mbind, M_bind. assert (c ∈ task_groups s) as Hc by (apply Hcs; left). rewrite rt_limit_eq by done.
  pose proof (limit_with_sane s d c Hb Hd Hc) as Hs. rewrite to_ratio_eq by (by destruct (limit_with d s c)).
  replace (u32 (u32 acc + u32 _)) with (u32 (acc + ratio (limit_with d s c))).
  - rewrite IH by (intros; apply Hcs; by right). f_equal. f_equal. unfold sumZ. lia.
  - destruct (limit_with d s c). simpl. rewrite uwrap_add_l, Z.add_comm, <- uwrap_add_l, Z.add_comm. done.
Qed.

(** Somebody would be starved by a limit of nothing. *)
Definition starves s (d : rt_schedulable_data) (g : Z) : Prop :=
  0 ≤ sysctl_sched_rt_runtime s ∧ (limit_with d s g).2 = 0 ∧
  ∃ p t, tasks (proc s) !! p = Some t ∧ rt_prio (prio t) = true ∧ rq_rt_tg p = g.

(** What the visitor of the walk decides, in 32 bits. *)
Record visited_ok s (d : rt_schedulable_data) (g : Z) : Prop := {
  vo_feasible : feasible (limit_with d s g);
  vo_global : ratio (limit_with d s g) ≤ ratio (global_limit s);
  vo_children : u32 (sumZ (λ c, ratio (limit_with d s c)) (kids s g)) ≤ ratio (limit_with d s g)
}.

Lemma tg_has_rt_tasks_ok s g :
  ∃ b, tg_has_rt_tasks g s = Ok b s ∧
    (b = true → ∃ p t, tasks (proc s) !! p = Some t ∧ rt_prio (prio t) = true ∧ rq_rt_tg p = g).
Proof.
  eexists. split; [reflexivity|]. intros Hb. apply existsb_exists in Hb as ([p t] & Hin & Hpt). simpl in Hpt. bsimp.
  exists p, t. split_and!; [|done|done]. apply elem_of_map_to_list. by apply list_elem_of_In.
Qed.

Lemma group_node s g : rt_base s → g ∈ task_groups s →
  ∃ t, groups (proc s) !! g = Some t ∧ NoDup (children t) ∧ ∀ c, c ∈ children t → c ∈ task_groups s.
Proof.
  intros Hb Hg. destruct (to_node _ _ (rb_tree s Hb) g Hg) as (p & ks & Hgt & Hnd & Hk).
  destruct (tree_group _ _ _ _ Hgt) as (t & ? & _ & <-). exists t. split_and!; [done|done|]. intros c Hc. by apply Hk.
Qed.

Lemma kids_in s g c : rt_base s → g ∈ task_groups s → c ∈ kids s g → c ∈ task_groups s.
Proof.
  intros Hb Hg Hc. destruct (group_node s g Hb Hg) as (t & Hgt & _ & Hk). unfold kids in Hc. rewrite Hgt in Hc. by apply Hk.
Qed.

Lemma visit_ok s d g :
  rt_base s → feasible (global_limit s) → (sane (d_rt_period d, d_rt_runtime d) ∨ d_tg d = None) →
  g ∈ task_groups s →
  returns (tg_rt_schedulable d g) s (λ ret s', s' = s ∧
    if ret =? 0 then visited_ok s d g
    else ret = - EBUSY ∧ starves s d g ∨ ret = - EINVAL ∧ ¬ visited_ok s d g).
Proof.
  intros Hb Hgf Hd Hg. pose proof (limit_with_sane s d g Hb Hd Hg) as Hs. pose proof (global_sane s Hb) as Hgs.
  unfold tg_rt_schedulable. apply returns_bind. eapply returns_eq; [by apply rt_limit_eq|].
  destruct (limit_with d s g) as [p r] eqn:Hl. case_match eqn:Hpr; bsimp.
  { apply returns_ret. split; [done|]. right. split; [done|]. intros [Hf _ _]. rewrite Hl in Hf.
    destruct Hf as [?|?]; simpl in *; [done|lia]. }
  assert (feasible (p, r)) as Hf.
  { unfold feasible. simpl. apply andb_false_iff in Hpr as [Hpr|Hpr]; bsimp; [right; lia|by left]. }
  apply returns_bind. eapply returns_eq; [reflexivity|]. apply returns_bind.
  destruct (tg_has_rt_tasks_ok s g) as (b & Hrun & Hbt).
  apply (returns_mono _ _ (λ busy s', s' = s ∧ (busy = true → starves s d g))).
  { destruct (rt_bandwidth_enabled s && (r =? 0)) eqn:Hen; [|by apply returns_ret].
    bsimp. eapply returns_eq; [exact Hrun|]. split; [done|]. intros ->. split_and!; [|by rewrite Hl|auto].
    unfold rt_bandwidth_enabled in *. by bsimp. }
  intros busy ? [-> Hbusy]. destruct busy.
  { apply returns_ret. split; [done|]. left. auto. }
  apply returns_bind. eapply returns_eq; [by apply to_ratio_eq|]. rewrite u32_ratio by done.
  apply returns_bind. eapply returns_eq; [by apply to_ratio_eq|]. rewrite u32_ratio by done.
  fold (global_limit s). destruct (ratio (global_limit s) <? ratio (p, r)) eqn:Hgl; bsimp.
  { apply returns_ret. split; [done|]. right. split; [done|]. intros [_ Hv _]. rewrite Hl in Hv. lia. }
  destruct (group_node s g Hb Hg) as (t & Hgt & _ & Hk).
  apply returns_bind. eapply returns_eq.
  { unfold on_proc, load_group, mbind, M_bind, gets. rewrite Hgt. reflexivity. }
  replace (s <| proc := proc s |>) with s by (by destruct s). apply returns_bind.
  eapply returns_eq; [apply (sum_ratios_eq s d (children t) 0); [done|done|intros c Hc; by apply Hk]|].
  assert (kids s g = children t) as Hkids by (unfold kids; by rewrite Hgt). rewrite Z.add_0_l, <- Hkids.
  destruct (ratio (p, r) <? _) eqn:Hsum; bsimp; apply returns_ret; (split; [done|]).
  - right. split; [done|]. intros [_ _ Hv]. rewrite Hl in Hv. lia.
  - simpl. split; by rewrite Hl.
Qed.

(** When every group was found good, the sums did not wrap. *)
Lemma visited_fits s d :
  rt_base s → (sane (d_rt_period d, d_rt_runtime d) ∨ d_tg d = None) →
  (∀ g, g ∈ task_groups s → visited_ok s d g) ↔ (∀ g, g ∈ task_groups s → rt_fits s (limit_with d s) g).
Proof.
  intros Hb Hd.
  assert (∀ g, (∀ c, c ∈ task_groups s → feasible (limit_with d s c)) → g ∈ task_groups s →
    u32 (sumZ (λ c, ratio (limit_with d s c)) (kids s g)) = sumZ (λ c, ratio (limit_with d s c)) (kids s g)) as Hsum.
  { intros g Hf Hg. apply uwrap_small.
    assert (∀ c, c ∈ kids s g → 0 ≤ ratio (limit_with d s c) ≤ 2 ^ 20) as Hr.
    { intros c Hc. apply (kids_in s g) in Hc; [|done|done]. pose proof (limit_with_sane s d c Hb Hd Hc).
      split; [by apply ratio_nonneg|apply ratio_le; auto]. }
    assert (length (kids s g) ≤ length (task_groups s))%nat as Hlen.
    { destruct (group_node s g Hb Hg) as (t & Hgt & Hnd & Hk). unfold kids. rewrite Hgt. simpl.
      apply submseteq_length, NoDup_submseteq; [done|]. intros c Hc. by apply Hk. }
    assert (∀ l, (∀ c, c ∈ l → 0 ≤ ratio (limit_with d s c) ≤ 2 ^ 20) →
      0 ≤ sumZ (λ c, ratio (limit_with d s c)) l ≤ Z.of_nat (length l) * 2 ^ 20) as Hsum.
    { induction l as [|c l IH]; intros Hl; simpl; [lia|]. pose proof (Hl c ltac:(left)).
      specialize (IH ltac:(intros; apply Hl; by right)). unfold sumZ in *. lia. }
    specialize (Hsum _ Hr). pose proof (rb_count s Hb). change (2 ^ 20) with 1048576 in *. widths. lia. }
  split; intros Hall g Hg.
  - pose proof (Hall g Hg) as [? ? Hc]. split; [done|done|]. rewrite Hsum in Hc; [done| |done].
    intros c Hc'. by apply Hall.
  - pose proof (Hall g Hg) as [? ? Hc]. split; [done|done|]. rewrite Hsum; [done| |done].
    intros c Hc'. by apply Hall.
Qed.

(** The admission test. *)
Lemma rt_schedulable_ok s d :
  rt_base s → feasible (global_limit s) → (sane (d_rt_period d, d_rt_runtime d) ∨ d_tg d = None) →
  returns (__rt_schedulable (d_tg d) (d_rt_period d) (d_rt_runtime d)) s (λ ret s', s' = s ∧
    if ret =? 0 then ∀ g, g ∈ task_groups s → rt_fits s (limit_with d s) g
    else ret = - EBUSY ∧ (∃ g, g ∈ task_groups s ∧ starves s d g) ∨
         ret = - EINVAL ∧ ¬ (∀ g, g ∈ task_groups s → rt_fits s (limit_with d s) g)).
Proof.
  intros Hb Hgf Hd. unfold __rt_schedulable. replace (mkRtData _ _ _) with d by (by destruct d).
  pose proof (walk_tg_tree_ok (tree_of (proc s)) (task_groups s) (rb_tree s Hb) (tg_rt_schedulable d)
    (λ s', s' = s) (λ _ _, True) (λ g _, visited_ok s d g)
    (λ g ret, ret = - EBUSY ∧ starves s d g ∨ ret = - EINVAL ∧ ¬ visited_ok s d g)) as Hwalk.
  eapply returns_mono; [apply Hwalk; try done|].
  - by intros ? ->.
  - intros g ? Hg -> _. eapply returns_mono; [by apply visit_ok|].
    intros ret s' [-> Hr]. split_and!; [done|done|]. by destruct (ret =? 0).
  - intros ret s' (-> & _ & Hr). split; [done|]. destruct (ret =? 0); [by apply visited_fits|].
    destruct Hr as (x & Hx & [[-> Hs]|[-> Hn]]); [left; eauto|right]. split; [done|].
    intros Hall. apply Hn. by apply (visited_fits s d).
Qed.

(** *** The invariant and the calls that set a limit *)

Record rt_inv s : Prop := {
  ri_base : rt_base s;
  ri_global : feasible (global_limit s);
  ri_fits : ∀ g, g ∈ task_groups s → rt_fits s (limit_of s) g;
  ri_cpus : ∀ g b c x, g ∈ task_groups s → rt_bw s !! g = Some b → rt_rqs b !! c = Some x → x = rt_runtime b
}.

(** The part of the state the real-time limits depend on. *)
Record same_rt s s' : Prop := {
  sr_tree : ∀ g, g ∈ task_groups s → tree_of (proc s') !! g = tree_of (proc s) !! g;
  sr_groups : task_groups s' = task_groups s;
  sr_rt : ∀ g, g ∈ task_groups s → rt_bw s' !! g = rt_bw s !! g;
  sr_period : sysctl_sched_rt_period s' = sysctl_sched_rt_period s;
  sr_runtime : sysctl_sched_rt_runtime s' = sysctl_sched_rt_runtime s
}.

Lemma kids_tree s g : kids s g = from_option snd [] (tree_of (proc s) !! g).
Proof. unfold kids, tree_of. rewrite lookup_fmap. by destruct (groups (proc s) !! g). Qed.

Lemma rt_inv_same s s' : same_rt s s' → rt_inv s → rt_inv s'.
Proof.
  intros [Ht Hg Hr Hp Hrun] [[Hb1 Hb2 Hb3 Hb4 Hb5] Hgl Hf Hc].
  assert (∀ g, g ∈ task_groups s → limit_of s' g = limit_of s g) as Hl
    by (intros g Hin; unfold limit_of; by rewrite Hr).
  assert (global_limit s' = global_limit s) as Hglob
    by (unfold global_limit, global_rt_period, global_rt_runtime; by rewrite Hp, Hrun).
  assert (rt_base s) as Hb by done.
  split; [split| | |]; rewrite ?Hg, ?Hp, ?Hrun, ?Hglob; try done.
  - by apply (tree_ok_ext (tree_of (proc s))).
  - intros g Hin. rewrite Hr, Hl by done. auto.
  - intros g Hin. destruct (Hf g Hin) as [F1 F2 F3]. split; rewrite ?Hglob, ?Hl by done; [done..|].
    rewrite kids_tree, Ht, <- kids_tree by done. etrans; [|exact F3]. apply Z.eq_le_incl.
    assert (∀ l, (∀ c, c ∈ l → c ∈ task_groups s) →
      sumZ (λ c, ratio (limit_of s' c)) l = sumZ (λ c, ratio (limit_of s c)) l) as Hsum.
    { induction l as [|c l IH]; intros Hin'; [done|]. simpl. unfold sumZ in *.
      rewrite IH by (intros; apply Hin'; by right). rewrite Hl by (apply Hin'; left). done. }
    apply Hsum. intros c. by apply kids_in.
  - intros g b c x Hin Hbw. rewrite Hr in Hbw by done. eauto.
Qed.

(** Setting the limit of a group: admitted exactly if the tree stays schedulable,
    and then nothing but that limit changes. *)
Lemma tg_set_rt_bandwidth_ok s g p r :
  rt_inv s → g ∈ task_groups s → sane (p, r) →
  returns (tg_set_rt_bandwidth g p r) s (λ ret s',
    let d := mkRtData (Some g) p r in
    if ret =? 0 then rt_inv s' ∧ limit_of s' g = (p, r) ∧ (∀ x, x ∈ task_groups s → rt_fits s (limit_with d s) x) ∧
      ∃ b, s' = s <| rt_bw ::= <[g := b]> |>
    else s' = s ∧ (ret = - EBUSY ∧ (∃ x, x ∈ task_groups s ∧ starves s d x) ∨
                   ret = - EINVAL ∧ ¬ ∀ x, x ∈ task_groups s → rt_fits s (limit_with d s) x)).
Proof.
  intros [Hb Hgl Hf Hcpu] Hg Hs. set (d := mkRtData (Some g) p r).
  unfold tg_set_rt_bandwidth. apply returns_bind.
  eapply returns_mono; [apply (rt_schedulable_ok s d); [done|done|by left]|]. intros ret s' [-> Hr].
  destruct (ret =? 0) eqn:Hret; simpl.
  2: { apply returns_ret. cbv zeta. rewrite Hret. done. }
  destruct (rb_limits s Hb g Hg) as [[b Hbw] _]. apply returns_bind. eapply returns_eq.
  { unfold store_rt, load_rt, mbind, M_bind, get. rewrite Hbw. reflexivity. }
  apply returns_ret. cbv zeta. rewrite Hret.
  set (b' := b <| rt_period := p |> <| rt_runtime := r |> <| rt_rqs ::= fmap (λ _, r) |>).
  set (s' := s <| rt_bw ::= <[g := b']> |>).
  assert (∀ x, limit_of s' x = limit_with d s x) as Hl.
  { intros x. unfold limit_of, limit_with. unfold s'. simpl. case_decide as Hx.
    - injection Hx as <-. by rewrite lookup_insert_eq.
    - rewrite lookup_insert_ne by congruence. done. }
  split_and!; [|by rewrite Hl; unfold limit_with; rewrite decide_True|done|by exists b'].
  destruct Hb as [? ? Hlim ? ?]. split; [split; try done| |..].
  - intros x Hx. split.
    + unfold s'. simpl. destruct (decide (x = g)) as [->|Hne]; [rewrite lookup_insert_eq; by eexists|].
      rewrite lookup_insert_ne by done. by apply Hlim.
    + rewrite Hl. unfold limit_with. case_decide; [done|]. by apply Hlim.
  - done.
  - intros x Hx. destruct (Hr x Hx) as [F1 F2 F3]. split; rewrite Hl; [done|exact F2|].
    etrans; [|exact F3]. apply Z.eq_le_incl, sumZ_ext. intros c _. by rewrite Hl.
  - intros x bx c y Hx. unfold s'. simpl. destruct (decide (x = g)) as [->|Hne].
    + rewrite lookup_insert_eq. intros [= <-]. simpl. rewrite lookup_fmap. intros Hy.
      apply fmap_Some in Hy as (? & _ & ->). done.
    + rewrite lookup_insert_ne by done. by apply Hcpu.
Qed.

Lemma runtime_sane p us :
  0 < p < 2 ^ 64 → - 2 ^ 31 ≤ us < 2 ^ 31 →
  sane (p, if us <? 0 then RUNTIME_INF else u64 (us * NSEC_PER_USEC)).
Proof.
  intros Hp Hu. split; [done|]. simpl. destruct (us <? 0) eqn:Hn; bsimp; [by left|right].
  unfold NSEC_PER_USEC. change (2 ^ 31) with 2147483648 in *. change (2 ^ 44) with 17592186044416.
  rewrite uwrap_small by (widths; lia). lia.
Qed.
End Rt.
