(* ===== verification/GroupRun.v ===== *)
(** * Groups are made, limited and removed

    Every sequence of these operations, interleaved with the work of the
    scheduler, keeps the real-time limits schedulable and the limits of the fair
    class nested. *)

From S2P Require Import Prelude SchedData Fair Sched FairFrame Groups GroupSpec.

(** What is relied on of the allocator (memory is fresh) and of the real-time class
    (a new group has a period and no run time). *)
Class GroupLaws (Y : Type) `{GroupEnv Y} : Prop := {
  kzalloc_fresh : ∀ s g, kzalloc_group s = Some g → groups (proc s) !! g = None;
  alloc_rt_new : ∀ s p b, alloc_rt_sched_group s p = Some b →
    0 < rt_period b < 2 ^ 64 ∧ rt_runtime b = 0 ∧ ∀ c x, rt_rqs b !! c = Some x → x = 0
}.

Section Run.
Context {Y : Type} `{SchedEnv Y} `{FairEnv Y} `{GroupLaws Y}.
Implicit Types (s : gsys Y).

(** ** Groups come and go *)

(** What the limits depend on. *)
Definition core s :=
  (limits_view (proc s), rt_bw s, task_groups s, sysctl_sched_rt_period s, sysctl_sched_rt_runtime s).

Lemma core_same s s' : core s' = core s → same_rt s s'.
Proof. intros [= Ht Hr Hg Hp Hn]. split; try done; intros g _; [by rewrite !tree_limits, Ht|by rewrite Hr]. Qed.

Lemma core_proc {A} (m : M (rq Y) A) : frames limits_view m → frames core (on_proc m).
Proof.
  intros Hm s. specialize (Hm (proc s)). unfold on_proc. destruct (m (proc s)) as [a r|f r]; simpl in *;
    unfold core; simpl; by rewrite Hm.
Qed.

Lemma ensures_core {A} (m : M (rq Y) A) s (Q : A → gsys Y → Prop) :
  frames limits_view m → (∀ a s', core s' = core s → Q a s') → ensures (on_proc m) s Q.
Proof. intros Hm HQ a s' Hr. eapply HQ, frames_run; [by apply core_proc|done]. Qed.

Lemma on_load_group s g t : groups (proc s) !! g = Some t → on_proc (load_group g) s = Ok t s.
Proof. intros Hg. unfold on_proc, load_group, mbind, M_bind, gets. rewrite Hg. simpl. f_equal. by destruct s. Qed.

Lemma ensures_load_group s g (Q : task_group → gsys Y → Prop) :
  (∀ t, groups (proc s) !! g = Some t → Q t s) → ensures (on_proc (load_group g)) s Q.
Proof.
  intros HQ t s' Hr. destruct (groups (proc s) !! g) as [t0|] eqn:Hg.
  - rewrite (on_load_group s g t0 Hg) in Hr. injection Hr as <- <-. by apply HQ.
  - unfold on_proc, load_group, mbind, M_bind, gets in Hr. by rewrite Hg in Hr.
Qed.

Lemma view_insert (r : rq Y) g t : limits_view (r <| groups ::= <[g := t]> |>) = <[g := group_view t]> (limits_view r).
Proof. unfold limits_view. simpl. by rewrite fmap_insert. Qed.

Lemma group_views (r : rq Y) g t : groups r !! g = Some t → limits_view r !! g = Some (group_view t).
Proof. intros Hg. unfold limits_view. by rewrite lookup_fmap, Hg. Qed.

Lemma view_insert_same (r : rq Y) g t t' :
  groups r !! g = Some t → group_view t' = group_view t → limits_view (r <| groups ::= <[g := t']> |>) = limits_view r.
Proof. intros Hg Ht. rewrite view_insert, Ht. apply insert_id. by apply group_views. Qed.

Lemma ensures_store_bandwidth g f s (Q : unit → gsys Y → Prop) :
  (∀ t, groups (proc s) !! g = Some t → Q tt (s <| proc ::= λ r, r <| groups ::= <[g := t <| bandwidth ::= f |>]> |> |>)) →
  ensures (on_proc (store_bandwidth g f)) s Q.
Proof.
  intros HQ [] s' Hr. unfold on_proc, store_bandwidth, load_group, mbind, M_bind, gets in Hr.
  destruct (groups (proc s) !! g) as [t|]; [|done]. injection Hr as <-. by apply HQ.
Qed.

(** The view of a new group. *)
Definition new_view (p : option Z) : option Z * list Z * Z * Z := (p, [], default_cfs_period, RUNTIME_INF).

Lemma alloc_fair_core g p s :
  limits_view (proc s) !! g = Some (None, [], 0, 0) →
  ensures (alloc_fair_sched_group g p) s (λ ok s', ∃ v,
    core s' = (<[g := v]> (limits_view (proc s)), rt_bw s, task_groups s,
               sysctl_sched_rt_period s, sysctl_sched_rt_runtime s) ∧
    (ok = true → v = new_view None)).
Proof.
  intros Hv. unfold alloc_fair_sched_group. apply ensures_bind, ensures_get.
  destruct (negb _); [apply ensures_ret; exists (None, [], 0, 0); by rewrite insert_id|].
  apply ensures_bind, ensures_load_group. intros t Hg.
  apply group_views in Hg as Hgv. rewrite Hv in Hgv. injection Hgv as Hv1 Hv2 _ _.
  apply ensures_bind, ensures_modify. apply ensures_bind, ensures_store_bandwidth. simpl.
  intros t2 Ht2. rewrite lookup_insert_eq in Ht2. injection Ht2 as <-.
  apply ensures_bind, ensures_get. set (s2 := modify_field _ _).
  assert (core s2 = (<[g := new_view None]> (limits_view (proc s)), rt_bw s, task_groups s,
               sysctl_sched_rt_period s, sysctl_sched_rt_runtime s)) as Hc2.
  { unfold core, s2. simpl. rewrite !view_insert, insert_insert_eq. unfold group_view. simpl. by rewrite <- Hv1, <- Hv2. }
  clearbody s2. destruct (negb _); [apply ensures_ret; by exists (new_view None)|].
  apply ensures_bind, ensures_modify. apply ensures_bind.
  eapply ensures_core; [apply fr_init_cfs_rq|]. intros [] s4 Hc4.
  apply ensures_bind, ensures_load_group. intros pt _. apply ensures_bind.
  eapply ensures_core; [apply fr_init_tg_cfs_entry|]. intros [] s5 Hc5.
  apply ensures_ret. exists (new_view None). split; [|done]. rewrite Hc5, Hc4. exact Hc2.
Qed.

Lemma free_sched_group_core g s :
  ensures (free_sched_group g) s (λ _ s', core s' =
    (delete g (limits_view (proc s)), delete g (rt_bw s), task_groups s, sysctl_sched_rt_period s, sysctl_sched_rt_runtime s)).
Proof.
  unfold free_sched_group, free_fair_sched_group. apply ensures_bind, ensures_bind, ensures_load_group. intros t _.
  apply ensures_bind. destruct (_ =? _); [by intros ? ? ?|].
  eapply ensures_core; [apply fr_destroy|]. intros [] s1 Hc1.
  apply ensures_modify, ensures_bind, ensures_modify, ensures_modify.
  injection Hc1 as Ht Hr Hg Hp Hn. unfold core. simpl. rewrite Hr, Hg, Hp, Hn. repeat f_equal.
  unfold limits_view in *. simpl. by rewrite fmap_delete, Ht.
Qed.

(** A group is made: it is a new leaf, without limits of the fair class and without
    real-time run time; or there was no memory, and nothing is left behind. *)
Lemma sched_create_group_core parent s :
  parent ∈ task_groups s → (∀ g, g ∈ task_groups s → is_Some (groups (proc s) !! g)) →
  ensures (sched_create_group parent) s (λ res s',
    match res with
    | inl g => ∃ q ks pp pq b, limits_view (proc s) !! g = None ∧ limits_view (proc s) !! parent = Some (q, ks, pp, pq) ∧
        0 < rt_period b < 2 ^ 64 ∧ rt_runtime b = 0 ∧ (∀ c x, rt_rqs b !! c = Some x → x = 0) ∧
        core s' = (<[parent := (q, g :: ks, pp, pq)]> (<[g := new_view (Some parent)]> (limits_view (proc s))),
                   <[g := b]> (rt_bw s), g :: task_groups s, sysctl_sched_rt_period s, sysctl_sched_rt_runtime s)
    | inr e => e = - ENOMEM ∧ limits_view (proc s') = limits_view (proc s) ∧ same_rt s s'
    end).
Proof.
  intros Hp Hin. unfold sched_create_group. apply ensures_bind, ensures_get.
  destruct (kzalloc_group s) as [g|] eqn:Hk; [|apply ensures_ret; split_and!; [done|done|by apply core_same]].
  apply kzalloc_fresh in Hk as Hfresh.
  assert (limits_view (proc s) !! g = None) as Htg by (unfold limits_view; by rewrite lookup_fmap, Hfresh).
  assert (g ∉ task_groups s) as HgL by (intros [t Ht]%Hin; congruence).
  destruct (Hin parent Hp) as [tp Htp]. apply group_views in Htp as Hview.
  assert (parent ≠ g) by (intros ->; congruence).
  apply ensures_bind, ensures_modify. set (s1 := modify_field _ _).
  assert (core s1 = (<[g := (None, [], 0, 0)]> (limits_view (proc s)), rt_bw s, task_groups s,
                     sysctl_sched_rt_period s, sysctl_sched_rt_runtime s)) as Hc1.
  { unfold core, s1. simpl. by rewrite view_insert. }
  clearbody s1. injection Hc1 as Ht1 Hr1 Hg1 Hpe1 Hru1.
  assert (∀ v s2, core s2 = (<[g := v]> (limits_view (proc s)), rt_bw s, task_groups s,
                     sysctl_sched_rt_period s, sysctl_sched_rt_runtime s) →
    ensures (_ ← free_sched_group g; mret (inr (- ENOMEM) : Z + Z)) s2
      (λ res s', res = inr (- ENOMEM) ∧ limits_view (proc s') = limits_view (proc s) ∧ same_rt s s')) as Hfail.
  { intros v s2 Hc2. apply ensures_bind. eapply ensures_mono; [apply free_sched_group_core|]. intros [] s3 Hc3.
    apply ensures_ret. split; [done|]. injection Hc2 as Ht Hr Hg Hpe Hru. rewrite Ht, Hr, Hg, Hpe, Hru in Hc3.
    injection Hc3 as Ht3 Hr3 Hg3 Hpe3 Hru3. rewrite delete_insert_id in Ht3 by done. split; [done|]. split; try done.
    - intros x _. by rewrite !tree_limits, Ht3.
    - intros x Hx. rewrite Hr3. apply lookup_delete_ne. by intros ->. }
  apply ensures_bind. eapply ensures_mono; [apply alloc_fair_core; by rewrite Ht1, lookup_insert_eq|].
  intros ok s2 (v & Hc2 & Hok). rewrite Ht1, Hr1, Hg1, Hpe1, Hru1, insert_insert_eq in Hc2.
  destruct ok; simpl. 2: { eapply ensures_mono; [by eapply Hfail|]. intros res s' [-> ?]. done. }
  specialize (Hok eq_refl) as ->. apply ensures_bind, ensures_get.
  destruct (alloc_rt_sched_group s2 parent) as [b|] eqn:Hrt.
  2: { eapply ensures_mono; [by eapply Hfail|]. intros res s' [-> ?]. done. }
  apply alloc_rt_new in Hrt as (Hb1 & Hb2 & Hb3). injection Hc2 as Ht Hr Hg Hpe Hru.
  apply ensures_bind, ensures_modify. apply ensures_bind, ensures_modify.
  apply ensures_bind, ensures_load_group. simpl. intros t Htt. apply ensures_bind, ensures_modify.
  apply ensures_bind, ensures_load_group. simpl. intros p Hpp. rewrite lookup_insert_ne in Hpp by done.
  apply ensures_bind, ensures_modify. apply ensures_ret. apply group_views in Hpp, Htt.
  rewrite Ht, lookup_insert_ne, Hview in Hpp by done. rewrite Ht, lookup_insert_eq in Htt.
  injection Hpp as Hpar Hch Hpp1 Hpp2. injection Htt as _ _ Hd1 Hd2.
  exists (tg_parent tp), (children tp), (period (bandwidth tp)), (quota (bandwidth tp)), b.
  split_and!; try done; try apply Hb1. unfold core. simpl.
  rewrite Hr, Hg, Hpe, Hru, !view_insert, Ht, insert_insert_eq. unfold group_view, new_view. simpl.
  by rewrite <- Hpar, <- Hch, <- Hpp1, <- Hpp2, <- Hd1, <- Hd2.
Qed.

(** A group leaves the tree. *)
Lemma sched_destroy_group_core g p q ks pp pq s v :
  limits_view (proc s) !! g = Some v → v.1.1.1 = Some p → limits_view (proc s) !! p = Some (q, ks, pp, pq) →
  ensures (sched_destroy_group g) s (λ _ s', core s' =
    (<[p := (q, remove_one g ks, pp, pq)]> (limits_view (proc s)), rt_bw s, remove_one g (task_groups s),
     sysctl_sched_rt_period s, sysctl_sched_rt_runtime s)).
Proof.
  intros Hv Hvp Hp. unfold sched_destroy_group. apply ensures_bind. eapply ensures_core; [apply fr_unregister|].
  intros [] s1 Hc1. injection Hc1 as Ht Hr Hg Hpe Hru. apply ensures_bind, ensures_modify.
  apply ensures_bind, ensures_load_group. simpl. intros t Htt. apply group_views in Htt. rewrite Ht, Hv in Htt.
  injection Htt as ->. simpl in Hvp. rewrite Hvp. apply ensures_bind, ensures_load_group. simpl. intros pt Hpt.
  apply group_views in Hpt. rewrite Ht, Hp in Hpt. injection Hpt as H3 H4 H5 H6. apply ensures_modify.
  unfold core. simpl. rewrite view_insert, Ht, Hr, Hg, Hpe, Hru. unfold group_view. simpl. by rewrite <- H3, <- H4, <- H5, <- H6.
Qed.

(** *** Real-time limits under these *)

Lemma core_kids s g : kids s g = from_option (λ v : option Z * list Z * Z * Z, v.1.1.2) [] (limits_view (proc s) !! g).
Proof. rewrite kids_tree, tree_limits, lookup_fmap. by destruct (limits_view (proc s) !! g). Qed.

Lemma core_tree s v : limits_view (proc s) = v → tree_of (proc s) = view_tree <$> v.
Proof. intros <-. apply tree_limits. Qed.

Lemma limits_group s g : rt_base s → g ∈ task_groups s → ∃ v, limits_view (proc s) !! g = Some v.
Proof. intros Hb Hg. destruct (group_node s g Hb Hg) as (t & Ht & _). eexists. by apply group_views. Qed.

Lemma rt_inv_add s s' g p q ks pp pq b :
  rt_inv s → (S (length (task_groups s)) < 4096)%nat → p ∈ task_groups s →
  limits_view (proc s) !! g = None → limits_view (proc s) !! p = Some (q, ks, pp, pq) →
  0 < rt_period b < 2 ^ 64 → rt_runtime b = 0 → (∀ c x, rt_rqs b !! c = Some x → x = 0) →
  core s' = (<[p := (q, g :: ks, pp, pq)]> (<[g := new_view (Some p)]> (limits_view (proc s))),
             <[g := b]> (rt_bw s), g :: task_groups s, sysctl_sched_rt_period s, sysctl_sched_rt_runtime s) →
  rt_inv s'.
Proof.
  intros [Hb Hgl Hf Hcpu] Hlen Hp Hg Hpv Hb1 Hb2 Hb3 Hc. injection Hc as Ht Hr Hgs Hpe Hru.
  assert (g ∉ task_groups s) as HgL by (intros [v Hv]%limits_group; [congruence|done]).
  assert (∀ x, x ∈ task_groups s → x ≠ g) as Hne by (intros x Hx ->; done).
  assert (global_limit s' = global_limit s) as Hglob
    by (unfold global_limit, global_rt_period, global_rt_runtime; by rewrite Hpe, Hru).
  assert (limit_of s' g = (rt_period b, 0)) as Hlg by (unfold limit_of; rewrite Hr, lookup_insert_eq; simpl; by rewrite Hb2).
  assert (∀ x, x ∈ task_groups s → limit_of s' x = limit_of s x) as Hl
    by (intros x Hx; unfold limit_of; rewrite Hr, lookup_insert_ne; [done|by apply not_eq_sym, Hne]).
  assert (ratio (rt_period b, 0) = 0) as Hr0 by (unfold ratio; simpl; by rewrite Z.div_0_l by lia).
  assert (rt_base s) as [Hb1' Hb2' Hb3' Hb4' Hb5'] by done. split; [split| | |].
  - rewrite (core_tree _ _ Ht), Hgs, !fmap_insert, <- tree_limits. unfold view_tree, new_view. simpl.
    apply tree_ok_add; [done|done| |]; rewrite tree_limits, lookup_fmap; [by rewrite Hpv|by rewrite Hg].
  - rewrite Hgs. simpl. lia.
  - rewrite Hgs, Hr. intros x [->|Hx]%elem_of_cons.
    + rewrite lookup_insert_eq, Hlg. split; [by eexists|]. split; [done|]. right. done.
    + rewrite lookup_insert_ne by (by apply not_eq_sym, Hne). rewrite Hl by done. auto.
  - by rewrite Hpe.
  - by rewrite Hru.
  - by rewrite Hglob.
  - rewrite Hgs. intros x [->|Hx]%elem_of_cons.
    + split; rewrite ?Hlg, ?Hglob, ?Hr0; [right; simpl; lia|by apply ratio_nonneg, global_sane|].
      rewrite core_kids, Ht, lookup_insert_ne, lookup_insert_eq by auto. done.
    + destruct (Hf x Hx) as [F1 F2 F3]. split; rewrite ?Hglob, ?Hl by done; [done|done|]. etrans; [|exact F3].
      apply Z.eq_le_incl. transitivity (sumZ (λ c, ratio (limit_of s' c)) (kids s x)).
      * rewrite !core_kids, Ht. destruct (decide (x = p)) as [->|Hxp].
        { rewrite lookup_insert_eq, Hpv. simpl. unfold sumZ. by rewrite Hlg, Hr0. }
        by rewrite !lookup_insert_ne by (auto; apply not_eq_sym; auto).
      * apply sumZ_ext. intros c Hc. by rewrite Hl by (by eapply kids_in).
  - rewrite Hgs, Hr. intros x bx c y [->|Hx]%elem_of_cons.
    + rewrite lookup_insert_eq. intros [= <-]. rewrite Hb2. apply Hb3.
    + rewrite lookup_insert_ne by (by apply not_eq_sym, Hne). by apply Hcpu.
Qed.

Lemma sumZ_remove (f : Z → Z) g l : (∀ x, x ∈ l → 0 ≤ f x) → sumZ f (remove_one g l) ≤ sumZ f l.
Proof.
  induction l as [|x l IH]; intros Hf; simpl; [done|]. pose proof (Hf x ltac:(left)).
  assert (∀ y, y ∈ l → 0 ≤ f y) as Hf' by (intros; apply Hf; by right).
  specialize (IH Hf'). repeat case_match; simpl; unfold sumZ in *; lia.
Qed.

Lemma rt_inv_remove s s' g p q ks pp pq v :
  rt_inv s → g ∈ task_groups s → limits_view (proc s) !! g = Some v → view_tree v = (Some p, []) →
  limits_view (proc s) !! p = Some (q, ks, pp, pq) → p ∈ task_groups s →
  core s' = (<[p := (q, remove_one g ks, pp, pq)]> (limits_view (proc s)), rt_bw s, remove_one g (task_groups s),
     sysctl_sched_rt_period s, sysctl_sched_rt_runtime s) → rt_inv s'.
Proof.
  intros [Hb Hgl Hf Hcpu] Hg Hgv Hv Hpv Hp Hc. injection Hc as Ht Hr Hgs Hpe Hru.
  assert (rt_base s) as [Hb1' Hb2' Hb3' Hb4' Hb5'] by done. pose proof (to_nodup _ _ Hb1') as Hnd.
  assert (∀ x, x ∈ task_groups s' → x ∈ task_groups s) as Hin by (rewrite Hgs; by intros x [? _]%remove_one_in).
  assert (global_limit s' = global_limit s) as Hglob
    by (unfold global_limit, global_rt_period, global_rt_runtime; by rewrite Hpe, Hru).
  assert (∀ x, limit_of s' x = limit_of s x) as Hl by (intros x; unfold limit_of; by rewrite Hr).
  split; [split| | |].
  - rewrite (core_tree _ _ Ht), Hgs, fmap_insert, <- tree_limits. unfold view_tree at 1. simpl.
    apply tree_ok_remove; [done|done| | |done]; rewrite tree_limits, lookup_fmap; [by rewrite Hgv; simpl; rewrite Hv|by rewrite Hpv].
  - assert (length (task_groups s') ≤ length (task_groups s))%nat; [|lia].
    rewrite Hgs. apply submseteq_length, NoDup_submseteq; [by apply remove_one_nodup|]. intros x Hx. apply Hin. by rewrite Hgs.
  - intros x Hx. rewrite Hl, Hr. auto.
  - by rewrite Hpe.
  - by rewrite Hru.
  - by rewrite Hglob.
  - intros x Hx. apply Hin in Hx. destruct (Hf x Hx) as [F1 F2 F3]. split; rewrite ?Hglob, ?Hl; [done|done|].
    etrans; [|exact F3]. rewrite (sumZ_ext _ (λ c, ratio (limit_of s c))) by (intros c _; by rewrite Hl).
    rewrite !core_kids, Ht. destruct (decide (x = p)) as [->|Hxp]; [|by rewrite lookup_insert_ne by auto].
    rewrite lookup_insert_eq, Hpv. simpl. apply sumZ_remove. intros c Hc. apply ratio_nonneg.
    apply Hb3'. apply (kids_in s p); [done|done|]. rewrite core_kids, Hpv. done.
  - intros x bx c y Hx. rewrite Hr. apply Hcpu. auto.
Qed.

Lemma rt_inv_free s s' g :
  rt_inv s → g ∉ task_groups s →
  core s' = (delete g (limits_view (proc s)), delete g (rt_bw s), task_groups s, sysctl_sched_rt_period s, sysctl_sched_rt_runtime s) →
  rt_inv s'.
Proof.
  intros Hi Hg Hc. injection Hc as Ht Hr Hgs Hpe Hru. eapply rt_inv_same; [|done]. split; try done.
  - intros x Hx. rewrite (core_tree _ _ Ht), fmap_delete, lookup_delete_ne, <- tree_limits; [done|]. by intros ->.
  - intros x Hx. rewrite Hr, lookup_delete_ne; [done|]. by intros ->.
Qed.

(** *** The calls that set a limit *)

(** Group [g] gets the limit [pr]: exactly if all groups fit with it, and then nothing
    else changes. *)
Definition rt_set s (g : Z) (pr : Z * Z) (ret : Z) s' : Prop :=
  let d := mkRtData (Some g) pr.1 pr.2 in
  if ret =? 0 then
    (∀ x, x ∈ task_groups s → rt_fits s (limit_with d s) x) ∧
    rt_inv s' ∧ limit_of s' g = pr ∧ ∃ b, s' = s <| rt_bw ::= <[g := b]> |>
  else
    s' = s ∧ (ret = - EBUSY ∧ (∃ x, x ∈ task_groups s ∧ starves s d x) ∨
              ret = - EINVAL ∧ ¬ ∀ x, x ∈ task_groups s → rt_fits s (limit_with d s) x).

Lemma rt_set_ok s g pr :
  rt_inv s → g ∈ task_groups s → sane pr → returns (tg_set_rt_bandwidth g pr.1 pr.2) s (rt_set s g pr).
Proof.
  intros Hi Hg Hs. eapply returns_mono; [apply tg_set_rt_bandwidth_ok; [done|done|by destruct pr]|].
  intros ret s'. unfold rt_set. cbv zeta. destruct (ret =? 0); [|done]. intros (? & Hl & ? & ?). destruct pr. auto.
Qed.

(** The run time a call asks for, in nanoseconds. *)
Definition asked_runtime (us : Z) : Z := if us <? 0 then RUNTIME_INF else u64 (us * NSEC_PER_USEC).

Lemma set_rt_runtime_ok s g us :
  rt_inv s → g ∈ task_groups s → - 2 ^ 31 ≤ us < 2 ^ 31 →
  returns (sched_group_set_rt_runtime g us) s (rt_set s g ((limit_of s g).1, asked_runtime us)).
Proof.
  intros Hi Hg Hu. destruct (rb_limits s (ri_base s Hi) g Hg) as [[b Hb] [Hp _]].
  unfold sched_group_set_rt_runtime. apply returns_bind. eapply returns_eq.
  { unfold load_rt, mbind, M_bind, get. rewrite Hb. reflexivity. }
  assert (limit_of s g = (rt_period b, rt_runtime b)) as Hl by (unfold limit_of; by rewrite Hb).
  rewrite Hl in *. apply (rt_set_ok s g (rt_period b, asked_runtime us)); [done|done|]. by apply runtime_sane.
Qed.

Lemma set_rt_period_ok s g us :
  rt_inv s → g ∈ task_groups s → - 2 ^ 31 ≤ us < 2 ^ 31 →
  returns (sched_group_set_rt_period g us) s (λ ret s',
    if us =? 0 then ret = - EINVAL ∧ s' = s
    else rt_set s g (u64 (us * NSEC_PER_USEC), (limit_of s g).2) ret s').
Proof.
  intros Hi Hg Hu. destruct (rb_limits s (ri_base s Hi) g Hg) as [[b Hb] [_ Hr]].
  unfold sched_group_set_rt_period. apply returns_bind. eapply returns_eq.
  { unfold load_rt, mbind, M_bind, get. rewrite Hb. reflexivity. }
  assert (limit_of s g = (rt_period b, rt_runtime b)) as Hl by (unfold limit_of; by rewrite Hb). rewrite Hl in *.
  change (2 ^ 31) with 2147483648 in Hu. destruct (us =? 0) eqn:H0'; bsimp; [subst us; by apply returns_ret|].
  assert (0 < u64 (us * NSEC_PER_USEC) < 2 ^ 64) as Hp.
  { pose proof (uwrap_range 64 ltac:(done) (us * NSEC_PER_USEC)) as Hw.
    assert (u64 (us * NSEC_PER_USEC) ≠ 0); [|unfold in_u in Hw; lia]. unfold uwrap, NSEC_PER_USEC. intros He.
    change (2 ^ 64) with 18446744073709551616 in He. apply Z.mod_divide in He as [k Hk]; lia. }
  rewrite (proj2 (Z.eqb_neq _ 0)) by lia.
  apply (rt_set_ok s g (u64 (us * NSEC_PER_USEC), rt_runtime b)); [done|done|]. by split.
Qed.

(** The global setting: admitted exactly if all groups fit, or left as it was. *)
Lemma sched_rt_handler_ok s per run :
  rt_inv s → 0 ≤ per < 2 ^ 32 → - 2 ^ 31 ≤ run < 2 ^ 31 →
  returns (sched_rt_handler true 0 per run) s (λ ret s',
    let s1 := s <| sysctl_sched_rt_period := per |> <| sysctl_sched_rt_runtime := run |> in
    let good := 0 < per ∧ feasible (global_limit s1) ∧ ∀ x, x ∈ task_groups s → rt_fits s1 (limit_of s) x in
    if ret =? 0 then good ∧ rt_inv s' ∧ s' = s1 <| def_rt_bandwidth := global_limit s1 |>
    else s' = s ∧ (ret = - EBUSY ∧ (∃ x, x ∈ task_groups s ∧ starves s1 (mkRtData None 0 0) x) ∨
                   ret = - EINVAL ∧ ¬ good)).
Proof.
  intros [Hb Hgl Hf Hcpu] Hp Hr. set (s1 := s <| sysctl_sched_rt_period := per |> <| sysctl_sched_rt_runtime := run |>).
  unfold sched_rt_handler. apply returns_bind. eapply returns_eq; [reflexivity|].
  apply returns_bind. eapply returns_eq; [reflexivity|]. fold s1. simpl negb. cbv zeta.
  assert (∀ ret : Z, returns (
      _ ← modify (λ s2, s2 <| sysctl_sched_rt_period := sysctl_sched_rt_period s |>
                           <| sysctl_sched_rt_runtime := sysctl_sched_rt_runtime s |>); mret ret) s1
      (λ ret' s', ret' = ret ∧ s' = s)) as Hback.
  { intros ret. apply returns_bind. eapply returns_eq; [reflexivity|]. apply returns_ret. split; [done|]. unfold s1. by destruct s. }
  change ((0 =? 0) && true) with true. cbv iota. apply returns_bind.
  unfold sched_rt_global_constraints. apply returns_bind. eapply returns_eq; [reflexivity|].
  change (sysctl_sched_rt_period s1) with per. destruct (per <=? 0) eqn:Hp0; bsimp.
  { apply returns_ret. eapply returns_mono; [exact (Hback (- EINVAL))|]. intros ret s' [-> ->].
    split; [done|]. right. split; [done|]. intros [? _]. lia. }
  assert (rt_base s1) as Hb1 by (destruct Hb; split; try done; unfold s1; simpl; lia).
  destruct (_ && _) eqn:Hpr; bsimp.
  { apply returns_ret. eapply returns_mono; [exact (Hback (- EINVAL))|]. intros ret s' [-> ->].
    split; [done|]. right. split; [done|]. intros (_ & [Hi|Hi] & _); [done|]. simpl in Hi. lia. }
  assert (feasible (global_limit s1)) as Hf1.
  { apply andb_false_iff in Hpr as [Hpr|Hpr]; bsimp; [right; simpl; lia|by left]. }
  eapply returns_mono; [apply (rt_schedulable_ok s1 (mkRtData None 0 0)); [done|done|by right]|].
  intros ret ? [-> Hret].
  assert (∀ x, limit_with (mkRtData None 0 0) s1 x = limit_of s x) as Hl by done.
  assert (∀ x, rt_fits s1 (limit_with (mkRtData None 0 0) s1) x ↔ rt_fits s1 (limit_of s) x) as Hfits by done.
  destruct (ret =? 0) eqn:H0'; bsimp.
  - subst ret. simpl. apply returns_bind. eapply returns_eq; [reflexivity|]. apply returns_ret. simpl.
    split_and!; [done|done|done| |done]. split; [by destruct Hb1|done| |exact Hcpu].
    intros x Hx. by destruct (Hret x Hx).
  - eapply returns_mono; [exact (Hback ret)|]. intros ret' s' [-> ->].
    rewrite (proj2 (Z.eqb_neq ret 0)) by done. split; [done|].
    destruct Hret as [?|[-> Hn]]; [by left|right]. split; [done|]. by intros (_ & _ & ?).
Qed.
End Run.
