(* ===== verification/GroupCfs.v ===== *)
(** * The limits of the fair class are nested

    A group's limit of the fair class is admitted exactly if no group has a larger
    share of the processor than a group above it; so in every state the shares are
    nested. *)

From S2P Require Import Prelude SchedData Fair Sched FairFrame Groups GroupSpec GroupRun.

(** ** Nested shares in a tree *)

Section Nested.
Context (tv : tree) (L : list Z) (Ht : tree_ok tv L) (f : Z → option Z).

(** The least share from a group up to the root, if shares do not grow on the way
    down. *)
Inductive effective : Z → option Z → Prop :=
  | eff_root g ks : tv !! g = Some (None, ks) → effective g None
  | eff_free g p ks q : tv !! g = Some (Some p, ks) → effective p q → f g = None → effective g q
  | eff_limited g p ks q n : tv !! g = Some (Some p, ks) → effective p q → f g = Some n →
      (∀ m, q = Some m → n ≤ m) → effective g (Some n).

(** No group has more than one above it. *)
Definition nested : Prop :=
  ∀ g a n m, g ∈ L → a ∈ L → tc (child_of tv) a g → f g = Some n → f a = Some m → n ≤ m.

Lemma effective_fun g q q' : effective g q → effective g q' → q = q'.
Proof.
  intros He. revert q'. induction He; intros q' He'; inversion He'; simplify_eq; try done.
  by apply IHHe.
Qed.

Lemma effective_limited_inv g p ks n m q :
  tv !! g = Some (Some p, ks) → f g = Some n → effective p (Some m) → effective g q → n ≤ m.
Proof.
  intros Hg Hf Hp Hq. inversion Hq as [|? ? ? ? ? ? Hn|? ? ? q' ? ? Hp' ? Hle]; simplify_eq. 
  apply Hle. by eapply effective_fun.
Qed.

Lemma child_parent p g : p ∈ L → child_of tv p g → ∃ ks, tv !! g = Some (Some p, ks).
Proof. intros Hp (q & ks & Hpt & Hg). destruct (to_node _ _ Ht p Hp) as (? & ? & ? & _ & Hk). simplify_eq. by apply Hk. Qed.

(** Above a group: itself or above its parent. *)
Lemma above_inv a g p ks : a ∈ L → rtc (child_of tv) a g → tv !! g = Some (p, ks) →
  a = g ∨ ∃ x, p = Some x ∧ rtc (child_of tv) a x.
Proof.
  intros Ha Hr Hg. apply rtc_inv_r in Hr as [->|(x & Hax & Hx)]; [by left|right].
  assert (x ∈ L) as HxL by (by eapply descendant_in). destruct (child_parent x g HxL Hx) as [ks' ?]. simplify_eq. eauto.
Qed.

Lemma effective_least g q a m :
  f root_task_group = None → effective g q → g ∈ L → a ∈ L → rtc (child_of tv) a g → f a = Some m →
  ∃ k, q = Some k ∧ k ≤ m.
Proof.
  intros Hroot He. induction He as [g ks Hg|g p ks q Hg He IH Hf|g p ks q n Hg He IH Hf Hle]; intros HgL HaL Ha Hm.
  - assert (g = root_task_group) as ->.
    { destruct (decide (g = root_task_group)) as [|Hne]; [done|].
      destruct (to_parent _ _ Ht g HgL Hne) as (x & y & zs & Hx & Hxt & Hgx).
      destruct (child_parent x g Hx) as [? ?]; [by exists y, zs|]. congruence. }
    destruct (above_inv a root_task_group None ks HaL Ha Hg) as [->|(x & ? & _)]; congruence.
  - destruct (above_inv a g _ ks HaL Ha Hg) as [->|(x & [= <-] & Hx)]; [congruence|].
    apply IH; try done. by eapply descendant_in.
  - destruct (above_inv a g _ ks HaL Ha Hg) as [->|(x & [= <-] & Hx)]; [simplify_eq; eexists; split; [done|lia]|].
    destruct IH as (k & -> & Hk); try done; [by eapply descendant_in|]. exists n. split; [done|].
    specialize (Hle k eq_refl). lia.
Qed.

Lemma nested_effective g :
  nested → g ∈ L → ∃ q, effective g q ∧ ∀ n, q = Some n → ∃ a, a ∈ L ∧ rtc (child_of tv) a g ∧ f a = Some n.
Proof.
  intros Hn Hg. pose proof (from_root tv L Ht g Hg) as Hr. revert Hg. pattern g.
  eapply rtc_ind_r; [| |exact Hr]; clear g Hr; [intros _|intros p g Hrp Hpg IH HgL].
  - destruct (to_root _ _ Ht) as [_ [ks Hks]]. exists None. split; [by eapply eff_root|done].
  - assert (p ∈ L) as HpL by (eapply (descendant_in tv L Ht root_task_group); [apply (to_root _ _ Ht)|done]).
    destruct (IH HpL) as (q & Hq & Ha). destruct (child_parent p g HpL Hpg) as [ks Hks].
    destruct (f g) as [n|] eqn:Hfg.
    + exists (Some n). split; [|intros ? [= <-]; exists g; split_and!; [done|apply rtc_refl|done]].
      eapply eff_limited; [done|done|done|]. intros m Hm. destruct (Ha m Hm) as (a & HaL & Hap & Hfa).
      eapply (Hn g a); [done|done| |done|done]. eapply tc_rtc_l; [done|by apply tc_once].
    + exists q. split; [by eapply eff_free|]. intros n Hqn. destruct (Ha n Hqn) as (a & HaL & Hap & Hfa).
      exists a. split_and!; [done|by eapply rtc_r|done].
Qed.

Lemma effective_nested :
  f root_task_group = None → (∀ g, g ∈ L → ∃ q, effective g q) ↔ nested.
Proof.
  intros Hroot. split.
  - intros Hall g a n m Hg Ha Hag Hfg Hfa. destruct (Hall g Hg) as [q Hq].
    destruct (effective_least g q a m Hroot Hq Hg Ha) as (k & -> & Hk); [by apply tc_rtc|done|].
    inversion Hq; simplify_eq. done.
  - intros Hn g Hg. destruct (nested_effective g Hn Hg) as (q & Hq & _). eauto.
Qed.
End Nested.

(** ** The admission test *)

(** The share of the processor a limit (period, quota) stands for, in units of 2^-20
    and in 32 bits. *)
Definition share (pq : Z * Z) : option Z :=
  if pq.2 =? RUNTIME_INF then None else Some (u32 (pq.2 / 1000 * 2 ^ 20 / (pq.1 / 1000))).

(** Limits the system calls can set. *)
Definition cap_sane (pq : Z * Z) : Prop :=
  1000000 ≤ pq.1 ≤ 1000000000 ∧ (pq.2 = RUNTIME_INF ∨ 1000000 ≤ pq.2 < 2147483648000).

Section Cfs.
Context {Y : Type} `{SchedEnv Y} `{FairEnv Y} `{GroupEnv Y}.
Implicit Types (s : gsys Y).

Definition cap_of s (g : Z) : Z * Z :=
  from_option (λ v : option Z * list Z * Z * Z, (v.1.2, v.2)) (0, 0) (limits_view (proc s) !! g).

Definition cap_with (g0 : Z) (pq : Z * Z) s (g : Z) : Z * Z := if decide (g = g0) then pq else cap_of s g.

Record cfs_base s : Prop := {
  cb_tree : tree_ok (tree_of (proc s)) (task_groups s);
  cb_caps : ∀ g, g ∈ task_groups s → cap_sane (cap_of s g);
  cb_root : (cap_of s root_task_group).2 = RUNTIME_INF
}.

(** In every state the shares are nested. *)
Definition shares_nested s (cap : Z → Z * Z) : Prop :=
  nested (tree_of (proc s)) (task_groups s) (λ g, share (cap g)).

Lemma cfs_group s g : cfs_base s → g ∈ task_groups s →
  ∃ t, groups (proc s) !! g = Some t ∧ cap_of s g = (period (bandwidth t), quota (bandwidth t)) ∧
    tree_of (proc s) !! g = Some (tg_parent t, children t).
Proof.
  intros Hb Hg. destruct (to_node _ _ (cb_tree s Hb) g Hg) as (p & ks & Hgt & _ & _).
  destruct (tree_group _ _ _ _ Hgt) as (t & Hgr & <- & <-). exists t. split_and!; [done| |done].
  unfold cap_of. by rewrite (group_views _ _ _ Hgr).
Qed.

Lemma us_small p : 0 ≤ p < 2147483648000 → s32 (p / NSEC_PER_USEC) = p / 1000 ∧ u64 (p / 1000) = p / 1000 ∧ 0 ≤ p / 1000 < 2147483648.
Proof.
  intros Hp. unfold NSEC_PER_USEC. assert (0 ≤ p / 1000 < 2147483648).
  { split; [apply Z.div_pos; lia|apply Z.div_lt_upper_bound; lia]. }
  rewrite swrap_small by (widths; lia). rewrite uwrap_small by (widths; lia). done.
Qed.

Lemma to_ratio_us s p q : 1000 ≤ p → 0 ≤ q < 2147483648 → to_ratio p q s = Ok (u32 (q * 2 ^ 20 / p)) s.
Proof.
  intros Hp Hq. unfold to_ratio. rewrite (proj2 (Z.eqb_neq q RUNTIME_INF)) by (change RUNTIME_INF with 18446744073709551615; lia).
  unfold div64_u64, mbind, M_bind. rewrite (proj2 (Z.eqb_neq p 0)) by lia. unfold mret, M_ret.
  rewrite Z.shiftl_mul_pow2 by done. rewrite (uwrap_small 64) by (widths; change (2 ^ 20) with 1048576; lia). done.
Qed.

(** The limits as [__cfs_schedulable] passes them on. *)
Definition cfs_data (g p q : Z) : cfs_schedulable_data :=
  if negb (q =? RUNTIME_INF) then mkCfsData g (p / NSEC_PER_USEC) (q / NSEC_PER_USEC) else mkCfsData g p q.

Lemma share_eq pq : cap_sane pq → pq.2 ≠ RUNTIME_INF →
  share pq = Some (u32 (pq.2 / 1000 * 2 ^ 20 / (pq.1 / 1000))) ∧ 1000 ≤ pq.1 / 1000 ∧ 0 ≤ pq.2 / 1000 < 2147483648 ∧
  (pq.2 / 1000 =? RUNTIME_INF) = false.
Proof.
  intros [Hp [Hq|Hq]] Hn; [done|]. unfold share. rewrite (proj2 (Z.eqb_neq pq.2 RUNTIME_INF)) by done.
  destruct (us_small pq.2) as (_ & _ & ?); [lia|]. split_and!; try done; try lia.
  - apply Z.div_le_lower_bound; lia.
  - apply Z.eqb_neq. change RUNTIME_INF with 18446744073709551615. lia.
Qed.

Lemma normalize_ok s g0 p q g :
  cfs_base s → cap_sane (p, q) → g ∈ task_groups s →
  normalize_cfs_quota (cfs_data g0 p q) g s = Ok (default RUNTIME_INF (share (cap_with g0 (p, q) s g))) s.
Proof.
  intros Hb Hs Hg. unfold normalize_cfs_quota, cap_with. replace (c_tg (cfs_data g0 p q)) with g0
    by (unfold cfs_data; by destruct (negb _)).
  unfold mbind at 1, M_bind at 1. case_decide as Hgg.
  - unfold mret at 1, M_ret at 1. unfold cfs_data. destruct (q =? RUNTIME_INF) eqn:Hq; bsimp; simpl.
    + subst q. done.
    + destruct (share_eq (p, q) Hs) as (Hsh & Hp' & Hq' & Hn); [done|]. simpl in *. rewrite Hsh.
      change NSEC_PER_USEC with 1000. change (u64 (-1)) with RUNTIME_INF. rewrite Hn. simpl. by apply to_ratio_us.
  - destruct (cfs_group s g Hb Hg) as (t & Hgt & Hcap & _). rewrite Hcap. pose proof (cb_caps s Hb g Hg) as Hc. rewrite Hcap in Hc.
    unfold tg_get_cfs_period, tg_get_cfs_quota, mbind, M_bind. rewrite (on_load_group s g t Hgt). unfold mret, M_ret.
    rewrite (on_load_group s g t Hgt).
    destruct Hc as [Hp Hq]. simpl in Hp, Hq. destruct (us_small (period (bandwidth t))) as (-> & Hup & _); [lia|].
    destruct (quota (bandwidth t) =? RUNTIME_INF) eqn:Hi; bsimp.
    + unfold share. simpl. rewrite Hi, Z.eqb_refl. done.
    + destruct (share_eq (period (bandwidth t), quota (bandwidth t))) as (Hsh & Hp' & Hq' & Hn); [done|done|]. simpl in *.
      destruct Hq as [?|Hq]; [done|]. destruct (us_small (quota (bandwidth t))) as (-> & Huq & _); [lia|].
      simpl. rewrite Hup, Huq, Hsh. change (u64 (-1)) with RUNTIME_INF. rewrite Hn. simpl. by apply to_ratio_us.
Qed.

(** How an effective share is stored. *)
Definition stored (q : option Z) : Z := default (-1) q.

Lemma share_small pq n : share pq = Some n → 0 ≤ n < 4294967296.
Proof.
  unfold share. destruct (_ =? _); [done|]. intros [= <-].
  pose proof (uwrap_range 32 ltac:(done) (pq.2 / 1000 * 2 ^ 20 / (pq.1 / 1000))) as Hw. unfold in_u in Hw. widths. lia.
Qed.

Lemma effective_small tv f g q n :
  (∀ g n, f g = Some n → 0 ≤ n < 4294967296) → effective tv f g q → q = Some n → 0 ≤ n < 4294967296.
Proof. intros Hf He. revert n. induction He; intros ? [= ->]; eauto. Qed.

Lemma stored_u64 q : (∀ n, q = Some n → 0 ≤ n < 4294967296) →
  (u64 (stored q) =? RUNTIME_INF) = bool_decide (q = None).
Proof.
  intros Hq. destruct q as [n|]; [|done]. specialize (Hq n eq_refl). rewrite bool_decide_eq_false_2 by done.
  unfold stored. cbn [default from_option id].
  rewrite uwrap_small by (widths; lia). apply Z.eqb_neq. change RUNTIME_INF with 18446744073709551615. lia.
Qed.

Lemma s64_share q : (∀ n, q = Some n → 0 ≤ n < 4294967296) → s64 (default RUNTIME_INF q) = stored q.
Proof. intros Hq. destruct q as [n|]; simpl; [|done]. specialize (Hq n eq_refl). apply swrap_small; widths; lia. Qed.

Section Visit.
Context (s0 : gsys Y) (g0 p0 q0 : Z) (Hb : cfs_base s0) (Hs : cap_sane (p0, q0)).
Let tv := tree_of (proc s0).
Let sh g := share (cap_with g0 (p0, q0) s0 g).

(** The walk changes nothing but the stored shares, which it computes from the root. *)
Definition walking (s : gsys Y) : Prop := ∃ h, s = s0 <| hierarchal_quota := h |>.

Definition has_share (g : Z) (s : gsys Y) : Prop :=
  ∃ q, effective tv sh g q ∧ hierarchal_quota s !! g = Some (stored q).

Lemma sh_small g n : sh g = Some n → 0 ≤ n < 4294967296.
Proof. apply share_small. Qed.

Lemma has_share_put g q s : effective tv sh g q → walking s →
  returns (_ ← modify (λ s, s <| hierarchal_quota ::= <[g := stored q]> |>); mret 0) s (λ ret s',
    walking s' ∧ (∀ x, has_share x s → has_share x s') ∧ if ret =? 0 then has_share g s' else False).
Proof.
  intros Hq [h ->]. apply returns_bind. eapply returns_eq; [reflexivity|]. apply returns_ret. split_and!.
  - eexists. reflexivity.
  - intros x (q' & Hq' & Hx). destruct (decide (x = g)) as [->|Hne].
    + rewrite (effective_fun _ _ _ _ _ Hq' Hq) in *. exists q. split; [done|]. simpl. by rewrite lookup_insert_eq.
    + exists q'. split; [done|]. simpl in *. by rewrite lookup_insert_ne by auto.
  - exists q. split; [done|]. simpl. by rewrite lookup_insert_eq.
Qed.

Lemma cfs_visit_ok g s :
  g ∈ task_groups s0 → walking s → (g = root_task_group ∨ ∃ p, p ∈ task_groups s0 ∧ child_of tv p g ∧ has_share p s) →
  returns (tg_cfs_schedulable_down (cfs_data g0 p0 q0) g) s (λ ret s',
    walking s' ∧ (∀ x, has_share x s → has_share x s') ∧
    if ret =? 0 then has_share g s' else ret = - EINVAL ∧ ¬ ∃ q, effective tv sh g q).
Proof.
  intros Hg Hw Hpar. pose proof Hw as [h Hsh]. destruct (cfs_group s0 g Hb Hg) as (t & Hgt & _ & Htv).
  assert (cfs_base s) as Hbs by (rewrite Hsh; by destruct Hb).
  unfold tg_cfs_schedulable_down. apply returns_bind. eapply returns_eq; [apply on_load_group; rewrite Hsh; exact Hgt|].
  assert (∀ q, effective tv sh g q → returns (_ ← modify (λ s, s <| hierarchal_quota ::= <[g := stored q]> |>); mret 0) s (λ ret s',
    walking s' ∧ (∀ x, has_share x s → has_share x s') ∧
    if ret =? 0 then has_share g s' else ret = - EINVAL ∧ ¬ ∃ q, effective tv sh g q)) as Hput.
  { intros q Hq. eapply returns_mono; [by apply has_share_put|]. intros ret s' (? & ? & ?). by destruct (ret =? 0). }
  destruct (tg_parent t) as [p|] eqn:Hp.
  2: { change (s64 RUNTIME_INF) with (stored None). apply Hput. by eapply eff_root. }
  assert (has_share p s) as (qp & Hqp & Hhq).
  { destruct Hpar as [->|(x & Hx & Hc & Hhs)].
    - destruct (to_root _ _ (cb_tree s0 Hb)) as [_ [ks Hks]]. unfold tv in *. rewrite Hks in Htv. congruence.
    - destruct (child_parent _ _ (cb_tree s0 Hb) x g Hx Hc) as [ks Hks]. unfold tv in *. simplify_eq. done. }
  apply returns_bind. eapply returns_eq; [apply normalize_ok; [done|done|by rewrite Hsh]|].
  replace (share (cap_with g0 (p0, q0) s g)) with (sh g) by (by rewrite Hsh).
  rewrite s64_share by (intros n; apply sh_small). apply returns_bind. eapply returns_eq; [reflexivity|].
  apply returns_bind. eapply returns_eq; [rewrite Hhq; reflexivity|].
  rewrite !stored_u64 by (intros n; first [apply sh_small | by eapply effective_small; [apply sh_small|]]).
  destruct (sh g) as [n|] eqn:Hfg.
  - rewrite (bool_decide_eq_false_2 (Some n = None)) by done. destruct (negb _ && _) eqn:Hlt.
    + bsimp. apply returns_ret. split_and!; [done|done|]. split; [done|]. intros [q Hq]. destruct qp as [m|]; [|done].
      pose proof (effective_limited_inv _ _ _ _ _ _ _ _ Htv Hfg Hqp Hq). simpl in *. lia.
    + apply (Hput (Some n)). eapply eff_limited; [done|done|done|]. intros m ->.
      rewrite bool_decide_eq_false_2 in Hlt by done. simpl in Hlt. bsimp. lia.
  - rewrite (bool_decide_eq_true_2 (None = None)) by done. apply Hput. by eapply eff_free.
Qed.

Lemma cfs_schedulable_ok :
  (cap_with g0 (p0, q0) s0 root_task_group).2 = RUNTIME_INF →
  returns (__cfs_schedulable g0 p0 q0) s0 (λ ret s', walking s' ∧
    if ret =? 0 then shares_nested s0 (cap_with g0 (p0, q0) s0)
    else ret = - EINVAL ∧ ¬ shares_nested s0 (cap_with g0 (p0, q0) s0)).
Proof.
  intros Hroot. assert (sh root_task_group = None) as Hfr by (unfold sh, share; by rewrite Hroot).
  pose proof (effective_nested tv (task_groups s0) (cb_tree s0 Hb) sh Hfr) as Hiff.
  unfold __cfs_schedulable. fold (cfs_data g0 p0 q0).
  eapply returns_mono; [apply (walk_tg_tree_ok tv (task_groups s0) (cb_tree s0 Hb) _ walking
    (λ g s, g = root_task_group ∨ ∃ p, p ∈ task_groups s0 ∧ child_of tv p g ∧ has_share p s) has_share
    (λ g ret, ret = - EINVAL ∧ ¬ ∃ q, effective tv sh g q))|].
  - by intros s [h ->].
  - intros g s Hg Hw Hpar. by apply cfs_visit_ok.
  - intros g c s Hg Hc Hhs. right. eauto.
  - by exists (hierarchal_quota s0); destruct s0.
  - by left.
  - intros ret s' (Hw & _ & Hr). split; [done|]. destruct (ret =? 0).
    + apply Hiff. intros g Hg. destruct (Hr g Hg) as (q & ? & _). eauto.
    + destruct Hr as (x & Hx & -> & Hn). split; [done|]. intros Hall. by apply Hn, Hiff.
Qed.
End Visit.

(** ** Setting a limit *)

Lemma set_cfs_core g p q s :
  cfs_base s → g ∈ task_groups s → (q = RUNTIME_INF ∨ q < 2147483648000) →
  ensures (tg_set_cfs_bandwidth g p q) s (λ ret s',
    if ret =? 0 then
      g ≠ root_task_group ∧ cap_sane (p, q) ∧ shares_nested s (cap_with g (p, q) s) ∧
      ∃ par ks, limits_view (proc s) !! g = Some (par, ks, (cap_of s g).1, (cap_of s g).2) ∧
        core s' = (<[g := (par, ks, p, q)]> (limits_view (proc s)), rt_bw s, task_groups s,
                   sysctl_sched_rt_period s, sysctl_sched_rt_runtime s)
    else ret = - EINVAL ∧ core s' = core s ∧
      ¬ (g ≠ root_task_group ∧ cap_sane (p, q) ∧ shares_nested s (cap_with g (p, q) s))).
Proof.
  intros Hb Hg Hq. unfold tg_set_cfs_bandwidth, min_cfs_quota_period, max_cfs_quota_period.
  change (1 * NSEC_PER_MSEC) with 1000000.
  assert (q < 1000000 ∨ p < 1000000 ∨ 1000000000 < p → ¬ cap_sane (p, q)) as Hbad.
  { intros Hor [Hp' Hq']. simpl in *. change RUNTIME_INF with 18446744073709551615 in *. lia. }
  destruct (g =? root_task_group) eqn:Hr; bsimp; [apply ensures_ret; naive_solver|].
  destruct (_ || _) eqn:Hmin.
  { apply ensures_ret. apply orb_true_iff in Hmin as [Hmin|Hmin]; bsimp; naive_solver. }
  destruct (1000000000 <? p) eqn:Hmax; bsimp; [apply ensures_ret; naive_solver|].
  assert (cap_sane (p, q)) as Hs by (split; simpl; [lia|]; destruct Hq; [by left|right; lia]).
  apply ensures_bind. eapply ensures_mono.
  { apply ensures_returns, cfs_schedulable_ok; [done|done|]. unfold cap_with. rewrite decide_False by auto. apply Hb. }
  intros ret s1 [[h ->] Hret]. destruct (ret =? 0) eqn:H0'; simpl.
  2: { apply ensures_ret. rewrite H0'. destruct Hret. split_and!; [done|done|]. by intros (_ & _ & ?). }
  set (s1 := s <| hierarchal_quota := h |>). assert (core s1 = core s) as Hc1 by done. clearbody s1.
  destruct (cfs_group s g Hb Hg) as (t & Hgt & Hcap & _). apply group_views in Hgt.
  apply ensures_bind, ensures_load_group. intros t1 Ht1. apply group_views in Ht1.
  apply ensures_bind. apply (ensures_mono _ _ (λ _ s2, core s2 = core s)).
  { unfold account_cfs_bandwidth_used. destruct (_ && _); [by apply ensures_modify|].
    destruct (_ && _); [by apply ensures_modify|by apply ensures_ret]. }
  intros [] s2 Hc2. apply ensures_bind, ensures_store_bandwidth. intros t2 Ht2. apply group_views in Ht2 as Hv2.
  injection Hc2 as Hl2 Hr2 Hg2 Hp2 Hn2. rewrite Hl2, Hgt in Hv2. injection Hv2 as Hpar Hch Hpe Hqu.
  set (s3 := modify_field _ _).
  assert (core s3 = (<[g := (tg_parent t, children t, p, q)]> (limits_view (proc s)), rt_bw s, task_groups s,
                   sysctl_sched_rt_period s, sysctl_sched_rt_runtime s)) as Hc3.
  { unfold core, s3. simpl. rewrite view_insert, Hl2, Hr2, Hg2, Hp2, Hn2. unfold group_view. simpl. by rewrite Hpar, Hch. }
  clearbody s3.
  apply ensures_bind. eapply ensures_core; [apply fr_refill|]. intros [] s4 Hc4.
  apply ensures_bind, ensures_load_group. intros t4 _.
  apply ensures_bind. apply (ensures_mono _ _ (λ _ s5, core s5 = core s3)).
  { destruct (_ && _); [|by apply ensures_ret]. apply ensures_bind.
    eapply ensures_core; [by apply fr_store_bandwidth|]. intros [] s5 Hc5.
    eapply ensures_core; [apply fr_start|]. intros [] s6 Hc6. congruence. }
  intros [] s5 Hc5. apply ensures_bind. eapply ensures_core; [apply fr_store_cfs|]. intros [] s6 Hc6.
  apply ensures_bind. eapply ensures_core; [apply fr_load_cfs|]. intros q6 s7 Hc7.
  apply ensures_bind. apply (ensures_mono _ _ (λ _ s8, core s8 = core s3)).
  { destruct (throttled q6); [|apply ensures_ret; congruence].
    eapply ensures_core; [apply fr_unthrottle|]. intros [] s8 Hc8. congruence. }
  intros [] s8 Hc8. apply ensures_ret. rewrite H0'. split_and!; [done|done|done|].
  exists (tg_parent t), (children t). rewrite Hcap. split; [done|congruence].
Qed.
End Cfs.
