(* ===== verification/GroupTheorems.v ===== *)
(** * Limits of groups over whole runs

    The operations on groups as steps, interleaved with whatever else the scheduler
    does; the theorems of the component. *)

From S2P Require Import Prelude SchedData Fair Sched FairFrame Groups GroupSpec GroupRun GroupCfs.

(** ** Nested shares when the tree changes *)

Lemma nested_mono tv tv' L L' f f' :
  nested tv L f → (∀ x, x ∈ L' → x ∈ L) → (∀ a b, child_of tv' a b → child_of tv a b) →
  (∀ x, x ∈ L' → f' x = f x) → nested tv' L' f'.
Proof.
  intros Hn HL Hc Hf g a n m Hg Ha Hag. rewrite !Hf by done. intros Hn1 Hm1. eapply (Hn g a); [auto|auto| |exact Hn1|exact Hm1].
  clear -Hag Hc. induction Hag; [apply tc_once; auto|eapply tc_l; eauto].
Qed.

(** A new leaf without a limit. *)
Lemma nested_leaf tv L f f' g p q ks :
  nested tv L f → tv !! p = Some (q, ks) → tv !! g = None → p ≠ g → f' g = None → (∀ x, x ∈ L → f' x = f x) →
  nested (<[p := (q, g :: ks)]> (<[g := (Some p, [])]> tv)) (g :: L) f'.
Proof.
  intros Hn Hp Hg Hpg Hfg Hf. set (tv' := <[p := _]> _).
  assert (∀ v, ¬ child_of tv' g v) as Hleaf.
  { intros v (x & zs & Hx & Hv). unfold tv' in Hx. rewrite lookup_insert_ne, lookup_insert_eq in Hx by done. set_solver. }
  assert (∀ u v, v ≠ g → child_of tv' u v → child_of tv u v) as Hchild.
  { intros u v Hv Huv. destruct (decide (u = g)) as [->|Hug]; [by apply Hleaf in Huv|]. destruct Huv as (x & zs & Hx & Hvz).
    unfold tv' in Hx. destruct (decide (u = p)) as [->|Hup].
    - rewrite lookup_insert_eq in Hx. simplify_eq. exists x, ks. split; [done|]. set_solver.
    - rewrite !lookup_insert_ne in Hx by auto. by exists x, zs. }
  assert (∀ a x, tc (child_of tv') a x → x ≠ g → tc (child_of tv) a x) as Htc.
  { intros a x Hax Hxg. induction Hax as [a x Hax|a b x Hab Hbx IH]; [apply tc_once; auto|].
    eapply tc_l; [|auto]. apply Hchild; [|done]. intros ->. inversion Hbx; by eapply Hleaf. }
  intros x a n m Hx Ha Hax Hfx Hfa.
  apply elem_of_cons in Hx as [->|Hx]; [congruence|]. apply elem_of_cons in Ha as [->|Ha]; [congruence|].
  rewrite Hf in Hfx, Hfa by done. eapply (Hn x a); try done. apply Htc; [done|]. intros ->. rewrite Hf in Hfg by done. congruence.
Qed.

Section Theorems.
Context {Y : Type} `{SchedEnv Y} `{FairEnv Y} `{GroupLaws Y}.
Implicit Types (s : gsys Y).

Record cfs_inv s : Prop := {
  ci_base : cfs_base s;
  ci_nested : shares_nested s (cap_of s)
}.

Lemma child_tree (tv tv' : tree) a b : (∀ x v, tv' !! x = Some v → tv !! x = Some v) → child_of tv' a b → child_of tv a b.
Proof. intros He (p & ks & Ha & Hb). exists p, ks. auto. Qed.

Lemma cfs_inv_add s s' g p q ks pp pq rb rp rr :
  cfs_inv s → p ∈ task_groups s → limits_view (proc s) !! g = None → limits_view (proc s) !! p = Some (q, ks, pp, pq) →
  core s' = (<[p := (q, g :: ks, pp, pq)]> (<[g := new_view (Some p)]> (limits_view (proc s))), rb, g :: task_groups s, rp, rr) →
  cfs_inv s'.
Proof.
  intros [[Ht Hc Hroot] Hn] Hp Hg Hpv Hcore. injection Hcore as Hl _ Hgs _ _.
  assert (p ≠ g) as Hpg by (intros ->; congruence).
  assert (tree_of (proc s) !! p = Some (q, ks)) as Htp by (by rewrite tree_limits, lookup_fmap, Hpv).
  assert (tree_of (proc s) !! g = None) as Htg by (by rewrite tree_limits, lookup_fmap, Hg).
  assert (tree_of (proc s') = <[p := (q, g :: ks)]> (<[g := (Some p, [])]> (tree_of (proc s)))) as Ht'
    by (rewrite (core_tree _ _ Hl), !fmap_insert, <- tree_limits; done).
  assert (cap_of s' g = (default_cfs_period, RUNTIME_INF)) as Hcg
    by (unfold cap_of; rewrite Hl, lookup_insert_ne, lookup_insert_eq by done; done).
  assert (∀ x, x ≠ g → cap_of s' x = cap_of s x) as Hcx.
  { intros x Hx. unfold cap_of. rewrite Hl. destruct (decide (x = p)) as [->|]; [by rewrite lookup_insert_eq, Hpv|].
    by rewrite !lookup_insert_ne by auto. }
  assert (∀ x, x ∈ task_groups s → x ≠ g) as HgL.
  { intros x Hx ->. destruct (to_node _ _ Ht g Hx) as (? & ? & ? & _). congruence. }
  split; [split|].
  - rewrite Ht', Hgs. by apply tree_ok_add.
  - rewrite Hgs. intros x [->|Hx]%elem_of_cons; [rewrite Hcg; split; [done|by left]|rewrite Hcx; auto].
  - rewrite Hcx; [done|]. apply HgL, (to_root _ _ Ht).
  - unfold shares_nested. rewrite Ht', Hgs. eapply nested_leaf; [exact Hn|done|done|done|by rewrite Hcg|].
    intros x Hx. by rewrite Hcx by auto.
Qed.

Lemma cfs_inv_remove s s' g p q ks pp pq v rb rp rr :
  cfs_inv s → g ∈ task_groups s → limits_view (proc s) !! g = Some v → view_tree v = (Some p, []) →
  limits_view (proc s) !! p = Some (q, ks, pp, pq) → p ∈ task_groups s →
  core s' = (<[p := (q, remove_one g ks, pp, pq)]> (limits_view (proc s)), rb, remove_one g (task_groups s), rp, rr) →
  cfs_inv s'.
Proof.
  intros [[Ht Hc Hroot] Hn] Hg Hgv Hv Hpv Hp Hcore. injection Hcore as Hl _ Hgs _ _. pose proof (to_nodup _ _ Ht) as Hnd.
  assert (tree_of (proc s) !! p = Some (q, ks)) as Htp by (by rewrite tree_limits, lookup_fmap, Hpv).
  assert (tree_of (proc s') = <[p := (q, remove_one g ks)]> (tree_of (proc s))) as Ht'
    by (rewrite (core_tree _ _ Hl), fmap_insert, <- tree_limits; done).
  assert (∀ x, cap_of s' x = cap_of s x) as Hcx.
  { intros x. unfold cap_of. rewrite Hl. destruct (decide (x = p)) as [->|]; [by rewrite lookup_insert_eq, Hpv|].
    by rewrite lookup_insert_ne by auto. }
  assert (∀ x, x ∈ task_groups s' → x ∈ task_groups s) as Hin by (rewrite Hgs; by intros x [? _]%remove_one_in).
  destruct (to_node _ _ Ht p Hp) as (? & ? & ? & Hks & _). simplify_eq.
  split; [split|].
  - rewrite Ht', Hgs. apply tree_ok_remove; [done|done| |done|done]. rewrite tree_limits, lookup_fmap, Hgv. simpl. by rewrite Hv.
  - intros x Hx. rewrite Hcx. auto.
  - by rewrite Hcx.
  - eapply nested_mono; [exact Hn|exact Hin| |intros x _; by rewrite Hcx]. rewrite Ht'.
    intros a b (x & zs & Ha & Hb). destruct (decide (a = p)) as [->|].
    + rewrite lookup_insert_eq in Ha. simplify_eq. eexists _, _. split; [done|]. by apply remove_one_in in Hb as [? _].
    + rewrite lookup_insert_ne in Ha by auto. by exists x, zs.
Qed.

(** States with the same limits of all groups. *)
Lemma cfs_inv_same s s' :
  (∀ g, g ∈ task_groups s → limits_view (proc s') !! g = limits_view (proc s) !! g) → task_groups s' = task_groups s →
  (∀ x v, limits_view (proc s') !! x = Some v → limits_view (proc s) !! x = Some v) → cfs_inv s → cfs_inv s'.
Proof.
  intros Hl Hgs Hsub [[Ht Hc Hroot] Hn].
  assert (∀ x, x ∈ task_groups s → cap_of s' x = cap_of s x) as Hcx by (intros x Hx; unfold cap_of; by rewrite Hl).
  split; [split|].
  - rewrite Hgs. apply (tree_ok_ext (tree_of (proc s))); [done|]. intros g Hg. by rewrite !tree_limits, !lookup_fmap, Hl.
  - rewrite Hgs. intros g Hg. rewrite Hcx by done. auto.
  - rewrite Hcx; [done|]. apply (to_root _ _ Ht).
  - eapply nested_mono; [exact Hn|by rewrite Hgs| |rewrite Hgs; intros x Hx; by rewrite Hcx].
    intros a b. apply child_tree. intros x v. rewrite !tree_limits, !lookup_fmap. intros Hx.
    apply fmap_Some in Hx as (w & Hw & ->). apply fmap_Some. eauto.
Qed.

Lemma cfs_inv_set s s' g par ks p q rb rp rr :
  cfs_inv s → g ≠ root_task_group → cap_sane (p, q) → shares_nested s (cap_with g (p, q) s) →
  limits_view (proc s) !! g = Some (par, ks, (cap_of s g).1, (cap_of s g).2) →
  core s' = (<[g := (par, ks, p, q)]> (limits_view (proc s)), rb, task_groups s, rp, rr) → cfs_inv s'.
Proof.
  intros [[Ht Hc Hroot] Hn] Hg Hs Hnest Hgv Hcore. injection Hcore as Hl _ Hgs _ _.
  assert (tree_of (proc s') = tree_of (proc s)) as Ht'.
  { rewrite (core_tree _ _ Hl), fmap_insert, <- tree_limits. apply insert_id. by rewrite tree_limits, lookup_fmap, Hgv. }
  assert (∀ x, cap_of s' x = cap_with g (p, q) s x) as Hcx.
  { intros x. unfold cap_of, cap_with. rewrite Hl. case_decide as Hx; [subst x; by rewrite lookup_insert_eq|].
    by rewrite lookup_insert_ne by auto. }
  split; [split|].
  - by rewrite Ht', Hgs.
  - rewrite Hgs. intros x Hx. rewrite Hcx. unfold cap_with. case_decide; [done|auto].
  - rewrite Hcx. unfold cap_with. by rewrite decide_False by auto.
  - eapply nested_mono; [exact Hnest|by rewrite Hgs|by rewrite Ht'|]. intros x _. by rewrite Hcx.
Qed.

(** ** Steps *)

(** One operation on groups, or anything else that leaves the limits alone, as all of
    the fair class does ([FairFrame.v]).  A group is removed only when it has no
    children, and freed later. *)
Inductive group_step s : gsys Y → Prop :=
  | step_create parent res s' : parent ∈ task_groups s → (S (length (task_groups s)) < 4096)%nat →
      sched_create_group parent s = Ok res s' → group_step s s'
  | step_destroy g p s' : g ∈ task_groups s → tree_of (proc s) !! g = Some (Some p, []) →
      sched_destroy_group g s = Ok tt s' → group_step s s'
  | step_free g s' : g ∉ task_groups s → free_sched_group_rcu g s = Ok tt s' → group_step s s'
  | step_rt_runtime g us ret s' : g ∈ task_groups s → - 2 ^ 31 ≤ us < 2 ^ 31 →
      sched_group_set_rt_runtime g us s = Ok ret s' → group_step s s'
  | step_rt_period g us ret s' : g ∈ task_groups s → - 2 ^ 31 ≤ us < 2 ^ 31 →
      sched_group_set_rt_period g us s = Ok ret s' → group_step s s'
  | step_rt_handler per run ret s' : 0 ≤ per < 2 ^ 32 → - 2 ^ 31 ≤ run < 2 ^ 31 →
      sched_rt_handler true 0 per run s = Ok ret s' → group_step s s'
  | step_cfs_quota g us ret s' : g ∈ task_groups s → - 2 ^ 31 ≤ us < 2 ^ 31 →
      tg_set_cfs_quota g us s = Ok ret s' → group_step s s'
  | step_cfs_period g us ret s' : g ∈ task_groups s → - 2 ^ 31 ≤ us < 2 ^ 31 →
      tg_set_cfs_period g us s = Ok ret s' → group_step s s'
  | step_work {A} (m : M (rq Y) A) a s' : frames limits_view m → on_proc m s = Ok a s' → group_step s s'.

Definition groups_inv s : Prop := rt_inv s ∧ cfs_inv s.

Lemma groups_inv_core s s' : core s' = core s → groups_inv s → groups_inv s'.
Proof.
  intros Hc [Hr Hf]. split; [by eapply rt_inv_same, Hr; apply core_same|]. injection Hc as Hl _ Hg _ _.
  apply (cfs_inv_same s); [by rewrite Hl|done|by rewrite Hl|done].
Qed.

Lemma groups_create s parent :
  groups_inv s → parent ∈ task_groups s → (S (length (task_groups s)) < 4096)%nat →
  ensures (sched_create_group parent) s (λ _ s', groups_inv s').
Proof.
  intros [Hr Hf] Hp Hlen. eapply ensures_mono; [apply sched_create_group_core; [done|]|].
  { intros g Hg. destruct (group_node s g (ri_base s Hr) Hg) as (t & ? & _). eauto. }
  intros [g|e] s'.
  - intros (q & ks & pp & pq & b & Hg & Hpv & Hb1 & Hb2 & Hb3 & Hc). split; [by eapply rt_inv_add|by eapply cfs_inv_add].
  - intros (_ & Hl & Hsr). split; [by eapply rt_inv_same|]. destruct Hsr as [_ Hg _ _ _].
    apply (cfs_inv_same s); [by rewrite Hl|done|by rewrite Hl|done].
Qed.

Lemma view_of_tree (r : rq Y) g p ks : tree_of r !! g = Some (p, ks) →
  ∃ pp pq, limits_view r !! g = Some (p, ks, pp, pq).
Proof.
  rewrite tree_limits, lookup_fmap. intros Hg. apply fmap_Some in Hg as ([[[p' ks'] pp] pq] & ? & [= -> ->]). eauto.
Qed.

Lemma groups_destroy s g p :
  groups_inv s → g ∈ task_groups s → tree_of (proc s) !! g = Some (Some p, []) →
  ensures (sched_destroy_group g) s (λ _ s', groups_inv s').
Proof.
  intros [Hr Hf] Hg Hgt. pose proof (cb_tree s (ci_base s Hf)) as Ht.
  assert (g ≠ root_task_group) as Hne.
  { intros ->. destruct (to_root _ _ Ht) as [_ [ks Hks]]. congruence. }
  destruct (to_parent _ _ Ht g Hg Hne) as (p' & q & ks & Hp & Hpt & Hgk).
  destruct (child_parent _ _ Ht p' g Hp) as [ks' ?]; [by exists q, ks|]. simplify_eq.
  destruct (view_of_tree _ _ _ _ Hgt) as (gp & gq & Hgv). destruct (view_of_tree _ _ _ _ Hpt) as (pp & pq & Hpv).
  eapply ensures_mono; [by eapply sched_destroy_group_core|]. intros [] s' Hc.
  split; [exact (rt_inv_remove _ _ _ _ _ _ _ _ _ Hr Hg Hgv eq_refl Hpv Hp Hc)|].
  exact (cfs_inv_remove _ _ _ _ _ _ _ _ _ _ _ _ Hf Hg Hgv eq_refl Hpv Hp Hc).
Qed.

Lemma groups_free s g :
  groups_inv s → g ∉ task_groups s → ensures (free_sched_group_rcu g) s (λ _ s', groups_inv s').
Proof.
  intros [Hr Hf] Hg. eapply ensures_mono; [apply free_sched_group_core|]. intros [] s' Hc.
  split; [by eapply rt_inv_free|]. injection Hc as Hl _ Hgs _ _. apply (cfs_inv_same s); rewrite ?Hl; try done.
  - intros x Hx. apply lookup_delete_ne. by intros ->.
  - by intros x v [_ ?]%lookup_delete_Some.
Qed.

Lemma rt_set_groups s g pr ret s' : groups_inv s → rt_set s g pr ret s' → groups_inv s'.
Proof.
  intros [Hr Hf]. unfold rt_set. cbv zeta. destruct (ret =? 0); [|by intros [-> _]].
  intros (_ & Hr' & _ & b & ->). split; [done|]. by apply (cfs_inv_same s).
Qed.

Lemma groups_cfs s g p q :
  groups_inv s → g ∈ task_groups s → (q = RUNTIME_INF ∨ q < 2147483648000) →
  ensures (tg_set_cfs_bandwidth g p q) s (λ _ s', groups_inv s').
Proof.
  intros [Hr Hf] Hg Hq. eapply ensures_mono; [apply set_cfs_core; [apply Hf|done|done]|]. intros ret s'. cbv beta.
  destruct (ret =? 0); [|intros (_ & Hc & _); by eapply groups_inv_core].
  intros (Hne & Hs & Hn & par & ks & Hgv & Hc). split; [|by eapply cfs_inv_set]. injection Hc as Hl Hrb Hgs Hpe Hru.
  eapply rt_inv_same; [|done]. split; try done; [|by rewrite Hrb]. intros x _. rewrite !tree_limits, Hl, fmap_insert, insert_id; [done|].
  by rewrite lookup_fmap, Hgv.
Qed.

Lemma us_bound us : - 2 ^ 31 ≤ us < 2 ^ 31 →
  asked_runtime us = RUNTIME_INF ∨ asked_runtime us < 2147483648000.
Proof.
  intros Hu. change (2 ^ 31) with 2147483648 in Hu. unfold asked_runtime, NSEC_PER_USEC.
  destruct (us <? 0) eqn:Hn; bsimp; [by left|right]. rewrite uwrap_small by (widths; lia). lia.
Qed.

Lemma groups_cfs_quota s g us :
  groups_inv s → g ∈ task_groups s → - 2 ^ 31 ≤ us < 2 ^ 31 → ensures (tg_set_cfs_quota g us) s (λ _ s', groups_inv s').
Proof.
  intros Hi Hg Hu. unfold tg_set_cfs_quota. apply ensures_bind, ensures_load_group. intros t _.
  apply groups_cfs; [done|done|]. by apply us_bound.
Qed.

Lemma groups_cfs_period s g us :
  groups_inv s → g ∈ task_groups s → ensures (tg_set_cfs_period g us) s (λ _ s', groups_inv s').
Proof.
  intros Hi Hg. unfold tg_set_cfs_period. apply ensures_bind, ensures_load_group. intros t Ht.
  apply groups_cfs; [done|done|]. destruct (cfs_group s g (ci_base s (proj2 Hi)) Hg) as (t' & Ht' & Hcap & _). simplify_eq.
  pose proof (cb_caps s (ci_base s (proj2 Hi)) g Hg) as [_ Hq]. rewrite Hcap in Hq. simpl in Hq. destruct Hq; [by left|right; lia].
Qed.

Lemma groups_inv_step s s' : groups_inv s → group_step s s' → groups_inv s'.
Proof.
  intros Hi Hstep. assert (∀ A (m : M (gsys Y) A) a, m s = Ok a s' → ensures m s (λ _ s', groups_inv s') → groups_inv s') as Hrun
    by (intros A m a Hm He; by eapply He).
  assert (∀ A (m : M (gsys Y) A) a (Q : A → gsys Y → Prop), m s = Ok a s' → returns m s Q → Q a s') as Hret.
  { intros A m a Q Hm (a' & s1 & Hm' & HQ). rewrite Hm in Hm'. by simplify_eq. }
  destruct Hstep; [eapply Hrun; [done|]..|].
  - by apply groups_create.
  - by eapply groups_destroy.
  - by apply groups_free.
  - eapply ensures_mono; [by apply ensures_returns, set_rt_runtime_ok; [apply Hi|..]|]. intros ? ?. by apply rt_set_groups.
  - eapply ensures_mono; [by apply ensures_returns, set_rt_period_ok; [apply Hi|..]|]. intros r s2.
    destruct (us =? 0); [by intros [_ ->]|]. by apply rt_set_groups.
  - eapply ensures_mono; [by apply ensures_returns, sched_rt_handler_ok; [apply Hi|..]|]. intros r s2. cbv beta. cbv zeta.
    destruct (r =? 0); [|by intros [-> _]]. intros (_ & Hr & ->). split; [done|]. destruct Hi. by apply (cfs_inv_same s).
  - by apply groups_cfs_quota.
  - by apply groups_cfs_period.
  - eapply groups_inv_core; [|done]. eapply frames_run; [|done]. by apply core_proc.
Qed.

Lemma groups_inv_reachable s s' : groups_inv s → rtc group_step s s' → groups_inv s'.
Proof. intros Hi Hr. induction Hr; [done|]. eauto using groups_inv_step. Qed.

(** ** A limit of the fair class is set *)

(** The group and its queue are there, and the queue is not throttled. *)
Definition in_use (g : Z) (r : rq Y) : Prop :=
  is_Some (groups r !! g) ∧ ∃ q, cfs_rqs r !! g = Some q ∧ throttled q = false.

Lemma in_use_load g (r : rq Y) : in_use g r → returns (load_group g) r (λ _, in_use g).
Proof. intros Hu. pose proof Hu as [[t Ht] _]. eapply returns_eq; [|exact Hu]. unfold load_group, mbind, M_bind, gets. by rewrite Ht. Qed.

Lemma in_use_store g f (r : rq Y) : in_use g r → returns (store_bandwidth g f) r (λ _, in_use g).
Proof.
  intros Hu. unfold store_bandwidth. apply returns_bind. eapply returns_mono; [by apply in_use_load|].
  intros t r' [_ Hq]. eapply returns_eq; [reflexivity|]. split; [|exact Hq]. simpl. rewrite lookup_insert_eq. by eexists.
Qed.

Lemma in_use_refill g (r : rq Y) : in_use g r → returns (__refill_cfs_bandwidth_runtime g) r (λ _, in_use g).
Proof.
  intros Hu. unfold __refill_cfs_bandwidth_runtime. apply returns_bind. eapply returns_mono; [by apply in_use_load|].
  intros t r' Hu'. destruct (_ =? _); [by apply returns_ret|]. apply returns_bind. eapply returns_eq; [reflexivity|].
  by apply in_use_store.
Qed.

Lemma in_use_start g (r : rq Y) : in_use g r → returns (__start_cfs_bandwidth g) r (λ _, in_use g).
Proof.
  intros Hu. unfold __start_cfs_bandwidth, start_bandwidth_timer. apply returns_bind. eapply returns_mono; [by apply in_use_load|].
  intros t r1 Hu1. apply returns_bind. apply (returns_mono _ _ (λ _, in_use g)).
  { destruct (period_timer _); [|by apply returns_ret]. apply returns_bind. eapply returns_mono; [by apply in_use_store|].
    intros [] r2 Hu2. apply returns_bind. eapply returns_mono; [by apply in_use_load|]. intros t3 r3 Hu3. by apply returns_ret. }
  intros stop r2 Hu2. destruct stop; [by apply returns_ret|]. apply returns_bind.
  eapply returns_mono; [by apply in_use_store|]. intros [] r3 Hu3. by apply in_use_store.
Qed.

Lemma returns_proc {A} (m : M (rq Y) A) s g :
  returns m (proc s) (λ _, in_use g) → returns (on_proc m) s (λ _ s', in_use g (proc s')).
Proof. intros (a & r & Hm & Hr). unfold returns, on_proc. rewrite Hm. by eexists _, _. Qed.

Lemma returns_ensures {A} (m : M (gsys Y) A) s Q : returns m s (λ _ _, True) → ensures m s Q → returns m s Q.
Proof. intros (a & s' & Hm & _) He. exists a, s'. split; [done|]. by apply He. Qed.

Lemma set_cfs_returns g p q s :
  cfs_base s → g ∈ task_groups s → (q = RUNTIME_INF ∨ q < 2147483648000) → in_use g (proc s) →
  returns (tg_set_cfs_bandwidth g p q) s (λ _ _, True).
Proof.
  intros Hb Hg Hq Hu. unfold tg_set_cfs_bandwidth, min_cfs_quota_period, max_cfs_quota_period.
  change (1 * NSEC_PER_MSEC) with 1000000.
  destruct (g =? root_task_group) eqn:Hr; bsimp; [by apply returns_ret|].
  destruct (_ || _) eqn:Hmin; [by apply returns_ret|]. destruct (1000000000 <? p) eqn:Hmax; [by apply returns_ret|]. bsimp.
  assert (cap_sane (p, q)) as Hs by (split; simpl; [lia|]; destruct Hq; [by left|right; lia]).
  apply returns_bind. eapply returns_mono.
  { apply cfs_schedulable_ok; [done|done|]. unfold cap_with. rewrite decide_False by auto. apply Hb. }
  intros ret s1 [[h ->] _]. destruct (ret =? 0); [|by apply returns_ret]. simpl.
  set (s1 := s <| hierarchal_quota := h |>). assert (in_use g (proc s1)) as Hu1 by done. clearbody s1.
  apply returns_bind. eapply returns_mono; [by apply returns_proc, in_use_load|]. cbv beta. intros t s2 Hu2.
  apply returns_bind. apply (returns_mono _ _ (λ _ s', in_use g (proc s'))).
  { unfold account_cfs_bandwidth_used. destruct (_ && _); [by eapply returns_eq; [reflexivity|]|].
    destruct (_ && _); [by eapply returns_eq; [reflexivity|]|by apply returns_ret]. }
  intros [] s3 Hu3. apply returns_bind. eapply returns_mono; [by apply returns_proc, in_use_store|]. intros [] s4 Hu4.
  apply returns_bind. eapply returns_mono; [by apply returns_proc, in_use_refill|]. intros [] s5 Hu5.
  apply returns_bind. eapply returns_mono; [by apply returns_proc, in_use_load|]. intros t6 s6 Hu6.
  apply returns_bind. apply (returns_mono _ _ (λ _ s', in_use g (proc s'))).
  { destruct (_ && _); [|by apply returns_ret]. apply returns_bind.
    eapply returns_mono; [by apply returns_proc, in_use_store|]. intros [] s7 Hu7. by apply returns_proc, in_use_start. }
  intros [] s7 [Hg7 (q7 & Hq7 & Hth)]. apply returns_bind. eapply returns_eq.
  { unfold on_proc, store_cfs, load_cfs, mbind, M_bind, gets. rewrite Hq7. reflexivity. }
  apply returns_bind. eapply returns_eq.
  { unfold on_proc, load_cfs, mbind, M_bind, gets. simpl. rewrite lookup_insert_eq. reflexivity. }
  simpl. rewrite Hth. apply returns_bind. apply returns_ret. by apply returns_ret.
Qed.

Lemma asked_read us : - 2 ^ 31 ≤ us < 2 ^ 31 →
  (if asked_runtime us =? RUNTIME_INF then -1 else s32 (asked_runtime us / NSEC_PER_USEC)) = if us <? 0 then -1 else us.
Proof.
  intros Hu. change (2 ^ 31) with 2147483648 in Hu. unfold asked_runtime, NSEC_PER_USEC.
  destruct (us <? 0) eqn:Hn; bsimp; [done|]. rewrite uwrap_small by (widths; lia).
  rewrite (proj2 (Z.eqb_neq _ RUNTIME_INF)) by (change RUNTIME_INF with 18446744073709551615; lia).
  rewrite Z.div_mul by done. apply swrap_small; widths; lia.
Qed.

(** When there is memory for a group but not for its arrays of queues, the group that
    was not set up is freed all the same, and its timers are cancelled. *)
Lemma create_without_arrays s parent g :
  kzalloc_group s = Some g → (∀ s', kzalloc_arrays s' = false) → ∃ s', sched_create_group parent s = Err Undefined s'.
Proof.
  intros Hg Ha. unfold sched_create_group, mbind, M_bind, get. rewrite Hg. unfold modify, alloc_fair_sched_group, mbind, M_bind, get.
  rewrite Ha. simpl. unfold mret at 1, M_ret at 1. unfold free_sched_group, free_fair_sched_group, mbind at 1, M_bind at 1.
  unfold mbind at 1, M_bind at 1. unfold mbind at 1, M_bind at 1.
  erewrite on_load_group by (simpl; apply lookup_insert_eq). eauto.
Qed.

(** ** True shares

    The code keeps a share in 32 bits; below 4096 periods that is the share itself. *)

(** The share of the processor a limit (period, quota) stands for, in units of 2^-20. *)
Definition rate (pq : Z * Z) : option Z :=
  if pq.2 =? RUNTIME_INF then None else Some (pq.2 / 1000 * 2 ^ 20 / (pq.1 / 1000)).

Definition moderate (pq : Z * Z) : Prop := pq.2 = RUNTIME_INF ∨ pq.2 / 1000 < 4096 * (pq.1 / 1000).

Lemma moderate_share pq : cap_sane pq → moderate pq → share pq = rate pq.
Proof.
  intros [Hp Hq] Hm. unfold share, rate. destruct (pq.2 =? RUNTIME_INF) eqn:Hi; [done|]. bsimp.
  destruct Hm as [|Hm]; [done|]. destruct Hq as [|Hq]; [done|]. f_equal. apply uwrap_small. widths. change (2 ^ 20) with 1048576.
  assert (1000 ≤ pq.1 / 1000) by (apply Z.div_le_lower_bound; lia). assert (0 ≤ pq.2 / 1000) by (apply Z.div_pos; lia).
  split; [apply Z.div_pos; lia|apply Z.div_lt_upper_bound; lia].
Qed.

(** No group has a larger share than one above it. *)
Definition rates_nested s (cap : Z → Z * Z) : Prop :=
  nested (tree_of (proc s)) (task_groups s) (λ g, rate (cap g)).

Lemma moderate_nested s cap :
  (∀ x, x ∈ task_groups s → cap_sane (cap x) ∧ moderate (cap x)) → shares_nested s cap ↔ rates_nested s cap.
Proof.
  intros Hm. assert (∀ x, x ∈ task_groups s → share (cap x) = rate (cap x)) as Heq
    by (intros x Hx; by apply moderate_share; apply Hm).
  unfold shares_nested, rates_nested, nested. split; intros Hn g a n m Hg Ha Ht Hgn Ham; eapply (Hn g a); eauto;
    rewrite ?Heq by done; try done; rewrite <- Heq; done.
Qed.

(** ** The theorems *)

(** C24. Over any run of operations on groups (groups are made, removed and freed,
    real-time run times and periods, the global setting and the quotas and periods of
    the fair class are set, successfully or not), interleaved with any code that leaves
    the limits alone, the groups form a tree, no group has real-time run time for more
    than its period or more than the global setting, the children of a group have
    together at most what it has, and no group's share of the fair class (quota divided by
    period) is larger than that of a group above it, where both quotas are less than 4096
    periods (from there on the code compares the shares modulo 2^32).  Groups are made
    while there are fewer than 4095. *)
Theorem group_limits_invariant s s' :
  groups_inv s → rtc group_step s s' →
  tree_ok (tree_of (proc s')) (task_groups s') ∧
  (∀ g, g ∈ task_groups s' → rt_fits s' (limit_of s') g) ∧
  ∀ g a n m, g ∈ task_groups s' → a ∈ task_groups s' → tc (child_of (tree_of (proc s'))) a g →
    moderate (cap_of s' g) → moderate (cap_of s' a) → rate (cap_of s' g) = Some n → rate (cap_of s' a) = Some m → n ≤ m.
Proof.
  intros Hi Hr. destruct (groups_inv_reachable s s' Hi Hr) as [[Hb _ Hf _] [Hcb Hn]].
  split_and!; [apply Hb|exact Hf|]. intros g a n m Hg Ha Ht Hmg Hma Hng Hma'.
  apply (Hn g a); try done; rewrite moderate_share; try done; by apply (cb_caps s' Hcb).
Qed.

(** [sched_group_set_rt_runtime] returns; it sets the run time exactly if every
    group still fits with it, and then changes nothing else and the run time reads back
    as it was written (-1 for no limit); otherwise the state is as before and the error
    is [EBUSY], when a group with real-time tasks would get nothing, or [EINVAL]. *)
Theorem set_rt_runtime_exact s g us :
  rt_inv s → g ∈ task_groups s → - 2 ^ 31 ≤ us < 2 ^ 31 →
  returns (sched_group_set_rt_runtime g us) s (λ ret s',
    rt_set s g ((limit_of s g).1, asked_runtime us) ret s' ∧
    (ret = 0 → sched_group_rt_runtime g s' = Ok (if us <? 0 then -1 else us) s')).
Proof.
  intros Hi Hg Hu. eapply returns_mono; [by apply set_rt_runtime_ok|]. intros ret s' Hset. split; [done|]. intros ->.
  destruct Hset as (_ & Hi' & Hl & b & Hs'). assert (g ∈ task_groups s') as Hg' by (by rewrite Hs').
  destruct (rb_limits s' (ri_base s' Hi') g Hg') as [[b' Hb'] _]. unfold limit_of in Hl at 1. rewrite Hb' in Hl.
  simpl in Hl. injection Hl as _ Hrun. unfold sched_group_rt_runtime, load_rt, mbind, M_bind, get. rewrite Hb'. simpl.
  rewrite <- asked_read, Hrun by done. by destruct (_ =? _).
Qed.

(** A write to the global real-time setting returns; it is accepted exactly if
    the period is positive, the run time at most the period and every group fits, and
    then the default for new groups follows it; otherwise the old values are restored. *)
Theorem sched_rt_handler_exact s per run :
  rt_inv s → 0 ≤ per < 2 ^ 32 → - 2 ^ 31 ≤ run < 2 ^ 31 →
  returns (sched_rt_handler true 0 per run) s (λ ret s',
    let s1 := s <| sysctl_sched_rt_period := per |> <| sysctl_sched_rt_runtime := run |> in
    let good := 0 < per ∧ feasible (global_limit s1) ∧ ∀ x, x ∈ task_groups s → rt_fits s1 (limit_of s) x in
    if ret =? 0 then good ∧ rt_inv s' ∧ s' = s1 <| def_rt_bandwidth := global_limit s1 |>
    else s' = s ∧ (ret = - EBUSY ∧ (∃ x, x ∈ task_groups s ∧ starves s1 (mkRtData None 0 0) x) ∨
                   ret = - EINVAL ∧ ¬ good)).
Proof. intros Hi Hp Hr. exact (sched_rt_handler_ok s per run Hi Hp Hr). Qed.

(** What [tg_set_cfs_quota] does, with the shares as the code compares them. *)
Lemma set_cfs_quota_ok s g us :
  cfs_inv s → g ∈ task_groups s → - 2 ^ 31 ≤ us < 2 ^ 31 → in_use g (proc s) →
  returns (tg_set_cfs_quota g us) s (λ ret s',
    let pq := ((cap_of s g).1, asked_runtime us) in
    let good := g ≠ root_task_group ∧ cap_sane pq ∧ shares_nested s (cap_with g pq s) in
    if ret =? 0 then
      good ∧ cfs_inv s' ∧ (∀ x, cap_of s' x = cap_with g pq s x) ∧
      tg_get_cfs_quota g s' = Ok (if us <? 0 then -1 else us) s'
    else ret = - EINVAL ∧ ¬ good ∧ ∀ x, cap_of s' x = cap_of s x).
Proof.
  intros Hi Hg Hu Huse. pose proof (ci_base s Hi) as Hb. destruct (cfs_group s g Hb Hg) as (t & Hgt & Hcap & _).
  unfold tg_set_cfs_quota. apply returns_bind. eapply returns_eq; [by apply on_load_group|]. fold (asked_runtime us).
  rewrite Hcap. cbn [fst]. pose proof (us_bound us Hu) as Hq. eapply returns_mono.
  { apply returns_ensures; [by apply set_cfs_returns|by apply set_cfs_core]. }
  intros ret s'. cbv beta zeta. destruct (ret =? 0).
  - intros (Hne & Hs & Hn & par & ks & Hgv & Hc). pose proof (cfs_inv_set _ _ _ _ _ _ _ _ _ _ Hi Hne Hs Hn Hgv Hc) as Hi'.
    injection Hc as Hl _ Hgs _ _.
    assert (∀ x, cap_of s' x = cap_with g (period (bandwidth t), asked_runtime us) s x) as Hcx.
    { intros x. unfold cap_of, cap_with. rewrite Hl. case_decide as Hx; [subst x; by rewrite lookup_insert_eq|].
      by rewrite lookup_insert_ne by auto. }
    split_and!; [done|done|done|done|done|].
    destruct (cfs_group s' g (ci_base s' Hi')) as (t' & Hgt' & Hcap' & _); [by rewrite Hgs|].
    rewrite Hcx in Hcap'. unfold cap_with in Hcap'. rewrite decide_True in Hcap' by done. injection Hcap' as _ Hq'.
    unfold tg_get_cfs_quota, mbind, M_bind. rewrite (on_load_group s' g t' Hgt'), <- Hq', <- asked_read by done.
    by destruct (_ =? _).
  - intros (-> & Hc & Hbad). split_and!; [done|done|]. injection Hc as Hl _ _ _ _. intros x. unfold cap_of. by rewrite Hl.
Qed.

(** C25. [tg_set_cfs_quota] on a group whose queue is in use and not throttled, where every
    quota (the new one included) is less than 4096 periods, returns.  It sets the quota
    exactly if the group is not the root, the quota is at least one millisecond and no
    group has a larger share (quota divided by period) than one above it then; the quota
    reads back as it was written, no other group's limit changes and the invariant holds.
    Otherwise it answers [EINVAL] and no limit changes.  (The code keeps shares in 32 bits:
    at 4096 periods they wrap around.) *)
Theorem set_cfs_quota_exact s g us :
  cfs_inv s → g ∈ task_groups s → - 2 ^ 31 ≤ us < 2 ^ 31 → in_use g (proc s) →
  let pq := ((cap_of s g).1, asked_runtime us) in
  (∀ x, x ∈ task_groups s → moderate (cap_with g pq s x)) →
  returns (tg_set_cfs_quota g us) s (λ ret s',
    let good := g ≠ root_task_group ∧ cap_sane pq ∧ rates_nested s (cap_with g pq s) in
    if ret =? 0 then
      good ∧ cfs_inv s' ∧ (∀ x, cap_of s' x = cap_with g pq s x) ∧
      tg_get_cfs_quota g s' = Ok (if us <? 0 then -1 else us) s'
    else ret = - EINVAL ∧ ¬ good ∧ ∀ x, cap_of s' x = cap_of s x).
Proof.
  intros Hi Hg Hu Huse pq Hm. eapply returns_mono; [by apply set_cfs_quota_ok|]. intros ret s'. cbv beta zeta. fold pq.
  assert (cap_sane pq → shares_nested s (cap_with g pq s) ↔ rates_nested s (cap_with g pq s)) as Hiff.
  { intros Hs. apply moderate_nested. intros x Hx. split; [|by apply Hm]. unfold cap_with. case_decide; [done|].
    by apply (cb_caps s (ci_base s Hi)). }
  destruct (ret =? 0).
  - intros ((? & Hs & ?) & ?). split; [|done]. split_and!; [done|done|by apply Hiff].
  - intros (-> & Hbad & ?). split_and!; [done| |done]. intros (? & Hs & ?). apply Hbad. split_and!; [done|done|by apply Hiff].
Qed.
End Theorems.
