(* ===== verification/LoadAvg.v ===== *)
(** * Load averages: [core.c]

    The average number of active tasks over 1, 5 and 15 minutes: every processor
    folds the change of its count into a global one, which [calc_global_load]
    averages with fixed-point weights.  A processor that goes idle without ticks
    folds into a second counter, and [calc_global_nohz] catches up on missed
    periods with a power of the weight.  [update_cpu_load] keeps five averages of
    the load weight of each processor, over different spans, and ages them over
    missed ticks with a table. *)

From S2P Require Import Prelude.

Definition FSHIFT : Z := 11.
Definition FIXED_1 : Z := Z.shiftl 1 FSHIFT.
Definition EXP_1 : Z := 1884.
Definition EXP_5 : Z := 2014.
Definition EXP_15 : Z := 2037.
Definition CPU_LOAD_IDX_MAX : Z := 5.
Definition DEGRADE_SHIFT : Z := 7.
Definition NSEC_PER_MSEC : Z := 1000000.

(** The frequency of ticks is a choice of the configuration. *)
Class LoadConfig : Type := { HZ : Z }.

(** The fields of a run queue that the averages use. *)
Record load_rq : Type := mkLoadRq {
  nr_running : Z;
  nr_uninterruptible : Z;
  load_weight_of : Z;                           (** [load.weight] *)
  calc_load_active : Z;
  rq_calc_load_update : Z;
  cpu_load : list Z;
  last_load_update_tick : Z;
  nr_load_updates : Z;
  nr_switches : Z;
  nr_iowait : Z;
  rq_clock : Z;
  age_stamp : Z;
  rt_avg : Z
}.
#[export] Instance load_rq_eta : Settable load_rq := λ r,
  mkLoadRq (nr_running r) (nr_uninterruptible r) (load_weight_of r) (calc_load_active r)
    (rq_calc_load_update r) (cpu_load r) (last_load_update_tick r) (nr_load_updates r)
    (nr_switches r) (nr_iowait r) (rq_clock r) (age_stamp r) (rt_avg r).

(** The run queues of the possible processors and the global variables. *)
Record load_state : Type := mkLoadState {
  cpus : gmap Z load_rq;
  cpu_online : gset Z;
  calc_load_tasks : Z;
  calc_load_tasks_idle : Z;
  calc_load_update : Z;
  avenrun : Z * Z * Z;
  jiffies : Z;
  sysctl_sched_time_avg : Z
}.
#[export] Instance load_state_eta : Settable load_state := λ s,
  mkLoadState (cpus s) (cpu_online s) (calc_load_tasks s) (calc_load_tasks_idle s)
    (calc_load_update s) (avenrun s) (jiffies s) (sysctl_sched_time_avg s).

Section Code.
Context `{LoadConfig}.
Abbreviation R := (M load_state).

Definition LOAD_FREQ : Z := 5 * HZ + 1.

Definition time_before (a b : Z) : bool := s32 (a - b) <? 0.

Definition load_cpu (c : Z) : R load_rq :=
  s ← get;
  deref (cpus s !! c).

Definition store_cpu (c : Z) (f : load_rq → load_rq) : R unit :=
  q ← load_cpu c;
  modify (λ s, s <| cpus ::= <[c := f q]> |>).

(** ** Counters over the processors *)

Definition sum_cpus (f : load_rq → Z) (s : load_state) : Z := map_fold (λ _ q acc, f q + acc) 0 (cpus s).

Definition nr_running_all (s : load_state) : Z :=
  u32 (map_fold (λ c q acc, (if decide (c ∈ cpu_online s) then nr_running q else 0) + acc) 0 (cpus s)).

Definition nr_uninterruptible_all (s : load_state) : Z :=
  let sum := u32 (sum_cpus nr_uninterruptible s) in
  if s32 sum <? 0 then 0 else sum.

Definition nr_context_switches (s : load_state) : Z := u64 (sum_cpus nr_switches s).

Definition nr_iowait_all (s : load_state) : Z := u32 (sum_cpus nr_iowait s).

Definition nr_iowait_cpu (c : Z) : R Z := q ← load_cpu c; mret (nr_iowait q).

Definition this_cpu_load (c : Z) : R Z := q ← load_cpu c; deref (cpu_load q !! 0%nat).

(** ** The global load average *)

Definition calc_load_fold_active (c : Z) : R Z :=
  q ← load_cpu c;
  let nr_active := s32 (nr_running q + s32 (nr_uninterruptible q)) in
  if negb (nr_active =? calc_load_active q) then
    let delta := s32 (nr_active - calc_load_active q) in
    _ ← store_cpu c (λ q, q <| calc_load_active := nr_active |>);
    mret delta
  else mret 0.

Definition calc_load (load exp active : Z) : Z :=
  let load := u32 (load * exp) in
  let load := u32 (load + u32 (active * u32 (FIXED_1 - exp))) in
  let load := u32 (load + Z.shiftl 1 (FSHIFT - 1)) in
  Z.shiftr load FSHIFT.

Definition calc_load_account_idle (c : Z) : R unit :=
  delta ← calc_load_fold_active c;
  if negb (delta =? 0)
  then modify (λ s, s <| calc_load_tasks_idle := s32 (calc_load_tasks_idle s + delta) |>)
  else mret tt.

Definition calc_load_fold_idle : R Z :=
  idle ← gets calc_load_tasks_idle;
  if negb (idle =? 0)
  then _ ← modify (λ s, s <| calc_load_tasks_idle := 0 |>); mret idle
  else mret 0.

(** The loop of [fixed_power_int] from [n ≠ 0], whose bits are those of [n]. *)
Fixpoint power_loop (n : positive) (x frac_bits result : Z) : Z :=
  let mult a b := Z.shiftr (u32 (u32 (a * b) + Z.shiftl 1 (frac_bits - 1))) frac_bits in
  match n with
  | xH => mult result x
  | xO n' => power_loop n' (mult x x) frac_bits result
  | xI n' => power_loop n' (mult x x) frac_bits (mult result x)
  end.

Definition fixed_power_int (x frac_bits n : Z) : Z :=
  let result := Z.shiftl 1 frac_bits in
  match n with
  | Zpos p => power_loop p x frac_bits result
  | _ => result
  end.

Definition calc_load_n (load exp active n : Z) : Z :=
  calc_load load (fixed_power_int exp FSHIFT n) active.

(** The count of active tasks as a fixed-point number. *)
Definition active_fixed (tasks : Z) : Z := if 0 <? tasks then s32 (tasks * FIXED_1) else 0.

Definition calc_global_nohz : R unit :=
  delta ← calc_load_fold_idle;
  _ ← (if negb (delta =? 0)
       then modify (λ s, s <| calc_load_tasks := s32 (calc_load_tasks s + delta) |>) else mret tt);
  s ← get;
  if time_before (jiffies s) (u32 (calc_load_update s + 10)) then mret tt
  else
    let delta := s32 (jiffies s - calc_load_update s - 10) in
    let n := s32 (1 + Z.quot delta LOAD_FREQ) in
    let active := u32 (active_fixed (calc_load_tasks s)) in
    let '(a1, a5, a15) := avenrun s in
    _ ← modify (λ s, s <| avenrun := (calc_load_n a1 EXP_1 active (u32 n),
                                      calc_load_n a5 EXP_5 active (u32 n),
                                      calc_load_n a15 EXP_15 active (u32 n)) |>);
    modify (λ s, s <| calc_load_update := u32 (calc_load_update s + n * LOAD_FREQ) |>).

Definition get_avenrun (offset shift : Z) (s : load_state) : Z * Z * Z :=
  let f a := u32 (Z.shiftl (u32 (a + offset)) shift) in
  let '(a1, a5, a15) := avenrun s in
  (f a1, f a5, f a15).

Definition calc_global_load (ticks : Z) : R unit :=
  s ← get;
  if time_before (jiffies s) (u32 (calc_load_update s + 10)) then mret tt
  else
    let active := u32 (active_fixed (calc_load_tasks s)) in
    let '(a1, a5, a15) := avenrun s in
    _ ← modify (λ s, s <| avenrun := (calc_load a1 EXP_1 active, calc_load a5 EXP_5 active,
                                      calc_load a15 EXP_15 active) |>);
    _ ← modify (λ s, s <| calc_load_update := u32 (calc_load_update s + LOAD_FREQ) |>);
    calc_global_nohz.

Definition calc_load_account_active (c : Z) : R unit :=
  s ← get;
  q ← load_cpu c;
  if time_before (jiffies s) (rq_calc_load_update q) then mret tt
  else
    d ← calc_load_fold_active c;
    i ← calc_load_fold_idle;
    let delta := s32 (d + i) in
    _ ← (if negb (delta =? 0)
         then modify (λ s, s <| calc_load_tasks := s32 (calc_load_tasks s + delta) |>) else mret tt);
    store_cpu c (λ q, q <| rq_calc_load_update := u32 (rq_calc_load_update q + LOAD_FREQ) |>).

(** ** The load of one processor *)

Definition degrade_zero_ticks : list Z := [0; 8; 32; 64; 128].

(** The rows of the source have seven entries, the eighth is zero. *)
Definition degrade_factor : list (list Z) :=
  [[0; 0; 0; 0; 0; 0; 0; 0];
   [64; 32; 8; 0; 0; 0; 0; 0];
   [96; 72; 40; 12; 1; 0; 0; 0];
   [112; 98; 75; 43; 15; 1; 0; 0];
   [120; 112; 98; 76; 45; 16; 2; 0]].

(** The loop of [decay_load_missed] over the bits of [missed_updates], with the row
    of the table from column [j] on; a read past the end of the row is undefined. *)
Fixpoint decay_loop (missed : positive) (row : list Z) (load : Z) : option Z :=
  let scale f := Z.shiftr (u32 (load * f)) DEGRADE_SHIFT in
  match missed, row with
  | xH, f :: _ => Some (scale f)
  | xI m', f :: row' => decay_loop m' row' (scale f)
  | xO m', _ :: row' => decay_loop m' row' load
  | xO m', [] => decay_loop m' [] load
  | _, [] => None
  end.

Definition decay_load_missed (load missed_updates idx : Z) : R Z :=
  if missed_updates =? 0 then mret load
  else
    zero ← deref (degrade_zero_ticks !! Z.to_nat idx);
    if zero <=? missed_updates then mret 0
    else if idx =? 1 then mret (Z.shiftr load missed_updates)
    else
      row ← deref (degrade_factor !! Z.to_nat idx);
      match missed_updates with
      | Zpos m => deref (decay_loop m row load)
      | _ => mret load
      end.

Definition sched_avg_period : R Z :=
  t ← gets sysctl_sched_time_avg;
  mret (u64 (t * NSEC_PER_MSEC) / 2).

Fixpoint avg_loop (fuel : nat) (period : Z) (q : load_rq) : option load_rq :=
  if period <? s64 (rq_clock q - age_stamp q) then
    match fuel with
    | O => None
    | S fuel' =>
        avg_loop fuel' period (q <| age_stamp := u64 (age_stamp q + period) |> <| rt_avg := rt_avg q / 2 |>)
    end
  else Some q.

(** As many passes as periods have gone by. *)
Definition avg_fuel (period : Z) (q : load_rq) : nat := Z.to_nat (s64 (rq_clock q - age_stamp q) / period).

Definition sched_avg_update (c : Z) : R unit :=
  period ← sched_avg_period;
  q ← load_cpu c;
  match avg_loop (avg_fuel (s64 period) q) (s64 period) q with
  | Some q' => store_cpu c (λ _, q')
  | None => fail OutOfFuel
  end.

Definition sched_rt_avg_update (c rt_delta : Z) : R unit :=
  _ ← store_cpu c (λ q, q <| rt_avg := u64 (rt_avg q + rt_delta) |>);
  sched_avg_update c.

(** The average over [2 ^ i] ticks after one more tick at [this_load]. *)
Definition blend (old_load this_load i : Z) : Z :=
  let scale := Z.shiftl 1 i in
  let new_load := if old_load <? this_load then u32 (this_load + (scale - 1)) else this_load in
  Z.shiftr (u32 (u32 (old_load * (scale - 1)) + new_load)) i.

Definition update_cpu_load (c : Z) : R unit :=
  q ← load_cpu c;
  let this_load := load_weight_of q in
  s ← get;
  let curr_jiffies := jiffies s in
  _ ← store_cpu c (λ q, q <| nr_load_updates := u32 (nr_load_updates q + 1) |>);
  if curr_jiffies =? last_load_update_tick q then mret tt
  else
    let pending_updates := u32 (curr_jiffies - last_load_update_tick q) in
    _ ← store_cpu c (λ q, q <| last_load_update_tick := curr_jiffies |>
                            <| cpu_load ::= <[0%nat := this_load]> |>);
    _ ← for_each (seqZ 1 (CPU_LOAD_IDX_MAX - 1)) (λ i,
          q ← load_cpu c;
          old ← deref (cpu_load q !! Z.to_nat i);
          old ← decay_load_missed old (u32 (pending_updates - 1)) i;
          store_cpu c (λ q, q <| cpu_load ::= <[Z.to_nat i := blend old this_load i]> |>));
    sched_avg_update c.

Definition update_cpu_load_active (c : Z) : R unit :=
  _ ← update_cpu_load c;
  calc_load_account_active c.
End Code.
