(* ===== verification/LoadSpec.v ===== *)
(** * The load averages are right

    The folded counters add up to the active tasks of all processors, the averages
    stay between their old value and the current load, the fixed-point power and
    the table of decay factors are accurate, and the load of a processor settles
    on a constant load. *)

From S2P Require Import Prelude LoadAvg.

(** ** Arithmetic *)

Lemma swrap_shift w z : 0 < w → ∃ k, swrap w z = z + k * 2 ^ w.
Proof.
  intros Hw. unfold swrap. pose proof (pow2_pos w Hw). exists (- ((z + 2 ^ (w - 1)) / 2 ^ w)).
  pose proof (Z.div_mod (z + 2 ^ (w - 1)) (2 ^ w)). lia.
Qed.

Lemma swrap_cong w a b k : 0 < w → a = b + k * 2 ^ w → swrap w a = swrap w b.
Proof.
  intros Hw ->. unfold swrap. f_equal.
  replace (b + k * 2 ^ w + 2 ^ (w - 1)) with (b + 2 ^ (w - 1) + k * 2 ^ w) by lia. apply Z_mod_plus_full.
Qed.

(** Division rounded to the nearest. *)
Lemma shift_round n f : 1 ≤ f → Z.shiftr (n + Z.shiftl 1 (f - 1)) f = (n + 2 ^ (f - 1)) / 2 ^ f.
Proof. intros. rewrite Z.shiftr_div_pow2, Z.shiftl_mul_pow2 by lia. f_equal. lia. Qed.

Lemma round_error n f : 1 ≤ f →
  let m := (n + 2 ^ (f - 1)) / 2 ^ f in 2 * Z.abs (m * 2 ^ f - n) ≤ 2 ^ f.
Proof.
  intros Hf m. pose proof (pow2_half f ltac:(lia)). pose proof (pow2_pos f ltac:(lia)).
  pose proof (Z.div_mod (n + 2 ^ (f - 1)) (2 ^ f)). pose proof (Z.mod_pos_bound (n + 2 ^ (f - 1)) (2 ^ f)).
  subst m. lia.
Qed.

Lemma pow_even x n : x ^ Zpos (xO n) = (x * x) ^ Zpos n.
Proof.
  replace (Zpos (xO n)) with (Zpos n + Zpos n) by lia.
  by rewrite Z.pow_add_r, Z.pow_mul_l by lia.
Qed.

Lemma pow_odd x n : x ^ Zpos (xI n) = x * (x * x) ^ Zpos n.
Proof.
  replace (Zpos (xI n)) with (Z.succ (Zpos (xO n))) by lia.
  by rewrite Z.pow_succ_r, pow_even by lia.
Qed.

(** ** The exponentially weighted average *)

Lemma calc_load_eq load exp active :
  0 ≤ exp ≤ FIXED_1 → 0 ≤ load < 2 ^ 21 → 0 ≤ active < 2 ^ 21 →
  calc_load load exp active = (load * exp + active * (FIXED_1 - exp) + 1024) / 2048.
Proof.
  change FIXED_1 with 2048. change (2 ^ 21) with 2097152. intros He Hl Ha.
  assert (0 ≤ load * exp ∧ 0 ≤ active * (2048 - exp) ∧
          load * exp + active * (2048 - exp) + 1024 < 4294967296) as (? & ? & ?) by (split_and!; nia).
  unfold calc_load. change FIXED_1 with 2048. change (Z.shiftl 1 (FSHIFT - 1)) with 1024.
  rewrite (uwrap_small 32 (2048 - exp)) by (widths; lia).
  rewrite (uwrap_small 32 (load * exp)), (uwrap_small 32 (active * _)) by (widths; lia).
  rewrite (uwrap_small 32 (load * exp + _)) by (widths; lia).
  rewrite (uwrap_small 32) by (widths; lia). rewrite Z.shiftr_div_pow2 by done. done.
Qed.

Lemma calc_load_between load exp active :
  0 ≤ exp ≤ FIXED_1 → 0 ≤ load < 2 ^ 21 → 0 ≤ active < 2 ^ 21 →
  Z.min load active ≤ calc_load load exp active ≤ Z.max load active.
Proof.
  intros He Hl Ha. rewrite calc_load_eq by done. change FIXED_1 with 2048 in *. split.
  - apply Z.div_le_lower_bound; [done|]. nia.
  - apply Z.lt_succ_r, Z.div_lt_upper_bound; [done|]. nia.
Qed.

(** ** The fixed-point power *)

(** [a] is [x ^ n] in fixed point, with an error of at most half a unit per
    multiplication. *)
Definition is_power (f x a n : Z) : Prop :=
  0 < n ∧ 0 ≤ a ≤ 2 ^ f ∧ 2 * Z.abs (a * (2 ^ f) ^ (n - 1) - x ^ n) ≤ (n - 1) * (2 ^ f) ^ (n - 1).

Definition fmult (f a b : Z) : Z := Z.shiftr (u32 (u32 (a * b) + Z.shiftl 1 (f - 1))) f.

Lemma fmult_eq f a b :
  1 ≤ f ≤ 15 → 0 ≤ a ≤ 2 ^ f → 0 ≤ b ≤ 2 ^ f → fmult f a b = (a * b + 2 ^ (f - 1)) / 2 ^ f.
Proof.
  intros Hf Ha Hb. assert (2 ^ f ≤ 2 ^ 15) as Hm by (apply Z.pow_le_mono_r; lia).
  pose proof (pow2_half f ltac:(lia)). pose proof (pow2_pos (f - 1)) as Hp. change (2 ^ 15) with 32768 in Hm.
  assert (0 ≤ a * b ≤ 32768 * 32768) by nia. assert (0 ≤ 2 ^ (f - 1)) by (apply Z.pow_nonneg; lia).
  unfold fmult. rewrite Z.shiftl_mul_pow2, Z.shiftr_div_pow2, Z.mul_1_l by lia.
  rewrite (uwrap_small 32 (a * b)) by (widths; lia). by rewrite (uwrap_small 32) by (widths; lia).
Qed.

Lemma fmult_range f a b :
  1 ≤ f ≤ 15 → 0 ≤ a ≤ 2 ^ f → 0 ≤ b ≤ 2 ^ f → 0 ≤ fmult f a b ≤ 2 ^ f.
Proof.
  intros Hf Ha Hb. rewrite fmult_eq by done. pose proof (pow2_half f ltac:(lia)).
  pose proof (pow2_pos f ltac:(lia)). assert (0 ≤ 2 ^ (f - 1)) by (apply Z.pow_nonneg; lia). split.
  - apply Z.div_pos; nia.
  - apply Z.lt_succ_r, Z.div_lt_upper_bound; nia.
Qed.

Lemma abs_scale c d u v : 0 ≤ c ≤ d → 2 * Z.abs u ≤ v → 2 * Z.abs (c * u) ≤ d * v.
Proof. intros Hc Hu. rewrite Z.abs_mul, (Z.abs_eq c) by lia. pose proof (Z.abs_nonneg u). nia. Qed.

(** The error of a product, from the errors of the factors and of the rounding. *)
Lemma error_product F A B X Y a b m j k :
  0 < F → 0 ≤ A → 0 ≤ B → 0 ≤ a ≤ F → 0 ≤ Y ≤ F * B → 0 ≤ j → 0 ≤ k →
  2 * Z.abs (m * F - a * b) ≤ F →
  2 * Z.abs (a * A - X) ≤ j * A → 2 * Z.abs (b * B - Y) ≤ k * B →
  2 * Z.abs (m * (A * B * F) - X * Y) ≤ (j + k + 1) * (A * B * F).
Proof.
  intros HF HA HB Ha HY Hj Hk Hm HX Hb.
  replace (m * (A * B * F) - X * Y)
    with (A * B * (m * F - a * b) + (a * A * (b * B - Y) + Y * (a * A - X))) by ring.
  pose proof (abs_scale (A * B) (A * B) _ _ ltac:(nia) Hm).
  pose proof (abs_scale (a * A) (F * A) _ _ ltac:(nia) Hb).
  pose proof (abs_scale Y (F * B) _ _ ltac:(nia) HX).
  pose proof (Z.abs_triangle (A * B * (m * F - a * b)) (a * A * (b * B - Y) + Y * (a * A - X))).
  pose proof (Z.abs_triangle (a * A * (b * B - Y)) (Y * (a * A - X))).
  replace ((j + k + 1) * (A * B * F)) with (A * B * F + F * A * (k * B) + F * B * (j * A)) by ring. lia.
Qed.

Lemma power_of_mult f x a b j k :
  1 ≤ f ≤ 15 → 0 ≤ x ≤ 2 ^ f → is_power f x a j → is_power f x b k → is_power f x (fmult f a b) (j + k).
Proof.
  intros Hf Hx (Hj & Ha & Hea) (Hk & Hb & Heb). split; [lia|]. split; [by apply fmult_range|].
  pose proof (pow2_pos f ltac:(lia)). set (F := 2 ^ f) in *.
  replace ((j + k) - 1) with ((j - 1) + (k - 1) + 1) by lia.
  rewrite !Z.pow_add_r, Z.pow_1_r by lia. replace (j - 1 + (k - 1) + 1) with ((j - 1) + (k - 1) + 1) by lia.
  apply (error_product F (F ^ (j - 1)) (F ^ (k - 1)) (x ^ j) (x ^ k) a b); try done; try lia;
    try (apply Z.pow_nonneg; lia).
  - split; [apply Z.pow_nonneg; lia|]. rewrite <- Z.pow_succ_r by lia.
    replace (Z.succ (k - 1)) with k by lia. apply Z.pow_le_mono_l. lia.
  - rewrite fmult_eq by done. apply round_error. lia.
Qed.

Lemma fmult_one f b : 1 ≤ f ≤ 15 → 0 ≤ b ≤ 2 ^ f → fmult f (2 ^ f) b = b.
Proof.
  intros Hf Hb. pose proof (pow2_half f ltac:(lia)). pose proof (pow2_pos f ltac:(lia)).
  assert (0 < 2 ^ (f - 1)) by (apply Z.pow_pos_nonneg; lia).
  rewrite fmult_eq by lia. rewrite Z.mul_comm, Z.div_add_l, Z.div_small by lia. lia.
Qed.

(** The loop multiplies [result] by the power of [x] that is left. *)
Lemma power_loop_ok f x n xk k r j :
  1 ≤ f ≤ 15 → 0 ≤ x ≤ 2 ^ f → is_power f x xk k → (j = 0 ∧ r = 2 ^ f ∨ is_power f x r j) →
  is_power f x (power_loop n xk f r) (j + k * Zpos n).
Proof.
  intros Hf Hx. revert xk k r j.
  assert (∀ xk k r j, is_power f x xk k → (j = 0 ∧ r = 2 ^ f ∨ is_power f x r j) →
    is_power f x (fmult f r xk) (j + k)) as Hmul.
  { intros xk k r j Hk [[-> ->]|Hr]; [|by apply power_of_mult]. rewrite fmult_one by (lia || apply Hk). done. }
  induction n as [n IH|n IH|]; intros xk k r j Hk Hr; cbn [power_loop];
    fold (fmult f xk xk); fold (fmult f r xk).
  - replace (j + k * Zpos (xI n)) with ((j + k) + (k + k) * Zpos n) by lia.
    apply IH; [by apply power_of_mult|right; by apply Hmul].
  - replace (j + k * Zpos (xO n)) with (j + (k + k) * Zpos n) by lia. apply IH; [by apply power_of_mult|done].
  - replace (j + k * 1) with (j + k) by lia. by apply Hmul.
Qed.

(** [fixed_power_int] is accurate: for a base of at most one in fixed point
    with up to 15 fractional bits, the result is at most one and differs from the
    exact power by at most half a unit of the last place per multiplication of the
    naive method, although it takes only logarithmically many rounded
    multiplications in 32 bits. *)
Theorem fixed_power_int_accurate x f n :
  1 ≤ f ≤ 15 → 0 ≤ x ≤ 2 ^ f → 0 < n →
  0 ≤ fixed_power_int x f n ≤ 2 ^ f ∧
  2 * Z.abs (fixed_power_int x f n * (2 ^ f) ^ (n - 1) - x ^ n) ≤ (n - 1) * (2 ^ f) ^ (n - 1).
Proof.
  intros Hf Hx Hn. destruct n as [|n|]; [done| |done]. unfold fixed_power_int.
  destruct (power_loop_ok f x n x 1 (Z.shiftl 1 f) 0) as (_ & Hr & He); try done.
  - split_and!; [lia|lia|lia|]. rewrite Z.pow_1_r, Z.sub_diag, Z.pow_0_r. lia.
  - left. split; [done|]. rewrite Z.shiftl_mul_pow2; lia.
Qed.

Lemma fixed_power_int_range x f n :
  1 ≤ f ≤ 15 → 0 ≤ x ≤ 2 ^ f → 0 ≤ fixed_power_int x f n ≤ 2 ^ f.
Proof.
  intros Hf Hx. pose proof (pow2_pos f ltac:(lia)).
  assert (Z.shiftl 1 f = 2 ^ f) as Hs by (rewrite Z.shiftl_mul_pow2; lia).
  destruct n as [|n|]; unfold fixed_power_int; rewrite ?Hs; [lia| |lia].
  destruct (power_loop_ok f x n x 1 (2 ^ f) 0) as (_ & Hr & _); auto.
  split_and!; [lia|lia|lia|]. rewrite Z.pow_1_r, Z.sub_diag, Z.pow_0_r. lia.
Qed.

(** ** The decay table *)

(** The factor of [2 ^ j] ticks at index [idx], on the 128 point scale. *)
Definition exact_factor (idx j : Z) : Z := 2 ^ DEGRADE_SHIFT * (2 ^ idx - 1) ^ (2 ^ j) / (2 ^ idx) ^ (2 ^ j).

Lemma degrade_factor_exact :
  (λ idx, (exact_factor idx) <$> seqZ 0 DEGRADE_SHIFT) <$> seqZ 1 4 = take 7 <$> tail degrade_factor.
Proof. by vm_compute. Qed.

(** A row of factors for the base [P / Q] and its squares. *)
Fixpoint row_ok (P Q : Z) (row : list Z) : Prop :=
  match row with
  | [] => True
  | f :: row' => 0 ≤ f ∧ f * Q ≤ 128 * P ≤ (f + 1) * Q ∧ row_ok (P * P) (Q * Q) row'
  end.

Lemma row_ok_table idx : 1 ≤ idx ≤ 4 →
  ∃ row, degrade_factor !! Z.to_nat idx = Some row ∧ length row = 8%nat ∧ row_ok (2 ^ idx - 1) (2 ^ idx) row.
Proof.
  intros Hi. assert (idx = 1 ∨ idx = 2 ∨ idx = 3 ∨ idx = 4) as [->|[->|[->|Heq]]] by lia;
    [..|subst idx]; eexists; (split; [reflexivity|]); split; [done|by vm_compute; intuition congruence
    |done|by vm_compute; intuition congruence|done|by vm_compute; intuition congruence|done
    |by vm_compute; intuition congruence].
Qed.

(** The set bits of a number: the multiplications the loop makes. *)
Fixpoint ones (n : positive) : Z :=
  match n with xH => 1 | xO n' => ones n' | xI n' => 1 + ones n' end.

Lemma ones_pos n : 0 < ones n.
Proof. induction n; simpl; lia. Qed.

(** One multiplication by a factor of the table, rounded down. *)
Lemma scale_ok P Q f load l0 :
  0 ≤ P ≤ Q → 0 < Q → 0 ≤ f → f * Q ≤ 128 * P ≤ (f + 1) * Q → 0 ≤ load ≤ l0 → l0 < 2 ^ 25 →
  let l' := Z.shiftr (u32 (load * f)) DEGRADE_SHIFT in
  0 ≤ l' ≤ load ∧ l' * Q ≤ load * P ∧ 128 * load * P ≤ (128 * l' + (128 + l0)) * Q.
Proof.
  intros HP HQ Hf Hfq Hl Hl0 l'. assert (f ≤ 128) by nia.
  change (2 ^ 25) with 33554432 in Hl0. assert (0 ≤ load * f < 4294967296) by nia.
  assert (l' = load * f / 128) as Hl'
    by (subst l'; rewrite uwrap_small by (widths; lia); by rewrite Z.shiftr_div_pow2 by done).
  pose proof (Z.div_mod (load * f) 128). pose proof (Z.mod_pos_bound (load * f) 128).
  assert (128 * l' ≤ load * f < 128 * l' + 128) by lia. clear Hl'. clearbody l'.
  assert (0 ≤ l') by lia.
  assert (l' ≤ load) by nia. split_and!; [done|done| |].
  - assert (128 * (l' * Q) ≤ 128 * (load * P)); [|lia].
    transitivity (load * (f * Q)); [|nia]. replace (load * (f * Q)) with (load * f * Q) by ring. nia.
  - replace (128 * load * P) with (load * (128 * P)) by ring. transitivity (load * ((f + 1) * Q)); [nia|].
    replace (load * ((f + 1) * Q)) with ((load * f + load) * Q) by ring. nia.
Qed.

Lemma decay_loop_ok n : ∀ P Q row load l0,
  0 ≤ P ≤ Q → 0 < Q → row_ok P Q row → (Pos.size_nat n ≤ length row)%nat →
  0 ≤ load ≤ l0 → l0 < 2 ^ 25 →
  ∃ r, decay_loop n row load = Some r ∧ 0 ≤ r ≤ load ∧ r * Q ^ Zpos n ≤ load * P ^ Zpos n ∧
    128 * load * P ^ Zpos n ≤ (128 * r + ones n * (128 + l0)) * Q ^ Zpos n.
Proof.
  induction n as [n IH|n IH|]; intros P Q [|f row] load l0 HP HQ Hrow Hlen Hl Hl0;
    try (simpl in Hlen; lia); cbn [decay_loop row_ok] in *; destruct Hrow as (Hf & Hfq & Hrow).
  - destruct (scale_ok P Q f load l0) as (Hl' & Hup & Hlow); try done.
    set (l' := Z.shiftr (u32 (load * f)) DEGRADE_SHIFT) in *.
    destruct (IH (P * P) (Q * Q) row l' l0) as (r & -> & Hr & Hru & Hrl); try done; try nia; [simpl in Hlen; lia|].
    exists r. split; [done|]. split; [lia|]. rewrite !pow_odd.
    set (Pn := (P * P) ^ Zpos n) in *. set (Qn := (Q * Q) ^ Zpos n) in *.
    assert (0 ≤ Pn ≤ Qn) by (subst Pn Qn; split; [apply Z.pow_nonneg; nia|apply Z.pow_le_mono_l; nia]).
    split; [nia|]. cbn [ones]. pose proof (ones_pos n).
    transitivity ((128 * l' + (128 + l0)) * Q * Pn); [nia|].
    transitivity ((128 * l' * Pn + (128 + l0) * Qn) * Q); [nia|]. nia.
  - destruct (IH (P * P) (Q * Q) row load l0) as (r & -> & Hr & Hru & Hrl); try done; try nia; [simpl in Hlen; lia|].
    exists r. rewrite !pow_even. done.
  - destruct (scale_ok P Q f load l0) as (Hl' & Hup & Hlow); try done. eexists. split; [reflexivity|].
    rewrite !Z.pow_1_r. cbn [ones]. rewrite Z.mul_1_l. done.
Qed.

Lemma size_nat_le n : ∀ k : nat, Zpos n < 2 ^ Z.of_nat k → (Pos.size_nat n ≤ k)%nat.
Proof.
  induction n as [n IH|n IH|]; intros [|k] Hk; try (simpl in Hk; lia); try (simpl; lia);
    rewrite Nat2Z.inj_succ, Z.pow_succ_r in Hk by lia; simpl;
    assert (Pos.size_nat n ≤ k)%nat by (apply IH; lia); lia.
Qed.

Lemma ones_size n : ones n ≤ Z.of_nat (Pos.size_nat n).
Proof. induction n; simpl; lia. Qed.

(** After the number of ticks the table gives, less than 1/128 of the load is
    left. *)
Lemma zero_ticks_small idx : 1 ≤ idx ≤ 4 →
  ∃ t, degrade_zero_ticks !! Z.to_nat idx = Some t ∧ 0 < t ≤ 128 ∧
    ∀ n, t ≤ n → 128 * (2 ^ idx - 1) ^ n ≤ (2 ^ idx) ^ n.
Proof.
  intros Hi. assert (∃ t, degrade_zero_ticks !! Z.to_nat idx = Some t ∧ 0 < t ≤ 128 ∧
    128 * (2 ^ idx - 1) ^ t ≤ (2 ^ idx) ^ t) as (t & Ht & Hr & Hs).
  { assert (idx = 1 ∨ idx = 2 ∨ idx = 3 ∨ idx = 4) as [->|[->|[->|Heq]]] by lia;
      [..|subst idx]; (eexists; split; [reflexivity|]; split; [lia|by vm_compute]). }
  exists t. split_and!; [done|lia|lia|]. intros n Hn. replace n with (t + (n - t)) by lia.
  rewrite !Z.pow_add_r by lia. assert (2 ≤ 2 ^ idx) by (apply (Z.pow_le_mono_r 2 1); lia).
  assert (0 ≤ (2 ^ idx - 1) ^ (n - t) ≤ (2 ^ idx) ^ (n - t))
    by (split; [apply Z.pow_nonneg; lia|apply Z.pow_le_mono_l; lia]).
  assert (0 ≤ (2 ^ idx - 1) ^ t) by (apply Z.pow_nonneg; lia). nia.
Qed.

(** What is left of a load after missed ticks. *)
Definition decayed (load missed idx r : Z) : Prop :=
  0 ≤ r ≤ load ∧ r * (2 ^ idx) ^ missed ≤ load * (2 ^ idx - 1) ^ missed ∧
  128 * load * (2 ^ idx - 1) ^ missed ≤ (128 * r + 7 * (128 + load)) * (2 ^ idx) ^ missed.

Lemma decay_load_missed_ok load missed idx :
  1 ≤ idx ≤ 4 → 0 ≤ missed → 0 ≤ load < 2 ^ 25 →
  ∃ r, (∀ s, decay_load_missed load missed idx s = Ok r s) ∧ decayed load missed idx r.
Proof.
  intros Hi Hm Hl. assert (2 ≤ 2 ^ idx) as H2 by (apply (Z.pow_le_mono_r 2 1); lia).
  assert (∀ n, 0 ≤ n → 0 ≤ (2 ^ idx - 1) ^ n ∧ 0 < (2 ^ idx) ^ n) as Hp
    by (intros; split; [apply Z.pow_nonneg; lia|apply Z.pow_pos_nonneg; lia]).
  unfold decay_load_missed, decayed, mbind, M_bind. destruct (missed =? 0) eqn:Hz; bsimp.
  { exists load. split; [done|]. subst missed. rewrite !Z.pow_0_r. lia. }
  destruct (zero_ticks_small idx Hi) as (t & -> & Htr & Hsmall). cbn [deref].
  unfold mret, M_ret. destruct (t <=? missed) eqn:Htm; bsimp.
  { exists 0. split; [done|]. specialize (Hsmall missed Htm). destruct (Hp missed Hm). split_and!; try done; nia. }
  destruct (idx =? 1) eqn:H1; bsimp.
  - subst idx. eexists. split; [done|]. rewrite Z.shiftr_div_pow2 by done. change (2 ^ 1) with 2 in *.
    change (2 - 1) with 1. rewrite Z.pow_1_l by done. destruct (Hp missed Hm) as [_ Hpos].
    pose proof (Z.div_mod load (2 ^ missed)). pose proof (Z.mod_pos_bound load (2 ^ missed)).
    assert (0 ≤ load / 2 ^ missed) by (apply Z.div_pos; lia).
    split_and!; [done|apply Z.div_le_upper_bound; nia|nia|nia].
  - destruct (row_ok_table idx Hi) as (row & -> & Hlen & Hok). cbn [deref]. unfold mret, M_ret. destruct missed as [|n|]; [done| |done].
    assert (Pos.size_nat n ≤ 7)%nat as Hsz by (apply size_nat_le; simpl; lia).
    destruct (decay_loop_ok n (2 ^ idx - 1) (2 ^ idx) row load load) as (r & -> & Hr & Hu & Hlow);
      try done; try lia.
    exists r. split; [done|]. split_and!; [lia|lia|done|].
    etrans; [exact Hlow|]. pose proof (ones_size n). destruct (Hp (Zpos n) Hm). nia.
Qed.

(** [decay_load_missed] is accurate: for any number of missed ticks it reads
    the tables within their bounds and returns a load that is never more than the
    exact decay and less than it by at most seven roundings of 1/128 of the load
    and one unit each. *)
Theorem decay_load_missed_accurate load missed idx s :
  1 ≤ idx < CPU_LOAD_IDX_MAX → 0 ≤ missed → 0 ≤ load < 2 ^ 25 →
  returns (decay_load_missed load missed idx) s (λ r s', s' = s ∧ 0 ≤ r ≤ load ∧
    r * (2 ^ idx) ^ missed ≤ load * (2 ^ idx - 1) ^ missed ∧
    128 * load * (2 ^ idx - 1) ^ missed ≤ (128 * r + 7 * (128 + load)) * (2 ^ idx) ^ missed).
Proof.
  unfold CPU_LOAD_IDX_MAX. intros. destruct (decay_load_missed_ok load missed idx) as (r & Hrun & Hd); [lia..|].
  by exists r, s.
Qed.

(** ** The load of a processor *)

(** One tick moves an average strictly towards the current load and never past
    it. *)
Lemma blend_towards old load i :
  1 ≤ i ≤ 4 → 0 ≤ old < 2 ^ 27 → 0 ≤ load < 2 ^ 27 →
  (old = load → blend old load i = load) ∧ (old < load → old < blend old load i ≤ load) ∧
  (load < old → load ≤ blend old load i < old).
Proof.
  intros Hi Ho Hl. change (2 ^ 27) with 134217728 in *.
  assert (2 ≤ 2 ^ i ≤ 16) as Hs
    by (split; [apply (Z.pow_le_mono_r 2 1); lia|apply (Z.pow_le_mono_r 2 i 4); lia]).
  unfold blend. rewrite Z.shiftl_mul_pow2, Z.mul_1_l, Z.shiftr_div_pow2 by lia.
  set (s := 2 ^ i) in *. assert (0 ≤ old * (s - 1) ≤ 134217728 * 15) by nia.
  rewrite (uwrap_small 32 (old * (s - 1))), (uwrap_small 32 (load + (s - 1))) by (widths; lia).
  split_and!; intros Hc; destruct (old <? load) eqn:Hb; bsimp; try lia; rewrite uwrap_small by (widths; lia).
  - subst old. replace (load * (s - 1) + load) with (load * s) by ring. apply Z.div_mul. lia.
  - split; [apply Z.le_succ_l, Z.div_le_lower_bound; nia|apply Z.lt_succ_r, Z.div_lt_upper_bound; nia].
  - split; [apply Z.div_le_lower_bound; nia|apply Z.div_lt_upper_bound; nia].
Qed.

(** The loop that ages the real-time average ends with the stamp within one period
    of the clock. *)
Lemma avg_loop_ok fuel period q :
  0 < period < 2 ^ 63 → (Z.to_nat (s64 (rq_clock q - age_stamp q) / period) ≤ fuel)%nat →
  ∃ age k, 0 ≤ k ∧
    avg_loop fuel period q = Some (q <| age_stamp := age |> <| rt_avg := rt_avg q / 2 ^ k |>) ∧
    s64 (rq_clock q - age) ≤ period.
Proof.
  intros Hp. revert q. induction fuel as [|fuel IH]; intros q Hf; cbn [avg_loop];
    destruct (period <? s64 (rq_clock q - age_stamp q)) eqn:Hd; bsimp.
  - assert (1 ≤ s64 (rq_clock q - age_stamp q) / period) by (apply Z.div_le_lower_bound; lia). lia.
  - exists (age_stamp q), 0. rewrite Z.pow_0_r, Z.div_1_r. split_and!; [done|by destruct q|done].
  - set (q1 := q <| age_stamp := u64 (age_stamp q + period) |> <| rt_avg := rt_avg q / 2 |>).
    assert (s64 (rq_clock q1 - age_stamp q1) = s64 (rq_clock q - age_stamp q) - period) as He.
    { change (s64 (rq_clock q - u64 (age_stamp q + period)) = s64 (rq_clock q - age_stamp q) - period).
      rewrite <- swrap_uwrap, uwrap_sub_r, swrap_uwrap.
      pose proof (swrap_range 64 ltac:(lia) (rq_clock q - age_stamp q)).
      rewrite <- (swrap_small 64 ltac:(lia) (_ - period)) by (widths; lia).
      rewrite swrap_sub_l. f_equal. lia. }
    destruct (IH q1) as (age & k & Hk & Hrun & Hend).
    { rewrite He. replace (s64 (rq_clock q - age_stamp q) - period)
        with (s64 (rq_clock q - age_stamp q) + (-1) * period) by lia. rewrite Z.div_add by lia. lia. }
    assert (0 < 2 ^ k) by (apply Z.pow_pos_nonneg; lia).
    assert (rt_avg q / 2 ^ (1 + k) = rt_avg q / 2 / 2 ^ k) as Hr
      by (rewrite Z.pow_add_r, Z.pow_1_r, Z.div_div; lia).
    exists age, (1 + k). split_and!; [lia| |exact Hend]. rewrite Hrun, Hr. by destruct q.
  - exists (age_stamp q), 0. rewrite Z.pow_0_r, Z.div_1_r. split_and!; [done|by destruct q|done].
Qed.

Lemma load_cpu_eq s c q : cpus s !! c = Some q → load_cpu c s = Ok q s.
Proof. intros Hq. unfold load_cpu, mbind, M_bind, get. by rewrite Hq. Qed.

Lemma store_cpu_eq s c q f :
  cpus s !! c = Some q → store_cpu c f s = Ok tt (s <| cpus ::= <[c := f q]> |>).
Proof. intros Hq. unfold store_cpu, mbind, M_bind. by rewrite (load_cpu_eq s c q). Qed.

Lemma put_put (s : load_state) c q q' :
  s <| cpus ::= <[c := q]> |> <| cpus ::= <[c := q']> |> = s <| cpus ::= <[c := q']> |>.
Proof. destruct s. unfold modify_field. simpl. by rewrite insert_insert_eq. Qed.

(** The state with the run queue of [c] replaced. *)
Definition with_cpu (s : load_state) (c : Z) (q : load_rq) : load_state := s <| cpus ::= <[c := q]> |>.

Lemma load_with s c q : load_cpu c (with_cpu s c q) = Ok q (with_cpu s c q).
Proof. apply load_cpu_eq. apply lookup_insert_eq. Qed.

Lemma store_with s c q f : store_cpu c f (with_cpu s c q) = Ok tt (with_cpu s c (f q)).
Proof.
  rewrite (store_cpu_eq _ c q) by apply lookup_insert_eq. unfold with_cpu. by rewrite put_put.
Qed.

Lemma sched_avg_update_ok s c q :
  0 < sysctl_sched_time_avg s < 2 ^ 32 →
  ∃ age k, 0 ≤ k ∧ sched_avg_update c (with_cpu s c q) =
    Ok tt (with_cpu s c (q <| age_stamp := age |> <| rt_avg := rt_avg q / 2 ^ k |>)).
Proof.
  intros Ht. change (2 ^ 32) with 4294967296 in Ht. set (t := sysctl_sched_time_avg s) in *.
  assert (0 < t * NSEC_PER_MSEC / 2 < 4294967296 * 500000) as Hp
    by (unfold NSEC_PER_MSEC; split; [apply Z.lt_le_trans with 1; [lia|apply Z.div_le_lower_bound; lia]
                                     |apply Z.div_lt_upper_bound; lia]).
  assert (s64 (u64 (t * NSEC_PER_MSEC) / 2) = t * NSEC_PER_MSEC / 2) as He.
  { rewrite (uwrap_small 64) by (unfold NSEC_PER_MSEC; widths; lia). apply swrap_small; widths; lia. }
  destruct (avg_loop_ok (avg_fuel (t * NSEC_PER_MSEC / 2) q) (t * NSEC_PER_MSEC / 2) q)
    as (age & k & Hk & Hrun & _); [change (2 ^ 63) with 9223372036854775808; lia|done|].
  exists age, k. split; [done|]. unfold sched_avg_update, sched_avg_period, mbind, M_bind, gets, mret, M_ret.
  change (sysctl_sched_time_avg (with_cpu s c q)) with t. rewrite He, load_with, Hrun.
  exact (store_with s c q (λ _, _)).
Qed.

(** One average of the loop of [update_cpu_load]. *)
Lemma cpu_load_step (s : load_state) c q i old r load pending :
  cpu_load q !! Z.to_nat i = Some old →
  decay_load_missed old (u32 (pending - 1)) i (with_cpu s c q) = Ok r (with_cpu s c q) →
  (q ← load_cpu c;
   old ← deref (cpu_load q !! Z.to_nat i);
   old ← decay_load_missed old (u32 (pending - 1)) i;
   store_cpu c (λ q, q <| cpu_load ::= <[Z.to_nat i := blend old load i]> |>)) (with_cpu s c q)
  = Ok tt (with_cpu s c (q <| cpu_load ::= <[Z.to_nat i := blend r load i]> |>)).
Proof.
  intros Ho Hd. unfold mbind, M_bind. rewrite load_with, Ho. cbn [deref]. unfold mret, M_ret. rewrite Hd.
  apply store_with.
Qed.

(** A run queue with loads in range. *)
Definition loads_ok (q : load_rq) : Prop :=
  length (cpu_load q) = 5%nat ∧ Forall (λ l, 0 ≤ l < 2 ^ 25) (cpu_load q) ∧ 0 ≤ load_weight_of q < 2 ^ 25.

(** The averages after a tick at [load], from what is left of the old ones. *)
Definition ticked (load : Z) (left : list Z) : list Z :=
  load :: zip_with (λ old i, blend old load i) left [1; 2; 3; 4].

Lemma update_cpu_load_ok s c q :
  cpus s !! c = Some q → 0 < sysctl_sched_time_avg s < 2 ^ 32 → loads_ok q →
  jiffies s ≠ last_load_update_tick q →
  ∃ left age k, Forall2 (λ r oi, decay_load_missed oi.1 (u32 (u32 (jiffies s - last_load_update_tick q) - 1)) oi.2 s = Ok r s)
      left (zip (tail (cpu_load q)) [1; 2; 3; 4]) ∧
    update_cpu_load c s = Ok tt (with_cpu s c
      (q <| nr_load_updates := u32 (nr_load_updates q + 1) |> <| last_load_update_tick := jiffies s |>
         <| cpu_load := ticked (load_weight_of q) left |>
         <| age_stamp := age |> <| rt_avg := rt_avg q / 2 ^ k |>)).
Proof.
  intros Hq Ht (Hlen & Hr & Hw) Hj.
  destruct (cpu_load q) as [|l0 [|l1 [|l2 [|l3 [|l4 [|]]]]]] eqn:Hl; try done.
  set (m := u32 (u32 (jiffies s - last_load_update_tick q) - 1)).
  assert (0 ≤ m) as Hm by apply (uwrap_range 32 ltac:(lia)).
  assert (∀ l i, 0 ≤ l < 2 ^ 25 → 1 ≤ i ≤ 4 → ∃ r, ∀ s, decay_load_missed l m i s = Ok r s) as Hdec.
  { intros l i ? ?. destruct (decay_load_missed_ok l m i) as (r & Hrun & _); eauto. }
  rewrite !Forall_cons in Hr. destruct Hr as (_ & H1 & H2 & H3 & H4 & _).
  destruct (Hdec l1 1 H1 ltac:(lia)) as [r1 D1]. destruct (Hdec l2 2 H2 ltac:(lia)) as [r2 D2].
  destruct (Hdec l3 3 H3 ltac:(lia)) as [r3 D3]. destruct (Hdec l4 4 H4 ltac:(lia)) as [r4 D4].
  set (load := load_weight_of q).
  set (q0 := q <| nr_load_updates := u32 (nr_load_updates q + 1) |> <| last_load_update_tick := jiffies s |>).
  set (q1 := q0 <| cpu_load := [load; l1; l2; l3; l4] |>).
  set (q5 := q0 <| cpu_load := ticked load [r1; r2; r3; r4] |>).
  destruct (sched_avg_update_ok s c q5 Ht) as (age & k & Hk & Havg).
  exists [r1; r2; r3; r4], age, k. split; [by repeat constructor|].
  unfold update_cpu_load. fold load. unfold mbind at 1, M_bind at 1. rewrite (load_cpu_eq s c q Hq).
  unfold mbind at 1, M_bind at 1, get. unfold mbind at 1, M_bind at 1. rewrite (store_cpu_eq s c q _ Hq).
  fold (with_cpu s c (q <| nr_load_updates := u32 (nr_load_updates q + 1) |>)).
  rewrite (proj2 (Z.eqb_neq _ _) Hj). unfold mbind at 1, M_bind at 1. rewrite store_with.
  replace (with_cpu s c _) with (with_cpu s c q1) by (unfold q1, q0; by destruct q; simpl in *; subst).
  unfold mbind at 1, M_bind at 1.
  match goal with |- context [for_each ?l ?body ?st] =>
    assert (for_each l body st = Ok tt (with_cpu s c q5)) as ->; [|exact Havg] end.
  change (seqZ 1 (CPU_LOAD_IDX_MAX - 1)) with [1; 2; 3; 4]. cbn [for_each].
  do 4 (unfold mbind at 1, M_bind at 1; erewrite cpu_load_step; [|reflexivity|eauto]).
  unfold mret, M_ret. unfold q5, q1. by destruct q0.
Qed.

(** [n] ticks of processor [c], one jiffy each. *)
Fixpoint ticks (n : nat) (c : Z) : M load_state unit :=
  match n with
  | O => mret tt
  | S n' =>
      _ ← modify (λ s, s <| jiffies := u32 (jiffies s + 1) |>);
      _ ← update_cpu_load c;
      ticks n' c
  end.

(** Every average is within [n] of the load. *)
Definition within (n load : Z) (l : list Z) : Prop := Forall (λ a, Z.abs (a - load) ≤ n) l.

Lemma blend_within old load i n :
  1 ≤ i ≤ 4 → 0 ≤ old < 2 ^ 25 → 0 ≤ load < 2 ^ 25 → 0 ≤ n → Z.abs (old - load) ≤ n + 1 →
  Z.abs (blend old load i - load) ≤ n ∧ 0 ≤ blend old load i < 2 ^ 25.
Proof.
  intros Hi Ho Hl Hn Hd. change (2 ^ 25) with 33554432 in *.
  destruct (blend_towards old load i) as (He & Hup & Hdn); try done;
    [change (2 ^ 27) with 134217728; lia..|].
  destruct (Z.lt_trichotomy old load) as [Hc|[Hc|Hc]];
    [specialize (Hup Hc)|specialize (He Hc)|specialize (Hdn Hc)]; lia.
Qed.

Lemma tick_within s c q n :
  cpus s !! c = Some q → 0 < sysctl_sched_time_avg s < 2 ^ 32 → loads_ok q →
  last_load_update_tick q = jiffies s → 0 ≤ jiffies s < 2 ^ 32 → 0 ≤ n →
  within (n + 1) (load_weight_of q) (cpu_load q) →
  returns (_ ← modify (λ s, s <| jiffies := u32 (jiffies s + 1) |>); update_cpu_load c) s
    (λ _ s', ∃ q', cpus s' !! c = Some q' ∧ sysctl_sched_time_avg s' = sysctl_sched_time_avg s ∧ loads_ok q' ∧
      last_load_update_tick q' = jiffies s' ∧ 0 ≤ jiffies s' < 2 ^ 32 ∧ load_weight_of q' = load_weight_of q ∧
      within n (load_weight_of q) (cpu_load q')).
Proof.
  intros Hq Ht Hok Hlast Hj Hn Hwi. apply returns_bind. eapply returns_eq; [reflexivity|].
  set (s1 := s <| jiffies := u32 (jiffies s + 1) |>).
  assert (jiffies s1 = u32 (jiffies s + 1)) as Hj1 by done.
  assert (u32 (jiffies s + 1) ≠ jiffies s) as Hne.
  { destruct (decide (jiffies s + 1 = 2 ^ 32)) as [He|He]; [rewrite He; change (u32 (2 ^ 32)) with 0; widths; lia|].
    rewrite uwrap_small by (widths; lia). lia. }
  destruct (update_cpu_load_ok s1 c q Hq Ht Hok) as (left & age & k & Hleft & Hrun); [by rewrite Hlast, Hj1|].
  assert (u32 (u32 (jiffies s1 - last_load_update_tick q) - 1) = 0) as Hm.
  { rewrite Hlast, Hj1, uwrap_sub_l.
    replace (u32 (jiffies s + 1) - jiffies s - 1) with (u32 (jiffies s + 1) - (jiffies s + 1)) by lia.
    by rewrite uwrap_sub_l, Z.sub_diag. }
  rewrite Hm in Hleft. assert (left = tail (cpu_load q)) as ->.
  { destruct Hok as (Hlen & _). destruct (cpu_load q) as [|l0 [|l1 [|l2 [|l3 [|l4 [|]]]]]]; try done.
    unfold decay_load_missed, mret, M_ret in Hleft. simpl in Hleft.
    repeat match goal with Hx : Forall2 _ _ (_ :: _) |- _ => apply Forall2_cons_inv_r in Hx as (? & ? & ? & ? & ->)
      | Hx : Forall2 _ _ [] |- _ => apply Forall2_nil_inv_r in Hx as -> end.
    by simplify_eq/=. }
  eapply returns_eq; [exact Hrun|]. eexists. split; [apply lookup_insert_eq|]. destruct Hok as (Hlen & Hr & Hw).
  destruct (cpu_load q) as [|l0 [|l1 [|l2 [|l3 [|l4 [|]]]]]] eqn:Hl; try done.
  unfold within in Hwi. rewrite !Forall_cons in Hr, Hwi.
  destruct Hr as (_ & ? & ? & ? & ? & _), Hwi as (_ & ? & ? & ? & ? & _).
  destruct (blend_within l1 (load_weight_of q) 1 n) as [? ?]; [lia|done|done|done|done|].
  destruct (blend_within l2 (load_weight_of q) 2 n) as [? ?]; [lia|done|done|done|done|].
  destruct (blend_within l3 (load_weight_of q) 3 n) as [? ?]; [lia|done|done|done|done|].
  destruct (blend_within l4 (load_weight_of q) 4 n) as [? ?]; [lia|done|done|done|done|].
  split_and!; try done; try apply (uwrap_range 32 ltac:(lia)).
  - split; [done|]. split; [|exact Hw]. do 5 (apply Forall_cons_2; [done|]). by apply Forall_nil.
  - apply Forall_cons_2; [by rewrite Z.sub_diag|]. do 4 (apply Forall_cons_2; [done|]). by apply Forall_nil.
Qed.

(** The load of a processor settles: if its load weight stays the same, every
    one of the five averages equals that weight after as many ticks as it was
    away from it; the rounding never leaves an average stuck below or above. *)
Theorem cpu_load_settles s c q n :
  cpus s !! c = Some q → 0 < sysctl_sched_time_avg s < 2 ^ 32 → loads_ok q →
  last_load_update_tick q = jiffies s → 0 ≤ jiffies s < 2 ^ 32 →
  within (Z.of_nat n) (load_weight_of q) (cpu_load q) →
  returns (ticks n c) s (λ _ s', ∃ q', cpus s' !! c = Some q' ∧
    cpu_load q' = replicate 5 (load_weight_of q)).
Proof.
  revert s q. induction n as [|n IH]; intros s q Hq Ht Hok Hlast Hj Hw.
  - apply returns_ret. exists q. split; [done|]. destruct Hok as (Hlen & _).
    unfold within in Hw.
    destruct (cpu_load q) as [|l0 [|l1 [|l2 [|l3 [|l4 [|]]]]]]; try done. rewrite !Forall_cons in Hw.
    destruct Hw as (? & ? & ? & ? & ? & _). simpl. repeat f_equal; lia.
  - cbn [ticks]. rewrite Nat2Z.inj_succ in Hw.
    destruct (tick_within s c q (Z.of_nat n)) as ([] & s1 & Hrun & q1 & Hq1 & Ht1 & Hok1 & Hl1 & Hj1 & Hw1 & Hwi);
      try done; [lia|].
    unfold mbind, M_bind in Hrun. apply returns_bind. eapply returns_eq; [reflexivity|].
    apply returns_bind. eapply returns_eq; [exact Hrun|]. rewrite <- Hw1 in Hwi |- *.
    apply IH; try done. by rewrite Ht1.
Qed.

(** ** The global averages *)

Section Global.
Context `{LoadConfig}.

(** How long the next update is overdue. *)
Definition overdue (s : load_state) : Z := s32 (jiffies s - calc_load_update s - 10).

Lemma time_before_overdue s : time_before (jiffies s) (u32 (calc_load_update s + 10)) = (overdue s <? 0).
Proof.
  unfold time_before, overdue. f_equal. rewrite <- swrap_uwrap, uwrap_sub_r, swrap_uwrap. f_equal. lia.
Qed.

(** Moving the update time by [k] periods. *)
Lemma overdue_advance s k :
  in_s 32 (overdue s - k * LOAD_FREQ) →
  overdue (s <| calc_load_update := u32 (calc_load_update s + k * LOAD_FREQ) |>) = overdue s - k * LOAD_FREQ.
Proof.
  intros Hr. rewrite <- (swrap_small 32 ltac:(lia) _ Hr). unfold overdue. rewrite swrap_sub_l.
  change (s32 (jiffies s - u32 (calc_load_update s + k * LOAD_FREQ) - 10) =
          s32 (jiffies s - calc_load_update s - 10 - k * LOAD_FREQ)).
  replace (jiffies s - u32 (calc_load_update s + k * LOAD_FREQ) - 10)
    with (jiffies s - 10 - u32 (calc_load_update s + k * LOAD_FREQ)) by lia.
  rewrite <- swrap_uwrap, uwrap_sub_r, swrap_uwrap. f_equal. lia.
Qed.

Lemma load_freq_range : 0 < HZ < 100000000 → 5 < LOAD_FREQ < 2 ^ 30.
Proof. unfold LOAD_FREQ. change (2 ^ 30) with 1073741824. lia. Qed.

Definition active (tasks : Z) : Z := Z.max 0 tasks * FIXED_1.

Lemma active_fixed_eq tasks : tasks < 1024 → u32 (active_fixed tasks) = active tasks ∧ 0 ≤ active tasks < 2 ^ 21.
Proof.
  intros Ht. unfold active_fixed, active. change FIXED_1 with 2048. change (2 ^ 21) with 2097152.
  destruct (0 <? tasks) eqn:Hz; bsimp; [|rewrite Z.max_l by lia; done].
  rewrite swrap_small, uwrap_small by (widths; lia). lia.
Qed.

(** Between the old average and the two counts of active tasks it was moved to. *)
Definition averaged (a1 a2 old new : Z) : Prop :=
  Z.min old (Z.min a1 a2) ≤ new ≤ Z.max old (Z.max a1 a2).

Definition averages (P : Z → Z → Prop) (s s' : load_state) : Prop :=
  let '(a1, a5, a15) := avenrun s in
  let '(b1, b5, b15) := avenrun s' in P a1 b1 ∧ P a5 b5 ∧ P a15 b15.

Definition averages_ok (s : load_state) : Prop := averages (λ a _, 0 ≤ a < 2 ^ 21) s s.

Lemma calc_load_n_between load exp act n :
  0 ≤ exp ≤ FIXED_1 → 0 ≤ load < 2 ^ 21 → 0 ≤ act < 2 ^ 21 →
  Z.min load act ≤ calc_load_n load exp act n ≤ Z.max load act.
Proof.
  intros He Hl Ha. apply calc_load_between; [|done|done]. apply (fixed_power_int_range exp FSHIFT n); done.
Qed.

(** Catching up on missed periods. *)
Lemma calc_global_nohz_ok s :
  0 < HZ < 100000000 → averages_ok s →
  in_s 32 (calc_load_tasks s) → in_s 32 (calc_load_tasks s + calc_load_tasks_idle s) →
  calc_load_tasks s + calc_load_tasks_idle s < 1024 →
  returns calc_global_nohz s (λ _ s', overdue s' < 0 ∧ cpus s' = cpus s ∧
    calc_load_tasks s' = calc_load_tasks s + calc_load_tasks_idle s ∧ calc_load_tasks_idle s' = 0 ∧
    averages (λ a b, let t := active (calc_load_tasks s + calc_load_tasks_idle s) in Z.min a t ≤ b ≤ Z.max a t) s s').
Proof.
  intros Hhz Hav Ht Hti Hlt. pose proof (load_freq_range Hhz) as Hf. unfold calc_global_nohz, calc_load_fold_idle.
  set (T := calc_load_tasks s + calc_load_tasks_idle s) in *.
  set (s1 := s <| calc_load_tasks := T |> <| calc_load_tasks_idle := 0 |>).
  apply returns_bind. apply returns_bind. eapply returns_eq; [reflexivity|].
  apply (returns_mono _ _ (λ d s', s' = s <| calc_load_tasks_idle := 0 |> ∧ d = calc_load_tasks_idle s)).
  { destruct (calc_load_tasks_idle s =? 0) eqn:Hz; bsimp; [|eapply returns_eq; [reflexivity|done]].
    apply returns_ret. rewrite Hz. split; [|done]. destruct s; simpl in *. by subst. }
  intros d s' [-> ->]. apply returns_bind.
  apply (returns_mono _ _ (λ _ s', s' = s1)).
  { destruct (calc_load_tasks_idle s =? 0) eqn:Hz; bsimp.
    - apply returns_ret. unfold s1, T. destruct s; simpl in *. subst. by rewrite Z.add_0_r.
    - eapply returns_eq; [reflexivity|]. unfold s1. simpl. by rewrite (swrap_small 32). }
  intros [] s' ->. apply returns_bind. eapply returns_eq; [reflexivity|].
  rewrite time_before_overdue. destruct (overdue s1 <? 0) eqn:Hd; bsimp.
  { apply returns_ret. split_and!; try done. unfold averages_ok, averages in *. simpl.
    destruct (avenrun s) as [[a1 a5] a15]. cbv zeta. lia. }
  destruct (active_fixed_eq T Hlt) as [Hact Hrange]. change (2 ^ 30) with 1073741824 in Hf.
  pose proof (swrap_range 32 ltac:(lia) (jiffies s1 - calc_load_update s1 - 10)) as Hsr.
  fold (overdue s1) in Hsr |- *. set (n := 1 + overdue s1 / LOAD_FREQ).
  assert (0 ≤ overdue s1 / LOAD_FREQ ≤ 1000000000) as Hqr
    by (split; [apply Z.div_pos; lia|apply Z.div_le_upper_bound; widths; nia]).
  assert (s32 (1 + Z.quot (overdue s1) LOAD_FREQ) = n) as ->
    by (rewrite Z.quot_div_nonneg by lia; apply swrap_small; widths; lia).
  change (calc_load_tasks s1) with T. rewrite Hact.
  assert (overdue (s1 <| calc_load_update := u32 (calc_load_update s1 + n * LOAD_FREQ) |>) < 0) as Hover.
  { pose proof (Z.div_mod (overdue s1) LOAD_FREQ). pose proof (Z.mod_pos_bound (overdue s1) LOAD_FREQ).
    rewrite overdue_advance; unfold n; widths; lia. }
  destruct (avenrun s1) as [[a1 a5] a15] eqn:Ha. eapply returns_eq; [reflexivity|].
  split_and!; [exact Hover|done|done|done|]. unfold averages_ok, averages in *. change (avenrun s1) with (avenrun s) in Ha.
  rewrite Ha in *. simpl. destruct Hav as (? & ? & ?).
  split_and!; apply calc_load_n_between; done.
Qed.

(** [calc_global_load] does nothing until an update is due; then it returns
    with no update due, however many periods were missed, with the tasks that
    became idle folded into the count, and with each of the three averages between
    its old value and the counts of active tasks it was moved to: with fewer than
    1024 active tasks nothing overflows 32 bits. *)
Theorem calc_global_load_bounds s tick :
  0 < HZ < 100000000 → averages_ok s →
  in_s 32 (calc_load_tasks s) → in_s 32 (calc_load_tasks s + calc_load_tasks_idle s) →
  calc_load_tasks s < 1024 → calc_load_tasks s + calc_load_tasks_idle s < 1024 →
  returns (calc_global_load tick) s (λ _ s', overdue s' < 0 ∧ cpus s' = cpus s ∧
    if overdue s <? 0 then s' = s else
      calc_load_tasks s' = calc_load_tasks s + calc_load_tasks_idle s ∧ calc_load_tasks_idle s' = 0 ∧
      averages (averaged (active (calc_load_tasks s))
                         (active (calc_load_tasks s + calc_load_tasks_idle s))) s s').
Proof.
  intros Hhz Hav Ht Hti Hlt Hlti. unfold calc_global_load. apply returns_bind. eapply returns_eq; [reflexivity|].
  rewrite time_before_overdue. destruct (overdue s <? 0) eqn:Hd; bsimp; [by apply returns_ret|].
  destruct (active_fixed_eq _ Hlt) as [-> Hr1]. destruct (active_fixed_eq _ Hlti) as [_ Hr2].
  set (T := active (calc_load_tasks s)) in *.
  unfold averages_ok, averages in *. destruct (avenrun s) as [[a1 a5] a15] eqn:Ha. destruct Hav as (H1 & H5 & H15).
  pose proof (calc_load_between a1 EXP_1 T ltac:(done) H1 Hr1).
  pose proof (calc_load_between a5 EXP_5 T ltac:(done) H5 Hr1).
  pose proof (calc_load_between a15 EXP_15 T ltac:(done) H15 Hr1).
  apply returns_bind. eapply returns_eq; [reflexivity|]. apply returns_bind. eapply returns_eq; [reflexivity|].
  eapply returns_mono; [apply calc_global_nohz_ok; try done|].
  { unfold averages_ok, averages. simpl. split_and!; lia. }
  intros [] s' (Hover & Hc & HT & HI & Hb). split_and!; [done|done|done|done|].
  unfold averages in Hb. simpl in Hb. destruct (avenrun s') as [[b1 b5] b15].
  fold T in Hb. unfold averaged. split_and!; lia.
Qed.

(** ** The counts of active tasks *)

Definition sum_active : load_state → Z := sum_cpus calc_load_active.

Definition nr_active (q : load_rq) : Z := s32 (nr_running q + s32 (nr_uninterruptible q)).

(** What happens to the counters: a processor's tasks come, go, block and wake up;
    it accounts at a tick or when it goes idle; the averages are computed; time
    passes. *)
Inductive load_step : load_state → load_state → Prop :=
  | ls_tasks s c q running unint :
      cpus s !! c = Some q →
      load_step s (with_cpu s c (q <| nr_running := running |> <| nr_uninterruptible := unint |>))
  | ls_time s now : load_step s (s <| jiffies := now |>)
  | ls_active s c s' : calc_load_account_active c s = Ok tt s' → load_step s s'
  | ls_idle s c s' : calc_load_account_idle c s = Ok tt s' → load_step s s'
  | ls_global s tick s' : calc_global_load tick s = Ok tt s' → load_step s s'
  | ls_cpu_load s c s' : update_cpu_load c s = Ok tt s' → load_step s s'.

Definition load_init (s : load_state) : Prop :=
  calc_load_tasks s = 0 ∧ calc_load_tasks_idle s = 0 ∧ ∀ c q, cpus s !! c = Some q → calc_load_active q = 0.

(** The counters hold what the processors have folded, in 32 bits. *)
Definition folded (s : load_state) : Prop :=
  s32 (calc_load_tasks s + calc_load_tasks_idle s) = s32 (sum_active s).

Lemma sum_cpus_store f s c q q' :
  cpus s !! c = Some q → sum_cpus f (with_cpu s c q') = sum_cpus f s - f q + f q'.
Proof.
  intros Hq. unfold sum_cpus, with_cpu. simpl. set (g := λ (_ : Z) q acc, f q + acc).
  assert (∀ m c q, m !! c = Some q → map_fold g 0 m = f q + map_fold g 0 (delete c m)) as Hd.
  { intros m c0 q0 Hm. rewrite (map_fold_delete_L g 0 c0 q0 m); [done| |done]. intros. unfold g. lia. }
  rewrite (Hd _ c q Hq), (Hd (<[c:=q']> (cpus s)) c q') by apply lookup_insert_eq.
  rewrite delete_insert_eq. lia.
Qed.

Lemma with_cpu_id s c q : cpus s !! c = Some q → with_cpu s c q = s.
Proof. intros Hq. destruct s. unfold with_cpu, modify_field. simpl in *. f_equal. by apply insert_id. Qed.

(** Folding the processor's count returns how much the sum changes. *)
Lemma calc_load_fold_active_ok s c q :
  cpus s !! c = Some q →
  returns (calc_load_fold_active c) s (λ d s', d = s32 (nr_active q - calc_load_active q) ∧
    s' = with_cpu s c (q <| calc_load_active := nr_active q |>)).
Proof.
  intros Hq. unfold calc_load_fold_active. apply returns_bind. eapply returns_eq; [by apply load_cpu_eq|].
  fold (nr_active q). cbv zeta. destruct (nr_active q =? calc_load_active q) eqn:He; bsimp; simpl.
  - apply returns_ret. rewrite He, Z.sub_diag. split; [done|]. replace (q <| calc_load_active := _ |>) with q by (by destruct q). symmetry. by apply with_cpu_id.
  - apply returns_bind. eapply returns_eq; [by apply store_cpu_eq|]. by apply returns_ret.
Qed.

Lemma calc_load_fold_idle_ok s :
  returns calc_load_fold_idle s (λ d s', d = calc_load_tasks_idle s ∧ s' = s <| calc_load_tasks_idle := 0 |>).
Proof.
  unfold calc_load_fold_idle. apply returns_bind. eapply returns_eq; [reflexivity|].
  destruct (calc_load_tasks_idle s =? 0) eqn:Hz; bsimp; simpl.
  - apply returns_ret. split; [done|]. destruct s. simpl in *. by subst.
  - by eapply returns_eq.
Qed.

(** A counter is added to unless there is nothing to add. *)
Lemma add_unless_zero (s : load_state) delta :
  returns (if negb (delta =? 0)
           then modify (λ s, s <| calc_load_tasks := s32 (calc_load_tasks s + delta) |>) else mret tt) s
    (λ _ s', s' = s <| calc_load_tasks := if delta =? 0 then calc_load_tasks s
                                          else s32 (calc_load_tasks s + delta) |>).
Proof.
  destruct (delta =? 0); simpl; [apply returns_ret; by destruct s|by eapply returns_eq].
Qed.

Lemma folded_add t (delta sum : Z) :
  s32 (t + delta) = s32 sum → s32 (if delta =? 0 then t else s32 (t + delta)) = s32 sum.
Proof.
  destruct (delta =? 0) eqn:Hz; bsimp; intros Hs; [by subst; rewrite Z.add_0_r in Hs|].
  rewrite <- (Z.add_0_r (s32 (t + delta))), swrap_add_l, Z.add_0_r. done.
Qed.

Lemma swrap_add_r a b : s32 (a + s32 b) = s32 (a + b).
Proof. rewrite Z.add_comm, swrap_add_l. f_equal. lia. Qed.

(** The account of a processor at a tick. *)
Lemma account_active_ok s c q :
  cpus s !! c = Some q → folded s →
  returns (calc_load_account_active c) s (λ _ s',
    if time_before (jiffies s) (rq_calc_load_update q) then s' = s else
      cpus s' = <[c := q <| calc_load_active := nr_active q |>
                         <| rq_calc_load_update := u32 (rq_calc_load_update q + LOAD_FREQ) |>]> (cpus s) ∧
      jiffies s' = jiffies s ∧ calc_load_tasks_idle s' = 0 ∧ folded s').
Proof.
  intros Hq Hf. unfold calc_load_account_active. apply returns_bind. eapply returns_eq; [reflexivity|].
  apply returns_bind. eapply returns_eq; [by apply load_cpu_eq|].
  destruct (time_before _ _); [by apply returns_ret|]. apply returns_bind.
  eapply returns_mono; [by apply calc_load_fold_active_ok|]. intros d s1 [-> ->]. apply returns_bind.
  eapply returns_mono; [apply calc_load_fold_idle_ok|]. intros i s2 [-> ->]. apply returns_bind.
  eapply returns_mono; [apply add_unless_zero|]. intros [] s3 ->.
  set (q1 := q <| calc_load_active := nr_active q |>).
  eapply returns_eq; [apply (store_cpu_eq _ c q1); apply lookup_insert_eq|].
  split_and!; [simpl; by rewrite insert_insert_eq|done|done|].
  unfold folded in *. set (s4 := modify_field _ _).
  assert (sum_active s4 = sum_active s - calc_load_active q + nr_active q) as ->.
  { transitivity (sum_active (with_cpu s c (q1 <| rq_calc_load_update := u32 (rq_calc_load_update q1 + LOAD_FREQ) |>))).
    - unfold sum_active, sum_cpus. f_equal. unfold s4. simpl. by rewrite insert_insert_eq.
    - unfold sum_active. by rewrite (sum_cpus_store _ _ _ q). }
  unfold s4. simpl. rewrite Z.add_0_r. apply folded_add.
  rewrite swrap_add_r. replace (calc_load_tasks s + (s32 (nr_active q - calc_load_active q) + calc_load_tasks_idle s))
    with (s32 (nr_active q - calc_load_active q) + (calc_load_tasks s + calc_load_tasks_idle s)) by lia.
  rewrite swrap_add_l, <- swrap_add_r, Hf, swrap_add_r. f_equal. lia.
Qed.

Lemma account_idle_ok s c q :
  cpus s !! c = Some q → folded s → returns (calc_load_account_idle c) s (λ _ s', folded s').
Proof.
  intros Hq Hf. unfold calc_load_account_idle. apply returns_bind.
  eapply returns_mono; [by apply calc_load_fold_active_ok|]. intros d s1 [-> ->].
  set (d := s32 _). set (s1 := with_cpu _ _ _).
  assert (s32 (calc_load_tasks s + calc_load_tasks_idle s + d) = s32 (sum_active s1)) as He.
  { unfold s1, sum_active. rewrite (sum_cpus_store _ _ _ q) by done. unfold d. rewrite swrap_add_r.
    replace (calc_load_tasks s + calc_load_tasks_idle s + (nr_active q - calc_load_active q))
      with ((calc_load_tasks s + calc_load_tasks_idle s) + (nr_active q - calc_load_active q)) by lia.
    rewrite <- swrap_add_l, Hf, swrap_add_l. f_equal. unfold sum_active. simpl. lia. }
  destruct (d =? 0) eqn:Hz; bsimp; simpl.
  - apply returns_ret. unfold folded. change (calc_load_tasks s1) with (calc_load_tasks s).
    change (calc_load_tasks_idle s1) with (calc_load_tasks_idle s). rewrite <- He. f_equal. lia.
  - eapply returns_eq; [reflexivity|]. unfold folded. change (sum_active (modify_field _ s1)) with (sum_active s1).
    rewrite <- He. simpl. rewrite swrap_add_r. f_equal. lia.
Qed.

(** Code that leaves the counters alone. *)
Definition counters_of (s : load_state) := (calc_load_tasks s, calc_load_tasks_idle s, calc_load_active <$> cpus s).

Abbreviation keeps := (frames counters_of).

Lemma folded_counters s s' : counters_of s = counters_of s' → folded s → folded s'.
Proof.
  assert (∀ s, sum_active s = map_fold (λ _, Z.add) 0 (calc_load_active <$> cpus s)) as Hs.
  { intros s0. unfold sum_active, sum_cpus. by rewrite map_fold_fmap. }
  intros [= Ht Hi Hc]. unfold folded. rewrite !Hs. by rewrite Ht, Hi, Hc.
Qed.

Lemma keeps_load c : keeps (load_cpu c).
Proof. intros s. unfold load_cpu, mbind, M_bind, get. by destruct (cpus s !! c). Qed.

Lemma keeps_store c f : (∀ q, calc_load_active (f q) = calc_load_active q) → keeps (store_cpu c f).
Proof.
  intros Hf s. unfold store_cpu, load_cpu, mbind, M_bind, get. destruct (cpus s !! c) as [q|] eqn:Hq; [|done].
  unfold counters_of. simpl. rewrite fmap_insert, Hf, insert_id; [done|]. by rewrite lookup_fmap, Hq.
Qed.

#[local] Hint Resolve keeps_load : frame.

Lemma avg_loop_active fuel period q q' :
  avg_loop fuel period q = Some q' → calc_load_active q' = calc_load_active q.
Proof.
  revert q. induction fuel as [|fuel IH]; intros q; cbn [avg_loop]; destruct (period <? _); try (by intros [= ->]).
  intros Hq. by rewrite (IH _ Hq).
Qed.

Lemma keeps_cpu_load c : keeps (update_cpu_load c).
Proof.
  assert (keeps (sched_avg_update c)) as Havg.
  { apply frames_bind; [done|]. intros period s. unfold mbind, M_bind.
    destruct (cpus s !! c) as [q|] eqn:Hq.
    - rewrite (load_cpu_eq s c q Hq). destruct (avg_loop _ _ q) as [q'|] eqn:Hl; [|done].
      rewrite (store_cpu_eq s c q) by done. unfold counters_of. simpl.
      rewrite fmap_insert, (avg_loop_active _ _ _ _ Hl), insert_id; [done|]. by rewrite lookup_fmap, Hq.
    - unfold load_cpu, mbind, M_bind, get. by rewrite Hq. }
  unfold update_cpu_load, decay_load_missed. frame; by apply keeps_store.
Qed.

Lemma global_nohz_folded s : folded s → folded (res_state (calc_global_nohz s)).
Proof.
  intros Hf. unfold calc_global_nohz, mbind at 1, M_bind at 1.
  destruct (calc_load_fold_idle_ok s) as (d & s1 & -> & -> & ->). unfold mbind at 1, M_bind at 1.
  destruct (add_unless_zero (s <| calc_load_tasks_idle := 0 |>) (calc_load_tasks_idle s)) as ([] & s1 & -> & ->).
  set (s1 := modify_field _ _). assert (folded s1) as Hf1.
  { unfold folded. change (sum_active s1) with (sum_active s). simpl. rewrite Z.add_0_r. by apply folded_add. }
  unfold mbind at 1, M_bind at 1, get. destruct (time_before _ _); [done|].
  destruct (avenrun s1) as [[a1 a5] a15]. eapply folded_counters; [|exact Hf1]. done.
Qed.

Lemma load_step_folded s s' : folded s → load_step s s' → folded s'.
Proof.
  intros Hf Hs. destruct Hs as [s c q running unint Hq|s now|s c s' Hrun|s c s' Hrun|s tick s' Hrun|s c s' Hrun].
  - eapply folded_counters; [|exact Hf]. unfold counters_of. simpl. rewrite fmap_insert, insert_id; [done|].
    by rewrite lookup_fmap, Hq.
  - done.
  - destruct (cpus s !! c) as [q|] eqn:Hq.
    + destruct (account_active_ok s c q Hq Hf) as ([] & s1 & Hrun' & Hs1). rewrite Hrun in Hrun'.
      injection Hrun' as <-. case_match; [by subst|]. by destruct Hs1 as (_ & _ & _ & ?).
    + unfold calc_load_account_active, load_cpu, mbind, M_bind, get in Hrun. by rewrite Hq in Hrun.
  - destruct (cpus s !! c) as [q|] eqn:Hq.
    + destruct (account_idle_ok s c q Hq Hf) as ([] & s1 & Hrun' & Hs1). rewrite Hrun in Hrun'.
      by injection Hrun' as <-.
    + unfold calc_load_account_idle, calc_load_fold_active, load_cpu, mbind, M_bind, get in Hrun.
      by rewrite Hq in Hrun.
  - unfold calc_global_load, mbind, M_bind, get in Hrun. destruct (time_before _ _); [by injection Hrun as <-|].
    destruct (avenrun s) as [[a1 a5] a15]. cbn [modify] in Hrun.
    match type of Hrun with calc_global_nohz ?s1 = _ =>
      assert (folded s1) as Hf1 by (eapply folded_counters; [|exact Hf]; done);
      pose proof (global_nohz_folded s1 Hf1) as Hf2; by rewrite Hrun in Hf2 end.
  - eapply folded_counters; [|exact Hf]. pose proof (keeps_cpu_load c s) as Hk. by rewrite Hrun in Hk.
Qed.

Lemma load_init_folded s : load_init s → folded s.
Proof.
  intros (Ht & Hi & Ha). unfold folded. rewrite Ht, Hi. f_equal. unfold sum_active, sum_cpus.
  revert Ha. generalize (cpus s). apply (map_fold_weak_ind (λ r m, (∀ c q, m !! c = Some q → calc_load_active q = 0) → 0 + 0 = r)).
  - done.
  - intros c q m r Hm IH Ha. rewrite (Ha c q) by apply lookup_insert_eq. rewrite <- IH; [done|].
    intros c' q' Hq'. apply (Ha c'). rewrite lookup_insert_ne; [done|]. intros ->. congruence.
Qed.

(** Accounting of every processor in [l], with the time that has come. *)
Lemma account_all l s :
  NoDup l → folded s → l ≠ [] →
  (∀ c, c ∈ l → ∃ q, cpus s !! c = Some q ∧ time_before (jiffies s) (rq_calc_load_update q) = false) →
  returns (for_each l calc_load_account_active) s (λ _ s', folded s' ∧ calc_load_tasks_idle s' = 0 ∧
    ∀ c, if decide (c ∈ l) then ∃ q q', cpus s !! c = Some q ∧ cpus s' !! c = Some q' ∧
                               nr_active q' = nr_active q ∧ calc_load_active q' = nr_active q
         else cpus s' !! c = cpus s !! c).
Proof.
  revert s. induction l as [|c l IH]; intros s Hnd Hf Hne Hdue; [done|]. apply NoDup_cons in Hnd as [Hc Hnd].
  destruct (Hdue c) as (q & Hq & Ht); [left|]. cbn [for_each]. apply returns_bind.
  eapply returns_mono; [by apply (account_active_ok s c q)|]. rewrite Ht.
  intros [] s1 (Hc1 & Hj1 & Hi1 & Hf1). set (q1 := q <| calc_load_active := _ |> <| rq_calc_load_update := _ |>) in Hc1.
  assert (∀ c', c' ≠ c → cpus s1 !! c' = cpus s !! c') as Hoth by (intros; by rewrite Hc1, lookup_insert_ne).
  assert (cpus s1 !! c = Some q1) as Hq1 by (by rewrite Hc1, lookup_insert_eq).
  destruct l as [|c2 l].
  - apply returns_ret. split_and!; [done|done|]. intros c'. destruct (decide (c' = c)) as [->|Hne'].
    + rewrite decide_True by left. by exists q, q1.
    + rewrite decide_False by set_solver. auto.
  - eapply returns_mono; [apply (IH s1 Hnd Hf1); [done|]|].
    { intros c' Hc'. rewrite Hoth by set_solver. rewrite Hj1. apply Hdue. by right. }
    intros [] s' (Hf' & Hi' & Hall). split_and!; [done|done|]. intros c'. specialize (Hall c').
    destruct (decide (c' = c)) as [->|Hne'].
    + rewrite decide_False in Hall by done. rewrite decide_True by left. exists q, q1.
      by rewrite Hall.
    + rewrite (Hoth c' Hne') in Hall. destruct (decide (c' ∈ c2 :: l)).
      * rewrite decide_True by (by right). done.
      * by rewrite decide_False by set_solver.
Qed.

Lemma sum_cpus_agree f g s s' :
  (∀ c, f <$> cpus s' !! c = g <$> cpus s !! c) → sum_cpus f s' = sum_cpus g s.
Proof.
  intros He. unfold sum_cpus.
  transitivity (map_fold (λ _, Z.add) 0 (f <$> cpus s')); [by rewrite map_fold_fmap|].
  transitivity (map_fold (λ _, Z.add) 0 (g <$> cpus s)); [|by rewrite map_fold_fmap].
  f_equal. apply map_eq. intros c. by rewrite !lookup_fmap.
Qed.

(** C35. The global count of active tasks is exact: in every sequence of task
    changes, ticks, processors going idle, updates of the averages and passing
    time, the two counters together hold what the processors have folded; and
    once every processor has accounted, the counter equals the running and
    uninterruptible tasks of all processors, in 32 bits. *)
Theorem calc_load_tasks_exact s l :
  reachable load_init load_step s →
  s32 (calc_load_tasks s + calc_load_tasks_idle s) = s32 (sum_cpus calc_load_active s) ∧
  (NoDup l → l ≠ [] → (∀ c, c ∈ l ↔ is_Some (cpus s !! c)) →
   (∀ c q, cpus s !! c = Some q → time_before (jiffies s) (rq_calc_load_update q) = false) →
   returns (for_each l calc_load_account_active) s (λ _ s',
     s32 (calc_load_tasks s') = s32 (sum_cpus nr_active s) ∧ calc_load_tasks_idle s' = 0)).
Proof.
  intros Hr. pose proof (reachable_inv _ _ _ load_init_folded load_step_folded s Hr) as Hf.
  split; [exact Hf|]. intros Hnd Hne Hl Hdue.
  eapply returns_mono; [apply (account_all l s Hnd Hf Hne)|].
  { intros c Hc. apply Hl in Hc as [q Hq]. exists q. split; [done|]. by eapply Hdue. }
  intros [] s' (Hf' & Hi & Hall). split; [|done]. unfold folded in Hf'. rewrite Hi, Z.add_0_r in Hf'.
  rewrite Hf'. f_equal. apply sum_cpus_agree. intros c. specialize (Hall c). case_decide as Hc.
  - destruct Hall as (q & q' & -> & -> & _ & Ha). simpl. by rewrite Ha.
  - rewrite Hall. destruct (cpus s !! c) eqn:Hq; [|done]. destruct Hc. apply Hl. by eexists.
Qed.
End Global.

(** ** A concrete machine: two processors, three running tasks *)

#[local] Instance hz_100 : LoadConfig := {| HZ := 100 |}.

Definition demo_cpu (running weight : Z) (loads : list Z) : load_rq :=
  mkLoadRq running 0 weight 0 1000 loads 1000 0 0 0 2000000000 1000000000 0.

Definition demo_load : load_state :=
  mkLoadState (<[0 := demo_cpu 2 2048 [2048; 2046; 2050; 2048; 2045]]> {[1 := demo_cpu 1 1024 [0; 0; 0; 0; 0]]})
    {[0; 1]} 0 0 1000 (0, 0, 93) 1000 1000.

Lemma fixed_power_int_accurate_witness :
  fixed_power_int EXP_1 FSHIFT 12 = 751 ∧ 0 ≤ fixed_power_int EXP_1 FSHIFT 12 ≤ 2 ^ FSHIFT.
Proof.
  split; [by vm_compute|]. apply (fixed_power_int_accurate EXP_1 FSHIFT 12); by vm_compute.
Defined.

Lemma decay_load_missed_accurate_witness :
  returns (decay_load_missed 1024 8 2) demo_load (λ r s', r = 96 ∧ s' = demo_load).
Proof.
  destruct (decay_load_missed_accurate 1024 8 2 demo_load) as (r & s' & Hrun & -> & _); [by vm_compute..|].
  exists r, demo_load. split; [done|]. vm_compute in Hrun. by injection Hrun.
Defined.

Lemma cpu_load_settles_witness :
  returns (ticks 3 0) demo_load (λ _ s', ∃ q', cpus s' !! 0 = Some q' ∧ cpu_load q' = replicate 5 2048).
Proof.
  eapply returns_mono.
  - apply (cpu_load_settles demo_load 0 (demo_cpu 2 2048 [2048; 2046; 2050; 2048; 2045]) 3);
      [reflexivity|by vm_compute| |reflexivity|by vm_compute|].
    + split; [done|]. split; [|by vm_compute]. do 5 (apply Forall_cons_2; [by vm_compute|]). by apply Forall_nil.
    + do 5 (apply Forall_cons_2; [by vm_compute|]). by apply Forall_nil.
  - intros [] s' Hs. exact Hs.
Defined.

Lemma calc_global_load_bounds_witness :
  returns (calc_global_load 1) (demo_load <| jiffies := 5000 |> <| calc_load_tasks := 3 |>)
    (λ _ s', overdue s' < 0 ∧ calc_load_tasks s' = 3).
Proof.
  eapply returns_mono; [apply calc_global_load_bounds; by vm_compute|].
  intros [] s' (Ho & _ & Hs). split; [done|]. by destruct Hs.
Defined.

Lemma demo_load_cpus c q : cpus demo_load !! c = Some q →
  (c = 0 ∨ c = 1) ∧ calc_load_active q = 0 ∧ rq_calc_load_update q = 1000.
Proof.
  unfold demo_load. simpl. intros Hq. apply lookup_insert_Some in Hq as [[<- <-]|[_ Hq]]; [auto|].
  apply lookup_singleton_Some in Hq as [<- <-]. auto.
Qed.

Lemma calc_load_tasks_exact_witness :
  returns (for_each [0; 1] calc_load_account_active) demo_load (λ _ s', s32 (calc_load_tasks s') = 3).
Proof.
  destruct (calc_load_tasks_exact demo_load [0; 1]) as [_ Hall].
  { exists demo_load. split; [|apply rtc_refl]. split_and!; [done|done|].
    intros c q Hq. by destruct (demo_load_cpus c q Hq) as (_ & ? & _). }
  eapply returns_mono; [apply Hall|].
  - by apply (bool_decide_unpack _); vm_compute.
  - done.
  - intros c. rewrite !elem_of_cons, elem_of_nil. split.
    + intros [->|[->|[]]]; by eexists.
    + intros [q Hq]. destruct (demo_load_cpus c q Hq) as ([->| ->] & _); auto.
  - intros c q Hq. destruct (demo_load_cpus c q Hq) as (_ & _ & ->). by vm_compute.
  - intros [] s' [Hs _]. rewrite Hs. by vm_compute.
Defined.

(** The 15 minute average of an idle machine stays at 93/2048: it is shown as 0.05
    for ever. *)
Lemma calc_load_stuck : calc_load 93 EXP_15 0 = 93.
Proof. by vm_compute. Qed.
