(* ===== verification/CpuTime.v ===== *)
(** * Accounting of processor time: [core.c]

    Every tick is booked on the task it interrupted, on a counter of the processor and
    on the accounting groups ([struct cpuacct]) of the task; run time in nanoseconds is
    charged to the groups as well.  The times a task reports are scaled to its precise
    run time.

    [cputime_t] is [unsigned long] (32 bits, in ticks), the counters of a processor have
    64 bits.  Time of interrupts may be measured (CONFIG_IRQ_TIME_ACCOUNTING) and time
    stolen by a hypervisor (CONFIG_PARAVIRT). *)

From S2P Require Import Prelude.

(** What is used of the rest of the kernel. *)
Class TimeEnv : Type := {
  tick_nsec : Z;                           (** [TICK_NSEC] *)
  cputime_one_jiffy : Z;
  cputime_to_scaled : Z → Z;
  jiffies_to_cputime : Z → Z;
  nsecs_to_cputime : Z → Z;
  nsecs_to_cputime64 : Z → Z;
  cputime64_to_clock_t : Z → Z;
  present_cpus : list Z;
  online_cpus : list Z
}.

Definition NSEC_PER_SEC : Z := 1000000000.
Definition HARDIRQ_OFFSET : Z := 65536.

Inductive cputime_index :=
  | CPUTIME_USER | CPUTIME_NICE | CPUTIME_SYSTEM | CPUTIME_SOFTIRQ | CPUTIME_IRQ
  | CPUTIME_IDLE | CPUTIME_IOWAIT | CPUTIME_STEAL | CPUTIME_GUEST | CPUTIME_GUEST_NICE.
#[export] Instance cputime_index_eq_dec : EqDecision cputime_index.
Proof. solve_decision. Defined.

(** Counters of one processor. *)
Definition cpustat : Type := cputime_index → Z.

Definition add_stat (i : cputime_index) (t : Z) (c : cpustat) : cpustat :=
  λ j, if decide (j = i) then u64 (c j + t) else c j.

(** The times of a task. *)
Record task_time : Type := mkTaskTime {
  utime : Z;
  stime : Z;
  utimescaled : Z;
  stimescaled : Z;
  gtime : Z;
  prev_utime : Z;
  prev_stime : Z;
  sum_exec_runtime : Z;
  task_nice : Z;                           (** [TASK_NICE] *)
  pf_vcpu : bool;                          (** [flags & PF_VCPU] *)
  on_cpu : Z;                              (** [task_cpu] *)
  acct_group : option Z                    (** [task_ca] *)
}.
#[export] Instance task_time_eta : Settable task_time := λ r,
  mkTaskTime (utime r) (stime r) (utimescaled r) (stimescaled r) (gtime r) (prev_utime r) (prev_stime r)
    (sum_exec_runtime r) (task_nice r) (pf_vcpu r) (on_cpu r) (acct_group r).

(** An accounting group. *)
Record cpuacct : Type := mkCpuacct {
  ca_parent : option Z;                    (** of its [cgroup]; none for the root *)
  cpuusage : gmap Z Z;                     (** by processor, nanoseconds *)
  ca_stat : gmap Z cpustat
}.
#[export] Instance cpuacct_eta : Settable cpuacct := λ r, mkCpuacct (ca_parent r) (cpuusage r) (ca_stat r).

(** Times of a thread group, [struct signal_struct]. *)
Record group_prev : Type := mkGroupPrev { sig_prev_utime : Z; sig_prev_stime : Z }.

Record time_state : Type := mkTimeState {
  times : gmap Z task_time;
  kernel_cpustat : gmap Z cpustat;
  accts : gmap Z cpuacct;
  cpuacct_active : bool;
  iowaits : gmap Z Z;                      (** [nr_iowait] of the run queues *)
  prev_steal_time : gmap Z Z;
  cpu_hardirq_time : gmap Z Z;
  cpu_softirq_time : gmap Z Z;
  irq_start_time : gmap Z Z;
  sched_clock_irqtime : bool;
  sig_prev : gmap Z group_prev
}.
#[export] Instance time_state_eta : Settable time_state := λ s,
  mkTimeState (times s) (kernel_cpustat s) (accts s) (cpuacct_active s) (iowaits s) (prev_steal_time s)
    (cpu_hardirq_time s) (cpu_softirq_time s) (irq_start_time s) (sched_clock_irqtime s) (sig_prev s).

(** What a processor is doing. *)
Record cpu_context : Type := mkContext {
  this_cpu : Z;
  idle : Z;                                (** [rq->idle] *)
  ksoftirqd : Z;
  irq_count : Z;
  hardirq_count : Z;
  in_serving_softirq : bool;
  sched_clock : Z;
  steal_clock : option Z                   (** [paravirt_steal_clock], if enabled *)
}.

Section CpuTime.
Context `{TimeEnv}.
Abbreviation T := (M time_state).
Implicit Types (c : cpu_context) (p : Z).

Definition root_cpuacct : Z := 0.

Definition load_time p : T task_time := s ← get; deref (times s !! p).

Definition store_time p (f : task_time → task_time) : T unit :=
  t ← load_time p; modify (λ s, s <| times ::= <[p := f t]> |>).

Definition stat_of (m : gmap Z cpustat) (cpu : Z) : cpustat := default (λ _, 0) (m !! cpu).

Definition add_cpustat (cpu : Z) (i : cputime_index) (t : Z) : T unit :=
  modify (λ s, s <| kernel_cpustat ::= λ m, <[cpu := add_stat i t (stat_of m cpu)]> m |>).

(** ** Accounting groups *)

(** [parent_ca]; [None] for the null pointer. *)
Definition parent_ca (ca : Z) : T (option Z) := s ← get; a ← deref (accts s !! ca); mret (ca_parent a).

(** The groups above a task, up to but not including the root.  The bound is the number
    of groups. *)
Fixpoint account_groups (fuel : nat) (cpu : Z) (ca : option Z) (i : cputime_index) (t : Z) : T unit :=
  match ca, fuel with
  | None, _ => mret tt
  | Some g, O => if g =? root_cpuacct then mret tt else fail OutOfFuel
  | Some g, S fuel' =>
      if g =? root_cpuacct then mret tt
      else
        s ← get;
        a ← deref (accts s !! g);
        _ ← modify (λ s, s <| accts ::= <[g := a <| ca_stat ::= λ m, <[cpu := add_stat i t (stat_of m cpu)]> m |>]> |>);
        up ← parent_ca g;
        account_groups fuel' cpu up i t
  end.

Definition task_group_account_field c p (i : cputime_index) (tmp : Z) : T unit :=
  _ ← add_cpustat (this_cpu c) i tmp;
  s ← get;
  if negb (cpuacct_active s) then mret tt
  else
    t ← load_time p;
    account_groups (size (accts s)) (this_cpu c) (acct_group t) i tmp.

Fixpoint charge_groups (fuel : nat) (cpu : Z) (ca : option Z) (cputime : Z) : T unit :=
  match ca, fuel with
  | None, _ => mret tt
  | Some _, O => fail OutOfFuel
  | Some g, S fuel' =>
      s ← get;
      a ← deref (accts s !! g);
      _ ← modify (λ s, s <| accts ::= <[g := a <| cpuusage ::= λ m, <[cpu := u64 (default 0 (m !! cpu) + cputime)]> m |>]> |>);
      up ← parent_ca g;
      charge_groups fuel' cpu up cputime
  end.

Definition cpuacct_charge p (cputime : Z) : T unit :=
  s ← get;
  if negb (cpuacct_active s) then mret tt
  else
    t ← load_time p;
    charge_groups (size (accts s)) (on_cpu t) (acct_group t) cputime.

Definition ENOMEM : Z := 12.
Definition EINVAL : Z := 22.

(** The group [ca] of a new container; [ok] tells which of the three allocations
    succeed.  The root has its group already. *)
Definition cpuacct_create (parent : option Z) (ca : Z) (ok : bool * bool * bool) : T (Z + Z) :=
  match parent with
  | None => mret (inl root_cpuacct)
  | Some g =>
      let '(ok_ca, ok_usage, ok_stat) := ok in
      if ok_ca && ok_usage && ok_stat then
        _ ← modify (λ s, s <| accts ::= <[ca := mkCpuacct (Some g) ∅ ∅]> |>);
        mret (inl ca)
      else mret (inr (- ENOMEM))
  end.

Definition cpuacct_destroy (ca : Z) : T unit := modify (λ s, s <| accts ::= delete ca |>).

Definition cpuacct_cpuusage_read (ca cpu : Z) : T Z :=
  s ← get; a ← deref (accts s !! ca); mret (default 0 (cpuusage a !! cpu)).

Definition cpuacct_cpuusage_write (ca cpu val : Z) : T unit :=
  s ← get;
  a ← deref (accts s !! ca);
  modify (λ s, s <| accts ::= <[ca := a <| cpuusage ::= <[cpu := val]> |>]> |>).

Fixpoint sum_usage (ca : Z) (cpus : list Z) (total : Z) : T Z :=
  match cpus with
  | [] => mret total
  | i :: cpus' => n ← cpuacct_cpuusage_read ca i; sum_usage ca cpus' (u64 (total + n))
  end.

Definition cpuusage_read (ca : Z) : T Z := sum_usage ca present_cpus 0.

Definition cpuusage_write (ca reset : Z) : T Z :=
  if negb (reset =? 0) then mret (- EINVAL)
  else
    _ ← for_each present_cpus (λ i, cpuacct_cpuusage_write ca i 0);
    mret 0.

(** The numbers that are printed. *)
Fixpoint percpu_usage (ca : Z) (cpus : list Z) : T (list Z) :=
  match cpus with
  | [] => mret []
  | i :: cpus' => n ← cpuacct_cpuusage_read ca i; l ← percpu_usage ca cpus'; mret (n :: l)
  end.

Definition cpuacct_percpu_seq_read (ca : Z) : T (list Z) := percpu_usage ca present_cpus.

Definition sum_stats (stats : gmap Z cpustat) (ixs : list cputime_index) : Z :=
  foldl (λ val cpu, foldl (λ val i, s64 (val + stat_of stats cpu i)) val ixs) 0 online_cpus.

(** [ca->cpustat]: the counters of the root are those of the processors, as [sched_init]
    sets them. *)
Definition acct_stats (s : time_state) (ca : Z) (a : cpuacct) : gmap Z cpustat :=
  if ca =? root_cpuacct then kernel_cpustat s else ca_stat a.

Definition cpuacct_stats_show (ca : Z) : T (Z * Z) :=
  s ← get;
  a ← deref (accts s !! ca);
  let stats := acct_stats s ca a in
  mret (s64 (cputime64_to_clock_t (u64 (sum_stats stats [CPUTIME_USER; CPUTIME_NICE]))),
        s64 (cputime64_to_clock_t (u64 (sum_stats stats [CPUTIME_SYSTEM; CPUTIME_IRQ; CPUTIME_SOFTIRQ])))).

(** ** Time of interrupts *)

Definition enable_sched_clock_irqtime : T unit := modify (λ s, s <| sched_clock_irqtime := true |>).
Definition disable_sched_clock_irqtime : T unit := modify (λ s, s <| sched_clock_irqtime := false |>).

(** The sequence counter is for readers on other processors. *)
Definition irq_time_read (s : time_state) (cpu : Z) : Z :=
  u64 (default 0 (cpu_softirq_time s !! cpu) + default 0 (cpu_hardirq_time s !! cpu)).

Definition account_system_vtime c p : T unit :=
  s ← get;
  if negb (sched_clock_irqtime s) then mret tt
  else
    let cpu := this_cpu c in
    let delta := s64 (sched_clock c - default 0 (irq_start_time s !! cpu)) in
    _ ← modify (λ s, s <| irq_start_time ::= λ m, <[cpu := u64 (default 0 (m !! cpu) + delta)]> m |>);
    if negb (hardirq_count c =? 0) then
      modify (λ s, s <| cpu_hardirq_time ::= λ m, <[cpu := u64 (default 0 (m !! cpu) + delta)]> m |>)
    else if in_serving_softirq c && negb (p =? ksoftirqd c) then
      modify (λ s, s <| cpu_softirq_time ::= λ m, <[cpu := u64 (default 0 (m !! cpu) + delta)]> m |>)
    else mret tt.

Definition irqtime_account_hi_update (s : time_state) c : bool :=
  stat_of (kernel_cpustat s) (this_cpu c) CPUTIME_IRQ <? nsecs_to_cputime64 (default 0 (cpu_hardirq_time s !! this_cpu c)).

Definition irqtime_account_si_update (s : time_state) c : bool :=
  stat_of (kernel_cpustat s) (this_cpu c) CPUTIME_SOFTIRQ <? nsecs_to_cputime64 (default 0 (cpu_softirq_time s !! this_cpu c)).

(** ** Booking of ticks *)

(** Both the division and the iteration give the quotient. *)
Definition steal_ticks (steal : Z) : Z :=
  if NSEC_PER_SEC <? steal then steal / tick_nsec else steal / tick_nsec.

(** The timers of the thread group and the integrals of the process accounting, which the
    source updates as well, are kept outside of this repository. *)
Definition account_user_time c p (cputime cputime_scaled : Z) : T unit :=
  _ ← store_time p (λ t, t <| utime := u32 (utime t + cputime) |> <| utimescaled := u32 (utimescaled t + cputime_scaled) |>);
  t ← load_time p;
  let index := if 0 <? task_nice t then CPUTIME_NICE else CPUTIME_USER in
  task_group_account_field c p index cputime.

Definition account_guest_time c p (cputime cputime_scaled : Z) : T unit :=
  _ ← store_time p (λ t, t <| utime := u32 (utime t + cputime) |> <| utimescaled := u32 (utimescaled t + cputime_scaled) |>
                           <| gtime := u32 (gtime t + cputime) |>);
  t ← load_time p;
  if 0 <? task_nice t then
    _ ← add_cpustat (this_cpu c) CPUTIME_NICE cputime;
    add_cpustat (this_cpu c) CPUTIME_GUEST_NICE cputime
  else
    _ ← add_cpustat (this_cpu c) CPUTIME_USER cputime;
    add_cpustat (this_cpu c) CPUTIME_GUEST cputime.

Definition __account_system_time c p (cputime cputime_scaled : Z) (index : cputime_index) : T unit :=
  _ ← store_time p (λ t, t <| stime := u32 (stime t + cputime) |> <| stimescaled := u32 (stimescaled t + cputime_scaled) |>);
  task_group_account_field c p index cputime.

Definition account_system_time c p (hardirq_offset cputime cputime_scaled : Z) : T unit :=
  t ← load_time p;
  if pf_vcpu t && (irq_count c - hardirq_offset =? 0) then account_guest_time c p cputime cputime_scaled
  else
    let index :=
      if negb (hardirq_count c - hardirq_offset =? 0) then CPUTIME_IRQ
      else if in_serving_softirq c then CPUTIME_SOFTIRQ
      else CPUTIME_SYSTEM in
    __account_system_time c p cputime cputime_scaled index.

Definition account_steal_time c (cputime : Z) : T unit := add_cpustat (this_cpu c) CPUTIME_STEAL cputime.

Definition account_idle_time c (cputime : Z) : T unit :=
  s ← get;
  if 0 <? default 0 (iowaits s !! this_cpu c) then add_cpustat (this_cpu c) CPUTIME_IOWAIT cputime
  else add_cpustat (this_cpu c) CPUTIME_IDLE cputime.

Definition steal_account_process_tick c : T bool :=
  match steal_clock c with
  | None => mret false
  | Some clock =>
      s ← get;
      let prev := default 0 (prev_steal_time s !! this_cpu c) in
      let st := steal_ticks (u64 (clock - prev)) in
      _ ← modify (λ s, s <| prev_steal_time ::= <[this_cpu c := u64 (prev + st * tick_nsec)]> |>);
      _ ← account_steal_time c (u32 st);
      mret (negb (st =? 0))
  end.

Definition irqtime_account_process_tick c p (user_tick : bool) : T unit :=
  let one_jiffy_scaled := cputime_to_scaled cputime_one_jiffy in
  stolen ← steal_account_process_tick c;
  if stolen : bool then mret tt
  else
    s ← get;
    if irqtime_account_hi_update s c then add_cpustat (this_cpu c) CPUTIME_IRQ cputime_one_jiffy
    else if irqtime_account_si_update s c then add_cpustat (this_cpu c) CPUTIME_SOFTIRQ cputime_one_jiffy
    else if ksoftirqd c =? p then __account_system_time c p cputime_one_jiffy one_jiffy_scaled CPUTIME_SOFTIRQ
    else if user_tick then account_user_time c p cputime_one_jiffy one_jiffy_scaled
    else if p =? idle c then account_idle_time c cputime_one_jiffy
    else
      t ← load_time p;
      if pf_vcpu t then account_guest_time c p cputime_one_jiffy one_jiffy_scaled
      else __account_system_time c p cputime_one_jiffy one_jiffy_scaled CPUTIME_SYSTEM.

(** [p] is the current task. *)
Definition irqtime_account_idle_ticks c p (ticks : Z) : T unit :=
  for_each (seqZ 0 ticks) (λ _, irqtime_account_process_tick c p false).

Definition account_process_tick c p (user_tick : bool) : T unit :=
  let one_jiffy_scaled := cputime_to_scaled cputime_one_jiffy in
  s ← get;
  if sched_clock_irqtime s then irqtime_account_process_tick c p user_tick
  else
    stolen ← steal_account_process_tick c;
    if stolen : bool then mret tt
    else if user_tick then account_user_time c p cputime_one_jiffy one_jiffy_scaled
    else if negb (p =? idle c) || negb (irq_count c =? HARDIRQ_OFFSET)
    then account_system_time c p HARDIRQ_OFFSET cputime_one_jiffy one_jiffy_scaled
    else account_idle_time c cputime_one_jiffy.

Definition account_steal_ticks c (ticks : Z) : T unit := account_steal_time c (jiffies_to_cputime ticks).

Definition account_idle_ticks c p (ticks : Z) : T unit :=
  s ← get;
  if sched_clock_irqtime s then irqtime_account_idle_ticks c p (s32 ticks)
  else account_idle_time c (jiffies_to_cputime ticks).

(** ** Reported times *)

(** User time out of the precise run time, in the proportion of the ticks. *)
Definition scale_utime (rtime ut total : Z) : Z :=
  if negb (total =? 0) then u32 (u64 (rtime * ut) / total) else rtime.

Definition task_times p : T (Z * Z) :=
  t ← load_time p;
  let total := u32 (utime t + stime t) in
  let rtime := nsecs_to_cputime (sum_exec_runtime t) in
  let ut := scale_utime rtime (utime t) total in
  let prev_ut := Z.max (prev_utime t) ut in
  let prev_st := Z.max (prev_stime t) (u32 (rtime - prev_ut)) in
  _ ← store_time p (λ t, t <| prev_utime := prev_ut |> <| prev_stime := prev_st |>);
  mret (prev_ut, prev_st).

(** The thread group [sig], with the sums [thread_group_cputime] gives. *)
Definition thread_group_times (sig : Z) (cputime : Z * Z * Z) : T (Z * Z) :=
  s ← get;
  g ← deref (sig_prev s !! sig);
  let '(group_utime, group_stime, group_runtime) := cputime in
  let total := u32 (group_utime + group_stime) in
  let rtime := nsecs_to_cputime group_runtime in
  let ut := scale_utime rtime group_utime total in
  let prev_ut := Z.max (sig_prev_utime g) ut in
  let prev_st := Z.max (sig_prev_stime g) (u32 (rtime - prev_ut)) in
  _ ← modify (λ s, s <| sig_prev ::= <[sig := mkGroupPrev prev_ut prev_st]> |>);
  mret (prev_ut, prev_st).
End CpuTime.
