(* ===== verification/CpuTimeSpec.v ===== *)
(** * Where processor time is booked

    The groups above a task form a chain to the root; a charge reaches every group of
    the chain once, and the number of groups bounds the walk.  A tick is booked on one
    counter of the processor, which the conditions at the tick determine, and on the task
    and its groups accordingly; guest time is on no group.  The times a task reports add up
    to its run time and never decrease. *)

From S2P Require Import Prelude CpuTime.

Section CpuTimeSpec.
Context `{TimeEnv}.
Implicit Types (c : cpu_context) (p : Z) (s : time_state).

(** ** Chains of groups *)

(** [l] are the groups from [ca] up to the one without a parent. *)
Fixpoint chain (m : gmap Z cpuacct) (ca : option Z) (l : list Z) : Prop :=
  match l with
  | [] => ca = None
  | g :: l' => ca = Some g ∧ ∃ a, m !! g = Some a ∧ chain m (ca_parent a) l'
  end.

Lemma chain_functional m ca l1 l2 : chain m ca l1 → chain m ca l2 → l1 = l2.
Proof.
  revert ca l2. induction l1 as [|g l1 IH]; intros ca [|g' l2] H1 H2; simpl in *.
  - done.
  - destruct H2 as [-> _]. done.
  - destruct H1 as [-> _]. done.
  - destruct H1 as (-> & a & Ha & H1), H2 as (Hg & a' & Ha' & H2). simplify_eq.
    f_equal. by eapply IH.
Qed.

Lemma chain_suffix m ca l1 g l2 : chain m ca (l1 ++ g :: l2) → chain m (Some g) (g :: l2).
Proof.
  revert ca. induction l1 as [|x l1 IH]; intros ca Hc; simpl in *.
  - destruct Hc as (_ & a & Ha & Hc). eauto.
  - destruct Hc as (_ & a & Ha & Hc). by eapply IH.
Qed.

(** No group is its own ancestor: the chain below would be as long as the one above. *)
Lemma chain_nodup m ca l : chain m ca l → NoDup l.
Proof.
  revert ca. induction l as [|g l IH]; intros ca Hc; constructor.
  - intros Hin. apply list_elem_of_split in Hin as (l1 & l2 & ->).
    pose proof (chain_suffix m ca (g :: l1) g l2 Hc) as H2. destruct Hc as [-> Hc].
    assert (Hg : chain m (Some g) (g :: l1 ++ g :: l2)) by (split; [done|exact Hc]).
    pose proof (chain_functional _ _ _ _ Hg H2) as E.
    apply (f_equal length) in E. simpl in E. rewrite length_app in E. simpl in E. lia.
  - destruct Hc as (-> & a & Ha & Hc). by eapply IH.
Qed.

Lemma chain_in m ca l g : chain m ca l → g ∈ l → is_Some (m !! g).
Proof.
  revert ca. induction l as [|x l IH]; intros ca Hc Hg; [by apply not_elem_of_nil in Hg|].
  destruct Hc as (-> & a & Ha & Hc). apply elem_of_cons in Hg as [-> | Hg]; eauto.
Qed.

Lemma chain_size m ca l : chain m ca l → (length l ≤ size m)%nat.
Proof.
  intros Hc. rewrite <- size_dom.
  rewrite <- (size_list_to_set (C := gset Z) l (chain_nodup _ _ _ Hc)).
  apply subseteq_size. intros g Hg. apply elem_of_list_to_set in Hg.
  apply elem_of_dom. by eapply chain_in.
Qed.

(** A write to a counter leaves the chain. *)
Lemma chain_update m ca l g a a' :
  m !! g = Some a → ca_parent a' = ca_parent a → chain m ca l → chain (<[g := a']> m) ca l.
Proof.
  intros Hg Hp. revert ca. induction l as [|x l IH]; intros ca Hc; [done|].
  destruct Hc as (-> & b & Hb & Hc). split; [done|]. destruct (decide (x = g)) as [-> | Hne].
  - simplify_eq. exists a'. rewrite lookup_insert_eq, Hp. auto.
  - exists b. rewrite lookup_insert_ne by done. auto.
Qed.

(** ** Charges *)

Definition charge_acct (cpu cputime : Z) (a : cpuacct) : cpuacct :=
  a <| cpuusage ::= λ m, <[cpu := u64 (default 0 (m !! cpu) + cputime)]> m |>.

Definition book_acct (cpu : Z) (i : cputime_index) (t : Z) (a : cpuacct) : cpuacct :=
  a <| ca_stat ::= λ m, <[cpu := add_stat i t (stat_of m cpu)]> m |>.

(** The groups of [l] changed by [h], the others kept. *)
Definition on_groups (l : list Z) (h : cpuacct → cpuacct) (m m' : gmap Z cpuacct) : Prop :=
  ∀ g, m' !! g = (if decide (g ∈ l) then h else id) <$> m !! g.

Lemma on_groups_nil h m : on_groups [] h m m.
Proof.
  intros g. destruct (decide (g ∈ [])) as [Hg|_]; [by apply not_elem_of_nil in Hg|]. by destruct (m !! g).
Qed.

Lemma on_groups_cons g l h m m' a :
  g ∉ l → m !! g = Some a → on_groups l h (<[g := h a]> m) m' → on_groups (g :: l) h m m'.
Proof.
  intros Hn Ha Ho x. rewrite (Ho x). destruct (decide (x = g)) as [-> | Hne].
  - rewrite lookup_insert_eq, Ha, (decide_False (P := g ∈ l)) by done.
    by destruct (decide (g ∈ g :: l)) as [|[]]; [|left].
  - rewrite lookup_insert_ne by done.
    destruct (decide (x ∈ l)) as [Hx|Hx], (decide (x ∈ g :: l)) as [Hy|Hy]; [done| | |done].
    + destruct Hy. by right.
    + apply elem_of_cons in Hy as [|]; done.
Qed.

Lemma charge_groups_chain cpu cputime l : ∀ fuel ca s,
  chain (accts s) ca l → (length l ≤ fuel)%nat →
  returns (charge_groups fuel cpu ca cputime) s (λ _ s', ∃ m', s' = s <| accts := m' |> ∧
    on_groups l (charge_acct cpu cputime) (accts s) m').
Proof.
  induction l as [|g l IH]; intros fuel ca s Hc Hl.
  - simpl in Hc. subst. eapply (returns_eq _ _ tt s); [by destruct fuel|].
    exists (accts s). split; [by destruct s|]. apply on_groups_nil.
  - pose proof (chain_nodup _ _ _ Hc) as Hnd. apply NoDup_cons in Hnd as [Hn Hnd].
    destruct Hc as (-> & a & Ha & Hc). destruct fuel as [|fuel]; [simpl in Hl; lia|].
    set (s1 := s <| accts ::= <[g := charge_acct cpu cputime a]> |>).
    destruct (IH fuel (ca_parent a) s1) as ([] & s' & Hr & m' & -> & Ho).
    { subst s1. simpl. eapply chain_update; [exact Ha|done|exact Hc]. }
    { simpl in Hl. lia. }
    eapply (returns_eq _ _ tt (s1 <| accts := m' |>)).
    + simpl. unfold parent_ca. mstep. rewrite Ha. mstep. rewrite lookup_insert_eq. exact Hr.
    + exists m'. split; [done|]. by eapply on_groups_cons.
Qed.

(** The walk of [task_group_account_field] stops below the root. *)
Fixpoint below_root (l : list Z) : list Z :=
  match l with
  | [] => []
  | g :: l' => if g =? root_cpuacct then [] else g :: below_root l'
  end.

Lemma below_root_in g l : g ∈ below_root l → g ∈ l.
Proof.
  induction l as [|x l IH]; simpl; [done|]. destruct (x =? root_cpuacct); intros Hg.
  - by apply not_elem_of_nil in Hg.
  - apply elem_of_cons in Hg as [-> | Hg]; [left|right; auto].
Qed.

Lemma account_groups_chain cpu i t l : ∀ fuel ca s,
  chain (accts s) ca l → (length l ≤ fuel)%nat →
  returns (account_groups fuel cpu ca i t) s (λ _ s', ∃ m', s' = s <| accts := m' |> ∧
    on_groups (below_root l) (book_acct cpu i t) (accts s) m').
Proof.
  induction l as [|g l IH]; intros fuel ca s Hc Hl.
  - simpl in Hc. subst. eapply (returns_eq _ _ tt s); [by destruct fuel|].
    exists (accts s). split; [by destruct s|]. apply on_groups_nil.
  - pose proof (chain_nodup _ _ _ Hc) as Hnd. apply NoDup_cons in Hnd as [Hn Hnd].
    destruct Hc as (-> & a & Ha & Hc). destruct fuel as [|fuel]; [simpl in Hl; lia|].
    simpl below_root. destruct (g =? root_cpuacct) eqn:Er.
    { eapply (returns_eq _ _ tt s); [simpl; by rewrite Er|].
      exists (accts s). split; [by destruct s|]. apply on_groups_nil. }
    set (s1 := s <| accts ::= <[g := book_acct cpu i t a]> |>).
    destruct (IH fuel (ca_parent a) s1) as ([] & s' & Hr & m' & -> & Ho).
    { subst s1. simpl. eapply chain_update; [exact Ha|done|exact Hc]. }
    { simpl in Hl. lia. }
    eapply (returns_eq _ _ tt (s1 <| accts := m' |>)).
    + simpl. rewrite Er. unfold parent_ca. mstep. rewrite Ha. mstep. rewrite lookup_insert_eq. exact Hr.
    + exists m'. split; [done|]. eapply on_groups_cons; [|exact Ha|exact Ho].
      intros Hg. by apply below_root_in in Hg.
Qed.

(** Run time is charged to the whole chain of groups of the task: when its group has
    a chain of parents to the top, [cpuacct_charge] returns, adds [cputime] to the usage of
    every group of the chain, root included, exactly once and on the processor of the task,
    and changes nothing else; the walk never repeats a group.  Accounting that is not
    active changes nothing. *)
Theorem cpuacct_charge_exact s p t l cputime :
  times s !! p = Some t →
  chain (accts s) (acct_group t) l →
  NoDup l ∧
  returns (cpuacct_charge p cputime) s (λ _ s', ∃ m', s' = s <| accts := m' |> ∧
    ∀ g, m' !! g = (if cpuacct_active s && bool_decide (g ∈ l) then charge_acct (on_cpu t) cputime else id) <$> accts s !! g).
Proof.
  intros Hp Hc. split; [by eapply chain_nodup|]. unfold cpuacct_charge, load_time.
  destruct (cpuacct_active s) eqn:Ea.
  - destruct (charge_groups_chain (on_cpu t) cputime l (size (accts s)) (acct_group t) s Hc (chain_size _ _ _ Hc))
      as ([] & s' & Hr & m' & -> & Ho).
    eapply (returns_eq _ _ tt).
    + mstep. rewrite Ea. mstep. rewrite Hp. exact Hr.
    + exists m'. split; [done|]. intros g. rewrite (Ho g). rewrite bool_decide_decide. by destruct (decide (g ∈ l)).
  - eapply (returns_eq _ _ tt s); [mstep; by rewrite Ea|]. exists (accts s). split; [by destruct s|].
    intros g. by destruct (accts s !! g).
Qed.

(** ** Reported times *)

Lemma scale_utime_exact rtime ut total :
  in_u 32 rtime → in_u 32 ut → in_u 32 total → ut ≤ total →
  scale_utime rtime ut total = (if total =? 0 then rtime else rtime * ut / total) ∧
  0 ≤ scale_utime rtime ut total ≤ rtime.
Proof.
  intros Hr Hu Ht Hle. unfold scale_utime. destruct (total =? 0) eqn:E; bsimp; simpl.
  { split; [done|]. widths. lia. }
  assert (Hq : 0 ≤ rtime * ut / total ≤ rtime).
  { widths. split; [apply Z.div_pos; nia|]. apply Z.div_le_upper_bound; nia. }
  rewrite (uwrap_small 64) by (widths; nia). rewrite (uwrap_small 32) by (widths; lia). done.
Qed.

(** What a task has reported so far is within its run time. *)
Definition reported_ok (t : task_time) : Prop :=
  in_u 32 (utime t) ∧ in_u 32 (stime t) ∧ utime t + stime t < 2 ^ 32 ∧
  0 ≤ prev_stime t ∧ 0 ≤ prev_utime t ≤ nsecs_to_cputime (sum_exec_runtime t) ∧
  nsecs_to_cputime (sum_exec_runtime t) < 2 ^ 32.

Lemma task_times_run s p t :
  times s !! p = Some t →
  reported_ok t →
  ∃ ut st t',
    task_times p s = Ok (ut, st) (s <| times ::= <[p := t']> |>) ∧
    t' = t <| prev_utime := ut |> <| prev_stime := st |> ∧
    ut = Z.max (prev_utime t) (scale_utime (nsecs_to_cputime (sum_exec_runtime t)) (utime t) (utime t + stime t)) ∧
    st = Z.max (prev_stime t) (nsecs_to_cputime (sum_exec_runtime t) - ut) ∧
    prev_utime t ≤ ut ≤ nsecs_to_cputime (sum_exec_runtime t).
Proof.
  intros Hp (Hu & Hs & Ht & Hps & Hpu & Hrt).
  destruct (scale_utime_exact (nsecs_to_cputime (sum_exec_runtime t)) (utime t) (utime t + stime t)) as [_ Hsc];
    [widths; lia..|].
  eexists _, _, _. split_and!; [|reflexivity|reflexivity|reflexivity|lia|lia].
  unfold task_times, store_time, load_time. mstep. rewrite !Hp. mstep. rewrite Hp.
  rewrite (uwrap_small 32 (utime t + stime t)) by (widths; lia).
  rewrite (uwrap_small 32 (_ - _)) by (widths; lia). reflexivity.
Qed.

(** The times a task reports: while the ticks of the task fit 32 bits and what it
    reported is within its run time, [task_times] returns user and system time which are
    at least those of the call before; the user time is at most the precise run time, the
    two add up to at least the run time, and to exactly the run time unless the system
    time is the one reported before.  What is reported stays within the run time, so any
    sequence of calls, with run time and ticks growing in between, is monotonic. *)
Theorem task_times_monotonic s p t :
  times s !! p = Some t →
  reported_ok t →
  ∃ ut st t',
    task_times p s = Ok (ut, st) (s <| times ::= <[p := t']> |>) ∧
    prev_utime t ≤ ut ≤ nsecs_to_cputime (sum_exec_runtime t) ∧ prev_stime t ≤ st ∧
    nsecs_to_cputime (sum_exec_runtime t) ≤ ut + st ∧
    (ut + st = nsecs_to_cputime (sum_exec_runtime t) ∨ st = prev_stime t) ∧
    prev_utime t' = ut ∧ prev_stime t' = st ∧
    (∀ u v r, in_u 32 (utime t + u) → in_u 32 (stime t + v) → utime t + u + (stime t + v) < 2 ^ 32 →
       nsecs_to_cputime (sum_exec_runtime t) ≤ nsecs_to_cputime (sum_exec_runtime t + r) < 2 ^ 32 →
       reported_ok (t' <| utime := utime t + u |> <| stime := stime t + v |> <| sum_exec_runtime := sum_exec_runtime t + r |>)).
Proof.
  intros Hp Hok. destruct (task_times_run s p t Hp Hok) as (ut & st & t' & Hr & Ht' & Hut & Hst & Hb).
  destruct Hok as (_ & _ & _ & Hps & Hpu & _).
  exists ut, st, t'. split; [exact Hr|]. split_and!; [lia..| | |].
  - subst t'. reflexivity.
  - subst t'. reflexivity.
  - intros u v r Hu Hv Ht Hg. subst t'. unfold reported_ok. simpl. widths. lia.
Qed.

(** ** Ticks *)

(** Guest time is a part of user time, and is counted there too. *)
Definition user_index (t : task_time) : cputime_index := if 0 <? task_nice t then CPUTIME_NICE else CPUTIME_USER.
Definition guest_index (t : task_time) : cputime_index :=
  if 0 <? task_nice t then CPUTIME_GUEST_NICE else CPUTIME_GUEST.

(** [n] is booked on the counters [l] of the processor, and on no other. *)
Definition booked (cpu : Z) (l : list cputime_index) (n : Z) s s' : Prop :=
  (∀ j, stat_of (kernel_cpustat s') cpu j =
        (if decide (j ∈ l) then u64 (stat_of (kernel_cpustat s) cpu j + n) else stat_of (kernel_cpustat s) cpu j)) ∧
  (∀ cpu', cpu' ≠ cpu → kernel_cpustat s' !! cpu' = kernel_cpustat s !! cpu').

(** The counters of the processors have the same values. *)
Definition stats_kept (cpu : Z) s s' : Prop :=
  (∀ j, stat_of (kernel_cpustat s') cpu j = stat_of (kernel_cpustat s) cpu j) ∧
  (∀ cpu', cpu' ≠ cpu → kernel_cpustat s' !! cpu' = kernel_cpustat s !! cpu').

(** What no tick changes: everything but the times of tasks, the counters of processors
    and groups, and the stolen time seen so far. *)
Definition same s s' : Prop :=
  cpuacct_active s' = cpuacct_active s ∧ iowaits s' = iowaits s ∧
  cpu_hardirq_time s' = cpu_hardirq_time s ∧ cpu_softirq_time s' = cpu_softirq_time s ∧
  irq_start_time s' = irq_start_time s ∧ sched_clock_irqtime s' = sched_clock_irqtime s ∧ sig_prev s' = sig_prev s.

Lemma same_trans s1 s2 s3 : same s1 s2 → same s2 s3 → same s1 s3.
Proof. unfold same. intuition congruence. Qed.

(** Only the counters of processors and the stolen time seen may differ. *)
Definition rest_kept s s' : Prop := times s' = times s ∧ accts s' = accts s ∧ same s s'.

Lemma add_stat_in i n (st : cpustat) j : add_stat i n st j = if decide (j ∈ [i]) then u64 (st j + n) else st j.
Proof.
  unfold add_stat. pose proof (list_elem_of_singleton j i).
  destruct (decide (j = i)), (decide (j ∈ [i])); tauto.
Qed.

Lemma add_cpustat_booked cpu i n s :
  returns (add_cpustat cpu i n) s (λ _ s', booked cpu [i] n s s' ∧ rest_kept s s' ∧ prev_steal_time s' = prev_steal_time s).
Proof.
  eapply (returns_eq _ _ tt); [reflexivity|]. unfold booked, rest_kept, same, stat_of. simpl.
  rewrite lookup_insert_eq. simpl. split_and!; try done.
  - intros j. apply add_stat_in.
  - intros cpu' Hne. by rewrite lookup_insert_ne.
Qed.

(** Two counters, one after the other. *)
Lemma booked_both cpu i j n s s1 s' : i ≠ j →
  booked cpu [i] n s s1 → booked cpu [j] n s1 s' → booked cpu [i; j] n s s'.
Proof.
  intros Hne [H1 O1] [H2 O2]. split.
  - intros k. rewrite H2, H1. pose proof (list_elem_of_singleton k i). pose proof (list_elem_of_singleton k j).
    pose proof (elem_of_cons [j] k i).
    destruct (decide (k ∈ [j])), (decide (k ∈ [i])), (decide (k ∈ [i; j])); naive_solver.
  - intros cpu' Hc. by rewrite O2, O1.
Qed.

Lemma booked_kept cpu l n s s1 s' : stats_kept cpu s s1 → booked cpu l n s1 s' → booked cpu l n s s'.
Proof.
  intros [Hk Ho] [Hb Hb']. split.
  - intros j. by rewrite (Hb j), Hk.
  - intros cpu' Hne. by rewrite Hb', Ho.
Qed.

(** Ticks of stolen time the hypervisor reports. *)
Definition stolen s c : Z :=
  match steal_clock c with
  | None => 0
  | Some clock => steal_ticks (u64 (clock - default 0 (prev_steal_time s !! this_cpu c)))
  end.

(** The stolen time seen once these are taken in; less than a tick is left for later. *)
Definition steal_seen s c : gmap Z Z :=
  match steal_clock c with
  | None => prev_steal_time s
  | Some _ => <[this_cpu c := u64 (default 0 (prev_steal_time s !! this_cpu c) + stolen s c * tick_nsec)]> (prev_steal_time s)
  end.

Lemma steal_tick s c :
  (∀ j, in_u 64 (stat_of (kernel_cpustat s) (this_cpu c) j)) →
  returns (steal_account_process_tick c) s (λ b s1, b = negb (stolen s c =? 0) ∧ (rest_kept s s1 ∧ prev_steal_time s1 = steal_seen s c) ∧
    if b : bool then booked (this_cpu c) [CPUTIME_STEAL] (u32 (stolen s c)) s s1 else stats_kept (this_cpu c) s s1).
Proof.
  intros Hr. unfold steal_account_process_tick, steal_seen, stolen. destruct (steal_clock c) as [clock|].
  2: { eapply (returns_eq _ _ false); [done|]. repeat split. }
  set (st := steal_ticks _).
  eapply (returns_eq _ _ (negb (st =? 0))); [reflexivity|]. split; [done|]. split; [repeat split|].
  destruct (st =? 0) eqn:E; simpl.
  - unfold stats_kept, stat_of. simpl. rewrite lookup_insert_eq. simpl. split.
    + intros j. fold st. unfold add_stat. bsimp. rewrite E. change (u32 0) with 0. rewrite Z.add_0_r.
      case_decide; [|done]. by rewrite (uwrap_small 64) by apply (Hr j).
    + intros cpu' Hne. by rewrite lookup_insert_ne.
  - unfold booked, stat_of. simpl. rewrite lookup_insert_eq. simpl. split; [intros j; apply add_stat_in|].
    intros cpu' Hne. by rewrite lookup_insert_ne.
Qed.

(** On whom a tick is booked besides the processor. *)
Inductive owner := Nobody | UserTime | GuestTime | SystemTime.

(** A tick of [n], [nsc] scaled, of the owner [o] on the counters of the list: the times of
    the task, and the counters of its groups below the root; guest time is booked on no
    group. *)
Inductive tick_effect (cpu p : Z) (t : task_time) (l : list Z) (n nsc : Z) s s' : owner → list cputime_index → Prop :=
  | tick_cpu i : times s' = times s → accts s' = accts s → tick_effect cpu p t l n nsc s s' Nobody [i]
  | tick_guest : pf_vcpu t = true →
      times s' = <[p := t <| utime := u32 (utime t + n) |> <| utimescaled := u32 (utimescaled t + nsc) |>
                          <| gtime := u32 (gtime t + n) |>]> (times s) →
      accts s' = accts s → tick_effect cpu p t l n nsc s s' GuestTime [user_index t; guest_index t]
  | tick_user :
      times s' = <[p := t <| utime := u32 (utime t + n) |> <| utimescaled := u32 (utimescaled t + nsc) |>]> (times s) →
      (cpuacct_active s = false → accts s' = accts s) →
      (cpuacct_active s = true → on_groups (below_root l) (book_acct cpu (user_index t) n) (accts s) (accts s')) →
      tick_effect cpu p t l n nsc s s' UserTime [user_index t]
  | tick_system i :
      times s' = <[p := t <| stime := u32 (stime t + n) |> <| stimescaled := u32 (stimescaled t + nsc) |>]> (times s) →
      (cpuacct_active s = false → accts s' = accts s) →
      (cpuacct_active s = true → on_groups (below_root l) (book_acct cpu i n) (accts s) (accts s')) →
      tick_effect cpu p t l n nsc s s' SystemTime [i].

Lemma tick_effect_kept cpu p t l n nsc s s1 s' o ixs :
  rest_kept s s1 → tick_effect cpu p t l n nsc s1 s' o ixs → tick_effect cpu p t l n nsc s s' o ixs.
Proof.
  intros (Ht & Ha & Hac & _) [i Hs Hs'|Hv Hs Hs'|Hs H0 H1|i Hs H0 H1];
    rewrite ?Ht, ?Ha, ?Hac in *; [by apply tick_cpu|by apply tick_guest|by apply tick_user|by apply tick_system].
Qed.

(** The group part of a booking. *)
Lemma account_field_booked c p t l i n s :
  times s !! p = Some t →
  (cpuacct_active s = true → chain (accts s) (acct_group t) l) →
  returns (task_group_account_field c p i n) s (λ _ s', booked (this_cpu c) [i] n s s' ∧ times s' = times s ∧
    (same s s' ∧ prev_steal_time s' = prev_steal_time s) ∧
    (cpuacct_active s = false → accts s' = accts s) ∧
    (cpuacct_active s = true → on_groups (below_root l) (book_acct (this_cpu c) i n) (accts s) (accts s'))).
Proof.
  intros Hp Hc. unfold task_group_account_field. apply returns_bind.
  destruct (add_cpustat_booked (this_cpu c) i n s) as ([] & s1 & Hr & Hb & (Ht & Ha & Hsm) & Hps).
  pose proof Hsm as (Hac & _). eapply returns_eq; [exact Hr|]. clear Hr.
  destruct (cpuacct_active s) eqn:Ea.
  - rewrite <- Ha in Hc. specialize (Hc eq_refl).
    destruct (account_groups_chain (this_cpu c) i n l (size (accts s1)) (acct_group t) s1 Hc (chain_size _ _ _ Hc))
      as ([] & s' & Hr & m' & -> & Ho).
    eapply (returns_eq _ _ tt).
    + unfold load_time. mstep. rewrite Hac. mstep. rewrite Ht, Hp. exact Hr.
    + split_and!; [exact Hb|exact Ht|exact Hsm|exact Hps|done|]. intros _. rewrite <- Ha. exact Ho.
  - eapply (returns_eq _ _ tt s1); [mstep; by rewrite Hac|]. by split_and!.
Qed.

(** ** The branches of a tick *)

Section tick.
Variables (c : cpu_context) (p : Z) (t : task_time) (l : list Z) (n nsc : Z) (seen : gmap Z Z).

(** The tick is booked on [ixs] and on [o], the stolen time seen is [seen], and nothing
    else changes. *)
Definition tick_on (o : owner) (ixs : list cputime_index) s s' : Prop :=
  booked (this_cpu c) ixs n s s' ∧ tick_effect (this_cpu c) p t l n nsc s s' o ixs ∧ same s s' ∧ prev_steal_time s' = seen.

Lemma tick_on_kept o ixs s s1 s' :
  rest_kept s s1 → stats_kept (this_cpu c) s s1 → tick_on o ixs s1 s' → tick_on o ixs s s'.
Proof.
  intros Hr Hs (Hb & He & Hm & Hps). split_and!; [by eapply booked_kept|by eapply tick_effect_kept| |done].
  eapply same_trans; [apply Hr|done].
Qed.

Definition tick_ready s : Prop :=
  times s !! p = Some t ∧ (cpuacct_active s = true → chain (accts s) (acct_group t) l).

Lemma tick_ready_kept s s1 : rest_kept s s1 → tick_ready s → tick_ready s1.
Proof. intros (Ht & Ha & Hac & _) [Hp Hc]. unfold tick_ready. by rewrite Ht, Ha, Hac. Qed.

Lemma cpu_tick i s : prev_steal_time s = seen →
  returns (add_cpustat (this_cpu c) i n) s (λ _ s', tick_on Nobody [i] s s').
Proof.
  intros Hseen. eapply returns_mono; [apply add_cpustat_booked|]. intros [] s' (Hb & (Ht & Ha & Hm) & Hps).
  split_and!; [exact Hb|by apply tick_cpu|done|congruence].
Qed.

(** Idle time is waiting time while tasks of the processor wait for data. *)
Definition idle_index s : cputime_index := if 0 <? default 0 (iowaits s !! this_cpu c) then CPUTIME_IOWAIT else CPUTIME_IDLE.

Lemma idle_tick s : prev_steal_time s = seen → returns (account_idle_time c n) s (λ _ s', tick_on Nobody [idle_index s] s s').
Proof.
  intros Hseen. unfold account_idle_time, idle_index. apply returns_bind. eapply (returns_eq _ _ s); [done|].
  destruct (0 <? _); by apply cpu_tick.
Qed.

Lemma user_tick s : tick_ready s → prev_steal_time s = seen →
  returns (account_user_time c p n nsc) s (λ _ s', tick_on UserTime [user_index t] s s').
Proof.
  intros [Hp Hc] Hseen. unfold account_user_time, store_time, load_time.
  set (t1 := t <| utime := u32 (utime t + n) |> <| utimescaled := u32 (utimescaled t + nsc) |>).
  set (s1 := s <| times ::= <[p := t1]> |>).
  apply returns_bind. eapply (returns_eq _ _ tt s1); [mstep; by rewrite Hp|].
  assert (Hp1 : times s1 !! p = Some t1) by apply lookup_insert_eq.
  apply returns_bind. eapply (returns_eq _ _ t1); [mstep; by rewrite Hp1|].
  destruct (account_field_booked c p t1 l (user_index t) n s1 Hp1 Hc) as ([] & s' & Hr & Hb & Ht & [Hm Hps] & H0 & H1).
  eapply returns_eq; [exact Hr|]. split_and!; [exact Hb|by apply tick_user|exact Hm|by rewrite Hps].
Qed.

Lemma system_tick i s : tick_ready s → prev_steal_time s = seen →
  returns (__account_system_time c p n nsc i) s (λ _ s', tick_on SystemTime [i] s s').
Proof.
  intros [Hp Hc] Hseen. unfold __account_system_time, store_time, load_time.
  set (t1 := t <| stime := u32 (stime t + n) |> <| stimescaled := u32 (stimescaled t + nsc) |>).
  set (s1 := s <| times ::= <[p := t1]> |>).
  apply returns_bind. eapply (returns_eq _ _ tt s1); [mstep; by rewrite Hp|].
  assert (Hp1 : times s1 !! p = Some t1) by apply lookup_insert_eq.
  destruct (account_field_booked c p t1 l i n s1 Hp1 Hc) as ([] & s' & Hr & Hb & Ht & [Hm Hps] & H0 & H1).
  eapply returns_eq; [exact Hr|]. split_and!; [exact Hb|by apply tick_system|exact Hm|by rewrite Hps].
Qed.

Lemma guest_tick s : tick_ready s → prev_steal_time s = seen → pf_vcpu t = true →
  returns (account_guest_time c p n nsc) s (λ _ s', tick_on GuestTime [user_index t; guest_index t] s s').
Proof.
  intros [Hp Hc] Hseen Hv. unfold account_guest_time, store_time, load_time.
  set (t1 := t <| utime := u32 (utime t + n) |> <| utimescaled := u32 (utimescaled t + nsc) |> <| gtime := u32 (gtime t + n) |>).
  set (s1 := s <| times ::= <[p := t1]> |>).
  apply returns_bind. eapply (returns_eq _ _ tt s1); [mstep; by rewrite Hp|].
  assert (Hp1 : times s1 !! p = Some t1) by apply lookup_insert_eq.
  apply returns_bind. eapply (returns_eq _ _ t1); [mstep; by rewrite Hp1|].
  assert (Hgo : ∀ i j, i ≠ j → [i; j] = [user_index t; guest_index t] →
    returns (_ ← add_cpustat (this_cpu c) i n; add_cpustat (this_cpu c) j n) s1
      (λ _ s', tick_on GuestTime [user_index t; guest_index t] s s')).
  { intros i j Hne Hij. apply returns_bind.
    destruct (add_cpustat_booked (this_cpu c) i n s1) as ([] & s2 & Hr & Hb & (Ht & Ha & Hm) & Hps).
    eapply returns_eq; [exact Hr|]. clear Hr.
    destruct (add_cpustat_booked (this_cpu c) j n s2) as ([] & s' & Hr & Hb' & (Ht' & Ha' & Hm') & Hps').
    eapply returns_eq; [exact Hr|]. split_and!.
    - rewrite <- Hij. by eapply booked_both.
    - apply tick_guest; [done|by rewrite Ht', Ht|by rewrite Ha', Ha].
    - by apply (same_trans s s2).
    - by rewrite Hps', Hps. }
  change (task_nice t1) with (task_nice t). unfold user_index, guest_index in *.
  destruct (0 <? task_nice t); by apply Hgo.
Qed.

(** ** Where a tick goes *)

(** More interrupt time was measured than is booked on the counter [i]. *)
Definition behind s (i : cputime_index) (measured : gmap Z Z) : Prop :=
  stat_of (kernel_cpustat s) (this_cpu c) i < nsecs_to_cputime64 (default 0 (measured !! this_cpu c)).

(** The time of interrupts is not measured, or the counters keep up with it and the task
    is not the one that runs deferred interrupts. *)
Definition no_interrupt s : Prop :=
  sched_clock_irqtime s = true →
  ¬ behind s CPUTIME_IRQ (cpu_hardirq_time s) ∧ ¬ behind s CPUTIME_SOFTIRQ (cpu_softirq_time s) ∧ p ≠ ksoftirqd c.

(** No interrupt was interrupted by the tick, as far as it is not measured. *)
Definition tick_alone s : Prop := sched_clock_irqtime s = false → irq_count c = HARDIRQ_OFFSET.

(** The tick that no hypervisor took, in user mode or not, is booked on [o] and [ixs]. *)
Inductive tick_goes s : bool → owner → list cputime_index → Prop :=
  | goes_hardirq user : sched_clock_irqtime s = true → behind s CPUTIME_IRQ (cpu_hardirq_time s) →
      tick_goes s user Nobody [CPUTIME_IRQ]
  | goes_softirq user : sched_clock_irqtime s = true → ¬ behind s CPUTIME_IRQ (cpu_hardirq_time s) →
      behind s CPUTIME_SOFTIRQ (cpu_softirq_time s) → tick_goes s user Nobody [CPUTIME_SOFTIRQ]
  | goes_ksoftirqd user : sched_clock_irqtime s = true → ¬ behind s CPUTIME_IRQ (cpu_hardirq_time s) →
      ¬ behind s CPUTIME_SOFTIRQ (cpu_softirq_time s) → p = ksoftirqd c → tick_goes s user SystemTime [CPUTIME_SOFTIRQ]
  | goes_user : no_interrupt s → tick_goes s true UserTime [user_index t]
  | goes_idle : no_interrupt s → p = idle c → tick_alone s → tick_goes s false Nobody [idle_index s]
  | goes_guest : no_interrupt s → p ≠ idle c → pf_vcpu t = true → tick_alone s →
      tick_goes s false GuestTime [user_index t; guest_index t]
  | goes_measured : no_interrupt s → sched_clock_irqtime s = true → p ≠ idle c → pf_vcpu t = false →
      tick_goes s false SystemTime [CPUTIME_SYSTEM]
  | goes_in_hardirq : sched_clock_irqtime s = false → (p ≠ idle c ∧ pf_vcpu t = false) ∨ irq_count c ≠ HARDIRQ_OFFSET →
      hardirq_count c ≠ HARDIRQ_OFFSET → tick_goes s false SystemTime [CPUTIME_IRQ]
  | goes_in_softirq : sched_clock_irqtime s = false → (p ≠ idle c ∧ pf_vcpu t = false) ∨ irq_count c ≠ HARDIRQ_OFFSET →
      hardirq_count c = HARDIRQ_OFFSET → in_serving_softirq c = true → tick_goes s false SystemTime [CPUTIME_SOFTIRQ]
  | goes_system : sched_clock_irqtime s = false → (p ≠ idle c ∧ pf_vcpu t = false) ∨ irq_count c ≠ HARDIRQ_OFFSET →
      hardirq_count c = HARDIRQ_OFFSET → in_serving_softirq c = false → tick_goes s false SystemTime [CPUTIME_SYSTEM].

Lemma behind_kept s s1 i measured : stats_kept (this_cpu c) s s1 → behind s1 i measured ↔ behind s i measured.
Proof. intros [Hs _]. unfold behind. by rewrite Hs. Qed.

Lemma idle_index_kept s s1 : same s s1 → idle_index s1 = idle_index s.
Proof. intros (_ & Hi & _). unfold idle_index. by rewrite Hi. Qed.

(** A tick of [s1], which differs from [s] in what [steal_account_process_tick] changed. *)
Lemma goes_from s s1 user (m : M time_state unit) o ixs :
  rest_kept s s1 → stats_kept (this_cpu c) s s1 →
  returns m s1 (λ _ s', tick_on o ixs s1 s') → tick_goes s user o ixs →
  returns m s1 (λ _ s', ∃ o ixs, tick_on o ixs s s' ∧ tick_goes s user o ixs).
Proof.
  intros Hk Hs Hm Hg. eapply returns_mono; [exact Hm|]. intros [] s' Ht. exists o, ixs. split; [|done]. by eapply tick_on_kept.
Qed.
End tick.

Abbreviation jiffy_on c p t l := (tick_on c p t l cputime_one_jiffy (cputime_to_scaled cputime_one_jiffy)).

(** With the time of interrupts measured. *)
Lemma irqtime_unstolen c p t l user s s1 :
  sched_clock_irqtime s = true →
  tick_ready p t l s → rest_kept s s1 → prev_steal_time s1 = steal_seen s c → stats_kept (this_cpu c) s s1 →
  steal_account_process_tick c s = Ok false s1 →
  returns (irqtime_account_process_tick c p user) s
    (λ _ s', ∃ o ixs, jiffy_on c p t l (steal_seen s c) o ixs s s' ∧ tick_goes c p t s user o ixs).
Proof.
  intros Eirq Hrd Hk Hps Hs Hst. pose proof (tick_ready_kept p t l s s1 Hk Hrd) as Hrd1. pose proof Hk as (_ & _ & Hm).
  pose proof Hm as (_ & _ & Hh & Hsf & _).
  unfold irqtime_account_process_tick. apply returns_bind. eapply returns_eq; [exact Hst|].
  apply returns_bind. eapply (returns_eq _ _ s1); [done|].
  assert (Hhi : irqtime_account_hi_update s1 c = true ↔ behind c s CPUTIME_IRQ (cpu_hardirq_time s)).
  { rewrite <- (behind_kept c s s1), <- Hh by done. apply Z.ltb_lt. }
  assert (Hsi : irqtime_account_si_update s1 c = true ↔ behind c s CPUTIME_SOFTIRQ (cpu_softirq_time s)).
  { rewrite <- (behind_kept c s s1), <- Hsf by done. apply Z.ltb_lt. }
  assert (Hone : ∀ m o ixs, returns m s1 (λ _ s', jiffy_on c p t l (steal_seen s c) o ixs s1 s') →
    tick_goes c p t s user o ixs → returns m s1 (λ (_ : unit) s', ∃ o ixs,
      jiffy_on c p t l (steal_seen s c) o ixs s s' ∧ tick_goes c p t s user o ixs)) by (intros; by eapply goes_from).
  destruct (irqtime_account_hi_update s1 c). { eapply Hone; [by apply cpu_tick|apply goes_hardirq; tauto]. }
  assert (Hn1 : ¬ behind c s CPUTIME_IRQ (cpu_hardirq_time s)) by (rewrite <- Hhi; done).
  destruct (irqtime_account_si_update s1 c). { eapply Hone; [by apply cpu_tick|apply goes_softirq; tauto]. }
  assert (Hn2 : ¬ behind c s CPUTIME_SOFTIRQ (cpu_softirq_time s)) by (rewrite <- Hsi; done).
  destruct (Z.eqb_spec (ksoftirqd c) p) as [Ek|Ek]. { eapply Hone; [by apply system_tick|by apply goes_ksoftirqd]. }
  assert (Hno : no_interrupt c p s) by (intros _; by split_and!).
  assert (Hal : tick_alone c s) by (unfold tick_alone; congruence).
  destruct user. { eapply Hone; [by apply user_tick|by apply goes_user]. }
  destruct (Z.eqb_spec p (idle c)) as [Ei|Ei].
  { eapply Hone; [by apply idle_tick|]. rewrite (idle_index_kept c s s1 Hm). by apply goes_idle. }
  apply returns_bind. eapply (returns_eq _ _ t); [unfold load_time; mstep; by rewrite (proj1 Hrd1)|].
  destruct (pf_vcpu t) eqn:Ev.
  - eapply Hone; [by apply guest_tick|by apply goes_guest].
  - eapply Hone; [by apply system_tick|by apply goes_measured].
Qed.

(** Without it. *)
Lemma plain_unstolen c p t l (user : bool) s s1 :
  sched_clock_irqtime s = false →
  tick_ready p t l s → rest_kept s s1 → prev_steal_time s1 = steal_seen s c → stats_kept (this_cpu c) s s1 →
  returns (if user then account_user_time c p cputime_one_jiffy (cputime_to_scaled cputime_one_jiffy)
           else if negb (p =? idle c) || negb (irq_count c =? HARDIRQ_OFFSET)
           then account_system_time c p HARDIRQ_OFFSET cputime_one_jiffy (cputime_to_scaled cputime_one_jiffy)
           else account_idle_time c cputime_one_jiffy) s1
    (λ _ s', ∃ o ixs, jiffy_on c p t l (steal_seen s c) o ixs s s' ∧ tick_goes c p t s user o ixs).
Proof.
  intros Eirq Hrd Hk Hps Hs. pose proof (tick_ready_kept p t l s s1 Hk Hrd) as Hrd1. pose proof Hk as (_ & _ & Hm).
  assert (Hno : no_interrupt c p s) by (unfold no_interrupt; congruence).
  destruct user. { eapply goes_from; [done..|by apply user_tick|by apply goes_user]. }
  destruct (Z.eqb_spec (irq_count c) HARDIRQ_OFFSET) as [Eq|Eq], (Z.eqb_spec p (idle c)) as [Ei|Ei]; cbn [negb orb].
  { eapply goes_from; [done..|by apply idle_tick|]. rewrite (idle_index_kept c s s1 Hm). by apply goes_idle; [..|intros _]. }
  all: unfold account_system_time; apply returns_bind;
    (eapply (returns_eq _ _ t); [unfold load_time; mstep; by rewrite (proj1 Hrd1)|]).
  all: destruct (Z.eqb_spec (irq_count c - HARDIRQ_OFFSET) 0) as [Ec|Ec]; [try lia|try lia].
  all: rewrite ?andb_true_r, ?andb_false_r; try (destruct (pf_vcpu t) eqn:Ev).
  all: try (eapply goes_from; [done..|by apply guest_tick|by apply goes_guest; [..|intros _; lia]]).
  all: destruct (Z.eqb_spec (hardirq_count c - HARDIRQ_OFFSET) 0) as [Eh|Eh]; cbn [negb]; [destruct (in_serving_softirq c) eqn:Es|].
  all: eapply goes_from; [done..|by apply system_tick|].
  all: first [apply goes_in_softirq|apply goes_system|apply goes_in_hardirq]; [done|tauto|lia|done..].
Qed.

(** C34. Every tick is booked once: with the task of the tick known, the groups above it
    a chain, and counters of 64 bits, [account_process_tick] returns.  Either the
    hypervisor reports stolen ticks, which are booked as stolen and on no task; or one
    jiffy is booked on one counter of the processor, as [tick_goes] says: hard and soft
    interrupt time where it is measured and the counters are behind, soft interrupt time
    for the task that runs deferred interrupts, user or nice time for a user tick, waiting
    or idle time for the idle task, and what the tick interrupted (hard interrupt, soft
    interrupt or system time) otherwise.  The jiffy is added to user or system time of the
    task and to the same counter of its groups below the root; measured interrupt time and
    idle time are on no task and on no group.  Guest time is on the user counter and on the
    guest counter and on the task, but on no group.  Of the rest of the state only the
    stolen time seen so far changes. *)
Theorem account_process_tick_books s c p t l user :
  times s !! p = Some t →
  (cpuacct_active s = true → chain (accts s) (acct_group t) l) →
  (∀ j, in_u 64 (stat_of (kernel_cpustat s) (this_cpu c) j)) →
  returns (account_process_tick c p user) s (λ _ s',
    if stolen s c =? 0 then
      ∃ o ixs, jiffy_on c p t l (steal_seen s c) o ixs s s' ∧ tick_goes c p t s user o ixs
    else booked (this_cpu c) [CPUTIME_STEAL] (u32 (stolen s c)) s s' ∧ rest_kept s s' ∧
         prev_steal_time s' = steal_seen s c).
Proof.
  intros Hp Hc Hr. assert (Hrd : tick_ready p t l s) by done.
  destruct (steal_tick s c Hr) as (b & s1 & Hst & Hb & [Hk Hps] & Hs). unfold account_process_tick.
  apply returns_bind. eapply (returns_eq _ _ s); [done|].
  destruct (stolen s c =? 0) eqn:E; simpl in Hb; subst b.
  - destruct (sched_clock_irqtime s) eqn:Eirq; [by eapply irqtime_unstolen|].
    apply returns_bind. eapply returns_eq; [exact Hst|]. by eapply plain_unstolen.
  - assert (Hend : ∀ m, m s = Ok tt s1 → returns m s (λ (_ : unit) s',
      booked (this_cpu c) [CPUTIME_STEAL] (u32 (stolen s c)) s s' ∧ rest_kept s s' ∧ prev_steal_time s' = steal_seen s c)).
    { intros m Hm. by eapply returns_eq. }
    destruct (sched_clock_irqtime s); apply Hend; unfold irqtime_account_process_tick, mbind, M_bind; by rewrite Hst.
Qed.
End CpuTimeSpec.
