(* ===== verification/CpuTimeDemo.v ===== *)
(** * Processor time on a concrete machine

    Two processors with ticks of ten milliseconds; task 1 is in group 2, below group 1,
    below the root.  The theorems on accounting are applied here, and a task whose
    reported times exceed its run time is shown. *)

From S2P Require Import Prelude CpuTime CpuTimeSpec.

Module CpuTimeDemo.

#[export] Instance env : TimeEnv := {|
  tick_nsec := 10000000;
  cputime_one_jiffy := 1;
  cputime_to_scaled := id;
  jiffies_to_cputime := id;
  nsecs_to_cputime := λ ns, ns / 10000000;
  nsecs_to_cputime64 := λ ns, ns / 10000000;
  cputime64_to_clock_t := id;
  present_cpus := [0; 1];
  online_cpus := [0; 1]
|}.

Definition worker : task_time := mkTaskTime 0 100 0 100 0 0 100 1000000000 5 false 1 (Some 2).

Definition machine : time_state := {|
  times := {[ 0 := worker <| acct_group := None |>; 1 := worker ]};
  kernel_cpustat := ∅;
  accts := {[ 0 := mkCpuacct None ∅ ∅; 1 := mkCpuacct (Some 0) ∅ ∅; 2 := mkCpuacct (Some 1) ∅ ∅ ]};
  cpuacct_active := true;
  iowaits := ∅;
  prev_steal_time := ∅;
  cpu_hardirq_time := ∅;
  cpu_softirq_time := ∅;
  irq_start_time := ∅;
  sched_clock_irqtime := false;
  sig_prev := ∅
|}.

Definition at_work : cpu_context := mkContext 1 0 9 HARDIRQ_OFFSET HARDIRQ_OFFSET false 0 None.

Lemma machine_chain : chain (accts machine) (acct_group worker) [2; 1; 0].
Proof. simpl. split; [done|]. eexists. split; [reflexivity|]. split; [done|]. eexists. split; [reflexivity|].
  split; [done|]. eexists. split; reflexivity.
Qed.

Lemma worker_runs : times machine !! 1 = Some worker.
Proof. reflexivity. Qed.

Lemma cpuacct_charge_witness :
  times machine !! 1 = Some worker ∧ chain (accts machine) (acct_group worker) [2; 1; 0] ∧
  returns (cpuacct_charge 1 7) machine (λ _ s', ∃ m', s' = machine <| accts := m' |> ∧
    ∀ g, m' !! g = (if cpuacct_active machine && bool_decide (g ∈ [2; 1; 0]) then charge_acct (on_cpu worker) 7 else id) <$> accts machine !! g).
Proof.
  split; [exact worker_runs|]. split; [exact machine_chain|].
  exact (proj2 (cpuacct_charge_exact machine 1 worker [2; 1; 0] 7 worker_runs machine_chain)).
Defined.

Lemma machine_counters : ∀ j, in_u 64 (stat_of (kernel_cpustat machine) (this_cpu at_work) j).
Proof. intros j. vm_compute. split; [discriminate|reflexivity]. Qed.

Lemma account_process_tick_witness :
  stolen machine at_work = 0 ∧
  returns (account_process_tick at_work 1 true) machine (λ _ s',
    if stolen machine at_work =? 0 then
      ∃ o ixs, tick_on at_work 1 worker [2; 1; 0] cputime_one_jiffy (cputime_to_scaled cputime_one_jiffy)
                 (steal_seen machine at_work) o ixs machine s' ∧
               tick_goes at_work 1 worker machine true o ixs
    else booked (this_cpu at_work) [CPUTIME_STEAL] (u32 (stolen machine at_work)) machine s' ∧
         rest_kept machine s' ∧ prev_steal_time s' = steal_seen machine at_work).
Proof.
  split; [reflexivity|].
  exact (account_process_tick_books machine at_work 1 worker [2; 1; 0] true worker_runs (λ _, machine_chain) machine_counters).
Defined.

Lemma worker_reported : reported_ok worker.
Proof. unfold reported_ok. change (nsecs_to_cputime (sum_exec_runtime worker)) with 100. simpl. widths. lia. Qed.

Lemma task_times_witness :
  reported_ok worker ∧ ∃ ut st t',
    task_times 1 machine = Ok (ut, st) (machine <| times ::= <[1 := t']> |>) ∧
    prev_utime worker ≤ ut ≤ nsecs_to_cputime (sum_exec_runtime worker) ∧ prev_stime worker ≤ st.
Proof.
  split; [exact worker_reported|].
  destruct (task_times_monotonic machine 1 worker worker_runs worker_reported) as (ut & st & t' & H1 & H2 & H3 & _).
  exists ut, st, t'. split; [exact H1|]. split; [exact H2|exact H3].
Defined.

(** The worker of nice 5 spends the tick in user mode: the counter of low priority user time
    of processor 1 and of the groups 2 and 1 grows, that of the root is the processor's. *)
Example tick_counters :
  match account_process_tick at_work 1 true machine with
  | Ok _ s' => (stat_of (kernel_cpustat s') 1 CPUTIME_NICE, stat_of (kernel_cpustat s') 1 CPUTIME_USER,
                (λ a, stat_of (ca_stat a) 1 CPUTIME_NICE) <$> accts s' !! 2, (λ a, stat_of (ca_stat a) 1 CPUTIME_NICE) <$> accts s' !! 0,
                utime <$> times s' !! 1, match cpuacct_stats_show 0 s' with Ok x _ => Some x | Err _ _ => None end)
               = (1, 0, Some 1, Some 0, Some 1, Some (1, 0))
  | Err _ _ => False
  end.
Proof. vm_compute. reflexivity. Qed.

(** A task of 100 ticks in the kernel has reported them all; 100 ticks of user mode later,
    with no more precise run time than before, half of the run time counts as user time,
    and the system time cannot go back: the report adds up to 150 ticks of 100. *)
Lemma task_times_exceed :
  ∃ ut st s', task_times 1 (machine <| times ::= <[1 := worker <| utime := 100 |>]> |>) = Ok (ut, st) s' ∧
    ut + st = 150 ∧ nsecs_to_cputime (sum_exec_runtime worker) = 100.
Proof. eexists _, _, _. split; [vm_compute; reflexivity|]. split; reflexivity. Qed.

(** The whole usage of a group: charges on both processors add up, and a reset clears them. *)
Example usage_roundtrip :
  match (_ ← cpuacct_charge 1 7; _ ← cpuacct_charge 1 5; a ← cpuusage_read 0; r ← cpuusage_write 0 1;
         w ← cpuusage_write 0 0; b ← cpuusage_read 0; d ← cpuusage_read 2; mret (a, r, w, b, d)) machine with
  | Ok x _ => x = (12, - EINVAL, 0, 0, 12)
  | Err _ _ => False
  end.
Proof. vm_compute. reflexivity. Qed.
End CpuTimeDemo.
