(* ===== verification/Balance.v ===== *)
(** * Where the load is: [hw4/kernel/sched/fair.c], CONFIG_SMP

    The choices of the load balancer: the idlest group and processor for a task, the
    busiest group of a domain with the load to move, and the busiest queue of a group.
    Lines 2279 to 2332, 2556 to 2682 and 3412 to 4392.

    Groups of a domain form a circular list; here it is the list of the groups from
    [sd->groups] on.  Groups, domains and their powers are named by numbers, as they are
    shared.  [unsigned long] has 32 bits; dividing by 0 stops with [Undefined]. *)

From S2P Require Import Prelude.

Definition SCHED_POWER_SHIFT : Z := 10.
Definition SCHED_POWER_SCALE : Z := Z.shiftl 1 SCHED_POWER_SHIFT.
Definition SCHED_LOAD_SCALE : Z := 1024.

(** Flags of a domain. *)
Definition SD_LOAD_BALANCE : Z := 1.
Definition SD_BALANCE_NEWIDLE : Z := 2.
Definition SD_BALANCE_EXEC : Z := 4.
Definition SD_BALANCE_FORK : Z := 8.
Definition SD_BALANCE_WAKE : Z := 16.
Definition SD_WAKE_AFFINE : Z := 32.
Definition SD_PREFER_LOCAL : Z := 64.
Definition SD_SHARE_CPUPOWER : Z := 128.
Definition SD_POWERSAVINGS_BALANCE : Z := 256.
Definition SD_SHARE_PKG_RESOURCES : Z := 512.
Definition SD_SERIALIZE : Z := 1024.
Definition SD_ASYM_PACKING : Z := 2048.
Definition SD_PREFER_SIBLING : Z := 4096.

Definition POWERSAVINGS_BALANCE_WAKEUP : Z := 2.

Inductive cpu_idle_type := CPU_IDLE | CPU_NOT_IDLE | CPU_NEWLY_IDLE.
#[export] Instance cpu_idle_type_eq_dec : EqDecision cpu_idle_type.
Proof. solve_decision. Defined.

(** What balancing reads of the run queue of a processor, and the power it writes. *)
Record cpu_rq : Type := mkCpuRq {
  rq_weight : Z;                           (** [load.weight] *)
  rq_nr_running : Z;
  rq_cfs_nr_running : Z;                   (** [cfs.nr_running] *)
  rq_cpu_load : gmap Z Z;
  cpu_power : Z;
  cpu_is_idle : bool;                      (** [idle_cpu] *)
  rq_clock : Z;
  age_stamp : Z;
  rt_avg : Z
}.
#[export] Instance cpu_rq_eta : Settable cpu_rq := λ r,
  mkCpuRq (rq_weight r) (rq_nr_running r) (rq_cfs_nr_running r) (rq_cpu_load r) (cpu_power r) (cpu_is_idle r) (rq_clock r) (age_stamp r) (rt_avg r).

Record sched_group_power : Type := mkSgp {
  sg_power : Z;
  power_orig : Z;
  next_update : Z
}.
#[export] Instance sgp_eta : Settable sched_group_power := λ r, mkSgp (sg_power r) (power_orig r) (next_update r).

Record sched_group : Type := mkGroup {
  group_weight : Z;
  sgp : Z;
  sched_group_cpus : list Z                (** ascending *)
}.

Record sched_domain : Type := mkDomain {
  sd_child : option Z;
  sd_groups : list Z;
  imbalance_pct : Z;
  cache_nice_tries : Z;
  busy_idx : Z;
  idle_idx : Z;
  newidle_idx : Z;
  wake_idx : Z;
  forkexec_idx : Z;
  smt_gain : Z;
  sd_flags : Z;
  sd_level : Z;
  span_weight : Z;
  balance_interval : Z;
  nr_balance_failed : Z;
  sched_domain_span : list Z               (** ascending *)
}.

(** A group of tasks on a processor: the load of its queue there, the shares and the load
    of the group, what the queue contributed to that, and the weight of its entity. *)
Record group_level : Type := mkLevel {
  my_q_weight : Z;
  tg_shares : Z;
  tg_load_weight : Z;
  lv_contribution : Z;
  se_weight : Z
}.

Record lb_state : Type := mkLb {
  rqs : gmap Z cpu_rq;
  powers : gmap Z sched_group_power;
  lb_groups : gmap Z sched_group;
  domains : gmap Z sched_domain;
  cpu_domains : gmap Z (list Z);           (** from [rq->sd] up *)
  sd_llc : gmap Z Z;
  levels : gmap (Z * Z) (list group_level) (** of a group on a processor, up to the root *)
}.
#[export] Instance lb_state_eta : Settable lb_state := λ s, mkLb (rqs s) (powers s) (lb_groups s) (domains s) (cpu_domains s) (sd_llc s) (levels s).

Class LbEnv : Type := {
  LB_BIAS : bool;                          (** [sched_feat (LB_BIAS)] *)
  ARCH_POWER : bool;
  CONFIG_SCHED_MC : bool;                  (** or CONFIG_SCHED_SMT *)
  sched_mc_power_savings : Z;
  arch_scale_smt_power : sched_domain → Z → Z;
  arch_scale_freq_power : sched_domain → Z → Z;
  sched_avg_period : Z;
  msecs_to_jiffies : Z → Z;
  max_load_balance_interval : Z;
  jiffies : Z
}.

Section Balance.
Context `{LbEnv}.
Abbreviation B := (M lb_state).

Definition rq_of_cpu (cpu : Z) : B cpu_rq := s ← get; deref (rqs s !! cpu).
Definition load_sg (g : Z) : B sched_group := s ← get; deref (lb_groups s !! g).
Definition load_power (g : sched_group) : B sched_group_power := s ← get; deref (powers s !! sgp g).
Definition store_power (g : sched_group) (f : sched_group_power → sched_group_power) : B unit :=
  p ← load_power g; modify (λ s, s <| powers ::= <[sgp g := f p]> |>).

(** The division of [unsigned long]. *)
Definition udiv (a b : Z) : B Z := if b =? 0 then fail Undefined else mret (a / b).

Definition DIV_ROUND_CLOSEST (x d : Z) : Z := u32 (x + d / 2) / d.

(** [cpumask_first]; [nr_cpu_ids] or more for an empty mask. *)
Definition group_first_cpu (g : sched_group) : Z := default 4294967295 (head (sched_group_cpus g)).

(** ** Load of a processor *)

Definition weighted_cpuload (cpu : Z) : B Z := r ← rq_of_cpu cpu; mret (rq_weight r).

Definition source_load (cpu type : Z) : B Z :=
  r ← rq_of_cpu cpu;
  total ← weighted_cpuload cpu;
  if (type =? 0) || negb LB_BIAS then mret total
  else l ← deref (rq_cpu_load r !! (type - 1)); mret (Z.min l total).

Definition target_load (cpu type : Z) : B Z :=
  r ← rq_of_cpu cpu;
  total ← weighted_cpuload cpu;
  if (type =? 0) || negb LB_BIAS then mret total
  else l ← deref (rq_cpu_load r !! (type - 1)); mret (Z.max l total).

Definition power_of (cpu : Z) : B Z := r ← rq_of_cpu cpu; mret (cpu_power r).

Definition cpu_avg_load_per_task (cpu : Z) : B Z :=
  r ← rq_of_cpu cpu;
  if negb (rq_nr_running r =? 0) then mret (rq_weight r / rq_nr_running r) else mret 0.

(** ** Placing a task *)

(** Load of the processors, biased. *)
Fixpoint tally (cpus : list Z) (local : bool) (load_idx avg_load : Z) : B Z :=
  match cpus with
  | [] => mret avg_load
  | i :: cpus' =>
      load ← (if local then source_load i load_idx else target_load i load_idx);
      tally cpus' local load_idx (u32 (avg_load + load))
  end.

(** The loop over the groups: the idlest group, its load and the load of the local one. *)
Fixpoint idlest_groups (gs : list Z) (allowed : list Z) (this_cpu load_idx : Z)
    (idlest : option Z) (min_load this_load : Z) : B (option Z * Z * Z) :=
  match gs with
  | [] => mret (idlest, min_load, this_load)
  | g :: gs' =>
      group ← load_sg g;
      if negb (existsb (λ i, bool_decide (i ∈ allowed)) (sched_group_cpus group)) then
        idlest_groups gs' allowed this_cpu load_idx idlest min_load this_load
      else
        let local := bool_decide (this_cpu ∈ sched_group_cpus group) in
        sum ← tally (sched_group_cpus group) local load_idx 0;
        p ← load_power group;
        avg_load ← udiv (u32 (sum * SCHED_POWER_SCALE)) (sg_power p);
        if local then idlest_groups gs' allowed this_cpu load_idx idlest min_load avg_load
        else if avg_load <? min_load then idlest_groups gs' allowed this_cpu load_idx (Some g) avg_load this_load
        else idlest_groups gs' allowed this_cpu load_idx idlest min_load this_load
  end.

(** [allowed] are the processors of the task; [None] for a null pointer. *)
Definition find_idlest_group (sd : sched_domain) (allowed : list Z) (this_cpu load_idx : Z) : B (option Z) :=
  let imbalance := s32 (u32 (100 + u32 (imbalance_pct sd - 100) / 2)) in
  '(idlest, min_load, this_load) ← idlest_groups (sd_groups sd) allowed this_cpu load_idx None ULONG_MAX 0;
  match idlest with
  | None => mret None
  | Some g =>
      if u32 (100 * this_load) <? u32 (imbalance * min_load) then mret None else mret (Some g)
  end.

Fixpoint idlest_cpus (cpus : list Z) (this_cpu min_load idlest : Z) : B Z :=
  match cpus with
  | [] => mret idlest
  | i :: cpus' =>
      load ← weighted_cpuload i;
      if (load <? min_load) || ((load =? min_load) && (i =? this_cpu))
      then idlest_cpus cpus' this_cpu load i
      else idlest_cpus cpus' this_cpu min_load idlest
  end.

Definition find_idlest_cpu (group : sched_group) (allowed : list Z) (this_cpu : Z) : B Z :=
  idlest_cpus (filter (λ i, i ∈ allowed) (sched_group_cpus group)) this_cpu ULONG_MAX (-1).

Fixpoint all_idle (cpus : list Z) : B bool :=
  match cpus with
  | [] => mret true
  | i :: cpus' => r ← rq_of_cpu i; if negb (cpu_is_idle r) then mret false else all_idle cpus'
  end.

(** The first group of the list that may run the task and is all idle: the processor. *)
Fixpoint idle_group (gs : list Z) (allowed : list Z) : B (option Z) :=
  match gs with
  | [] => mret None
  | g :: gs' =>
      sg ← load_sg g;
      if negb (existsb (λ i, bool_decide (i ∈ allowed)) (sched_group_cpus sg)) then idle_group gs' allowed
      else
        idle ← all_idle (sched_group_cpus sg);
        if negb idle then idle_group gs' allowed
        else mret (head (filter (λ i, i ∈ allowed) (sched_group_cpus sg)))
  end.

(** The domains from the one of the last level cache down. *)
Fixpoint idle_domains (sds : list sched_domain) (allowed : list Z) (target : Z) : B Z :=
  match sds with
  | [] => mret target
  | sd :: sds' =>
      r ← idle_group (sd_groups sd) allowed;
      match r with
      | Some cpu => mret cpu
      | None => idle_domains sds' allowed target
      end
  end.

(** [cpu] runs the code, [prev_cpu] ran the task; [sds] are the domains from [sd_llc] of
    the target down. *)
Definition select_idle_sibling (cpu prev_cpu : Z) (sds : list sched_domain) (allowed : list Z) (target : Z) : B Z :=
  here ← (if target =? cpu then r ← rq_of_cpu cpu; mret (cpu_is_idle r) else mret false);
  if here : bool then mret cpu
  else
    there ← (if target =? prev_cpu then r ← rq_of_cpu prev_cpu; mret (cpu_is_idle r) else mret false);
    if there : bool then mret prev_cpu
    else idle_domains sds allowed target.

(** ** Power of the processors *)

Definition default_scale_freq_power : Z := SCHED_POWER_SCALE.

Definition default_scale_smt_power (sd : sched_domain) : B Z := udiv (smt_gain sd) (span_weight sd).

(** The product is of [u64] numbers, the quotient is cut to [unsigned long]. *)
Definition scale_rt_power (cpu : Z) : B Z :=
  r ← rq_of_cpu cpu;
  let total := u64 (sched_avg_period + u64 (rq_clock r - age_stamp r)) in
  let available := if total <? rt_avg r then 0 else total - rt_avg r in
  let total := if s64 total <? SCHED_POWER_SCALE then SCHED_POWER_SCALE else total in
  q ← udiv available (u32 (Z.shiftr total SCHED_POWER_SHIFT));
  mret (u32 q).

(** [sdg] is the group of [sd] the power is of. *)
Definition update_cpu_power (sd : sched_domain) (cpu : Z) : B unit :=
  g ← deref (head (sd_groups sd));
  sdg ← load_sg g;
  power ← (if has_flag (sd_flags sd) SD_SHARE_CPUPOWER && (1 <? span_weight sd) then
             scale ← (if ARCH_POWER then mret (arch_scale_smt_power sd cpu) else default_scale_smt_power sd);
             mret (Z.shiftr (u32 (SCHED_POWER_SCALE * scale)) SCHED_POWER_SHIFT)
           else mret SCHED_POWER_SCALE);
  _ ← store_power sdg (λ p, p <| power_orig := power |>);
  let freq := if ARCH_POWER then arch_scale_freq_power sd cpu else default_scale_freq_power in
  let power := Z.shiftr (u32 (power * freq)) SCHED_POWER_SHIFT in
  rt ← scale_rt_power cpu;
  let power := Z.shiftr (u32 (power * rt)) SCHED_POWER_SHIFT in
  let power := if power =? 0 then 1 else power in
  r ← rq_of_cpu cpu;
  _ ← modify (λ s, s <| rqs ::= <[cpu := r <| cpu_power := power |>]> |>);
  store_power sdg (λ p, p <| sg_power := power |>).

Fixpoint sum_power (gs : list Z) (power : Z) : B Z :=
  match gs with
  | [] => mret power
  | g :: gs' => group ← load_sg g; p ← load_power group; sum_power gs' (u32 (power + sg_power p))
  end.

Definition update_group_power (sd : sched_domain) (cpu : Z) : B unit :=
  g ← deref (head (sd_groups sd));
  sdg ← load_sg g;
  let interval := Z.min (Z.max (msecs_to_jiffies (balance_interval sd)) 1) max_load_balance_interval in
  _ ← store_power sdg (λ p, p <| next_update := u32 (jiffies + interval) |>);
  match sd_child sd with
  | None => update_cpu_power sd cpu
  | Some c =>
      s ← get;
      child ← deref (domains s !! c);
      power ← sum_power (sd_groups child) 0;
      store_power sdg (λ p, p <| sg_power := power |>)
  end.

Definition fix_small_capacity (sd : sched_domain) (p : sched_group_power) : Z :=
  if negb (has_flag (sd_flags sd) SD_SHARE_CPUPOWER) then 0
  else if u32 (power_orig p * 29) <? u32 (sg_power p * 32) then 1 else 0.

(** ** Statistics of a group *)

Record sg_lb_stats : Type := mkSgs {
  avg_load : Z;
  group_load : Z;
  sum_nr_running : Z;
  sum_weighted_load : Z;
  group_capacity : Z;
  idle_cpus : Z;
  sgs_group_weight : Z;
  sgs_group_imb : bool;
  group_has_capacity : bool
}.
#[export] Instance sgs_eta : Settable sg_lb_stats := λ r,
  mkSgs (avg_load r) (group_load r) (sum_nr_running r) (sum_weighted_load r) (group_capacity r) (idle_cpus r)
    (sgs_group_weight r) (sgs_group_imb r) (group_has_capacity r).

Definition sgs_zero : sg_lb_stats := mkSgs 0 0 0 0 0 0 0 false false.

(** Besides the statistics, the loop keeps extreme loads and the processor to balance. *)
Record tallied : Type := mkTallied {
  t_sgs : sg_lb_stats;
  max_cpu_load : Z;
  min_cpu_load : Z;
  max_nr_running : Z;
  balance_cpu : Z;
  first_idle_cpu : bool
}.

Definition tally_cpu (local : bool) (load_idx i : Z) (t : tallied) : B tallied :=
  r ← rq_of_cpu i;
  load ← (if local then target_load i load_idx else source_load i load_idx);
  let found := local && cpu_is_idle r && negb (first_idle_cpu t) in
  let busier := negb local && (max_cpu_load t <? load) in
  let sgs := t_sgs t in
  w ← weighted_cpuload i;
  mret (mkTallied
    (sgs <| group_load := u32 (group_load sgs + load) |>
         <| sum_nr_running := u32 (sum_nr_running sgs + rq_nr_running r) |>
         <| sum_weighted_load := u32 (sum_weighted_load sgs + w) |>
         <| idle_cpus := if cpu_is_idle r then u32 (idle_cpus sgs + 1) else idle_cpus sgs |>)
    (if busier then load else max_cpu_load t)
    (if negb local && (load <? min_cpu_load t) then load else min_cpu_load t)
    (if busier then rq_nr_running r else max_nr_running t)
    (if found then i else balance_cpu t)
    (first_idle_cpu t || found)).

Fixpoint tally_cpus (cpus : list Z) (local : bool) (load_idx : Z) (t : tallied) : B tallied :=
  match cpus with
  | [] => mret t
  | i :: cpus' => t' ← tally_cpu local load_idx i t; tally_cpus cpus' local load_idx t'
  end.

(** [time_after_eq]. *)
Definition time_after_eq (a b : Z) : bool := 0 <=? s32 (a - b).

(** The statistics once the processors are summed up and the power is known. *)
Definition finish_stats (sd : sched_domain) (group : sched_group) (p : sched_group_power) (t : tallied) : B sg_lb_stats :=
  let sgs := t_sgs t in
  avg ← udiv (u32 (group_load sgs * SCHED_POWER_SCALE)) (sg_power p);
  let avg_load_per_task :=
    if negb (sum_nr_running sgs =? 0) then sum_weighted_load sgs / sum_nr_running sgs else 0 in
  let imb := (avg_load_per_task <=? u32 (max_cpu_load t - min_cpu_load t)) && (1 <? max_nr_running t) in
  let capacity := DIV_ROUND_CLOSEST (sg_power p) SCHED_POWER_SCALE in
  let capacity := if capacity =? 0 then fix_small_capacity sd p else capacity in
  mret (sgs <| avg_load := avg |> <| sgs_group_imb := imb |> <| group_capacity := capacity |>
            <| sgs_group_weight := group_weight group |>
            <| group_has_capacity := sum_nr_running sgs <? capacity |>).

(** [None] when another processor is to balance the domain ([*balance] is set to 0). *)
Definition update_sg_lb_stats (sd : sched_domain) (group : sched_group) (this_cpu : Z) (idle : cpu_idle_type)
    (load_idx : Z) (local : bool) (cpus : list Z) : B (option sg_lb_stats) :=
  t ← tally_cpus (filter (λ i, i ∈ cpus) (sched_group_cpus group)) local load_idx
        (mkTallied sgs_zero 0 ULONG_MAX 0 (if local then group_first_cpu group else ULONG_MAX) false);
  if local && negb (bool_decide (idle = CPU_NEWLY_IDLE)) && negb (balance_cpu t =? this_cpu) then mret None
  else
    _ ← (if local then
           if negb (bool_decide (idle = CPU_NEWLY_IDLE)) then update_group_power sd this_cpu
           else
             p ← load_power group;
             if time_after_eq jiffies (next_update p) then update_group_power sd this_cpu else mret tt
         else mret tt);
    p ← load_power group;
    sgs ← finish_stats sd group p t;
    mret (Some sgs).

(** ** Statistics of a domain *)

Record sd_lb_stats : Type := mkSds {
  busiest : option Z;
  this : option Z;
  total_load : Z;
  total_pwr : Z;
  sds_avg_load : Z;
  this_load : Z;
  this_load_per_task : Z;
  this_nr_running : Z;
  this_has_capacity : bool;
  this_idle_cpus : Z;
  busiest_idle_cpus : Z;
  max_load : Z;
  busiest_load_per_task : Z;
  busiest_nr_running : Z;
  busiest_group_capacity : Z;
  busiest_has_capacity : bool;
  busiest_group_weight : Z;
  group_imb : bool;
  power_savings_balance : bool;
  group_min : option Z;
  group_leader : option Z;
  min_load_per_task : Z;
  leader_nr_running : Z;
  min_nr_running : Z
}.
#[export] Instance sds_eta : Settable sd_lb_stats := λ r,
  mkSds (busiest r) (this r) (total_load r) (total_pwr r) (sds_avg_load r) (this_load r) (this_load_per_task r)
    (this_nr_running r) (this_has_capacity r) (this_idle_cpus r) (busiest_idle_cpus r) (max_load r)
    (busiest_load_per_task r) (busiest_nr_running r) (busiest_group_capacity r) (busiest_has_capacity r)
    (busiest_group_weight r) (group_imb r) (power_savings_balance r) (group_min r) (group_leader r)
    (min_load_per_task r) (leader_nr_running r) (min_nr_running r).

Definition sds_zero : sd_lb_stats :=
  mkSds None None 0 0 0 0 0 0 false 0 0 0 0 0 0 false 0 false false None None 0 0 0.

Definition get_sd_load_idx (sd : sched_domain) (idle : cpu_idle_type) : Z :=
  match idle with
  | CPU_NOT_IDLE => busy_idx sd
  | CPU_NEWLY_IDLE => newidle_idx sd
  | CPU_IDLE => idle_idx sd
  end.

Definition init_sd_power_savings_stats (sd : sched_domain) (sds : sd_lb_stats) (idle : cpu_idle_type) : sd_lb_stats :=
  if negb CONFIG_SCHED_MC then sds
  else if bool_decide (idle = CPU_NOT_IDLE) || negb (has_flag (sd_flags sd) SD_POWERSAVINGS_BALANCE)
  then sds <| power_savings_balance := false |>
  else sds <| power_savings_balance := true |> <| min_nr_running := ULONG_MAX |> <| leader_nr_running := 0 |>.

(** [group_first_cpu] of a group that may be the null pointer. *)
Definition first_cpu_of (g : option Z) : B Z := g ← deref g; group ← load_sg g; mret (group_first_cpu group).

Definition update_sd_power_savings_stats (g : Z) (sds : sd_lb_stats) (local : bool) (sgs : sg_lb_stats) : B sd_lb_stats :=
  if negb CONFIG_SCHED_MC || negb (power_savings_balance sds) then mret sds
  else
    let full := local && ((group_capacity sgs <=? this_nr_running sds) || (this_nr_running sds =? 0)) in
    let sds := if full then sds <| power_savings_balance := false |> else sds in
    if negb (power_savings_balance sds) || (group_capacity sgs <=? sum_nr_running sgs) || (sum_nr_running sgs =? 0)
    then mret sds
    else
      first ← first_cpu_of (Some g);
      least ← (if sum_nr_running sgs <? min_nr_running sds then mret true
               else if sum_nr_running sgs =? min_nr_running sds then m ← first_cpu_of (group_min sds); mret (m <? first)
               else mret false);
      let sds := if least : bool
        then sds <| group_min := Some g |> <| min_nr_running := sum_nr_running sgs |>
                 <| min_load_per_task := sum_weighted_load sgs / sum_nr_running sgs |>
        else sds in
      if group_capacity sgs <? u32 (sum_nr_running sgs + 1) then mret sds
      else
        leads ← (if leader_nr_running sds <? sum_nr_running sgs then mret true
                 else if sum_nr_running sgs =? leader_nr_running sds then m ← first_cpu_of (group_leader sds); mret (first <? m)
                 else mret false);
        mret (if leads : bool then sds <| group_leader := Some g |> <| leader_nr_running := sum_nr_running sgs |> else sds).

(** Whether the power is saved by emptying the least loaded group: the statistics and
    the imbalance. *)
Definition check_power_save_busiest_group (sds : sd_lb_stats) : option (sd_lb_stats * Z) :=
  if negb CONFIG_SCHED_MC || negb (power_savings_balance sds) then None
  else if negb (bool_decide (this sds = group_leader sds)) || bool_decide (group_leader sds = group_min sds) then None
  else Some (sds <| busiest := group_min sds |>, min_load_per_task sds).

Definition update_sd_pick_busiest (sd : sched_domain) (sds : sd_lb_stats) (sg : Z) (sgs : sg_lb_stats) (this_cpu : Z) : B bool :=
  if avg_load sgs <=? max_load sds then mret false
  else if group_capacity sgs <? sum_nr_running sgs then mret true
  else if sgs_group_imb sgs then mret true
  else if has_flag (sd_flags sd) SD_ASYM_PACKING && negb (sum_nr_running sgs =? 0) then
    first ← first_cpu_of (Some sg);
    if this_cpu <? first then
      match busiest sds with
      | None => mret true
      | Some b => m ← first_cpu_of (Some b); mret (first <? m)
      end
    else mret false
  else mret false.

Definition take_local (sds : sd_lb_stats) (sg : Z) (sgs : sg_lb_stats) : sd_lb_stats :=
  sds <| this_load := avg_load sgs |> <| this := Some sg |> <| this_nr_running := sum_nr_running sgs |>
      <| this_load_per_task := sum_weighted_load sgs |> <| this_has_capacity := group_has_capacity sgs |>
      <| this_idle_cpus := idle_cpus sgs |>.

Definition take_busiest (sds : sd_lb_stats) (sg : Z) (sgs : sg_lb_stats) : sd_lb_stats :=
  sds <| max_load := avg_load sgs |> <| busiest := Some sg |> <| busiest_nr_running := sum_nr_running sgs |>
      <| busiest_idle_cpus := idle_cpus sgs |> <| busiest_group_capacity := group_capacity sgs |>
      <| busiest_load_per_task := sum_weighted_load sgs |> <| busiest_has_capacity := group_has_capacity sgs |>
      <| busiest_group_weight := sgs_group_weight sgs |> <| group_imb := sgs_group_imb sgs |>.

(** One group of [update_sd_lb_stats], with the statistics [sgs] of it. *)
Definition account_group (sd : sched_domain) (this_cpu : Z) (prefer_sibling : bool) (sg : Z) (local : bool)
    (sgs : sg_lb_stats) (sds : sd_lb_stats) : B sd_lb_stats :=
  group ← load_sg sg;
  p ← load_power group;
  let sds := sds <| total_load := u32 (total_load sds + group_load sgs) |> <| total_pwr := u32 (total_pwr sds + sg_power p) |> in
  let sgs := if prefer_sibling && negb local && this_has_capacity sds
             then sgs <| group_capacity := Z.min (group_capacity sgs) 1 |> else sgs in
  sds ← (if local then mret (take_local sds sg sgs)
         else
           pick ← update_sd_pick_busiest sd sds sg sgs this_cpu;
           mret (if pick : bool then take_busiest sds sg sgs else sds));
  update_sd_power_savings_stats sg sds local sgs.

(** The loop over the groups; the flag is [*balance]. *)
Fixpoint sd_loop (gs : list Z) (sd : sched_domain) (this_cpu : Z) (idle : cpu_idle_type) (cpus : list Z)
    (load_idx : Z) (prefer_sibling : bool) (sds : sd_lb_stats) : B (sd_lb_stats * bool) :=
  match gs with
  | [] => mret (sds, true)
  | sg :: gs' =>
      group ← load_sg sg;
      let local := bool_decide (this_cpu ∈ sched_group_cpus group) in
      r ← update_sg_lb_stats sd group this_cpu idle load_idx local cpus;
      match r with
      | None => mret (sds, false)
      | Some sgs =>
          sds ← account_group sd this_cpu prefer_sibling sg local sgs sds;
          sd_loop gs' sd this_cpu idle cpus load_idx prefer_sibling sds
      end
  end.

Definition update_sd_lb_stats (sd : sched_domain) (this_cpu : Z) (idle : cpu_idle_type) (cpus : list Z)
    (sds : sd_lb_stats) : B (sd_lb_stats * bool) :=
  prefer_sibling ← match sd_child sd with
                   | None => mret false
                   | Some c => s ← get; child ← deref (domains s !! c); mret (has_flag (sd_flags child) SD_PREFER_SIBLING)
                   end;
  let sds := init_sd_power_savings_stats sd sds idle in
  sd_loop (sd_groups sd) sd this_cpu idle cpus (get_sd_load_idx sd idle) prefer_sibling sds.

(** ** The imbalance *)

(** The imbalance, if a task is to be moved down to this processor. *)
Definition check_asym_packing (sd : sched_domain) (sds : sd_lb_stats) (this_cpu : Z) : B (option Z) :=
  if negb (has_flag (sd_flags sd) SD_ASYM_PACKING) then mret None
  else
    match busiest sds with
    | None => mret None
    | Some b =>
        busiest_cpu ← first_cpu_of (Some b);
        if s32 busiest_cpu <? this_cpu then mret None
        else
          group ← load_sg b;
          p ← load_power group;
          mret (Some (DIV_ROUND_CLOSEST (u32 (max_load sds * sg_power p)) SCHED_POWER_SCALE))
    end.

(** Power of the group [g]. *)
Definition power_at (g : option Z) : B Z := g ← deref g; group ← load_sg g; p ← load_power group; mret (sg_power p).

(** [this_load_per_task] once it is per task, and the weight of the imbalance. *)
Definition per_task (sds : sd_lb_stats) (this_cpu : Z) : B (Z * Z) :=
  if negb (this_nr_running sds =? 0) then
    let l := this_load_per_task sds / this_nr_running sds in
    mret (l, if l <? busiest_load_per_task sds then 1 else 2)
  else
    l ← cpu_avg_load_per_task this_cpu;
    mret (l, 2).

(** What is returned is [*imbalance], which was [imbalance]. *)
Definition fix_small_imbalance (sds : sd_lb_stats) (this_cpu imbalance : Z) : B Z :=
  '(this_lpt, imbn) ← per_task sds this_cpu;
  bp ← power_at (busiest sds);
  scaled ← udiv (u32 (busiest_load_per_task sds * SCHED_POWER_SCALE)) bp;
  if u32 (scaled * imbn) <=? u32 (u32 (max_load sds - this_load sds) + scaled) then mret (busiest_load_per_task sds)
  else
    tp ← power_at (this sds);
    let pwr_now := u32 (bp * Z.min (busiest_load_per_task sds) (max_load sds)) in
    let pwr_now := u32 (pwr_now + tp * Z.min this_lpt (this_load sds)) / SCHED_POWER_SCALE in
    let tmp := scaled in
    let pwr_move := if tmp <? max_load sds
                    then u32 (bp * Z.min (busiest_load_per_task sds) (max_load sds - tmp)) else 0 in
    tmp ← (if u32 (max_load sds * bp) <? u32 (busiest_load_per_task sds * SCHED_POWER_SCALE)
           then udiv (u32 (max_load sds * bp)) tp
           else udiv (u32 (busiest_load_per_task sds * SCHED_POWER_SCALE)) tp);
    let pwr_move := u32 (pwr_move + tp * Z.min this_lpt (u32 (this_load sds + tmp))) / SCHED_POWER_SCALE in
    if pwr_now <? pwr_move then mret (busiest_load_per_task sds) else mret imbalance.

(** The load to move. *)
Definition calculate_imbalance (sds : sd_lb_stats) (this_cpu : Z) : B Z :=
  lpt ← udiv (busiest_load_per_task sds) (busiest_nr_running sds);
  let sds := sds <| busiest_load_per_task := if group_imb sds then Z.min lpt (sds_avg_load sds) else lpt |> in
  if max_load sds <? sds_avg_load sds then fix_small_imbalance sds this_cpu 0
  else
    bp ← power_at (busiest sds);
    above ← (if negb (group_imb sds) then
               udiv (u32 (u32 (busiest_nr_running sds - busiest_group_capacity sds) * (SCHED_LOAD_SCALE * SCHED_POWER_SCALE))) bp
             else mret ULONG_MAX);
    let max_pull := Z.min (max_load sds - sds_avg_load sds) above in
    tp ← power_at (this sds);
    let imbalance := Z.min (u32 (max_pull * bp)) (u32 (u32 (sds_avg_load sds - this_load sds) * tp)) / SCHED_POWER_SCALE in
    if imbalance <? busiest_load_per_task sds then fix_small_imbalance sds this_cpu imbalance
    else mret imbalance.

(** Whether the checks of [find_busiest_group] find the domain balanced. *)
Definition looks_balanced (sd : sched_domain) (idle : cpu_idle_type) (sds : sd_lb_stats) : bool :=
  if group_imb sds then false
  else if bool_decide (idle = CPU_NEWLY_IDLE) && this_has_capacity sds && negb (busiest_has_capacity sds) then false
  else if max_load sds <=? this_load sds then true
  else if sds_avg_load sds <=? this_load sds then true
  else if bool_decide (idle = CPU_IDLE) then
    (this_idle_cpus sds <=? u32 (busiest_idle_cpus sds + 1)) && (busiest_nr_running sds <=? busiest_group_weight sds)
  else u32 (100 * max_load sds) <=? u32 (imbalance_pct sd * this_load sds).

(** From the label [out_balanced] on. *)
Definition out_balanced (sds : sd_lb_stats) : option Z * Z :=
  match check_power_save_busiest_group sds with
  | Some (sds, imbalance) => (busiest sds, imbalance)
  | None => (None, 0)
  end.

(** The group, the imbalance and [*balance]. *)
Definition find_busiest_group (sd : sched_domain) (this_cpu : Z) (idle : cpu_idle_type) (cpus : list Z)
    : B (option Z * Z * bool) :=
  '(sds, balance) ← update_sd_lb_stats sd this_cpu idle cpus sds_zero;
  if negb balance then mret (None, 0, false)
  else
    asym ← (if bool_decide (idle = CPU_IDLE) || bool_decide (idle = CPU_NEWLY_IDLE)
            then check_asym_packing sd sds this_cpu else mret None);
    match asym with
    | Some imbalance => mret (busiest sds, imbalance, true)
    | None =>
        if bool_decide (busiest sds = None) || (busiest_nr_running sds =? 0) then mret (out_balanced sds, true)
        else
          avg ← udiv (u32 (SCHED_POWER_SCALE * total_load sds)) (total_pwr sds);
          let sds := sds <| sds_avg_load := avg |> in
          if looks_balanced sd idle sds then mret (out_balanced sds, true)
          else
            imbalance ← calculate_imbalance sds this_cpu;
            mret (busiest sds, imbalance, true)
    end.

(** ** The busiest queue *)

Fixpoint busiest_cpus (is_ : list Z) (sd : sched_domain) (p : sched_group_power) (imbalance : Z) (cpus : list Z)
    (max_load : Z) (busiest : option Z) : B (option Z) :=
  match is_ with
  | [] => mret busiest
  | i :: is' =>
      power ← power_of i;
      let capacity := DIV_ROUND_CLOSEST power SCHED_POWER_SCALE in
      let capacity := if capacity =? 0 then fix_small_capacity sd p else capacity in
      if negb (bool_decide (i ∈ cpus)) then busiest_cpus is' sd p imbalance cpus max_load busiest
      else
        r ← rq_of_cpu i;
        wl ← weighted_cpuload i;
        if negb (capacity =? 0) && (rq_nr_running r =? 1) && (imbalance <? wl)
        then busiest_cpus is' sd p imbalance cpus max_load busiest
        else
          wl ← udiv (u32 (wl * SCHED_POWER_SCALE)) power;
          if max_load <? wl then busiest_cpus is' sd p imbalance cpus wl (Some i)
          else busiest_cpus is' sd p imbalance cpus max_load busiest
  end.

(** The processor of the queue. *)
Definition find_busiest_queue (sd : sched_domain) (group : sched_group) (imbalance : Z) (cpus : list Z) : B (option Z) :=
  p ← load_power group;
  busiest_cpus (sched_group_cpus group) sd p imbalance cpus 0 None.

Definition need_active_balance (sd : sched_domain) (idle : cpu_idle_type) (busiest_cpu this_cpu : Z) : bool :=
  if bool_decide (idle = CPU_NEWLY_IDLE) && has_flag (sd_flags sd) SD_ASYM_PACKING && (this_cpu <? busiest_cpu) then true
  else if bool_decide (idle = CPU_NEWLY_IDLE) && (sched_mc_power_savings <? POWERSAVINGS_BALANCE_WAKEUP) then false
  else u32 (cache_nice_tries sd + 2) <? nr_balance_failed sd.
End Balance.
