(* ===== verification/BalanceSpec.v ===== *)
(** * What the load balancer chooses

    The idlest processor and group, the busiest group and queue are extreme among those
    that qualify; the load to move never takes a group across the average of the domain. *)

From S2P Require Import Prelude Balance.

Section BalanceSpec.
Context `{LbEnv}.
Implicit Types (s : lb_state) (sd : sched_domain).

(** ** The idlest processor *)

Definition weight_of s (i : Z) : Z := default 0 (rq_weight <$> rqs s !! i).

(** The processors are there, with loads below the largest number. *)
Definition cpus_known s (cpus : list Z) : Prop :=
  ∀ i, i ∈ cpus → ∃ r, rqs s !! i = Some r ∧ 0 ≤ rq_weight r < ULONG_MAX.

Lemma weighted_cpuload_run s i r : rqs s !! i = Some r → weighted_cpuload i s = Ok (weight_of s i) s.
Proof. intros E. unfold weighted_cpuload, rq_of_cpu, weight_of. mstep. by rewrite E. Qed.

Lemma rq_of_cpu_run s i r : rqs s !! i = Some r → rq_of_cpu i s = Ok r s.
Proof. intros E. unfold rq_of_cpu. mstep. by rewrite E. Qed.

Lemma power_of_run s i r : rqs s !! i = Some r → power_of i s = Ok (cpu_power r) s.
Proof. intros E. unfold power_of, mbind, M_bind. by rewrite (rq_of_cpu_run s i r E). Qed.

Lemma weighted_run s i r : rqs s !! i = Some r → weighted_cpuload i s = Ok (rq_weight r) s.
Proof. intros E. unfold weighted_cpuload, mbind, M_bind. by rewrite (rq_of_cpu_run s i r E). Qed.

Lemma load_sg_run s g group : lb_groups s !! g = Some group → load_sg g s = Ok group s.
Proof. intros E. unfold load_sg. mstep. by rewrite E. Qed.

Lemma load_power_run s group p : powers s !! sgp group = Some p → load_power group s = Ok p s.
Proof. intros E. unfold load_power. mstep. by rewrite E. Qed.

Lemma udiv_run s a b : b ≠ 0 → udiv a b s = Ok (a / b) s.
Proof. intros Hb. unfold udiv. destruct (Z.eqb_spec b 0); [done|]. done. Qed.

Lemma in_snoc {A} (es : list A) e x : x ∈ es ++ [e] ↔ x ∈ es ∨ x = e.
Proof. by rewrite elem_of_app, list_elem_of_singleton. Qed.

(** The choice so far: the least load, and this processor if it has it. *)
Definition least s (this_cpu : Z) (seen : list Z) (min_load idlest : Z) : Prop :=
  (seen = [] ∧ min_load = ULONG_MAX ∧ idlest = -1) ∨
  (idlest ∈ seen ∧ min_load = weight_of s idlest ∧ (∀ j, j ∈ seen → min_load ≤ weight_of s j) ∧
   (this_cpu ∈ seen → weight_of s this_cpu = min_load → idlest = this_cpu)).

Lemma idlest_cpus_least s this_cpu : ∀ cpus seen min_load idlest,
  cpus_known s cpus → least s this_cpu seen min_load idlest →
  ∃ i m, idlest_cpus cpus this_cpu min_load idlest s = Ok i s ∧ least s this_cpu (seen ++ cpus) m i.
Proof.
  induction cpus as [|i cpus IH]; intros seen m0 i0 Hk Hl.
  { exists i0, m0. rewrite app_nil_r. done. }
  destruct (Hk i ltac:(left)) as (r & Er & Hr). assert (Hw : weight_of s i = rq_weight r) by (unfold weight_of; by rewrite Er).
  assert (Hk' : cpus_known s cpus) by (intros j Hj; apply Hk; by right).
  cbn [idlest_cpus]. unfold mbind, M_bind. rewrite (weighted_cpuload_run s i r Er).
  replace (seen ++ i :: cpus) with ((seen ++ [i]) ++ cpus) by (by rewrite <- app_assoc).
  pose proof (in_snoc seen i) as Hin.
  destruct ((weight_of s i <? m0) || _) eqn:E; apply IH; try done.
  - right. apply orb_true_iff in E. split_and!; [apply Hin; by right|done| |].
    + intros j [Hj| ->]%Hin; [|lia]. destruct Hl as [(-> & _)|(_ & _ & Hmin & _)]; [by apply not_elem_of_nil in Hj|].
      specialize (Hmin j Hj). destruct E as [E|E]; bsimp; lia.
    + intros [Hj| ->]%Hin Hew; [|done]. destruct Hl as [(-> & _)|(_ & _ & Hmin & _)]; [by apply not_elem_of_nil in Hj|].
      specialize (Hmin _ Hj). destruct E as [E|E]; bsimp; [lia|done].
  - apply orb_false_iff in E as [E1 E2]. bsimp. destruct Hl as [(-> & -> & ->)|(Hi & Hm & Hmin & Ht)].
    { lia. }
    right. split_and!; [apply Hin; by left|done| |].
    + intros j [Hj| ->]%Hin; [by apply Hmin|done].
    + intros [Hj| ->]%Hin Hew; [by apply Ht|]. apply andb_false_iff in E2 as [E2|E2]; bsimp; [lia|done].
Qed.

(** [find_idlest_cpu] returns -1 exactly if the task may run on no processor of the
    group, and otherwise an allowed processor of the group with the least load of them,
    this processor if it is one of the least loaded. *)
Theorem find_idlest_cpu_least s group allowed this_cpu :
  cpus_known s (sched_group_cpus group) →
  let common := filter (λ i, i ∈ allowed) (sched_group_cpus group) in
  ∃ i, find_idlest_cpu group allowed this_cpu s = Ok i s ∧
    ((common = [] ∧ i = -1) ∨
     (i ∈ common ∧ (∀ j, j ∈ common → weight_of s i ≤ weight_of s j) ∧
      (this_cpu ∈ common → weight_of s this_cpu = weight_of s i → i = this_cpu))).
Proof.
  intros Hk common. unfold find_idlest_cpu. fold common.
  destruct (idlest_cpus_least s this_cpu common [] ULONG_MAX (-1)) as (i & m & E & Hl).
  { intros j Hj. apply Hk. unfold common in Hj. by apply list_elem_of_filter in Hj as [_ Hj]. }
  { by left. }
  exists i. split; [exact E|]. destruct Hl as [(Hn & _ & ->)|(Hi & -> & Hmin & Ht)]; [by left|]. right. by split_and!.
Qed.

(** ** The idlest group *)

(** Load of a group relative to its power, as [find_idlest_group] sees it. *)
Definition placed_load s (this_cpu load_idx : Z) (group : sched_group) : Z :=
  match tally (sched_group_cpus group) (bool_decide (this_cpu ∈ sched_group_cpus group)) load_idx 0 s, powers s !! sgp group with
  | Ok n _, Some p => u32 (n * SCHED_POWER_SCALE) / sg_power p
  | _, _ => 0
  end.

(** The groups without this processor on which the task may run. *)
Definition candidate s (allowed : list Z) (this_cpu : Z) (g : Z) (group : sched_group) : Prop :=
  lb_groups s !! g = Some group ∧ this_cpu ∉ sched_group_cpus group ∧ ∃ i, i ∈ sched_group_cpus group ∧ i ∈ allowed.

(** The groups are there, with power and loads. *)
Definition groups_known s (this_cpu load_idx : Z) (gs : list Z) : Prop := ∀ g, g ∈ gs → ∃ group p n,
  lb_groups s !! g = Some group ∧ powers s !! sgp group = Some p ∧ sg_power p ≠ 0 ∧
  tally (sched_group_cpus group) (bool_decide (this_cpu ∈ sched_group_cpus group)) load_idx 0 s = Ok n s.

(** The load of the local group, 0 if the task may not run there. *)
Definition local_load s (this_cpu load_idx : Z) (seen : list Z) (t : Z) : Prop :=
  t = 0 ∨ ∃ g group, g ∈ seen ∧ lb_groups s !! g = Some group ∧ this_cpu ∈ sched_group_cpus group ∧ t = placed_load s this_cpu load_idx group.

Definition idlest_of s allowed this_cpu load_idx (seen : list Z) (b : option Z) (m : Z) : Prop :=
  (∀ g group, g ∈ seen → candidate s allowed this_cpu g group → m ≤ placed_load s this_cpu load_idx group) ∧
  match b with
  | None => m = ULONG_MAX
  | Some g => g ∈ seen ∧ ∃ group, candidate s allowed this_cpu g group ∧ m = placed_load s this_cpu load_idx group
  end.

Lemma idlest_skip s allowed this_cpu load_idx seen b m g :
  idlest_of s allowed this_cpu load_idx seen b m →
  (∀ group, candidate s allowed this_cpu g group → m ≤ placed_load s this_cpu load_idx group) →
  idlest_of s allowed this_cpu load_idx (seen ++ [g]) b m.
Proof.
  intros [H1 H2] Hg. split.
  - intros h group [Hh| ->]%in_snoc Hc; [by eapply H1|by apply Hg].
  - destruct b as [h|]; [|done]. destruct H2 as [Hh Hr]. split; [apply in_snoc; by left|done].
Qed.

Lemma local_more s this_cpu load_idx seen t g : local_load s this_cpu load_idx seen t → local_load s this_cpu load_idx (seen ++ [g]) t.
Proof. intros [-> |(h & group & Hh & Hr)]; [by left|]. right. exists h, group. split; [apply in_snoc; by left|done]. Qed.

Lemma idlest_groups_least s allowed this_cpu load_idx : ∀ gs seen b m t,
  groups_known s this_cpu load_idx gs → idlest_of s allowed this_cpu load_idx seen b m → local_load s this_cpu load_idx seen t →
  ∃ b' m' t', idlest_groups gs allowed this_cpu load_idx b m t s = Ok (b', m', t') s ∧
    idlest_of s allowed this_cpu load_idx (seen ++ gs) b' m' ∧ local_load s this_cpu load_idx (seen ++ gs) t'.
Proof.
  induction gs as [|g gs IH]; intros seen b m t Hk Hi Ht.
  { exists b, m, t. by rewrite app_nil_r. }
  destruct (Hk g ltac:(left)) as (group & p & n & Eg & Ep & Hp & En).
  assert (Hk' : groups_known s this_cpu load_idx gs) by (intros h Hh; apply Hk; by right).
  assert (Hl : placed_load s this_cpu load_idx group = u32 (n * SCHED_POWER_SCALE) / sg_power p) by (unfold placed_load; by rewrite En, Ep).
  replace (seen ++ g :: gs) with ((seen ++ [g]) ++ gs) by (by rewrite <- app_assoc).
  cbn [idlest_groups]. unfold mbind, M_bind. rewrite (load_sg_run s g group Eg).
  destruct (existsb _ (sched_group_cpus group)) eqn:Ex; cbn [negb].
  2: { apply IH; [done| |by apply local_more]. apply idlest_skip; [done|]. intros group' (Eg' & _ & i & Hi1 & Hi2). exfalso.
       assert (group' = group) as -> by congruence. apply not_true_iff_false in Ex. apply Ex, existsb_exists.
       exists i. rewrite <- list_elem_of_In. by rewrite bool_decide_true. }
  rewrite En, (load_power_run s group p Ep), udiv_run, <- Hl by done.
  destruct (bool_decide_reflect (this_cpu ∈ sched_group_cpus group)) as [Hc|Hc].
  { apply IH; [done| |].
    - apply idlest_skip; [done|]. intros group' (Eg' & Hn & _). by simplify_eq.
    - right. exists g, group. split; [apply in_snoc; by right|done]. }
  destruct (Z.ltb_spec (placed_load s this_cpu load_idx group) m) as [Hlt|Hge]; (apply IH; [done| |by apply local_more]).
  2: { apply idlest_skip; [done|]. intros group' (Eg' & _). by simplify_eq. }
  apply existsb_exists in Ex as (i & Hi1 & Hi2%bool_decide_eq_true). rewrite <- list_elem_of_In in Hi1. split.
  - intros h group' [Hh| ->]%in_snoc Hcand; [|destruct Hcand as [Eg' _]; by simplify_eq].
    destruct Hi as [H1 _]. specialize (H1 h group' Hh Hcand). lia.
  - split; [apply in_snoc; by right|]. exists group. split; [|done]. by split_and!; [..|exists i].
Qed.

(** [find_idlest_group] returns the group with the least load relative to its power
    of those without this processor on which the task may run, or no group: when none of
    them has a load below the largest number, or when the load of the local group is below
    that least load by more than half of the tolerated imbalance. *)
Theorem find_idlest_group_least s sd allowed this_cpu load_idx :
  groups_known s this_cpu load_idx (sd_groups sd) →
  let least g group := g ∈ sd_groups sd ∧ candidate s allowed this_cpu g group ∧
    ∀ h group', h ∈ sd_groups sd → candidate s allowed this_cpu h group' →
      placed_load s this_cpu load_idx group ≤ placed_load s this_cpu load_idx group' in
  let tolerance := s32 (u32 (100 + u32 (imbalance_pct sd - 100) / 2)) in
  ∃ r, find_idlest_group sd allowed this_cpu load_idx s = Ok r s ∧
    match r with
    | Some g => ∃ group, least g group
    | None =>
        (∀ h group, h ∈ sd_groups sd → candidate s allowed this_cpu h group → ULONG_MAX ≤ placed_load s this_cpu load_idx group) ∨
        (∃ g group t, least g group ∧ local_load s this_cpu load_idx (sd_groups sd) t ∧
           u32 (100 * t) < u32 (tolerance * placed_load s this_cpu load_idx group))
    end.
Proof.
  intros Hk least tolerance. unfold find_idlest_group, mbind, M_bind.
  destruct (idlest_groups_least s allowed this_cpu load_idx (sd_groups sd) [] None ULONG_MAX 0 Hk) as (b & m & t & E & [Hmin Hb] & Ht).
  { split; [|done]. intros g group Hg. by apply not_elem_of_nil in Hg. }
  { by left. }
  rewrite E. destruct b as [g|].
  - destruct Hb as (Hg & group & Hc & ->). assert (Hl : least g group) by (by split_and!). fold tolerance.
    destruct (Z.ltb_spec (u32 (100 * t)) (u32 (tolerance * placed_load s this_cpu load_idx group))).
    + exists None. split; [done|]. right. by exists g, group, t.
    + exists (Some g). split; [done|]. by exists group.
  - exists None. split; [done|]. left. subst m. exact Hmin.
Qed.

(** ** An idle sibling *)

Definition idle_at s (i : Z) : Prop := ∃ r, rqs s !! i = Some r ∧ cpu_is_idle r = true.

Lemma all_idle_exact s : ∀ is_, (∀ i, i ∈ is_ → is_Some (rqs s !! i)) →
  ∃ b, all_idle is_ s = Ok b s ∧ (b = true → ∀ i, i ∈ is_ → idle_at s i).
Proof.
  induction is_ as [|i is_ IH]; intros Hk.
  { exists true. split; [done|]. intros _ i Hi. by apply not_elem_of_nil in Hi. }
  destruct (Hk i ltac:(left)) as [r Er]. cbn [all_idle]. unfold mbind, M_bind. rewrite (rq_of_cpu_run s i r Er).
  destruct (cpu_is_idle r) eqn:Ei; cbn [negb]; [|by exists false].
  destruct (IH ltac:(intros j Hj; apply Hk; by right)) as (b & -> & Hb). exists b. split; [done|].
  intros Et j [-> |Hj]%elem_of_cons; [by exists r|by apply Hb].
Qed.

(** The groups of the domains with their processors. *)
Definition siblings_known s (gs : list Z) : Prop := ∀ g, g ∈ gs → ∃ group, lb_groups s !! g = Some group ∧
  ∀ i, i ∈ sched_group_cpus group → is_Some (rqs s !! i).

Lemma idle_group_idle s allowed : ∀ gs, siblings_known s gs →
  ∃ r, idle_group gs allowed s = Ok r s ∧ ∀ i, r = Some i → i ∈ allowed ∧ idle_at s i.
Proof.
  induction gs as [|g gs IH]; intros Hk; [by exists None|].
  destruct (Hk g ltac:(left)) as (group & Eg & Hc). assert (Hk' : siblings_known s gs) by (intros h Hh; apply Hk; by right).
  cbn [idle_group]. unfold mbind, M_bind. rewrite (load_sg_run s g group Eg).
  destruct (negb _); [by apply IH|]. destruct (all_idle_exact s (sched_group_cpus group) Hc) as (b & -> & Hb).
  destruct b; cbn [negb]; [|by apply IH]. eexists. split; [reflexivity|]. intros i Hi.
  assert (Hin : i ∈ filter (λ i, i ∈ allowed) (sched_group_cpus group)).
  { destruct (filter _ _); [done|]. simpl in Hi. simplify_eq. left. }
  apply list_elem_of_filter in Hin as [Ha Hin]. split; [done|]. by apply Hb.
Qed.

(** [select_idle_sibling] returns the target it was given, or a processor that is idle
    and on which the task may run. *)
Theorem select_idle_sibling_idle s cpu prev_cpu sds allowed target :
  is_Some (rqs s !! cpu) → is_Some (rqs s !! prev_cpu) → (∀ sd, sd ∈ sds → siblings_known s (sd_groups sd)) →
  ∃ i, select_idle_sibling cpu prev_cpu sds allowed target s = Ok i s ∧ (i = target ∨ (i ∈ allowed ∧ idle_at s i)).
Proof.
  intros [r Er] [r' Er'] Hk.
  assert (Hd : ∃ i, idle_domains sds allowed target s = Ok i s ∧ (i = target ∨ (i ∈ allowed ∧ idle_at s i))).
  { induction sds as [|sd sds IH]; [exists target; split; [done|by left]|]. cbn [idle_domains]. unfold mbind, M_bind.
    destruct (idle_group_idle s allowed (sd_groups sd) (Hk sd ltac:(left))) as ([i|] & -> & Hi).
    - exists i. split; [done|]. right. by apply Hi.
    - apply IH. intros sd' Hsd. apply Hk. by right. }
  unfold select_idle_sibling, mbind, M_bind.
  assert (Hh : ∀ c q, rqs s !! c = Some q → ∃ b : bool,
    (if target =? c then rq_of_cpu c ≫= (λ q, mret (cpu_is_idle q)) else mret false) s = Ok b s ∧ (b = true → c = target)).
  { intros c q Eq. destruct (Z.eqb_spec target c) as [-> |_]; [|by exists false]. unfold mbind, M_bind.
    rewrite (rq_of_cpu_run s c q Eq). by exists (cpu_is_idle q). }
  destruct (Hh cpu r Er) as (b & Eb & Hb). unfold mbind, M_bind in Eb. rewrite Eb.
  destruct b; [exists cpu; split; [done|left; by apply Hb]|].
  destruct (Hh prev_cpu r' Er') as (b & Eb' & Hb'). unfold mbind, M_bind in Eb'. rewrite Eb'.
  destruct b; [exists prev_cpu; split; [done|left; by apply Hb']|]. exact Hd.
Qed.

(** ** The busiest queue *)

Definition rq_at s (i : Z) : cpu_rq := default (mkCpuRq 0 0 0 ∅ 1 false 0 0 0) (rqs s !! i).

(** The load relative to the power. *)
Definition scaled_load s (i : Z) : Z := u32 (rq_weight (rq_at s i) * SCHED_POWER_SCALE) / cpu_power (rq_at s i).

(** A queue from which something can be taken. *)
Definition can_pull s sd (p : sched_group_power) (imbalance : Z) (cpus : list Z) (i : Z) : bool :=
  let power := cpu_power (rq_at s i) in
  let capacity := DIV_ROUND_CLOSEST power SCHED_POWER_SCALE in
  let capacity := if capacity =? 0 then fix_small_capacity sd p else capacity in
  bool_decide (i ∈ cpus) &&
  negb (negb (capacity =? 0) && (rq_nr_running (rq_at s i) =? 1) && (imbalance <? rq_weight (rq_at s i))).

Definition most s sd p imbalance cpus (seen : list Z) (max : Z) (b : option Z) : Prop :=
  (∀ j, j ∈ seen → can_pull s sd p imbalance cpus j = true → scaled_load s j ≤ max) ∧
  match b with
  | None => max = 0
  | Some i => i ∈ seen ∧ can_pull s sd p imbalance cpus i = true ∧ max = scaled_load s i ∧ 0 < max
  end.

Definition powers_positive s (cpus : list Z) : Prop := ∀ i, i ∈ cpus → ∃ r, rqs s !! i = Some r ∧ 0 < cpu_power r.

Lemma busiest_cpus_most s sd p imbalance cpus : ∀ is_ seen max b,
  powers_positive s is_ → most s sd p imbalance cpus seen max b → 0 ≤ max →
  ∃ b' m, busiest_cpus is_ sd p imbalance cpus max b s = Ok b' s ∧ most s sd p imbalance cpus (seen ++ is_) m b'.
Proof.
  induction is_ as [|i is_ IH]; intros seen mx b Hk Hm H0.
  { exists b, mx. by rewrite app_nil_r. }
  destruct (Hk i ltac:(left)) as (r & Er & Hr). assert (Ha : rq_at s i = r) by (unfold rq_at; by rewrite Er).
  assert (Hk' : powers_positive s is_) by (intros j Hj; apply Hk; by right).
  replace (seen ++ i :: is_) with ((seen ++ [i]) ++ is_) by (by rewrite <- app_assoc).
  pose proof (in_snoc seen i) as Hin.
  assert (Hskip : can_pull s sd p imbalance cpus i = false ∨ scaled_load s i ≤ mx → most s sd p imbalance cpus (seen ++ [i]) mx b).
  { intros Hs. destruct Hm as [Hmax Hb]. split.
    - intros j [Hj| ->]%Hin Hc; [by apply Hmax|]. destruct Hs; [congruence|done].
    - destruct b as [j|]; [|done]. destruct Hb as (Hj & Hrest). split; [apply Hin; by left|done]. }
  cbn [busiest_cpus]. unfold mbind, M_bind. rewrite (power_of_run s i r Er).
  set (capacity := if DIV_ROUND_CLOSEST (cpu_power r) SCHED_POWER_SCALE =? 0 then _ else _).
  assert (Hcp : can_pull s sd p imbalance cpus i = bool_decide (i ∈ cpus) &&
    negb (negb (capacity =? 0) && (rq_nr_running r =? 1) && (imbalance <? rq_weight r))) by (unfold can_pull; by rewrite Ha).
  assert (Hsl : scaled_load s i = u32 (rq_weight r * SCHED_POWER_SCALE) / cpu_power r) by (unfold scaled_load; by rewrite Ha).
  destruct (bool_decide (i ∈ cpus)); cbn [negb]; [|apply IH; [done|apply Hskip; by left|done]].
  rewrite (rq_of_cpu_run s i r Er), (weighted_run s i r Er).
  destruct (negb (capacity =? 0) && (rq_nr_running r =? 1) && (imbalance <? rq_weight r)).
  { apply IH; [done|apply Hskip; by left|done]. }
  unfold udiv. destruct (Z.eqb_spec (cpu_power r) 0) as [E0|_]; [lia|]. unfold mret, M_ret. rewrite <- Hsl.
  destruct (Z.ltb_spec mx (scaled_load s i)) as [Hlt|Hge]; [|apply IH; [done|apply Hskip; by right|done]].
  apply IH; [done| |lia]. destruct Hm as [Hmax _]. split.
  - intros j [Hj| ->]%Hin Hc; [|lia]. specialize (Hmax j Hj Hc). lia.
  - split_and!; [apply Hin; by right|done|done|lia].
Qed.

(** [find_busiest_queue] returns the processor of the group with the largest load
    relative to its power among those under consideration that do not run a single task
    heavier than the imbalance, and none exactly if those have no load. *)
Theorem find_busiest_queue_most s sd group p imbalance cpus :
  powers s !! sgp group = Some p → powers_positive s (sched_group_cpus group) →
  ∃ b, find_busiest_queue sd group imbalance cpus s = Ok b s ∧
    match b with
    | Some i => i ∈ sched_group_cpus group ∧ can_pull s sd p imbalance cpus i = true ∧ 0 < scaled_load s i ∧
                ∀ j, j ∈ sched_group_cpus group → can_pull s sd p imbalance cpus j = true → scaled_load s j ≤ scaled_load s i
    | None => ∀ j, j ∈ sched_group_cpus group → can_pull s sd p imbalance cpus j = true → scaled_load s j ≤ 0
    end.
Proof.
  intros Hp Hk. unfold find_busiest_queue, load_power, mbind, M_bind, get, deref. rewrite Hp. unfold mret, M_ret.
  destruct (busiest_cpus_most s sd p imbalance cpus (sched_group_cpus group) [] 0 None Hk) as (b & m & E & Hmax & Hb).
  { split; [|done]. intros j Hj. by apply not_elem_of_nil in Hj. }
  { lia. }
  exists b. split; [exact E|]. destruct b as [i|].
  - destruct Hb as (Hi & Hc & -> & H0). by split_and!.
  - intros j Hj Hc. rewrite <- Hb. by apply Hmax.
Qed.

(** ** The load to move *)

Lemma power_at_run s g group p :
  lb_groups s !! g = Some group → powers s !! sgp group = Some p → power_at (Some g) s = Ok (sg_power p) s.
Proof. intros Eg Ep. unfold power_at, load_sg, load_power. mstep. rewrite Eg. mstep. by rewrite Ep. Qed.

(** The local and the busiest group of the statistics are there, with power. *)
Record stats_ready s (sds : sd_lb_stats) (this_cpu bp tp : Z) : Prop := {
  sr_busiest : power_at (busiest sds) s = Ok bp s;
  sr_this : power_at (this sds) s = Ok tp s;
  sr_cpu : is_Some (rqs s !! this_cpu);
  sr_powers : 0 < bp ∧ 0 < tp
}.

(** A small imbalance is kept or is one task of the busiest group. *)
Lemma fix_small_cases s sds this_cpu bp tp imbalance :
  stats_ready s sds this_cpu bp tp →
  ∃ r, fix_small_imbalance sds this_cpu imbalance s = Ok r s ∧ (r = imbalance ∨ r = busiest_load_per_task sds).
Proof.
  intros [Hb Ht [rq Hrq] [Hbp Htp]]. unfold fix_small_imbalance, mbind, M_bind.
  assert (Hp : ∃ l n, per_task sds this_cpu s = Ok (l, n) s).
  { unfold per_task, cpu_avg_load_per_task, mbind, M_bind. destruct (negb (this_nr_running sds =? 0)); [by eexists _, _|].
    rewrite (rq_of_cpu_run s this_cpu rq Hrq). destruct (negb _); by eexists _, _. }
  destruct Hp as (l & n & ->). rewrite Hb, udiv_run by lia.
  destruct (_ <=? _); [by eexists; split; [|right]|]. rewrite Ht.
  destruct (u32 (max_load sds * bp) <? _); rewrite udiv_run by lia; destruct (_ <? _);
    (eexists; split; [reflexivity|]); auto.
Qed.

Lemma calculate_imbalance_returns s sds this_cpu bp tp :
  stats_ready s sds this_cpu bp tp → busiest_nr_running sds ≠ 0 → ∃ imb, calculate_imbalance sds this_cpu s = Ok imb s.
Proof.
  intros Hr Hnr. pose proof Hr as [Hb Ht Hc [Hbp Htp]]. unfold calculate_imbalance, mbind, M_bind. rewrite udiv_run by done.
  set (sds1 := sds <| busiest_load_per_task := _ |>). assert (Hr1 : stats_ready s sds1 this_cpu bp tp) by (by split).
  assert (Hfix : ∀ i, ∃ imb, fix_small_imbalance sds1 this_cpu i s = Ok imb s).
  { intros i. destruct (fix_small_cases s sds1 this_cpu bp tp i Hr1) as (r & E & _). by exists r. }
  destruct (_ <? _); [apply Hfix|]. change (power_at (busiest sds1)) with (power_at (busiest sds)).
  change (power_at (this sds1)) with (power_at (this sds)). rewrite Hb.
  destruct (negb _); [rewrite udiv_run by lia|unfold mret at 1, M_ret at 1]; rewrite Ht;
    (destruct (_ <? _); [apply Hfix|by eexists]).
Qed.

(** C33. Balancing does not overshoot: with the local group below and the busiest above the
    average load of the domain, and loads that fit a word, the load to move is either the
    average load of one task of the busiest group, or so small that the busiest group stays
    at the average or above and the local group at the average or below (loads relative to
    power); [calculate_imbalance] returns in every case. *)
Theorem calculate_imbalance_bounded s sds this_cpu bp tp :
  stats_ready s sds this_cpu bp tp →
  0 < busiest_nr_running sds → 0 ≤ this_load sds ≤ sds_avg_load sds →
  sds_avg_load sds ≤ max_load sds → max_load sds * bp < 2 ^ 32 → sds_avg_load sds * tp < 2 ^ 32 →
  ∃ imb, calculate_imbalance sds this_cpu s = Ok imb s ∧
    (imb = busiest_load_per_task sds / busiest_nr_running sds ∨
     imb = Z.min (busiest_load_per_task sds / busiest_nr_running sds) (sds_avg_load sds) ∨
     (sds_avg_load sds * bp ≤ max_load sds * bp - imb * SCHED_POWER_SCALE ∧
      this_load sds * tp + imb * SCHED_POWER_SCALE ≤ sds_avg_load sds * tp)).
Proof.
  intros Hr Hnr Hthis Havg Hb1 Ht1. pose proof Hr as [Hb Ht Hc [Hbp Htp]].
  unfold calculate_imbalance, mbind, M_bind. rewrite udiv_run by lia.
  set (lpt := if group_imb sds then _ else _).
  set (sds1 := sds <| busiest_load_per_task := lpt |>).
  assert (Hr1 : stats_ready s sds1 this_cpu bp tp) by (by split).
  assert (Hlpt : lpt = busiest_load_per_task sds / busiest_nr_running sds ∨
                 lpt = Z.min (busiest_load_per_task sds / busiest_nr_running sds) (sds_avg_load sds))
    by (subst lpt; destruct (group_imb sds); auto).
  change (max_load sds1) with (max_load sds). change (sds_avg_load sds1) with (sds_avg_load sds).
  change (this_load sds1) with (this_load sds). change (power_at (busiest sds1)) with (power_at (busiest sds)).
  change (power_at (this sds1)) with (power_at (this sds)). change (busiest_load_per_task sds1) with lpt.
  destruct (Z.ltb_spec (max_load sds) (sds_avg_load sds)) as [|_]; [lia|]. rewrite Hb.
  match goal with |- context [match ?m s with Ok _ _ => _ | Err _ _ => _ end] =>
    assert (Hab : ∃ a, m s = Ok a s ∧ 0 ≤ a) end.
  { destruct (negb _); [rewrite udiv_run by lia; eexists; split; [reflexivity|]|by eexists].
    apply Z.div_pos; [apply (uwrap_range 32 ltac:(lia))|lia]. }
  destruct Hab as (above & -> & Habove). rewrite Ht.
  set (pull := Z.min (max_load sds - sds_avg_load sds) above).
  set (imb := Z.min _ _ / SCHED_POWER_SCALE).
  assert (Hscale : SCHED_POWER_SCALE = 1024) by done.
  assert (Hbound : sds_avg_load sds * bp ≤ max_load sds * bp - imb * SCHED_POWER_SCALE ∧
      this_load sds * tp + imb * SCHED_POWER_SCALE ≤ sds_avg_load sds * tp).
  { assert (Hle : imb * SCHED_POWER_SCALE ≤ Z.min (u32 (pull * bp)) (u32 (u32 (sds_avg_load sds - this_load sds) * tp))).
    { subst imb. rewrite Hscale. pose proof (Z.mul_div_le (Z.min (u32 (pull * bp)) (u32 (u32 (sds_avg_load sds - this_load sds) * tp))) 1024). lia. }
    assert (H2 : u32 (u32 (sds_avg_load sds - this_load sds) * tp) = (sds_avg_load sds - this_load sds) * tp).
    { rewrite (uwrap_small 32 (sds_avg_load sds - this_load sds)) by (widths; nia). apply uwrap_small. widths; nia. }
    assert (H1 : u32 (pull * bp) ≤ (max_load sds - sds_avg_load sds) * bp).
    { rewrite (uwrap_small 32) by (subst pull; widths; nia). subst pull. nia. }
    rewrite H2 in Hle. lia. }
  destruct (imb <? lpt).
  - destruct (fix_small_cases s sds1 this_cpu bp tp imb Hr1) as (r & E & [-> | ->]); eexists; (split; [exact E|]).
    + right. right. exact Hbound.
    + change (busiest_load_per_task sds1) with lpt. tauto.
  - eexists. split; [reflexivity|]. right. right. exact Hbound.
Qed.

(** ** A domain that can be surveyed *)

Variables (sd : sched_domain) (this_cpu : Z) (idle : cpu_idle_type) (cpus : list Z).

(** Groups with power, whose processors have the loads that are read. *)
Definition rq_ready (load_idx : Z) (r : cpu_rq) : Prop :=
  (load_idx =? 0) || negb LB_BIAS = false → is_Some (rq_cpu_load r !! (load_idx - 1)).

Definition group_ready s (load_idx g : Z) : Prop :=
  ∃ group p, lb_groups s !! g = Some group ∧ powers s !! sgp group = Some p ∧ 0 < sg_power p ∧
    ∀ i, i ∈ sched_group_cpus group → ∃ r, rqs s !! i = Some r ∧ rq_ready load_idx r.

(** The time over which the power for fair tasks is averaged. *)
Definition rt_total (r : cpu_rq) : Z :=
  let total := u64 (sched_avg_period + u64 (rq_clock r - age_stamp r)) in
  if s64 total <? SCHED_POWER_SCALE then SCHED_POWER_SCALE else total.

(** The groups of the child domain have powers of their own. *)
Definition child_ready s : Prop :=
  ∀ c, sd_child sd = Some c → ∃ child, domains s !! c = Some child ∧
    (∃ n, sum_power (sd_groups child) 0 s = Ok n s ∧ 0 < n) ∧
    ∀ g group, g ∈ sd_groups child → lb_groups s !! g = Some group →
      ∀ g0 group0, head (sd_groups sd) = Some g0 → lb_groups s !! g0 = Some group0 → sgp group ≠ sgp group0.

Record domain_ready s (load_idx : Z) : Prop := {
  dr_groups g : g ∈ sd_groups sd → group_ready s load_idx g;
  dr_head : sd_groups sd ≠ [];
  dr_cpu : ∃ r, rqs s !! this_cpu = Some r ∧ 0 < u32 (Z.shiftr (rt_total r) SCHED_POWER_SHIFT);
  dr_child : child_ready s
}.

(** Only powers change. *)
Definition powers_only s s' : Prop :=
  lb_groups s' = lb_groups s ∧ domains s' = domains s ∧
  (∀ i, rqs s' !! i = rqs s !! i ∨ ∃ r n, rqs s !! i = Some r ∧ rqs s' !! i = Some (r <| cpu_power := n |>)) ∧
  (∀ k, powers s' !! k = powers s !! k ∨
        (∃ g group, head (sd_groups sd) = Some g ∧ lb_groups s !! g = Some group ∧ k = sgp group) ∧
        ∃ p, powers s' !! k = Some p ∧ 0 < sg_power p).

Lemma powers_only_refl s : powers_only s s.
Proof. split_and!; auto. Qed.

Lemma powers_only_trans s1 s2 s3 : powers_only s1 s2 → powers_only s2 s3 → powers_only s1 s3.
Proof.
  intros (Hg & Hd & Hr & Hp) (Hg' & Hd' & Hr' & Hp'). split_and!; [congruence|congruence| |].
  - intros i. destruct (Hr' i) as [-> | (r & n & E & ->)]; [apply Hr|].
    destruct (Hr i) as [E'|(r' & n' & E1 & E2)]; right; [exists r, n; by rewrite <- E'|].
    exists r', n. split; [done|]. by simplify_eq.
  - intros k. rewrite Hg in Hp'. destruct (Hp' k) as [-> | ?]; [apply Hp|by right].
Qed.

Lemma sum_power_agree s s' gs n :
  lb_groups s' = lb_groups s →
  (∀ g group, g ∈ gs → lb_groups s !! g = Some group → powers s' !! sgp group = powers s !! sgp group) →
  ∀ a, sum_power gs a s = Ok n s → sum_power gs a s' = Ok n s'.
Proof.
  intros Hg. induction gs as [|g gs IH]; intros Hp a E.
  { cbn [sum_power] in *. unfold mret, M_ret in *. by simplify_eq. }
  cbn [sum_power] in *. unfold load_sg, load_power, mbind, M_bind, get, deref in *. rewrite Hg.
  destruct (lb_groups s !! g) as [group|] eqn:Eg; [|done]. unfold mret, M_ret in *.
  rewrite (Hp g group ltac:(left) Eg). destruct (powers s !! sgp group) as [p|]; [|done].
  apply IH; [|exact E]. intros h group' Hh. apply Hp. by right.
Qed.

Lemma powers_only_ready s s' load_idx : powers_only s s' → domain_ready s load_idx → domain_ready s' load_idx.
Proof.
  intros (Hg & Hd & Hr & Hp) [D1 D2 D3 D4].
  assert (Hrq : ∀ i r, rqs s !! i = Some r → ∃ r', rqs s' !! i = Some r' ∧ rq_cpu_load r' = rq_cpu_load r ∧ rt_total r' = rt_total r).
  { intros i r E. destruct (Hr i) as [E'|(r0 & n & E0 & E')]; rewrite E'; [by exists r|]. exists (r0 <| cpu_power := n |>).
    by simplify_eq. }
  split; [|done| |].
  - intros g Hin. destruct (D1 g Hin) as (group & p & Eg & Ep & Hpos & Hcpus). exists group. rewrite Hg.
    destruct (Hp (sgp group)) as [Ek|(_ & p' & Ek & Hpos')]; [exists p; rewrite Ek|exists p']; (split_and!; [done..|]);
      intros i Hi; destruct (Hcpus i Hi) as (r & Er & Hrr); destruct (Hrq i r Er) as (r' & Er' & El & _);
      exists r'; (split; [done|]); unfold rq_ready; by rewrite El.
  - destruct D3 as (r & Er & Ht). destruct (Hrq this_cpu r Er) as (r' & Er' & _ & Et). exists r'. by rewrite Et.
  - intros c Hc. destruct (D4 c Hc) as (child & Ec & (n & En & Hn) & Hsep). exists child. rewrite Hd, Hg.
    split_and!; [done| |done]. exists n. split; [|done]. eapply sum_power_agree; [done| |exact En].
    intros g group Hgin Egr. destruct (Hp (sgp group)) as [Ek|((g0 & group0 & Hh & E0 & Eq) & _)]; [done|].
    exfalso. by apply (Hsep g group Hgin Egr g0 group0 Hh E0).
Qed.

Lemma store_power_run s group p f :
  powers s !! sgp group = Some p → store_power group f s = Ok tt (s <| powers ::= <[sgp group := f p]> |>).
Proof. intros E. unfold store_power, load_power. mstep. by rewrite E. Qed.

Lemma scale_rt_run s r :
  rqs s !! this_cpu = Some r → 0 < u32 (Z.shiftr (rt_total r) SCHED_POWER_SHIFT) →
  ∃ n, scale_rt_power this_cpu s = Ok n s.
Proof.
  intros Er Ht. unfold scale_rt_power, mbind, M_bind. rewrite (rq_of_cpu_run s this_cpu r Er). cbv zeta.
  fold (rt_total r). rewrite udiv_run by lia. by eexists.
Qed.

Lemma power_floor n : 0 < (if Z.shiftr (u32 n) SCHED_POWER_SHIFT =? 0 then 1 else Z.shiftr (u32 n) SCHED_POWER_SHIFT).
Proof.
  destruct (Z.eqb_spec (Z.shiftr (u32 n) SCHED_POWER_SHIFT) 0); [lia|].
  assert (0 ≤ Z.shiftr (u32 n) SCHED_POWER_SHIFT); [|lia]. apply Z.shiftr_nonneg, (uwrap_range 32 ltac:(lia)).
Qed.

Lemma update_cpu_power_run s g0 group0 p0 r :
  head (sd_groups sd) = Some g0 → lb_groups s !! g0 = Some group0 → powers s !! sgp group0 = Some p0 →
  rqs s !! this_cpu = Some r → 0 < u32 (Z.shiftr (rt_total r) SCHED_POWER_SHIFT) →
  ∃ p n, update_cpu_power sd this_cpu s =
    Ok tt (s <| rqs ::= <[this_cpu := r <| cpu_power := n |>]> |> <| powers ::= <[sgp group0 := p]> |>) ∧ 0 < sg_power p.
Proof.
  intros Hh Eg Ep Er Ht. unfold update_cpu_power, mbind, M_bind. rewrite Hh. unfold deref at 1. unfold mret at 1, M_ret at 1.
  rewrite (load_sg_run s g0 group0 Eg).
  match goal with |- context [match ?m s with Ok _ _ => _ | Err _ _ => _ end] =>
    assert (Hpw : ∃ power, m s = Ok power s) end.
  { destruct (has_flag _ _ && (1 <? span_weight sd)) eqn:E; [|by eexists]. bsimp. destruct ARCH_POWER; [by eexists|].
    unfold default_scale_smt_power. rewrite udiv_run by lia. by eexists. }
  destruct Hpw as [power ->]. rewrite (store_power_run s group0 p0 _ Ep).
  set (s1 := s <| powers ::= _ |>).
  destruct (scale_rt_run s1 r Er Ht) as [rt ->]. rewrite (rq_of_cpu_run s1 this_cpu r Er). unfold modify.
  set (f := if ARCH_POWER then _ else _).
  pose proof (power_floor (Z.shiftr (u32 (power * f)) SCHED_POWER_SHIFT * rt)) as Hpos. set (n := if _ =? 0 then 1 else _) in *.
  set (s2 := s1 <| rqs ::= _ |>).
  rewrite (store_power_run s2 group0 (p0 <| power_orig := power |>)) by (subst s2 s1; simpl; apply lookup_insert_eq).
  exists (p0 <| power_orig := power |> <| sg_power := n |>), n. split; [|exact Hpos].
  subst s2 s1. destruct s. unfold modify_field. simpl. by rewrite insert_insert_eq.
Qed.

Lemma powers_only_store s k p n r g0 group0 :
  head (sd_groups sd) = Some g0 → lb_groups s !! g0 = Some group0 → k = sgp group0 → 0 < sg_power p →
  rqs s !! this_cpu = Some r →
  powers_only s (s <| rqs ::= <[this_cpu := r <| cpu_power := n |>]> |> <| powers ::= <[k := p]> |>).
Proof.
  intros Hh Eg -> Hpos Er. split_and!; [done|done| |].
  - intros i. simpl. destruct (decide (i = this_cpu)) as [-> | Hne]; [right|left; by rewrite lookup_insert_ne].
    exists r, n. by rewrite lookup_insert_eq.
  - intros j. simpl. destruct (decide (j = sgp group0)) as [-> | Hne]; [right|left; by rewrite lookup_insert_ne].
    split; [by exists g0, group0|]. exists p. by rewrite lookup_insert_eq.
Qed.

Lemma update_group_power_ok s load_idx :
  domain_ready s load_idx → ∃ s', update_group_power sd this_cpu s = Ok tt s' ∧ powers_only s s'.
Proof.
  intros [D1 D2 D3 D4]. destruct (sd_groups sd) as [|g0 gs] eqn:Egs; [done|].
  assert (Hh : head (sd_groups sd) = Some g0) by (by rewrite Egs).
  destruct (D1 g0 ltac:(left)) as (group0 & p0 & Eg & Ep & Hpos & _). destruct D3 as (r & Er & Ht).
  unfold update_group_power, mbind, M_bind. rewrite Hh. unfold deref at 1. unfold mret at 1, M_ret at 1.
  rewrite (load_sg_run s g0 group0 Eg), (store_power_run s group0 p0 _ Ep).
  set (p1 := p0 <| next_update := _ |>). set (s1 := s <| powers ::= _ |>).
  assert (Hp1 : powers s1 !! sgp group0 = Some p1) by (subst s1; simpl; apply lookup_insert_eq).
  destruct (sd_child sd) as [c|] eqn:Ec.
  - destruct (D4 c Ec) as (child & Ech & (n & En & Hn) & Hsep). unfold get, deref. change (domains s1) with (domains s). rewrite Ech.
    unfold mret, M_ret. rewrite (sum_power_agree s s1 (sd_groups child) n); [|done| |exact En].
    2: { intros g group Hg Egr. subst s1. simpl. apply lookup_insert_ne. intros Eq.
         by apply (Hsep g group Hg Egr g0 group0 Hh Eg). }
    rewrite (store_power_run s1 group0 p1 _ Hp1). eexists. split; [reflexivity|].
    split_and!; [done|done|by left|]. intros j. subst s1. simpl. rewrite insert_insert_eq.
    destruct (decide (j = sgp group0)) as [-> | Hne]; [right|left; by rewrite lookup_insert_ne].
    split; [by exists g0, group0|]. eexists. split; [apply lookup_insert_eq|]. exact Hn.
  - destruct (update_cpu_power_run s1 g0 group0 p1 r Hh Eg Hp1 Er Ht) as (p & n & -> & Hp).
    eexists. split; [reflexivity|].
    replace (s1 <| rqs ::= <[this_cpu := r <| cpu_power := n |>]> |> <| powers ::= <[sgp group0 := p]> |>)
      with (s <| rqs ::= <[this_cpu := r <| cpu_power := n |>]> |> <| powers ::= <[sgp group0 := p]> |>).
    { by eapply powers_only_store. }
    subst s1. destruct s. unfold modify_field. simpl. by rewrite insert_insert_eq.
Qed.

(** ** The survey of a domain *)

(** The processors of a group under consideration, and what they add up to. *)
Definition considered (group : sched_group) : list Z := filter (λ i, i ∈ cpus) (sched_group_cpus group).
Definition total s (get_ : cpu_rq → Z) (is_ : list Z) : Z := foldr (λ i a, get_ (rq_at s i) + a) 0 is_.

(** The load of a processor, biased against moving tasks: the larger of the load now and
    the load of the past for the local group, the smaller one for another. *)
Definition biased (local : bool) (load_idx : Z) (r : cpu_rq) : Z :=
  if (load_idx =? 0) || negb LB_BIAS then rq_weight r
  else
    let past := default 0 (rq_cpu_load r !! (load_idx - 1)) in
    if local then Z.max past (rq_weight r) else Z.min past (rq_weight r).

Definition idle_one (r : cpu_rq) : Z := if cpu_is_idle r then 1 else 0.

(** The tasks a group of power [p] has room for. *)
Definition room (p : sched_group_power) : Z :=
  let c := DIV_ROUND_CLOSEST (sg_power p) SCHED_POWER_SCALE in if c =? 0 then fix_small_capacity sd p else c.

(** The statistics [sgs] are those of the group: tasks, weights, idle processors and
    loads in [s], relative to the power in [s1]. *)
Record measured s s1 (load_idx : Z) (group : sched_group) (local : bool) (sgs : sg_lb_stats) : Prop := {
  me_tasks : sum_nr_running sgs = u32 (total s rq_nr_running (considered group));
  me_weight : sum_weighted_load sgs = u32 (total s rq_weight (considered group));
  me_idle : idle_cpus sgs = u32 (total s idle_one (considered group));
  me_load : group_load sgs = u32 (total s (biased local load_idx) (considered group));
  me_power : ∃ p, powers s1 !! sgp group = Some p ∧ group_capacity sgs = room p ∧
    avg_load sgs = u32 (group_load sgs * SCHED_POWER_SCALE) / sg_power p;
  me_room : group_has_capacity sgs = (sum_nr_running sgs <? group_capacity sgs);
  me_span : sgs_group_weight sgs = group_weight group
}.

Lemma biased_run s i r (local : bool) load_idx :
  rqs s !! i = Some r → rq_ready load_idx r →
  (if local then target_load i load_idx else source_load i load_idx) s = Ok (biased local load_idx r) s.
Proof.
  intros Er Hr. unfold target_load, source_load, biased, mbind, M_bind. unfold rq_ready in Hr.
  destruct local; rewrite (rq_of_cpu_run s i r Er), (weighted_run s i r Er);
    destruct ((load_idx =? 0) || negb LB_BIAS); try done; by destruct (Hr eq_refl) as [l ->].
Qed.

Lemma load_run s i r (local : bool) load_idx :
  rqs s !! i = Some r → rq_ready load_idx r →
  ∃ l, (if local then target_load i load_idx else source_load i load_idx) s = Ok l s.
Proof. intros Er Hr. rewrite (biased_run s i r local load_idx Er Hr). by eexists. Qed.

(** [b] is [a] with [d] added, modulo the width. *)
Definition plus (a d b : Z) : Prop := u32 a = a → b = u32 (a + d).

Lemma plus_step a d b e : plus (u32 (a + d)) e b → plus a (d + e) b.
Proof. intros Hp _. rewrite Hp by apply uwrap_idemp. rewrite uwrap_add_l. f_equal. lia. Qed.

Lemma plus_zero a : plus a 0 a.
Proof. intros Ha. by rewrite Z.add_0_r. Qed.

Lemma tally_cpus_run s (local : bool) load_idx : ∀ is_ t,
  (∀ i, i ∈ is_ → ∃ r, rqs s !! i = Some r ∧ rq_ready load_idx r) →
  ∃ t', tally_cpus is_ local load_idx t s = Ok t' s ∧
    plus (sum_nr_running (t_sgs t)) (total s rq_nr_running is_) (sum_nr_running (t_sgs t')) ∧
    plus (sum_weighted_load (t_sgs t)) (total s rq_weight is_) (sum_weighted_load (t_sgs t')) ∧
    plus (idle_cpus (t_sgs t)) (total s idle_one is_) (idle_cpus (t_sgs t')) ∧
    plus (group_load (t_sgs t)) (total s (biased local load_idx) is_) (group_load (t_sgs t')).
Proof.
  induction is_ as [|i is_ IH]; intros t Hk; [exists t; split_and!; [done|apply plus_zero..]|].
  destruct (Hk i ltac:(left)) as (r & Er & Hr). assert (Ha : rq_at s i = r) by (unfold rq_at; by rewrite Er).
  cbn [tally_cpus]. unfold tally_cpu, mbind, M_bind.
  rewrite (rq_of_cpu_run s i r Er), (biased_run s i r local load_idx Er Hr), (weighted_run s i r Er). unfold mret at 1, M_ret at 1.
  match goal with |- context [tally_cpus is_ local load_idx ?t1] => destruct (IH t1) as (t' & E & H1 & H2 & H3 & H4) end.
  { intros j Hj. apply Hk. by right. }
  exists t'. cbn [total foldr]. rewrite Ha. split_and!; [exact E|by apply plus_step..| |by apply plus_step].
  cbn [t_sgs] in H3. simpl in H3. unfold idle_one at 1. destruct (cpu_is_idle r); [by apply plus_step|].
  intros Hw. rewrite (H3 Hw). f_equal.
Qed.

Lemma finish_stats_run s group p t :
  0 < sg_power p → ∃ sgs, finish_stats sd group p t s = Ok sgs s ∧
    sum_nr_running sgs = sum_nr_running (t_sgs t) ∧ sum_weighted_load sgs = sum_weighted_load (t_sgs t) ∧
    idle_cpus sgs = idle_cpus (t_sgs t) ∧ group_load sgs = group_load (t_sgs t) ∧ group_capacity sgs = room p ∧
    avg_load sgs = u32 (group_load sgs * SCHED_POWER_SCALE) / sg_power p ∧
    group_has_capacity sgs = (sum_nr_running sgs <? group_capacity sgs) ∧ sgs_group_weight sgs = group_weight group.
Proof. intros Hp. unfold finish_stats, mbind, M_bind. rewrite udiv_run by lia. eexists. split; [reflexivity|]. by split_and!. Qed.

Lemma update_sg_lb_stats_ok s load_idx g group local :
  domain_ready s load_idx → g ∈ sd_groups sd → lb_groups s !! g = Some group →
  ∃ r s', update_sg_lb_stats sd group this_cpu idle load_idx local cpus s = Ok r s' ∧ powers_only s s' ∧
    ∀ sgs, r = Some sgs → measured s s' load_idx group local sgs.
Proof.
  intros D Hg Eg. destruct (dr_groups _ _ D g Hg) as (group' & p & Eg' & Ep & Hpos & Hcpus).
  assert (group' = group) as -> by congruence. unfold update_sg_lb_stats, mbind, M_bind. fold (considered group).
  match goal with |- context [tally_cpus ?l ?b ?i ?t] => destruct (tally_cpus_run s b i l t) as (t' & -> & T1 & T2 & T3 & T4) end.
  { intros i Hi. apply Hcpus. unfold considered in Hi. by apply list_elem_of_filter in Hi as [_ Hi]. }
  destruct (local && _ && _); [exists None, s; split_and!; [done|apply powers_only_refl|done]|].
  match goal with |- context [match ?m s with Ok _ _ => _ | Err _ _ => _ end] =>
    assert (Hu : ∃ s1, m s = Ok tt s1 ∧ powers_only s s1) end.
  { assert (Hs : ∃ s1, Ok tt s = Ok tt s1 ∧ powers_only s s1) by (exists s; split; [done|apply powers_only_refl]).
    destruct local; [|exact Hs]. destruct (negb _); [by apply (update_group_power_ok s load_idx)|].
    rewrite (load_power_run s group p Ep). destruct (time_after_eq _ _); [by apply (update_group_power_ok s load_idx)|exact Hs]. }
  destruct Hu as (s1 & -> & Ho). pose proof (powers_only_ready _ _ _ Ho D) as D1.
  destruct (dr_groups _ _ D1 g Hg) as (group' & p1 & Eg1 & Ep1 & Hpos1 & _). pose proof Ho as (Hgs & _). rewrite Hgs in Eg1.
  assert (group' = group) as -> by congruence. rewrite (load_power_run s1 group p1 Ep1).
  destruct (finish_stats_run s1 group p1 t' Hpos1) as (sgs & -> & F1 & F2 & F3 & F4 & F5 & F6 & F7 & F8).
  exists (Some sgs), s1. split_and!; [done|done|]. intros sgs' [= <-].
  split; [rewrite F1; by apply T1|rewrite F2; by apply T2|rewrite F3; by apply T3|rewrite F4; by apply T4|by exists p1|done|done].
Qed.

(** The statistics of the groups one after the other: each group, whether this processor is
    of it, and its statistics. *)
Abbreviation surveyed := (Z * bool * sg_lb_stats)%type.

Inductive survey (load_idx : Z) : list Z → lb_state → list surveyed → lb_state → Prop :=
  | survey_nil s : survey load_idx [] s [] s
  | survey_cons g gs group s sgs s1 es s2 :
      lb_groups s !! g = Some group →
      update_sg_lb_stats sd group this_cpu idle load_idx (bool_decide (this_cpu ∈ sched_group_cpus group)) cpus s
        = Ok (Some sgs) s1 →
      powers_only s s1 →
      measured s s1 load_idx group (bool_decide (this_cpu ∈ sched_group_cpus group)) sgs →
      survey load_idx gs s1 es s2 →
      survey load_idx (g :: gs) s ((g, bool_decide (this_cpu ∈ sched_group_cpus group), sgs) :: es) s2.

(** A group has more tasks than it has capacity for, or processors of very different loads. *)
Definition overloaded (sgs : sg_lb_stats) : bool := (group_capacity sgs <? sum_nr_running sgs) || sgs_group_imb sgs.

(** The domain packs the tasks on its first processors. *)
Abbreviation packs := (has_flag (sd_flags sd) SD_ASYM_PACKING = true).

(** There is something to take from a group: it has more tasks than the capacity [c], which
    is lowered to one where siblings are preferred, or unequal processors, or it has tasks
    and the domain packs them. *)
Definition pullable (prefer : bool) (sgs : sg_lb_stats) (c : Z) : Prop :=
  (c = group_capacity sgs ∨ prefer = true ∧ c = Z.min (group_capacity sgs) 1) ∧
  (c < sum_nr_running sgs ∨ sgs_group_imb sgs = true ∨ packs ∧ sum_nr_running sgs ≠ 0).

(** The statistics of the domain after the groups [es]. *)
Record summary (prefer : bool) (es : list surveyed) (sds : sd_lb_stats) : Prop := {
  sm_total : total_load sds = foldl (λ a e, u32 (a + group_load e.2)) 0 es;
  sm_max g sgs : (g, false, sgs) ∈ es → overloaded sgs = true → avg_load sgs ≤ max_load sds;
  sm_busiest : match busiest sds with
    | None => max_load sds = 0
    | Some b => ∃ sgs, (b, false, sgs) ∈ es ∧ max_load sds = avg_load sgs ∧ 0 < max_load sds ∧
        busiest_nr_running sds = sum_nr_running sgs ∧ busiest_load_per_task sds = sum_weighted_load sgs ∧
        group_imb sds = sgs_group_imb sgs ∧ busiest_idle_cpus sds = idle_cpus sgs ∧
        busiest_has_capacity sds = group_has_capacity sgs ∧ busiest_group_weight sds = sgs_group_weight sgs ∧
        pullable prefer sgs (busiest_group_capacity sds)
    end;
  sm_this : match this sds with
    | None => ∀ e, e ∈ es → e.1.2 = false
    | Some g => ∃ sgs, (g, true, sgs) ∈ es ∧ this_load sds = avg_load sgs ∧
        this_nr_running sds = sum_nr_running sgs ∧ this_load_per_task sds = sum_weighted_load sgs ∧
        this_has_capacity sds = group_has_capacity sgs ∧ this_idle_cpus sds = idle_cpus sgs
    end;
  sm_saving : power_savings_balance sds = false
}.

Lemma first_cpu_run s g group : lb_groups s !! g = Some group → first_cpu_of (Some g) s = Ok (group_first_cpu group) s.
Proof. intros E. unfold first_cpu_of, mbind, M_bind, deref, mret, M_ret. by rewrite (load_sg_run s g group E). Qed.

Lemma pick_busiest_run s sds g sgs :
  is_Some (lb_groups s !! g) → (∀ b, busiest sds = Some b → is_Some (lb_groups s !! b)) →
  ∃ pick, update_sd_pick_busiest sd sds g sgs this_cpu s = Ok pick s ∧
    (pick = true → max_load sds < avg_load sgs ∧
       (group_capacity sgs < sum_nr_running sgs ∨ sgs_group_imb sgs = true ∨ packs ∧ sum_nr_running sgs ≠ 0)) ∧
    (overloaded sgs = true → max_load sds < avg_load sgs → pick = true).
Proof.
  intros [group Eg] Hb. unfold update_sd_pick_busiest, overloaded.
  destruct (Z.leb_spec (avg_load sgs) (max_load sds)); [exists false; split_and!; [done|done|lia]|].
  destruct (Z.ltb_spec (group_capacity sgs) (sum_nr_running sgs)); [exists true; split_and!; auto|].
  destruct (sgs_group_imb sgs); [exists true; split_and!; auto|].
  destruct (has_flag _ _ && _) eqn:Ef; [|exists false; by split_and!]. apply andb_true_iff in Ef as [Ef Hn%negb_true_iff%Z.eqb_neq].
  unfold mbind, M_bind. rewrite (first_cpu_run s g group Eg).
  destruct (_ <? _); [|exists false; by split_and!]. destruct (busiest sds) as [b|]; [|exists true; split_and!; auto].
  destruct (Hb b eq_refl) as [group' Eb]. rewrite (first_cpu_run s b group' Eb). eexists. split_and!; [reflexivity|auto|done].
Qed.

Lemma summary_max_nonneg prefer es sds : summary prefer es sds → 0 ≤ max_load sds.
Proof. intros [_ _ Hb _ _]. destruct (busiest sds); [destruct Hb as (? & _ & _ & ? & _); lia|lia]. Qed.

(** The statistics of the domain with another group. *)
Definition counted (sds : sd_lb_stats) (sgs : sg_lb_stats) (power : Z) : sd_lb_stats :=
  sds <| total_load := u32 (total_load sds + group_load sgs) |> <| total_pwr := u32 (total_pwr sds + power) |>.

Lemma foldl_snoc {A B} (f0 : A → B → A) a es e : foldl f0 a (es ++ [e]) = f0 (foldl f0 a es) e.
Proof. by rewrite foldl_app. Qed.

Lemma summary_local prefer es sds g sgs power :
  summary prefer es sds → summary prefer (es ++ [(g, true, sgs)]) (take_local (counted sds sgs power) g sgs).
Proof.
  intros [H1 H2 H3 H4 H5]. split; simpl.
  - by rewrite foldl_snoc, H1.
  - intros g' sgs' [Hin|?]%in_snoc; [by eapply H2|done].
  - destruct (busiest sds); [|done]. destruct H3 as (sgs' & Hin & ?). exists sgs'. by rewrite in_snoc; split; [left|].
  - exists sgs. by rewrite in_snoc; split; [right|].
  - done.
Qed.

Lemma summary_skip prefer es sds g sgs power :
  summary prefer es sds → (overloaded sgs = true → avg_load sgs ≤ max_load sds) →
  summary prefer (es ++ [(g, false, sgs)]) (counted sds sgs power).
Proof.
  intros [H1 H2 H3 H4 H5] Hs. split; simpl.
  - by rewrite foldl_snoc, H1.
  - intros g' sgs' [Hin|E]%in_snoc; [by eapply H2|]. by simplify_eq.
  - destruct (busiest sds); [|done]. destruct H3 as (sgs' & Hin & ?). exists sgs'. by rewrite in_snoc; split; [left|].
  - destruct (this sds); [destruct H4 as (sgs' & Hin & ?); exists sgs'; by rewrite in_snoc; split; [left|]|].
    intros e [Hin| ->]%in_snoc; [by apply H4|done].
  - done.
Qed.

Lemma summary_busiest prefer es sds g sgs sgs' power :
  summary prefer es sds → max_load sds < avg_load sgs → (∃ c, sgs' = sgs <| group_capacity := c |>) →
  pullable prefer sgs (group_capacity sgs') →
  summary prefer (es ++ [(g, false, sgs)]) (take_busiest (counted sds sgs power) g sgs').
Proof.
  intros Hsm Hlt [c ->] Hpull. pose proof (summary_max_nonneg _ _ _ Hsm) as H0. destruct Hsm as [H1 H2 H3 H4 H5]. split; simpl.
  - by rewrite foldl_snoc, H1.
  - intros g' sgs' [Hin|E]%in_snoc Ho; [specialize (H2 _ _ Hin Ho); lia|]. by simplify_eq.
  - exists sgs. rewrite in_snoc. split_and!; auto. lia.
  - destruct (this sds); [destruct H4 as (sgs' & Hin & ?); exists sgs'; by rewrite in_snoc; split; [left|]|].
    intros e [Hin| ->]%in_snoc; [by apply H4|done].
  - done.
Qed.

Lemma power_savings_off s g sds local sgs :
  power_savings_balance sds = false → update_sd_power_savings_stats g sds local sgs s = Ok sds s.
Proof. intros E. unfold update_sd_power_savings_stats. rewrite E. by rewrite orb_true_r. Qed.

Lemma account_group_run s load_idx prefer es sds g local sgs :
  domain_ready s load_idx → g ∈ sd_groups sd → (∀ e, e ∈ es → e.1.1 ∈ sd_groups sd) → summary prefer es sds →
  ∃ sds', account_group sd this_cpu prefer g local sgs sds s = Ok sds' s ∧ summary prefer (es ++ [(g, local, sgs)]) sds'.
Proof.
  intros D Hg Hes Hsm. destruct (dr_groups _ _ D g Hg) as (group & p & Eg & Ep & _).
  unfold account_group, mbind, M_bind. rewrite (load_sg_run s g group Eg), (load_power_run s group p Ep).
  fold (counted sds sgs (sg_power p)). set (sgs' := if prefer && negb local && _ then _ else sgs).
  destruct local.
  { unfold sgs'. rewrite andb_false_r. cbn [negb andb]. unfold mret, M_ret.
    pose proof (summary_local prefer es sds g sgs (sg_power p) Hsm) as Hs. rewrite power_savings_off by apply (sm_saving _ _ _ Hs). by eexists. }
  assert (Hc : ∃ c, sgs' = sgs <| group_capacity := c |> ∧ c ≤ group_capacity sgs ∧
    (c = group_capacity sgs ∨ prefer = true ∧ c = Z.min (group_capacity sgs) 1)).
  { unfold sgs'. destruct (prefer && _ && _) eqn:Epr.
    - eexists. split_and!; [reflexivity|lia|]. right. apply andb_true_iff in Epr as [[Epr _]%andb_true_iff _]. done.
    - exists (group_capacity sgs). destruct sgs. split_and!; [done|done|by left]. }
  destruct Hc as (c & Ec & Hc & Hcap). clearbody sgs'.
  destruct (pick_busiest_run s (counted sds sgs (sg_power p)) g sgs') as (pick & -> & Hp1 & Hp2); [by exists group| |].
  { intros b Hb. change (busiest sds = Some b) in Hb. pose proof (sm_busiest _ _ _ Hsm) as H3. rewrite Hb in H3.
    destruct H3 as (sgs0 & Hin & _). destruct (dr_groups _ _ D b (Hes _ Hin)) as (group' & _ & -> & _). by eexists. }
  change (max_load (counted sds sgs (sg_power p))) with (max_load sds) in *.
  assert (Ea : avg_load sgs' = avg_load sgs) by (by subst sgs'). rewrite Ea in *.
  assert (Ho : overloaded sgs = true → overloaded sgs' = true).
  { unfold overloaded. subst sgs'. simpl. rewrite !orb_true_iff, !Z.ltb_lt. intros [?|?]; [left; lia|by right]. }
  unfold mret, M_ret. destruct pick.
  - assert (Hs : summary prefer (es ++ [(g, false, sgs)]) (take_busiest (counted sds sgs (sg_power p)) g sgs'))
      by (destruct (Hp1 eq_refl) as [Hlt Hwhy]; apply summary_busiest; [done..|by exists c|]; subst sgs'; by split).
    rewrite power_savings_off by apply (sm_saving _ _ _ Hs). by eexists.
  - assert (Hs : summary prefer (es ++ [(g, false, sgs)]) (counted sds sgs (sg_power p))).
    { apply summary_skip; [done|]. intros Hov. destruct (Z.le_gt_cases (avg_load sgs) (max_load sds)) as [|Hgt]; [done|].
      discriminate (Hp2 (Ho Hov) Hgt). }
    rewrite power_savings_off by apply (sm_saving _ _ _ Hs). by eexists.
Qed.

(** The groups before the one at which the survey stops, and all of them if it does not. *)
Lemma sd_loop_run load_idx prefer : ∀ gs s es sds,
  domain_ready s load_idx → (∀ g, g ∈ gs → g ∈ sd_groups sd) → (∀ e, e ∈ es → e.1.1 ∈ sd_groups sd) → summary prefer es sds →
  ∃ sds' balance s', sd_loop gs sd this_cpu idle cpus load_idx prefer sds s = Ok (sds', balance) s' ∧ powers_only s s' ∧
    (balance = true → ∃ es', survey load_idx gs s es' s' ∧ summary prefer (es ++ es') sds').
Proof.
  induction gs as [|g gs IH]; intros s es sds D Hgs Hes Hsm.
  { exists sds, true, s. split_and!; [done|apply powers_only_refl|]. intros _. exists []. rewrite app_nil_r. split; [constructor|done]. }
  assert (Hg : g ∈ sd_groups sd) by (apply Hgs; left).
  destruct (dr_groups _ _ D g Hg) as (group & p & Eg & _). cbn [sd_loop]. unfold mbind, M_bind. rewrite (load_sg_run s g group Eg).
  set (local := bool_decide _). destruct (update_sg_lb_stats_ok s load_idx g group local D Hg Eg) as ([sgs|] & s1 & E & Ho & Hme); rewrite E.
  2: { exists sds, false, s1. by split_and!. }
  pose proof (powers_only_ready _ _ _ Ho D) as D1.
  destruct (account_group_run s1 load_idx prefer es sds g local sgs D1 Hg Hes Hsm) as (sds1 & -> & Hsm1).
  destruct (IH s1 (es ++ [(g, local, sgs)]) sds1 D1) as (sds' & balance & s2 & E2 & Ho2 & Hb); [..|].
  { intros h Hh. apply Hgs. by right. }
  { intros e [He| ->]%in_snoc; [by apply Hes|done]. }
  { done. }
  exists sds', balance, s2. split_and!; [exact E2| |].
  - by eapply powers_only_trans.
  - intros Hbal. destruct (Hb Hbal) as (es' & Hv & Hs'). exists ((g, local, sgs) :: es').
    split; [econstructor; [done..|by apply Hme|done]|]. by rewrite <- app_assoc in Hs'.
Qed.

Lemma survey_members load_idx gs s es s' : survey load_idx gs s es s' → es.*1.*1 = gs.
Proof. induction 1; [done|]. simpl. by f_equal. Qed.

Lemma survey_from load_idx gs s es s' e : survey load_idx gs s es s' → e ∈ es → e.1.1 ∈ gs.
Proof. intros Hv He. rewrite <- (survey_members _ _ _ _ _ Hv). by do 2 apply list_elem_of_fmap_2. Qed.

Lemma survey_local load_idx gs s es s' :
  survey load_idx gs s es s' → domain_ready s load_idx → (∀ g, g ∈ gs → g ∈ sd_groups sd) →
  ∀ g group, g ∈ gs → lb_groups s !! g = Some group → this_cpu ∈ sched_group_cpus group → ∃ sgs, (g, true, sgs) ∈ es.
Proof.
  induction 1 as [|g gs group s sgs s1 es s2 Eg E Ho Hme Hv IH]; intros D Hgs h group' Hh Eh Hc; [by apply not_elem_of_nil in Hh|].
  apply elem_of_cons in Hh as [-> |Hh].
  - exists sgs. assert (group' = group) as -> by congruence. rewrite bool_decide_true by done. left.
  - destruct (IH (powers_only_ready _ _ _ Ho D) ltac:(intros; apply Hgs; by right) h group' Hh) as [sgs' Hin]; [|done|].
    { destruct Ho as [-> _]. done. }
    exists sgs'. by right.
Qed.

Lemma asym_run s prefer es sds load_idx :
  domain_ready s load_idx → summary prefer es sds → (∀ e, e ∈ es → e.1.1 ∈ sd_groups sd) →
  ∃ o, check_asym_packing sd sds this_cpu s = Ok o s ∧ (is_Some o → packs ∧ busiest sds ≠ None).
Proof.
  intros D Hsm Hes. unfold check_asym_packing. destruct (has_flag _ _); cbn [negb]; [|exists None; split; [done|by intros [??]]].
  pose proof (sm_busiest _ _ _ Hsm) as Hb.
  destruct (busiest sds) as [b|]; [|exists None; split; [done|by intros [??]]]. destruct Hb as (sgs & Hin & _).
  destruct (dr_groups _ _ D b (Hes _ Hin)) as (group & p & Eb & Ep & _). unfold mbind, M_bind.
  rewrite (first_cpu_run s b group Eb). destruct (_ <? _); [exists None; split; [done|by intros [??]]|].
  rewrite (load_sg_run s b group Eb), (load_power_run s group p Ep). by eexists.
Qed.

Lemma summary_init prefer :
  power_savings_balance (init_sd_power_savings_stats sd sds_zero idle) = false →
  summary prefer [] (init_sd_power_savings_stats sd sds_zero idle).
Proof.
  unfold init_sd_power_savings_stats. destruct (negb CONFIG_SCHED_MC); [|destruct (_ || _)]; intros E; try done;
    (split; simpl; [done|intros ? ? Hin|done|intros ? Hin|done]); by apply not_elem_of_nil in Hin.
Qed.

(** The child domain asks for tasks to be spread over siblings. *)
Definition prefers_sibling s : bool :=
  match sd_child sd ≫= (λ c, domains s !! c) with
  | Some child => has_flag (sd_flags child) SD_PREFER_SIBLING
  | None => false
  end.

(** The survey of the whole domain. *)
Lemma update_sd_lb_stats_run s :
  domain_ready s (get_sd_load_idx sd idle) →
  power_savings_balance (init_sd_power_savings_stats sd sds_zero idle) = false →
  ∃ sds balance s', update_sd_lb_stats sd this_cpu idle cpus sds_zero s = Ok (sds, balance) s' ∧ powers_only s s' ∧
    (balance = true → ∃ es, survey (get_sd_load_idx sd idle) (sd_groups sd) s es s' ∧ summary (prefers_sibling s) es sds).
Proof.
  intros D Hps. unfold update_sd_lb_stats, mbind, M_bind.
  match goal with |- context [match ?m s with Ok _ _ => _ | Err _ _ => _ end] => assert (Hp : m s = Ok (prefers_sibling s) s) end.
  { unfold prefers_sibling. destruct (sd_child sd) as [c|] eqn:Ec; [|done]. destruct (dr_child _ _ D c Ec) as (child & Ech & _).
    simpl. unfold get, deref. by rewrite Ech. }
  rewrite Hp.
  destruct (sd_loop_run (get_sd_load_idx sd idle) (prefers_sibling s) (sd_groups sd) s [] (init_sd_power_savings_stats sd sds_zero idle) D) as (sds & balance & s' & E & Ho & Hb);
    [done|intros e He; by apply not_elem_of_nil in He|by apply summary_init|].
  by exists sds, balance, s'.
Qed.

Lemma power_at_ready s load_idx g :
  domain_ready s load_idx → g ∈ sd_groups sd → ∃ p, power_at (Some g) s = Ok p s ∧ 0 < p.
Proof. intros D Hg. destruct (dr_groups _ _ D g Hg) as (group & p & Eg & Ep & Hp & _). exists (sg_power p). by rewrite (power_at_run s g group p Eg Ep). Qed.

Lemma summary_powers s load_idx prefer es sds :
  domain_ready s load_idx → summary prefer es sds → (∀ e, e ∈ es → e.1.1 ∈ sd_groups sd) →
  busiest sds ≠ None → this sds ≠ None → ∃ bp tp, stats_ready s sds this_cpu bp tp.
Proof.
  intros D [_ _ Hb Ht _] Hes. destruct (busiest sds) as [b|] eqn:Eb; [|done]. destruct (this sds) as [g|] eqn:Eg; [|done]. intros _ _.
  destruct Hb as (sgs & Hin & _). destruct Ht as (sgs' & Hin' & _).
  destruct (power_at_ready s load_idx b D (Hes _ Hin)) as (bp & Hbp & H1).
  destruct (power_at_ready s load_idx g D (Hes _ Hin')) as (tp & Htp & H2).
  exists bp, tp. split; [by rewrite Eb|by rewrite Eg| |done]. destruct (dr_cpu _ _ D) as (r & -> & _). by eexists.
Qed.

(** The load of the whole domain relative to its power. *)
Definition average (es : list surveyed) (power : Z) : Z :=
  u32 (SCHED_POWER_SCALE * foldl (λ a e, u32 (a + group_load e.2)) 0 es) / power.

(** There is nothing to even out between the local group [here] and the group [there]:
    the processors of [there] are equal, it is not that this processor just went idle with
    room in its group and none in [there], and the local group is at least as loaded as
    [there] or as the average, or, if this processor is idle, [there] has a processor for
    each of its tasks and not fewer idle processors than [here] less one, or, if it is not
    idle or just went idle, [there] is within the tolerance of the domain. *)
Definition settled (here there : sg_lb_stats) (avg : Z) : Prop :=
  sgs_group_imb there = false ∧
  ¬ (idle = CPU_NEWLY_IDLE ∧ group_has_capacity here = true ∧ group_has_capacity there = false) ∧
  (avg_load there ≤ avg_load here ∨ avg ≤ avg_load here ∨
   (idle = CPU_IDLE ∧ idle_cpus here ≤ u32 (idle_cpus there + 1) ∧ sum_nr_running there ≤ sgs_group_weight there) ∨
   (idle ≠ CPU_IDLE ∧ u32 (100 * avg_load there) ≤ u32 (imbalance_pct sd * avg_load here))).

(** A group without this processor from which tasks can be taken, and none of those that
    are overloaded has more load. *)
Definition busiest_of (prefer : bool) (es : list surveyed) (b : Z) (there : sg_lb_stats) : Prop :=
  (b, false, there) ∈ es ∧ 0 < avg_load there ∧ (∃ c, pullable prefer there c) ∧
  ∀ h sgs, (h, false, sgs) ∈ es → overloaded sgs = true → avg_load sgs ≤ avg_load there.

(** What [find_busiest_group] answers after the survey [es] of groups with the total power
    [power]. *)
Definition answer (prefer : bool) (es : list surveyed) (power : Z) (g : option Z) (imbalance : Z) : Prop :=
  ∃ l here, (l, true, here) ∈ es ∧
    match g with
    | Some b => ∃ there, busiest_of prefer es b there ∧
        ((idle ≠ CPU_NOT_IDLE ∧ packs) ∨ (sum_nr_running there ≠ 0 ∧ ¬ settled here there (average es power)))
    | None => imbalance = 0 ∧
        ((∀ h sgs, (h, false, sgs) ∈ es → overloaded sgs = true → avg_load sgs ≤ 0) ∨
         ∃ b there, busiest_of prefer es b there ∧ (sum_nr_running there = 0 ∨ settled here there (average es power)))
    end.

Lemma summary_busiest_of prefer es sds b :
  summary prefer es sds → busiest sds = Some b →
  ∃ there, busiest_of prefer es b there ∧ max_load sds = avg_load there ∧ busiest_nr_running sds = sum_nr_running there ∧
    group_imb sds = sgs_group_imb there ∧ busiest_idle_cpus sds = idle_cpus there ∧
    busiest_has_capacity sds = group_has_capacity there ∧ busiest_group_weight sds = sgs_group_weight there.
Proof.
  intros [_ Hmax Hb _ _] E. rewrite E in Hb.
  destruct Hb as (sgs & Hin & Em & H0 & Hn & _ & Hi & Hid & Hc & Hw & Hp). rewrite Em in *.
  exists sgs. by split_and!; [split_and!; [..|eexists|]|..].
Qed.

(** The checks find the domain balanced exactly if there is nothing to even out. *)
Lemma looks_balanced_settled sds here there avg :
  max_load sds = avg_load there → busiest_nr_running sds = sum_nr_running there →
  group_imb sds = sgs_group_imb there → busiest_idle_cpus sds = idle_cpus there →
  busiest_has_capacity sds = group_has_capacity there → busiest_group_weight sds = sgs_group_weight there →
  this_load sds = avg_load here → this_has_capacity sds = group_has_capacity here → this_idle_cpus sds = idle_cpus here →
  sds_avg_load sds = avg →
  looks_balanced sd idle sds = true ↔ settled here there avg.
Proof.
  intros E1 E2 E3 E4 E5 E6 E7 E8 E9 E10. unfold looks_balanced, settled. rewrite E1, E2, E3, E4, E5, E6, E7, E8, E9, E10.
  destruct (sgs_group_imb there); [naive_solver|].
  destruct idle, (group_has_capacity here), (group_has_capacity there); simpl; split_ifs; bsimp;
    rewrite ?andb_true_iff, ?Z.leb_le; naive_solver lia.
Qed.

Lemma out_balanced_none prefer es sds : summary prefer es sds → out_balanced sds = (None, 0).
Proof. intros Hsm. unfold out_balanced, check_power_save_busiest_group. rewrite (sm_saving _ _ _ Hsm). by rewrite orb_true_r. Qed.

End BalanceSpec.
