(* ===== verification/Place.v ===== *)
(** * Where a task is put: [hw4/kernel/sched/fair.c], CONFIG_SMP

    The processor for a task that wakes up, is forked or executes a program
    ([select_task_rq_fair]), and whether a wake-up may draw the task to the processor of
    the waker ([wake_affine], with the effect on the load of groups).  Lines 870 to 884,
    2407 to 2461, 2472 to 2553 and 2696 to 2814.  Then, from [core.c], what is done when the
    processor does not do ([select_fallback_rq], [select_task_rq]), lines 1276 to 1359 and
    5002 to 5009. *)

From S2P Require Import Prelude Balance.

(** What placement reads of a task. *)
Record placed_task : Type := mkPlaced {
  pt_allowed : list Z;                     (** [tsk_cpus_allowed] *)
  nr_cpus_allowed : Z;                     (** [rt.nr_cpus_allowed] *)
  pt_weight : Z;                           (** [se.load.weight] *)
  pt_group : Z;                            (** [task_group] *)
  pt_cpu : Z                               (** [task_cpu] *)
}.

#[export] Instance placed_task_eta : Settable placed_task := λ r,
  mkPlaced (pt_allowed r) (nr_cpus_allowed r) (pt_weight r) (pt_group r) (pt_cpu r).

(** The masks of processors, and the processors [cpuset_cpus_allowed_fallback] allows. *)
Class CpuMasks : Type := {
  cpu_online : Z → bool;
  cpu_active : Z → bool;
  cpu_possible_mask : list Z;
  cpumask_of_node : Z → list Z;
  cpu_to_node : Z → Z;
  cpuset_cpus_allowed_fallback : placed_task → list Z
}.

Section Place.
Context `{LbEnv}.
Abbreviation B := (M lb_state).

(** [sched_domain_level_max] is kept where domains are built. *)
Variable sched_domain_level_max : Z.

(** [for_each_domain]. *)
Definition domains_of_cpu (cpu : Z) : B (list Z) := s ← get; deref (cpu_domains s !! cpu).
Definition domain_at (d : Z) : B sched_domain := s ← get; deref (domains s !! d).

(** [for_each_lower_domain]: the domain and the ones below. *)
Fixpoint lower_domains (fuel : nat) (d : option Z) : B (list sched_domain) :=
  match d with
  | None => mret []
  | Some d =>
      match fuel with
      | O => fail OutOfFuel
      | S fuel' => sd ← domain_at d; sds ← lower_domains fuel' (sd_child sd); mret (sd :: sds)
      end
  end.

(** ** The load of groups *)

Definition calc_tg_weight (l : group_level) : Z := s32 (tg_load_weight l - lv_contribution l + my_q_weight l).

(** One level: the change of the weight of the entity when the load of its queue changes by
    [wl] and that of the group by [wg]. *)
Definition level_change (l : group_level) (wl wg : Z) : Z :=
  let W := s32 (wg + calc_tg_weight l) in
  let w := s32 (my_q_weight l + wl) in
  let wl := if (0 <? W) && (w <? W) then s32 (u32 (w * tg_shares l) / W) else s32 (tg_shares l) in
  let wl := if u32 wl <? 2 then 2 else wl in
  s32 (wl - se_weight l).

Fixpoint change_up (ls : list group_level) (wl wg : Z) : Z :=
  match ls with
  | [] => wl
  | l :: ls' => change_up ls' (level_change l wl wg) 0
  end.

(** The root group has no entity and no levels. *)
Definition effective_load (tg cpu wl wg : Z) : B Z :=
  s ← get;
  ls ← deref (levels s !! (tg, cpu));
  mret (change_up ls (s32 wl) (s32 wg)).

(** ** Waking on the processor of the waker *)

(** [current] runs on [this_cpu]. *)
Definition wake_affine (sd : sched_domain) (p current : placed_task) (this_cpu : Z) (sync : bool) : B bool :=
  let idx := s32 (wake_idx sd) in
  let prev_cpu := pt_cpu p in
  load ← source_load prev_cpu idx;
  this_load ← target_load this_cpu idx;
  '(this_load, load) ← (if sync then
      let tg := pt_group current in
      let weight := pt_weight current in
      a ← effective_load tg this_cpu (- weight) (- weight);
      b ← effective_load tg prev_cpu 0 (- weight);
      mret (s64 (this_load + a), s64 (load + b))
    else mret (this_load, load));
  let tg := pt_group p in
  let weight := pt_weight p in
  balanced ← (if 0 <? this_load then
      pp ← power_of prev_cpu;
      a ← effective_load tg this_cpu weight weight;
      let this_eff_load := s64 (s64 (100 * pp) * s64 (this_load + a)) in
      tp ← power_of this_cpu;
      b ← effective_load tg prev_cpu 0 weight;
      let prev_eff_load := s64 (s64 (u32 (100 + u32 (imbalance_pct sd - 100) / 2) * tp) * s64 (load + b)) in
      mret (this_eff_load <=? prev_eff_load)
    else mret true);
  if sync && balanced then mret true
  else
    tl_per_task ← cpu_avg_load_per_task this_cpu;
    if balanced : bool then mret true
    else if this_load <=? load then
      t ← target_load prev_cpu idx;
      mret (s64 (this_load + t) <=? tl_per_task)
    else mret false.

(** ** The processor for a task *)

(** Power and number of tasks of the processors. *)
Fixpoint span_sums (cpus : list Z) (power nr_running : Z) : B (Z * Z) :=
  match cpus with
  | [] => mret (power, nr_running)
  | i :: cpus' =>
      pw ← power_of i;
      r ← rq_of_cpu i;
      span_sums cpus' (u32 (power + pw)) (u32 (nr_running + rq_cfs_nr_running r))
  end.

(** Whether a domain that saves power or prefers local tasks has room. *)
Definition has_room (tmp : sched_domain) : B bool :=
  '(power, nr_running) ← span_sums (sched_domain_span tmp) 0 0;
  let capacity := DIV_ROUND_CLOSEST power SCHED_POWER_SCALE in
  let nr_running := if has_flag (sd_flags tmp) SD_POWERSAVINGS_BALANCE then nr_running / 2 else nr_running in
  mret (nr_running <? capacity).

(** The loop over the domains: the one for an affine wake-up and the widest to balance. *)
Fixpoint pick_domains (ds : list Z) (prev_cpu sd_flag : Z) (want_affine want_sd : bool)
    (affine_sd sd : option Z) : B (option Z * option Z) :=
  match ds with
  | [] => mret (affine_sd, sd)
  | d :: ds' =>
      tmp ← domain_at d;
      if negb (has_flag (sd_flags tmp) SD_LOAD_BALANCE) then
        pick_domains ds' prev_cpu sd_flag want_affine want_sd affine_sd sd
      else
        want_sd ← (if has_flag (sd_flags tmp) (Z.lor SD_POWERSAVINGS_BALANCE SD_PREFER_LOCAL)
                   then room ← has_room tmp; mret (if room : bool then false else want_sd)
                   else mret want_sd);
        let hit := want_affine && has_flag (sd_flags tmp) SD_WAKE_AFFINE && bool_decide (prev_cpu ∈ sched_domain_span tmp) in
        let affine_sd := if hit then Some d else affine_sd in
        let want_affine := if hit then false else want_affine in
        if negb want_sd && negb want_affine then mret (affine_sd, sd)
        else if negb (has_flag (sd_flags tmp) sd_flag) then
          pick_domains ds' prev_cpu sd_flag want_affine want_sd affine_sd sd
        else pick_domains ds' prev_cpu sd_flag want_affine want_sd affine_sd (if want_sd : bool then Some d else sd)
  end.

(** The widest domain of the list with the flag, before the first as wide as [weight]. *)
Fixpoint narrower (ds : list Z) (weight sd_flag : Z) (sd : option Z) : B (option Z) :=
  match ds with
  | [] => mret sd
  | d :: ds' =>
      tmp ← domain_at d;
      if weight <=? span_weight tmp then mret sd
      else narrower ds' weight sd_flag (if has_flag (sd_flags tmp) sd_flag then Some d else sd)
  end.

(** The loop down the domains. *)
Fixpoint descend (fuel : nat) (sd : option Z) (allowed : list Z) (sd_flag cpu new_cpu : Z) : B Z :=
  match sd with
  | None => mret new_cpu
  | Some d =>
      match fuel with
      | O => fail OutOfFuel
      | S fuel' =>
          sd ← domain_at d;
          if negb (has_flag (sd_flags sd) sd_flag) then descend fuel' (sd_child sd) allowed sd_flag cpu new_cpu
          else
            let load_idx := s32 (if has_flag sd_flag SD_BALANCE_WAKE then wake_idx sd else forkexec_idx sd) in
            group ← find_idlest_group sd allowed cpu load_idx;
            match group with
            | None => descend fuel' (sd_child sd) allowed sd_flag cpu new_cpu
            | Some g =>
                group ← load_sg g;
                new_cpu ← find_idlest_cpu group allowed cpu;
                if (new_cpu =? -1) || (new_cpu =? cpu) then descend fuel' (sd_child sd) allowed sd_flag cpu new_cpu
                else
                  ds ← domains_of_cpu new_cpu;
                  next ← narrower ds (span_weight sd) sd_flag None;
                  descend fuel' next allowed sd_flag new_cpu new_cpu
            end
      end
  end.

(** Each turn takes a narrower domain or one as wide of a lower level. *)
Definition descend_fuel (sd : sched_domain) : nat :=
  S (Z.to_nat (span_weight sd * (sched_domain_level_max + 1) + sd_level sd)).

(** The domains from [sd_llc] of the processor down. *)
Definition llc_domains (target : Z) : B (list sched_domain) :=
  s ← get;
  match sd_llc s !! target with
  | None => mret []
  | Some d => sd ← domain_at d; lower_domains (S (Z.to_nat (sd_level sd))) (Some d)
  end.

(** [cpu] runs the code and the task [current]. *)
Definition select_task_rq_fair (p current : placed_task) (cpu sd_flag : Z) (sync : bool) : B Z :=
  let prev_cpu := pt_cpu p in
  if nr_cpus_allowed p =? 1 then mret prev_cpu
  else
    let wake := has_flag sd_flag SD_BALANCE_WAKE in
    let want_affine := wake && bool_decide (cpu ∈ pt_allowed p) in
    let new_cpu := if wake then prev_cpu else cpu in
    ds ← domains_of_cpu cpu;
    '(affine_sd, sd) ← pick_domains ds prev_cpu sd_flag want_affine true None None;
    match affine_sd with
    | Some d =>
        affine ← (if cpu =? prev_cpu then mret true else sd ← domain_at d; wake_affine sd p current cpu sync);
        let target := if affine : bool then cpu else prev_cpu in
        sds ← llc_domains target;
        select_idle_sibling cpu prev_cpu sds (pt_allowed p) target
    | None =>
        match sd with
        | None => mret new_cpu
        | Some d => top ← domain_at d; descend (descend_fuel top) (Some d) (pt_allowed p) sd_flag cpu new_cpu
        end
    end.

(** ** When the processor does not do *)

Context `{CpuMasks}.

(** For a task of the fair class, which has no [set_cpus_allowed]. *)
Definition do_set_cpus_allowed (p : placed_task) (new_mask : list Z) : placed_task :=
  (p <| pt_allowed := new_mask |>) <| nr_cpus_allowed := Z.of_nat (length new_mask) |>.

Definition cpu_usable (cpu : Z) : bool := cpu_online cpu && cpu_active cpu.

Inductive fallback_state := cpuset | possible | failed.

(** The loop, in the given state: the processor and the task with its new mask. *)
Definition any_allowed (p : placed_task) (none : B (Z * placed_task)) : B (Z * placed_task) :=
  match find cpu_usable (pt_allowed p) with
  | Some dest_cpu => mret (dest_cpu, p)
  | None => none
  end.

Fixpoint fallback_loop (fuel : nat) (state : fallback_state) (p : placed_task) : B (Z * placed_task) :=
  match fuel with
  | O => fail OutOfFuel
  | S fuel' =>
      any_allowed p
        match state with
        | cpuset => fallback_loop fuel' possible (do_set_cpus_allowed p (cpuset_cpus_allowed_fallback p))
        | possible => fallback_loop fuel' failed (do_set_cpus_allowed p cpu_possible_mask)
        | failed => fail BugOn
        end
  end.

(** Three passes: one per state. *)
Definition select_fallback_rq (cpu : Z) (p : placed_task) : B (Z * placed_task) :=
  match find (λ dest_cpu, cpu_usable dest_cpu && bool_decide (dest_cpu ∈ pt_allowed p)) (cpumask_of_node (cpu_to_node cpu)) with
  | Some dest_cpu => mret (dest_cpu, p)
  | None => fallback_loop 3 cpuset p
  end.

(** For a task of the fair class. *)
Definition select_task_rq (p current : placed_task) (this_cpu sd_flags : Z) (sync : bool) : B (Z * placed_task) :=
  cpu ← select_task_rq_fair p current this_cpu sd_flags sync;
  if negb (bool_decide (cpu ∈ pt_allowed p)) || negb (cpu_online cpu) then select_fallback_rq (pt_cpu p) p
  else mret (cpu, p).
End Place.
