(* ===== verification/PlaceSpec.v ===== *)
(** * Where a task is put: the result

    On a machine whose domains fit together, [select_task_rq_fair] returns a processor on
    which the task may run, or the one that is there without balancing; the descent
    through the domains ends. *)

From S2P Require Import Prelude Balance BalanceSpec Place.

Section PlaceSpec.
Context `{LbEnv}.
Variable sched_domain_level_max : Z.
Variable s : lb_state.

(** ** Domains that fit together *)

(** The groups of a domain have power and known processors, a child is of a lower level
    and not wider, and the loads the domain reads are there. *)
Record domain_fits (sd : sched_domain) : Prop := {
  df_level : 0 ≤ sd_level sd ≤ sched_domain_level_max;
  df_weight : 0 ≤ span_weight sd;
  df_groups g : g ∈ sd_groups sd → ∃ group p, lb_groups s !! g = Some group ∧ powers s !! sgp group = Some p ∧
    0 < sg_power p ∧ ∀ i, i ∈ sched_group_cpus group → is_Some (rqs s !! i);
  df_span i : i ∈ sched_domain_span sd → is_Some (rqs s !! i);
  df_loads i r : rqs s !! i = Some r → rq_ready (s32 (wake_idx sd)) r ∧ rq_ready (s32 (forkexec_idx sd)) r;
  df_child c : sd_child sd = Some c → ∃ child, domains s !! c = Some child ∧
    sd_level child < sd_level sd ∧ span_weight child ≤ span_weight sd
}.

Record machine_fits : Prop := {
  mf_domain d sd : domains s !! d = Some sd → domain_fits sd;
  mf_load i r : rqs s !! i = Some r → 0 ≤ rq_weight r < ULONG_MAX;
  mf_domains i : is_Some (rqs s !! i) → ∃ ds, cpu_domains s !! i = Some ds ∧ ∀ d, d ∈ ds → is_Some (domains s !! d);
  mf_llc i d : sd_llc s !! i = Some d → is_Some (domains s !! d)
}.

Hypothesis fits : machine_fits.

Lemma domain_at_run d sd : domains s !! d = Some sd → domain_at d s = Ok sd s.
Proof. intros E. unfold domain_at. mstep. by rewrite E. Qed.

Lemma domains_of_cpu_run i ds : cpu_domains s !! i = Some ds → domains_of_cpu i s = Ok ds s.
Proof. intros E. unfold domains_of_cpu. mstep. by rewrite E. Qed.

Lemma tally_run (local : bool) load_idx : ∀ is_ n,
  (∀ i, i ∈ is_ → ∃ r, rqs s !! i = Some r ∧ rq_ready load_idx r) → ∃ n', tally is_ local load_idx n s = Ok n' s.
Proof.
  induction is_ as [|i is_ IH]; intros n Hk; [by exists n|]. destruct (Hk i ltac:(left)) as (r & Er & Hr).
  cbn [tally]. unfold mbind, M_bind.
  assert (Hl : ∃ l, (if local then source_load i load_idx else target_load i load_idx) s = Ok l s).
  { destruct local; [exact (load_run s i r false load_idx Er Hr)|exact (load_run s i r true load_idx Er Hr)]. }
  destruct Hl as [l ->]. apply IH. intros j Hj. apply Hk. by right.
Qed.

(** The groups are known for the index the descent uses. *)
Lemma fits_groups sd this_cpu (wake : bool) :
  domain_fits sd → groups_known s this_cpu (s32 (if wake then wake_idx sd else forkexec_idx sd)) (sd_groups sd).
Proof.
  intros D g Hg. destruct (df_groups _ D g Hg) as (group & p & Eg & Ep & Hp & Hc).
  destruct (tally_run (bool_decide (this_cpu ∈ sched_group_cpus group)) (s32 (if wake then wake_idx sd else forkexec_idx sd))
    (sched_group_cpus group) 0) as [n En].
  { intros i Hi. destruct (Hc i Hi) as [r Er]. exists r. split; [done|]. destruct (df_loads _ D i r Er). by destruct wake. }
  exists group, p, n. split_and!; [done|done|lia|done].
Qed.

(** ** Walks over domains *)

Lemma lower_domains_run : ∀ fuel d,
  (∀ d', d = Some d' → ∃ sd, domains s !! d' = Some sd ∧ (Z.to_nat (sd_level sd) < fuel)%nat) →
  ∃ sds, lower_domains fuel d s = Ok sds s ∧ ∀ sd, sd ∈ sds → domain_fits sd.
Proof.
  induction fuel as [|fuel IH]; intros [d|] Hd;
    try (exists []; split; [done|]; intros sd Hsd; by apply not_elem_of_nil in Hsd).
  { destruct (Hd d eq_refl) as (sd & _ & Hlt). lia. }
  destruct (Hd d eq_refl) as (sd & Ed & Hlt). pose proof (mf_domain fits d sd Ed) as D.
  cbn [lower_domains]. unfold mbind, M_bind. rewrite (domain_at_run d sd Ed).
  destruct (IH (sd_child sd)) as (sds & -> & Hs).
  { intros c Hc. destruct (df_child _ D c Hc) as (child & Ec & Hlv & _). exists child. split; [done|].
    pose proof (df_level _ (mf_domain fits c child Ec)). pose proof (df_level _ D). lia. }
  exists (sd :: sds). split; [done|]. intros sd' [-> |Hin]%elem_of_cons; [done|by apply Hs].
Qed.

Lemma llc_domains_run target : ∃ sds, llc_domains target s = Ok sds s ∧ ∀ sd, sd ∈ sds → domain_fits sd.
Proof.
  unfold llc_domains, mbind, M_bind, get. destruct (sd_llc s !! target) as [d|] eqn:E.
  - destruct (mf_llc fits target d E) as [sd Ed]. rewrite (domain_at_run d sd Ed). apply lower_domains_run.
    intros d' Hd. simplify_eq. exists sd. split; [done|lia].
  - exists []. split; [done|]. intros sd Hsd. by apply not_elem_of_nil in Hsd.
Qed.

Definition known_domains (ds : list Z) : Prop := ∀ d, d ∈ ds → is_Some (domains s !! d).

Lemma known_tail d ds : known_domains (d :: ds) → known_domains ds.
Proof. intros Hk e He. apply Hk. by right. Qed.

Lemma narrower_run weight sd_flag : ∀ ds o, known_domains ds →
  ∃ r, narrower ds weight sd_flag o s = Ok r s ∧
    ∀ d, r = Some d → o = Some d ∨ ∃ sd, domains s !! d = Some sd ∧ span_weight sd < weight.
Proof.
  induction ds as [|d ds IH]; intros o Hk; [exists o; split; [done|]; by left|].
  destruct (Hk d ltac:(left)) as [sd Ed]. cbn [narrower]. unfold mbind, M_bind. rewrite (domain_at_run d sd Ed).
  destruct (Z.leb_spec weight (span_weight sd)) as [Hle|Hlt]; [exists o; split; [done|]; by left|].
  destruct (IH (if has_flag (sd_flags sd) sd_flag then Some d else o) (known_tail _ _ Hk)) as (r & -> & Hr). exists r. split; [done|].
  intros e Ee. destruct (Hr e Ee) as [Ho|?]; [|by right]. destruct (has_flag _ _); [|by left]. simplify_eq. right. by exists sd.
Qed.

Lemma span_sums_run : ∀ is_ p n, (∀ i, i ∈ is_ → is_Some (rqs s !! i)) → ∃ r, span_sums is_ p n s = Ok r s.
Proof.
  induction is_ as [|i is_ IH]; intros p n Hk; [by eexists|]. destruct (Hk i ltac:(left)) as [r Er].
  cbn [span_sums]. unfold mbind, M_bind. rewrite (power_of_run s i r Er), (rq_of_cpu_run s i r Er).
  apply IH. intros j Hj. apply Hk. by right.
Qed.

Lemma has_room_run sd : domain_fits sd → ∃ b, has_room sd s = Ok b s.
Proof.
  intros D. unfold has_room, mbind, M_bind. destruct (span_sums_run (sched_domain_span sd) 0 0 (df_span _ D)) as [[p n] ->]. by eexists.
Qed.

(** The domains picked are known; one for an affine wake-up is picked only if wanted. *)
Lemma pick_domains_run prev_cpu sd_flag : ∀ ds want_affine want_sd a o,
  known_domains ds → known_domains (option_list a) → known_domains (option_list o) →
  ∃ a' o', pick_domains ds prev_cpu sd_flag want_affine want_sd a o s = Ok (a', o') s ∧
    known_domains (option_list a') ∧ known_domains (option_list o') ∧ (want_affine = false → a' = a).
Proof.
  induction ds as [|d ds IH]; intros wa ws a o Hk Ha Ho; [by exists a, o|].
  destruct (Hk d ltac:(left)) as [sd Ed]. pose proof (mf_domain fits d sd Ed) as D. pose proof (known_tail _ _ Hk) as Hk'.
  assert (Hd : known_domains (option_list (Some d))) by (intros e He; apply list_elem_of_singleton in He as ->; by exists sd).
  cbn [pick_domains]. unfold mbind, M_bind. rewrite (domain_at_run d sd Ed).
  destruct (negb (has_flag (sd_flags sd) SD_LOAD_BALANCE)); [by apply IH|].
  match goal with |- context [match ?m s with Ok _ _ => _ | Err _ _ => _ end] => assert (Hw : ∃ b, m s = Ok b s) end.
  { destruct (has_flag _ _); [|by eexists]. destruct (has_room_run sd D) as [b ->]. by eexists. }
  destruct Hw as [ws' ->]. set (hit := wa && _ && _).
  assert (Ha' : known_domains (option_list (if hit then Some d else a))) by (by destruct hit).
  assert (Hwa : wa = false → (if hit then Some d else a) = a ∧ (if hit then false else wa) = false) by (intros ->; done).
  destruct (negb ws' && _); [eexists _, _; split_and!; [done..|by intros Hf; destruct (Hwa Hf)]|].
  destruct (negb _).
  - destruct (IH (if hit then false else wa) ws' (if hit then Some d else a) o Hk' Ha' Ho) as (a' & o' & E & H1 & H2 & H3).
    exists a', o'. split_and!; [done..|]. intros Hf. destruct (Hwa Hf) as [Hf1 Hf2]. by rewrite (H3 Hf2).
  - assert (Ho' : known_domains (option_list (if ws' : bool then Some d else o))) by (by destruct ws').
    destruct (IH (if hit then false else wa) ws' (if hit then Some d else a) _ Hk' Ha' Ho') as (a' & o' & E & H1 & H2 & H3).
    exists a', o'. split_and!; [done..|]. intros Hf. destruct (Hwa Hf) as [Hf1 Hf2]. by rewrite (H3 Hf2).
Qed.

(** ** The descent *)

Definition turns (sd : sched_domain) : Z := span_weight sd * (sched_domain_level_max + 1) + sd_level sd.

Lemma turns_child sd child :
  domain_fits sd → domain_fits child → sd_level child < sd_level sd → span_weight child ≤ span_weight sd → turns child < turns sd.
Proof. intros D C Hl Hw. pose proof (df_level _ D). pose proof (df_weight _ C). unfold turns. nia. Qed.

Lemma turns_narrower sd sd' : domain_fits sd → domain_fits sd' → span_weight sd' < span_weight sd → turns sd' < turns sd.
Proof. intros D D' Hw. pose proof (df_level _ D). pose proof (df_level _ D'). unfold turns. nia. Qed.

(** The idlest processor of a group that was chosen is allowed. *)
Lemma idlest_pair_run sd allowed cpu (wake : bool) :
  domain_fits sd →
  ∃ r, find_idlest_group sd allowed cpu (s32 (if wake then wake_idx sd else forkexec_idx sd)) s = Ok r s ∧
    ∀ g, r = Some g → ∃ group i, load_sg g s = Ok group s ∧ find_idlest_cpu group allowed cpu s = Ok i s ∧
      i ∈ allowed ∧ is_Some (rqs s !! i).
Proof.
  intros D. destruct (find_idlest_group_least s sd allowed cpu _ (fits_groups sd cpu wake D)) as (r & E & Hr).
  exists r. split; [exact E|]. intros g ->. destruct Hr as (group & Hg & (Eg & _ & j & Hj & Hja) & _).
  destruct (df_groups _ D g Hg) as (group' & p & Eg' & _ & _ & Hc). assert (group' = group) as -> by congruence.
  destruct (find_idlest_cpu_least s group allowed cpu) as (i & Ei & Hi).
  { intros k Hk. destruct (Hc k Hk) as [q Eq]. exists q. split; [done|]. by apply (mf_load fits k). }
  assert (Hin : i ∈ filter (λ i, i ∈ allowed) (sched_group_cpus group)).
  { destruct Hi as [[Hnil _]|[Hin _]]; [exfalso|done].
    assert (Hj' : j ∈ filter (λ i, i ∈ allowed) (sched_group_cpus group)) by (by apply list_elem_of_filter).
    rewrite Hnil in Hj'. by apply not_elem_of_nil in Hj'. }
  apply list_elem_of_filter in Hin as [Ha Hin]. exists group, i. split_and!; [by apply load_sg_run|exact Ei|done|by apply Hc].
Qed.

Lemma descend_run allowed sd_flag : ∀ fuel o cpu new_cpu,
  (∀ d, o = Some d → ∃ sd, domains s !! d = Some sd ∧ turns sd < Z.of_nat fuel) →
  ∃ i, descend fuel o allowed sd_flag cpu new_cpu s = Ok i s ∧ (i = new_cpu ∨ i ∈ allowed).
Proof.
  induction fuel as [|fuel IH]; intros [d|] cpu new_cpu Hd; try (exists new_cpu; split; [done|by left]).
  { destruct (Hd d eq_refl) as (sd & Ed & Hlt). pose proof (mf_domain fits d sd Ed) as D.
    pose proof (df_level _ D). pose proof (df_weight _ D). unfold turns in Hlt. nia. }
  destruct (Hd d eq_refl) as (sd & Ed & Hlt). pose proof (mf_domain fits d sd Ed) as D.
  assert (Hchild : ∀ c, sd_child sd = Some c → ∃ child, domains s !! c = Some child ∧ turns child < Z.of_nat fuel).
  { intros c Hc. destruct (df_child _ D c Hc) as (child & Ec & Hl & Hw). exists child. split; [done|].
    pose proof (turns_child sd child D (mf_domain fits c child Ec) Hl Hw). lia. }
  cbn [descend]. unfold mbind, M_bind. rewrite (domain_at_run d sd Ed).
  destruct (negb _); [by apply IH|].
  destruct (idlest_pair_run sd allowed cpu (has_flag sd_flag SD_BALANCE_WAKE) D) as (r & -> & Hr).
  destruct r as [g|]; [|by apply IH]. destruct (Hr g eq_refl) as (group & i & -> & -> & Hi & Hk).
  destruct (_ || _).
  { destruct (IH (sd_child sd) cpu i Hchild) as (j & E & [-> |Hj]); [exists i|exists j]; auto. }
  destruct (mf_domains fits i Hk) as (ds & Eds & Hds). rewrite (domains_of_cpu_run i ds Eds).
  destruct (narrower_run (span_weight sd) sd_flag ds None Hds) as (next & -> & Hn).
  destruct (IH next i i) as (j & E & Hj).
  { intros e ->. destruct (Hn e eq_refl) as [?|(sd' & Ee & Hw)]; [done|]. exists sd'. split; [done|].
    pose proof (turns_narrower sd sd' D (mf_domain fits e sd' Ee) Hw). lia. }
  exists j. split; [exact E|]. destruct Hj as [-> |Hj]; by right.
Qed.

(** ** The load of groups *)

(** The change of the load for a group below the root is the difference between the weight
    of its entity and the share of the queue in the load of the group, formulas (2) and (3)
    of the source, at least 2 and at most all shares. *)
Theorem effective_load_exact tg cpu l wl wg :
  levels s !! (tg, cpu) = Some [l] →
  let W := wg + (tg_load_weight l - lv_contribution l + my_q_weight l) in
  let w := my_q_weight l + wl in
  - 2 ^ 31 ≤ wl < 2 ^ 31 → - 2 ^ 31 ≤ wg < 2 ^ 31 → - 2 ^ 31 ≤ W - wg < 2 ^ 31 → - 2 ^ 31 ≤ W < 2 ^ 31 → 0 ≤ w < 2 ^ 31 →
  0 ≤ se_weight l < 2 ^ 31 → 0 ≤ tg_shares l < 2 ^ 31 → w * tg_shares l < 2 ^ 32 →
  let share := if (0 <? W) && (w <? W) then w * tg_shares l / W else tg_shares l in
  effective_load tg cpu wl wg s = Ok (Z.max 2 share - se_weight l) s ∧ share ≤ tg_shares l.
Proof.
  intros E W w Hwl Hwg HW0 HW Hw Hse Hsh Hprod share. unfold effective_load, mbind, M_bind, get, deref. rewrite E.
  unfold mret, M_ret. cbn [change_up]. unfold level_change, calc_tg_weight.
  rewrite !(swrap_small 32 ltac:(done) wl), !(swrap_small 32 ltac:(done) wg) by (widths; lia).
  rewrite (swrap_small 32 ltac:(done) (tg_load_weight l - lv_contribution l + my_q_weight l)) by (widths; lia). fold W w.
  rewrite (swrap_small 32 ltac:(done) W), (swrap_small 32 ltac:(done) w) by (widths; lia).
  assert (Hs : 0 ≤ share ≤ tg_shares l).
  { subst share. destruct ((0 <? W) && (w <? W)) eqn:Ec; [|lia]. bsimp.
    split; [apply Z.div_pos; nia|apply Z.div_le_upper_bound; nia]. }
  replace (if (0 <? W) && (w <? W) then s32 (u32 (w * tg_shares l) / W) else s32 (tg_shares l)) with share.
  2: { subst share. destruct ((0 <? W) && (w <? W)); [rewrite (uwrap_small 32 (w * tg_shares l)) by (widths; nia)|];
       symmetry; apply (swrap_small 32 ltac:(done)); widths; lia. }
  rewrite (uwrap_small 32 share) by (widths; lia). clearbody share.
  destruct (Z.ltb_spec share 2); rewrite (swrap_small 32 ltac:(done)) by (widths; lia); split; try lia; f_equal; lia.
Qed.

(** The task groups of the tasks are known on the processor. *)
Definition groups_on (cpu : Z) (tgs : list Z) : Prop := ∀ tg, tg ∈ tgs → is_Some (levels s !! (tg, cpu)).

Lemma effective_load_run tg cpu wl wg : is_Some (levels s !! (tg, cpu)) → ∃ n, effective_load tg cpu wl wg s = Ok n s.
Proof. intros [ls E]. unfold effective_load. mstep. rewrite E. by eexists. Qed.

Lemma wake_affine_run sd p current cpu sync :
  domain_fits sd → is_Some (rqs s !! cpu) → is_Some (rqs s !! pt_cpu p) →
  groups_on cpu [pt_group p; pt_group current] → groups_on (pt_cpu p) [pt_group p; pt_group current] →
  ∃ b, wake_affine sd p current cpu sync s = Ok b s.
Proof.
  intros D [r Er] [r' Er'] Hg Hg'.
  assert (He : ∀ c wl wg, c = cpu ∨ c = pt_cpu p → (∃ n, effective_load (pt_group p) c wl wg s = Ok n s) ∧
                                                   ∃ n, effective_load (pt_group current) c wl wg s = Ok n s).
  { intros c wl wg [-> | ->]; split; apply effective_load_run; (apply Hg || apply Hg'); set_solver. }
  destruct (df_loads _ D cpu r Er) as [Hl _]. destruct (df_loads _ D _ r' Er') as [Hl' _].
  unfold wake_affine, mbind, M_bind.
  destruct (load_run s _ r' false _ Er' Hl') as [load ->]. destruct (load_run s _ r true _ Er Hl) as [this ->].
  match goal with |- context [match ?m s with Ok _ _ => _ | Err _ _ => _ end] => assert (Hs : ∃ x, m s = Ok x s) end.
  { destruct sync; [|by eexists]. destruct (He cpu (- pt_weight current) (- pt_weight current)) as [_ [n ->]]; [by left|].
    destruct (He (pt_cpu p) 0 (- pt_weight current)) as [_ [n' ->]]; [by right|]. by eexists. }
  destruct Hs as [[this' load'] ->].
  match goal with |- context [match ?m s with Ok _ _ => _ | Err _ _ => _ end] => assert (Hb : ∃ x, m s = Ok x s) end.
  { destruct (0 <? this'); [|by eexists]. rewrite (power_of_run s _ r' Er').
    destruct (He cpu (pt_weight p) (pt_weight p)) as [[n ->] _]; [by left|]. rewrite (power_of_run s _ r Er).
    destruct (He (pt_cpu p) 0 (pt_weight p)) as [[n' ->] _]; [by right|]. by eexists. }
  destruct Hb as [balanced ->]. destruct (sync && balanced); [by eexists|].
  assert (Ha : ∃ n, cpu_avg_load_per_task cpu s = Ok n s).
  { unfold cpu_avg_load_per_task, mbind, M_bind. rewrite (rq_of_cpu_run s cpu r Er). destruct (negb _); by eexists. }
  destruct Ha as [n ->]. destruct balanced; [by eexists|]. destruct (this' <=? load'); [|by eexists].
  destruct (load_run s _ r' true _ Er' Hl') as [t ->]. by eexists.
Qed.

(** ** The processor for a task *)

Lemma siblings_fit sd : domain_fits sd → siblings_known s (sd_groups sd).
Proof. intros D g Hg. destruct (df_groups _ D g Hg) as (group & p & Eg & _ & _ & Hc). by exists group. Qed.

Lemma known_some d : known_domains (option_list (Some d)) → is_Some (domains s !! d).
Proof. intros Hk. apply Hk. left. Qed.

(** [select_task_rq_fair] ends with the fuel it is given, whatever the loads of a
    machine whose domains fit together: it returns a processor on which the task may run,
    or leaves the task where it was, or, unless it wakes up, takes the processor that runs
    the code.  A task bound to one processor stays where it is. *)
Theorem select_task_rq_fair_allowed p current cpu sd_flag sync :
  is_Some (rqs s !! cpu) → is_Some (rqs s !! pt_cpu p) →
  groups_on cpu [pt_group p; pt_group current] → groups_on (pt_cpu p) [pt_group p; pt_group current] →
  ∃ i, select_task_rq_fair sched_domain_level_max p current cpu sd_flag sync s = Ok i s ∧
    (i ∈ pt_allowed p ∨ i = pt_cpu p ∨ (i = cpu ∧ has_flag sd_flag SD_BALANCE_WAKE = false)) ∧
    (nr_cpus_allowed p = 1 → i = pt_cpu p).
Proof.
  intros Hc Hp Hg Hg'. unfold select_task_rq_fair, mbind, M_bind.
  destruct (Z.eqb_spec (nr_cpus_allowed p) 1) as [E1|E1]; [by exists (pt_cpu p); split_and!; auto|].
  destruct (mf_domains fits cpu Hc) as (ds & Eds & Hds). rewrite (domains_of_cpu_run cpu ds Eds).
  set (wake := has_flag sd_flag SD_BALANCE_WAKE). set (wa := wake && _).
  destruct (pick_domains_run (pt_cpu p) sd_flag ds wa true None None Hds) as (a & o & -> & Ha & Ho & Hwa);
    [by intros d Hd; apply not_elem_of_nil in Hd..|].
  destruct a as [d|].
  - destruct wa eqn:Ewa; [|by discriminate (Hwa eq_refl)]. apply andb_true_iff in Ewa as [_ Hca%bool_decide_eq_true]. destruct (known_some d Ha) as [sd Ed].
    match goal with |- context [match ?m s with Ok _ _ => _ | Err _ _ => _ end] => assert (Haf : ∃ b, m s = Ok b s) end.
    { destruct (cpu =? pt_cpu p); [by eexists|]. rewrite (domain_at_run d sd Ed).
      by apply wake_affine_run; [apply (mf_domain fits d)|..]. }
    destruct Haf as [b ->]. set (target := if b : bool then cpu else pt_cpu p).
    destruct (llc_domains_run target) as (sds & -> & Hs).
    destruct (select_idle_sibling_idle s cpu (pt_cpu p) sds (pt_allowed p) target Hc Hp) as (i & E & Hi).
    { intros sd' Hsd. by apply siblings_fit, Hs. }
    exists i. split_and!; [exact E| |done]. destruct Hi as [-> |[Hi _]]; [|by left].
    subst target. destruct b; [by left|by right; left].
  - assert (Hnew : ∀ i, i = (if wake then pt_cpu p else cpu) → i = pt_cpu p ∨ (i = cpu ∧ wake = false)) by (intros i ->; destruct wake; auto).
    destruct o as [d|]; [|eexists; split_and!; [reflexivity|right; by apply Hnew|done]].
    destruct (known_some d Ho) as [top Ed]. rewrite (domain_at_run d top Ed).
    destruct (descend_run (pt_allowed p) sd_flag (descend_fuel sched_domain_level_max top) (Some d) cpu (if wake then pt_cpu p else cpu))
      as (i & E & Hi).
    { intros d' Hd. simplify_eq. exists top. split; [done|]. unfold descend_fuel, turns. pose proof (mf_domain fits _ _ Ed) as D.
      pose proof (df_level _ D). pose proof (df_weight _ D). nia. }
    exists i. split_and!; [exact E| |done]. destruct Hi as [Hi|Hi]; [right; by apply Hnew|by left].
Qed.

(** ** When the processor does not do *)

Context `{CpuMasks}.

Lemma find_usable l (q : Z → bool) i : find q l = Some i → i ∈ l ∧ q i = true.
Proof. intros E. apply find_some in E as [Hi Hq]. by rewrite <- list_elem_of_In in Hi. Qed.

Lemma find_none_usable l (q : Z → bool) : find q l = None → ∀ i, i ∈ l → q i = false.
Proof. intros E i Hi. apply (find_none _ _ E). by rewrite <- list_elem_of_In. Qed.

(** A pass of the loop ends with a usable processor of the mask, or there is none. *)
Lemma any_allowed_cases p none :
  (∃ i, any_allowed p none s = Ok (i, p) s ∧ i ∈ pt_allowed p ∧ cpu_usable i = true) ∨
  (any_allowed p none s = none s ∧ ∀ i, i ∈ pt_allowed p → cpu_usable i = false).
Proof.
  unfold any_allowed. destruct (find cpu_usable (pt_allowed p)) as [i|] eqn:E.
  - left. exists i. split; [done|]. by apply find_usable.
  - right. split; [done|]. by apply find_none_usable.
Qed.

(** The mask after the fallback: the same if it has a usable processor, else what the cpuset
    allows, else all processors. *)
Definition fallback_mask (p q : placed_task) : Prop :=
  q = p ∨
  (∀ i, i ∈ pt_allowed p → cpu_usable i = false) ∧
  (q = do_set_cpus_allowed p (cpuset_cpus_allowed_fallback p) ∨
   (∀ i, i ∈ cpuset_cpus_allowed_fallback p → cpu_usable i = false) ∧ pt_allowed q = cpu_possible_mask).

Lemma select_fallback_run cpu p :
  (∃ i, i ∈ cpu_possible_mask ∧ cpu_usable i = true) →
  ∃ i q, select_fallback_rq cpu p s = Ok (i, q) s ∧ i ∈ pt_allowed q ∧ cpu_usable i = true ∧ fallback_mask p q.
Proof.
  intros (k & Hk & Huk). unfold select_fallback_rq.
  destruct (find _ (cpumask_of_node _)) as [i|] eqn:En.
  { apply find_usable in En as [_ Hu]. apply andb_true_iff in Hu as [Hu Ha%bool_decide_eq_true]. exists i, p. split_and!; try done. by left. }
  cbn [fallback_loop].
  match goal with |- context [any_allowed p ?m] => destruct (any_allowed_cases p m) as [(i & -> & Hi & Hu)|[-> H1]] end.
  { exists i, p. split_and!; try done. by left. }
  set (p1 := do_set_cpus_allowed p (cpuset_cpus_allowed_fallback p)).
  match goal with |- context [any_allowed p1 ?m] => destruct (any_allowed_cases p1 m) as [(i & -> & Hi & Hu)|[-> H2]] end.
  { exists i, p1. split_and!; try done. right. split; [done|]. by left. }
  set (p2 := do_set_cpus_allowed p1 cpu_possible_mask).
  match goal with |- context [any_allowed p2 ?m] => destruct (any_allowed_cases p2 m) as [(i & -> & Hi & Hu)|[-> H3]] end.
  { exists i, p2. split_and!; try done. right. split; [done|]. right. by split. }
  rewrite (H3 k Hk) in Huk. done.
Qed.

(** C31. [select_task_rq] always finds a place for a task: as long as one possible
    processor is online and active it returns an online processor of the mask of the task;
    that mask is changed only if none of its processors is usable, first to what the cpuset
    allows, and to all processors only if that does not help either. *)
Theorem select_task_rq_valid p current cpu sd_flags sync :
  is_Some (rqs s !! cpu) → is_Some (rqs s !! pt_cpu p) →
  groups_on cpu [pt_group p; pt_group current] → groups_on (pt_cpu p) [pt_group p; pt_group current] →
  (∃ i, i ∈ cpu_possible_mask ∧ cpu_usable i = true) →
  ∃ i q, select_task_rq sched_domain_level_max p current cpu sd_flags sync s = Ok (i, q) s ∧
    i ∈ pt_allowed q ∧ cpu_online i = true ∧ fallback_mask p q.
Proof.
  intros Hc Hp Hg Hg' Hpos. unfold select_task_rq, mbind, M_bind.
  destruct (select_task_rq_fair_allowed p current cpu sd_flags sync Hc Hp Hg Hg') as (i & -> & _).
  destruct (negb (bool_decide (i ∈ pt_allowed p)) || negb (cpu_online i)) eqn:E.
  - destruct (select_fallback_run (pt_cpu p) p Hpos) as (j & q & E' & Hj & Hu & Hm). exists j, q.
    apply andb_true_iff in Hu as [Hu _]. by split_and!.
  - apply orb_false_iff in E as [E1 E2]. apply negb_false_iff, bool_decide_eq_true in E1. apply negb_false_iff in E2.
    exists i, p. split_and!; try done. by left.
Qed.
End PlaceSpec.
