(* ===== verification/BalanceDemo.v ===== *)
(** * Balancing a small machine

    Four processors in three groups of one domain.  The theorems on the choices of the
    balancer are applied to it; an imbalanced group makes a group that is above the average
    load pull more load. *)

From S2P Require Import Prelude Balance BalanceSpec Place PlaceSpec.

Module BalanceDemo.
#[export] Instance lb_env : LbEnv := {
  LB_BIAS := true;
  ARCH_POWER := false;
  CONFIG_SCHED_MC := true;
  sched_mc_power_savings := 0;
  arch_scale_smt_power _ _ := 1024;
  arch_scale_freq_power _ _ := 1024;
  sched_avg_period := 500000000;
  msecs_to_jiffies ms := ms / 10;
  max_load_balance_interval := 10;
  jiffies := 1000
}.

(** A queue of the given load and number of tasks, without real-time load. *)
Definition queue (load nr : Z) : cpu_rq := mkCpuRq load nr nr ∅ 1024 (nr =? 0) 1000000000 1000000000 0.

Definition full : sched_group_power := mkSgp 1024 1024 0.
Definition twice : sched_group_power := mkSgp 2048 2048 0.

Definition all_cpus : list Z := [0; 1; 2; 3].

(** One domain of all processors, with balancing on fork and on wake-up. *)
Definition flat : sched_domain := mkDomain None [0; 1; 2] 125 1 0 0 0 0 0 1178 57 0 4 4 0 all_cpus.

(** Processor 0; processors 1 and 2; processor 3. *)
Definition machine (w0 n0 w1 n1 w2 n2 w3 n3 : Z) : lb_state := {|
  rqs := {[0 := queue w0 n0; 1 := queue w1 n1; 2 := queue w2 n2; 3 := queue w3 n3]};
  powers := {[10 := full; 11 := twice; 12 := full]};
  lb_groups := {[0 := mkGroup 1 10 [0]; 1 := mkGroup 2 11 [1; 2]; 2 := mkGroup 1 12 [3]]};
  domains := {[20 := flat]};
  cpu_domains := {[0 := [20]; 1 := [20]; 2 := [20]; 3 := [20]]};
  sd_llc := {[0 := 20; 1 := 20; 2 := 20; 3 := 20]};
  levels := {[(0, 0) := []; (0, 1) := []; (0, 2) := []; (0, 3) := []]}
|}.

(** Two tasks of 1024 on processors 1 and one on 2, processor 0 idle. *)
Definition uneven : lb_state := machine 0 0 2048 2 1024 1 1024 1.

Lemma uneven_known i : i ∈ all_cpus → ∃ r, rqs uneven !! i = Some r ∧ 0 ≤ rq_weight r < ULONG_MAX ∧ 0 < cpu_power r.
Proof. unfold all_cpus. rewrite !elem_of_cons. intros [-> |[-> |[-> |[-> |Hn]]]]; [..|by apply not_elem_of_nil in Hn]; by eexists. Qed.

Lemma uneven_group_ready g : g ∈ sd_groups flat → group_ready uneven 0 g.
Proof.
  simpl. rewrite !elem_of_cons. intros [-> |[-> |[-> |Hn]]]; [..|by apply not_elem_of_nil in Hn]; (eexists _, _; split_and!; [reflexivity..|done|]);
    intros i Hi; (destruct (uneven_known i) as (r & Er & _); [unfold all_cpus; simpl in Hi; set_solver|]); exists r; by split.
Qed.

Lemma uneven_ready : domain_ready flat 0 uneven 0.
Proof. split; [apply uneven_group_ready|done| |done]. eexists. split; [reflexivity|]. by vm_compute. Qed.

Lemma find_idlest_cpu_witness :
  ∃ i, find_idlest_cpu (mkGroup 2 11 [1; 2]) all_cpus 0 uneven = Ok i uneven ∧ i = 2.
Proof.
  destruct (find_idlest_cpu_least uneven (mkGroup 2 11 [1; 2]) all_cpus 0) as (i & E & _).
  { intros j Hj. destruct (uneven_known j) as (r & Er & Hr & _); [unfold all_cpus; simpl in Hj; set_solver|]. by exists r. }
  exists i. split; [exact E|]. vm_compute in E. by inversion E.
Defined.

Lemma find_idlest_group_witness :
  ∃ r, find_idlest_group flat all_cpus 3 0 uneven = Ok r uneven ∧ r = Some 0.
Proof.
  destruct (find_idlest_group_least uneven flat all_cpus 3 0) as (r & E & _).
  { intros g Hg. destruct (uneven_group_ready g Hg) as (group & p & Eg & Ep & Hp & _). exists group, p.
    simpl in Hg. rewrite !elem_of_cons in Hg. destruct Hg as [-> |[-> |[-> |Hn]]]; [..|by apply not_elem_of_nil in Hn];
      vm_compute in Eg; simplify_eq; eexists; (split_and!; [done|done|lia|vm_compute; reflexivity]). }
  exists r. split; [exact E|]. vm_compute in E. by inversion E.
Defined.

Lemma select_idle_sibling_witness :
  ∃ i, select_idle_sibling 3 1 [flat] all_cpus 1 uneven = Ok i uneven ∧ i = 0.
Proof.
  destruct (select_idle_sibling_idle uneven 3 1 [flat] all_cpus 1) as (i & E & _); [by eexists|by eexists| |].
  { intros sd Hsd g Hg. apply list_elem_of_singleton in Hsd as ->. destruct (uneven_group_ready g Hg) as (group & p & Eg & _ & _ & Hc).
    exists group. split; [done|]. intros i Hi. destruct (Hc i Hi) as (r & Er & _). by exists r. }
  exists i. split; [exact E|]. vm_compute in E. by inversion E.
Defined.

Lemma find_busiest_queue_witness :
  ∃ b, find_busiest_queue flat (mkGroup 2 11 [1; 2]) 768 all_cpus uneven = Ok b uneven ∧ b = Some 1 ∧
       ∀ j, j ∈ [1; 2] → can_pull uneven flat twice 768 all_cpus j = true → scaled_load uneven j ≤ 2048.
Proof.
  destruct (find_busiest_queue_most uneven flat (mkGroup 2 11 [1; 2]) twice 768 all_cpus eq_refl) as (b & E & Hb).
  { intros j Hj. destruct (uneven_known j) as (r & Er & _ & Hr); [unfold all_cpus; simpl in Hj; set_solver|]. by exists r. }
  assert (Eb : b = Some 1) by (vm_compute in E; by inversion E). exists b. split; [exact E|]. split; [exact Eb|].
  subst b. destruct Hb as (_ & _ & _ & Hb). exact Hb.
Defined.


(** The statistics of the survey, with the average load. *)
Definition uneven_sds : sd_lb_stats :=
  match update_sd_lb_stats flat 0 CPU_IDLE all_cpus sds_zero uneven with
  | Ok (sds, _) _ => sds <| sds_avg_load := 1024 |>
  | Err _ _ => sds_zero
  end.

Lemma uneven_stats_ready : stats_ready uneven uneven_sds 0 2048 1024.
Proof. split; [vm_compute; reflexivity|vm_compute; reflexivity|by eexists|done]. Qed.

Lemma calculate_imbalance_witness :
  ∃ imb, calculate_imbalance uneven_sds 0 uneven = Ok imb uneven ∧ imb = 1024.
Proof.
  destruct (calculate_imbalance_bounded uneven uneven_sds 0 2048 1024 uneven_stats_ready) as (imb & E & _);
    [vm_compute; done|vm_compute; done|vm_compute; done|vm_compute; done|vm_compute; done|].
  exists imb. split; [exact E|]. vm_compute in E. by inversion E.
Defined.

(** Processor 0 has a load of 3000, above the average 2750 of the domain.  The group of
    processors 1 and 2 is imbalanced, so the checks are skipped and the difference of the
    average and the local load wraps around: processor 0 is to pull 2500 more. *)
Example imbalance_above_average :
  let s := machine 3000 3 8000 8 0 0 0 0 in
  match find_busiest_group flat 0 CPU_NOT_IDLE all_cpus s, update_sd_lb_stats flat 0 CPU_NOT_IDLE all_cpus sds_zero s with
  | Ok (Some 1, imbalance, true) _, Ok (sds, _) _ =>
      imbalance = 2500 ∧ this_load sds = 3000 ∧ u32 (SCHED_POWER_SCALE * total_load sds) / total_pwr sds = 2750
  | _, _ => False
  end.
Proof. vm_compute. done. Qed.

(** ** Placing a task *)

Lemma uneven_cpu i r : rqs uneven !! i = Some r → i ∈ all_cpus.
Proof.
  intros E. apply elem_of_dom_2 in E. revert E. unfold uneven, machine. simpl. unfold all_cpus. set_solver.
Qed.

Lemma uneven_loads i r : rqs uneven !! i = Some r → 0 ≤ rq_weight r < ULONG_MAX.
Proof. intros E. destruct (uneven_known i (uneven_cpu i r E)) as (r' & E' & Hr & _). by simplify_eq. Qed.

Lemma flat_fits : domain_fits 0 uneven flat.
Proof.
  split; [done|done| | |done|done].
  - intros g Hg. destruct (uneven_group_ready g Hg) as (group & p & Eg & Ep & Hp & Hc). exists group, p. split_and!; [done..|].
    intros i Hi. destruct (Hc i Hi) as (r & Er & _). by exists r.
  - intros i Hi. destruct (uneven_known i Hi) as (r & Er & _). by exists r.
Qed.

Lemma uneven_domain d sd : domains uneven !! d = Some sd → sd = flat.
Proof. unfold uneven, machine. cbn [domains]. intros [_ ->]%lookup_singleton_Some. done. Qed.

Lemma uneven_fits : machine_fits 0 uneven.
Proof.
  split.
  - intros d sd ->%uneven_domain. apply flat_fits.
  - apply uneven_loads.
  - intros i [r Hi]. apply uneven_cpu in Hi. exists [20]. split.
    + unfold all_cpus in Hi. rewrite !elem_of_cons in Hi. by destruct Hi as [-> |[-> |[-> |[-> |Hn]]]]; [..|apply not_elem_of_nil in Hn].
    + intros d ->%list_elem_of_singleton. by eexists.
  - intros i d E. exists flat. assert (d = 20) as ->; [|done]. revert E. unfold uneven, machine. cbn [sd_llc].
    rewrite !lookup_insert_Some, lookup_singleton_Some. naive_solver.
Qed.

(** A task of the root group that ran on processor 1. *)
Definition waking : placed_task := mkPlaced all_cpus 4 1024 0 1.

Lemma select_task_rq_fair_witness :
  ∃ i, select_task_rq_fair 0 waking waking 3 SD_BALANCE_WAKE false uneven = Ok i uneven ∧ i = 0 ∧ i ∈ all_cpus.
Proof.
  destruct (select_task_rq_fair_allowed 0 uneven uneven_fits waking waking 3 SD_BALANCE_WAKE false) as (i & E & _);
    [by eexists|by eexists|intros tg Htg; assert (tg = 0) as -> by (simpl in Htg; set_solver); by eexists..|].
  assert (Hi : i = 0) by (vm_compute in E; by inversion E). exists i. split; [exact E|]. split; [exact Hi|]. subst i. left.
Defined.

(** Processor 1, on which the task may only run, is off line. *)
#[export] Instance masks : CpuMasks := {
  cpu_online i := negb (i =? 1);
  cpu_active _ := true;
  cpu_possible_mask := all_cpus;
  cpumask_of_node _ := all_cpus;
  cpu_to_node _ := 0;
  cpuset_cpus_allowed_fallback _ := [1; 2]
}.

Definition bound : placed_task := mkPlaced [1] 1 1024 0 1.

Lemma select_task_rq_witness :
  ∃ i q, select_task_rq 0 bound waking 3 SD_BALANCE_WAKE false uneven = Ok (i, q) uneven ∧
    i = 2 ∧ pt_allowed q = [1; 2] ∧ cpu_online i = true.
Proof.
  destruct (select_task_rq_valid 0 uneven uneven_fits bound waking 3 SD_BALANCE_WAKE false) as (i & q & E & _ & Ho & _);
    [by eexists|by eexists|intros tg Htg; assert (tg = 0) as -> by (simpl in Htg; set_solver); by eexists..|by exists 0; split; [left|]|].
  assert (Hi : i = 2 ∧ pt_allowed q = [1; 2]) by (vm_compute in E; by inversion E).
  exists i, q. split; [exact E|]. destruct Hi as [-> Hq]. by split_and!.
Defined.

(** The example of the source: seven tasks of a group of weight 1024, two on processor 0
    and four on processor 1; a task woken on processor 0 adds 5/56 of the weight there, and
    takes 4/56 from processor 1. *)
Example shares_shift :
  level_change (mkLevel 2048 1024 7168 2048 292) 1024 1024 = 1024 * 5 / 56 + 1 ∧
  level_change (mkLevel 4096 1024 7168 4096 585) 0 1024 = - (1024 * 4 / 56).
Proof. by vm_compute. Qed.

Lemma effective_load_witness :
  effective_load 1 0 1024 1024 (uneven <| levels := {[(1, 0) := [mkLevel 2048 1024 7168 2048 292]]} |>)
    = Ok 92 (uneven <| levels := {[(1, 0) := [mkLevel 2048 1024 7168 2048 292]]} |>).
Proof.
  apply (effective_load_exact (uneven <| levels := {[(1, 0) := [mkLevel 2048 1024 7168 2048 292]]} |>) 1 0
    (mkLevel 2048 1024 7168 2048 292) 1024 1024); by vm_compute.
Defined.
End BalanceDemo.
