(* ===== verification/Domains.v ===== *)
(** * Scheduling domains and their groups: [hw4/kernel/sched/core.c], CONFIG_SMP

    Domains of a processor are linked by [parent] and [child], groups of a domain form a
    ring by [next].  Here the domain of a level is made ([build_sched_domain], lines 6296 to
    6315 and 6486 to 6505), the ring of groups is built ([get_group], [build_sched_groups],
    lines 6137 to 6209), the domains that do not contribute are taken out of the chain
    ([sd_degenerate], [sd_parent_degenerate], the first half of [cpu_attach_domain], lines
    5673 to 5722 and 5909 to 5931), and the domain of the last level cache is found
    ([highest_flag_domain], [update_top_cache_domain], lines 5885 to 5896).

    Domains, groups and powers are objects with addresses; a mask that is walked is the
    ascending list of its processors. *)

From S2P Require Import Prelude Balance.

Record domain_node : Type := mkNode {
  parent : option Z;
  child : option Z;
  groups : option Z;
  node_flags : Z;
  level : Z;
  node_span : list Z;
  private : Z                              (** the [sd_data] of the level *)
}.
#[export] Instance domain_node_eta : Settable domain_node := λ r,
  mkNode (parent r) (child r) (groups r) (node_flags r) (level r) (node_span r) (private r).

Record group_node : Type := mkGroupNode {
  next : Z;
  node_cpus : gset Z;
  node_sgp : option Z;
  node_ref : Z
}.
#[export] Instance group_node_eta : Settable group_node := λ r, mkGroupNode (next r) (node_cpus r) (node_sgp r) (node_ref r).

Record power_node : Type := mkPowerNode {
  node_power : Z;
  power_ref : Z
}.
#[export] Instance power_node_eta : Settable power_node := λ r, mkPowerNode (node_power r) (power_ref r).

(** Domain, group and power of each processor at a level. *)
Record sd_data : Type := mkSdData {
  sdd_sd : gmap Z Z;
  sdd_sg : gmap Z Z;
  sdd_sgp : gmap Z Z
}.

Record dom_state : Type := mkDom {
  nodes : gmap Z domain_node;
  rings : gmap Z group_node;
  sgps : gmap Z power_node;
  topology : gmap Z sd_data;
  destroyed : list Z;                      (** passed to [destroy_sched_domain], the last first *)
  sched_domain_level_max : Z;
  cpu_sd : gmap Z Z;                       (** [rq->sd]; no entry for a null pointer *)
  top_cache : gmap Z Z;                    (** [sd_llc] *)
  top_cache_id : gmap Z Z                  (** [sd_llc_id] *)
}.
#[export] Instance dom_state_eta : Settable dom_state := λ r,
  mkDom (nodes r) (rings r) (sgps r) (topology r) (destroyed r) (sched_domain_level_max r) (cpu_sd r) (top_cache r) (top_cache_id r).

Section Domains.
Abbreviation D := (M dom_state).

Definition node_at (d : Z) : D domain_node := s ← get; deref (nodes s !! d).
Definition set_node (d : Z) (u : domain_node → domain_node) : D unit :=
  n ← node_at d; modify (λ s, s <| nodes ::= <[d := u n]> |>).
Definition group_at (g : Z) : D group_node := s ← get; deref (rings s !! g).
Definition set_group (g : Z) (u : group_node → group_node) : D unit :=
  n ← group_at g; modify (λ s, s <| rings ::= <[g := u n]> |>).
Definition set_power (p : Z) (u : power_node → power_node) : D unit :=
  s ← get; n ← deref (sgps s !! p); modify (λ s, s <| sgps ::= <[p := u n]> |>).

(** [cpumask_first]; at least the number of processors for an empty mask. *)
Definition first_of (mask : list Z) : Z := default 4294967295 (head mask).

(** ** The domain of a level *)

Record sched_domain_attr : Type := mkAttr { relax_domain_level : Z }.

(** [default_relax_domain_level] is a parameter of the boot. *)
Definition set_domain_attribute (default_relax_domain_level : Z) (attr : option sched_domain_attr) (sd : domain_node) : domain_node :=
  let change request :=
    if request <? level sd then sd <| node_flags := Z.land (node_flags sd) (Z.lnot (Z.lor SD_BALANCE_WAKE SD_BALANCE_NEWIDLE)) |>
    else sd <| node_flags := Z.lor (node_flags sd) (Z.lor SD_BALANCE_WAKE SD_BALANCE_NEWIDLE) |> in
  match attr with
  | Some a =>
      if relax_domain_level a <? 0
      then if default_relax_domain_level <? 0 then sd else change default_relax_domain_level
      else change (relax_domain_level a)
  | None => if default_relax_domain_level <? 0 then sd else change default_relax_domain_level
  end.

(** [init] is what [tl->init] stores into the domain of the processor, [mask] is [tl->mask]. *)
Definition build_sched_domain (tl : Z) (init : domain_node) (mask : list Z) (default_relax_domain_level : Z)
    (cpu_map : list Z) (attr : option sched_domain_attr) (below : option Z) (cpu : Z) : D Z :=
  s ← get;
  sdd ← deref (topology s !! tl);
  d ← deref (sdd_sd sdd !! cpu);
  _ ← set_node d (λ _, init <| private := tl |>);
  _ ← set_node d (set_domain_attribute default_relax_domain_level attr);
  _ ← set_node d (λ sd, sd <| node_span := filter (λ i, i ∈ mask) cpu_map |>);
  _ ← match below with
      | None => mret tt
      | Some c =>
          ch ← node_at c;
          let lv := s32 (level ch + 1) in
          _ ← set_node d (λ sd, sd <| level := lv |>);
          _ ← modify (λ s, s <| sched_domain_level_max ::= Z.max lv |>);
          set_node c (λ ch, ch <| parent := Some d |>)
      end;
  _ ← set_node d (λ sd, sd <| child := below |>);
  mret d.

(** ** The groups of a domain *)

(** The processor whose group is that of [cpu]. *)
Definition group_cpu (sdd : sd_data) (cpu : Z) : D Z :=
  d ← deref (sdd_sd sdd !! cpu);
  sd ← node_at d;
  match child sd with
  | None => mret cpu
  | Some c => ch ← node_at c; mret (first_of (node_span ch))
  end.

(** With a place for the group. *)
Definition get_group (sdd : sd_data) (cpu : Z) : D (Z * Z) :=
  cpu ← group_cpu sdd cpu;
  sg ← deref (sdd_sg sdd !! cpu);
  p ← deref (sdd_sgp sdd !! cpu);
  _ ← set_group sg (λ g, g <| node_sgp := Some p |>);
  _ ← set_power p (λ n, n <| power_ref := 1 |>);
  mret (cpu, sg).

(** The loop over [j]: the processors of the group. *)
Fixpoint fill_group (js : list Z) (sdd : sd_data) (group sg : Z) (covered : gset Z) : D (gset Z) :=
  match js with
  | [] => mret covered
  | j :: js' =>
      c ← group_cpu sdd j;
      if negb (c =? group) then fill_group js' sdd group sg covered
      else
        _ ← set_group sg (λ g, g <| node_cpus ::= union {[j]} |>);
        fill_group js' sdd group sg ({[j]} ∪ covered)
  end.

(** The body of the loop over [i] for a processor that is not covered: what is covered then. *)
Definition add_group (span : list Z) (sdd : sd_data) (group sg : Z) (covered : gset Z) (last : option Z) : D (gset Z) :=
  _ ← set_group sg (λ g, g <| node_cpus := ∅ |>);
  n ← group_at sg;
  p ← deref (node_sgp n);
  _ ← set_power p (λ n, n <| node_power := 0 |>);
  covered ← fill_group span sdd group sg covered;
  _ ← match last with
      | Some l => set_group l (λ g, g <| next := sg |>)
      | None => mret tt
      end;
  mret covered.

(** The loop over [i]: the first and the last group. *)
Fixpoint group_loop (is_ span : list Z) (sdd : sd_data) (covered : gset Z) (first last : option Z) : D (option Z * option Z) :=
  match is_ with
  | [] => mret (first, last)
  | i :: is' =>
      '(group, sg) ← get_group sdd i;
      if bool_decide (i ∈ covered) then group_loop is' span sdd covered first last
      else
        covered ← add_group span sdd group sg covered last;
        group_loop is' span sdd covered (match first with None => Some sg | Some f0 => Some f0 end) (Some sg)
  end.

Definition build_sched_groups (d cpu : Z) : D unit :=
  sd ← node_at d;
  s ← get;
  sdd ← deref (topology s !! private sd);
  '(_, sg) ← get_group sdd cpu;
  _ ← set_node d (λ sd, sd <| groups := Some sg |>);
  _ ← set_group sg (λ g, g <| node_ref := s32 (node_ref g + 1) |>);
  if negb (cpu =? first_of (node_span sd)) then mret tt
  else
    '(first, last) ← group_loop (node_span sd) (node_span sd) sdd ∅ None None;
    l ← deref last;
    f0 ← deref first;
    set_group l (λ g, g <| next := f0 |>).

(** ** Domains that do not contribute *)

(** [sd->groups == sd->groups->next]. *)
Definition one_group (sd : domain_node) : D bool :=
  g ← deref (groups sd);
  n ← group_at g;
  mret (next n =? g).

Definition needs_groups : Z :=
  Z.lor SD_LOAD_BALANCE (Z.lor SD_BALANCE_NEWIDLE (Z.lor SD_BALANCE_FORK (Z.lor SD_BALANCE_EXEC (Z.lor SD_SHARE_CPUPOWER SD_SHARE_PKG_RESOURCES)))).

Definition sd_degenerate (sd : domain_node) : D bool :=
  if (length (node_span sd) =? 1)%nat then mret true
  else
    more ← (if has_flag (node_flags sd) needs_groups then one ← one_group sd; mret (negb one) else mret false);
    if more : bool then mret false
    else mret (negb (has_flag (node_flags sd) SD_WAKE_AFFINE)).

(** [nr_node_ids] is the number of memory nodes. *)
Definition sd_parent_degenerate (nr_node_ids : Z) (sd up : domain_node) : D bool :=
  deg ← sd_degenerate up;
  if deg : bool then mret true
  else if negb (bool_decide (node_span sd = node_span up)) then mret false
  else
    one ← one_group up;
    let pflags := node_flags up in
    let pflags := if one : bool then
        let pflags := Z.land pflags (Z.lnot needs_groups) in
        if nr_node_ids =? 1 then Z.land pflags (Z.lnot SD_SERIALIZE) else pflags
      else pflags in
    mret (Z.land (Z.lnot (node_flags sd)) pflags =? 0).

Definition destroy_sched_domain (d : Z) : D unit := modify (λ s, s <| destroyed ::= cons d |>).

(** The loop of [cpu_attach_domain]; the fuel is the length of the chain. *)
Fixpoint drop_parents (fuel : nat) (nr_node_ids tmp : Z) : D unit :=
  match fuel with
  | O => fail OutOfFuel
  | S fuel' =>
      sd ← node_at tmp;
      match parent sd with
      | None => mret tt
      | Some p =>
          up ← node_at p;
          deg ← sd_parent_degenerate nr_node_ids sd up;
          if deg : bool then
            _ ← set_node tmp (λ sd, sd <| parent := parent up |>);
            _ ← match parent up with
                | Some pp => set_node pp (λ n, n <| child := Some tmp |>)
                | None => mret tt
                end;
            _ ← destroy_sched_domain p;
            drop_parents fuel' nr_node_ids tmp
          else drop_parents fuel' nr_node_ids p
      end
  end.

(** The base domain that is left. *)
Definition trim_domains (fuel : nat) (nr_node_ids : Z) (sd : option Z) : D (option Z) :=
  match sd with
  | None => mret None
  | Some d =>
      _ ← drop_parents fuel nr_node_ids d;
      n ← node_at d;
      deg ← sd_degenerate n;
      if deg : bool then
        _ ← destroy_sched_domain d;
        _ ← match parent n with
            | Some p => set_node p (λ up, up <| child := None |>)
            | None => mret tt
            end;
        mret (parent n)
      else mret (Some d)
  end.

(** ** The domain of the last level cache *)

(** The highest domain of the chain below the first one without the flag. *)
Fixpoint highest_flag (fuel : nat) (d : option Z) (flag : Z) (hsd : option Z) : D (option Z) :=
  match d with
  | None => mret hsd
  | Some d =>
      match fuel with
      | O => fail OutOfFuel
      | S fuel' =>
          sd ← node_at d;
          if negb (has_flag (node_flags sd) flag) then mret hsd
          else highest_flag fuel' (parent sd) flag (Some d)
      end
  end.

Definition highest_flag_domain (fuel : nat) (cpu flag : Z) : D (option Z) :=
  s ← get; highest_flag fuel (cpu_sd s !! cpu) flag None.

Definition update_top_cache_domain (fuel : nat) (cpu : Z) : D unit :=
  sd ← highest_flag_domain fuel cpu SD_SHARE_PKG_RESOURCES;
  id ← match sd with
       | Some d => n ← node_at d; mret (first_of (node_span n))
       | None => mret cpu
       end;
  _ ← modify (λ s, s <| top_cache ::= match sd with Some d => <[cpu := d]> | None => delete cpu end |>);
  modify (λ s, s <| top_cache_id ::= <[cpu := id]> |>).
End Domains.
