(* ===== verification/DomainsSpec.v ===== *)
(** * Domains and groups: what is built

    The ring of groups of a domain partitions its processors; of the chain of domains of a
    processor only those that contribute remain. *)

From S2P Require Import Prelude Balance Domains.

Section RingSpec.
Implicit Types (s : dom_state) (span : list Z).

(** ** Running the accessors *)

Lemma node_at_run s d n : nodes s !! d = Some n → node_at d s = Ok n s.
Proof. intros E. unfold node_at. mstep. by rewrite E. Qed.

Lemma group_at_run s g n : rings s !! g = Some n → group_at g s = Ok n s.
Proof. intros E. unfold group_at. mstep. by rewrite E. Qed.

Lemma set_node_run s d n u : nodes s !! d = Some n → set_node d u s = Ok tt (s <| nodes ::= <[d := u n]> |>).
Proof. intros E. unfold set_node, mbind, M_bind. by rewrite (node_at_run s d n E). Qed.

Lemma set_group_run s g n u : rings s !! g = Some n → set_group g u s = Ok tt (s <| rings ::= <[g := u n]> |>).
Proof. intros E. unfold set_group, mbind, M_bind. by rewrite (group_at_run s g n E). Qed.

Lemma set_power_run s p n u : sgps s !! p = Some n → set_power p u s = Ok tt (s <| sgps ::= <[p := u n]> |>).
Proof. intros E. unfold set_power. mstep. by rewrite E. Qed.

(** ** The group of a processor *)

(** What [group_cpu] reads. *)
Definition representative s (sdd : sd_data) (i : Z) : option Z :=
  d ← sdd_sd sdd !! i; sd ← nodes s !! d;
  match child sd with
  | None => Some i
  | Some c => ch ← nodes s !! c; Some (first_of (node_span ch))
  end.

Lemma group_cpu_run s sdd i r : representative s sdd i = Some r → group_cpu sdd i s = Ok r s.
Proof.
  unfold representative, group_cpu. intros E. apply bind_Some in E as (d & Ed & E). apply bind_Some in E as (sd & En & E).
  rewrite Ed. unfold mbind, M_bind. unfold deref at 1. unfold mret at 1, M_ret at 1. rewrite (node_at_run s d sd En).
  destruct (child sd) as [c|]; [|by simplify_eq]. apply bind_Some in E as (ch & Ec & E). rewrite (node_at_run s c ch Ec). by simplify_eq.
Qed.

(** Two states with the same domains. *)
Lemma representative_agree s s' sdd i : nodes s' = nodes s → representative s' sdd i = representative s sdd i.
Proof. intros E. unfold representative. by rewrite E. Qed.

(** The objects of the level are there: every processor of the span has a representative
    with a group and a power of its own. *)
Record level_ready s (sdd : sd_data) span (rep sg_of : Z → Z) : Prop := {
  lr_rep i : i ∈ span → representative s sdd i = Some (rep i);
  lr_group i : i ∈ span → sdd_sg sdd !! rep i = Some (sg_of (rep i)) ∧ is_Some (rings s !! sg_of (rep i));
  lr_power i : i ∈ span → ∃ p, sdd_sgp sdd !! rep i = Some p ∧ is_Some (sgps s !! p);
  lr_inj i j : i ∈ span → j ∈ span → sg_of (rep i) = sg_of (rep j) → rep i = rep j
}.

(** The same domains, and at least the same groups and powers. *)
Definition grown s s' : Prop :=
  nodes s' = nodes s ∧ topology s' = topology s ∧
  (∀ g, is_Some (rings s !! g) → is_Some (rings s' !! g)) ∧ (∀ p, is_Some (sgps s !! p) → is_Some (sgps s' !! p)).

Lemma grown_refl s : grown s s.
Proof. by split_and!. Qed.

Lemma grown_trans s1 s2 s3 : grown s1 s2 → grown s2 s3 → grown s1 s3.
Proof. intros (H1 & H2 & H3 & H4) (K1 & K2 & K3 & K4). split_and!; [congruence|congruence|auto|auto]. Qed.

Lemma grown_ready s s' sdd span rep sg_of : grown s s' → level_ready s sdd span rep sg_of → level_ready s' sdd span rep sg_of.
Proof.
  intros (Hn & _ & Hr & Hp) [L1 L2 L3 L4]. split; [..|done].
  - intros i Hi. rewrite (representative_agree s s' sdd i Hn). by apply L1.
  - intros i Hi. destruct (L2 i Hi) as [E Hs]. auto.
  - intros i Hi. destruct (L3 i Hi) as (p & E & Hs). exists p. auto.
Qed.

Lemma grown_group s g n : grown s (s <| rings ::= <[g := n]> |>).
Proof. split_and!; try done. intros h Hh. simpl. destruct (decide (g = h)) as [-> |]; [rewrite lookup_insert_eq; by eexists|by rewrite lookup_insert_ne]. Qed.

Lemma grown_power s p n : grown s (s <| sgps ::= <[p := n]> |>).
Proof. split_and!; try done. intros h Hh. simpl. destruct (decide (p = h)) as [-> |]; [rewrite lookup_insert_eq; by eexists|by rewrite lookup_insert_ne]. Qed.

(** ** One group *)

(** [g] alone may change, by the update of its members or of its place. *)
Definition others_same (gs : list Z) s s' : Prop := ∀ h, h ∉ gs → rings s' !! h = rings s !! h.

(** Processors and successor of a group. *)
Definition members s (g : Z) : gset Z := default ∅ (node_cpus <$> rings s !! g).
Definition successor s (g : Z) : option Z := next <$> rings s !! g.

Lemma members_insert s g n h :
  members (s <| rings ::= <[g := n]> |>) h = if decide (h = g) then node_cpus n else members s h.
Proof. unfold members. simpl. destruct (decide (h = g)) as [-> |]; [by rewrite lookup_insert_eq|by rewrite lookup_insert_ne]. Qed.

Lemma successor_insert s g n h :
  successor (s <| rings ::= <[g := n]> |>) h = if decide (h = g) then Some (next n) else successor s h.
Proof. unfold successor. simpl. destruct (decide (h = g)) as [-> |]; [by rewrite lookup_insert_eq|by rewrite lookup_insert_ne]. Qed.

Lemma get_group_run s sdd span rep sg_of i :
  level_ready s sdd span rep sg_of → i ∈ span →
  ∃ s' n p, get_group sdd i s = Ok (rep i, sg_of (rep i)) s' ∧ grown s s' ∧
    rings s' !! sg_of (rep i) = Some n ∧ node_sgp n = Some p ∧ is_Some (sgps s' !! p) ∧
    (∀ g, members s' g = members s g ∧ successor s' g = successor s g).
Proof.
  intros [L1 L2 L3 L4] Hi. destruct (L2 i Hi) as [Eg [n En]]. destruct (L3 i Hi) as (p & Ep & [q Eq]).
  unfold get_group, mbind, M_bind. rewrite (group_cpu_run s sdd i (rep i) (L1 i Hi)), Eg. unfold deref at 1. unfold mret at 1, M_ret at 1.
  rewrite Ep. unfold deref at 1. unfold mret at 1, M_ret at 1. rewrite (set_group_run s _ n _ En).
  set (s1 := s <| rings ::= _ |>). rewrite (set_power_run s1 p q) by done. set (s2 := s1 <| sgps ::= _ |>).
  exists s2, (n <| node_sgp := Some p |>), p. split_and!; try done.
  - eapply grown_trans; [apply grown_group|apply grown_power].
  - apply lookup_insert_eq.
  - subst s2. simpl. rewrite lookup_insert_eq. by eexists.
  - intros g. unfold members, successor, s2, s1. simpl. destruct (decide (sg_of (rep i) = g)) as [<- |Hne].
    + by rewrite lookup_insert_eq, En.
    + by rewrite lookup_insert_ne.
Qed.

(** The processors of the list that have the representative [r]. *)
Definition class_of (rep : Z → Z) (r : Z) (js : list Z) : gset Z := list_to_set (filter (λ j, rep j = r) js).

Lemma fill_group_run sdd span rep sg_of r g : ∀ js s covered,
  level_ready s sdd span rep sg_of → (∀ j, j ∈ js → j ∈ span) → is_Some (rings s !! g) →
  ∃ s', fill_group js sdd r g covered s = Ok (class_of rep r js ∪ covered) s' ∧ grown s s' ∧
    members s' g = class_of rep r js ∪ members s g ∧ (∀ h, successor s' h = successor s h) ∧ others_same [g] s s'.
Proof.
  induction js as [|j js IH]; intros s covered L Hjs Hg.
  { exists s. unfold class_of. simpl. rewrite !(left_id_L ∅ (∪)). by split_and!. }
  assert (Hj : j ∈ span) by (apply Hjs; left). assert (Hjs' : ∀ k, k ∈ js → k ∈ span) by (intros k Hk; apply Hjs; by right).
  cbn [fill_group]. unfold mbind, M_bind. rewrite (group_cpu_run s sdd j (rep j) (lr_rep _ _ _ _ _ L j Hj)).
  destruct (Z.eqb_spec (rep j) r) as [Er|Hne]; cbn [negb].
  2: { destruct (IH s covered L Hjs' Hg) as (s' & E & Hrest). exists s'.
       assert (Ec : class_of rep r (j :: js) = class_of rep r js) by (unfold class_of; by rewrite filter_cons_False).
       by rewrite Ec. }
  destruct Hg as [n En]. rewrite (set_group_run s g n _ En). set (s1 := s <| rings ::= _ |>).
  assert (G : grown s s1) by apply grown_group.
  destruct (IH s1 ({[j]} ∪ covered) (grown_ready _ _ _ _ _ _ G L) Hjs') as (s' & -> & G' & Hm & Hn & Ho).
  { subst s1. simpl. rewrite lookup_insert_eq. by eexists. }
  assert (Ec : class_of rep r (j :: js) = {[j]} ∪ class_of rep r js) by (unfold class_of; by rewrite filter_cons_True).
  assert (Hm1 : members s1 g = {[j]} ∪ members s g) by (unfold members, s1; simpl; by rewrite lookup_insert_eq, En).
  assert (Hn1 : ∀ h, successor s1 h = successor s h).
  { intros h. unfold successor, s1. simpl. destruct (decide (g = h)) as [<- |]; [by rewrite lookup_insert_eq, En|by rewrite lookup_insert_ne]. }
  exists s'. rewrite Ec. split_and!.
  - f_equal. set_solver.
  - by eapply grown_trans.
  - rewrite Hm, Hm1. set_solver.
  - intros h. by rewrite Hn.
  - intros h Hh. rewrite (Ho h Hh). subst s1. simpl. apply lookup_insert_ne. set_solver.
Qed.

(** ** The ring *)

Section Ring.
Context (sdd : sd_data) (span : list Z) (rep sg_of : Z → Z).

(** The groups of the representatives [R] so far. *)
Record built s (R : list Z) (covered : gset Z) (first last : option Z) : Prop := {
  bu_nodup : NoDup R;
  bu_from r : r ∈ R → ∃ i, i ∈ span ∧ rep i = r;
  bu_covered j : j ∈ span → j ∈ covered ↔ rep j ∈ R;
  bu_members r : r ∈ R → members s (sg_of r) = class_of rep r span;
  bu_first : first = sg_of <$> head R;
  bu_last : last = sg_of <$> list.last R;
  bu_links k a b : R !! k = Some a → R !! S k = Some b → successor s (sg_of a) = Some (sg_of b)
}.

(** The members and successors of the groups are what counts. *)
Lemma built_same s s' R covered first last :
  (∀ r, r ∈ R → members s' (sg_of r) = members s (sg_of r) ∧ successor s' (sg_of r) = successor s (sg_of r)) →
  built s R covered first last → built s' R covered first last.
Proof.
  intros Hs [B1 B2 B3 B4 B5 B6 B7]. split; try done.
  - intros r Hr. destruct (Hs r Hr) as [-> _]. by apply B4.
  - intros k a b Ha Hb. destruct (Hs a (list_elem_of_lookup_2 _ _ _ Ha)) as [_ ->]. by eapply B7.
Qed.

Lemma class_covered s R covered first last r :
  built s R covered first last → ∀ j, j ∈ span → j ∈ class_of rep r span ∪ covered ↔ rep j ∈ R ++ [r].
Proof.
  intros B j Hj. unfold class_of. rewrite elem_of_union, elem_of_list_to_set, list_elem_of_filter, elem_of_app, list_elem_of_singleton.
  rewrite (bu_covered _ _ _ _ _ B j Hj). naive_solver.
Qed.

(** A new group: its members are filled in and the last group is linked to it. *)
Lemma built_new s s' R covered first last r i :
  built s R covered first last → i ∈ span → rep i = r → r ∉ R →
  members s' (sg_of r) = class_of rep r span →
  (∀ q, q ∈ R → members s' (sg_of q) = members s (sg_of q)) →
  (∀ q, q ∈ R → successor s' (sg_of q) = if decide (list.last R = Some q) then Some (sg_of r) else successor s (sg_of q)) →
  built s' (R ++ [r]) (class_of rep r span ∪ covered) (match first with None => Some (sg_of r) | Some f0 => Some f0 end) (Some (sg_of r)).
Proof.
  intros B Hi Hr Hn Hm Hmo Hs. pose proof (class_covered s R covered first last r B) as Hcov.
  destruct B as [B1 B2 B3 B4 B5 B6 B7]. split.
  - apply NoDup_app. split_and!; [done| |by apply NoDup_singleton]. intros q Hq ->%list_elem_of_singleton. done.
  - intros q [Hq| ->%list_elem_of_singleton]%elem_of_app; [by apply B2|by exists i].
  - exact Hcov.
  - intros q [Hq| ->%list_elem_of_singleton]%elem_of_app; [|done]. rewrite (Hmo q Hq). by apply B4.
  - rewrite B5. by destruct R.
  - by rewrite last_snoc.
  - intros k a b Ha Hb.
    assert (Hk : (S k < length (R ++ [r]))%nat) by (by eapply lookup_lt_Some). rewrite length_app in Hk. simpl in Hk.
    rewrite lookup_app_l in Ha by lia. pose proof (list_elem_of_lookup_2 _ _ _ Ha) as Hin. rewrite (Hs a Hin).
    destruct (decide (S k = length R)) as [El|Hl].
    + assert (Eb : b = r) by (rewrite El, list_lookup_middle in Hb by done; by simplify_eq). subst b.
      rewrite decide_True; [done|]. rewrite last_lookup, <- El. exact Ha.
    + rewrite lookup_app_l in Hb by lia. rewrite decide_False; [by eapply B7|]. rewrite last_lookup. intros El.
      assert (pred (length R) = k); [|lia]. by eapply NoDup_lookup.
Qed.

(** The groups of other representatives are other groups. *)
Lemma other_group s s0 R covered first last i q :
  level_ready s0 sdd span rep sg_of → built s R covered first last → i ∈ span → rep i ∉ R → q ∈ R → sg_of q ≠ sg_of (rep i).
Proof.
  intros L B Hi Hn Hq E. destruct (bu_from _ _ _ _ _ B q Hq) as (j & Hj & <-).
  apply Hn. by rewrite <- (lr_inj _ _ _ _ _ L j i Hj Hi E).
Qed.

(** Linking the last group to the new one. *)
Lemma link_last_run s R covered first last g :
  built s R covered first last → (∀ q, q ∈ R → is_Some (rings s !! sg_of q)) →
  (∀ p q, p ∈ R → q ∈ R → sg_of p = sg_of q → p = q) →
  ∃ s', match last with Some l => set_group l (λ n, n <| next := g |>) | None => mret tt end s = Ok tt s' ∧ grown s s' ∧
    (∀ h, members s' h = members s h) ∧
    (∀ q, q ∈ R → successor s' (sg_of q) = if decide (list.last R = Some q) then Some g else successor s (sg_of q)).
Proof.
  intros B Hk Hinj. destruct last as [l|].
  2: { exists s. split_and!; try done. intros q Hq. pose proof (bu_last _ _ _ _ _ B) as Hl.
       destruct (list.last R) as [x|] eqn:Ex; [done|]. by rewrite decide_False. }
  pose proof (bu_last _ _ _ _ _ B) as Hl. destruct (list.last R) as [x|] eqn:Ex; [|done]. simpl in Hl. simplify_eq.
  assert (Hx : x ∈ R) by (by apply last_Some_elem_of). destruct (Hk x Hx) as [n En]. rewrite (set_group_run s _ n _ En).
  eexists. split_and!; [reflexivity|apply grown_group| |].
  - intros h. rewrite members_insert. destruct (decide (h = sg_of x)) as [-> |]; [|done]. unfold members. by rewrite En.
  - intros q Hq. rewrite successor_insert. destruct (decide (sg_of q = sg_of x)) as [E|Hne].
    + rewrite (Hinj q x Hq Hx E). by rewrite decide_True.
    + rewrite decide_False; [done|]. intros [= ->]. done.
Qed.

Lemma add_group_run s R covered first last i n p :
  level_ready s sdd span rep sg_of → built s R covered first last → i ∈ span → rep i ∉ R →
  rings s !! sg_of (rep i) = Some n → node_sgp n = Some p → is_Some (sgps s !! p) →
  ∃ s', add_group span sdd (rep i) (sg_of (rep i)) covered last s = Ok (class_of rep (rep i) span ∪ covered) s' ∧ grown s s' ∧
    built s' (R ++ [rep i]) (class_of rep (rep i) span ∪ covered)
      (match first with None => Some (sg_of (rep i)) | Some f0 => Some f0 end) (Some (sg_of (rep i))).
Proof.
  intros L B Hi Hn En Esg [q Eq].
  assert (Hother : ∀ r, r ∈ R → sg_of r ≠ sg_of (rep i)) by (intros r Hr; by eapply (other_group s s)).
  unfold add_group, mbind, M_bind. set (g := sg_of (rep i)) in *. rewrite (set_group_run s g n _ En). set (s2 := s <| rings ::= _ |>).
  assert (E2 : rings s2 !! g = Some (n <| node_cpus := ∅ |>)) by apply lookup_insert_eq.
  rewrite (group_at_run s2 g _ E2). change (node_sgp (n <| node_cpus := ∅ |>)) with (node_sgp n). rewrite Esg.
  unfold deref at 1. unfold mret at 1, M_ret at 1. rewrite (set_power_run s2 p q _ Eq). set (s3 := s2 <| sgps ::= _ |>).
  assert (G3 : grown s s3) by (eapply grown_trans; [apply grown_group|apply grown_power]).
  destruct (fill_group_run sdd span rep sg_of (rep i) g span s3 covered (grown_ready _ _ _ _ _ _ G3 L)) as (s4 & -> & G4 & Hm4 & Hs4 & Ho4);
    [done|change (rings s3) with (rings s2); rewrite E2; by eexists|].
  assert (Hmem3 : ∀ h, members s3 h = if decide (h = g) then ∅ else members s h) by (intros h; apply members_insert).
  assert (Hsuc3 : ∀ h, successor s3 h = successor s h).
  { intros h. change (successor s3 h) with (successor s2 h). unfold s2. rewrite successor_insert.
    destruct (decide (h = g)) as [-> |]; [|done]. unfold successor. by rewrite En. }
  assert (B4 : built s4 R covered first last).
  { eapply built_same; [|exact B]. intros r Hr. split; [|by rewrite Hs4, Hsuc3].
    specialize (Hmem3 (sg_of r)). rewrite decide_False in Hmem3 by (by apply Hother). rewrite <- Hmem3.
    unfold members. rewrite Ho4; [done|]. rewrite list_elem_of_singleton. by apply Hother. }
  pose proof (grown_trans _ _ _ G3 G4) as G. pose proof (grown_ready _ _ _ _ _ _ G L) as L4.
  destruct (link_last_run s4 R covered first last g B4) as (s5 & -> & G5 & Hm5 & Hs5).
  { intros r Hr. destruct (bu_from _ _ _ _ _ B r Hr) as (j & Hj & <-). by apply (lr_group _ _ _ _ _ L4 j Hj). }
  { intros a b Ha Hb E. destruct (bu_from _ _ _ _ _ B a Ha) as (j & Hj & <-). destruct (bu_from _ _ _ _ _ B b Hb) as (k & Hk & <-).
    by apply (lr_inj _ _ _ _ _ L j k Hj Hk). }
  exists s5. split_and!; [done|by eapply grown_trans|].
  apply (built_new s4 s5 R covered first last (rep i) i B4 Hi eq_refl Hn); [|intros; apply Hm5|exact Hs5].
  fold g. rewrite Hm5, Hm4, Hmem3, decide_True by done. apply (right_id_L ∅ (∪)).
Qed.

Lemma group_loop_run : ∀ is_ s R covered first last,
  level_ready s sdd span rep sg_of → (∀ i, i ∈ is_ → i ∈ span) → built s R covered first last →
  ∃ s' R' covered', group_loop is_ span sdd covered first last s = Ok (sg_of <$> head R', sg_of <$> list.last R') s' ∧ grown s s' ∧
    built s' R' covered' (sg_of <$> head R') (sg_of <$> list.last R') ∧ (∀ i, i ∈ is_ → rep i ∈ R') ∧ (∀ r, r ∈ R → r ∈ R').
Proof.
  induction is_ as [|i is_ IH]; intros s R covered first last L His B.
  { exists s, R, covered. cbn [group_loop]. pose proof (bu_first _ _ _ _ _ B) as <-. pose proof (bu_last _ _ _ _ _ B) as <-.
    split_and!; try done. intros i Hi. by apply not_elem_of_nil in Hi. }
  assert (Hi : i ∈ span) by (apply His; left). assert (His' : ∀ k, k ∈ is_ → k ∈ span) by (intros k Hk; apply His; by right).
  destruct (get_group_run s sdd span rep sg_of i L Hi) as (s1 & n & p & E1 & G1 & En & Esg & Hq & Hsame).
  cbn [group_loop]. unfold mbind, M_bind. rewrite E1. pose proof (grown_ready _ _ _ _ _ _ G1 L) as L1.
  assert (B1 : built s1 R covered first last) by (eapply built_same; [|exact B]; intros r Hr; by apply Hsame).
  destruct (bool_decide_reflect (i ∈ covered)) as [Hc|Hc].
  { destruct (IH s1 R covered first last L1 His' B1) as (s' & R' & cov' & E & G & B' & H1 & H2). exists s', R', cov'.
    split_and!; [done|by eapply grown_trans|done| |done]. intros k [-> |Hk]%elem_of_cons; [|by apply H1].
    apply H2. by apply (bu_covered _ _ _ _ _ B i Hi). }
  assert (Hn : rep i ∉ R) by (by rewrite <- (bu_covered _ _ _ _ _ B i Hi)).
  destruct (add_group_run s1 R covered first last i n p L1 B1 Hi Hn En Esg Hq) as (s2 & -> & G2 & B2).
  destruct (IH s2 _ _ _ _ (grown_ready _ _ _ _ _ _ G2 L1) His' B2) as (s' & R' & cov' & E & G' & B' & H1 & H2).
  exists s', R', cov'. split_and!; [exact E| |exact B'| |].
  - eapply grown_trans; [exact G1|]. by eapply grown_trans.
  - intros k [-> |Hk]%elem_of_cons; [|by apply H1]. apply H2, elem_of_app. right. by apply list_elem_of_singleton.
  - intros r Hr. apply H2, elem_of_app. by left.
Qed.
End Ring.

(** ** The groups of a domain *)

(** The groups form a ring in this order. *)
Definition ring s (gs : list Z) : Prop :=
  gs ≠ [] ∧ NoDup gs ∧ ∀ k g, gs !! k = Some g → ∃ h, successor s g = Some h ∧
    if decide (S k = length gs) then gs !! 0%nat = Some h else gs !! S k = Some h.

(** Every processor of the span is in exactly one of the groups, and no other is. *)
Definition partition_of s span (gs : list Z) : Prop :=
  (∀ g, g ∈ gs → (∃ i, i ∈ members s g) ∧ ∀ i, i ∈ members s g → i ∈ span) ∧
  (∀ i, i ∈ span → ∃ g, g ∈ gs ∧ i ∈ members s g ∧ ∀ h, h ∈ gs → i ∈ members s h → h = g).

Lemma representative_groups s sdd d sd g i :
  nodes s !! d = Some sd → representative (s <| nodes ::= <[d := sd <| groups := g |>]> |>) sdd i = representative s sdd i.
Proof.
  intros Ed. unfold representative. destruct (sdd_sd sdd !! i) as [e|]; [|done]. simpl.
  assert (Hl : ∀ c, (∃ n n', nodes s !! c = Some n ∧ <[d := sd <| groups := g |>]> (nodes s) !! c = Some n' ∧
                       child n' = child n ∧ node_span n' = node_span n) ∨
                    (nodes s !! c = None ∧ <[d := sd <| groups := g |>]> (nodes s) !! c = None)).
  { intros c. destruct (decide (d = c)) as [<- |Hne].
    - left. exists sd, (sd <| groups := g |>). by rewrite lookup_insert_eq.
    - rewrite lookup_insert_ne by done. destruct (nodes s !! c) as [n|]; [left; by exists n, n|by right]. }
  destruct (Hl e) as [(n & n' & -> & -> & Ec & _)|[-> ->]]; [|done]. simpl. rewrite Ec. destruct (child n) as [c|]; [|done].
  destruct (Hl c) as [(m & m' & -> & -> & _ & Es)|[-> ->]]; [|done]. simpl. by rewrite Es.
Qed.

Lemma ready_groups s sdd span rep sg_of d sd g :
  nodes s !! d = Some sd → level_ready s sdd span rep sg_of →
  level_ready (s <| nodes ::= <[d := sd <| groups := g |>]> |>) sdd span rep sg_of.
Proof. intros Ed [L1 L2 L3 L4]. split; try done. intros i Hi. rewrite (representative_groups s sdd d sd g i Ed). by apply L1. Qed.

(** The first half: [sd->groups] is the group of the processor. *)
Lemma base_group_run s sdd span rep sg_of d sd cpu :
  nodes s !! d = Some sd → level_ready s sdd span rep sg_of → cpu ∈ span →
  ∃ s1 s2 s', get_group sdd cpu s = Ok (rep cpu, sg_of (rep cpu)) s1 ∧
    set_node d (λ sd, sd <| groups := Some (sg_of (rep cpu)) |>) s1 = Ok tt s2 ∧
    set_group (sg_of (rep cpu)) (λ g, g <| node_ref := s32 (node_ref g + 1) |>) s2 = Ok tt s' ∧
    level_ready s' sdd span rep sg_of ∧ nodes s' !! d = Some (sd <| groups := Some (sg_of (rep cpu)) |>) ∧
    ∀ g, members s' g = members s g ∧ successor s' g = successor s g.
Proof.
  intros Ed L Hc. destruct (get_group_run s sdd span rep sg_of cpu L Hc) as (s1 & n & p & E1 & G1 & En & _ & _ & Hsame).
  pose proof (grown_ready _ _ _ _ _ _ G1 L) as L1. destruct G1 as (Gn & _).
  assert (Ed1 : nodes s1 !! d = Some sd) by (by rewrite Gn). set (s2 := s1 <| nodes ::= <[d := sd <| groups := Some (sg_of (rep cpu)) |>]> |>).
  assert (L2 : level_ready s2 sdd span rep sg_of) by (by apply ready_groups). exists s1, s2. eexists.
  split_and!; [done|exact (set_node_run s1 d sd _ Ed1)|exact (set_group_run s2 _ n _ En)| |apply lookup_insert_eq|].
  { eapply grown_ready; [apply grown_group|exact L2]. }
  intros g. rewrite members_insert, successor_insert. destruct (decide (g = sg_of (rep cpu))) as [-> |]; [|apply Hsame].
  destruct (Hsame (sg_of (rep cpu))) as [<- <-]. unfold members, successor. by rewrite En.
Qed.

(** The last group is linked to the first. *)
Lemma close_ring_run sdd span rep sg_of s R covered first last l f0 :
  level_ready s sdd span rep sg_of → built span rep sg_of s R covered first last → list.last R = Some l → head R = Some f0 →
  ∃ s', set_group (sg_of l) (λ g, g <| next := sg_of f0 |>) s = Ok tt s' ∧ nodes s' = nodes s ∧
    (∀ g, members s' g = members s g) ∧ ring s' (sg_of <$> R).
Proof.
  intros L B El Ef.
  assert (Hinj : ∀ a b, a ∈ R → b ∈ R → sg_of a = sg_of b → a = b).
  { intros a b Ha Hb E. destruct (bu_from _ _ _ _ _ _ _ _ B a Ha) as (j & Hj & <-). destruct (bu_from _ _ _ _ _ _ _ _ B b Hb) as (k & Hk & <-).
    by apply (lr_inj _ _ _ _ _ L j k Hj Hk). }
  assert (Hl : l ∈ R) by (by apply last_Some_elem_of).
  destruct (bu_from _ _ _ _ _ _ _ _ B l Hl) as (i & Hi & <-). destruct (lr_group _ _ _ _ _ L i Hi) as [_ [n En]].
  rewrite (set_group_run s _ n _ En). eexists. split_and!; [reflexivity|done| |].
  { intros g. rewrite members_insert. destruct (decide (g = sg_of (rep i))) as [-> |]; [|done]. unfold members. by rewrite En. }
  split; [by destruct R|]. split; [apply NoDup_fmap_2_strong; [done|apply B]|].
  intros k g Hg. apply list_lookup_fmap_Some in Hg as (a & -> & Ha). rewrite successor_insert, length_fmap.
  pose proof (list_elem_of_lookup_2 _ _ _ Ha) as Hin. pose proof (lookup_lt_Some _ _ _ Ha) as Hlt.
  rewrite last_lookup in El. destruct (decide (S k = length R)) as [Ek|Ek].
  - assert (a = rep i) as -> by (rewrite <- Ek in El; simpl in El; congruence). rewrite decide_True by done.
    exists (sg_of f0). split; [done|]. rewrite list_lookup_fmap. destruct R; [done|]. by simplify_eq/=.
  - destruct (lookup_lt_is_Some_2 R (S k)) as [b Hb]; [lia|]. rewrite decide_False.
    + exists (sg_of b). split; [by eapply (bu_links _ _ _ _ _ _ _ _ B)|]. by rewrite list_lookup_fmap, Hb.
    + intros E. assert (a = rep i) as -> by (by apply Hinj).
      assert (pred (length R) = k); [|lia]. eapply NoDup_lookup; [apply B|exact El|exact Ha].
Qed.

Lemma built_partition sdd span rep sg_of s s' R covered first last :
  level_ready s sdd span rep sg_of → built span rep sg_of s R covered first last → (∀ i, i ∈ span → rep i ∈ R) →
  (∀ g, members s' g = members s g) → partition_of s' span (sg_of <$> R) ∧ ∀ i, i ∈ span → i ∈ members s' (sg_of (rep i)).
Proof.
  intros L B Hall Hm.
  assert (Hmem : ∀ r i, r ∈ R → i ∈ members s' (sg_of r) ↔ i ∈ span ∧ rep i = r).
  { intros r i Hr. rewrite Hm, (bu_members _ _ _ _ _ _ _ _ B r Hr). unfold class_of. rewrite elem_of_list_to_set, list_elem_of_filter. tauto. }
  split; [split|].
  - intros g Hg. apply list_elem_of_fmap in Hg as (r & -> & Hr). split.
    + destruct (bu_from _ _ _ _ _ _ _ _ B r Hr) as (i & Hi & Ei). exists i. by apply Hmem.
    + intros i Hi. by apply Hmem in Hi as [? _].
  - intros i Hi. exists (sg_of (rep i)). split_and!; [apply list_elem_of_fmap_2; by apply Hall|apply Hmem; [by apply Hall|done]|].
    intros h Hh Hih. apply list_elem_of_fmap in Hh as (r & -> & Hr). apply Hmem in Hih as [_ <-]; done.
  - intros i Hi. apply Hmem; [by apply Hall|done].
Qed.

(** C30. [build_sched_groups], called for the first processor of a domain whose level is
    set up, builds the ring of its groups: every processor of the domain is in exactly one
    group of the ring, the group of its representative, the first processor of its domain
    below; the groups are not empty and hold no others, and the domain points to the group
    of its processor.  Called for another processor, it
    only sets that pointer and leaves the ring alone. *)
Theorem build_sched_groups_partition s d sd sdd cpu rep sg_of :
  nodes s !! d = Some sd → topology s !! private sd = Some sdd → level_ready s sdd (node_span sd) rep sg_of →
  cpu ∈ node_span sd →
  ∃ s', build_sched_groups d cpu s = Ok tt s' ∧ nodes s' !! d = Some (sd <| groups := Some (sg_of (rep cpu)) |>) ∧
    if decide (cpu = first_of (node_span sd)) then
      ∃ gs, ring s' gs ∧ partition_of s' (node_span sd) gs ∧ sg_of (rep cpu) ∈ gs ∧
        ∀ i, i ∈ node_span sd → i ∈ members s' (sg_of (rep i))
    else ∀ g, members s' g = members s g ∧ successor s' g = successor s g.
Proof.
  intros Ed Et L Hc. unfold build_sched_groups, mbind, M_bind. rewrite (node_at_run s d sd Ed). unfold get. rewrite Et.
  unfold deref at 1. unfold mret at 1, M_ret at 1.
  destruct (base_group_run s sdd (node_span sd) rep sg_of d sd cpu Ed L Hc) as (s1 & s2 & s3 & -> & -> & -> & L3 & Ed3 & Hsame).
  destruct (decide (cpu = first_of (node_span sd))) as [Ef|Hf].
  2: { destruct (Z.eqb_spec cpu (first_of (node_span sd))); [done|]. cbn [negb]. by exists s3. }
  rewrite <- Ef, Z.eqb_refl. cbn [negb].
  destruct (group_loop_run sdd (node_span sd) rep sg_of (node_span sd) s3 [] ∅ None None L3) as (s4 & R & cov & -> & G & B & Hall & _).
  { done. }
  { split; try done; [by apply NoDup_nil|intros r Hr; by apply not_elem_of_nil in Hr|set_solver|intros r Hr; by apply not_elem_of_nil in Hr]. }
  pose proof (Hall cpu Hc) as Hrc. destruct (list.last R) as [l|] eqn:El; [|apply last_None in El as ->; by apply not_elem_of_nil in Hrc].
  destruct (head R) as [f0|] eqn:Eh; [|destruct R; [by apply not_elem_of_nil in Hrc|done]]. simpl.
  pose proof (grown_ready _ _ _ _ _ _ G L3) as L4.
  destruct (close_ring_run sdd _ rep sg_of s4 R cov _ _ l f0 L4 B El Eh) as (s5 & E5 & Hn5 & Hm5 & Hring).
  exists s5. split; [exact E5|]. split; [destruct G as (Gn & _); by rewrite Hn5, Gn|].
  destruct (built_partition sdd _ rep sg_of s4 s5 R cov _ _ L4 B Hall Hm5) as [Hpart Hin].
  exists (sg_of <$> R). split_and!; [done|done|by apply list_elem_of_fmap_2|done].
Qed.
End RingSpec.

(** ** Domains that contribute *)

Section TrimSpec.
Variable nr_node_ids : Z.
Implicit Types (s : dom_state).

(** Whether the domain has one group. *)
Definition single s (n : domain_node) : bool :=
  match groups n ≫= λ g, rings s !! g ≫= λ m, Some (next m =? g) with Some b => b | None => false end.

Definition degenerate s (n : domain_node) : bool :=
  (length (node_span n) =? 1)%nat ||
  (negb (has_flag (node_flags n) needs_groups && negb (single s n)) && negb (has_flag (node_flags n) SD_WAKE_AFFINE)).

(** The flags of the parent that count. *)
Definition useful_flags s (up : domain_node) : Z :=
  if single s up then
    let fl := Z.land (node_flags up) (Z.lnot needs_groups) in
    if nr_node_ids =? 1 then Z.land fl (Z.lnot SD_SERIALIZE) else fl
  else node_flags up.

(** The parent adds nothing: it is degenerate, or has the same span and no useful flag
    that is not a flag of the domain. *)
Definition superfluous s (n up : domain_node) : bool :=
  degenerate s up ||
  (bool_decide (node_span n = node_span up) && (Z.land (Z.lnot (node_flags n)) (useful_flags s up) =? 0)).

Definition has_ring s (n : domain_node) : Prop := ∃ g m, groups n = Some g ∧ rings s !! g = Some m.

Lemma one_group_run s n : has_ring s n → one_group n s = Ok (single s n) s.
Proof.
  intros (g & m & Eg & Em). unfold one_group, single. rewrite Eg. unfold mbind, M_bind. unfold deref at 1. unfold mret at 1, M_ret at 1.
  rewrite (group_at_run s g m Em). simpl. by rewrite Em.
Qed.

Lemma sd_degenerate_run s n : has_ring s n → sd_degenerate n s = Ok (degenerate s n) s.
Proof.
  intros Hr. unfold sd_degenerate, degenerate. destruct (_ =? 1)%nat; [done|]. unfold mbind, M_bind.
  destruct (has_flag (node_flags n) needs_groups); [|done]. rewrite (one_group_run s n Hr). by destruct (single s n).
Qed.

Lemma sd_parent_degenerate_run s n up : has_ring s up → sd_parent_degenerate nr_node_ids n up s = Ok (superfluous s n up) s.
Proof.
  intros Hr. unfold sd_parent_degenerate, superfluous, useful_flags, mbind, M_bind. rewrite (sd_degenerate_run s up Hr).
  destruct (degenerate s up); [done|]. destruct (bool_decide _); [|done]. cbn [negb]. by rewrite (one_group_run s up Hr).
Qed.

(** What the tests read of a domain. *)
Definition same_content (n n' : domain_node) : Prop :=
  node_flags n' = node_flags n ∧ node_span n' = node_span n ∧ groups n' = groups n.

Definition content_kept s s' : Prop :=
  rings s' = rings s ∧ ∀ d, match nodes s !! d, nodes s' !! d with Some n, Some n' => same_content n n' | None, None => True | _, _ => False end.

Lemma content_refl s : content_kept s s.
Proof. split; [done|]. intros d. by destruct (nodes s !! d). Qed.

Lemma content_trans s1 s2 s3 : content_kept s1 s2 → content_kept s2 s3 → content_kept s1 s3.
Proof.
  intros [R1 C1] [R2 C2]. split; [congruence|]. intros d. specialize (C1 d). specialize (C2 d).
  destruct (nodes s1 !! d), (nodes s2 !! d), (nodes s3 !! d); try done. destruct C1 as (? & ? & ?), C2 as (? & ? & ?). split_and!; congruence.
Qed.

Lemma content_insert s d n n' : nodes s !! d = Some n → same_content n n' → content_kept s (s <| nodes ::= <[d := n']> |>).
Proof.
  intros E Hs. split; [done|]. intros e. simpl. destruct (decide (d = e)) as [<- |Hne]; [by rewrite lookup_insert_eq, E|].
  rewrite lookup_insert_ne by done. by destruct (nodes s !! e).
Qed.

(** The tests on domains named by their addresses. *)
Definition degenerate_at s (d : Z) : bool := match nodes s !! d with Some n => degenerate s n | None => false end.
Definition superfluous_at s (d p : Z) : bool :=
  match nodes s !! d, nodes s !! p with Some n, Some up => superfluous s n up | _, _ => false end.

Lemma degenerate_same s s' n n' : rings s' = rings s → same_content n n' → degenerate s' n' = degenerate s n.
Proof. intros Er (E1 & E2 & E3). unfold degenerate, single. by rewrite Er, E1, E2, E3. Qed.

Lemma content_degenerate s s' d : content_kept s s' → degenerate_at s' d = degenerate_at s d.
Proof.
  intros [Er C]. specialize (C d). unfold degenerate_at. destruct (nodes s !! d), (nodes s' !! d); try done. by apply degenerate_same.
Qed.

Lemma content_superfluous s s' d p : content_kept s s' → superfluous_at s' d p = superfluous_at s d p.
Proof.
  intros [Er C]. pose proof (C d) as Cd. pose proof (C p) as Cp. unfold superfluous_at.
  destruct (nodes s !! d), (nodes s' !! d), (nodes s !! p), (nodes s' !! p); try done.
  unfold superfluous. rewrite (degenerate_same _ _ _ _ Er Cp). destruct Cd as (E1 & E2 & E3), Cp as (F1 & F2 & F3).
  unfold useful_flags, single. by rewrite Er, E1, E2, F1, F2, F3.
Qed.

(** ** The chain of domains *)

(** The domains [ds] from [o] up, each the child of the next; [below] is the child of the
    lowest. *)
Fixpoint linked s (below o : option Z) (ds : list Z) : Prop :=
  match ds with
  | [] => o = None
  | d :: ds' => o = Some d ∧ ∃ n, nodes s !! d = Some n ∧ child n = below ∧ linked s (Some d) (parent n) ds'
  end.

Lemma linked_frame s s' : ∀ ds below o, (∀ d, d ∈ ds → nodes s' !! d = nodes s !! d) → linked s below o ds → linked s' below o ds.
Proof.
  induction ds as [|d ds IH]; intros below o Hf Hl; [done|]. destruct Hl as [-> (n & En & Ec & Hl)]. split; [done|].
  exists n. split_and!; [by rewrite Hf by left|done|]. apply IH; [|done]. intros e He. apply Hf. by right.
Qed.

(** The chain without the parents that [q] finds superfluous, and those parents. *)
Fixpoint kept (q : Z → Z → bool) (d : Z) (ps : list Z) : list Z :=
  match ps with
  | [] => [d]
  | p :: ps' => if q d p then kept q d ps' else d :: kept q p ps'
  end.

Fixpoint dropped (q : Z → Z → bool) (d : Z) (ps : list Z) : list Z :=
  match ps with
  | [] => []
  | p :: ps' => if q d p then p :: dropped q d ps' else dropped q p ps'
  end.

Lemma kept_head q : ∀ ps d, ∃ rest, kept q d ps = d :: rest ∧ ∀ e, e ∈ rest → e ∈ ps.
Proof.
  induction ps as [|p ps IH]; intros d; cbn [kept]; [exists []; split; [done|]; intros e He; by apply not_elem_of_nil in He|].
  destruct (q d p).
  - destruct (IH d) as (rest & -> & Hr). exists rest. split; [done|]. intros e He. right. by apply Hr.
  - destruct (IH p) as (rest & -> & Hr). exists (p :: rest). split; [done|]. intros e [-> |He]%elem_of_cons; [left|right; by apply Hr].
Qed.

Lemma kept_ext q q' : (∀ d p, q d p = q' d p) → ∀ ps d, kept q d ps = kept q' d ps ∧ dropped q d ps = dropped q' d ps.
Proof.
  intros E. induction ps as [|p ps IH]; intros d; [done|]. cbn [kept dropped]. rewrite E. destruct (IH d), (IH p).
  destruct (q' d p); split; congruence.
Qed.

(** Nothing is lost. *)
Lemma kept_dropped q : ∀ ps d, kept q d ps ++ dropped q d ps ≡ₚ d :: ps.
Proof.
  induction ps as [|p ps IH]; intros d; cbn [kept dropped]; [done|]. destruct (q d p).
  - rewrite <- Permutation_middle, IH. apply perm_swap.
  - simpl. by rewrite IH.
Qed.

Definition rings_known s (ds : list Z) : Prop := ∀ d, d ∈ ds → ∃ n, nodes s !! d = Some n ∧ has_ring s n.

Lemma rings_kept s s' ds : content_kept s s' → rings_known s ds → rings_known s' ds.
Proof.
  intros [Er C] Hk d Hd. destruct (Hk d Hd) as (n & En & g & m & Eg & Em). specialize (C d). rewrite En in C.
  destruct (nodes s' !! d) as [n'|]; [|done]. exists n'. split; [done|]. destruct C as (_ & _ & Eg'). exists g, m. by rewrite Eg', Er.
Qed.

(** Taking the parent [p] out of the chain. *)
Lemma unlink_run s below d p ps n up :
  linked s below (Some d) (d :: p :: ps) → NoDup (d :: p :: ps) → nodes s !! d = Some n → nodes s !! p = Some up →
  ∃ s', (_ ← set_node d (λ sd, sd <| parent := parent up |>);
         _ ← match parent up with Some pp => set_node pp (λ m, m <| child := Some d |>) | None => mret tt end;
         destroy_sched_domain p) s = Ok tt s' ∧
    linked s' below (Some d) (d :: ps) ∧ content_kept s s' ∧ destroyed s' = p :: destroyed s ∧
    ∀ e, e ∉ d :: ps → nodes s' !! e = nodes s !! e.
Proof.
  intros Hl Hnd En Eup. destruct Hl as [_ (n' & En' & Ec & Hp & up' & Eup' & _ & Hps)].
  assert (n' = n) as -> by congruence. assert (up' = up) as -> by congruence.
  apply NoDup_cons in Hnd as [Hd Hnd]. apply NoDup_cons in Hnd as [Hpn Hnd]. rewrite not_elem_of_cons in Hd. destruct Hd as [Hdp Hd].
  unfold mbind, M_bind. rewrite (set_node_run s d n _ En). set (n1 := n <| parent := parent up |>).
  set (s1 := s <| nodes ::= <[d := n1]> |>). assert (Ed1 : nodes s1 !! d = Some n1) by apply lookup_insert_eq.
  assert (C1 : content_kept s s1) by (by eapply content_insert).
  destruct ps as [|pp ps].
  { rewrite Hps. eexists. split_and!; [reflexivity| |by destruct C1|done|].
    - split; [done|]. exists n1. by split_and!.
    - intros e He. simpl. apply lookup_insert_ne. set_solver. }
  destruct Hps as [Epp (m & Em & Ecm & Hps)]. rewrite Epp.
  assert (Hdpp : d ≠ pp) by set_solver. apply NoDup_cons in Hnd as [Hpp Hnd].
  assert (Em1 : nodes s1 !! pp = Some m) by (subst s1; simpl; by rewrite lookup_insert_ne).
  rewrite (set_node_run s1 pp m _ Em1). eexists. split_and!; [reflexivity| | |done|].
  - split; [done|]. exists n1. split_and!; [simpl; by rewrite lookup_insert_ne|done|].
    split; [exact Epp|]. exists (m <| child := Some d |>). split_and!; [simpl; apply lookup_insert_eq|done|].
    eapply linked_frame; [|exact Hps]. intros e He. simpl. rewrite !lookup_insert_ne; [done|set_solver|set_solver].
  - destruct (content_trans _ _ _ C1 (content_insert s1 pp m (m <| child := Some d |>) Em1 ltac:(done))) as [Cr Cn]. by split.
  - intros e He. simpl. rewrite !lookup_insert_ne; [done|set_solver|set_solver].
Qed.

Lemma drop_parents_run : ∀ ps s below d fuel,
  linked s below (Some d) (d :: ps) → NoDup (d :: ps) → rings_known s (d :: ps) → (length ps < fuel)%nat →
  ∃ s', drop_parents fuel nr_node_ids d s = Ok tt s' ∧ linked s' below (Some d) (kept (superfluous_at s) d ps) ∧
    content_kept s s' ∧ destroyed s' = rev (dropped (superfluous_at s) d ps) ++ destroyed s ∧
    ∀ e, e ∉ d :: ps → nodes s' !! e = nodes s !! e.
Proof.
  induction ps as [|p ps IH]; intros s below d fuel Hl Hnd Hk Hf; (destruct fuel as [|fuel]; [simpl in Hf; lia|]);
    pose proof Hl as [_ (n & En & Ec & Hp)]; cbn [drop_parents]; unfold mbind, M_bind; rewrite (node_at_run s d n En).
  { simpl in Hp. rewrite Hp. exists s. split_and!; [done|done|apply content_refl|done|done]. }
  pose proof Hp as [Epar (up & Eup & Ecu & Hps)]. rewrite Epar in Hp |- *. rewrite (node_at_run s p up Eup).
  destruct (Hk p ltac:(right; left)) as (up' & Eup' & Hr). assert (up' = up) as -> by congruence.
  rewrite (sd_parent_degenerate_run s n up Hr). cbn [kept dropped].
  assert (Eq : superfluous_at s d p = superfluous s n up) by (unfold superfluous_at; by rewrite En, Eup). rewrite Eq.
  apply NoDup_cons in Hnd as Hnd'. destruct Hnd' as [Hd Hnd1].
  destruct (superfluous s n up).
  - destruct (unlink_run s below d p ps n up Hl Hnd En Eup) as (s1 & E1 & Hl1 & C1 & Hdes & Hfr).
    unfold mbind, M_bind in E1. simpl in Hf.
    destruct (IH s1 below d fuel Hl1) as (s' & E' & Hl' & C' & Hdes' & Hfr').
    { apply NoDup_cons. apply NoDup_cons in Hnd1 as [_ Hnd1]. split; [set_solver|done]. }
    { eapply rings_kept; [exact C1|]. intros e He. apply Hk. set_solver. }
    { lia. }
    destruct (kept_ext (superfluous_at s1) (superfluous_at s) ltac:(intros; by apply content_superfluous) ps d) as [Ek Ed].
    rewrite Ek in Hl'. rewrite Ed in Hdes'. exists s'. split_and!; [|done|by eapply content_trans| |].
    + repeat case_match; simplify_eq; done.
    + rewrite Hdes', Hdes. simpl. by rewrite <- app_assoc.
    + intros e He. rewrite Hfr', Hfr; [done|set_solver|set_solver].
  - destruct (IH s (Some d) p fuel Hp Hnd1) as (s' & E' & Hl' & C' & Hdes' & Hfr'); [intros e He; apply Hk; by right|simpl in Hf; lia|].
    exists s'. split_and!; [done| |done|done|].
    + split; [done|]. exists n. split_and!; [by rewrite Hfr'|done|rewrite Epar; exact Hl'].
    + intros e He. apply Hfr'. set_solver.
Qed.

Lemma kept_links q : ∀ ps d k e p, kept q d ps !! k = Some e → kept q d ps !! S k = Some p → q e p = false.
Proof.
  induction ps as [|p0 ps IH]; intros d k e p He Hp; cbn [kept] in *; [by destruct k|].
  destruct (q d p0) eqn:E; [by eapply IH|]. destruct k as [|k]; [|by eapply (IH p0 k)].
  destruct (kept_head q ps p0) as (rest & Er & _). rewrite Er in Hp. by simplify_eq/=.
Qed.

Lemma kept_nodup q ps d : NoDup (d :: ps) → NoDup (kept q d ps).
Proof. intros Hn. rewrite <- (kept_dropped q ps d) in Hn. by apply NoDup_app in Hn as [Hn _]. Qed.

(** A domain that is kept above another one is not degenerate. *)
Lemma kept_contribute s ps d rest e :
  rings_known s (d :: ps) → kept (superfluous_at s) d ps = d :: rest → e ∈ rest → degenerate_at s e = false.
Proof.
  intros Hk Er He. apply list_elem_of_lookup in He as [k Ek].
  destruct (lookup_lt_is_Some_2 (d :: rest) k) as [x Ex]; [simpl; pose proof (lookup_lt_Some _ _ _ Ek); lia|].
  assert (Hq : superfluous_at s x e = false) by (eapply (kept_links _ ps d k); rewrite Er; [exact Ex|exact Ek]).
  assert (Hin : ∀ y, y ∈ d :: rest → y ∈ d :: ps).
  { intros y Hy. destruct (kept_head (superfluous_at s) ps d) as (rest' & Er' & Hr). rewrite Er in Er'. simplify_eq.
    apply elem_of_cons in Hy as [-> |Hy]; [left|right; by apply Hr]. }
  destruct (Hk x (Hin x (list_elem_of_lookup_2 _ _ _ Ex))) as (n & En & _).
  destruct (Hk e (Hin e ltac:(right; by eapply list_elem_of_lookup_2))) as (up & Eup & _).
  unfold superfluous_at in Hq. rewrite En, Eup in Hq. apply orb_false_iff in Hq as [Hq _].
  unfold degenerate_at. by rewrite Eup.
Qed.

(** The lowest domain leaves the chain. *)
Lemma lose_base_run s d rest n :
  linked s None (Some d) (d :: rest) → NoDup (d :: rest) → nodes s !! d = Some n →
  ∃ s', (_ ← destroy_sched_domain d;
         match parent n with Some p => set_node p (λ up, up <| child := None |>) | None => mret tt end) s = Ok tt s' ∧
    linked s' None (parent n) rest ∧ content_kept s s' ∧ destroyed s' = d :: destroyed s.
Proof.
  intros [_ (n' & En' & _ & Hr)] Hnd En. assert (n' = n) as -> by congruence. unfold mbind, M_bind.
  set (s1 := s <| destroyed ::= cons d |>). destruct rest as [|p rest].
  { simpl in Hr. rewrite Hr. exists s1. split_and!; try done. by destruct (content_refl s). }
  destruct Hr as [Ep (m & Em & _ & Hrest)]. rewrite Ep. assert (Em1 : nodes s1 !! p = Some m) by done.
  change (destroy_sched_domain d s) with (@Ok dom_state unit tt s1). cbv beta iota. rewrite (set_node_run s1 p m _ Em1).
  eexists. split_and!; [reflexivity| | |done].
  - split; [done|]. exists (m <| child := None |>). split_and!; [simpl; apply lookup_insert_eq|done|].
    eapply linked_frame; [|exact Hrest]. intros e He. simpl. apply lookup_insert_ne.
    apply NoDup_cons in Hnd as [_ Hnd]. apply NoDup_cons in Hnd as [Hp _]. set_solver.
  - destruct (content_insert s1 p m (m <| child := None |>) Em1 ltac:(done)) as [Cr Cn]. by split.
Qed.

(** The domains of a processor that are left when they are attached: for a chain of
    domains linked in both directions the loop ends; what is left is a chain linked in both
    directions in which no domain is degenerate and no parent is superfluous for its child;
    exactly the other domains are destroyed, once each, and what the tests read of the
    domains has not changed. *)
Theorem trim_domains_contribute s d ps fuel :
  linked s None (Some d) (d :: ps) → NoDup (d :: ps) → rings_known s (d :: ps) → (length ps < fuel)%nat →
  ∃ base ds gone s', trim_domains fuel nr_node_ids (Some d) s = Ok base s' ∧ linked s' None base ds ∧
    (∀ e, e ∈ ds → degenerate_at s e = false) ∧
    (∀ k e p, ds !! k = Some e → ds !! S k = Some p → superfluous_at s e p = false) ∧
    destroyed s' = gone ++ destroyed s ∧ ds ++ gone ≡ₚ d :: ps ∧ content_kept s s'.
Proof.
  intros Hl Hnd Hk Hf. destruct (drop_parents_run ps s None d fuel Hl Hnd Hk Hf) as (s1 & E1 & Hl1 & C1 & Hdes & _).
  destruct (kept_head (superfluous_at s) ps d) as (rest & Er & _). pose proof (kept_dropped (superfluous_at s) ps d) as Hperm.
  pose proof (kept_nodup (superfluous_at s) ps d Hnd) as Hnk. pose proof (kept_links (superfluous_at s) ps d) as Hlinks.
  assert (Hrest : ∀ e, e ∈ rest → degenerate_at s e = false) by (intros e; by apply (kept_contribute s ps d rest e Hk Er)).
  rewrite Er in Hl1, Hperm, Hnk, Hlinks. set (gone := rev (dropped (superfluous_at s) d ps)) in *.
  assert (Hgone : dropped (superfluous_at s) d ps ≡ₚ gone) by (subst gone; apply Permutation_rev).
  destruct (rings_kept s s1 (d :: ps) C1 Hk d ltac:(left)) as (n & En & Hr).
  unfold trim_domains, mbind, M_bind. rewrite E1, (node_at_run s1 d n En), (sd_degenerate_run s1 n Hr).
  assert (Edeg : degenerate s1 n = degenerate_at s d).
  { rewrite <- (content_degenerate s s1 d C1). unfold degenerate_at. by rewrite En. }
  rewrite Edeg. destruct (degenerate_at s d) eqn:Hdeg.
  - destruct (lose_base_run s1 d rest n Hl1 Hnk En) as (s2 & E2 & Hl2 & C2 & Hd2). unfold mbind, M_bind in E2.
    exists (parent n), rest, (d :: gone), s2. split_and!; [repeat case_match; simplify_eq; done|done|done| | | |by eapply content_trans].
    + intros k e p He Hp. by apply (Hlinks (S k)).
    + by rewrite Hd2, Hdes.
    + rewrite <- Permutation_middle, <- Hgone. exact Hperm.
  - exists (Some d), (d :: rest), gone, s1. split_and!; [done|done| |done|done|by rewrite <- Hgone|done].
    intros e [-> |He]%elem_of_cons; [done|by apply Hrest].
Qed.
End TrimSpec.
