(* ===== verification/DomainsDemo.v ===== *)
(** * Domains of a small machine

    Two pairs of processors: a domain of each pair, a domain of all four above, and on top
    a domain of all four that adds nothing. *)

From S2P Require Import Prelude Balance Domains DomainsSpec.

Module DomainsDemo.
Definition flags_all : Z := 47.            (** balancing at all times, affine wake-ups *)

Definition pair_node (up span0 : Z) : domain_node := mkNode (Some up) None (Some (span0 + 30)) (flags_all + 512) 0 [span0; span0 + 1] 0.
Definition all_node (up below : Z) : domain_node := mkNode (Some up) (Some below) (Some 40) flags_all 1 [0; 1; 2; 3] 1.
Definition top_node (below : Z) : domain_node := mkNode None (Some below) (Some 50) flags_all 2 [0; 1; 2; 3] 2.

(** Groups 30 and 31, 32 and 33 of the pairs are two rings; 40 and 42 are those of the domain
    of all, 50 is alone. *)
Definition small : dom_state := {|
  nodes := {[10 := pair_node 20 0; 11 := pair_node 21 0; 12 := pair_node 22 2; 13 := pair_node 23 2;
             20 := all_node 60 10; 21 := all_node 61 11; 22 := all_node 62 12; 23 := all_node 63 13;
             60 := top_node 20]};
  rings := {[30 := mkGroupNode 31 {[0]} (Some 70) 1; 31 := mkGroupNode 30 {[1]} (Some 71) 1;
             32 := mkGroupNode 33 {[2]} (Some 72) 1; 33 := mkGroupNode 32 {[3]} (Some 73) 1;
             40 := mkGroupNode 40 ∅ None 0; 41 := mkGroupNode 41 ∅ None 0;
             42 := mkGroupNode 42 ∅ None 0; 43 := mkGroupNode 43 ∅ None 0;
             50 := mkGroupNode 50 {[0; 1; 2; 3]} None 0]};
  sgps := {[80 := mkPowerNode 0 0; 81 := mkPowerNode 0 0; 82 := mkPowerNode 0 0; 83 := mkPowerNode 0 0]};
  topology := {[1 := mkSdData {[0 := 20; 1 := 21; 2 := 22; 3 := 23]} {[0 := 40; 1 := 41; 2 := 42; 3 := 43]}
                       {[0 := 80; 1 := 81; 2 := 82; 3 := 83]}]};
  destroyed := [];
  sched_domain_level_max := 2;
  cpu_sd := {[0 := 10]};
  top_cache := ∅;
  top_cache_id := ∅
|}.

Definition level1 : sd_data := mkSdData {[0 := 20; 1 := 21; 2 := 22; 3 := 23]} {[0 := 40; 1 := 41; 2 := 42; 3 := 43]}
                       {[0 := 80; 1 := 81; 2 := 82; 3 := 83]}.

Lemma four i : i ∈ [0; 1; 2; 3] → i = 0 ∨ i = 1 ∨ i = 2 ∨ i = 3.
Proof. rewrite !elem_of_cons. intros [-> |[-> |[-> |[-> |Hn]]]]; auto. by apply not_elem_of_nil in Hn. Qed.

Lemma level1_ready : level_ready small level1 [0; 1; 2; 3] (λ i, if i <? 2 then 0 else 2) (λ r, 40 + r).
Proof.
  split.
  - intros i [-> |[-> |[-> | ->]]]%four; by vm_compute.
  - intros i [-> |[-> |[-> | ->]]]%four; (split; [by vm_compute|]); by eexists.
  - intros i [-> |[-> |[-> | ->]]]%four; (eexists; split; [vm_compute; reflexivity|]); by eexists.
  - intros i j _ _. lia.
Qed.

Lemma build_sched_groups_witness :
  ∃ s', build_sched_groups 20 0 small = Ok tt s' ∧ ∃ gs, ring s' gs ∧ partition_of s' [0; 1; 2; 3] gs ∧ 40 ∈ gs.
Proof.
  destruct (build_sched_groups_partition small 20 (all_node 60 10) level1 0 (λ i, if i <? 2 then 0 else 2) (λ r, 40 + r)
    eq_refl eq_refl level1_ready) as (s' & E & _ & Hd); [left|].
  destruct (decide _) as [_|Hne]; [|by destruct Hne]. destruct Hd as (gs & Hring & Hpart & Hin & _). exists s'. split; [exact E|].
  exists gs. split; [exact Hring|]. split; [exact Hpart|exact Hin].
Defined.

(** The ring: 40 with processors 0 and 1, 42 with 2 and 3. *)
Example ring_of_all :
  match build_sched_groups 20 0 small with
  | Ok _ s => successor s 40 = Some 42 ∧ successor s 42 = Some 40 ∧ members s 40 = {[0; 1]} ∧ members s 42 = {[2; 3]}
  | Err _ _ => False
  end.
Proof. by vm_compute. Qed.

Lemma chain_linked : linked small None (Some 10) [10; 20; 60].
Proof. split; [done|]. eexists. split_and!; [reflexivity|done|]. split; [done|]. eexists. split_and!; [reflexivity|done|]. split; [done|]. eexists. by split_and!. Qed.

Lemma chain_rings : rings_known small [10; 20; 60].
Proof.
  intros d. rewrite !elem_of_cons. intros [-> |[-> |[-> |Hn]]]; [..|by apply not_elem_of_nil in Hn];
    (eexists; split; [reflexivity|]; eexists _, _; split; reflexivity).
Qed.

(** The domain of all has one group as yet and the flags of the domain of the pair; with two
    groups it stays. *)
Lemma trim_domains_witness :
  ∃ base ds gone s', trim_domains 3 1 (Some 10) small = Ok base s' ∧ linked s' None base ds ∧ ds ++ gone ≡ₚ [10; 20; 60] ∧ base = Some 10.
Proof.
  destruct (trim_domains_contribute 1 small 10 [20; 60] 3 chain_linked) as (base & ds & gone & s' & E & Hl & _ & _ & _ & Hp & _);
    [by apply (bool_decide_eq_true_1 (NoDup [10; 20; 60]))|apply chain_rings|simpl; lia|].
  assert (Hb : base = Some 10) by (vm_compute in E; by inversion E).
  exists base, ds, gone, s'. split; [exact E|]. split; [exact Hl|]. split; [exact Hp|exact Hb].
Defined.
End DomainsDemo.
