(* ===== verification/Completion.v ===== *)
(** * Wait queues and completions: [core.c]

    [__wake_up_common] walks a wait queue and wakes up its entries; a completion
    is a counter with a wait queue, on which threads wait until it is positive.
    The code between the lock and the unlock of [x->wait.lock] is one step of an
    interleaving semantics; a thread that waits is split at [schedule_timeout].

    Waking a thread and setting one's own state is what the scheduler does.  The
    interface [Waker] states what is used of it; [SchedWaker.v] discharges it with
    the scheduler of this library. *)

From S2P Require Import Prelude SchedData.

Definition WQ_FLAG_EXCLUSIVE : Z := 1.
Definition TASK_KILLABLE : Z := Z.lor TASK_WAKEKILL TASK_UNINTERRUPTIBLE.
Definition MAX_SCHEDULE_TIMEOUT : Z := LONG_MAX.
Definition ERESTARTSYS : Z := 512.
Definition UINT_MAX : Z := 2 ^ 32 - 1.

(** An entry of a wait queue; [wq_func] is [default_wake_function] or another
    function of the kernel. *)
Record wait_queue : Type := mkWait {
  wq_flags : Z;
  wq_private : Z;
  wq_func : option Z
}.

#[export] Instance wait_queue_eq_dec : EqDecision wait_queue.
Proof. solve_decision. Defined.

Definition DECLARE_WAITQUEUE (tsk : Z) : wait_queue := mkWait 0 tsk None.

(** ** What is used of the scheduler *)

Class Waker (W : Type) : Type := {
  wk_current : W → Z;
  wk_wake : Z → Z → Z → M W bool;              (** [try_to_wake_up] *)
  wk_set_state : Z → M W unit;                 (** [__set_current_state] *)
  wk_signal : Z → W → bool;                    (** [signal_pending_state (state, current)] *)
  (** Other wake functions; they may take their entry off the queue. *)
  wk_func : Z → wait_queue → Z → Z → Z → M (W * list wait_queue) bool
}.

(** A wait queue head and the counter of a completion, in the world of threads. *)
Record cstate (W : Type) : Type := mkC { cw : W; done : Z; task_list : list wait_queue }.
Arguments mkC {W}.
Arguments cw {W}.
Arguments done {W}.
Arguments task_list {W}.
#[export] Instance cstate_eta W : Settable (cstate W) := λ r, mkC (cw r) (done r) (task_list r).

Section Code.
Context {W : Type} `{Waker W}.
Abbreviation R := (M (cstate W)).

Definition on_world {A} (m : M W A) : R A := λ x,
  match m (cw x) with Ok a w => Ok a (x <| cw := w |>) | Err f w => Err f (x <| cw := w |>) end.

Definition on_queue {A} (m : M (W * list wait_queue) A) : R A := λ x,
  match m (cw x, task_list x) with
  | Ok a (w, l) => Ok a (x <| cw := w |> <| task_list := l |>)
  | Err f (w, l) => Err f (x <| cw := w |> <| task_list := l |>)
  end.

(** ** Wait queues *)

Definition default_wake_function (c : wait_queue) (mode wake_flags key : Z) : R bool :=
  on_world (wk_wake (wq_private c) mode wake_flags).

Definition call_func (c : wait_queue) (mode wake_flags key : Z) : R bool :=
  match wq_func c with
  | None => default_wake_function c mode wake_flags key
  | Some f => on_queue (wk_func f c mode wake_flags key)
  end.

(** The loop is safe against the removal of the current entry: it goes on with the
    entry that followed. *)
Fixpoint wake_each (l : list wait_queue) (mode nr_exclusive wake_flags key : Z) : R unit :=
  match l with
  | [] => mret tt
  | c :: l' =>
      b ← call_func c mode wake_flags key;
      if b && has_flag (wq_flags c) WQ_FLAG_EXCLUSIVE then
        let nr := s32 (nr_exclusive - 1) in
        if nr =? 0 then mret tt else wake_each l' mode nr wake_flags key
      else wake_each l' mode nr_exclusive wake_flags key
  end.

Definition __wake_up_common (mode nr_exclusive wake_flags key : Z) : R unit :=
  l ← gets task_list;
  wake_each l mode nr_exclusive wake_flags key.

Definition __wake_up (mode nr_exclusive key : Z) : R unit :=
  __wake_up_common mode nr_exclusive 0 key.

Definition __wake_up_locked (mode nr : Z) : R unit := __wake_up_common mode nr 0 0.

Definition __wake_up_locked_key (mode key : Z) : R unit := __wake_up_common mode 1 0 key.

(** [q] is whether the pointer to the queue is not null. *)
Definition __wake_up_sync_key (q : bool) (mode nr_exclusive key : Z) : R unit :=
  if negb q then mret tt
  else __wake_up_common mode nr_exclusive (if nr_exclusive =? 0 then 0 else WF_SYNC) key.

Definition __wake_up_sync (q : bool) (mode nr_exclusive : Z) : R unit :=
  __wake_up_sync_key q mode nr_exclusive 0.

Definition __add_wait_queue (c : wait_queue) : R unit := modify (λ x, x <| task_list ::= cons c |>).

Definition exclusive (c : wait_queue) : wait_queue :=
  mkWait (Z.lor (wq_flags c) WQ_FLAG_EXCLUSIVE) (wq_private c) (wq_func c).

Definition __add_wait_queue_tail_exclusive (c : wait_queue) : R unit :=
  modify (λ x, x <| task_list ::= λ l, l ++ [exclusive c] |>).

Definition __remove_wait_queue (c : wait_queue) : R unit :=
  modify (λ x, x <| task_list ::= remove_one c |>).

(** ** Completions *)

Definition complete : R unit :=
  _ ← modify (λ x, x <| done := u32 (done x + 1) |>);
  __wake_up_common TASK_NORMAL 1 0 0.

Definition complete_all : R unit :=
  _ ← modify (λ x, x <| done := u32 (done x + UINT_MAX / 2) |>);
  __wake_up_common TASK_NORMAL 0 0 0.

Definition try_wait_for_completion : R bool :=
  d ← gets done;
  if d =? 0 then mret false
  else _ ← modify (λ x, x <| done := u32 (done x - 1) |>); mret true.

Definition completion_done : R bool :=
  d ← gets done;
  mret (negb (d =? 0)).

(** The end of [do_wait_for_common]. *)
Definition wait_take (timeout : Z) : R Z :=
  _ ← modify (λ x, x <| done := u32 (done x - 1) |>);
  mret (if timeout =? 0 then 1 else timeout).

(** After the loop. *)
Definition wait_leave (timeout : Z) : R Z :=
  me ← gets (λ x, wk_current (cw x));
  _ ← __remove_wait_queue (exclusive (DECLARE_WAITQUEUE me));
  d ← gets done;
  if d =? 0 then mret timeout else wait_take timeout.

(** The body of the loop up to [schedule_timeout]: the call returns ([inl]) or
    the lock is released and the thread asleep ([inr]). *)
Definition wait_sleep (timeout state : Z) : R (Z + Z) :=
  x ← get;
  if wk_signal state (cw x) then v ← wait_leave (- ERESTARTSYS); mret (inl v)
  else
    _ ← on_world (wk_set_state state);
    mret (inr timeout).

(** From the call to the first sleep, and from one sleep to the next. *)
Definition wait_enter (timeout state : Z) : R (Z + Z) :=
  d ← gets done;
  if d =? 0 then
    me ← gets (λ x, wk_current (cw x));
    _ ← __add_wait_queue_tail_exclusive (DECLARE_WAITQUEUE me);
    wait_sleep timeout state
  else v ← wait_take timeout; mret (inl v).

Definition wait_again (timeout state : Z) : R (Z + Z) :=
  d ← gets done;
  if (d =? 0) && negb (timeout =? 0) then wait_sleep timeout state
  else v ← wait_leave timeout; mret (inl v).

(** ** The calls, over what happens while a thread sleeps *)

Section Calls.
Context (schedule_timeout io_schedule_timeout : Z → R Z).

Fixpoint wait_loop (fuel : nat) (timeout state : Z) (iowait : bool) : R Z :=
  match fuel with
  | O => fail OutOfFuel
  | S fuel' =>
      timeout ← (if iowait then io_schedule_timeout timeout else schedule_timeout timeout);
      r ← wait_again timeout state;
      match r with
      | inl v => mret v
      | inr t => wait_loop fuel' t state iowait
      end
  end.

Definition do_wait_for_common (fuel : nat) (timeout state : Z) (iowait : bool) : R Z :=
  r ← wait_enter timeout state;
  match r with
  | inl v => mret v
  | inr t => wait_loop fuel t state iowait
  end.

Definition wait_for_common (fuel : nat) (timeout state : Z) (iowait : bool) : R Z :=
  do_wait_for_common fuel timeout state iowait.

Definition wait_for_completion (fuel : nat) : R unit :=
  _ ← wait_for_common fuel MAX_SCHEDULE_TIMEOUT TASK_UNINTERRUPTIBLE false;
  mret tt.

Definition wait_for_completion_io (fuel : nat) : R unit :=
  _ ← wait_for_common fuel MAX_SCHEDULE_TIMEOUT TASK_UNINTERRUPTIBLE true;
  mret tt.

(** [timeout] is an [unsigned long], [wait_for_common] takes a [long]. *)
Definition wait_for_completion_timeout (fuel : nat) (timeout : Z) : R Z :=
  v ← wait_for_common fuel (s32 timeout) TASK_UNINTERRUPTIBLE false;
  mret (u32 v).

Definition wait_for_completion_interruptible (fuel : nat) : R Z :=
  t ← wait_for_common fuel MAX_SCHEDULE_TIMEOUT TASK_INTERRUPTIBLE false;
  if t =? - ERESTARTSYS then mret t else mret 0.

Definition wait_for_completion_interruptible_timeout (fuel : nat) (timeout : Z) : R Z :=
  wait_for_common fuel (s32 timeout) TASK_INTERRUPTIBLE false.

Definition wait_for_completion_killable (fuel : nat) : R Z :=
  t ← wait_for_common fuel MAX_SCHEDULE_TIMEOUT TASK_KILLABLE false;
  if t =? - ERESTARTSYS then mret t else mret 0.

Definition wait_for_completion_killable_timeout (fuel : nat) (timeout : Z) : R Z :=
  wait_for_common fuel (s32 timeout) TASK_KILLABLE false.

(** ** Sleeping on a queue *)

Definition sleep_on_common (state timeout : Z) : R Z :=
  me ← gets (λ x, wk_current (cw x));
  _ ← on_world (wk_set_state state);
  _ ← __add_wait_queue (DECLARE_WAITQUEUE me);
  timeout ← schedule_timeout timeout;
  _ ← __remove_wait_queue (DECLARE_WAITQUEUE me);
  mret timeout.

Definition interruptible_sleep_on : R unit :=
  _ ← sleep_on_common TASK_INTERRUPTIBLE MAX_SCHEDULE_TIMEOUT; mret tt.

Definition interruptible_sleep_on_timeout (timeout : Z) : R Z :=
  sleep_on_common TASK_INTERRUPTIBLE timeout.

Definition sleep_on : R unit :=
  _ ← sleep_on_common TASK_UNINTERRUPTIBLE MAX_SCHEDULE_TIMEOUT; mret tt.

Definition sleep_on_timeout (timeout : Z) : R Z := sleep_on_common TASK_UNINTERRUPTIBLE timeout.
End Calls.
End Code.

(** ** Specification *)

(** What the scheduler promises: a thread is woken up exactly if its state is one
    of those asked for, and is then running; nobody else changes.  [wk_may]: the
    current thread may go to sleep. *)
Class WakerLaws (W : Type) `{Waker W} : Type := {
  wk_ok : W → Prop;
  wk_may : W → Prop;
  wk_state : W → Z → option Z;
  wake_law : ∀ w p s mode f, wk_ok w → wk_state w p = Some s →
    returns (wk_wake p mode f) w (λ b w', wk_ok w' ∧ b = has_flag s mode ∧
      wk_current w' = wk_current w ∧
      ∀ q, wk_state w' q = if b && bool_decide (q = p) then Some TASK_RUNNING else wk_state w q);
  set_state_law : ∀ w s, wk_ok w → wk_may w → is_Some (wk_state w (wk_current w)) →
    returns (wk_set_state s) w (λ _ w', wk_ok w' ∧ wk_current w' = wk_current w ∧
      ∀ q, wk_state w' q = if bool_decide (q = wk_current w) then Some s else wk_state w q)
}.

Section Spec.
Context {W : Type} `{WakerLaws W}.
Implicit Types (w : W) (x : cstate W) (c : wait_queue).

Definition awake (w : W) (c : wait_queue) : Prop := wk_state w (wq_private c) = Some TASK_RUNNING.

#[global] Instance awake_dec w c : Decision (awake w c).
Proof. unfold awake. apply _. Defined.

(** An entry [do_wait_for_common] makes, of a thread that runs or can be woken
    up. *)
Record waiting (w : W) (c : wait_queue) : Prop := {
  wt_entry : c = exclusive (DECLARE_WAITQUEUE (wq_private c));
  wt_state : ∃ s, wk_state w (wq_private c) = Some s ∧ (s = TASK_RUNNING ∨ has_flag s TASK_NORMAL = true)
}.

(** The world after [p] was woken up. *)
Definition wakes (p : Z) (w w' : W) : Prop :=
  ∀ q, wk_state w' q = if bool_decide (q = p) then Some TASK_RUNNING else wk_state w q.

Definition same_states (w w' : W) : Prop := ∀ q, wk_state w' q = wk_state w q.

Record quiet (x x' : cstate W) : Prop := {
  qt_ok : wk_ok (cw x');
  qt_done : done x' = done x;
  qt_list : task_list x' = task_list x;
  qt_current : wk_current (cw x') = wk_current (cw x)
}.

Lemma quiet_trans x x' x'' : quiet x x' → quiet x' x'' → quiet x x''.
Proof. intros [] []. split; congruence. Qed.

(** One call of the wake function. *)
Lemma call_func_ok x c mode f key s :
  wk_ok (cw x) → wq_func c = None → wk_state (cw x) (wq_private c) = Some s →
  returns (call_func c mode f key) x (λ b x', quiet x x' ∧ b = has_flag s mode ∧
    if b then wakes (wq_private c) (cw x) (cw x') else same_states (cw x) (cw x')).
Proof.
  intros Hw Hc Hs. unfold call_func, default_wake_function, on_world. rewrite Hc.
  destruct (wake_law (cw x) (wq_private c) s mode f Hw Hs) as (b & w' & Hrun & Hok & Hb & Hcu & Hst).
  exists b, (x <| cw := w' |>). rewrite Hrun. split; [done|]. split_and!; [by split|done|].
  destruct b; exact Hst.
Qed.

Lemma waiting_keep w w' c :
  wk_state w' (wq_private c) = wk_state w (wq_private c) ∨ wk_state w' (wq_private c) = Some TASK_RUNNING →
  waiting w c → waiting w' c.
Proof.
  intros Hs [He (s & Hst & Hor)]. split; [done|].
  destruct Hs as [Heq|Heq]; [exists s|exists TASK_RUNNING]; rewrite Heq; auto.
Qed.

Lemma waiting_same w w' c : (∀ q, wk_state w' q = wk_state w q ∨ wk_state w' q = Some TASK_RUNNING) →
  waiting w c → waiting w' c.
Proof. intros Hs. by apply waiting_keep. Qed.

Lemma wakes_running p w w' q : wakes p w w' → wk_state w' q = wk_state w q ∨ wk_state w' q = Some TASK_RUNNING.
Proof. intros Hw. rewrite (Hw q). case_bool_decide; auto. Qed.

(** Exclusive waiters, one to be woken up: the first that sleeps. *)
Lemma wake_first l x f key :
  wk_ok (cw x) → Forall (waiting (cw x)) l →
  returns (wake_each l TASK_NORMAL 1 f key) x (λ _ x', quiet x x' ∧
    ((Forall (awake (cw x)) l ∧ same_states (cw x) (cw x')) ∨
     ∃ l1 c l2, l = l1 ++ c :: l2 ∧ Forall (awake (cw x)) l1 ∧ ¬ awake (cw x) c ∧
       wakes (wq_private c) (cw x) (cw x'))).
Proof.
  revert x. induction l as [|c l IH]; intros x Hw Hl.
  { apply returns_ret. split; [by split|]. left. split; [constructor|done]. }
  inversion Hl as [|? ? [Hc (s & Hs & Hor)] Hl']; subst. cbn [wake_each]. apply returns_bind.
  eapply returns_mono; [apply (call_func_ok x c TASK_NORMAL f key s); [done|by rewrite Hc|done]|].
  intros b x1 (Hq1 & -> & Hst). assert (has_flag (wq_flags c) WQ_FLAG_EXCLUSIVE = true) as ->
    by (by rewrite Hc). rewrite andb_true_r. destruct Hor as [->|Hn].
  - change (has_flag TASK_RUNNING TASK_NORMAL) with false in *.
    eapply returns_mono; [apply IH; [apply Hq1|]|].
    { eapply Forall_impl; [exact Hl'|]. intros c'. apply waiting_same. intros q. left. apply Hst. }
    intros [] x' (Hq' & Hres). split; [by eapply quiet_trans|].
    assert (∀ c', awake (cw x1) c' ↔ awake (cw x) c') as Haw
      by (intros c'; unfold awake; by rewrite (Hst (wq_private c'))).
    destruct Hres as [[Ha Hs']|(l1 & c' & l2 & -> & Ha & Hna & Hwk)].
    + left. split; [|intros q; by rewrite (Hs' q), (Hst q)].
      constructor; [done|]. eapply Forall_impl; [exact Ha|]. intros c'. by rewrite Haw.
    + right. exists (c :: l1), c', l2. split_and!; [done| |by rewrite <- Haw|].
      * constructor; [done|]. eapply Forall_impl; [exact Ha|]. intros c''. by rewrite Haw.
      * intros q. rewrite (Hwk q). case_bool_decide; [done|apply Hst].
  - rewrite Hn in *. change (s32 (1 - 1) =? 0) with true. apply returns_ret. split; [done|].
    right. exists [], c, l. split_and!; [done|constructor| |done]. unfold awake. rewrite Hs.
    intros [= ->]. done.
Qed.

(** [nr_exclusive = 0] wakes up everybody: the counter goes down from 0. *)
Lemma wake_everybody l x nr f key :
  wk_ok (cw x) → Forall (waiting (cw x)) l → nr ≤ 0 → Z.of_nat (length l) - nr < 2 ^ 31 →
  returns (wake_each l TASK_NORMAL nr f key) x (λ _ x', quiet x x' ∧
    ∀ q, wk_state (cw x') q =
      if bool_decide (q ∈ wq_private <$> l) then Some TASK_RUNNING else wk_state (cw x) q).
Proof.
  revert x nr. induction l as [|c l IH]; intros x nr Hw Hl Hnr Hlen.
  { apply returns_ret. split; [by split|done]. }
  inversion Hl as [|? ? [Hc (s & Hs & Hor)] Hl']; subst. cbn [wake_each]. apply returns_bind.
  eapply returns_mono; [apply (call_func_ok x c TASK_NORMAL f key s); [done|by rewrite Hc|done]|].
  intros b x1 (Hq1 & Hb & Hst). assert (has_flag (wq_flags c) WQ_FLAG_EXCLUSIVE = true) as ->
    by (by rewrite Hc). rewrite andb_true_r. simpl in Hlen.
  assert (∀ q, wk_state (cw x1) q = if bool_decide (q = wq_private c) then Some TASK_RUNNING
                                     else wk_state (cw x) q) as Hst1.
  { intros q. destruct Hor as [->|Hn]; [|rewrite Hn in Hb; subst b; apply (Hst q)].
    change (has_flag TASK_RUNNING TASK_NORMAL) with false in Hb. subst b. rewrite (Hst q).
    case_bool_decide as Hq; [by rewrite Hq|done]. }
  assert (Forall (waiting (cw x1)) l) as Hl1.
  { eapply Forall_impl; [exact Hl'|]. intros c'. apply waiting_same. intros q. rewrite (Hst1 q).
    case_bool_decide; auto. }
  assert (∀ nr', nr' ≤ 0 → Z.of_nat (length l) - nr' < 2 ^ 31 →
    returns (wake_each l TASK_NORMAL nr' f key) x1 (λ _ x', quiet x x' ∧ ∀ q, wk_state (cw x') q =
      if bool_decide (q ∈ wq_private <$> c :: l) then Some TASK_RUNNING else wk_state (cw x) q)) as Hgo.
  { intros nr' ? ?. eapply returns_mono; [by apply (IH x1 nr'); [apply Hq1|..]|].
    intros [] x' (Hq' & Hs'). split; [by eapply quiet_trans|]. intros q. rewrite (Hs' q), (Hst1 q).
    rewrite fmap_cons. repeat case_bool_decide; set_solver. }
  destruct b; [|apply Hgo; lia]. cbv zeta.
  assert (s32 (nr - 1) = nr - 1) as -> by (apply swrap_small; widths; lia).
  destruct (nr - 1 =? 0) eqn:Hz; bsimp; [lia|]. apply Hgo; lia.
Qed.
End Spec.

(** ** Threads that wait and threads that complete *)

Section System.
Context {W : Type} `{WakerLaws W}.
(** What the world does by itself: time passes, threads are scheduled, timers and
    signals wake threads up.  The state of a thread inside a call is set by that
    call alone: the rest of the world at most wakes it up. *)
Context (wk_step : W → W → Prop).
Context (wk_step_law : ∀ w w', wk_ok w → wk_step w w' → wk_ok w').

(** The state of a thread is left alone, or the thread is woken up. *)
Definition keeps_state (w w' : W) (q : Z) : Prop :=
  wk_state w' q = wk_state w q ∨ wk_state w' q = Some TASK_RUNNING.

(** The entry [do_wait_for_common] makes for a thread. *)
Definition entry (p : Z) : wait_queue := exclusive (DECLARE_WAITQUEUE p).

Definition nr_awake (w : W) (l : list wait_queue) : Z := Z.of_nat (length (filter (awake w) l)).

(** The completion with the threads inside a call that waits for it, how often it
    was completed ([complete_all] counts [UINT_MAX / 2] times) and how many calls
    returned with a completion. *)
Record csys : Type := mkSys {
  sx : cstate W;
  inside : gset Z;
  given : Z;
  taken : Z
}.

(** The result of a call that waits: asleep, or returned, with a completion if the
    value is positive. *)
Definition waited (s : csys) (r : Z + Z) (x' : cstate W) : csys :=
  let me := wk_current (cw (sx s)) in
  match r with
  | inr _ => mkSys x' ({[me]} ∪ inside s) (given s) (taken s)
  | inl v => mkSys x' (inside s ∖ {[me]}) (given s) (taken s + b2z (0 <? v))
  end.

(** The current thread runs and may sleep. *)
Definition at_work (s : csys) : Prop :=
  wk_may (cw (sx s)) ∧ wk_state (cw (sx s)) (wk_current (cw (sx s))) = Some TASK_RUNNING.

Inductive comp_step : csys → csys → Prop :=
  | cs_enter s timeout state r x' :
      at_work s → wk_current (cw (sx s)) ∉ inside s → 0 ≤ timeout →
      has_flag state TASK_NORMAL = true → Z.of_nat (length (task_list (sx s))) + 1 < 2 ^ 31 →
      wait_enter timeout state (sx s) = Ok r x' → comp_step s (waited s r x')
  | cs_again s timeout state r x' :
      at_work s → wk_current (cw (sx s)) ∈ inside s → 0 ≤ timeout →
      has_flag state TASK_NORMAL = true →
      wait_again timeout state (sx s) = Ok r x' → comp_step s (waited s r x')
  | cs_try s b x' :
      try_wait_for_completion (sx s) = Ok b x' →
      comp_step s (mkSys x' (inside s) (given s) (taken s + b2z b))
  | cs_complete s x' :
      complete (sx s) = Ok tt x' →
      comp_step s (mkSys x' (inside s) (given s + 1) (taken s))
  | cs_complete_all s x' :
      complete_all (sx s) = Ok tt x' →
      comp_step s (mkSys x' (inside s) (given s + UINT_MAX / 2) (taken s))
  | cs_world s w' :
      wk_step (cw (sx s)) w' → (∀ q, q ∈ inside s → keeps_state (cw (sx s)) w' q) →
      comp_step s (mkSys ((sx s) <| cw := w' |>) (inside s) (given s) (taken s)).

(** The queue holds exactly the threads inside a call, and as many of them as could
    take a completion are awake. *)
Record queue_inv (x : cstate W) (ins : gset Z) : Prop := {
  qi_ok : wk_ok (cw x);
  qi_done : 0 ≤ done x < 2 ^ 32;
  qi_waiting : Forall (waiting (cw x)) (task_list x);
  qi_nodup : NoDup (task_list x);
  qi_inside : ∀ p, p ∈ ins ↔ entry p ∈ task_list x;
  qi_length : Z.of_nat (length (task_list x)) < 2 ^ 31;
  qi_awake : Z.min (done x) (Z.of_nat (length (task_list x))) ≤ nr_awake (cw x) (task_list x)
}.

(** The counter is what was given and not taken, modulo 2^32. *)
Record comp_inv (s : csys) : Prop := {
  ci_queue : queue_inv (sx s) (inside s);
  ci_done : done (sx s) = u32 (given s - taken s);
  ci_bound : 0 ≤ taken s ≤ given s
}.

Definition comp_init (s : csys) : Prop :=
  wk_ok (cw (sx s)) ∧ done (sx s) = 0 ∧ task_list (sx s) = [] ∧ inside s = ∅ ∧
  given s = 0 ∧ taken s = 0.

(** *** Counting *)

Lemma nr_awake_mono w w' l :
  (∀ c, c ∈ l → awake w c → awake w' c) → nr_awake w l ≤ nr_awake w' l.
Proof.
  unfold nr_awake. induction l as [|c l IH]; intros Hm; [done|]. rewrite !filter_cons.
  assert (Z.of_nat (length (filter (awake w) l)) ≤ Z.of_nat (length (filter (awake w') l)))
    by (apply IH; intros c' Hc'; apply Hm; by right).
  pose proof (Hm c ltac:(left)). repeat case_decide; simpl; try lia. tauto.
Qed.

Lemma nr_awake_all w l : Forall (awake w) l → nr_awake w l = Z.of_nat (length l).
Proof.
  unfold nr_awake. induction 1 as [|c l Hc _ IH]; [done|]. rewrite filter_cons_True by done. simpl. lia.
Qed.

Lemma nr_awake_app w l1 l2 : nr_awake w (l1 ++ l2) = nr_awake w l1 + nr_awake w l2.
Proof. unfold nr_awake. rewrite filter_app, length_app. lia. Qed.

Lemma nr_awake_cons w c l : nr_awake w (c :: l) = b2z (bool_decide (awake w c)) + nr_awake w l.
Proof. unfold nr_awake. rewrite filter_cons. case_decide; case_bool_decide; simpl; try lia; tauto. Qed.

Lemma nr_awake_le w l : 0 ≤ nr_awake w l ≤ Z.of_nat (length l).
Proof. unfold nr_awake. pose proof (length_filter (awake w) l). lia. Qed.

Lemma nr_awake_perm w l l' : l ≡ₚ l' → nr_awake w l = nr_awake w l'.
Proof. intros Hp. unfold nr_awake. by rewrite Hp. Qed.

(** Waking up one sleeper adds one. *)
Lemma nr_awake_wakes w w' l1 c l2 :
  ¬ awake w c → wakes (wq_private c) w w' →
  nr_awake w (l1 ++ c :: l2) + 1 ≤ nr_awake w' (l1 ++ c :: l2).
Proof.
  intros Hn Hw. rewrite !nr_awake_app, !nr_awake_cons.
  assert (∀ l, nr_awake w l ≤ nr_awake w' l) as Hm.
  { intros l. apply nr_awake_mono. intros c' _ Ha. unfold awake in *. rewrite (Hw (wq_private c')).
    by case_bool_decide. }
  pose proof (Hm l1). pose proof (Hm l2).
  rewrite (bool_decide_eq_false_2 (awake w c)) by done.
  rewrite (bool_decide_eq_true_2 (awake w' c)) by (unfold awake; rewrite (Hw _); by case_bool_decide).
  simpl. lia.
Qed.

(** *** The steps, on the queue *)

Lemma queue_inv_ins x ins ins' : ins ≡ ins' → queue_inv x ins → queue_inv x ins'.
Proof. intros He []. split; try done. intros p. by rewrite <- He. Qed.

(** The world moves: threads only wake up. *)
Lemma queue_inv_world x ins w' :
  wk_ok w' → (∀ q, q ∈ ins → keeps_state (cw x) w' q) →
  queue_inv x ins → queue_inv (x <| cw := w' |>) ins.
Proof.
  intros Hok Hst [].
  assert (∀ c, c ∈ task_list x → keeps_state (cw x) w' (wq_private c)) as Hk.
  { intros c Hc. apply Hst, qi_inside0. rewrite Forall_forall in qi_waiting0.
    destruct (qi_waiting0 c Hc) as [He _]. by rewrite He in Hc. }
  split; simpl; try done.
  - rewrite Forall_forall in qi_waiting0 |- *. intros c Hc. eapply waiting_keep; [by apply Hk|auto].
  - etrans; [done|]. apply nr_awake_mono. intros c Hc Ha. unfold awake in *.
    by destruct (Hk c Hc) as [-> | ->].
Qed.

Lemma queue_inv_take x ins :
  done x ≠ 0 → queue_inv x ins → queue_inv (x <| done := done x - 1 |>) ins.
Proof. intros Hd []. split; simpl; try done; lia. Qed.

(** A thread joins an exhausted completion. *)
Lemma queue_inv_join x ins p s :
  done x = 0 → p ∉ ins → Z.of_nat (length (task_list x)) + 1 < 2 ^ 31 →
  wk_state (cw x) p = Some s → (s = TASK_RUNNING ∨ has_flag s TASK_NORMAL = true) →
  queue_inv x ins → queue_inv (x <| task_list := task_list x ++ [entry p] |>) ({[p]} ∪ ins).
Proof.
  intros Hd Hp Hlen Hs Hor []. assert (entry p ∉ task_list x) by (by rewrite <- qi_inside0).
  split; simpl; try done.
  - apply Forall_app. split; [done|]. constructor; [|constructor]. split; [done|]. by exists s.
  - apply NoDup_app. split_and!; [done| |apply NoDup_singleton]. set_solver.
  - intros q. rewrite elem_of_app, elem_of_union, list_elem_of_singleton, qi_inside0.
    rewrite elem_of_singleton. split; [intros [->|?]|intros [?|Hq]]; [by right|by left|by right|left; by injection Hq].
  - rewrite length_app. simpl. lia.
  - pose proof (nr_awake_le (cw x) (task_list x ++ [entry p])). lia.
Qed.

(** A thread that is awake leaves, with a completion if there is one. *)
Lemma queue_inv_leave x ins p d' :
  p ∈ ins → awake (cw x) (entry p) → d' = (if done x =? 0 then 0 else done x - 1) →
  queue_inv x ins →
  queue_inv (x <| task_list := remove_one (entry p) (task_list x) |> <| done := d' |>) (ins ∖ {[p]}).
Proof.
  intros Hp Ha Hd []. apply qi_inside0 in Hp as Hin.
  pose proof (remove_one_perm (entry p) (task_list x) Hin) as Hperm.
  assert (NoDup (entry p :: remove_one (entry p) (task_list x))) as Hnd by (by rewrite <- Hperm).
  apply NoDup_cons in Hnd as [Hni Hnd].
  assert (length (task_list x) = S (length (remove_one (entry p) (task_list x)))) as Hl
    by (by rewrite Hperm at 1).
  assert (0 ≤ d' < 2 ^ 32) by (subst; destruct (done x =? 0) eqn:?; bsimp; lia).
  split; simpl; try done; try lia.
  - rewrite Hperm in qi_waiting0. by inversion qi_waiting0.
  - intros q. rewrite elem_of_difference, elem_of_singleton, qi_inside0, Hperm at 1.
    rewrite elem_of_cons. split; [intros [[Hq|?] Hne]; [by injection Hq as ->|done]|]. intros Hq. split; [by right|].
    intros ->. done.
  - rewrite (nr_awake_perm _ _ _ Hperm), nr_awake_cons, bool_decide_eq_true_2 in qi_awake0 by done.
    simpl in qi_awake0. subst d'. pose proof (nr_awake_le (cw x) (remove_one (entry p) (task_list x))).
    destruct (done x =? 0) eqn:?; bsimp; lia.
Qed.

(** A thread goes to sleep on an exhausted completion. *)
Lemma queue_inv_sleep x ins w' p s :
  done x = 0 → wk_ok w' → has_flag s TASK_NORMAL = true →
  (∀ q, wk_state w' q = if bool_decide (q = p) then Some s else wk_state (cw x) q) →
  queue_inv x ins → queue_inv (x <| cw := w' |>) ins.
Proof.
  intros Hd Hok Hs Hst []. split; simpl; try done.
  - eapply Forall_impl; [done|]. intros c [He (s' & Hs' & Hor)]. split; [done|].
    rewrite (Hst (wq_private c)). case_bool_decide; eauto.
  - pose proof (nr_awake_le w' (task_list x)). lia.
Qed.

(** *** The steps, on the code *)

Lemma u32_done d : 0 ≤ d < 2 ^ 32 → d ≠ 0 → u32 (d - 1) = d - 1.
Proof. intros. apply uwrap_small. widths. lia. Qed.

Lemma uint_half : 0 ≤ UINT_MAX / 2.
Proof. by vm_compute. Qed.

Lemma wait_take_ok x ins timeout :
  queue_inv x ins → done x ≠ 0 → 0 ≤ timeout →
  returns (wait_take timeout) x (λ v x', 0 < v ∧ queue_inv x' ins ∧ done x' = done x - 1).
Proof.
  intros Hq Hd Ht. eapply returns_eq; [reflexivity|]. rewrite u32_done by (done || apply Hq).
  split_and!; [destruct (timeout =? 0) eqn:?; bsimp; lia|by apply queue_inv_take|done].
Qed.

Lemma wait_leave_ok x ins timeout :
  queue_inv x ins → wk_current (cw x) ∈ ins → awake (cw x) (entry (wk_current (cw x))) →
  (done x ≠ 0 → 0 ≤ timeout) → (done x = 0 → timeout ≤ 0) →
  returns (wait_leave timeout) x (λ v x', queue_inv x' (ins ∖ {[wk_current (cw x)]}) ∧
    done x' = done x - b2z (0 <? v)).
Proof.
  intros Hq Hin Ha Ht Ht'.
  pose proof (queue_inv_leave x ins (wk_current (cw x)) _ Hin Ha eq_refl Hq) as Hl.
  unfold wait_leave. repeat (apply returns_bind; eapply returns_eq; [reflexivity|]). simpl.
  destruct (done x =? 0) eqn:Hd; bsimp.
  - apply returns_ret. destruct (0 <? timeout) eqn:?; bsimp; [lia|]. simpl. split; [|lia].
    by destruct x; simpl in *; subst.
  - eapply returns_eq; [reflexivity|]. simpl. rewrite u32_done by (done || apply Hq). split; [done|].
    destruct (timeout =? 0) eqn:?; bsimp; [done|]. destruct (0 <? timeout) eqn:?; bsimp; simpl; lia.
Qed.

(** What a stretch of a call that waits does: asleep on the queue, or gone from it
    with a completion exactly if the value is positive. *)
Definition wait_post (x : cstate W) (ins : gset Z) (r : Z + Z) (x' : cstate W) : Prop :=
  match r with
  | inr _ => queue_inv x' ({[wk_current (cw x)]} ∪ ins) ∧ done x' = done x
  | inl v => queue_inv x' (ins ∖ {[wk_current (cw x)]}) ∧ done x' = done x - b2z (0 <? v)
  end.

Lemma wait_sleep_ok x ins timeout state :
  queue_inv x ins → wk_current (cw x) ∈ ins → awake (cw x) (entry (wk_current (cw x))) →
  wk_may (cw x) → done x = 0 → has_flag state TASK_NORMAL = true →
  returns (wait_sleep timeout state) x (wait_post x ins).
Proof.
  intros Hq Hin Ha Hm Hd Hs. unfold wait_sleep. apply returns_bind. eapply returns_eq; [reflexivity|].
  case_match.
  - apply returns_bind. eapply returns_mono; [apply (wait_leave_ok x ins); unfold ERESTARTSYS; try done; lia|].
    intros v x' Hp. by apply returns_ret.
  - destruct (set_state_law (cw x) state (qi_ok _ _ Hq) Hm) as ([] & w' & Hrun & Hok & Hcu & Hst); [by eexists|].
    apply returns_bind. eapply returns_eq; [unfold on_world; by rewrite Hrun|]. apply returns_ret. split; [|done].
    eapply queue_inv_ins; [|eapply queue_inv_sleep; eauto]. set_solver.
Qed.

Lemma wait_enter_ok x ins timeout state :
  queue_inv x ins → wk_current (cw x) ∉ ins → awake (cw x) (entry (wk_current (cw x))) →
  wk_may (cw x) → 0 ≤ timeout → has_flag state TASK_NORMAL = true →
  Z.of_nat (length (task_list x)) + 1 < 2 ^ 31 →
  returns (wait_enter timeout state) x (wait_post x ins).
Proof.
  intros Hq Hin Ha Hm Ht Hs Hlen. unfold wait_enter. apply returns_bind. eapply returns_eq; [reflexivity|].
  destruct (done x =? 0) eqn:Hd; bsimp.
  - repeat (apply returns_bind; eapply returns_eq; [reflexivity|]).
    eapply returns_mono; [eapply wait_sleep_ok; try done|].
    + by eapply (queue_inv_join x ins); eauto.
    + set_solver.
    + intros [v|t] x' (Hq' & Hd'); (split; [|done]); (eapply queue_inv_ins; [|exact Hq']); simpl; set_solver.
  - apply returns_bind. eapply returns_mono; [by eapply wait_take_ok|].
    intros v x' (Hv & Hq' & Hd'). apply returns_ret. unfold wait_post. destruct (0 <? v) eqn:?; bsimp; [|lia].
    split; [|done]. eapply queue_inv_ins; [|exact Hq']. set_solver.
Qed.

Lemma wait_again_ok x ins timeout state :
  queue_inv x ins → wk_current (cw x) ∈ ins → awake (cw x) (entry (wk_current (cw x))) →
  wk_may (cw x) → 0 ≤ timeout → has_flag state TASK_NORMAL = true →
  returns (wait_again timeout state) x (wait_post x ins).
Proof.
  intros Hq Hin Ha Hm Ht Hs. unfold wait_again. apply returns_bind. eapply returns_eq; [reflexivity|].
  case_match; bsimp; [by apply wait_sleep_ok; naive_solver|].
  apply returns_bind. eapply returns_mono; [eapply wait_leave_ok; try done|].
  { destruct (done x =? 0) eqn:?, (timeout =? 0) eqn:?; simpl in *; try done; bsimp; lia. }
  intros v x' Hp. by apply returns_ret.
Qed.

(** Exactly the first thread that sleeps is woken up, if there is one. *)
Definition first_woken (x x' : cstate W) : Prop :=
  (Forall (awake (cw x)) (task_list x) ∧ same_states (cw x) (cw x')) ∨
  ∃ l1 c l2, task_list x = l1 ++ c :: l2 ∧ Forall (awake (cw x)) l1 ∧ ¬ awake (cw x) c ∧
    wakes (wq_private c) (cw x) (cw x').

Lemma complete_wakes x :
  wk_ok (cw x) → Forall (waiting (cw x)) (task_list x) →
  returns complete x (λ _ x', wk_ok (cw x') ∧ task_list x' = task_list x ∧
    done x' = u32 (done x + 1) ∧ first_woken x x').
Proof.
  intros Hok Hw. unfold complete, __wake_up_common. repeat (apply returns_bind; eapply returns_eq; [reflexivity|]).
  eapply returns_mono; [by apply wake_first|]. by intros [] x' ([] & Hres).
Qed.

Lemma complete_all_wakes x :
  wk_ok (cw x) → Forall (waiting (cw x)) (task_list x) → Z.of_nat (length (task_list x)) < 2 ^ 31 →
  returns complete_all x (λ _ x', wk_ok (cw x') ∧ task_list x' = task_list x ∧
    done x' = u32 (done x + UINT_MAX / 2) ∧
    ∀ q, wk_state (cw x') q =
      if bool_decide (q ∈ wq_private <$> task_list x) then Some TASK_RUNNING else wk_state (cw x) q).
Proof.
  intros Hok Hw Hl. unfold complete_all, __wake_up_common.
  repeat (apply returns_bind; eapply returns_eq; [reflexivity|]).
  eapply returns_mono; [apply wake_everybody; simpl; try done; lia|]. by intros [] x' ([] & Hres).
Qed.

Lemma u32_done_succ d : 0 ≤ d < 2 ^ 32 → 0 ≤ u32 (d + 1) < 2 ^ 32 ∧ u32 (d + 1) ≤ d + 1.
Proof.
  intros Hd. change (2 ^ 32) with 4294967296 in *. unfold uwrap. change (2 ^ 32) with 4294967296.
  split; [apply Z.mod_pos_bound; lia|apply Z.mod_le; lia].
Qed.

Lemma queue_inv_complete x x' ins :
  queue_inv x ins → wk_ok (cw x') → task_list x' = task_list x → done x' = u32 (done x + 1) →
  first_woken x x' → queue_inv x' ins.
Proof.
  intros [] Hok Hl Hd Hf. pose proof (u32_done_succ (done x) qi_done0) as Hb.
  assert (Z.min (done x + 1) (Z.of_nat (length (task_list x))) ≤ nr_awake (cw x') (task_list x)
          ∧ Forall (waiting (cw x')) (task_list x)) as [Hn Hw].
  { destruct Hf as [[Ha Hs]|(l1 & c & l2 & He & _ & Hna & Hwk)].
    - split; [|eapply Forall_impl; [exact qi_waiting0|]; intros c; apply waiting_same; intros q; left; apply Hs].
      rewrite nr_awake_all; [lia|]. eapply Forall_impl; [exact Ha|]. intros c. unfold awake. by rewrite (Hs _).
    - split; [rewrite He in *; pose proof (nr_awake_wakes _ _ l1 c l2 Hna Hwk); lia|].
      eapply Forall_impl; [exact qi_waiting0|]. intros c'. apply waiting_same. intros q. by eapply wakes_running. }
  split; rewrite ?Hl, ?Hd; try done; lia.
Qed.

Lemma queue_inv_complete_all x x' ins n :
  queue_inv x ins → wk_ok (cw x') → task_list x' = task_list x → done x' = n → 0 ≤ n < 2 ^ 32 →
  (∀ q, wk_state (cw x') q =
      if bool_decide (q ∈ wq_private <$> task_list x) then Some TASK_RUNNING else wk_state (cw x) q) →
  queue_inv x' ins.
Proof.
  intros [] Hok Hl Hd Hb Hst. split; rewrite ?Hl, ?Hd; try done.
  - eapply Forall_impl; [exact qi_waiting0|]. intros c. apply waiting_same. intros q. rewrite (Hst q).
    case_bool_decide; auto.
  - rewrite nr_awake_all; [lia|]. apply Forall_forall. intros c Hc. unfold awake. rewrite (Hst _).
    rewrite bool_decide_eq_true_2; [done|]. apply list_elem_of_fmap. eauto.
Qed.

(** *** The invariant *)

Lemma returns_run {S A} (m : M S A) s a s' (Q : A → S → Prop) : returns m s Q → m s = Ok a s' → Q a s'.
Proof. intros (b & s1 & Hm & HQ) Hm'. rewrite Hm in Hm'. by simplify_eq. Qed.

(** Taking one of what is there. *)
Lemma take_mod g : 0 ≤ g → 0 < u32 g → u32 g - 1 = u32 (g - 1) ∧ 1 ≤ g.
Proof.
  intros Hg Hp. assert (g ≠ 0) as Hne by (by intros ->). split; [|lia].
  unfold uwrap in *. change (2 ^ 32) with 4294967296 in *. pose proof (Z.mod_pos_bound g 4294967296).
  apply (Z.mod_unique_pos _ _ (g / 4294967296)); [lia|]. pose proof (Z.div_mod g 4294967296). lia.
Qed.

Lemma waited_inv s r x' :
  comp_inv s → wait_post (sx s) (inside s) r x' → comp_inv (waited s r x').
Proof.
  intros [Hq Hd Hb] Hp. unfold waited. destruct r as [v|t], Hp as [Hq' Hd'].
  - pose proof (qi_done _ _ Hq') as Hp. destruct (0 <? v); simpl in Hd' |- *.
    + destruct (take_mod (given s - taken s)) as [Ht Hpos]; [lia|lia|]. split; simpl; [done| |lia].
      rewrite Hd', Hd, Ht. f_equal. lia.
    + split; simpl; [done| |lia]. rewrite Hd', Hd. rewrite ?Z.add_0_r, ?Z.sub_0_r. done.
  - split; simpl; [done|congruence|lia].
Qed.

Lemma comp_step_inv s s' : comp_inv s → comp_step s s' → comp_inv s'.
Proof.
  intros Hi Hstep. pose proof Hi as [Hq Hd Hb]. pose proof (qi_done _ _ Hq).
  destruct Hstep as [s t st r x' [Hm Ha] Hin Ht Hs Hl Hrun|s t st r x' [Hm Ha] Hin Ht Hs Hrun
    |s b x' Hrun|s x' Hrun|s x' Hrun|s w' Hw Hk].
  - apply waited_inv; [done|]. eapply returns_run; [|exact Hrun]. by apply wait_enter_ok.
  - apply waited_inv; [done|]. eapply returns_run; [|exact Hrun]. by apply wait_again_ok.
  - unfold try_wait_for_completion in Hrun. mstep. destruct (done (sx s) =? 0) eqn:Hz; bsimp; simplify_eq/=.
    + split; simpl; [done|rewrite Z.add_0_r; done|lia].
    + rewrite u32_done by done. destruct (take_mod (given s - taken s)) as [Htm Hpos]; [lia|lia|].
      split; simpl; [by apply queue_inv_take| |lia]. rewrite Hd, Htm. f_equal. lia.
  - eapply returns_run in Hrun; [|apply complete_wakes; apply Hq]. destruct Hrun as (Hok & Hl & Hd' & Hf).
    split; simpl; [by eapply queue_inv_complete| |lia]. rewrite Hd', Hd, uwrap_add_l. f_equal. lia.
  - eapply returns_run in Hrun; [|apply complete_all_wakes; apply Hq]. destruct Hrun as (Hok & Hl & Hd' & Hf).
    pose proof uint_half. split; simpl; [eapply queue_inv_complete_all; eauto; rewrite ?Hd'; apply uwrap_range; done| |lia].
    rewrite Hd', Hd, uwrap_add_l. f_equal. lia.
  - pose proof (wk_step_law _ _ (qi_ok _ _ Hq) Hw). split; simpl; [by apply queue_inv_world|done..].
Qed.

Lemma comp_init_inv s : comp_init s → comp_inv s.
Proof.
  intros (Hok & Hd & Hl & Hin & Hg & Ht). split; [|by rewrite Hd, Hg, Ht|lia].
  split; rewrite ?Hl, ?Hd, ?Hin; simpl; try done; try constructor; try (intros; widths; set_solver || lia).
Qed.

Lemma comp_reachable_inv s : reachable comp_init comp_step s → comp_inv s.
Proof. exact (reachable_inv _ _ _ comp_init_inv comp_step_inv s). Qed.

(** C22. No completion is lost or taken twice: in every run of threads that wait for
    a completion (with any state and timeout), try it, complete it or complete it
    for all, interleaved with anything the rest of the system does, no more calls return
    with a completion than were given, and the counter is the number of completions given
    (2^31 - 1 for each [complete_all]) minus the calls that returned with one, modulo 2^32:
    exactly that number as long as fewer than 2^32 are left over. *)
Theorem completion_exact s :
  reachable comp_init comp_step s →
  done (sx s) = u32 (given s - taken s) ∧ 0 ≤ taken s ≤ given s ∧
  (given s - taken s < 2 ^ 32 → done (sx s) = given s - taken s).
Proof.
  intros Hr. destruct (comp_reachable_inv s Hr) as [_ Hd Hb]. split_and!; [done|lia|lia|].
  intros Hs. rewrite Hd. apply uwrap_small. widths. change (2 ^ 32) with 4294967296 in Hs. lia.
Qed.

Lemma awake_exists w l : 0 < nr_awake w l → ∃ c, c ∈ l ∧ awake w c.
Proof.
  unfold nr_awake. destruct (filter (awake w) l) as [|c l'] eqn:Hf; simpl; [lia|]. intros _.
  exists c. assert (c ∈ filter (awake w) l) as Hc by (rewrite Hf; left). apply list_elem_of_filter in Hc. tauto.
Qed.

(** C23. No wakeup is lost: whenever a completion is available and a call waits for
    it, at least as many waiters as there are completions (or all of them) are
    awake; one of them is found, and when it runs its call returns with a
    completion, whatever the time left. *)
Theorem completion_no_lost_wakeup s :
  reachable comp_init comp_step s → 0 < done (sx s) → inside s ≢ ∅ →
  Z.min (done (sx s)) (Z.of_nat (length (task_list (sx s)))) ≤ nr_awake (cw (sx s)) (task_list (sx s)) ∧
  ∃ p, p ∈ inside s ∧ wk_state (cw (sx s)) p = Some TASK_RUNNING ∧
    ∀ w' timeout state, wk_current w' = p → 0 ≤ timeout →
      returns (wait_again timeout state) ((sx s) <| cw := w' |>) (λ r x', ∃ v, r = inl v ∧ 0 < v ∧
        done x' = done (sx s) - 1 ∧ task_list x' = remove_one (entry p) (task_list (sx s))).
Proof.
  intros Hr Hd Hne. destruct (comp_reachable_inv s Hr) as [Hq _ _].
  split; [apply Hq|]. destruct (set_choose (inside s) Hne) as [q Hin].
  apply (qi_inside _ _ Hq) in Hin. assert (0 < Z.of_nat (length (task_list (sx s)))) as Hl
    by (destruct (task_list (sx s)); [by apply not_elem_of_nil in Hin|simpl; lia]).
  destruct (awake_exists (cw (sx s)) (task_list (sx s))) as (c & Hc & Ha); [pose proof (qi_awake _ _ Hq); lia|].
  pose proof (qi_waiting _ _ Hq) as Hw. rewrite Forall_forall in Hw. destruct (Hw c Hc) as [Hce _].
  exists (wq_private c). split_and!; [apply (qi_inside _ _ Hq); by rewrite Hce in Hc|done|].
  intros w' t st Hcu Ht. unfold wait_again, wait_leave, wait_take.
  apply returns_bind; eapply returns_eq; [reflexivity|]. simpl.
  destruct (done (sx s) =? 0) eqn:Hz; bsimp; [lia|]. simpl.
  eapply returns_eq; [mstep; destruct (done (sx s) =? 0) eqn:?; bsimp; [lia|reflexivity]|].
  eexists. split; [reflexivity|]. simpl. rewrite u32_done by (lia || apply Hq). rewrite Hcu.
  split_and!; [|done|done]. destruct (t =? 0) eqn:?; bsimp; lia.
Qed.

(** [complete] wakes up the first waiter of the queue that sleeps and nobody
    else (nobody at all if they are all awake), and counts one completion. *)
Theorem complete_fifo x :
  wk_ok (cw x) → Forall (waiting (cw x)) (task_list x) → 0 ≤ done x < UINT_MAX →
  returns complete x (λ _ x', task_list x' = task_list x ∧ done x' = done x + 1 ∧ first_woken x x').
Proof.
  intros Hok Hw Hd. eapply returns_mono; [by apply complete_wakes|]. intros [] x' (_ & Hl & Hd' & Hf).
  split_and!; [done| |done]. rewrite Hd'. apply uwrap_small. unfold UINT_MAX in *. widths. lia.
Qed.
End System.
