(* ===== verification/SchedWaker.v ===== *)
(** * The scheduler behind the wait queues

    [Completion.v] is written against the interface [Waker]; here the run queue of
    this library discharges it: [try_to_wake_up] wakes up, [__set_current_state]
    stores the state of the running task, and every step of the scheduler is a
    step of the world. *)

From S2P Require Import Prelude SchedData Fair Sched SchedSpec SchedRun Completion.

Section SchedWaker.
Context {Y : Type} `{SchedEnv Y} `{FairEnv Y} `{!ClassLaws}.
(** Wake functions other than the default one. *)
Context (wake_func : Z → wait_queue → Z → Z → Z → M (rq Y * list wait_queue) bool).
Implicit Types (r : rq Y).

Definition __set_current_state (s : Z) : M (rq Y) unit :=
  me ← gets curr; store_task me (λ t, t <| state := s |>).

Definition sched_waker : Waker (rq Y) := {|
  wk_current := curr;
  wk_wake := try_to_wake_up;
  wk_set_state := __set_current_state;
  wk_signal := λ s r, match tasks r !! curr r with Some t => signal_pending_state s t | None => false end;
  wk_func := wake_func
|}.

Definition task_state r (p : Z) : option Z := state <$> tasks r !! p.

(** The running task is not the idle task. *)
Definition may_sleep r : Prop := class <$> tasks r !! curr r ≠ Some idle_sched_class.

Lemma upd_state p t r r' q :
  upd p t r r' → task_state r' q = if bool_decide (q = p) then Some (state t) else task_state r q.
Proof.
  intros Hu. unfold task_state. case_bool_decide as Hq.
  - subst q. destruct (upd_lookup _ _ _ _ Hu) as (t' & -> & He). simpl. by rewrite (erase_state _ _ He).
  - pose proof (up_others _ _ _ _ Hu q Hq) as Ho.
    destruct (tasks r' !! q), (tasks r !! q); simpl in *; try done.
    apply (inj Some) in Ho. by rewrite (erase_state _ _ Ho).
Qed.

Lemma __set_current_state_ok r t s :
  live r → tasks r !! curr r = Some t → class t ≠ idle_sched_class →
  returns (__set_current_state s) r (λ _ r', live r' ∧ upd (curr r) (t <| state := s |>) r r').
Proof.
  intros Hr Ht Hi. unfold __set_current_state. apply returns_bind. eexists _, _. split; [reflexivity|].
  eapply returns_mono; [by apply (set_state_live r (curr r) t s)|]. by intros [] r' (? & ? & _).
Qed.

Lemma sched_wake_law r p s mode f :
  workers_quiet → live r → task_state r p = Some s →
  returns (try_to_wake_up p mode f) r (λ b r', live r' ∧ b = has_flag s mode ∧ curr r' = curr r ∧
    ∀ q, task_state r' q = if b && bool_decide (q = p) then Some TASK_RUNNING else task_state r q).
Proof.
  intros Hw Hr Hs. apply fmap_Some in Hs as (t & Ht & ->).
  eapply returns_mono; [by apply (try_to_wake_up_ok r p mode f t)|]. intros b r' (Hr' & Hres).
  destruct (has_flag (state t) mode); [|by destruct Hres as (-> & ->)].
  destruct Hres as (-> & Hu & _). split_and!; [done|done|apply (up_curr _ _ _ _ Hu)|].
  intros q. by rewrite (upd_state _ _ _ _ q Hu).
Qed.

Lemma sched_set_state_law r s :
  live r → may_sleep r → is_Some (task_state r (curr r)) →
  returns (__set_current_state s) r (λ _ r', live r' ∧ curr r' = curr r ∧
    ∀ q, task_state r' q = if bool_decide (q = curr r) then Some s else task_state r q).
Proof.
  intros Hr Hm [s0 Hs0]. apply fmap_Some in Hs0 as (t & Ht & ->). unfold may_sleep in Hm. rewrite Ht in Hm.
  eapply returns_mono;
    [apply (__set_current_state_ok r t s); try done; intros He; apply Hm; simpl; by rewrite He|].
  intros [] r' (Hr' & Hu). split_and!; [done|apply (up_curr _ _ _ _ Hu)|].
  intros q. by rewrite (upd_state _ _ _ _ q Hu).
Qed.

Definition sched_waker_laws (Hw : workers_quiet) : @WakerLaws (rq Y) sched_waker :=
  @Build_WakerLaws (rq Y) sched_waker live may_sleep task_state
    (λ r p s mode f Hr Hs, sched_wake_law r p s mode f Hw Hr Hs) sched_set_state_law.

(** *** Steps of the scheduler as steps of the world *)

Lemma attrs_state r r' q : attrs <$> tasks r' !! q = attrs <$> tasks r !! q → task_state r' q = task_state r q.
Proof.
  unfold task_state. intros Ha. destruct (tasks r' !! q), (tasks r !! q); simpl in *; try done.
  injection Ha as _ _ _ _ _ _ _ Hs. by rewrite Hs.
Qed.

Lemma upd_keeps p t t0 r r' q :
  upd p t r r' → tasks r !! p = Some t0 → state t = state t0 → task_state r' q = task_state r q.
Proof.
  intros Hu Ht Hs. rewrite (upd_state _ _ _ _ q Hu). case_bool_decide as Hq; [|done].
  subst q. unfold task_state. rewrite Ht. simpl. by rewrite Hs.
Qed.

Lemma renice_state nice t : state (renice nice t) = state t.
Proof. unfold renice, niced, set_weights. do 2 (case_match; [done|]). by destruct (weights_of _ _). Qed.

Lemma with_policy_state p pol priority t : state (with_policy p pol priority t) = state t.
Proof. unfold with_policy, set_weights. cbv zeta. case_match; [by destruct t|]. by destruct (weights_of _ _), t. Qed.

(** The only step of the scheduler that puts a task to sleep is the running task
    setting its own state. *)
Lemma sched_step_keeps r r' q :
  workers_quiet → (∀ p, pi_quiet p) → live r → sched_step r r' →
  (q = curr r ∧ ∃ s, store_task (curr r) (λ t, t <| state := s |>) r = Ok tt r') ∨
  task_state r' q = task_state r q ∨ task_state r' q = Some TASK_RUNNING.
Proof.
  intros Hw Hpi Hr Hstep. pose proof (lv_ok r Hr) as Hok.
  destruct Hstep as [r now|r r' Hrun|r s t r' Ht Hi Hrun|r p sp sk r' Hrun|r p st f b r' Hrun
                    |r p ct r' Hp Hcu Hct Hpc Hsz Hrun|r p t r' Ht Hq Ho Hrun|r t next r' Ht Hf _ Hrun
                    |r p nice r' Hrun|r p t policy' priority user v r' Ht Hi Hrun].
  - right. by left.
  - right. left. apply (returns_fun _ _ _ _ _ (scheduler_tick_live r Hr)) in Hrun as (_ & Hs & _).
    by apply attrs_state, attrs_same.
  - destruct (decide (q = curr r)) as [->|Hne]; [left; eauto|]. right. left.
    rewrite (store_task_eq r _ t _ Ht) in Hrun. injection Hrun as <-. unfold task_state. simpl.
    by rewrite lookup_insert_ne.
  - right. left. destruct (tasks r !! p) as [t|] eqn:Ht.
    + apply (returns_fun _ _ _ _ _ (set_signal_live r p t sp sk Hr Ht)) in Hrun as (_ & Hu & _).
      by eapply upd_keeps.
    + unfold store_task, load_task, mbind, M_bind, gets in Hrun. by rewrite Ht in Hrun.
  - right. destruct (tasks r !! p) as [t|] eqn:Ht.
    + apply (returns_fun _ _ _ _ _ (try_to_wake_up_ok r p st f t Hw Hr Ht)) in Hrun as [_ Hres].
      destruct (has_flag _ _); [destruct Hres as (_ & Hu & _)|destruct Hres as [_ ->]; by left].
      rewrite (upd_state _ _ _ _ q Hu). case_bool_decide; auto.
    + unfold try_to_wake_up, load_task, mbind, M_bind, gets in Hrun. by rewrite Ht in Hrun.
  - right. apply (returns_fun _ _ _ _ _ (sched_fork_ok r p ct Hr Hp Hcu Hct Hpc Hsz)) in Hrun
      as (_ & (t & Hn & Hu) & _).
    rewrite (upd_state _ _ _ _ q Hu), (nb_running _ _ Hn). case_bool_decide; auto.
  - right. left. apply (returns_fun _ _ _ _ _ (wake_up_new_task_ok r p t Hr Ht Hq Ho)) in Hrun as (_ & Hu & _).
    by eapply upd_keeps.
  - right. destruct (schedule_run r t Hr Ht Hf) as (v & r2 & next' & r'' & c & Hpre & Hrun' & _ & _ & _ & _ & Hat & _).
    rewrite Hrun in Hrun'. injection Hrun' as <- <-.
    destruct (before_pick_ok r t Hr Ht Hf) as (v' & r2' & Hpre' & _ & _ & Ha & _ & s & Hs & Hor).
    rewrite Hpre in Hpre'. injection Hpre' as <- <-. rewrite (attrs_state _ _ _ (Hat q)).
    destruct (decide (q = curr r)) as [->|Hne]; [|left; by apply attrs_state, Ha].
    unfold task_state. rewrite Hs, Ht. destruct Hor as [-> | ->]; auto.
  - right. left. destruct (tasks r !! p) as [t|] eqn:Ht.
    + destruct (set_user_nice_run r p nice t Hok Ht (lv_mycfs r Hr p t Ht)) as (r1 & Hr1 & Hok1 & Hu & _).
      rewrite Hrun in Hr1. injection Hr1 as <-. eapply upd_keeps; [exact Hu|exact Ht|apply renice_state].
    + unfold set_user_nice, load_task, mbind, M_bind, gets in Hrun. by rewrite Ht in Hrun.
  - right. left. assert (queueing (class t)) as Hm.
    { pose proof (lv_mycfs r Hr p t Ht). unfold queueing. by destruct (class t); auto. }
    destruct (decide ((if policy' <? 0 then policy t else Z.ldiff policy' SCHED_RESET_ON_FORK)
                      = SCHED_MYCFS)) as [Hpol|Hpol].
    + by rewrite (setscheduler_mycfs_run r p policy' priority user t v r' Hok Ht Hm Hpol Hrun).
    + destruct (setscheduler_run r p policy' priority user t (Hpi p) Hok Ht Hm Hpol)
        as (v1 & r1 & Hr1 & [[-> _]|(-> & Hok1 & pol & reset & Hu & Hpe)]);
        rewrite Hrun in Hr1; injection Hr1 as -> ->; [done|].
      eapply upd_keeps; [exact Hu|exact Ht|]. by rewrite with_policy_state.
Qed.
End SchedWaker.
