(* ===== verification/SchedDemo.v ===== *)
(** * A concrete machine

    Instances of everything the scheduler is parameterised by: a tree library, and
    stop, real-time and idle classes that keep one list of queued tasks.  A run
    queue with the idle task 0, a fair task 1 that runs, a fair task 2 that waits,
    and a real-time task 3 and a fair task 4 that sleep.  The theorems of the scheduler are applied
    to it. *)

From S2P Require Import Prelude SchedData Fair Sched SchedSpec SchedRun FairSpec FairClass FairTheorems.

(** ** A tree library *)

Fixpoint rb_join (l r : rb_tree) : rb_tree :=
  match l with
  | RB_ROOT => r
  | rb_node a x b => rb_node a x (rb_join b r)
  end.

Fixpoint tree_erase (s : se_ptr) (t : rb_tree) : rb_tree :=
  match t with
  | RB_ROOT => RB_ROOT
  | rb_node l x r =>
      if decide (s ∈ inorder l) then rb_node (tree_erase s l) x r
      else if decide (s = x) then rb_join l r
      else rb_node l x (tree_erase s r)
  end.

Lemma inorder_join l r : inorder (rb_join l r) = inorder l ++ inorder r.
Proof. induction l as [|a IHa x b IHb]; simpl; [done|]. by rewrite IHb, <- app_assoc. Qed.

Lemma remove_one_app {A} `{EqDecision A} (x : A) l1 l2 :
  remove_one x (l1 ++ l2) =
    if decide (x ∈ l1) then remove_one x l1 ++ l2 else l1 ++ remove_one x l2.
Proof.
  induction l1 as [|y l1 IH]; simpl; [done|]. destruct (decide (x = y)) as [->|Hne].
  - rewrite decide_True by (by left). done.
  - rewrite IH. destruct (decide (x ∈ l1)).
    + rewrite decide_True by (by right). done.
    + rewrite decide_False; [done|]. by intros [?|?]%elem_of_cons.
Qed.

Lemma tree_erase_inorder s t : inorder (tree_erase s t) = remove_one s (inorder t).
Proof.
  induction t as [|l IHl x r IHr]; simpl; [done|]. rewrite remove_one_app. simpl.
  destruct (decide (s ∈ inorder l)); simpl; [by rewrite IHl|].
  destruct (decide (s = x)); simpl; [by rewrite inorder_join|]. by rewrite IHr.
Qed.

(** ** Classes and environment *)

Definition list_offer (c : sched_class) (r : rq (list Z)) : option Z :=
  if decide (c = idle_sched_class) then Some (idle r)
  else head (filter (λ q, class <$> tasks r !! q = Some c) (other r)).

Definition list_methods (c : sched_class) : methods (list Z) := mkMethods
  (Some (λ p _, modify (λ r, r <| other ::= cons p |> <| nr_running := u32 (nr_running r + 1) |>)))
  (Some (λ p _, modify (λ r, r <| other ::= filter (λ q, q ≠ p) |>
                               <| nr_running := u32 (nr_running r - 1) |>)))
  (Some (mret tt)) None (Some (λ _ _, mret tt)) (Some (gets (list_offer c)))
  (Some (λ _, mret tt)) (Some (mret tt)) (Some (λ _ _, mret tt)) None
  None (Some (λ _, mret tt)) (Some (λ _ _, mret tt)).

#[export] Instance demo_env : SchedEnv (list Z) := {|
  class_methods := list_methods;
  current := 1;
  find_task_by_vpid := λ pid, Some pid;
  capable_sys_nice := true;
  rlimit_rtprio := λ _, 0;
  rlimit_nice := λ _, 0;
  cred_euid := λ _, 0;
  cred_uid := λ _, 0;
  cred_user_ns := λ _, 0;
  security_task_setscheduler := λ _, 0;
  security_task_getscheduler := λ _, 0;
  security_task_setnice := λ _ _, 0;
  rt_mutex_getprio := λ _ n, n;
  rt_mutex_adjust_pi := λ _, mret tt;
  rt_group_no_runtime := λ _, false;
  preempt_active := false;
  wq_worker_sleeping := λ _, None;
  wq_worker_waking_up := λ _, mret tt
|}.

#[export] Instance demo_fair_env : FairEnv (list Z) := {|
  rb_insert_color := λ _ t, t;
  rb_erase := tree_erase;
  rb_next := λ s t, next_in s (inorder t);
  feat_START_DEBIT := true;
  feat_GENTLE_FAIR_SLEEPERS := true;
  feat_NEXT_BUDDY := false;
  feat_LAST_BUDDY := true;
  cfs_bandwidth_used := false;
  TICK_NSEC := 10000000;
  num_online_cpus := 1;
  hrtimer_callback_running := λ _ _, false;
  hrtimer_expires_remaining := λ _ _, 0;
  task_group_of := λ _, 0
|}.

#[export] Instance demo_rb : RbLaws.
Proof. split; [done|intros; apply tree_erase_inorder|done]. Qed.

(** Every listed task is a stop or real-time task, and the idle task is idle. *)
Definition list_ok (r : rq (list Z)) : Prop :=
  NoDup (other r) ∧
  (∀ p, p ∈ other r → ∃ t, tasks r !! p = Some t ∧
    (class t = stop_sched_class ∨ class t = rt_sched_class)) ∧
  class <$> tasks r !! idle r = Some idle_sched_class.

Lemma aside_refl (r r' : rq (list Z)) :
  tasks r' = tasks r → cfs_rqs r' = cfs_rqs r → groups r' = groups r → curr r' = curr r →
  idle r' = idle r → stop r' = stop r → aside r r'.
Proof. intros Ht Hc Hg Hcu Hi Hs. split; [split|..]; unfold ents; rewrite ?Ht; done. Qed.

Lemma list_ok_same (r r' : rq (list Z)) :
  list_ok r → other r' = other r → idle r' = idle r →
  (∀ q, class <$> tasks r' !! q = class <$> tasks r !! q) → list_ok r'.
Proof.
  intros (Hn & Hm & Hi) Ho Hid Hc. split_and!; [by rewrite Ho| |by rewrite Hid, Hc].
  rewrite Ho. intros p Hp. destruct (Hm p Hp) as (t & Ht & Hct). specialize (Hc p).
  rewrite Ht in Hc. apply fmap_Some in Hc as (t' & ? & Heq). exists t'. split; [done|].
  by rewrite <- Heq.
Qed.

#[export] Instance demo_other : OtherLaws.
Proof.
  refine {| oth_ok := list_ok; oth_queued := λ r, list_to_set (other r) |}.
  - intros r r' Hr Ho Hs. split; [|by rewrite Ho].
    apply (list_ok_same r); try done; [apply (ss_idle _ _ Hs)|]. intros q. by apply class_same.
  - intros r p Hr. split; [|done]. by apply (list_ok_same r).
  - intros r p t t' (Hn & Hm & Hi) Ht Hp Hc. split; [|done].
    assert (∀ q tq, tasks r !! q = Some tq → q ≠ p ∨ class t' = class t →
      ∃ tq', <[p := t']> (tasks r) !! q = Some tq' ∧ class tq' = class tq) as Hkeep.
    { intros q tq Htq Hor. destruct (decide (q = p)) as [->|Hne].
      - rewrite lookup_insert_eq. exists t'. split; [done|]. destruct Hor; [done|congruence].
      - rewrite lookup_insert_ne by done. eauto. }
    split_and!; [done| |].
    + intros q Hq. destruct (Hm q Hq) as (tq & Htq & Hcq). simpl.
      destruct (Hkeep q tq Htq) as (tq' & ? & Hcl); [|exists tq'; by rewrite Hcl].
      destruct Hc as [|[_ Hc]]; [by right|left]. intros ->. apply Hc. by apply elem_of_list_to_set.
    + simpl. apply fmap_Some in Hi as (ti & Hti & Hci).
      destruct (Hkeep (idle r) ti Hti) as (ti' & -> & Hcl); [|simpl; by rewrite Hcl, <- Hci].
      destruct Hc as [|[Hc _]]; [by right|left]. intros Heq. rewrite Heq, Ht in Hti.
      injection Hti as <-. done.
  - intros r p t (Hn & Hm & Hi) Hp Hc. split; [|done]. split_and!; [done| |]; simpl.
    + intros q Hq. destruct (Hm q Hq) as (tq & Htq & Hcq). exists tq.
      rewrite lookup_insert_ne; [done|]. intros <-. congruence.
    + rewrite lookup_insert_ne; [done|]. intros Heq. rewrite <- Heq, Hp in Hi. done.
  - done.
  - intros r p (_ & Hm & _) Hp. apply Hm. by apply elem_of_list_to_set in Hp.
  - intros r p flags t (Hn & Hm & Hi) Ht Hc Hp. eexists. split; [done|].
    eexists _, _. split; [reflexivity|]. split_and!; [|by apply aside_refl|done|done].
    split_and!; [|intros q [->|Hq]%elem_of_cons; eauto|done].
    simpl. constructor; [|done]. intros Hp'. apply Hp. by apply elem_of_list_to_set.
  - intros r p flags t (Hn & Hm & Hi) Ht Hp. eexists. split; [done|].
    eexists _, _. split; [reflexivity|]. split_and!; [|by apply aside_refl| |done].
    + split_and!; [simpl; by apply NoDup_filter| |done]. simpl.
      intros q [_ Hq]%list_elem_of_filter. eauto.
    + simpl. apply set_eq. intros q. rewrite elem_of_difference, !elem_of_list_to_set.
      rewrite list_elem_of_filter, elem_of_singleton. tauto.
  - intros r t Hr Ht Hc. eexists. split; [done|]. apply returns_ret.
    split_and!; [done|by apply aside_refl|done|done].
  - intros r t Hr Ht Hc. eexists. split; [done|]. apply returns_ret.
    split_and!; [done|by apply aside_refl|done|done].
  - intros r t Hr Ht Hc. eexists. split; [done|]. apply returns_ret.
    split_and!; [done|by apply aside_refl|done|done].
  - intros r t p f Hr Ht Hc Hp Hq. eexists. split; [done|]. apply returns_ret.
    split_and!; [done|by apply aside_refl|done|done].
  - intros r c m p t Hr Hc Hm. done.
  - intros r p t Hr Ht Hc Hcu. eexists. split; [done|]. apply returns_ret.
    split_and!; [done|by apply aside_refl|done|done].
  - intros r p old t Hr Ht Hc Hcu. eexists. split; [done|]. apply returns_ret.
    split_and!; [done|by apply aside_refl|done|done].
  - intros r c Hr Hc Hsync. eexists. split; [done|]. eexists _, _. split; [reflexivity|].
    pose proof Hr as (Hn & Hm & Hi). unfold list_offer. destruct (decide _) as [->|Hni].
    + split_and!; [done|by apply aside_refl|done|done|done|done].
    + destruct (head _) as [p|] eqn:Hp; [|done].
      apply head_Some_elem_of, list_elem_of_filter in Hp as [Hcp Hp].
      split_and!; [done|by apply aside_refl|done|done|done|].
      intros _. by apply elem_of_list_to_set.
Defined.

Lemma demo_no_limits : cfs_bandwidth_used (Y := list Z) = false.
Proof. done. Qed.

#[export] Instance demo_laws : ClassLaws := fair_class_laws demo_no_limits.

(** ** A run queue *)

Definition demo_entity (on start vr : Z) : sched_entity :=
  mkSe (mkLoad 1024 4194304) on start 0 vr 0 None 0 None.

Definition demo_task (pid policy rtp prio : Z) (c : sched_class) (on st vr : Z) : task :=
  mkTask pid policy rtp 120 prio prio c on st 0 true false
    (demo_entity (if decide (c = fair_sched_class) then on else 0) 1000000 vr) false 0 0 false false.

Definition idle_0 : task := demo_task 0 SCHED_NORMAL 0 120 idle_sched_class 0 TASK_RUNNING 0.
Definition fair_1 : task := demo_task 1 SCHED_NORMAL 0 120 fair_sched_class 1 TASK_RUNNING 5000000.
Definition fair_2 : task := demo_task 2 SCHED_NORMAL 0 120 fair_sched_class 1 TASK_RUNNING 4000000.
Definition rt_3 : task := demo_task 3 SCHED_FIFO 10 89 rt_sched_class 0 TASK_INTERRUPTIBLE 0.
Definition fair_4 : task := demo_task 4 SCHED_NORMAL 0 120 fair_sched_class 0 TASK_INTERRUPTIBLE 0.

Definition no_bandwidth : cfs_bandwidth := mkBandwidth 100000000 (-1) 0 0 false false false false [] 0 0 0.

(** The queue of the fair class while task 1 runs and task 2 waits. *)
Definition demo_cfs (current : option se_ptr) (t : rb_tree) : cfs_rq :=
  mkCfsRq (mkLoad 2048 0) 2 2 4000000 4000000 t (head (inorder t)) current None None None
    true false 0 0 0 false 0.

Definition demo_tunables : tunables :=
  mkTunables 6000000 6000000 750000 750000 1000000 1000000 8 0 1 5000.

Definition demo_rq (current : option se_ptr) (t : rb_tree) : rq (list Z) := mkRq
  (<[0 := idle_0]> (<[1 := fair_1]> (<[2 := fair_2]> (<[3 := rt_3]> (<[4 := fair_4]> ∅))))) ∅
  (<[0 := demo_cfs current t]> ∅)
  (<[0 := mkGroup 1024 None None [] no_bandwidth]> ∅)
  [0] demo_tunables 1 0 None 2 (mkLoad 2048 0) 9000000 8000000 8000000 0 0 0
  (mkMycfsRq [] 0 0) [].

(** Task 1 runs, or has been put aside. *)
Definition demo_running : rq (list Z) :=
  demo_rq (Some (TaskSe 1)) (rb_node RB_ROOT (TaskSe 2) RB_ROOT).
Definition demo_aside : rq (list Z) :=
  demo_rq None (rb_node RB_ROOT (TaskSe 2) (rb_node RB_ROOT (TaskSe 1) RB_ROOT)).

Ltac each_task Ht :=
  repeat (apply lookup_insert_Some in Ht as [[<- <-]|[_ Ht]]; [|]); [..|done].

Lemma demo_fair_queued c t : fair_queued (demo_rq c t) = {[1; 2]}.
Proof. vm_compute. reflexivity. Qed.

Lemma demo_fair_ok (b : bool) (c : option se_ptr) (t : rb_tree) (l : list Z) :
  inorder t = TaskSe <$> l → NoDup l → (∀ p, p ∈ l ↔ (p = 1 ∨ p = 2) ∧ c ≠ Some (TaskSe p)) →
  c = (if b then Some (TaskSe 1) else None) → fair_ok b (demo_rq c t).
Proof.
  intros Hl Hn Hm Hc. split.
  - by exists (mkGroup 1024 None None [] no_bandwidth).
  - exists (demo_cfs c t), l. split_and!; [done| |done|by subst c; destruct b]. split; try done.
    + intros p e He. unfold ents in He. apply lookup_fmap_Some in He as (tk & <- & Ht). simpl in Ht.
      each_task Ht; split; vm_compute; auto; naive_solver.
    + intros p. change (queued_set _) with (fair_queued (demo_rq c t)). rewrite demo_fair_queued.
      rewrite Hm. set_solver.
    + simpl. rewrite Hl. by destruct l.
    + simpl. intros x ->. destruct b; [|done]. injection Hc as ->. exists 1. by split; [|eexists].
    + by intros x [|[|]].
  - intros p. rewrite demo_fair_queued. rewrite elem_of_union, !elem_of_singleton.
    by intros [-> | ->].
Qed.

Lemma demo_list_ok c t : list_ok (demo_rq c t).
Proof. split_and!; [constructor|intros p []%not_elem_of_nil|done]. Qed.

Lemma demo_all_ok (b : bool) (c : option se_ptr) (t : rb_tree) (l : list Z) :
  inorder t = TaskSe <$> l → NoDup l → (∀ p, p ∈ l ↔ (p = 1 ∨ p = 2) ∧ c ≠ Some (TaskSe p)) →
  c = (if b then Some (TaskSe 1) else None) → class_ok b (demo_rq c t).
Proof.
  intros. split; [by apply (demo_fair_ok b c t l)|by apply demo_list_ok|].
  rewrite demo_fair_queued. done.
Qed.

Lemma demo_synced c t : synced (demo_rq c t).
Proof.
  intros q tq Ht _. change (queued (demo_rq c t) q) with (all_queued (demo_rq c t) q).
  unfold all_queued. rewrite demo_fair_queued. simpl in Ht |- *.
  each_task Ht; simpl; set_solver.
Qed.

Lemma running_ok : class_ok true demo_running.
Proof.
  apply (demo_all_ok true _ _ [2]); [done|by repeat constructor; set_solver| |done].
  intros p. rewrite list_elem_of_singleton. split; [intros ->; by split; [right|]|].
  intros [[-> | ->] ?]; done.
Qed.

Lemma aside_ok : class_ok false demo_aside.
Proof.
  apply (demo_all_ok false _ _ [2; 1]); [done| | |done].
  - constructor; [set_solver|]. constructor; [set_solver|constructor].
  - intros p. set_solver.
Qed.

Lemma demo_rq_ok : rq_ok demo_running.
Proof.
  split; [apply running_ok| |apply demo_synced|by eexists].
  intros q t Ht. simpl in Ht. each_task Ht; split; vm_compute; naive_solver.
Qed.

Lemma demo_live : live demo_running.
Proof.
  split; [apply demo_rq_ok|..].
  - intros q t Ht. simpl in Ht. by each_task Ht.
  - intros q t Ht. simpl in Ht. by each_task Ht.
  - intros t [= <-]. by right.
Qed.

Lemma demo_pi_quiet p : pi_quiet p.
Proof. intros r Hr. by apply returns_ret. Qed.

Lemma demo_workers : workers_quiet.
Proof. intros p r Hr. by apply returns_ret. Qed.

(** A class with an offer withholds nothing. *)
Lemma offers_not_withheld (r : rq (list Z)) c p : queueing c → offer c r = Some p → ¬ withheld r.
Proof. intros Hc Ho [_ Hno]. by rewrite (Hno c Hc) in Ho. Qed.

(** ** The theorems at work *)

Lemma set_user_nice_correct_witness :
  ∃ r', set_user_nice 2 (-5) demo_running = Ok tt r' ∧ rq_ok r' ∧
    upd 2 (renice (-5) fair_2) demo_running r' ∧
    need_resched <$> tasks r' !! curr r' = Some true ∧
    weight (load (se (renice (-5) fair_2))) = 3121.
Proof.
  destruct (set_user_nice_correct demo_running 2 (-5) fair_2 demo_rq_ok) as (r' & Hr & Hok & Hu & Hn);
    [reflexivity|done|].
  exists r'. split_and!; try done. apply Hn; [done|done|]. left. by vm_compute.
Defined.

Lemma sched_setscheduler_correct_witness :
  ∃ v r', __sched_setscheduler 2 SCHED_FIFO 50 true demo_running = Ok v r' ∧ rq_ok r' ∧ v = 0 ∧
    ∃ t', tasks r' !! 2 = Some t' ∧ asks_for SCHED_FIFO 50 fair_2 t'.
Proof.
  destruct (sched_setscheduler_correct demo_running 2 SCHED_FIFO 50 true fair_2)
    as (v & r' & Hr & Hok & _ & _ & Hv);
    [apply demo_pi_quiet|exact demo_rq_ok|reflexivity|by right; right|done|].
  exists v, r'. assert (v = 0) as -> by (vm_compute in Hr; by injection Hr).
  split_and!; try done. by apply Hv.
Defined.

Lemma setscheduler_mycfs_faults_witness :
  ∃ r', sys_sched_setscheduler 2 SCHED_MYCFS (Some (Some 0)) demo_running = Err NullDeref r'.
Proof.
  apply (setscheduler_mycfs_faults demo_running 2 2 fair_2 demo_rq_ok);
    (done || reflexivity || by right; right).
Defined.

Lemma pick_next_task_highest_witness :
  ∃ p r' c, pick_next_task demo_aside = Ok p r' ∧ first_offer class_chain demo_aside c p ∧
    chosen c demo_aside p r' ∧ p = 2.
Proof.
  destruct (pick_next_task_highest demo_aside) as (p & r' & c & Hr & Hf & Hc);
    [exact aside_ok|apply demo_synced|by eexists|].
  exists p, r', c. split_and!; try done. vm_compute in Hr. by injection Hr.
Defined.

Lemma try_to_wake_up_live_witness :
  returns (try_to_wake_up 3 TASK_NORMAL 0) demo_running (λ b r', live r' ∧ b = true ∧ queued r' 3).
Proof.
  eapply returns_mono; [exact (try_to_wake_up_live demo_running 3 TASK_NORMAL 0 rt_3
    demo_workers demo_live eq_refl)|].
  intros b r' (Hl & Hb & _ & Hq). done.
Defined.

Lemma schedule_live_witness :
  ∃ v r2, before_pick demo_running = Ok v r2 ∧ ¬ withheld r2 ∧
  returns __schedule demo_running (λ next r', live r' ∧ curr r' = next ∧ queued r' 1).
Proof.
  destruct (schedule_live demo_running fair_1 demo_live eq_refl) as (v & r2 & Hpre & Hrun); [by intros _|].
  assert (¬ withheld r2) as Hw.
  { assert (r2 = res_state (before_pick demo_running)) as -> by (by rewrite Hpre).
    eapply (offers_not_withheld _ fair_sched_class); [by right; right|]. vm_compute. reflexivity. }
  exists v, r2. split_and!; [done|done|]. eapply returns_mono; [exact Hrun|].
  intros next r' (Hc & _ & Hq & [[? _]|[_ Hl]]); [done|]. split_and!; try done. apply Hq. split; [|done].
  by apply (demo_synced (Some (TaskSe 1)) (rb_node RB_ROOT (TaskSe 2) RB_ROOT) 1 fair_1).
Defined.

(** Time passes, the real-time task is woken up and the processor rescheduled. *)
Definition after_wake_up : rq (list Z) :=
  match try_to_wake_up 3 TASK_NORMAL 0 (demo_running <| hw_clock := 10000000 |>) with
  | Ok _ r => r | Err _ r => r
  end.
Definition after_schedule : rq (list Z) :=
  match __schedule after_wake_up with Ok _ r => r | Err _ r => r end.

Lemma sched_reachable_live_witness :
  rtc sched_step demo_running after_schedule ∧ live after_schedule ∧ curr after_schedule = 3.
Proof.
  assert (rtc sched_step demo_running after_schedule) as Hs.
  { eapply rtc_l; [apply (step_time demo_running 10000000)|].
    eapply rtc_l; [eapply (step_wake _ 3 TASK_NORMAL 0 true after_wake_up); by vm_compute|].
    eapply rtc_l; [|apply rtc_refl].
    eapply (step_schedule after_wake_up _ 3 after_schedule); [by vm_compute|by intros _| |by vm_compute].
    intros v r2 Hpre. assert (r2 = res_state (before_pick after_wake_up)) as -> by (by rewrite Hpre).
    eapply (offers_not_withheld _ rt_sched_class); [by right; left|]. vm_compute. reflexivity. }
  destruct (tasks after_schedule !! 3) as [t|] eqn:Ht; [|by vm_compute in Ht].
  split_and!; [done| |by vm_compute].
  by apply (sched_reachable_live demo_running after_schedule 3 t demo_workers demo_pi_quiet demo_live).
Defined.

Lemma schedule_work_conserving_witness :
  ∃ v r2, before_pick demo_running = Ok v r2 ∧
  returns __schedule demo_running (λ next r', ∃ tn, tasks r' !! next = Some tn ∧
    ∀ q tq, tasks r' !! q = Some tq → queued r' q → class_rank (class tn) < class_rank (class tq) → offer (class tq) r2 = None).
Proof. apply (schedule_work_conserving demo_running fair_1 demo_live eq_refl). by intros _. Defined.

(** The real-time class is throttled and offers nothing; the real-time task 3 runs and is the
    only one queued.  A reschedule hands the processor back to it: the MYCFS class returns
    the running task, whatever its class. *)
Definition throttled_methods (c : sched_class) : methods (list Z) := mkMethods
  None None (Some (mret tt)) None (Some (λ _ _, mret tt))
  (Some (if decide (c = rt_sched_class) then mret None else gets (list_offer c)))
  (Some (λ _, mret tt)) (Some (mret tt)) (Some (λ _ _, mret tt)) None None (Some (λ _, mret tt)) (Some (λ _ _, mret tt)).

Definition throttled_env : SchedEnv (list Z) := {|
  class_methods := throttled_methods; current := 1; find_task_by_vpid := λ pid, Some pid; capable_sys_nice := true;
  rlimit_rtprio := λ _, 0; rlimit_nice := λ _, 0; cred_euid := λ _, 0; cred_uid := λ _, 0; cred_user_ns := λ _, 0;
  security_task_setscheduler := λ _, 0; security_task_getscheduler := λ _, 0; security_task_setnice := λ _ _, 0;
  rt_mutex_getprio := λ _ n, n; rt_mutex_adjust_pi := λ _, mret tt; rt_group_no_runtime := λ _, false;
  preempt_active := false; wq_worker_sleeping := λ _, None; wq_worker_waking_up := λ _, mret tt
|}.

Definition only_real_time : rq (list Z) :=
  res_state ((_ ← deactivate_task 1 0; _ ← store_task 1 (λ t, t <| on_rq := 0 |>);
              _ ← deactivate_task 2 0; store_task 2 (λ t, t <| on_rq := 0 |>)) after_schedule).

Example throttled_task_runs_on :
  offer (H := throttled_env) rt_sched_class only_real_time = None ∧ other only_real_time = [3] ∧
  ∃ r', @__schedule (list Z) throttled_env demo_fair_env only_real_time = Ok 3 r'.
Proof. split; [vm_compute; reflexivity|]. split; [vm_compute; reflexivity|]. eexists. vm_compute. reflexivity. Qed.

(** *** The fair class *)

Lemma calc_delta_mine_accurate_witness :
  2 ^ 32 * Z.abs ((calc_delta_mine 10000000 1024 (mkLoad 820 5237765)).1 * 820 - 10000000 * 1024)
    ≤ 10000000 * 1024 * 820 + (820 + 2 ^ 16) * 2 ^ 32 ∧
  (calc_delta_mine 10000000 1024 (mkLoad 820 5237765)).1 = 12487805.
Proof.
  split; [|reflexivity].
  apply (calc_delta_mine_accurate 10000000 1024 (mkLoad 820 5237765)); simpl; try lia.
  right. vm_compute. discriminate.
Defined.

Lemma running_queue :
  fair_queue demo_running (demo_cfs (Some (TaskSe 1)) (rb_node RB_ROOT (TaskSe 2) RB_ROOT)) [2].
Proof.
  destruct running_ok as [Hf _ _]. split_and!; [done| |apply (fo_root _ _ Hf)].
  destruct (fo_queue _ _ Hf) as (q & l & Hc & Hq & _). injection Hc as <-.
  pose proof (qo_line _ _ _ Hq) as Hl. destruct l as [|x [|]]; try done. by injection Hl as <-.
Qed.

Lemma update_curr_charges_witness :
  returns (update_curr 0) demo_running (λ _ r', ∃ q',
    (ents r', q') = run_curr 8000000 (ents demo_running)
      (demo_cfs (Some (TaskSe 1)) (rb_node RB_ROOT (TaskSe 2) RB_ROOT)) ∧
    (vruntime <$> ents r' !! 1) = Some 12000000).
Proof.
  eapply returns_mono; [exact (update_curr_charges demo_no_limits demo_running _ _ running_queue)|].
  intros [] r' (q' & _ & He & _). exists q'. split; [exact He|].
  apply (f_equal fst) in He. simpl in He. rewrite He. reflexivity.
Defined.

Lemma requeue_keeps_lag_witness :
  returns (_ ← dequeue_entity 0 (TaskSe 2) 0; enqueue_entity 0 (TaskSe 2) 0) demo_running (λ _ r',
    ∃ q' l', fair_queue r' q' l' ∧ lag (ents r') q' 2 = Some 0).
Proof.
  eapply returns_mono;
    [exact (requeue_keeps_lag demo_no_limits demo_running _ _ 2 (se fair_2) running_queue eq_refl eq_refl)|].
  intros [] r' (q' & l' & Hf & _ & Hlag & _). exists q', l'. split; [done|].
  etrans; [exact Hlag|]. vm_compute. reflexivity.
Defined.

(** Task 3 as a fair task would be queued behind task 2. *)
Lemma enqueue_entity_sorted_witness :
  returns (enqueue_entity 0 (TaskSe 3) ENQUEUE_WAKEUP) demo_running (λ _ r',
    ∃ q' l', fair_queue r' q' l' ∧ (near 0 (ents r') [3; 2] → sorted 0 (ents r') l')).
Proof.
  eapply returns_mono; [apply (enqueue_entity_sorted demo_no_limits demo_running _ _ 3 (se rt_3)
    ENQUEUE_WAKEUP 0 running_queue eq_refl eq_refl); repeat constructor|].
  intros [] r' (q' & l' & Hf & _ & Hs). exists q', l'. split; [done|]. intros Hn. by apply Hs.
Defined.

Lemma pick_next_task_fair_choice_witness :
  returns pick_next_task_fair demo_aside (λ o _, ∃ p, o = Some p ∧ p ∈ fair_queued demo_aside).
Proof.
  eapply returns_mono; [apply (pick_next_task_fair_choice demo_no_limits demo_aside), aside_ok|].
  intros [p|] r'; [intros [Hp _]; eauto|].
  intros [_ He]. change (fair_queued demo_aside) with (fair_queued (demo_rq None
    (rb_node RB_ROOT (TaskSe 2) (rb_node RB_ROOT (TaskSe 1) RB_ROOT)))) in He.
  rewrite demo_fair_queued in He. set_solver.
Defined.

Lemma fair_enqueue_dequeue_witness :
  returns (enqueue_task_fair 4 ENQUEUE_WAKEUP) demo_running (λ _ r1,
    nr_running r1 = 3 ∧ returns (dequeue_task_fair 4 DEQUEUE_SLEEP) r1 (λ _ r2,
      fair_step true demo_running (fair_queued demo_running) 2 r2)).
Proof.
  eapply returns_mono; [apply (fair_enqueue_dequeue demo_no_limits true demo_running 4 fair_4
    ENQUEUE_WAKEUP DEQUEUE_SLEEP); [apply running_ok|done|done| |done]|].
  - unfold demo_running. rewrite demo_fair_queued. set_solver.
  - intros [] r1 [Hs Hd]. split; [apply Hs|exact Hd].
Defined.

(** A group that has 2 ms of its quota left in the pool and has overdrawn its
    queue by 1 ms. *)
Definition demo_pool : cfs_bandwidth :=
  mkBandwidth 100000000 10000000 2000000 50000000 true true true false [] 0 0 0.
Definition demo_limited : rq (list Z) := demo_running
  <| cfs_rqs ::= <[5 := (demo_cfs None RB_ROOT) <| runtime_remaining := -1000000 |>]> |>
  <| groups ::= <[5 := mkGroup 1024 (Some (GroupSe 5)) (Some 0) [] demo_pool]> |>.

Lemma assign_runtime_conserves_witness :
  returns (assign_cfs_rq_runtime 5) demo_limited (λ ok r', ∃ q' b', ok = true ∧
    limited demo_limited 5 q' b' r' ∧ runtime b' + runtime_remaining q' = 1000000).
Proof.
  eapply returns_mono; [apply (assign_runtime_conserves demo_limited 5
    ((demo_cfs None RB_ROOT) <| runtime_remaining := -1000000 |>) demo_pool)|].
  - split; [done|by eexists|done].
  - done.
  - by vm_compute.
  - by vm_compute.
  - by vm_compute.
  - intros ok r' (q' & b' & Hl & _ & Hsum & Hb & [_ Hmax] & Hok & Hf). exists q', b'.
    change (runtime (refilled _ _) + _) with 1000000 in Hsum.
    split_and!; [|done|done]. destruct ok; [done|]. specialize (Hf eq_refl).
    symmetry in Hok. apply Z.ltb_ge in Hok. lia.
Defined.

Lemma sched_fork_child_witness :
  returns (sched_fork 7) (demo_running <| tasks ::= <[7 := dup_task 7 fair_1]> |>) (λ _ r',
    live r' ∧ returns (wake_up_new_task 7) r' (λ _ r'', live r'' ∧ queued r'' 7)).
Proof.
  eapply returns_mono; [apply (sched_fork_child demo_running 7 fair_1 demo_live eq_refl eq_refl eq_refl);
    [by right|by vm_compute]|].
  intros [] r' (Hl & _ & _ & _ & Hw). done.
Defined.
