(* ===== verification/GroupDemo.v ===== *)
(** * Groups on the concrete machine

    The scheduler of [SchedDemo.v] with a tree of groups that starts with the root
    alone; the theorems on the limits of groups are applied to runs of it. *)

From S2P Require Import Prelude SchedData Fair Sched FairSpec FairClass FairFrame Groups GroupSpec GroupRun GroupCfs GroupTheorems SchedDemo.

(** A number above those of all groups. *)
Definition above (l : list Z) : Z := 1 + foldr Z.max 0 l.

Lemma above_fresh l x : x ∈ l → x < above l.
Proof. unfold above. induction l as [|y l IH]; [by intros ?%not_elem_of_nil|]. intros [->|Hx]%elem_of_cons; simpl; [lia|]. specialize (IH Hx). lia. Qed.

#[export] Instance demo_group_env : GroupEnv (list Z) := {|
  kzalloc_group := λ s, Some (above (map_to_list (groups (proc s))).*1);
  kzalloc_arrays := λ _, true;
  kzalloc_queue := λ _, true;
  alloc_rt_sched_group := λ _ _, Some (mkRt 1000000000 0 {[0 := 0]});
  rq_rt_tg := λ _, 0;
  cred_suid := λ _, 0
|}.

#[export] Instance demo_group_laws : GroupLaws (list Z).
Proof.
  split.
  - intros s g [= <-]. apply eq_None_not_Some. intros [t Ht].
    pose proof (above_fresh (map_to_list (groups (proc s))).*1 (above (map_to_list (groups (proc s))).*1)) as Hlt.
    apply elem_of_map_to_list in Ht. apply (list_elem_of_fmap_2 fst) in Ht. apply Hlt in Ht. lia.
  - intros s p b [= <-]. simpl. split_and!; [done|done|done|]. by intros c x [-> ->]%lookup_singleton_Some.
Qed.

Definition unlimited : cfs_bandwidth := zero_bandwidth <| period := default_cfs_period |> <| quota := RUNTIME_INF |>.

(** The root group alone, with 950 ms of real-time run time every second. *)
Definition tree_0 : gsys (list Z) := mkG
  (demo_running <| groups := {[0 := mkGroup 1024 None None [] unlimited]} |>)
  {[0 := mkRt 1000000000 950000000 {[0 := 950000000]}]} {[0 := -1]} ∅ [0] 1000000 950000
  (1000000000, 950000000) 0.

Lemma tree_0_ok : tree_ok (tree_of (proc tree_0)) [0].
Proof.
  assert (tree_of (proc tree_0) = {[0 := (None, [])]}) as ->
    by (unfold tree_of, tree_0; simpl; by rewrite map_fmap_singleton).
  split.
  - apply NoDup_singleton.
  - split; [by left|]. exists []. by rewrite lookup_singleton_eq.
  - intros g ->%list_elem_of_singleton. exists None, []. rewrite lookup_singleton_eq. split_and!; [done|constructor|].
    by intros c ?%not_elem_of_nil.
  - by intros g ->%list_elem_of_singleton.
  - exists (λ _, 0%nat). split; [done|]. intros g p ks c ->%list_elem_of_singleton. rewrite lookup_singleton_eq.
    intros [= <- <-]. by intros ?%not_elem_of_nil.
Qed.

Lemma tree_0_inv : groups_inv tree_0.
Proof.
  split; split.
  - split; [exact tree_0_ok|simpl; lia| |done|done]. intros g ->%list_elem_of_singleton.
    split; [by eexists|]. split; [done|by right].
  - by right.
  - intros g ->%list_elem_of_singleton. by split; [right| |].
  - intros g b c x ->%list_elem_of_singleton Hb. simpl in Hb. apply lookup_singleton_Some in Hb as [_ <-]. simpl.
    by intros [_ <-]%lookup_singleton_Some.
  - split; [exact tree_0_ok| |done]. intros g ->%list_elem_of_singleton. by split; [|left].
  - intros g a n m ->%list_elem_of_singleton. done.
Qed.

(** A group below the root, and a group below that one. *)
Definition after {A} (m : M (gsys (list Z)) A) (s : gsys (list Z)) : gsys (list Z) :=
  match m s with Ok _ s' => s' | Err _ s' => s' end.

Definition tree_1 : gsys (list Z) := after (sched_create_group 0) tree_0.
Definition tree_2 : gsys (list Z) := after (sched_create_group 1) tree_1.

Lemma create_1 : sched_create_group 0 tree_0 = Ok (inl 1) tree_1.
Proof. by vm_compute. Qed.

Lemma create_2 : sched_create_group 1 tree_1 = Ok (inl 2) tree_2.
Proof. by vm_compute. Qed.

Lemma task_groups_1 : task_groups tree_1 = [1; 0].
Proof. by vm_compute. Qed.

Lemma task_groups_2 : task_groups tree_2 = [2; 1; 0].
Proof. by vm_compute. Qed.

Lemma tree_2_run : rtc group_step tree_0 tree_2.
Proof.
  eapply rtc_l; [|apply rtc_once].
  - apply (step_create _ 0 (inl 1)); [by left|simpl; lia|exact create_1].
  - apply (step_create _ 1 (inl 2)); rewrite ?task_groups_1; [by left|simpl; lia|exact create_2].
Qed.

Lemma tree_2_inv : groups_inv tree_2.
Proof. eapply groups_inv_reachable; [exact tree_0_inv|exact tree_2_run]. Qed.

(** ** The theorems at these states *)

Lemma ok_value {S A} (m : res S A) a s b s' : m = Ok a s → m = Ok b s' → a = b.
Proof. congruence. Qed.

Lemma set_rt_run : sched_group_set_rt_runtime 1 500000 tree_2 = Ok 0 (after (sched_group_set_rt_runtime 1 500000) tree_2).
Proof. vm_compute. reflexivity. Qed.

Lemma handler_run : sched_rt_handler true 0 1000000 2000000 tree_2 = Ok (- EINVAL) (after (sched_rt_handler true 0 1000000 2000000) tree_2).
Proof. vm_compute. reflexivity. Qed.

Lemma set_cfs_run : tg_set_cfs_quota 1 50000 tree_2 = Ok 0 (after (tg_set_cfs_quota 1 50000) tree_2).
Proof. vm_compute. reflexivity. Qed.

Lemma group_limits_invariant_witness :
  groups_inv tree_0 ∧ rtc group_step tree_0 tree_2 ∧ ∀ g, g ∈ task_groups tree_2 → rt_fits tree_2 (limit_of tree_2) g.
Proof.
  split_and!; [exact tree_0_inv|exact tree_2_run|].
  exact (proj1 (proj2 (group_limits_invariant tree_0 tree_2 tree_0_inv tree_2_run))).
Defined.

(** Half of the processor for the real-time tasks of group 1. *)
Lemma set_rt_runtime_exact_witness :
  returns (sched_group_set_rt_runtime 1 500000) tree_2 (λ ret s', ret = 0 ∧ limit_of s' 1 = (1000000000, 500000000) ∧
    sched_group_rt_runtime 1 s' = Ok 500000 s').
Proof.
  destruct (set_rt_runtime_exact tree_2 1 500000) as (ret & s' & Hrun & Hset & Hread).
  - exact (proj1 tree_2_inv).
  - rewrite task_groups_2. by right; left.
  - done.
  - exists ret, s'. split; [exact Hrun|].
    assert (ret = 0) as -> by (eapply ok_value; [exact Hrun|exact set_rt_run]).
    split_and!; [done|exact (proj1 (proj2 (proj2 Hset)))|exact (Hread eq_refl)].
Defined.

(** A global run time above the period is refused and the old values stay. *)
Lemma sched_rt_handler_exact_witness :
  returns (sched_rt_handler true 0 1000000 2000000) tree_2 (λ ret s', ret = - EINVAL ∧ s' = tree_2).
Proof.
  destruct (sched_rt_handler_exact tree_2 1000000 2000000) as (ret & s' & Hrun & Hset).
  - exact (proj1 tree_2_inv).
  - done.
  - done.
  - exists ret, s'. split; [exact Hrun|].
    assert (ret = - EINVAL) as -> by (eapply ok_value; [exact Hrun|exact handler_run]).
    split; [done|]. exact (proj1 Hset).
Defined.

(** 50 ms of every 100 ms for the fair tasks of group 1. *)
Lemma set_cfs_quota_exact_witness :
  returns (tg_set_cfs_quota 1 50000) tree_2 (λ ret s', ret = 0 ∧ cap_of s' 1 = (100000000, 50000000) ∧
    tg_get_cfs_quota 1 s' = Ok 50000 s').
Proof.
  destruct (set_cfs_quota_exact tree_2 1 50000) as (ret & s' & Hrun & Hset).
  - exact (proj2 tree_2_inv).
  - rewrite task_groups_2. by right; left.
  - done.
  - split; [by eexists; vm_compute|]. by eexists; vm_compute.
  - rewrite task_groups_2. intros x Hx. rewrite !elem_of_cons, elem_of_nil in Hx.
    destruct Hx as [->|[->|[->|[]]]]; [left; by vm_compute|right; by vm_compute|left; by vm_compute].
  - exists ret, s'. split; [exact Hrun|].
    assert (ret = 0) as -> by (eapply ok_value; [exact Hrun|exact set_cfs_run]).
    destruct Hset as (_ & _ & Hcap & Hget). split_and!; [done|exact (Hcap 1)|exact Hget].
Defined.
