(* ===== verification/CompletionDemo.v ===== *)
(** * Completions on the concrete machine

    The scheduler of [SchedDemo.v] behind the wait queues: task 1 waits for a
    completion, the processor goes to task 2, and task 2 completes.  The theorems
    on completions are applied to this run. *)

From S2P Require Import Prelude SchedData Fair Sched SchedSpec SchedRun Completion SchedWaker FairSpec FairClass SchedDemo.

#[local] Instance demo_waker : Waker (rq (list Z)) := sched_waker (λ _ _ _ _ _, mret false).

#[local] Instance demo_waker_laws : WakerLaws (rq (list Z)) := sched_waker_laws _ demo_workers.

Lemma demo_step_law (r r' : rq (list Z)) : wk_ok r → sched_step r r' → wk_ok r'.
Proof. exact (sched_step_live demo_workers demo_pi_quiet r r'). Qed.

Definition final {S A} (r : res S A) : S := match r with Ok _ s => s | Err _ s => s end.

(** Nobody waits; task 1 waits; task 2 runs; task 2 has completed. *)
Definition sys_0 : csys := mkSys (mkC demo_running 0 []) ∅ 0 0.
Definition sys_1 : csys :=
  mkSys (final (wait_enter MAX_SCHEDULE_TIMEOUT TASK_UNINTERRUPTIBLE (sx sys_0))) ({[1]} ∪ ∅) 0 0.
Definition sys_2 : csys := mkSys ((sx sys_1) <| cw := final (__schedule (cw (sx sys_1))) |>) ({[1]} ∪ ∅) 0 0.
Definition sys_3 : csys := mkSys (final (complete (sx sys_2))) ({[1]} ∪ ∅) 1 0.

Lemma demo_waits : reachable comp_init (comp_step sched_step) sys_2.
Proof.
  exists sys_0. split; [split_and!; [exact demo_live|done..]|].
  eapply rtc_l; [|eapply rtc_l; [|apply rtc_refl]].
  - apply (cs_enter _ sys_0 MAX_SCHEDULE_TIMEOUT TASK_UNINTERRUPTIBLE (inr MAX_SCHEDULE_TIMEOUT) (sx sys_1));
      [by split|set_solver|by vm_compute..].
  - apply (cs_world _ sys_1).
    + eapply (step_schedule _ _ 2); [by vm_compute|by intros _| |by vm_compute].
      intros v r2 Hpre. assert (r2 = res_state (before_pick (cw (sx sys_1)))) as -> by (by rewrite Hpre).
      eapply (offers_not_withheld _ fair_sched_class); [by right; right|]. vm_compute. reflexivity.
    + intros q Hq. assert (q = 1) as -> by set_solver. left. by vm_compute.
Qed.

Lemma demo_run : reachable comp_init (comp_step sched_step) sys_3.
Proof.
  eapply reachable_trans; [exact demo_waits|]. apply rtc_once. apply (cs_complete _ sys_2); by vm_compute.
Qed.

Lemma completion_exact_witness :
  done (sx sys_3) = 1 ∧ done (sx sys_3) = u32 (given sys_3 - taken sys_3) ∧ 0 ≤ taken sys_3 ≤ given sys_3.
Proof.
  split; [by vm_compute|]. destruct (completion_exact sched_step demo_step_law sys_3 demo_run) as (Hd & Hb & _). by split.
Defined.

Lemma completion_no_lost_wakeup_witness :
  curr (cw (sx sys_3)) = 2 ∧ ∃ p, p ∈ inside sys_3 ∧ wk_state (cw (sx sys_3)) p = Some TASK_RUNNING.
Proof.
  split; [by vm_compute|].
  destruct (completion_no_lost_wakeup sched_step demo_step_law sys_3 demo_run) as (_ & p & Hp & Hst & _);
    [by vm_compute| |exists p; split; assumption].
  change (({[1]} ∪ ∅ : gset Z) ≢ ∅). set_solver.
Defined.

Lemma complete_fifo_witness :
  returns complete (sx sys_2) (λ _ x', done x' = 1 ∧ wk_state (cw x') 1 = Some TASK_RUNNING).
Proof.
  pose proof (comp_reachable_inv sched_step demo_step_law sys_2 demo_waits) as Hi.
  eapply returns_mono; [apply (complete_fifo (sx sys_2)); [apply Hi..|by vm_compute]|].
  intros [] x' (Hl & Hd & Hf). split; [by rewrite Hd|].
  assert (task_list (sx sys_2) = [entry 1]) as He by by vm_compute.
  destruct Hf as [[Ha _]|(l1 & c & l2 & Hc & _ & _ & Hw)].
  - rewrite He in Ha. inversion Ha as [|? ? Haw _]. by vm_compute in Haw.
  - rewrite He in Hc. destruct l1 as [|? [|]]; simplify_eq/=. exact (Hw 1).
Defined.
